(* ===== verification/_CoqProject ===== *)
-Q . S2P
Prelude.v
Handles.v
CompiledGraph.v
GraphOrder.v
GraphSearch.v
GraphConflicts.v
GraphTheorems.v
RateTimeline.v
RateTimelineTheorems.v
CanonicalBytes.v
SnapshotCodec.v
CodecFields.v
CheckpointTheorems.v
InputLogTheorems.v
SnapshotStore.v
SnapshotStoreTheorems.v
DeviceCommands.v
DeviceCommandTheorems.v
CrossRateTypes.v
RateDispatch.v
RateDueCount.v
RateAdmission.v
RateSlices.v
RateDispatchStages.v
RateDispatchTheorems.v
RateComposition.v
CrossRateData.v
CrossRateSelections.v
CrossRateTheorems.v
DeviceRatePlan.v
DeviceRatePhases.v
DeviceRateWaits.v
ListSums.v
DeviceRateSweep.v
DeviceRateAdmission.v
DeviceRateTheorems.v
SeqRing.v
SeqRingInvariant.v
SeqRingProgress.v
SeqRingSequential.v
RecordLayout.v
Telemetry.v
RateTelemetry.v
MixedRateActions.v
LiveControlActions.v
RingCursor.v
RingTheorems.v
WatchdogMonitor.v
SampledIo.v
SampledIoFrames.v
SampledIoResults.v
MixedRateReplay.v
MixedRateReplayLayout.v
MixedRateReplayTheorems.v
MixedRateReplayResults.v
HalV2.v
HalV2Theorems.v
HeterogeneousMemory.v
HeterogeneousMemoryTheorems.v
LoopbackBackend.v
LoopbackCalls.v
LoopbackSlots.v
LoopbackTheorems.v
LoopbackFrames.v
DeviceManager.v
DeviceOwnership.v
DeviceAdmission.v
DeviceLanes.v
DeviceLaneTheorems.v
LiveControlState.v
LiveControlMailbox.v
LiveControlBoundary.v
LiveControlCreate.v
LiveControlCore.v
LiveControlScan.v
LiveControlInvariant.v
LiveControlPreserved.v
LiveControlReach.v
LiveControlGenerations.v
LiveControlTheorems.v
