(* ===== verification/Prelude.v ===== *)
(** * RTFW: a verification library for the bounded simulation runtime

    RTFW (src/rt) is a C++20 runtime for bounded, deterministic simulation.  A
    host registers phases, dependencies, resources, rate domains, devices and
    cross-rate channels while configuring; a chain of compilers checks the
    declarations and turns them into immutable plans; execution then only reads
    those plans.  What happens while it runs is recorded in lock-free rings and
    exchanged with devices over bounded channels; state leaves the runtime as
    checkpoint, input-log and replay artifacts.  This library models the
    compilers, the lock-free parts, the device boundary and the artifact codecs,
    and proves them correct.

    ** Parts, files and correspondence

    Shared: this prelude, and ListSums.v (sums over lists, used wherever a
    counter is compared with what it counts).

    Plan compilers
    - Handles.v: the 64-bit handles of include/rt/graph.hpp, bit by bit.
    - CompiledGraph.v: [compile_graph] of src/compiled_graph.cpp, with its ready
      list, its depth-first cycle search and its scan for unordered conflicting
      accesses.  GraphOrder, GraphSearch and GraphConflicts hold
      the loop invariants; GraphTheorems states the claims.
    - RateTimeline.v: [compile_rate_timeline] of src/rate_timeline.cpp;
      RateTimelineTheorems characterises each stage and states the claims.
    - DeviceCommands.v: device handles and the command batches of
      include/rt/device_abi.h and src/command_batch.cpp; DeviceCommandTheorems
      states the claims.
    - CrossRateTypes.v: channel declarations and the fields of a device plan that
      the next two compilers read.
    - DeviceRatePlan.v: [compile_device_rate_plan] of src/rate_dispatch.cpp.
      DeviceRatePhases treats the device phases, DeviceRateWaits the completion
      waits, DeviceRateSweep the in-flight sweep, DeviceRateAdmission the
      per-device budget, DeviceRateTheorems the claims.
    - RateDispatch.v: [compile_rate_dispatch], [count_due_domain_releases] and
      [count_due_rate_work] of src/rate_dispatch.cpp.  RateDueCount treats the
      counting, RateAdmission the budget schedule, RateSlices the counting sort,
      the release groups and the device dependencies,
      RateDispatchStages the validation, RateDispatchTheorems the claims.
    - RateComposition.v: the class [ReferencePlan], which states what the
      timeline compiler promises; plans of [compile_rate_timeline] are instances,
      and dispatch and cross-rate theorems are proved against it.
    - CrossRateData.v: [compile_cross_rate_data] of src/cross_rate_data.cpp.
      CrossRateSelections relates selections to the repeated supercycle;
      CrossRateTheorems states the claims.
    - SampledIo.v: src/sampled_io.cpp, the frame format, the plan compiler and
      the slot operations of sampled input and output.  SampledIoFrames treats
      the format and the slots, SampledIoResults the compiler and the claims.

    Lock-free parts
    - SnapshotStore.v: the class SnapshotStore of src/cross_rate_data.cpp, as
      operations that run alone and as a step relation of one producer and one
      consumer whose atomic accesses and byte copies interleave freely;
      SnapshotStoreTheorems holds the invariant and the claims.
    - SeqRing.v: the sequence-numbered overwriting ring that telemetry, rate
      telemetry, mixed-rate actions and live-control actions share, one atomic
      access per step, with any number of writers and readers.
      SeqRingInvariant and SeqRingProgress hold what every
      interleaving keeps; SeqRingSequential what a call alone does.  Telemetry.v,
      RateTelemetry.v, MixedRateActions.v and LiveControlActions.v instantiate
      it with the records of src/telemetry.cpp, src/rate_telemetry.cpp,
      src/mixed_rate_actions.cpp and src/live_control_actions.cpp; RecordLayout
      is the word image of those records, RingCursor the
      cursor reads, RingTheorems the claims.
    - WatchdogMonitor.v: src/watchdog_monitor.cpp.

    Live control
    - LiveControlState.v, LiveControlMailbox.v, LiveControlBoundary.v and
      LiveControlCreate.v: LiveControlMailboxSet of src/live_control_mailbox.cpp: the
      state, admission with its lossless journal, boundaries, step transactions,
      stop, claims, inspection, and the validated construction.  The state passes
      through the calls one at a time, outside replay.
    - LiveControlCore.v: the invariant of a mailbox and the equivalence of states that
      differ in their log; LiveControlScan.v: the scan of a boundary and the pass that
      keeps the last record of a kind; LiveControlInvariant.v, LiveControlPreserved.v
      and LiveControlReach.v: the invariant of every reachable state, and a small
      configuration; LiveControlGenerations.v: the published and rollback generations;
      LiveControlTheorems.v: the claims.

    Device boundary
    - HalV2.v: src/hal_v2.cpp, the validators of the version 2 interface and the
      adapter that presents a version 1 backend through it; HalV2Theorems states the claim.
    - HeterogeneousMemory.v: the topology, residency and transfer model of
      src/heterogeneous_memory.cpp; HeterogeneousMemoryTheorems its claims.
    - LoopbackBackend.v: the loopback device of src/loopback_backend.cpp, its
      routes, its frames and its execution of one request.  LoopbackCalls
      treats its action ring and its submit, poll, cancel and health
      calls as machines that take one atomic access per step; LoopbackSlots the
      ownership invariant; LoopbackTheorems and LoopbackFrames the claims.
    - DeviceManager.v: src/device_manager.cpp where one thread runs: the slot
      layout, initialisation and shutdown of the backends with the buffers
      registered at them, and the admission and translation of a command batch;
      DeviceOwnership and DeviceAdmission state the claims.  The backends are
      tables of functions that may answer anything or throw.
    - DeviceLanes.v: the threads of the device manager, as an executable step
      function over the slots, the timelines and what each thread holds: the
      providers inside submit_batch, the submission lanes, the service thread
      with its polls and time-outs, the waits on rate tickets, the stop request,
      and beside them the slots of single submissions.  A step is one access to
      the state word of a slot with the owner's work that follows it.
      DeviceLaneTheorems holds the invariant of every interleaving and the
      claims.

    Artifacts
    - CanonicalBytes.v and SnapshotCodec.v: include/rt/canonical_bytes.hpp and
      src/snapshot_codec.cpp.  CodecFields holds the field and checksum lemmas,
      CheckpointTheorems and InputLogTheorems the claims on the two formats.
    - MixedRateReplay.v: the active replay artifact of src/mixed_rate_replay.cpp;
      MixedRateReplayLayout relates it to its byte image,
      MixedRateReplayTheorems and MixedRateReplayResults state the claims.

    A file and a function name are kept from the source wherever possible;
    record fields carry a prefix per record.  A C++ function that returns a
    status and writes an output parameter becomes a function from its inputs and
    the old output to the status and the new output, so that "the output is
    untouched" is a statement about the model.  Early returns are binds of the
    error monad below ([let!]).  Integers kept in 32 or 64 bits are [Z] with the
    wrap written out ([u32], [u64]) or with the checked operation of the source;
    vector positions are [nat]; sentinel indices are [None]; bytes are [Z] in
    0..255 and characters are their codes.

    ** What the theorems show

    - Graph: acceptance is equivalent to valid handles, acyclic dependencies and
      ordered conflicts; the order is topological, greedy by index and
      independent of registration order; each refusal is explained by its
      diagnostic.
    - Timeline: acceptance is equivalent to validity and representability; the
      releases are exactly the declared ones, sorted, inside one least common
      multiple of the periods.
    - Dispatch: acceptance is equivalent to validity and the existence of a
      feasible schedule; the admission is the earliest such schedule; groups,
      slices, shed order and device dependencies are exact; counting without
      walking agrees with the plan over every supercycle.
    - Cross-rate data: the compiled selections are sample-and-hold over the
      infinite repetition of the supercycle; storage is bounded; device slots are
      confined and disjoint.
    - Device commands and device rate plan: an accepted batch stays inside its
      regions; the compiled plan bounds the requests in flight, orders every wait
      after what it waits for, and accepts exactly the feasible declarations.
    - Sampled I/O: the plan is exact, its groups are safe to run together, and a
      corrupted frame is refused.
    - Snapshot store: writer and reader never touch one slot at once, copies are
      exact, generations are published in order.
    - Rings: under every interleaving of writers and readers a record is read
      whole or not at all, the counters account for every publication, every call
      returns, and the retained records are the newest window.
    - Watchdog: it fires exactly on an armed deadline that has passed, and does
      fire.
    - Live control: a boundary publishes exactly the last staged record of each kind
      and mailbox with its payload; a failed step restores the generation it found and
      rolls back what it took; no record is lost, duplicated or left waiting for a
      boundary that has closed.
    - HAL, memory and loopback: the version 1 adapter keeps the version 2
      contract; a discovered topology is well formed; every accepted request of
      the loopback device is completed exactly once whatever calls interleave,
      its calls return, and the frames it routes keep their identity.
    - Device manager: the backends are called by the ownership protocol and a
      successful stop leaves nothing held; a batch reaches a backend exactly when
      its points and references are admissible; under every interleaving and
      every answer of a backend each batch and each submission is reported
      complete once, each graph phase is released once, timelines only advance
      and stay below what was accepted, and a quarantined slot is left alone.
      Two runs show a slot reused between two accesses of a thread: a batch
      submitted before its waits, and a completion told to the wrong phase.
    - Codecs: the formats round-trip, every parsed artifact can be walked to its
      end, and any single-byte change is detected.

    ** Bounds and fuel

    The loops whose termination is not structural carry fuel, and each bound is
    proved enough where it is used: the searches of the graph compiler start with
    a bound computed from the number of phases and edges (GraphSearch); the
    device phase visit runs with the number of phases, the in-flight sweep with
    the number of events, completion runs and safe groups with the length of
    their list; record walks of the codecs with the record count of the header;
    a loopback call with five accesses per queue slot plus sixteen
    ([loopback_calls_return]).  All other loops are structural over the input
    vectors.

    ** Not modelled

    Allocation failure (bad_alloc) and the catch-all handlers; weak memory orders
    (every atomic is sequentially consistent here, so a defect that only a weaker
    order exposes is out of reach); the scheduler and executor threads, of
    the device manager the start and join of threads, the counters an idle thread
    sleeps on, health, reset and the storage estimate, the CUDA, XDMA and mock
    backends, memory, resource and
    thread policies, extension registration and the runtime profile, the
    orchestration of the host runtime beyond the calls into the parts above, the
    C ABI, and the legacy simulation core.  Of live control,
    the checkpoint image, replay injection, the replay artifact and the interleaving
    of producers with a boundary are not modelled.  The planned order of extension
    is: the live-control replay artifact and checkpoint, extension registration.

    This file holds the shared prelude: machine integers, status codes, sorting,
    the error monad, and generic list lemmas. *)

From stdpp Require Import base list numbers sorting sets.
From Stdlib Require Import ZArith Lia Bool.

(** ** Machine integers *)

Declare Scope rtfw_scope.
Delimit Scope rtfw_scope with rtfw.

Definition u32_max : Z := 4294967295.
Definition u64_max : Z := 18446744073709551615.
Definition u32 (z : Z) : Z := (z mod 4294967296)%Z.
Definition u64 (z : Z) : Z := (z mod 18446744073709551616)%Z.

Definition is_u8 (z : Z) : Prop := (0 <= z < 256)%Z.
Definition is_u32 (z : Z) : Prop := (0 <= z <= u32_max)%Z.
Definition is_u64 (z : Z) : Prop := (0 <= z <= u64_max)%Z.

Lemma u64_range z : is_u64 (u64 z).
Proof.
  unfold is_u64, u64. pose proof (Z.mod_pos_bound z 18446744073709551616 eq_refl).
  unfold u64_max. lia.
Qed.

Lemma u64_small z : is_u64 z -> u64 z = z.
Proof. unfold is_u64, u64, u64_max. intros H. apply Z.mod_small. lia. Qed.

Notation "x +u y" := (u64 (x + y)) (at level 50, left associativity) : rtfw_scope.
Notation "x -u y" := (u64 (x - y)) (at level 50, left associativity) : rtfw_scope.

(** *** Bits and arithmetic

    Bit-field packing and unpacking as arithmetic on disjoint ranges. *)

Lemma testbit_small b n i :
  (0 <= b < 2 ^ n)%Z -> (n <= i)%Z -> Z.testbit b i = false.
Proof.
  intros Hb Hi. destruct (decide (0 <= n)%Z).
  - rewrite <- (Z.mod_small b (2 ^ n)) by done. apply Z.mod_pow2_bits_high. lia.
  - rewrite Z.pow_neg_r in Hb; lia.
Qed.

Lemma land_shiftl_small a b n :
  (0 <= n)%Z -> (0 <= b < 2 ^ n)%Z -> Z.land (Z.shiftl a n) b = 0%Z.
Proof.
  intros Hn Hb. apply Z.bits_inj'. intros i Hi.
  rewrite Z.land_spec, Z.bits_0. destruct (decide (n <= i)%Z).
  - rewrite (testbit_small b n i) by done. by rewrite andb_false_r.
  - rewrite Z.shiftl_spec, Z.testbit_neg_r by lia. done.
Qed.

Lemma lor_shiftl_add a b n :
  (0 <= n)%Z -> (0 <= b < 2 ^ n)%Z ->
  Z.lor (Z.shiftl a n) b = (a * 2 ^ n + b)%Z.
Proof.
  intros Hn Hb. rewrite <- (Z.shiftl_mul_pow2 a n) by done.
  rewrite <- Z.add_lor_land, (land_shiftl_small a b n) by done. lia.
Qed.

Lemma land_pow2 v n :
  (0 <= n)%Z -> Z.land v (Z.shiftl 1 n) = ((v / 2 ^ n) mod 2 * 2 ^ n)%Z.
Proof.
  intros Hn. apply Z.bits_inj'. intros i Hi.
  rewrite Z.land_spec, Z.shiftl_1_l, Z.pow2_bits_eqb by done.
  rewrite <- Z.shiftl_mul_pow2, Z.shiftl_spec by done.
  rewrite <- Z.shiftr_div_pow2 by done.
  rewrite <- Z.bit0_mod. 
  destruct (Z.eqb_spec n i) as [->|Hne].
  - rewrite Z.sub_diag, Z.shiftr_spec, Z.add_0_l, andb_true_r by done.
    by destruct (Z.testbit v i).
  - rewrite andb_false_r. destruct (decide (i < n)%Z).
    + by rewrite Z.testbit_neg_r by lia.
    + symmetry. apply (testbit_small _ 1); [|lia].
      by destruct (Z.testbit (Z.shiftr v n) 0).
Qed.

(** ** Status codes of rt/include/rt/status.hpp *)

Inductive Status : Set :=
| ok
| invalid_argument
| invalid_state
| invalid_config
| capacity_exceeded
| callback_failed
| resource_exhausted
| internal_error
| invalid_handle
| graph_cycle
| resource_conflict
| queue_full
| scratch_exhausted
| platform_preflight_failed
| clock_failure
| invalid_artifact
| incompatible_artifact
| device_queue_full
| device_timeout
| device_error
| device_lost
| device_canceled
| device_reset_required
| incompatible_abi.

#[export] Instance Status_eq_dec : EqDecision Status.
Proof. solve_decision. Defined.

(** ** [std::sort] with a strict comparator

    Insertion of an element before the first one it is strictly less than.
    Elements the comparator does not separate keep their order; [std::sort]
    leaves that order open, and the components below only rely on
    [std_sort_perm] and [std_sort_sorted]. *)

Section StdSort.
Context {A : Type} (less : A -> A -> bool).

Fixpoint sorted_insert (x : A) (l : list A) : list A :=
  match l with
  | [] => [x]
  | y :: l' => if less x y then x :: y :: l' else y :: sorted_insert x l'
  end.

Definition std_sort (l : list A) : list A := foldr sorted_insert [] l.

Lemma sorted_insert_perm x l : sorted_insert x l ≡ₚ x :: l.
Proof.
  induction l as [|y l IH]; simpl; [done|].
  destruct (less x y); [done|]. rewrite IH. apply Permutation_swap.
Qed.

Lemma std_sort_perm l : std_sort l ≡ₚ l.
Proof.
  induction l as [|x l IH]; simpl; [done|].
  by rewrite sorted_insert_perm, IH.
Qed.

(** The comparator requirement of [std::sort]: a strict weak order, stated
    on the order "not greater than" it induces. *)
Definition not_greater (x y : A) : Prop := less y x = false.

Context (Hasym : forall x y, less x y = true -> less y x = false)
        (Htrans : forall x y z,
            not_greater x y -> not_greater y z -> not_greater x z).

Lemma sorted_insert_sorted x l :
  StronglySorted not_greater l -> StronglySorted not_greater (sorted_insert x l).
Proof.
  induction 1 as [|y l Hl IH Hy]; simpl; [by repeat constructor|].
  destruct (less x y) eqn:E.
  - assert (not_greater x y) by (by apply Hasym).
    constructor; [by constructor|]. constructor; [done|].
    eapply Forall_impl; [apply Hy|]. simpl. eauto.
  - constructor; [done|]. rewrite sorted_insert_perm.
    by constructor.
Qed.

Lemma std_sort_sorted l : StronglySorted not_greater (std_sort l).
Proof. induction l; simpl; [constructor|]. by apply sorted_insert_sorted. Qed.
End StdSort.

(** ** Lists as vectors *)

Lemma lookup_total_seq {A} `{!Inhabited A} (l : list A) :
  (fun i => l !!! i) <$> seq 0 (length l) = l.
Proof.
  apply list_eq. intros i. rewrite list_lookup_fmap.
  destruct (decide (i < length l)) as [Hi|Hi].
  - rewrite lookup_seq_lt by done. simpl. symmetry. by apply list_lookup_lookup_total_lt.
  - rewrite lookup_seq_ge, lookup_ge_None_2 by lia. done.
Qed.

Lemma length_concat {A} (ll : list (list A)) :
  length (concat ll) = sum_list_with length ll.
Proof. induction ll; simpl; [done|]. by rewrite length_app, IHll. Qed.

Lemma sum_list_with_fmap {A B} (f : A -> B) (g : B -> nat) l :
  sum_list_with g (f <$> l) = sum_list_with (fun x => g (f x)) l.
Proof. induction l; csimpl; congruence. Qed.

Lemma sum_list_with_le {A} (f g : A -> nat) l :
  (forall x, x ∈ l -> f x <= g x) -> sum_list_with f l <= sum_list_with g l.
Proof.
  induction l as [|x l IH]; simpl; intros H; [done|].
  assert (f x <= g x) by (apply H; by left).
  assert (sum_list_with f l <= sum_list_with g l) by (apply IH; intros; apply H; by right).
  lia.
Qed.

(** Two sums that differ at one point only. *)
Lemma sum_list_with_change {A} (f g : A -> nat) l p :
  NoDup l -> p ∈ l -> (forall q, q ∈ l -> q <> p -> f q = g q) ->
  sum_list_with f l + g p = sum_list_with g l + f p.
Proof.
  induction 1 as [|x l Hx Hnd IH]; intros Hp H; [by apply elem_of_nil in Hp|]. simpl.
  apply elem_of_cons in Hp as [->|Hp].
  - enough (sum_list_with f l = sum_list_with g l) by lia.
    clear IH. induction l as [|y l IHl]; [done|]. simpl.
    apply not_elem_of_cons in Hx as [Hxy Hx]. apply NoDup_cons in Hnd as [_ Hnd].
    rewrite (H y), IHl; try done; [|right; by left].
    intros q [->|Hq]%elem_of_cons Hne; [done|]. apply H; [by do 2 right|done].
  - rewrite (H x) by (by left || intros ->; done).
    enough (sum_list_with f l + g p = sum_list_with g l + f p) by lia.
    apply IH; [done|]. intros q Hq. apply H. by right.
Qed.

Lemma sum_list_with_elem {A} (f : A -> nat) l p : p ∈ l -> f p <= sum_list_with f l.
Proof. induction 1 as [x l|x y l _ IH]; simpl; lia. Qed.

Lemma sum_list_with_insert {A} (f : A -> nat) l i x x' :
  l !! i = Some x -> sum_list_with f (<[i := x']> l) + f x = sum_list_with f l + f x'.
Proof.
  revert i. induction l as [|y l IH]; intros [|i] Hi; simplify_eq/=; [lia|].
  specialize (IH i Hi). lia.
Qed.

Lemma sum_list_with_lookup {A} (f : A -> nat) l i x : l !! i = Some x -> f x <= sum_list_with f l.
Proof. intros Hi. apply sum_list_with_elem. by eapply list_elem_of_lookup_2. Qed.

(** ** Fallible code

    A C++ function that returns early with a diagnostic is a computation in
    [E + A]; [let! x := e in k] is the early return. *)

Definition sum_bind {E A B : Type} (m : E + A) (k : A -> E + B) : E + B :=
  match m with inl e => inl e | inr a => k a end.

Notation "'let!' x := m 'in' k" := (sum_bind m (fun x => k))
  (at level 200, x pattern, m at level 100, k at level 200) : rtfw_scope.

(** [if (!condition) return error;] *)
Definition require {E : Type} (condition : bool) (error : E) : E + unit :=
  if condition then inr tt else inl error.

(** A loop whose body fails or appends to an output vector. *)
Fixpoint append_loop {E A B : Type} (body : A -> E + list B) (l : list A) : E + list B :=
  match l with
  | [] => inr []
  | x :: l' => sum_bind (body x) (fun out => sum_bind (append_loop body l') (fun rest => inr (out ++ rest)))
  end.

Lemma sum_bind_inr {E A B} (m : E + A) (k : A -> E + B) b :
  sum_bind m k = inr b <-> exists a, m = inr a /\ k a = inr b.
Proof. destruct m; simpl; naive_solver. Qed.

Lemma require_inr {E} c (e : E) u : require c e = inr u <-> c = true.
Proof. destruct c, u; simpl; naive_solver. Qed.

Lemma append_loop_inr {E A B} (body : A -> E + list B) (f : A -> list B) l out :
  (forall x out, x ∈ l -> body x = inr out -> out = f x) ->
  append_loop body l = inr out <->
  Forall (fun x => body x = inr (f x)) l /\ out = l ≫= f.
Proof.
  revert out. induction l as [|x l IH]; intros out Hf; simpl.
  { rewrite Forall_nil. naive_solver. }
  assert (Hl : forall out, append_loop body l = inr out <->
                 Forall (fun x => body x = inr (f x)) l /\ out = l ≫= f).
  { intros o. apply IH. intros y o' Hy. apply Hf. by right. }
  rewrite sum_bind_inr, Forall_cons. split.
  - intros (o & Hx & (r & Hr & [= <-])%sum_bind_inr). apply Hl in Hr as [Hr ->].
    apply Hf in Hx as Ho; [|by left]. subst o. done.
  - intros [[Hx Hr] ->]. exists (f x). split; [done|]. apply sum_bind_inr.
    exists (l ≫= f). split; [by apply Hl|done].
Qed.

(** Every error a computation can return satisfies [P]. *)
Definition fails_with {E A} (P : E -> Prop) (m : E + A) : Prop :=
  match m with inl e => P e | inr _ => True end.

Create HintDb errors.

Lemma fails_with_inl {E A} (P : E -> Prop) e : P e -> fails_with P (inl e : E + A).
Proof. done. Qed.

Lemma fails_with_inr {E A} (P : E -> Prop) (a : A) : fails_with P (inr a).
Proof. done. Qed.

Lemma fails_with_bind {E A B} (P : E -> Prop) (m : E + A) (k : A -> E + B) :
  fails_with P m -> (forall a, fails_with P (k a)) -> fails_with P (sum_bind m k).
Proof. destruct m; simpl; auto. Qed.

Lemma fails_with_require {E} (P : E -> Prop) c e : P e -> fails_with P (require c e).
Proof. by destruct c. Qed.

Lemma fails_with_append_loop {E A B} (P : E -> Prop) (body : A -> E + list B) l :
  (forall x, fails_with P (body x)) -> fails_with P (append_loop body l).
Proof.
  intros H. induction l as [|x l IH]; simpl; [done|].
  apply fails_with_bind; [done|]. intros out. by apply fails_with_bind.
Qed.

#[export] Hint Resolve fails_with_inl fails_with_inr fails_with_bind fails_with_require
  fails_with_append_loop : errors.

(** Walks through the tests and binds of a fallible definition. *)
Ltac error_cases :=
  repeat (simpl; match goal with
    | |- fails_with _ (if ?b then _ else _) => destruct b
    | |- fails_with _ (match ?x with _ => _ end) => destruct x
    | |- fails_with _ (sum_bind _ _) => apply fails_with_bind; [|intros ?]
    | |- fails_with _ (require _ _) => apply fails_with_require
    end); try done; eauto with errors.

Lemma length_bind {A B} (f : A -> list B) l :
  length (l ≫= f) = sum_list_with (fun x => length (f x)) l.
Proof. induction l; csimpl; [done|]. by rewrite length_app, IHl. Qed.

Lemma sum_list_with_const {A} (f : A -> nat) c l :
  (forall x, x ∈ l -> f x = c) -> sum_list_with f l = length l * c.
Proof.
  induction l as [|x l IH]; simpl; intros H; [done|].
  rewrite (H x) by (by left). rewrite IH; [done|]. intros y Hy. apply H. by right.
Qed.

Lemma length_filter_fmap {A} (f : A -> nat) i l :
  length (filter (fun x => f x = i) l) = length (filter (fun y => y = i) (f <$> l)).
Proof.
  induction l as [|x l IH]; [done|]. rewrite fmap_cons, !filter_cons.
  by case_decide; simpl; rewrite IH.
Qed.

Lemma filter_nil_iff {A} (P : A -> Prop) `{!forall x, Decision (P x)} (l : list A) :
  filter P l = [] <-> forall x, x ∈ l -> ~ P x.
Proof.
  split.
  - intros E x Hx Px. assert (Hin : x ∈ filter P l) by (by apply list_elem_of_filter).
    rewrite E in Hin. by apply elem_of_nil in Hin.
  - intros Hno. destruct (filter P l) as [|x m] eqn:E; [done|]. exfalso.
    assert (Hin : x ∈ filter P l) by (rewrite E; by left).
    apply list_elem_of_filter in Hin as [Px Hx]. by apply (Hno x).
Qed.

(** [n] distinct numbers below [n] are all of them. *)
Lemma NoDup_below_perm l n :
  NoDup l -> length l = n -> (forall x, x ∈ l -> x < n) -> l ≡ₚ seq 0 n.
Proof.
  intros Hnd Hl Hlt. apply submseteq_length_Permutation; [|by rewrite length_seq, Hl].
  apply NoDup_submseteq; [done|]. intros x Hx. apply elem_of_seq. apply Hlt in Hx. lia.
Qed.

(** Nested loops over sorted ranges emit sorted output. *)
Lemma StronglySorted_bind {A B} (R : A -> A -> Prop) (S : B -> B -> Prop) (f : A -> list B) l :
  StronglySorted R l ->
  (forall x, x ∈ l -> StronglySorted S (f x)) ->
  (forall x y a b, x ∈ l -> y ∈ l -> R x y -> a ∈ f x -> b ∈ f y -> S a b) ->
  StronglySorted S (l ≫= f).
Proof.
  induction 1 as [|x l Hl IH Hx]; intros Hf Hb; csimpl; [constructor|].
  assert (Hrest : StronglySorted S (l ≫= f)).
  { apply IH; [intros y Hy; apply Hf; by right|].
    intros y z a b Hy Hz. apply Hb; by right. }
  assert (Hlt : forall a b, a ∈ f x -> b ∈ l ≫= f -> S a b).
  { intros a b Ha (y & Hby & Hy)%list_elem_of_bind. rewrite Forall_forall in Hx.
    apply (Hb x y); [by left|by right|by apply Hx|done|done]. }
  assert (Hfx : StronglySorted S (f x)) by (apply Hf; by left).
  clear IH Hf Hb. induction Hfx as [|a m Hm IHm Ha]; simpl; [done|].
  constructor.
  - apply IHm. intros c b Hc. apply Hlt. by right.
  - apply Forall_app. split; [done|]. apply Forall_forall. intros b Hb. apply Hlt; [by left|done].
Qed.

Lemma StronglySorted_seq s n : StronglySorted lt (seq s n).
Proof.
  revert s. induction n as [|n IH]; intros s; simpl; constructor; [done|].
  apply Forall_forall. intros x Hx%elem_of_seq. lia.
Qed.

Lemma StronglySorted_mono {A} (R S : A -> A -> Prop) l :
  (forall x y, R x y -> S x y) -> StronglySorted R l -> StronglySorted S l.
Proof.
  intros H. induction 1 as [|x l Hl IH Hx]; constructor; [done|].
  eapply Forall_impl; [apply Hx|]. apply H.
Qed.

Lemma StronglySorted_NoDup {A} (R : A -> A -> Prop) l :
  (forall x, ~ R x x) -> StronglySorted R l -> NoDup l.
Proof.
  intros Hirr. induction 1 as [|x l Hl IH Hx]; constructor; [|done].
  intros Hin. rewrite Forall_forall in Hx. by apply (Hirr x), Hx.
Qed.

(** A sort without ties: equal keys are the only elements a strict total
    comparator does not separate. *)
Lemma StronglySorted_strict {A} (less : A -> A -> bool) l :
  StronglySorted (not_greater less) l -> NoDup l ->
  (forall x y, x ∈ l -> y ∈ l -> less x y = false -> less y x = false -> x = y) ->
  StronglySorted (fun x y => less x y = true) l.
Proof.
  induction 1 as [|x l Hl IH Hx]; intros Hnd Hkey; constructor.
  - apply NoDup_cons in Hnd as [_ Hnd]. apply IH; [done|]. intros y z Hy Hz. apply Hkey; by right.
  - apply NoDup_cons in Hnd as [Hno _]. rewrite Forall_forall in Hx |- *. intros y Hy.
    destruct (less x y) eqn:E; [done|]. destruct Hno. rewrite (Hkey x y); try done; [by left|by right|].
    by apply Hx.
Qed.
