(* ===== verification/Handles.v ===== *)
(** * Graph handles (src/rt/include/rt/graph.hpp)

    A handle packs an owner in its high 32 bits and, in its low 32 bits, two
    kind bits (31 and 30) and a 30-bit index.  The four handle types differ
    only in the kind bits, so one Section covers the arithmetic and a record
    per type keeps them apart. *)

From stdpp Require Import base list numbers.
From Stdlib Require Import ZArith Lia Bool.
From S2P Require Import Prelude.

Local Open Scope Z_scope.

Definition invalid_graph_handle : Z := u64_max.
Definition graph_resource_kind_bit : Z := Z.shiftl 1 31.
Definition graph_rate_domain_kind_bit : Z := Z.shiftl 1 30.
Definition graph_handle_index_mask : Z := graph_rate_domain_kind_bit - 1.

(** ** The shared accessors of every handle type *)

Definition handle_owner (value : Z) : Z := u32 (Z.shiftr value 32).
Definition handle_index (value : Z) : Z := Z.land (u32 value) graph_handle_index_mask.

(** ** The four handle types *)

Record PhaseHandle : Set := mkPhaseHandle { ph_value : Z }.
Record ResourceHandle : Set := mkResourceHandle { rh_value : Z }.
Record RateDomainHandle : Set := mkRateDomainHandle { dh_value : Z }.
Record CrossRateChannelHandle : Set := mkCrossRateChannelHandle { ch_value : Z }.

#[export] Instance PhaseHandle_eq_dec : EqDecision PhaseHandle.
Proof. solve_decision. Defined.
#[export] Instance ResourceHandle_eq_dec : EqDecision ResourceHandle.
Proof. solve_decision. Defined.
#[export] Instance RateDomainHandle_eq_dec : EqDecision RateDomainHandle.
Proof. solve_decision. Defined.
#[export] Instance CrossRateChannelHandle_eq_dec : EqDecision CrossRateChannelHandle.
Proof. solve_decision. Defined.

Definition PhaseHandle_default : PhaseHandle := mkPhaseHandle invalid_graph_handle.
Definition ResourceHandle_default : ResourceHandle := mkResourceHandle invalid_graph_handle.
Definition RateDomainHandle_default : RateDomainHandle := mkRateDomainHandle invalid_graph_handle.
Definition CrossRateChannelHandle_default : CrossRateChannelHandle :=
  mkCrossRateChannelHandle invalid_graph_handle.

Definition PhaseHandle_make (owner index : Z) : PhaseHandle :=
  mkPhaseHandle (Z.lor (Z.shiftl owner 32) index).
Definition ResourceHandle_make (owner index : Z) : ResourceHandle :=
  mkResourceHandle (Z.lor (Z.lor (Z.shiftl owner 32) graph_resource_kind_bit) index).
Definition RateDomainHandle_make (owner index : Z) : RateDomainHandle :=
  mkRateDomainHandle (Z.lor (Z.lor (Z.shiftl owner 32) graph_rate_domain_kind_bit) index).
Definition CrossRateChannelHandle_make (owner index : Z) : CrossRateChannelHandle :=
  mkCrossRateChannelHandle
    (Z.lor (Z.lor (Z.lor (Z.shiftl owner 32) graph_resource_kind_bit)
                  graph_rate_domain_kind_bit) index).

Definition PhaseHandle_valid (h : PhaseHandle) : bool :=
  negb (ph_value h =? invalid_graph_handle) &&
  (Z.land (u32 (ph_value h))
          (Z.lor graph_resource_kind_bit graph_rate_domain_kind_bit) =? 0).
Definition PhaseHandle_owner (h : PhaseHandle) : Z := handle_owner (ph_value h).
Definition PhaseHandle_index (h : PhaseHandle) : Z := handle_index (ph_value h).

Definition ResourceHandle_valid (h : ResourceHandle) : bool :=
  negb (rh_value h =? invalid_graph_handle) &&
  negb (Z.land (u32 (rh_value h)) graph_resource_kind_bit =? 0) &&
  (Z.land (u32 (rh_value h)) graph_rate_domain_kind_bit =? 0).
Definition ResourceHandle_owner (h : ResourceHandle) : Z := handle_owner (rh_value h).
Definition ResourceHandle_index (h : ResourceHandle) : Z := handle_index (rh_value h).

Definition RateDomainHandle_valid (h : RateDomainHandle) : bool :=
  negb (dh_value h =? invalid_graph_handle) &&
  (Z.land (u32 (dh_value h)) graph_resource_kind_bit =? 0) &&
  negb (Z.land (u32 (dh_value h)) graph_rate_domain_kind_bit =? 0).
Definition RateDomainHandle_owner (h : RateDomainHandle) : Z := handle_owner (dh_value h).
Definition RateDomainHandle_index (h : RateDomainHandle) : Z := handle_index (dh_value h).

Definition CrossRateChannelHandle_valid (h : CrossRateChannelHandle) : bool :=
  negb (ch_value h =? invalid_graph_handle) &&
  negb (Z.land (u32 (ch_value h)) graph_resource_kind_bit =? 0) &&
  negb (Z.land (u32 (ch_value h)) graph_rate_domain_kind_bit =? 0).
Definition CrossRateChannelHandle_owner (h : CrossRateChannelHandle) : Z :=
  handle_owner (ch_value h).
Definition CrossRateChannelHandle_index (h : CrossRateChannelHandle) : Z :=
  handle_index (ch_value h).

(** ** Arithmetic view of the encoding

    Every 64-bit value splits as owner, two kind bits and index; the bit
    operations of the accessors are projections of that split. *)

Definition handle_pack (owner rk dk index : Z) : Z :=
  owner * 4294967296 + rk * 2147483648 + dk * 1073741824 + index.

Ltac handle_arith :=
  unfold is_u32, is_u64, u32, u32_max, u64_max, invalid_graph_handle in *;
  Z.to_euclidean_division_equations; lia.

Lemma handle_index_arith v : handle_index v = v mod 1073741824.
Proof.
  unfold handle_index. change graph_handle_index_mask with (Z.ones 30).
  rewrite Z.land_ones by done. change (2 ^ 30) with 1073741824.
  handle_arith.
Qed.

Lemma handle_index_range v : 0 <= handle_index v <= graph_handle_index_mask.
Proof.
  rewrite handle_index_arith. change graph_handle_index_mask with 1073741823. handle_arith.
Qed.

Lemma handle_owner_arith v : is_u64 v -> handle_owner v = v / 4294967296.
Proof.
  intros Hv. unfold handle_owner. rewrite Z.shiftr_div_pow2 by done.
  change (2 ^ 32) with 4294967296. handle_arith.
Qed.

(** The two kind bits of a value, as numbers in [0;1]. *)
Definition resource_bit (v : Z) : Z := (v / 2147483648) mod 2.
Definition domain_bit (v : Z) : Z := (v / 1073741824) mod 2.

Lemma land_resource_bit v :
  (Z.land (u32 v) graph_resource_kind_bit =? 0) = (resource_bit v =? 0).
Proof.
  unfold graph_resource_kind_bit, resource_bit. rewrite land_pow2 by done.
  change (2 ^ 31) with 2147483648.
  destruct (Z.eqb_spec ((v / 2147483648) mod 2) 0);
    [apply Z.eqb_eq|apply Z.eqb_neq]; handle_arith.
Qed.

Lemma land_domain_bit v :
  (Z.land (u32 v) graph_rate_domain_kind_bit =? 0) = (domain_bit v =? 0).
Proof.
  unfold graph_rate_domain_kind_bit, domain_bit. rewrite land_pow2 by done.
  change (2 ^ 30) with 1073741824.
  destruct (Z.eqb_spec ((v / 1073741824) mod 2) 0);
    [apply Z.eqb_eq|apply Z.eqb_neq]; handle_arith.
Qed.

Lemma land_both_bits v :
  (Z.land (u32 v) (Z.lor graph_resource_kind_bit graph_rate_domain_kind_bit) =? 0) =
  (resource_bit v =? 0) && (domain_bit v =? 0).
Proof.
  rewrite <- land_resource_bit, <- land_domain_bit, Z.land_lor_distr_r.
  apply eq_true_iff_eq. rewrite andb_true_iff, !Z.eqb_eq. apply Z.lor_eq_0_iff.
Qed.

Lemma kind_bits_range v : 0 <= resource_bit v <= 1 /\ 0 <= domain_bit v <= 1.
Proof. unfold resource_bit, domain_bit. handle_arith. Qed.

Lemma handle_decompose v : is_u64 v ->
  v = handle_pack (handle_owner v) (resource_bit v) (domain_bit v) (handle_index v).
Proof.
  intros Hv. rewrite handle_owner_arith, handle_index_arith by done.
  unfold handle_pack, resource_bit, domain_bit. handle_arith.
Qed.

Lemma handle_pack_proj o rk dk i :
  is_u32 o -> 0 <= rk <= 1 -> 0 <= dk <= 1 -> 0 <= i <= graph_handle_index_mask ->
  is_u64 (handle_pack o rk dk i) /\
  handle_owner (handle_pack o rk dk i) = o /\
  resource_bit (handle_pack o rk dk i) = rk /\
  domain_bit (handle_pack o rk dk i) = dk /\
  handle_index (handle_pack o rk dk i) = i.
Proof.
  change graph_handle_index_mask with 1073741823. intros Ho Hr Hd Hi.
  assert (is_u64 (handle_pack o rk dk i)) as Hu by (unfold handle_pack; handle_arith).
  rewrite handle_owner_arith, handle_index_arith by done.
  unfold resource_bit, domain_bit. split; [done|].
  unfold handle_pack. repeat split; handle_arith.
Qed.

Lemma handle_or_pack o rk dk i :
  is_u32 o -> 0 <= rk <= 1 -> 0 <= dk <= 1 -> 0 <= i <= graph_handle_index_mask ->
  Z.lor (Z.lor (Z.lor (Z.shiftl o 32) (Z.shiftl rk 31)) (Z.shiftl dk 30)) i =
  handle_pack o rk dk i.
Proof.
  change graph_handle_index_mask with 1073741823. intros Ho Hr Hd Hi.
  rewrite <- !Z.lor_assoc.
  rewrite (lor_shiftl_add dk i 30) by lia.
  rewrite (lor_shiftl_add rk _ 31) by lia.
  rewrite (lor_shiftl_add o _ 32) by lia.
  unfold handle_pack. lia.
Qed.

(** ** Validity and construction, per handle type *)

Lemma PhaseHandle_valid_bits h : is_u64 (ph_value h) ->
  PhaseHandle_valid h = true <-> resource_bit (ph_value h) = 0 /\ domain_bit (ph_value h) = 0.
Proof.
  intros Hu. unfold PhaseHandle_valid. rewrite land_both_bits.
  rewrite !andb_true_iff, negb_true_iff, Z.eqb_neq, !Z.eqb_eq.
  split; [tauto|]. intros [Hr Hd]. split; [|done].
  intros E. by rewrite E in Hr.
Qed.

Lemma PhaseHandle_make_pack o i :
  is_u32 o -> 0 <= i <= graph_handle_index_mask ->
  PhaseHandle_make o i = mkPhaseHandle (handle_pack o 0 0 i).
Proof.
  intros. unfold PhaseHandle_make. rewrite <- handle_or_pack by (done || lia).
  by rewrite !Z.shiftl_0_l, !Z.lor_0_r.
Qed.

Lemma PhaseHandle_make_spec o i :
  is_u32 o -> 0 <= i <= graph_handle_index_mask ->
  is_u64 (ph_value (PhaseHandle_make o i)) /\
  PhaseHandle_valid (PhaseHandle_make o i) = true /\
  PhaseHandle_owner (PhaseHandle_make o i) = o /\
  PhaseHandle_index (PhaseHandle_make o i) = i.
Proof.
  intros Ho Hi. rewrite PhaseHandle_make_pack by done.
  destruct (handle_pack_proj o 0 0 i) as (Hu & Hown & Hr & Hd & Hx); [done|lia|lia|done|].
  split_and!; [done|by apply PhaseHandle_valid_bits|done|done].
Qed.

(** A valid handle is determined by its owner and its index. *)
Lemma PhaseHandle_ext h h' :
  is_u64 (ph_value h) -> is_u64 (ph_value h') ->
  PhaseHandle_valid h = true -> PhaseHandle_valid h' = true ->
  PhaseHandle_owner h = PhaseHandle_owner h' ->
  PhaseHandle_index h = PhaseHandle_index h' -> h = h'.
Proof.
  intros Hu Hu' [Hr Hd]%PhaseHandle_valid_bits [Hr' Hd']%PhaseHandle_valid_bits Ho Hi; try done.
  destruct h as [v], h' as [v']. f_equal. simpl in *.
  rewrite (handle_decompose v), (handle_decompose v') by done.
  unfold PhaseHandle_owner, PhaseHandle_index in *. simpl in *. congruence.
Qed.

Lemma ResourceHandle_valid_bits h : is_u64 (rh_value h) ->
  ResourceHandle_valid h = true <-> resource_bit (rh_value h) = 1 /\ domain_bit (rh_value h) = 0.
Proof.
  intros Hu. unfold ResourceHandle_valid. rewrite land_resource_bit, land_domain_bit.
  rewrite !andb_true_iff, !negb_true_iff, !Z.eqb_neq, Z.eqb_eq.
  pose proof (kind_bits_range (rh_value h)).
  split; [intros [[??]?]; lia|]. intros [Hr Hd]. split; [split|]; [|lia|done].
  intros E. by rewrite E in Hd.
Qed.

Lemma ResourceHandle_ext h h' :
  is_u64 (rh_value h) -> is_u64 (rh_value h') ->
  ResourceHandle_valid h = true -> ResourceHandle_valid h' = true ->
  ResourceHandle_owner h = ResourceHandle_owner h' ->
  ResourceHandle_index h = ResourceHandle_index h' -> h = h'.
Proof.
  intros Hu Hu' [Hr Hd]%ResourceHandle_valid_bits [Hr' Hd']%ResourceHandle_valid_bits Ho Hi; try done.
  destruct h as [v], h' as [v']. f_equal. simpl in *.
  rewrite (handle_decompose v), (handle_decompose v') by done.
  unfold ResourceHandle_owner, ResourceHandle_index in *. simpl in *. congruence.
Qed.

Lemma RateDomainHandle_valid_bits h : is_u64 (dh_value h) ->
  RateDomainHandle_valid h = true <-> resource_bit (dh_value h) = 0 /\ domain_bit (dh_value h) = 1.
Proof.
  intros Hu. unfold RateDomainHandle_valid. rewrite land_resource_bit, land_domain_bit.
  rewrite !andb_true_iff, !negb_true_iff, !Z.eqb_neq, Z.eqb_eq.
  pose proof (kind_bits_range (dh_value h)).
  split; [intros [[??]?]; lia|]. intros [Hr Hd]. split; [split|]; [|done|lia].
  intros E. by rewrite E in Hr.
Qed.

Lemma CrossRateChannelHandle_valid_bits h : is_u64 (ch_value h) ->
  CrossRateChannelHandle_valid h = true <->
  ch_value h <> invalid_graph_handle /\
  resource_bit (ch_value h) = 1 /\ domain_bit (ch_value h) = 1.
Proof.
  intros Hu. unfold CrossRateChannelHandle_valid. rewrite land_resource_bit, land_domain_bit.
  rewrite !andb_true_iff, !negb_true_iff, !Z.eqb_neq.
  pose proof (kind_bits_range (ch_value h)). lia.
Qed.

(** The other constructors as packings. *)
Lemma ResourceHandle_make_pack o i :
  is_u32 o -> 0 <= i <= graph_handle_index_mask ->
  ResourceHandle_make o i = mkResourceHandle (handle_pack o 1 0 i).
Proof.
  intros. unfold ResourceHandle_make. rewrite <- handle_or_pack by (done || lia).
  by rewrite Z.shiftl_0_l, Z.lor_0_r.
Qed.

Lemma RateDomainHandle_make_pack o i :
  is_u32 o -> 0 <= i <= graph_handle_index_mask ->
  RateDomainHandle_make o i = mkRateDomainHandle (handle_pack o 0 1 i).
Proof.
  intros. unfold RateDomainHandle_make. rewrite <- handle_or_pack by (done || lia).
  by rewrite Z.shiftl_0_l, Z.lor_0_r.
Qed.

Lemma CrossRateChannelHandle_make_pack o i :
  is_u32 o -> 0 <= i <= graph_handle_index_mask ->
  CrossRateChannelHandle_make o i = mkCrossRateChannelHandle (handle_pack o 1 1 i).
Proof.
  intros. unfold CrossRateChannelHandle_make. by rewrite <- handle_or_pack by (done || lia).
Qed.

Lemma RateDomainHandle_make_spec o i :
  is_u32 o -> 0 <= i <= graph_handle_index_mask ->
  is_u64 (dh_value (RateDomainHandle_make o i)) /\
  RateDomainHandle_valid (RateDomainHandle_make o i) = true /\
  RateDomainHandle_owner (RateDomainHandle_make o i) = o /\
  RateDomainHandle_index (RateDomainHandle_make o i) = i.
Proof.
  intros Ho Hi. rewrite RateDomainHandle_make_pack by done.
  destruct (handle_pack_proj o 0 1 i) as (Hu & Hown & Hr & Hd & Hx); [done|lia|lia|done|].
  split_and!; [done|by apply RateDomainHandle_valid_bits|done|done].
Qed.

(** Apart from the reserved invalid value, every 64-bit
    value is valid as exactly one of the four handle kinds, so a handle of one
    kind is never accepted as another. *)
Theorem handle_kinds_exclusive v :
  is_u64 v -> v <> invalid_graph_handle ->
  let p := PhaseHandle_valid (mkPhaseHandle v) in
  let r := ResourceHandle_valid (mkResourceHandle v) in
  let d := RateDomainHandle_valid (mkRateDomainHandle v) in
  let c := CrossRateChannelHandle_valid (mkCrossRateChannelHandle v) in
  (p, r, d, c) ∈ [(true, false, false, false); (false, true, false, false);
                  (false, false, true, false); (false, false, false, true)].
Proof.
  intros Hu Hne p r d c. subst p r d c.
  unfold PhaseHandle_valid, ResourceHandle_valid, RateDomainHandle_valid,
    CrossRateChannelHandle_valid; simpl.
  rewrite land_both_bits, land_resource_bit, land_domain_bit.
  rewrite (proj2 (Z.eqb_neq v invalid_graph_handle)) by done. simpl.
  rewrite list_elem_of_In.
  destruct (resource_bit v =? 0), (domain_bit v =? 0); simpl; auto 10.
Qed.

(** Packing an owner and a 30-bit index and projecting them
    back is the identity for every handle kind, and the packed handle is valid;
    only the channel handle of the last owner and index collides with the
    reserved invalid value. *)
Theorem handle_roundtrip o i :
  is_u32 o -> 0 <= i <= graph_handle_index_mask ->
  (PhaseHandle_valid (PhaseHandle_make o i) = true /\
   PhaseHandle_owner (PhaseHandle_make o i) = o /\
   PhaseHandle_index (PhaseHandle_make o i) = i) /\
  (ResourceHandle_valid (ResourceHandle_make o i) = true /\
   ResourceHandle_owner (ResourceHandle_make o i) = o /\
   ResourceHandle_index (ResourceHandle_make o i) = i) /\
  (RateDomainHandle_valid (RateDomainHandle_make o i) = true /\
   RateDomainHandle_owner (RateDomainHandle_make o i) = o /\
   RateDomainHandle_index (RateDomainHandle_make o i) = i) /\
  (CrossRateChannelHandle_valid (CrossRateChannelHandle_make o i) =
     negb ((o =? u32_max) && (i =? graph_handle_index_mask)) /\
   CrossRateChannelHandle_owner (CrossRateChannelHandle_make o i) = o /\
   CrossRateChannelHandle_index (CrossRateChannelHandle_make o i) = i).
Proof.
  intros Ho Hi.
  destruct (PhaseHandle_make_spec o i) as (_ & P1 & P2 & P3); [done..|].
  destruct (RateDomainHandle_make_spec o i) as (_ & D1 & D2 & D3); [done..|].
  rewrite ResourceHandle_make_pack, CrossRateChannelHandle_make_pack by done.
  destruct (handle_pack_proj o 1 0 i) as (Hu & Hown & Hr & Hd & Hx); [done|lia|lia|done|].
  destruct (handle_pack_proj o 1 1 i) as (Hu' & Hown' & Hr' & Hd' & Hx'); [done|lia|lia|done|].
  split_and!; try done; [by apply ResourceHandle_valid_bits|].
  apply eq_true_iff_eq. rewrite CrossRateChannelHandle_valid_bits by done. simpl.
  rewrite negb_true_iff, andb_false_iff, !Z.eqb_neq, Hr', Hd'.
  change graph_handle_index_mask with 1073741823 in *.
  unfold handle_pack, is_u32, u32_max, invalid_graph_handle, u64_max in *.
  split; [intros (H & _ & _)|intros H; split; [|done]]; lia.
Qed.

(** ** Witnesses *)

Lemma handle_kinds_exclusive_witness :
  (PhaseHandle_valid (mkPhaseHandle 5), ResourceHandle_valid (mkResourceHandle 5),
   RateDomainHandle_valid (mkRateDomainHandle 5),
   CrossRateChannelHandle_valid (mkCrossRateChannelHandle 5)) ∈
    [(true, false, false, false); (false, true, false, false);
     (false, false, true, false); (false, false, false, true)].
Proof. apply handle_kinds_exclusive; [vm_compute; split; discriminate|vm_compute; discriminate]. Defined.

Lemma handle_roundtrip_witness :
  PhaseHandle_index (PhaseHandle_make 7 3) = 3 /\ RateDomainHandle_owner (RateDomainHandle_make 7 3) = 7.
Proof.
  destruct (handle_roundtrip 7 3) as ((_ & _ & H1) & _ & (_ & H2 & _) & _).
  - vm_compute. split; discriminate.
  - vm_compute. split; discriminate.
  - split; [exact H1|exact H2].
Defined.
