(* ===== verification/GraphOrder.v ===== *)
(** * Kahn's loop of the graph compiler

    [order_loop] of CompiledGraph.v against its specification: the produced
    order is duplicate free, closed under "all predecessors done", and greedy
    (each element is the least phase whose predecessors precede it). *)

From stdpp Require Import base list numbers sorting sets.
From Stdlib Require Import ZArith Lia Bool.
From S2P Require Import Prelude Handles CompiledGraph.

(** ** Occurrence counts *)

Abbreviation occ l q := (count_occ Nat.eq_dec l q).

Lemma occ_elem l (q : nat) : q ∈ l <-> (0 < occ l q)%nat.
Proof. rewrite list_elem_of_In, (count_occ_In Nat.eq_dec). done. Qed.

(** Edges into [q] from phases of [dom] not yet in [order]. *)
Definition remaining (dom : list nat) (succs : list (list nat)) (order : list nat) (q : nat) : nat :=
  sum_list_with (fun p => if bool_decide (p ∈ order) then 0%nat else occ (succs !!! p) q) dom.

Lemma remaining_skip dom succs order p q :
  p ∉ dom -> remaining dom succs (order ++ [p]) q = remaining dom succs order q.
Proof.
  intros Hp. unfold remaining. induction dom as [|x dom IH]; simpl; [done|].
  rewrite not_elem_of_cons in Hp. destruct Hp as [Hne Hp]. rewrite IH by done. f_equal.
  destruct (bool_decide_reflect (x ∈ order)) as [H|H];
    [rewrite bool_decide_eq_true_2|rewrite bool_decide_eq_false_2];
    rewrite ?elem_of_app, ?list_elem_of_singleton; naive_solver.
Qed.

Lemma remaining_step dom succs order p q :
  NoDup dom -> p ∈ dom -> p ∉ order ->
  (remaining dom succs (order ++ [p]) q + occ (succs !!! p) q)%nat =
  remaining dom succs order q.
Proof.
  intros Hnd Hin Hno. induction Hnd as [|x dom Hx Hnd IH]; [by apply elem_of_nil in Hin|].
  apply elem_of_cons in Hin as [->|Hin].
  - pose proof (remaining_skip dom succs order x q Hx) as E.
    unfold remaining in *. simpl. rewrite E.
    rewrite bool_decide_eq_true_2, bool_decide_eq_false_2; [lia|done|set_solver].
  - specialize (IH Hin). unfold remaining in *. simpl. rewrite <- IH.
    assert (x <> p) by (intros ->; done).
    destruct (bool_decide_reflect (x ∈ order)) as [H'|H'];
      [rewrite bool_decide_eq_true_2|rewrite bool_decide_eq_false_2];
      rewrite ?elem_of_app, ?list_elem_of_singleton; try lia; naive_solver.
Qed.

Lemma remaining_zero dom succs order q :
  remaining dom succs order q = 0%nat <->
  forall p, p ∈ dom -> q ∈ succs !!! p -> p ∈ order.
Proof.
  unfold remaining. induction dom as [|x dom IH]; simpl.
  { split; [intros _ p Hp; by apply elem_of_nil in Hp|done]. }
  rewrite Nat.eq_add_0, IH. setoid_rewrite elem_of_cons. split.
  - intros [Hx Hd] p [->|Hp] Hq; [|by apply Hd].
    case_bool_decide; [done|]. apply occ_elem in Hq. lia.
  - intros H. split; [|naive_solver].
    case_bool_decide as Hno; [done|].
    destruct (occ (succs !!! x) q) eqn:E; [done|].
    exfalso. apply Hno, H; [by left|]. apply occ_elem. lia.
Qed.

(** ** The ready heap *)

Definition nat_sorted : list nat -> Prop := StronglySorted (not_greater Nat.ltb).

Lemma ready_push_elem x l q : q ∈ ready_push x l <-> q = x \/ q ∈ l.
Proof. unfold ready_push. by rewrite sorted_insert_perm, elem_of_cons. Qed.

Lemma ready_push_sorted x l : nat_sorted l -> nat_sorted (ready_push x l).
Proof.
  apply sorted_insert_sorted.
  - intros a b H%Nat.ltb_lt. apply Nat.ltb_ge. lia.
  - unfold not_greater. intros a b c H1%Nat.ltb_ge H2%Nat.ltb_ge. apply Nat.ltb_ge. lia.
Qed.

Lemma ready_push_nodup x l : x ∉ l -> NoDup l -> NoDup (ready_push x l).
Proof. intros. unfold ready_push. rewrite sorted_insert_perm. by constructor. Qed.

Lemma nat_sorted_head x l q : nat_sorted (x :: l) -> q ∈ x :: l -> (x <= q)%nat.
Proof.
  intros [_ H]%StronglySorted_inv [->|Hq]%elem_of_cons; [done|].
  rewrite Forall_forall in H. apply H in Hq. by apply Nat.ltb_ge.
Qed.

(** ** Releasing the successors of one phase *)

Lemma u64_pred_succ m : (m < Z.to_nat u64_max)%nat -> u64 (Z.of_nat (S m) - 1) = Z.of_nat m.
Proof. intros H. unfold u64, u64_max in *. rewrite Z.mod_small; lia. Qed.

Lemma release_successors_spec n succs c :
  forall indeg ready indeg' ready',
  Forall (fun s => s < n)%nat succs -> length indeg = n ->
  (forall q, q < n -> indeg !!! q = Z.of_nat (c q) /\
     (occ succs q <= c q)%nat /\ (c q <= Z.to_nat u64_max)%nat)%nat ->
  nat_sorted ready -> NoDup ready -> (forall q, q ∈ ready -> q < n /\ c q = 0)%nat ->
  release_successors succs indeg ready = (indeg', ready') ->
  length indeg' = n /\ nat_sorted ready' /\ NoDup ready' /\
  (forall q, q < n -> indeg' !!! q = Z.of_nat (c q - occ succs q))%nat /\
  (forall q, q ∈ ready' <-> q ∈ ready \/ (q ∈ succs /\ c q = occ succs q)).
Proof.
  revert c. induction succs as [|s succs IH]; intros c indeg ready indeg' ready'
    Hlt Hlen Hc Hsort Hnd Hready E; simpl in E.
  { inversion E; subst. split_and!; try done.
    - intros q Hq. simpl. rewrite Nat.sub_0_r. by apply Hc.
    - intros q. rewrite elem_of_nil. tauto. }
  apply Forall_cons in Hlt as [Hs Hlt].
  destruct (Hc s Hs) as (Es & Hle & Hmax). simpl in Hle.
  destruct (Nat.eq_dec s s) as [_|]; [|done].
  set (c' := fun q => if Nat.eq_dec s q then (c q - 1)%nat else c q).
  assert (u64 (indeg !!! s - 1) = Z.of_nat (c' s)) as Ed.
  { unfold c'. destruct (Nat.eq_dec s s); [|done]. rewrite Es.
    destruct (c s) as [|m] eqn:Ec; [lia|]. rewrite u64_pred_succ by lia. f_equal; lia. }
  rewrite Ed in E.
  set (ready1 := if (Z.of_nat (c' s) =? 0)%Z then ready_push s ready else ready) in E.
  assert (Hs_ready : s ∉ ready) by (intros Hin; apply Hready in Hin; lia).
  assert (Hr1 : nat_sorted ready1 /\ NoDup ready1 /\
     (forall q, q ∈ ready1 <-> q ∈ ready \/ (q = s /\ c' s = 0%nat))).
  { unfold ready1. destruct (Z.eqb_spec (Z.of_nat (c' s)) 0); split_and!;
      auto using ready_push_sorted, ready_push_nodup.
    - intros q. rewrite ready_push_elem. assert (c' s = 0%nat) by lia. tauto.
    - intros q. assert (c' s <> 0%nat) by lia. tauto. }
  destruct Hr1 as (Hsort1 & Hnd1 & Hmem1).
  apply (IH c') in E as (Hl & Hs' & Hn' & Hi & Hm); try done.
  - split_and!; try done.
    + intros q Hq. rewrite Hi by done. unfold c'. simpl.
      destruct (Nat.eq_dec s q); lia.
    + intros q. rewrite Hm, Hmem1, elem_of_cons. unfold c'. simpl.
      destruct (Nat.eq_dec s q) as [->|Hne]; [|naive_solver].
      destruct (Nat.eq_dec q q); [|done].
      assert (q ∈ succs \/ occ succs q = 0%nat) as [Hq|Hq].
      { destruct (occ succs q) eqn:Eo; [by right|left; apply occ_elem; lia]. }
      * apply occ_elem in Hq as Hq'. naive_solver lia.
      * assert (q ∉ succs) by (rewrite occ_elem; lia). naive_solver lia.
  - by rewrite length_insert.
  - intros q Hq. destruct (Hc q Hq) as (Eq & Hle' & Hmax'). simpl in Hle'.
    unfold c'. destruct (Nat.eq_dec s q) as [<-|Hne].
    + rewrite list_lookup_total_insert_eq by lia. split_and!; [|lia|lia].
      f_equal. unfold c'. by destruct (Nat.eq_dec s s).
    + rewrite list_lookup_total_insert_ne by done. by split_and!.
  - intros q [Hq|[-> Hq]]%Hmem1; [|done].
    destruct (Hready q Hq) as [? Hz]. split; [done|]. unfold c'.
    destruct (Nat.eq_dec s q); lia.
Qed.

Lemma elem_snoc_app (order ready : list nat) p q :
  q ∈ (order ++ [p]) ++ ready <-> q ∈ order \/ q = p \/ q ∈ ready.
Proof. set_solver. Qed.

(** ** The loop invariant *)

Section OrderLoop.
Context (n : nat) (succs : list (list nat)).
Context (Hlen : length succs = n)
        (Hrange : forall p, Forall (fun s => s < n)%nat (succs !!! p))
        (Hsmall : (Z.of_nat (length (concat succs)) <= u64_max)%Z).

Definition preds_done (order : list nat) (q : nat) : Prop :=
  forall p, (p < n)%nat -> q ∈ succs !!! p -> p ∈ order.

(** [p] is the least phase outside the first [k] whose predecessors are all
    among the first [k]. *)
Definition greedy_at (order : list nat) (k p : nat) : Prop :=
  preds_done (take k order) p /\
  forall q, (q < p)%nat -> q ∉ take k order -> ~ preds_done (take k order) q.

Abbreviation rem := (remaining (seq 0 n) succs).

Lemma rem_zero order q : rem order q = 0%nat <-> preds_done order q.
Proof.
  rewrite remaining_zero. unfold preds_done. setoid_rewrite elem_of_seq.
  split; intros H p Hp; apply H; lia.
Qed.

Lemma rem_bound order q : (rem order q <= Z.to_nat u64_max)%nat.
Proof.
  enough (rem order q <= length (concat succs))%nat by lia.
  rewrite length_concat. rewrite <- (lookup_total_seq succs) at 2.
  rewrite sum_list_with_fmap, Hlen. apply sum_list_with_le. intros p _. simpl.
  case_bool_decide; [lia|]. apply count_occ_bound.
Qed.

Lemma rem_step order p q :
  (p < n)%nat -> p ∉ order ->
  (rem (order ++ [p]) q + occ (succs !!! p) q)%nat = rem order q.
Proof.
  intros Hp Hno. apply remaining_step; [apply NoDup_seq|apply elem_of_seq; lia|done].
Qed.

Record order_inv (indeg : list Z) (ready order : list nat) : Prop := {
  oi_len : length indeg = n;
  oi_sorted : nat_sorted ready;
  oi_nodup : NoDup (order ++ ready);
  oi_lt : forall q, q ∈ order ++ ready -> (q < n)%nat;
  oi_indeg : forall q, (q < n)%nat -> indeg !!! q = Z.of_nat (rem order q);
  oi_mem : forall q, (q < n)%nat -> q ∈ order ++ ready <-> preds_done order q;
  oi_greedy : forall k p, order !! k = Some p -> greedy_at order k p
}.

Lemma greedy_snoc order ready phase :
  nat_sorted (phase :: ready) ->
  (forall q, (q < n)%nat -> q ∈ order ++ phase :: ready <-> preds_done order q) ->
  (phase < n)%nat ->
  (forall k p, order !! k = Some p -> greedy_at order k p) ->
  forall k p, (order ++ [phase]) !! k = Some p -> greedy_at (order ++ [phase]) k p.
Proof.
  intros Hsort Hmem Hlt Hgr k p Hk. unfold greedy_at.
  apply lookup_app_Some in Hk as [Hk|[Hge Hk]].
  - pose proof (lookup_lt_Some _ _ _ Hk). rewrite take_app_le by lia. by apply Hgr.
  - apply list_lookup_singleton_Some in Hk as [Hk <-].
    rewrite take_app_length' by lia. split.
    + apply Hmem; [done|]. set_solver.
    + intros q Hq Hno Hd. apply Hmem in Hd; [|lia].
      apply elem_of_app in Hd as [|Hd]; [done|].
      apply nat_sorted_head in Hd; [lia|done].
Qed.

Lemma order_step indeg phase ready order indeg' ready' :
  order_inv indeg (phase :: ready) order ->
  release_successors (succs !!! phase) indeg ready = (indeg', ready') ->
  order_inv indeg' ready' (order ++ [phase]).
Proof.
  intros [Hl Hs Hnd Hlt Hi Hm Hg] E.
  assert (phase < n)%nat as Hph by (apply Hlt; set_solver).
  apply NoDup_app in Hnd as (Hnd1 & Hdis & Hnd2). apply NoDup_cons in Hnd2 as [Hpr Hnd2].
  assert (phase ∉ order) as Hpo by (intros H; apply Hdis in H; set_solver).
  assert (Hready0 : forall q, q ∈ ready -> (q < n)%nat /\ rem order q = 0%nat).
  { intros q Hq. assert (q ∈ order ++ phase :: ready) as Hq' by set_solver.
    pose proof (Hlt _ Hq'). split; [done|]. by apply rem_zero, Hm. }
  apply (release_successors_spec n (succs !!! phase) (rem order)) in E
    as (Hl' & Hs' & Hn' & Hi' & Hm'); try done.
  2:{ intros q Hq. split_and!; [by apply Hi| |apply rem_bound].
      rewrite <- (rem_step order phase q) by done. lia. }
  2:{ by apply StronglySorted_inv in Hs as [? _]. }
  assert (Hnew : forall q, q ∈ succs !!! phase -> rem order q <> 0%nat).
  { intros q Hq%occ_elem. rewrite <- (rem_step order phase q) by done. lia. }
  assert (Hold : forall q, (q < n)%nat -> q ∈ order ++ phase :: ready <-> rem order q = 0%nat).
  { intros q Hq. rewrite rem_zero. by apply Hm. }
  constructor; try done.
  - rewrite <- app_assoc. apply NoDup_app. split; [done|]. split.
    + intros q Hq [->|Hq']%elem_of_cons; [done|]. apply Hm' in Hq' as [Hq'|[Hq' _]].
      * apply (Hdis q Hq). set_solver.
      * apply Hnew in Hq'. apply Hq', Hold; [apply Hlt|]; set_solver.
    + simpl. apply NoDup_cons. split; [|done]. intros [H|[H _]]%Hm'; [done|].
      apply Hnew in H. apply H, Hold; [done|set_solver].
  - intros q. rewrite elem_snoc_app, Hm'.
    intros [Hq|[->|[Hq|[Hq _]]]]; [apply Hlt; set_solver|done|apply Hlt; set_solver|].
    eapply Forall_forall in Hq; [|apply Hrange]. done.
  - intros q Hq. rewrite Hi' by done. f_equal.
    rewrite <- (rem_step order phase q) by done. lia.
  - intros q Hq. rewrite elem_snoc_app, Hm'.
    rewrite <- rem_zero. pose proof (rem_step order phase q Hph Hpo).
    assert (q ∈ order ++ phase :: ready <-> q ∈ order \/ q = phase \/ q ∈ ready)
      as Hsplit by set_solver.
    specialize (Hold q Hq). rewrite Hsplit in Hold.
    destruct (decide (q ∈ succs !!! phase)) as [Hin|Hin].
    + apply Hnew in Hin as Hnz. split; [|intros; right; right; right; split; [done|lia]].
      intros [H1|[H1|[H1|[_ H1]]]]; [exfalso; tauto..|lia].
    + assert (occ (succs !!! phase) q = 0%nat) by (rewrite occ_elem in Hin; lia).
      replace (rem (order ++ [phase]) q) with (rem order q) by lia. tauto.
  - by apply (greedy_snoc order ready).
Qed.

Lemma order_inv_done indeg ready order :
  order_inv indeg ready order -> (n <= length order)%nat -> ready = [].
Proof.
  intros Hinv Hn. destruct ready as [|r ready]; [done|exfalso].
  assert (length (order ++ r :: ready) <= length (seq 0 n))%nat as H.
  { apply submseteq_length, NoDup_submseteq; [apply Hinv|].
    intros q Hq%Hinv. apply elem_of_seq. lia. }
  rewrite length_app, length_seq in H. simpl in H. lia.
Qed.

Lemma order_loop_spec fuel indeg ready order :
  order_inv indeg ready order -> (n <= length order + fuel)%nat ->
  exists indeg' , order_inv indeg' [] (order_loop fuel succs indeg ready order).
Proof.
  revert indeg ready order. induction fuel as [|fuel IH]; intros indeg ready order Hinv Hf.
  - rewrite (order_inv_done indeg ready order) in Hinv by (done || lia).
    exists indeg. done.
  - simpl. destruct ready as [|phase ready]; [by exists indeg|].
    destruct (release_successors (succs !!! phase) indeg ready) as [indeg' ready'] eqn:E.
    apply IH; [by eapply order_step|]. rewrite length_app. simpl. lia.
Qed.

(** The heap the loop starts from. *)
Lemma initial_ready_spec indeg :
  nat_sorted (initial_ready n indeg) /\ NoDup (initial_ready n indeg) /\
  forall q, q ∈ initial_ready n indeg <-> (q < n)%nat /\ indeg !!! q = 0%Z.
Proof.
  unfold initial_ready.
  assert (forall m, nat_sorted (foldl (fun ready phase =>
      if (indeg !!! phase =? 0)%Z then ready_push phase ready else ready) [] (seq 0 m)) /\
    NoDup (foldl (fun ready phase =>
      if (indeg !!! phase =? 0)%Z then ready_push phase ready else ready) [] (seq 0 m)) /\
    forall q, q ∈ foldl (fun ready phase =>
      if (indeg !!! phase =? 0)%Z then ready_push phase ready else ready) [] (seq 0 m)
      <-> (q < m)%nat /\ indeg !!! q = 0%Z) as H; [|apply H].
  induction m as [|m (IHs & IHn & IHm)].
  { simpl. split_and!; [constructor|constructor|]. intros q. rewrite elem_of_nil. lia. }
  rewrite seq_S, foldl_app. simpl. destruct (Z.eqb_spec (indeg !!! m) 0) as [Hz|Hz].
  - split_and!; [by apply ready_push_sorted|apply ready_push_nodup; [|done]|].
    + rewrite IHm. lia.
    + intros q. rewrite ready_push_elem, IHm. destruct (decide (q = m)) as [->|]; lia.
  - split_and!; [done..|]. intros q. rewrite IHm.
    destruct (decide (q = m)) as [->|]; lia.
Qed.

Lemma order_inv_init indeg :
  length indeg = n ->
  (forall q, (q < n)%nat -> indeg !!! q = Z.of_nat (rem [] q)) ->
  order_inv indeg (initial_ready n indeg) [].
Proof.
  intros Hl Hi. destruct (initial_ready_spec indeg) as (Hs & Hn & Hm).
  constructor; simpl; try done.
  - intros q Hq. by apply Hm in Hq as [? _].
  - intros q Hq. rewrite Hm, <- rem_zero, Hi by done. lia.
Qed.
End OrderLoop.
