(* ===== verification/GraphSearch.v ===== *)
(** * The two depth-first searches of the graph compiler

    [mark_reachable] marks exactly the phases reachable from its start, and
    the three-colour search of [find_cycle] finds a phase on a cycle or shows
    that the graph has a topological numbering.  Both hold with the fuel that
    CompiledGraph.v gives the loops. *)

From stdpp Require Import base list numbers sorting sets relations.
From Stdlib Require Import ZArith Lia Bool.
From S2P Require Import Prelude Handles CompiledGraph.

(** The edge relation of an adjacency vector. *)
Definition adj_edge (adj : list (list nat)) (p q : nat) : Prop := q ∈ adj !!! p.

Lemma adj_edge_lt n adj p q :
  (forall p, Forall (fun s => s < n) (adj !!! p)) -> adj_edge adj p q -> q < n.
Proof. intros H Hq. specialize (H p). rewrite Forall_forall in H. by apply H. Qed.

(** ** Marking *)

Section Mark.
Context (n : nat) (adj : list (list nat)) (token : Z).
Context (Hrange : forall p, Forall (fun s => s < n) (adj !!! p)).

Definition unmarked (visited : list Z) : list nat :=
  filter (fun p => visited !!! p <> token) (seq 0 n).

Lemma elem_of_unmarked visited p :
  p ∈ unmarked visited <-> p < n /\ visited !!! p <> token.
Proof. unfold unmarked. rewrite list_elem_of_filter, elem_of_seq. naive_solver lia. Qed.

Lemma mark_adjacent_spec adjs : forall visited stack visited' stack',
  Forall (fun s => s < n) adjs -> length visited = n ->
  mark_adjacent adjs token visited stack = (visited', stack') ->
  length visited' = n /\
  exists new, stack' = new ++ stack /\ NoDup new /\
    (forall q, q ∈ new -> q < n /\ visited !!! q <> token /\ q ∈ adjs) /\
    (forall q, visited' !!! q = token <-> visited !!! q = token \/ q ∈ new) /\
    (forall q, visited' !!! q = token \/ visited' !!! q = visited !!! q) /\
    (forall q, q ∈ adjs -> visited' !!! q = token).
Proof.
  induction adjs as [|a adjs IH]; intros visited stack visited' stack' Hlt Hl E; simpl in E.
  { inversion E; subst. split; [done|]. exists []. split_and!; try done; [constructor|set_solver..]. }
  apply Forall_cons in Hlt as [Ha Hlt].
  destruct (Z.eqb_spec (visited !!! a) token) as [Hm|Hm].
  - apply IH in E as (Hl' & new & -> & Hnd & Hnew & Hmk & Hkeep & Hadj); [|done..].
    split; [done|]. exists new. split_and!; try done; set_solver.
  - apply IH in E as (Hl' & new & -> & Hnd & Hnew & Hmk & Hkeep & Hadj);
      [|done|by rewrite length_insert].
    assert (Hins : forall q, (<[a:=token]> visited) !!! q = token <->
                        visited !!! q = token \/ q = a).
    { intros q. destruct (decide (q = a)) as [->|Hne].
      - rewrite list_lookup_total_insert_eq by lia. tauto.
      - rewrite list_lookup_total_insert_ne by done. tauto. }
    split; [done|]. exists (new ++ [a]). rewrite <- app_assoc. split_and!; try done.
    + apply NoDup_app. split_and!; [done| |apply NoDup_singleton].
      intros q Hq ->%list_elem_of_singleton. apply Hnew in Hq as (_ & Hq & _).
      apply Hq, Hins. by right.
    + intros q [Hq|Hq%list_elem_of_singleton]%elem_of_app; [|subst; set_solver].
      apply Hnew in Hq as (? & Hq & ?). rewrite Hins in Hq. set_solver.
    + intros q. rewrite Hmk, Hins. set_solver.
    + intros q. destruct (Hkeep q) as [|Hk]; [by left|]. rewrite Hk.
      destruct (decide (visited !!! q = token)) as [|Hno]; [|].
      * left. apply Hins. by left.
      * destruct (decide (q = a)) as [->|Hne]; [left; apply Hins; by right|].
        right. by rewrite list_lookup_total_insert_ne by done.
    + intros q [->|Hq]%elem_of_cons; [|by apply Hadj].
      apply Hmk. left. apply Hins. by right.
Qed.

Lemma unmarked_new visited visited' new :
  NoDup new -> (forall q, q ∈ new -> q < n /\ visited !!! q <> token) ->
  (forall q, visited' !!! q = token <-> visited !!! q = token \/ q ∈ new) ->
  length (unmarked visited) = length new + length (unmarked visited').
Proof.
  intros Hnd Hnew Hmk. rewrite <- length_app. apply Permutation_length, NoDup_Permutation.
  - apply NoDup_filter, NoDup_seq.
  - apply NoDup_app. split_and!; [done| |apply NoDup_filter, NoDup_seq].
    intros q Hq [_ Hno]%elem_of_unmarked. apply Hno, Hmk. by right.
  - intros q. rewrite elem_of_app, !elem_of_unmarked, Hmk.
    destruct (decide (q ∈ new)) as [Hq|Hq]; [|tauto].
    apply Hnew in Hq as ?. tauto.
Qed.

Context (start : nat).

Record mark_inv (visited : list Z) (stack : list nat) : Prop := {
  mi_len : length visited = n;
  mi_start : visited !!! start = token;
  mi_stack : forall p, p ∈ stack -> p < n /\ visited !!! p = token;
  mi_sound : forall p, p < n -> visited !!! p = token -> rtc (adj_edge adj) start p;
  mi_closed : forall p q, p < n -> visited !!! p = token -> p ∉ stack ->
                adj_edge adj p q -> visited !!! q = token
}.

Lemma mark_inv_step visited p stack visited' stack' :
  mark_inv visited (p :: stack) ->
  mark_adjacent (adj !!! p) token visited stack = (visited', stack') ->
  mark_inv visited' stack' /\
  length stack' + length (unmarked visited') = length stack + length (unmarked visited).
Proof.
  intros [Hl Hs Hst Hso Hcl] E.
  destruct (Hst p) as [Hp Hpm]; [by left|].
  apply mark_adjacent_spec in E as (Hl' & new & -> & Hnd & Hnew & Hmk & _ & Hadj); [|apply Hrange|done].
  split.
  - constructor; try done.
    + apply Hmk. by left.
    + intros q [Hq|Hq]%elem_of_app.
      * split; [by apply Hnew|]. apply Hmk. by right.
      * split; [apply Hst; by right|]. apply Hmk. left. apply Hst. by right.
    + intros q Hq [Hm|Hm]%Hmk; [by apply Hso|].
      eapply rtc_r; [by apply (Hso p)|]. by apply Hnew.
    + intros q r Hq Hqm Hno Hqr. destruct (decide (q = p)) as [->|Hne]; [by apply Hadj|].
      apply not_elem_of_app in Hno as [Hno1 Hno2].
      apply Hmk in Hqm as [Hqm|]; [|done]. apply Hmk. left.
      apply (Hcl q); try done. rewrite elem_of_cons. tauto.
  - rewrite length_app, (unmarked_new visited visited' new); [lia|done| |done].
    intros q Hq. apply Hnew in Hq. tauto.
Qed.

Lemma mark_loop_spec fuel : forall visited stack,
  mark_inv visited stack -> length stack + length (unmarked visited) <= fuel ->
  exists visited', mark_loop fuel adj token visited stack = (visited', []) /\
    mark_inv visited' [].
Proof.
  induction fuel as [|fuel IH]; intros visited stack Hinv Hf.
  - destruct stack; simpl in *; [|lia]. by eexists.
  - destruct stack as [|p stack]; [by eexists|]. simpl.
    destruct (mark_adjacent (adj !!! p) token visited stack) as [visited' stack'] eqn:E.
    destruct (mark_inv_step _ _ _ _ _ Hinv E) as [Hinv' Hm].
    apply IH; [done|]. simpl in Hf. lia.
Qed.

Lemma mark_loop_keep fuel : forall visited stack visited' stack',
  length visited = n -> mark_loop fuel adj token visited stack = (visited', stack') ->
  forall q, visited' !!! q = token \/ visited' !!! q = visited !!! q.
Proof.
  induction fuel as [|fuel IH]; intros visited stack visited' stack' Hl E q; simpl in E.
  - inversion E; subst. by right.
  - destruct stack as [|p stack]; [inversion E; subst; by right|].
    destruct (mark_adjacent (adj !!! p) token visited stack) as [v1 s1] eqn:E1.
    apply mark_adjacent_spec in E1 as (Hl' & new & _ & _ & _ & _ & Hkeep & _); [|apply Hrange|done].
    destruct (IH _ _ _ _ Hl' E q) as [|Hq]; [by left|].
    rewrite Hq. apply Hkeep.
Qed.
End Mark.

Lemma mark_reachable_spec n adj token start visited :
  (forall p, Forall (fun s => s < n) (adj !!! p)) -> length adj = n -> start < n ->
  length visited = n -> (forall p, p < n -> visited !!! p <> token) ->
  let visited' := mark_reachable start adj visited token in
  length visited' = n /\
  (forall p, p < n -> visited' !!! p = token <-> rtc (adj_edge adj) start p) /\
  (forall p, p < n -> visited' !!! p = token \/ visited' !!! p = visited !!! p).
Proof.
  intros Hrange Hadj Hst Hl Hfresh visited'.
  set (v0 := <[start := token]> visited).
  assert (Hv0 : forall q, q < n -> v0 !!! q = token <-> q = start).
  { intros q Hq. unfold v0. destruct (decide (q = start)) as [->|Hne].
    - by rewrite list_lookup_total_insert_eq by lia.
    - rewrite list_lookup_total_insert_ne by done. split; [|done].
      intros E. by apply Hfresh in E. }
  assert (Hinv : mark_inv n adj token start v0 [start]).
  { constructor.
    - unfold v0. by rewrite length_insert.
    - by apply Hv0.
    - intros p ->%list_elem_of_singleton. split; [done|]. by apply Hv0.
    - intros p Hp ->%Hv0; [constructor|done].
    - intros p q Hp ->%Hv0 Hno; [|done]. set_solver. }
  assert (Hm : length (seq 0 n) = S (length (unmarked n token v0))).
  { change (S (length (unmarked n token v0))) with (length (start :: unmarked n token v0)).
    apply Permutation_length.
    apply NoDup_Permutation; [apply NoDup_seq| |].
    - apply NoDup_cons. split; [|apply NoDup_filter, NoDup_seq].
      rewrite elem_of_unmarked, Hv0 by done. tauto.
    - intros q. rewrite elem_of_cons, elem_of_unmarked, elem_of_seq. split.
      + intros Hq. destruct (decide (q = start)) as [|Hne]; [by left|right].
        split; [lia|]. rewrite Hv0 by lia. done.
      + intros [->|?]; lia. }
  destruct (mark_loop_spec n adj token Hrange start (length adj) v0 [start] Hinv) as (v' & E & Hfin).
  { rewrite length_seq in Hm. simpl. lia. }
  assert (visited' = v') as -> by (unfold visited', mark_reachable; fold v0; by rewrite E).
  pose proof (mark_loop_keep n adj token Hrange _ _ _ _ _ (mi_len _ _ _ _ _ _ Hinv) E) as Hkeep.
  destruct Hfin as [Hl' Hs' _ Hso Hcl]. split; [done|]. split.
  - intros p Hp. split; [by apply Hso|]. intros Hr.
    assert (v' !!! start = token -> p < n /\ v' !!! p = token) as [_ ?]; [|done..].
    clear Hv0 Hinv Hm E Hkeep Hs' Hso Hfresh Hp. induction Hr as [x|x y z Hxy Hyz IH]; [done|].
    intros Hx. assert (y < n) by (by eapply adj_edge_lt).
    apply IH; [done|]. eapply (Hcl x); [done..|set_solver|done].
  - intros p Hp. destruct (Hkeep p) as [|Hk]; [by left|]. rewrite Hk.
    destruct (decide (p = start)) as [->|]; [left; by apply Hv0|].
    right. unfold v0. by rewrite list_lookup_total_insert_ne.
Qed.

(** ** The three-colour search *)

Section Dfs.
Context (n : nat) (succs : list (list nat)).
Context (Hlen : length succs = n)
        (Hrange : forall p, Forall (fun s => s < n) (succs !!! p)).

Abbreviation edge := (adj_edge succs).

(** Consecutive stack entries are edges, the head being the top. *)
Fixpoint stack_path (stack : list nat) : Prop :=
  match stack with
  | x :: rest =>
      match rest with [] => True | y :: _ => edge y x end /\ stack_path rest
  | [] => True
  end.

(** Every successor a stack entry has already visited is finished or above it. *)
Fixpoint stack_done (next finished above stack : list nat) : Prop :=
  match stack with
  | [] => True
  | p :: rest =>
      (forall i s, i < (next !!! p) -> (succs !!! p) !! i = Some s ->
         s ∈ finished \/ s ∈ above) /\
      stack_done next finished (p :: above) rest
  end.

(** Finished phases, last finished first: successors come later in the list. *)
Definition finish_sorted (finished : list nat) : Prop :=
  forall l1 p l2, finished = l1 ++ p :: l2 -> forall q, edge p q -> q ∈ l2.

Lemma stack_done_mono next fin fin' above above' stack :
  (forall q, q ∈ fin \/ q ∈ above -> q ∈ fin' \/ q ∈ above') ->
  stack_done next fin above stack -> stack_done next fin' above' stack.
Proof.
  revert above above'. induction stack as [|p stack IH]; simpl; [done|].
  intros above above' H [H1 H2]. split; [by eauto|].
  eapply IH, H2. intros q. rewrite !elem_of_cons. specialize (H q). tauto.
Qed.

Lemma stack_done_next next p k fin above stack :
  p ∉ stack -> stack_done next fin above stack ->
  stack_done (<[p := k]> next) fin above stack.
Proof.
  revert above. induction stack as [|x stack IH]; intros above Hp; simpl; [done|].
  apply not_elem_of_cons in Hp as [Hne Hp]. intros [H1 H2].
  rewrite list_lookup_total_insert_ne by done. auto.
Qed.

Lemma stack_path_reach s stack rest :
  stack_path (s :: stack ++ rest) -> forall q, q ∈ s :: stack -> rtc edge q s.
Proof.
  revert s. induction stack as [|x stack IH]; intros s [H1 H2] q Hq.
  - apply list_elem_of_singleton in Hq as ->. constructor.
  - apply elem_of_cons in Hq as [->|Hq]; [constructor|].
    eapply rtc_r; [by apply IH|done].
Qed.

Record dfs_inv (st : DfsState) (finished : list nat) : Prop := {
  di_len_c : length (color st) = n;
  di_len_n : length (next_successor st) = n;
  di_color : forall p, p < n ->
    (color st !!! p = 0%Z /\ next_successor st !!! p = 0 /\
       ~ p ∈ depth_first_stack st /\ ~ p ∈ finished) \/
    (color st !!! p = 1%Z /\ p ∈ depth_first_stack st /\ p ∉ finished) \/
    (color st !!! p = 2%Z /\ ~ p ∈ depth_first_stack st /\ p ∈ finished);
  di_lt : forall p, p ∈ depth_first_stack st \/ p ∈ finished -> p < n;
  di_nodup : NoDup (depth_first_stack st);
  di_nodup_fin : NoDup finished;
  di_next : forall p, p < n -> (next_successor st !!! p) <= length (succs !!! p);
  di_path : stack_path (depth_first_stack st);
  di_done : stack_done (next_successor st) finished [] (depth_first_stack st);
  di_sorted : finish_sorted finished
}.

Definition dfs_work (st : DfsState) (p : nat) : nat :=
  length (succs !!! p) - (next_successor st !!! p) +
  (if (color st !!! p =? 2)%Z then 0 else 1).

Definition dfs_measure (st : DfsState) : nat :=
  sum_list_with (dfs_work st) (seq 0 n).

Lemma dfs_measure_step st st' p :
  p < n -> (forall q, q < n -> q <> p -> dfs_work st' q = dfs_work st q) ->
  S (dfs_work st' p) = dfs_work st p -> S (dfs_measure st') = dfs_measure st.
Proof.
  intros Hp Hq Hw. unfold dfs_measure.
  pose proof (sum_list_with_change (dfs_work st') (dfs_work st) (seq 0 n) p
                (NoDup_seq 0 n)) as H.
  rewrite !elem_of_seq in H. specialize (H ltac:(lia)).
  enough (sum_list_with (dfs_work st') (seq 0 n) + dfs_work st p =
          sum_list_with (dfs_work st) (seq 0 n) + dfs_work st' p) by lia.
  apply H. intros q Hin. rewrite elem_of_seq in Hin. apply Hq. lia.
Qed.

(** What one step preserves and decreases. *)
Definition dfs_progress (st st' : DfsState) : Prop :=
  (exists fin', dfs_inv st' fin') /\ S (dfs_measure st') = dfs_measure st /\
  (forall p, p < n -> color st !!! p <> 0%Z -> color st' !!! p <> 0%Z).

Lemma dfs_pop_progress c nx phase stack fin :
  dfs_inv (mkDfs c nx (phase :: stack)) fin ->
  nx !!! phase = length (succs !!! phase) ->
  dfs_progress (mkDfs c nx (phase :: stack)) (mkDfs (<[phase := 2%Z]> c) nx stack).
Proof.
  intros [Hlc Hln Hco Hlt Hnd Hnf Hnx Hpa Hdo Hso] Hend. simpl in *.
  assert (phase < n) as Hp by (apply Hlt; set_solver).
  apply NoDup_cons in Hnd as [Hps Hnd].
  assert (phase ∉ fin) as Hpf.
  { destruct (Hco phase Hp) as [(_&_&H&_)|[(_&_&H)|(_&H&_)]]; set_solver. }
  assert (Hc : forall q, q <> phase -> (<[phase := 2%Z]> c) !!! q = c !!! q).
  { intros q Hq. by rewrite list_lookup_total_insert_ne. }
  assert (Hc' : (<[phase := 2%Z]> c) !!! phase = 2%Z) by (by rewrite list_lookup_total_insert_eq by lia).
  destruct Hdo as [Hd1 Hd2]. split_and!.
  - exists (phase :: fin). constructor; simpl; try done.
    + by rewrite length_insert.
    + intros q Hq. destruct (decide (q = phase)) as [->|Hne].
      { right. right. rewrite Hc'. set_solver. }
      rewrite Hc by done. destruct (Hco q Hq) as [?|[?|?]]; set_solver.
    + set_solver.
    + by constructor.
    + by destruct Hpa.
    + eapply stack_done_mono, Hd2. set_solver.
    + intros l1 p l2 E q Hq. destruct l1 as [|x l1]; simplify_eq/=; [|by eapply Hso].
      apply list_elem_of_lookup in Hq as [i Hi].
      destruct (Hd1 i q) as [|H]; [|done|done|by apply elem_of_nil in H].
      rewrite Hend. by eapply lookup_lt_Some.
  - apply (dfs_measure_step _ _ phase); [done| |].
    + intros q Hq Hne. unfold dfs_work. simpl. by rewrite Hc.
    + unfold dfs_work. simpl. rewrite Hc'.
      destruct (Hco phase Hp) as [(E&_)|[(E&_)|(_&H&_)]]; [rewrite E; simpl; lia..|set_solver].
  - simpl. intros q Hq. destruct (decide (q = phase)) as [->|Hne]; [by rewrite Hc'|by rewrite Hc].
Qed.

Lemma dfs_back_edge c nx phase stack fin s :
  dfs_inv (mkDfs c nx (phase :: stack)) fin -> edge phase s -> (c !!! s) = 1%Z ->
  s < n /\ tc edge s s.
Proof.
  intros [Hlc Hln Hco Hlt Hnd Hnf Hnx Hpa Hdo Hso] He Hs. simpl in *.
  assert (s < n) as Hsn by (by eapply adj_edge_lt). split; [done|].
  assert (s ∈ phase :: stack) as Hin.
  { destruct (Hco s Hsn) as [(E&_)|[(_&H&_)|(E&_)]]; [congruence|done|congruence]. }
  apply tc_rtc_l with phase; [|by apply tc_once].
  apply (stack_path_reach phase stack []); by rewrite ?app_nil_r.
Qed.

Lemma dfs_advance_progress c nx phase stack fin s :
  dfs_inv (mkDfs c nx (phase :: stack)) fin ->
  (succs !!! phase) !! (nx !!! phase) = Some s -> (c !!! s) <> 1%Z ->
  dfs_progress (mkDfs c nx (phase :: stack))
    (if (c !!! s =? 0)%Z
     then mkDfs (<[s := 1%Z]> c) (<[phase := S (nx !!! phase)]> nx) (s :: phase :: stack)
     else mkDfs c (<[phase := S (nx !!! phase)]> nx) (phase :: stack)).
Proof.
  intros [Hlc Hln Hco Hlt Hnd Hnf Hnx Hpa Hdo Hso] Hs Hs1. simpl in *.
  assert (phase < n) as Hp by (apply Hlt; set_solver).
  assert (edge phase s) as He by (apply list_elem_of_lookup; eauto).
  assert (s < n) as Hsn by (by eapply adj_edge_lt).
  apply lookup_lt_Some in Hs as Hslt.
  pose proof (NoDup_cons_1_1 _ _ Hnd) as Hps.
  assert (c !!! phase = 1%Z) as Hcp.
  { destruct (Hco phase Hp) as [(_&_&H&_)|[(E&_)|(_&H&_)]]; [set_solver|done|set_solver]. }
  set (nx' := <[phase := S (nx !!! phase)]> nx).
  assert (Hn : forall q, q <> phase -> nx' !!! q = nx !!! q).
  { intros q Hq. unfold nx'. by rewrite list_lookup_total_insert_ne. }
  assert (Hn' : nx' !!! phase = S (nx !!! phase)).
  { unfold nx'. by rewrite list_lookup_total_insert_eq by lia. }
  destruct Hdo as [Hd1 Hd2].
  assert (Hd1' : forall i t, i < S (nx !!! phase) -> (succs !!! phase) !! i = Some t ->
            t ∈ fin \/ t = s).
  { intros i t Hi Ht. destruct (decide (i = nx !!! phase)) as [->|]; [right; congruence|].
    destruct (Hd1 i t) as [|H]; [lia|done|by left|by apply elem_of_nil in H]. }
  assert (Hnb : forall p, p < n -> nx' !!! p <= length (succs !!! p)).
  { intros p Hq. destruct (decide (p = phase)) as [->|]; [rewrite Hn'; lia|].
    rewrite Hn by done. by apply Hnx. }
  destruct (Z.eqb_spec (c !!! s) 0) as [Hs0|Hs0].
  - assert (s <> phase) as Hsp by congruence.
    assert (nx !!! s = 0 /\ ~ s ∈ phase :: stack /\ ~ s ∈ fin) as (Hns & Hss & Hsf).
    { destruct (Hco s Hsn) as [?|[(E&_)|(E&_)]]; [tauto|congruence..]. }
    assert (Hc : forall q, q <> s -> (<[s := 1%Z]> c) !!! q = c !!! q).
    { intros q Hq. by rewrite list_lookup_total_insert_ne. }
    assert (Hc' : (<[s := 1%Z]> c) !!! s = 1%Z) by (by rewrite list_lookup_total_insert_eq by lia).
    split_and!.
    + exists fin. constructor; simpl; try done.
      * by rewrite length_insert.
      * unfold nx'. by rewrite length_insert.
      * intros q Hq. destruct (decide (q = s)) as [->|Hne].
        { right. left. rewrite Hc'. set_solver. }
        rewrite Hc by done. destruct (Hco q Hq) as [(E1&E2&E3&E4)|[?|?]]; [left|set_solver..].
        rewrite Hn by set_solver. set_solver.
      * intros q. rewrite elem_of_cons. intros [[->|Hq]|Hq]; [done|apply Hlt; tauto..].
      * by constructor.
      * split; [rewrite Hn, Hns by done; lia|]. split.
        { intros i t Hi Ht. rewrite Hn' in Hi. destruct (Hd1' i t Hi Ht); set_solver. }
        apply stack_done_next; [done|]. eapply stack_done_mono, Hd2. set_solver.
    + apply (dfs_measure_step _ _ phase); [done| |].
      * intros q Hq Hne. unfold dfs_work. simpl. rewrite Hn by done.
        destruct (decide (q = s)) as [->|]; [rewrite Hc', Hs0; done|by rewrite Hc].
      * unfold dfs_work. simpl. rewrite Hn', Hc, Hcp by done. simpl. lia.
    + simpl. intros q Hq. destruct (decide (q = s)) as [->|]; [by rewrite Hc'|by rewrite Hc].
  - assert (s ∈ fin) as Hsf.
    { destruct (Hco s Hsn) as [(E&_)|[(E&_)|(_&_&H)]]; [done|done|done]. }
    split_and!.
    + exists fin. constructor; simpl; try done.
      * unfold nx'. by rewrite length_insert.
      * intros q Hq. destruct (Hco q Hq) as [(E1&E2&E3&E4)|?]; [left|by right].
        rewrite Hn by set_solver. done.
      * split.
        { intros i t Hi Ht. rewrite Hn' in Hi. destruct (Hd1' i t Hi Ht) as [?| ->]; by left. }
        by apply stack_done_next.
    + apply (dfs_measure_step _ _ phase); [done| |].
      * intros q Hq Hne. unfold dfs_work. simpl. by rewrite Hn.
      * unfold dfs_work. simpl. rewrite Hn', Hcp by done. simpl. lia.
    + done.
Qed.

Lemma dfs_step_spec st fin :
  dfs_inv st fin -> depth_first_stack st <> [] ->
  match dfs_step succs st with
  | inl s => s < n /\ tc edge s s
  | inr st' => dfs_progress st st'
  end.
Proof.
  intros Hinv Hne. destruct st as [c nx [|phase stack]]; [done|]. unfold dfs_step. simpl.
  assert (phase < n) as Hp by (eapply di_lt; [done|]; set_solver).
  pose proof (di_next _ _ Hinv phase Hp) as Hnx. simpl in Hnx.
  destruct (Nat.eqb_spec (nx !!! phase) (length (succs !!! phase))) as [Hend|Hend].
  { by apply (dfs_pop_progress _ _ _ _ fin). }
  destruct (lookup_lt_is_Some_2 (succs !!! phase) (nx !!! phase)) as [s Hs]; [lia|].
  rewrite (list_lookup_total_correct _ _ _ Hs).
  destruct (Z.eqb_spec (c !!! s) 1) as [H1|H1].
  - apply (dfs_back_edge c nx phase stack fin); [done| |done]. apply list_elem_of_lookup. eauto.
  - pose proof (dfs_advance_progress c nx phase stack fin s Hinv Hs H1) as H.
    by destruct (c !!! s =? 0)%Z.
Qed.

(** The result of a whole search from a state of measure at most the fuel. *)
Definition dfs_outcome (st : DfsState) (visited : list nat) (r : nat + DfsState) : Prop :=
  match r with
  | inl s => s < n /\ tc edge s s
  | inr st' =>
      (exists fin', dfs_inv st' fin') /\ depth_first_stack st' = [] /\
      dfs_measure st' <= dfs_measure st /\
      (forall p, p < n -> color st !!! p <> 0%Z \/ p ∈ visited -> color st' !!! p <> 0%Z)
  end.

Lemma dfs_loop_spec fuel : forall st fin,
  dfs_inv st fin -> dfs_measure st <= fuel -> dfs_outcome st [] (dfs_loop fuel succs st).
Proof.
  induction fuel as [|fuel IH]; intros st fin Hinv Hf; simpl.
  - destruct (depth_first_stack st) as [|p stack] eqn:Es.
    + split_and!; [by exists fin|done|lia|]. set_solver.
    + exfalso. assert (p ∈ depth_first_stack st) as Hin by (rewrite Es; by left).
      assert (p < n) as Hp by (eapply di_lt; eauto).
      pose proof (sum_list_with_elem (dfs_work st) (seq 0 n) p) as Hw.
      rewrite elem_of_seq in Hw. unfold dfs_measure in Hf.
      assert (1 <= dfs_work st p) by
        (unfold dfs_work; destruct (di_color _ _ Hinv p Hp) as [(E&_)|[(E&_)|(_&?&_)]];
           [rewrite E; simpl; lia..|set_solver]).
      lia.
  - destruct (depth_first_stack st) as [|p stack] eqn:Es.
    + split_and!; [by exists fin|done|lia|]. set_solver.
    + pose proof (dfs_step_spec st fin Hinv) as Hstep. rewrite Es in Hstep.
      specialize (Hstep ltac:(done)). destruct (dfs_step succs st) as [s|st']; [done|].
      destruct Hstep as ((fin' & Hinv') & Hm & Hc).
      specialize (IH st' fin' Hinv'). destruct (dfs_loop fuel succs st') as [s|st'']; simpl in *.
      { apply IH. lia. }
      destruct IH as (? & ? & ? & Hc'); [lia|]. split_and!; try done; [lia|].
      intros q Hq [Hq'|Hq'%elem_of_nil]; [|done]. apply Hc'; [done|]. left. by apply Hc.
Qed.

Lemma dfs_root_inv st fin root :
  dfs_inv st fin -> depth_first_stack st = [] -> root < n -> color st !!! root = 0%Z ->
  let st' := {| color := <[root := 1%Z]> (color st); next_successor := next_successor st;
                depth_first_stack := root :: depth_first_stack st |} in
  dfs_inv st' fin /\ dfs_measure st' = dfs_measure st.
Proof.
  intros [Hlc Hln Hco Hlt Hnd Hnf Hnx Hpa Hdo Hso] Es Hr Hc0 st'.
  destruct st as [c nx stack]. simpl in *. subst stack.
  assert (nx !!! root = 0 /\ ~ root ∈ fin) as [Hn0 Hrf].
  { destruct (Hco root Hr) as [?|[(E&_)|(E&_)]]; [tauto|congruence..]. }
  assert (Hc : forall q, q <> root -> (<[root := 1%Z]> c) !!! q = c !!! q).
  { intros q Hq. by rewrite list_lookup_total_insert_ne. }
  assert (Hc' : (<[root := 1%Z]> c) !!! root = 1%Z) by (by rewrite list_lookup_total_insert_eq by lia).
  split.
  - constructor; simpl; try done.
    + by rewrite length_insert.
    + intros q Hq. destruct (decide (q = root)) as [->|Hne].
      * right. left. rewrite Hc'. set_solver.
      * rewrite Hc by done. destruct (Hco q Hq) as [?|[?|?]]; set_solver.
    + intros q [->%list_elem_of_singleton|Hq]; [done|]. apply Hlt. by right.
    + apply NoDup_singleton.
    + split; [|done]. intros i s Hi. lia.
  - unfold dfs_measure. apply Nat.le_antisymm; apply sum_list_with_le; intros q _;
      unfold dfs_work; simpl; (destruct (decide (q = root)) as [->|]; [rewrite Hc', Hc0|rewrite Hc by done]); done.
Qed.

Lemma dfs_roots_spec fuel roots : forall st fin,
  dfs_inv st fin -> depth_first_stack st = [] -> dfs_measure st <= fuel ->
  Forall (fun r => r < n) roots ->
  dfs_outcome st roots (dfs_roots fuel succs roots st).
Proof.
  induction roots as [|root roots IH]; intros st fin Hinv Es Hf Hr; simpl.
  { split_and!; [by exists fin|done|lia|]. set_solver. }
  apply Forall_cons in Hr as [Hroot Hr].
  destruct (Z.eqb_spec (color st !!! root) 0) as [Hc|Hc]; simpl.
  - destruct (dfs_root_inv st fin root Hinv Es Hroot Hc) as [Hinv' Hm'].
    set (st0 := {| color := _; next_successor := _; depth_first_stack := _ |}) in *.
    pose proof (dfs_loop_spec fuel st0 fin Hinv' ltac:(lia)) as Hl.
    destruct (dfs_loop fuel succs st0) as [s|st1]; [done|].
    destruct Hl as ((fin1 & Hinv1) & Es1 & Hm1 & Hc1).
    specialize (IH st1 fin1 Hinv1 Es1 ltac:(lia) Hr).
    destruct (dfs_roots fuel succs roots st1) as [s|st2]; [done|].
    destruct IH as (? & ? & ? & Hc2). split_and!; try done; [lia|].
    assert (Hc0 : forall q, q < n -> color st !!! q <> 0%Z \/ q = root -> color st0 !!! q <> 0%Z).
    { intros q Hq Hor. simpl. rewrite <- (di_len_c _ _ Hinv) in Hroot.
      destruct (decide (q = root)) as [->|]; [by rewrite list_lookup_total_insert_eq|].
      rewrite list_lookup_total_insert_ne by done. tauto. }
    intros q Hq. rewrite elem_of_cons. intros [H'|[->|H']]; apply Hc2; auto 6.
  - specialize (IH st fin Hinv Es Hf Hr).
    destruct (dfs_roots fuel succs roots st) as [s|st2]; [done|].
    destruct IH as (? & ? & ? & Hc2). split_and!; try done.
    intros q Hq. rewrite elem_of_cons. intros [H'|[->|H']]; apply Hc2; auto.
Qed.

(** A found phase is on a cycle; no found phase means a finishing order of
    all phases that every edge respects. *)
Lemma find_cycle_spec :
  match find_cycle n succs with
  | Some s => s < n /\ tc edge s s
  | None => exists fin, finish_sorted fin /\ NoDup fin /\ (forall p, p < n -> p ∈ fin)
  end.
Proof.
  unfold find_cycle.
  set (st0 := {| color := _; next_successor := _; depth_first_stack := _ |}).
  assert (Hinv : dfs_inv st0 []).
  { constructor; simpl; rewrite ?length_replicate; try done.
    - intros p Hp. left. rewrite !lookup_total_replicate_2 by done. set_solver.
    - set_solver.
    - apply NoDup_nil_2.
    - apply NoDup_nil_2.
    - intros p Hp. rewrite lookup_total_replicate_2 by done. lia.
    - intros l1 p l2 E. by destruct l1. }
  assert (Hm : dfs_measure st0 <= n + length (concat succs)).
  { unfold dfs_measure. rewrite length_concat. rewrite <- (lookup_total_seq succs) at 1.
    rewrite sum_list_with_fmap, Hlen.
    enough (forall l, sum_list_with (dfs_work st0) l <=
              length l + sum_list_with (fun x => length (succs !!! x)) l) as H.
    { specialize (H (seq 0 n)). by rewrite length_seq in H. }
    induction l as [|x l IHl]; simpl; [done|]. unfold dfs_work at 1.
    destruct (_ =? _)%Z; lia. }
  pose proof (dfs_roots_spec _ (seq 0 n) st0 [] Hinv eq_refl Hm) as H.
  destruct (dfs_roots _ succs (seq 0 n) st0) as [s|st]; simpl in H.
  { apply H, Forall_forall. intros x. rewrite elem_of_seq. lia. }
  destruct H as ((fin & Hfin) & Es & _ & Hc).
  { apply Forall_forall. intros x. rewrite elem_of_seq. lia. }
  exists fin. split_and!; [apply Hfin..|]. intros p Hp.
  destruct (di_color _ _ Hfin p Hp) as [(E&_)|[(_&H&_)|(_&_&H)]]; [|by rewrite Es in H; set_solver|done].
  exfalso. apply (Hc p Hp); [right; apply elem_of_seq; lia|done].
Qed.

(** With such an order, no nonempty set of phases has all its predecessors
    inside itself. *)
Lemma finish_sorted_wf fin (R : nat -> Prop) :
  finish_sorted fin -> NoDup fin -> (forall p, p < n -> p ∈ fin) ->
  (forall q, R q -> q < n /\ exists p, R p /\ edge p q) -> forall q, ~ R q.
Proof.
  intros Hso Hnd Hall HR.
  assert (forall k q, fin !! k = Some q -> ~ R q) as H.
  { intros k. induction k as [k IH] using lt_wf_ind. intros q Hk Hq.
    destruct (HR q Hq) as (_ & p & Hp & He).
    assert (p ∈ fin) as [j Hj]%list_elem_of_lookup by (apply Hall, HR, Hp).
    apply take_drop_middle in Hj as E.
    assert (q ∈ drop (S j) fin) as [i Hi]%list_elem_of_lookup by (by eapply Hso).
    rewrite lookup_drop in Hi.
    assert (S j + i = k) by (by eapply NoDup_lookup).
    apply (IH j) with p; [lia|done|done]. }
  intros q Hq. assert (q ∈ fin) as [k Hk]%list_elem_of_lookup by (apply Hall, HR, Hq).
  by eapply H.
Qed.
End Dfs.
