(* ===== verification/GraphConflicts.v ===== *)
(** * Adjacency vectors and the resource scan of the graph compiler

    What the adjacency vectors of [build_adjacency] hold, and what the
    conflict scan [scan_resources] decides, stated on the dependency relation
    itself. *)

From stdpp Require Import base list numbers sorting sets relations.
From Stdlib Require Import ZArith Lia Bool.
From S2P Require Import Prelude Handles CompiledGraph GraphOrder GraphSearch.

(** The relation the dependencies declare, on phase indexes. *)
Definition dep_edge (deps : list GraphDependency) (p q : nat) : Prop :=
  exists d, d ∈ deps /\ phase_index (prerequisite d) = p /\ phase_index (dependent d) = q.

Definition acyclic (deps : list GraphDependency) : Prop :=
  forall p, ~ tc (dep_edge deps) p p.

Definition ordered (deps : list GraphDependency) (p q : nat) : Prop :=
  rtc (dep_edge deps) p q \/ rtc (dep_edge deps) q p.

Lemma dependency_valid_lt owner n d :
  dependency_valid owner n d = true ->
  phase_index (prerequisite d) < n /\ phase_index (dependent d) < n.
Proof.
  unfold dependency_valid, phase_index. rewrite !andb_true_iff, !Z.ltb_lt.
  intros [[_ Hp] Hq].
  pose proof (handle_index_range (ph_value (prerequisite d))).
  pose proof (handle_index_range (ph_value (dependent d))).
  unfold PhaseHandle_index in *. lia.
Qed.

Lemma build_adjacency_inr owner n deps : forall st st',
  build_adjacency owner n deps st = inr st' <->
  Forall (fun d => dependency_valid owner n d = true) deps /\
  st' = foldl add_dependency st deps.
Proof.
  induction deps as [|d deps IH]; intros st st'; simpl.
  { split; [by intros [= ->]|by intros [_ ->]]. }
  rewrite Forall_cons. destruct (dependency_valid owner n d); [|naive_solver].
  rewrite IH. naive_solver.
Qed.

Lemma build_adjacency_inl owner n deps : forall st x,
  build_adjacency owner n deps st = inl x ->
  exists d, d ∈ deps /\ dependency_valid owner n d = false /\
    x = mkDiagnostic invalid_handle (prerequisite d) (dependent d) ResourceHandle_default.
Proof.
  induction deps as [|d deps IH]; intros st x; simpl; [done|].
  destruct (dependency_valid owner n d) eqn:E.
  - intros (d' & ? & ?)%IH. exists d'. set_solver.
  - intros [= <-]. exists d. set_solver.
Qed.

Lemma alter_lookup_total {A} `{!Inhabited A} (f : A -> A) (l : list A) i j :
  i < length l -> alter f i l !!! j = if decide (j = i) then f (l !!! i) else l !!! j.
Proof.
  intros Hi. rewrite !list_lookup_total_alt. case_decide as Hd.
  - subst j. rewrite list_lookup_alter, (list_lookup_lookup_total_lt l i Hi). simpl.
    by rewrite decide_True.
  - by rewrite list_lookup_alter_ne.
Qed.

(** ** What the vectors hold *)

Section Adjacency.
Context (n : nat).

Record adj_inv (deps : list GraphDependency) (st : AdjacencyState) : Prop := {
  ai_len_s : length (successors st) = n;
  ai_len_p : length (predecessors st) = n;
  ai_len_i : length (indegree st) = n;
  ai_succ : forall p q, adj_edge (successors st) p q <-> dep_edge deps p q;
  ai_pred : forall p q, adj_edge (predecessors st) q p <-> dep_edge deps p q;
  ai_total : length (concat (successors st)) = length deps;
  ai_indeg : forall q, q < n ->
    indegree st !!! q = Z.of_nat (remaining (seq 0 n) (successors st) [] q)
}.

Lemma dep_edge_snoc deps d p q :
  dep_edge (deps ++ [d]) p q <->
  dep_edge deps p q \/ (p = phase_index (prerequisite d) /\ q = phase_index (dependent d)).
Proof. unfold dep_edge. set_solver. Qed.

Lemma adj_edge_alter (adj : list (list nat)) a b p q :
  a < length adj ->
  adj_edge (alter (fun l => l ++ [b]) a adj) p q <->
  adj_edge adj p q \/ (p = a /\ q = b).
Proof.
  intros Ha. unfold adj_edge. rewrite alter_lookup_total by done.
  case_decide; set_solver.
Qed.

Lemma total_alter (adj : list (list nat)) a b :
  a < length adj ->
  length (concat (alter (fun l => l ++ [b]) a adj)) = S (length (concat adj)).
Proof.
  intros Ha. rewrite !length_concat.
  assert (length (alter (fun l => l ++ [b]) a adj) = length adj) as El by apply length_alter.
  rewrite <- (lookup_total_seq adj) at 2.
  rewrite <- (lookup_total_seq (alter _ a adj)), El, !sum_list_with_fmap.
  pose proof (sum_list_with_change
    (fun i => length (alter (fun l => l ++ [b]) a adj !!! i))
    (fun i => length (adj !!! i)) (seq 0 (length adj)) a (NoDup_seq _ _)) as H.
  simpl in H. rewrite alter_lookup_total, decide_True, length_app in H by done. simpl in H.
  enough (forall x y l : nat, x + l = y + (l + 1) -> x = S y) as Hx.
  { apply Hx with (length (adj !!! a)), H; [apply elem_of_seq; lia|].
    intros q _ Hq. by rewrite alter_lookup_total, decide_False. }
  intros; lia.
Qed.

Lemma remaining_nil dom (adj : list (list nat)) q :
  remaining dom adj [] q = sum_list_with (fun p => occ (adj !!! p) q) dom.
Proof. reflexivity. Qed.

Lemma remaining_alter (adj : list (list nat)) a b q :
  a < n -> length adj = n ->
  remaining (seq 0 n) (alter (fun l => l ++ [b]) a adj) [] q =
  remaining (seq 0 n) adj [] q + (if decide (b = q) then 1 else 0).
Proof.
  intros Ha Hl. rewrite !remaining_nil.
  pose proof (sum_list_with_change
    (fun p => occ (alter (fun l => l ++ [b]) a adj !!! p) q)
    (fun p => occ (adj !!! p) q) (seq 0 n) a (NoDup_seq _ _)) as H.
  simpl in H. rewrite alter_lookup_total, decide_True, count_occ_app in H by (done || lia).
  enough (forall x y o c : nat, x + o = y + (o + c) -> x = y + c) as Hx.
  { eapply Hx. erewrite H; [|apply elem_of_seq; lia|].
    - simpl. destruct (Nat.eq_dec b q), (decide (b = q)); done.
    - intros p _ Hp. by rewrite alter_lookup_total, decide_False by (done || lia). }
  intros; lia.
Qed.

Lemma remaining_le_total (adj : list (list nat)) q :
  length adj = n -> remaining (seq 0 n) adj [] q <= length (concat adj).
Proof.
  intros <-. rewrite length_concat. rewrite <- (lookup_total_seq adj) at 3.
  rewrite sum_list_with_fmap. apply sum_list_with_le. intros p _. apply count_occ_bound.
Qed.

Lemma adj_inv_add deps st d :
  phase_index (prerequisite d) < n -> phase_index (dependent d) < n ->
  (Z.of_nat (S (length deps)) <= u64_max)%Z ->
  adj_inv deps st -> adj_inv (deps ++ [d]) (add_dependency st d).
Proof.
  intros Hp Hq Hmax [Hls Hlp Hli Hs Hpr Ht Hi]. unfold add_dependency. constructor; simpl.
  - by rewrite length_alter.
  - by rewrite length_alter.
  - by rewrite length_alter.
  - intros p q. by rewrite adj_edge_alter, Hs, dep_edge_snoc by lia.
  - intros p q. rewrite adj_edge_alter, Hpr, dep_edge_snoc by lia. tauto.
  - rewrite total_alter, Ht, length_app by lia. simpl. lia.
  - intros q Hqn. rewrite remaining_alter, alter_lookup_total, !Hi by (done || lia).
    pose proof (remaining_le_total (successors st) q Hls).
    destruct (decide (phase_index (dependent d) = q)) as [E|E].
    + subst q. rewrite decide_True by done. unfold u64, u64_max in *. rewrite Z.mod_small; lia.
    + rewrite decide_False by done. lia.
Qed.

Lemma adj_inv_empty : adj_inv [] (empty_adjacency n).
Proof.
  assert (E : forall p, replicate n [] !!! p = ([] : list nat)).
  { intros p. rewrite list_lookup_total_alt.
    destruct (replicate n ([] : list nat) !! p) as [l|] eqn:El; [|done].
    by apply lookup_replicate in El as [-> _]. }
  constructor; simpl; rewrite ?length_replicate; try done.
  - intros p q. unfold adj_edge, dep_edge. rewrite E. set_solver.
  - intros p q. unfold adj_edge, dep_edge. rewrite E. set_solver.
  - induction n; simpl; [done|].
    apply IHn0. intros p. specialize (E (S p)). done.
  - intros q Hq. rewrite lookup_total_replicate_2 by done.
    rewrite remaining_nil. induction (seq 0 n) as [|x l IH]; simpl; [done|].
    rewrite E. simpl. done.
Qed.

Lemma adj_inv_build owner deps :
  Forall (fun d => dependency_valid owner n d = true) deps ->
  (Z.of_nat (length deps) <= u64_max)%Z ->
  adj_inv deps (foldl add_dependency (empty_adjacency n) deps).
Proof.
  induction deps as [|d deps IH] using rev_ind; intros Hv Hmax; [apply adj_inv_empty|].
  rewrite foldl_app. simpl. apply Forall_app in Hv as [Hv [Hd _]%Forall_cons].
  apply dependency_valid_lt in Hd as [Hp Hq]. rewrite length_app in Hmax. simpl in Hmax.
  apply adj_inv_add; [done|done|lia|]. apply IH; [done|lia].
Qed.

Lemma adj_range (adj : list (list nat)) (R : nat -> nat -> Prop) :
  (forall p q, adj_edge adj p q -> R p q) -> (forall p q, R p q -> q < n) ->
  forall p, Forall (fun s => s < n) (adj !!! p).
Proof. intros H1 H2 p. apply Forall_forall. intros q Hq. by eapply H2, H1. Qed.
End Adjacency.

(** * The resource-conflict scan of the graph compiler

    [scan_resources] over the sorted accesses reports a pair exactly when two
    phases touch one resource, one of them writing, with no dependency path
    between them. *)

Lemma lookup_total_replicate {A} `{!Inhabited A} n (x : A) p :
  p < n -> replicate n x !!! p = x.
Proof. apply lookup_total_replicate_2. Qed.

(** ** Sorting by resource and phase index *)

Lemma access_less_asym a b : access_less a b = true -> access_less b a = false.
Proof.
  unfold access_less.
  destruct (Z.eqb_spec (ResourceHandle_index (ac_resource a)) (ResourceHandle_index (ac_resource b)));
  destruct (Z.eqb_spec (ResourceHandle_index (ac_resource b)) (ResourceHandle_index (ac_resource a)));
    simpl; rewrite ?Z.ltb_lt, ?Z.ltb_ge; lia.
Qed.

Lemma access_not_greater a b :
  not_greater access_less a b <->
  (ResourceHandle_index (ac_resource a) < ResourceHandle_index (ac_resource b))%Z \/
  (ResourceHandle_index (ac_resource a) = ResourceHandle_index (ac_resource b) /\
   (PhaseHandle_index (ac_phase a) <= PhaseHandle_index (ac_phase b))%Z).
Proof.
  unfold not_greater, access_less.
  destruct (Z.eqb_spec (ResourceHandle_index (ac_resource b)) (ResourceHandle_index (ac_resource a)));
    simpl; rewrite Z.ltb_ge; lia.
Qed.

Lemma access_sorted l : StronglySorted (not_greater access_less) (std_sort access_less l).
Proof.
  apply std_sort_sorted; [apply access_less_asym|].
  intros x y z. rewrite !access_not_greater. lia.
Qed.

Lemma resource_span_spec r l g rest :
  resource_span r l = (g, rest) ->
  l = g ++ rest /\ (forall x, x ∈ g -> ac_resource x = r) /\
  (forall x rest', rest = x :: rest' -> ac_resource x <> r).
Proof.
  revert g rest. induction l as [|a l IH]; intros g rest; simpl.
  { intros [= <- <-]. set_solver. }
  case_bool_decide as Ha.
  - destruct (resource_span r l) as [g' rest''] eqn:E. intros [= <- <-].
    destruct (IH _ _ eq_refl) as (-> & Hg & Hr). split_and!; [done| |done].
    set_solver.
  - intros [= <- <-]. split_and!; [done|set_solver|]. by intros x rest' [= <- _].
Qed.

(** ** Validity of the accesses *)

Lemma check_accesses_none owner n resource_count accesses :
  check_accesses owner n resource_count accesses = None <->
  Forall (fun a => access_valid owner n resource_count a = true) accesses.
Proof.
  induction accesses as [|a l IH]; simpl; [by split|].
  rewrite Forall_cons. destruct (access_valid owner n resource_count a); [|naive_solver].
  rewrite IH. naive_solver.
Qed.

Lemma check_accesses_some owner n resource_count accesses d :
  check_accesses owner n resource_count accesses = Some d ->
  exists a, a ∈ accesses /\ access_valid owner n resource_count a = false /\
    d = mkDiagnostic invalid_handle (ac_phase a) PhaseHandle_default (ac_resource a).
Proof.
  induction accesses as [|a l IH]; simpl; [done|].
  destruct (access_valid owner n resource_count a) eqn:E.
  - intros (a' & ? & ?)%IH. exists a'. set_solver.
  - intros [= <-]. exists a. set_solver.
Qed.

(** ** The scan *)

Section Conflicts.
Context (owner : Z) (n resource_count : nat) (deps : list GraphDependency)
        (st : AdjacencyState).
Context (Hadj : adj_inv n deps st).
Context (Hlt : forall p q, dep_edge deps p q -> p < n /\ q < n).

(** An access the compiler accepts, its handles being 64-bit values. *)
Definition access_ok (a : GraphResourceAccess) : Prop :=
  access_valid owner n resource_count a = true /\
  is_u64 (ph_value (ac_phase a)) /\ is_u64 (rh_value (ac_resource a)).

Lemma access_ok_lt a : access_ok a -> phase_index (ac_phase a) < n.
Proof.
  intros [Hv _]. unfold access_valid in Hv. rewrite !andb_true_iff, !Z.ltb_lt in Hv.
  destruct Hv as [[[_ Hp] _] _]. unfold phase_index.
  pose proof (handle_index_range (ph_value (ac_phase a))).
  unfold PhaseHandle_index in *. lia.
Qed.

Lemma access_ok_resource a b :
  access_ok a -> access_ok b ->
  ResourceHandle_index (ac_resource a) = ResourceHandle_index (ac_resource b) ->
  ac_resource a = ac_resource b.
Proof.
  intros (Hva & _ & Hua) (Hvb & _ & Hub) Hi.
  unfold access_valid in Hva, Hvb. rewrite !andb_true_iff, !Z.eqb_eq in Hva, Hvb.
  apply ResourceHandle_ext; try done; try tauto. intuition congruence.
Qed.

(** Two accesses of the same resource that the dependencies leave unordered. *)
Definition unordered_pair (w o : GraphResourceAccess) : Prop :=
  access_is_write w = true /\ ac_resource w = ac_resource o /\
  ac_phase w <> ac_phase o /\
  ~ ordered deps (phase_index (ac_phase w)) (phase_index (ac_phase o)).

Record reach_inv (r : ReachState) : Prop := {
  ri_len_a : length (reachable_after r) = n;
  ri_len_b : length (reachable_before r) = n;
  ri_token : (0 <= visit_token r <= u64_max)%Z;
  ri_after : forall p, p < n -> (0 <= reachable_after r !!! p <= visit_token r)%Z;
  ri_before : forall p, p < n -> (0 <= reachable_before r !!! p <= visit_token r)%Z
}.

Lemma rtc_dep p q : rtc (adj_edge (successors st)) p q <-> rtc (dep_edge deps) p q.
Proof.
  split; apply rtc_subrel; intros x y H; by apply (ai_succ _ _ _ Hadj).
Qed.

Lemma rtc_dep_back p q : rtc (adj_edge (predecessors st)) p q <-> rtc (dep_edge deps) q p.
Proof.
  split; intros H.
  - induction H as [|x y z Hxy _ IH]; [constructor|].
    eapply rtc_r; [done|]. by apply (ai_pred _ _ _ Hadj).
  - induction H as [|x y z Hxy _ IH]; [constructor|].
    eapply rtc_r; [done|]. by apply (ai_pred _ _ _ Hadj).
Qed.

(** One marking pass with a token no entry carries yet. *)
Lemma mark_pass adj token start visited :
  (forall p, Forall (fun s => s < n) (adj !!! p)) -> length adj = n -> start < n ->
  length visited = n -> (0 < token)%Z ->
  (forall p, p < n -> (0 <= visited !!! p < token)%Z) ->
  let v := mark_reachable start adj visited token in
  length v = n /\ (forall p, p < n -> (0 <= v !!! p <= token)%Z) /\
  (forall p, p < n -> v !!! p = token <-> rtc (adj_edge adj) start p).
Proof.
  intros Hr Hl Hs Hv Ht Hold v.
  destruct (mark_reachable_spec n adj token start visited) as (H1 & H2 & H3); try done.
  { intros p Hp. specialize (Hold p Hp). lia. }
  split_and!; [done| |done].
  intros p Hp. fold v in H3. destruct (H3 p Hp) as [E|E]; rewrite E; [lia|].
  specialize (Hold p Hp). lia.
Qed.

Lemma mark_writer_spec w r :
  reach_inv r -> access_ok w ->
  let r' := mark_writer st w r in
  reach_inv r' /\
  (forall p, p < n -> reachable_after r' !!! p = visit_token r' <->
     rtc (dep_edge deps) (phase_index (ac_phase w)) p) /\
  (forall p, p < n -> reachable_before r' !!! p = visit_token r' <->
     rtc (dep_edge deps) p (phase_index (ac_phase w))).
Proof.
  intros [Hla Hlb Htk Ha Hb] Hw r'. unfold r', mark_writer.
  pose proof (access_ok_lt w Hw) as Hwn.
  assert (Hrs : forall p, Forall (fun s => s < n) (successors st !!! p)).
  { apply (adj_range n _ (dep_edge deps)); [apply Hadj|apply Hlt]. }
  assert (Hrp : forall p, Forall (fun s => s < n) (predecessors st !!! p)).
  { apply (adj_range n _ (fun q p => dep_edge deps p q)).
    - intros p q H. by apply (ai_pred _ _ _ Hadj).
    - intros p q H. by destruct (Hlt _ _ H). }
  set (x := if (visit_token r =? u64_max)%Z then _ else _).
  assert (Hx : exists after before token, x = (after, before, token) /\
            length after = n /\ length before = n /\ (0 < token <= u64_max)%Z /\
            (forall p, p < n -> (0 <= after !!! p < token)%Z) /\
            (forall p, p < n -> (0 <= before !!! p < token)%Z)).
  { unfold x. destruct (Z.eqb_spec (visit_token r) u64_max); do 3 eexists; (split; [reflexivity|]).
    - rewrite !length_replicate. split_and!; try done;
        intros p Hp; rewrite lookup_total_replicate by lia; lia.
    - split_and!; try done; try lia; intros p Hp; [specialize (Ha p Hp)|specialize (Hb p Hp)]; lia. }
  destruct Hx as (after & before & token & -> & Hl1 & Hl2 & Ht & H1 & H2). simpl.
  destruct (mark_pass (successors st) token (phase_index (ac_phase w)) after)
    as (A1 & A2 & A3); try done; [apply Hadj|lia|].
  destruct (mark_pass (predecessors st) token (phase_index (ac_phase w)) before)
    as (B1 & B2 & B3); try done; [apply Hadj|lia|].
  split_and!; [constructor; simpl; try done; lia| |].
  - intros p Hp. rewrite A3 by done. apply rtc_dep.
  - intros p Hp. rewrite B3 by done. apply rtc_dep_back.
Qed.

Lemma find_unordered_spec w r group :
  reach_inv r -> access_ok w -> access_is_write w = true ->
  (forall o, o ∈ group -> access_ok o /\ ac_resource w = ac_resource o) ->
  match find_unordered (mark_writer st w r) w group with
  | Some o => o ∈ group /\ unordered_pair w o
  | None => forall o, o ∈ group -> ~ unordered_pair w o
  end.
Proof.
  intros Hr Hw Hwr. destruct (mark_writer_spec w r Hr Hw) as (_ & Ha & Hb).
  set (r' := mark_writer st w r) in *.
  induction group as [|o group IH]; intros Hg; simpl.
  { intros o Ho. by apply elem_of_nil in Ho. }
  assert (access_ok o /\ ac_resource w = ac_resource o) as [Ho Hres] by (apply Hg; by left).
  pose proof (access_ok_lt o Ho) as Hon.
  assert (IH' : match find_unordered r' w group with
            | Some o' => o' ∈ o :: group /\ unordered_pair w o'
            | None => forall o', o' ∈ group -> ~ unordered_pair w o' end).
  { assert (Hg' : forall o, o ∈ group -> access_ok o /\ ac_resource w = ac_resource o)
      by (intros; apply Hg; by right).
    specialize (IH Hg'). destruct (find_unordered r' w group); [|done].
    destruct IH. split; [by right|done]. }
  case_bool_decide as Hph.
  { destruct (find_unordered r' w group); [done|].
    intros o' [->|Ho']%elem_of_cons; [|by apply IH']. by intros (_ & _ & Hne & _). }
  specialize (Ha _ Hon). specialize (Hb _ Hon).
  destruct (Z.eqb_spec (reachable_after r' !!! phase_index (ac_phase o)) (visit_token r')) as [E1|E1];
  destruct (Z.eqb_spec (reachable_before r' !!! phase_index (ac_phase o)) (visit_token r')) as [E2|E2];
    simpl.
  4:{ split; [by left|]. split_and!; try done. unfold ordered. tauto. }
  all: destruct (find_unordered r' w group); [done|];
    intros o' [->|Ho']%elem_of_cons; [|by apply IH']; intros (_ & _ & _ & Hno);
    apply Hno; unfold ordered; tauto.
Qed.

Lemma scan_writers_spec res group writers : forall r,
  reach_inv r -> (forall o, o ∈ group -> access_ok o /\ ac_resource o = res) ->
  (forall w, w ∈ writers -> w ∈ group) ->
  match scan_writers st res group writers r with
  | inl d => exists w o, w ∈ group /\ o ∈ group /\ unordered_pair w o /\
      d = mkDiagnostic resource_conflict (ac_phase w) (ac_phase o) (ac_resource w)
  | inr r' => reach_inv r' /\ forall w o, w ∈ writers -> o ∈ group -> ~ unordered_pair w o
  end.
Proof.
  induction writers as [|w writers IH]; intros r Hr Hg Hsub; simpl; [set_solver|].
  destruct (Hg w) as [Hw Hres]; [apply Hsub; by left|].
  destruct (access_is_write w) eqn:Ew.
  - pose proof (find_unordered_spec w r group Hr Hw Ew) as Hf.
    destruct (mark_writer_spec w r Hr Hw) as (Hr' & _).
    destruct (find_unordered (mark_writer st w r) w group) as [o|].
    + destruct Hf as [Ho Hu]. { intros o' Ho'. destruct (Hg o' Ho') as [? ->]. done. }
      exists w, o. rewrite Hres. split_and!; try done. apply Hsub. by left.
    + specialize (IH _ Hr' Hg ltac:(set_solver)).
      destruct (scan_writers st res group writers _); [done|].
      destruct IH as [? IH]. split; [done|].
      intros w' o [->|Hw']%elem_of_cons Ho; [|by apply IH].
      apply Hf; [|done]. intros o' Ho'. destruct (Hg o' Ho') as [? ->]. done.
  - specialize (IH _ Hr Hg ltac:(set_solver)).
    destruct (scan_writers st res group writers r); [done|].
    destruct IH as [? IH]. split; [done|].
    intros w' o [->|Hw']%elem_of_cons Ho; [|by apply IH]. intros (E & _). congruence.
Qed.

(** In a sorted list, the accesses after the span of a resource are of others. *)
Lemma span_separates a l g rest :
  StronglySorted (not_greater access_less) (a :: l) ->
  (forall x, x ∈ a :: l -> access_ok x) ->
  resource_span (ac_resource a) l = (g, rest) ->
  forall x, x ∈ rest -> ac_resource x <> ac_resource a.
Proof.
  intros Hs Hok E. apply resource_span_spec in E as (-> & Hg & Hr).
  destruct rest as [|y rest]; [set_solver|].
  specialize (Hr y rest eq_refl).
  apply StronglySorted_inv in Hs as [Hs Ha].
  apply StronglySorted_app in Hs as (_ & _ & Hs). apply StronglySorted_inv in Hs as [_ Hy].
  rewrite Forall_forall in Ha, Hy.
  assert (Hay : (ResourceHandle_index (ac_resource a) < ResourceHandle_index (ac_resource y))%Z).
  { assert (not_greater access_less a y) as Hn by (apply Ha; set_solver).
    apply access_not_greater in Hn as [|[He _]]; [done|].
    exfalso. apply Hr. symmetry. apply access_ok_resource; [apply Hok; set_solver..|done]. }
  intros x [->|Hx]%elem_of_cons; [done|]. intros Ex.
  apply Hy, access_not_greater in Hx. rewrite Ex in Hx. lia.
Qed.

Lemma scan_resources_spec fuel : forall l r,
  reach_inv r -> StronglySorted (not_greater access_less) l ->
  (forall x, x ∈ l -> access_ok x) -> length l <= fuel ->
  match scan_resources fuel st l r with
  | inl d => exists w o, w ∈ l /\ o ∈ l /\ unordered_pair w o /\
      d = mkDiagnostic resource_conflict (ac_phase w) (ac_phase o) (ac_resource w)
  | inr _ => forall w o, w ∈ l -> o ∈ l -> ~ unordered_pair w o
  end.
Proof.
  induction fuel as [|fuel IH]; intros l r Hr Hs Hok Hf.
  { destruct l; simpl in *; [set_solver|lia]. }
  destruct l as [|a l]; cbn [scan_resources]; [set_solver|].
  destruct (resource_span (ac_resource a) l) as [g rest] eqn:E.
  pose proof (span_separates a l g rest Hs Hok E) as Hsep.
  apply resource_span_spec in E as (-> & Hg & _). simpl in Hf. rewrite length_app in Hf.
  assert (Hgrp : forall o, o ∈ a :: g -> access_ok o /\ ac_resource o = ac_resource a).
  { intros o Ho. split; [apply Hok; set_solver|]. apply elem_of_cons in Ho as [->|Ho]; auto. }
  pose proof (scan_writers_spec (ac_resource a) (a :: g) (a :: g) r Hr Hgrp ltac:(done)) as Hw.
  destruct (scan_writers st (ac_resource a) (a :: g) (a :: g) r) as [d|r'].
  { destruct Hw as (w & o & ? & ? & ? & ->). exists w, o. set_solver. }
  destruct Hw as [Hr' Hw].
  apply StronglySorted_inv in Hs as [Hs _]. apply StronglySorted_app in Hs as (_ & _ & Hs).
  specialize (IH rest r' Hr' Hs ltac:(intros; apply Hok; set_solver) ltac:(lia)).
  destruct (scan_resources fuel st rest r') as [d|r''].
  { destruct IH as (w & o & ? & ? & ? & ->). exists w, o. set_solver. }
  assert (Hin : forall x, x ∈ a :: g ++ rest -> x ∈ a :: g \/ x ∈ rest) by set_solver.
  intros w o [Hw1|Hw1]%Hin [Ho1|Ho1]%Hin; [by apply Hw| | |by apply IH];
    (intros [_ [Heq _]]).
  - apply (Hsep o Ho1). rewrite <- Heq. by apply Hgrp.
  - apply (Hsep w Hw1). rewrite Heq. by apply Hgrp.
Qed.
End Conflicts.
