(* ===== verification/GraphTheorems.v ===== *)
(** * Correctness of the graph compiler

    The claims about [compile_graph] of CompiledGraph.v: what it accepts, the
    order it returns, that the order depends on the dependency relation only,
    and what each rejection means. *)

From stdpp Require Import base list numbers sorting sets relations.
From Stdlib Require Import ZArith Lia Bool.
From S2P Require Import Prelude Handles CompiledGraph GraphOrder GraphSearch GraphConflicts.

(** ** The specification *)

(** [q] may run after the phases of [done]. *)
Definition may_run (deps : list GraphDependency) (done : list nat) (q : nat) : Prop :=
  forall p, dep_edge deps p q -> p ∈ done.

(** Each phase comes after its prerequisites, and is the least phase that may
    run at its position. *)
Definition greedy_order (deps : list GraphDependency) (order : list nat) : Prop :=
  forall k q, order !! k = Some q ->
    may_run deps (take k order) q /\
    forall q', q' < q -> q' ∉ take k order -> ~ may_run deps (take k order) q'.

Definition handles_of (owner : Z) (order : list nat) : list PhaseHandle :=
  (fun p => PhaseHandle_make owner (Z.of_nat p)) <$> order.

(** Accesses as C++ values: their handles are 64-bit. *)
Definition access_typed (a : GraphResourceAccess) : Prop :=
  is_u64 (ph_value (ac_phase a)) /\ is_u64 (rh_value (ac_resource a)).

Definition conflict_free (deps : list GraphDependency) (accesses : list GraphResourceAccess) : Prop :=
  forall w o, w ∈ accesses -> o ∈ accesses -> ~ unordered_pair deps w o.

Record well_formed (owner : Z) (n rc : nat) (deps : list GraphDependency)
    (accesses : list GraphResourceAccess) : Prop := {
  wf_phases : (Z.of_nat n <= graph_handle_index_mask)%Z;
  wf_resources : (Z.of_nat rc <= graph_handle_index_mask)%Z;
  wf_deps : Forall (fun d => dependency_valid owner n d = true) deps;
  wf_acyclic : acyclic deps;
  wf_accesses : Forall (fun a => access_valid owner n rc a = true) accesses;
  wf_conflicts : conflict_free deps accesses
}.

(** The reasons for which a graph is refused, with the diagnostic of each. *)
Inductive rejection (owner : Z) (n rc : nat) (deps : list GraphDependency)
    (accesses : list GraphResourceAccess) : GraphCompileDiagnostic -> Prop :=
| reject_capacity :
    (graph_handle_index_mask < Z.of_nat n)%Z \/ (graph_handle_index_mask < Z.of_nat rc)%Z ->
    rejection owner n rc deps accesses (status_diagnostic capacity_exceeded)
| reject_dependency d :
    d ∈ deps -> dependency_valid owner n d = false ->
    rejection owner n rc deps accesses
      (mkDiagnostic invalid_handle (prerequisite d) (dependent d) ResourceHandle_default)
| reject_cycle s :
    s < n -> tc (dep_edge deps) s s ->
    rejection owner n rc deps accesses
      (mkDiagnostic graph_cycle (PhaseHandle_make owner (Z.of_nat s))
         PhaseHandle_default ResourceHandle_default)
| reject_access a :
    a ∈ accesses -> access_valid owner n rc a = false ->
    rejection owner n rc deps accesses
      (mkDiagnostic invalid_handle (ac_phase a) PhaseHandle_default (ac_resource a))
| reject_conflict w o :
    w ∈ accesses -> o ∈ accesses -> unordered_pair deps w o ->
    rejection owner n rc deps accesses
      (mkDiagnostic resource_conflict (ac_phase w) (ac_phase o) (ac_resource w)).

(** ** Greedy orders *)

Lemma greedy_order_before deps order p q :
  greedy_order deps order -> dep_edge deps p q -> q ∈ order ->
  exists i j, i < j /\ order !! i = Some p /\ order !! j = Some q.
Proof.
  intros Hg He [j Hj]%list_elem_of_lookup. destruct (Hg j q Hj) as [Hr _].
  specialize (Hr p He). apply list_elem_of_lookup in Hr as [i Hi].
  apply lookup_take_Some in Hi as [Hi ?]. by exists i, j.
Qed.

Lemma greedy_order_tc deps order p q :
  greedy_order deps order -> NoDup order -> (forall x y, dep_edge deps x y -> y ∈ order) ->
  tc (dep_edge deps) p q ->
  exists i j, i < j /\ order !! i = Some p /\ order !! j = Some q.
Proof.
  intros Hg Hnd Hin. induction 1 as [x y Hxy|x y z Hxy _ IH].
  - by eapply greedy_order_before; eauto.
  - destruct IH as (i & j & Hij & Hi & Hj).
    destruct (greedy_order_before deps order x y Hg Hxy) as (k & l & Hkl & Hk & Hl); [eauto|].
    assert (l = i) by (by eapply NoDup_lookup). subst. exists k, j. split_and!; [lia|done|done].
Qed.

Lemma greedy_order_acyclic deps order :
  greedy_order deps order -> NoDup order -> (forall x y, dep_edge deps x y -> y ∈ order) ->
  acyclic deps.
Proof.
  intros Hg Hnd Hin p Hp.
  destruct (greedy_order_tc deps order p p) as (i & j & Hij & Hi & Hj); try done.
  assert (i = j) by (by eapply NoDup_lookup). lia.
Qed.

(** Two greedy orders of the same relation agree. *)
Lemma greedy_order_unique deps deps' o o' :
  (forall p q, dep_edge deps p q <-> dep_edge deps' p q) ->
  greedy_order deps o -> greedy_order deps' o' -> NoDup o -> NoDup o' ->
  length o = length o' -> o = o'.
Proof.
  intros Heq Hg Hg' Hnd Hnd' Hl.
  assert (forall k, take k o = take k o') as H.
  { induction k as [|k IH]; [done|].
    destruct (o !! k) as [x|] eqn:Ex; [|].
    - destruct (lookup_lt_is_Some_2 o' k) as [y Ey]; [apply lookup_lt_Some in Ex; lia|].
      rewrite (take_S_r o k x), (take_S_r o' k y), IH by done. do 2 f_equal.
      destruct (Hg k x Ex) as [Rx Mx]. destruct (Hg' k y Ey) as [Ry My].
      rewrite IH in Rx, Mx.
      assert (Nx : x ∉ take k o').
      { rewrite <- IH. intros [i Hi]%list_elem_of_lookup. apply lookup_take_Some in Hi as [Hi ?].
        pose proof (NoDup_lookup o i k x Hnd Hi Ex). lia. }
      assert (Ny : y ∉ take k o').
      { intros [i Hi]%list_elem_of_lookup. apply lookup_take_Some in Hi as [Hi ?].
        pose proof (NoDup_lookup o' i k y Hnd' Hi Ey). lia. }
      destruct (lt_eq_lt_dec x y) as [[Hlt|]|Hlt]; [|done|]; exfalso.
      + apply (My x Hlt Nx). intros p Hp. apply Rx. by apply Heq.
      + apply (Mx y Hlt Ny). intros p Hp. apply Ry. by apply Heq.
    - rewrite (take_ge o (S k)), (take_ge o' (S k)) by (apply lookup_ge_None in Ex; lia).
      rewrite (take_ge o k), (take_ge o' k) in IH by (apply lookup_ge_None in Ex; lia). done. }
  specialize (H (length o)). rewrite take_ge, take_ge in H by lia. done.
Qed.

(** ** The compiler against the specification *)

Section Compile.
Context (owner : Z) (n rc : nat) (deps : list GraphDependency)
        (accesses : list GraphResourceAccess).
Context (Hdeps : (Z.of_nat (length deps) <= u64_max)%Z)
        (Htyped : Forall access_typed accesses).

Lemma valid_edge_lt :
  Forall (fun d => dependency_valid owner n d = true) deps ->
  forall p q, dep_edge deps p q -> p < n /\ q < n.
Proof.
  intros Hv p q (d & Hd & <- & <-). rewrite Forall_forall in Hv.
  by apply (dependency_valid_lt owner n), Hv.
Qed.

Lemma candidate_order_spec st :
  Forall (fun d => dependency_valid owner n d = true) deps -> adj_inv n deps st ->
  let order := candidate_order n st in
  NoDup order /\ (forall q, q ∈ order -> q < n) /\ greedy_order deps order /\
  (forall q, q < n -> may_run deps order q -> q ∈ order).
Proof.
  intros Hv Hadj order.
  pose proof (valid_edge_lt Hv) as Hlt.
  assert (Hdone : forall o q, preds_done n (successors st) o q <-> may_run deps o q).
  { intros o q. unfold preds_done, may_run. split.
    - intros H p Hp. apply H; [by apply Hlt in Hp as [??]|]. by apply (ai_succ _ _ _ Hadj).
    - intros H p _ Hp. apply H. by apply (ai_succ _ _ _ Hadj). }
  assert (Hr : forall p, Forall (fun s => s < n) (successors st !!! p)).
  { apply (adj_range n _ (dep_edge deps)); [apply Hadj|]. intros p q H. by destruct (Hlt _ _ H). }
  assert (Hs : (Z.of_nat (length (concat (successors st))) <= u64_max)%Z)
    by (by rewrite (ai_total _ _ _ Hadj)).
  destruct (order_loop_spec n (successors st) (ai_len_s _ _ _ Hadj) Hr Hs n (indegree st)
    (initial_ready n (indegree st)) []) as (i & Hinv).
  { apply order_inv_init; apply Hadj. }
  { simpl. lia. }
  fold (candidate_order n st) in Hinv. fold order in Hinv.
  destruct Hinv as [_ _ Hnd Hl _ Hm Hg]. rewrite app_nil_r in *. split_and!; try done.
  - intros k q Hk. destruct (Hg k q Hk) as [H1 H2]. split; [by apply Hdone|].
    intros q' Hq' Hno. rewrite <- Hdone. by apply H2.
  - intros q Hq Hd. apply Hm; [done|]. by apply Hdone.
Qed.

(** An incomplete order leaves phases that wait for each other. *)
Lemma incomplete_order order :
  NoDup order -> (forall q, q ∈ order -> q < n) ->
  (forall q, q < n -> may_run deps order q -> q ∈ order) ->
  (forall p q, dep_edge deps p q -> p < n) ->
  (exists q, q < n /\ q ∉ order) <-> length order <> n.
Proof.
  intros Hnd Hlt Hrun He. split.
  - intros (q & Hq & Hno) E.
    assert (order ≡ₚ seq 0 n) as Hp.
    { apply submseteq_length_Permutation; [|by rewrite length_seq, E].
      apply NoDup_submseteq; [done|]. intros x Hx. apply elem_of_seq. apply Hlt in Hx. lia. }
    apply Hno. rewrite Hp. apply elem_of_seq. lia.
  - intros Hne. destruct (decide (Exists (fun q => q ∉ order) (seq 0 n))) as [H|H].
    + apply Exists_exists in H as (q & Hq & Hno). apply elem_of_seq in Hq. exists q. split; [lia|done].
    + exfalso. apply Hne. apply not_Exists_Forall in H; [|apply _]. rewrite Forall_forall in H.
      transitivity (length (seq 0 n)); [|apply length_seq]. apply Permutation_length, NoDup_Permutation; [done|apply NoDup_seq|].
      intros x. rewrite elem_of_seq. split; [intros Hx; apply Hlt in Hx; lia|].
      intros Hx. apply dec_stable. apply H, elem_of_seq. lia.
Qed.

Lemma tc_succ st p q : adj_inv n deps st ->
  tc (adj_edge (successors st)) p q -> tc (dep_edge deps) p q.
Proof.
  intros Hadj. induction 1 as [x y H|x y z H _ IH].
  - apply tc_once. by apply (ai_succ _ _ _ Hadj).
  - eapply tc_l; [|done]. by apply (ai_succ _ _ _ Hadj).
Qed.

Lemma cycle_found st :
  Forall (fun d => dependency_valid owner n d = true) deps -> adj_inv n deps st ->
  length (candidate_order n st) <> n ->
  exists s, find_cycle n (successors st) = Some s /\ s < n /\ tc (dep_edge deps) s s.
Proof.
  intros Hv Hadj Hne. pose proof (valid_edge_lt Hv) as Hlt.
  destruct (candidate_order_spec st Hv Hadj) as (Hnd & Hl & Hg & Hrun).
  assert (Hr : forall p, Forall (fun s => s < n) (successors st !!! p)).
  { apply (adj_range n _ (dep_edge deps)); [apply Hadj|]. intros p q H. by destruct (Hlt _ _ H). }
  pose proof (find_cycle_spec n (successors st) (ai_len_s _ _ _ Hadj) Hr) as Hf.
  destruct (find_cycle n (successors st)) as [s|].
  { exists s. destruct Hf. split_and!; [done..|]. by eapply tc_succ. }
  exfalso. destruct Hf as (fin & Hso & Hnf & Hall).
  apply (incomplete_order _ Hnd Hl Hrun ltac:(intros p q H; by destruct (Hlt _ _ H))) in Hne as (q & Hq & Hno).
  apply (finish_sorted_wf n (successors st) (ai_len_s _ _ _ Hadj) fin
           (fun q => q < n /\ q ∉ candidate_order n st) Hso Hnf Hall) with q; [|done].
  clear q Hq Hno. intros q [Hq Hno]. split; [done|].
  destruct (decide (Exists (fun p => q ∈ successors st !!! p /\ p ∉ candidate_order n st) (seq 0 n)))
    as [H|H].
  - apply Exists_exists in H as (p & Hp & Hqp & Hnp). apply elem_of_seq in Hp.
    exists p. split_and!; [lia|done|done].
  - exfalso. apply Hno, Hrun; [done|]. intros p Hp. apply dec_stable. intros Hnp. apply H.
    apply Exists_exists. exists p. apply Hlt in Hp as Hp'. split; [apply elem_of_seq; lia|].
    split; [by apply (ai_succ _ _ _ Hadj)|done].
Qed.

Lemma complete_order st :
  Forall (fun d => dependency_valid owner n d = true) deps -> adj_inv n deps st ->
  length (candidate_order n st) = n ->
  candidate_order n st ≡ₚ seq 0 n /\ greedy_order deps (candidate_order n st) /\ acyclic deps.
Proof.
  intros Hv Hadj El. pose proof (valid_edge_lt Hv) as Hlt.
  destruct (candidate_order_spec st Hv Hadj) as (Hnd & Hl & Hg & Hrun).
  assert (Hp : candidate_order n st ≡ₚ seq 0 n).
  { apply submseteq_length_Permutation; [|by rewrite length_seq, El].
    apply NoDup_submseteq; [done|]. intros x Hx. apply elem_of_seq. apply Hl in Hx. lia. }
  split_and!; [done..|]. eapply greedy_order_acyclic; [done..|].
  intros x y Hxy. rewrite Hp. apply elem_of_seq. apply Hlt in Hxy. lia.
Qed.

Lemma scan_spec st :
  Forall (fun d => dependency_valid owner n d = true) deps -> adj_inv n deps st ->
  Forall (fun a => access_valid owner n rc a = true) accesses ->
  match scan_resources (length accesses) st (std_sort access_less accesses)
          {| reachable_after := replicate n 0%Z; reachable_before := replicate n 0%Z;
             visit_token := 0 |} with
  | inl d => exists w o, w ∈ accesses /\ o ∈ accesses /\ unordered_pair deps w o /\
      d = mkDiagnostic resource_conflict (ac_phase w) (ac_phase o) (ac_resource w)
  | inr _ => conflict_free deps accesses
  end.
Proof.
  intros Hv Hadj Hacc.
  assert (Hperm : std_sort access_less accesses ≡ₚ accesses) by apply std_sort_perm.
  pose proof (scan_resources_spec owner n rc deps st Hadj (valid_edge_lt Hv)
    (length accesses) (std_sort access_less accesses)
    {| reachable_after := replicate n 0%Z; reachable_before := replicate n 0%Z;
       visit_token := 0 |}) as H.
  assert (Hok : forall x, x ∈ std_sort access_less accesses -> access_ok owner n rc x).
  { intros x Hx. rewrite Hperm in Hx. rewrite Forall_forall in Hacc. pose proof (proj1 (Forall_forall _ _) Htyped) as Ht.
    split; [by apply Hacc|by apply Ht]. }
  unfold conflict_free. destruct (scan_resources _ _ _ _) as [d|r].
  - destruct H as (w & o & Hw & Ho & Hu & ->); try done; [|apply access_sorted|by rewrite Hperm|].
    { constructor; simpl; rewrite ?length_replicate; try done;
        intros p Hp; rewrite lookup_total_replicate by done; lia. }
    rewrite Hperm in Hw, Ho. by exists w, o.
  - intros w o Hw Ho. rewrite <- Hperm in Hw, Ho.
    revert w o Hw Ho. apply H; [|apply access_sorted|done|by rewrite Hperm].
    constructor; simpl; rewrite ?length_replicate; try done;
      intros p Hp; rewrite lookup_total_replicate by done; lia.
Qed.

Definition accepted (out : list PhaseHandle) : Prop :=
  well_formed owner n rc deps accesses /\
  exists order, out = handles_of owner order /\ order ≡ₚ seq 0 n /\ greedy_order deps order.

Lemma compile_candidate_spec :
  match compile_candidate owner n rc deps accesses with
  | inl d => rejection owner n rc deps accesses d
  | inr out => accepted out
  end.
Proof.
  unfold compile_candidate.
  destruct (Z.ltb_spec graph_handle_index_mask (Z.of_nat n)) as [Hn|Hn]; simpl;
    [apply reject_capacity; by left|].
  destruct (Z.ltb_spec graph_handle_index_mask (Z.of_nat rc)) as [Hc|Hc];
    [apply reject_capacity; by right|].
  destruct (build_adjacency owner n deps (empty_adjacency n)) as [d|st] eqn:Eb.
  { apply build_adjacency_inl in Eb as (d' & ? & ? & ->). by apply reject_dependency. }
  apply build_adjacency_inr in Eb as [Hv ->].
  pose proof (adj_inv_build n owner deps Hv Hdeps) as Hadj.
  set (st := foldl add_dependency (empty_adjacency n) deps) in *.
  destruct (Nat.eqb_spec (length (candidate_order n st)) n) as [El|El]; simpl.
  2:{ destruct (cycle_found st Hv Hadj El) as (s & -> & Hs & Ht). by apply reject_cycle. }
  destruct (check_accesses owner n rc accesses) as [d|] eqn:Ec.
  { apply check_accesses_some in Ec as (a & ? & ? & ->). by apply reject_access. }
  apply check_accesses_none in Ec. pose proof (scan_spec st Hv Hadj Ec) as Hscan.
  destruct (scan_resources _ _ _ _) as [d|r].
  { destruct Hscan as (w & o & ? & ? & ? & ->). by apply reject_conflict. }
  destruct (complete_order st Hv Hadj El) as (Hp & Hg & Hac).
  split; [by constructor|]. by exists (candidate_order n st).
Qed.

Lemma rejection_not_well_formed d :
  rejection owner n rc deps accesses d -> ~ well_formed owner n rc deps accesses.
Proof.
  intros Hr [H1 H2 H3 H4 H5 H6]. rewrite Forall_forall in H3. rewrite Forall_forall in H5.
  destruct Hr as [?|d Hd E|s Hs Ht|a Ha E|w o Hw Ho Hu]; [lia| | | |].
  - specialize (H3 d Hd). simpl in H3. congruence.
  - by apply (H4 s).
  - specialize (H5 a Ha). simpl in H5. congruence.
  - by apply (H6 w o).
Qed.

Lemma rejection_status d : rejection owner n rc deps accesses d -> gd_status d <> ok.
Proof. by destruct 1. Qed.
End Compile.

Ltac compile_cases owner n rc deps accesses Hd Ht :=
  let H := fresh "Hspec" in
  pose proof (compile_candidate_spec owner n rc deps accesses Hd Ht) as H;
  unfold compile_graph in *;
  destruct (compile_candidate owner n rc deps accesses) as [?d|?hs]; simpl in *.


(** ** Claims *)

(** C1. [compile_graph] accepts a graph exactly when it is well formed: the
    counts fit the handle index, every dependency and access has handles of
    this graph within range, the dependency relation has no cycle, and any two
    accesses of a resource by different phases, one of them a write, are
    ordered by a dependency path. *)
Theorem compile_graph_accepts owner n rc deps accesses out :
  (Z.of_nat (length deps) <= u64_max)%Z -> Forall access_typed accesses ->
  gd_status (fst (compile_graph owner n rc deps accesses out)) = ok <->
  well_formed owner n rc deps accesses.
Proof.
  intros Hd Ht. compile_cases owner n rc deps accesses Hd Ht.
  - split; [intros E; by apply rejection_status in Hspec|].
    intros Hw. by apply rejection_not_well_formed in Hspec.
  - split; [intros _; by destruct Hspec|done].
Qed.

(** C2. The order of an accepted graph lists every phase of the graph exactly
    once; each phase stands after all its prerequisites, and at each position
    the least phase whose prerequisites are all placed was chosen. *)
Theorem compile_graph_order owner n rc deps accesses out :
  (Z.of_nat (length deps) <= u64_max)%Z -> Forall access_typed accesses ->
  gd_status (fst (compile_graph owner n rc deps accesses out)) = ok ->
  exists order,
    snd (compile_graph owner n rc deps accesses out) = handles_of owner order /\
    order ≡ₚ seq 0 n /\ greedy_order deps order /\
    forall p q, dep_edge deps p q ->
      exists i j, i < j /\ order !! i = Some p /\ order !! j = Some q.
Proof.
  intros Hd Ht Hok. compile_cases owner n rc deps accesses Hd Ht.
  - by apply rejection_status in Hspec.
  - destruct Hspec as [Hw (order & -> & Hp & Hg)]. exists order. split_and!; [done..|].
    intros p q He. eapply greedy_order_before; [done..|]. rewrite Hp. apply elem_of_seq.
    apply (valid_edge_lt owner n deps) in He; [lia|apply Hw].
Qed.

(** C39. The order depends on the dependency relation only: two accepted
    declarations of a graph whose dependencies denote the same relation, in
    whatever listing order and with whatever repetitions, compile to the same
    order. *)
Theorem compile_graph_deterministic owner n rc deps deps' accesses accesses' out out' :
  (Z.of_nat (length deps) <= u64_max)%Z -> (Z.of_nat (length deps') <= u64_max)%Z ->
  Forall access_typed accesses -> Forall access_typed accesses' ->
  (forall p q, dep_edge deps p q <-> dep_edge deps' p q) ->
  gd_status (fst (compile_graph owner n rc deps accesses out)) = ok ->
  gd_status (fst (compile_graph owner n rc deps' accesses' out')) = ok ->
  snd (compile_graph owner n rc deps accesses out) =
  snd (compile_graph owner n rc deps' accesses' out').
Proof.
  intros Hd Hd' Ht Ht' Heq Hok Hok'.
  compile_cases owner n rc deps accesses Hd Ht; [by apply rejection_status in Hspec|].
  compile_cases owner n rc deps' accesses' Hd' Ht'; [by apply rejection_status in Hspec0|].
  destruct Hspec as [_ (o & -> & Hp & Hg)]. destruct Hspec0 as [_ (o' & -> & Hp' & Hg')].
  f_equal. eapply greedy_order_unique; try done.
  - rewrite Hp. apply NoDup_seq.
  - rewrite Hp'. apply NoDup_seq.
  - by rewrite Hp, Hp'.
Qed.

(** A refused graph leaves the caller's order untouched, and the
    diagnostic names a true reason: a count over capacity, a dependency or an
    access that is invalid, a phase on a dependency cycle, or a write and an
    access of one resource that no dependency path orders.  In particular the
    internal error after an exhausted cycle search is never reported. *)
Theorem compile_graph_rejects owner n rc deps accesses out :
  (Z.of_nat (length deps) <= u64_max)%Z -> Forall access_typed accesses ->
  gd_status (fst (compile_graph owner n rc deps accesses out)) <> ok ->
  snd (compile_graph owner n rc deps accesses out) = out /\
  rejection owner n rc deps accesses (fst (compile_graph owner n rc deps accesses out)).
Proof.
  intros Hd Ht Hok. compile_cases owner n rc deps accesses Hd Ht; [done|].
  by contradict Hok.
Qed.

(** ** Witnesses: four phases, 3 -> 1, 0 -> 2 -> 1, a write ordered before a
    read, and the same graph with the ordering edge turned into a cycle. *)

Definition sample_phase (i : Z) : PhaseHandle := PhaseHandle_make 7 i.
Definition sample_edge (p q : Z) : GraphDependency :=
  mkDependency (sample_phase p) (sample_phase q).
Definition sample_deps : list GraphDependency :=
  [sample_edge 3 1; sample_edge 0 2; sample_edge 2 1].
Definition sample_deps' : list GraphDependency :=
  [sample_edge 2 1; sample_edge 0 2; sample_edge 3 1; sample_edge 0 2].
Definition sample_accesses : list GraphResourceAccess :=
  [mkAccess (sample_phase 1) (ResourceHandle_make 7 0) access_read;
   mkAccess (sample_phase 3) (ResourceHandle_make 7 0) access_write].

Lemma sample_typed : Forall access_typed sample_accesses.
Proof. repeat constructor; vm_compute; intros H; discriminate H. Qed.

Lemma sample_same_relation p q : dep_edge sample_deps p q <-> dep_edge sample_deps' p q.
Proof.
  unfold dep_edge, sample_deps, sample_deps'.
  split; intros (d & Hd & <- & <-); exists d; (split; [|done]);
    repeat (apply elem_of_cons in Hd as [->|Hd]; [set_solver|]); by apply elem_of_nil in Hd.
Qed.

Lemma compile_graph_accepts_witness : well_formed 7 4 1 sample_deps sample_accesses.
Proof.
  apply (compile_graph_accepts 7 4 1 sample_deps sample_accesses []).
  - vm_compute. discriminate.
  - apply sample_typed.
  - vm_compute. reflexivity.
Defined.

Lemma compile_graph_order_witness : exists order,
  snd (compile_graph 7 4 1 sample_deps sample_accesses []) = handles_of 7 order /\
  order ≡ₚ seq 0 4 /\ greedy_order sample_deps order /\
  forall p q, dep_edge sample_deps p q ->
    exists i j, i < j /\ order !! i = Some p /\ order !! j = Some q.
Proof.
  apply (compile_graph_order 7 4 1 sample_deps sample_accesses []).
  - vm_compute. discriminate.
  - apply sample_typed.
  - vm_compute. reflexivity.
Defined.

Lemma compile_graph_deterministic_witness :
  snd (compile_graph 7 4 1 sample_deps sample_accesses []) =
  snd (compile_graph 7 4 1 sample_deps' sample_accesses []).
Proof.
  apply (compile_graph_deterministic 7 4 1 sample_deps sample_deps' sample_accesses
           sample_accesses [] []).
  - vm_compute. discriminate.
  - vm_compute. discriminate.
  - apply sample_typed.
  - apply sample_typed.
  - apply sample_same_relation.
  - vm_compute. reflexivity.
  - vm_compute. reflexivity.
Defined.

Lemma compile_graph_rejects_witness :
  rejection 7 4 1 (sample_edge 1 3 :: sample_deps) sample_accesses
    (mkDiagnostic graph_cycle (sample_phase 1) PhaseHandle_default ResourceHandle_default).
Proof.
  apply (compile_graph_rejects 7 4 1 (sample_edge 1 3 :: sample_deps) sample_accesses []).
  - vm_compute. discriminate.
  - apply sample_typed.
  - vm_compute. discriminate.
Defined.
