(* ===== verification/RateTimeline.v ===== *)
(** * The rate timeline compiler (src/rt/src/rate_timeline.cpp)

    [compile_rate_timeline] turns rate domains (periods, substeps, deadlines)
    and the binding of phases to domains into the reference plan of one
    supercycle: the domains, the bindings in compiled phase order, and the
    sorted list of releases in the half-open interval [0, supercycle).

    Times and counts that the code keeps in 64 bits are [Z] values with the
    wrap of an unchecked operation written out; vector positions are [nat].
    The sentinel [size_t(-1)] of the position vectors is [None].  Characters
    are their codes.  Allocation failure is not modelled. *)

From stdpp Require Import base list numbers sorting sets strings.
From Stdlib Require Import ZArith Lia Bool.
From S2P Require Import Prelude Handles.

Local Open Scope Z_scope.
Local Open Scope rtfw_scope.

(** ** Capacities (src/rt/include/rt/config.hpp) *)

Definition rate_domain_capacity : nat := 64.
Definition rate_domain_name_capacity : nat := 64.
Definition rate_domain_substep_capacity : Z := 64.
Definition reference_release_capacity : Z := 65536.

(** ** Data (config.hpp, runtime.hpp, rate_timeline.hpp)

    An enumeration of the source also holds raw values outside its list, as a
    C++ enum with a fixed underlying type does. *)

Inductive RateCriticality : Set :=
| crit_background
| crit_normal
| crit_critical
| crit_other (raw : Z).

Inductive RateLateAction : Set :=
| late_skip
| late_bounded_catch_up
| late_hold
| late_degrade
| late_fail
| late_other (raw : Z).

Inductive RatePhaseKind : Set :=
| kind_cpu
| kind_device
| kind_other (raw : Z).

#[export] Instance RateCriticality_eq_dec : EqDecision RateCriticality.
Proof. solve_decision. Defined.
#[export] Instance RateLateAction_eq_dec : EqDecision RateLateAction.
Proof. solve_decision. Defined.
#[export] Instance RatePhaseKind_eq_dec : EqDecision RatePhaseKind.
Proof. solve_decision. Defined.

Record RateDomainSpec : Set := mkDomainSpec {
  ds_name : list Z;
  ds_period_ns : Z;
  ds_substep_count : Z;
  ds_relative_deadline_ns : Z;
  ds_budget_wcet_ns : Z;
  ds_criticality : RateCriticality;
  ds_optional : bool;
  ds_late_action : RateLateAction;
  ds_bounded_catch_up_limit : Z
}.

Record RateBindingSpec : Set := mkBindingSpec {
  bs_phase : PhaseHandle;
  bs_domain : RateDomainHandle;
  bs_phase_kind : RatePhaseKind
}.

Record CompiledRateDomain : Set := mkCompiledDomain {
  cd_domain : RateDomainHandle;
  cd_name : list Z;
  cd_registration_index : nat;
  cd_period_ns : Z;
  cd_substep_count : Z;
  cd_relative_deadline_ns : Z;
  cd_budget_wcet_ns : Z;
  cd_criticality : RateCriticality;
  cd_optional : bool;
  cd_releases_per_supercycle : Z;
  cd_period_ratio_numerator : Z;
  cd_period_ratio_denominator : Z;
  cd_late_action : RateLateAction;
  cd_bounded_catch_up_limit : Z
}.

Record CompiledRateBinding : Set := mkCompiledBinding {
  cb_phase : PhaseHandle;
  cb_domain : RateDomainHandle;
  cb_phase_kind : RatePhaseKind;
  cb_compiled_phase_index : nat
}.

Record ReferenceRelease : Set := mkRelease {
  rr_release_time_ns : Z;
  rr_domain : RateDomainHandle;
  rr_domain_registration_index : nat;
  rr_domain_release_sequence : Z;
  rr_phase : PhaseHandle;
  rr_phase_kind : RatePhaseKind;
  rr_compiled_phase_index : nat;
  rr_substep_ordinal : Z;
  rr_substep_count : Z;
  rr_relative_deadline_ns : Z;
  rr_deadline_time_ns : Z;
  rr_budget_wcet_ns : Z;
  rr_criticality : RateCriticality;
  rr_optional : bool;
  rr_late_action : RateLateAction;
  rr_bounded_catch_up_limit : Z
}.

Record CompiledRatePlan : Set := mkPlan {
  supercycle_ns : Z;
  pl_domains : list CompiledRateDomain;
  pl_bindings : list CompiledRateBinding;
  pl_releases : list ReferenceRelease
}.

Definition empty_plan : CompiledRatePlan := mkPlan 0 [] [] [].

Record RateCompileDiagnostic : Set := mkRateDiagnostic {
  rdg_status : Status;
  rdg_message : option string
}.

Definition rate_error (s : Status) (message : string) : RateCompileDiagnostic :=
  mkRateDiagnostic s (Some message).

(** ** Checked arithmetic *)

Definition checked_add (left right : Z) : option Z :=
  if u64_max - right <? left then None else Some (u64 (left + right)).

Definition checked_multiply (left right : Z) : option Z :=
  if negb (left =? 0) && (u64_max / left <? right) then None
  else Some (u64 (left * right)).

Definition checked_lcm (left right : Z) : option Z :=
  let divisor := Z.gcd left right in
  if divisor =? 0 then None else checked_multiply (left / divisor) right.

Definition name_character (c : Z) : bool :=
  ((97 <=? c) && (c <=? 122)) || ((65 <=? c) && (c <=? 90)) ||
  ((48 <=? c) && (c <=? 57)) ||
  (c =? 46) || (c =? 95) || (c =? 58) || (c =? 47) || (c =? 64) || (c =? 45).

Definition valid_name (name : list Z) : bool :=
  negb (Nat.eqb (length name) 0) && (length name <? rate_domain_name_capacity)%nat &&
  forallb name_character name.

(** ** Bindings and ownership *)

Definition kind_known (k : RatePhaseKind) : bool :=
  match k with kind_other _ => false | _ => true end.

Definition phase_position (h : PhaseHandle) : nat := Z.to_nat (PhaseHandle_index h).
Definition domain_position (h : RateDomainHandle) : nat := Z.to_nat (RateDomainHandle_index h).

Definition phase_in_graph (graph_owner : Z) (phase_count : nat) (h : PhaseHandle) : bool :=
  PhaseHandle_valid h && (PhaseHandle_owner h =? graph_owner) &&
  (PhaseHandle_index h <? Z.of_nat phase_count).

Definition binding_valid (graph_owner : Z) (phase_count domain_count : nat)
    (b : RateBindingSpec) : bool :=
  phase_in_graph graph_owner phase_count (bs_phase b) &&
  RateDomainHandle_valid (bs_domain b) &&
  (RateDomainHandle_owner (bs_domain b) =? graph_owner) &&
  (RateDomainHandle_index (bs_domain b) <? Z.of_nat domain_count) &&
  kind_known (bs_phase_kind b).

Record OwnershipState : Set := mkOwnership {
  binding_by_phase : list (option nat);
  phases_per_domain : list Z
}.

Definition bind_phase (graph_owner : Z) (phase_count domain_count : nat)
    (index : nat) (b : RateBindingSpec) (st : OwnershipState)
    : RateCompileDiagnostic + OwnershipState :=
  if negb (binding_valid graph_owner phase_count domain_count b) then
    inl (rate_error invalid_handle "rate binding contains an invalid or foreign reference")
  else
    match binding_by_phase st !!! phase_position (bs_phase b) with
    | Some _ => inl (rate_error invalid_config "a phase is bound to more than one rate domain")
    | None =>
        inr {| binding_by_phase :=
                 <[phase_position (bs_phase b) := Some index]> (binding_by_phase st);
               phases_per_domain :=
                 alter (fun c => u64 (c + 1)) (domain_position (bs_domain b))
                   (phases_per_domain st) |}
    end.

Fixpoint bind_phases (graph_owner : Z) (phase_count domain_count : nat)
    (index : nat) (bindings : list RateBindingSpec) (st : OwnershipState)
    : RateCompileDiagnostic + OwnershipState :=
  match bindings with
  | [] => inr st
  | b :: rest =>
      let! st' := bind_phase graph_owner phase_count domain_count index b st in
      bind_phases graph_owner phase_count domain_count (S index) rest st'
  end.

Definition check_ownership (st : OwnershipState) : RateCompileDiagnostic + unit :=
  require (negb (existsb (fun p => match p with None => true | Some _ => false end)
                   (binding_by_phase st)) &&
           negb (existsb (Z.eqb 0) (phases_per_domain st)))
    (rate_error invalid_config "rate model has a missing phase or empty domain ownership").

(** ** Domains and the supercycle *)

Definition criticality_known (c : RateCriticality) : bool :=
  match c with crit_other _ => false | _ => true end.

Definition domain_valid (d : RateDomainSpec) : bool :=
  negb (ds_period_ns d =? 0) && negb (ds_substep_count d =? 0) &&
  (ds_substep_count d <=? rate_domain_substep_capacity) &&
  valid_name (ds_name d) && criticality_known (ds_criticality d).

(** The loop over the domains; [earlier] holds the domains already seen. *)
Fixpoint compute_supercycle (earlier domains : list RateDomainSpec) (supercycle : Z)
    : RateCompileDiagnostic + Z :=
  match domains with
  | [] => inr supercycle
  | d :: rest =>
      let! _ := require (domain_valid d)
        (rate_error invalid_config
           "rate domain contains invalid period, substeps, deadline, or criticality") in
      let! _ := require (negb (existsb (fun e => bool_decide (ds_name e = ds_name d)) earlier))
        (rate_error invalid_config "rate-domain names must be unique") in
      match checked_lcm supercycle (ds_period_ns d) with
      | None => inl (rate_error capacity_exceeded "rate supercycle is not representable")
      | Some s => compute_supercycle (earlier ++ [d]) rest s
      end
  end.

(** The release count of one domain added to the running total. *)
Definition add_domain_releases (supercycle phases : Z) (d : RateDomainSpec) (release_count : Z)
    : option Z :=
  match checked_multiply (supercycle / ds_period_ns d) phases with
  | None => None
  | Some e =>
      match checked_multiply e (ds_substep_count d) with
      | None => None
      | Some e' => checked_add release_count e'
      end
  end.

Fixpoint count_releases (supercycle : Z) (domains : list RateDomainSpec) (phases : list Z)
    (release_count : Z) : RateCompileDiagnostic + Z :=
  match domains, phases with
  | d :: domains', p :: phases' =>
      match add_domain_releases supercycle p d release_count with
      | Some c =>
          if reference_release_capacity <? c
          then inl (rate_error capacity_exceeded "reference-release capacity exceeded")
          else count_releases supercycle domains' phases' c
      | None => inl (rate_error capacity_exceeded "reference-release capacity exceeded")
      end
  | _, _ => inr release_count
  end.

(** ** The candidate plan *)

Definition name_array (name : list Z) : list Z :=
  name ++ replicate (rate_domain_name_capacity - length name) 0.

Definition compile_domain (graph_owner supercycle reference_period : Z) (index : nat)
    (source : RateDomainSpec) : CompiledRateDomain :=
  let ratio_gcd := Z.gcd (ds_period_ns source) reference_period in
  {| cd_domain := RateDomainHandle_make graph_owner (Z.of_nat index);
     cd_name := name_array (ds_name source);
     cd_registration_index := index;
     cd_period_ns := ds_period_ns source;
     cd_substep_count := ds_substep_count source;
     cd_relative_deadline_ns := ds_relative_deadline_ns source;
     cd_budget_wcet_ns := ds_budget_wcet_ns source;
     cd_criticality := ds_criticality source;
     cd_optional := ds_optional source;
     cd_releases_per_supercycle := supercycle / ds_period_ns source;
     cd_period_ratio_numerator := ds_period_ns source / ratio_gcd;
     cd_period_ratio_denominator := reference_period / ratio_gcd;
     cd_late_action := ds_late_action source;
     cd_bounded_catch_up_limit := ds_bounded_catch_up_limit source |}.

Definition compile_binding (bindings : list RateBindingSpec) (by_phase : list (option nat))
    (index : nat) (phase : PhaseHandle) : CompiledRateBinding :=
  let b := bindings !! default 0%nat (by_phase !!! phase_position phase) in
  {| cb_phase := phase;
     cb_domain := from_option bs_domain RateDomainHandle_default b;
     cb_phase_kind := from_option bs_phase_kind kind_cpu b;
     cb_compiled_phase_index := index |}.

(** The loop over the compiled order; [seen] marks the phases that already have
    a compiled index. *)
Fixpoint compile_bindings (graph_owner : Z) (phase_count : nat)
    (bindings : list RateBindingSpec) (by_phase : list (option nat))
    (index : nat) (order : list PhaseHandle) (seen : list (option nat))
    : RateCompileDiagnostic + list CompiledRateBinding :=
  match order with
  | [] => inr []
  | phase :: rest =>
      let! _ := require (phase_in_graph graph_owner phase_count phase)
        (rate_error invalid_handle "compiled phase order contains an invalid reference") in
      let! _ := require (bool_decide (seen !!! phase_position phase = None))
        (rate_error invalid_config "compiled phase order is not a permutation") in
      let! out := compile_bindings graph_owner phase_count bindings by_phase (S index) rest
                    (<[phase_position phase := Some index]> seen) in
      inr (compile_binding bindings by_phase index phase :: out)
  end.

Definition make_release (domain_index : nat) (d : RateDomainSpec) (sequence : nat)
    (release_time deadline_time : Z) (b : CompiledRateBinding) (substep : nat)
    : ReferenceRelease :=
  {| rr_release_time_ns := release_time;
     rr_domain := cb_domain b;
     rr_domain_registration_index := domain_index;
     rr_domain_release_sequence := Z.of_nat sequence;
     rr_phase := cb_phase b;
     rr_phase_kind := cb_phase_kind b;
     rr_compiled_phase_index := cb_compiled_phase_index b;
     rr_substep_ordinal := Z.of_nat substep;
     rr_substep_count := ds_substep_count d;
     rr_relative_deadline_ns := ds_relative_deadline_ns d;
     rr_deadline_time_ns := deadline_time;
     rr_budget_wcet_ns := ds_budget_wcet_ns d;
     rr_criticality := ds_criticality d;
     rr_optional := ds_optional d;
     rr_late_action := ds_late_action d;
     rr_bounded_catch_up_limit := ds_bounded_catch_up_limit d |}.

(** The two inner loops: bindings of the domain, then substeps. *)
Definition emit_sequence (bindings : list CompiledRateBinding) (domain_index : nat)
    (d : RateDomainSpec) (sequence : nat) (release_time deadline_time : Z)
    : list ReferenceRelease :=
  b ← bindings;
  if Nat.eqb (domain_position (cb_domain b)) domain_index
  then make_release domain_index d sequence release_time deadline_time b <$>
         seq 0 (Z.to_nat (ds_substep_count d))
  else [].

Definition emit_release (bindings : list CompiledRateBinding) (domain_index : nat)
    (d : RateDomainSpec) (sequence : nat) : RateCompileDiagnostic + list ReferenceRelease :=
  match checked_multiply (Z.of_nat sequence) (ds_period_ns d) with
  | None => inl (rate_error capacity_exceeded "rate release time is not representable")
  | Some release_time =>
      match checked_add release_time (ds_relative_deadline_ns d) with
      | None => inl (rate_error capacity_exceeded "rate release deadline is not representable")
      | Some deadline_time =>
          inr (emit_sequence bindings domain_index d sequence release_time deadline_time)
      end
  end.

Definition emit_domain (supercycle : Z) (bindings : list CompiledRateBinding)
    (id : nat * RateDomainSpec) : RateCompileDiagnostic + list ReferenceRelease :=
  append_loop (emit_release bindings (fst id) (snd id))
    (seq 0 (Z.to_nat (supercycle / ds_period_ns (snd id)))).

Definition emit_releases (supercycle : Z) (domains : list RateDomainSpec)
    (bindings : list CompiledRateBinding) : RateCompileDiagnostic + list ReferenceRelease :=
  append_loop (emit_domain supercycle bindings) (imap pair domains).

Definition release_less (l r : ReferenceRelease) : bool :=
  if negb (rr_release_time_ns l =? rr_release_time_ns r)
  then rr_release_time_ns l <? rr_release_time_ns r
  else if negb (Nat.eqb (rr_domain_registration_index l) (rr_domain_registration_index r))
  then (rr_domain_registration_index l <? rr_domain_registration_index r)%nat
  else if negb (Nat.eqb (rr_compiled_phase_index l) (rr_compiled_phase_index r))
  then (rr_compiled_phase_index l <? rr_compiled_phase_index r)%nat
  else rr_substep_ordinal l <? rr_substep_ordinal r.

(** ** [compile_rate_timeline] *)

Definition compile_plan (graph_owner : Z) (phase_count : nat)
    (compiled_order : list PhaseHandle) (domains : list RateDomainSpec)
    (bindings : list RateBindingSpec) : RateCompileDiagnostic + CompiledRatePlan :=
  let! _ := require (length domains <=? rate_domain_capacity)%nat
    (rate_error capacity_exceeded "rate-domain capacity exceeded") in
  let! _ := require (negb (Nat.eqb phase_count 0) &&
                     Nat.eqb (length compiled_order) phase_count &&
                     Nat.eqb (length bindings) phase_count)
    (rate_error invalid_config "enabled rate model requires exactly one binding per phase") in
  let! owned := bind_phases graph_owner phase_count (length domains) 0 bindings
    {| binding_by_phase := replicate phase_count None;
       phases_per_domain := replicate (length domains) 0 |} in
  let! _ := check_ownership owned in
  let! supercycle := compute_supercycle [] domains 1 in
  let! _ := count_releases supercycle domains (phases_per_domain owned) 0 in
  let reference_period := from_option ds_period_ns 0 (head domains) in
  let compiled_domains := imap (compile_domain graph_owner supercycle reference_period) domains in
  let! compiled_bindings := compile_bindings graph_owner phase_count bindings
    (binding_by_phase owned) 0 compiled_order (replicate phase_count None) in
  let! releases := emit_releases supercycle domains compiled_bindings in
  inr (mkPlan supercycle compiled_domains compiled_bindings (std_sort release_less releases)).

(** The diagnostic after the call (its status is the returned one) and the
    output plan after it. *)
Definition compile_rate_timeline (graph_owner : Z) (phase_count : nat)
    (compiled_order : list PhaseHandle) (domains : list RateDomainSpec)
    (bindings : list RateBindingSpec) (output : CompiledRatePlan)
    : RateCompileDiagnostic * CompiledRatePlan :=
  match domains with
  | [] =>
      match bindings with
      | [] => (mkRateDiagnostic ok None, empty_plan)
      | _ :: _ =>
          (rate_error invalid_config "rate bindings require at least one rate domain", output)
      end
  | _ :: _ =>
      match compile_plan graph_owner phase_count compiled_order domains bindings with
      | inl d => (d, output)
      | inr plan => (mkRateDiagnostic ok None, plan)
      end
  end.
