(* ===== verification/RateTimelineTheorems.v ===== *)
(** * Correctness of the rate timeline compiler

    Each stage of [compile_plan] is characterised by the condition under which
    it succeeds and the value it returns; the claims compose them. *)

From stdpp Require Import base list numbers sorting sets strings.
From Stdlib Require Import ZArith Lia Bool.
From S2P Require Import Prelude Handles RateTimeline.

Local Open Scope Z_scope.

(** ** Checked arithmetic *)

Lemma checked_add_Some l r o :
  is_u64 l -> is_u64 r -> checked_add l r = Some o <-> l + r <= u64_max /\ o = l + r.
Proof.
  unfold checked_add, is_u64, u64. intros Hl Hr.
  destruct (Z.ltb_spec (u64_max - r) l).
  - split; [done|lia].
  - rewrite Z.mod_small by (unfold u64_max in *; lia). naive_solver lia.
Qed.

Lemma checked_multiply_Some l r o :
  is_u64 l -> is_u64 r -> checked_multiply l r = Some o <-> l * r <= u64_max /\ o = l * r.
Proof.
  unfold checked_multiply, is_u64, u64. intros Hl Hr.
  destruct (Z.eqb_spec l 0) as [->|Hne]; simpl.
  { rewrite Z.mod_small by lia. unfold u64_max. naive_solver lia. }
  destruct (Z.ltb_spec (u64_max / l) r) as [H|H].
  - split; [done|]. intros [Hm _]. exfalso.
    assert (r <= u64_max / l) by (apply Z.div_le_lower_bound; lia). lia.
  - assert (l * r <= u64_max).
    { transitivity (l * (u64_max / l)); [|apply Z.mul_div_le; lia].
      apply Z.mul_le_mono_nonneg_l; lia. }
    rewrite Z.mod_small by (unfold u64_max in *; nia). naive_solver.
Qed.

Lemma checked_lcm_Some l r o :
  is_u64 l -> is_u64 r -> 0 < l -> 0 < r ->
  checked_lcm l r = Some o <-> Z.lcm l r <= u64_max /\ o = Z.lcm l r.
Proof.
  intros Hl Hr Pl Pr. unfold checked_lcm.
  assert (Hg : 0 < Z.gcd l r).
  { pose proof (Z.gcd_nonneg l r). assert (Z.gcd l r <> 0) by (intros E%Z.gcd_eq_0; lia). lia. }
  rewrite (proj2 (Z.eqb_neq _ _)) by lia.
  destruct (Z.gcd_divide_l l r) as [a Ha]. destruct (Z.gcd_divide_r l r) as [b Hb].
  remember (Z.gcd l r) as g eqn:Eg.
  assert (El : l / g = a) by (rewrite Ha; apply Z.div_mul; lia).
  assert (Er : r / g = b) by (rewrite Hb; apply Z.div_mul; lia).
  assert (0 < a) by nia. assert (0 < b) by nia.
  rewrite checked_multiply_Some, El; [|unfold is_u64 in *; nia|done].
  replace (Z.lcm l r) with (a * r); [done|].
  unfold Z.lcm. rewrite <- Eg, Er, Z.abs_eq by nia. nia.
Qed.

(** Ratios by their greatest common divisor. *)
Lemma ratio_exact a b : 0 < a -> 0 < b -> a / Z.gcd a b * b = b / Z.gcd a b * a.
Proof.
  intros Ha Hb. destruct (Z.gcd_divide_l a b) as [x Hx]. destruct (Z.gcd_divide_r a b) as [y Hy].
  remember (Z.gcd a b) as g eqn:Eg. assert (g <> 0) by nia.
  rewrite Hx at 1. rewrite Hy at 2. rewrite !Z.div_mul by done. nia.
Qed.

Lemma ratio_reduced a b : 0 < a -> 0 < b -> Z.gcd (a / Z.gcd a b) (b / Z.gcd a b) = 1.
Proof. intros Ha Hb. apply Z.gcd_div_gcd; [|done]. intros E%Z.gcd_eq_0. lia. Qed.

(** ** Bindings *)

Lemma phase_in_graph_position owner n h :
  phase_in_graph owner n h = true -> (phase_position h < n)%nat.
Proof.
  unfold phase_in_graph, phase_position, PhaseHandle_index.
  rewrite !andb_true_iff, Z.ltb_lt. intros [_ H].
  pose proof (handle_index_range (ph_value h)). lia.
Qed.

Lemma binding_valid_position owner n m b :
  binding_valid owner n m b = true ->
  (phase_position (bs_phase b) < n)%nat /\ (domain_position (bs_domain b) < m)%nat.
Proof.
  unfold binding_valid. rewrite !andb_true_iff, Z.ltb_lt. intros [[[[Hp _] _] Hd] _].
  split; [by eapply phase_in_graph_position|].
  unfold domain_position, RateDomainHandle_index in *.
  pose proof (handle_index_range (dh_value (bs_domain b))). lia.
Qed.

Definition binding_phase (b : RateBindingSpec) : nat := phase_position (bs_phase b).
Definition binding_domain (b : RateBindingSpec) : nat := domain_position (bs_domain b).

(** The number of phases bound to domain [i]. *)
Definition domain_phases (bindings : list RateBindingSpec) (i : nat) : Z :=
  Z.of_nat (length (filter (fun b => binding_domain b = i) bindings)).

Section Ownership.
Context (owner : Z) (n m : nat).
Context (Hn : Z.of_nat n <= u64_max).

Record own_inv (done : list RateBindingSpec) (st : OwnershipState) : Prop := {
  oi_len_b : length (binding_by_phase st) = n;
  oi_len_d : length (phases_per_domain st) = m;
  oi_valid : Forall (fun b => binding_valid owner n m b = true) done;
  oi_nodup : NoDup (binding_phase <$> done);
  oi_bound : forall p j, binding_by_phase st !! p = Some (Some j) <->
    exists b, done !! j = Some b /\ binding_phase b = p;
  oi_count : forall i, (i < m)%nat -> phases_per_domain st !! i = Some (domain_phases done i)
}.

Lemma own_inv_init :
  own_inv [] {| binding_by_phase := replicate n None; phases_per_domain := replicate m 0 |}.
Proof.
  constructor; simpl; rewrite ?length_replicate; try done; try constructor.
  - by intros [? _]%lookup_replicate.
  - intros (b & Hb & _). by rewrite lookup_nil in Hb.
  - intros i Hi. by rewrite lookup_replicate_2.
Qed.

Lemma binding_phase_lt done st b :
  own_inv done st -> b ∈ done -> (binding_phase b < n)%nat.
Proof.
  intros [_ _ Hv _ _ _] Hb. rewrite Forall_forall in Hv.
  by apply (binding_valid_position owner n m b), Hv.
Qed.

(** Distinct positions below [n]: at most [n] bindings. *)
Lemma positions_length (l : list RateBindingSpec) :
  NoDup (binding_phase <$> l) -> (forall b, b ∈ l -> (binding_phase b < n)%nat) ->
  (length l <= n)%nat.
Proof.
  intros Hnd Hlt. rewrite <- (length_fmap binding_phase), <- (length_seq n 0).
  apply submseteq_length, NoDup_submseteq; [done|].
  intros p (b & -> & Hb)%list_elem_of_fmap. apply elem_of_seq. specialize (Hlt b Hb). lia.
Qed.

Lemma domain_phases_snoc done b i :
  domain_phases (done ++ [b]) i =
  domain_phases done i + (if decide (binding_domain b = i) then 1 else 0).
Proof.
  unfold domain_phases. rewrite filter_app, length_app. cbn [filter list_filter].
  case_decide; simpl; lia.
Qed.

Lemma bind_phase_spec done st b : own_inv done st ->
  match bind_phase owner n m (length done) b st with
  | inr st' => own_inv (done ++ [b]) st'
  | inl _ => binding_valid owner n m b = false \/ ~ NoDup (binding_phase <$> done ++ [b])
  end.
Proof.
  intros Hi. unfold bind_phase.
  destruct (binding_valid owner n m b) eqn:Ev; simpl; [|by left].
  destruct (binding_valid_position _ _ _ _ Ev) as [Hp Hd].
  fold (binding_phase b) in *. fold (binding_domain b) in *.
  destruct (lookup_lt_is_Some_2 (binding_by_phase st) (binding_phase b)) as [x Hx];
    [by rewrite (oi_len_b _ _ Hi)|].
  rewrite (list_lookup_total_correct _ _ _ Hx). destruct x as [j|].
  { right. apply (oi_bound _ _ Hi) in Hx as (b' & Hb' & E).
    rewrite fmap_app. simpl. intros (_ & Hdis & _)%NoDup_app.
    apply (Hdis (binding_phase b)); [|by left]. rewrite <- E.
    apply list_elem_of_fmap. exists b'. split; [done|]. by apply list_elem_of_lookup_2 in Hb'. }
  assert (Hfresh : forall b', b' ∈ done -> binding_phase b' <> binding_phase b).
  { intros b' [j Hj]%list_elem_of_lookup E.
    assert (binding_by_phase st !! binding_phase b = Some (Some j)); [|congruence].
    apply (oi_bound _ _ Hi). by exists b'. }
  assert (Hnd : NoDup (binding_phase <$> done ++ [b])).
  { rewrite fmap_app. apply NoDup_app. split_and!; [apply Hi| |apply NoDup_singleton].
    intros p (b' & -> & Hb')%list_elem_of_fmap E%list_elem_of_singleton. by apply (Hfresh b'). }
  constructor; simpl.
  - by rewrite length_insert, (oi_len_b _ _ Hi).
  - by rewrite length_alter, (oi_len_d _ _ Hi).
  - apply Forall_app. split; [apply Hi|by constructor].
  - done.
  - intros p j. rewrite list_lookup_insert_Some, (oi_bound _ _ Hi). split.
    + intros [(<- & [= <-] & _)|(Hne & b' & Hb' & <-)].
      * exists b. by rewrite lookup_app_r, Nat.sub_diag by lia.
      * exists b'. rewrite lookup_app_l by (by eapply lookup_lt_Some). done.
    + intros (b' & [Hb'|[Hge Hb']]%lookup_app_Some & <-).
      * right. split; [|by exists b']. intros E. apply (Hfresh b'); [|done].
        by apply list_elem_of_lookup_2 in Hb'.
      * apply list_lookup_singleton_Some in Hb' as [E <-]. left.
        split_and!; [done| |by rewrite (oi_len_b _ _ Hi)]. do 2 f_equal. lia.
  - intros i Hlt. rewrite domain_phases_snoc.
    assert (domain_phases done i <= Z.of_nat (length done)).
    { unfold domain_phases. pose proof (length_filter (fun b => binding_domain b = i) done). lia. }
    assert (Hlen : (length (done ++ [b]) <= n)%nat).
    { apply positions_length; [done|].
      intros b' [Hb'| ->%list_elem_of_singleton]%elem_of_app; [|done].
      by eapply binding_phase_lt. }
    rewrite length_app in Hlen. simpl in Hlen.
    case_decide as E.
    + rewrite E, list_lookup_alter, decide_True, (oi_count _ _ Hi i Hlt) by done. simpl. f_equal.
      unfold u64. apply Z.mod_small. unfold domain_phases, u64_max in *. lia.
    + rewrite list_lookup_alter_ne by done. rewrite (oi_count _ _ Hi i Hlt). f_equal. lia.
Qed.

Lemma bind_phases_spec bs : forall done st, own_inv done st ->
  match bind_phases owner n m (length done) bs st with
  | inr st' => own_inv (done ++ bs) st'
  | inl _ => ~ (Forall (fun b => binding_valid owner n m b = true) bs /\
                NoDup (binding_phase <$> done ++ bs))
  end.
Proof.
  induction bs as [|b bs IH]; intros done st Hi; simpl; [by rewrite app_nil_r|].
  pose proof (bind_phase_spec done st b Hi) as Hb.
  destruct (bind_phase owner n m (length done) b st) as [d|st']; simpl.
  - intros [[Hv _]%Forall_cons Hnd]. destruct Hb as [Hb|Hb]; [congruence|]. apply Hb.
    change (b :: bs) with ([b] ++ bs) in Hnd. rewrite app_assoc, fmap_app in Hnd.
    by apply NoDup_app in Hnd as [? _].
  - specialize (IH _ _ Hb). rewrite length_app, Nat.add_1_r in IH.
    rewrite <- app_assoc in IH. simpl in IH.
    destruct (bind_phases owner n m (S (length done)) bs st'); [|done].
    intros [[_ Hv]%Forall_cons Hnd]. by apply IH.
Qed.

(** As many bindings as phases, at distinct phases: every phase is bound. *)
Lemma own_inv_all done st p :
  own_inv done st -> length done = n -> (p < n)%nat ->
  exists j b, binding_by_phase st !! p = Some (Some j) /\
              done !! j = Some b /\ binding_phase b = p.
Proof.
  intros Hi Hl Hp.
  assert (Hperm : binding_phase <$> done ≡ₚ seq 0 n).
  { apply NoDup_below_perm; [apply Hi|by rewrite length_fmap|].
    intros q (b & -> & Hb)%list_elem_of_fmap. by eapply binding_phase_lt. }
  assert (p ∈ binding_phase <$> done) as Hin by (rewrite Hperm; apply elem_of_seq; lia).
  apply list_elem_of_fmap in Hin as (b & -> & [j Hj]%list_elem_of_lookup).
  exists j, b. split_and!; [|done..]. apply (oi_bound _ _ Hi). by exists b.
Qed.

Lemma domain_phases_pos bs i :
  domain_phases bs i <> 0 <-> exists b, b ∈ bs /\ binding_domain b = i.
Proof.
  unfold domain_phases. split.
  - intros H. destruct (filter _ bs) as [|b l] eqn:E; [done|].
    assert (b ∈ filter (fun b => binding_domain b = i) bs) as Hb by (rewrite E; by left).
    apply list_elem_of_filter in Hb as [? ?]. by exists b.
  - intros (b & Hb & Hd) H.
    assert (b ∈ filter (fun b => binding_domain b = i) bs) as Hin
      by (by apply list_elem_of_filter).
    destruct (filter _ bs); [by apply elem_of_nil in Hin|done].
Qed.

Lemma check_ownership_inr done st u :
  own_inv done st -> length done = n ->
  check_ownership st = inr u <->
  forall i, (i < m)%nat -> exists b, b ∈ done /\ binding_domain b = i.
Proof.
  intros Hi Hl. unfold check_ownership. rewrite require_inr, andb_true_iff, !negb_true_iff.
  assert (Hall : existsb (fun p => match p with None => true | Some _ => false end)
                   (binding_by_phase st) = false).
  { apply not_true_iff_false. intros (x & [p Hp]%list_elem_of_In%list_elem_of_lookup & Hx)%existsb_exists.
    destruct (own_inv_all done st p Hi Hl) as (j & b & Hj & _).
    { rewrite <- (oi_len_b _ _ Hi). by eapply lookup_lt_Some. }
    rewrite Hj in Hp. by injection Hp as <-. }
  rewrite Hall. split.
  - intros [_ H] i Hlt. apply domain_phases_pos. intros E.
    apply not_true_iff_false in H. apply H, existsb_exists. exists 0. split; [|done].
    apply list_elem_of_In, list_elem_of_lookup. exists i. by rewrite (oi_count _ _ Hi), E.
  - intros H. split; [done|]. apply not_true_iff_false.
    intros (x & [i Hx]%list_elem_of_In%list_elem_of_lookup & E)%existsb_exists.
    assert (i < m)%nat as Hlt by (rewrite <- (oi_len_d _ _ Hi); by eapply lookup_lt_Some).
    rewrite (oi_count _ _ Hi i Hlt) in Hx. injection Hx as <-. apply Z.eqb_eq in E.
    by apply (proj2 (domain_phases_pos done i) (H i Hlt)).
Qed.
End Ownership.

(** ** The supercycle *)

(** Field widths of a domain declaration. *)
Definition domain_typed (d : RateDomainSpec) : Prop :=
  is_u64 (ds_period_ns d) /\ is_u32 (ds_substep_count d) /\ is_u64 (ds_relative_deadline_ns d).

Definition lcm_from (s : Z) (domains : list RateDomainSpec) : Z :=
  foldl (fun s d => Z.lcm s (ds_period_ns d)) s domains.

Lemma lcm_from_divide s ds : (s | lcm_from s ds).
Proof.
  revert s. induction ds as [|d ds IH]; intros s; simpl; [apply Z.divide_refl|].
  etransitivity; [apply Z.divide_lcm_l|apply IH].
Qed.

Lemma lcm_from_period s ds d : d ∈ ds -> (ds_period_ns d | lcm_from s ds).
Proof.
  revert s. induction ds as [|e ds IH]; intros s; [by intros ?%elem_of_nil|].
  intros [->|Hd]%elem_of_cons; simpl; [|by apply IH].
  etransitivity; [apply Z.divide_lcm_r|apply lcm_from_divide].
Qed.

Lemma lcm_from_least s ds x :
  (s | x) -> (forall d, d ∈ ds -> (ds_period_ns d | x)) -> (lcm_from s ds | x).
Proof.
  revert s. induction ds as [|e ds IH]; intros s Hs Hd; simpl; [done|].
  apply IH; [|intros d Hin; apply Hd; by right]. apply Z.lcm_least; [done|]. apply Hd. by left.
Qed.

Lemma lcm_pos a b : 0 < a -> 0 < b -> 0 < Z.lcm a b.
Proof.
  intros Ha Hb. pose proof (Z.lcm_nonneg a b).
  assert (Z.lcm a b <> 0) by (intros E%Z.lcm_eq_0; lia). lia.
Qed.

Lemma lcm_from_pos s ds :
  0 < s -> (forall d, d ∈ ds -> 0 < ds_period_ns d) -> 0 < lcm_from s ds.
Proof.
  revert s. induction ds as [|e ds IH]; intros s Hs Hd; simpl; [done|].
  apply IH; [|intros d Hin; apply Hd; by right]. apply lcm_pos; [done|]. apply Hd. by left.
Qed.

Lemma domain_valid_pos d : domain_typed d -> domain_valid d = true ->
  0 < ds_period_ns d /\ 0 < ds_substep_count d <= rate_domain_substep_capacity.
Proof.
  unfold domain_valid, domain_typed, is_u64, is_u32.
  rewrite !andb_true_iff, !negb_true_iff, !Z.eqb_neq, Z.leb_le. lia.
Qed.

Definition domains_ok (earlier domains : list RateDomainSpec) : Prop :=
  Forall (fun d => domain_valid d = true) domains /\
  NoDup (ds_name <$> domains) /\
  forall e d, e ∈ earlier -> d ∈ domains -> ds_name e <> ds_name d.

Lemma domains_ok_cons earlier d ds :
  domains_ok earlier (d :: ds) <->
  domain_valid d = true /\ (forall e, e ∈ earlier -> ds_name e <> ds_name d) /\
  domains_ok (earlier ++ [d]) ds.
Proof.
  unfold domains_ok. rewrite Forall_cons, fmap_cons, NoDup_cons. split.
  - intros ((Hd & Hv) & (Hno & Hnd) & He). split_and!; try done.
    + intros e Hin. apply He; [done|by left].
    + intros e x Hin Hx. apply elem_of_app in Hin as [Hin| ->%list_elem_of_singleton].
      * apply He; [done|by right].
      * intros E. apply Hno. rewrite E. by apply list_elem_of_fmap_2.
  - intros (Hd & He & Hv & Hnd & Hx). split_and!; try done.
    + intros (x & E & Hin)%list_elem_of_fmap. apply (Hx d x); [|done|done].
      apply elem_of_app. right. by apply list_elem_of_singleton.
    + intros e x Hin [->|Hin']%elem_of_cons; [by apply He|].
      apply Hx; [|done]. apply elem_of_app. by left.
Qed.

Lemma compute_supercycle_inr ds : forall earlier s out,
  Forall domain_typed ds -> 0 < s <= u64_max ->
  compute_supercycle earlier ds s = inr out <->
  domains_ok earlier ds /\ lcm_from s ds <= u64_max /\ out = lcm_from s ds.
Proof.
  induction ds as [|d ds IH]; intros earlier s out Ht Hs; simpl.
  { unfold domains_ok. split; [intros [= <-]|intros (_ & _ & ->); done].
    split_and!; [|constructor|by intros ? ? ? ?%elem_of_nil|lia|done]. constructor. }
  apply Forall_cons in Ht as [Hd Ht]. rewrite domains_ok_cons, sum_bind_inr.
  setoid_rewrite require_inr. setoid_rewrite sum_bind_inr. setoid_rewrite require_inr.
  assert (Hname : negb (existsb (fun e => bool_decide (ds_name e = ds_name d)) earlier) = true <->
                  forall e, e ∈ earlier -> ds_name e <> ds_name d).
  { rewrite negb_true_iff, <- not_true_iff_false, existsb_exists. split.
    - intros H e He E. apply H. exists e. split; [by apply list_elem_of_In|by apply bool_decide_eq_true].
    - intros H (e & He%list_elem_of_In & E%bool_decide_eq_true). by apply (H e). }
  setoid_rewrite Hname. destruct (domain_valid d) eqn:Ev.
  2:{ split; [by intros (? & ? & _)|by intros ((? & _) & _)]. }
  destruct (domain_valid_pos d Hd Ev) as [Hp _].
  pose proof (lcm_pos s (ds_period_ns d) ltac:(lia) Hp) as Hl.
  pose proof (checked_lcm_Some s (ds_period_ns d) (Z.lcm s (ds_period_ns d))
    ltac:(unfold is_u64; lia) ltac:(apply Hd) ltac:(lia) Hp) as Hlcm.
  assert (Hgrow : domains_ok (earlier ++ [d]) ds -> Z.lcm s (ds_period_ns d) <= lcm_from (Z.lcm s (ds_period_ns d)) ds).
  { intros [Hv _]. apply Z.divide_pos_le; [|apply lcm_from_divide]. apply lcm_from_pos; [done|].
    intros x Hx. rewrite Forall_forall in Hv. rewrite Forall_forall in Ht.
    apply domain_valid_pos; auto. }
  destruct (checked_lcm s (ds_period_ns d)) as [o|] eqn:El.
  - pose proof (proj1 (checked_lcm_Some s (ds_period_ns d) o
      ltac:(unfold is_u64; lia) ltac:(apply Hd) ltac:(lia) Hp) El) as [Hle ->].
    specialize (IH (earlier ++ [d]) (Z.lcm s (ds_period_ns d)) out Ht ltac:(lia)).
    setoid_rewrite IH. naive_solver.
  - split; [by intros (? & _ & ? & _ & ?)|]. intros ((_ & _ & Hds) & Hmax & _).
    assert (None = Some (Z.lcm s (ds_period_ns d))); [|done]. apply Hlcm. split; [|done].
    specialize (Hgrow Hds). lia.
Qed.

(** ** Release count *)

(** Releases of one domain in a supercycle: sequences, bound phases, substeps. *)
Definition domain_total (supercycle : Z) (d : RateDomainSpec) (phases : Z) : Z :=
  supercycle / ds_period_ns d * phases * ds_substep_count d.

Lemma add_domain_releases_Some s p d rc c :
  domain_typed d -> domain_valid d = true -> 0 < s <= u64_max -> is_u64 p -> is_u64 rc ->
  add_domain_releases s p d rc = Some c <->
  rc + domain_total s d p <= u64_max /\ c = rc + domain_total s d p.
Proof.
  intros Ht Hv Hs Hp Hrc. destruct (domain_valid_pos d Ht Hv) as [Hper Hsub].
  unfold add_domain_releases, domain_total.
  assert (He : is_u64 (s / ds_period_ns d)).
  { split; [apply Z.div_pos; lia|]. transitivity s; [|lia]. apply Z.div_le_upper_bound; nia. }
  assert (Hsu : is_u64 (ds_substep_count d))
    by (unfold is_u64, rate_domain_substep_capacity, u64_max in *; lia).
  set (e := s / ds_period_ns d) in *. clearbody e.
  destruct (checked_multiply e p) as [m1|] eqn:E1.
  2:{ split; [done|]. intros [H _]. enough (checked_multiply e p = Some (e * p)) by congruence.
      apply checked_multiply_Some; [done..|]. unfold is_u64 in *. split; nia. }
  apply checked_multiply_Some in E1 as [H1 ->]; [|done..].
  assert (Hm1 : is_u64 (e * p)) by (unfold is_u64 in *; nia).
  destruct (checked_multiply (e * p) (ds_substep_count d)) as [m2|] eqn:E2.
  2:{ split; [done|]. intros [H _]. unfold is_u64 in *.
      enough (checked_multiply (e * p) (ds_substep_count d) = Some (e * p * ds_substep_count d))
        by congruence.
      apply checked_multiply_Some; [done..|]. lia. }
  apply checked_multiply_Some in E2 as [H2 ->]; [|done..].
  apply checked_add_Some; [done|]. unfold is_u64 in *. nia.
Qed.

Definition releases_total (s : Z) (ds : list RateDomainSpec) (ps : list Z) : Z :=
  foldr Z.add 0 (zip_with (domain_total s) ds ps).

Lemma domain_total_nonneg s d p :
  domain_typed d -> domain_valid d = true -> 0 < s -> 0 <= p -> 0 <= domain_total s d p.
Proof.
  intros Ht Hv Hs Hp. destruct (domain_valid_pos d Ht Hv) as [Hper Hsub]. unfold domain_total.
  assert (0 <= s / ds_period_ns d) by (apply Z.div_pos; lia).
  apply Z.mul_nonneg_nonneg; [nia|lia].
Qed.

Lemma releases_total_nonneg s ds ps :
  Forall domain_typed ds -> Forall (fun d => domain_valid d = true) ds -> 0 < s ->
  Forall (fun p => 0 <= p) ps -> 0 <= releases_total s ds ps.
Proof.
  intros Ht Hv Hs Hp. unfold releases_total. revert ps Hp.
  induction ds as [|d ds IH]; intros [|p ps] Hp; simpl; try lia.
  apply Forall_cons in Ht as [Hd Ht]. apply Forall_cons in Hv as [Hvd Hv].
  apply Forall_cons in Hp as [Hp Hps].
  pose proof (domain_total_nonneg s d p Hd Hvd Hs Hp). specialize (IH Ht Hv ps Hps). lia.
Qed.

Lemma count_releases_inr s ds : forall ps rc out,
  Forall domain_typed ds -> Forall (fun d => domain_valid d = true) ds -> 0 < s <= u64_max ->
  Forall is_u64 ps -> 0 <= rc <= reference_release_capacity ->
  count_releases s ds ps rc = inr out <->
  rc + releases_total s ds ps <= reference_release_capacity /\ out = rc + releases_total s ds ps.
Proof.
  unfold releases_total.
  induction ds as [|d ds IH]; intros [|p ps] rc out Ht Hv Hs Hp Hrc; simpl;
    rewrite ?Z.add_0_r; try naive_solver lia.
  apply Forall_cons in Ht as [Hd Ht]. apply Forall_cons in Hv as [Hvd Hv].
  apply Forall_cons in Hp as [Hp Hps].
  assert (Hr : 0 <= foldr Z.add 0 (zip_with (domain_total s) ds ps)).
  { apply releases_total_nonneg; [done|done|lia|].
    eapply Forall_impl; [done|]. unfold is_u64. simpl. lia. }
  pose proof (domain_total_nonneg s d p Hd Hvd ltac:(lia) ltac:(unfold is_u64 in Hp; lia)).
  assert (Hu : is_u64 rc) by (unfold is_u64, reference_release_capacity, u64_max in *; lia).
  destruct (add_domain_releases s p d rc) as [c|] eqn:E.
  - apply add_domain_releases_Some in E as [_ ->]; [|done..].
    destruct (Z.ltb_spec reference_release_capacity (rc + domain_total s d p)).
    + split; [done|lia].
    + rewrite IH by (done || lia). rewrite Z.add_assoc. done.
  - split; [done|]. intros [Hle _].
    enough (add_domain_releases s p d rc = Some (rc + domain_total s d p)) by congruence.
    apply add_domain_releases_Some; [done..|].
    unfold reference_release_capacity, u64_max in *. split; [lia|done].
Qed.

(** ** Compiled bindings *)

Lemma compile_bindings_inr owner n bs bp order : forall idx seen out,
  length seen = n ->
  compile_bindings owner n bs bp idx order seen = inr out <->
  Forall (fun h => phase_in_graph owner n h = true) order /\
  NoDup (phase_position <$> order) /\
  (forall h, h ∈ order -> seen !!! phase_position h = None) /\
  out = imap (fun i => compile_binding bs bp (idx + i)) order.
Proof.
  induction order as [|h order IH]; intros idx seen out Hlen; simpl.
  { split; [intros [= <-]|by intros (_ & _ & _ & ->)].
    split_and!; [constructor|constructor|by intros ? ?%elem_of_nil|done]. }
  rewrite sum_bind_inr. setoid_rewrite require_inr.
  setoid_rewrite sum_bind_inr. setoid_rewrite require_inr. setoid_rewrite sum_bind_inr.
  setoid_rewrite bool_decide_eq_true. rewrite Forall_cons, NoDup_cons.
  setoid_rewrite IH; [|by rewrite length_insert]. split.
  - intros (_ & Hh & _ & Hs & rest & (Hv & Hnd & Hseen & ->) & [= <-]).
    apply phase_in_graph_position in Hh as Hpos.
    assert (Hother : forall x, x ∈ order -> phase_position x <> phase_position h /\
                                       seen !!! phase_position x = None).
    { intros x Hx. specialize (Hseen x Hx).
      destruct (decide (phase_position x = phase_position h)) as [E|E].
      - rewrite E, list_lookup_total_insert_eq in Hseen by lia. done.
      - by rewrite list_lookup_total_insert_ne in Hseen. }
    split_and!; try done.
    + intros (x & E & Hx)%list_elem_of_fmap. by destruct (Hother x Hx).
    + intros x [->|Hx]%elem_of_cons; [done|]. by apply Hother.
    + simpl. rewrite Nat.add_0_r. f_equal. apply imap_ext. intros i x _. simpl. by rewrite Nat.add_succ_r.
  - intros ((Hh & Hv) & (Hno & Hnd) & Hseen & ->). exists tt. split; [done|]. exists tt.
    split; [apply Hseen; by left|]. eexists. split; [split_and!; [done|done| |done]|].
    + intros x Hx. rewrite list_lookup_total_insert_ne; [apply Hseen; by right|].
      intros E. apply Hno. rewrite E. by apply list_elem_of_fmap_2.
    + simpl. rewrite Nat.add_0_r. do 2 f_equal. apply imap_ext. intros i x _. simpl. by rewrite Nat.add_succ_r.
Qed.

(** ** Emitted releases *)

Definition release_of (i : nat) (d : RateDomainSpec) (k : nat) : CompiledRateBinding -> nat -> ReferenceRelease :=
  make_release i d k (Z.of_nat k * ds_period_ns d)
    (Z.of_nat k * ds_period_ns d + ds_relative_deadline_ns d).

Definition sequence_releases (cbs : list CompiledRateBinding) (i : nat) (d : RateDomainSpec)
    (k : nat) : list ReferenceRelease :=
  emit_sequence cbs i d k (Z.of_nat k * ds_period_ns d)
    (Z.of_nat k * ds_period_ns d + ds_relative_deadline_ns d).

Definition domain_releases (s : Z) (cbs : list CompiledRateBinding) (id : nat * RateDomainSpec)
    : list ReferenceRelease :=
  seq 0 (Z.to_nat (s / ds_period_ns id.2)) ≫= sequence_releases cbs id.1 id.2.

Definition timeline_releases (s : Z) (domains : list RateDomainSpec)
    (cbs : list CompiledRateBinding) : list ReferenceRelease :=
  imap pair domains ≫= domain_releases s cbs.

Lemma emit_release_inr cbs i d k out :
  domain_typed d -> Z.of_nat k <= u64_max ->
  emit_release cbs i d k = inr out <->
  Z.of_nat k * ds_period_ns d + ds_relative_deadline_ns d <= u64_max /\
  out = sequence_releases cbs i d k.
Proof.
  intros (Hp & _ & Hd) Hk. unfold emit_release, sequence_releases.
  assert (Hku : is_u64 (Z.of_nat k)) by (unfold is_u64; lia).
  destruct (checked_multiply (Z.of_nat k) (ds_period_ns d)) as [t|] eqn:E.
  - apply checked_multiply_Some in E as [Hm ->]; [|done..].
    assert (Ht : is_u64 (Z.of_nat k * ds_period_ns d)) by (unfold is_u64 in *; nia).
    destruct (checked_add _ _) as [t'|] eqn:E'.
    + apply checked_add_Some in E' as [? ->]; [|done..]. naive_solver.
    + split; [done|]. intros [H _].
      enough (checked_add (Z.of_nat k * ds_period_ns d) (ds_relative_deadline_ns d) =
        Some (Z.of_nat k * ds_period_ns d + ds_relative_deadline_ns d)) by congruence.
      by apply checked_add_Some.
  - split; [done|]. intros [H _].
    enough (checked_multiply (Z.of_nat k) (ds_period_ns d) = Some (Z.of_nat k * ds_period_ns d))
      by congruence.
    apply checked_multiply_Some; [done..|]. unfold is_u64 in *. split; [lia|done].
Qed.

Lemma emit_domain_inr s cbs i d out :
  domain_typed d -> domain_valid d = true -> 0 < s <= u64_max -> (ds_period_ns d | s) ->
  emit_domain s cbs (i, d) = inr out <->
  s - ds_period_ns d + ds_relative_deadline_ns d <= u64_max /\ out = domain_releases s cbs (i, d).
Proof.
  intros Ht Hv Hs [q Hq]. destruct (domain_valid_pos d Ht Hv) as [Hp _].
  unfold emit_domain, domain_releases. simpl.
  assert (Eq : s / ds_period_ns d = q) by (rewrite Hq; apply Z.div_mul; lia).
  rewrite Eq. assert (Hqr : 0 < q <= u64_max) by nia.
  assert (Hrel : forall k out, k ∈ seq 0 (Z.to_nat q) -> emit_release cbs i d k = inr out <->
    Z.of_nat k * ds_period_ns d + ds_relative_deadline_ns d <= u64_max /\
    out = sequence_releases cbs i d k).
  { intros k o Hk%elem_of_seq. apply emit_release_inr; [done|lia]. }
  rewrite (append_loop_inr _ (sequence_releases cbs i d)).
  2:{ intros k o Hk E. by apply Hrel in E as [_ ->]. }
  rewrite Forall_forall. split; intros [H ->]; (split; [|done]).
  - assert (Hk : (Z.to_nat q - 1)%nat ∈ seq 0 (Z.to_nat q)) by (apply elem_of_seq; lia).
    pose proof (H _ Hk) as E. apply Hrel in E as [E _]; [|done]. nia.
  - intros k Hk. apply Hrel; [done|]. split; [|done]. apply elem_of_seq in Hk.
    assert (Z.of_nat k * ds_period_ns d <= (q - 1) * ds_period_ns d) by nia. lia.
Qed.

Lemma elem_of_indexed {A} (l : list A) i x : (i, x) ∈ imap pair l <-> l !! i = Some x.
Proof.
  rewrite list_elem_of_lookup. setoid_rewrite list_lookup_imap_Some. naive_solver.
Qed.

Lemma emit_releases_inr s domains cbs out :
  Forall domain_typed domains -> Forall (fun d => domain_valid d = true) domains ->
  0 < s <= u64_max -> (forall d, d ∈ domains -> (ds_period_ns d | s)) ->
  emit_releases s domains cbs = inr out <->
  Forall (fun d => s - ds_period_ns d + ds_relative_deadline_ns d <= u64_max) domains /\
  out = timeline_releases s domains cbs.
Proof.
  intros Ht Hv Hs Hdiv. unfold emit_releases, timeline_releases.
  assert (Hd : forall id out, id ∈ imap pair domains -> emit_domain s cbs id = inr out <->
    s - ds_period_ns id.2 + ds_relative_deadline_ns id.2 <= u64_max /\ out = domain_releases s cbs id).
  { intros [i d] o Hid. apply elem_of_indexed, list_elem_of_lookup_2 in Hid.
    rewrite Forall_forall in Ht. rewrite Forall_forall in Hv. apply emit_domain_inr; auto. }
  rewrite (append_loop_inr _ (domain_releases s cbs)).
  2:{ intros id o Hid E. by apply Hd in E as [_ ->]. }
  rewrite !Forall_forall. split; intros [H ->]; (split; [|done]).
  - intros d [i Hi]%list_elem_of_lookup. apply elem_of_indexed in Hi.
    pose proof (H _ Hi) as E. by apply Hd in E as [? _].
  - intros [i d] Hid. apply Hd; [done|]. split; [|done]. apply H.
    by apply elem_of_indexed, list_elem_of_lookup_2 in Hid.
Qed.

(** *** Membership and order *)

Lemma elem_of_timeline s domains cbs r :
  r ∈ timeline_releases s domains cbs <->
  exists i d k b j, domains !! i = Some d /\
    (k < Z.to_nat (s / ds_period_ns d))%nat /\ b ∈ cbs /\ domain_position (cb_domain b) = i /\
    (j < Z.to_nat (ds_substep_count d))%nat /\ r = release_of i d k b j.
Proof.
  unfold timeline_releases, domain_releases, sequence_releases, emit_sequence, release_of.
  rewrite list_elem_of_bind. split.
  - intros ([i d] & Hr & Hid%elem_of_indexed). simpl in Hr.
    apply list_elem_of_bind in Hr as (k & Hr & Hk%elem_of_seq).
    apply list_elem_of_bind in Hr as (b & Hr & Hb).
    destruct (Nat.eqb_spec (domain_position (cb_domain b)) i) as [E|]; [|by apply elem_of_nil in Hr].
    apply list_elem_of_fmap in Hr as (j & -> & Hj%elem_of_seq).
    exists i, d, k, b, j. split_and!; [done|lia|done|done|lia|done].
  - intros (i & d & k & b & j & Hd & Hk & Hb & E & Hj & ->).
    exists (i, d). split; [|by apply elem_of_indexed]. apply list_elem_of_bind.
    exists k. split; [|apply elem_of_seq; simpl; lia]. apply list_elem_of_bind. exists b. split; [|done].
    simpl. rewrite (proj2 (Nat.eqb_eq _ _) E). simpl. apply list_elem_of_fmap. exists j.
    split; [done|]. apply elem_of_seq. lia.
Qed.

(** The order in which the nested loops emit. *)
Definition emitted_before (l r : ReferenceRelease) : Prop :=
  (rr_domain_registration_index l < rr_domain_registration_index r)%nat \/
  (rr_domain_registration_index l = rr_domain_registration_index r /\
   (rr_domain_release_sequence l < rr_domain_release_sequence r \/
    (rr_domain_release_sequence l = rr_domain_release_sequence r /\
     ((rr_compiled_phase_index l < rr_compiled_phase_index r)%nat \/
      (rr_compiled_phase_index l = rr_compiled_phase_index r /\
       rr_substep_ordinal l < rr_substep_ordinal r))))).

Definition indexed_bindings (cbs : list CompiledRateBinding) : Prop :=
  StronglySorted (fun a b => (cb_compiled_phase_index a < cb_compiled_phase_index b)%nat) cbs.

Lemma sequence_releases_elem cbs i d k r :
  r ∈ sequence_releases cbs i d k ->
  exists b j, b ∈ cbs /\ r = release_of i d k b j.
Proof.
  unfold sequence_releases, emit_sequence. intros (b & Hr & Hb)%list_elem_of_bind.
  destruct (Nat.eqb _ _); [|by apply elem_of_nil in Hr].
  apply list_elem_of_fmap in Hr as (j & -> & _). by exists b, j.
Qed.

Lemma sequence_releases_sorted cbs i d k :
  indexed_bindings cbs -> StronglySorted emitted_before (sequence_releases cbs i d k).
Proof.
  intros Hc. unfold sequence_releases, emit_sequence. eapply StronglySorted_bind; [apply Hc| |].
  - intros b _. destruct (Nat.eqb _ _); [|constructor].
    generalize (StronglySorted_seq 0 (Z.to_nat (ds_substep_count d))).
    induction 1 as [|j l Hl IH Hj]; csimpl; constructor; [done|].
    apply Forall_forall. intros r (j' & -> & Hj')%list_elem_of_fmap.
    rewrite Forall_forall in Hj. specialize (Hj _ Hj'). unfold emitted_before; simpl. lia.
  - intros b b' x y _ _ Hlt Hx Hy.
    destruct (Nat.eqb _ _) in Hx; [|by apply elem_of_nil in Hx].
    destruct (Nat.eqb _ _) in Hy; [|by apply elem_of_nil in Hy].
    apply list_elem_of_fmap in Hx as (j & -> & _). apply list_elem_of_fmap in Hy as (j' & -> & _).
    simpl in Hlt. unfold emitted_before; simpl. lia.
Qed.

Lemma indexed_sorted {A} (l : list A) m :
  StronglySorted (fun a b : nat * A => (a.1 < b.1)%nat) (imap (fun i => pair (m + i)%nat) l).
Proof.
  revert m. induction l as [|d l IH]; intros m; simpl; constructor.
  - erewrite imap_ext; [apply (IH (S m))|]. intros i x _. simpl. f_equal. lia.
  - apply Forall_forall. intros x [i Hx]%list_elem_of_lookup.
    apply list_lookup_imap_Some in Hx as (y & _ & ->). simpl. lia.
Qed.

Lemma timeline_releases_sorted s domains cbs :
  indexed_bindings cbs -> StronglySorted emitted_before (timeline_releases s domains cbs).
Proof.
  intros Hc. unfold timeline_releases.
  apply (StronglySorted_bind (fun a b : nat * RateDomainSpec => (a.1 < b.1)%nat)).
  - apply (indexed_sorted domains 0).
  - intros [i d] _. unfold domain_releases. eapply StronglySorted_bind; [apply StronglySorted_seq| |].
    + intros k _. by apply sequence_releases_sorted.
    + intros k k' a b _ _ Hlt Ha Hb. simpl in *.
      apply sequence_releases_elem in Ha as (? & ? & _ & ->).
      apply sequence_releases_elem in Hb as (? & ? & _ & ->). unfold emitted_before; simpl. lia.
  - intros [i d] [i' d'] a b _ _ Hlt Ha Hb. unfold domain_releases in Ha, Hb. simpl in *.
    apply list_elem_of_bind in Ha as (k & (? & ? & _ & ->)%sequence_releases_elem & _).
    apply list_elem_of_bind in Hb as (k' & (? & ? & _ & ->)%sequence_releases_elem & _).
    unfold emitted_before; simpl. lia.
Qed.

Definition release_lt (l r : ReferenceRelease) : Prop :=
  rr_release_time_ns l < rr_release_time_ns r \/
  (rr_release_time_ns l = rr_release_time_ns r /\
   ((rr_domain_registration_index l < rr_domain_registration_index r)%nat \/
    (rr_domain_registration_index l = rr_domain_registration_index r /\
     ((rr_compiled_phase_index l < rr_compiled_phase_index r)%nat \/
      (rr_compiled_phase_index l = rr_compiled_phase_index r /\
       rr_substep_ordinal l < rr_substep_ordinal r))))).

Lemma release_less_spec l r : release_less l r = true <-> release_lt l r.
Proof.
  unfold release_less, release_lt.
  destruct (Z.eqb_spec (rr_release_time_ns l) (rr_release_time_ns r)); simpl; [|rewrite Z.ltb_lt; lia].
  destruct (Nat.eqb_spec (rr_domain_registration_index l) (rr_domain_registration_index r)); simpl;
    [|rewrite Nat.ltb_lt; lia].
  destruct (Nat.eqb_spec (rr_compiled_phase_index l) (rr_compiled_phase_index r)); simpl;
    [|rewrite Nat.ltb_lt; lia].
  rewrite Z.ltb_lt; lia.
Qed.

Lemma release_less_false l r : release_less l r = false <-> ~ release_lt l r.
Proof. rewrite <- release_less_spec. by rewrite not_true_iff_false. Qed.

Lemma release_sorted rs : StronglySorted (not_greater release_less) (std_sort release_less rs).
Proof.
  apply std_sort_sorted.
  - intros x y. rewrite release_less_spec, release_less_false. unfold release_lt. lia.
  - intros x y z. unfold not_greater. rewrite !release_less_false. unfold release_lt. lia.
Qed.

Lemma indexed_bindings_eq cbs a b :
  indexed_bindings cbs -> a ∈ cbs -> b ∈ cbs ->
  cb_compiled_phase_index a = cb_compiled_phase_index b -> a = b.
Proof.
  induction 1 as [|c l Hl IH Hc]; [by intros ?%elem_of_nil|].
  rewrite Forall_forall in Hc.
  intros [->|Ha]%elem_of_cons [->|Hb]%elem_of_cons E; [done| | |by apply IH].
  - specialize (Hc _ Hb). simpl in Hc. lia.
  - specialize (Hc _ Ha). simpl in Hc. lia.
Qed.

(** Releases of one timeline are told apart by their sort key, so the sorted
    plan does not depend on how a sort treats ties. *)
Lemma timeline_key s domains cbs x y :
  Forall domain_typed domains -> Forall (fun d => domain_valid d = true) domains ->
  indexed_bindings cbs ->
  x ∈ timeline_releases s domains cbs -> y ∈ timeline_releases s domains cbs ->
  ~ release_lt x y -> ~ release_lt y x -> x = y.
Proof.
  intros Ht Hv Hc (i & d & k & b & j & Hd & _ & Hb & _ & _ & ->)%elem_of_timeline
    (i' & d' & k' & b' & j' & Hd' & _ & Hb' & _ & _ & ->)%elem_of_timeline H1 H2.
  unfold release_lt in H1, H2. simpl in H1, H2.
  assert (i = i') as <- by lia. rewrite Hd in Hd'. injection Hd' as <-.
  assert (b = b') as <- by (eapply indexed_bindings_eq; try done; lia).
  assert (0 < ds_period_ns d).
  { apply list_elem_of_lookup_2 in Hd. rewrite Forall_forall in Ht. rewrite Forall_forall in Hv.
    apply domain_valid_pos; auto. }
  assert (k = k') as <- by nia. by assert (j = j') as <- by lia.
Qed.

Lemma timeline_sorted_strict s domains cbs :
  Forall domain_typed domains -> Forall (fun d => domain_valid d = true) domains ->
  indexed_bindings cbs ->
  StronglySorted release_lt (std_sort release_less (timeline_releases s domains cbs)).
Proof.
  intros Ht Hv Hc.
  assert (Hperm := std_sort_perm release_less (timeline_releases s domains cbs)).
  assert (Hnd : NoDup (timeline_releases s domains cbs)).
  { eapply StronglySorted_NoDup; [|by apply timeline_releases_sorted].
    intros x. unfold emitted_before. lia. }
  eapply (StronglySorted_mono (fun x y => release_less x y = true));
    [intros x y; apply release_less_spec|].
  apply StronglySorted_strict; [apply release_sorted|by rewrite Hperm|].
  intros x y Hx Hy. rewrite !release_less_false. rewrite Hperm in Hx, Hy.
  by apply (timeline_key s domains cbs).
Qed.

(** ** The accepted rate models *)

Record timeline_valid (owner : Z) (n : nat) (order : list PhaseHandle)
    (domains : list RateDomainSpec) (bindings : list RateBindingSpec) : Prop := {
  tv_domains : (length domains <= rate_domain_capacity)%nat;
  tv_phases : n <> 0%nat /\ length order = n /\ length bindings = n;
  tv_bindings : Forall (fun b => binding_valid owner n (length domains) b = true) bindings;
  tv_once : NoDup (binding_phase <$> bindings);
  tv_used : forall i, (i < length domains)%nat -> exists b, b ∈ bindings /\ binding_domain b = i;
  tv_specs : Forall (fun d => domain_valid d = true) domains;
  tv_names : NoDup (ds_name <$> domains);
  tv_supercycle : lcm_from 1 domains <= u64_max;
  tv_releases :
    foldr Z.add 0 (imap (fun i d => domain_total (lcm_from 1 domains) d (domain_phases bindings i))
                     domains) <= reference_release_capacity;
  tv_order : Forall (fun h => phase_in_graph owner n h = true) order;
  tv_permutation : NoDup (phase_position <$> order);
  tv_deadlines :
    Forall (fun d => lcm_from 1 domains - ds_period_ns d + ds_relative_deadline_ns d <= u64_max)
      domains
}.

(** A compiled binding: the phase at its position of the order, with the
    domain and kind it was bound to. *)
Definition binding_compiled (order : list PhaseHandle) (bindings : list RateBindingSpec)
    (k : nat) (c : CompiledRateBinding) : Prop :=
  exists h b, order !! k = Some h /\ b ∈ bindings /\ binding_phase b = phase_position h /\
    c = mkCompiledBinding h (bs_domain b) (bs_phase_kind b) k.

Section Plan.
Context (owner : Z) (n : nat) (order : list PhaseHandle) (domains : list RateDomainSpec)
        (bindings : list RateBindingSpec).
Context (Hn : Z.of_nat n <= u64_max) (Htyped : Forall domain_typed domains).

Abbreviation s := (lcm_from 1 domains).
Abbreviation m := (length domains).

Lemma phases_of_inv st : own_inv owner n m bindings st ->
  phases_per_domain st = imap (fun i _ => domain_phases bindings i) domains.
Proof.
  intros Hi. apply list_eq. intros i. destruct (decide (i < m)%nat) as [H|H].
  - rewrite (oi_count _ _ _ _ _ Hi i H), list_lookup_imap.
    by destruct (lookup_lt_is_Some_2 domains i H) as [d ->].
  - rewrite !lookup_ge_None_2; [done| |].
    + rewrite length_imap. lia.
    + rewrite (oi_len_d _ _ _ _ _ Hi). lia.
Qed.

Lemma releases_total_imap {A} (g : nat -> Z) (f : A -> Z -> Z) (l : list A) (h : nat -> nat) :
  zip_with f l (imap (fun i _ => g (h i)) l) = imap (fun i d => f d (g (h i))) l.
Proof.
  revert h. induction l as [|d l IH]; intros h; simpl; [done|]. f_equal. apply (IH (h ∘ S)).
Qed.

Lemma releases_total_phases :
  releases_total s domains (imap (fun i _ => domain_phases bindings i) domains) =
  foldr Z.add 0 (imap (fun i d => domain_total s d (domain_phases bindings i)) domains).
Proof. unfold releases_total. f_equal. apply (releases_total_imap _ _ _ id). Qed.

Definition plan_bindings (st : OwnershipState) : list CompiledRateBinding :=
  imap (compile_binding bindings (binding_by_phase st)) order.

Definition plan_of (st : OwnershipState) : CompiledRatePlan :=
  mkPlan s (imap (compile_domain owner s (from_option ds_period_ns 0 (head domains))) domains)
    (plan_bindings st) (std_sort release_less (timeline_releases s domains (plan_bindings st))).

Lemma phase_counts_u64 :
  (length bindings <= n)%nat ->
  Forall is_u64 (imap (fun i (_ : RateDomainSpec) => domain_phases bindings i) domains).
Proof.
  intros Hl. apply Forall_forall. intros x [i Hx]%list_elem_of_lookup.
  apply list_lookup_imap_Some in Hx as (d & _ & ->). unfold domain_phases, is_u64.
  pose proof (length_filter (fun b => binding_domain b = i) bindings). lia.
Qed.

Lemma one_u64 : 0 < 1 <= u64_max.
Proof. unfold u64_max. lia. Qed.

Lemma supercycle_pos : Forall (fun d => domain_valid d = true) domains -> 0 < s.
Proof.
  intros Hv. apply lcm_from_pos; [lia|]. intros d Hd.
  rewrite Forall_forall in Hv. pose proof (proj1 (Forall_forall _ _) Htyped) as Ht.
  apply domain_valid_pos; auto.
Qed.

Lemma bind_phases_start :
  match bind_phases owner n m 0 bindings
          {| binding_by_phase := replicate n None; phases_per_domain := replicate m 0 |} with
  | inr st => own_inv owner n m bindings st
  | inl _ => ~ (Forall (fun b => binding_valid owner n m b = true) bindings /\
                NoDup (binding_phase <$> bindings))
  end.
Proof. apply (bind_phases_spec owner n m Hn bindings [] _ (own_inv_init owner n m)). Qed.

Lemma compile_plan_sound plan :
  compile_plan owner n order domains bindings = inr plan ->
  timeline_valid owner n order domains bindings /\
  exists st, own_inv owner n m bindings st /\ plan = plan_of st.
Proof.
  unfold compile_plan. pose proof bind_phases_start as Hbind.
  intros (? & Hcap%require_inr%Nat.leb_le & H)%sum_bind_inr.
  apply sum_bind_inr in H as (? & Hcnt%require_inr & H).
  rewrite !andb_true_iff, negb_true_iff, Nat.eqb_neq, !Nat.eqb_eq in Hcnt.
  destruct Hcnt as [[Hn0 Ho] Hb].
  apply sum_bind_inr in H as (st & Est & H). rewrite Est in Hbind.
  apply sum_bind_inr in H as (u & Hown & H).
  pose proof (proj1 (check_ownership_inr owner n m bindings st u Hbind Hb) Hown) as Hused.
  apply sum_bind_inr in H as (sc & Hsc & H).
  apply compute_supercycle_inr in Hsc as ((Hv & Hnames & _) & Hmax & ->); [|done|apply one_u64].
  pose proof (supercycle_pos Hv) as Hpos.
  apply sum_bind_inr in H as (total & Htot & H).
  rewrite (phases_of_inv st Hbind) in Htot.
  apply count_releases_inr in Htot as [Htot _];
    [|done|done|lia|apply phase_counts_u64; lia|unfold reference_release_capacity; lia].
  rewrite Z.add_0_l, releases_total_phases in Htot.
  apply sum_bind_inr in H as (cbs & Hcbs & H).
  apply compile_bindings_inr in Hcbs as (Hvo & Hndo & _ & ->); [|apply length_replicate].
  apply sum_bind_inr in H as (rs & Hrs & H). injection H as <-.
  apply emit_releases_inr in Hrs as [Hdl ->];
    [|done|done|lia|intros d; apply lcm_from_period].
  split; [constructor; try done; apply Hbind|]. by exists st.
Qed.

Lemma compile_plan_complete :
  timeline_valid owner n order domains bindings ->
  exists plan, compile_plan owner n order domains bindings = inr plan.
Proof.
  intros [Hcap (Hn0 & Ho & Hb) Hbv Hbn Hu Hv Hnames Hmax Htot Hvo Hndo Hdl].
  pose proof bind_phases_start as Hbind. pose proof (supercycle_pos Hv) as Hpos.
  unfold compile_plan.
  destruct (bind_phases owner n m 0 bindings _) as [d|st]; [by destruct Hbind|].
  exists (plan_of st).
  apply sum_bind_inr. exists tt. split; [by apply require_inr, Nat.leb_le|].
  apply sum_bind_inr. exists tt. split.
  { apply require_inr. rewrite !andb_true_iff, negb_true_iff, Nat.eqb_neq, !Nat.eqb_eq. done. }
  apply sum_bind_inr. exists st. split; [done|].
  apply sum_bind_inr. exists tt.
  split; [by apply (check_ownership_inr owner n m bindings st tt Hbind Hb)|].
  apply sum_bind_inr. exists s. split.
  { apply compute_supercycle_inr; [done|apply one_u64|]. unfold domains_ok; split_and!; try done.
    by intros e d ?%elem_of_nil. }
  apply sum_bind_inr. eexists. split.
  { rewrite (phases_of_inv st Hbind). apply count_releases_inr;
      [done|done|lia|apply phase_counts_u64; lia|unfold reference_release_capacity; lia|].
    split; [|reflexivity]. by rewrite Z.add_0_l, releases_total_phases. }
  apply sum_bind_inr. exists (plan_bindings st). split.
  { apply compile_bindings_inr; [apply length_replicate|]. split_and!; try done.
    intros h Hh. rewrite Forall_forall in Hvo. apply lookup_total_replicate_2.
    by eapply phase_in_graph_position, Hvo. }
  apply sum_bind_inr. exists (timeline_releases s domains (plan_bindings st)).
  split; [|done]. apply emit_releases_inr; [done|done|lia|intros d; apply lcm_from_period|done].
Qed.

(** *** The bindings of the plan *)

Lemma plan_bindings_lookup st k c :
  timeline_valid owner n order domains bindings -> own_inv owner n m bindings st ->
  plan_bindings st !! k = Some c <-> binding_compiled order bindings k c.
Proof.
  intros Hval Hi. unfold plan_bindings, binding_compiled. rewrite list_lookup_imap_Some.
  destruct (tv_phases _ _ _ _ _ Hval) as (_ & Ho & Hb).
  assert (Hbp : forall h b, h ∈ order -> b ∈ bindings -> binding_phase b = phase_position h ->
    compile_binding bindings (binding_by_phase st) k h =
    mkCompiledBinding h (bs_domain b) (bs_phase_kind b) k).
  { intros h b Hh [j Hj]%list_elem_of_lookup E. unfold compile_binding.
    assert (Hl : binding_by_phase st !! phase_position h = Some (Some j)).
    { apply (oi_bound _ _ _ _ _ Hi). by exists b. }
    by rewrite (list_lookup_total_correct _ _ _ Hl); simpl; rewrite Hj. }
  split.
  - intros (h & Hh & ->). apply list_elem_of_lookup_2 in Hh as Hin.
    pose proof (proj1 (Forall_forall _ _) (tv_order _ _ _ _ _ Hval) h Hin) as Hg.
    apply phase_in_graph_position in Hg.
    destruct (own_inv_all owner n m bindings st _ Hi Hb Hg) as (j & b & _ & Hj & E).
    apply list_elem_of_lookup_2 in Hj. exists h, b. split_and!; [done..|]. by apply Hbp.
  - intros (h & b & Hh & Hbin & E & ->). exists h. split; [done|]. symmetry.
    apply Hbp; [by apply list_elem_of_lookup_2 in Hh|done|done].
Qed.

Lemma plan_bindings_indexed st : indexed_bindings (plan_bindings st).
Proof.
  unfold plan_bindings, indexed_bindings.
  clear. enough (forall i0, StronglySorted (fun a b => (cb_compiled_phase_index a < cb_compiled_phase_index b)%nat)
    (imap (fun i => compile_binding bindings (binding_by_phase st) (i0 + i)) order)) as H by apply (H 0%nat).
  induction order as [|h l IH]; intros i0; simpl; constructor.
  - erewrite imap_ext; [apply (IH (S i0))|]. intros i x _. simpl. f_equal. lia.
  - apply Forall_forall. intros c [i Hc]%list_elem_of_lookup.
    apply list_lookup_imap_Some in Hc as (y & _ & ->). simpl. lia.
Qed.

(** *** The number of releases *)

Lemma length_sequence_releases cbs i d k :
  length (sequence_releases cbs i d k) =
  (length (filter (fun b => domain_position (cb_domain b) = i) cbs) *
   Z.to_nat (ds_substep_count d))%nat.
Proof.
  unfold sequence_releases, emit_sequence. induction cbs as [|b l IH]; [done|].
  csimpl. rewrite length_app, IH, filter_cons.
  destruct (Nat.eqb_spec (domain_position (cb_domain b)) i); case_decide; try done;
    rewrite ?length_fmap, ?length_seq; simpl; lia.
Qed.

(** Each domain keeps its number of phases when the bindings are put in
    compiled order. *)
Lemma plan_bindings_domains st :
  timeline_valid owner n order domains bindings -> own_inv owner n m bindings st ->
  (fun c => domain_position (cb_domain c)) <$> plan_bindings st ≡ₚ binding_domain <$> bindings.
Proof.
  intros Hval Hi. destruct (tv_phases _ _ _ _ _ Hval) as (_ & Ho & Hb).
  set (bnd := fun p => from_option binding_domain 0%nat
                         (bindings !! default 0%nat (binding_by_phase st !!! p))).
  assert (E1 : (fun c => domain_position (cb_domain c)) <$> plan_bindings st =
               bnd <$> (phase_position <$> order)).
  { apply list_eq. intros k. rewrite !list_lookup_fmap.
    destruct (plan_bindings st !! k) as [c|] eqn:Ec; simpl.
    - apply (plan_bindings_lookup st k c Hval Hi) in Ec as (h & b & -> & [j Hj]%list_elem_of_lookup & E & ->).
      simpl. unfold bnd. rewrite (list_lookup_total_correct _ _ (Some j)).
      { simpl. by rewrite Hj. }
      apply (oi_bound _ _ _ _ _ Hi). by exists b.
    - apply lookup_ge_None in Ec. unfold plan_bindings in Ec. rewrite length_imap in Ec.
      by rewrite lookup_ge_None_2. }
  assert (E2 : binding_domain <$> bindings = bnd <$> (binding_phase <$> bindings)).
  { apply list_eq. intros j. rewrite !list_lookup_fmap.
    destruct (bindings !! j) as [b|] eqn:Ej; simpl; [|done]. unfold bnd.
    rewrite (list_lookup_total_correct _ _ (Some j)); [simpl; by rewrite Ej|].
    apply (oi_bound _ _ _ _ _ Hi). by exists b. }
  rewrite E1, E2. apply Permutation_map. etrans; [|symmetry]; apply NoDup_below_perm.
  - apply Hval.
  - by rewrite length_fmap.
  - intros p (h & -> & Hh)%list_elem_of_fmap.
    eapply phase_in_graph_position, (proj1 (Forall_forall _ _) (tv_order _ _ _ _ _ Hval) h Hh).
  - apply Hval.
  - by rewrite length_fmap.
  - intros p (b & -> & Hbin)%list_elem_of_fmap. by eapply binding_phase_lt.
Qed.

Lemma plan_releases_length st :
  timeline_valid owner n order domains bindings -> own_inv owner n m bindings st ->
  Z.of_nat (length (pl_releases (plan_of st))) =
  foldr Z.add 0 (imap (fun i d => domain_total s d (domain_phases bindings i)) domains).
Proof.
  intros Hval Hi. simpl. rewrite std_sort_perm. unfold timeline_releases.
  pose proof (supercycle_pos (tv_specs _ _ _ _ _ Hval)) as Hpos.
  assert (Hlen : forall i d, d ∈ domains -> Z.of_nat (length (domain_releases s (plan_bindings st) (i, d))) =
                   domain_total s d (domain_phases bindings i)).
  { intros i d Hd. unfold domain_releases, domain_total, domain_phases. simpl.
    rewrite length_bind, (sum_list_with_const _ _ _ (fun k _ => length_sequence_releases _ i d k)).
    rewrite (length_filter_fmap (fun c => domain_position (cb_domain c))).
    rewrite (plan_bindings_domains st Hval Hi), <- length_filter_fmap, length_seq.
    destruct (domain_valid_pos d) as [Hp Hs].
    { by apply (proj1 (Forall_forall _ _) Htyped). }
    { by apply (proj1 (Forall_forall _ _) (tv_specs _ _ _ _ _ Hval)). }
    assert (0 <= s / ds_period_ns d) by (apply Z.div_pos; lia). rewrite !Nat2Z.inj_mul, !Z2Nat.id by lia. lia. }
  revert Hlen. generalize (plan_bindings st) s. clear. intros cbs s.
  enough (forall f, (forall i d, d ∈ domains -> Z.of_nat (length (domain_releases s cbs (f i, d))) =
    domain_total s d (domain_phases bindings (f i))) ->
    Z.of_nat (length (imap (fun i => pair (f i)) domains ≫= domain_releases s cbs)) =
    foldr Z.add 0 (imap (fun i d => domain_total s d (domain_phases bindings (f i))) domains))
    as H by exact (H id).
  induction domains as [|d l IH]; intros f Hf; [done|]. csimpl.
  rewrite length_app, Nat2Z.inj_add, Hf by (by left). f_equal.
  apply (IH (f ∘ S)). intros i e He. apply Hf. by right.
Qed.
End Plan.

(** ** Claims *)

Definition timeline_status owner n order domains bindings out : Status :=
  rdg_status (fst (compile_rate_timeline owner n order domains bindings out)).
Definition timeline_plan owner n order domains bindings out : CompiledRatePlan :=
  snd (compile_rate_timeline owner n order domains bindings out).

Definition not_ok (d : RateCompileDiagnostic) : Prop := rdg_status d <> ok.

Lemma bind_phases_error owner n m bs : forall i st,
  fails_with not_ok (bind_phases owner n m i bs st).
Proof. induction bs as [|b bs IH]; intros i st; [done|]. simpl. unfold bind_phase. error_cases. Qed.

Lemma compute_supercycle_error ds : forall earlier s,
  fails_with not_ok (compute_supercycle earlier ds s).
Proof. induction ds as [|d ds IH]; intros earlier s; error_cases. Qed.

Lemma count_releases_error s ds : forall ps rc, fails_with not_ok (count_releases s ds ps rc).
Proof. induction ds as [|d ds IH]; intros [|p ps] rc; error_cases. Qed.

Lemma compile_bindings_error owner n bs bp order : forall i seen,
  fails_with not_ok (compile_bindings owner n bs bp i order seen).
Proof. induction order as [|h order IH]; intros i seen; error_cases. Qed.

Lemma emit_releases_error s domains cbs : fails_with not_ok (emit_releases s domains cbs).
Proof.
  apply fails_with_append_loop. intros id. apply fails_with_append_loop. intros k.
  unfold emit_release. error_cases.
Qed.

#[export] Hint Resolve bind_phases_error compute_supercycle_error count_releases_error
  compile_bindings_error emit_releases_error : errors.

Lemma compile_plan_error owner n order domains bindings :
  fails_with not_ok (compile_plan owner n order domains bindings).
Proof. unfold compile_plan, check_ownership. error_cases. Qed.

Lemma timeline_ok owner n order domains bindings out :
  domains <> [] ->
  (timeline_status owner n order domains bindings out = ok /\
   compile_plan owner n order domains bindings =
     inr (timeline_plan owner n order domains bindings out)) \/
  (timeline_status owner n order domains bindings out <> ok /\
   (exists d, compile_plan owner n order domains bindings = inl d) /\
   timeline_plan owner n order domains bindings out = out).
Proof.
  intros Hne. unfold timeline_status, timeline_plan, compile_rate_timeline.
  destruct domains as [|d0 ds]; [done|].
  pose proof (compile_plan_error owner n order (d0 :: ds) bindings) as He.
  destruct (compile_plan owner n order (d0 :: ds) bindings) as [d|plan]; simpl; [|by left].
  right. split_and!; [done|by exists d|done].
Qed.

(** C10. A rate model with at least one domain is accepted exactly when it is
    valid: counts within capacity, one valid binding per phase, no domain
    without a phase, valid and uniquely named domains, a permutation of the
    phases as order, and a supercycle, a release count and deadlines that are
    representable.  A refused model leaves the caller's plan untouched. *)
Theorem rate_timeline_accepts owner n order domains bindings out :
  Z.of_nat n <= u64_max -> Forall domain_typed domains -> domains <> [] ->
  (timeline_status owner n order domains bindings out = ok <->
   timeline_valid owner n order domains bindings) /\
  (timeline_status owner n order domains bindings out <> ok ->
   timeline_plan owner n order domains bindings out = out).
Proof.
  intros Hn Ht Hne.
  destruct (timeline_ok owner n order domains bindings out Hne) as [[Hs Hp]|(Hs & [d Hp] & ->)].
  - split; [|done]. split; [intros _|done].
    by eapply compile_plan_sound in Hp as [? _].
  - split; [|done]. split; [done|]. intros Hv.
    destruct (compile_plan_complete owner n order domains bindings Hn Ht Hv). congruence.
Qed.

(** C3. The releases of an accepted plan are exactly one release for each
    domain, each sequence number below supercycle / period, each phase bound
    to the domain (at its position of the compiled order) and each substep,
    released at sequence * period with that time plus the relative deadline as
    deadline; they are listed in strictly increasing order of time, domain,
    compiled phase index and substep, and all lie in [0, supercycle). *)
Theorem rate_timeline_releases owner n order domains bindings out :
  Z.of_nat n <= u64_max -> Forall domain_typed domains -> domains <> [] ->
  timeline_status owner n order domains bindings out = ok ->
  let plan := timeline_plan owner n order domains bindings out in
  StronglySorted release_lt (pl_releases plan) /\
  (forall r, r ∈ pl_releases plan -> 0 <= rr_release_time_ns r < supercycle_ns plan) /\
  (forall k c, pl_bindings plan !! k = Some c <-> binding_compiled order bindings k c) /\
  (forall r, r ∈ pl_releases plan <->
     exists i d k b j, domains !! i = Some d /\
       (k < Z.to_nat (supercycle_ns plan / ds_period_ns d))%nat /\
       b ∈ pl_bindings plan /\ domain_position (cb_domain b) = i /\
       (j < Z.to_nat (ds_substep_count d))%nat /\ r = release_of i d k b j).
Proof.
  intros Hn Ht Hne Hok plan.
  destruct (timeline_ok owner n order domains bindings out Hne) as [[_ Hp]|(Hs & _)]; [|done].
  fold plan in Hp. apply (compile_plan_sound owner n order domains bindings Hn Ht) in Hp
    as (Hv & st & Hi & Hplan). clearbody plan. subst plan. simpl.
  assert (Hel : forall r, r ∈ std_sort release_less
    (timeline_releases (lcm_from 1 domains) domains (plan_bindings order bindings st)) <->
    r ∈ timeline_releases (lcm_from 1 domains) domains (plan_bindings order bindings st))
    by (intros r; by rewrite (std_sort_perm release_less)).
  split_and!.
  - apply timeline_sorted_strict; [done|apply Hv|apply plan_bindings_indexed].
  - intros r (i & d & k & b & j & Hd%list_elem_of_lookup_2 & Hk & _ & _ & _ & ->)%Hel%elem_of_timeline. simpl.
    destruct (domain_valid_pos d) as [Hper _];
      [by apply (proj1 (Forall_forall _ _) Ht)|
       by apply (proj1 (Forall_forall _ _) (tv_specs _ _ _ _ _ Hv))|].
    destruct (lcm_from_period 1 domains d Hd) as [q Hq].
    rewrite Hq, Z.div_mul in Hk by lia. rewrite Hq. nia.
  - intros k c. by apply (plan_bindings_lookup owner n order domains bindings).
  - intros r. rewrite Hel. apply elem_of_timeline.
Qed.

(** The supercycle of an accepted plan is the least common multiple of the
    domain periods; each domain is listed with its exact number of releases
    per supercycle and its period ratio to the first domain in lowest terms,
    and the plan holds exactly the counted number of releases, which is within
    the capacity. *)
Theorem rate_timeline_supercycle owner n order domains bindings out :
  Z.of_nat n <= u64_max -> Forall domain_typed domains -> domains <> [] ->
  timeline_status owner n order domains bindings out = ok ->
  let plan := timeline_plan owner n order domains bindings out in
  let s := supercycle_ns plan in
  0 < s <= u64_max /\
  (forall d, d ∈ domains -> (ds_period_ns d | s)) /\
  (forall x, (forall d, d ∈ domains -> (ds_period_ns d | x)) -> (s | x)) /\
  (forall i c, pl_domains plan !! i = Some c -> exists d d0,
     domains !! i = Some d /\ head domains = Some d0 /\
     cd_period_ns c = ds_period_ns d /\
     cd_releases_per_supercycle c * ds_period_ns d = s /\
     cd_period_ratio_numerator c * ds_period_ns d0 =
       cd_period_ratio_denominator c * ds_period_ns d /\
     Z.gcd (cd_period_ratio_numerator c) (cd_period_ratio_denominator c) = 1) /\
  Z.of_nat (length (pl_releases plan)) =
    foldr Z.add 0 (imap (fun i d => domain_total s d (domain_phases bindings i)) domains) /\
  Z.of_nat (length (pl_releases plan)) <= reference_release_capacity.
Proof.
  intros Hn Ht Hne Hok plan s. subst s.
  destruct (timeline_ok owner n order domains bindings out Hne) as [[_ Hp]|(Hs & _)]; [|done].
  fold plan in Hp. apply (compile_plan_sound owner n order domains bindings Hn Ht) in Hp
    as (Hv & st & Hi & Hplan). clearbody plan. subst plan.
  pose proof (plan_releases_length owner n order domains bindings Ht st Hv Hi) as Hlen.
  assert (Hpos : forall d, d ∈ domains -> 0 < ds_period_ns d).
  { intros d Hd. apply domain_valid_pos; [by apply (proj1 (Forall_forall _ _) Ht)|].
    by apply (proj1 (Forall_forall _ _) (tv_specs _ _ _ _ _ Hv)). }
  cbn [supercycle_ns pl_domains plan_of]. split_and!.
  - by apply lcm_from_pos.
  - apply Hv.
  - intros d. apply lcm_from_period.
  - intros x Hx. apply lcm_from_least; [apply Z.divide_1_l|done].
  - intros i c (d & Hd & ->)%list_lookup_imap_Some. destruct domains as [|d0 ds]; [done|].
    exists d, d0. apply list_elem_of_lookup_2 in Hd as Hin. pose proof (Hpos d Hin) as Hp1.
    pose proof (Hpos d0 ltac:(by left)) as Hp0. split_and!; try done.
    + cbn [compile_domain cd_releases_per_supercycle]. destruct (lcm_from_period 1 (d0 :: ds) d Hin) as [q ->].
      rewrite Z.div_mul by lia. done.
    + apply ratio_exact; simpl; lia.
    + apply ratio_reduced; simpl; lia.
  - done.
  - rewrite Hlen. apply Hv.
Qed.

(** ** Witnesses: two domains of periods 2 and 3 over three phases. *)

Definition sample_domains : list RateDomainSpec :=
  [mkDomainSpec [115; 105; 109] 2 1 2 1 crit_critical false late_fail 0;
   mkDomainSpec [99; 116; 108] 3 2 3 1 crit_normal true late_skip 0].
Definition sample_bind (p d : Z) : RateBindingSpec :=
  mkBindingSpec (PhaseHandle_make 7 p) (RateDomainHandle_make 7 d) kind_cpu.
Definition sample_bindings : list RateBindingSpec :=
  [sample_bind 2 1; sample_bind 0 0; sample_bind 1 1].
Definition sample_order : list PhaseHandle := PhaseHandle_make 7 <$> [0; 2; 1].

Lemma sample_domains_typed : Forall domain_typed sample_domains.
Proof. repeat constructor; vm_compute; intros H; discriminate H. Qed.

Lemma rate_timeline_accepts_witness :
  timeline_valid 7 3 sample_order sample_domains sample_bindings.
Proof.
  apply (rate_timeline_accepts 7 3 sample_order sample_domains sample_bindings empty_plan).
  - vm_compute. discriminate.
  - apply sample_domains_typed.
  - discriminate.
  - vm_compute. reflexivity.
Defined.

Lemma rate_timeline_releases_witness :
  StronglySorted release_lt
    (pl_releases (timeline_plan 7 3 sample_order sample_domains sample_bindings empty_plan)) /\
  length (pl_releases (timeline_plan 7 3 sample_order sample_domains sample_bindings empty_plan))
    = 11%nat.
Proof.
  split; [|vm_compute; reflexivity].
  apply (rate_timeline_releases 7 3 sample_order sample_domains sample_bindings empty_plan).
  - vm_compute. discriminate.
  - apply sample_domains_typed.
  - discriminate.
  - vm_compute. reflexivity.
Defined.

Lemma rate_timeline_supercycle_witness :
  0 < supercycle_ns (timeline_plan 7 3 sample_order sample_domains sample_bindings empty_plan).
Proof.
  apply (rate_timeline_supercycle 7 3 sample_order sample_domains sample_bindings empty_plan).
  - vm_compute. discriminate.
  - apply sample_domains_typed.
  - discriminate.
  - vm_compute. reflexivity.
Defined.
