(* ===== verification/CanonicalBytes.v ===== *)
(** * Canonical little-endian bytes (src/rt/include/rt/canonical_bytes.hpp)

    A [std::span] of bytes is a list of integers in [0, 256); a position of it
    is a [nat].  [store_u32_le]/[store_u64_le] return the flag of the C++
    function and the buffer after the call; [load_u32_le]/[load_u64_le] return
    [None] where the C++ function returns false. *)

From stdpp Require Import base list numbers sets.
From Stdlib Require Import ZArith Lia Bool.
From S2P Require Import Prelude.

Local Open Scope Z_scope.

(** ** Operations *)

(** [offset > size || size - offset < width], negated. *)
Definition field_fits (bytes : list Z) (offset width : nat) : bool :=
  (offset <=? length bytes)%nat && (width <=? length bytes - offset)%nat.

(** The bytes [(value >> (index * 8)) & 0xff] of the store loop. *)
Definition le_split (width : nat) (value : Z) : list Z :=
  (fun i => Z.land (Z.shiftr value (8 * Z.of_nat i)) 255) <$> seq 0 width.

Definition store_le (width : nat) (output : list Z) (offset : nat) (value : Z) : bool * list Z :=
  if field_fits output offset width
  then (true, list_inserts offset (le_split width value) output)
  else (false, output).

Definition store_u32_le (output : list Z) (offset : nat) (value : Z) : bool * list Z :=
  store_le 4 output offset value.
Definition store_u64_le (output : list Z) (offset : nat) (value : Z) : bool * list Z :=
  store_le 8 output offset value.

(** The loop [value |= byte << (index * 8)]. *)
Definition load_le (width : nat) (input : list Z) (offset : nat) : option Z :=
  if field_fits input offset width
  then Some (foldl (fun value i => Z.lor value (Z.shiftl (input !!! (offset + i)%nat) (8 * Z.of_nat i)))
               0 (seq 0 width))
  else None.

Definition load_u32_le (input : list Z) (offset : nat) : option Z := load_le 4 input offset.
Definition load_u64_le (input : list Z) (offset : nat) : option Z := load_le 8 input offset.

(** [span.subspan(offset, count)] *)
Definition subspan (bytes : list Z) (offset count : nat) : list Z := take count (drop offset bytes).

Definition bytes_ok (bytes : list Z) : Prop := Forall is_u8 bytes.

(** ** Regions of a buffer *)

Lemma length_subspan bs off n : (off + n <= length bs)%nat -> length (subspan bs off n) = n.
Proof. intros H. unfold subspan. rewrite length_take, length_drop. lia. Qed.

Lemma lookup_subspan bs off n i : (i < n)%nat -> subspan bs off n !! i = bs !! (off + i)%nat.
Proof. intros H. unfold subspan. by rewrite lookup_take_lt, lookup_drop. Qed.

Lemma subspan_all bs : subspan bs 0 (length bs) = bs.
Proof. unfold subspan. by rewrite drop_0, take_ge. Qed.

Lemma subspan_ext bs bs' off n :
  (forall i, (off <= i < off + n)%nat -> bs !! i = bs' !! i) -> subspan bs off n = subspan bs' off n.
Proof.
  intros H. apply list_eq. intros i. destruct (decide (i < n)%nat).
  - rewrite !lookup_subspan by done. apply H. lia.
  - unfold subspan. rewrite !lookup_take_ge by lia. done.
Qed.

Lemma subspan_write_other bs o d off n :
  (off + n <= o)%nat \/ (o + length d <= off)%nat ->
  subspan (list_inserts o d bs) off n = subspan bs off n.
Proof.
  intros H. apply subspan_ext. intros i Hi.
  destruct (decide (i < o)%nat); [by rewrite list_lookup_inserts_lt|].
  rewrite list_lookup_inserts_ge by lia. done.
Qed.

Lemma subspan_write_same bs o d :
  (o + length d <= length bs)%nat -> subspan (list_inserts o d bs) o (length d) = d.
Proof.
  intros H. apply list_eq. intros i. destruct (decide (i < length d)%nat) as [Hi|Hi].
  - rewrite lookup_subspan, list_lookup_inserts by lia. f_equal. lia.
  - rewrite !lookup_ge_None_2; [done|lia|]. rewrite length_subspan; [lia|].
    rewrite length_inserts. lia.
Qed.

Lemma subspan_write_at bs o d n :
  (o + n <= length bs)%nat -> length d = n -> subspan (list_inserts o d bs) o n = d.
Proof. intros H <-. by apply subspan_write_same. Qed.

Lemma subspan_app_l bs bs' off n :
  (off + n <= length bs)%nat -> subspan (bs ++ bs') off n = subspan bs off n.
Proof. intros H. apply subspan_ext. intros i Hi. apply lookup_app_l. lia. Qed.

Lemma subspan_subspan bs o n off k :
  (off + k <= n)%nat -> subspan (subspan bs o n) off k = subspan bs (o + off) k.
Proof.
  intros H. apply list_eq. intros i. destruct (decide (i < k)%nat).
  - rewrite !lookup_subspan by lia. f_equal. lia.
  - unfold subspan. rewrite !lookup_take_ge by lia. done.
Qed.

Lemma subspan_split bs off n k :
  subspan bs off (n + k) = subspan bs off n ++ subspan bs (off + n) k.
Proof. unfold subspan. by rewrite <- take_take_drop, drop_drop. Qed.

(** ** Split and combine *)

Fixpoint le_combine (bytes : list Z) : Z :=
  match bytes with [] => 0 | b :: bs => b + 256 * le_combine bs end.

Lemma le_split_S w v : le_split (S w) v = v mod 256 :: le_split w (v / 256).
Proof.
  unfold le_split. rewrite <- cons_seq, fmap_cons, <- fmap_S_seq, <- list_fmap_compose. f_equal.
  - rewrite Z.mul_0_r, Z.shiftr_0_r. apply (Z.land_ones v 8). lia.
  - apply list_fmap_ext. intros _ i _. unfold compose.
    rewrite !Z.shiftr_div_pow2 by lia.
    replace (8 * Z.of_nat (S i)) with (8 + 8 * Z.of_nat i) by lia.
    rewrite Z.pow_add_r, <- Z.div_div by lia. done.
Qed.

Lemma length_le_split w v : length (le_split w v) = w.
Proof. unfold le_split. by rewrite length_fmap, length_seq. Qed.

Lemma le_split_bytes w v : bytes_ok (le_split w v).
Proof.
  revert v. induction w as [|w IH]; intros v; [constructor|]. rewrite le_split_S.
  constructor; [|apply IH]. unfold is_u8. apply Z.mod_pos_bound. lia.
Qed.

Lemma le_combine_split w v : 0 <= v < 256 ^ Z.of_nat w -> le_combine (le_split w v) = v.
Proof.
  revert v. induction w as [|w IH]; intros v Hv.
  { simpl in *. lia. }
  rewrite le_split_S. simpl. rewrite IH.
  - pose proof (Z.div_mod v 256). lia.
  - rewrite Nat2Z.inj_succ, Z.pow_succ_r in Hv by lia.
    split; [apply Z.div_pos; lia|apply Z.div_lt_upper_bound; lia].
Qed.

Lemma le_combine_bound bs :
  bytes_ok bs -> 0 <= le_combine bs < 256 ^ Z.of_nat (length bs).
Proof.
  induction 1 as [|b bs Hb Hbs IH]; cbn [le_combine length]; [simpl; lia|]. unfold is_u8 in Hb.
  rewrite Nat2Z.inj_succ, Z.pow_succ_r by lia. lia.
Qed.

(** The load loop adds the bytes up: its accumulator never meets set bits. *)
Lemma load_loop bs : forall acc k,
  bytes_ok bs -> 0 <= acc < 2 ^ (8 * Z.of_nat k) ->
  foldl (fun value '(i, b) => Z.lor value (Z.shiftl b (8 * Z.of_nat i))) acc
    (imap (fun i b => ((k + i)%nat, b)) bs) =
  acc + 2 ^ (8 * Z.of_nat k) * le_combine bs.
Proof.
  induction bs as [|b bs IH]; intros acc k Hbs Hacc; simpl; [lia|].
  apply Forall_cons in Hbs as [Hb Hbs]. unfold is_u8 in Hb.
  rewrite Nat.add_0_r, Z.lor_comm, lor_shiftl_add by lia.
  assert (E : 2 ^ (8 * Z.of_nat (S k)) = 256 * 2 ^ (8 * Z.of_nat k)).
  { replace (8 * Z.of_nat (S k)) with (8 + 8 * Z.of_nat k) by lia.
    rewrite Z.pow_add_r by lia. done. }
  erewrite imap_ext; [rewrite (IH _ (S k)); [rewrite E; lia|done|rewrite E; nia]|].
  intros i x _. simpl. f_equal. lia.
Qed.

Lemma load_le_spec w bs off : bytes_ok bs ->
  load_le w bs off =
  if field_fits bs off w then Some (le_combine (subspan bs off w)) else None.
Proof.
  intros Hbs. unfold load_le, field_fits. destruct (_ && _) eqn:E; [|done]. f_equal.
  rewrite andb_true_iff, !Nat.leb_le in E.
  assert (Hlen := length_subspan bs off w ltac:(lia)).
  assert (Hsub : bytes_ok (subspan bs off w)) by (by apply Forall_take, Forall_drop).
  pose proof (load_loop (subspan bs off w) 0 0 Hsub ltac:(simpl; lia)) as H.
  simpl in H. rewrite Z.mul_1_l, Z.add_0_l in H. rewrite <- H.
  assert (Hl : imap (fun i b => (i, b)) (subspan bs off w) =
               (fun i => (i, bs !!! (off + i)%nat)) <$> seq 0 w).
  { apply list_eq. intros i. rewrite list_lookup_imap, list_lookup_fmap.
    destruct (decide (i < w)%nat) as [Hi|Hi].
    - rewrite lookup_subspan, lookup_seq_lt by done. simpl.
      destruct (lookup_lt_is_Some_2 bs (off + i)%nat) as [x Hx]; [lia|].
      by rewrite Hx, (list_lookup_total_correct _ _ _ Hx).
    - rewrite lookup_seq_ge, lookup_ge_None_2 by lia. done. }
  rewrite Hl. clear. generalize 0. induction (seq 0 w) as [|i l IH]; intros acc; simpl; [done|].
  apply IH.
Qed.

(** ** Stores and loads of one buffer *)

Lemma bytes_ok_write bs o d : bytes_ok bs -> bytes_ok d -> bytes_ok (list_inserts o d bs).
Proof.
  intros Hbs Hd. revert o. induction Hd as [|x d Hx Hd IH]; intros o; simpl; [done|].
  apply Forall_insert; [apply IH|done].
Qed.

Lemma bytes_ok_replicate n : bytes_ok (replicate n 0).
Proof. apply Forall_replicate. unfold is_u8. lia. Qed.

Lemma field_fits_spec bs off w : field_fits bs off w = true <-> (off + w <= length bs)%nat.
Proof. unfold field_fits. rewrite andb_true_iff, !Nat.leb_le. lia. Qed.

Lemma load_le_fits w bs off :
  bytes_ok bs -> (off + w <= length bs)%nat ->
  load_le w bs off = Some (le_combine (subspan bs off w)).
Proof. intros Hb Hf. by rewrite load_le_spec, (proj2 (field_fits_spec _ _ _) Hf). Qed.

Lemma store_le_fits w bs off v :
  (off + w <= length bs)%nat -> store_le w bs off v = (true, list_inserts off (le_split w v) bs).
Proof. intros Hf. unfold store_le. by rewrite (proj2 (field_fits_spec _ _ _) Hf). Qed.

Lemma load_u64_range bs off v : bytes_ok bs -> load_u64_le bs off = Some v -> is_u64 v.
Proof.
  intros Hb. unfold load_u64_le. rewrite load_le_spec by done.
  destruct (field_fits bs off 8) eqn:E; [|done]. intros [= <-]. apply field_fits_spec in E.
  pose proof (le_combine_bound (subspan bs off 8) ltac:(by apply Forall_take, Forall_drop)) as H.
  rewrite length_subspan in H by lia. change (256 ^ Z.of_nat 8) with (u64_max + 1) in H.
  unfold is_u64. lia.
Qed.

(** A 32- or 64-bit value stored where it fits is loaded back unchanged, the
    loads of disjoint fields do not see the store, and a store or load that
    does not fit fails and leaves the buffer as it was. *)
Theorem canonical_store_load w bs off v :
  w = 4%nat \/ w = 8%nat -> bytes_ok bs -> 0 <= v < 256 ^ Z.of_nat w ->
  let '(stored, bs') := store_le w bs off v in
  length bs' = length bs /\ bytes_ok bs' /\
  (stored = true <-> (off + w <= length bs)%nat) /\
  (stored = true -> load_le w bs' off = Some v) /\
  (stored = false -> bs' = bs /\ load_le w bs' off = None) /\
  (forall w' off', (off' + w' <= off)%nat \/ (off + w <= off')%nat ->
     load_le w' bs' off' = load_le w' bs off').
Proof.
  intros _ Hb Hv. unfold store_le. destruct (field_fits bs off w) eqn:E.
  - assert (Hb' : bytes_ok (list_inserts off (le_split w v) bs))
      by (apply bytes_ok_write; [done|apply le_split_bytes]).
    apply field_fits_spec in E. split_and!; try done; rewrite ?length_inserts; try done.
    + intros _. rewrite load_le_fits; [|done|by rewrite length_inserts].
      rewrite subspan_write_at, le_combine_split; [done|done|done|apply length_le_split].
    + intros w' off' Hd. rewrite !load_le_spec by done. unfold field_fits. rewrite length_inserts.
      rewrite subspan_write_other by (by rewrite length_le_split). done.
  - split_and!; try done.
    + rewrite <- field_fits_spec. by rewrite E.
    + intros _. split; [done|]. by rewrite load_le_spec, E.
Qed.

Lemma canonical_store_load_witness :
  load_le 4 (store_le 4 (replicate 6 0) 1 305419896).2 1 = Some 305419896.
Proof.
  assert (Hv : 0 <= 305419896 < 256 ^ Z.of_nat 4) by (vm_compute; split; [discriminate|reflexivity]).
  destruct (canonical_store_load 4 (replicate 6 0) 1 305419896 (or_introl eq_refl)
    (bytes_ok_replicate 6) Hv) as (_ & _ & _ & H & _).
  apply H. reflexivity.
Defined.
