(* ===== verification/SnapshotCodec.v ===== *)
(** * The artifact codec (src/rt/src/snapshot_codec.cpp)

    Checkpoints and input logs as self-describing byte artifacts: a fixed
    header, one record header and payload per state or input, payload
    checksums, and a checksum over the whole artifact.

    Sizes and limits are [Z] values (64-bit), positions of a buffer are [nat].
    An output parameter that the code resets before it returns an error is
    returned with the status.  The state provider is a C function pointer that
    [encode_checkpoint_artifact] calls once per state in each of its two
    passes; it is a function of the pass and the index. *)

From stdpp Require Import base list numbers sets.
From Stdlib Require Import ZArith Lia Bool.
From S2P Require Import Prelude CanonicalBytes.

Local Open Scope Z_scope.
Local Open Scope rtfw_scope.

(** ** Constants *)

Definition kCheckpointMagic : list Z := [82; 84; 70; 87; 67; 80; 49; 0].
Definition kInputLogMagic : list Z := [82; 84; 70; 87; 73; 76; 49; 0].
Definition kCheckpointChecksumOffset : nat := 112.
Definition kInputLogChecksumOffset : nat := 80.
Definition kFnvOffset : Z := 14695981039346656037.
Definition kFnvPrime : Z := 1099511628211.
Definition replay_identifier_capacity : nat := 64.
Definition checkpoint_schema_version : Z := 1.
Definition input_log_schema_version : Z := 1.
Definition checkpoint_header_size : nat := 256.
Definition checkpoint_record_header_size : nat := 88.
Definition input_log_header_size : nat := 192.
Definition input_log_record_header_size : nat := 48.
Definition artifact_absolute_max_bytes : Z := Z.shiftl 1 30.
Definition artifact_absolute_max_records : Z := Z.shiftl 1 20.
Definition nanoseconds_max : Z := 9223372036854775807.
(** src/rt/include/rt/version.hpp, from src/VERSION.txt *)
Definition version_major : Z := 1.
Definition version_minor : Z := 2.
Definition version_patch : Z := 1.

(** ** Data *)

Record CheckpointMetadata : Set := mkCheckpointMetadata {
  cm_schema_version : Z;
  cm_runtime_version_major : Z;
  cm_runtime_version_minor : Z;
  cm_runtime_version_patch : Z;
  cm_determinism_tier : Z;
  cm_config_id : Z;
  cm_replay_id : Z;
  cm_graph_id : Z;
  cm_state_schema_id : Z;
  cm_checkpoint_frame_index : Z;
  cm_state_payload_bytes : Z;
  cm_total_bytes : Z;
  cm_state_hash : Z;
  cm_artifact_checksum : Z;
  cm_state_count : Z;
  cm_build_id : list Z;
  cm_workload_id : list Z
}.

Definition empty_identifier : list Z := replicate replay_identifier_capacity 0.

Definition CheckpointMetadata_default : CheckpointMetadata :=
  mkCheckpointMetadata checkpoint_schema_version version_major version_minor version_patch
    0 0 0 0 0 0 0 0 0 0 0 empty_identifier empty_identifier.

Record InputLogMetadata : Set := mkInputLogMetadata {
  im_schema_version : Z;
  im_runtime_version_major : Z;
  im_runtime_version_minor : Z;
  im_runtime_version_patch : Z;
  im_determinism_tier : Z;
  im_replay_id : Z;
  im_state_schema_id : Z;
  im_payload_bytes : Z;
  im_total_bytes : Z;
  im_artifact_checksum : Z;
  im_first_frame_index : Z;
  im_last_frame_index : Z;
  im_record_count : Z;
  im_workload_id : list Z
}.

Definition InputLogMetadata_default : InputLogMetadata :=
  mkInputLogMetadata input_log_schema_version version_major version_minor version_patch
    0 0 0 0 0 0 0 0 0 empty_identifier.

Record HostFrameContext : Set := mkFrame {
  frame_index : Z;
  delta : Z;
  deadline_ns : option Z;
  nominal_release_ns : option Z
}.

(** [StateWriteView] and [CheckpointRecordView] *)
Record StateView : Set := mkStateView {
  sv_name : list Z;
  sv_schema_version : Z;
  sv_payload : list Z
}.

(** [ReplayInputRecord] and [InputLogRecordView] *)
Record InputRecord : Set := mkInputRecord {
  ir_frame : HostFrameContext;
  ir_input_type : Z;
  ir_payload : list Z
}.

Record ArtifactWriteResult : Set := mkWriteResult {
  required_bytes : Z;
  bytes_written : Z;
  wr_checksum : Z
}.

Definition write_result_default : ArtifactWriteResult := mkWriteResult 0 0 0.

(** ** Identifiers *)

Definition identifier_character (c : Z) : bool :=
  ((97 <=? c) && (c <=? 122)) || ((65 <=? c) && (c <=? 90)) ||
  ((48 <=? c) && (c <=? 57)) ||
  (c =? 46) || (c =? 95) || (c =? 58) || (c =? 47) || (c =? 64) || (c =? 45).

Definition valid_identifier (value : list Z) : bool :=
  negb (Nat.eqb (length value) 0) && (length value <? replay_identifier_capacity)%nat &&
  forallb identifier_character value.

(** The loop that runs to the first NUL: the number of characters before it (or
    the length without one), [None] at a character that is not allowed. *)
Fixpoint scan_name (field : list Z) : option nat :=
  match field with
  | [] => Some 0%nat
  | c :: rest =>
      if c =? 0 then Some 0%nat
      else if identifier_character c then option_map S (scan_name rest)
      else None
  end.

(** The length of a well-formed fixed field at [offset]: some allowed
    characters, a NUL, and zeros up to the capacity. *)
Definition fixed_length (bytes : list Z) (offset : nat) : option nat :=
  if field_fits bytes offset replay_identifier_capacity then
    let field := subspan bytes offset replay_identifier_capacity in
    match scan_name field with
    | None => None
    | Some n =>
        if Nat.eqb n 0 || Nat.eqb n replay_identifier_capacity then None
        else if forallb (Z.eqb 0) (drop (S n) field) then Some n else None
    end
  else None.

Definition fixed_identifier (bytes : list Z) (offset : nat) : option (list Z) :=
  match fixed_length bytes offset with
  | Some _ => Some (subspan bytes offset replay_identifier_capacity)
  | None => None
  end.

Definition fixed_name (bytes : list Z) (offset : nat) : option (list Z) :=
  match fixed_length bytes offset with
  | Some n => Some (subspan bytes offset n)
  | None => None
  end.

(** The two overloads of [write_identifier]: a view (zero padded) and an array. *)
Definition write_identifier_view (output : list Z) (offset : nat) (value : list Z) : list Z :=
  list_inserts offset value
    (list_inserts offset (replicate replay_identifier_capacity 0) output).

Definition write_identifier_array (output : list Z) (offset : nat) (value : list Z) : list Z :=
  list_inserts offset value output.

Fixpoint identifier_view (value : list Z) : list Z :=
  match value with
  | [] => []
  | c :: rest => if c =? 0 then [] else c :: identifier_view rest
  end.

(** ** Checksums *)

Definition fnv_step (hash value : Z) : Z := u64 (Z.lxor hash value * kFnvPrime).

Definition artifact_checksum (bytes : list Z) : Z := foldl fnv_step kFnvOffset bytes.

Definition checksum_excluding (bytes : list Z) (excluded_offset excluded_size : nat) : Z :=
  foldl fnv_step kFnvOffset
    (imap (fun i b => if (excluded_offset <=? i)%nat && (i <? excluded_offset + excluded_size)%nat
                      then 0 else b) bytes).

Definition magic_matches (bytes magic : list Z) : bool :=
  (length magic <=? length bytes)%nat && bool_decide (take (length magic) bytes = magic).

Definition bytes_zero (bytes : list Z) (offset count : nat) : bool :=
  field_fits bytes offset count && forallb (Z.eqb 0) (subspan bytes offset count).

Definition valid_tier (tier : Z) : bool := tier <=? 3.

Definition checked_artifact_add (left right : Z) : option Z :=
  if u64_max - left <? right then None else Some (u64 (left + right)).

Definition checked_artifact_multiply (left right : Z) : option Z :=
  if negb (left =? 0) && (u64_max / left <? right) then None else Some (u64 (left * right)).

Definition size (bytes : list Z) : Z := Z.of_nat (length bytes).

(** ** Checkpoints: encoding *)

Definition put32 (offset : nat) (value : Z) (output : list Z) : list Z :=
  snd (store_u32_le output offset value).
Definition put64 (offset : nat) (value : Z) (output : list Z) : list Z :=
  snd (store_u64_le output offset value).

Definition StateProvider : Set := nat -> nat -> option StateView.

(** The first pass: every state is valid and the payload sizes add up. *)
Fixpoint sum_states (provider : nat -> option StateView) (count index : nat) (payload_bytes : Z)
    : option Z :=
  match count with
  | O => Some payload_bytes
  | S count' =>
      match provider index with
      | None => None
      | Some state =>
          if negb (valid_identifier (sv_name state)) || (sv_schema_version state =? 0) ||
             Nat.eqb (length (sv_payload state)) 0
          then None
          else
            match checked_artifact_add payload_bytes (size (sv_payload state)) with
            | None => None
            | Some total => sum_states provider count' (S index) total
            end
      end
  end.

(** Header, record headers and payloads, each addition checked. *)
Definition artifact_required (count record_header header : nat) (payload_bytes : Z) : option Z :=
  match checked_artifact_multiply (Z.of_nat count) (Z.of_nat record_header) with
  | None => None
  | Some record_bytes =>
      match checked_artifact_add (Z.of_nat header) record_bytes with
      | None => None
      | Some required => checked_artifact_add required payload_bytes
      end
  end.

Definition write_checkpoint_header (metadata : CheckpointMetadata) (state_count : nat)
    (payload_bytes required : Z) (artifact : list Z) : list Z :=
  let a := list_inserts 0 kCheckpointMagic artifact in
  let a := put32 8 checkpoint_schema_version a in
  let a := put32 12 (Z.of_nat checkpoint_header_size) a in
  let a := put32 16 (cm_runtime_version_major metadata) a in
  let a := put32 20 (cm_runtime_version_minor metadata) a in
  let a := put32 24 (cm_runtime_version_patch metadata) a in
  let a := put32 28 (cm_determinism_tier metadata) a in
  let a := put32 36 (Z.of_nat state_count) a in
  let a := put32 40 (Z.of_nat checkpoint_record_header_size) a in
  let a := put64 48 (cm_config_id metadata) a in
  let a := put64 56 (cm_replay_id metadata) a in
  let a := put64 64 (cm_graph_id metadata) a in
  let a := put64 72 (cm_state_schema_id metadata) a in
  let a := put64 80 (cm_checkpoint_frame_index metadata) a in
  let a := put64 88 payload_bytes a in
  let a := put64 96 required a in
  let a := write_identifier_array a 120 (cm_build_id metadata) in
  write_identifier_array a 184 (cm_workload_id metadata).

Definition write_state (state : StateView) (offset : nat) (artifact : list Z) : list Z :=
  let a := write_identifier_view artifact offset (sv_name state) in
  let a := put32 (offset + 64) (sv_schema_version state) a in
  let a := put64 (offset + 72) (size (sv_payload state)) a in
  let a := put64 (offset + 80) (artifact_checksum (sv_payload state)) a in
  list_inserts (offset + checkpoint_record_header_size) (sv_payload state) a.

(** The second pass; [inl] is the return with [internal_error] when the
    provider refuses a state it gave before. *)
Fixpoint write_states (provider : nat -> option StateView) (count index offset : nat)
    (artifact : list Z) : list Z + list Z :=
  match count with
  | O => inr artifact
  | S count' =>
      match provider index with
      | None => inl artifact
      | Some state =>
          write_states provider count' (S index)
            (offset + checkpoint_record_header_size + length (sv_payload state))
            (write_state state offset artifact)
      end
  end.

(** The state hash, then the artifact checksum with its own field excluded. *)
Definition seal_checkpoint (artifact : list Z) : list Z * Z :=
  let a := put64 104 (artifact_checksum (drop checkpoint_header_size artifact)) artifact in
  let checksum := checksum_excluding a kCheckpointChecksumOffset 8 in
  (put64 kCheckpointChecksumOffset checksum a, checksum).

(** The returned status, [result], and [output] after the call. *)
Definition encode_checkpoint_artifact (metadata : CheckpointMetadata) (state_count : nat)
    (provider : option StateProvider) (max_bytes : Z) (output : list Z)
    : Status * ArtifactWriteResult * list Z :=
  match provider with
  | None => (invalid_argument, write_result_default, output)
  | Some provider =>
      if (artifact_absolute_max_records <? Z.of_nat state_count) ||
         (u32_max <? Z.of_nat state_count) ||
         (artifact_absolute_max_bytes <? max_bytes) ||
         (max_bytes <? Z.of_nat checkpoint_header_size) ||
         negb (valid_tier (cm_determinism_tier metadata)) ||
         negb (valid_identifier (identifier_view (cm_build_id metadata))) ||
         negb (valid_identifier (identifier_view (cm_workload_id metadata)))
      then (invalid_argument, write_result_default, output)
      else
        match sum_states (provider 0%nat) state_count 0 0 with
        | None => (invalid_argument, write_result_default, output)
        | Some payload_bytes =>
            match artifact_required state_count checkpoint_record_header_size
                    checkpoint_header_size payload_bytes with
            | None => (capacity_exceeded, write_result_default, output)
            | Some required =>
                if (max_bytes <? required) || (size output <? required)
                then (capacity_exceeded, mkWriteResult required 0 0, output)
                else
                  let n := Z.to_nat required in
                  let zeroed := replicate n 0 in
                  let headed := write_checkpoint_header metadata state_count payload_bytes
                                  required zeroed in
                  match write_states (provider 1%nat) state_count 0 checkpoint_header_size headed with
                  | inl partial =>
                      (internal_error, mkWriteResult required 0 0, partial ++ drop n output)
                  | inr written =>
                      let '(artifact, checksum) := seal_checkpoint written in
                      (ok, mkWriteResult required required checksum, artifact ++ drop n output)
                  end
            end
        end
  end.

(** ** Checkpoints: parsing *)

(** One record at [offset]: the position after it and the payload total. *)
Definition parse_state (artifact : list Z) (offset : nat) (payload_total : Z)
    : option (nat * Z) :=
  if negb (field_fits artifact offset checkpoint_record_header_size) then None
  else
    _ ← fixed_name artifact offset;
    state_schema ← load_u32_le artifact (offset + 64);
    state_reserved ← load_u32_le artifact (offset + 68);
    payload_size ← load_u64_le artifact (offset + 72);
    payload_checksum ← load_u64_le artifact (offset + 80);
    if (state_schema =? 0) || negb (state_reserved =? 0) || (payload_size =? 0) ||
       (u64_max <? payload_size)
    then None
    else
      let offset := (offset + checkpoint_record_header_size)%nat in
      if size artifact - Z.of_nat offset <? payload_size then None
      else
        total ← checked_artifact_add payload_total payload_size;
        let payload := subspan artifact offset (Z.to_nat payload_size) in
        if negb (artifact_checksum payload =? payload_checksum) then None
        else Some ((offset + Z.to_nat payload_size)%nat, total).

Fixpoint parse_states (artifact : list Z) (count offset : nat) (payload_total : Z)
    : option (nat * Z) :=
  match count with
  | O => Some (offset, payload_total)
  | S count' =>
      match parse_state artifact offset payload_total with
      | None => None
      | Some (offset', total) => parse_states artifact count' offset' total
      end
  end.

(** The header fields and the tests on them. *)
Definition parse_checkpoint_header (artifact : list Z) (max_bytes max_states : Z)
    : option CheckpointMetadata :=
  schema ← load_u32_le artifact 8;
  header_size ← load_u32_le artifact 12;
  major ← load_u32_le artifact 16;
  minor ← load_u32_le artifact 20;
  patch ← load_u32_le artifact 24;
  tier ← load_u32_le artifact 28;
  flags ← load_u32_le artifact 32;
  state_count ← load_u32_le artifact 36;
  record_size ← load_u32_le artifact 40;
  reserved ← load_u32_le artifact 44;
  config_id ← load_u64_le artifact 48;
  replay_id ← load_u64_le artifact 56;
  graph_id ← load_u64_le artifact 64;
  state_schema_id ← load_u64_le artifact 72;
  checkpoint_frame_index ← load_u64_le artifact 80;
  state_payload_bytes ← load_u64_le artifact 88;
  total_bytes ← load_u64_le artifact 96;
  state_hash ← load_u64_le artifact 104;
  checksum ← load_u64_le artifact kCheckpointChecksumOffset;
  build_id ← fixed_identifier artifact 120;
  workload_id ← fixed_identifier artifact 184;
  if negb (schema =? checkpoint_schema_version) ||
     negb (header_size =? Z.of_nat checkpoint_header_size) ||
     negb (record_size =? Z.of_nat checkpoint_record_header_size) ||
     negb (flags =? 0) || negb (reserved =? 0) ||
     negb (bytes_zero artifact 248 8) || negb (valid_tier tier) ||
     (max_states <? state_count) || negb (total_bytes =? size artifact) ||
     (max_bytes <? state_payload_bytes)
  then None
  else Some (mkCheckpointMetadata schema major minor patch tier config_id replay_id graph_id
               state_schema_id checkpoint_frame_index state_payload_bytes total_bytes
               state_hash checksum state_count build_id workload_id).

Definition parse_checkpoint_body (artifact : list Z) (metadata : CheckpointMetadata) : bool :=
  (checksum_excluding artifact kCheckpointChecksumOffset 8 =? cm_artifact_checksum metadata) &&
  match parse_states artifact (Z.to_nat (cm_state_count metadata)) checkpoint_header_size 0 with
  | None => false
  | Some (offset, payload_total) =>
      Nat.eqb offset (length artifact) &&
      (payload_total =? cm_state_payload_bytes metadata) &&
      (artifact_checksum (drop checkpoint_header_size artifact) =? cm_state_hash metadata)
  end.

Definition parse_checkpoint_artifact (artifact : list Z) (max_bytes max_states : Z)
    : Status * CheckpointMetadata :=
  if (artifact_absolute_max_bytes <? max_bytes) ||
     (artifact_absolute_max_records <? max_states) ||
     (length artifact <? checkpoint_header_size)%nat ||
     (max_bytes <? size artifact) || negb (magic_matches artifact kCheckpointMagic)
  then (invalid_artifact, CheckpointMetadata_default)
  else
    match parse_checkpoint_header artifact max_bytes max_states with
    | None => (invalid_artifact, CheckpointMetadata_default)
    | Some metadata =>
        if parse_checkpoint_body artifact metadata then (ok, metadata)
        else (invalid_artifact, CheckpointMetadata_default)
    end.

Record RecordCursor : Set := mkCursor { cur_offset : nat; cur_index : Z }.

Definition CheckpointRecordCursor_default : RecordCursor := mkCursor checkpoint_header_size 0.
Definition empty_state : StateView := mkStateView [] 0 [].

(** The returned flag, the cursor and the record after the call. *)
Definition next_checkpoint_record (artifact : list Z) (metadata : CheckpointMetadata)
    (cursor : RecordCursor) : bool * RecordCursor * StateView :=
  let offset := cur_offset cursor in
  if (cm_state_count metadata <=? cur_index cursor) ||
     negb (field_fits artifact offset checkpoint_record_header_size)
  then (false, cursor, empty_state)
  else
    match fixed_name artifact offset with
    | None => (false, cursor, empty_state)
    | Some name =>
        match load_u32_le artifact (offset + 64), load_u32_le artifact (offset + 68),
              load_u64_le artifact (offset + 72), load_u64_le artifact (offset + 80) with
        | Some schema, Some reserved, Some payload_size, Some payload_checksum =>
            if negb (reserved =? 0) || (u64_max <? payload_size)
            then (false, cursor, mkStateView name schema [])
            else
              let offset := (offset + checkpoint_record_header_size)%nat in
              if size artifact - Z.of_nat offset <? payload_size
              then (false, mkCursor offset (cur_index cursor), mkStateView name schema [])
              else
                let payload := subspan artifact offset (Z.to_nat payload_size) in
                (artifact_checksum payload =? payload_checksum,
                 mkCursor (offset + Z.to_nat payload_size) (u32 (cur_index cursor + 1)),
                 mkStateView name schema payload)
        | schema, _, _, _ => (false, cursor, mkStateView name (default 0 schema) [])
        end
    end.

Definition inspect_checkpoint_artifact (artifact : list Z) : Status * CheckpointMetadata :=
  parse_checkpoint_artifact artifact artifact_absolute_max_bytes artifact_absolute_max_records.

(** ** Input logs: encoding *)

(** The validation pass: nonnegative deltas, payloads within 32 bits, strictly
    increasing frames, and the payload total. *)
Fixpoint sum_inputs (records : list InputRecord) (previous_frame : option Z) (payload_bytes : Z)
    : option Z :=
  match records with
  | [] => Some payload_bytes
  | r :: rest =>
      if (delta (ir_frame r) <? 0) || (u32_max <? size (ir_payload r)) ||
         match previous_frame with
         | Some p => frame_index (ir_frame r) <=? p
         | None => false
         end
      then None
      else
        match checked_artifact_add payload_bytes (size (ir_payload r)) with
        | None => None
        | Some total => sum_inputs rest (Some (frame_index (ir_frame r))) total
        end
  end.

(** The first and last frame of a nonempty log. *)
Definition write_frame_range (records : list InputRecord) (a : list Z) : list Z :=
  match head records, last records with
  | Some first, Some final =>
      put64 96 (frame_index (ir_frame final)) (put64 88 (frame_index (ir_frame first)) a)
  | _, _ => a
  end.

Definition write_input_header (metadata : InputLogMetadata) (records : list InputRecord)
    (payload_bytes required : Z) (artifact : list Z) : list Z :=
  let a := list_inserts 0 kInputLogMagic artifact in
  let a := put32 8 input_log_schema_version a in
  let a := put32 12 (Z.of_nat input_log_header_size) a in
  let a := put32 16 (im_runtime_version_major metadata) a in
  let a := put32 20 (im_runtime_version_minor metadata) a in
  let a := put32 24 (im_runtime_version_patch metadata) a in
  let a := put32 28 (im_determinism_tier metadata) a in
  let a := put32 36 (Z.of_nat (length records)) a in
  let a := put32 40 (Z.of_nat input_log_record_header_size) a in
  let a := put64 48 (im_replay_id metadata) a in
  let a := put64 56 (im_state_schema_id metadata) a in
  let a := put64 64 payload_bytes a in
  let a := put64 72 required a in
  let a := write_frame_range records a in
  write_identifier_array a 104 (im_workload_id metadata).

Definition write_input (r : InputRecord) (offset : nat) (artifact : list Z) : list Z :=
  let a := put64 offset (frame_index (ir_frame r)) artifact in
  let a := put64 (offset + 8) (delta (ir_frame r)) a in
  let a := put64 (offset + 16) (default 0 (deadline_ns (ir_frame r))) a in
  let a := put32 (offset + 24) (ir_input_type r) a in
  let a := put32 (offset + 28) (size (ir_payload r)) a in
  let a := put32 (offset + 32) (match deadline_ns (ir_frame r) with Some _ => 1 | None => 0 end) a in
  let a := put64 (offset + 40) (artifact_checksum (ir_payload r)) a in
  list_inserts (offset + input_log_record_header_size) (ir_payload r) a.

Fixpoint write_inputs (records : list InputRecord) (offset : nat) (artifact : list Z) : list Z :=
  match records with
  | [] => artifact
  | r :: rest =>
      write_inputs rest (offset + input_log_record_header_size + length (ir_payload r))
        (write_input r offset artifact)
  end.

Definition seal_input_log (artifact : list Z) : list Z * Z :=
  let checksum := checksum_excluding artifact kInputLogChecksumOffset 8 in
  (put64 kInputLogChecksumOffset checksum artifact, checksum).

Definition encode_input_log_artifact (metadata : InputLogMetadata) (records : list InputRecord)
    (max_records max_bytes : Z) (output : list Z) : Status * ArtifactWriteResult * list Z :=
  let count := Z.of_nat (length records) in
  if (max_records <? count) || (artifact_absolute_max_records <? count) || (u32_max <? count) ||
     (artifact_absolute_max_records <? max_records) ||
     (artifact_absolute_max_bytes <? max_bytes) ||
     (max_bytes <? Z.of_nat input_log_header_size) ||
     negb (valid_tier (im_determinism_tier metadata)) ||
     negb (valid_identifier (identifier_view (im_workload_id metadata)))
  then (invalid_argument, write_result_default, output)
  else
    match sum_inputs records None 0 with
    | None => (invalid_argument, write_result_default, output)
    | Some payload_bytes =>
        match artifact_required (length records) input_log_record_header_size
                input_log_header_size payload_bytes with
        | None => (capacity_exceeded, write_result_default, output)
        | Some required =>
            if (max_bytes <? required) || (size output <? required)
            then (capacity_exceeded, mkWriteResult required 0 0, output)
            else
              let n := Z.to_nat required in
              let headed := write_input_header metadata records payload_bytes required
                              (replicate n 0) in
              let '(artifact, checksum) :=
                seal_input_log (write_inputs records input_log_header_size headed) in
              (ok, mkWriteResult required required checksum, artifact ++ drop n output)
        end
    end.

(** ** Input logs: parsing *)

(** One record: its frame index, the position after it and the payload total. *)
Definition parse_input (artifact : list Z) (offset : nat) (previous_frame : option Z)
    (payload_total : Z) : option (Z * nat * Z) :=
  if negb (field_fits artifact offset input_log_record_header_size) then None
  else
    frame ← load_u64_le artifact offset;
    delta_ns ← load_u64_le artifact (offset + 8);
    deadline ← load_u64_le artifact (offset + 16);
    _ ← load_u32_le artifact (offset + 24);
    payload_size ← load_u32_le artifact (offset + 28);
    flags ← load_u32_le artifact (offset + 32);
    reserved ← load_u32_le artifact (offset + 36);
    payload_checksum ← load_u64_le artifact (offset + 40);
    if (nanoseconds_max <? delta_ns) || negb (Z.land flags (u32_max - 1) =? 0) ||
       negb (reserved =? 0) || ((Z.land flags 1 =? 0) && negb (deadline =? 0)) ||
       match previous_frame with Some p => frame <=? p | None => false end
    then None
    else
      let offset := (offset + input_log_record_header_size)%nat in
      if size artifact - Z.of_nat offset <? payload_size then None
      else
        total ← checked_artifact_add payload_total payload_size;
        let payload := subspan artifact offset (Z.to_nat payload_size) in
        if negb (artifact_checksum payload =? payload_checksum) then None
        else Some (frame, (offset + Z.to_nat payload_size)%nat, total).

(** The loop; [previous_frame] is [None] at index 0. *)
Fixpoint parse_inputs (artifact : list Z) (count offset : nat) (previous_frame : option Z)
    (payload_total : Z) : option (option Z * nat * Z) :=
  match count with
  | O => Some (previous_frame, offset, payload_total)
  | S count' =>
      match parse_input artifact offset previous_frame payload_total with
      | None => None
      | Some (frame, offset', total) => parse_inputs artifact count' offset' (Some frame) total
      end
  end.

Definition parse_input_header (artifact : list Z) (max_bytes max_records : Z)
    : option InputLogMetadata :=
  schema ← load_u32_le artifact 8;
  header_size ← load_u32_le artifact 12;
  major ← load_u32_le artifact 16;
  minor ← load_u32_le artifact 20;
  patch ← load_u32_le artifact 24;
  tier ← load_u32_le artifact 28;
  flags ← load_u32_le artifact 32;
  record_count ← load_u32_le artifact 36;
  record_size ← load_u32_le artifact 40;
  reserved ← load_u32_le artifact 44;
  replay_id ← load_u64_le artifact 48;
  state_schema_id ← load_u64_le artifact 56;
  payload_bytes ← load_u64_le artifact 64;
  total_bytes ← load_u64_le artifact 72;
  checksum ← load_u64_le artifact kInputLogChecksumOffset;
  first_frame ← load_u64_le artifact 88;
  last_frame ← load_u64_le artifact 96;
  workload_id ← fixed_identifier artifact 104;
  if negb (schema =? input_log_schema_version) ||
     negb (header_size =? Z.of_nat input_log_header_size) ||
     negb (record_size =? Z.of_nat input_log_record_header_size) ||
     negb (flags =? 0) || negb (reserved =? 0) ||
     negb (bytes_zero artifact 168 24) || negb (valid_tier tier) ||
     (max_records <? record_count) || negb (total_bytes =? size artifact) ||
     (max_bytes <? payload_bytes)
  then None
  else Some (mkInputLogMetadata schema major minor patch tier replay_id state_schema_id
               payload_bytes total_bytes checksum first_frame last_frame record_count workload_id).

Definition parse_input_body (artifact : list Z) (m : InputLogMetadata) : bool :=
  (checksum_excluding artifact kInputLogChecksumOffset 8 =? im_artifact_checksum m) &&
  match parse_inputs artifact (Z.to_nat (im_record_count m)) input_log_header_size None 0 with
  | None => false
  | Some (previous, offset, payload_total) =>
      Nat.eqb offset (length artifact) && (payload_total =? im_payload_bytes m) &&
      (if im_record_count m =? 0
       then (im_first_frame_index m =? 0) && (im_last_frame_index m =? 0)
       else (im_first_frame_index m <=? im_last_frame_index m) &&
            (default 0 previous =? im_last_frame_index m) &&
            match load_u64_le artifact input_log_header_size with
            | Some first => first =? im_first_frame_index m
            | None => false
            end)
  end.

Definition parse_input_log_artifact (artifact : list Z) (max_bytes max_records : Z)
    : Status * InputLogMetadata :=
  if (artifact_absolute_max_bytes <? max_bytes) ||
     (artifact_absolute_max_records <? max_records) ||
     (length artifact <? input_log_header_size)%nat ||
     (max_bytes <? size artifact) || negb (magic_matches artifact kInputLogMagic)
  then (invalid_artifact, InputLogMetadata_default)
  else
    match parse_input_header artifact max_bytes max_records with
    | None => (invalid_artifact, InputLogMetadata_default)
    | Some metadata =>
        if parse_input_body artifact metadata then (ok, metadata)
        else (invalid_artifact, InputLogMetadata_default)
    end.

Definition InputLogRecordCursor_default : RecordCursor := mkCursor input_log_header_size 0.
Definition empty_frame : HostFrameContext := mkFrame 0 0 None None.
Definition empty_input : InputRecord := mkInputRecord empty_frame 0 [].

Definition next_input_log_record (artifact : list Z) (metadata : InputLogMetadata)
    (cursor : RecordCursor) : bool * RecordCursor * InputRecord :=
  let offset := cur_offset cursor in
  if (im_record_count metadata <=? cur_index cursor) ||
     negb (field_fits artifact offset input_log_record_header_size)
  then (false, cursor, empty_input)
  else
    match load_u64_le artifact offset, load_u64_le artifact (offset + 8),
          load_u64_le artifact (offset + 16), load_u32_le artifact (offset + 24),
          load_u32_le artifact (offset + 28), load_u32_le artifact (offset + 32),
          load_u32_le artifact (offset + 36), load_u64_le artifact (offset + 40) with
    | Some frame, Some delta_ns, Some deadline, Some input_type,
      Some payload_size, Some flags, Some reserved, Some payload_checksum =>
        if (1 <? flags) || negb (reserved =? 0) || (nanoseconds_max <? delta_ns)
        then (false, cursor, mkInputRecord (mkFrame frame 0 None None) input_type [])
        else
          let context := mkFrame frame delta_ns
            (if negb (Z.land flags 1 =? 0) then Some deadline else None) None in
          let offset := (offset + input_log_record_header_size)%nat in
          if size artifact - Z.of_nat offset <? payload_size
          then (false, mkCursor offset (cur_index cursor), mkInputRecord context input_type [])
          else
            let payload := subspan artifact offset (Z.to_nat payload_size) in
            (artifact_checksum payload =? payload_checksum,
             mkCursor (offset + Z.to_nat payload_size) (u32 (cur_index cursor + 1)),
             mkInputRecord context input_type payload)
    | _, _, _, _, _, _, _, _ => (false, cursor, empty_input)
    end.

Definition inspect_input_log_artifact (artifact : list Z) : Status * InputLogMetadata :=
  parse_input_log_artifact artifact artifact_absolute_max_bytes artifact_absolute_max_records.
