(* ===== verification/CodecFields.v ===== *)
(** * Fields, identifiers and checksums of artifacts

    Lemmas on SnapshotCodec.v that the checkpoint and input-log theorems share:
    what a field write leaves readable, identifiers in fixed fields, and the
    FNV-1a checksum, whose every step is a bijection. *)

From stdpp Require Import base list numbers sets.
From Stdlib Require Import ZArith Lia Bool.
From S2P Require Import Prelude CanonicalBytes SnapshotCodec.

Local Open Scope Z_scope.

(** ** Buffers that agree on a range *)

Definition agree (bs bs' : list Z) (lo hi : nat) : Prop :=
  length bs = length bs' /\ forall i, (lo <= i < hi)%nat -> bs !! i = bs' !! i.

Lemma agree_refl bs lo hi : agree bs bs lo hi.
Proof. done. Qed.

Lemma agree_sym bs bs' lo hi : agree bs bs' lo hi -> agree bs' bs lo hi.
Proof. intros [Hl H]. split; [done|]. intros i Hi. symmetry. by apply H. Qed.

Lemma agree_trans bs1 bs2 bs3 lo hi :
  agree bs1 bs2 lo hi -> agree bs2 bs3 lo hi -> agree bs1 bs3 lo hi.
Proof. intros [Hl H] [Hl' H']. split; [congruence|]. intros i Hi. rewrite H by done. by apply H'. Qed.

Lemma agree_sub bs bs' lo hi lo' hi' :
  agree bs bs' lo hi -> (lo <= lo')%nat -> (hi' <= hi)%nat -> agree bs bs' lo' hi'.
Proof. intros [Hl H] H1 H2. split; [done|]. intros i Hi. apply H. lia. Qed.

Lemma agree_write bs o d lo hi :
  (hi <= o)%nat \/ (o + length d <= lo)%nat -> agree (list_inserts o d bs) bs lo hi.
Proof.
  intros H. split; [apply length_inserts|]. intros i Hi.
  destruct (decide (i < o)%nat); [by rewrite list_lookup_inserts_lt|].
  rewrite list_lookup_inserts_ge by lia. done.
Qed.

Lemma agree_store w bs o v lo hi :
  (hi <= o)%nat \/ (o + w <= lo)%nat -> agree (store_le w bs o v).2 bs lo hi.
Proof.
  intros H. unfold store_le. destruct (field_fits bs o w); simpl; [|apply agree_refl].
  apply agree_write. by rewrite length_le_split.
Qed.

Lemma agree_put32 bs o v lo hi :
  (hi <= o)%nat \/ (o + 4 <= lo)%nat -> agree (put32 o v bs) bs lo hi.
Proof. apply agree_store. Qed.

Lemma agree_put64 bs o v lo hi :
  (hi <= o)%nat \/ (o + 8 <= lo)%nat -> agree (put64 o v bs) bs lo hi.
Proof. apply agree_store. Qed.

Lemma subspan_agree bs bs' off n :
  agree bs bs' off (off + n) -> subspan bs off n = subspan bs' off n.
Proof. intros [_ H]. by apply subspan_ext. Qed.

Lemma load_agree w bs bs' off :
  agree bs bs' off (off + w) -> load_le w bs off = load_le w bs' off.
Proof.
  intros [Hl H]. unfold load_le, field_fits. rewrite Hl. destruct (_ && _); [|done]. f_equal.
  assert (Hf : forall l acc, (forall i, i ∈ l -> (i < w)%nat) ->
    foldl (fun value i => Z.lor value (Z.shiftl (bs !!! (off + i)%nat) (8 * Z.of_nat i))) acc l =
    foldl (fun value i => Z.lor value (Z.shiftl (bs' !!! (off + i)%nat) (8 * Z.of_nat i))) acc l).
  { induction l as [|i l IH]; intros acc Hi; simpl; [done|].
    rewrite IH by (intros j Hj; apply Hi; by right).
    rewrite !list_lookup_total_alt, H; [done|]. specialize (Hi i ltac:(by left)). lia. }
  apply Hf. intros i Hi%elem_of_seq. lia.
Qed.

(** ** Field writes *)

Lemma length_put32 o v bs : length (put32 o v bs) = length bs.
Proof. apply (agree_put32 bs o v 0 0). lia. Qed.

Lemma length_put64 o v bs : length (put64 o v bs) = length bs.
Proof. apply (agree_put64 bs o v 0 0). lia. Qed.

Lemma bytes_ok_store w bs o v : bytes_ok bs -> bytes_ok (store_le w bs o v).2.
Proof.
  intros H. unfold store_le. destruct (field_fits bs o w); simpl; [|done].
  apply bytes_ok_write; [done|apply le_split_bytes].
Qed.

Lemma bytes_ok_put32 o v bs : bytes_ok bs -> bytes_ok (put32 o v bs).
Proof. apply bytes_ok_store. Qed.

Lemma bytes_ok_put64 o v bs : bytes_ok bs -> bytes_ok (put64 o v bs).
Proof. apply bytes_ok_store. Qed.

Create HintDb codec.
Create Rewrite HintDb codec.
#[export] Hint Rewrite length_put32 length_put64 @length_inserts : codec.
#[export] Hint Resolve bytes_ok_put32 bytes_ok_put64 bytes_ok_write bytes_ok_replicate : codec.

Lemma load_store_same w bs o v :
  bytes_ok bs -> (o + w <= length bs)%nat -> 0 <= v < 256 ^ Z.of_nat w ->
  load_le w (store_le w bs o v).2 o = Some v.
Proof.
  intros Hb Hf Hv. rewrite store_le_fits by done. simpl.
  rewrite load_le_fits; [|apply bytes_ok_write; [done|apply le_split_bytes]|by rewrite length_inserts].
  rewrite subspan_write_at, le_combine_split; [done|done|done|apply length_le_split].
Qed.

Lemma load_put32 bs o v :
  bytes_ok bs -> (o + 4 <= length bs)%nat -> is_u32 v -> load_u32_le (put32 o v bs) o = Some v.
Proof.
  intros Hb Hf Hv. apply load_store_same; [done|done|]. change (256 ^ Z.of_nat 4) with (u32_max + 1).
  unfold is_u32 in Hv. lia.
Qed.

Lemma load_put64 bs o v :
  bytes_ok bs -> (o + 8 <= length bs)%nat -> is_u64 v -> load_u64_le (put64 o v bs) o = Some v.
Proof.
  intros Hb Hf Hv. apply load_store_same; [done|done|]. change (256 ^ Z.of_nat 8) with (u64_max + 1).
  unfold is_u64 in Hv. lia.
Qed.

Lemma load_zero w bs off :
  (off + w <= length bs)%nat -> (forall i, (off <= i < off + w)%nat -> bs !! i = Some 0) ->
  load_le w bs off = Some 0.
Proof.
  intros Hl H. transitivity (load_le w (replicate (length bs) 0) off).
  { apply load_agree. split; [by rewrite length_replicate|]. intros i Hi.
    rewrite H, lookup_replicate_2 by lia. done. }
  rewrite load_le_fits; [|apply bytes_ok_replicate|by rewrite length_replicate]. f_equal.
  unfold subspan. rewrite drop_replicate, take_replicate.
  induction (w `min` (length bs - off))%nat as [|n IH]; [done|]. simpl. by rewrite IH.
Qed.

(** Reads of a field skip the writes of the other fields. *)
Ltac skip_write :=
  etransitivity;
  [ apply load_agree; first [ apply agree_put32; simpl; lia | apply agree_put64; simpl; lia
                            | apply agree_write; simpl; lia ] |].
Ltac skip_writes := unfold load_u32_le, load_u64_le; repeat skip_write.

(** ** Identifiers *)

(** The bytes of a fixed field that holds [name]. *)
Definition padded (name : list Z) : list Z :=
  name ++ replicate (replay_identifier_capacity - length name) 0.

Lemma identifier_character_range c : identifier_character c = true -> 45 <= c <= 122.
Proof.
  unfold identifier_character. rewrite !orb_true_iff, !andb_true_iff, !Z.leb_le, !Z.eqb_eq. lia.
Qed.

Lemma valid_identifier_spec name :
  valid_identifier name = true <->
  (0 < length name < replay_identifier_capacity)%nat /\
  Forall (fun c => identifier_character c = true) name.
Proof.
  unfold valid_identifier. rewrite !andb_true_iff, negb_true_iff, Nat.eqb_neq, Nat.ltb_lt.
  rewrite forallb_forall, Forall_forall. setoid_rewrite list_elem_of_In. split; intros; split; try lia; naive_solver.
Qed.

Lemma identifier_bytes_ok name :
  Forall (fun c => identifier_character c = true) name -> bytes_ok name.
Proof.
  intros H. eapply Forall_impl; [apply H|]. simpl. intros c Hc%identifier_character_range.
  unfold is_u8. lia.
Qed.

Lemma padded_bytes_ok name : valid_identifier name = true -> bytes_ok (padded name).
Proof.
  intros [_ H]%valid_identifier_spec. apply Forall_app. split; [by apply identifier_bytes_ok|].
  apply bytes_ok_replicate.
Qed.

Lemma length_padded name :
  valid_identifier name = true -> length (padded name) = replay_identifier_capacity.
Proof.
  intros [H _]%valid_identifier_spec. unfold padded. rewrite length_app, length_replicate. lia.
Qed.

Lemma scan_name_app name rest :
  Forall (fun c => identifier_character c = true) name ->
  scan_name (name ++ 0 :: rest) = Some (length name).
Proof.
  induction 1 as [|c l Hc Hl IH]; simpl; [done|].
  pose proof (identifier_character_range c Hc). rewrite (proj2 (Z.eqb_neq c 0)) by lia.
  by rewrite Hc, IH.
Qed.

Lemma scan_name_Some field n :
  scan_name field = Some n -> (n < length field)%nat ->
  Forall (fun c => identifier_character c = true) (take n field) /\ field !! n = Some 0.
Proof.
  revert n. induction field as [|c l IH]; intros n; simpl; [lia|].
  destruct (Z.eqb_spec c 0) as [->|]; [by intros [= <-] _|].
  destruct (identifier_character c) eqn:Ec; [|done].
  destruct (scan_name l) as [m|]; [|done]. intros [= <-] Hn. simpl.
  destruct (IH m eq_refl ltac:(lia)). split; [by constructor|done].
Qed.

Lemma scan_name_le field n : scan_name field = Some n -> (n <= length field)%nat.
Proof.
  revert n. induction field as [|c l IH]; intros n; simpl; [by intros [= <-]|].
  destruct (c =? 0); [intros [= <-]; lia|]. destruct (identifier_character c); [|done].
  destruct (scan_name l) as [m|]; [|done]. intros [= <-]. specialize (IH m eq_refl). lia.
Qed.

(** A fixed field is accepted exactly when it is a padded valid identifier. *)
Lemma fixed_length_spec bs off n :
  fixed_length bs off = Some n <->
  (off + replay_identifier_capacity <= length bs)%nat /\
  exists name, length name = n /\ valid_identifier name = true /\
    subspan bs off replay_identifier_capacity = padded name.
Proof.
  unfold fixed_length. split.
  - destruct (field_fits bs off _) eqn:Ef; [|done]. apply field_fits_spec in Ef.
    pose proof (length_subspan bs off _ Ef) as Hl.
    set (field := subspan bs off replay_identifier_capacity) in *.
    destruct (scan_name field) as [m|] eqn:Es; [|done].
    pose proof (scan_name_le _ _ Es) as Hle. rewrite Hl in Hle.
    destruct (Nat.eqb_spec m 0) as [|Hm0]; [done|].
    destruct (Nat.eqb_spec m replay_identifier_capacity) as [|Hm]; [done|]. simpl.
    destruct (forallb _ _) eqn:Ez; [|done]. intros [= <-]. split; [done|].
    destruct (scan_name_Some _ _ Es) as [Hchars Hz]; [lia|].
    exists (take m field). rewrite length_take, Hl. split_and!; [lia| |].
    + apply valid_identifier_spec. rewrite length_take, Hl. split; [lia|done].
    + unfold padded. rewrite length_take, Hl, <- (take_drop_middle field m 0 Hz) at 1.
      f_equal.
      replace (replay_identifier_capacity - m `min` replay_identifier_capacity)%nat
        with (S (length (drop (S m) field))) by (rewrite length_drop, Hl; lia).
      simpl. f_equal. rewrite forallb_forall in Ez.
      symmetry. apply replicate_as_Forall. split; [done|]. apply Forall_forall. intros x Hx.
      apply Z.eqb_eq, Ez, list_elem_of_In, Hx.
  - intros (Hf & name & <- & Hv & E). rewrite (proj2 (field_fits_spec _ _ _) Hf), E.
    apply valid_identifier_spec in Hv as [Hlen Hc]. unfold padded.
    assert (Ez : replicate (replay_identifier_capacity - length name) 0 =
      0 :: replicate (replay_identifier_capacity - length name - 1) 0).
    { replace (replay_identifier_capacity - length name)%nat
        with (S (replay_identifier_capacity - length name - 1)) at 1 by lia. done. }
    rewrite Ez, scan_name_app by done.
    destruct (Nat.eqb_spec (length name) 0); [lia|].
    destruct (Nat.eqb_spec (length name) replay_identifier_capacity); [lia|]. simpl.
    replace (S (length name)) with (length name + 1)%nat by lia. rewrite drop_app_add. simpl.
    rewrite drop_0. rewrite (proj2 (forallb_forall _ _)); [done|].
    intros x [-> _]%list_elem_of_In%elem_of_replicate. done.
Qed.

Lemma fixed_name_padded bs off name :
  valid_identifier name = true -> (off + replay_identifier_capacity <= length bs)%nat ->
  subspan bs off replay_identifier_capacity = padded name -> fixed_name bs off = Some name.
Proof.
  intros Hv Hf E. unfold fixed_name.
  rewrite (proj2 (fixed_length_spec bs off (length name))) by (split; [done|by exists name]).
  f_equal. apply valid_identifier_spec in Hv as [Hl _].
  assert (E' : take (length name) (subspan bs off replay_identifier_capacity) = name).
  { rewrite E. unfold padded. by rewrite take_app_length. }
  unfold subspan in *. by rewrite take_take, Nat.min_l in E' by lia.
Qed.

Lemma fixed_identifier_padded bs off name :
  valid_identifier name = true -> (off + replay_identifier_capacity <= length bs)%nat ->
  subspan bs off replay_identifier_capacity = padded name ->
  fixed_identifier bs off = Some (padded name).
Proof.
  intros Hv Hf E. unfold fixed_identifier.
  rewrite (proj2 (fixed_length_spec bs off (length name))) by (split; [done|by exists name]).
  by rewrite E.
Qed.

Lemma fixed_agree bs bs' off :
  agree bs bs' off (off + replay_identifier_capacity) ->
  fixed_length bs off = fixed_length bs' off /\ fixed_identifier bs off = fixed_identifier bs' off /\
  fixed_name bs off = fixed_name bs' off.
Proof.
  intros Ha.
  assert (E : fixed_length bs off = fixed_length bs' off).
  { unfold fixed_length, field_fits. rewrite (proj1 Ha), (subspan_agree _ _ _ _ Ha). done. }
  unfold fixed_identifier, fixed_name. rewrite E, (subspan_agree _ _ _ _ Ha). split_and!; try done.
  destruct (fixed_length bs' off) as [n|] eqn:En; [|done]. f_equal. apply subspan_agree.
  apply fixed_length_spec in En as (_ & name & <- & [Hl _]%valid_identifier_spec & _).
  eapply agree_sub; [apply Ha|lia|lia].
Qed.

Lemma identifier_view_padded name :
  valid_identifier name = true -> identifier_view (padded name) = name.
Proof.
  intros [Hl H]%valid_identifier_spec. unfold padded.
  destruct (replay_identifier_capacity - length name)%nat as [|k] eqn:E; [lia|]. clear E Hl.
  induction H as [|c l Hc Hcs IH]; [done|]. simpl.
  pose proof (identifier_character_range c Hc). rewrite (proj2 (Z.eqb_neq c 0)) by lia.
  f_equal. apply IH.
Qed.

(** ** Checksums *)

(** The inverse of the FNV prime modulo 2^64. *)
Definition kFnvPrimeInverse : Z := 14886173955864302971.

Lemma fnv_multiply_inv x : is_u64 x -> u64 (u64 (x * kFnvPrime) * kFnvPrimeInverse) = x.
Proof.
  intros Hx. unfold u64 at 1 2. rewrite Zmult_mod_idemp_l.
  replace (x * kFnvPrime * kFnvPrimeInverse)
    with (x + x * ((kFnvPrime * kFnvPrimeInverse - 1) / 18446744073709551616) * 18446744073709551616).
  - rewrite Z.mod_add by done. apply (u64_small x Hx).
  - change ((kFnvPrime * kFnvPrimeInverse - 1) / 18446744073709551616) with 887285111055.
    unfold kFnvPrime, kFnvPrimeInverse. lia.
Qed.

Lemma lxor_u64 a b : is_u64 a -> is_u64 b -> is_u64 (Z.lxor a b).
Proof.
  unfold is_u64. intros Ha Hb. assert (0 <= Z.lxor a b) by (apply Z.lxor_nonneg; lia).
  split; [done|]. destruct (decide (Z.lxor a b = 0)) as [E|E]; [rewrite E; done|].
  enough (Z.lxor a b < 2 ^ 64) by (unfold u64_max; lia). apply Z.log2_lt_pow2; [lia|].
  assert (Hlog : forall x, 0 <= x <= u64_max -> Z.log2 x < 64).
  { intros x Hx. destruct (decide (x = 0)) as [->|]; [done|]. apply Z.log2_lt_pow2; [lia|].
    change (2 ^ 64) with (u64_max + 1). lia. }
  pose proof (Z.log2_lxor a b ltac:(lia) ltac:(lia)).
  pose proof (Hlog a Ha). pose proof (Hlog b Hb). lia.
Qed.

Lemma u8_u64 b : is_u8 b -> is_u64 b.
Proof. unfold is_u8, is_u64, u64_max. lia. Qed.

Lemma fnv_step_inj h h' b b' :
  is_u64 h -> is_u64 h' -> is_u8 b -> is_u8 b' -> fnv_step h b = fnv_step h' b' ->
  Z.lxor h b = Z.lxor h' b'.
Proof.
  unfold fnv_step. intros Hh Hh' Hb Hb' E.
  rewrite <- (fnv_multiply_inv (Z.lxor h b)), E, fnv_multiply_inv; auto using lxor_u64, u8_u64.
Qed.

Lemma lxor_inj_l a b b' : Z.lxor a b = Z.lxor a b' -> b = b'.
Proof.
  intros E. rewrite <- (Z.lxor_0_l b), <- (Z.lxor_0_l b'), <- (Z.lxor_nilpotent a).
  by rewrite !Z.lxor_assoc, E.
Qed.

Lemma lxor_inj_r a a' b : Z.lxor a b = Z.lxor a' b -> a = a'.
Proof. rewrite (Z.lxor_comm a), (Z.lxor_comm a'). apply lxor_inj_l. Qed.

Lemma fnv_fold_u64 bs h : is_u64 h -> is_u64 (foldl fnv_step h bs).
Proof. revert h. induction bs as [|b bs IH]; intros h Hh; [done|]. apply IH, u64_range. Qed.

Lemma fnv_fold_inj bs h h' :
  is_u64 h -> is_u64 h' -> bytes_ok bs -> foldl fnv_step h bs = foldl fnv_step h' bs -> h = h'.
Proof.
  revert h h'. induction bs as [|b bs IH]; intros h h' Hh Hh' Hb E; [done|].
  apply Forall_cons in Hb as [Hb Hbs]. simpl in E.
  apply IH in E; [|apply u64_range|apply u64_range|done].
  by apply lxor_inj_r with b, fnv_step_inj.
Qed.

Lemma kFnvOffset_u64 : is_u64 kFnvOffset.
Proof. unfold is_u64, kFnvOffset, u64_max. lia. Qed.

Lemma artifact_checksum_u64 bs : is_u64 (artifact_checksum bs).
Proof. apply fnv_fold_u64, kFnvOffset_u64. Qed.

(** One changed byte always changes the hash. *)
Lemma fnv_fold_change_from h l1 x y l2 :
  is_u64 h -> bytes_ok (l1 ++ x :: l2) -> is_u8 y -> x <> y ->
  foldl fnv_step h (l1 ++ x :: l2) <> foldl fnv_step h (l1 ++ y :: l2).
Proof.
  intros Hh [_ [Hx Hl2]%Forall_cons]%Forall_app Hy Hne E. rewrite !foldl_app in E. simpl in E.
  apply fnv_fold_inj in E; [|apply u64_range|apply u64_range|done].
  apply fnv_step_inj in E; [|by apply fnv_fold_u64..|done|done].
  by apply lxor_inj_l in E.
Qed.

Lemma fnv_fold_change l1 x y l2 :
  bytes_ok (l1 ++ x :: l2) -> is_u8 y -> x <> y ->
  foldl fnv_step kFnvOffset (l1 ++ x :: l2) <> foldl fnv_step kFnvOffset (l1 ++ y :: l2).
Proof. apply fnv_fold_change_from, kFnvOffset_u64. Qed.

Definition mask_field (off n i : nat) (b : Z) : Z :=
  if (off <=? i)%nat && (i <? off + n)%nat then 0 else b.

Lemma mask_field_in off n i b : (off <= i < off + n)%nat -> mask_field off n i b = 0.
Proof.
  intros H. unfold mask_field. rewrite (proj2 (Nat.leb_le _ _)), (proj2 (Nat.ltb_lt _ _)) by lia. done.
Qed.

Lemma mask_field_out off n i b : ~ (off <= i < off + n)%nat -> mask_field off n i b = b.
Proof.
  intros H. unfold mask_field. destruct (Nat.leb_spec off i), (Nat.ltb_spec i (off + n)); simpl; try done. lia.
Qed.

Lemma checksum_excluding_mask bs off n :
  checksum_excluding bs off n = foldl fnv_step kFnvOffset (imap (mask_field off n) bs).
Proof. done. Qed.

(** The checksum does not see the excluded field. *)
Lemma checksum_excluding_agree bs bs' off n :
  agree bs bs' 0 off -> agree bs bs' (off + n) (length bs) ->
  checksum_excluding bs off n = checksum_excluding bs' off n.
Proof.
  intros [Hl H1] [_ H2]. rewrite !checksum_excluding_mask. f_equal. apply list_eq. intros i.
  rewrite !list_lookup_imap. destruct (decide (i < length bs)%nat) as [Hi|Hi].
  - destruct (decide (off <= i < off + n)%nat) as [Hr|Hr].
    + destruct (lookup_lt_is_Some_2 bs i Hi) as [x ->].
      destruct (lookup_lt_is_Some_2 bs' i) as [y ->]; [lia|]. simpl. by rewrite !mask_field_in.
    + replace (bs' !! i) with (bs !! i); [done|].
      destruct (decide (i < off)%nat); [apply H1|apply H2]; lia.
  - rewrite !lookup_ge_None_2 by lia. done.
Qed.

Lemma checksum_excluding_u64 bs off n : is_u64 (checksum_excluding bs off n).
Proof. apply fnv_fold_u64, kFnvOffset_u64. Qed.

Lemma checksum_excluding_change bs off n i x y :
  bytes_ok bs -> is_u8 y -> bs !! i = Some x -> x <> y -> ~ (off <= i < off + n)%nat ->
  checksum_excluding (<[i := y]> bs) off n <> checksum_excluding bs off n.
Proof.
  intros Hb Hy Hi Hne Hout. rewrite !checksum_excluding_mask.
  assert (Hlt : (i < length bs)%nat) by (by eapply lookup_lt_Some).
  assert (E : imap (mask_field off n) (<[i:=y]> bs) = <[i:=y]> (imap (mask_field off n) bs)).
  { apply list_eq. intros j. rewrite list_lookup_imap. destruct (decide (i = j)) as [<-|Hj].
    - rewrite !list_lookup_insert_eq by (rewrite ?length_imap; done). simpl. by rewrite mask_field_out.
    - by rewrite !list_lookup_insert_ne, list_lookup_imap by done. }
  assert (Hm : imap (mask_field off n) bs !! i = Some x).
  { rewrite list_lookup_imap, Hi. simpl. by rewrite mask_field_out. }
  rewrite E, insert_take_drop by (rewrite length_imap; done).
  rewrite <- (take_drop_middle _ _ _ Hm) at 3. intros E'. symmetry in E'. revert E'.
  apply fnv_fold_change; [|done|done]. rewrite take_drop_middle by done.
  apply Forall_forall. intros z [j Hz]%list_elem_of_lookup.
  apply list_lookup_imap_Some in Hz as (w & Hw & ->).
  apply list_elem_of_lookup_2 in Hw. pose proof (proj1 (Forall_forall _ _) Hb w Hw) as Hwb.
  unfold mask_field. destruct (_ && _); [unfold is_u8; lia|done].
Qed.

(** ** Sizes *)

Lemma checked_artifact_add_Some l r o :
  is_u64 l -> is_u64 r -> checked_artifact_add l r = Some o <-> l + r <= u64_max /\ o = l + r.
Proof.
  unfold checked_artifact_add, is_u64. intros Hl Hr.
  destruct (Z.ltb_spec (u64_max - l) r).
  - split; [done|lia].
  - rewrite u64_small by (unfold is_u64; lia). naive_solver lia.
Qed.

Lemma checked_artifact_add_fits l r :
  is_u64 l -> is_u64 r -> l + r <= u64_max -> checked_artifact_add l r = Some (l + r).
Proof. intros Hl Hr H. by apply checked_artifact_add_Some. Qed.

(** Counts within the record limit and payloads of an addressable size. *)
Lemma artifact_required_eq count rh h payload :
  Z.of_nat count <= artifact_absolute_max_records -> (rh <= 256)%nat -> (h <= 256)%nat ->
  is_u64 payload ->
  let total := Z.of_nat h + Z.of_nat count * Z.of_nat rh + payload in
  artifact_required count rh h payload = if u64_max <? total then None else Some total.
Proof.
  intros Hc Hr Hh Hp total. unfold artifact_required, checked_artifact_multiply.
  change artifact_absolute_max_records with 1048576 in Hc.
  assert (Hm : Z.of_nat count * Z.of_nat rh <= 1048576 * 256) by nia.
  destruct (Z.eqb_spec (Z.of_nat count) 0) as [E|E]; simpl.
  all: [> | destruct (Z.ltb_spec (u64_max / Z.of_nat count) (Z.of_nat rh)) as [Hlt|_];
        [exfalso; assert (Z.of_nat rh <= u64_max / Z.of_nat count)
           by (apply Z.div_le_lower_bound; unfold u64_max; lia); lia|] ].
  all: rewrite u64_small by (unfold is_u64, u64_max; lia).
  all: rewrite checked_artifact_add_fits by (unfold is_u64, u64_max; lia).
  all: destruct (Z.ltb_spec u64_max total) as [Hlt|Hle];
    [destruct (checked_artifact_add _ _) as [o|] eqn:Eo; [|done];
     apply checked_artifact_add_Some in Eo as [Ho _]; [subst total; lia|unfold is_u64, u64_max; lia|done]
    |by rewrite checked_artifact_add_fits by (done || unfold is_u64, u64_max; lia)].
Qed.

Lemma load_u32_range bs off v : bytes_ok bs -> load_u32_le bs off = Some v -> is_u32 v.
Proof.
  intros Hb. unfold load_u32_le. rewrite load_le_spec by done.
  destruct (field_fits bs off 4) eqn:E; [|done]. intros [= <-]. apply field_fits_spec in E.
  pose proof (le_combine_bound (subspan bs off 4) ltac:(by apply Forall_take, Forall_drop)) as H.
  rewrite length_subspan in H by lia. change (256 ^ Z.of_nat 4) with (u32_max + 1) in H.
  unfold is_u32. lia.
Qed.

Lemma fixed_name_Some bs off name :
  fixed_name bs off = Some name -> valid_identifier name = true.
Proof.
  unfold fixed_name. destruct (fixed_length bs off) as [n|] eqn:E; [|done]. intros [= <-].
  apply fixed_length_spec in E as (Hf & name & <- & Hv & E').
  pose proof (fixed_name_padded bs off name Hv Hf E') as H. unfold fixed_name in H.
  rewrite (proj2 (fixed_length_spec bs off (length name))) in H by (split; [done|by exists name]).
  injection H as ->. done.
Qed.

Lemma le_combine_inj bs bs' :
  bytes_ok bs -> bytes_ok bs' -> length bs = length bs' -> le_combine bs = le_combine bs' -> bs = bs'.
Proof.
  intros Hb. revert bs'. induction Hb as [|b bs Hb Hbs IH]; intros [|b' bs'] Hb' Hl E; try done.
  apply Forall_cons in Hb' as [Hb' Hbs']. simpl in *. unfold is_u8 in *.
  assert (b = b') as -> by lia. f_equal. apply IH; [done|lia|lia].
Qed.

Lemma load_u64_change bs o i x y :
  bytes_ok bs -> is_u8 y -> bs !! i = Some x -> x <> y -> (o <= i < o + 8)%nat ->
  (o + 8 <= length bs)%nat -> load_u64_le (<[i := y]> bs) o <> load_u64_le bs o.
Proof.
  intros Hb Hy Hi Hne Hr Hl. unfold load_u64_le.
  assert (Hb' : bytes_ok (<[i:=y]> bs)) by (by apply Forall_insert).
  rewrite !load_le_fits by (rewrite ?length_insert; done). intros [= E].
  apply le_combine_inj in E; [|by apply Forall_take, Forall_drop..|].
  2:{ rewrite !length_subspan; rewrite ?length_insert; done. }
  assert (E' : subspan (<[i:=y]> bs) o 8 !! (i - o)%nat = subspan bs o 8 !! (i - o)%nat) by (by rewrite E).
  rewrite !lookup_subspan in E' by lia. replace (o + (i - o))%nat with i in E' by lia.
  rewrite list_lookup_insert_eq in E' by (by eapply lookup_lt_Some). congruence.
Qed.

Lemma agree_insert bs i y lo hi : ~ (lo <= i < hi)%nat -> agree (<[i := y]> bs) bs lo hi.
Proof.
  intros H. split; [apply length_insert|]. intros j Hj. apply list_lookup_insert_ne. lia.
Qed.
