(* ===== verification/CheckpointTheorems.v ===== *)
(** * Correctness of the checkpoint codec

    What an encoded checkpoint holds at each record, that parsing accepts it
    and the record cursor gives the states back, that any artifact the parser
    accepts can be walked to its end, and that one changed byte is detected. *)

From stdpp Require Import base list numbers sets.
From Stdlib Require Import ZArith Lia Bool.
From S2P Require Import Prelude CanonicalBytes SnapshotCodec CodecFields.

Local Open Scope Z_scope.

(** ** Records in an artifact *)

Record state_typed (st : StateView) : Prop := {
  st_name : valid_identifier (sv_name st) = true;
  st_schema : 0 < sv_schema_version st <= u32_max;
  st_payload : sv_payload st <> [];
  st_bytes : bytes_ok (sv_payload st)
}.

Definition record_size (st : StateView) : nat := 88 + length (sv_payload st).

Record state_at (bs : list Z) (off : nat) (st : StateView) : Prop := {
  sa_fits : (off + record_size st <= length bs)%nat;
  sa_name : fixed_name bs off = Some (sv_name st);
  sa_schema : load_u32_le bs (off + 64) = Some (sv_schema_version st);
  sa_reserved : load_u32_le bs (off + 68) = Some 0;
  sa_size : load_u64_le bs (off + 72) = Some (size (sv_payload st));
  sa_sum : load_u64_le bs (off + 80) = Some (artifact_checksum (sv_payload st));
  sa_payload : subspan bs (off + 88) (length (sv_payload st)) = sv_payload st
}.

Fixpoint states_at (bs : list Z) (off : nat) (states : list StateView) : Prop :=
  match states with
  | [] => True
  | st :: rest => state_at bs off st /\ states_at bs (off + record_size st) rest
  end.

Definition states_size (states : list StateView) : nat := sum_list_with record_size states.
Definition payload_size (states : list StateView) : nat :=
  sum_list_with (fun st => length (sv_payload st)) states.

Lemma states_size_payload states :
  states_size states = (88 * length states + payload_size states)%nat.
Proof.
  unfold states_size, payload_size. induction states as [|st l IH]; [done|].
  cbn [sum_list_with length]. rewrite IH. unfold record_size. lia.
Qed.

Lemma state_at_agree bs bs' off st :
  agree bs bs' off (off + record_size st) -> state_at bs off st -> state_at bs' off st.
Proof.
  intros Ha [Hf Hn Hs Hr Hz Hc Hp]. unfold record_size in *.
  assert (Hsub : forall o w, (off <= o)%nat -> (o + w <= off + (88 + length (sv_payload st)))%nat ->
    agree bs bs' o (o + w)) by (intros o w H1 H2; eapply agree_sub; [apply Ha|lia|lia]).
  unfold load_u32_le, load_u64_le in *.
  constructor; unfold load_u32_le, load_u64_le; try (rewrite <- (load_agree _ bs) by (apply Hsub; lia); done).
  - by rewrite <- (proj1 Ha).
  - rewrite <- (proj2 (proj2 (fixed_agree bs bs' off (Hsub off 64%nat ltac:(lia) ltac:(lia))))). done.
  - rewrite <- Hp at 2. symmetry. apply subspan_agree. apply Hsub; lia.
Qed.

Lemma states_at_agree bs bs' off states :
  agree bs bs' off (off + states_size states) -> states_at bs off states -> states_at bs' off states.
Proof.
  revert off. induction states as [|st states IH]; intros off Ha; simpl; [done|].
  unfold states_size in *. cbn [sum_list_with] in Ha. intros [H1 H2]. split.
  - eapply state_at_agree; [|done]. eapply agree_sub; [apply Ha|lia|lia].
  - apply IH; [|done]. eapply agree_sub; [apply Ha|lia|lia].
Qed.

(** ** Writing records *)

Lemma length_write_state st off bs : length (write_state st off bs) = length bs.
Proof. unfold write_state, write_identifier_view. by autorewrite with codec. Qed.

Lemma write_state_agree st off bs lo hi :
  state_typed st -> (hi <= off)%nat \/ (off + record_size st <= lo)%nat ->
  agree (write_state st off bs) bs lo hi.
Proof.
  intros [[Hl _]%valid_identifier_spec _ _ _] H. unfold record_size, replay_identifier_capacity in *.
  unfold write_state, write_identifier_view. unfold checkpoint_record_header_size.
  eapply agree_trans; [apply agree_write; lia|].
  eapply agree_trans; [apply agree_put64; lia|].
  eapply agree_trans; [apply agree_put64; lia|].
  eapply agree_trans; [apply agree_put32; lia|].
  eapply agree_trans; [apply agree_write; lia|].
  apply agree_write. unfold replay_identifier_capacity. rewrite length_replicate. lia.
Qed.

Lemma bytes_ok_write_state st off bs :
  state_typed st -> bytes_ok bs -> bytes_ok (write_state st off bs).
Proof.
  intros [[_ Hn]%valid_identifier_spec _ _ Hp] Hb. unfold write_state, write_identifier_view.
  auto 10 using identifier_bytes_ok with codec.
Qed.

Lemma subspan_view bs off name :
  valid_identifier name = true -> (off + 64 <= length bs)%nat ->
  subspan (write_identifier_view bs off name) off 64 = padded name.
Proof.
  intros Hv Hf. pose proof Hv as [Hl _]%valid_identifier_spec.
  unfold write_identifier_view, padded, replay_identifier_capacity in *.
  replace 64%nat with (length name + (64 - length name))%nat at 2 by lia.
  rewrite subspan_split. f_equal.
  - apply subspan_write_at; [rewrite length_inserts; lia|done].
  - rewrite subspan_write_other by lia. apply list_eq. intros i.
    destruct (decide (i < 64 - length name)%nat).
    + rewrite lookup_subspan, list_lookup_inserts, !lookup_replicate_2 by (rewrite ?length_replicate; lia). done.
    + rewrite !lookup_ge_None_2; [done|rewrite length_replicate; lia|].
      rewrite length_subspan; [lia|]. rewrite length_inserts. lia.
Qed.

Lemma payload_size_u64 (payload : list Z) bs :
  (length payload <= length bs)%nat -> size bs <= u64_max -> is_u64 (size payload).
Proof. unfold size, is_u64. lia. Qed.

Lemma write_state_at st off bs :
  state_typed st -> bytes_ok bs -> size bs <= u64_max ->
  (off + record_size st <= length bs)%nat ->
  (forall i, (off <= i < off + record_size st)%nat -> bs !! i = Some 0) ->
  state_at (write_state st off bs) off st.
Proof.
  intros Ht Hb Hmax Hf Hz. destruct (Ht) as [Hn Hs Hp Hpb].
  pose proof Hn as [Hl Hc]%valid_identifier_spec. unfold record_size, replay_identifier_capacity in *.
  assert (Hview : bytes_ok (write_identifier_view bs off (sv_name st))).
  { unfold write_identifier_view. auto using identifier_bytes_ok with codec. }
  assert (Hlv : length (write_identifier_view bs off (sv_name st)) = length bs)
    by (unfold write_identifier_view; by autorewrite with codec).
  constructor; unfold record_size; rewrite ?length_write_state; try done;
    unfold write_state, checkpoint_record_header_size.
  - apply fixed_name_padded; [done|autorewrite with codec; rewrite Hlv; unfold replay_identifier_capacity; lia|].
    unfold replay_identifier_capacity. rewrite subspan_write_other by lia.
    transitivity (subspan (write_identifier_view bs off (sv_name st)) off 64).
    + apply subspan_agree. eapply agree_trans; [apply agree_put64; lia|].
      eapply agree_trans; [apply agree_put64; lia|]. apply agree_put32; lia.
    + apply subspan_view; [done|lia].
  - skip_writes. apply load_put32; [done|rewrite Hlv; lia|unfold is_u32; lia].
  - skip_writes. unfold write_identifier_view. skip_writes.
    apply load_zero; [lia|]. intros i Hi. apply Hz. lia.
  - skip_writes. apply load_put64; [auto with codec|autorewrite with codec; rewrite Hlv; lia|].
    eapply payload_size_u64; [|apply Hmax]. lia.
  - skip_writes. apply load_put64; [auto with codec|autorewrite with codec; rewrite Hlv; lia|].
    apply artifact_checksum_u64.
  - apply subspan_write_at; [autorewrite with codec; rewrite Hlv; lia|done].
Qed.

Fixpoint write_list (states : list StateView) (off : nat) (bs : list Z) : list Z :=
  match states with
  | [] => bs
  | st :: rest => write_list rest (off + record_size st) (write_state st off bs)
  end.

Lemma write_states_list provider states : forall index off bs,
  (forall i st, states !! i = Some st -> provider (index + i)%nat = Some st) ->
  write_states provider (length states) index off bs = inr (write_list states off bs).
Proof.
  induction states as [|st states IH]; intros index off bs H; simpl; [done|].
  pose proof (H 0%nat st eq_refl) as H0. rewrite Nat.add_0_r in H0. rewrite H0.
  unfold record_size, checkpoint_record_header_size. rewrite Nat.add_assoc. apply IH.
  intros i x Hx. rewrite Nat.add_succ_comm. by apply (H (S i)).
Qed.

Lemma write_list_agree states : forall off bs lo hi,
  Forall state_typed states -> (hi <= off)%nat \/ (off + states_size states <= lo)%nat ->
  agree (write_list states off bs) bs lo hi.
Proof.
  unfold states_size. induction states as [|st states IH]; intros off bs lo hi Ht H;
    cbn [sum_list_with write_list] in *.
  { apply agree_refl. }
  apply Forall_cons in Ht as [Hst Ht].
  eapply agree_trans; [apply IH; [done|lia]|]. apply write_state_agree; [done|lia].
Qed.

Lemma bytes_ok_write_list states : forall off bs,
  Forall state_typed states -> bytes_ok bs -> bytes_ok (write_list states off bs).
Proof.
  induction states as [|st states IH]; intros off bs Ht Hb; simpl; [done|].
  apply Forall_cons in Ht as [Hst Ht]. apply IH; [done|]. by apply bytes_ok_write_state.
Qed.

Lemma write_list_at states : forall off bs,
  Forall state_typed states -> bytes_ok bs -> size bs <= u64_max ->
  (off + states_size states <= length bs)%nat ->
  (forall i, (off <= i < off + states_size states)%nat -> bs !! i = Some 0) ->
  states_at (write_list states off bs) off states.
Proof.
  unfold states_size. induction states as [|st states IH]; intros off bs Ht Hb Hmax Hf Hz;
    cbn [sum_list_with write_list states_at] in *; [done|].
  apply Forall_cons in Ht as [Hst Ht].
  assert (Hl := length_write_state st off bs). split.
  - eapply state_at_agree; [apply agree_sym, write_list_agree; [done|left; lia]|].
    apply write_state_at; try done; [lia|]. intros i Hi. apply Hz. lia.
  - apply IH; [done|by apply bytes_ok_write_state|unfold size in *; lia|lia|].
    intros i Hi.
    rewrite (proj2 (write_state_agree st off bs (off + record_size st) (off + record_size st + sum_list_with record_size states)
      Hst ltac:(lia)) i) by lia. apply Hz. lia.
Qed.

(** ** Parsing records *)

Lemma size_pos (l : list Z) : l <> [] -> 0 < size l.
Proof. unfold size. destruct l; [done|]. simpl. lia. Qed.

Lemma parse_state_at bs off st total :
  state_at bs off st -> state_typed st -> size bs <= u64_max -> is_u64 total ->
  total + size (sv_payload st) <= u64_max ->
  parse_state bs off total = Some ((off + record_size st)%nat, total + size (sv_payload st)).
Proof.
  intros [Hf Hn Hs Hr Hz Hc Hp] [_ Hs' Hp' _] Hmax Ht Hsum.
  pose proof (size_pos _ Hp') as Hpos. unfold record_size in *. unfold parse_state.
  rewrite (proj2 (field_fits_spec _ _ _)) by (unfold checkpoint_record_header_size; lia). simpl.
  rewrite Hn, Hs. simpl. rewrite Hr. simpl. rewrite Hz. simpl. rewrite Hc. simpl.
  assert (Hsz : size (sv_payload st) <= size bs) by (unfold size; lia).
  rewrite (proj2 (Z.eqb_neq (sv_schema_version st) 0)), (proj2 (Z.eqb_neq (size _) 0)) by lia.
  rewrite (proj2 (Z.ltb_ge u64_max _)) by lia. simpl.
  unfold checkpoint_record_header_size. rewrite (proj2 (Z.ltb_ge _ _)) by (unfold size; lia).
  rewrite checked_artifact_add_fits by (done || unfold is_u64; lia). simpl.
  replace (Z.to_nat (size (sv_payload st))) with (length (sv_payload st)) by (unfold size; lia).
  rewrite Hp, Z.eqb_refl. simpl. do 2 f_equal. lia.
Qed.

Lemma parse_states_at states : forall bs off total,
  states_at bs off states -> Forall state_typed states -> size bs <= u64_max -> 0 <= total ->
  total + Z.of_nat (payload_size states) <= u64_max ->
  parse_states bs (length states) off total =
    Some ((off + states_size states)%nat, total + Z.of_nat (payload_size states)).
Proof.
  unfold states_size, payload_size.
  induction states as [|st states IH]; intros bs off total Ha Ht Hmax H0 Hsum.
  { simpl. do 2 f_equal; lia. }
  destruct Ha as [Hat Ha]. apply Forall_cons in Ht as [Hst Ht].
  cbn [length parse_states sum_list_with] in *.
  rewrite (parse_state_at bs off st) by (done || unfold is_u64, size; lia).
  rewrite IH by (done || unfold size; lia). unfold size. do 2 f_equal; lia.
Qed.

Lemma next_record_at bs md off k st :
  state_at bs off st -> state_typed st -> size bs <= u64_max ->
  0 <= k < cm_state_count md -> cm_state_count md <= u32_max ->
  next_checkpoint_record bs md (mkCursor off k) =
    (true, mkCursor (off + record_size st) (k + 1), st).
Proof.
  intros [Hf Hn Hs Hr Hz Hc Hp] _ Hmax Hk Hcount. unfold record_size in *. unfold next_checkpoint_record. simpl.
  rewrite (proj2 (Z.leb_gt _ _)) by lia.
  rewrite (proj2 (field_fits_spec _ _ _)) by (unfold checkpoint_record_header_size; lia). simpl.
  rewrite Hn, Hs, Hr, Hz, Hc. simpl.
  assert (Hsz : size (sv_payload st) <= size bs) by (unfold size; lia).
  rewrite (proj2 (Z.ltb_ge u64_max _)) by lia.
  unfold checkpoint_record_header_size. rewrite (proj2 (Z.ltb_ge _ _)) by (unfold size; lia).
  replace (Z.to_nat (size (sv_payload st))) with (length (sv_payload st)) by (unfold size; lia).
  rewrite Hp, Z.eqb_refl. unfold u32. rewrite Z.mod_small by (unfold u32_max in *; lia).
  replace (off + 88 + length (sv_payload st))%nat with (off + (88 + length (sv_payload st)))%nat by lia.
  by destruct st.
Qed.

(** Reading with the cursor until the first [false]. *)
Fixpoint read_states (fuel : nat) (artifact : list Z) (md : CheckpointMetadata)
    (cursor : RecordCursor) : list StateView * RecordCursor :=
  match fuel with
  | O => ([], cursor)
  | S fuel' =>
      match next_checkpoint_record artifact md cursor with
      | (true, cursor', st) =>
          let '(rest, final) := read_states fuel' artifact md cursor' in (st :: rest, final)
      | (false, cursor', _) => ([], cursor')
      end
  end.

Lemma read_states_at states : forall bs md off k fuel,
  states_at bs off states -> Forall state_typed states -> size bs <= u64_max ->
  0 <= k -> k + Z.of_nat (length states) = cm_state_count md -> cm_state_count md <= u32_max ->
  (length states < fuel)%nat ->
  read_states fuel bs md (mkCursor off k) =
    (states, mkCursor (off + states_size states) (cm_state_count md)).
Proof.
  unfold states_size.
  induction states as [|st states IH]; intros bs md off k [|fuel] Ha Ht Hmax Hk Hc Hu Hfuel;
    try (simpl in Hfuel; lia); simpl in Hfuel.
  - assert (E : cm_state_count md = k) by (simpl in Hc; lia). simpl.
    unfold next_checkpoint_record. simpl. by rewrite E, Z.leb_refl, Nat.add_0_r.
  - destruct Ha as [Hat Ha]. apply Forall_cons in Ht as [Hst Ht].
    cbn [read_states sum_list_with length] in *.
    rewrite (next_record_at bs md off k st) by (done || lia).
    rewrite IH by (done || lia). do 2 f_equal. lia.
Qed.

(** ** Headers *)

(** Field writes are only read through their lemmas from here on. *)
#[local] Opaque put32 put64 load_le store_le list_inserts.

(** Field widths of checkpoint metadata given to the encoder, and identifier
    arrays that are NUL padded. *)
Record metadata_typed (md : CheckpointMetadata) : Prop := {
  mt_major : is_u32 (cm_runtime_version_major md);
  mt_minor : is_u32 (cm_runtime_version_minor md);
  mt_patch : is_u32 (cm_runtime_version_patch md);
  mt_tier : 0 <= cm_determinism_tier md;
  mt_config : is_u64 (cm_config_id md);
  mt_replay : is_u64 (cm_replay_id md);
  mt_graph : is_u64 (cm_graph_id md);
  mt_schema : is_u64 (cm_state_schema_id md);
  mt_frame : is_u64 (cm_checkpoint_frame_index md);
  mt_build : exists name, valid_identifier name = true /\ cm_build_id md = padded name;
  mt_workload : exists name, valid_identifier name = true /\ cm_workload_id md = padded name
}.

Section Header.
Context (md : CheckpointMetadata) (n : nat) (payload required : Z) (N : nat).
Context (Hmd : metadata_typed md) (Htier : valid_tier (cm_determinism_tier md) = true)
        (Hn : Z.of_nat n <= u32_max)
        (Hpayload : is_u64 payload) (Hrequired : is_u64 required) (HN : (256 <= N)%nat).

Abbreviation hd := (write_checkpoint_header md n payload required (replicate N 0)).

Lemma identifiers_length :
  length (cm_build_id md) = 64%nat /\ length (cm_workload_id md) = 64%nat.
Proof.
  destruct (mt_build md Hmd) as (b & Hb & ->). destruct (mt_workload md Hmd) as (w & Hw & ->).
  by rewrite !length_padded.
Qed.

Lemma length_header : length hd = N.
Proof.
  unfold write_checkpoint_header, write_identifier_array. autorewrite with codec.
  apply length_replicate.
Qed.

Lemma bytes_ok_header : bytes_ok hd.
Proof.
  destruct (mt_build md Hmd) as (b & Hb & Eb). destruct (mt_workload md Hmd) as (w & Hw & Ew).
  unfold write_checkpoint_header, write_identifier_array. rewrite Eb, Ew.
  assert (Hmagic : bytes_ok kCheckpointMagic) by (repeat constructor; vm_compute; discriminate || done).
  auto 40 using padded_bytes_ok with codec.
Qed.

Lemma header_zero lo hi : (256 <= lo)%nat -> agree hd (replicate N 0) lo hi.
Proof using md n payload required N Hmd.
  clear -Hmd.
  intros Hlo. destruct identifiers_length as [Hb Hw].
  unfold write_checkpoint_header, write_identifier_array. cbv zeta.
  repeat (eapply agree_trans;
    [first [apply agree_put64; right; lia | apply agree_put32; right; lia
           | apply agree_write; right; simpl; lia]|]). apply agree_refl.
Qed.

(** The header fields of a buffer. *)
Record header_at (bs : list Z) : Prop := {
  ha_magic : take 8 bs = kCheckpointMagic;
  ha_schema : load_u32_le bs 8 = Some checkpoint_schema_version;
  ha_size : load_u32_le bs 12 = Some (Z.of_nat checkpoint_header_size);
  ha_major : load_u32_le bs 16 = Some (cm_runtime_version_major md);
  ha_minor : load_u32_le bs 20 = Some (cm_runtime_version_minor md);
  ha_patch : load_u32_le bs 24 = Some (cm_runtime_version_patch md);
  ha_tier : load_u32_le bs 28 = Some (cm_determinism_tier md);
  ha_flags : load_u32_le bs 32 = Some 0;
  ha_count : load_u32_le bs 36 = Some (Z.of_nat n);
  ha_record : load_u32_le bs 40 = Some (Z.of_nat checkpoint_record_header_size);
  ha_reserved : load_u32_le bs 44 = Some 0;
  ha_config : load_u64_le bs 48 = Some (cm_config_id md);
  ha_replay : load_u64_le bs 56 = Some (cm_replay_id md);
  ha_graph : load_u64_le bs 64 = Some (cm_graph_id md);
  ha_state_schema : load_u64_le bs 72 = Some (cm_state_schema_id md);
  ha_frame : load_u64_le bs 80 = Some (cm_checkpoint_frame_index md);
  ha_payload : load_u64_le bs 88 = Some payload;
  ha_total : load_u64_le bs 96 = Some required;
  ha_build : fixed_identifier bs 120 = Some (cm_build_id md);
  ha_workload : fixed_identifier bs 184 = Some (cm_workload_id md);
  ha_zero : subspan bs 248 8 = replicate 8 0
}.

Lemma header_at_agree bs bs' :
  agree bs bs' 0 104 -> agree bs bs' 120 256 -> header_at bs -> header_at bs'.
Proof using md n payload required.
  clear -md n payload required.
  intros H1 H2 H.
  assert (L1 : forall w o, (o + w <= 104)%nat -> load_le w bs o = load_le w bs' o)
    by (intros w o Ho; apply load_agree; eapply agree_sub; [apply H1|lia|lia]).
  destruct (fixed_agree bs bs' 120) as (_ & E1 & _);
    [eapply agree_sub; [apply H2|lia|unfold replay_identifier_capacity; lia]|].
  destruct (fixed_agree bs bs' 184) as (_ & E2 & _);
    [eapply agree_sub; [apply H2|lia|unfold replay_identifier_capacity; lia]|].
  constructor; unfold load_u32_le, load_u64_le; try (rewrite <- L1 by lia; apply H).
  - rewrite <- (ha_magic bs H). symmetry. apply (subspan_agree bs bs' 0 8).
    eapply agree_sub; [apply H1|lia|lia].
  - rewrite <- E1. apply H.
  - rewrite <- E2. apply H.
  - rewrite <- (ha_zero bs H). symmetry. apply subspan_agree. eapply agree_sub; [apply H2|lia|lia].
Qed.

Ltac header_side := auto 40 with codec; autorewrite with codec; rewrite ?length_replicate; lia.
Ltac read_field :=
  skip_writes; first [apply load_put32 | apply load_put64];
  [auto 40 with codec | autorewrite with codec; rewrite ?length_replicate; lia
  | try apply Hmd; try done; unfold is_u32, u32_max in *; lia].
Ltac skip_agree :=
  repeat (eapply agree_trans;
    [first [apply agree_put64; simpl; lia | apply agree_put32; simpl; lia
           | apply agree_write; simpl; lia]|]); apply agree_refl.

Lemma header_written : header_at hd.
Proof.
  destruct identifiers_length as [Lb Lw].
  assert (Hmagic : bytes_ok kCheckpointMagic) by (repeat constructor; vm_compute; discriminate || done).
  assert (Hz := bytes_ok_replicate N).
  assert (Ht : cm_determinism_tier md <= 3) by (by apply Z.leb_le).
  pose proof (mt_tier md Hmd) as Ht0.
  unfold write_checkpoint_header, write_identifier_array. cbv zeta.
  constructor.
  - transitivity (subspan (list_inserts 0 kCheckpointMagic (replicate N 0)) 0 8).
    + apply (subspan_agree _ _ 0 8). skip_agree.
    + apply subspan_write_at; [rewrite length_replicate; lia|done].
  - read_field.
  - read_field.
  - read_field.
  - read_field.
  - read_field.
  - read_field.
  - skip_writes. apply load_zero; [rewrite length_replicate; lia|].
    intros i Hi. apply lookup_replicate_2. lia.
  - read_field.
  - read_field.
  - skip_writes. apply load_zero; [rewrite length_replicate; lia|].
    intros i Hi. apply lookup_replicate_2. lia.
  - read_field.
  - read_field.
  - read_field.
  - read_field.
  - read_field.
  - read_field.
  - read_field.
  - destruct (mt_build md Hmd) as (b & Hb & Eb). rewrite Eb in *. apply fixed_identifier_padded; [done| |].
    + autorewrite with codec. rewrite length_replicate. unfold replay_identifier_capacity. lia.
    + rewrite subspan_write_other by (unfold replay_identifier_capacity; lia).
      apply subspan_write_at; [|done]. autorewrite with codec. rewrite length_replicate.
      unfold replay_identifier_capacity. lia.
  - destruct (mt_workload md Hmd) as (b & Hb & Eb). rewrite Eb in *. apply fixed_identifier_padded; [done| |].
    + autorewrite with codec. rewrite length_replicate. unfold replay_identifier_capacity. lia.
    + apply subspan_write_at; [|done]. autorewrite with codec. rewrite length_replicate.
      unfold replay_identifier_capacity. lia.
  - transitivity (subspan (replicate N 0) 248 8).
    + apply subspan_agree. skip_agree.
    + unfold subspan. rewrite drop_replicate, take_replicate. f_equal. lia.
Qed.

Definition sealed_metadata (hash checksum : Z) : CheckpointMetadata :=
  mkCheckpointMetadata checkpoint_schema_version (cm_runtime_version_major md)
    (cm_runtime_version_minor md) (cm_runtime_version_patch md) (cm_determinism_tier md)
    (cm_config_id md) (cm_replay_id md) (cm_graph_id md) (cm_state_schema_id md)
    (cm_checkpoint_frame_index md) payload required hash checksum (Z.of_nat n)
    (cm_build_id md) (cm_workload_id md).

Lemma parse_header_at bs hash checksum max_bytes max_states :
  header_at bs -> load_u64_le bs 104 = Some hash -> load_u64_le bs 112 = Some checksum ->
  required = size bs -> (256 <= length bs)%nat -> Z.of_nat n <= max_states -> payload <= max_bytes ->
  parse_checkpoint_header bs max_bytes max_states = Some (sealed_metadata hash checksum).
Proof using md n payload required Htier.
  clear -Htier.
  intros H Hh Hc Hr Hl Hmax Hpay. destruct H. unfold parse_checkpoint_header.
  unfold kCheckpointChecksumOffset.
  repeat match goal with E : _ = Some _ |- _ => rewrite E; simpl; clear E end.
  assert (Hb : bytes_zero bs 248 8 = true).
  { unfold bytes_zero. rewrite ha_zero0, andb_true_r. apply field_fits_spec. lia. }
  rewrite Hb, Htier, Hr, Z.eqb_refl. simpl.
  rewrite (proj2 (Z.ltb_ge max_states _)), (proj2 (Z.ltb_ge max_bytes _)) by done. simpl.
  unfold sealed_metadata. by rewrite Hr.
Qed.
End Header.

(** ** Encoding *)

(** The provider gives these states in both passes. *)
Definition provides (provider : StateProvider) (states : list StateView) : Prop :=
  forall pass i st, states !! i = Some st -> provider pass i = Some st.

Lemma sum_states_list provider states : forall index acc,
  Forall state_typed states ->
  (forall i st, states !! i = Some st -> provider (index + i)%nat = Some st) ->
  0 <= acc -> acc + Z.of_nat (payload_size states) <= u64_max ->
  sum_states provider (length states) index acc = Some (acc + Z.of_nat (payload_size states)).
Proof.
  unfold payload_size. induction states as [|st states IH]; intros index acc Ht Hp Ha Hm; cbn [length sum_states sum_list_with] in *.
  { f_equal. lia. }
  apply Forall_cons in Ht as [[Hn Hs Hpl _] Ht].
  pose proof (Hp 0%nat st eq_refl) as H0. rewrite Nat.add_0_r in H0. rewrite H0, Hn.
  rewrite (proj2 (Z.eqb_neq _ _)) by lia. destruct (Nat.eqb_spec (length (sv_payload st)) 0) as [E|E].
  { by apply nil_length_inv in E. }
  simpl. rewrite checked_artifact_add_fits by (unfold is_u64, size; lia).
  rewrite IH; [f_equal; unfold size; lia|done| |unfold size; lia|unfold size; lia].
  intros i x Hx. rewrite Nat.add_succ_comm. by apply (Hp (S i)).
Qed.

Definition checkpoint_size (states : list StateView) : Z := 256 + Z.of_nat (states_size states).

Section Encode.
Context (md : CheckpointMetadata) (states : list StateView).
Context (Hmd : metadata_typed md) (Htier : valid_tier (cm_determinism_tier md) = true)
        (Hst : Forall state_typed states)
        (Hcount : Z.of_nat (length states) <= artifact_absolute_max_records)
        (Hsize : checkpoint_size states <= artifact_absolute_max_bytes).

Abbreviation n := (length states).
Abbreviation total := (checkpoint_size states).
Abbreviation payload := (Z.of_nat (payload_size states)).

Definition written : list Z :=
  write_list states 256
    (write_checkpoint_header md n payload total (replicate (Z.to_nat total) 0)).
Definition hashed : list Z := put64 104 (artifact_checksum (drop 256 written)) written.
Definition artifact : list Z := put64 112 (checksum_excluding hashed 112 8) hashed.

Lemma total_bounds :
  256 <= total <= u64_max /\ payload <= total /\ is_u64 payload /\ Z.of_nat n <= u32_max.
Proof.
  unfold checkpoint_size in *. rewrite states_size_payload in *.
  change artifact_absolute_max_bytes with 1073741824 in *.
  change artifact_absolute_max_records with 1048576 in *. unfold is_u64, u64_max, u32_max. lia.
Qed.

Lemma header_ok :
  header_at md n payload total
    (write_checkpoint_header md n payload total (replicate (Z.to_nat total) 0)).
Proof. destruct total_bounds as (H1 & H2 & H3 & H4). apply header_written; auto; unfold is_u64; lia. Qed.

Lemma length_written : length written = Z.to_nat total.
Proof.
  unfold written. rewrite (proj1 (write_list_agree states 256 _ 0 0 Hst ltac:(lia))).
  apply length_header.
Qed.

Lemma bytes_ok_written : bytes_ok written.
Proof. apply bytes_ok_write_list; [done|]. by apply bytes_ok_header. Qed.

Lemma bytes_ok_hashed : bytes_ok hashed.
Proof. apply bytes_ok_put64, bytes_ok_written. Qed.

Lemma length_artifact : length artifact = Z.to_nat total.
Proof. unfold artifact, hashed. rewrite !length_put64. apply length_written. Qed.

Lemma size_artifact : size artifact = total.
Proof. destruct total_bounds. unfold size. rewrite length_artifact. lia. Qed.

Lemma bytes_ok_artifact : bytes_ok artifact.
Proof. apply bytes_ok_put64, bytes_ok_hashed. Qed.

Lemma artifact_agree lo hi : (hi <= 104)%nat \/ (120 <= lo)%nat -> agree artifact written lo hi.
Proof.
  intros H. eapply agree_trans; [apply agree_put64; lia|]. apply agree_put64. lia.
Qed.

Lemma artifact_header : header_at md n payload total artifact.
Proof.
  eapply header_at_agree; [| |apply header_ok].
  - eapply agree_sym, agree_trans; [apply artifact_agree; lia|apply write_list_agree; [done|lia]].
  - eapply agree_sym, agree_trans; [apply artifact_agree; lia|apply write_list_agree; [done|lia]].
Qed.

Lemma artifact_states : states_at artifact 256 states.
Proof.
  destruct total_bounds as (H1 & _).
  assert (Hl : length (write_checkpoint_header md n payload total (replicate (Z.to_nat total) 0)) = Z.to_nat total)
    by apply length_header.
  eapply states_at_agree; [apply agree_sym, artifact_agree; right; lia|].
  unfold written. apply write_list_at.
  - done.
  - by apply bytes_ok_header.
  - unfold size. rewrite Hl. lia.
  - rewrite Hl. unfold checkpoint_size. lia.
  - intros i Hi.
    rewrite (proj2 (header_zero md n payload total (Z.to_nat total) Hmd 256 (256 + states_size states) ltac:(lia)) i Hi).
    apply lookup_replicate_2. unfold checkpoint_size. lia.
Qed.

Lemma artifact_body : drop 256 artifact = drop 256 written.
Proof.
  pose proof (artifact_agree 256 (length written) ltac:(lia)) as [Hl H].
  apply list_eq. intros i. rewrite !lookup_drop.
  destruct (decide (256 + i < length written)%nat); [apply H; lia|].
  rewrite !lookup_ge_None_2 by lia. done.
Qed.

Lemma artifact_hash : load_u64_le artifact 104 = Some (artifact_checksum (drop 256 artifact)).
Proof.
  destruct total_bounds as (H1 & _). rewrite artifact_body. unfold artifact, hashed. skip_writes. apply load_put64.
  - apply bytes_ok_written.
  - rewrite length_written. lia.
  - apply artifact_checksum_u64.
Qed.

Lemma artifact_sum_excluded : checksum_excluding artifact 112 8 = checksum_excluding hashed 112 8.
Proof. apply checksum_excluding_agree; apply agree_put64; lia. Qed.

Lemma artifact_sum : load_u64_le artifact 112 = Some (checksum_excluding artifact 112 8).
Proof.
  destruct total_bounds as (H1 & _). rewrite artifact_sum_excluded. unfold artifact. apply load_put64.
  - apply bytes_ok_hashed.
  - unfold hashed. rewrite length_put64, length_written. lia.
  - apply checksum_excluding_u64.
Qed.

Definition artifact_metadata : CheckpointMetadata :=
  sealed_metadata md n payload total (artifact_checksum (drop 256 artifact))
    (checksum_excluding artifact 112 8).

Lemma parse_artifact max_bytes max_states :
  total <= max_bytes <= artifact_absolute_max_bytes ->
  Z.of_nat n <= max_states <= artifact_absolute_max_records ->
  parse_checkpoint_artifact artifact max_bytes max_states = (ok, artifact_metadata).
Proof.
  intros Hmax Hrec. destruct total_bounds as (H1 & H2 & H3 & H4).
  pose proof artifact_header as Hh. unfold parse_checkpoint_artifact.
  rewrite (proj2 (Z.ltb_ge artifact_absolute_max_bytes max_bytes)) by lia.
  rewrite (proj2 (Z.ltb_ge artifact_absolute_max_records max_states)) by lia.
  rewrite (proj2 (Nat.ltb_ge _ _)) by (rewrite length_artifact; unfold checkpoint_header_size; lia).
  rewrite (proj2 (Z.ltb_ge max_bytes _)) by (rewrite size_artifact; lia).
  assert (Hm : magic_matches artifact kCheckpointMagic = true).
  { unfold magic_matches. rewrite andb_true_iff. split.
    - apply Nat.leb_le. rewrite length_artifact. simpl. lia.
    - apply bool_decide_eq_true. apply Hh. }
  rewrite Hm. simpl.
  rewrite (parse_header_at md n payload total Htier artifact _ _ max_bytes max_states Hh artifact_hash
    artifact_sum); [|by rewrite size_artifact|rewrite length_artifact; lia|lia|lia].
  unfold parse_checkpoint_body. fold artifact_metadata.
  cbn [cm_artifact_checksum cm_state_count artifact_metadata sealed_metadata
       cm_state_payload_bytes cm_state_hash].
  rewrite Z.eqb_refl, Nat2Z.id. simpl.
  rewrite parse_states_at; [|apply artifact_states|done|rewrite size_artifact; lia|lia|lia].
  rewrite length_artifact, Z.add_0_l, !Z.eqb_refl.
  rewrite (proj2 (Nat.eqb_eq _ _)); [done|]. unfold checkpoint_size, checkpoint_header_size. lia.
Qed.

Lemma read_artifact :
  read_states (S n) artifact artifact_metadata CheckpointRecordCursor_default =
    (states, mkCursor (length artifact) (Z.of_nat n)).
Proof.
  destruct total_bounds as (H1 & H2 & H3 & H4). unfold CheckpointRecordCursor_default.
  rewrite (read_states_at states); simpl; try done; try lia.
  - rewrite length_artifact. unfold checkpoint_size, checkpoint_header_size. do 2 f_equal. lia.
  - apply artifact_states.
  - rewrite size_artifact. lia.
Qed.

Lemma encode_artifact provider max_bytes output :
  provides provider states -> total <= max_bytes <= artifact_absolute_max_bytes ->
  total <= size output ->
  encode_checkpoint_artifact md n (Some provider) max_bytes output =
    (ok, mkWriteResult total total (checksum_excluding artifact 112 8),
     artifact ++ drop (Z.to_nat total) output).
Proof.
  intros Hp Hmax Hout. destruct total_bounds as (H1 & H2 & H3 & H4).
  unfold encode_checkpoint_artifact.
  rewrite (proj2 (Z.ltb_ge artifact_absolute_max_records _)) by lia.
  rewrite (proj2 (Z.ltb_ge u32_max _)) by lia.
  rewrite (proj2 (Z.ltb_ge artifact_absolute_max_bytes _)) by lia.
  rewrite (proj2 (Z.ltb_ge max_bytes (Z.of_nat checkpoint_header_size))) by (unfold checkpoint_header_size; lia).
  destruct (mt_build md Hmd) as (b & Hb & Eb). destruct (mt_workload md Hmd) as (w & Hw & Ew).
  rewrite Htier, Eb, Ew, !identifier_view_padded, Hb, Hw by done. simpl.
  rewrite sum_states_list; [|done|intros i st Hi; by apply Hp|lia|lia]. rewrite Z.add_0_l.
  rewrite artifact_required_eq; [|done|unfold checkpoint_record_header_size; lia|unfold checkpoint_header_size; lia|done].
  replace (Z.of_nat checkpoint_header_size + Z.of_nat n * Z.of_nat checkpoint_record_header_size + payload) with total
    by (unfold checkpoint_size, checkpoint_header_size, checkpoint_record_header_size; rewrite states_size_payload; lia).
  rewrite (proj2 (Z.ltb_ge u64_max _)), (proj2 (Z.ltb_ge max_bytes _)), (proj2 (Z.ltb_ge (size output) _)) by lia. simpl.
  rewrite write_states_list by (intros i st Hi; by apply Hp).
  change (write_list states checkpoint_header_size _) with written.
  rewrite artifact_sum_excluded. done.
Qed.
End Encode.

(** ** What the parser accepts *)

Lemma parse_state_inv bs off total off' total' :
  bytes_ok bs -> is_u64 total -> parse_state bs off total = Some (off', total') ->
  exists st, state_at bs off st /\ state_typed st /\ off' = (off + record_size st)%nat /\
    total' = total + size (sv_payload st) /\ total' <= u64_max.
Proof.
  intros Hb Ht. unfold parse_state, checkpoint_record_header_size.
  destruct (field_fits bs off 88) eqn:Ef; simpl; [|done]. apply field_fits_spec in Ef.
  intros (name & Hn & H)%bind_Some. apply bind_Some in H as (schema & Hs & H).
  apply bind_Some in H as (reserved & Hr & H). apply bind_Some in H as (len & Hz & H).
  apply bind_Some in H as (sum & Hc & H).
  destruct (Z.eqb_spec schema 0) as [|Hs0]; [done|].
  destruct (Z.eqb_spec reserved 0) as [->|]; [|done].
  destruct (Z.eqb_spec len 0) as [|Hl0]; [done|].
  destruct (Z.ltb_spec u64_max len) as [|Hlm]; [done|]. simpl in H.
  destruct (Z.ltb_spec (size bs - Z.of_nat (off + 88)) len) as [|Hfit]; [done|].
  apply bind_Some in H as (t & Hadd & H).
  pose proof (load_u64_range _ _ _ Hb Hz) as Hlen. pose proof (load_u32_range _ _ _ Hb Hs) as Hsr.
  apply checked_artifact_add_Some in Hadd as [Hle ->]; [|done|done].
  destruct (Z.eqb_spec (artifact_checksum (subspan bs (off + 88) (Z.to_nat len))) sum) as [Es|]; [|done].
  injection H as <- <-. unfold size, is_u64, is_u32 in *.
  assert (Hpl : length (subspan bs (off + 88) (Z.to_nat len)) = Z.to_nat len)
    by (apply length_subspan; lia).
  exists (mkStateView name schema (subspan bs (off + 88) (Z.to_nat len))).
  unfold record_size. simpl. rewrite Hpl. split_and!; [| |lia|lia|lia].
  - constructor; unfold record_size; simpl; unfold size; rewrite ?Hpl; try done; [lia| |].
    + rewrite Hz. f_equal. lia.
    + by rewrite Es.
  - constructor; simpl; [by eapply fixed_name_Some|lia| |by apply Forall_take, Forall_drop].
    intros E. rewrite E in Hpl. simpl in Hpl. lia.
Qed.

Lemma parse_states_inv count : forall bs off total off' total',
  bytes_ok bs -> is_u64 total -> parse_states bs count off total = Some (off', total') ->
  exists states, length states = count /\ states_at bs off states /\ Forall state_typed states /\
    off' = (off + states_size states)%nat /\ total' = total + Z.of_nat (payload_size states).
Proof.
  induction count as [|count IH]; intros bs off total off' total' Hb Ht; simpl.
  { intros [= <- <-]. exists []. unfold states_size, payload_size. simpl.
    split_and!; [done|done|constructor|lia|lia]. }
  destruct (parse_state bs off total) as [[o1 t1]|] eqn:E; [|done].
  apply parse_state_inv in E as (st & Hat & Hst & -> & -> & Hle); [|done|done].
  intros H. apply IH in H as (states & Hl & Ha & Hts & -> & ->); [|done|unfold is_u64, size in *; lia].
  exists (st :: states). unfold states_size, payload_size, size.
  cbn [sum_list_with length states_at]. split_and!; try done; [by rewrite Hl|by constructor|lia|lia].
Qed.

Lemma parse_header_inv bs max_bytes max_states md :
  bytes_ok bs -> parse_checkpoint_header bs max_bytes max_states = Some md ->
  load_u64_le bs 112 = Some (cm_artifact_checksum md) /\ cm_total_bytes md = size bs /\
  is_u32 (cm_state_count md) /\ cm_state_count md <= max_states /\
  cm_state_payload_bytes md <= max_bytes.
Proof.
  intros Hb. unfold parse_checkpoint_header, kCheckpointChecksumOffset. intros H.
  repeat (apply bind_Some in H as (? & ? & H)).
  match type of H with (if ?c then _ else _) = _ => destruct c eqn:Hc; [done|] end.
  injection H as <-. simpl. rewrite !orb_false_iff, !negb_false_iff, !Z.ltb_ge, !Z.eqb_eq in Hc.
  destruct Hc as [[[[[[[[[_ _] _] _] _] _] _] Hmax] Htot] Hpay].
  split_and!; try done. by eapply load_u32_range.
Qed.

Lemma parse_ok_inv bs max_bytes max_states md :
  parse_checkpoint_artifact bs max_bytes max_states = (ok, md) ->
  (256 <= length bs)%nat /\ size bs <= max_bytes <= artifact_absolute_max_bytes /\
  parse_checkpoint_header bs max_bytes max_states = Some md /\ parse_checkpoint_body bs md = true.
Proof.
  unfold parse_checkpoint_artifact, checkpoint_header_size.
  match goal with |- (if ?c then _ else _) = _ -> _ => destruct c eqn:Hc; [done|] end.
  rewrite !orb_false_iff, !Z.ltb_ge, Nat.ltb_ge in Hc. destruct Hc as [[[[Hm _] Hl] Hs] _].
  destruct (parse_checkpoint_header bs max_bytes max_states) as [m|]; [|done].
  destruct (parse_checkpoint_body bs m) eqn:Eb; [|done]. intros [= <-]. done.
Qed.

Lemma parse_status bs max_bytes max_states :
  (parse_checkpoint_artifact bs max_bytes max_states).1 = ok \/
  parse_checkpoint_artifact bs max_bytes max_states = (invalid_artifact, CheckpointMetadata_default).
Proof.
  unfold parse_checkpoint_artifact. destruct (_ || _); [by right|].
  destruct (parse_checkpoint_header _ _ _); [|by right]. destruct (parse_checkpoint_body _ _); auto.
Qed.

(** ** Claims *)


(** Whatever bytes the parser accepts, the record cursor can walk: the
    artifact holds exactly the announced number of records, each with a valid
    name, a nonzero schema, a nonempty payload inside the artifact and a
    matching checksum; the payload sizes add up to the announced total, and
    the walk ends at the last byte. *)
Theorem checkpoint_parse_walk bs max_bytes max_states md :
  bytes_ok bs -> parse_checkpoint_artifact bs max_bytes max_states = (ok, md) ->
  cm_total_bytes md = size bs /\ size bs <= max_bytes /\ cm_state_count md <= max_states /\
  exists states,
    Z.of_nat (length states) = cm_state_count md /\ Forall state_typed states /\
    Z.of_nat (payload_size states) = cm_state_payload_bytes md /\
    read_states (S (length states)) bs md CheckpointRecordCursor_default =
      (states, mkCursor (length bs) (cm_state_count md)).
Proof.
  intros Hb Hparse. apply parse_ok_inv in Hparse as (Hl & Hs & Hh & Hbody).
  apply parse_header_inv in Hh as (_ & Ht & Hcr & Hc & _); [|done].
  change artifact_absolute_max_bytes with 1073741824 in Hs.
  split_and!; try done; [lia|].
  unfold parse_checkpoint_body in Hbody. apply andb_true_iff in Hbody as [_ Hbody].
  destruct (parse_states bs _ _ _) as [[off total]|] eqn:E; [|done].
  apply parse_states_inv in E as (states & Hn & Ha & Hst & -> & ->); [|done|unfold is_u64, u64_max; lia].
  rewrite !andb_true_iff, Nat.eqb_eq, !Z.eqb_eq in Hbody. destruct Hbody as [[Ho Hp] _].
  unfold is_u32 in Hcr. exists states. split_and!; [lia|done|lia|].
  unfold CheckpointRecordCursor_default. rewrite (read_states_at states); try done; try lia.
  - by rewrite <- Ho.
  - unfold u64_max. lia.
Qed.

(** A change of any single byte of an accepted checkpoint, in the header, the
    checksum or the records, makes the parser reject it. *)
Theorem checkpoint_single_byte_corruption bs max_bytes max_states md i x y :
  bytes_ok bs -> parse_checkpoint_artifact bs max_bytes max_states = (ok, md) ->
  bs !! i = Some x -> is_u8 y -> x <> y ->
  parse_checkpoint_artifact (<[i := y]> bs) max_bytes max_states =
    (invalid_artifact, CheckpointMetadata_default).
Proof.
  intros Hb Hp Hi Hy Hne.
  destruct (parse_status (<[i:=y]> bs) max_bytes max_states) as [Hs|]; [|done]. exfalso.
  destruct (parse_checkpoint_artifact (<[i:=y]> bs) max_bytes max_states) as [s md'] eqn:Hp'.
  simpl in Hs. subst s.
  assert (Hb' : bytes_ok (<[i:=y]> bs)) by (by apply Forall_insert).
  apply parse_ok_inv in Hp as (Hl & _ & Hh & Hbody).
  apply parse_ok_inv in Hp' as (_ & _ & Hh' & Hbody').
  apply parse_header_inv in Hh as (Hc & _); [|done].
  apply parse_header_inv in Hh' as (Hc' & _); [|done].
  unfold parse_checkpoint_body, kCheckpointChecksumOffset in *.
  apply andb_true_iff in Hbody as [E%Z.eqb_eq _]. apply andb_true_iff in Hbody' as [E'%Z.eqb_eq _].
  destruct (decide (112 <= i < 112 + 8)%nat) as [Hin|Hout].
  - apply (load_u64_change bs 112 i x y Hb Hy Hi Hne Hin ltac:(lia)). rewrite Hc, Hc', <- E, <- E'.
    f_equal. apply checksum_excluding_agree; apply agree_insert; lia.
  - apply (checksum_excluding_change bs 112 8 i x y Hb Hy Hi Hne Hout). rewrite E, E'.
    assert (Hla : load_u64_le (<[i:=y]> bs) 112 = load_u64_le bs 112)
      by (apply load_agree, agree_insert; done). congruence.
Qed.

Lemma sum_states_write provider : forall count index off acc total bs,
  sum_states provider count index acc = Some total ->
  exists out, write_states provider count index off bs = inr out.
Proof.
  induction count as [|count IH]; intros index off acc total bs; simpl; [by exists bs|].
  destruct (provider index) as [st|]; [|done]. destruct (_ || _); [done|].
  destruct (checked_artifact_add _ _); [|done]. apply IH.
Qed.

(** A refused encoding has no effect: with a provider that answers both
    passes alike, any status other than [ok] is [invalid_argument] or
    [capacity_exceeded], leaves the output buffer untouched and reports no
    written bytes; a capacity refusal reports the size that was needed, which
    exceeds the limit or the buffer, or 0 when that size is not representable. *)
Theorem checkpoint_encode_refuses md count (provider : StateProvider) max_bytes output :
  (forall i, provider 1%nat i = provider 0%nat i) ->
  let '(status, result, out) :=
    encode_checkpoint_artifact md count (Some provider) max_bytes output in
  status <> ok ->
  out = output /\ bytes_written result = 0 /\
  (status = invalid_argument \/
   (status = capacity_exceeded /\
    (required_bytes result = 0 \/ max_bytes < required_bytes result \/
     size output < required_bytes result))).
Proof.
  intros Hsame. unfold encode_checkpoint_artifact.
  destruct (_ || _); [by auto|].
  destruct (sum_states _ _ _ _) as [payload|] eqn:Es; [|by auto].
  destruct (artifact_required _ _ _ _) as [required|]; [|by auto 10].
  destruct (Z.ltb_spec max_bytes required); [simpl; auto 10|].
  destruct (Z.ltb_spec (size output) required); [simpl; auto 10|]. simpl.
  assert (Hw : forall c i off bs, write_states (provider 1%nat) c i off bs =
                                  write_states (provider 0%nat) c i off bs).
  { induction c as [|c IH]; intros i off bs; simpl; [done|]. rewrite Hsame.
    destruct (provider 0%nat i); [apply IH|done]. }
  rewrite Hw. edestruct (sum_states_write (provider 0%nat)) as [out ->]; [apply Es|].
  destruct (seal_checkpoint out). done.
Qed.

(** ** Witnesses *)

Definition sample_name : list Z := [115; 105; 109].
Definition sample_metadata : CheckpointMetadata :=
  mkCheckpointMetadata 1 1 2 1 3 11 12 13 14 15 0 0 0 0 0 (padded sample_name) (padded sample_name).
Definition sample_state (i : nat) : StateView := mkStateView [97; 48 + Z.of_nat i] 5 [1; 2; Z.of_nat i].
Definition sample_states : list StateView := [sample_state 0; sample_state 1].
Definition sample_provider : StateProvider := fun _ i => sample_states !! i.
Definition sample_artifact : list Z :=
  take 438 (snd (encode_checkpoint_artifact sample_metadata 2 (Some sample_provider) 1000
                   (replicate 440 0))).

Lemma sample_metadata_typed : metadata_typed sample_metadata.
Proof.
  constructor; try (vm_compute; split; discriminate); try (vm_compute; discriminate).
  - by exists sample_name.
  - by exists sample_name.
Qed.

Lemma sample_states_typed : Forall state_typed sample_states.
Proof.
  repeat constructor; try (vm_compute; discriminate); try done.
Qed.

Lemma sample_artifact_ok : bytes_ok sample_artifact.
Proof.
  unfold bytes_ok. apply Forall_forall. intros x Hx.
  assert (H : forallb (fun b => (0 <=? b) && (b <? 256)) sample_artifact = true)
    by (vm_compute; reflexivity).
  rewrite forallb_forall in H. specialize (H x (proj1 (list_elem_of_In _ _) Hx)).
  rewrite andb_true_iff, Z.leb_le, Z.ltb_lt in H. done.
Qed.


Lemma checkpoint_parse_walk_witness :
  exists states, Forall state_typed states /\ length states = 2%nat.
Proof.
  destruct (checkpoint_parse_walk sample_artifact 1000 2
    (snd (parse_checkpoint_artifact sample_artifact 1000 2)) sample_artifact_ok)
    as (_ & _ & _ & states & Hn & Ht & _).
  - vm_compute. reflexivity.
  - exists states. split; [exact Ht|]. apply Nat2Z.inj. rewrite Hn. vm_compute. reflexivity.
Defined.

Lemma checkpoint_single_byte_corruption_witness :
  parse_checkpoint_artifact (<[300%nat := 77]> sample_artifact) 1000 2 =
    (invalid_artifact, CheckpointMetadata_default).
Proof.
  apply (checkpoint_single_byte_corruption sample_artifact 1000 2
    (snd (parse_checkpoint_artifact sample_artifact 1000 2)) 300 0 77 sample_artifact_ok).
  - vm_compute. reflexivity.
  - vm_compute. reflexivity.
  - vm_compute. split; [discriminate|reflexivity].
  - discriminate.
Defined.

Lemma checkpoint_encode_refuses_witness :
  encode_checkpoint_artifact sample_metadata 2 (Some sample_provider) 1000 (replicate 400 0) =
    (capacity_exceeded, mkWriteResult 438 0 0, replicate 400 0) /\
  bytes_written (mkWriteResult 438 0 0) = 0.
Proof.
  assert (E : encode_checkpoint_artifact sample_metadata 2 (Some sample_provider) 1000 (replicate 400 0) =
    (capacity_exceeded, mkWriteResult 438 0 0, replicate 400 0)) by (vm_compute; reflexivity).
  split; [exact E|].
  pose proof (checkpoint_encode_refuses sample_metadata 2 sample_provider 1000 (replicate 400 0)
    (fun _ => eq_refl)) as H.
  rewrite E in H. apply H. discriminate.
Defined.

(** The identifier array holds the bytes a, NUL, b: the encoder checks only the
    part before the NUL and copies all 64 bytes. *)
Definition unpadded_metadata : CheckpointMetadata :=
  mkCheckpointMetadata 1 1 2 1 3 11 12 13 14 15 0 0 0 0 0
    ([97; 0; 98] ++ replicate 61 0) (padded sample_name).

(** The padding hypothesis of the round trip is needed: metadata whose
    identifier array has a byte after its first NUL is encoded with status
    [ok], and the parser refuses the artifact that was just written. *)
Theorem checkpoint_unpadded_identifier :
  (encode_checkpoint_artifact unpadded_metadata 2 (Some sample_provider) 1000
     (replicate 438 0)).1.1 = ok /\
  parse_checkpoint_artifact
    (encode_checkpoint_artifact unpadded_metadata 2 (Some sample_provider) 1000
       (replicate 438 0)).2 1000 2 = (invalid_artifact, CheckpointMetadata_default).
Proof. split; vm_compute; reflexivity. Qed.
