(* ===== verification/InputLogTheorems.v ===== *)
(** * Correctness of the input-log codec

    The counterpart of CheckpointTheorems.v for input logs: records with frame
    context, strictly increasing frames, and the first and last frame index in
    the header.  A log does not hold [nominal_release_ns]; what it gives back
    is the record without it. *)

From stdpp Require Import base list numbers sets.
From Stdlib Require Import ZArith Lia Bool.
From S2P Require Import Prelude CanonicalBytes SnapshotCodec CodecFields.

Local Open Scope Z_scope.

(** ** Records in a log *)

Record input_typed (r : InputRecord) : Prop := {
  it_frame : is_u64 (frame_index (ir_frame r));
  it_delta : 0 <= delta (ir_frame r) <= nanoseconds_max;
  it_deadline : is_u64 (default 0 (deadline_ns (ir_frame r)));
  it_type : is_u32 (ir_input_type r);
  it_size : size (ir_payload r) <= u32_max;
  it_bytes : bytes_ok (ir_payload r)
}.

(** The record as the log keeps it. *)
Definition stored_input (r : InputRecord) : InputRecord :=
  mkInputRecord
    (mkFrame (frame_index (ir_frame r)) (delta (ir_frame r)) (deadline_ns (ir_frame r)) None)
    (ir_input_type r) (ir_payload r).

Definition deadline_flag (r : InputRecord) : Z :=
  match deadline_ns (ir_frame r) with Some _ => 1 | None => 0 end.

Definition input_size (r : InputRecord) : nat := 48 + length (ir_payload r).

Record input_at (bs : list Z) (off : nat) (r : InputRecord) : Prop := {
  ia_fits : (off + input_size r <= length bs)%nat;
  ia_frame : load_u64_le bs off = Some (frame_index (ir_frame r));
  ia_delta : load_u64_le bs (off + 8) = Some (delta (ir_frame r));
  ia_deadline : load_u64_le bs (off + 16) = Some (default 0 (deadline_ns (ir_frame r)));
  ia_type : load_u32_le bs (off + 24) = Some (ir_input_type r);
  ia_size : load_u32_le bs (off + 28) = Some (size (ir_payload r));
  ia_flags : load_u32_le bs (off + 32) = Some (deadline_flag r);
  ia_reserved : load_u32_le bs (off + 36) = Some 0;
  ia_sum : load_u64_le bs (off + 40) = Some (artifact_checksum (ir_payload r));
  ia_payload : subspan bs (off + 48) (length (ir_payload r)) = ir_payload r
}.

Fixpoint inputs_at (bs : list Z) (off : nat) (records : list InputRecord) : Prop :=
  match records with
  | [] => True
  | r :: rest => input_at bs off r /\ inputs_at bs (off + input_size r) rest
  end.

(** Strictly increasing frames after [previous]. *)
Fixpoint frames_increase (previous : option Z) (records : list InputRecord) : Prop :=
  match records with
  | [] => True
  | r :: rest =>
      match previous with Some p => p < frame_index (ir_frame r) | None => True end /\
      frames_increase (Some (frame_index (ir_frame r))) rest
  end.

Definition inputs_size (records : list InputRecord) : nat := sum_list_with input_size records.
Definition input_payload (records : list InputRecord) : nat :=
  sum_list_with (fun r => length (ir_payload r)) records.

Lemma inputs_size_payload records :
  inputs_size records = (48 * length records + input_payload records)%nat.
Proof.
  unfold inputs_size, input_payload. induction records as [|r l IH]; [done|].
  cbn [sum_list_with length]. rewrite IH. unfold input_size. lia.
Qed.

Lemma input_at_agree bs bs' off r :
  agree bs bs' off (off + input_size r) -> input_at bs off r -> input_at bs' off r.
Proof.
  intros Ha H. unfold input_size in *.
  assert (Hsub : forall o w, (off <= o)%nat -> (o + w <= off + (48 + length (ir_payload r)))%nat ->
    agree bs bs' o (o + w)) by (intros o w H1 H2; eapply agree_sub; [apply Ha|lia|lia]).
  constructor; unfold load_u32_le, load_u64_le;
    try (rewrite <- (load_agree _ bs) by (apply Hsub; lia); apply H).
  - rewrite <- (proj1 Ha). apply H.
  - rewrite <- (ia_payload _ _ _ H) at 2. symmetry. apply subspan_agree. apply Hsub; lia.
Qed.

Lemma inputs_at_agree bs bs' off records :
  agree bs bs' off (off + inputs_size records) -> inputs_at bs off records -> inputs_at bs' off records.
Proof.
  revert off. induction records as [|r records IH]; intros off Ha; simpl; [done|].
  unfold inputs_size in *. cbn [sum_list_with] in Ha. intros [H1 H2]. split.
  - eapply input_at_agree; [|done]. eapply agree_sub; [apply Ha|lia|lia].
  - apply IH; [|done]. eapply agree_sub; [apply Ha|lia|lia].
Qed.

(** ** Writing records *)

#[local] Opaque put32 put64 load_le store_le list_inserts.

Lemma length_write_input r off bs : length (write_input r off bs) = length bs.
Proof. unfold write_input. by autorewrite with codec. Qed.

Lemma write_input_agree r off bs lo hi :
  (hi <= off)%nat \/ (off + input_size r <= lo)%nat -> agree (write_input r off bs) bs lo hi.
Proof.
  intros H. unfold input_size in H. unfold write_input, input_log_record_header_size. cbv zeta.
  repeat (eapply agree_trans;
    [first [apply agree_put64; lia | apply agree_put32; lia | apply agree_write; lia]|]).
  apply agree_refl.
Qed.

Lemma bytes_ok_write_input r off bs :
  input_typed r -> bytes_ok bs -> bytes_ok (write_input r off bs).
Proof. intros Hr Hb. unfold write_input. auto 20 using it_bytes with codec. Qed.

Lemma write_input_at r off bs :
  input_typed r -> bytes_ok bs -> size bs <= u64_max ->
  (off + input_size r <= length bs)%nat ->
  (forall i, (off <= i < off + input_size r)%nat -> bs !! i = Some 0) ->
  input_at (write_input r off bs) off r.
Proof.
  intros Ht Hb Hmax Hf Hz. destruct (Ht) as [Hfr Hd Hdl Hty Hsz Hp].
  unfold input_size in *.
  assert (Hd64 : is_u64 (delta (ir_frame r)))
    by (unfold is_u64, nanoseconds_max, u64_max in *; lia).
  assert (Hs32 : is_u32 (size (ir_payload r))) by (unfold is_u32, size in *; lia).
  assert (Hfl : is_u32 (deadline_flag r))
    by (unfold deadline_flag, is_u32, u32_max; destruct (deadline_ns _); lia).
  constructor; unfold input_size; rewrite ?length_write_input; try done;
    unfold write_input, input_log_record_header_size; cbv zeta.
  1-6, 8: skip_writes; first [apply load_put64 | apply load_put32];
    [auto 20 with codec | autorewrite with codec; lia | auto using artifact_checksum_u64].
  - skip_writes. apply load_zero; [lia|]. intros i Hi. apply Hz. lia.
  - apply subspan_write_at; [autorewrite with codec; lia|done].
Qed.

Lemma write_inputs_agree records : forall off bs lo hi,
  (hi <= off)%nat \/ (off + inputs_size records <= lo)%nat ->
  agree (write_inputs records off bs) bs lo hi.
Proof.
  unfold inputs_size. induction records as [|r records IH]; intros off bs lo hi H;
    cbn [sum_list_with write_inputs] in *; [apply agree_refl|].
  unfold input_size, input_log_record_header_size in *.
  eapply agree_trans; [apply IH; lia|]. apply write_input_agree. unfold input_size. lia.
Qed.

Lemma bytes_ok_write_inputs records : forall off bs,
  Forall input_typed records -> bytes_ok bs -> bytes_ok (write_inputs records off bs).
Proof.
  induction records as [|r records IH]; intros off bs Ht Hb; simpl; [done|].
  apply Forall_cons in Ht as [Hr Ht]. apply IH; [done|]. by apply bytes_ok_write_input.
Qed.

Lemma write_inputs_at records : forall off bs,
  Forall input_typed records -> bytes_ok bs -> size bs <= u64_max ->
  (off + inputs_size records <= length bs)%nat ->
  (forall i, (off <= i < off + inputs_size records)%nat -> bs !! i = Some 0) ->
  inputs_at (write_inputs records off bs) off records.
Proof.
  unfold inputs_size. induction records as [|r records IH]; intros off bs Ht Hb Hmax Hf Hz;
    cbn [sum_list_with write_inputs inputs_at] in *; [done|].
  apply Forall_cons in Ht as [Hr Ht].
  assert (Hl := length_write_input r off bs).
  replace (off + input_log_record_header_size + length (ir_payload r))%nat
    with (off + input_size r)%nat by (unfold input_size, input_log_record_header_size; lia).
  split.
  - eapply input_at_agree; [apply agree_sym, write_inputs_agree; left; lia|].
    apply write_input_at; try done; [lia|]. intros i Hi. apply Hz. lia.
  - apply IH; [done|by apply bytes_ok_write_input|unfold size in *; lia|lia|].
    intros i Hi.
    rewrite (proj2 (write_input_agree r off bs (off + input_size r)
      (off + input_size r + sum_list_with input_size records) ltac:(lia)) i) by lia.
    apply Hz. lia.
Qed.

(** ** Parsing records *)

Lemma land_flags f : is_u32 f -> Z.land f (u32_max - 1) = 0 <-> f <= 1.
Proof.
  intros Hf. unfold is_u32, u32_max in *. split.
  - intros H. assert (E : Z.land f 4294967295 = f).
    { change 4294967295 with (Z.ones 32). rewrite Z.land_ones by lia. apply Z.mod_small. lia. }
    change 4294967295 with (Z.lor (4294967295 - 1) 1) in E.
    rewrite Z.land_lor_distr_r, H, Z.lor_0_l in E.
    change 1 with (Z.ones 1) in E at 1. rewrite Z.land_ones in E by lia.
    pose proof (Z.mod_pos_bound f (2 ^ 1) eq_refl). change (2 ^ 1) with 2 in *. lia.
  - intros H. assert (f = 0 \/ f = 1) as [-> | ->] by lia; done.
Qed.

Lemma previous_frame_test prev f :
  match prev with Some p => f <=? p | None => false end = false <->
  match prev with Some p => p < f | None => True end.
Proof. destruct prev; [rewrite Z.leb_gt|]; done. Qed.

Lemma parse_input_at bs off r prev total :
  input_at bs off r -> input_typed r -> size bs <= u64_max -> is_u64 total ->
  total + size (ir_payload r) <= u64_max ->
  match prev with Some p => p < frame_index (ir_frame r) | None => True end ->
  parse_input bs off prev total =
    Some (frame_index (ir_frame r), (off + input_size r)%nat, total + size (ir_payload r)).
Proof.
  intros [Hf Hfr Hd Hdl Hty Hz Hfl Hr Hc Hp] Ht Hmax Htot Hsum Hprev. unfold input_size in *.
  unfold parse_input.
  rewrite (proj2 (field_fits_spec _ _ _)) by (unfold input_log_record_header_size; lia). simpl.
  rewrite Hfr. simpl. rewrite Hd. simpl. rewrite Hdl. simpl. rewrite Hty. simpl. rewrite Hz. simpl.
  rewrite Hfl. simpl. rewrite Hr. simpl. rewrite Hc. simpl.
  rewrite (proj2 (Z.ltb_ge nanoseconds_max _)) by apply Ht.
  rewrite (proj2 (previous_frame_test prev _) Hprev).
  assert (Hflag : Z.land (deadline_flag r) (u32_max - 1) = 0)
    by (unfold deadline_flag; by destruct (deadline_ns _)).
  assert (Hdead : (Z.land (deadline_flag r) 1 =? 0) && negb (default 0 (deadline_ns (ir_frame r)) =? 0) = false)
    by (unfold deadline_flag; by destruct (deadline_ns _)).
  rewrite Hflag, Hdead. simpl. unfold input_log_record_header_size.
  rewrite (proj2 (Z.ltb_ge _ _)) by (unfold size; lia).
  rewrite checked_artifact_add_fits by (done || unfold is_u64, size in *; lia). simpl.
  replace (Z.to_nat (size (ir_payload r))) with (length (ir_payload r)) by (unfold size; lia).
  rewrite Hp, Z.eqb_refl. simpl. do 3 f_equal. lia.
Qed.

Definition final_frame (prev : option Z) (records : list InputRecord) : option Z :=
  match last records with Some r => Some (frame_index (ir_frame r)) | None => prev end.

Lemma final_frame_cons prev r records :
  final_frame prev (r :: records) = final_frame (Some (frame_index (ir_frame r))) records.
Proof. unfold final_frame. rewrite last_cons. by destruct (last records). Qed.

Lemma parse_inputs_at records : forall bs off prev total,
  inputs_at bs off records -> Forall input_typed records -> size bs <= u64_max -> 0 <= total ->
  total + Z.of_nat (input_payload records) <= u64_max -> frames_increase prev records ->
  parse_inputs bs (length records) off prev total =
    Some (final_frame prev records, (off + inputs_size records)%nat,
          total + Z.of_nat (input_payload records)).
Proof.
  unfold inputs_size, input_payload.
  induction records as [|r records IH]; intros bs off prev total Ha Ht Hmax H0 Hsum Hinc.
  { simpl. unfold final_frame. simpl. do 2 f_equal; [f_equal|]; lia. }
  destruct Ha as [Hat Ha]. apply Forall_cons in Ht as [Hr Ht]. destruct Hinc as [Hp Hinc].
  cbn [length parse_inputs sum_list_with] in *.
  rewrite (parse_input_at bs off r) by (done || unfold is_u64, size; lia).
  rewrite IH by (done || unfold size; lia). rewrite final_frame_cons. unfold size. do 2 f_equal; [f_equal|]; lia.
Qed.

Lemma next_input_at bs md off k r :
  input_at bs off r -> input_typed r -> size bs <= u64_max ->
  0 <= k < im_record_count md -> im_record_count md <= u32_max ->
  next_input_log_record bs md (mkCursor off k) =
    (true, mkCursor (off + input_size r) (k + 1), stored_input r).
Proof.
  intros [Hf Hfr Hd Hdl Hty Hz Hfl Hr Hc Hp] Ht Hmax Hk Hcount. unfold input_size in *.
  unfold next_input_log_record. simpl.
  rewrite (proj2 (Z.leb_gt _ _)) by lia.
  rewrite (proj2 (field_fits_spec _ _ _)) by (unfold input_log_record_header_size; lia). simpl.
  rewrite Hfr, Hd, Hdl, Hty, Hz, Hfl, Hr, Hc.
  rewrite (proj2 (Z.ltb_ge 1 _)) by (unfold deadline_flag; destruct (deadline_ns _); lia).
  rewrite (proj2 (Z.ltb_ge nanoseconds_max _)) by apply Ht. simpl.
  unfold input_log_record_header_size. rewrite (proj2 (Z.ltb_ge _ _)) by (unfold size; lia).
  replace (Z.to_nat (size (ir_payload r))) with (length (ir_payload r)) by (unfold size; lia).
  rewrite Hp, Z.eqb_refl. unfold u32. rewrite Z.mod_small by (unfold u32_max in *; lia).
  replace (off + 48 + length (ir_payload r))%nat with (off + (48 + length (ir_payload r)))%nat by lia.
  unfold stored_input, deadline_flag. by destruct (deadline_ns (ir_frame r)).
Qed.

Fixpoint read_inputs (fuel : nat) (artifact : list Z) (md : InputLogMetadata)
    (cursor : RecordCursor) : list InputRecord * RecordCursor :=
  match fuel with
  | O => ([], cursor)
  | S fuel' =>
      match next_input_log_record artifact md cursor with
      | (true, cursor', r) =>
          let '(rest, final) := read_inputs fuel' artifact md cursor' in (r :: rest, final)
      | (false, cursor', _) => ([], cursor')
      end
  end.

Lemma read_inputs_at records : forall bs md off k fuel,
  inputs_at bs off records -> Forall input_typed records -> size bs <= u64_max ->
  0 <= k -> k + Z.of_nat (length records) = im_record_count md -> im_record_count md <= u32_max ->
  (length records < fuel)%nat ->
  read_inputs fuel bs md (mkCursor off k) =
    (stored_input <$> records, mkCursor (off + inputs_size records) (im_record_count md)).
Proof.
  unfold inputs_size.
  induction records as [|r records IH]; intros bs md off k [|fuel] Ha Ht Hmax Hk Hc Hu Hfuel;
    try (simpl in Hfuel; lia); simpl in Hfuel.
  - assert (E : im_record_count md = k) by (simpl in Hc; lia). simpl.
    unfold next_input_log_record. simpl. by rewrite E, Z.leb_refl, Nat.add_0_r.
  - destruct Ha as [Hat Ha]. apply Forall_cons in Ht as [Hr Ht].
    cbn [read_inputs sum_list_with length] in *.
    rewrite (next_input_at bs md off k r) by (done || lia).
    rewrite IH by (done || lia). rewrite fmap_cons. do 2 f_equal. lia.
Qed.

(** ** Headers *)

Record log_metadata_typed (md : InputLogMetadata) : Prop := {
  lt_major : is_u32 (im_runtime_version_major md);
  lt_minor : is_u32 (im_runtime_version_minor md);
  lt_patch : is_u32 (im_runtime_version_patch md);
  lt_tier : 0 <= im_determinism_tier md;
  lt_replay : is_u64 (im_replay_id md);
  lt_schema : is_u64 (im_state_schema_id md);
  lt_workload : exists name, valid_identifier name = true /\ im_workload_id md = padded name
}.

Definition first_frame (records : list InputRecord) : Z :=
  from_option (fun r => frame_index (ir_frame r)) 0 (head records).
Definition last_frame (records : list InputRecord) : Z :=
  from_option (fun r => frame_index (ir_frame r)) 0 (last records).

Lemma frame_range_cases records :
  Forall input_typed records ->
  (records = [] /\ forall a, write_frame_range records a = a) \/
  (is_u64 (first_frame records) /\ is_u64 (last_frame records) /\
   forall a, write_frame_range records a =
             put64 96 (last_frame records) (put64 88 (first_frame records) a)).
Proof.
  intros Hin. destruct records as [|r l]; [by left|]. right.
  unfold write_frame_range, first_frame, last_frame. simpl head. rewrite last_cons.
  apply Forall_cons in Hin as [Hr Hl]. split_and!.
  - apply it_frame, Hr.
  - destruct (last l) as [x|] eqn:El; simpl; apply it_frame; [|done].
    apply (proj1 (Forall_forall _ _) Hl). by apply last_Some_elem_of.
  - intros a. by destruct (last l).
Qed.

Section LogHeader.
Context (md : InputLogMetadata) (records : list InputRecord) (payload required : Z) (N : nat).

Abbreviation hd := (write_input_header md records payload required (replicate N 0)).

Record log_header_at (bs : list Z) : Prop := {
  lh_magic : take 8 bs = kInputLogMagic;
  lh_schema : load_u32_le bs 8 = Some input_log_schema_version;
  lh_size : load_u32_le bs 12 = Some (Z.of_nat input_log_header_size);
  lh_major : load_u32_le bs 16 = Some (im_runtime_version_major md);
  lh_minor : load_u32_le bs 20 = Some (im_runtime_version_minor md);
  lh_patch : load_u32_le bs 24 = Some (im_runtime_version_patch md);
  lh_tier : load_u32_le bs 28 = Some (im_determinism_tier md);
  lh_flags : load_u32_le bs 32 = Some 0;
  lh_count : load_u32_le bs 36 = Some (Z.of_nat (length records));
  lh_record : load_u32_le bs 40 = Some (Z.of_nat input_log_record_header_size);
  lh_reserved : load_u32_le bs 44 = Some 0;
  lh_replay : load_u64_le bs 48 = Some (im_replay_id md);
  lh_state_schema : load_u64_le bs 56 = Some (im_state_schema_id md);
  lh_payload : load_u64_le bs 64 = Some payload;
  lh_total : load_u64_le bs 72 = Some required;
  lh_first : load_u64_le bs 88 = Some (first_frame records);
  lh_last : load_u64_le bs 96 = Some (last_frame records);
  lh_workload : fixed_identifier bs 104 = Some (im_workload_id md);
  lh_zero : subspan bs 168 24 = replicate 24 0
}.

Lemma log_header_agree bs bs' :
  agree bs bs' 0 80 -> agree bs bs' 88 192 -> log_header_at bs -> log_header_at bs'.
Proof.
  intros H1 H2 H.
  assert (L1 : forall w o, (o + w <= 80)%nat -> load_le w bs o = load_le w bs' o)
    by (intros w o Ho; apply load_agree; eapply agree_sub; [apply H1|lia|lia]).
  assert (L2 : forall w o, (88 <= o)%nat -> (o + w <= 192)%nat -> load_le w bs o = load_le w bs' o)
    by (intros w o Ho Ho'; apply load_agree; eapply agree_sub; [apply H2|lia|lia]).
  destruct (fixed_agree bs bs' 104) as (_ & E1 & _);
    [eapply agree_sub; [apply H2|lia|unfold replay_identifier_capacity; lia]|].
  constructor; unfold load_u32_le, load_u64_le;
    try (rewrite <- L1 by lia; apply H); try (rewrite <- L2 by lia; apply H).
  - rewrite <- (lh_magic bs H). symmetry. apply (subspan_agree bs bs' 0 8).
    eapply agree_sub; [apply H1|lia|lia].
  - rewrite <- E1. apply H.
  - rewrite <- (lh_zero bs H). symmetry. apply subspan_agree. eapply agree_sub; [apply H2|lia|lia].
Qed.

Context (Hmd : log_metadata_typed md) (Hin : Forall input_typed records).

Lemma workload_length : length (im_workload_id md) = 64%nat.
Proof. destruct (lt_workload md Hmd) as (w & Hw & ->). by rewrite length_padded. Qed.

Lemma frame_range_agree a lo hi :
  (hi <= 88)%nat \/ (104 <= lo)%nat -> agree (write_frame_range records a) a lo hi.
Proof.
  intros H. destruct (frame_range_cases records Hin) as [[_ ->]|(_ & _ & ->)]; [apply agree_refl|].
  eapply agree_trans; [apply agree_put64; lia|]. apply agree_put64; lia.
Qed.

Lemma length_frame_range a : length (write_frame_range records a) = length a.
Proof. apply (frame_range_agree a 0 0). lia. Qed.

Lemma bytes_ok_frame_range a : bytes_ok a -> bytes_ok (write_frame_range records a).
Proof.
  intros H. destruct (frame_range_cases records Hin) as [[_ ->]|(_ & _ & ->)]; [done|].
  auto with codec.
Qed.

#[local] Hint Resolve bytes_ok_frame_range : codec.
#[local] Opaque write_frame_range.

Ltac header_agree :=
  repeat (eapply agree_trans;
    [first [apply agree_put64; simpl; lia | apply agree_put32; simpl; lia
           | apply frame_range_agree; simpl; lia | apply agree_write; simpl; lia]|]);
  apply agree_refl.
Ltac skip_fields :=
  unfold load_u32_le, load_u64_le;
  repeat first [ skip_write
               | etransitivity; [apply load_agree, frame_range_agree; simpl; lia|] ].
Ltac header_length :=
  rewrite ?length_inserts, ?length_frame_range; autorewrite with codec; rewrite ?length_replicate.

Lemma length_log_header : length hd = N.
Proof. unfold write_input_header, write_identifier_array. cbv zeta. by header_length. Qed.

Lemma log_magic_ok : bytes_ok kInputLogMagic.
Proof. repeat constructor; vm_compute; discriminate || done. Qed.

#[local] Hint Resolve log_magic_ok : codec.

Lemma bytes_ok_log_header : bytes_ok hd.
Proof.
  destruct (lt_workload md Hmd) as (w & Hw & Ew).
  unfold write_input_header, write_identifier_array. rewrite Ew.
  auto 40 using padded_bytes_ok with codec.
Qed.

Lemma log_header_zero lo hi : (192 <= lo)%nat -> agree hd (replicate N 0) lo hi.
Proof.
  intros Hlo. pose proof workload_length as Hw.
  unfold write_input_header, write_identifier_array. cbv zeta. header_agree.
Qed.

Context (Htier : valid_tier (im_determinism_tier md) = true)
        (Hn : Z.of_nat (length records) <= u32_max)
        (Hpayload : is_u64 payload) (Hrequired : is_u64 required) (HN : (192 <= N)%nat).

Ltac read_field :=
  skip_fields; first [apply load_put32 | apply load_put64];
  [auto 40 with codec | header_length; lia
  | try apply Hmd; try done; unfold is_u32, u32_max in *; lia].

Lemma log_header_written : log_header_at hd.
Proof.
  pose proof workload_length as Lw.
  assert (Hz := bytes_ok_replicate N).
  assert (Ht : im_determinism_tier md <= 3) by (by apply Z.leb_le).
  pose proof (lt_tier md Hmd) as Ht0.
  unfold write_input_header, write_identifier_array. cbv zeta.
  constructor.
  - transitivity (subspan (list_inserts 0 kInputLogMagic (replicate N 0)) 0 8).
    + apply (subspan_agree _ _ 0 8). header_agree.
    + apply subspan_write_at; [rewrite length_replicate; lia|done].
  - read_field.
  - read_field.
  - read_field.
  - read_field.
  - read_field.
  - read_field.
  - skip_fields. apply load_zero; [rewrite length_replicate; lia|].
    intros i Hi. apply lookup_replicate_2. lia.
  - read_field.
  - read_field.
  - skip_fields. apply load_zero; [rewrite length_replicate; lia|].
    intros i Hi. apply lookup_replicate_2. lia.
  - read_field.
  - read_field.
  - read_field.
  - read_field.
  - skip_fields. destruct (frame_range_cases records Hin) as [[E ->]|(Hf & Hl & ->)].
    + rewrite E. skip_fields. apply load_zero; [rewrite length_replicate; lia|].
      intros i Hi. apply lookup_replicate_2. lia.
    + read_field.
  - skip_fields. destruct (frame_range_cases records Hin) as [[E ->]|(Hf & Hl & ->)].
    + rewrite E. skip_fields. apply load_zero; [rewrite length_replicate; lia|].
      intros i Hi. apply lookup_replicate_2. lia.
    + read_field.
  - destruct (lt_workload md Hmd) as (b & Hb & Eb). rewrite Eb in *.
    apply fixed_identifier_padded; [done| |].
    + header_length. unfold replay_identifier_capacity. lia.
    + apply subspan_write_at; [|done]. header_length. unfold replay_identifier_capacity. lia.
  - transitivity (subspan (replicate N 0) 168 24).
    + apply subspan_agree. header_agree.
    + unfold subspan. rewrite drop_replicate, take_replicate. f_equal. lia.
Qed.
End LogHeader.

Definition sealed_log_metadata (md : InputLogMetadata) (records : list InputRecord)
    (payload required checksum : Z) : InputLogMetadata :=
  mkInputLogMetadata input_log_schema_version (im_runtime_version_major md)
    (im_runtime_version_minor md) (im_runtime_version_patch md) (im_determinism_tier md)
    (im_replay_id md) (im_state_schema_id md) payload required checksum
    (first_frame records) (last_frame records) (Z.of_nat (length records)) (im_workload_id md).

Lemma parse_log_header_at md records payload required bs checksum max_bytes max_records :
  valid_tier (im_determinism_tier md) = true ->
  log_header_at md records payload required bs -> load_u64_le bs 80 = Some checksum ->
  required = size bs -> (192 <= length bs)%nat ->
  Z.of_nat (length records) <= max_records -> payload <= max_bytes ->
  parse_input_header bs max_bytes max_records =
    Some (sealed_log_metadata md records payload required checksum).
Proof.
  intros Htier H Hc Hr Hl Hmax Hpay. destruct H. unfold parse_input_header.
  unfold kInputLogChecksumOffset.
  repeat match goal with E : _ = Some _ |- _ => rewrite E; simpl; clear E end.
  assert (Hb : bytes_zero bs 168 24 = true).
  { unfold bytes_zero. rewrite lh_zero0, andb_true_r. apply field_fits_spec. lia. }
  rewrite Hb, Htier, Hr, Z.eqb_refl. simpl.
  rewrite (proj2 (Z.ltb_ge max_records _)), (proj2 (Z.ltb_ge max_bytes _)) by done. simpl.
  unfold sealed_log_metadata. by rewrite ?Hr.
Qed.

Lemma frames_increase_last records : forall prev,
  frames_increase (Some prev) records -> prev <= default prev (final_frame (Some prev) records).
Proof.
  induction records as [|r l IH]; intros prev; simpl; [unfold final_frame; simpl; lia|].
  intros [H1 H2]. rewrite final_frame_cons. specialize (IH _ H2).
  unfold final_frame in *. destruct (last l); simpl in *; lia.
Qed.

Lemma first_le_last records :
  frames_increase None records -> first_frame records <= last_frame records.
Proof.
  destruct records as [|r l]; [done|]. intros [_ H]. apply frames_increase_last in H.
  unfold first_frame, last_frame, final_frame in *. rewrite last_cons. by destruct (last l).
Qed.

(** ** Encoding *)

Lemma sum_inputs_list records : forall prev acc,
  Forall input_typed records -> frames_increase prev records -> 0 <= acc ->
  acc + Z.of_nat (input_payload records) <= u64_max ->
  sum_inputs records prev acc = Some (acc + Z.of_nat (input_payload records)).
Proof.
  unfold input_payload. induction records as [|r l IH]; intros prev acc Ht Hinc Ha Hm;
    cbn [sum_inputs sum_list_with] in *; [f_equal; lia|].
  apply Forall_cons in Ht as [Hr Ht]. destruct Hinc as [Hp Hinc].
  rewrite (proj2 (Z.ltb_ge _ 0)), (proj2 (Z.ltb_ge u32_max _)) by apply Hr.
  rewrite (proj2 (previous_frame_test prev _) Hp). simpl.
  rewrite checked_artifact_add_fits by (unfold is_u64, size; lia).
  rewrite IH; [f_equal; unfold size; lia|done|done|unfold size; lia|unfold size; lia].
Qed.

Definition log_size (records : list InputRecord) : Z := 192 + Z.of_nat (inputs_size records).

Section EncodeLog.
Context (md : InputLogMetadata) (records : list InputRecord).
Context (Hmd : log_metadata_typed md) (Htier : valid_tier (im_determinism_tier md) = true)
        (Hin : Forall input_typed records) (Hinc : frames_increase None records)
        (Hcount : Z.of_nat (length records) <= artifact_absolute_max_records)
        (Hsize : log_size records <= artifact_absolute_max_bytes).

Abbreviation n := (length records).
Abbreviation total := (log_size records).
Abbreviation payload := (Z.of_nat (input_payload records)).
Abbreviation headed := (write_input_header md records payload total (replicate (Z.to_nat total) 0)).

Definition log_written : list Z := write_inputs records 192 headed.
Definition log_artifact : list Z := put64 80 (checksum_excluding log_written 80 8) log_written.

Lemma log_bounds :
  192 <= total <= u64_max /\ payload <= total /\ is_u64 payload /\ Z.of_nat n <= u32_max.
Proof.
  unfold log_size in *. rewrite inputs_size_payload in *.
  change artifact_absolute_max_bytes with 1073741824 in *.
  change artifact_absolute_max_records with 1048576 in *. unfold is_u64, u64_max, u32_max. lia.
Qed.

Lemma length_headed : length headed = Z.to_nat total.
Proof. by apply length_log_header. Qed.

Lemma bytes_ok_headed : bytes_ok headed.
Proof. by apply bytes_ok_log_header. Qed.

Lemma length_log_written : length log_written = Z.to_nat total.
Proof.
  unfold log_written. rewrite (proj1 (write_inputs_agree records 192 _ 0 0 ltac:(lia))).
  apply length_headed.
Qed.

Lemma bytes_ok_log_written : bytes_ok log_written.
Proof. apply bytes_ok_write_inputs; [done|]. apply bytes_ok_headed. Qed.

Lemma length_log_artifact : length log_artifact = Z.to_nat total.
Proof. unfold log_artifact. rewrite length_put64. apply length_log_written. Qed.

Lemma size_log_artifact : size log_artifact = total.
Proof. destruct log_bounds. unfold size. rewrite length_log_artifact. lia. Qed.

Lemma log_artifact_agree lo hi :
  (hi <= 80)%nat \/ (88 <= lo)%nat -> agree log_artifact log_written lo hi.
Proof. intros H. apply agree_put64. lia. Qed.

Lemma log_artifact_header : log_header_at md records payload total log_artifact.
Proof.
  destruct log_bounds as (H1 & H2 & H3 & H4).
  eapply log_header_agree; [| |apply (log_header_written md records payload total (Z.to_nat total)); try done; unfold is_u64; lia].
  - eapply agree_sym, agree_trans; [apply log_artifact_agree; lia|apply write_inputs_agree; lia].
  - eapply agree_sym, agree_trans; [apply log_artifact_agree; lia|apply write_inputs_agree; lia].
Qed.

Lemma log_artifact_inputs : inputs_at log_artifact 192 records.
Proof.
  destruct log_bounds as (H1 & _).
  eapply inputs_at_agree; [apply agree_sym, log_artifact_agree; right; lia|].
  unfold log_written. apply write_inputs_at.
  - done.
  - apply bytes_ok_headed.
  - unfold size. rewrite length_headed. lia.
  - rewrite length_headed. unfold log_size. lia.
  - intros i Hi.
    rewrite (proj2 (log_header_zero md records payload total (Z.to_nat total) Hmd Hin
      192 (192 + inputs_size records) ltac:(lia)) i Hi).
    apply lookup_replicate_2. unfold log_size. lia.
Qed.

Lemma log_sum_excluded : checksum_excluding log_artifact 80 8 = checksum_excluding log_written 80 8.
Proof. apply checksum_excluding_agree; apply agree_put64; lia. Qed.

Lemma log_artifact_sum : load_u64_le log_artifact 80 = Some (checksum_excluding log_artifact 80 8).
Proof.
  destruct log_bounds as (H1 & _). rewrite log_sum_excluded. unfold log_artifact. apply load_put64.
  - apply bytes_ok_log_written.
  - rewrite length_log_written. lia.
  - apply checksum_excluding_u64.
Qed.

Definition log_artifact_metadata : InputLogMetadata :=
  sealed_log_metadata md records payload total (checksum_excluding log_artifact 80 8).

(** The frame-range tests of the parser. *)
Lemma log_frame_tests :
  (if Z.of_nat n =? 0
   then (first_frame records =? 0) && (last_frame records =? 0)
   else (first_frame records <=? last_frame records) &&
        (default 0 (final_frame None records) =? last_frame records) &&
        match load_u64_le log_artifact input_log_header_size with
        | Some first => first =? first_frame records
        | None => false
        end) = true.
Proof.
  pose proof log_artifact_inputs as Ha. pose proof (first_le_last records Hinc) as Hle.
  revert Ha Hle. generalize log_artifact. clear. intros bs Ha Hle.
  destruct records as [|r l]; [done|]. simpl length.
  rewrite (proj2 (Z.eqb_neq _ 0)) by lia. destruct Ha as [Ha _].
  unfold input_log_header_size. rewrite (ia_frame _ _ _ Ha).
  rewrite (proj2 (Z.leb_le _ _) Hle). unfold final_frame, last_frame, first_frame.
  rewrite last_cons. destruct (last l); simpl; by rewrite !Z.eqb_refl.
Qed.

Lemma parse_log_artifact max_bytes max_records :
  total <= max_bytes <= artifact_absolute_max_bytes ->
  Z.of_nat n <= max_records <= artifact_absolute_max_records ->
  parse_input_log_artifact log_artifact max_bytes max_records = (ok, log_artifact_metadata).
Proof.
  intros Hmax Hrec. destruct log_bounds as (H1 & H2 & H3 & H4).
  pose proof log_artifact_header as Hh. unfold parse_input_log_artifact.
  rewrite (proj2 (Z.ltb_ge artifact_absolute_max_bytes max_bytes)) by lia.
  rewrite (proj2 (Z.ltb_ge artifact_absolute_max_records max_records)) by lia.
  rewrite (proj2 (Nat.ltb_ge _ _)) by (rewrite length_log_artifact; unfold input_log_header_size; lia).
  rewrite (proj2 (Z.ltb_ge max_bytes _)) by (rewrite size_log_artifact; lia).
  assert (Hm : magic_matches log_artifact kInputLogMagic = true).
  { unfold magic_matches. rewrite andb_true_iff. split.
    - apply Nat.leb_le. rewrite length_log_artifact. simpl. lia.
    - apply bool_decide_eq_true. apply Hh. }
  rewrite Hm. simpl.
  rewrite (parse_log_header_at md records payload total log_artifact _ max_bytes max_records Htier Hh
    log_artifact_sum); [|by rewrite size_log_artifact|rewrite length_log_artifact; lia|lia|lia].
  unfold parse_input_body. fold log_artifact_metadata.
  cbn [im_artifact_checksum im_record_count log_artifact_metadata sealed_log_metadata
       im_payload_bytes im_first_frame_index im_last_frame_index].
  unfold kInputLogChecksumOffset. rewrite Z.eqb_refl, Nat2Z.id.
  rewrite parse_inputs_at;
    [|apply log_artifact_inputs|done|rewrite size_log_artifact; lia|lia|lia|done].
  rewrite log_frame_tests, length_log_artifact, Z.add_0_l, Z.eqb_refl.
  rewrite (proj2 (Nat.eqb_eq _ _)); [done|]. unfold log_size, input_log_header_size. lia.
Qed.

Lemma read_log_artifact :
  read_inputs (S n) log_artifact log_artifact_metadata InputLogRecordCursor_default =
    (stored_input <$> records, mkCursor (length log_artifact) (Z.of_nat n)).
Proof.
  destruct log_bounds as (H1 & H2 & H3 & H4). unfold InputLogRecordCursor_default.
  rewrite (read_inputs_at records); simpl; try done; try lia.
  - rewrite length_log_artifact. unfold log_size, input_log_header_size. do 2 f_equal. lia.
  - apply log_artifact_inputs.
  - rewrite size_log_artifact. lia.
Qed.

Lemma encode_log_artifact max_bytes max_records output :
  total <= max_bytes <= artifact_absolute_max_bytes ->
  Z.of_nat n <= max_records <= artifact_absolute_max_records -> total <= size output ->
  encode_input_log_artifact md records max_records max_bytes output =
    (ok, mkWriteResult total total (checksum_excluding log_artifact 80 8),
     log_artifact ++ drop (Z.to_nat total) output).
Proof.
  intros Hmax Hrec Hout. destruct log_bounds as (H1 & H2 & H3 & H4).
  unfold encode_input_log_artifact.
  rewrite (proj2 (Z.ltb_ge max_records _)) by lia.
  rewrite (proj2 (Z.ltb_ge artifact_absolute_max_records (Z.of_nat n))) by lia.
  rewrite (proj2 (Z.ltb_ge u32_max _)) by lia.
  rewrite (proj2 (Z.ltb_ge artifact_absolute_max_records max_records)) by lia.
  rewrite (proj2 (Z.ltb_ge artifact_absolute_max_bytes _)) by lia.
  rewrite (proj2 (Z.ltb_ge max_bytes (Z.of_nat input_log_header_size)))
    by (unfold input_log_header_size; lia).
  destruct (lt_workload md Hmd) as (w & Hw & Ew).
  rewrite Htier, Ew, identifier_view_padded, Hw by done. simpl.
  rewrite sum_inputs_list by (done || lia). rewrite Z.add_0_l.
  rewrite artifact_required_eq;
    [|done|unfold input_log_record_header_size; lia|unfold input_log_header_size; lia|done].
  replace (Z.of_nat input_log_header_size + Z.of_nat n * Z.of_nat input_log_record_header_size + payload)
    with total
    by (unfold log_size, input_log_header_size, input_log_record_header_size;
        rewrite inputs_size_payload; lia).
  rewrite (proj2 (Z.ltb_ge u64_max _)), (proj2 (Z.ltb_ge max_bytes _)),
    (proj2 (Z.ltb_ge (size output) _)) by lia. simpl.
  change (write_inputs records input_log_header_size _) with log_written.
  rewrite log_sum_excluded. done.
Qed.
End EncodeLog.

(** ** What the parser accepts *)

Lemma parse_input_inv bs off prev total frame off' total' :
  bytes_ok bs -> is_u64 total -> parse_input bs off prev total = Some (frame, off', total') ->
  exists r, input_at bs off r /\ input_typed r /\ stored_input r = r /\
    frame = frame_index (ir_frame r) /\
    match prev with Some p => p < frame | None => True end /\
    off' = (off + input_size r)%nat /\ total' = total + size (ir_payload r) /\ total' <= u64_max.
Proof.
  intros Hb Ht. unfold parse_input, input_log_record_header_size.
  destruct (field_fits bs off 48) eqn:Ef; simpl; [|done]. apply field_fits_spec in Ef.
  intros (fr & Hfr & H)%bind_Some. apply bind_Some in H as (dl & Hd & H).
  apply bind_Some in H as (dead & Hdl & H). apply bind_Some in H as (ty & Hty & H).
  apply bind_Some in H as (len & Hz & H). apply bind_Some in H as (flags & Hfl & H).
  apply bind_Some in H as (reserved & Hr & H). apply bind_Some in H as (sum & Hc & H).
  pose proof (load_u32_range _ _ _ Hb Hfl) as Hflr. pose proof (load_u32_range _ _ _ Hb Hz) as Hlen.
  destruct (Z.ltb_spec nanoseconds_max dl) as [|Hdm]; [done|].
  destruct (Z.eqb_spec (Z.land flags (u32_max - 1)) 0) as [Hf1|]; [|done].
  apply land_flags in Hf1; [|done].
  destruct (Z.eqb_spec reserved 0) as [->|]; [|done]. simpl in H.
  destruct ((Z.land flags 1 =? 0) && negb (dead =? 0)) eqn:Hdead; [done|].
  destruct (match prev with Some p => fr <=? p | None => false end) eqn:Hprev; [done|]. simpl in H.
  apply previous_frame_test in Hprev.
  destruct (Z.ltb_spec (size bs - Z.of_nat (off + 48)) len) as [|Hfit]; [done|].
  apply bind_Some in H as (t & Hadd & H).
  apply checked_artifact_add_Some in Hadd as [Hle ->]; [|done|unfold is_u64, is_u32, u32_max, u64_max in *; lia].
  destruct (Z.eqb_spec (artifact_checksum (subspan bs (off + 48) (Z.to_nat len))) sum) as [Es|]; [|done].
  injection H as <- <- <-. unfold size, is_u32 in *.
  assert (Hpl : length (subspan bs (off + 48) (Z.to_nat len)) = Z.to_nat len)
    by (apply length_subspan; lia).
  set (d := if flags =? 0 then None else Some dead).
  assert (Hdd : default 0 d = dead).
  { subst d. assert (flags = 0 \/ flags = 1) as [-> | ->] by lia; [|done]. simpl in *.
    apply negb_false_iff, Z.eqb_eq in Hdead. by rewrite Hdead. }
  exists (mkInputRecord (mkFrame fr dl d None) ty (subspan bs (off + 48) (Z.to_nat len))).
  unfold input_size. simpl. rewrite Hpl.
  split; [|split; [|split_and!; try done; lia]].
  - constructor; unfold input_size; simpl; unfold size; rewrite ?Hpl, ?Hdd; try done; [lia| | |].
    + rewrite Hz. f_equal. lia.
    + rewrite Hfl. f_equal. unfold deadline_flag. simpl. subst d.
      assert (flags = 0 \/ flags = 1) as [-> | ->] by lia; done.
    + by rewrite Es.
  - constructor; simpl; rewrite ?Hdd.
    + by eapply load_u64_range.
    + apply load_u64_range in Hd; [|done]. unfold is_u64 in Hd. lia.
    + by eapply load_u64_range.
    + by eapply load_u32_range.
    + unfold size. rewrite Hpl. lia.
    + by apply Forall_take, Forall_drop.
Qed.

Lemma parse_inputs_inv count : forall bs off prev total prev' off' total',
  bytes_ok bs -> is_u64 total ->
  parse_inputs bs count off prev total = Some (prev', off', total') ->
  exists records, length records = count /\ inputs_at bs off records /\
    Forall input_typed records /\ stored_input <$> records = records /\
    frames_increase prev records /\ prev' = final_frame prev records /\
    off' = (off + inputs_size records)%nat /\
    total' = total + Z.of_nat (input_payload records).
Proof.
  induction count as [|count IH]; intros bs off prev total prev' off' total' Hb Ht; simpl.
  { intros [= <- <- <-]. exists []. unfold inputs_size, input_payload, final_frame. simpl.
    split_and!; [done|done|constructor|done|done|done|lia|lia]. }
  destruct (parse_input bs off prev total) as [[[f o1] t1]|] eqn:E; [|done].
  apply parse_input_inv in E as (r & Hat & Hr & Hsr & -> & Hp & -> & -> & Hle); [|done|done].
  intros H. apply IH in H as (records & Hl & Ha & Hts & Hs & Hinc & -> & -> & ->);
    [|done|unfold is_u64, size in *; lia].
  exists (r :: records). unfold inputs_size, input_payload, size.
  cbn [sum_list_with length inputs_at frames_increase]. rewrite final_frame_cons.
  split_and!; try done; [by rewrite Hl|by constructor|by rewrite fmap_cons, Hsr, Hs|lia|lia].
Qed.

Lemma parse_log_header_inv bs max_bytes max_records md :
  bytes_ok bs -> parse_input_header bs max_bytes max_records = Some md ->
  load_u64_le bs 80 = Some (im_artifact_checksum md) /\ im_total_bytes md = size bs /\
  is_u32 (im_record_count md) /\ im_record_count md <= max_records /\
  im_payload_bytes md <= max_bytes.
Proof.
  intros Hb. unfold parse_input_header, kInputLogChecksumOffset. intros H.
  repeat (apply bind_Some in H as (? & ? & H)).
  match type of H with (if ?c then _ else _) = _ => destruct c eqn:Hc; [done|] end.
  injection H as <-. simpl. rewrite !orb_false_iff, !negb_false_iff, !Z.ltb_ge, !Z.eqb_eq in Hc.
  destruct Hc as [[[[[[[[[_ _] _] _] _] _] _] Hmax] Htot] Hpay].
  split_and!; try done. by eapply load_u32_range.
Qed.

Lemma parse_log_ok_inv bs max_bytes max_records md :
  parse_input_log_artifact bs max_bytes max_records = (ok, md) ->
  (192 <= length bs)%nat /\ size bs <= max_bytes <= artifact_absolute_max_bytes /\
  parse_input_header bs max_bytes max_records = Some md /\ parse_input_body bs md = true.
Proof.
  unfold parse_input_log_artifact, input_log_header_size.
  match goal with |- (if ?c then _ else _) = _ -> _ => destruct c eqn:Hc; [done|] end.
  rewrite !orb_false_iff, !Z.ltb_ge, Nat.ltb_ge in Hc. destruct Hc as [[[[Hm _] Hl] Hs] _].
  destruct (parse_input_header bs max_bytes max_records) as [m|]; [|done].
  destruct (parse_input_body bs m) eqn:Eb; [|done]. intros [= <-]. done.
Qed.

Lemma parse_log_status bs max_bytes max_records :
  (parse_input_log_artifact bs max_bytes max_records).1 = ok \/
  parse_input_log_artifact bs max_bytes max_records = (invalid_artifact, InputLogMetadata_default).
Proof.
  unfold parse_input_log_artifact. destruct (_ || _); [by right|].
  destruct (parse_input_header _ _ _); [|by right]. destruct (parse_input_body _ _); auto.
Qed.

(** ** Claims *)

(** An input log with valid records and strictly increasing frames is encoded
    in exactly the required number of bytes, parses back with the given
    metadata plus count, sizes, checksum and frame range, and the record cursor
    returns every record in order, without its nominal release, which the
    format does not hold. *)
Theorem input_log_roundtrip md records max_bytes max_records output :
  log_metadata_typed md -> valid_tier (im_determinism_tier md) = true ->
  Forall input_typed records -> frames_increase None records ->
  Z.of_nat (length records) <= max_records <= artifact_absolute_max_records ->
  log_size records <= max_bytes <= artifact_absolute_max_bytes ->
  log_size records <= size output ->
  exists bytes checksum,
    encode_input_log_artifact md records max_records max_bytes output =
      (ok, mkWriteResult (log_size records) (log_size records) checksum,
       bytes ++ drop (Z.to_nat (log_size records)) output) /\
    size bytes = log_size records /\
    parse_input_log_artifact bytes max_bytes max_records =
      (ok, sealed_log_metadata md records (Z.of_nat (input_payload records))
             (log_size records) checksum) /\
    read_inputs (S (length records)) bytes
      (sealed_log_metadata md records (Z.of_nat (input_payload records))
         (log_size records) checksum) InputLogRecordCursor_default =
      (stored_input <$> records, mkCursor (length bytes) (Z.of_nat (length records))).
Proof.
  intros Hmd Htier Hin Hinc Hrec Hmax Hout.
  exists (log_artifact md records), (checksum_excluding (log_artifact md records) 80 8).
  split_and!.
  - apply encode_log_artifact; try done; lia.
  - apply size_log_artifact; try done; lia.
  - apply parse_log_artifact; try done; lia.
  - apply read_log_artifact; try done; lia.
Qed.

(** Whatever bytes the input-log parser accepts, the record cursor can walk
    to the last byte: it returns exactly the announced number of records, with
    strictly increasing frames, whose last one is the announced last frame,
    and payloads that add up to the announced total. *)
Theorem input_log_parse_walk bs max_bytes max_records md :
  bytes_ok bs -> parse_input_log_artifact bs max_bytes max_records = (ok, md) ->
  im_total_bytes md = size bs /\ size bs <= max_bytes /\ im_record_count md <= max_records /\
  exists records,
    Z.of_nat (length records) = im_record_count md /\ Forall input_typed records /\
    frames_increase None records /\
    first_frame records = im_first_frame_index md /\ last_frame records = im_last_frame_index md /\
    Z.of_nat (input_payload records) = im_payload_bytes md /\
    read_inputs (S (length records)) bs md InputLogRecordCursor_default =
      (records, mkCursor (length bs) (im_record_count md)).
Proof.
  intros Hb Hparse. apply parse_log_ok_inv in Hparse as (Hl & Hs & Hh & Hbody).
  apply parse_log_header_inv in Hh as (_ & Ht & Hcr & Hc & _); [|done].
  change artifact_absolute_max_bytes with 1073741824 in Hs.
  split_and!; try done; [lia|].
  unfold parse_input_body in Hbody. apply andb_true_iff in Hbody as [_ Hbody].
  destruct (parse_inputs bs _ _ _ _) as [[[prev off] total]|] eqn:E; [|done].
  apply parse_inputs_inv in E as (records & Hn & Ha & Hin & Hst & Hinc & -> & -> & ->);
    [|done|unfold is_u64, u64_max; lia].
  rewrite !andb_true_iff, Nat.eqb_eq, Z.eqb_eq in Hbody. destruct Hbody as [[Ho Hp] Hr].
  unfold is_u32 in Hcr. exists records.
  assert (Hframes : first_frame records = im_first_frame_index md /\
                    last_frame records = im_last_frame_index md).
  { destruct records as [|r l].
    - simpl in Hn. rewrite (proj2 (Z.eqb_eq _ 0)) in Hr by lia.
      rewrite andb_true_iff, !Z.eqb_eq in Hr. unfold first_frame, last_frame. simpl. lia.
    - simpl in Hn. rewrite (proj2 (Z.eqb_neq _ 0)) in Hr by lia. destruct Ha as [Ha _].
      unfold input_log_header_size in *. rewrite (ia_frame _ _ _ Ha) in Hr.
      rewrite !andb_true_iff, !Z.eqb_eq in Hr. unfold final_frame, first_frame, last_frame in *.
      rewrite last_cons in *. simpl. destruct (last l); simpl in *; lia. }
  split_and!; try (done || lia || apply Hframes).
  unfold InputLogRecordCursor_default. rewrite (read_inputs_at records); try done; try lia.
  - by rewrite Hst, <- Ho.
  - unfold u64_max. lia.
Qed.

(** A change of any single byte of an accepted input log makes the parser
    reject it. *)
Theorem input_log_single_byte_corruption bs max_bytes max_records md i x y :
  bytes_ok bs -> parse_input_log_artifact bs max_bytes max_records = (ok, md) ->
  bs !! i = Some x -> is_u8 y -> x <> y ->
  parse_input_log_artifact (<[i := y]> bs) max_bytes max_records =
    (invalid_artifact, InputLogMetadata_default).
Proof.
  intros Hb Hp Hi Hy Hne.
  destruct (parse_log_status (<[i:=y]> bs) max_bytes max_records) as [Hs|]; [|done]. exfalso.
  destruct (parse_input_log_artifact (<[i:=y]> bs) max_bytes max_records) as [s md'] eqn:Hp'.
  simpl in Hs. subst s.
  assert (Hb' : bytes_ok (<[i:=y]> bs)) by (by apply Forall_insert).
  apply parse_log_ok_inv in Hp as (Hl & _ & Hh & Hbody).
  apply parse_log_ok_inv in Hp' as (_ & _ & Hh' & Hbody').
  apply parse_log_header_inv in Hh as (Hc & _); [|done].
  apply parse_log_header_inv in Hh' as (Hc' & _); [|done].
  unfold parse_input_body, kInputLogChecksumOffset in *.
  apply andb_true_iff in Hbody as [E%Z.eqb_eq _]. apply andb_true_iff in Hbody' as [E'%Z.eqb_eq _].
  destruct (decide (80 <= i < 80 + 8)%nat) as [Hin|Hout].
  - apply (load_u64_change bs 80 i x y Hb Hy Hi Hne Hin ltac:(lia)). rewrite Hc, Hc', <- E, <- E'.
    f_equal. apply checksum_excluding_agree; apply agree_insert; lia.
  - apply (checksum_excluding_change bs 80 8 i x y Hb Hy Hi Hne Hout). rewrite E, E'.
    assert (Hla : load_u64_le (<[i:=y]> bs) 80 = load_u64_le bs 80)
      by (apply load_agree, agree_insert; done). congruence.
Qed.

(** ** Witnesses *)

Definition sample_log_metadata : InputLogMetadata :=
  mkInputLogMetadata 1 1 2 1 3 11 12 0 0 0 0 0 0 (padded [115; 105; 109]).
Definition sample_inputs : list InputRecord :=
  [mkInputRecord (mkFrame 4 5 (Some 7) None) 9 [1; 2];
   mkInputRecord (mkFrame 8 5 None (Some 3)) 9 []].
Definition sample_log : list Z :=
  take 290 (snd (encode_input_log_artifact sample_log_metadata sample_inputs 2 1000
                   (replicate 300 0))).

Lemma sample_log_metadata_typed : log_metadata_typed sample_log_metadata.
Proof.
  constructor; try (vm_compute; split; discriminate); try (vm_compute; discriminate).
  by exists [115; 105; 109].
Qed.

Lemma sample_inputs_typed : Forall input_typed sample_inputs.
Proof. repeat constructor; try (vm_compute; discriminate); done. Qed.

Lemma sample_log_ok : bytes_ok sample_log.
Proof.
  unfold bytes_ok. apply Forall_forall. intros x Hx.
  assert (H : forallb (fun b => (0 <=? b) && (b <? 256)) sample_log = true)
    by (vm_compute; reflexivity).
  rewrite forallb_forall in H. specialize (H x (proj1 (list_elem_of_In _ _) Hx)).
  rewrite andb_true_iff, Z.leb_le, Z.ltb_lt in H. done.
Qed.

Lemma input_log_roundtrip_witness : exists bytes checksum,
  encode_input_log_artifact sample_log_metadata sample_inputs 2 1000 (replicate 291 0) =
    (ok, mkWriteResult 290 290 checksum, bytes ++ [0]) /\
  parse_input_log_artifact bytes 1000 2 =
    (ok, sealed_log_metadata sample_log_metadata sample_inputs 2 290 checksum).
Proof.
  destruct (input_log_roundtrip sample_log_metadata sample_inputs 1000 2 (replicate 291 0)
    sample_log_metadata_typed eq_refl sample_inputs_typed) as (b & c & E1 & _ & E2 & _).
  - split; [exact I|]. split; [reflexivity|exact I].
  - vm_compute. split; discriminate.
  - vm_compute. split; discriminate.
  - vm_compute. discriminate.
  - exists b, c. split; [exact E1|exact E2].
Defined.

Lemma input_log_parse_walk_witness :
  exists records, frames_increase None records /\ length records = 2%nat.
Proof.
  destruct (input_log_parse_walk sample_log 1000 2
    (snd (parse_input_log_artifact sample_log 1000 2)) sample_log_ok)
    as (_ & _ & _ & records & Hn & _ & Hinc & _).
  - vm_compute. reflexivity.
  - exists records. split; [exact Hinc|]. apply Nat2Z.inj. rewrite Hn. vm_compute. reflexivity.
Defined.

Lemma input_log_single_byte_corruption_witness :
  parse_input_log_artifact (<[85%nat := 77]> sample_log) 1000 2 =
    (invalid_artifact, InputLogMetadata_default).
Proof.
  apply (input_log_single_byte_corruption sample_log 1000 2
    (snd (parse_input_log_artifact sample_log 1000 2)) 85 (sample_log !!! 85%nat) 77 sample_log_ok).
  - vm_compute. reflexivity.
  - vm_compute. reflexivity.
  - vm_compute. split; [discriminate|reflexivity].
  - vm_compute. discriminate.
Defined.
