(* ===== verification/SnapshotStore.v ===== *)
(** * The snapshot store (SnapshotStore of src/rt/src/cross_rate_data.cpp)

    A store of [slot_count] payload slots, each owned through one packed atomic
    word: a generation and one of the states free, writing, published,
    reading.  The operations are first given as the code runs them alone, then
    as atomic steps of one producer and one consumer that interleave freely:
    each atomic load, compare-exchange and store is a step, and so is each byte
    of a [memcpy].  Atomic accesses are sequentially consistent here; weaker
    orders of the C++ memory model are not modelled. *)

From stdpp Require Import base list numbers sets.
From Stdlib Require Import ZArith Lia Bool.
From S2P Require Import Prelude CanonicalBytes.

Local Open Scope Z_scope.

(** ** Control words *)

Definition kStateMask : Z := 3.
Definition kFree : Z := 0.
Definition kWriting : Z := 1.
Definition kPublished : Z := 2.
Definition kReading : Z := 3.

Definition encode_control (generation state : Z) : Z := Z.lor (u64 (Z.shiftl generation 2)) state.
Definition control_generation (control : Z) : Z := Z.shiftr control 2.
Definition control_state (control : Z) : Z := Z.land control kStateMask.
Definition maximum_generation : Z := Z.shiftr u64_max 2.

Inductive SnapshotStoreResult : Set :=
| ss_ok
| ss_capacity_exceeded
| ss_not_ready
| ss_stale_generation
| ss_invalid_argument.

Inductive SnapshotRetention : Set :=
| retain
| retire_sample
| retention_other (raw : Z).

(** [controls_] and [payload_] are null in a default-constructed store. *)
Record SnapshotStore : Set := mkStore {
  ss_payload_size : nat;
  ss_slot_count : nat;
  ss_next_generation : Z;
  ss_allocated : bool;
  ss_controls : list Z;
  ss_payload : list Z
}.

Definition empty_store : SnapshotStore := mkStore 0 0 1 false [] [].

(** Allocation failure is not modelled. *)
Definition create (payload_size slot_count : nat) (output : SnapshotStore) : Status * SnapshotStore :=
  if Nat.eqb payload_size 0 || Nat.eqb slot_count 0 ||
     (u64_max / Z.of_nat payload_size <? Z.of_nat slot_count)
  then (invalid_config, output)
  else (ok, mkStore payload_size slot_count 1 true (replicate slot_count 0)
              (replicate (payload_size * slot_count) 0)).

Definition slot_of (slot_count : nat) (generation : Z) : nat :=
  Z.to_nat ((generation - 1) mod Z.of_nat slot_count).

Definition set_control (st : SnapshotStore) (slot : nat) (word : Z) : SnapshotStore :=
  mkStore (ss_payload_size st) (ss_slot_count st) (ss_next_generation st) (ss_allocated st)
    (<[slot := word]> (ss_controls st)) (ss_payload st).

Definition set_next (st : SnapshotStore) (next : Z) : SnapshotStore :=
  mkStore (ss_payload_size st) (ss_slot_count st) next (ss_allocated st)
    (ss_controls st) (ss_payload st).

Definition write_bytes (st : SnapshotStore) (position : nat) (bytes : list Z) : SnapshotStore :=
  mkStore (ss_payload_size st) (ss_slot_count st) (ss_next_generation st) (ss_allocated st)
    (ss_controls st) (list_inserts position bytes (ss_payload st)).

Definition generation_valid (generation : Z) : bool :=
  negb (generation =? 0) && (generation <=? maximum_generation).

Definition following_generation (generation : Z) : Z :=
  if generation =? maximum_generation then 0 else u64 (generation + 1).

(** ** The tests each operation makes before its compare-exchange

    [Some r] is an early return; the control word is the value of the load. *)

Definition publish_test (st : SnapshotStore) (generation : Z) (payload : list Z)
    : option SnapshotStoreResult :=
  if negb (ss_allocated st) || negb (Nat.eqb (length payload) (ss_payload_size st)) ||
     negb (generation_valid generation) || negb (generation =? ss_next_generation st)
  then Some ss_invalid_argument
  else if negb (control_state (ss_controls st !!! slot_of (ss_slot_count st) generation) =? kFree)
  then Some ss_capacity_exceeded
  else None.

Definition copy_test (st : SnapshotStore) (generation : Z) (output_size : nat)
    (retention : SnapshotRetention) : option SnapshotStoreResult :=
  if negb (ss_allocated st) || negb (Nat.eqb output_size (ss_payload_size st)) ||
     negb (generation_valid generation) ||
     match retention with retention_other _ => true | _ => false end
  then Some ss_invalid_argument
  else
    let observed := ss_controls st !!! slot_of (ss_slot_count st) generation in
    if (control_generation observed <? generation) ||
       ((control_generation observed =? generation) && (control_state observed =? kWriting))
    then Some ss_not_ready
    else if (generation <? control_generation observed) ||
            ((control_generation observed =? generation) && (control_state observed =? kFree))
    then Some ss_stale_generation
    else if negb (control_state observed =? kPublished) then Some ss_not_ready
    else None.

Definition retire_test (st : SnapshotStore) (generation : Z) : option SnapshotStoreResult :=
  if negb (ss_allocated st) || negb (generation_valid generation) then Some ss_invalid_argument
  else
    let observed := ss_controls st !!! slot_of (ss_slot_count st) generation in
    if negb (control_generation observed =? generation)
    then Some (if control_generation observed <? generation then ss_not_ready
               else ss_stale_generation)
    else if negb (control_state observed =? kPublished) then Some ss_not_ready
    else None.

Definition retained_state (retention : SnapshotRetention) : Z :=
  match retention with retain => kPublished | _ => kFree end.

(** ** The operations without interference *)

Definition publish (st : SnapshotStore) (generation : Z) (payload : list Z)
    : SnapshotStoreResult * SnapshotStore :=
  match publish_test st generation payload with
  | Some r => (r, st)
  | None =>
      let slot := slot_of (ss_slot_count st) generation in
      let st := set_control st slot (encode_control generation kWriting) in
      let st := write_bytes st (slot * ss_payload_size st) payload in
      let st := set_control st slot (encode_control generation kPublished) in
      (ss_ok, set_next st (following_generation generation))
  end.

(** The result, the bytes copied (when it is [ss_ok]) and the store. *)
Definition copy (st : SnapshotStore) (generation : Z) (output_size : nat)
    (retention : SnapshotRetention) : SnapshotStoreResult * list Z * SnapshotStore :=
  match copy_test st generation output_size retention with
  | Some r => (r, [], st)
  | None =>
      let slot := slot_of (ss_slot_count st) generation in
      let st := set_control st slot (encode_control generation kReading) in
      let out := subspan (ss_payload st) (slot * ss_payload_size st) (ss_payload_size st) in
      (ss_ok, out, set_control st slot (encode_control generation (retained_state retention)))
  end.

Definition retire (st : SnapshotStore) (generation : Z) : SnapshotStoreResult * SnapshotStore :=
  match retire_test st generation with
  | Some r => (r, st)
  | None =>
      (ss_ok, set_control st (slot_of (ss_slot_count st) generation)
                (encode_control generation kFree))
  end.

Definition can_publish (st : SnapshotStore) (generation : Z) : bool :=
  ss_allocated st && generation_valid generation && (generation =? ss_next_generation st) &&
  (control_state (ss_controls st !!! slot_of (ss_slot_count st) generation) =? kFree).

Definition restore_committed (st : SnapshotStore) (generation next_generation : Z)
    (payload : list Z) : SnapshotStoreResult * SnapshotStore :=
  if negb (ss_allocated st) || negb (Nat.eqb (length payload) (ss_payload_size st)) ||
     negb (generation_valid generation) ||
     (negb (next_generation =? 0) &&
      ((maximum_generation <? next_generation) ||
       negb (next_generation =? u64 (generation + 1))))
  then (ss_invalid_argument, st)
  else
    let slot := slot_of (ss_slot_count st) generation in
    let st := mkStore (ss_payload_size st) (ss_slot_count st) (ss_next_generation st)
                (ss_allocated st) (replicate (ss_slot_count st) 0) (ss_payload st) in
    let st := write_bytes st (slot * ss_payload_size st) payload in
    let st := set_control st slot (encode_control generation kPublished) in
    (ss_ok, set_next st next_generation).

(** ** Interleaved execution *)

(** Where the producer is: outside a call, after the load of [publish] or
    [retire], and in the [memcpy] with [k] bytes written.  Either side may
    retire a generation: the runtime does so before it publishes, and a copy
    does so on request. *)
Inductive Producer : Set :=
| P_idle
| P_claim (generation : Z) (payload : list Z) (observed : Z)
| P_copy (generation : Z) (payload : list Z) (k : nat)
| P_retire (generation : Z) (observed : Z).

Inductive Consumer : Set :=
| C_idle
| C_claim (generation : Z) (retention : SnapshotRetention) (observed : Z)
| C_copy (generation : Z) (retention : SnapshotRetention) (buffer : list Z)
| C_retire (generation : Z) (observed : Z).

(** [sy_log] is a history variable: the payloads published so far, generation
    by generation. *)
Record System : Set := mkSystem {
  sy_store : SnapshotStore;
  sy_producer : Producer;
  sy_consumer : Consumer;
  sy_log : list (list Z)
}.

(** What a call returns to its caller. *)
Inductive Event : Set :=
| ev_publish (generation : Z) (payload : list Z) (result : SnapshotStoreResult)
| ev_copy (generation : Z) (result : SnapshotStoreResult) (output : list Z)
| ev_retire (generation : Z) (result : SnapshotStoreResult)
| ev_internal.

Definition control_of (st : SnapshotStore) (generation : Z) : Z :=
  ss_controls st !!! slot_of (ss_slot_count st) generation.

Definition slot_start (st : SnapshotStore) (generation : Z) : nat :=
  slot_of (ss_slot_count st) generation * ss_payload_size st.

Definition cas_control (st : SnapshotStore) (generation state : Z) : SnapshotStore :=
  set_control st (slot_of (ss_slot_count st) generation) (encode_control generation state).

Inductive step : System -> Event -> System -> Prop :=
| publish_refused st c log g p r :
    publish_test st g p = Some r ->
    step (mkSystem st P_idle c log) (ev_publish g p r) (mkSystem st P_idle c log)
| publish_loaded st c log g p :
    is_u64 g ->
    publish_test st g p = None ->
    step (mkSystem st P_idle c log) ev_internal
         (mkSystem st (P_claim g p (control_of st g)) c log)
| publish_lost st c log g p observed :
    control_of st g <> observed ->
    step (mkSystem st (P_claim g p observed) c log) (ev_publish g p ss_capacity_exceeded)
         (mkSystem st P_idle c log)
| publish_claimed st c log g p observed :
    control_of st g = observed ->
    step (mkSystem st (P_claim g p observed) c log) ev_internal
         (mkSystem (cas_control st g kWriting) (P_copy g p 0) c log)
| publish_byte st c log g p k b :
    p !! k = Some b ->
    step (mkSystem st (P_copy g p k) c log) ev_internal
         (mkSystem (write_bytes st (slot_start st g + k) [b]) (P_copy g p (S k)) c log)
| publish_done st c log g p :
    step (mkSystem st (P_copy g p (length p)) c log) (ev_publish g p ss_ok)
         (mkSystem (set_next (cas_control st g kPublished) (following_generation g)) P_idle c
            (log ++ [p]))
| copy_refused st pr log g n rt r :
    copy_test st g n rt = Some r ->
    step (mkSystem st pr C_idle log) (ev_copy g r []) (mkSystem st pr C_idle log)
| copy_loaded st pr log g n rt :
    is_u64 g ->
    copy_test st g n rt = None ->
    step (mkSystem st pr C_idle log) ev_internal
         (mkSystem st pr (C_claim g rt (control_of st g)) log)
| copy_lost st pr log g rt observed :
    control_of st g <> observed ->
    step (mkSystem st pr (C_claim g rt observed) log) (ev_copy g ss_not_ready [])
         (mkSystem st pr C_idle log)
| copy_claimed st pr log g rt observed :
    control_of st g = observed ->
    step (mkSystem st pr (C_claim g rt observed) log) ev_internal
         (mkSystem (cas_control st g kReading) pr (C_copy g rt []) log)
| copy_byte st pr log g rt buf b :
    (length buf < ss_payload_size st)%nat ->
    ss_payload st !! (slot_start st g + length buf)%nat = Some b ->
    step (mkSystem st pr (C_copy g rt buf) log) ev_internal
         (mkSystem st pr (C_copy g rt (buf ++ [b])) log)
| copy_done st pr log g rt buf :
    length buf = ss_payload_size st ->
    step (mkSystem st pr (C_copy g rt buf) log) (ev_copy g ss_ok buf)
         (mkSystem (cas_control st g (retained_state rt)) pr C_idle log)
| retire_refused st pr log g r :
    retire_test st g = Some r ->
    step (mkSystem st pr C_idle log) (ev_retire g r) (mkSystem st pr C_idle log)
| retire_loaded st pr log g :
    is_u64 g -> retire_test st g = None ->
    step (mkSystem st pr C_idle log) ev_internal
         (mkSystem st pr (C_retire g (control_of st g)) log)
| retire_lost st pr log g observed :
    control_of st g <> observed ->
    step (mkSystem st pr (C_retire g observed) log) (ev_retire g ss_not_ready)
         (mkSystem st pr C_idle log)
| retire_done st pr log g observed :
    control_of st g = observed ->
    step (mkSystem st pr (C_retire g observed) log) (ev_retire g ss_ok)
         (mkSystem (cas_control st g kFree) pr C_idle log)
| producer_retire_refused st c log g r :
    retire_test st g = Some r ->
    step (mkSystem st P_idle c log) (ev_retire g r) (mkSystem st P_idle c log)
| producer_retire_loaded st c log g :
    is_u64 g -> retire_test st g = None ->
    step (mkSystem st P_idle c log) ev_internal
         (mkSystem st (P_retire g (control_of st g)) c log)
| producer_retire_lost st c log g observed :
    control_of st g <> observed ->
    step (mkSystem st (P_retire g observed) c log) (ev_retire g ss_not_ready)
         (mkSystem st P_idle c log)
| producer_retire_done st c log g observed :
    control_of st g = observed ->
    step (mkSystem st (P_retire g observed) c log) (ev_retire g ss_ok)
         (mkSystem (cas_control st g kFree) P_idle c log).

(** Systems reachable from a freshly created store. *)
Inductive reachable (payload_size slot_count : nat) : System -> Prop :=
| reach_create st :
    create payload_size slot_count empty_store = (ok, st) ->
    reachable payload_size slot_count (mkSystem st P_idle C_idle [])
| reach_step s e s' :
    reachable payload_size slot_count s -> step s e s' ->
    reachable payload_size slot_count s'.
