(* ===== verification/SnapshotStoreTheorems.v ===== *)
(** * Correctness of the snapshot store

    The invariant of the interleaved system, that a copy returns exactly the
    payload of the generation it asked for whatever the interleaving, that the
    producer never writes a slot that is being read, and the behaviour of the
    operations when they run alone. *)

From stdpp Require Import base list numbers sets.
From Stdlib Require Import ZArith Lia Bool.
From S2P Require Import Prelude CanonicalBytes SnapshotStore.

Local Open Scope Z_scope.

(** ** Control words *)

Definition generation_range (g : Z) : Prop := 0 <= g <= maximum_generation.

Lemma encode_control_eq g s :
  generation_range g -> 0 <= s <= 3 -> encode_control g s = 4 * g + s.
Proof.
  intros Hg Hs. unfold encode_control, generation_range in *.
  change maximum_generation with 4611686018427387903 in Hg.
  assert (E : u64 (Z.shiftl g 2) = Z.shiftl g 2).
  { unfold u64. apply Z.mod_small. rewrite Z.shiftl_mul_pow2 by lia. simpl. lia. }
  rewrite E, lor_shiftl_add by (simpl; lia). simpl. lia.
Qed.

Lemma control_generation_encode g s :
  generation_range g -> 0 <= s <= 3 -> control_generation (encode_control g s) = g.
Proof.
  intros Hg Hs. rewrite encode_control_eq by done. unfold control_generation.
  rewrite Z.shiftr_div_pow2 by lia. change (2 ^ 2) with 4.
  rewrite Z.mul_comm, Z.div_add_l, Z.div_small by lia. lia.
Qed.

Lemma control_state_encode g s :
  generation_range g -> 0 <= s <= 3 -> control_state (encode_control g s) = s.
Proof.
  intros Hg Hs. rewrite encode_control_eq by done. unfold control_state, kStateMask.
  change 3 with (Z.ones 2). rewrite Z.land_ones by lia. change (2 ^ 2) with 4.
  rewrite Z.mul_comm, Z.add_comm, Z.mod_add, Z.mod_small by lia. done.
Qed.

Lemma generation_valid_spec g : generation_valid g = true <-> 1 <= g <= maximum_generation \/ g < 0.
Proof.
  unfold generation_valid. rewrite andb_true_iff, negb_true_iff, Z.eqb_neq, Z.leb_le.
  change maximum_generation with 4611686018427387903. lia.
Qed.

(** ** The invariant *)

Definition writing_generation (p : Producer) : option Z :=
  match p with P_copy g _ _ => Some g | _ => None end.
Definition reading_generation (c : Consumer) : option Z :=
  match c with C_copy g _ _ => Some g | _ => None end.

(** The payload of a published generation. *)
Definition logged (log : list (list Z)) (g : Z) : option (list Z) :=
  if 1 <=? g then log !! Z.to_nat (g - 1) else None.

(** What a control word says of its slot, with the bytes the slot holds. *)
Inductive slot_ok (writing reading : option Z) (log : list (list Z)) (count : nat)
    (bytes : list Z) (i : nat) : Z -> Prop :=
| so_free g :
    0 <= g <= Z.of_nat (length log) -> (g <> 0 -> slot_of count g = i) ->
    slot_ok writing reading log count bytes i (encode_control g kFree)
| so_writing g :
    writing = Some g -> slot_of count g = i ->
    slot_ok writing reading log count bytes i (encode_control g kWriting)
| so_published g :
    slot_of count g = i -> logged log g = Some bytes ->
    slot_ok writing reading log count bytes i (encode_control g kPublished)
| so_reading g :
    reading = Some g -> slot_of count g = i -> logged log g = Some bytes ->
    slot_ok writing reading log count bytes i (encode_control g kReading).

Lemma logged_range log g p : logged log g = Some p -> 1 <= g <= Z.of_nat (length log).
Proof.
  unfold logged. destruct (Z.leb_spec 1 g) as [H|H]; [|done]. intros Hl%lookup_lt_Some. lia.
Qed.

Lemma logged_app log log' g p : logged log g = Some p -> logged (log ++ log') g = Some p.
Proof.
  unfold logged. destruct (1 <=? g); [|done]. intros H. by apply lookup_app_l_Some.
Qed.

Lemma slot_ok_frame w w' r r' log log' count bytes i word :
  slot_ok w r log count bytes i word ->
  (forall g, w = Some g -> slot_of count g = i -> w' = Some g) ->
  (forall g, r = Some g -> slot_of count g = i -> r' = Some g) ->
  slot_ok w' r' (log ++ log') count bytes i word.
Proof.
  intros [g Hg Hi|g Hw Hi|g Hi Hl|g Hr Hi Hl] H1 H2.
  - apply so_free; [rewrite length_app; lia|done].
  - apply so_writing; auto.
  - apply so_published; [done|by apply logged_app].
  - apply so_reading; auto using logged_app.
Qed.

Definition slot_bytes (st : SnapshotStore) (i : nat) : list Z :=
  subspan (ss_payload st) (i * ss_payload_size st) (ss_payload_size st).

Record store_shape (size count : nat) (st : SnapshotStore) : Prop := {
  sh_size : ss_payload_size st = size;
  sh_count : ss_slot_count st = count;
  sh_positive : size <> 0%nat /\ count <> 0%nat;
  sh_allocated : ss_allocated st = true;
  sh_controls : length (ss_controls st) = count;
  sh_payload : length (ss_payload st) = (size * count)%nat
}.

Definition next_ok (log : list (list Z)) (next : Z) : Prop :=
  (next = Z.of_nat (length log) + 1 /\ next <= maximum_generation) \/
  (next = 0 /\ Z.of_nat (length log) = maximum_generation).

Definition producer_ok (size count : nat) (st : SnapshotStore) (p : Producer) : Prop :=
  match p with
  | P_idle => True
  | P_claim g payload observed =>
      g = ss_next_generation st /\ 1 <= g <= maximum_generation /\ length payload = size /\
      control_state observed = kFree
  | P_copy g payload k =>
      g = ss_next_generation st /\ 1 <= g <= maximum_generation /\ length payload = size /\
      (k <= size)%nat /\ control_of st g = encode_control g kWriting /\
      take k (slot_bytes st (slot_of count g)) = take k payload
  | P_retire g observed =>
      1 <= g <= maximum_generation /\ control_generation observed = g /\
      control_state observed = kPublished
  end.

Definition consumer_ok (size count : nat) (st : SnapshotStore) (log : list (list Z))
    (c : Consumer) : Prop :=
  match c with
  | C_idle => True
  | C_claim g _ observed =>
      1 <= g <= maximum_generation /\ control_generation observed = g /\
      control_state observed = kPublished
  | C_retire g observed =>
      1 <= g <= maximum_generation /\ control_generation observed = g /\
      control_state observed = kPublished
  | C_copy g _ buf =>
      1 <= g <= maximum_generation /\ (length buf <= size)%nat /\
      control_of st g = encode_control g kReading /\
      buf = take (length buf) (slot_bytes st (slot_of count g))
  end.

Record system_inv (size count : nat) (s : System) : Prop := {
  iv_shape : store_shape size count (sy_store s);
  iv_next : next_ok (sy_log s) (ss_next_generation (sy_store s));
  iv_slots : forall i word, ss_controls (sy_store s) !! i = Some word ->
    slot_ok (writing_generation (sy_producer s)) (reading_generation (sy_consumer s))
      (sy_log s) count (slot_bytes (sy_store s) i) i word;
  iv_producer : producer_ok size count (sy_store s) (sy_producer s);
  iv_consumer : consumer_ok size count (sy_store s) (sy_log s) (sy_consumer s)
}.

(** *** Slots and bytes *)

Lemma slot_of_lt count g : count <> 0%nat -> (slot_of count g < count)%nat.
Proof. intros H. unfold slot_of. pose proof (Z.mod_pos_bound (g - 1) (Z.of_nat count)). lia. Qed.

Lemma control_lookup size count st g :
  store_shape size count st ->
  ss_controls st !! slot_of count g = Some (control_of st g).
Proof.
  intros [_ Hc [_ Hp] _ Hl _]. unfold control_of. rewrite Hc.
  apply list_lookup_lookup_total_lt. rewrite Hl. by apply slot_of_lt.
Qed.

Lemma slot_bytes_length size count st i :
  store_shape size count st -> (i < count)%nat -> length (slot_bytes st i) = size.
Proof. intros [Hs _ _ _ _ Hp] Hi. unfold slot_bytes. rewrite Hs. apply length_subspan. nia. Qed.

Lemma shape_set_control size count st i w :
  store_shape size count st -> store_shape size count (set_control st i w).
Proof. intros [? ? ? ? ? ?]. constructor; simpl; rewrite ?length_insert; done. Qed.

Lemma shape_write size count st o d :
  store_shape size count st -> store_shape size count (write_bytes st o d).
Proof. intros [? ? ? ? ? ?]. constructor; simpl; rewrite ?length_inserts; done. Qed.

Lemma shape_next size count st g :
  store_shape size count st -> store_shape size count (set_next st g).
Proof. by intros [? ? ? ? ? ?]. Qed.

Lemma slot_bytes_other size count st i j k b :
  store_shape size count st -> i <> j -> (k < size)%nat ->
  slot_bytes (write_bytes st (j * size + k) [b]) i = slot_bytes st i.
Proof.
  intros [Hs _ _ _ _ _] Hij Hk. unfold slot_bytes. simpl ss_payload_size. rewrite Hs.
  apply subspan_write_other. simpl. nia.
Qed.

Lemma slot_bytes_write size count st j k b :
  store_shape size count st -> (j < count)%nat -> (k < size)%nat ->
  slot_bytes (write_bytes st (j * size + k) [b]) j = <[k := b]> (slot_bytes st j).
Proof.
  intros Hsh Hj Hk. pose proof Hsh as [Hs _ _ _ _ Hp]. unfold slot_bytes. simpl ss_payload_size. rewrite Hs.
  simpl. apply list_eq. intros i. destruct (decide (i < size)%nat) as [Hi|Hi].
  - rewrite lookup_subspan by done. destruct (decide (i = k)) as [->|Hne].
    + rewrite !list_lookup_insert_eq; [done| |].
      * rewrite length_subspan; [done|nia].
      * rewrite Hp. nia.
    + rewrite !list_lookup_insert_ne by lia. by rewrite lookup_subspan.
  - rewrite !lookup_ge_None_2; [done| |].
    + rewrite length_insert, length_subspan; [lia|nia].
    + rewrite length_subspan; [lia|]. rewrite length_insert. nia.
Qed.

(** *** Words of one slot *)

Lemma range_log log g next :
  next_ok log next -> 0 <= g <= Z.of_nat (length log) -> generation_range g.
Proof.
  unfold next_ok, generation_range. change maximum_generation with 4611686018427387903. lia.
Qed.

Lemma generation_valid_u64 g :
  is_u64 g -> generation_valid g = true -> 1 <= g <= maximum_generation.
Proof. unfold is_u64. intros H [?|?]%generation_valid_spec; lia. Qed.

(** A word that reads as published for [g] is the published word of [g]. *)
Lemma slot_ok_published w r log count bytes i word next :
  slot_ok w r log count bytes i word -> next_ok log next ->
  (forall g, w = Some g -> generation_range g) -> control_state word = kPublished ->
  exists g, word = encode_control g kPublished /\ control_generation word = g /\
    slot_of count g = i /\ logged log g = Some bytes.
Proof.
  intros [g Hg Hi|g Hw Hi|g Hi Hl|g Hr Hi Hl] Hn Hwr Hst.
  - rewrite control_state_encode in Hst; [done|by eapply range_log|done].
  - rewrite control_state_encode in Hst; [done|auto|done].
  - exists g. rewrite control_generation_encode; [done| |done].
    eapply range_log; [done|]. apply logged_range in Hl. lia.
  - rewrite control_state_encode in Hst; [done| |done].
    eapply range_log; [done|]. apply logged_range in Hl. lia.
Qed.

Lemma encode_control_inj g g' x x' :
  generation_range g -> generation_range g' -> 0 <= x <= 3 -> 0 <= x' <= 3 ->
  encode_control g x = encode_control g' x' -> g = g' /\ x = x'.
Proof. intros Hg Hg' Hx Hx'. rewrite !encode_control_eq by done. lia. Qed.

Lemma slot_ok_reading w r log count bytes i word next :
  slot_ok w r log count bytes i word -> next_ok log next ->
  (forall g, w = Some g -> generation_range g) -> control_state word = kReading ->
  exists g, word = encode_control g kReading /\ generation_range g /\
    slot_of count g = i /\ logged log g = Some bytes.
Proof.
  intros [g Hg Hi|g Hw Hi|g Hi Hl|g Hr Hi Hl] Hn Hwr Hst.
  - rewrite control_state_encode in Hst; [done|by eapply range_log|done].
  - rewrite control_state_encode in Hst; [done|auto|done].
  - rewrite control_state_encode in Hst; [done| |done].
    eapply range_log; [done|]. apply logged_range in Hl. lia.
  - exists g. split_and!; try done. eapply range_log; [done|]. apply logged_range in Hl. lia.
Qed.

(** *** Frames of the control words *)

Section Frame.
Context (size count : nat) (st : SnapshotStore).
Context (Hsh : store_shape size count st).

Lemma control_of_set g g' w :
  slot_of count g' <> slot_of count g ->
  control_of (set_control st (slot_of (ss_slot_count st) g) w) g' = control_of st g'.
Proof.
  intros H. unfold control_of. simpl. rewrite (sh_count _ _ _ Hsh).
  by rewrite list_lookup_total_insert_ne.
Qed.

Lemma control_of_set_same g w :
  control_of (set_control st (slot_of (ss_slot_count st) g) w) g = w.
Proof.
  unfold control_of. simpl. rewrite (sh_count _ _ _ Hsh).
  apply list_lookup_total_insert_eq. rewrite (sh_controls _ _ _ Hsh).
  apply slot_of_lt, Hsh.
Qed.

Lemma control_of_slot g g' :
  slot_of count g = slot_of count g' -> control_of st g = control_of st g'.
Proof. intros E. unfold control_of. by rewrite (sh_count _ _ _ Hsh), E. Qed.

Lemma producer_ok_set p g w :
  producer_ok size count st p ->
  (forall g', writing_generation p = Some g' -> slot_of count g' <> slot_of count g) ->
  producer_ok size count (set_control st (slot_of (ss_slot_count st) g) w) p.
Proof.
  destruct p as [|g' pl o|g' pl k|g' o]; simpl; try done.
  intros (H1 & H2 & H3 & H4 & H5 & H6) Hne. split_and!; try done; try lia.
  rewrite control_of_set; [done|]. by apply Hne.
Qed.

Lemma consumer_ok_set log c g w :
  consumer_ok size count st log c ->
  (forall g', reading_generation c = Some g' -> slot_of count g' <> slot_of count g) ->
  consumer_ok size count (set_control st (slot_of (ss_slot_count st) g) w) log c.
Proof.
  destruct c as [|g' rt o|g' rt buf|g' o]; simpl; try done.
  intros (H1 & H2 & H3 & H4) Hne. split_and!; try done; try lia.
  rewrite control_of_set; [done|]. by apply Hne.
Qed.

(** A slot in another state is not the one being written or read. *)
Lemma writing_slot_ne p g :
  producer_ok size count st p -> control_state (control_of st g) <> kWriting ->
  forall g', writing_generation p = Some g' -> slot_of count g' <> slot_of count g.
Proof.
  intros Hp Hst g' Hg' E. destruct p as [| |g0 pl k|]; try done. injection Hg' as ->.
  destruct Hp as (_ & Hr & _ & _ & Hc & _). apply Hst.
  rewrite (control_of_slot g g') by done. rewrite Hc, control_state_encode; [done|unfold generation_range; lia|done].
Qed.

Lemma reading_slot_ne log c g :
  consumer_ok size count st log c -> control_state (control_of st g) <> kReading ->
  forall g', reading_generation c = Some g' -> slot_of count g' <> slot_of count g.
Proof.
  intros Hp Hst g' Hg' E. destruct c as [| |g0 rt buf|]; try done. injection Hg' as ->.
  destruct Hp as (Hr & _ & Hc & _). apply Hst.
  rewrite (control_of_slot g g') by done. rewrite Hc, control_state_encode; [done|unfold generation_range; lia|done].
Qed.

(** The slots after one control word changed. *)
Lemma slots_set w w' r r' log ext g word :
  (forall i x, ss_controls st !! i = Some x -> slot_ok w r log count (slot_bytes st i) i x) ->
  slot_ok w' r' (log ++ ext) count (slot_bytes st (slot_of count g)) (slot_of count g) word ->
  (forall g', w = Some g' -> slot_of count g' <> slot_of count g -> w' = Some g') ->
  (forall g', r = Some g' -> slot_of count g' <> slot_of count g -> r' = Some g') ->
  forall i x, ss_controls (set_control st (slot_of (ss_slot_count st) g) word) !! i = Some x ->
    slot_ok w' r' (log ++ ext) count
      (slot_bytes (set_control st (slot_of (ss_slot_count st) g) word) i) i x.
Proof.
  intros Hs Hj Hw Hr i x. simpl. rewrite (sh_count _ _ _ Hsh).
  rewrite list_lookup_insert_Some. intros [(<- & <- & _)|[Hne Hx]]; [done|].
  eapply slot_ok_frame; [by apply Hs| |]; naive_solver.
Qed.
End Frame.

Lemma writing_range size count st p g :
  producer_ok size count st p -> writing_generation p = Some g -> generation_range g.
Proof.
  destruct p; try done. intros (_ & H & _) [= <-]. unfold generation_range. lia.
Qed.

(** ** Preservation *)

Lemma inv_create size count st :
  create size count empty_store = (ok, st) -> system_inv size count (mkSystem st P_idle C_idle []).
Proof.
  unfold create. destruct (Nat.eqb_spec size 0); [done|]. destruct (Nat.eqb_spec count 0); [done|].
  destruct (_ <? _); [done|]. intros [= <-]. constructor; simpl; try done.
  - constructor; simpl; rewrite ?length_replicate; done.
  - left. simpl. change maximum_generation with 4611686018427387903. lia.
  - intros i x [-> Hi]%lookup_replicate. apply (so_free _ _ _ _ _ _ 0); simpl; [lia|done].
Qed.

Ltac inv_split Hinv :=
  destruct Hinv as [Hsh Hnext Hslots Hprod Hcons]; simpl in *.

(** Steps that only move a program counter outside the slots. *)
Lemma inv_producer_moves size count st p p' c log :
  system_inv size count (mkSystem st p c log) ->
  writing_generation p = writing_generation p' -> producer_ok size count st p' ->
  system_inv size count (mkSystem st p' c log).
Proof. intros Hinv E Hp. inv_split Hinv. constructor; simpl; try done. by rewrite <- E. Qed.

Lemma inv_consumer_moves size count st p c c' log :
  system_inv size count (mkSystem st p c log) ->
  reading_generation c = reading_generation c' -> consumer_ok size count st log c' ->
  system_inv size count (mkSystem st p c' log).
Proof. intros Hinv E Hp. inv_split Hinv. constructor; simpl; try done. by rewrite <- E. Qed.

Lemma publish_test_None size count st g p :
  store_shape size count st -> is_u64 g -> publish_test st g p = None ->
  g = ss_next_generation st /\ 1 <= g <= maximum_generation /\ length p = size /\
  control_state (control_of st g) = kFree.
Proof.
  intros Hsh Hu. unfold publish_test, control_of. rewrite (sh_allocated _ _ _ Hsh), (sh_size _ _ _ Hsh). simpl.
  destruct (Nat.eqb_spec (length p) size); [|done]. destruct (generation_valid g) eqn:Ev; [|done].
  destruct (Z.eqb_spec g (ss_next_generation st)); [|done]. simpl.
  destruct (Z.eqb_spec (control_state (ss_controls st !!! slot_of (ss_slot_count st) g)) kFree); [|done].
  intros _. split_and!; try done; by apply generation_valid_u64.
Qed.

Lemma copy_test_None size count st g n rt :
  store_shape size count st -> is_u64 g -> copy_test st g n rt = None ->
  1 <= g <= maximum_generation /\ control_generation (control_of st g) = g /\
  control_state (control_of st g) = kPublished.
Proof.
  intros Hsh Hu. unfold copy_test. rewrite (sh_allocated _ _ _ Hsh). simpl.
  destruct (Nat.eqb n _); [|done]. destruct (generation_valid g) eqn:Ev; [|done]. simpl.
  destruct rt; try done; fold (control_of st g); simpl.
  all: destruct (Z.ltb_spec (control_generation (control_of st g)) g); [done|]; simpl.
  all: destruct (_ && _); [done|].
  all: destruct (Z.ltb_spec g (control_generation (control_of st g))); [done|]; simpl.
  all: destruct (_ && _); [done|].
  all: destruct (Z.eqb_spec (control_state (control_of st g)) kPublished); [|done].
  all: intros _; split; [by apply generation_valid_u64|]; split; [lia|done].
Qed.

Lemma retire_test_None size count st g :
  store_shape size count st -> is_u64 g -> retire_test st g = None ->
  1 <= g <= maximum_generation /\ control_generation (control_of st g) = g /\
  control_state (control_of st g) = kPublished.
Proof.
  intros Hsh Hu. unfold retire_test. rewrite (sh_allocated _ _ _ Hsh). simpl.
  destruct (generation_valid g) eqn:Ev; [|done]. simpl. fold (control_of st g).
  destruct (Z.eqb_spec (control_generation (control_of st g)) g); [|done]. simpl.
  destruct (Z.eqb_spec (control_state (control_of st g)) kPublished); [|done].
  intros _. split; [by apply generation_valid_u64|done].
Qed.

Lemma inv_publish_claimed size count st c log g p observed :
  system_inv size count (mkSystem st (P_claim g p observed) c log) ->
  control_of st g = observed ->
  system_inv size count (mkSystem (cas_control st g kWriting) (P_copy g p 0) c log).
Proof.
  intros Hinv Ho. inv_split Hinv. destruct Hprod as (Hg & Hr & Hl & Hf). rewrite <- Ho in Hf.
  constructor; simpl.
  - by apply shape_set_control.
  - done.
  - intros i x Hx. rewrite <- (app_nil_r log).
    eapply (slots_set size count st Hsh None (Some g)); [done| |done|by intros; eauto|done].
    by apply so_writing.
  - split_and!; try done; try lia. by eapply control_of_set_same.
  - eapply consumer_ok_set; [done..|]. eapply reading_slot_ne; [done..|]. by rewrite Hf.
Qed.

Lemma inv_publish_byte size count st c log g p k b :
  system_inv size count (mkSystem st (P_copy g p k) c log) -> p !! k = Some b ->
  system_inv size count
    (mkSystem (write_bytes st (slot_start st g + k) [b]) (P_copy g p (S k)) c log).
Proof.
  intros Hinv Hb. inv_split Hinv. destruct Hprod as (Hg & Hr & Hl & Hk & Hc & Htake).
  apply lookup_lt_Some in Hb as Hkp.
  assert (Hj : (slot_of count g < count)%nat) by (apply slot_of_lt, Hsh).
  assert (Hw : control_state (control_of st g) <> kReading).
  { rewrite Hc, control_state_encode; [done|unfold generation_range; lia|done]. }
  unfold slot_start. rewrite (sh_count _ _ _ Hsh), (sh_size _ _ _ Hsh).
  assert (Hother : forall i, i <> slot_of count g ->
    slot_bytes (write_bytes st (slot_of count g * size + k) [b]) i = slot_bytes st i)
    by (intros i Hi; eapply slot_bytes_other; [done|done|lia]).
  constructor; simpl.
  - by apply shape_write.
  - done.
  - intros i x Hx. destruct (decide (i = slot_of count g)) as [->|Hne].
    + rewrite (control_lookup size count) in Hx by done. injection Hx as <-. rewrite Hc.
      by apply so_writing.
    + rewrite Hother by done. by apply Hslots.
  - split_and!; try done; try lia.
    erewrite slot_bytes_write; [|done|done|lia].
    rewrite (take_S_r (<[k:=b]> _) k b);
      [|rewrite list_lookup_insert_eq; [done|rewrite (slot_bytes_length size count st _ Hsh Hj); lia]].
    rewrite (take_S_r p k b) by done.
    rewrite take_insert_ge by lia. by rewrite Htake.
  - destruct c as [|g' rt o|g' rt buf|g' o]; try done. destruct Hcons as (H1 & H2 & H3 & H4).
    simpl. split_and!; try done; try lia. rewrite Hother; [done|].
    by apply (reading_slot_ne size count st Hsh log (C_copy g' rt buf) g).
Qed.

Lemma inv_publish_done size count st c log g p :
  system_inv size count (mkSystem st (P_copy g p (length p)) c log) ->
  system_inv size count
    (mkSystem (set_next (cas_control st g kPublished) (following_generation g)) P_idle c (log ++ [p])).
Proof.
  intros Hinv. inv_split Hinv. destruct Hprod as (Hg & Hr & Hl & Hk & Hc & Htake).
  assert (Hj : (slot_of count g < count)%nat) by (apply slot_of_lt, Hsh).
  assert (Hbytes : slot_bytes st (slot_of count g) = p).
  { rewrite (take_ge p) in Htake by lia. etransitivity; [|apply Htake]. symmetry. apply take_ge.
    rewrite (slot_bytes_length size count st _ Hsh Hj). lia. }
  assert (Hw : control_state (control_of st g) <> kReading).
  { rewrite Hc, control_state_encode; [done|unfold generation_range; lia|done]. }
  assert (Hlog : g = Z.of_nat (length log) + 1) by (destruct Hnext as [[? ?]|[? ?]]; lia).
  constructor; simpl.
  - by apply shape_next, shape_set_control.
  - unfold following_generation, next_ok. rewrite length_app. simpl.
    destruct (Z.eqb_spec g maximum_generation); [right; lia|left].
    unfold u64. rewrite Z.mod_small; [lia|]. change maximum_generation with 4611686018427387903 in *. lia.
  - intros i x Hx.
    eapply (slots_set size count st Hsh (Some g) None); [done| | |by intros; eauto|done].
    + apply so_published; [done|]. rewrite Hbytes. unfold logged.
      rewrite (proj2 (Z.leb_le _ _)) by lia. rewrite lookup_app_r by lia.
      by replace (Z.to_nat (g - 1) - length log)%nat with 0%nat by lia.
    + intros g' [= <-] H. done.
  - done.
  - assert (Hc' : consumer_ok size count (cas_control st g kPublished) log c).
    { eapply consumer_ok_set; [done..|]. by eapply reading_slot_ne. }
    by destruct c.
Qed.

Lemma inv_copy_claimed size count st pr log g rt observed :
  system_inv size count (mkSystem st pr (C_claim g rt observed) log) ->
  control_of st g = observed ->
  system_inv size count (mkSystem (cas_control st g kReading) pr (C_copy g rt []) log).
Proof.
  intros Hinv Ho. inv_split Hinv. destruct Hcons as (Hr & Hgen & Hf). rewrite <- Ho in Hf, Hgen.
  destruct (slot_ok_published _ _ _ _ _ _ _ _ (Hslots _ _ (control_lookup size count st g Hsh))
    Hnext (fun g' => writing_range size count st pr g' Hprod) Hf) as (g0 & _ & Eg & Hs & Hlog).
  assert (g0 = g) as -> by congruence. constructor; simpl.
  - by apply shape_set_control.
  - done.
  - intros i x Hx. rewrite <- (app_nil_r log).
    eapply (slots_set size count st Hsh _ _ None (Some g)); [done| |by intros; eauto|done|done].
    rewrite app_nil_r. by apply so_reading.
  - eapply producer_ok_set; [done..|]. eapply writing_slot_ne; [done..|]. by rewrite Hf.
  - split_and!; try done; try lia. by eapply control_of_set_same.
Qed.

Lemma inv_copy_byte size count st pr log g rt buf b :
  system_inv size count (mkSystem st pr (C_copy g rt buf) log) ->
  (length buf < ss_payload_size st)%nat ->
  ss_payload st !! (slot_start st g + length buf)%nat = Some b ->
  system_inv size count (mkSystem st pr (C_copy g rt (buf ++ [b])) log).
Proof.
  intros Hinv Hlen Hb. inv_split Hinv. destruct Hcons as (H1 & H2 & H3 & H4).
  constructor; simpl; try done. rewrite (sh_size _ _ _ Hsh) in Hlen.
  unfold slot_start in Hb. rewrite (sh_count _ _ _ Hsh), (sh_size _ _ _ Hsh) in Hb.
  rewrite length_app. simpl. rewrite Nat.add_1_r. split_and!; try done; try lia.
  rewrite (take_S_r _ _ b), <- H4; [done|]. unfold slot_bytes. rewrite (sh_size _ _ _ Hsh).
  by rewrite lookup_subspan.
Qed.

Lemma inv_copy_done size count st pr log g rt buf :
  system_inv size count (mkSystem st pr (C_copy g rt buf) log) ->
  length buf = ss_payload_size st ->
  system_inv size count (mkSystem (cas_control st g (retained_state rt)) pr C_idle log) /\
  logged log g = Some buf.
Proof.
  intros Hinv Hlen. inv_split Hinv. destruct Hcons as (H1 & H2 & H3 & H4).
  assert (Hgr : generation_range g) by (unfold generation_range; lia).
  assert (Hst : control_state (control_of st g) = kReading) by (by rewrite H3, control_state_encode).
  destruct (slot_ok_reading _ _ _ _ _ _ _ _ (Hslots _ _ (control_lookup size count st g Hsh))
    Hnext (fun g' => writing_range size count st pr g' Hprod) Hst) as (g0 & Eg & Hg0 & Hs & Hlog).
  rewrite H3 in Eg. apply encode_control_inj in Eg as [<- _]; [|done..].
  assert (Hj : (slot_of count g < count)%nat) by (apply slot_of_lt, Hsh).
  assert (Hbuf : buf = slot_bytes st (slot_of count g)).
  { rewrite H4. apply take_ge. rewrite (slot_bytes_length size count st _ Hsh Hj).
    rewrite Hlen, (sh_size _ _ _ Hsh). done. }
  split; [|by rewrite Hbuf]. constructor; simpl.
  - by apply shape_set_control.
  - done.
  - intros i x Hx. rewrite <- (app_nil_r log).
    eapply (slots_set size count st Hsh _ _ (Some g) None); [done| |by intros; eauto| |done].
    + rewrite app_nil_r. apply logged_range in Hlog as Hlr.
      destruct rt; simpl; [by apply so_published|apply so_free; [lia|done]..].
    + intros g' [= <-] H. done.
  - eapply producer_ok_set; [done..|]. eapply writing_slot_ne; [done..|]. by rewrite Hst.
  - done.
Qed.

(** Retiring a published word, from either side. *)
Lemma inv_retired size count st pr c log g :
  system_inv size count (mkSystem st pr c log) ->
  control_generation (control_of st g) = g -> control_state (control_of st g) = kPublished ->
  system_inv size count (mkSystem (cas_control st g kFree) pr c log).
Proof.
  intros Hinv Hgen Hf. inv_split Hinv.
  destruct (slot_ok_published _ _ _ _ _ _ _ _ (Hslots _ _ (control_lookup size count st g Hsh))
    Hnext (fun g' => writing_range size count st pr g' Hprod) Hf) as (g0 & _ & Eg & Hs & Hlog).
  assert (g0 = g) as -> by congruence. apply logged_range in Hlog as Hlr. constructor; simpl.
  - by apply shape_set_control.
  - done.
  - intros i x Hx. rewrite <- (app_nil_r log).
    eapply (slots_set size count st Hsh); [done| |by intros; eauto|by intros; eauto|done].
    rewrite app_nil_r. apply so_free; [lia|done].
  - eapply producer_ok_set; [done..|]. eapply writing_slot_ne; [done..|]. by rewrite Hf.
  - eapply consumer_ok_set; [done..|]. eapply reading_slot_ne; [done..|]. by rewrite Hf.
Qed.

Lemma inv_step size count s e s' :
  system_inv size count s -> step s e s' -> system_inv size count s'.
Proof.
  intros Hinv Hstep. pose proof (iv_shape _ _ _ Hinv) as Hsh.
  pose proof (iv_producer _ _ _ Hinv) as Hprod. pose proof (iv_consumer _ _ _ Hinv) as Hcons.
  destruct Hstep; simpl in *; try done.
  - eapply inv_producer_moves; [done|done|]. by eapply publish_test_None.
  - by eapply inv_producer_moves.
  - by eapply inv_publish_claimed.
  - by eapply inv_publish_byte.
  - by apply inv_publish_done.
  - eapply inv_consumer_moves; [done|done|]. by eapply copy_test_None.
  - by eapply inv_consumer_moves.
  - by eapply inv_copy_claimed.
  - by eapply inv_copy_byte.
  - by eapply inv_copy_done.
  - eapply inv_consumer_moves; [done|done|]. by eapply retire_test_None.
  - by eapply inv_consumer_moves.
  - destruct Hcons as (H1 & H2 & H3). subst observed.
    apply inv_retired; [by eapply inv_consumer_moves|done|done].
  - eapply inv_producer_moves; [done|done|]. by eapply retire_test_None.
  - by eapply inv_producer_moves.
  - destruct Hprod as (H1 & H2 & H3). subst observed.
    apply inv_retired; [by eapply inv_producer_moves|done|done].
Qed.

Lemma reachable_inv size count s : reachable size count s -> system_inv size count s.
Proof. induction 1; [by apply inv_create|by eapply inv_step]. Qed.

(** ** Uninterrupted calls *)

Inductive steps : System -> list Event -> System -> Prop :=
| steps_nil s : steps s [] s
| steps_cons s e s' es s'' : step s e s' -> steps s' es s'' -> steps s (e :: es) s''.

Lemma steps_app s es s' es' s'' : steps s es s' -> steps s' es' s'' -> steps s (es ++ es') s''.
Proof. induction 1; simpl; [done|]. intros H'. econstructor; eauto. Qed.

Lemma write_bytes_app st o d b :
  write_bytes (write_bytes st o d) (o + length d) [b] = write_bytes st o (d ++ [b]).
Proof.
  unfold write_bytes. simpl. f_equal. revert o. induction d as [|x d IH]; intros o; simpl.
  { by rewrite Nat.add_0_r. }
  rewrite <- IH, Nat.add_succ_r. apply list_insert_insert_ne. lia.
Qed.

Lemma write_loop st c log g p k :
  (k <= length p)%nat ->
  steps (mkSystem (write_bytes st (slot_start st g) (take k p)) (P_copy g p k) c log)
    (replicate (length p - k) ev_internal)
    (mkSystem (write_bytes st (slot_start st g) p) (P_copy g p (length p)) c log).
Proof.
  intros Hk. remember (length p - k)%nat as n eqn:En. revert k Hk En.
  induction n as [|n IH]; intros k Hk En.
  { assert (k = length p) as -> by lia. rewrite take_ge by done. constructor. }
  destruct (lookup_lt_is_Some_2 p k) as [b Hb]; [lia|]. simpl. econstructor.
  { by apply publish_byte. }
  change (slot_start (write_bytes st (slot_start st g) (take k p)) g) with (slot_start st g).
  pose proof (write_bytes_app st (slot_start st g) (take k p) b) as Hw.
  rewrite length_take, Nat.min_l in Hw by lia. rewrite Hw, <- (take_S_r p k b Hb).
  apply IH; lia.
Qed.

Lemma publish_runs st c log g p :
  is_u64 g ->
  let '(r, st') := publish st g p in
  exists n, steps (mkSystem st P_idle c log) (replicate n ev_internal ++ [ev_publish g p r])
    (mkSystem st' P_idle c (match r with ss_ok => log ++ [p] | _ => log end)).
Proof.
  intros Hu. unfold publish. destruct (publish_test st g p) as [r|] eqn:Et.
  { exists 0%nat. simpl. assert (r <> ss_ok).
    { unfold publish_test in Et. destruct (_ || _); [by injection Et as <-|].
      destruct (negb _); [by injection Et as <-|done]. }
    destruct r; try done; econstructor; (by apply publish_refused) || constructor. }
  exists (2 + length p)%nat. rewrite replicate_add, <- app_assoc. simpl.
  econstructor; [by apply publish_loaded|]. econstructor; [by apply publish_claimed|].
  eapply steps_app.
  - pose proof (write_loop (cas_control st g kWriting) c log g p 0 ltac:(lia)) as H.
    rewrite Nat.sub_0_r in H. simpl in H. apply H.
  - econstructor; [apply publish_done|]. constructor.
Qed.

Lemma copy_loop size count st pr log g rt buf :
  store_shape size count st ->
  buf = take (length buf) (slot_bytes st (slot_of count g)) -> (length buf <= size)%nat ->
  steps (mkSystem st pr (C_copy g rt buf) log) (replicate (size - length buf) ev_internal)
    (mkSystem st pr (C_copy g rt (slot_bytes st (slot_of count g))) log).
Proof.
  intros Hsh. remember (size - length buf)%nat as n eqn:En. revert buf En.
  assert (Hj : (slot_of count g < count)%nat) by (apply slot_of_lt, Hsh).
  pose proof (slot_bytes_length size count st _ Hsh Hj) as Hlen.
  induction n as [|n IH]; intros buf En Hbuf Hle.
  { rewrite Hbuf, take_ge by lia. constructor. }
  destruct (lookup_lt_is_Some_2 (slot_bytes st (slot_of count g)) (length buf)) as [b Hb]; [lia|].
  simpl. econstructor.
  { apply (copy_byte st pr log g rt buf b); [rewrite (sh_size _ _ _ Hsh); lia|].
    unfold slot_start. rewrite (sh_count _ _ _ Hsh), (sh_size _ _ _ Hsh).
    unfold slot_bytes in Hb. rewrite (sh_size _ _ _ Hsh), lookup_subspan in Hb by lia. done. }
  apply IH; rewrite ?length_app; simpl; [lia| |lia].
  rewrite Nat.add_1_r, (take_S_r _ _ b), <- Hbuf by done. done.
Qed.

Lemma copy_runs size count st pr log g n rt :
  store_shape size count st -> is_u64 g ->
  let '(r, out, st') := copy st g n rt in
  exists k, steps (mkSystem st pr C_idle log) (replicate k ev_internal ++ [ev_copy g r out])
    (mkSystem st' pr C_idle log).
Proof.
  intros Hsh Hu. unfold copy. destruct (copy_test st g n rt) as [r|] eqn:Et.
  { exists 0%nat. econstructor; [by eapply copy_refused|constructor]. }
  exists (2 + size)%nat. rewrite replicate_add, <- app_assoc. simpl.
  econstructor; [by eapply copy_loaded|]. econstructor; [by apply copy_claimed|].
  assert (Hsh' : store_shape size count (cas_control st g kReading)) by (by apply shape_set_control).
  eapply steps_app.
  - pose proof (copy_loop size count (cas_control st g kReading) pr log g rt [] Hsh' eq_refl ltac:(simpl; lia)) as H.
    rewrite Nat.sub_0_r in H. apply H.
  - change (slot_bytes (cas_control st g kReading) (slot_of count g)) with (slot_bytes st (slot_of count g)).
    assert (Hout : subspan (ss_payload st) (slot_of (ss_slot_count st) g * ss_payload_size st) (ss_payload_size st) =
                   slot_bytes st (slot_of count g)) by (unfold slot_bytes; by rewrite (sh_count _ _ _ Hsh)).
    rewrite Hout. econstructor; [|constructor].
    replace (set_control (set_control st (slot_of (ss_slot_count st) g) (encode_control g kReading))
               (slot_of (ss_slot_count st) g) (encode_control g (retained_state rt)))
      with (cas_control (cas_control st g kReading) g (retained_state rt)) by done.
    apply copy_done. simpl. rewrite (slot_bytes_length size count st _ Hsh); [|apply slot_of_lt, Hsh].
    by rewrite (sh_size _ _ _ Hsh).
Qed.

(** ** Claims *)

(** C40. However the steps of producer and consumer interleave, a copy that
    returns [ok] for a generation delivers exactly the payload that was
    published for it: never a torn one and never another generation. *)
Theorem snapshot_copy_exact size count s g out s' :
  reachable size count s -> step s (ev_copy g ss_ok out) s' ->
  logged (sy_log s) g = Some out.
Proof.
  intros Hr Hstep. apply reachable_inv in Hr. inversion Hstep; subst.
  - exfalso. match goal with H : copy_test _ _ _ _ = Some ss_ok |- _ => rename H into Ht end.
    unfold copy_test in Ht. repeat (case_match; try done).
  - by eapply inv_copy_done.
Qed.

(** Published generations are consecutive from 1: a publish that returns [ok]
    has the next generation and appends its payload to the history; any other
    result leaves store and history unchanged. *)
Theorem snapshot_publish_sequence size count s g p r s' :
  reachable size count s -> step s (ev_publish g p r) s' ->
  (r = ss_ok /\ g = Z.of_nat (length (sy_log s)) + 1 /\ sy_log s' = sy_log s ++ [p]) \/
  (r <> ss_ok /\ sy_store s' = sy_store s /\ sy_log s' = sy_log s).
Proof.
  intros Hr Hstep. apply reachable_inv in Hr. inversion Hstep; subst; simpl.
  - right. split; [|done]. intros ->. 
    match goal with H : publish_test _ _ _ = Some ss_ok |- _ => rename H into Ht end.
    unfold publish_test in Ht. repeat (case_match; try done).
  - by right.
  - left. split_and!; try done. destruct Hr as [_ Hn _ Hp _]. simpl in *.
    destruct Hp as (Hg & Hrng & _). destruct Hn as [[? ?]|[? ?]]; lia.
Qed.

(** C6. The producer and the consumer never touch the same slot at the same
    time: while a publish copies bytes in and a copy reads bytes out, their
    slots differ, so every byte the one writes lies outside the slot the other
    reads. *)
Theorem snapshot_exclusive_slots size count st g p k g' rt buf log :
  reachable size count (mkSystem st (P_copy g p k) (C_copy g' rt buf) log) ->
  slot_of count g <> slot_of count g' /\
  (slot_start st g + size <= slot_start st g' \/ slot_start st g' + size <= slot_start st g)%nat.
Proof.
  intros Hr. apply reachable_inv in Hr as [Hsh _ _ Hp Hc]. simpl in *.
  destruct Hp as (_ & Hrng & _ & _ & Hw & _).
  assert (Hne : slot_of count g <> slot_of count g').
  { intros E. apply (reading_slot_ne size count st Hsh log (C_copy g' rt buf) g Hc) with g'; [|done|done].
    rewrite Hw, control_state_encode; [done|unfold generation_range; lia|done]. }
  split; [done|]. unfold slot_start. rewrite (sh_count _ _ _ Hsh), (sh_size _ _ _ Hsh). nia.
Qed.

(** The operations as written refine the interleaved system: on any store a
    publish or a copy that runs without interference performs some internal
    steps and then returns exactly the result, the bytes and the store of
    [publish] and [copy]; in particular both calls always return. *)
Theorem snapshot_operations_refine size count st pr c log g p n rt :
  store_shape size count st -> is_u64 g ->
  (let '(r, st') := publish st g p in
   exists k, steps (mkSystem st P_idle c log) (replicate k ev_internal ++ [ev_publish g p r])
     (mkSystem st' P_idle c (match r with ss_ok => log ++ [p] | _ => log end))) /\
  (let '(r, out, st') := copy st g n rt in
   exists k, steps (mkSystem st pr C_idle log) (replicate k ev_internal ++ [ev_copy g r out])
     (mkSystem st' pr C_idle log)).
Proof. intros Hsh Hu. split; [by apply publish_runs|by eapply copy_runs]. Qed.

Lemma control_of_fresh st g :
  (slot_of (ss_slot_count st) g < ss_slot_count st)%nat ->
  control_of (mkStore (ss_payload_size st) (ss_slot_count st) (ss_next_generation st)
                (ss_allocated st) (replicate (ss_slot_count st) 0) (ss_payload st)) g = 0.
Proof. intros H. unfold control_of. simpl. by apply lookup_total_replicate_2. Qed.

(** Restoring a committed generation leaves exactly that sample: a copy of
    the generation returns the restored payload (and keeps it when retained),
    every other generation is refused, and with a second slot the announced
    next generation can be published at once. *)
Theorem snapshot_restore size count st g next p st' :
  store_shape size count st -> is_u64 g -> is_u64 next -> (2 <= count)%nat ->
  restore_committed st g next p = (ss_ok, st') ->
  copy st' g size retain = (ss_ok, p, st') /\
  (forall g' n rt, is_u64 g' -> g' <> g -> (copy st' g' n rt).1.1 <> ss_ok) /\
  ss_next_generation st' = next /\ (next <> 0 -> can_publish st' next = true).
Proof.
  intros Hsh Hu Hun Hcount. unfold restore_committed.
  destruct (_ || _) eqn:Ht; [done|]. intros [= <-].
  rewrite !orb_false_iff, !negb_false_iff in Ht. destruct Ht as [[[_ Hlen%Nat.eqb_eq] Hv] Hnx].
  apply generation_valid_u64 in Hv; [|done]. pose proof Hsh as [Hs Hc [Hp0 Hc0] Ha Hlc Hlp].
  rewrite Hs in Hlen. rewrite Hc, Hs in *.
  assert (Hgr : generation_range g) by (unfold generation_range; lia).
  assert (Hj : (slot_of count g < count)%nat) by (by apply slot_of_lt).
  match goal with |- copy ?x _ _ _ = _ /\ _ => set (st' := x) end.
  assert (Hctl : forall g', ss_controls st' !!! slot_of count g' =
    if decide (slot_of count g' = slot_of count g) then encode_control g kPublished else 0).
  { intros g'. subst st'. simpl. case_decide as E.
    - rewrite E. apply list_lookup_total_insert_eq. by rewrite length_replicate.
    - rewrite list_lookup_total_insert_ne by done. by apply lookup_total_replicate_2, slot_of_lt. }
  assert (Hg1 : control_generation (encode_control g kPublished) = g) by (by apply control_generation_encode).
  assert (Hs1 : control_state (encode_control g kPublished) = kPublished) by (by apply control_state_encode).
  split_and!.
  - unfold copy, copy_test. simpl. rewrite Ha, Nat.eqb_refl. simpl.
    assert (Hgv : generation_valid g = true) by (apply generation_valid_spec; lia).
    rewrite Hgv. simpl. change (<[slot_of count g := _]> (replicate count 0)) with (ss_controls st').
    rewrite Hctl, decide_True, Hg1, Hs1, !Z.ltb_irrefl, Z.eqb_refl by done. simpl.
    assert (Hout : subspan (list_inserts (slot_of count g * size) p (ss_payload st)) (slot_of count g * size) size = p)
      by (apply subspan_write_at; [rewrite Hlp; nia|done]).
    rewrite Hout. do 2 f_equal. subst st'. unfold set_control, set_next. simpl. f_equal.
    by rewrite !list_insert_insert_eq.
  - intros g' n rt Hu' Hne. unfold copy. destruct (copy_test st' g' n rt) as [r|] eqn:Et; simpl.
    + intros ->. unfold copy_test in Et. repeat (case_match; try done).
    + exfalso. assert (Hsh' : store_shape size count st').
      { subst st'. constructor; simpl; rewrite ?length_insert, ?length_inserts, ?length_replicate; done. }
      apply (copy_test_None size count) in Et as (H1 & H2 & H3); [|done|done].
      unfold control_of in H2, H3. rewrite (sh_count _ _ _ Hsh') in H2, H3.
      rewrite Hctl in H2, H3. case_decide; [congruence|]. by change (control_state 0) with 0 in H3.
  - done.
  - intros Hn0. rewrite (proj2 (Z.eqb_neq next 0)) in Hnx by done. simpl in Hnx.
    rewrite orb_false_iff, Z.ltb_ge, negb_false_iff, Z.eqb_eq in Hnx. destruct Hnx as [Hmax Hnext].
    unfold u64 in Hnext. change maximum_generation with 4611686018427387903 in *.
    rewrite Z.mod_small in Hnext by lia.
    unfold can_publish. simpl. rewrite Ha, Z.eqb_refl. simpl.
    assert (Hgv : generation_valid next = true)
      by (apply generation_valid_spec; change maximum_generation with 4611686018427387903; lia).
    rewrite Hgv. simpl. change (<[slot_of count g := _]> (replicate count 0)) with (ss_controls st').
    rewrite Hctl, decide_False; [done|]. unfold slot_of. rewrite Hnext.
    replace (g + 1 - 1) with (g - 1 + 1) by lia. intros E.
    apply Z2Nat.inj in E; [|apply Z.mod_pos_bound; lia..].
    rewrite Z.add_mod in E by lia. rewrite (Z.mod_small 1) in E by lia.
    pose proof (Z.mod_pos_bound (g - 1) (Z.of_nat count)).
    destruct (decide ((g - 1) mod Z.of_nat count + 1 < Z.of_nat count)).
    + rewrite Z.mod_small in E by lia. lia.
    + replace ((g - 1) mod Z.of_nat count + 1) with (Z.of_nat count) in E by lia.
      rewrite Z.mod_same in E by lia. lia.
Qed.

(** ** Witnesses: payloads of two bytes in two slots; generation 1 is being
    read while generation 2 is being written. *)

Lemma reachable_steps size count s es s' :
  reachable size count s -> steps s es s' -> reachable size count s'.
Proof. intros Hr H. induction H; [done|]. apply IHsteps. by eapply reach_step. Qed.

Definition sample_store : SnapshotStore := snd (create 2 2 empty_store).
Definition sample_published : SnapshotStore := snd (publish sample_store 1 [5; 6]).
Definition sample_reading : SnapshotStore := cas_control sample_published 1 kReading.
Definition sample_writing : SnapshotStore := cas_control sample_reading 2 kWriting.

Lemma one_u64_ss : is_u64 1.
Proof. unfold is_u64, u64_max. lia. Qed.

Lemma two_u64_ss : is_u64 2.
Proof. unfold is_u64, u64_max. lia. Qed.

Lemma sample_reading_reachable :
  reachable 2 2 (mkSystem sample_reading P_idle (C_copy 1 retain []) [[5; 6]]).
Proof.
  eapply reach_step; [|apply copy_claimed; reflexivity].
  eapply reach_step; [|eapply (copy_loaded _ _ _ 1 2); [apply one_u64_ss|reflexivity]].
  destruct (publish_runs sample_store C_idle [] 1 [5; 6] one_u64_ss) as [k H].
  eapply reachable_steps; [|exact H]. by apply reach_create.
Qed.

Lemma sample_read_reachable :
  reachable 2 2 (mkSystem sample_reading P_idle (C_copy 1 retain [5; 6]) [[5; 6]]).
Proof.
  eapply reach_step; [|apply (copy_byte _ _ _ _ _ [5]); vm_compute; [lia|reflexivity]].
  eapply reach_step; [|apply (copy_byte _ _ _ _ _ []); vm_compute; [lia|reflexivity]].
  apply sample_reading_reachable.
Qed.

Lemma sample_both_reachable :
  reachable 2 2 (mkSystem sample_writing (P_copy 2 [7; 8] 0) (C_copy 1 retain []) [[5; 6]]).
Proof.
  eapply reach_step; [|apply publish_claimed; reflexivity].
  eapply reach_step; [|apply publish_loaded; [apply two_u64_ss|reflexivity]].
  apply sample_reading_reachable.
Qed.

Lemma snapshot_copy_exact_witness : logged [[5; 6]] 1 = Some [5; 6].
Proof.
  apply (snapshot_copy_exact 2 2 _ 1 [5; 6]
    (mkSystem (cas_control sample_reading 1 kPublished) P_idle C_idle [[5; 6]])
    sample_read_reachable).
  apply (copy_done sample_reading P_idle [[5; 6]] 1 retain [5; 6]). reflexivity.
Defined.

Lemma snapshot_publish_sequence_witness :
  (ss_ok = ss_ok /\ 1 = Z.of_nat 0 + 1 /\ [[5; 6]] = [] ++ [[5; 6]]) \/
  (ss_ok <> ss_ok /\
   sample_published = write_bytes (cas_control sample_store 1 kWriting) 0 [5; 6] /\ [[5; 6]] = []).
Proof.
  apply (snapshot_publish_sequence 2 2
    (mkSystem (write_bytes (cas_control sample_store 1 kWriting) 0 [5; 6]) (P_copy 1 [5; 6] 2) C_idle [])
    1 [5; 6] ss_ok (mkSystem sample_published P_idle C_idle [[5; 6]])).
  - eapply reachable_steps;
      [|apply (write_loop (cas_control sample_store 1 kWriting) C_idle [] 1 [5; 6] 0); simpl; lia].
    eapply reach_step; [|apply (publish_claimed sample_store); reflexivity].
    eapply reach_step; [|apply publish_loaded; [apply one_u64_ss|reflexivity]].
    by apply reach_create.
  - exact (publish_done (write_bytes (cas_control sample_store 1 kWriting) 0 [5; 6])
      C_idle [] 1 [5; 6]).
Defined.

Lemma snapshot_exclusive_slots_witness : slot_of 2 2 <> slot_of 2 1.
Proof. apply (snapshot_exclusive_slots 2 2 _ _ _ _ _ _ _ _ sample_both_reachable). Defined.

Lemma sample_store_shape : store_shape 2 2 sample_store.
Proof. constructor; vm_compute; try reflexivity. split; discriminate. Qed.

Lemma snapshot_operations_refine_witness : exists k,
  steps (mkSystem sample_store P_idle C_idle [])
    (replicate k ev_internal ++ [ev_publish 1 [5; 6] ss_ok])
    (mkSystem sample_published P_idle C_idle [[5; 6]]).
Proof.
  destruct (snapshot_operations_refine 2 2 sample_store P_idle C_idle [] 1 [5; 6] 2 retain
           sample_store_shape one_u64_ss) as [H _].
  assert (E : publish sample_store 1 [5; 6] = (ss_ok, sample_published)) by (vm_compute; reflexivity).
  rewrite E in H. exact H.
Defined.

Lemma snapshot_restore_witness :
  copy (snd (restore_committed sample_store 4 5 [7; 8])) 4 2 retain =
    (ss_ok, [7; 8], snd (restore_committed sample_store 4 5 [7; 8])).
Proof.
  apply (snapshot_restore 2 2 sample_store 4 5 [7; 8]).
  - apply sample_store_shape.
  - vm_compute. split; discriminate.
  - vm_compute. split; discriminate.
  - lia.
  - vm_compute. reflexivity.
Defined.
