(* ===== verification/DeviceCommands.v ===== *)
(** * Device handles and command batches (rt/include/rt/device.hpp, rt/src/command_batch.cpp)

    Device handles are their encoded 64-bit values, as in CrossRateTypes.v.  The
    structures of the HAL v2 command-timeline extension keep every field; an array
    of the source is a list of its declared length.  A loop of the source that
    indexes an array up to a count of the structure itself is [all_below]: an index
    outside the array has no defined outcome, which the model returns as [None]. *)

From stdpp Require Import base list numbers.
From Stdlib Require Import ZArith Lia Bool.
From S2P Require Import Prelude.

Local Open Scope Z_scope.

(** ** Handles *)

Definition invalid_device_handle : Z := u64_max.
Definition device_buffer_kind_bit : Z := Z.shiftl 1 31.
Definition device_handle_index_mask : Z := device_buffer_kind_bit - 1.

Definition device_owner (value : Z) : Z := u32 (Z.shiftr value 32).

Definition DeviceBackendHandle_make (owner index : Z) : Z := Z.lor (Z.shiftl owner 32) index.
Definition DeviceBackendHandle_valid (value : Z) : bool :=
  negb (value =? invalid_device_handle) && (Z.land (u32 value) device_buffer_kind_bit =? 0).
Definition DeviceBackendHandle_index (value : Z) : Z := Z.land (u32 value) device_handle_index_mask.

Definition DeviceBufferHandle_make (owner index : Z) : Z :=
  Z.lor (Z.lor (Z.shiftl owner 32) device_buffer_kind_bit) index.
Definition DeviceBufferHandle_valid (value : Z) : bool :=
  negb (value =? invalid_device_handle) && negb (Z.land (u32 value) device_buffer_kind_bit =? 0).
Definition DeviceBufferHandle_index (value : Z) : Z := Z.land (u32 value) device_handle_index_mask.

Definition DeviceTimelineHandle_make (owner index : Z) : Z := Z.lor (Z.shiftl owner 32) index.
Definition DeviceTimelineHandle_valid (value : Z) : bool := negb (value =? invalid_device_handle).
Definition DeviceTimelineHandle_index (value : Z) : Z := u32 value.

(** ** Structures *)

Definition hal_v2_inline_payload_capacity : nat := 128.
Definition hal_v2_buffer_ref_capacity : nat := 8.
Definition hal_v2_command_timeline_extension_version : Z := 1.
Definition hal_v2_command_capacity : nat := 16.
Definition hal_v2_timeline_wait_capacity : nat := 8.
Definition hal_v2_timeline_signal_capacity : nat := 8.
Definition hal_v2_timeline_capacity : nat := 16.

(** [rtfw_device_buffer_access] and [rtfw_device_buffer_flags] *)
Definition RTFW_DEVICE_ACCESS_READ : Z := 1.
Definition RTFW_DEVICE_ACCESS_WRITE : Z := 2.
Definition RTFW_DEVICE_ACCESS_READ_WRITE : Z := 3.
Definition RTFW_DEVICE_BUFFER_HOST_READ : Z := 1.
Definition RTFW_DEVICE_BUFFER_HOST_WRITE : Z := 2.
Definition RTFW_DEVICE_BUFFER_DEVICE_READ : Z := 4.
Definition RTFW_DEVICE_BUFFER_DEVICE_WRITE : Z := 8.

Inductive HalV2Status : Set :=
| hal_ok
| hal_invalid_argument
| hal_invalid_state
| hal_queue_full
| hal_timeout
| hal_error
| hal_lost
| hal_canceled
| hal_unsupported
| hal_resource_exhausted
| hal_internal_error
| hal_reset_required.

Definition hal_status_reset_required : Z := -11.

(** [HalV2CommandKind] and [HalV2MemoryOperation], as the raw fields hold them *)
Definition kind_invalid : Z := 0.
Definition kind_dispatch : Z := 1.
Definition kind_copy : Z := 2.
Definition kind_memory_synchronization : Z := 3.

Definition operation_invalid : Z := 0.
Definition operation_copy_to_device : Z := 1.
Definition operation_copy_from_device : Z := 2.
Definition operation_flush : Z := 3.
Definition operation_invalidate : Z := 4.

Record HalV2BufferReference : Set := mkBufferReference {
  br_buffer_token : Z;
  br_access : Z;
  br_reserved0 : Z;
  br_offset : Z;
  br_bytes : Z;
}.

Definition zero_reference : HalV2BufferReference := mkBufferReference 0 0 0 0 0.

Record HalV2TimelinePoint : Set := mkTimelinePoint {
  tp_struct_size : Z;
  tp_extension_version : Z;
  tp_timeline_handle : Z;
  tp_value : Z;
  tp_reserved : list Z;
}.

Record DeviceCommand : Set := mkDeviceCommand {
  dc_struct_size : Z;
  dc_extension_version : Z;
  dc_kind : Z;
  dc_operation : Z;
  dc_opcode : Z;
  dc_flags : Z;
  dc_payload_size : Z;
  dc_buffer_count : Z;
  dc_payload : list Z;
  dc_buffers : list HalV2BufferReference;
  dc_source : HalV2BufferReference;
  dc_destination : HalV2BufferReference;
  dc_target : HalV2BufferReference;
  dc_reserved : list Z;
}.

Record DeviceCommandBatch : Set := mkCommandBatch {
  bt_struct_size : Z;
  bt_extension_version : Z;
  bt_batch_id : Z;
  bt_frame_index : Z;
  bt_timeout_ns : Z;
  bt_command_count : Z;
  bt_wait_count : Z;
  bt_signal_count : Z;
  bt_reserved0 : Z;
  bt_commands : list DeviceCommand;
  bt_waits : list HalV2TimelinePoint;
  bt_signals : list HalV2TimelinePoint;
  bt_reserved : list Z;
}.

Record HalV2BatchCompletion : Set := mkBatchCompletion {
  bc_struct_size : Z;
  bc_extension_version : Z;
  bc_status : Z;
  bc_signal_count : Z;
  bc_batch_id : Z;
  bc_device_timestamp : Z;
  bc_timestamp_domain_identity : Z;
  bc_signals : list HalV2TimelinePoint;
  bc_reserved : list Z;
}.

Record HalV2CommandTimelineCapabilities : Set := mkCapabilities {
  cap_struct_size : Z;
  cap_extension_version : Z;
  cap_max_in_flight_batches : Z;
  cap_max_commands_per_batch : Z;
  cap_max_wait_points : Z;
  cap_max_signal_points : Z;
  cap_max_timelines : Z;
  cap_completion_batch_capacity : Z;
  cap_backend_control_storage_bytes : Z;
  cap_reserved : list Z;
}.

(** The extension table; a function pointer of the backend is whether it is set, and
    [get_capabilities], the only one called here, is its outcome: a status and the
    capabilities it wrote, or [None] when it throws. *)
Record HalV2CommandTimelineExtension : Set := mkExtension {
  ex_struct_size : Z;
  ex_extension_version : Z;
  ex_instance : bool;
  ex_get_capabilities : option (option (HalV2Status * HalV2CommandTimelineCapabilities));
  ex_submit : bool;
  ex_poll : bool;
  ex_cancel : bool;
  ex_request_stop : bool;
  ex_reserved : list Z;
}.

(** [sizeof] on the 64-bit targets *)
Definition sizeof_point : Z := 48.
Definition sizeof_command : Z := 544.
Definition sizeof_batch : Z := 9584.
Definition sizeof_completion : Z := 488.
Definition sizeof_capabilities : Z := 104.
Definition sizeof_extension : Z := 120.

(** The lengths the arrays of the structures have. *)
Definition command_typed (c : DeviceCommand) : Prop :=
  length (dc_payload c) = hal_v2_inline_payload_capacity /\
  length (dc_buffers c) = hal_v2_buffer_ref_capacity.

Definition batch_typed (b : DeviceCommandBatch) : Prop :=
  length (bt_commands b) = hal_v2_command_capacity /\
  length (bt_waits b) = hal_v2_timeline_wait_capacity /\
  length (bt_signals b) = hal_v2_timeline_signal_capacity /\
  Forall command_typed (bt_commands b) /\
  is_u32 (bt_command_count b) /\ is_u32 (bt_wait_count b) /\ is_u32 (bt_signal_count b).

(** ** Loops over arrays *)

Definition all_zero (values : list Z) : bool := forallb (fun value => value =? 0) values.

(** [for (index = 0; index < count; ++index) if (!test(values[index])) return false;] *)
Fixpoint all_below {A} (test : A -> option bool) (count : Z) (values : list A) : option bool :=
  if count <=? 0 then Some true
  else
    match values with
    | [] => None
    | x :: rest =>
        match test x with
        | Some true => all_below test (count - 1) rest
        | other => other
        end
    end.

(** The loop over the whole array that tests the first [count] elements with [active]
    and the others with [inactive]. *)
Fixpoint split_test {A} (active inactive : A -> bool) (count : Z) (values : list A) : bool :=
  match values with
  | [] => true
  | x :: rest =>
      (if 0 <? count then active x else inactive x) && split_test active inactive (count - 1) rest
  end.

(** ** Validation *)

Definition valid_status (value : Z) : bool := (value <=? 0) && (hal_status_reset_required <=? value).

Definition reference_zero (r : HalV2BufferReference) : bool :=
  (br_buffer_token r =? 0) && (br_access r =? 0) && (br_reserved0 r =? 0) && (br_offset r =? 0) &&
  (br_bytes r =? 0).

Definition reference_declared (r : HalV2BufferReference) : bool :=
  negb (br_buffer_token r =? 0) && (br_reserved0 r =? 0) && negb (br_bytes r =? 0).

Definition point_header_valid (p : HalV2TimelinePoint) : bool :=
  (tp_struct_size p =? sizeof_point) &&
  (tp_extension_version p =? hal_v2_command_timeline_extension_version) && all_zero (tp_reserved p).

Definition inactive_point (p : HalV2TimelinePoint) : bool :=
  point_header_valid p && (tp_timeline_handle p =? invalid_device_handle) && (tp_value p =? 0).

(** The tests on a point below the count. *)
Definition active_point (p : HalV2TimelinePoint) : bool :=
  point_header_valid p && negb (tp_timeline_handle p =? invalid_device_handle) && negb (tp_value p =? 0).

Definition command_header_valid (c : DeviceCommand) : bool :=
  (dc_struct_size c =? sizeof_command) &&
  (dc_extension_version c =? hal_v2_command_timeline_extension_version) && all_zero (dc_reserved c).

Definition inactive_command (c : DeviceCommand) : bool :=
  command_header_valid c && (dc_kind c =? kind_invalid) && (dc_operation c =? operation_invalid) &&
  (dc_opcode c =? 0) && (dc_flags c =? 0) && (dc_payload_size c =? 0) && (dc_buffer_count c =? 0) &&
  all_zero (dc_payload c) && reference_zero (dc_source c) && reference_zero (dc_destination c) &&
  reference_zero (dc_target c) && forallb reference_zero (dc_buffers c).

Definition dispatch_command_valid (c : DeviceCommand) : bool :=
  (dc_operation c =? operation_invalid) && (dc_flags c =? 0) &&
  (dc_payload_size c <=? Z.of_nat hal_v2_inline_payload_capacity) &&
  (dc_buffer_count c <=? Z.of_nat hal_v2_buffer_ref_capacity) &&
  reference_zero (dc_source c) && reference_zero (dc_destination c) && reference_zero (dc_target c) &&
  split_test reference_declared reference_zero (dc_buffer_count c) (dc_buffers c) &&
  all_zero (drop (Z.to_nat (dc_payload_size c)) (dc_payload c)).

(** What the copy and synchronization commands have in common. *)
Definition bare_command (c : DeviceCommand) : bool :=
  (dc_opcode c =? 0) && (dc_flags c =? 0) && (dc_payload_size c =? 0) && (dc_buffer_count c =? 0) &&
  all_zero (dc_payload c) && forallb reference_zero (dc_buffers c).

Definition active_command (c : DeviceCommand) : bool :=
  command_header_valid c &&
  (if dc_kind c =? kind_dispatch then dispatch_command_valid c
   else if dc_kind c =? kind_copy then
     ((dc_operation c =? operation_copy_to_device) || (dc_operation c =? operation_copy_from_device)) &&
     bare_command c && reference_declared (dc_source c) && reference_declared (dc_destination c) &&
     reference_zero (dc_target c)
   else if dc_kind c =? kind_memory_synchronization then
     ((dc_operation c =? operation_flush) || (dc_operation c =? operation_invalidate)) &&
     bare_command c && reference_zero (dc_source c) && reference_zero (dc_destination c) &&
     reference_declared (dc_target c)
   else false).

Definition same_reference (l r : HalV2BufferReference) : bool :=
  (br_buffer_token l =? br_buffer_token r) && (br_access l =? br_access r) &&
  (br_offset l =? br_offset r) && (br_bytes l =? br_bytes r).

Definition same_references (p : HalV2BufferReference * HalV2BufferReference) : option bool :=
  Some (same_reference (fst p) (snd p)).

Definition command_matches (p : DeviceCommand * DeviceCommand) : option bool :=
  let '(c, d) := p in
  if negb ((dc_kind c =? dc_kind d) && (dc_operation c =? dc_operation d) &&
           (dc_opcode c =? dc_opcode d) && (dc_flags c =? dc_flags d) &&
           (dc_buffer_count c =? dc_buffer_count d))
  then Some false
  else
    match all_below same_references (dc_buffer_count d) (zip (dc_buffers c) (dc_buffers d)) with
    | Some true =>
        Some (same_reference (dc_source c) (dc_source d) &&
              same_reference (dc_destination c) (dc_destination d) &&
              same_reference (dc_target c) (dc_target d))
    | other => other
    end.

Definition validate_command_timeline_extension (e : HalV2CommandTimelineExtension) : bool :=
  (ex_struct_size e =? sizeof_extension) &&
  (ex_extension_version e =? hal_v2_command_timeline_extension_version) &&
  ex_instance e && bool_decide (is_Some (ex_get_capabilities e)) && ex_submit e && ex_poll e &&
  ex_cancel e && ex_request_stop e && all_zero (ex_reserved e).

(** Nonzero and at most [limit]. *)
Definition counted (value : Z) (limit : nat) : bool := negb (value =? 0) && (value <=? Z.of_nat limit).

Definition validate_command_timeline_capabilities (c : HalV2CommandTimelineCapabilities) : bool :=
  (cap_struct_size c =? sizeof_capabilities) &&
  (cap_extension_version c =? hal_v2_command_timeline_extension_version) &&
  negb (cap_max_in_flight_batches c =? 0) &&
  counted (cap_max_commands_per_batch c) hal_v2_command_capacity &&
  counted (cap_max_wait_points c) hal_v2_timeline_wait_capacity &&
  counted (cap_max_signal_points c) hal_v2_timeline_signal_capacity &&
  counted (cap_max_timelines c) hal_v2_timeline_capacity &&
  negb (cap_completion_batch_capacity c =? 0) && all_zero (cap_reserved c).

(** The status and the state after the call. *)
Definition discover_command_timeline_extension (e : HalV2CommandTimelineExtension)
    (output : option (HalV2CommandTimelineExtension * HalV2CommandTimelineCapabilities))
    : Status * option (HalV2CommandTimelineExtension * HalV2CommandTimelineCapabilities) :=
  if negb (validate_command_timeline_extension e) then (invalid_argument, output)
  else
    match ex_get_capabilities e with
    | Some (Some (hal_ok, capabilities)) =>
        if negb (validate_command_timeline_capabilities capabilities) then (invalid_argument, output)
        else (ok, Some (e, capabilities))
    | Some (Some (hal_resource_exhausted, _)) => (resource_exhausted, output)
    | _ => (device_error, output)
    end.

Definition validate_batch_shape (b : DeviceCommandBatch) : bool :=
  (bt_struct_size b =? sizeof_batch) &&
  (bt_extension_version b =? hal_v2_command_timeline_extension_version) &&
  (bt_batch_id b =? 0) && (bt_frame_index b =? 0) && negb (bt_timeout_ns b =? 0) &&
  counted (bt_command_count b) hal_v2_command_capacity &&
  (bt_wait_count b <=? Z.of_nat hal_v2_timeline_wait_capacity) &&
  counted (bt_signal_count b) hal_v2_timeline_signal_capacity &&
  (bt_reserved0 b =? 0) && all_zero (bt_reserved b) &&
  split_test active_command inactive_command (bt_command_count b) (bt_commands b) &&
  split_test active_point inactive_point (bt_wait_count b) (bt_waits b) &&
  split_test active_point inactive_point (bt_signal_count b) (bt_signals b).

Definition set_point_value (value : Z) (p : HalV2TimelinePoint) : HalV2TimelinePoint :=
  mkTimelinePoint (tp_struct_size p) (tp_extension_version p) (tp_timeline_handle p) value (tp_reserved p).

(** [for (index = 0; index < count; ++index) points[index].value = value;] *)
Fixpoint set_point_values (value count : Z) (points : list HalV2TimelinePoint)
    : option (list HalV2TimelinePoint) :=
  if count <=? 0 then Some points
  else
    match points with
    | [] => None
    | p :: rest => cons (set_point_value value p) <$> set_point_values value (count - 1) rest
    end.

Definition point_unvalued (p : HalV2TimelinePoint) : option bool := Some (tp_value p =? 0).

(** [None] when a count of the declaration exceeds its array: the loops run before any
    test of the counts. *)
Definition validate_batch_declaration (d : DeviceCommandBatch) : option bool :=
  match all_below point_unvalued (bt_wait_count d) (bt_waits d) with
  | Some true =>
      match all_below point_unvalued (bt_signal_count d) (bt_signals d) with
      | Some true =>
          match set_point_values 1 (bt_wait_count d) (bt_waits d),
                set_point_values 1 (bt_signal_count d) (bt_signals d) with
          | Some waits, Some signals =>
              Some ((bt_batch_id d =? 0) && (bt_frame_index d =? 0) && (bt_timeout_ns d =? 0) &&
                    validate_batch_shape
                      (mkCommandBatch (bt_struct_size d) (bt_extension_version d) (bt_batch_id d)
                         (bt_frame_index d) 1 (bt_command_count d) (bt_wait_count d) (bt_signal_count d)
                         (bt_reserved0 d) (bt_commands d) waits signals (bt_reserved d)))
          | _, _ => None
          end
      | other => other
      end
  | other => other
  end.

Definition same_timeline (p : HalV2TimelinePoint * HalV2TimelinePoint) : option bool :=
  Some (tp_timeline_handle (fst p) =? tp_timeline_handle (snd p)).

Definition batch_matches_declaration (b d : DeviceCommandBatch) : option bool :=
  if negb ((bt_command_count b =? bt_command_count d) && (bt_wait_count b =? bt_wait_count d) &&
           (bt_signal_count b =? bt_signal_count d))
  then Some false
  else
    match all_below command_matches (bt_command_count b) (zip (bt_commands b) (bt_commands d)) with
    | Some true =>
        match all_below same_timeline (bt_wait_count b) (zip (bt_waits b) (bt_waits d)) with
        | Some true => all_below same_timeline (bt_signal_count b) (zip (bt_signals b) (bt_signals d))
        | other => other
        end
    | other => other
    end.

Definition validate_batch_completion (c : HalV2BatchCompletion) : bool :=
  (bc_struct_size c =? sizeof_completion) &&
  (bc_extension_version c =? hal_v2_command_timeline_extension_version) &&
  valid_status (bc_status c) && negb (bc_batch_id c =? 0) &&
  counted (bc_signal_count c) hal_v2_timeline_signal_capacity &&
  negb (bc_timestamp_domain_identity c =? 0) && all_zero (bc_reserved c) &&
  split_test active_point inactive_point (bc_signal_count c) (bc_signals c).

(** ** Value-initialised points and completions *)

Definition default_point : HalV2TimelinePoint :=
  mkTimelinePoint sizeof_point hal_v2_command_timeline_extension_version invalid_device_handle 0 (replicate 3 0).

Definition default_completion : HalV2BatchCompletion :=
  mkBatchCompletion sizeof_completion hal_v2_command_timeline_extension_version 0 0 0 0 0
    (replicate hal_v2_timeline_signal_capacity default_point) (replicate 8 0).
