(* ===== verification/DeviceCommandTheorems.v ===== *)
(** * Command batches: what a declaration guarantees

    A phase declares its batch once; each frame fills in payloads, a timeout and
    timeline values, and the device manager checks the request against the
    declaration.  The theorems say that the two checks fit together, and where the
    check of the declaration itself has no defined outcome. *)

From stdpp Require Import base list numbers.
From Stdlib Require Import ZArith Lia Bool.
From S2P Require Import Prelude DeviceCommands.

Local Open Scope Z_scope.

(** ** Loops over arrays *)

Lemma all_below_true {A} (test : A -> bool) count values :
  all_below (fun x => Some (test x)) count values = Some true <->
  (Z.to_nat count <= length values)%nat /\ Forall (fun x => test x = true) (take (Z.to_nat count) values).
Proof.
  revert count. induction values as [|x values IH]; intros count; simpl; destruct (Z.leb_spec count 0).
  - replace (Z.to_nat count) with 0%nat by lia. split; [|done]. split; [lia|constructor].
  - split; [done|]. intros [? _]. lia.
  - replace (Z.to_nat count) with 0%nat by lia. split; [|done]. split; [lia|constructor].
  - replace (Z.to_nat count) with (S (Z.to_nat (count - 1))) by lia. simpl. rewrite Forall_cons_iff.
    destruct (test x); [rewrite IH|split; [done|]]; naive_solver lia.
Qed.

Lemma all_below_empty {A} (test : A -> option bool) count values :
  count <= 0 -> all_below test count values = Some true.
Proof. intros H. destruct values; simpl; by rewrite (proj2 (Z.leb_le count 0)) by lia. Qed.

(** Without an early return, the loop leaves the array. *)
Lemma all_below_none {A} (test : A -> bool) count values :
  all_below (fun x => Some (test x)) count values = None <->
  (length values < Z.to_nat count)%nat /\ Forall (fun x => test x = true) values.
Proof.
  revert count. induction values as [|x values IH]; intros count; simpl; destruct (Z.leb_spec count 0).
  - split; [done|]. intros [? _]. lia.
  - split; [|done]. split; [lia|constructor].
  - split; [done|]. intros [? _]. lia.
  - rewrite Forall_cons_iff. destruct (test x); [rewrite IH|split; [done|]]; naive_solver lia.
Qed.

Lemma split_test_true {A} (active inactive : A -> bool) count values :
  split_test active inactive count values = true <->
  Forall (fun x => active x = true) (take (Z.to_nat count) values) /\
  Forall (fun x => inactive x = true) (drop (Z.to_nat count) values).
Proof.
  revert count. induction values as [|x values IH]; intros count; simpl.
  { rewrite take_nil, drop_nil. split; [split; constructor|done]. }
  rewrite andb_true_iff, IH. destruct (Z.ltb_spec 0 count).
  - replace (Z.to_nat count) with (S (Z.to_nat (count - 1))) by lia. simpl. rewrite Forall_cons_iff. tauto.
  - replace (Z.to_nat count) with 0%nat by lia. replace (Z.to_nat (count - 1)) with 0%nat by lia.
    simpl. rewrite !take_0, !drop_0, Forall_cons_iff. naive_solver.
Qed.

Lemma set_point_values_some value count points :
  (Z.to_nat count <= length points)%nat ->
  set_point_values value count points =
  Some ((set_point_value value <$> take (Z.to_nat count) points) ++ drop (Z.to_nat count) points).
Proof.
  revert count. induction points as [|p points IH]; intros count; simpl; destruct (Z.leb_spec count 0); intros Hl.
  - replace (Z.to_nat count) with 0%nat by lia. done.
  - lia.
  - replace (Z.to_nat count) with 0%nat by lia. done.
  - replace (Z.to_nat count) with (S (Z.to_nat (count - 1))) in * by lia. simpl in *.
    by rewrite IH by lia.
Qed.

Lemma take_zip {A B} n (l : list A) (l' : list B) : take n (zip l l') = zip (take n l) (take n l').
Proof.
  revert l l'. induction n as [|n IH]; intros [|x l] [|y l']; simpl; try done. by rewrite IH.
Qed.

Lemma Forall_zip {A} (P : A * A -> Prop) (l l' : list A) :
  length l = length l' -> Forall P (zip l l') <-> Forall2 (fun x y => P (x, y)) l l'.
Proof.
  revert l'. induction l as [|x l IH]; intros [|y l'] Hl; simplify_eq/=; [done|].
  rewrite Forall_cons_iff, Forall2_cons_iff, IH by (simpl in Hl; lia). done.
Qed.

(** ** References a batch uses *)

(** The buffer references of a command, in declaration order. *)
Definition command_references (c : DeviceCommand) : list HalV2BufferReference :=
  if dc_kind c =? kind_dispatch then take (Z.to_nat (dc_buffer_count c)) (dc_buffers c)
  else if dc_kind c =? kind_copy then [dc_source c; dc_destination c]
  else [dc_target c].

Definition batch_commands (b : DeviceCommandBatch) : list DeviceCommand :=
  take (Z.to_nat (bt_command_count b)) (bt_commands b).

Definition batch_waits (b : DeviceCommandBatch) : list Z :=
  tp_timeline_handle <$> take (Z.to_nat (bt_wait_count b)) (bt_waits b).

Definition batch_signals (b : DeviceCommandBatch) : list Z :=
  tp_timeline_handle <$> take (Z.to_nat (bt_signal_count b)) (bt_signals b).

Definition batch_references (b : DeviceCommandBatch) : list HalV2BufferReference :=
  batch_commands b ≫= command_references.

Lemma same_reference_eq l r :
  br_reserved0 l = br_reserved0 r -> same_reference l r = true <-> l = r.
Proof.
  destruct l, r. unfold same_reference. simpl. intros ->. rewrite !andb_true_iff, !Z.eqb_eq.
  split; [intros [[[-> ->] ->] ->]; done|intros [= -> -> -> ->]; done].
Qed.

Lemma reference_zero_eq r : reference_zero r = true <-> r = zero_reference.
Proof.
  destruct r. unfold reference_zero, zero_reference. simpl. rewrite !andb_true_iff, !Z.eqb_eq.
  split; [intros [[[[-> ->] ->] ->] ->]; done|intros [= -> -> -> -> ->]; done].
Qed.

Lemma reference_declared_reserved r : reference_declared r = true -> br_reserved0 r = 0.
Proof. unfold reference_declared. rewrite !andb_true_iff, !Z.eqb_eq. tauto. Qed.

(** The references an active command declares are declared, the others are zero. *)
Lemma active_command_cases c :
  active_command c = true ->
  (dc_kind c = kind_dispatch /\ dispatch_command_valid c = true) \/
  (dc_kind c = kind_copy /\ reference_declared (dc_source c) = true /\
   reference_declared (dc_destination c) = true) \/
  (dc_kind c = kind_memory_synchronization /\ reference_declared (dc_target c) = true).
Proof.
  unfold active_command. rewrite andb_true_iff. intros [_ H].
  destruct (Z.eqb_spec (dc_kind c) kind_dispatch); [by left|].
  destruct (Z.eqb_spec (dc_kind c) kind_copy); [right; left; by rewrite !andb_true_iff in H; naive_solver|].
  destruct (Z.eqb_spec (dc_kind c) kind_memory_synchronization); [|done].
  right. right. rewrite !andb_true_iff in H. naive_solver.
Qed.

Lemma dispatch_buffers c :
  dispatch_command_valid c = true ->
  dc_buffer_count c <= Z.of_nat hal_v2_buffer_ref_capacity /\
  Forall (fun r => reference_declared r = true) (take (Z.to_nat (dc_buffer_count c)) (dc_buffers c)).
Proof.
  unfold dispatch_command_valid. rewrite !andb_true_iff, split_test_true, !Z.leb_le. tauto.
Qed.

Lemma active_references c :
  active_command c = true -> Forall (fun r => reference_declared r = true) (command_references c).
Proof.
  intros H%active_command_cases. unfold command_references.
  destruct H as [[-> H%dispatch_buffers]|[(-> & ? & ?)|[-> ?]]]; simpl; [tauto| |]; by repeat constructor.
Qed.

Lemma same_declared_lists l l' :
  Forall (fun r => reference_declared r = true) l -> Forall (fun r => reference_declared r = true) l' ->
  Forall2 (fun x y => same_reference x y = true) l l' -> l = l'.
Proof.
  intros Hl Hl' H. induction H as [|x y l l' Hxy H IH]; [done|].
  apply Forall_cons_iff in Hl as [Hx Hl], Hl' as [Hy Hl'].
  apply reference_declared_reserved in Hx, Hy.
  f_equal; [|auto]. apply same_reference_eq; [congruence|done].
Qed.

(** The tests of [command_matches]. *)
Lemma command_matches_true c d :
  command_matches (c, d) = Some true ->
  dc_kind c = dc_kind d /\ dc_buffer_count c = dc_buffer_count d /\
  (Z.to_nat (dc_buffer_count d) <= length (zip (dc_buffers c) (dc_buffers d)))%nat /\
  Forall (fun p => same_reference (fst p) (snd p) = true)
    (take (Z.to_nat (dc_buffer_count d)) (zip (dc_buffers c) (dc_buffers d))) /\
  same_reference (dc_source c) (dc_source d) = true /\
  same_reference (dc_destination c) (dc_destination d) = true /\
  same_reference (dc_target c) (dc_target d) = true.
Proof.
  unfold command_matches. destruct (negb _) eqn:Hh; [done|].
  apply negb_false_iff in Hh. rewrite !andb_true_iff, !Z.eqb_eq in Hh.
  unfold same_references. destruct (all_below _ _ _) as [[]|] eqn:Hb; try done.
  apply (all_below_true (fun p => same_reference (fst p) (snd p))) in Hb. destruct Hb as [Hb1 Hb2].
  intros [= H]. rewrite !andb_true_iff in H. tauto.
Qed.

Lemma matching_references c d :
  command_typed c -> command_typed d -> active_command c = true -> active_command d = true ->
  command_matches (c, d) = Some true -> command_references c = command_references d.
Proof.
  intros [_ Hlc] [_ Hld] Hc Hd (Hk & Hn & _ & Hb & Hs & He & Ht)%command_matches_true.
  apply same_declared_lists; [by apply active_references..|].
  unfold command_references. rewrite Hk, Hn.
  destruct (dc_kind d =? kind_dispatch).
  - rewrite take_zip in Hb. apply (Forall_zip (fun p => same_reference (fst p) (snd p) = true)) in Hb; [done|].
    by rewrite !length_take, Hlc, Hld.
  - destruct (dc_kind d =? kind_copy); by repeat constructor.
Qed.

(** ** Accepted declarations and requests *)

Definition valued (v : Z) (points : list HalV2TimelinePoint) (count : Z) : list HalV2TimelinePoint :=
  (set_point_value v <$> take (Z.to_nat count) points) ++ drop (Z.to_nat count) points.

Lemma declaration_accepted d :
  batch_typed d ->
  validate_batch_declaration d = Some true <->
  bt_wait_count d <= Z.of_nat hal_v2_timeline_wait_capacity /\
  bt_signal_count d <= Z.of_nat hal_v2_timeline_signal_capacity /\
  Forall (fun p => tp_value p = 0) (take (Z.to_nat (bt_wait_count d)) (bt_waits d)) /\
  Forall (fun p => tp_value p = 0) (take (Z.to_nat (bt_signal_count d)) (bt_signals d)) /\
  bt_timeout_ns d = 0 /\
  validate_batch_shape
    (mkCommandBatch (bt_struct_size d) (bt_extension_version d) (bt_batch_id d) (bt_frame_index d) 1
       (bt_command_count d) (bt_wait_count d) (bt_signal_count d) (bt_reserved0 d) (bt_commands d)
       (valued 1 (bt_waits d) (bt_wait_count d)) (valued 1 (bt_signals d) (bt_signal_count d))
       (bt_reserved d)) = true.
Proof.
  intros (_ & Hw & Hs & _ & _ & Rw & Rs). unfold validate_batch_declaration, point_unvalued.
  destruct (all_below _ (bt_wait_count d) _) as [[]|] eqn:Ew.
  - apply (all_below_true (fun p => tp_value p =? 0)) in Ew as [Lw Fw].
    rewrite (set_point_values_some 1 (bt_wait_count d)) by done.
    destruct (all_below _ (bt_signal_count d) _) as [[]|] eqn:Es.
    + apply (all_below_true (fun p => tp_value p =? 0)) in Es as [Ls Fs].
      rewrite set_point_values_some by done. unfold is_u32 in *. fold (valued 1 (bt_waits d) (bt_wait_count d)).
      fold (valued 1 (bt_signals d) (bt_signal_count d)).
      setoid_rewrite Z.eqb_eq in Fw. setoid_rewrite Z.eqb_eq in Fs.
      split; [|intros (_ & _ & _ & _ & Ht & Hv)].
      * intros [= H]. rewrite !andb_true_iff, !Z.eqb_eq in H. split_and!; try done; [lia|lia|tauto..].
      * rewrite Hv, Ht. f_equal. unfold validate_batch_shape in Hv. simpl in Hv.
        rewrite !andb_true_iff in Hv. destruct Hv as [[[[[[[[[[[[_ _] ->] ->] _] _] _] _] _] _] _] _] _]. done.
    + split; [done|]. intros (_ & Hc & _ & Fs & _). exfalso.
      enough (all_below (fun x => Some (tp_value x =? 0)) (bt_signal_count d) (bt_signals d) = Some true) by congruence.
      apply all_below_true. split; [unfold is_u32 in *; lia|]. eapply Forall_impl; [|exact Fs]. intros p Hp. by apply Z.eqb_eq.
    + split; [done|]. intros (_ & Hc & _). exfalso.
      apply (all_below_none (fun p => tp_value p =? 0)) in Es as [? _]. unfold is_u32 in *. lia.
  - split; [done|]. intros (Hc & _ & Fw & _). exfalso.
    enough (all_below (fun x => Some (tp_value x =? 0)) (bt_wait_count d) (bt_waits d) = Some true) by congruence.
    apply all_below_true. split; [unfold is_u32 in *; lia|]. eapply Forall_impl; [|exact Fw]. intros p Hp. by apply Z.eqb_eq.
  - split; [done|]. intros (Hc & _). exfalso.
    apply (all_below_none (fun p => tp_value p =? 0)) in Ew as [? _]. unfold is_u32 in *. lia.
Qed.

Lemma shape_commands b :
  validate_batch_shape b = true -> Forall (fun c => active_command c = true) (batch_commands b).
Proof. unfold validate_batch_shape, batch_commands. rewrite !andb_true_iff, !split_test_true. tauto. Qed.

Lemma declared_commands d :
  batch_typed d -> validate_batch_declaration d = Some true ->
  Forall (fun c => active_command c = true) (batch_commands d).
Proof. intros Ht (_ & _ & _ & _ & _ & Hv)%declaration_accepted; [|done]. by apply shape_commands in Hv. Qed.

Lemma same_handles l l' :
  length l = length l' ->
  Forall (fun p : HalV2TimelinePoint * HalV2TimelinePoint =>
    (tp_timeline_handle (fst p) =? tp_timeline_handle (snd p)) = true) (zip l l') ->
  tp_timeline_handle <$> l = tp_timeline_handle <$> l'.
Proof.
  revert l'. induction l as [|x l IH]; intros [|y l'] Hl H; simplify_eq/=; [done|].
  apply Forall_cons_iff in H as [Hxy%Z.eqb_eq H]. f_equal; auto.
Qed.

Lemma matching_points l l' count :
  length l = length l' ->
  all_below same_timeline count (zip l l') = Some true ->
  tp_timeline_handle <$> take (Z.to_nat count) l = tp_timeline_handle <$> take (Z.to_nat count) l'.
Proof.
  intros Hl H. unfold same_timeline in H.
  apply (all_below_true (fun p => tp_timeline_handle (fst p) =? tp_timeline_handle (snd p))) in H as [_ H].
  rewrite take_zip in H. apply same_handles; [|done]. by rewrite !length_take, Hl.
Qed.

(** A test that may itself leave an array. *)
Lemma all_below_some {A} (test : A -> option bool) count values :
  all_below test count values = Some true ->
  (Z.to_nat count <= length values)%nat /\ Forall (fun x => test x = Some true) (take (Z.to_nat count) values).
Proof.
  revert count. induction values as [|x values IH]; intros count; simpl; destruct (Z.leb_spec count 0);
    intros E; try done; try (replace (Z.to_nat count) with 0%nat by lia; split; [lia|constructor]).
  replace (Z.to_nat count) with (S (Z.to_nat (count - 1))) by lia. simpl.
  destruct (test x) as [[]|] eqn:Hx; try done. apply IH in E as [Hl E]. split; [lia|by constructor].
Qed.

Lemma bind_same {A B} (f : A -> list B) (l l' : list A) :
  Forall2 (fun x y => f x = f y) l l' -> l ≫= f = l' ≫= f.
Proof. induction 1 as [|x y l l' Hxy _ IH]; csimpl; [done|]. by rewrite Hxy, IH. Qed.

Lemma matching_commands b d :
  batch_typed b -> batch_typed d ->
  Forall (fun c => active_command c = true) (batch_commands b) ->
  Forall (fun c => active_command c = true) (batch_commands d) ->
  bt_command_count b = bt_command_count d ->
  all_below command_matches (bt_command_count b) (zip (bt_commands b) (bt_commands d)) = Some true ->
  batch_references b = batch_references d.
Proof.
  intros (Hlb & _ & _ & Tb & _) (Hld & _ & _ & Td & _) Hb Hd Hn [_ H]%all_below_some.
  unfold batch_references, batch_commands in *. rewrite <- Hn in *. rewrite take_zip in H.
  assert (Hlen : length (take (Z.to_nat (bt_command_count b)) (bt_commands b)) =
                 length (take (Z.to_nat (bt_command_count b)) (bt_commands d)))
    by (by rewrite !length_take, Hlb, Hld).
  apply Forall_take with (n := Z.to_nat (bt_command_count b)) in Tb, Td.
  revert Hb Hd H Hlen Tb Td. generalize (take (Z.to_nat (bt_command_count b)) (bt_commands b)).
  generalize (take (Z.to_nat (bt_command_count b)) (bt_commands d)). intros l' l Hb Hd H Hlen Tb Td. apply bind_same. revert l' Hd H Hlen Td.
  induction l as [|c l IH]; intros [|d' l'] Hd H Hlen Td; simplify_eq/=; [constructor|].
  apply Forall_cons_iff in Hb as [? ?], Hd as [? ?], H as [? ?], Tb as [? ?], Td as [? ?].
  constructor; [by apply matching_references|by apply IH].
Qed.

(** A request that fills in a declaration: payload bytes of the dispatch commands, a timeout, and
    the values of the declared timelines. *)
Definition fill_command (bytes : list Z) (c : DeviceCommand) : DeviceCommand :=
  if dc_kind c =? kind_dispatch then
    mkDeviceCommand (dc_struct_size c) (dc_extension_version c) (dc_kind c) (dc_operation c) (dc_opcode c)
      (dc_flags c) (Z.of_nat (length bytes)) (dc_buffer_count c)
      (bytes ++ replicate (hal_v2_inline_payload_capacity - length bytes) 0) (dc_buffers c) (dc_source c)
      (dc_destination c) (dc_target c) (dc_reserved c)
  else c.

Definition fill_commands (payloads : list (list Z)) (l : list DeviceCommand) : list DeviceCommand :=
  zip_with fill_command payloads l ++ drop (length payloads) l.

Definition fill_points (values : list Z) (l : list HalV2TimelinePoint) : list HalV2TimelinePoint :=
  zip_with set_point_value values l ++ drop (length values) l.

Definition fill_batch (d : DeviceCommandBatch) (timeout : Z) (payloads : list (list Z))
    (wait_values signal_values : list Z) : DeviceCommandBatch :=
  mkCommandBatch (bt_struct_size d) (bt_extension_version d) (bt_batch_id d) (bt_frame_index d) timeout
    (bt_command_count d) (bt_wait_count d) (bt_signal_count d) (bt_reserved0 d)
    (fill_commands payloads (bt_commands d)) (fill_points wait_values (bt_waits d))
    (fill_points signal_values (bt_signals d)) (bt_reserved d).

(** A request that passes the shape test and matches an accepted declaration uses exactly the
    declared buffer references (buffer, access, offset and size), in the declared commands, and exactly
    the declared wait and signal timelines. *)
Theorem batch_request_confined d b :
  batch_typed d -> batch_typed b -> validate_batch_declaration d = Some true ->
  validate_batch_shape b = true -> batch_matches_declaration b d = Some true ->
  batch_references b = batch_references d /\ batch_waits b = batch_waits d /\
  batch_signals b = batch_signals d /\ Forall (fun r => reference_declared r = true) (batch_references b).
Proof.
  intros Td Tb Hd Hb Hm. pose proof (declared_commands d Td Hd) as Ad. pose proof (shape_commands b Hb) as Ab.
  unfold batch_matches_declaration in Hm. destruct (negb _) eqn:Hn; [done|].
  apply negb_false_iff in Hn. rewrite !andb_true_iff, !Z.eqb_eq in Hn. destruct Hn as [[Nc Nw] Ns].
  destruct (all_below command_matches _ _) as [[]|] eqn:Ec; try done.
  destruct (all_below same_timeline (bt_wait_count b) _) as [[]|] eqn:Ew; try done.
  split_and!.
  - by apply matching_commands.
  - unfold batch_waits. rewrite <- Nw. apply matching_points; [|done].
    destruct Td as (_ & -> & _), Tb as (_ & -> & _). done.
  - unfold batch_signals. rewrite <- Ns. apply matching_points; [|done].
    destruct Td as (_ & _ & -> & _), Tb as (_ & _ & -> & _). done.
  - unfold batch_references. apply Forall_bind. eapply Forall_impl; [|exact Ab]. apply active_references.
Qed.

(** Filling the first elements of an array. *)
Lemma take_zip_drop {A B} (f : B -> A -> A) (values : list B) (l : list A) n :
  length values = n -> (n <= length l)%nat ->
  take n (zip_with f values l ++ drop n l) = zip_with f values l /\
  drop n (zip_with f values l ++ drop n l) = drop n l.
Proof.
  intros Hv Hl. assert (length (zip_with f values l) = n) by (rewrite length_zip_with; lia).
  split; [by rewrite take_app_length'|by rewrite drop_app_length'].
Qed.

Lemma Forall_zip_with_take {A B} (f : B -> A -> A) (P Q : A -> Prop) (R : B -> Prop) values l n :
  length values = n -> Forall R values -> Forall P (take n l) ->
  (forall v x, R v -> P x -> Q (f v x)) -> Forall Q (zip_with f values l).
Proof.
  intros Hv HR HP H. revert n l Hv HP. induction HR as [|v values Hv' HR IH]; intros n [|x l] <- HP; simpl in *;
    try constructor.
  - apply H; [done|]. by apply Forall_cons_iff in HP as [? _].
  - apply (IH (length values)); [done|]. by apply Forall_cons_iff in HP as [_ ?].
Qed.

Lemma fill_points_valid values points n :
  length values = Z.to_nat n -> (Z.to_nat n <= length points)%nat -> Forall (fun v => v <> 0) values ->
  split_test active_point inactive_point n (valued 1 points n) = true ->
  split_test active_point inactive_point n (fill_points values points) = true.
Proof.
  intros Hv Hl Hnz. rewrite !split_test_true. unfold valued, fill_points. rewrite Hv.
  rewrite take_app_length', drop_app_length' by (rewrite length_fmap, length_take; lia).
  destruct (take_zip_drop set_point_value values points _ Hv Hl) as [-> ->].
  intros [Ha Hi]. split; [|done]. rewrite Forall_fmap in Ha.
  eapply (Forall_zip_with_take _ _ _ (fun v => v <> 0)); [exact Hv|done|exact Ha|].
  intros v p Hv0. unfold active_point, point_header_valid. simpl. rewrite !andb_true_iff, !negb_true_iff, !Z.eqb_neq.
  tauto.
Qed.

Lemma fill_command_active bytes c :
  (length bytes <= hal_v2_inline_payload_capacity)%nat -> active_command c = true ->
  active_command (fill_command bytes c) = true.
Proof.
  intros Hb Ha. unfold fill_command. destruct (Z.eqb_spec (dc_kind c) kind_dispatch) as [Hk|]; [|done].
  unfold active_command, command_header_valid, dispatch_command_valid in *. simpl.
  rewrite Hk, Z.eqb_refl in *. simpl in *. rewrite !andb_true_iff, !Z.leb_le in *.
  split_and!; try tauto; [lia|]. rewrite Nat2Z.id, drop_app_length. apply forallb_forall.
  intros x Hx%list_elem_of_In%elem_of_replicate. by destruct Hx as [-> _].
Qed.

Lemma fill_command_matches bytes c :
  command_typed c -> dc_buffer_count c <= Z.of_nat (length (dc_buffers c)) ->
  command_matches (fill_command bytes c, c) = Some true.
Proof.
  intros Ht Hn. unfold command_matches, fill_command.
  assert (Hsame : forall l, all_below same_references (dc_buffer_count c) (zip l l) = Some true <->
            (Z.to_nat (dc_buffer_count c) <= length l)%nat).
  { intros l. unfold same_references.
    rewrite (all_below_true (fun p => same_reference (fst p) (snd p))), length_zip_with, Nat.min_id.
    split; [tauto|]. intros Hl. split; [done|]. apply Forall_take. clear. induction l; simpl; constructor; auto.
    by apply same_reference_eq. }
  assert (Hr : forall r, same_reference r r = true) by (intros r; by apply same_reference_eq).
  destruct (dc_kind c =? kind_dispatch); simpl; rewrite !Z.eqb_refl; simpl;
    rewrite (proj2 (Hsame (dc_buffers c))), !Hr by lia; done.
Qed.

Lemma fill_points_match values points n :
  length values = Z.to_nat n -> (Z.to_nat n <= length points)%nat ->
  all_below same_timeline n (zip (fill_points values points) points) = Some true.
Proof.
  intros Hv Hl. unfold same_timeline.
  apply (all_below_true (fun p => tp_timeline_handle (fst p) =? tp_timeline_handle (snd p))).
  unfold fill_points. rewrite length_zip_with, length_app, length_zip_with, length_drop.
  split; [lia|]. rewrite take_zip, Hv. destruct (take_zip_drop set_point_value values points _ Hv Hl) as [-> _].
  rewrite <- Hv. clear Hv Hl. revert points.
  induction values as [|v values IH]; intros [|p points]; simpl; constructor; [by apply Z.eqb_eq|apply IH].
Qed.

Lemma active_buffer_count c :
  command_typed c -> active_command c = true -> dc_buffer_count c <= Z.of_nat (length (dc_buffers c)).
Proof.
  intros [_ ->]. unfold active_command, bare_command. rewrite andb_true_iff. intros [_ H].
  destruct (dc_kind c =? kind_dispatch); [by apply (proj1 (dispatch_buffers c H))|].
  destruct (dc_kind c =? kind_copy), (dc_kind c =? kind_memory_synchronization); try done;
    rewrite !andb_true_iff, !Z.eqb_eq in H; unfold hal_v2_buffer_ref_capacity; lia.
Qed.

#[local] Arguments command_matches : simpl never.

Lemma fill_commands_match payloads l n :
  length payloads = Z.to_nat n -> (Z.to_nat n <= length l)%nat -> Forall command_typed l ->
  Forall (fun c => active_command c = true) (take (Z.to_nat n) l) ->
  all_below command_matches n (zip (fill_commands payloads l) l) = Some true.
Proof.
  unfold fill_commands. revert n l.
  induction payloads as [|p payloads IH]; intros n l Hp Hl Ht Ha; simpl in *.
  - apply all_below_empty. lia.
  - rewrite <- Hp in *. destruct l as [|c l]; simpl in *; [lia|].
    rewrite (proj2 (Z.leb_gt n 0)) by lia. apply Forall_cons_iff in Ht as [Hc Ht], Ha as [Hac Ha].
    rewrite (fill_command_matches p c Hc (active_buffer_count c Hc Hac)).
    apply IH; [lia|lia|done|]. by replace (Z.to_nat (n - 1)) with (length payloads) by lia.
Qed.

(** A declaration is a template: filling an accepted declaration with any payloads that fit, a
    nonzero timeout and nonzero timeline values gives a request that passes the shape test and matches
    the declaration. *)
Theorem batch_request_fill d timeout payloads wait_values signal_values :
  batch_typed d -> validate_batch_declaration d = Some true -> timeout <> 0 ->
  length payloads = Z.to_nat (bt_command_count d) ->
  Forall (fun bytes => length bytes <= hal_v2_inline_payload_capacity)%nat payloads ->
  length wait_values = Z.to_nat (bt_wait_count d) -> Forall (fun v => v <> 0) wait_values ->
  length signal_values = Z.to_nat (bt_signal_count d) -> Forall (fun v => v <> 0) signal_values ->
  validate_batch_shape (fill_batch d timeout payloads wait_values signal_values) = true /\
  batch_matches_declaration (fill_batch d timeout payloads wait_values signal_values) d = Some true.
Proof.
  intros Td Hd Hto Lp Hp Lw Hw Ls Hs. pose proof (declared_commands d Td Hd) as Ad.
  apply declaration_accepted in Hd as (Cw & Cs & _ & _ & _ & Hv); [|done].
  destruct Td as (Lc & Lws & Lss & Tc & _). unfold validate_batch_shape in *. simpl in *.
  rewrite !andb_true_iff in Hv. destruct Hv as [[[[[[[[[[[[V1 V2] V3] V4] _] V5] V6] V7] V8] V9] V10] V11] V12].
  unfold counted in V5. rewrite !andb_true_iff, Z.leb_le in V5.
  assert (Hn : (Z.to_nat (bt_command_count d) <= length (bt_commands d))%nat) by lia.
  split.
  - rewrite V1, V2, V3, V4, V6, V7, V8, V9, (proj2 (Z.eqb_neq _ _) Hto). unfold counted.
    rewrite (proj1 V5), (proj2 (Z.leb_le _ _) (proj2 V5)). simpl.
    rewrite !fill_points_valid by (done || lia). rewrite !andb_true_r.
    apply split_test_true in V10 as [V10 V10']. apply split_test_true. unfold fill_commands. rewrite Lp.
    destruct (take_zip_drop fill_command payloads (bt_commands d) _ Lp Hn) as [-> ->]. split; [|done].
    eapply (Forall_zip_with_take _ _ _ (fun bytes => length bytes <= hal_v2_inline_payload_capacity)%nat);
      [exact Lp|exact Hp|exact V10|]. apply fill_command_active.
  - unfold batch_matches_declaration. simpl. rewrite !Z.eqb_refl. simpl.
    rewrite fill_commands_match by done. rewrite !fill_points_match by (done || lia). done.
Qed.

(** C30. The validation of a declaration runs past an array exactly when a count exceeds the array and
    every point before the end has value zero: a wait count above 8 with zero-valued waits, or, with the
    waits in range and zero, a signal count above 8 with zero-valued signals.  Nothing tests the counts
    before these loops. *)
Theorem batch_declaration_overrun d :
  batch_typed d ->
  validate_batch_declaration d = None <->
  (Z.of_nat hal_v2_timeline_wait_capacity < bt_wait_count d /\ Forall (fun p => tp_value p = 0) (bt_waits d)) \/
  (bt_wait_count d <= Z.of_nat hal_v2_timeline_wait_capacity /\
   Forall (fun p => tp_value p = 0) (take (Z.to_nat (bt_wait_count d)) (bt_waits d)) /\
   Z.of_nat hal_v2_timeline_signal_capacity < bt_signal_count d /\
   Forall (fun p => tp_value p = 0) (bt_signals d)).
Proof.
  intros (_ & Lw & Ls & _ & _ & Rw & Rs). unfold is_u32 in *.
  pose proof (all_below_none (fun p => tp_value p =? 0) (bt_wait_count d) (bt_waits d)) as Nw.
  pose proof (all_below_true (fun p => tp_value p =? 0) (bt_wait_count d) (bt_waits d)) as Tw.
  pose proof (all_below_none (fun p => tp_value p =? 0) (bt_signal_count d) (bt_signals d)) as Ns.
  pose proof (all_below_true (fun p => tp_value p =? 0) (bt_signal_count d) (bt_signals d)) as Ts.
  setoid_rewrite Z.eqb_eq in Nw. setoid_rewrite Z.eqb_eq in Tw.
  setoid_rewrite Z.eqb_eq in Ns. setoid_rewrite Z.eqb_eq in Ts. rewrite Lw in *. rewrite Ls in *.
  unfold validate_batch_declaration, point_unvalued.
  destruct (all_below _ (bt_wait_count d) _) as [[]|].
  - destruct (proj1 Tw eq_refl) as [Hw Fw]. rewrite set_point_values_some by lia.
    destruct (all_below _ (bt_signal_count d) _) as [[]|].
    + destruct (proj1 Ts eq_refl) as [Hs _]. rewrite set_point_values_some by lia. split; [done|]. lia.
    + split; [done|]. intros [[? _]|(_ & _ & Hs & Fs)]; [lia|].
      assert (Some false = None) by (apply Ns; split; [lia|done]). done.
    + destruct (proj1 Ns eq_refl) as [Hs Fs]. split; [|done]. intros _. right. split_and!; try done; lia.
  - split; [done|]. intros [[? Fw]|(Hw & Fw & _)].
    + assert (Some false = None) by (apply Nw; split; [lia|done]). done.
    + assert (Some false = Some true) by (apply Tw; split; [lia|done]). done.
  - destruct (proj1 Nw eq_refl) as [Hw Fw]. split; [|done]. intros _. left. split; [lia|done].
Qed.

(** ** A declaration with one dispatch command and one signal *)

Definition blank_point : HalV2TimelinePoint := mkTimelinePoint 48 1 invalid_device_handle 0 [0; 0; 0].

Definition blank_command : DeviceCommand :=
  mkDeviceCommand 544 1 0 0 0 0 0 0 (replicate 128 0) (replicate 8 zero_reference) zero_reference
    zero_reference zero_reference [0; 0; 0; 0].

Definition dispatch_command : DeviceCommand :=
  mkDeviceCommand 544 1 kind_dispatch 0 5 0 0 1 (replicate 128 0)
    (mkBufferReference (DeviceBufferHandle_make 7 0) RTFW_DEVICE_ACCESS_READ 0 0 64 ::
       replicate 7 zero_reference)
    zero_reference zero_reference zero_reference [0; 0; 0; 0].

Definition sample_declaration (wait_count : Z) : DeviceCommandBatch :=
  mkCommandBatch 9584 1 0 0 0 1 wait_count 1 0 (dispatch_command :: replicate 15 blank_command)
    (replicate 8 blank_point)
    (mkTimelinePoint 48 1 (DeviceTimelineHandle_make 7 0) 0 [0; 0; 0] :: replicate 7 blank_point)
    (replicate 8 0).

Lemma sample_declaration_typed n : is_u32 n -> batch_typed (sample_declaration n).
Proof. intros Hn. split_and!; try done; by repeat constructor. Qed.

Lemma batch_request_fill_witness :
  validate_batch_shape (fill_batch (sample_declaration 0) 1000 [[1; 2; 3]] [] [4]) = true.
Proof.
  apply (batch_request_fill (sample_declaration 0) 1000 [[1; 2; 3]] [] [4]);
    try reflexivity; try discriminate; [apply sample_declaration_typed|..]; repeat constructor; try discriminate;
    vm_compute; lia.
Defined.

Lemma batch_request_confined_witness :
  batch_references (fill_batch (sample_declaration 0) 1000 [[1; 2; 3]] [] [4]) =
  batch_references (sample_declaration 0).
Proof.
  apply (batch_request_confined (sample_declaration 0) (fill_batch (sample_declaration 0) 1000 [[1; 2; 3]] [] [4]));
    try reflexivity; [apply sample_declaration_typed; split; vm_compute; discriminate|].
  split_and!; try reflexivity; repeat constructor; vm_compute; discriminate.
Defined.

Lemma batch_declaration_overrun_witness : validate_batch_declaration (sample_declaration 9) = None.
Proof.
  apply (batch_declaration_overrun (sample_declaration 9));
    [apply sample_declaration_typed; split; vm_compute; discriminate|].
  left. split; [reflexivity|]. repeat constructor.
Defined.
