(* ===== verification/CrossRateTypes.v ===== *)
(** * Data shared by rate dispatch and cross-rate data

    Channel declarations and the compiled device rate plan, which
    src/rt/src/rate_dispatch.cpp builds and reads and
    src/rt/src/cross_rate_data.cpp reads.
    Device handles are their encoded 64-bit values; a span of host memory is
    its base address and its size. *)

From stdpp Require Import base list numbers strings.
From Stdlib Require Import ZArith Lia Bool.
From S2P Require Import Prelude Handles.

Local Open Scope Z_scope.

(** [CrossRateDeviceEndpointSelector]; the ordinal [size_t(-1)] is [None]. *)
Record EndpointSelector : Set := mkSelector {
  payload_reference_ordinal : option nat;
  slot_stride_bytes : Z
}.

Definition selector_valid (s : EndpointSelector) : bool :=
  match payload_reference_ordinal s with
  | Some _ => negb (slot_stride_bytes s =? 0)
  | None => false
  end.

Definition selector_default : EndpointSelector := mkSelector None 0.

Inductive CrossRateMode : Set :=
| sample_and_hold
| mode_other (raw : Z).

(** [CrossRateChannelSpec] of src/rt/src/cross_rate_data.hpp *)
Record CrossRateChannelSpec : Set := mkChannelSpec {
  xc_name : list Z;
  xc_producer : PhaseHandle;
  xc_consumer : PhaseHandle;
  xc_payload_size : Z;
  xc_initial_sample : list Z;
  xc_mode : CrossRateMode;
  xc_maximum_age_ns : Z;
  xc_producer_device : EndpointSelector;
  xc_consumer_device : EndpointSelector
}.

Inductive DeviceRatePayloadRole : Set :=
| role_input
| role_output
| role_input_output
| role_other (raw : Z).

Inductive DeviceRateReferenceKind : Set :=
| dispatch_buffer
| copy_source
| copy_destination
| synchronization_target
| reference_other (raw : Z).

(** ** The compiled device rate plan *)

(** [CompiledDeviceRatePhase]; a simulation policy is its host watchdog. *)
Record DeviceRatePhase : Set := mkDevicePhase {
  dp_phase : PhaseHandle;
  dp_domain : RateDomainHandle;
  dp_backend : Z;
  dp_compiled_phase_index : nat;
  dp_completion_budget_ns : Z;
  dp_maximum_in_flight : Z;
  dp_command_count : Z;
  dp_wait_count : Z;
  dp_signal_count : Z;
  dp_first_command_index : nat;
  dp_first_payload_reference_index : nat;
  dp_payload_reference_count : nat;
  dp_first_timeline_reference_index : nat;
  dp_timeline_reference_count : nat;
  dp_completion_timestamp_domain_identity : Z;
  dp_simulation : option Z
}.

Record DeviceRateCommand : Set := mkRateCommand {
  rc_phase : PhaseHandle;
  rc_command_index : Z;
  rc_kind : Z;
  rc_operation : Z;
  rc_opcode : Z;
  rc_flags : Z;
  rc_first_payload_reference_index : nat;
  rc_payload_reference_count : nat
}.

Record DeviceRatePayloadReference : Set := mkPayloadReference {
  pr_phase : PhaseHandle;
  pr_backend : Z;
  pr_buffer : Z;
  pr_command_index : Z;
  pr_command_reference_index : Z;
  pr_kind : DeviceRateReferenceKind;
  pr_role : DeviceRatePayloadRole;
  pr_access : Z;
  pr_offset : Z;
  pr_bytes : Z
}.

Inductive DeviceRateTimelineRole : Set := timeline_wait | timeline_signal.

Record DeviceRateTimelineReference : Set := mkTimelineReference {
  tr_phase : PhaseHandle;
  tr_backend : Z;
  tr_timeline : Z;
  tr_role : DeviceRateTimelineRole;
  tr_declaration_index : nat
}.

Inductive DeviceRateAdmissionConstraint : Set :=
| phase_in_flight
| backend_in_flight
| runtime_outstanding
| completion_batch.

Record DeviceRateAdmissionBackend : Set := mkAdmissionBackend {
  ab_backend : Z;
  ab_maximum_in_flight : Z;
  ab_completion_batch_capacity : Z;
  ab_peak_in_flight : Z;
  ab_peak_completions : Z
}.

Record DeviceRateAdmissionPhase : Set := mkAdmissionPhase {
  ap_phase : PhaseHandle;
  ap_backend : Z;
  ap_completion_budget_ns : Z;
  ap_maximum_in_flight : Z;
  ap_peak_in_flight : Z
}.

Record DeviceRateAdmissionInterval : Set := mkAdmissionInterval {
  ai_reference_index : nat;
  ai_phase : PhaseHandle;
  ai_domain : RateDomainHandle;
  ai_backend : Z;
  ai_release_time_ns : Z;
  ai_completion_deadline_ns : Z;
  ai_substep_ordinal : Z;
  ai_optional : bool;
  ai_carries_across_supercycle : bool;
  ai_constraining_capacity : DeviceRateAdmissionConstraint;
  ai_constraining_limit : Z;
  ai_demand_at_release : Z
}.

Record DeviceRateAdmissionReport : Set := mkAdmissionReport {
  arp_supercycle_ns : Z;
  arp_runtime_outstanding_capacity : Z;
  arp_runtime_completion_batch_capacity : Z;
  arp_peak_global_in_flight : Z;
  arp_backend_count : nat;
  arp_phase_count : nat;
  arp_interval_count : nat
}.

Record DeviceRatePlan : Set := mkDeviceRatePlan {
  drp_phases : list DeviceRatePhase;
  drp_commands : list DeviceRateCommand;
  drp_payload_references : list DeviceRatePayloadReference;
  drp_timeline_references : list DeviceRateTimelineReference;
  drp_report : DeviceRateAdmissionReport;
  drp_admission_backends : list DeviceRateAdmissionBackend;
  drp_admission_phases : list DeviceRateAdmissionPhase;
  drp_admission_intervals : list DeviceRateAdmissionInterval
}.

Definition empty_device_plan : DeviceRatePlan :=
  mkDeviceRatePlan [] [] [] [] (mkAdmissionReport 0 0 0 0 0 0 0) [] [] [].

Record HostSpan : Set := mkSpan {
  span_base : Z;
  span_size : Z
}.

(** [CrossRateDeviceBufferSource]; [synchronization] is not read. *)
Record DeviceBufferSource : Set := mkBufferSource {
  bf_buffer : Z;
  bf_backend : Z;
  bf_storage : HostSpan;
  bf_bytes : Z;
  bf_access : Z;
  bf_coherency : Z;
  bf_byte_granularity : Z;
  bf_offset_granularity : Z
}.

#[export] Instance EndpointSelector_eq_dec : EqDecision EndpointSelector.
Proof. solve_decision. Defined.
#[export] Instance CrossRateMode_eq_dec : EqDecision CrossRateMode.
Proof. solve_decision. Defined.
#[export] Instance DeviceRatePayloadRole_eq_dec : EqDecision DeviceRatePayloadRole.
Proof. solve_decision. Defined.
#[export] Instance DeviceRateTimelineRole_eq_dec : EqDecision DeviceRateTimelineRole.
Proof. solve_decision. Defined.
