(* ===== verification/RateDispatch.v ===== *)
(** * Active rate dispatch (src/rt/src/rate_dispatch.cpp)

    [compile_rate_dispatch] turns a reference plan into the immutable tables of
    active execution: a declared-budget schedule of the mandatory CPU releases,
    the groups of releases dispatched together, index slices by domain and by
    channel endpoint, the device dependencies inside a group, and the order in
    which optional domains are shed.  [count_due_rate_work] counts the releases
    of a logical interval without walking it.

    The device plan is an input; only the phase and domain of its phases are
    read here.  A device release without a device plan is refused (the code
    dereferences the plan there, after every device binding has been found in
    it).  Allocation failure is not modelled. *)

From stdpp Require Import base list numbers sorting sets strings.
From Stdlib Require Import ZArith Lia Bool.
From S2P Require Import Prelude Handles CompiledGraph RateTimeline CrossRateTypes.

Local Open Scope Z_scope.
Local Open Scope rtfw_scope.

(** ** Data *)

Definition rate_telemetry_capacity_limit : Z := reference_release_capacity.
Definition rate_policy_threshold_limit : Z := reference_release_capacity.

Record RateExecutionPolicy : Set := mkPolicy {
  maximum_dispatch_records_per_step : Z;
  host_policy_version : Z;
  consecutive_late_threshold : Z;
  consecutive_on_time_threshold : Z;
  rate_telemetry_capacity : Z
}.

Inductive DeterminismTier : Set :=
| tier_unspecified
| tier_schedule_independent
| tier_reproducible_build
| tier_portable_deterministic.

#[export] Instance DeterminismTier_eq_dec : EqDecision DeterminismTier.
Proof. solve_decision. Defined.

Record RateAdmissionRecord : Set := mkAdmission {
  ad_reference_index : nat;
  ad_declared_start_ns : Z;
  ad_declared_finish_ns : Z;
  ad_deadline_ns : Z
}.

Record RateReleaseGroup : Set := mkGroup {
  gr_first_reference_index : nat;
  gr_reference_count : nat;
  gr_domain_registration_index : nat;
  gr_domain_release_sequence : Z;
  gr_release_time_ns : Z
}.

Record CompiledRateDispatchPlan : Set := mkDispatchPlan {
  dpl_policy : RateExecutionPolicy;
  dpl_admission : list RateAdmissionRecord;
  dpl_groups : list RateReleaseGroup;
  dpl_domain_group_offsets : list nat;
  dpl_domain_group_indices : list nat;
  dpl_records_per_domain_release : list nat;
  dpl_optional_shed_order : list nat;
  dpl_producer_channel_offsets : list nat;
  dpl_producer_channel_indices : list nat;
  dpl_consumer_channel_offsets : list nat;
  dpl_consumer_channel_indices : list nat;
  dpl_device_phase_by_reference : list (option nat);
  dpl_device_dependency_offsets : list nat;
  dpl_device_dependencies : list nat;
  dpl_maximum_device_records_per_group : nat
}.

Record RateDispatchDiagnostic : Set := mkDispatchDiagnostic {
  ddg_status : Status;
  ddg_message : option string;
  ddg_reference_index : option nat
}.

Definition dispatch_error (s : Status) (message : string) : RateDispatchDiagnostic :=
  mkDispatchDiagnostic s (Some message) None.
Definition reference_error (s : Status) (message : string) (index : nat) : RateDispatchDiagnostic :=
  mkDispatchDiagnostic s (Some message) (Some index).

Record RateDueCounts : Set := mkDueCounts {
  due_domain_releases : Z;
  due_reference_records : Z
}.

(** ** Counting the releases of an interval *)

Definition ceil_div (value divisor : Z) : option Z :=
  if divisor =? 0 then None
  else
    let output := value / divisor in
    if negb (value mod divisor =? 0)
    then if output =? u64_max then None else Some (u64 (output + 1))
    else Some output.

(** Status, [domain_releases] and [reference_records] after the call.  [records]
    is [dispatch_plan.records_per_domain_release[domain_index]]. *)
Definition count_due_domain_releases (rate_plan : CompiledRatePlan)
    (dispatch_plan : CompiledRateDispatchPlan) (domain_index : nat) (cursor_ns end_ns : Z)
    : Status * Z * Z :=
  if end_ns <? cursor_ns then (invalid_argument, 0, 0)
  else
    match pl_domains rate_plan !! domain_index with
    | None => (invalid_argument, 0, 0)
    | Some domain =>
        let period := cd_period_ns domain in
        let records := Z.of_nat (dpl_records_per_domain_release dispatch_plan !!! domain_index) in
        if (period =? 0) || (records =? 0) then (invalid_argument, 0, 0)
        else
          match ceil_div cursor_ns period, ceil_div end_ns period with
          | Some first_sequence, Some end_sequence =>
              if end_sequence <? first_sequence then (invalid_argument, 0, 0)
              else
                let domain_releases := u64 (end_sequence - first_sequence) in
                match checked_multiply domain_releases records with
                | Some reference_records => (ok, domain_releases, reference_records)
                | None => (capacity_exceeded, 0, 0)
                end
          | _, _ => (invalid_argument, 0, 0)
          end
    end.

Fixpoint count_due_loop (rate_plan : CompiledRatePlan) (dispatch_plan : CompiledRateDispatchPlan)
    (cursor_ns end_ns : Z) (domains : list nat) (candidate : RateDueCounts)
    : option RateDueCounts :=
  match domains with
  | [] => Some candidate
  | domain :: rest =>
      match count_due_domain_releases rate_plan dispatch_plan domain cursor_ns end_ns with
      | (ok, releases, records) =>
          match checked_add (due_domain_releases candidate) releases,
                checked_add (due_reference_records candidate) records with
          | Some r, Some c =>
              count_due_loop rate_plan dispatch_plan cursor_ns end_ns rest (mkDueCounts r c)
          | _, _ => None
          end
      | _ => None
      end
  end.

(** Status and [output] after the call. *)
Definition count_due_rate_work (rate_plan : CompiledRatePlan)
    (dispatch_plan : CompiledRateDispatchPlan) (cursor_ns end_ns : Z) (output : RateDueCounts)
    : Status * RateDueCounts :=
  if end_ns <? cursor_ns then (invalid_argument, output)
  else
    match count_due_loop rate_plan dispatch_plan cursor_ns end_ns
            (seq 0 (length (pl_domains rate_plan))) (mkDueCounts 0 0) with
    | Some candidate => (ok, candidate)
    | None => (capacity_exceeded, output)
    end.

(** ** Index slices

    The counting sort the code uses for its slices: count the keys, sum the
    counts to offsets, then place each position at the cursor of its key. *)

Definition count_keys (n : nat) (keys : list nat) : list nat :=
  foldl (fun offsets k => alter S (S k) offsets) (replicate (S n) 0%nat) keys.

Definition sum_offsets (offsets : list nat) : list nat :=
  foldl (fun offsets index =>
           <[index := (offsets !!! index + offsets !!! (index - 1))%nat]> offsets)
    offsets (seq 1 (length offsets - 1)).

Definition place_step (st : list nat * list nat) (entry : nat * nat) : list nat * list nat :=
  let '(next, indices) := st in
  let '(position, k) := entry in
  (alter S k next, <[next !!! k := position]> indices).

(** Offsets and indices of the entries (position, key), in order. *)
Definition index_slices (n : nat) (entries : list (nat * nat)) : list nat * list nat :=
  let offsets := sum_offsets (count_keys n (snd <$> entries)) in
  (offsets, snd (foldl place_step (offsets, replicate (length entries) 0%nat) entries)).

(** ** Validation *)

Definition policy_valid (p : RateExecutionPolicy) : bool :=
  negb (maximum_dispatch_records_per_step p =? 0) &&
  (maximum_dispatch_records_per_step p <=? reference_release_capacity) &&
  negb (host_policy_version p =? 0) &&
  negb (consecutive_late_threshold p =? 0) &&
  negb (consecutive_on_time_threshold p =? 0) &&
  (consecutive_late_threshold p <=? rate_policy_threshold_limit) &&
  (consecutive_on_time_threshold p <=? rate_policy_threshold_limit) &&
  (rate_telemetry_capacity p <=? rate_telemetry_capacity_limit).

Definition find_binding (bindings : list CompiledRateBinding) (h : PhaseHandle)
    : option CompiledRateBinding :=
  snd <$> list_find (fun b => cb_phase b = h) bindings.

Definition domain_in_plan (rate_plan : CompiledRatePlan) (h : RateDomainHandle) : bool :=
  RateDomainHandle_valid h && (RateDomainHandle_index h <? Z.of_nat (length (pl_domains rate_plan))).

Definition domain_optional (rate_plan : CompiledRatePlan) (h : RateDomainHandle) : bool :=
  from_option cd_optional false (pl_domains rate_plan !! domain_position h).

(** [cpu_domains]: the domains with a CPU phase. *)
Definition mark_cpu_domains (rate_plan : CompiledRatePlan) : list bool :=
  foldl (fun marks b =>
           if bool_decide (cb_phase_kind b = kind_cpu) && domain_in_plan rate_plan (cb_domain b)
           then <[domain_position (cb_domain b) := true]> marks else marks)
    (replicate rate_domain_capacity false) (pl_bindings rate_plan).

(** The checks on one channel, then its mark in [producer_domains]. *)
Definition mark_producer_domain (graph_owner : Z) (rate_plan : CompiledRatePlan)
    (marks : list bool) (channel : CrossRateChannelSpec) : RateDispatchDiagnostic + list bool :=
  let phases := length (pl_bindings rate_plan) in
  let! _ := require (phase_in_graph graph_owner phases (xc_producer channel) &&
                     phase_in_graph graph_owner phases (xc_consumer channel))
    (dispatch_error invalid_handle "active cross-rate endpoint is invalid") in
  match find_binding (pl_bindings rate_plan) (xc_producer channel),
        find_binding (pl_bindings rate_plan) (xc_consumer channel) with
  | Some producer, Some consumer =>
      let! _ := require (domain_in_plan rate_plan (cb_domain producer) &&
                         domain_in_plan rate_plan (cb_domain consumer))
        (dispatch_error invalid_handle "active cross-rate endpoint has no valid domain") in
      let! _ := require (negb (domain_optional rate_plan (cb_domain producer)) &&
                         negb (domain_optional rate_plan (cb_domain consumer)))
        (dispatch_error invalid_config
           "optional domains cannot produce or consume active cross-rate channels") in
      inr (<[domain_position (cb_domain producer) := true]> marks)
  | _, _ => inl (dispatch_error invalid_handle "active cross-rate endpoint has no valid domain")
  end.

Fixpoint mark_producer_domains (graph_owner : Z) (rate_plan : CompiledRatePlan)
    (channels : list CrossRateChannelSpec) (marks : list bool)
    : RateDispatchDiagnostic + list bool :=
  match channels with
  | [] => inr marks
  | c :: rest =>
      let! marks' := mark_producer_domain graph_owner rate_plan marks c in
      mark_producer_domains graph_owner rate_plan rest marks'
  end.

Definition valid_action (a : RateLateAction) : bool :=
  match a with late_other _ => false | _ => true end.

Definition active_domain_valid (cpu_domain producer_domain : bool) (d : CompiledRateDomain) : bool :=
  negb (cd_period_ns d =? 0) && negb (cd_relative_deadline_ns d =? 0) &&
  negb (cpu_domain && (cd_period_ns d <? cd_relative_deadline_ns d)) &&
  valid_action (cd_late_action d) &&
  negb (bool_decide (cd_late_action d = late_bounded_catch_up) &&
        (cd_bounded_catch_up_limit d =? 0)) &&
  negb (bool_decide (cd_late_action d <> late_bounded_catch_up) &&
        negb (cd_bounded_catch_up_limit d =? 0)) &&
  negb (bool_decide (cd_late_action d = late_skip) && producer_domain).

Fixpoint check_active_domains (index : nat) (cpu producer : list bool)
    (domains : list CompiledRateDomain) : RateDispatchDiagnostic + unit :=
  match domains with
  | [] => inr tt
  | d :: rest =>
      let! _ := require (active_domain_valid (cpu !!! index) (producer !!! index) d)
        (dispatch_error invalid_config
           "active rate domain has invalid deadline, budget, optionality, late action, or catch-up bound") in
      check_active_domains (S index) cpu producer rest
  end.

Definition device_phase_matches (h : PhaseHandle) (d : RateDomainHandle) (p : DeviceRatePhase)
    : Prop := dp_phase p = h /\ dp_domain p = d.

#[export] Instance device_phase_matches_dec h d p : Decision (device_phase_matches h d p).
Proof. unfold device_phase_matches. apply _. Defined.

(** The position of the admitted device phase, if any. *)
Definition find_device_phase (device_plan : option DeviceRatePlan) (h : PhaseHandle)
    (d : RateDomainHandle) : option nat :=
  match device_plan with
  | None => None
  | Some plan => fst <$> list_find (device_phase_matches h d) (drp_phases plan)
  end.

Definition check_device_bindings (device_plan : option DeviceRatePlan)
    (bindings : list CompiledRateBinding) : RateDispatchDiagnostic + unit :=
  require (forallb (fun b =>
             negb (bool_decide (cb_phase_kind b = kind_device)) ||
             match find_device_phase device_plan (cb_phase b) (cb_domain b) with
             | Some _ => true
             | None => false
             end) bindings)
    (dispatch_error invalid_config
       "active device rate execution requires an admitted HAL-v2 command-batch phase").

Definition binding_in_plan (graph_owner : Z) (rate_plan : CompiledRatePlan)
    (b : CompiledRateBinding) : bool :=
  phase_in_graph graph_owner (length (pl_bindings rate_plan)) (cb_phase b) &&
  RateDomainHandle_valid (cb_domain b) && (RateDomainHandle_owner (cb_domain b) =? graph_owner) &&
  (RateDomainHandle_index (cb_domain b) <? Z.of_nat (length (pl_domains rate_plan))).

(** [domain_by_phase], or the diagnostic of an invalid binding. *)
Fixpoint domains_by_phase (graph_owner : Z) (rate_plan : CompiledRatePlan)
    (bindings : list CompiledRateBinding) (table : list (option nat))
    : RateDispatchDiagnostic + list (option nat) :=
  match bindings with
  | [] => inr table
  | b :: rest =>
      let! _ := require (binding_in_plan graph_owner rate_plan b)
        (dispatch_error invalid_handle "active rate binding is invalid") in
      domains_by_phase graph_owner rate_plan rest
        (<[phase_position (cb_phase b) := Some (domain_position (cb_domain b))]> table)
  end.

Definition dependency_in_domain (table : list (option nat)) (d : GraphDependency) : bool :=
  PhaseHandle_valid (prerequisite d) && PhaseHandle_valid (dependent d) &&
  (PhaseHandle_index (prerequisite d) <? Z.of_nat (length table)) &&
  (PhaseHandle_index (dependent d) <? Z.of_nat (length table)) &&
  bool_decide (table !!! phase_position (prerequisite d) = table !!! phase_position (dependent d)).

(** ** Tables of the plan *)

(** The rank that [static_cast<std::uint8_t>] gives a criticality. *)
Definition criticality_rank (c : RateCriticality) : Z :=
  match c with
  | crit_background => 0
  | crit_normal => 1
  | crit_critical => 2
  | crit_other raw => raw
  end.

Definition shed_less (domains : list CompiledRateDomain) (l r : nat) : bool :=
  let rank i := from_option (fun d => criticality_rank (cd_criticality d)) 0 (domains !! i) in
  if negb (rank l =? rank r) then rank l <? rank r else (r <? l)%nat.

Definition optional_domains (domains : list CompiledRateDomain) : list nat :=
  filter (fun i => from_option cd_optional false (domains !! i) = true) (seq 0 (length domains)).

Definition channel_entries (key : CrossRateChannelSpec -> PhaseHandle)
    (keep : CrossRateChannelSpec -> bool) (channels : list CrossRateChannelSpec)
    : list (nat * nat) :=
  (fun ic => (fst ic, phase_position (key (snd ic)))) <$>
    filter (fun ic => keep (snd ic) = true) (imap pair channels).

(** ** The pass over the releases *)

Record AdmissionState : Set := mkAdmissionState {
  as_previous_finish : Z;
  as_admission : list RateAdmissionRecord;
  as_groups : list RateReleaseGroup;
  as_device_phase : list (option nat)
}.

Definition reference_valid (domain_count : nat) (r : ReferenceRelease) : bool :=
  kind_known (rr_phase_kind r) && negb (rr_relative_deadline_ns r =? 0) &&
  (rr_domain_registration_index r <? domain_count)%nat.

(** The device phase of a device release ([None] for a CPU release). *)
Definition admit_device (device_plan : option DeviceRatePlan) (index : nat)
    (r : ReferenceRelease) : RateDispatchDiagnostic + option nat :=
  match rr_phase_kind r with
  | kind_device =>
      match find_device_phase device_plan (rr_phase r) (rr_domain r) with
      | Some p => inr (Some p)
      | None =>
          inl (reference_error invalid_config
                 "active device reference has no admitted execution record" index)
      end
  | _ => inr None
  end.

Definition mandatory_cpu (r : ReferenceRelease) : bool :=
  negb (rr_optional r) && bool_decide (rr_phase_kind r = kind_cpu).

(** One mandatory CPU release on the single lane. *)
Definition admit_cpu (index : nat) (r : ReferenceRelease) (previous_finish : Z)
    (admission : list RateAdmissionRecord)
    : RateDispatchDiagnostic + (Z * list RateAdmissionRecord) :=
  if mandatory_cpu r then
    let declared_start := Z.max previous_finish (rr_release_time_ns r) in
    match checked_add declared_start (rr_budget_wcet_ns r) with
    | None =>
        inl (reference_error capacity_exceeded
               "declared-budget admission arithmetic overflowed" index)
    | Some declared_finish =>
        if rr_deadline_time_ns r <? declared_finish
        then inl (reference_error invalid_config
                    "declared-budget admission found an infeasible mandatory record" index)
        else inr (declared_finish,
                  admission ++ [mkAdmission index declared_start declared_finish
                                  (rr_deadline_time_ns r)])
    end
  else inr (previous_finish, admission).

Definition same_group (g : RateReleaseGroup) (r : ReferenceRelease) : bool :=
  Nat.eqb (gr_domain_registration_index g) (rr_domain_registration_index r) &&
  (gr_domain_release_sequence g =? rr_domain_release_sequence r).

(** [groups.back()] is extended or a new group is pushed. *)
Definition extend_groups (index : nat) (r : ReferenceRelease) (groups : list RateReleaseGroup)
    : list RateReleaseGroup :=
  let fresh := mkGroup index 1 (rr_domain_registration_index r) (rr_domain_release_sequence r)
                 (rr_release_time_ns r) in
  match last groups with
  | Some g =>
      if same_group g r
      then take (length groups - 1) groups ++
           [mkGroup (gr_first_reference_index g) (S (gr_reference_count g))
              (gr_domain_registration_index g) (gr_domain_release_sequence g)
              (gr_release_time_ns g)]
      else groups ++ [fresh]
  | None => [fresh]
  end.

Definition admit_reference (domain_count : nat) (device_plan : option DeviceRatePlan)
    (index : nat) (r : ReferenceRelease) (st : AdmissionState)
    : RateDispatchDiagnostic + AdmissionState :=
  let! _ := require (reference_valid domain_count r)
    (reference_error invalid_config "active reference record is ambiguous or unsupported" index) in
  let! _ := require (negb (bool_decide (rr_phase_kind r = kind_cpu) && (rr_budget_wcet_ns r =? 0)))
    (reference_error invalid_config "active CPU reference record requires a declared budget" index) in
  let! device := admit_device device_plan index r in
  let! admitted := admit_cpu index r (as_previous_finish st) (as_admission st) in
  inr (mkAdmissionState (fst admitted) (snd admitted) (extend_groups index r (as_groups st))
         (as_device_phase st ++ [device])).

Fixpoint admit_references (domain_count : nat) (device_plan : option DeviceRatePlan)
    (index : nat) (releases : list ReferenceRelease) (st : AdmissionState)
    : RateDispatchDiagnostic + AdmissionState :=
  match releases with
  | [] => inr st
  | r :: rest =>
      let! st' := admit_reference domain_count device_plan index r st in
      admit_references domain_count device_plan (S index) rest st'
  end.

(** ** Records per release, device dependencies, group slices *)

Fixpoint count_group_records (groups : list RateReleaseGroup) (records : list nat)
    : RateDispatchDiagnostic + list nat :=
  match groups with
  | [] => inr records
  | g :: rest =>
      let d := gr_domain_registration_index g in
      if Nat.eqb (records !!! d) 0
      then count_group_records rest (<[d := gr_reference_count g]> records)
      else if Nat.eqb (records !!! d) (gr_reference_count g)
      then count_group_records rest records
      else inl (reference_error invalid_config
                  "active domain release has an ambiguous record count"
                  (gr_first_reference_index g))
  end.

(** The first earlier record of the group that runs the prerequisite on a
    device. *)
Definition device_prerequisite (releases : list ReferenceRelease) (device : list (option nat))
    (first reference : nat) (prerequisite : PhaseHandle) : option nat :=
  snd <$> list_find (fun i =>
      from_option rr_phase PhaseHandle_default (releases !! i) = prerequisite /\
      device !!! i <> None)
    (seq first (reference - first)).

Definition reference_dependencies (dependencies : list GraphDependency)
    (releases : list ReferenceRelease) (device : list (option nat)) (first reference : nat)
    : list nat :=
  d ← dependencies;
  if bool_decide (dependent d = from_option rr_phase PhaseHandle_default (releases !! reference))
  then match device_prerequisite releases device first reference (prerequisite d) with
       | Some i => [i]
       | None => []
       end
  else [].

Record DependencyState : Set := mkDependencyState {
  de_offsets : list nat;
  de_dependencies : list nat;
  de_maximum : nat
}.

Definition group_dependencies (dependencies : list GraphDependency)
    (releases : list ReferenceRelease) (device : list (option nat))
    (st : DependencyState) (g : RateReleaseGroup) : DependencyState :=
  let references := seq (gr_first_reference_index g) (gr_reference_count g) in
  let '(offsets, deps) :=
    foldl (fun '(offsets, deps) i =>
             let deps' := deps ++ reference_dependencies dependencies releases device
                                    (gr_first_reference_index g) i in
             (<[S i := length deps']> offsets, deps'))
      (de_offsets st, de_dependencies st) references in
  let records := length (filter (fun i => device !!! i <> None) references) in
  mkDependencyState offsets deps (de_maximum st `max` records).

(** ** [compile_rate_dispatch] *)

Definition compile_dispatch (graph_owner : Z) (determinism_tier : DeterminismTier)
    (policy : RateExecutionPolicy) (dependencies : list GraphDependency)
    (rate_plan : CompiledRatePlan) (channels : list CrossRateChannelSpec)
    (device_plan : option DeviceRatePlan)
    : RateDispatchDiagnostic + CompiledRateDispatchPlan :=
  let domains := pl_domains rate_plan in
  let releases := pl_releases rate_plan in
  let phases := length (pl_bindings rate_plan) in
  let! _ := require (policy_valid policy)
    (dispatch_error invalid_config
       "active rate execution requires valid positive policy fields and bounded telemetry") in
  let! _ := require (bool_decide (determinism_tier = tier_unspecified))
    (dispatch_error invalid_config "active M16-03 rate execution supports only D0 unspecified") in
  let! _ := require (negb (Nat.eqb (length domains) 0) && negb (Nat.eqb (length releases) 0) &&
                     negb (supercycle_ns rate_plan =? 0) &&
                     (length domains <=? rate_domain_capacity)%nat)
    (dispatch_error invalid_config "active rate execution requires a finite explicit rate plan") in
  let! producer := mark_producer_domains graph_owner rate_plan channels
                     (replicate rate_domain_capacity false) in
  let! _ := check_active_domains 0 (mark_cpu_domains rate_plan) producer domains in
  let! _ := check_device_bindings device_plan (pl_bindings rate_plan) in
  let! table := domains_by_phase graph_owner rate_plan (pl_bindings rate_plan)
                  (replicate phases None) in
  let! _ := require (forallb (dependency_in_domain table) dependencies)
    (dispatch_error invalid_config
       "active rate execution rejects ordinary cross-domain graph dependencies; use a cross-rate channel") in
  let has_device_consumer := existsb (fun c => selector_valid (xc_consumer_device c)) channels in
  let producer_slices :=
    index_slices phases (channel_entries xc_producer (fun _ => true) channels) in
  let consumer_slices :=
    if has_device_consumer
    then index_slices phases
           (channel_entries xc_consumer (fun c => selector_valid (xc_consumer_device c)) channels)
    else ([], []) in
  let shed_order := std_sort (shed_less domains) (optional_domains domains) in
  let! admitted := admit_references (length domains) device_plan 0 releases
                     (mkAdmissionState 0 [] [] []) in
  let! _ := require (as_previous_finish admitted <=? supercycle_ns rate_plan)
    (reference_error invalid_config
       "declared-budget admission is not idle at the supercycle boundary"
       (length releases - 1)) in
  let! records := count_group_records (as_groups admitted) (replicate rate_domain_capacity 0%nat) in
  let deps := foldl (group_dependencies dependencies releases (as_device_phase admitted))
                (mkDependencyState (replicate (S (length releases)) 0%nat) [] 0)
                (as_groups admitted) in
  let group_slices :=
    index_slices rate_domain_capacity
      (imap (fun i g => (i, gr_domain_registration_index g)) (as_groups admitted)) in
  inr {| dpl_policy := policy;
         dpl_admission := as_admission admitted;
         dpl_groups := as_groups admitted;
         dpl_domain_group_offsets := fst group_slices;
         dpl_domain_group_indices := snd group_slices;
         dpl_records_per_domain_release := records;
         dpl_optional_shed_order := shed_order;
         dpl_producer_channel_offsets := fst producer_slices;
         dpl_producer_channel_indices := snd producer_slices;
         dpl_consumer_channel_offsets := fst consumer_slices;
         dpl_consumer_channel_indices := snd consumer_slices;
         dpl_device_phase_by_reference := as_device_phase admitted;
         dpl_device_dependency_offsets := de_offsets deps;
         dpl_device_dependencies := de_dependencies deps;
         dpl_maximum_device_records_per_group := de_maximum deps |}.

(** The diagnostic after the call and the output plan after it. *)
Definition compile_rate_dispatch (graph_owner : Z) (determinism_tier : DeterminismTier)
    (policy : RateExecutionPolicy) (dependencies : list GraphDependency)
    (rate_plan : CompiledRatePlan) (channels : list CrossRateChannelSpec)
    (device_plan : option DeviceRatePlan) (output : CompiledRateDispatchPlan)
    : RateDispatchDiagnostic * CompiledRateDispatchPlan :=
  match compile_dispatch graph_owner determinism_tier policy dependencies rate_plan channels
          device_plan with
  | inl d => (d, output)
  | inr plan => (mkDispatchDiagnostic ok None None, plan)
  end.
