(* ===== verification/RateDueCount.v ===== *)
(** * Counting due releases: [ceil_div], [count_due_domain_releases] and
      [count_due_rate_work] of src/rt/src/rate_dispatch.cpp

    The code counts the releases of a half-open interval with two divisions per
    domain.  Here the count is related to the set of sequence numbers that fall
    in the interval, the totals are shown to be exact or refused, and the counts
    of adjacent and of shifted intervals are related. *)

From stdpp Require Import base list numbers sorting sets strings.
From Stdlib Require Import ZArith Lia Bool.
From S2P Require Import Prelude Handles CompiledGraph RateTimeline RateTimelineTheorems CrossRateTypes RateDispatch.

Local Open Scope Z_scope.

(** ** The rounded-up quotient *)

(** The least sequence number whose release is not before [v]. *)
Definition first_due (v p : Z) : Z := (v + p - 1) / p.

Lemma first_due_le v p k : 0 < p -> first_due v p <= k <-> v <= k * p.
Proof.
  intros Hp. unfold first_due. split; intros H.
  - assert (v + p - 1 < p * ((v + p - 1) / p + 1)).
    { pose proof (Z.mul_succ_div_gt (v + p - 1) p Hp). lia. } nia.
  - assert ((v + p - 1) / p < k + 1); [|lia]. apply Z.div_lt_upper_bound; [done|]. nia.
Qed.

Lemma first_due_mono a b p : 0 < p -> a <= b -> first_due a p <= first_due b p.
Proof. intros Hp Hab. apply Z.div_le_mono; lia. Qed.

Lemma first_due_range v p : 0 < p -> 0 <= v -> 0 <= first_due v p <= v.
Proof.
  intros Hp Hv. split; [apply Z.div_pos; lia|]. apply first_due_le; [done|]. nia.
Qed.

Lemma first_due_shift v p q : 0 < p -> first_due (v + q * p) p = first_due v p + q.
Proof.
  intros Hp. unfold first_due. replace (v + q * p + p - 1) with (v + p - 1 + q * p) by lia.
  apply Z.div_add. lia.
Qed.

Lemma ceil_div_first_due v p : is_u64 v -> 0 < p -> ceil_div v p = Some (first_due v p).
Proof.
  intros Hv Hp. unfold ceil_div, is_u64 in *.
  rewrite (proj2 (Z.eqb_neq p 0)) by lia.
  pose proof (Z.div_mod v p ltac:(lia)) as Hdm. pose proof (Z.mod_pos_bound v p Hp) as Hr.
  assert (0 <= v / p) by (apply Z.div_pos; lia).
  destruct (Z.eqb_spec (v mod p) 0) as [E|E]; simpl.
  - f_equal. unfold first_due. apply (Z.div_unique _ _ _ (p - 1)); lia.
  - assert (Hlt : v / p < u64_max).
    { destruct (decide (p = 1)) as [->|]; [rewrite Z.mod_1_r in E; done|]. nia. }
    rewrite (proj2 (Z.eqb_neq _ _)) by lia. f_equal.
    unfold u64. rewrite Z.mod_small by (unfold u64_max in *; lia).
    unfold first_due. apply (Z.div_unique _ _ _ (v mod p - 1)); lia.
Qed.

(** ** One domain *)

(** The release sequence numbers of period [p] that fall in [a, b). *)
Definition due_sequences (p a b : Z) : list Z := seqZ (first_due a p) (first_due b p - first_due a p).

Lemma elem_of_due p a b k : 0 < p -> k ∈ due_sequences p a b <-> a <= k * p < b.
Proof.
  intros Hp. unfold due_sequences. rewrite elem_of_seqZ.
  pose proof (first_due_le a p k Hp). pose proof (first_due_le b p k Hp). lia.
Qed.

Lemma length_due p a b : 0 < p -> a <= b ->
  Z.of_nat (length (due_sequences p a b)) = first_due b p - first_due a p.
Proof.
  intros Hp Hab. unfold due_sequences. rewrite length_seqZ.
  pose proof (first_due_mono a b p Hp Hab). lia.
Qed.

Definition domain_records (dispatch : CompiledRateDispatchPlan) (i : nat) : Z :=
  Z.of_nat (dpl_records_per_domain_release dispatch !!! i).

Lemma count_due_domain_eq plan dispatch i c a b :
  pl_domains plan !! i = Some c -> 0 < cd_period_ns c ->
  0 < domain_records dispatch i <= u64_max -> is_u64 a -> is_u64 b -> a <= b ->
  let due := first_due b (cd_period_ns c) - first_due a (cd_period_ns c) in
  count_due_domain_releases plan dispatch i a b =
    if due * domain_records dispatch i <=? u64_max
    then (ok, due, due * domain_records dispatch i)
    else (capacity_exceeded, 0, 0).
Proof.
  intros Hc Hp Hr Ha Hb Hab due. unfold count_due_domain_releases. rewrite Hc.
  fold (domain_records dispatch i).
  rewrite (proj2 (Z.ltb_ge b a)) by done.
  rewrite (proj2 (Z.eqb_neq _ _)) by lia. rewrite (proj2 (Z.eqb_neq _ _)) by lia. simpl.
  rewrite !ceil_div_first_due by done.
  pose proof (first_due_mono a b _ Hp Hab) as Hm.
  pose proof (first_due_range a _ Hp ltac:(apply Ha)). pose proof (first_due_range b _ Hp ltac:(apply Hb)).
  rewrite (proj2 (Z.ltb_ge _ _)) by done. fold due.
  assert (Hdue : 0 <= due <= u64_max) by (unfold due, is_u64 in *; lia).
  assert (Hu : u64 due = due) by (unfold u64; rewrite Z.mod_small; unfold u64_max in *; lia).
  rewrite Hu. destruct (Z.leb_spec (due * domain_records dispatch i) u64_max) as [Hle|Hle].
  - assert (E : checked_multiply due (domain_records dispatch i) =
                Some (due * domain_records dispatch i)) by (apply checked_multiply_Some; unfold is_u64; lia).
    by rewrite E.
  - destruct (checked_multiply due (domain_records dispatch i)) as [o|] eqn:E; [|done].
    apply checked_multiply_Some in E as [? _]; unfold is_u64; lia.
Qed.

(** ** All domains *)

(** Plans whose domains have a period and a record count the code can use. *)
Definition due_ready (plan : CompiledRatePlan) (dispatch : CompiledRateDispatchPlan) : Prop :=
  forall i c, pl_domains plan !! i = Some c ->
    0 < cd_period_ns c <= u64_max /\ 0 < domain_records dispatch i <= u64_max.

Definition domain_due (a b : Z) (c : CompiledRateDomain) : Z :=
  first_due b (cd_period_ns c) - first_due a (cd_period_ns c).

Definition total_due (plan : CompiledRatePlan) (a b : Z) : Z :=
  foldr Z.add 0 (imap (fun _ c => domain_due a b c) (pl_domains plan)).

Definition total_records (plan : CompiledRatePlan) (dispatch : CompiledRateDispatchPlan) (a b : Z) : Z :=
  foldr Z.add 0 (imap (fun i c => domain_due a b c * domain_records dispatch i) (pl_domains plan)).

Lemma sum_nonneg l : Forall (fun z => 0 <= z) l -> 0 <= foldr Z.add 0 l.
Proof. induction 1; simpl; lia. Qed.

Lemma sum_imap_add {A} (f g h : nat -> A -> Z) l :
  (forall i x, f i x = g i x + h i x) ->
  foldr Z.add 0 (imap f l) = foldr Z.add 0 (imap g l) + foldr Z.add 0 (imap h l).
Proof.
  revert f g h. induction l as [|x l IH]; intros f g h H; [done|]. csimpl.
  rewrite (IH (f ∘ S) (g ∘ S) (h ∘ S)), H; [lia|]. intros i y. apply H.
Qed.

Lemma sum_imap_ext {A} (f g : nat -> A -> Z) l :
  (forall i x, l !! i = Some x -> f i x = g i x) ->
  foldr Z.add 0 (imap f l) = foldr Z.add 0 (imap g l).
Proof. intros H. f_equal. by apply imap_ext. Qed.

Lemma sum_imap_le {A} (f g : nat -> A -> Z) l :
  (forall i x, l !! i = Some x -> f i x <= g i x) ->
  foldr Z.add 0 (imap f l) <= foldr Z.add 0 (imap g l).
Proof.
  revert f g. induction l as [|x l IH]; intros f g H; [done|]. csimpl.
  pose proof (H 0%nat x eq_refl). pose proof (IH (f ∘ S) (g ∘ S) (fun i y Hy => H (S i) y Hy)). lia.
Qed.

Lemma sum_imap_zero {A} (l : list A) : foldr Z.add 0 (imap (fun _ _ => 0) l) = 0.
Proof. induction l as [|x l IH]; [done|]. exact IH. Qed.

Section Counts.
Context (plan : CompiledRatePlan) (dispatch : CompiledRateDispatchPlan).
Context (Hready : due_ready plan dispatch).

Lemma domain_due_nonneg a b c i :
  pl_domains plan !! i = Some c -> a <= b -> 0 <= domain_due a b c.
Proof using Hready.
  intros Hc Hab. destruct (Hready i c Hc) as [Hp _].
  unfold domain_due. pose proof (first_due_mono a b (cd_period_ns c)). lia.
Qed.

Lemma total_due_le_records a b : a <= b -> 0 <= total_due plan a b <= total_records plan dispatch a b.
Proof using Hready.
  intros Hab. split.
  - rewrite <- (sum_imap_zero (pl_domains plan)). apply sum_imap_le. intros i c Hc.
    by apply (domain_due_nonneg _ _ _ i).
  - apply sum_imap_le. intros i c Hc. pose proof (domain_due_nonneg a b c i Hc Hab).
    destruct (Hready i c Hc) as [_ Hr]. nia.
Qed.

(** The loop over the domains of one suffix, started from any counts. *)
Lemma count_due_loop_eq a b : is_u64 a -> is_u64 b -> a <= b ->
  forall ds off r s, (forall j c, ds !! j = Some c -> pl_domains plan !! (off + j)%nat = Some c) ->
  is_u64 r -> is_u64 s ->
  let R := foldr Z.add 0 (imap (fun _ c => domain_due a b c) ds) in
  let C := foldr Z.add 0
             (imap (fun j c => domain_due a b c * domain_records dispatch (off + j)) ds) in
  count_due_loop plan dispatch a b (seq off (length ds)) (mkDueCounts r s) =
    if (r + R <=? u64_max) && (s + C <=? u64_max)
    then Some (mkDueCounts (r + R) (s + C)) else None.
Proof using Hready.
  intros Ha Hb Hab. induction ds as [|c ds IH]; intros off r s Hds Hr Hs; simpl.
  { unfold is_u64 in *. rewrite !Z.add_0_r.
    rewrite (proj2 (Z.leb_le r _)), (proj2 (Z.leb_le s _)) by lia. done. }
  pose proof (Hds 0%nat c eq_refl) as Hc. rewrite Nat.add_0_r in *.
  destruct (Hready off c Hc) as [Hp Hrec].
  pose proof (domain_due_nonneg a b c off Hc Hab) as Hd.
  rewrite (count_due_domain_eq plan dispatch off c) by (done || lia). fold (domain_due a b c).
  set (D := domain_due a b c) in *. set (q := domain_records dispatch off) in *.
  assert (Hext : imap ((fun j c0 => domain_due a b c0 * domain_records dispatch (off + j)) ∘ S) ds =
                 imap (fun j c0 => domain_due a b c0 * domain_records dispatch (S off + j)) ds).
  { apply imap_ext. intros j x _. unfold compose. simpl. by rewrite Nat.add_succ_r. }
  rewrite Hext. change (imap ((fun (_ : nat) c0 => domain_due a b c0) ∘ S) ds) with
    (imap (fun (_ : nat) c0 => domain_due a b c0) ds).
  set (R' := foldr Z.add 0 (imap (fun _ c0 => domain_due a b c0) ds)) in *.
  set (C' := foldr Z.add 0 (imap (fun j c0 => domain_due a b c0 * domain_records dispatch (S off + j)) ds)).
  assert (HR' : 0 <= R' <= C').
  { split.
    - rewrite <- (sum_imap_zero ds). apply sum_imap_le. intros j x Hx.
      by apply (domain_due_nonneg _ _ _ (off + S j)), Hab; apply Hds.
    - apply sum_imap_le. intros j x Hx. pose proof (Hds (S j) x Hx) as Hx'.
      pose proof (domain_due_nonneg a b x _ Hx' Hab). rewrite Nat.add_succ_r in Hx'.
      destruct (Hready _ x Hx') as [_ Hr']. simpl. nia. }
  assert (HDq : D <= D * q) by nia.
  destruct (Z.leb_spec (D * q) u64_max) as [Hm|Hm].
  2:{ rewrite andb_comm, (proj2 (Z.leb_gt (s + _) _)); [done|]. unfold is_u64 in *. lia. }
  simpl. destruct (checked_add r D) as [r'|] eqn:Er.
  2:{ rewrite (proj2 (Z.leb_gt (r + _) _)); [done|].
      destruct (decide (r + D <= u64_max)); [|lia].
      enough (checked_add r D = Some (r + D)) by congruence.
      apply checked_add_Some; [done|unfold is_u64; lia|lia]. }
  apply checked_add_Some in Er as [Hr1 ->]; [|done|unfold is_u64; lia].
  destruct (checked_add s (D * q)) as [s'|] eqn:Es.
  2:{ rewrite andb_comm, (proj2 (Z.leb_gt (s + _) _)); [done|].
      destruct (decide (s + D * q <= u64_max)); [|lia].
      enough (checked_add s (D * q) = Some (s + D * q)) by congruence.
      apply checked_add_Some; [done|unfold is_u64; lia|lia]. }
  apply checked_add_Some in Es as [Hs1 ->]; [|done|unfold is_u64; lia].
  rewrite (IH (S off)); try (unfold is_u64 in *; lia).
  - fold R'. fold C'. rewrite !Z.add_assoc. done.
  - intros j x Hx. rewrite <- (Hds (S j) x Hx). f_equal. lia.
Qed.

Lemma count_due_rate_work_eq a b out : is_u64 a -> is_u64 b -> a <= b ->
  count_due_rate_work plan dispatch a b out =
    if total_records plan dispatch a b <=? u64_max
    then (ok, mkDueCounts (total_due plan a b) (total_records plan dispatch a b))
    else (capacity_exceeded, out).
Proof using Hready.
  intros Ha Hb Hab. unfold count_due_rate_work. rewrite (proj2 (Z.ltb_ge b a)) by done.
  rewrite (count_due_loop_eq a b Ha Hb Hab (pl_domains plan) 0 0 0);
    [|done|unfold is_u64, u64_max; lia..].
  cbn [Nat.add]. rewrite !Z.add_0_l. fold (total_due plan a b).
  change (foldr Z.add 0 (imap (fun j c => domain_due a b c * domain_records dispatch j) (pl_domains plan)))
    with (total_records plan dispatch a b).
  pose proof (total_due_le_records a b Hab).
  destruct (Z.leb_spec (total_records plan dispatch a b) u64_max) as [H1|H1].
  - by rewrite (proj2 (Z.leb_le _ _)) by lia.
  - by rewrite andb_false_r.
Qed.
End Counts.

Lemma total_due_split plan a b c : total_due plan a c = total_due plan a b + total_due plan b c.
Proof. apply sum_imap_add. intros _ d. unfold domain_due. lia. Qed.

Lemma total_records_split plan dispatch a b c :
  total_records plan dispatch a c = total_records plan dispatch a b + total_records plan dispatch b c.
Proof. apply sum_imap_add. intros i d. unfold domain_due. lia. Qed.

Lemma domain_due_shift c a b s :
  0 < cd_period_ns c -> (cd_period_ns c | s) -> domain_due (a + s) (b + s) c = domain_due a b c.
Proof. intros Hp [q ->]. unfold domain_due. rewrite !first_due_shift by done. lia. Qed.

(** ** Claims *)

(** For a domain with a period and a record count, a valid interval is
    answered with the number of release sequences that fall in it, and with
    that number times the records of a release, or with capacity_exceeded and
    zero counts when the product does not fit in 64 bits; an interval that runs
    backwards, a domain index out of range, a zero period or a zero record
    count is an invalid argument with zero counts. *)
Theorem due_domain_count plan dispatch i a b :
  is_u64 a -> is_u64 b ->
  (forall c, pl_domains plan !! i = Some c -> 0 <= cd_period_ns c) ->
  domain_records dispatch i <= u64_max ->
  match count_due_domain_releases plan dispatch i a b with
  | (ok, releases, records) =>
      exists c ks, pl_domains plan !! i = Some c /\ NoDup ks /\
        (forall k, k ∈ ks <-> a <= k * cd_period_ns c < b) /\
        releases = Z.of_nat (length ks) /\ records = releases * domain_records dispatch i
  | (capacity_exceeded, releases, records) =>
      releases = 0 /\ records = 0 /\
      exists c ks, pl_domains plan !! i = Some c /\ NoDup ks /\
        (forall k, k ∈ ks <-> a <= k * cd_period_ns c < b) /\
        u64_max < Z.of_nat (length ks) * domain_records dispatch i
  | (invalid_argument, releases, records) =>
      releases = 0 /\ records = 0 /\
      (b < a \/ pl_domains plan !! i = None \/ domain_records dispatch i = 0 \/
       exists c, pl_domains plan !! i = Some c /\ cd_period_ns c = 0)
  | _ => False
  end.
Proof.
  intros Ha Hb Hpos Hrec.
  destruct (decide (b < a)) as [Hlt|Hge].
  { unfold count_due_domain_releases. rewrite (proj2 (Z.ltb_lt b a)) by done. auto. }
  destruct (pl_domains plan !! i) as [c|] eqn:Hc.
  2:{ unfold count_due_domain_releases. rewrite Hc, (proj2 (Z.ltb_ge b a)) by lia. auto. }
  destruct (decide (cd_period_ns c = 0)) as [Hz|Hz].
  { unfold count_due_domain_releases. rewrite Hc, Hz, (proj2 (Z.ltb_ge b a)) by lia. simpl.
    split_and!; [done..|]. do 3 right. by exists c. }
  destruct (decide (domain_records dispatch i = 0)) as [Hr|Hr].
  { unfold count_due_domain_releases. rewrite Hc, (proj2 (Z.ltb_ge b a)) by lia.
    fold (domain_records dispatch i). rewrite Hr, orb_true_r.
    split_and!; [done..|]. right. right. by left. }
  assert (Hp : 0 < cd_period_ns c) by (specialize (Hpos c eq_refl); lia).
  assert (Hr' : 0 < domain_records dispatch i) by (unfold domain_records in *; lia).
  rewrite (count_due_domain_eq plan dispatch i c) by (done || lia).
  pose proof (length_due (cd_period_ns c) a b Hp ltac:(lia)) as Hlen.
  pose proof (fun k => elem_of_due (cd_period_ns c) a b k Hp) as Hel.
  assert (Hnd : NoDup (due_sequences (cd_period_ns c) a b)) by apply NoDup_seqZ.
  destruct (Z.leb_spec ((first_due b (cd_period_ns c) - first_due a (cd_period_ns c)) *
    domain_records dispatch i) u64_max) as [H|H].
  - exists c, (due_sequences (cd_period_ns c) a b). rewrite Hlen. done.
  - split_and!; [done..|]. exists c, (due_sequences (cd_period_ns c) a b). rewrite Hlen. done.
Qed.

(** Over a plan whose domains have a period and a record count,
    [count_due_rate_work] returns the sums over all domains of the releases due
    and of their records, or, exactly when the record total exceeds 64 bits,
    capacity_exceeded with the caller's counts untouched.  Counting an interval
    in two parts gives the same totals, and no part is refused when the whole is
    accepted. *)
Theorem due_work_exact plan dispatch a b c out :
  due_ready plan dispatch -> is_u64 a -> is_u64 b -> is_u64 c -> a <= b <= c ->
  (count_due_rate_work plan dispatch a c out =
     if total_records plan dispatch a c <=? u64_max
     then (ok, mkDueCounts (total_due plan a c) (total_records plan dispatch a c))
     else (capacity_exceeded, out)) /\
  (forall whole, count_due_rate_work plan dispatch a c out = (ok, whole) ->
     exists left right,
       count_due_rate_work plan dispatch a b out = (ok, left) /\
       count_due_rate_work plan dispatch b c out = (ok, right) /\
       due_domain_releases whole = due_domain_releases left + due_domain_releases right /\
       due_reference_records whole = due_reference_records left + due_reference_records right).
Proof.
  intros Hready Ha Hb Hc Habc.
  split; [apply count_due_rate_work_eq; (done || lia)|]. intros whole.
  rewrite !(count_due_rate_work_eq plan dispatch Hready) by (done || lia).
  pose proof (total_due_le_records plan dispatch Hready a b ltac:(lia)).
  pose proof (total_due_le_records plan dispatch Hready b c ltac:(lia)).
  rewrite (total_due_split plan a b c), (total_records_split plan dispatch a b c).
  destruct (Z.leb_spec (total_records plan dispatch a b + total_records plan dispatch b c) u64_max);
    [|done].
  intros [= <-]. rewrite !(proj2 (Z.leb_le _ _)) by lia. simpl. eauto 10.
Qed.

(** Counts repeat with the supercycle: an interval moved by a multiple of all
    domain periods has the same answer. *)
Theorem due_work_periodic plan dispatch a b s out :
  due_ready plan dispatch -> is_u64 a -> is_u64 b -> is_u64 (a + s) -> is_u64 (b + s) ->
  (forall c, c ∈ pl_domains plan -> (cd_period_ns c | s)) ->
  count_due_rate_work plan dispatch (a + s) (b + s) out = count_due_rate_work plan dispatch a b out.
Proof.
  intros Hready Ha Hb Ha' Hb' Hdiv. destruct (decide (a <= b)) as [Hab|Hab].
  2:{ unfold count_due_rate_work. by rewrite !(proj2 (Z.ltb_lt _ _)) by lia. }
  rewrite !(count_due_rate_work_eq plan dispatch Hready) by (done || lia).
  assert (Hd : forall i c, pl_domains plan !! i = Some c -> domain_due (a + s) (b + s) c = domain_due a b c).
  { intros i c Hc. apply domain_due_shift; [by apply (Hready i c)|].
    by apply Hdiv, (list_elem_of_lookup_2 _ i). }
  assert (total_due plan (a + s) (b + s) = total_due plan a b) as ->
    by (apply sum_imap_ext; intros i c Hc; eauto).
  assert (total_records plan dispatch (a + s) (b + s) = total_records plan dispatch a b) as ->;
    [|done].
  apply sum_imap_ext. intros i c Hc. by rewrite (Hd i c Hc).
Qed.

(** ** Witnesses: one domain of period 3 with two records per release. *)

Definition due_domain : CompiledRateDomain :=
  mkCompiledDomain (RateDomainHandle_make 7 0) [] 0 3 1 3 1 crit_critical false 1 1 1 late_fail 0.
Definition due_plan : CompiledRatePlan := mkPlan 3 [due_domain] [] [].
Definition due_dispatch : CompiledRateDispatchPlan :=
  mkDispatchPlan (mkPolicy 1 1 1 1 1) [] [] [] [] [2%nat] [] [] [] [] [] [] [] [] 0.

Lemma due_plan_ready : due_ready due_plan due_dispatch.
Proof. intros [|[|i]] c Hc; simplify_eq/=. vm_compute. by repeat split. Qed.

Lemma due_domain_count_witness :
  exists c ks, pl_domains due_plan !! 0%nat = Some c /\ NoDup ks /\
    (forall k, k ∈ ks <-> 4 <= k * cd_period_ns c < 10) /\ Z.of_nat (length ks) = 2.
Proof.
  assert (E : count_due_domain_releases due_plan due_dispatch 0 4 10 = (ok, 2, 4)) by reflexivity.
  assert (H : match count_due_domain_releases due_plan due_dispatch 0 4 10 with
    | (ok, releases, records) => exists c ks, pl_domains due_plan !! 0%nat = Some c /\ NoDup ks /\
        (forall k, k ∈ ks <-> 4 <= k * cd_period_ns c < 10) /\
        releases = Z.of_nat (length ks) /\ records = releases * domain_records due_dispatch 0
    | _ => True end).
  { pose proof (due_domain_count due_plan due_dispatch 0 4 10) as T. rewrite E in T |- *. apply T.
    - vm_compute. by split.
    - vm_compute. by split.
    - intros c [= <-]. vm_compute. discriminate.
    - vm_compute. discriminate. }
  rewrite E in H. destruct H as (c & ks & Hc & Hnd & Hk & Hl & _). exists c, ks.
  split; [exact Hc|]. split; [exact Hnd|]. split; [exact Hk|]. symmetry. exact Hl.
Defined.

Lemma due_work_exact_witness :
  count_due_rate_work due_plan due_dispatch 1 10 (mkDueCounts 0 0) = (ok, mkDueCounts 3 6).
Proof.
  destruct (due_work_exact due_plan due_dispatch 1 4 10 (mkDueCounts 0 0)) as [H _].
  - exact due_plan_ready.
  - vm_compute. by split.
  - vm_compute. by split.
  - vm_compute. by split.
  - lia.
  - rewrite H. reflexivity.
Defined.

Lemma due_work_periodic_witness :
  count_due_rate_work due_plan due_dispatch (1 + 3) (5 + 3) (mkDueCounts 0 0) =
  count_due_rate_work due_plan due_dispatch 1 5 (mkDueCounts 0 0).
Proof.
  apply due_work_periodic.
  - exact due_plan_ready.
  - vm_compute. by split.
  - vm_compute. by split.
  - vm_compute. by split.
  - vm_compute. by split.
  - intros c Hc. apply list_elem_of_singleton in Hc as ->. exists 1. reflexivity.
Defined.
