(* ===== verification/RateAdmission.v ===== *)
(** * The pass over the reference releases

    [admit_references] of RateDispatch walks the sorted releases once.  Its
    result is characterised here: the admission records are the earliest
    single-lane schedule of the mandatory CPU releases, and the groups cut the
    releases into maximal runs of one domain release. *)

From stdpp Require Import base list numbers sorting sets strings.
From Stdlib Require Import ZArith Lia Bool.
From S2P Require Import Prelude Handles CompiledGraph RateTimeline RateTimelineTheorems CrossRateTypes RateDispatch.

Local Open Scope Z_scope.

(** ** Schedules

    [starts] runs [jobs] one after the other from time [t] on: no job starts
    before its release or before the previous one has used its budget, and each
    uses its budget by its deadline. *)
Fixpoint feasible_from (t : Z) (jobs : list ReferenceRelease) (starts : list Z) : Prop :=
  match jobs, starts with
  | [], [] => True
  | r :: jobs', s :: starts' =>
      t <= s /\ rr_release_time_ns r <= s /\ s + rr_budget_wcet_ns r <= rr_deadline_time_ns r /\
      feasible_from (s + rr_budget_wcet_ns r) jobs' starts'
  | _, _ => False
  end.

(** When the last job is done. *)
Fixpoint finish_from (t : Z) (jobs : list ReferenceRelease) (starts : list Z) : Z :=
  match jobs, starts with
  | r :: jobs', s :: starts' => finish_from (s + rr_budget_wcet_ns r) jobs' starts'
  | _, _ => t
  end.

Definition job_typed (r : ReferenceRelease) : Prop :=
  is_u64 (rr_release_time_ns r) /\ is_u64 (rr_budget_wcet_ns r) /\ is_u64 (rr_deadline_time_ns r).

#[export] Instance job_typed_dec r : Decision (job_typed r).
Proof. unfold job_typed, is_u64. apply _. Defined.

(** The mandatory CPU releases with their positions. *)
Definition mandatory_from (off : nat) (rs : list ReferenceRelease) : list (nat * ReferenceRelease) :=
  filter (fun ir => mandatory_cpu ir.2 = true) (imap (fun i r => (off + i, r)%nat) rs).

Lemma mandatory_from_cons off r rs :
  mandatory_from off (r :: rs) =
    (if mandatory_cpu r then [(off, r)] else []) ++ mandatory_from (S off) rs.
Proof.
  unfold mandatory_from. rewrite imap_cons, filter_cons. cbn [snd].
  assert (E : imap ((fun i r0 => ((off + i)%nat, r0)) ∘ S) rs = imap (fun i r0 => ((S off + i)%nat, r0)) rs).
  { apply imap_ext. intros i x _. unfold compose. by rewrite Nat.add_succ_r. }
  rewrite E, Nat.add_0_r. by destruct (mandatory_cpu r).
Qed.

(** An admission record for its job. *)
Definition record_of (ir : nat * ReferenceRelease) (a : RateAdmissionRecord) : Prop :=
  ad_reference_index a = ir.1 /\ ad_deadline_ns a = rr_deadline_time_ns ir.2 /\
  ad_declared_finish_ns a = ad_declared_start_ns a + rr_budget_wcet_ns ir.2.

(** What each release must satisfy besides the schedule. *)
Definition reference_ok (n : nat) (device_plan : option DeviceRatePlan) (r : ReferenceRelease)
    : bool :=
  reference_valid n r && negb (bool_decide (rr_phase_kind r = kind_cpu) && (rr_budget_wcet_ns r =? 0)) &&
  match rr_phase_kind r with
  | kind_device =>
      match find_device_phase device_plan (rr_phase r) (rr_domain r) with
      | Some _ => true
      | None => false
      end
  | _ => true
  end.

Definition device_phase_of (device_plan : option DeviceRatePlan) (r : ReferenceRelease)
    : option nat :=
  match rr_phase_kind r with
  | kind_device => find_device_phase device_plan (rr_phase r) (rr_domain r)
  | _ => None
  end.

(** ** One step *)

Lemma admit_cpu_inr i r f adm out :
  job_typed r -> is_u64 f ->
  admit_cpu i r f adm = inr out <->
  if mandatory_cpu r
  then let s := Z.max f (rr_release_time_ns r) in
       s + rr_budget_wcet_ns r <= rr_deadline_time_ns r /\
       out = (s + rr_budget_wcet_ns r,
              adm ++ [mkAdmission i s (s + rr_budget_wcet_ns r) (rr_deadline_time_ns r)])
  else out = (f, adm).
Proof.
  intros (Hr & Hb & Hd) Hf. unfold admit_cpu. destruct (mandatory_cpu r); [|naive_solver].
  set (s := Z.max f (rr_release_time_ns r)).
  assert (Hs : is_u64 s) by (unfold is_u64 in *; lia).
  destruct (checked_add s (rr_budget_wcet_ns r)) as [fin|] eqn:E.
  - apply checked_add_Some in E as [Hle ->]; [|done..]. simpl.
    destruct (Z.ltb_spec (rr_deadline_time_ns r) (s + rr_budget_wcet_ns r)); naive_solver lia.
  - split; [done|]. intros [H _]. unfold is_u64 in Hd.
    assert (checked_add s (rr_budget_wcet_ns r) = Some (s + rr_budget_wcet_ns r)); [|congruence].
    apply checked_add_Some; [done|done|]. simpl in *. lia.
Qed.

Lemma admit_device_inr dp i r out :
  admit_device dp i r = inr out <->
  out = device_phase_of dp r /\
  (rr_phase_kind r = kind_device -> device_phase_of dp r <> None).
Proof.
  unfold admit_device, device_phase_of. destruct (rr_phase_kind r); [naive_solver| |naive_solver].
  destruct (find_device_phase dp (rr_phase r) (rr_domain r)); naive_solver.
Qed.

Lemma admit_reference_inr n dp i r st st' :
  job_typed r -> is_u64 (as_previous_finish st) ->
  admit_reference n dp i r st = inr st' <->
  reference_ok n dp r = true /\
  exists admitted, admit_cpu i r (as_previous_finish st) (as_admission st) = inr admitted /\
    st' = mkAdmissionState admitted.1 admitted.2 (extend_groups i r (as_groups st))
            (as_device_phase st ++ [device_phase_of dp r]).
Proof.
  intros Hr Hf. unfold admit_reference, reference_ok. rewrite !andb_true_iff, sum_bind_inr. split.
  - intros ([] & H1%require_inr & ([] & H2%require_inr & (d & [-> H3]%admit_device_inr &
      (a & H4 & [= <-])%sum_bind_inr)%sum_bind_inr)%sum_bind_inr).
    split; [|by exists a]. split_and!; [done..|].
    revert H3. unfold device_phase_of. destruct (rr_phase_kind r); try done.
    destruct (find_device_phase _ _ _); [done|]. intros H. by destruct H.
  - intros (((H1 & H2) & H3) & a & H4 & ->). exists tt. split; [by apply require_inr|].
    apply sum_bind_inr. exists tt. split; [by apply require_inr|].
    apply sum_bind_inr. exists (device_phase_of dp r). split.
    + apply admit_device_inr. split; [done|]. unfold device_phase_of. intros E. rewrite E in H3 |- *.
      by destruct (find_device_phase _ _ _).
    + apply sum_bind_inr. by exists a.
Qed.

(** ** The whole pass *)

Section Pass.
Context (n : nat) (dp : option DeviceRatePlan).

Definition group_pass (off : nat) (rs : list ReferenceRelease) (gs : list RateReleaseGroup)
    : list RateReleaseGroup :=
  foldl (fun gs ir => extend_groups ir.1 ir.2 gs) gs (imap (fun i r => (off + i, r)%nat) rs).

Lemma group_pass_cons off r rs gs :
  group_pass off (r :: rs) gs = group_pass (S off) rs (extend_groups off r gs).
Proof.
  unfold group_pass. rewrite imap_cons. cbn [foldl fst snd]. rewrite Nat.add_0_r. f_equal.
  apply imap_ext. intros i x _. unfold compose. by rewrite Nat.add_succ_r.
Qed.

Lemma admit_references_sound rs : forall off st st',
  Forall job_typed rs -> is_u64 (as_previous_finish st) ->
  admit_references n dp off rs st = inr st' ->
  Forall (fun r => reference_ok n dp r = true) rs /\
  as_groups st' = group_pass off rs (as_groups st) /\
  as_device_phase st' = as_device_phase st ++ (device_phase_of dp <$> rs) /\
  exists adm, as_admission st' = as_admission st ++ adm /\
    Forall2 record_of (mandatory_from off rs) adm /\
    feasible_from (as_previous_finish st) (mandatory_from off rs).*2 (ad_declared_start_ns <$> adm) /\
    as_previous_finish st' =
      finish_from (as_previous_finish st) (mandatory_from off rs).*2 (ad_declared_start_ns <$> adm) /\
    is_u64 (as_previous_finish st').
Proof.
  induction rs as [|r rs IH]; intros off st st' Ht Hf.
  { simpl. intros [= <-]. split_and!; [constructor|done|by rewrite app_nil_r|].
    exists []. rewrite app_nil_r. done. }
  apply Forall_cons in Ht as [Hr Ht]. simpl. rewrite sum_bind_inr.
  intros (st1 & (Hok & a & Ha & ->)%admit_reference_inr & Hrest); [|done..].
  rewrite group_pass_cons, mandatory_from_cons.
  apply (admit_cpu_inr _ _ _ _ _ Hr Hf) in Ha. destruct (mandatory_cpu r).
  - simpl in Ha. destruct Ha as [Hdl ->].
    apply IH in Hrest as (H1 & H2 & H3 & adm & H4 & H5 & H6 & H7); [|done|].
    2:{ destruct Hr as (H1 & H2 & H3). unfold is_u64 in *. simpl. lia. }
    simpl in *. split_and!; [by constructor|done|by rewrite H3, <- app_assoc|].
    eexists (_ :: adm). rewrite H4, <- app_assoc. simpl. split_and!; try done; [by constructor|cbn; lia..|apply H7|apply H7].
  - subst a. apply IH in Hrest as (H1 & H2 & H3 & adm & H4 & H5 & H6 & H7); [|done..].
    simpl in *. split_and!; [by constructor|done|by rewrite H3, <- app_assoc|].
    exists adm. done.
Qed.

(** Any schedule in reference order is no earlier than the admitted one, so
    the pass fails only when there is none. *)
Lemma admit_references_complete rs : forall off st starts t,
  Forall job_typed rs -> is_u64 (as_previous_finish st) -> as_previous_finish st <= t ->
  Forall (fun r => reference_ok n dp r = true) rs ->
  feasible_from t (mandatory_from off rs).*2 starts ->
  exists st', admit_references n dp off rs st = inr st' /\
    as_previous_finish st' <= finish_from t (mandatory_from off rs).*2 starts /\
    exists adm, as_admission st' = as_admission st ++ adm /\
      Forall2 Z.le (ad_declared_start_ns <$> adm) starts.
Proof.
  induction rs as [|r rs IH]; intros off st starts t Ht Hf Hle Hok Hfe.
  { simpl in *. destruct starts; [|done]. exists st. split_and!; [done..|]. exists []. by rewrite app_nil_r. }
  apply Forall_cons in Ht as [Hr Ht]. apply Forall_cons in Hok as [Hok1 Hok].
  rewrite mandatory_from_cons in Hfe |- *. simpl.
  destruct (mandatory_cpu r) eqn:Em; simpl in Hfe.
  - destruct starts as [|s starts]; [done|]. destruct Hfe as (H1 & H2 & H3 & H4).
    set (s0 := Z.max (as_previous_finish st) (rr_release_time_ns r)).
    assert (Hs0 : s0 <= s) by lia.
    set (st1 := mkAdmissionState (s0 + rr_budget_wcet_ns r)
      (as_admission st ++ [mkAdmission off s0 (s0 + rr_budget_wcet_ns r) (rr_deadline_time_ns r)])
      (extend_groups off r (as_groups st)) (as_device_phase st ++ [device_phase_of dp r])).
    assert (E : admit_reference n dp off r st = inr st1).
    { apply admit_reference_inr; [done..|]. split; [done|]. eexists (_, _). split; [|done].
      apply admit_cpu_inr; [done..|]. rewrite Em. split; [lia|done]. }
    rewrite E. simpl.
    destruct (IH (S off) st1 starts (s + rr_budget_wcet_ns r)) as (st' & E' & Hfin & adm & Ha & Hl);
      [done| |simpl; lia|done|done|].
    { destruct Hr as (? & ? & ?). unfold is_u64 in *. simpl. lia. }
    exists st'. split_and!; [done|done|]. exists (mkAdmission off s0 (s0 + rr_budget_wcet_ns r)
      (rr_deadline_time_ns r) :: adm). rewrite Ha. simpl. rewrite <- app_assoc. split; [done|].
    by constructor.
  - set (st1 := mkAdmissionState (as_previous_finish st) (as_admission st)
      (extend_groups off r (as_groups st)) (as_device_phase st ++ [device_phase_of dp r])).
    assert (E : admit_reference n dp off r st = inr st1).
    { apply admit_reference_inr; [done..|]. split; [done|]. eexists (_, _). split; [|done].
      apply admit_cpu_inr; [done..|]. by rewrite Em. }
    rewrite E. simpl. by apply (IH (S off) st1 starts t).
Qed.
End Pass.

Lemma feasible_from_ge jobs : forall t starts j sj,
  feasible_from t jobs starts -> Forall (fun r => 0 <= rr_budget_wcet_ns r) jobs ->
  starts !! j = Some sj -> t <= sj.
Proof.
  induction jobs as [|r jobs IH]; intros t [|s starts] j sj Hfe Hb Hj; try done.
  destruct Hfe as (H1 & _ & _ & H4). apply Forall_cons in Hb as [Hb1 Hb].
  destruct j as [|j]; simpl in Hj; [naive_solver|]. pose proof (IH _ _ _ _ H4 Hb Hj). lia.
Qed.

(** Records of a feasible schedule never overlap. *)
Lemma feasible_ordered jobs : forall t starts i j ri si sj,
  feasible_from t jobs starts -> Forall (fun r => 0 <= rr_budget_wcet_ns r) jobs -> (i < j)%nat ->
  jobs !! i = Some ri -> starts !! i = Some si -> starts !! j = Some sj ->
  si + rr_budget_wcet_ns ri <= sj.
Proof.
  induction jobs as [|r jobs IH]; intros t [|s starts] i j ri si sj Hfe Hb Hij Hi Hsi Hsj; try done.
  destruct Hfe as (H1 & _ & _ & H4). apply Forall_cons in Hb as [Hb1 Hb].
  destruct j as [|j]; [lia|]. destruct i as [|i]; simpl in *.
  - simplify_eq. by eapply feasible_from_ge.
  - by apply (IH _ starts i j ri si sj H4 Hb ltac:(lia)).
Qed.
