(* ===== verification/RateSlices.v ===== *)
(** * Index slices of the dispatch plan

    The counting sort of src/rt/src/rate_dispatch.cpp ([index_slices]) produces,
    for every key, a slice of the index vector that holds the positions with
    that key in their original order. *)

From stdpp Require Import base list numbers sorting sets strings.
From Stdlib Require Import ZArith Lia Bool.
From S2P Require Import Prelude Handles CompiledGraph RateTimeline RateTimelineTheorems CrossRateTypes RateDispatch RateAdmission.

(** [take]/[drop] view of the slice of key [k]. *)
Definition slice (offsets indices : list nat) (k : nat) : list nat :=
  take (offsets !!! S k - offsets !!! k) (drop (offsets !!! k) indices).

Definition with_key (k : nat) (es : list (nat * nat)) : list (nat * nat) :=
  filter (fun e => e.2 = k) es.

(** The number of entries whose key is below [j]: where the slice of [j] starts. *)
Definition slice_start (es : list (nat * nat)) (j : nat) : nat :=
  length (filter (fun e => e.2 < j) es).

Lemma slice_start_S es j : slice_start es (S j) = slice_start es j + length (with_key j es).
Proof.
  unfold slice_start, with_key. induction es as [|[p k] es IH]; [done|].
  rewrite !filter_cons. simpl. repeat case_decide; simpl; lia.
Qed.

Lemma slice_start_0 es : slice_start es 0 = 0.
Proof. unfold slice_start. induction es as [|[p k] es IH]; [done|]. rewrite filter_cons, decide_False; [done|simpl; lia]. Qed.

Lemma slice_start_mono es i j : i <= j -> slice_start es i <= slice_start es j.
Proof. induction 1 as [|j _ IH]; [done|]. rewrite slice_start_S. lia. Qed.

Lemma slice_start_all es n : (forall e, e ∈ es -> e.2 < n) -> slice_start es n = length es.
Proof.
  intros H. unfold slice_start. induction es as [|e es IH]; [done|].
  rewrite filter_cons, decide_True by (apply H; by left). simpl. f_equal.
  apply IH. intros x Hx. apply H. by right.
Qed.

(** ** Counting *)

Lemma count_keys_app n l k : count_keys n (l ++ [k]) = alter S (S k) (count_keys n l).
Proof. unfold count_keys. by rewrite foldl_app. Qed.

Lemma count_keys_spec n es : (forall e, e ∈ es -> e.2 < n) ->
  count_keys n (snd <$> es) =
    0 :: ((fun k => length (with_key k es)) <$> seq 0 n).
Proof.
  induction es as [|[p k] es IH] using rev_ind; intros Hlt.
  { unfold count_keys. simpl. f_equal. apply list_eq. intros i. rewrite list_lookup_fmap.
    destruct (decide (i < n)).
    - rewrite lookup_replicate_2, lookup_seq_lt by lia. done.
    - rewrite lookup_seq_ge by lia. apply lookup_ge_None_2. rewrite length_replicate. lia. }
  rewrite fmap_app. simpl. rewrite count_keys_app, IH by (intros e He; apply Hlt; set_solver).
  csimpl. change (list_alter S k) with (alter (M := list nat) S k). f_equal.
  assert (k < n) by (apply (Hlt (p, k)); set_solver).
  apply list_eq. intros i. destruct (decide (i = k)) as [->|Hne].
  - rewrite list_lookup_alter_eq, !list_lookup_fmap, lookup_seq_lt by lia. simpl.
    unfold with_key. rewrite filter_app, length_app, filter_cons, decide_True by done. simpl. f_equal. lia.
  - rewrite list_lookup_alter_ne, !list_lookup_fmap by done. destruct (seq 0 n !! i) as [j|] eqn:E; [|done].
    apply lookup_seq in E as [-> _]. simpl. unfold with_key.
    rewrite filter_app, length_app, filter_cons, decide_False by (simpl; lia). simpl. f_equal. lia.
Qed.

(** ** Offsets *)

Lemma sum_offsets_spec c0 cs (start : nat -> nat) :
  start 0 = c0 -> (forall j c, cs !! j = Some c -> start (S j) = start j + c) ->
  sum_offsets (c0 :: cs) = start <$> seq 0 (S (length cs)).
Proof.
  intros H0 HS. unfold sum_offsets. replace (length (c0 :: cs) - 1) with (length cs) by (simpl; lia).
  enough (forall m, m <= length cs ->
    foldl (fun offsets index => <[index := offsets !!! index + offsets !!! (index - 1)]> offsets)
      (c0 :: cs) (seq 1 m) = (start <$> seq 0 (S m)) ++ drop m cs) as H.
  { rewrite H by done. by rewrite drop_all, app_nil_r. }
  induction m as [|m IH]; intros Hm; [simpl; by rewrite H0|].
  rewrite seq_S, foldl_app, IH by lia. cbn [foldl].
  destruct (lookup_lt_is_Some_2 cs m) as [c Hc]; [lia|].
  rewrite (drop_S cs c m) by done.
  assert (Hlen : length (start <$> seq 0 (S m)) = S m) by (by rewrite length_fmap, length_seq).
  replace (1 + m - 1) with m by lia. change (1 + m) with (S m).
  rewrite lookup_total_app_r, Hlen, Nat.sub_diag by lia.
  rewrite lookup_total_app_l by lia.
  assert (Hm' : (start <$> seq 0 (S m)) !!! m = start m).
  { apply list_lookup_total_correct. rewrite list_lookup_fmap, lookup_seq_lt by lia. done. }
  rewrite Hm'. rewrite insert_app_r_alt, Hlen, Nat.sub_diag by lia.
  rewrite (seq_S (S m) 0), fmap_app, <- app_assoc. f_equal. cbn.
  rewrite (HS m c Hc), (Nat.add_comm c). done.
Qed.

Lemma offsets_spec n es : (forall e, e ∈ es -> e.2 < n) ->
  sum_offsets (count_keys n (snd <$> es)) = slice_start es <$> seq 0 (S n).
Proof.
  intros H. rewrite count_keys_spec by done.
  rewrite (sum_offsets_spec _ _ (slice_start es)), length_fmap, length_seq; [done|apply slice_start_0|].
  intros j c (k & -> & [-> _]%lookup_seq)%list_lookup_fmap_Some.
  apply slice_start_S.
Qed.

(** ** Placement *)

Record placed (n : nat) (all done_ : list (nat * nat)) (st : list nat * list nat) : Prop := {
  pd_next_len : length st.1 = S n;
  pd_len : length st.2 = length all;
  pd_next : forall k, k < n -> st.1 !!! k = slice_start all k + length (with_key k done_);
  pd_at : forall k j x, k < n -> (fst <$> with_key k done_) !! j = Some x ->
    st.2 !! (slice_start all k + j) = Some x
}.

Lemma with_key_app k es e :
  with_key k (es ++ [e]) = with_key k es ++ (if decide (e.2 = k) then [e] else []).
Proof.
  unfold with_key. rewrite filter_app, filter_cons.
  by destruct (decide (e.2 = k)).
Qed.

Lemma slices_disjoint all k1 j1 k2 j2 :
  j1 < length (with_key k1 all) -> j2 < length (with_key k2 all) -> k1 <> k2 ->
  slice_start all k1 + j1 <> slice_start all k2 + j2.
Proof.
  intros H1 H2 Hne. destruct (decide (k1 < k2)) as [Hlt|Hge].
  - pose proof (slice_start_mono all (S k1) k2 Hlt). rewrite slice_start_S in H. lia.
  - pose proof (slice_start_mono all (S k2) k1 ltac:(lia)). rewrite slice_start_S in H. lia.
Qed.

Lemma place_step_placed n all done_ rest p k st :
  all = done_ ++ (p, k) :: rest -> (forall e, e ∈ all -> e.2 < n) ->
  placed n all done_ st -> placed n all (done_ ++ [(p, k)]) (place_step st (p, k)).
Proof.
  intros Hall Hlt [Hnl Hl Hn Hat]. destruct st as [next idx]. simpl in *.
  assert (Hk : k < n) by (apply (Hlt (p, k)); rewrite Hall; set_solver).
  assert (Hcnt : forall x, length (with_key x all) =
    length (with_key x done_) + (if decide (k = x) then 1 else 0) + length (with_key x rest)).
  { intros x. rewrite Hall. unfold with_key. rewrite filter_app, length_app, filter_cons.
    simpl. case_decide; simpl; lia. }
  assert (Hroom : slice_start all k + length (with_key k done_) < length idx).
  { rewrite Hl, <- (slice_start_all all n Hlt). pose proof (slice_start_mono all (S k) n Hk) as Hm.
    rewrite slice_start_S, Hcnt, decide_True in Hm by done. lia. }
  constructor; simpl.
  - by rewrite length_alter.
  - by rewrite length_insert.
  - intros x Hx. rewrite with_key_app, length_app. simpl. destruct (decide (k = x)) as [->|Hne].
    + rewrite list_lookup_total_alter_eq by lia. rewrite Hn by done. simpl. lia.
    + rewrite list_lookup_total_alter_ne by done. rewrite Hn by done. simpl. lia.
  - intros x j y Hx. rewrite with_key_app, fmap_app, Hn by done. simpl.
    destruct (decide (k = x)) as [->|Hne]; simpl.
    + rewrite lookup_app_Some, length_fmap. intros [H|[Hj H]].
      * rewrite list_lookup_insert_ne; [by apply Hat|].
        apply lookup_lt_Some in H. rewrite length_fmap in H. lia.
      * apply list_lookup_singleton_Some in H as [Hj' <-].
        replace j with (length (with_key x done_)) by lia. by apply list_lookup_insert_eq.
    + rewrite app_nil_r. intros H. rewrite list_lookup_insert_ne; [by apply Hat|].
      apply lookup_lt_Some in H. rewrite length_fmap in H.
      apply slices_disjoint; [rewrite Hcnt, decide_True by done; lia| |done].
      rewrite Hcnt. lia.
Qed.

Lemma place_all n all : (forall e, e ∈ all -> e.2 < n) -> forall done_ rest st,
  all = done_ ++ rest -> placed n all done_ st ->
  placed n all all (foldl place_step st rest).
Proof.
  intros Hlt done_ rest. revert done_. induction rest as [|[p k] rest IH]; intros done_ st Hall Hst.
  { rewrite app_nil_r in Hall. by subst. }
  cbn [foldl]. apply (IH (done_ ++ [(p, k)])); [by rewrite <- app_assoc|].
  by eapply place_step_placed.
Qed.

(** ** The slices *)

Lemma index_slices_spec n es offsets indices :
  (forall e, e ∈ es -> e.2 < n) -> index_slices n es = (offsets, indices) ->
  length offsets = S n /\ offsets !!! 0 = 0 /\ offsets !!! n = length es /\
  length indices = length es /\
  (forall k, k < n -> slice offsets indices k = fst <$> with_key k es).
Proof.
  intros Hlt [= <- <-]. rewrite offsets_spec by done.
  assert (Hoff : forall j, j <= n -> (slice_start es <$> seq 0 (S n)) !!! j = slice_start es j).
  { intros j Hj. apply list_lookup_total_correct. rewrite list_lookup_fmap, lookup_seq_lt by lia. done. }
  assert (Hp : placed n es es (foldl place_step
    (slice_start es <$> seq 0 (S n), replicate (length es) 0) es)).
  { apply (place_all n es Hlt [] es); [done|]. constructor.
    - by cbn [fst]; rewrite length_fmap, length_seq.
    - by cbn [snd]; rewrite length_replicate.
    - intros k Hk. cbn [fst]. rewrite Hoff by lia. simpl. lia.
    - intros k j x _ H. done. }
  destruct Hp as [_ Hl _ Hat].
  split_and!; [by rewrite length_fmap, length_seq|rewrite Hoff by lia; apply slice_start_0|
    by rewrite Hoff, slice_start_all by done|done|].
  intros k Hk. unfold slice. rewrite !Hoff by lia. rewrite slice_start_S.
  replace (slice_start es k + length (with_key k es) - slice_start es k)
    with (length (with_key k es)) by lia.
  pose proof (slice_start_mono es (S k) n Hk) as Hm. rewrite slice_start_S, (slice_start_all es n Hlt) in Hm.
  apply list_eq_same_length with (length (with_key k es)).
  - by rewrite length_fmap.
  - rewrite length_take, length_drop, Hl. lia.
  - intros j x y Hj Hx Hy. rewrite lookup_take_lt, lookup_drop in Hx by done.
    apply (Hat k j y Hk) in Hy. congruence.
Qed.

Lemma filter_iff_in {A} (P Q : A -> Prop) `{!forall x, Decision (P x), !forall x, Decision (Q x)} (l : list A) :
  (forall x, x ∈ l -> P x <-> Q x) -> filter P l = filter Q l.
Proof.
  induction l as [|x l IH]; intros Heq; [done|].
  assert (E : filter P l = filter Q l) by (apply IH; intros y Hy; apply Heq; by right).
  assert (Hx : P x <-> Q x) by (apply Heq; by left).
  rewrite !filter_cons, E. do 2 case_decide; tauto.
Qed.

(** The positions of [l] at which [f] holds, in ascending order. *)
Definition positions {A} (f : A -> bool) (l : list A) : list nat :=
  filter (fun j => from_option f false (l !! j) = true) (seq 0 (length l)).

Lemma positions_snoc {A} (f : A -> bool) l x :
  positions f (l ++ [x]) = positions f l ++ (if f x then [length l] else []).
Proof.
  unfold positions. rewrite length_app, Nat.add_1_r, seq_S, filter_app. f_equal.
  - apply filter_iff_in. intros j Hj%elem_of_seq. rewrite lookup_app_l by lia. done.
  - simpl. rewrite filter_cons, filter_nil, lookup_app_r, Nat.sub_diag by lia. simpl.
    by destruct (f x).
Qed.

Lemma with_key_imap {A} (f : A -> nat) k l :
  fst <$> with_key k (imap (fun i x => (i, f x)) l) = positions (fun x => Nat.eqb (f x) k) l.
Proof.
  induction l as [|x l IH] using rev_ind; [done|].
  rewrite imap_app, positions_snoc, <- IH. simpl. rewrite Nat.add_0_r.
  unfold with_key. rewrite filter_app, fmap_app, filter_cons, filter_nil. simpl.
  destruct (Nat.eqb_spec (f x) k); [by rewrite decide_True|by rewrite decide_False].
Qed.

(** * Release groups

    The groups of a dispatch plan cut the release list into maximal runs with
    one domain and one release sequence number; over the sorted releases of a
    compiled timeline each domain release is exactly one group. *)

Definition release_key (r : ReferenceRelease) : nat * Z :=
  (rr_domain_registration_index r, rr_domain_release_sequence r).
Definition group_key (g : RateReleaseGroup) : nat * Z :=
  (gr_domain_registration_index g, gr_domain_release_sequence g).
Definition group_range (g : RateReleaseGroup) : list nat :=
  seq (gr_first_reference_index g) (gr_reference_count g).

(** Groups laid end to end over [off, stop). *)
Fixpoint chained (off : nat) (gs : list RateReleaseGroup) (stop : nat) : Prop :=
  match gs with
  | [] => off = stop
  | g :: gs' =>
      gr_first_reference_index g = off /\ 0 < gr_reference_count g /\
      chained (off + gr_reference_count g) gs' stop
  end.

Lemma chained_snoc gs g : forall off stop,
  chained off (gs ++ [g]) stop <->
  chained off gs (gr_first_reference_index g) /\ 0 < gr_reference_count g /\
  gr_first_reference_index g + gr_reference_count g = stop.
Proof.
  induction gs as [|g' gs IH]; intros off stop; simpl; [naive_solver lia|].
  rewrite IH. naive_solver.
Qed.

Lemma chained_le gs : forall off stop, chained off gs stop -> off <= stop.
Proof. induction gs as [|g gs IH]; simpl; intros off stop; [lia|]. intros (_ & _ & H%IH). lia. Qed.

Lemma chained_cover gs : forall off stop,
  chained off gs stop -> gs ≫= group_range = seq off (stop - off).
Proof.
  induction gs as [|g gs IH]; intros off stop; csimpl; [intros ->; by rewrite Nat.sub_diag|].
  intros (Hf & Hc & H). pose proof (chained_le _ _ _ H). rewrite (IH _ _ H).
  unfold group_range. rewrite Hf, <- seq_app. f_equal. lia.
Qed.

Record groups_inv (rs : list ReferenceRelease) (gs : list RateReleaseGroup) : Prop := {
  gi_chain : chained 0 gs (length rs);
  gi_key : forall g i r, g ∈ gs -> i ∈ group_range g -> rs !! i = Some r -> release_key r = group_key g;
  gi_time : forall g r, g ∈ gs -> rs !! gr_first_reference_index g = Some r ->
    gr_release_time_ns g = rr_release_time_ns r;
  gi_adjacent : forall k g1 g2, gs !! k = Some g1 -> gs !! S k = Some g2 -> group_key g1 <> group_key g2
}.

Lemma same_group_key g r : same_group g r = true <-> group_key g = release_key r.
Proof.
  unfold same_group, group_key, release_key.
  rewrite andb_true_iff, Nat.eqb_eq, Z.eqb_eq.
  split; [by intros [-> ->]|by intros [= -> ->]].
Qed.

Lemma chained_range gs : forall off stop g, chained off gs stop -> g ∈ gs ->
  0 < gr_reference_count g /\ gr_first_reference_index g + gr_reference_count g <= stop.
Proof.
  induction gs as [|g' gs IH]; intros off stop g; simpl; [by intros _ ?%elem_of_nil|].
  intros (Hf & Hc & H) [->|Hg]%elem_of_cons.
  - apply chained_le in H. lia.
  - by apply (IH _ _ _ H).
Qed.

Lemma groups_inv_range rs gs g i : groups_inv rs gs -> g ∈ gs -> i ∈ group_range g ->
  i < length rs.
Proof.
  intros Hi Hg [H1 H2]%elem_of_seq. destruct (chained_range _ _ _ g (gi_chain _ _ Hi) Hg). lia.
Qed.

(** Extending the last group or opening a new one. *)
Lemma extend_groups_cases (rs : list ReferenceRelease) r gs :
  (exists gs0 g, gs = gs0 ++ [g] /\ group_key g = release_key r /\
     extend_groups (length rs) r gs =
       gs0 ++ [mkGroup (gr_first_reference_index g) (S (gr_reference_count g))
                 (gr_domain_registration_index g) (gr_domain_release_sequence g) (gr_release_time_ns g)]) \/
  ((forall g, last gs = Some g -> group_key g <> release_key r) /\
   extend_groups (length rs) r gs =
     gs ++ [mkGroup (length rs) 1 (rr_domain_registration_index r) (rr_domain_release_sequence r)
              (rr_release_time_ns r)]).
Proof.
  unfold extend_groups. destruct gs as [|g gs0 _] using rev_ind; [right; split; done|].
  rewrite last_snoc, length_app. simpl. rewrite Nat.add_sub.
  destruct (same_group g r) eqn:E.
  - left. exists gs0, g. rewrite take_app_length. split_and!; [done|by apply same_group_key|done].
  - right. split; [|done]. intros g' [= <-] Hk. apply same_group_key in Hk. congruence.
Qed.

Lemma groups_inv_extend rs r gs :
  groups_inv rs gs -> groups_inv (rs ++ [r]) (extend_groups (length rs) r gs).
Proof.
  intros Hi. pose proof (fun g i => groups_inv_range rs gs g i Hi) as Hrange.
  pose proof (extend_groups_cases rs r gs) as Hcases.
  destruct Hi as [Hch Hkey Htime Hadj]. destruct Hcases as [(gs0 & g & -> & Hk & ->)|[Hlast ->]].
  - apply chained_snoc in Hch as (Hch0 & Hc & Hend).
    set (g' := mkGroup _ _ _ _ _).
    assert (Hin : forall x, x ∈ gs0 ++ [g'] -> x ∈ gs0 \/ x = g') by set_solver.
    assert (Hg : g ∈ gs0 ++ [g]) by set_solver.
    assert (Hgs0 : forall x, x ∈ gs0 -> x ∈ gs0 ++ [g]) by set_solver.
    constructor.
    + apply chained_snoc. rewrite length_app. simpl. split_and!; [done|lia|lia].
    + intros x i y [Hx | ->]%Hin Hir Hy.
      * rewrite lookup_app_l in Hy by (apply (Hrange x); auto). apply (Hkey x i); auto.
      * change (group_key g') with (group_key g). apply elem_of_seq in Hir. simpl in Hir.
        apply lookup_app_Some in Hy as [Hy|[Hl Hy]].
        -- apply (Hkey g i); [done| |done]. apply elem_of_seq. apply lookup_lt_Some in Hy. lia.
        -- by apply list_lookup_singleton_Some in Hy as [_ <-].
    + intros x y [Hx | ->]%Hin Hy.
      * apply (Htime x); [auto|]. rewrite lookup_app_l in Hy; [done|]. apply (Hrange x); [auto|].
        apply elem_of_seq. destruct (chained_range _ _ _ x Hch0 Hx). lia.
      * apply (Htime g); [done|]. simpl in Hy. rewrite lookup_app_l in Hy by lia. done.
    + intros k g1 g2 H1 H2. assert (Hlen : S k < length (gs0 ++ [g'])) by (by eapply lookup_lt_Some).
      rewrite length_app in Hlen. simpl in Hlen.
      rewrite lookup_app_l in H1 by lia.
      assert (H1' : (gs0 ++ [g]) !! k = Some g1) by (by apply lookup_app_l_Some).
      apply lookup_app_Some in H2 as [H2|[Hl H2]].
      * apply (Hadj k); [done|by apply lookup_app_l_Some].
      * apply list_lookup_singleton_Some in H2 as [Hz <-]. change (group_key g') with (group_key g).
        apply (Hadj k); [done|]. rewrite lookup_app_r by lia. by rewrite Hz.
  - set (g' := mkGroup _ _ _ _ _).
    assert (Hin : forall x, x ∈ gs ++ [g'] -> x ∈ gs \/ x = g') by set_solver.
    constructor.
    + apply chained_snoc. rewrite length_app. simpl. split_and!; [done|lia|lia].
    + intros x i y [Hx | ->]%Hin Hir Hy.
      * rewrite lookup_app_l in Hy by (apply (Hrange x); auto). by apply (Hkey x i).
      * apply elem_of_seq in Hir. simpl in Hir. rewrite lookup_app_r in Hy by lia.
        by apply list_lookup_singleton_Some in Hy as [_ <-].
    + intros x y [Hx | ->]%Hin Hy.
      * apply (Htime x); [done|]. rewrite lookup_app_l in Hy; [done|]. apply (Hrange x); [done|].
        apply elem_of_seq. destruct (chained_range _ _ _ x Hch Hx). lia.
      * simpl in Hy. rewrite lookup_app_r, Nat.sub_diag in Hy by lia. by simplify_eq/=.
    + intros k g1 g2 H1 H2. assert (Hlen : S k < length (gs ++ [g'])) by (by eapply lookup_lt_Some).
      rewrite length_app in Hlen. simpl in Hlen.
      rewrite lookup_app_l in H1 by lia.
      apply lookup_app_Some in H2 as [H2|[Hl H2]]; [by apply (Hadj k)|].
      apply list_lookup_singleton_Some in H2 as [Hz <-]. apply Hlast.
      rewrite last_lookup. by replace (pred (length gs)) with k by lia.
Qed.

Lemma group_pass_inv rs : forall done_ gs, groups_inv done_ gs ->
  groups_inv (done_ ++ rs) (group_pass (length done_) rs gs).
Proof.
  induction rs as [|r rs IH]; intros done_ gs Hi; [by rewrite app_nil_r|].
  rewrite group_pass_cons. pose proof (groups_inv_extend done_ r gs Hi) as H.
  apply IH in H. rewrite length_app, Nat.add_1_r, <- app_assoc in H. done.
Qed.

Lemma group_pass_groups rs : groups_inv rs (group_pass 0 rs []).
Proof.
  apply (group_pass_inv rs [] []). constructor; [done|..].
  - by intros g i r ?%elem_of_nil.
  - by intros g r ?%elem_of_nil.
  - intros k g1 g2 H. by rewrite lookup_nil in H.
Qed.

(** * Device dependencies inside a release group

    The dependency table of a dispatch plan: for every release, the earlier
    device records of its group that it waits for. *)

Section Dependencies.
Context (deps : list GraphDependency) (rs : list ReferenceRelease) (device : list (option nat)).

(** A release with the first index of its group. *)
Definition group_references (gs : list RateReleaseGroup) : list (nat * nat) :=
  gs ≫= fun g => pair (gr_first_reference_index g) <$> group_range g.

Definition waits_for (fi : nat * nat) : list nat :=
  reference_dependencies deps rs device fi.1 fi.2.

Definition dependency_step (st : list nat * list nat) (fi : nat * nat) : list nat * list nat :=
  let ds := st.2 ++ waits_for fi in (<[S fi.2 := length ds]> st.1, ds).

Definition device_records (g : RateReleaseGroup) : nat :=
  length (filter (fun i => device !!! i <> None) (group_range g)).

Lemma reference_fold f l : forall acc,
  foldl (fun '(offsets, ds) i =>
      let ds' := ds ++ reference_dependencies deps rs device f i in
      (<[S i := length ds']> offsets, ds')) acc l = foldl dependency_step acc (pair f <$> l).
Proof using Type. induction l as [|i l IH]; intros [o d]; [done|]. csimpl. by rewrite IH. Qed.

Lemma group_dependencies_step st g :
  let r := foldl dependency_step (de_offsets st, de_dependencies st)
             (pair (gr_first_reference_index g) <$> group_range g) in
  group_dependencies deps rs device st g =
    mkDependencyState r.1 r.2 (de_maximum st `max` device_records g).
Proof using Type.
  unfold group_dependencies, device_records, group_range. rewrite reference_fold.
  by destruct (foldl _ _ _).
Qed.

Lemma group_dependencies_all gs : forall st,
  let r := foldl dependency_step (de_offsets st, de_dependencies st) (group_references gs) in
  foldl (group_dependencies deps rs device) st gs =
    mkDependencyState r.1 r.2 (foldl Nat.max (de_maximum st) (device_records <$> gs)).
Proof using Type.
  induction gs as [|g gs IH]; intros st; [by destruct st|].
  cbn [foldl]. rewrite group_dependencies_step, IH. cbn [de_offsets de_dependencies de_maximum].
  unfold group_references. csimpl. rewrite foldl_app, <- surjective_pairing. done.
Qed.

Lemma group_references_snd gs : (group_references gs).*2 = gs ≫= group_range.
Proof using Type.
  unfold group_references. induction gs as [|g gs IH]; csimpl; [done|].
  rewrite fmap_app, IH, <- list_fmap_compose. f_equal.
  rewrite (list_fmap_ext _ id); [by rewrite list_fmap_id|done].
Qed.

Lemma dependency_fold refs : forall k offsets ds,
  refs.*2 = seq k (length refs) -> k + length refs < length offsets ->
  let r := foldl dependency_step (offsets, ds) refs in
  r.2 = ds ++ (refs ≫= waits_for) /\ length r.1 = length offsets /\
  (forall j, j <= k -> r.1 !!! j = offsets !!! j) /\
  (forall j, j < length refs ->
     r.1 !!! (S (k + j)) = length ds + length (take (S j) refs ≫= waits_for)).
Proof using Type.
  induction refs as [|[f i] refs IH]; intros k offsets ds Hseq Hlen.
  { simpl. rewrite app_nil_r. split_and!; [done..|lia]. }
  csimpl in *. injection Hseq as -> Hseq.
  destruct (IH (S k) (<[S k := length (ds ++ waits_for (f, k))]> offsets) (ds ++ waits_for (f, k)) Hseq)
    as (H1 & H2 & H3 & H4); [rewrite length_insert; lia|].
  unfold dependency_step at 2 4 6 8. cbn [fst snd]. rewrite length_insert in H2.
  split_and!; [by rewrite H1, <- app_assoc|done| |].
  - intros j Hj. rewrite H3 by lia. rewrite list_lookup_total_insert_ne by lia. done.
  - intros [|j] Hj.
    + rewrite Nat.add_0_r, H3, list_lookup_total_insert_eq by lia. rewrite length_app.
      cbn. by rewrite app_nil_r.
    + rewrite <- Nat.add_succ_comm, H4 by lia. cbn [take]. csimpl. rewrite !length_app. lia.
Qed.

(** The slice of a release is what it waits for. *)
Lemma dependency_slices gs n offsets ds m :
  chained 0 gs n ->
  foldl (group_dependencies deps rs device) (mkDependencyState (replicate (S n) 0) [] 0) gs =
    mkDependencyState offsets ds m ->
  length offsets = S n /\ offsets !!! 0 = 0 /\ offsets !!! n = length ds /\
  (forall fi, fi ∈ group_references gs -> slice offsets ds fi.2 = waits_for fi) /\
  m = foldl Nat.max 0 (device_records <$> gs).
Proof using Type.
  intros Hch. rewrite group_dependencies_all. cbn [de_offsets de_dependencies de_maximum].
  intros [= <- <- <-]. change (0 :: replicate n 0) with (replicate (S n) 0). set (refs := group_references gs).
  assert (Hsnd : refs.*2 = seq 0 n).
  { unfold refs. rewrite group_references_snd, (chained_cover _ _ _ Hch). by rewrite Nat.sub_0_r. }
  assert (Hlen : length refs = n) by (by rewrite <- (length_fmap snd refs), Hsnd, length_seq).
  destruct (dependency_fold refs 0 (replicate (S n) 0) []) as (H1 & H2 & H3 & H4).
  { by rewrite Hlen. }
  { rewrite length_replicate. lia. }
  rewrite length_replicate in H2. rewrite app_nil_l in H1.
  assert (Hoff : forall j, j <= n ->
    (foldl dependency_step (replicate (S n) 0, []) refs).1 !!! j = length (take j refs ≫= waits_for)).
  { intros [|j] Hj; [rewrite H3 by lia; done|]. rewrite Hlen in H4. exact (H4 j ltac:(lia)). }
  split_and!; [done|rewrite Hoff by lia; done|rewrite Hoff, H1 by lia; by rewrite take_ge by lia| |done].
  intros fi Hfi. apply list_elem_of_lookup in Hfi as [j Hj]. unfold slice.
  assert (Hj2 : fi.2 = j).
  { assert (Hjs : refs.*2 !! j = Some fi.2) by (by rewrite list_lookup_fmap, Hj).
    rewrite Hsnd in Hjs. by apply lookup_seq in Hjs as [-> _]. }
  assert (Hjn : j < n) by (rewrite <- Hlen; by eapply lookup_lt_Some). rewrite Hj2, !Hoff by lia.
  rewrite (take_S_r _ _ fi) by done. rewrite bind_app, length_app, H1.
  assert (refs ≫= waits_for =
    (take j refs ≫= waits_for) ++ waits_for fi ++ (drop (S j) refs ≫= waits_for)) as ->.
  { rewrite <- (take_drop_middle refs j fi Hj) at 1. by rewrite bind_app, bind_cons. }
  csimpl. rewrite app_nil_r.
  replace (_ + length (waits_for fi) - _) with (length (waits_for fi)) by lia.
  rewrite drop_app_length, take_app_length. done.
Qed.

(** What a release waits for: an earlier device record of its group, for each
    dependency on a phase that has one. *)
Lemma elem_of_waits_for f i j :
  j ∈ waits_for (f, i) <->
  exists d, d ∈ deps /\ dependent d = from_option rr_phase PhaseHandle_default (rs !! i) /\
    device_prerequisite rs device f i (prerequisite d) = Some j.
Proof using Type.
  unfold waits_for, reference_dependencies. rewrite list_elem_of_bind. split.
  - intros (d & Hj & Hd). exists d. case_bool_decide as E; [|by apply elem_of_nil in Hj].
    cbn [fst snd] in *. destruct (device_prerequisite _ _ _ _ _); [|by apply elem_of_nil in Hj].
    apply list_elem_of_singleton in Hj as ->. done.
  - intros (d & Hd & E & Hj). exists d. split; [|done]. rewrite bool_decide_eq_true_2 by done.
    cbn [fst snd]. rewrite Hj. by apply list_elem_of_singleton.
Qed.

Lemma device_prerequisite_Some f i p j :
  device_prerequisite rs device f i p = Some j <->
  (f <= j < i) /\ from_option rr_phase PhaseHandle_default (rs !! j) = p /\ device !!! j <> None /\
  (forall k, f <= k < j ->
     ~ (from_option rr_phase PhaseHandle_default (rs !! k) = p /\ device !!! k <> None)).
Proof using Type.
  unfold device_prerequisite. rewrite fmap_Some. split.
  - intros ([k x] & (Hk & [H1 H2] & Hbefore)%list_find_Some & ->).
    apply lookup_seq in Hk as [-> Hk]. cbn [snd]. split_and!; [lia|lia|done|done|].
    intros y Hy. apply (Hbefore (y - f)); [|lia]. apply lookup_seq. lia.
  - intros (Hj & H1 & H2 & Hb). exists (j - f, j). split; [|done]. apply list_find_Some.
    split_and!; [apply lookup_seq; lia|done|done|].
    intros y x [-> Hy]%lookup_seq Hlt. apply Hb. lia.
Qed.

Lemma device_prerequisite_None f i p :
  device_prerequisite rs device f i p = None <->
  forall k, f <= k < i ->
    ~ (from_option rr_phase PhaseHandle_default (rs !! k) = p /\ device !!! k <> None).
Proof using Type.
  unfold device_prerequisite. rewrite fmap_None, list_find_None, Forall_forall.
  setoid_rewrite elem_of_seq. split; intros H k Hk; apply H; lia.
Qed.
End Dependencies.
