(* ===== verification/RateDispatchStages.v ===== *)
(** * The validation stages of [compile_rate_dispatch]

    Each stage is characterised by the condition under which it succeeds and
    what it returns. *)

From stdpp Require Import base list numbers sorting sets strings.
From Stdlib Require Import ZArith Lia Bool.
From S2P Require Import Prelude Handles CompiledGraph RateTimeline RateTimelineTheorems CrossRateTypes RateDispatch RateAdmission RateSlices.

Local Open Scope Z_scope.
Local Open Scope rtfw_scope.

(** ** Channels *)

(** Both endpoints are phases of the graph, bound to mandatory domains of the
    plan; [i] is the producer's domain. *)
Definition channel_admissible (owner : Z) (plan : CompiledRatePlan) (c : CrossRateChannelSpec) (i : nat)
    : Prop :=
  phase_in_graph owner (length (pl_bindings plan)) (xc_producer c) = true /\
  phase_in_graph owner (length (pl_bindings plan)) (xc_consumer c) = true /\
  exists p q,
    find_binding (pl_bindings plan) (xc_producer c) = Some p /\
    find_binding (pl_bindings plan) (xc_consumer c) = Some q /\
    domain_in_plan plan (cb_domain p) = true /\ domain_in_plan plan (cb_domain q) = true /\
    domain_optional plan (cb_domain p) = false /\ domain_optional plan (cb_domain q) = false /\
    i = domain_position (cb_domain p).

Lemma mark_producer_domain_inr owner plan marks c out :
  mark_producer_domain owner plan marks c = inr out <->
  exists i, channel_admissible owner plan c i /\ out = <[i := true]> marks.
Proof.
  unfold mark_producer_domain, channel_admissible. rewrite sum_bind_inr. split.
  - intros ([] & [H1 H2]%require_inr%andb_true_iff & H).
    destruct (find_binding _ (xc_producer c)) as [p|]; [|done].
    destruct (find_binding _ (xc_consumer c)) as [q|]; [|done].
    apply sum_bind_inr in H as ([] & [H3 H4]%require_inr%andb_true_iff & H).
    apply sum_bind_inr in H as ([] & [H5%negb_true_iff H6%negb_true_iff]%require_inr%andb_true_iff & [= <-]).
    eexists. split; [|done]. split_and!; [done..|]. by exists p, q.
  - intros (i & (H1 & H2 & p & q & Hp & Hq & H3 & H4 & H5 & H6 & ->) & ->).
    exists tt. rewrite H1, H2, Hp, Hq, H3, H4, H5, H6. done.
Qed.

Definition channels_admissible (owner : Z) (plan : CompiledRatePlan) (cs : list CrossRateChannelSpec) : Prop :=
  Forall (fun c => exists i, channel_admissible owner plan c i) cs.

Lemma channel_admissible_unique owner plan c i j :
  channel_admissible owner plan c i -> channel_admissible owner plan c j -> i = j.
Proof. unfold channel_admissible. naive_solver. Qed.

Lemma insert_true_iff (marks : list bool) i j :
  (<[i := true]> marks) !!! j = true <-> (i = j /\ (i < length marks)%nat) \/ marks !!! j = true.
Proof.
  destruct (decide (i = j)) as [->|Hne].
  - destruct (decide (j < length marks)%nat) as [H|H].
    + rewrite list_lookup_total_insert_eq by done. naive_solver.
    + rewrite list_insert_ge by lia. naive_solver.
  - rewrite list_lookup_total_insert_ne by done. naive_solver.
Qed.

Lemma mark_producer_domains_inr owner plan cs : forall marks out,
  mark_producer_domains owner plan cs marks = inr out ->
  channels_admissible owner plan cs /\ length out = length marks /\
  (forall j, (j < length marks)%nat -> out !!! j = true <->
     marks !!! j = true \/ exists c, c ∈ cs /\ channel_admissible owner plan c j).
Proof.
  induction cs as [|c cs IH]; intros marks out; simpl.
  { intros [= <-]. split_and!; [constructor|done|]. intros j _. set_solver. }
  rewrite sum_bind_inr. intros (m & (i & Hi & ->)%mark_producer_domain_inr & H).
  apply IH in H as (H1 & H2 & H3). rewrite length_insert in H2, H3.
  split_and!; [constructor; [by exists i|done]|done|]. intros j Hj. rewrite H3 by done.
  rewrite insert_true_iff. split.
  - intros [[[-> _]|H]|(x & Hx & Ha)]; [right; exists c; split; [by left|done]|by left|].
    right. exists x. split; [by right|done].
  - intros [H|(x & [->|Hx]%elem_of_cons & Ha)]; [by left; right| |by right; exists x].
    left. left. by rewrite (channel_admissible_unique _ _ _ _ _ Hi Ha).
Qed.

Lemma mark_producer_domains_complete owner plan cs : forall marks,
  channels_admissible owner plan cs -> exists out, mark_producer_domains owner plan cs marks = inr out.
Proof.
  induction cs as [|c cs IH]; intros marks Hc; simpl; [by eexists|].
  apply Forall_cons in Hc as [[i Hi] Hc].
  rewrite (proj2 (mark_producer_domain_inr owner plan marks c _) (ex_intro _ i (conj Hi eq_refl))).
  simpl. by apply IH.
Qed.

(** ** Domains *)

(** The domain has a CPU phase. *)
Definition has_cpu_phase (plan : CompiledRatePlan) (i : nat) : Prop :=
  exists b, b ∈ pl_bindings plan /\ cb_phase_kind b = kind_cpu /\
    domain_in_plan plan (cb_domain b) = true /\ domain_position (cb_domain b) = i.

(** The domain produces a channel. *)
Definition has_producer (owner : Z) (plan : CompiledRatePlan) (cs : list CrossRateChannelSpec) (i : nat)
    : Prop := exists c, c ∈ cs /\ channel_admissible owner plan c i.

Lemma mark_cpu_domains_spec plan i : (i < rate_domain_capacity)%nat ->
  mark_cpu_domains plan !!! i = true <-> has_cpu_phase plan i.
Proof.
  intros Hi. unfold mark_cpu_domains, has_cpu_phase. generalize (pl_bindings plan). intros bs.
  enough (forall bs marks, (i < length marks)%nat ->
    foldl (fun marks b => if bool_decide (cb_phase_kind b = kind_cpu) && domain_in_plan plan (cb_domain b)
             then <[domain_position (cb_domain b) := true]> marks else marks) marks bs !!! i = true <->
    marks !!! i = true \/ exists b, b ∈ bs /\ cb_phase_kind b = kind_cpu /\
      domain_in_plan plan (cb_domain b) = true /\ domain_position (cb_domain b) = i) as H.
  { rewrite H by (by rewrite length_replicate). rewrite lookup_total_replicate_2 by done. naive_solver. }
  clear bs. induction bs as [|b bs IH]; intros marks Hm; cbn [foldl]; [set_solver|].
  destruct (bool_decide (cb_phase_kind b = kind_cpu) && domain_in_plan plan (cb_domain b)) eqn:E.
  - apply andb_true_iff in E as [E1%bool_decide_eq_true E2]. rewrite IH by (by rewrite length_insert).
    rewrite insert_true_iff. split.
    + intros [[[? _]|?]|(x & ? & ?)]; [|by left|]; right; [exists b|exists x]; set_solver.
    + intros [?|(x & [->|?]%elem_of_cons & Hx)]; [by left; right| |by right; exists x].
      left. left. destruct Hx as (_ & _ & <-). done.
  - rewrite IH by done. split; [naive_solver set_solver|].
    intros [?|(x & [->|?]%elem_of_cons & H1 & H2 & H3)]; [by left| |by right; exists x].
    rewrite H2, andb_true_r in E. by apply bool_decide_eq_false in E.
Qed.

Lemma check_active_domains_inr cpu producer ds : forall off u,
  check_active_domains off cpu producer ds = inr u <->
  forall j d, ds !! j = Some d ->
    active_domain_valid (cpu !!! (off + j)%nat) (producer !!! (off + j)%nat) d = true.
Proof.
  induction ds as [|d ds IH]; intros off []; simpl; [naive_solver|].
  rewrite sum_bind_inr. split.
  - intros ([] & H1%require_inr & H2) [|j] x; simpl; [intros [= <-]; by rewrite Nat.add_0_r|].
    intros Hx. rewrite Nat.add_succ_r. rewrite IH in H2. by apply (H2 j).
  - intros H. exists tt. split.
    + apply require_inr. specialize (H 0%nat d eq_refl). by rewrite Nat.add_0_r in H.
    + apply IH. intros j x Hx. specialize (H (S j) x Hx). by rewrite Nat.add_succ_r in H.
Qed.

(** What active execution asks of a domain. *)
Record domain_active (cpu producer : Prop) (d : CompiledRateDomain) : Prop := {
  da_period : cd_period_ns d <> 0;
  da_deadline : cd_relative_deadline_ns d <> 0;
  da_cpu : cpu -> cd_relative_deadline_ns d <= cd_period_ns d;
  da_action : valid_action (cd_late_action d) = true;
  da_limit : cd_late_action d = late_bounded_catch_up <-> cd_bounded_catch_up_limit d <> 0;
  da_producer : producer -> cd_late_action d <> late_skip
}.

Lemma active_domain_valid_spec (c p : bool) (cpu producer : Prop) d :
  (c = true <-> cpu) -> (p = true <-> producer) ->
  active_domain_valid c p d = true <-> domain_active cpu producer d.
Proof.
  intros Hc Hp. unfold active_domain_valid. rewrite !andb_true_iff, !negb_true_iff, !andb_false_iff.
  rewrite !Z.eqb_neq, Z.ltb_ge, !bool_decide_eq_false, negb_false_iff, Z.eqb_eq.
  rewrite <- !not_true_iff_false, Hc, Hp. split.
  - intros ((((((H1 & H2) & H3) & H4) & H5) & H6) & H7). constructor; try done; [tauto| |tauto].
    split; [tauto|]. intros H. destruct H6 as [H6|H6]; [|done].
    destruct (decide (cd_late_action d = late_bounded_catch_up)); [done|tauto].
  - intros [H1 H2 H3 H4 H5 H6]. split_and!; try done.
    + destruct c; [right; apply H3, Hc; done|left]. rewrite <- Hc. done.
    + destruct (decide (cd_late_action d = late_bounded_catch_up)); tauto.
    + destruct (decide (cd_late_action d = late_bounded_catch_up)) as [E|E]; [left; tauto|].
      right. destruct (decide (cd_bounded_catch_up_limit d = 0)); [done|tauto].
    + destruct p; [left; apply H6, Hp; done|right]. rewrite <- Hp. done.
Qed.

(** ** Bindings and dependencies *)

Lemma domains_by_phase_inr owner plan bs : forall table out,
  domains_by_phase owner plan bs table = inr out ->
  Forall (fun b => binding_in_plan owner plan b = true) bs /\ length out = length table /\
  forall b, b ∈ bs -> (phase_position (cb_phase b) < length table)%nat ->
    NoDup ((fun b => phase_position (cb_phase b)) <$> bs) ->
    out !!! phase_position (cb_phase b) = Some (domain_position (cb_domain b)).
Proof.
  enough (forall bs table out, domains_by_phase owner plan bs table = inr out ->
    Forall (fun b => binding_in_plan owner plan b = true) bs /\ length out = length table /\
    (forall p, p ∉ ((fun b => phase_position (cb_phase b)) <$> bs) -> out !!! p = table !!! p) /\
    forall b, b ∈ bs -> (phase_position (cb_phase b) < length table)%nat ->
      NoDup ((fun b => phase_position (cb_phase b)) <$> bs) ->
      out !!! phase_position (cb_phase b) = Some (domain_position (cb_domain b))) as H.
  { intros table out E. destruct (H bs table out E) as (? & ? & _ & ?). done. }
  clear bs. induction bs as [|b bs IH]; intros table out; csimpl.
  { intros [= <-]. split_and!; [constructor|done|done|]. by intros b ?%elem_of_nil. }
  rewrite sum_bind_inr. intros ([] & H1%require_inr & H). apply IH in H as (H2 & H3 & H4 & H5).
  rewrite length_insert in H3, H5. split_and!; [by constructor|done| |].
  - intros p [Hp1 Hp2]%not_elem_of_cons. rewrite H4, list_lookup_total_insert_ne by done. done.
  - intros x [->|Hx]%elem_of_cons Hlt [Hnotin Hnd]%NoDup_cons.
    + rewrite H4, list_lookup_total_insert_eq by done. done.
    + by apply H5.
Qed.

Lemma domains_by_phase_complete owner plan bs : forall table,
  Forall (fun b => binding_in_plan owner plan b = true) bs ->
  exists out, domains_by_phase owner plan bs table = inr out.
Proof.
  induction bs as [|b bs IH]; intros table H; simpl; [by eexists|].
  apply Forall_cons in H as [H1 H]. rewrite H1. simpl. by apply IH.
Qed.

Lemma binding_in_plan_position owner plan b : binding_in_plan owner plan b = true ->
  (phase_position (cb_phase b) < length (pl_bindings plan))%nat.
Proof.
  unfold binding_in_plan. rewrite !andb_true_iff. intros [[[H _] _] _].
  by apply phase_in_graph_position in H.
Qed.

Lemma dependency_in_domain_spec table d :
  dependency_in_domain table d = true ->
  (phase_position (prerequisite d) < length table)%nat /\
  (phase_position (dependent d) < length table)%nat /\
  table !!! phase_position (prerequisite d) = table !!! phase_position (dependent d).
Proof.
  unfold dependency_in_domain. rewrite !andb_true_iff, !Z.ltb_lt, bool_decide_eq_true.
  intros ((((H1 & H2) & H3) & H4) & H5). unfold phase_position, PhaseHandle_index in *.
  pose proof (handle_index_range (ph_value (prerequisite d))).
  pose proof (handle_index_range (ph_value (dependent d))). split_and!; [lia|lia|done].
Qed.

(** ** Records per release *)

Lemma count_group_records_inr gs : forall records out,
  (forall g, g ∈ gs -> (gr_domain_registration_index g < length records)%nat /\ (0 < gr_reference_count g)%nat) ->
  count_group_records gs records = inr out <->
  length out = length records /\
  (forall i, (i < length records)%nat -> records !!! i <> 0%nat -> out !!! i = records !!! i) /\
  (forall g, g ∈ gs -> out !!! gr_domain_registration_index g = gr_reference_count g) /\
  (forall i, (i < length records)%nat -> (forall g, g ∈ gs -> gr_domain_registration_index g <> i) ->
     out !!! i = records !!! i).
Proof.
  induction gs as [|g gs IH]; intros records out Hg; simpl.
  { split.
    - intros [= <-]. split_and!; [done|done| |done]. by intros g ?%elem_of_nil.
    - intros (Hl & _ & _ & H). f_equal. symmetry. apply list_eq_same_length with (length records); [done..|].
      intros i x y Hi Hx Hy. apply list_lookup_total_correct in Hx, Hy. subst.
      apply H; [lia|]. by intros g ?%elem_of_nil. }
  destruct (Hg g) as [Hd Hc]; [by left|]. set (d := gr_domain_registration_index g) in *.
  destruct (Nat.eqb_spec (records !!! d) 0) as [E|E].
  - rewrite IH.
    2:{ intros x Hx. rewrite length_insert. apply Hg. by right. }
    rewrite length_insert. split.
    + intros (Hl & H1 & H2 & H3). split_and!; [done| | |].
      * intros i Hi Hr. rewrite H1; [|done|]; (rewrite list_lookup_total_insert_ne; [done|by intros ->]).
      * intros x [->|Hx]%elem_of_cons; [|by apply H2]. fold d. rewrite H1, list_lookup_total_insert_eq; [done|done|done|].
        rewrite list_lookup_total_insert_eq by done. lia.
      * intros i Hi Hne. assert (d <> i) by (apply Hne; by left).
        rewrite H3, list_lookup_total_insert_ne; [done|done|done|]. intros x Hx. apply Hne. by right.
    + intros (Hl & H1 & H2 & H3). assert (Hod : out !!! d = gr_reference_count g) by (apply H2; by left).
      split_and!; [done| | |].
      * intros i Hi Hr. destruct (decide (d = i)) as [<-|Hne].
        -- by rewrite list_lookup_total_insert_eq.
        -- rewrite list_lookup_total_insert_ne in Hr |- * by done. by apply H1.
      * intros x Hx. apply H2. by right.
      * intros i Hi Hne. destruct (decide (d = i)) as [<-|Hne'].
        -- by rewrite list_lookup_total_insert_eq.
        -- rewrite list_lookup_total_insert_ne by done. apply H3; [done|].
           intros x [->|Hx]%elem_of_cons; [done|by apply Hne].
  - destruct (Nat.eqb_spec (records !!! d) (gr_reference_count g)) as [E'|E'].
    + rewrite IH by (intros x Hx; apply Hg; by right). split.
      * intros (Hl & H1 & H2 & H3). split_and!; [done|done| |].
        -- intros x [->|Hx]%elem_of_cons; [|by apply H2]. fold d. by rewrite H1.
        -- intros i Hi Hne. apply H3; [done|]. intros x Hx. apply Hne. by right.
      * intros (Hl & H1 & H2 & H3). split_and!; [done|done| |].
        -- intros x Hx. apply H2. by right.
        -- intros i Hi Hne. destruct (decide (d = i)) as [<-|Hne']; [by apply H1|]. apply H3; [done|].
           intros x [->|Hx]%elem_of_cons; [done|by apply Hne].
    + split; [done|]. intros (Hl & H1 & H2 & _). exfalso. apply E'. rewrite <- H1 by done.
      apply H2. by left.
Qed.

(** The groups of a domain all have the same number of records. *)
Definition uniform (gs : list RateReleaseGroup) : Prop :=
  forall g h, g ∈ gs -> h ∈ gs -> gr_domain_registration_index g = gr_domain_registration_index h ->
    gr_reference_count g = gr_reference_count h.

Lemma count_group_records_uniform gs out :
  (forall g, g ∈ gs -> (gr_domain_registration_index g < rate_domain_capacity)%nat /\ (0 < gr_reference_count g)%nat) ->
  count_group_records gs (replicate rate_domain_capacity 0%nat) = inr out ->
  uniform gs /\ length out = rate_domain_capacity /\
  (forall g, g ∈ gs -> out !!! gr_domain_registration_index g = gr_reference_count g).
Proof.
  intros Hg (Hl & _ & H & _)%count_group_records_inr.
  - rewrite length_replicate in Hl. split_and!; [|done|done]. intros g h Hgi Hhi E.
    rewrite <- (H g Hgi), <- (H h Hhi). by rewrite E.
  - by rewrite length_replicate.
Qed.

Lemma count_group_records_complete gs :
  (forall g, g ∈ gs -> (gr_domain_registration_index g < rate_domain_capacity)%nat /\ (0 < gr_reference_count g)%nat) ->
  uniform gs -> exists out, count_group_records gs (replicate rate_domain_capacity 0%nat) = inr out.
Proof.
  intros Hg Hu.
  exists ((fun i => from_option (fun p => gr_reference_count p.2) 0%nat
    (list_find (fun g => gr_domain_registration_index g = i) gs)) <$> seq 0 rate_domain_capacity).
  assert (Hat : forall i, (i < rate_domain_capacity)%nat ->
    ((fun i => from_option (fun p => gr_reference_count p.2) 0%nat
      (list_find (fun g => gr_domain_registration_index g = i) gs)) <$> seq 0 rate_domain_capacity) !!! i =
    from_option (fun p => gr_reference_count p.2) 0%nat
      (list_find (fun g => gr_domain_registration_index g = i) gs)).
  { intros i Hi. apply list_lookup_total_correct. rewrite list_lookup_fmap, lookup_seq_lt by done. done. }
  apply count_group_records_inr; rewrite length_replicate; [done|].
  split_and!; [by rewrite length_fmap, length_seq| | |].
  - intros i Hi H. by rewrite lookup_total_replicate_2 in H.
  - intros g Hgi. rewrite Hat by (by apply Hg).
    destruct (list_find _ gs) as [[j h]|] eqn:E.
    + apply list_find_Some in E as (Hj & Hd & _). simpl. apply Hu; [by eapply list_elem_of_lookup_2|done|done].
    + apply list_find_None in E. rewrite Forall_forall in E. by destruct (E g Hgi).
  - intros i Hi Hne. rewrite Hat, lookup_total_replicate_2 by done.
    destruct (list_find _ gs) as [[j h]|] eqn:E; [|done].
    apply list_find_Some in E as (Hj & Hd & _). destruct (Hne h); [by eapply list_elem_of_lookup_2|done].
Qed.
