(* ===== verification/RateDispatchTheorems.v ===== *)
(** * Correctness of [compile_rate_dispatch]

    The stages are composed into the condition under which a plan is accepted
    and the contents of the accepted plan. *)

From stdpp Require Import base list numbers sorting sets strings.
From Stdlib Require Import ZArith Lia Bool.
From S2P Require Import Prelude Handles CompiledGraph RateTimeline RateTimelineTheorems CrossRateTypes RateDispatch RateAdmission RateSlices RateDispatchStages.

Local Open Scope Z_scope.
Local Open Scope rtfw_scope.

Definition binding_position (b : CompiledRateBinding) : nat := phase_position (cb_phase b).

(** The dependency joins two valid phases bound to one domain. *)
Definition within_domain (plan : CompiledRatePlan) (d : GraphDependency) : Prop :=
  PhaseHandle_valid (prerequisite d) = true /\ PhaseHandle_valid (dependent d) = true /\
  exists p q, p ∈ pl_bindings plan /\ q ∈ pl_bindings plan /\
    binding_position p = phase_position (prerequisite d) /\
    binding_position q = phase_position (dependent d) /\
    domain_position (cb_domain p) = domain_position (cb_domain q).

(** The mandatory CPU jobs of a plan, in reference order. *)
Definition mandatory_jobs (plan : CompiledRatePlan) : list ReferenceRelease :=
  (mandatory_from 0 (pl_releases plan)).*2.

Definition domain_ready (owner : Z) (plan : CompiledRatePlan) (channels : list CrossRateChannelSpec)
    (i : nat) (d : CompiledRateDomain) : Prop :=
  domain_active (has_cpu_phase plan i) (has_producer owner plan channels i) d.

Record dispatch_valid (owner : Z) (tier : DeterminismTier) (policy : RateExecutionPolicy)
    (deps : list GraphDependency) (plan : CompiledRatePlan) (channels : list CrossRateChannelSpec)
    (dp : option DeviceRatePlan) : Prop := {
  dv_policy : policy_valid policy = true;
  dv_tier : tier = tier_unspecified;
  dv_domains : pl_domains plan <> [];
  dv_releases : pl_releases plan <> [];
  dv_supercycle : supercycle_ns plan <> 0;
  dv_capacity : (length (pl_domains plan) <= rate_domain_capacity)%nat;
  dv_channels : channels_admissible owner plan channels;
  dv_active : forall i d, pl_domains plan !! i = Some d -> domain_ready owner plan channels i d;
  dv_devices : forall b, b ∈ pl_bindings plan -> cb_phase_kind b = kind_device ->
    find_device_phase dp (cb_phase b) (cb_domain b) <> None;
  dv_bindings : Forall (fun b => binding_in_plan owner plan b = true) (pl_bindings plan);
  dv_deps : Forall (within_domain plan) deps;
  dv_references : Forall (fun r => reference_ok (length (pl_domains plan)) dp r = true) (pl_releases plan);
  dv_feasible : exists starts, feasible_from 0 (mandatory_jobs plan) starts /\
    finish_from 0 (mandatory_jobs plan) starts <= supercycle_ns plan;
  dv_uniform : uniform (group_pass 0 (pl_releases plan) [])
}.

(** Plans of the timeline compiler: 64-bit times and one binding per phase. *)
Definition plan_typed (plan : CompiledRatePlan) : Prop :=
  Forall job_typed (pl_releases plan) /\ NoDup (binding_position <$> pl_bindings plan).

(** The tables of an accepted plan. *)
Record dispatched (deps : list GraphDependency) (plan : CompiledRatePlan)
    (channels : list CrossRateChannelSpec) (dp : option DeviceRatePlan)
    (policy : RateExecutionPolicy) (out : CompiledRateDispatchPlan) : Prop := {
  di_policy : dpl_policy out = policy;
  di_admission : Forall2 record_of (mandatory_from 0 (pl_releases plan)) (dpl_admission out);
  di_feasible : feasible_from 0 (mandatory_jobs plan) (ad_declared_start_ns <$> dpl_admission out);
  di_finish : finish_from 0 (mandatory_jobs plan) (ad_declared_start_ns <$> dpl_admission out)
    <= supercycle_ns plan;
  di_earliest : forall starts, feasible_from 0 (mandatory_jobs plan) starts ->
    Forall2 Z.le (ad_declared_start_ns <$> dpl_admission out) starts;
  di_groups : dpl_groups out = group_pass 0 (pl_releases plan) [];
  di_records_len : length (dpl_records_per_domain_release out) = rate_domain_capacity;
  di_records : forall g, g ∈ dpl_groups out ->
    dpl_records_per_domain_release out !!! gr_domain_registration_index g = gr_reference_count g;
  di_shed : dpl_optional_shed_order out =
    std_sort (shed_less (pl_domains plan)) (optional_domains (pl_domains plan));
  di_device : dpl_device_phase_by_reference out = device_phase_of dp <$> pl_releases plan;
  di_deps : foldl (group_dependencies deps (pl_releases plan) (device_phase_of dp <$> pl_releases plan))
      (mkDependencyState (replicate (S (length (pl_releases plan))) 0%nat) [] 0) (dpl_groups out) =
    mkDependencyState (dpl_device_dependency_offsets out) (dpl_device_dependencies out)
      (dpl_maximum_device_records_per_group out);
  di_group_slices : index_slices rate_domain_capacity
      (imap (fun i g => (i, gr_domain_registration_index g)) (dpl_groups out)) =
    (dpl_domain_group_offsets out, dpl_domain_group_indices out);
  di_producers : index_slices (length (pl_bindings plan))
      (channel_entries xc_producer (fun _ => true) channels) =
    (dpl_producer_channel_offsets out, dpl_producer_channel_indices out);
  di_consumers : (dpl_consumer_channel_offsets out, dpl_consumer_channel_indices out) =
    if existsb (fun c => selector_valid (xc_consumer_device c)) channels
    then index_slices (length (pl_bindings plan))
           (channel_entries xc_consumer (fun c => selector_valid (xc_consumer_device c)) channels)
    else ([], [])
}.

Lemma reference_ok_domain n dp r : reference_ok n dp r = true ->
  (rr_domain_registration_index r < n)%nat.
Proof. unfold reference_ok, reference_valid. rewrite !andb_true_iff, Nat.ltb_lt. tauto. Qed.

(** Groups only name domains of the plan. *)
Lemma groups_in_range plan dp (Hcap : (length (pl_domains plan) <= rate_domain_capacity)%nat) :
  Forall (fun r => reference_ok (length (pl_domains plan)) dp r = true) (pl_releases plan) ->
  forall g, g ∈ group_pass 0 (pl_releases plan) [] ->
    (gr_domain_registration_index g < rate_domain_capacity)%nat /\ (0 < gr_reference_count g)%nat.
Proof.
  intros Hok g Hg. pose proof (group_pass_groups (pl_releases plan)) as Hi.
  destruct (chained_range _ _ _ g (gi_chain _ _ Hi) Hg) as [Hc Hle]. split; [|done].
  destruct (lookup_lt_is_Some_2 (pl_releases plan) (gr_first_reference_index g)) as [r Hr]; [lia|].
  assert (Hk : release_key r = group_key g).
  { apply (gi_key _ _ Hi g (gr_first_reference_index g)); [done| |done]. apply elem_of_seq. lia. }
  injection Hk as <- _. rewrite Forall_forall in Hok.
  pose proof (reference_ok_domain _ _ _ (Hok r ltac:(by eapply list_elem_of_lookup_2))). lia.
Qed.

Lemma dependency_state_eta st :
  st = mkDependencyState (de_offsets st) (de_dependencies st) (de_maximum st).
Proof. by destruct st. Qed.

Section Compile.
Context (owner : Z) (tier : DeterminismTier) (policy : RateExecutionPolicy)
        (deps : list GraphDependency) (plan : CompiledRatePlan)
        (channels : list CrossRateChannelSpec) (dp : option DeviceRatePlan).
Context (Htyped : plan_typed plan).

Lemma device_bindings_inr u : check_device_bindings dp (pl_bindings plan) = inr u <->
  forall b, b ∈ pl_bindings plan -> cb_phase_kind b = kind_device ->
    find_device_phase dp (cb_phase b) (cb_domain b) <> None.
Proof using Type.
  unfold check_device_bindings. rewrite require_inr, forallb_forall. split.
  - intros H b Hb Hk. apply list_elem_of_In, H in Hb. rewrite bool_decide_eq_true_2 in Hb by done.
    simpl in Hb. by destruct (find_device_phase _ _ _).
  - intros H b Hb%list_elem_of_In. destruct (decide (cb_phase_kind b = kind_device)) as [E|E].
    + specialize (H b Hb E). destruct (find_device_phase _ _ _); [|done]. by rewrite orb_true_r.
    + by rewrite bool_decide_eq_false_2.
Qed.

Lemma dependencies_within table :
  domains_by_phase owner plan (pl_bindings plan) (replicate (length (pl_bindings plan)) None) = inr table ->
  forallb (dependency_in_domain table) deps = true <-> Forall (within_domain plan) deps.
Proof using Htyped.
  intros (Hb & Hl & Ht)%domains_by_phase_inr. destruct Htyped as [_ Hnd].
  rewrite length_replicate in Hl, Ht.
  assert (Hpos : forall b, b ∈ pl_bindings plan -> (binding_position b < length (pl_bindings plan))%nat).
  { intros b Hin. rewrite Forall_forall in Hb. by apply (binding_in_plan_position owner), Hb. }
  assert (Hat : forall b, b ∈ pl_bindings plan -> table !!! binding_position b = Some (domain_position (cb_domain b))).
  { intros b Hin. apply Ht; [done|by apply Hpos|done]. }
  assert (Hall : forall p, (p < length (pl_bindings plan))%nat -> exists b, b ∈ pl_bindings plan /\ binding_position b = p).
  { intros p Hp. assert (Hperm : binding_position <$> pl_bindings plan ≡ₚ seq 0 (length (pl_bindings plan))).
    { apply NoDup_below_perm; [done|by rewrite length_fmap|]. intros x (b & -> & Hin)%list_elem_of_fmap. by apply Hpos. }
    assert (Hin : p ∈ binding_position <$> pl_bindings plan) by (rewrite Hperm; apply elem_of_seq; lia).
    apply list_elem_of_fmap in Hin as (b & -> & Hin). by exists b. }
  rewrite forallb_forall, Forall_forall. split; intros H d Hd.
  - apply list_elem_of_In, H in Hd. pose proof (dependency_in_domain_spec table d Hd) as (H1 & H2 & H3).
    rewrite Hl in H1, H2. destruct (Hall _ H1) as (p & Hp & Ep). destruct (Hall _ H2) as (q & Hq & Eq).
    unfold dependency_in_domain in Hd. rewrite !andb_true_iff in Hd. destruct Hd as [[[[Hv1 Hv2] _] _] _].
    split_and!; [done..|]. exists p, q. split_and!; [done..|].
    rewrite <- Ep, <- Eq, !Hat in H3 by done. by injection H3.
  - apply list_elem_of_In, H in Hd. destruct Hd as (Hv1 & Hv2 & p & q & Hp & Hq & Ep & Eq & Ed).
    unfold dependency_in_domain. rewrite Hv1, Hv2. simpl. rewrite !andb_true_iff, !Z.ltb_lt, bool_decide_eq_true.
    pose proof (Hpos p Hp) as Lp. pose proof (Hpos q Hq) as Lq. rewrite Ep in Lp. rewrite Eq in Lq.
    unfold phase_position, PhaseHandle_index in Lp, Lq |- *.
    pose proof (handle_index_range (ph_value (prerequisite d))).
    pose proof (handle_index_range (ph_value (dependent d))).
    split_and!; [lia|lia|]. fold (PhaseHandle_index (prerequisite d)) (PhaseHandle_index (dependent d)).
    fold (phase_position (prerequisite d)) (phase_position (dependent d)).
    rewrite <- Ep, <- Eq, !Hat by done. by rewrite Ed.
Qed.

Lemma active_domains_inr producer u :
  (length (pl_domains plan) <= rate_domain_capacity)%nat ->
  mark_producer_domains owner plan channels (replicate rate_domain_capacity false) = inr producer ->
  check_active_domains 0 (mark_cpu_domains plan) producer (pl_domains plan) = inr u <->
  forall i d, pl_domains plan !! i = Some d -> domain_ready owner plan channels i d.
Proof using Type.
  intros Hcap (_ & _ & Hp)%mark_producer_domains_inr. rewrite length_replicate in Hp.
  rewrite check_active_domains_inr. apply forall_proper. intros i. apply forall_proper. intros d.
  split; intros H Hd; specialize (H Hd); (assert (Hi : (i < rate_domain_capacity)%nat)
    by (apply lookup_lt_Some in Hd; lia)); cbn [Nat.add] in *; revert H;
    apply (active_domain_valid_spec (mark_cpu_domains plan !!! i) (producer !!! i));
    try (by apply mark_cpu_domains_spec);
    (rewrite Hp by done; rewrite lookup_total_replicate_2 by done; unfold has_producer; naive_solver).
Qed.

Lemma plan_present :
  negb (Nat.eqb (length (pl_domains plan)) 0) && negb (Nat.eqb (length (pl_releases plan)) 0) &&
    negb (supercycle_ns plan =? 0) && (length (pl_domains plan) <=? rate_domain_capacity)%nat = true <->
  pl_domains plan <> [] /\ pl_releases plan <> [] /\ supercycle_ns plan <> 0 /\
    (length (pl_domains plan) <= rate_domain_capacity)%nat.
Proof using Type.
  rewrite !andb_true_iff, !negb_true_iff, Z.eqb_neq, !Nat.eqb_neq, Nat.leb_le.
  rewrite !length_zero_iff_nil. tauto.
Qed.

Lemma compile_dispatch_sound out :
  compile_dispatch owner tier policy deps plan channels dp = inr out ->
  dispatch_valid owner tier policy deps plan channels dp /\ dispatched deps plan channels dp policy out.
Proof using Htyped.
  unfold compile_dispatch. rewrite sum_bind_inr. intros ([] & Hpol%require_inr & H).
  apply sum_bind_inr in H as ([] & Htier%require_inr%bool_decide_eq_true & H).
  apply sum_bind_inr in H as ([] & (Hd & Hr & Hs & Hcap)%require_inr%plan_present & H).
  apply sum_bind_inr in H as (producer & Hprod & H).
  apply sum_bind_inr in H as ([] & Hact & H).
  pose proof (proj1 (active_domains_inr producer tt Hcap Hprod) Hact) as Hact'. clear Hact.
  apply sum_bind_inr in H as ([] & Hdev & H).
  pose proof (proj1 (device_bindings_inr tt) Hdev) as Hdev'. clear Hdev.
  apply sum_bind_inr in H as (table & Htable & H).
  apply sum_bind_inr in H as ([] & Hdeps%require_inr%(dependencies_within table Htable) & H).
  apply sum_bind_inr in H as (adm & Hadm & H).
  apply sum_bind_inr in H as ([] & Hfin%require_inr%Z.leb_le & H).
  apply sum_bind_inr in H as (records & Hrec & H).
  pose proof Hadm as Hadm'.
  apply admit_references_sound in Hadm as (Hok & Hg & Hdp & recs & Ha & Hf2 & Hfe & Hlast & _);
    [|apply Htyped|vm_compute; split; discriminate].
  cbn [as_groups as_device_phase as_admission as_previous_finish] in *.
  rewrite app_nil_l in Hdp, Ha. rewrite Hg in Hrec. rewrite Ha, Hg, Hdp in H.
  destruct (count_group_records_uniform _ _ (groups_in_range plan dp Hcap Hok) Hrec) as (Hu & Hlen & Hat).
  injection H as <-. apply mark_producer_domains_inr in Hprod as (Hch & _ & _).
  apply domains_by_phase_inr in Htable as (Hb & _ & _). rewrite Hlast in Hfin. split.
  - constructor; try done. by exists (ad_declared_start_ns <$> recs).
  - constructor; try done.
    + intros starts Hst. destruct (admit_references_complete (length (pl_domains plan)) dp
        (pl_releases plan) 0 (mkAdmissionState 0 [] [] []) starts 0) as (st & E & _ & a & Ha' & Hle);
        [apply Htyped|vm_compute; split; discriminate|done|done|done|].
      rewrite Hadm' in E. injection E as <-. cbn [as_admission] in Ha'. rewrite app_nil_l in Ha'.
      assert (a = recs) as -> by congruence. exact Hle.
    + apply dependency_state_eta.
    + symmetry. apply surjective_pairing.
Qed.

Lemma compile_dispatch_complete :
  dispatch_valid owner tier policy deps plan channels dp ->
  exists out, compile_dispatch owner tier policy deps plan channels dp = inr out.
Proof using Htyped.
  intros [Hpol Htier Hd Hr Hs Hcap Hch Hact Hdev Hb Hdeps Hok (starts & Hfe & Hfin) Hu].
  unfold compile_dispatch. rewrite Hpol, Htier, (proj2 plan_present) by done. cbn [require sum_bind].
  rewrite bool_decide_eq_true_2 by done. cbn [require sum_bind].
  destruct (mark_producer_domains_complete owner plan channels (replicate rate_domain_capacity false) Hch)
    as [producer Hprod]. rewrite Hprod. cbn [sum_bind].
  rewrite (proj2 (active_domains_inr producer tt Hcap Hprod)) by done. cbn [sum_bind].
  rewrite (proj2 (device_bindings_inr tt)) by done. cbn [sum_bind].
  destruct (domains_by_phase_complete owner plan _ (replicate (length (pl_bindings plan)) None) Hb)
    as [table Htable]. rewrite Htable. cbn [sum_bind].
  rewrite (proj2 (dependencies_within table Htable)) by done. cbn [require sum_bind].
  destruct (admit_references_complete (length (pl_domains plan)) dp (pl_releases plan) 0
    (mkAdmissionState 0 [] [] []) starts 0) as (st & E & Hle & _);
    [apply Htyped|vm_compute; split; discriminate|done|done|done|].
  pose proof E as E'. apply admit_references_sound in E' as (_ & Hg & _);
    [|apply Htyped|vm_compute; split; discriminate].
  rewrite E. cbn [sum_bind]. rewrite (proj2 (Z.leb_le _ _)) by (unfold mandatory_jobs in Hfin; lia).
  cbn [require sum_bind as_groups] in *. rewrite Hg.
  destruct (count_group_records_complete _ (groups_in_range plan dp Hcap Hok) Hu) as [records ->].
  cbn [sum_bind]. by eexists.
Qed.
End Compile.

(** Every diagnostic of the compiler carries an error status. *)
Definition dispatch_failed (d : RateDispatchDiagnostic) : Prop := ddg_status d <> ok.

Lemma mark_producer_domains_error owner plan cs : forall marks,
  fails_with dispatch_failed (mark_producer_domains owner plan cs marks).
Proof.
  induction cs as [|c cs IH]; intros marks; [done|]. simpl. unfold mark_producer_domain. error_cases.
Qed.

Lemma check_active_domains_error cpu producer ds : forall i,
  fails_with dispatch_failed (check_active_domains i cpu producer ds).
Proof. induction ds as [|d ds IH]; intros i; error_cases. Qed.

Lemma domains_by_phase_error owner plan bs : forall table,
  fails_with dispatch_failed (domains_by_phase owner plan bs table).
Proof. induction bs as [|b bs IH]; intros table; error_cases. Qed.

Lemma admit_references_error n dp rs : forall i st,
  fails_with dispatch_failed (admit_references n dp i rs st).
Proof.
  induction rs as [|r rs IH]; intros i st; [done|]. simpl.
  unfold admit_reference, admit_device, admit_cpu. error_cases.
Qed.

Lemma count_group_records_error gs : forall records,
  fails_with dispatch_failed (count_group_records gs records).
Proof. induction gs as [|g gs IH]; intros records; error_cases. Qed.

#[export] Hint Resolve mark_producer_domains_error check_active_domains_error domains_by_phase_error
  admit_references_error count_group_records_error : errors.

Lemma compile_dispatch_error owner tier policy deps plan channels dp :
  fails_with dispatch_failed (compile_dispatch owner tier policy deps plan channels dp).
Proof. unfold compile_dispatch, check_device_bindings. error_cases. Qed.

(** ** Tables by key *)

Lemma with_key_channels key keep k cs :
  fst <$> with_key k (channel_entries key keep cs) =
  positions (fun c => keep c && Nat.eqb (phase_position (key c)) k) cs.
Proof.
  induction cs as [|c cs IH] using rev_ind; [done|].
  rewrite positions_snoc, <- IH. unfold channel_entries, with_key.
  rewrite imap_app, filter_app, fmap_app, filter_app, fmap_app. f_equal. simpl.
  rewrite filter_cons, filter_nil. simpl. rewrite Nat.add_0_r.
  destruct (keep c); simpl; [|done].
  rewrite filter_cons, filter_nil. simpl.
  destruct (Nat.eqb_spec (phase_position (key c)) k); [by rewrite decide_True|by rewrite decide_False].
Qed.

Lemma elem_of_channel_entries key keep cs e :
  e ∈ channel_entries key keep cs ->
  exists c, c ∈ cs /\ keep c = true /\ e.2 = phase_position (key c).
Proof.
  unfold channel_entries. intros ([i c] & -> & [Hk Hc]%list_elem_of_filter)%list_elem_of_fmap.
  apply elem_of_indexed, list_elem_of_lookup_2 in Hc. by exists c.
Qed.

(** The shed order: lower criticality first, later registration first. *)
Definition shed_before (domains : list CompiledRateDomain) (l r : nat) : Prop :=
  let rank i := from_option (fun d => criticality_rank (cd_criticality d)) 0 (domains !! i) in
  rank l < rank r \/ (rank l = rank r /\ (r < l)%nat).

Lemma shed_less_spec domains l r : shed_less domains l r = true <-> shed_before domains l r.
Proof.
  unfold shed_less, shed_before. cbv zeta.
  destruct (Z.eqb_spec (from_option (fun d => criticality_rank (cd_criticality d)) 0 (domains !! l))
    (from_option (fun d => criticality_rank (cd_criticality d)) 0 (domains !! r))) as [E|E]; simpl.
  - rewrite Nat.ltb_lt. lia.
  - rewrite Z.ltb_lt. lia.
Qed.

Lemma shed_less_false domains l r : shed_less domains l r = false <-> ~ shed_before domains l r.
Proof. rewrite <- shed_less_spec. by destruct (shed_less domains l r). Qed.

Lemma shed_sorted domains :
  StronglySorted (shed_before domains) (std_sort (shed_less domains) (optional_domains domains)).
Proof.
  apply (StronglySorted_mono (fun x y => shed_less domains x y = true)); [intros x y; apply shed_less_spec|].
  apply StronglySorted_strict.
  - apply std_sort_sorted.
    + intros x y. rewrite shed_less_spec, shed_less_false. unfold shed_before. cbv zeta. lia.
    + intros x y z. unfold not_greater. rewrite !shed_less_false. unfold shed_before. cbv zeta. lia.
  - rewrite std_sort_perm. apply NoDup_filter, NoDup_seq.
  - intros x y _ _. rewrite !shed_less_false. unfold shed_before. cbv zeta. lia.
Qed.

(** ** Claims *)

Section Claims.
Context (owner : Z) (tier : DeterminismTier) (policy : RateExecutionPolicy)
        (deps : list GraphDependency) (plan : CompiledRatePlan)
        (channels : list CrossRateChannelSpec) (dp : option DeviceRatePlan)
        (before : CompiledRateDispatchPlan).

Definition dispatch_status : Status :=
  ddg_status (fst (compile_rate_dispatch owner tier policy deps plan channels dp before)).
Definition dispatch_plan : CompiledRateDispatchPlan :=
  snd (compile_rate_dispatch owner tier policy deps plan channels dp before).

Lemma dispatch_cases :
  (dispatch_status = ok /\
   compile_dispatch owner tier policy deps plan channels dp = inr dispatch_plan) \/
  (dispatch_status <> ok /\ dispatch_plan = before /\
   exists d, compile_dispatch owner tier policy deps plan channels dp = inl d).
Proof using Type.
  unfold dispatch_status, dispatch_plan, compile_rate_dispatch.
  pose proof (compile_dispatch_error owner tier policy deps plan channels dp) as He.
  destruct (compile_dispatch owner tier policy deps plan channels dp) as [d|out]; [right|by left].
  split_and!; [done|done|by exists d].
Qed.

Lemma dispatch_ok : plan_typed plan -> dispatch_status = ok ->
  dispatch_valid owner tier policy deps plan channels dp /\
  dispatched deps plan channels dp policy dispatch_plan.
Proof using Type.
  intros Ht Hok. destruct dispatch_cases as [[_ H]|(H & _)]; [|done].
  by apply compile_dispatch_sound.
Qed.

(** C38. A dispatch plan is accepted exactly when the policy and the tier are
    supported, the rate plan is finite and within capacity, every channel
    joins phases of mandatory domains, every domain has a usable deadline,
    late action and catch-up bound, every device phase is admitted, no
    ordinary dependency crosses domains, every release is valid, some
    single-lane schedule in reference order meets every mandatory CPU deadline
    and is idle at the supercycle boundary, and the releases of a domain all
    have the same number of records.  A refused plan leaves the caller's plan
    untouched. *)
Theorem rate_dispatch_accepts :
  plan_typed plan ->
  (dispatch_status = ok <-> dispatch_valid owner tier policy deps plan channels dp) /\
  (dispatch_status <> ok -> dispatch_plan = before).
Proof using Type.
  intros Ht. destruct dispatch_cases as [[Hs H]|(Hs & Hp & d & H)]; (split; [|done]).
  - split; [intros _|done]. by apply compile_dispatch_sound in H as [? _].
  - split; [done|]. intros Hv. destruct (compile_dispatch_complete _ _ _ _ _ _ _ Ht Hv). congruence.
Qed.

(** C4. The admission records of an accepted plan are the mandatory CPU
    releases in reference order, each with its deadline and its budget; they
    run one after the other, never before their release, never past their
    deadline, are done by the end of the supercycle, and start no later than
    in any other schedule of the same releases in that order. *)
Theorem rate_dispatch_admission :
  plan_typed plan -> dispatch_status = ok ->
  let starts := ad_declared_start_ns <$> dpl_admission dispatch_plan in
  Forall2 record_of (mandatory_from 0 (pl_releases plan)) (dpl_admission dispatch_plan) /\
  feasible_from 0 (mandatory_jobs plan) starts /\
  finish_from 0 (mandatory_jobs plan) starts <= supercycle_ns plan /\
  (forall i j a b, (i < j)%nat -> dpl_admission dispatch_plan !! i = Some a ->
     dpl_admission dispatch_plan !! j = Some b ->
     ad_declared_finish_ns a <= ad_declared_start_ns b) /\
  (forall other, feasible_from 0 (mandatory_jobs plan) other -> Forall2 Z.le starts other).
Proof using Type.
  intros Ht Hok starts. destruct (dispatch_ok Ht Hok) as [Hv Hd].
  split_and!; [apply Hd|apply Hd|apply Hd| |apply Hd].
  intros i j a b Hij Ha Hb. pose proof (di_admission _ _ _ _ _ _ Hd) as Hrec.
  destruct (Forall2_lookup_r _ _ _ _ _ Hrec Ha) as (ir & Hir & _ & _ & Hfin). rewrite Hfin.
  apply (feasible_ordered (mandatory_jobs plan) 0 starts i j).
  - apply Hd.
  - apply Forall_forall. intros r (x & -> & Hx)%list_elem_of_fmap.
    apply list_elem_of_filter in Hx as [_ Hx]. apply list_elem_of_lookup in Hx as [k Hk].
    apply list_lookup_imap_Some in Hk as (r & Hr & ->). simpl.
    destruct Ht as [Ht _]. rewrite Forall_forall in Ht.
    destruct (Ht r ltac:(by eapply list_elem_of_lookup_2)) as (_ & Hb' & _). apply Hb'.
  - done.
  - unfold mandatory_jobs. by rewrite list_lookup_fmap, Hir.
  - unfold starts. by rewrite list_lookup_fmap, Ha.
  - unfold starts. by rewrite list_lookup_fmap, Hb.
Qed.

(** The groups of an accepted plan cover the releases end to end; each
    holds releases of one domain and one release sequence, consecutive groups
    differ in one of them, and the record count of a domain is the size of
    each of its groups. *)
Theorem rate_dispatch_groups :
  plan_typed plan -> dispatch_status = ok ->
  dpl_groups dispatch_plan ≫= group_range = seq 0 (length (pl_releases plan)) /\
  (forall g i r, g ∈ dpl_groups dispatch_plan -> i ∈ group_range g ->
     pl_releases plan !! i = Some r -> release_key r = group_key g) /\
  (forall k g h, dpl_groups dispatch_plan !! k = Some g -> dpl_groups dispatch_plan !! S k = Some h ->
     group_key g <> group_key h) /\
  (forall g, g ∈ dpl_groups dispatch_plan -> (0 < gr_reference_count g)%nat /\
     dpl_records_per_domain_release dispatch_plan !!! gr_domain_registration_index g =
       gr_reference_count g).
Proof using Type.
  intros Ht Hok. destruct (dispatch_ok Ht Hok) as [Hv Hd].
  pose proof (di_records _ _ _ _ _ _ Hd) as Hrec. rewrite (di_groups _ _ _ _ _ _ Hd) in Hrec |- *.
  pose proof (group_pass_groups (pl_releases plan)) as Hi. split_and!.
  - rewrite (chained_cover _ 0 _ (gi_chain _ _ Hi)). by rewrite Nat.sub_0_r.
  - apply Hi.
  - apply Hi.
  - intros g Hg. split; [|by apply Hrec]. by apply (chained_range _ _ _ g (gi_chain _ _ Hi)).
Qed.

(** The index slices of an accepted plan list, in ascending order, the
    groups of each domain, the channels each phase produces, and (when some
    channel has a device consumer) the device channels each phase consumes. *)
Theorem rate_dispatch_slices :
  plan_typed plan -> dispatch_status = ok ->
  (forall i, (i < rate_domain_capacity)%nat ->
     slice (dpl_domain_group_offsets dispatch_plan) (dpl_domain_group_indices dispatch_plan) i =
     positions (fun g => Nat.eqb (gr_domain_registration_index g) i) (dpl_groups dispatch_plan)) /\
  (forall p, (p < length (pl_bindings plan))%nat ->
     slice (dpl_producer_channel_offsets dispatch_plan) (dpl_producer_channel_indices dispatch_plan) p =
     positions (fun c => Nat.eqb (phase_position (xc_producer c)) p) channels) /\
  (forall p, (p < length (pl_bindings plan))%nat ->
     Exists (fun c => selector_valid (xc_consumer_device c) = true) channels ->
     slice (dpl_consumer_channel_offsets dispatch_plan) (dpl_consumer_channel_indices dispatch_plan) p =
     positions (fun c => selector_valid (xc_consumer_device c) &&
                         Nat.eqb (phase_position (xc_consumer c)) p) channels).
Proof using Type.
  intros Ht Hok. destruct (dispatch_ok Ht Hok) as [Hv Hd].
  assert (Hend : forall c, c ∈ channels ->
    (phase_position (xc_producer c) < length (pl_bindings plan))%nat /\
    (phase_position (xc_consumer c) < length (pl_bindings plan))%nat).
  { intros c Hc. pose proof (dv_channels _ _ _ _ _ _ _ Hv) as Hch. unfold channels_admissible in Hch.
    rewrite Forall_forall in Hch. destruct (Hch c Hc) as (i & Hp & Hq & _).
    by apply phase_in_graph_position in Hp, Hq. }
  split_and!.
  - intros i Hi. pose proof (di_group_slices _ _ _ _ _ _ Hd) as E. apply index_slices_spec in E.
    + destruct E as (_ & _ & _ & _ & E). rewrite E by done. apply with_key_imap.
    + intros e He. apply list_elem_of_lookup in He as [k Hk].
      apply list_lookup_imap_Some in Hk as (g & Hg & ->). apply list_elem_of_lookup_2 in Hg. cbn [snd].
      rewrite (di_groups _ _ _ _ _ _ Hd) in Hg.
      by apply (groups_in_range plan dp (dv_capacity _ _ _ _ _ _ _ Hv) (dv_references _ _ _ _ _ _ _ Hv)).
  - intros p Hp. pose proof (di_producers _ _ _ _ _ _ Hd) as E. apply index_slices_spec in E.
    + destruct E as (_ & _ & _ & _ & E). rewrite E by done. by rewrite with_key_channels.
    + intros e (c & Hc & _ & ->)%elem_of_channel_entries. by apply Hend.
  - intros p Hp Hex. pose proof (di_consumers _ _ _ _ _ _ Hd) as E.
    rewrite (proj2 (existsb_exists _ _)) in E.
    2:{ apply Exists_exists in Hex as (c & Hc%list_elem_of_In & H). by exists c. }
    symmetry in E. apply index_slices_spec in E.
    + destruct E as (_ & _ & _ & _ & E). rewrite E by done. by rewrite with_key_channels.
    + intros e (c & Hc & _ & ->)%elem_of_channel_entries. by apply Hend.
Qed.

(** The shed order of an accepted plan lists exactly the optional domains,
    once each, lower criticality before higher and, within one criticality,
    later registration before earlier. *)
Theorem rate_dispatch_shed_order :
  plan_typed plan -> dispatch_status = ok ->
  (forall i, i ∈ dpl_optional_shed_order dispatch_plan <->
     exists d, pl_domains plan !! i = Some d /\ cd_optional d = true) /\
  StronglySorted (shed_before (pl_domains plan)) (dpl_optional_shed_order dispatch_plan).
Proof using Type.
  intros Ht Hok. destruct (dispatch_ok Ht Hok) as [Hv Hd]. rewrite (di_shed _ _ _ _ _ _ Hd).
  split; [|apply shed_sorted]. intros i. rewrite (std_sort_perm (shed_less (pl_domains plan))).
  unfold optional_domains. rewrite list_elem_of_filter, elem_of_seq. split.
  - intros [H _]. destruct (pl_domains plan !! i) as [d|]; [|done]. by exists d.
  - intros (d & E & H). rewrite E. split; [done|]. apply lookup_lt_Some in E. lia.
Qed.

(** For a release of an accepted plan, the device dependency slice holds,
    for each graph dependency of its phase, the first earlier device record of
    the prerequisite in the same group when there is one, and nothing else;
    the recorded maximum is the largest number of device records of a group. *)
Theorem rate_dispatch_device_dependencies :
  plan_typed plan -> dispatch_status = ok ->
  let device := device_phase_of dp <$> pl_releases plan in
  let phase i := from_option rr_phase PhaseHandle_default (pl_releases plan !! i) in
  dpl_device_phase_by_reference dispatch_plan = device /\
  (forall g i j, g ∈ dpl_groups dispatch_plan -> i ∈ group_range g ->
     j ∈ slice (dpl_device_dependency_offsets dispatch_plan)
           (dpl_device_dependencies dispatch_plan) i <->
     exists d, d ∈ deps /\ dependent d = phase i /\
       (gr_first_reference_index g <= j < i)%nat /\ phase j = prerequisite d /\ device !!! j <> None /\
       forall k, (gr_first_reference_index g <= k < j)%nat ->
         ~ (phase k = prerequisite d /\ device !!! k <> None)) /\
  dpl_maximum_device_records_per_group dispatch_plan =
    foldl Nat.max 0%nat (device_records device <$> dpl_groups dispatch_plan).
Proof using Type.
  intros Ht Hok device phase. destruct (dispatch_ok Ht Hok) as [Hv Hd].
  pose proof (di_deps _ _ _ _ _ _ Hd) as E. apply dependency_slices in E.
  2:{ rewrite (di_groups _ _ _ _ _ _ Hd). apply (gi_chain _ _ (group_pass_groups (pl_releases plan))). }
  destruct E as (_ & _ & _ & Hs & Hm). split_and!; [apply Hd| |done].
  intros g i j Hg Hi.
  assert (Hgi : (gr_first_reference_index g, i) ∈ group_references (dpl_groups dispatch_plan)).
  { apply list_elem_of_bind. exists g. split; [|done]. by apply list_elem_of_fmap_2. }
  apply Hs in Hgi. cbn [snd] in Hgi. rewrite Hgi, elem_of_waits_for. setoid_rewrite device_prerequisite_Some. naive_solver.
Qed.
End Claims.
