(* ===== verification/RateComposition.v ===== *)
(** * The timeline compiler and the dispatch compiler together

    [ReferencePlan] states what the timeline compiler promises to its clients:
    sorted releases, one set of records per domain and sequence number, periods
    that divide the supercycle.  The dispatch theorems of this file are proved
    against that interface, and plans of [compile_rate_timeline] are instances
    of it. *)

From stdpp Require Import base list numbers sorting sets strings.
From Stdlib Require Import ZArith Lia Bool.
From S2P Require Import Prelude Handles CompiledGraph RateTimeline RateTimelineTheorems CrossRateTypes RateDispatch RateDueCount RateAdmission RateSlices RateDispatchStages RateDispatchTheorems.

Local Open Scope Z_scope.
Local Open Scope rtfw_scope.

(** The records of one domain release. *)
Definition records_of (rs : list ReferenceRelease) (key : nat * Z) : list ReferenceRelease :=
  filter (fun r => release_key r = key) rs.

Class ReferencePlan (plan : CompiledRatePlan) : Prop := {
  rp_typed : plan_typed plan;
  rp_sorted : StronglySorted release_lt (pl_releases plan);
  rp_supercycle : 0 < supercycle_ns plan <= u64_max;
  rp_period : forall i c, pl_domains plan !! i = Some c ->
    0 < cd_period_ns c <= u64_max /\ (cd_period_ns c | supercycle_ns plan);
  rp_release : forall r, r ∈ pl_releases plan -> exists c,
    pl_domains plan !! rr_domain_registration_index r = Some c /\
    0 <= rr_domain_release_sequence r < supercycle_ns plan / cd_period_ns c /\
    rr_release_time_ns r = rr_domain_release_sequence r * cd_period_ns c;
  rp_every : forall i c k, pl_domains plan !! i = Some c -> 0 <= k < supercycle_ns plan / cd_period_ns c ->
    records_of (pl_releases plan) (i, k) <> [];
  rp_same : forall i c k l, pl_domains plan !! i = Some c ->
    0 <= k < supercycle_ns plan / cd_period_ns c -> 0 <= l < supercycle_ns plan / cd_period_ns c ->
    length (records_of (pl_releases plan) (i, k)) = length (records_of (pl_releases plan) (i, l));
  rp_capacity : Z.of_nat (length (pl_releases plan)) <= reference_release_capacity
}.

(** ** Groups over a reference plan *)

Lemma chained_order gs : forall off stop a b g h, chained off gs stop -> (a < b)%nat ->
  gs !! a = Some g -> gs !! b = Some h ->
  (gr_first_reference_index g < gr_first_reference_index h)%nat.
Proof.
  assert (Hge : forall gs off stop b h, chained off gs stop -> gs !! b = Some h ->
    (off <= gr_first_reference_index h)%nat).
  { intros l. induction l as [|g l IH]; intros off stop b h Hch Hb; [done|].
    destruct Hch as (Hf & Hc & Hch). destruct b as [|b]; simpl in Hb; [simplify_eq; lia|].
    pose proof (IH _ _ _ _ Hch Hb). lia. }
  induction gs as [|g' gs IH]; intros off stop a b g h Hch Hab Ha Hb; [done|].
  destruct Hch as (Hf & Hc & Hch). destruct b as [|b]; [lia|]. destruct a as [|a]; simpl in *.
  - simplify_eq. pose proof (Hge _ _ _ _ _ Hch Hb). lia.
  - by apply (IH _ _ a b g h Hch); [lia|..].
Qed.

Lemma sorted_lookup {A} (R : A -> A -> Prop) l i j x y :
  StronglySorted R l -> (i < j)%nat -> l !! i = Some x -> l !! j = Some y -> R x y.
Proof.
  intros Hs. revert i j. induction Hs as [|a l Hl IH Ha]; intros i j Hij Hi Hj; [done|].
  destruct j as [|j]; [lia|]. destruct i as [|i]; simpl in *.
  - simplify_eq. rewrite Forall_forall in Ha. apply Ha. by eapply list_elem_of_lookup_2.
  - apply (IH i j); [lia|done|done].
Qed.

(** Chained groups cut the list they range over. *)
Lemma chained_slices gs : forall off stop (rs : list ReferenceRelease), chained off gs stop -> stop = length rs ->
  drop off rs = gs ≫= fun g => take (gr_reference_count g) (drop (gr_first_reference_index g) rs).
Proof.
  induction gs as [|g gs IH]; intros off stop rs Hch ->; csimpl.
  - apply drop_ge. simpl in Hch. lia.
  - destruct Hch as (Hf & Hc & Hch). rewrite <- (IH _ _ rs Hch) by done. rewrite Hf, <- drop_drop.
    by rewrite take_drop.
Qed.

Lemma filter_bind {A B} (P : B -> Prop) `{!forall x, Decision (P x)} (f : A -> list B) l :
  filter P (l ≫= f) = l ≫= fun x => filter P (f x).
Proof. induction l as [|x l IH]; csimpl; [done|]. by rewrite filter_app, IH. Qed.

Lemma NoDup_fmap_inj {A B} (f : A -> B) l x y :
  NoDup (f <$> l) -> x ∈ l -> y ∈ l -> f x = f y -> x = y.
Proof.
  intros Hnd [i Hi]%list_elem_of_lookup [j Hj]%list_elem_of_lookup E.
  assert (i = j) as ->; [|congruence].
  eapply NoDup_lookup; [done|by rewrite list_lookup_fmap, Hi|rewrite list_lookup_fmap, Hj; simpl; congruence].
Qed.

Lemma filter_all_in {A} (P : A -> Prop) `{!forall x, Decision (P x)} (l : list A) :
  (forall x, x ∈ l -> P x) -> filter P l = l.
Proof.
  induction l as [|x l IH]; intros Hall; [done|].
  rewrite filter_cons, decide_True by (apply Hall; by left). f_equal. apply IH.
  intros y Hy. apply Hall. by right.
Qed.

Section Groups.
Context (plan : CompiledRatePlan) `{!ReferencePlan plan}.

Abbreviation rs := (pl_releases plan).
Abbreviation gs := (group_pass 0 (pl_releases plan) []).

Lemma group_first g : g ∈ gs -> exists r, rs !! gr_first_reference_index g = Some r /\ release_key r = group_key g.
Proof using Type.
  intros Hg. pose proof (group_pass_groups rs) as Hi.
  destruct (chained_range _ _ _ g (gi_chain _ _ Hi) Hg) as [Hc Hle].
  destruct (lookup_lt_is_Some_2 rs (gr_first_reference_index g)) as [r Hr]; [lia|].
  exists r. split; [done|]. apply (gi_key _ _ Hi g (gr_first_reference_index g)); [done| |done].
  apply elem_of_seq. lia.
Qed.

(** Equal keys are released at the same time, and a release of the same
    domain at that time has the same sequence number. *)
Lemma same_time_key r r' : r ∈ rs -> r' ∈ rs ->
  rr_domain_registration_index r = rr_domain_registration_index r' ->
  rr_release_time_ns r = rr_release_time_ns r' <->
  rr_domain_release_sequence r = rr_domain_release_sequence r'.
Proof using All.
  intros (c & Hc & _ & ->)%rp_release (c' & Hc' & _ & ->)%rp_release E.
  rewrite E, Hc' in Hc. injection Hc as ->.
  destruct (rp_period _ _ Hc') as [Hp _]. nia.
Qed.

Lemma group_keys_distinct : NoDup (group_key <$> gs).
Proof using All.
  pose proof (group_pass_groups rs) as Hi. apply NoDup_alt. 
  enough (H : forall a b g h, (a < b)%nat -> gs !! a = Some g -> gs !! b = Some h -> group_key g <> group_key h).
  { intros a b k Ha Hb. rewrite list_lookup_fmap in Ha, Hb.
    destruct (gs !! a) as [g|] eqn:Ea; [|done]. destruct (gs !! b) as [h|] eqn:Eb; [|done].
    simpl in *. destruct (Nat.lt_trichotomy a b) as [Hlt|[->|Hlt]]; [|done|].
    - destruct (H a b g h Hlt Ea Eb). congruence.
    - destruct (H b a h g Hlt Eb Ea). congruence. }
  intros a b g h Hab Ha Hb Hk.
  destruct (decide (S a = b)) as [<-|Hne]; [by apply (gi_adjacent _ _ Hi a g h)|].
  destruct (lookup_lt_is_Some_2 gs (S a)) as [m Hm].
  { apply lookup_lt_Some in Hb. lia. }
  apply (gi_adjacent _ _ Hi a g m Ha Hm).
  pose proof (chained_order _ _ _ a (S a) g m (gi_chain _ _ Hi) ltac:(lia) Ha Hm) as O1.
  pose proof (chained_order _ _ _ (S a) b m h (gi_chain _ _ Hi) ltac:(lia) Hm Hb) as O2.
  apply list_elem_of_lookup_2 in Ha, Hb, Hm.
  destruct (group_first g Ha) as (r1 & R1 & K1). destruct (group_first m Hm) as (r2 & R2 & K2).
  destruct (group_first h Hb) as (r3 & R3 & K3). rewrite <- K1, <- K3 in Hk. rewrite <- K1, <- K2.
  pose proof (sorted_lookup _ _ _ _ _ _ rp_sorted O1 R1 R2) as L1.
  pose proof (sorted_lookup _ _ _ _ _ _ rp_sorted O2 R2 R3) as L2.
  apply list_elem_of_lookup_2 in R1, R2, R3. injection Hk as Hd Hs.
  pose proof (proj2 (same_time_key r1 r3 R1 R3 Hd) Hs) as Ht.
  unfold release_lt in L1, L2.
  assert (Hd2 : rr_domain_registration_index r1 = rr_domain_registration_index r2) by lia.
  unfold release_key. f_equal; [done|]. apply (same_time_key r1 r2 R1 R2 Hd2). lia.
Qed.

(** A group is exactly the records of its key. *)
Lemma group_records g : g ∈ gs -> gr_reference_count g = length (records_of rs (group_key g)).
Proof using All.
  intros Hg. pose proof (group_pass_groups rs) as Hi.
  pose proof (chained_slices gs 0 (length rs) rs (gi_chain _ _ Hi) eq_refl) as Hcut. rewrite drop_0 in Hcut.
  unfold records_of. rewrite Hcut, filter_bind, length_bind.
  set (part := fun h => length (filter (fun r => release_key r = group_key g)
    (take (gr_reference_count h) (drop (gr_first_reference_index h) rs)))).
  change (gr_reference_count g = sum_list_with part gs).
  assert (Hin : forall h r, h ∈ gs -> r ∈ take (gr_reference_count h) (drop (gr_first_reference_index h) rs) ->
    release_key r = group_key h).
  { intros h r Hh [j Hj]%list_elem_of_lookup. apply lookup_take_Some in Hj as [Hj Hlt].
    rewrite lookup_drop in Hj. apply (gi_key _ _ Hi h (gr_first_reference_index h + j)%nat); [done| |done].
    apply elem_of_seq. lia. }
  assert (Hpart : part g = gr_reference_count g).
  { unfold part. rewrite filter_all_in.
    - rewrite length_take, length_drop. destruct (chained_range _ _ _ g (gi_chain _ _ Hi) Hg). lia.
    - intros r Hr. by apply Hin. }
  pose proof (NoDup_fmap_1 _ _ group_keys_distinct) as Hnd.
  pose proof (sum_list_with_change part (fun _ => 0%nat) gs g Hnd Hg) as Hsum.
  rewrite (sum_list_with_const (fun _ => 0%nat) 0%nat gs) in Hsum by done.
  rewrite <- Hpart. symmetry. rewrite Nat.add_0_r in Hsum. rewrite Hsum; [lia|].
  intros h Hh Hne. unfold part. apply length_zero_iff_nil, filter_nil_iff. intros r Hr E.
  apply Hne. apply Hin in Hr; [|done]. rewrite E in Hr.
  apply (NoDup_fmap_inj group_key gs); [apply group_keys_distinct|done..].
Qed.

Lemma group_key_valid i k : (i, k) ∈ group_key <$> gs <->
  exists c, pl_domains plan !! i = Some c /\ 0 <= k < supercycle_ns plan / cd_period_ns c.
Proof using All.
  pose proof (group_pass_groups rs) as Hi. split.
  - intros (g & Hk & Hg)%list_elem_of_fmap. destruct (group_first g Hg) as (r & Hr & E).
    apply list_elem_of_lookup_2, rp_release in Hr as (c & Hc & Hs & _).
    rewrite <- Hk in E. injection E as <- <-. by exists c.
  - intros (c & Hc & Hk). pose proof (rp_every i c k Hc Hk) as Hne.
    destruct (records_of rs (i, k)) as [|r l] eqn:E; [done|].
    assert (Hr : r ∈ records_of rs (i, k)) by (rewrite E; by left).
    apply list_elem_of_filter in Hr as [Hkey [j Hj]%list_elem_of_lookup].
    assert (Hjin : j ∈ gs ≫= group_range).
    { rewrite (chained_cover _ _ _ (gi_chain _ _ Hi)), elem_of_seq. apply lookup_lt_Some in Hj. lia. }
    apply list_elem_of_bind in Hjin as (g & Hjg & Hg). rewrite <- Hkey, (gi_key _ _ Hi g j r Hg Hjg Hj).
    by apply list_elem_of_fmap_2.
Qed.

Lemma groups_uniform : uniform gs.
Proof using All.
  intros g h Hg Hh E. rewrite !group_records by done.
  pose proof (list_elem_of_fmap_2 group_key _ _ Hg) as Kg. pose proof (list_elem_of_fmap_2 group_key _ _ Hh) as Kh.
  unfold group_key in Kg, Kh |- *. rewrite <- E in Kh |- *.
  apply group_key_valid in Kg as (c & Hc & Hk). apply group_key_valid in Kh as (c' & Hc' & Hl).
  assert (c' = c) as -> by congruence. by apply (rp_same _ c).
Qed.

Lemma domain_groups i c : pl_domains plan !! i = Some c ->
  Z.of_nat (length (filter (fun g => gr_domain_registration_index g = i) gs)) =
  supercycle_ns plan / cd_period_ns c.
Proof using All.
  intros Hc. destruct (rp_period i c Hc) as [Hp _]. pose proof rp_supercycle as Hs.
  assert (Hq : 0 <= supercycle_ns plan / cd_period_ns c) by (apply Z.div_pos; lia).
  set (l := filter (fun g => gr_domain_registration_index g = i) gs).
  set (f := fun g => Z.to_nat (gr_domain_release_sequence g)).
  assert (Hval : forall g, g ∈ l -> g ∈ gs /\ gr_domain_registration_index g = i /\
    0 <= gr_domain_release_sequence g < supercycle_ns plan / cd_period_ns c).
  { intros g [Hd Hg]%list_elem_of_filter. split_and!; [done|done|..];
      pose proof (list_elem_of_fmap_2 group_key _ _ Hg) as K; unfold group_key in K; rewrite Hd in K;
      apply group_key_valid in K as (c' & Hc' & Hk); simplify_eq; lia. }
  assert (Hperm : f <$> l ≡ₚ seq 0 (Z.to_nat (supercycle_ns plan / cd_period_ns c))).
  { apply NoDup_Permutation; [|apply NoDup_seq|].
    - apply NoDup_fmap_2_strong; [|by apply NoDup_filter, (NoDup_fmap_1 group_key), group_keys_distinct].
      intros g h Hg Hh E. destruct (Hval g Hg) as (Gg & Dg & Sg). destruct (Hval h Hh) as (Gh & Dh & Sh).
      apply (NoDup_fmap_inj group_key gs); [apply group_keys_distinct|done|done|].
      unfold group_key. f_equal; [congruence|]. unfold f in E. lia.
    - intros k. rewrite elem_of_seq. split.
      + intros (g & -> & Hg)%list_elem_of_fmap. destruct (Hval g Hg) as (_ & _ & Sg). unfold f. lia.
      + intros Hk. assert (Hin : (i, Z.of_nat k) ∈ group_key <$> gs) by (apply group_key_valid; exists c; split; [done|lia]).
        apply list_elem_of_fmap in Hin as (g & E & Hg). injection E as Ei Ek.
        apply list_elem_of_fmap. exists g. split; [unfold f; lia|]. by apply list_elem_of_filter. }
  apply Permutation_length in Hperm. rewrite length_fmap, length_seq in Hperm. lia.
Qed.
End Groups.

(** ** Plans of the timeline compiler *)

Lemma timeline_records s domains cbs i d k :
  indexed_bindings cbs -> domains !! i = Some d -> (k < Z.to_nat (s / ds_period_ns d))%nat ->
  length (records_of (std_sort release_less (timeline_releases s domains cbs)) (i, Z.of_nat k)) =
  length (sequence_releases cbs i d k).
Proof.
  intros Hc Hd Hk. apply Permutation_length. unfold records_of. rewrite (std_sort_perm release_less).
  apply NoDup_Permutation.
  - apply NoDup_filter. eapply StronglySorted_NoDup; [|by apply timeline_releases_sorted].
    intros x. unfold emitted_before. lia.
  - eapply StronglySorted_NoDup; [|by apply sequence_releases_sorted]. intros x. unfold emitted_before. lia.
  - intros r. rewrite list_elem_of_filter, elem_of_timeline. split.
    + intros (Hkey & i' & d' & k' & b & j & Hd' & _ & Hb & Hbi & Hj & ->).
      injection Hkey as -> Hkk. assert (k' = k) as -> by lia. rewrite Hd in Hd'. injection Hd' as <-.
      unfold sequence_releases, emit_sequence. apply list_elem_of_bind. exists b. split; [|done].
      rewrite (proj2 (Nat.eqb_eq _ _) Hbi). apply list_elem_of_fmap. exists j. split; [done|].
      apply elem_of_seq. lia.
    + unfold sequence_releases, emit_sequence. intros (b & Hr & Hb)%list_elem_of_bind.
      destruct (Nat.eqb_spec (domain_position (cb_domain b)) i) as [E|]; [|by apply elem_of_nil in Hr].
      apply list_elem_of_fmap in Hr as (j & -> & Hj%elem_of_seq). split; [done|].
      exists i, d, k, b, j. split_and!; [done..|lia|done].
Qed.

(** Field widths, the budget included. *)
Definition budgets_typed (domains : list RateDomainSpec) : Prop :=
  Forall (fun d => is_u64 (ds_budget_wcet_ns d)) domains.

Section Instance_.
Context (owner : Z) (n : nat) (order : list PhaseHandle) (domains : list RateDomainSpec)
        (bindings : list RateBindingSpec).
Context (Hn : Z.of_nat n <= u64_max) (Htyped : Forall domain_typed domains)
        (Hbudgets : budgets_typed domains).
Context (Hval : timeline_valid owner n order domains bindings).
Context (st : OwnershipState) (Hinv : own_inv owner n (length domains) bindings st).

Abbreviation s := (lcm_from 1 domains).
Abbreviation the_plan := (plan_of owner order domains bindings st).
Abbreviation cbs := (plan_bindings order bindings st).

Lemma spec_pos d : d ∈ domains -> 0 < ds_period_ns d <= u64_max /\ 0 < ds_substep_count d.
Proof using Htyped Hval.
  intros Hd. pose proof (proj1 (Forall_forall _ _) Htyped d Hd) as Ht.
  destruct (domain_valid_pos d Ht) as [Hp Hs];
    [by apply (proj1 (Forall_forall _ _) (tv_specs _ _ _ _ _ Hval))|].
  destruct Ht as ([_ Hu] & _). lia.
Qed.

Lemma supercycle_range : 0 < s <= u64_max.
Proof using Htyped Hval.
  split; [|apply Hval]. by apply supercycle_pos, Hval.
Qed.

Lemma plan_domain i c : pl_domains the_plan !! i = Some c ->
  exists d, domains !! i = Some d /\ cd_period_ns c = ds_period_ns d /\ cd_optional c = ds_optional d.
Proof using Type. intros (d & Hd & ->)%list_lookup_imap_Some. by exists d. Qed.

Lemma release_typed r : r ∈ pl_releases the_plan -> job_typed r.
Proof using Htyped Hbudgets Hval.
  cbn [pl_releases plan_of]. rewrite (std_sort_perm release_less).
  intros (i & d & k & b & j & Hd%list_elem_of_lookup_2 & Hk & _ & _ & _ & ->)%elem_of_timeline.
  destruct (spec_pos d Hd) as [Hp _]. pose proof supercycle_range as Hs.
  pose proof (proj1 (Forall_forall _ _) Hbudgets d Hd) as Hb.
  pose proof (proj1 (Forall_forall _ _) (tv_deadlines _ _ _ _ _ Hval) d Hd) as Hdl. simpl in Hdl.
  pose proof (proj1 (Forall_forall _ _) Htyped d Hd) as (_ & _ & Hrd).
  destruct (lcm_from_period 1 domains d Hd) as [q Hq].
  rewrite Hq, Z.div_mul in Hk by lia.
  unfold job_typed, release_of, make_release, is_u64 in *. simpl. nia.
Qed.

Lemma plan_positions : binding_position <$> pl_bindings the_plan = phase_position <$> order.
Proof using Type.
  cbn [pl_bindings plan_of]. unfold plan_bindings. apply list_eq. intros k.
  rewrite !list_lookup_fmap, list_lookup_imap. by destruct (order !! k).
Qed.

Lemma plan_of_reference_plan : ReferencePlan the_plan.
Proof using Hn Htyped Hbudgets Hval Hinv.
  pose proof supercycle_range as Hs.
  assert (Hix : indexed_bindings cbs) by apply plan_bindings_indexed.
  constructor.
  - split; [apply Forall_forall, release_typed|]. rewrite plan_positions. apply Hval.
  - apply timeline_sorted_strict; [done|apply Hval|done].
  - done.
  - intros i c (d & Hd%list_elem_of_lookup_2 & -> & _)%plan_domain.
    split; [by apply spec_pos|by apply lcm_from_period].
  - intros r. cbn [pl_releases plan_of]. rewrite (std_sort_perm release_less).
    intros (i & d & k & b & j & Hd & Hk & _ & _ & _ & ->)%elem_of_timeline.
    cbn [pl_domains supercycle_ns plan_of release_of make_release rr_domain_registration_index
      rr_domain_release_sequence rr_release_time_ns].
    eexists. split; [by rewrite list_lookup_imap, Hd|]. cbn [cd_period_ns compile_domain]. split; [lia|done].
  - intros i c k (d & Hd & -> & _)%plan_domain Hk. cbn [supercycle_ns plan_of] in Hk.
    destruct (tv_used _ _ _ _ _ Hval i) as (b & Hb & Hbi); [by eapply lookup_lt_Some|].
    assert (Hi : i ∈ (fun c => domain_position (cb_domain c)) <$> cbs).
    { rewrite (plan_bindings_domains owner n order domains bindings st Hval Hinv).
      rewrite <- Hbi. by apply list_elem_of_fmap_2. }
    apply list_elem_of_fmap in Hi as (cb & Hcb & Hin).
    unfold records_of. intros E. rewrite filter_nil_iff in E. cbn [pl_releases plan_of] in E.
    apply (E (release_of i d (Z.to_nat k) cb 0)).
    + rewrite (std_sort_perm release_less). apply elem_of_timeline.
      exists i, d, (Z.to_nat k), cb, 0%nat.
      destruct (spec_pos d) as [_ Hsub]; [by eapply list_elem_of_lookup_2|].
      split_and!; [done|lia|done|done|lia|done].
    + unfold release_key. simpl. by rewrite Z2Nat.id by lia.
  - intros i c k l (d & Hd & -> & _)%plan_domain Hk Hl. cbn [supercycle_ns plan_of pl_releases] in *.
    replace k with (Z.of_nat (Z.to_nat k)) by lia. replace l with (Z.of_nat (Z.to_nat l)) by lia.
    rewrite !(timeline_records s domains cbs i d) by (done || lia).
    by rewrite !length_sequence_releases.
  - rewrite (plan_releases_length owner n order domains bindings Htyped st Hval Hinv). apply Hval.
Qed.
End Instance_.

Lemma timeline_reference_plan owner n order domains bindings out :
  Z.of_nat n <= u64_max -> Forall domain_typed domains -> budgets_typed domains -> domains <> [] ->
  timeline_status owner n order domains bindings out = ok ->
  ReferencePlan (timeline_plan owner n order domains bindings out).
Proof.
  intros Hn Ht Hb Hne Hok.
  destruct (timeline_ok owner n order domains bindings out Hne) as [[_ Hp]|(Hs & _)]; [|done].
  apply compile_plan_sound in Hp as (Hv & st & Hi & ->); [|done..].
  by apply (plan_of_reference_plan owner n).
Qed.

(** ** Due work of a supercycle *)

Lemma first_due_0 p : 0 < p -> first_due 0 p = 0.
Proof. intros Hp. unfold first_due. apply Z.div_small. lia. Qed.

Lemma first_due_divides p s : 0 < p -> (p | s) -> first_due s p = s / p.
Proof.
  intros Hp [q ->]. replace (q * p) with (0 + q * p) at 1 by lia.
  rewrite first_due_shift, first_due_0, Z.div_mul by lia. done.
Qed.

(** A sum over groups, regrouped by domain. *)
Lemma sum_by_domain {A} (w : RateReleaseGroup -> nat) (ds : list A) gs :
  (forall g, g ∈ gs -> (gr_domain_registration_index g < length ds)%nat) ->
  Z.of_nat (sum_list_with w gs) = foldr Z.add 0 (imap (fun i _ =>
    Z.of_nat (sum_list_with w (filter (fun g => gr_domain_registration_index g = i) gs))) ds).
Proof.
  induction gs as [|g gs IH]; intros Hlt.
  { transitivity (foldr Z.add 0 (imap (fun _ _ => 0) ds)); [by rewrite sum_imap_zero|].
    by apply sum_imap_ext. }
  rewrite (sum_imap_add _ (fun i _ => if decide (gr_domain_registration_index g = i) then Z.of_nat (w g) else 0)
    (fun i _ => Z.of_nat (sum_list_with w (filter (fun g => gr_domain_registration_index g = i) gs)))).
  2:{ intros i _. rewrite filter_cons. case_decide; simpl; lia. }
  rewrite <- IH by (intros h Hh; apply Hlt; by right). simpl. rewrite Nat2Z.inj_add. f_equal.
  assert (Hg : (gr_domain_registration_index g < length ds)%nat) by (apply Hlt; by left).
  revert Hg. generalize (gr_domain_registration_index g). clear. induction ds as [|d ds IH]; simpl; [lia|].
  intros [|i] Hi.
  - transitivity (Z.of_nat (w g) + foldr Z.add 0 (imap (fun _ _ => 0) ds)); [rewrite sum_imap_zero; lia|].
    f_equal.
  - rewrite (IH i) at 1 by lia. rewrite decide_False by lia. rewrite Z.add_0_l.
    apply sum_imap_ext. intros j x _. unfold compose. do 2 case_decide; lia.
Qed.

Lemma chained_total gs : forall off stop, chained off gs stop ->
  (off + sum_list_with gr_reference_count gs = stop)%nat.
Proof.
  induction gs as [|g gs IH]; intros off stop; simpl; [lia|]. intros (_ & _ & H%IH). lia.
Qed.

Section Due.
Context (plan : CompiledRatePlan) `{!ReferencePlan plan} (dispatch : CompiledRateDispatchPlan).
Context (Hgroups : dpl_groups dispatch = group_pass 0 (pl_releases plan) []).
Context (Hrecords : forall g, g ∈ dpl_groups dispatch ->
  dpl_records_per_domain_release dispatch !!! gr_domain_registration_index g = gr_reference_count g).

Abbreviation gs := (group_pass 0 (pl_releases plan) []).

Lemma domain_has_group i c : pl_domains plan !! i = Some c ->
  exists g, g ∈ gs /\ gr_domain_registration_index g = i.
Proof using ReferencePlan0.
  intros Hc. destruct (rp_period i c Hc) as [Hp [q Hq]]. pose proof rp_supercycle.
  assert (Hin : (i, 0) ∈ group_key <$> gs).
  { apply (group_key_valid plan). exists c. split; [done|]. rewrite Hq, Z.div_mul by lia. nia. }
  apply list_elem_of_fmap in Hin as (g & E & Hg). injection E as -> _. by exists g.
Qed.

Lemma group_count_bound g : g ∈ gs -> (0 < gr_reference_count g <= length (pl_releases plan))%nat.
Proof using Type.
  intros Hg. destruct (chained_range _ _ _ g (gi_chain _ _ (group_pass_groups (pl_releases plan))) Hg). lia.
Qed.

Lemma reference_due_ready : due_ready plan dispatch.
Proof using All.
  intros i c Hc. split; [by apply (rp_period i)|].
  destruct (domain_has_group i c Hc) as (g & Hg & <-). unfold domain_records.
  rewrite Hrecords by (by rewrite Hgroups). pose proof (group_count_bound g Hg).
  pose proof rp_capacity. unfold reference_release_capacity, u64_max in *. lia.
Qed.

Lemma group_domain_bound g : g ∈ gs -> (gr_domain_registration_index g < length (pl_domains plan))%nat.
Proof using ReferencePlan0.
  intros Hg. pose proof (list_elem_of_fmap_2 group_key _ _ Hg) as K. unfold group_key in K.
  apply (group_key_valid plan) in K as (c & Hc & _). by eapply lookup_lt_Some.
Qed.

Lemma supercycle_due : total_due plan 0 (supercycle_ns plan) = Z.of_nat (length gs).
Proof using ReferencePlan0.
  replace (length gs) with (sum_list_with (fun _ => 1%nat) gs)
    by (rewrite (sum_list_with_const _ 1%nat); [lia|done]).
  rewrite (sum_by_domain _ (pl_domains plan)) by apply group_domain_bound.
  apply sum_imap_ext. intros i c Hc. destruct (rp_period i c Hc) as [Hp Hd].
  unfold domain_due. rewrite first_due_0, first_due_divides by (done || lia).
  rewrite (sum_list_with_const _ 1%nat) by done. rewrite Nat.mul_1_r, (domain_groups plan i c Hc). lia.
Qed.

Lemma supercycle_records :
  total_records plan dispatch 0 (supercycle_ns plan) = Z.of_nat (length (pl_releases plan)).
Proof using All.
  pose proof (chained_total _ _ _ (gi_chain _ _ (group_pass_groups (pl_releases plan)))) as <-.
  rewrite Nat.add_0_l, (sum_by_domain _ (pl_domains plan)) by apply group_domain_bound.
  apply sum_imap_ext. intros i c Hc. destruct (rp_period i c Hc) as [Hp Hd].
  unfold domain_due. rewrite first_due_0, first_due_divides by (done || lia).
  rewrite (sum_list_with_const _ (dpl_records_per_domain_release dispatch !!! i)).
  - rewrite Nat2Z.inj_mul, (domain_groups plan i c Hc). unfold domain_records. lia.
  - intros g [<- Hg]%list_elem_of_filter. symmetry. apply Hrecords. by rewrite Hgroups.
Qed.
End Due.

(** ** Claims *)


(** C9. Counting the due work of one whole supercycle, the first or any later
    one that ends within 64 bits, gives the number of groups of the dispatch
    plan and the number of releases of the reference plan. *)
Theorem rate_due_supercycle owner n order domains bindings out tier policy deps channels dp before
    lap counts :
  Z.of_nat n <= u64_max -> Forall domain_typed domains -> budgets_typed domains -> domains <> [] ->
  timeline_status owner n order domains bindings out = ok ->
  let plan := timeline_plan owner n order domains bindings out in
  dispatch_status owner tier policy deps plan channels dp before = ok ->
  let dispatch := dispatch_plan owner tier policy deps plan channels dp before in
  let s := supercycle_ns plan in
  0 <= lap -> (lap + 1) * s <= u64_max ->
  count_due_rate_work plan dispatch (lap * s) ((lap + 1) * s) counts =
    (ok, mkDueCounts (Z.of_nat (length (dpl_groups dispatch))) (Z.of_nat (length (pl_releases plan)))).
Proof.
  intros Hn Ht Hb Hne Hok plan Hd dispatch s Hlap Hend.
  pose proof (timeline_reference_plan owner n order domains bindings out Hn Ht Hb Hne Hok) as Hrp.
  fold plan in Hrp. destruct (dispatch_ok owner tier policy deps plan channels dp before) as [_ Hdi];
    [apply rp_typed|done|]. fold dispatch in Hdi.
  pose proof (di_groups _ _ _ _ _ _ Hdi) as Hg. pose proof (di_records _ _ _ _ _ _ Hdi) as Hr.
  pose proof (rp_supercycle : 0 < s <= u64_max) as Hs.
  pose proof (reference_due_ready plan dispatch Hg Hr) as Hready.
  rewrite (count_due_rate_work_eq plan dispatch Hready); [|unfold is_u64; nia..].
  assert (Hshift : forall i c, pl_domains plan !! i = Some c ->
    domain_due (lap * s) ((lap + 1) * s) c = domain_due 0 s c).
  { intros i c Hc. destruct (rp_period i c Hc) as [Hp Hdv].
    replace (lap * s) with (0 + lap * s) by lia. replace ((lap + 1) * s) with (s + lap * s) by lia.
    apply domain_due_shift; [lia|]. by apply Z.divide_mul_r. }
  assert (total_due plan (lap * s) ((lap + 1) * s) = Z.of_nat (length (dpl_groups dispatch))) as ->.
  { rewrite Hg, <- (supercycle_due plan). by apply sum_imap_ext. }
  assert (total_records plan dispatch (lap * s) ((lap + 1) * s) = Z.of_nat (length (pl_releases plan))) as ->.
  { rewrite <- (supercycle_records plan dispatch Hg Hr). apply sum_imap_ext. intros i c Hc.
    by rewrite (Hshift i c Hc). }
  rewrite (proj2 (Z.leb_le _ _)); [done|]. pose proof rp_capacity.
  unfold reference_release_capacity, u64_max in *. lia.
Qed.

(** * Concrete plans for the dispatch theorems

    A CPU plan with a mandatory domain of period 2 and an optional domain of
    period 3, and a device plan with a dependency between its two phases. *)

Local Open Scope Z_scope.

Definition sample_plan : CompiledRatePlan :=
  timeline_plan 7 3 sample_order sample_domains sample_bindings empty_plan.
Definition sample_policy : RateExecutionPolicy := mkPolicy 16 1 1 1 16.
Definition sample_channel : CrossRateChannelSpec :=
  mkChannelSpec [115] (PhaseHandle_make 7 0) (PhaseHandle_make 7 0) 8 [] sample_and_hold 4 selector_default
    selector_default.
Definition blank_dispatch : CompiledRateDispatchPlan :=
  mkDispatchPlan sample_policy [] [] [] [] [] [] [] [] [] [] [] [] [] 0.
Definition sample_dispatch : CompiledRateDispatchPlan :=
  dispatch_plan 7 tier_unspecified sample_policy [] sample_plan [sample_channel] None blank_dispatch.

Lemma sample_plan_typed : plan_typed sample_plan.
Proof.
  split.
  - apply (bool_decide_unpack _). vm_compute. exact I.
  - apply (bool_decide_unpack _). vm_compute. exact I.
Qed.

Lemma sample_dispatch_ok :
  dispatch_status 7 tier_unspecified sample_policy [] sample_plan [sample_channel] None blank_dispatch = ok.
Proof. vm_compute. reflexivity. Qed.

Lemma rate_dispatch_accepts_witness :
  dispatch_valid 7 tier_unspecified sample_policy [] sample_plan [sample_channel] None.
Proof.
  apply (rate_dispatch_accepts 7 tier_unspecified sample_policy [] sample_plan [sample_channel] None
           blank_dispatch).
  - exact sample_plan_typed.
  - vm_compute. reflexivity.
Defined.

Lemma rate_dispatch_admission_witness :
  feasible_from 0 (mandatory_jobs sample_plan) [0; 2; 4] /\
  (ad_declared_start_ns <$> dpl_admission sample_dispatch) = [0; 2; 4].
Proof.
  split; [|vm_compute; reflexivity].
  destruct (rate_dispatch_admission 7 tier_unspecified sample_policy [] sample_plan [sample_channel] None
           blank_dispatch) as (_ & H & _).
  - exact sample_plan_typed.
  - vm_compute. reflexivity.
  - exact H.
Defined.

Lemma rate_dispatch_groups_witness :
  dpl_groups sample_dispatch ≫= group_range = seq 0 11 /\ length (dpl_groups sample_dispatch) = 5%nat.
Proof.
  split; [|vm_compute; reflexivity].
  destruct (rate_dispatch_groups 7 tier_unspecified sample_policy [] sample_plan [sample_channel] None
           blank_dispatch) as (H & _).
  - exact sample_plan_typed.
  - vm_compute. reflexivity.
  - exact H.
Defined.

Lemma rate_dispatch_slices_witness :
  slice (dpl_domain_group_offsets sample_dispatch) (dpl_domain_group_indices sample_dispatch) 1 =
    positions (fun g => Nat.eqb (gr_domain_registration_index g) 1) (dpl_groups sample_dispatch) /\
  slice (dpl_domain_group_offsets sample_dispatch) (dpl_domain_group_indices sample_dispatch) 1 =
    [1; 3]%nat.
Proof.
  split; [|vm_compute; reflexivity].
  destruct (rate_dispatch_slices 7 tier_unspecified sample_policy [] sample_plan [sample_channel] None
           blank_dispatch) as (H & _).
  - exact sample_plan_typed.
  - vm_compute. reflexivity.
  - apply H. unfold rate_domain_capacity. lia.
Defined.

Lemma rate_dispatch_shed_order_witness :
  StronglySorted (shed_before (pl_domains sample_plan)) (dpl_optional_shed_order sample_dispatch) /\
  dpl_optional_shed_order sample_dispatch = [1%nat].
Proof.
  split; [|vm_compute; reflexivity].
  destruct (rate_dispatch_shed_order 7 tier_unspecified sample_policy [] sample_plan [sample_channel] None
           blank_dispatch) as (_ & H).
  - exact sample_plan_typed.
  - vm_compute. reflexivity.
  - exact H.
Defined.

(** Two device phases of one domain, the second after the first. *)
Definition device_domains : list RateDomainSpec :=
  [mkDomainSpec [100; 101; 118] 2 1 2 0 crit_normal false late_fail 0].
Definition device_bindings : list RateBindingSpec :=
  (fun p => mkBindingSpec (PhaseHandle_make 7 p) (RateDomainHandle_make 7 0) kind_device) <$> [0; 1].
Definition device_plan : CompiledRatePlan :=
  timeline_plan 7 2 (PhaseHandle_make 7 <$> [0; 1]) device_domains device_bindings empty_plan.
Definition device_phases : DeviceRatePlan := mkDeviceRatePlan
  ((fun p => mkDevicePhase (PhaseHandle_make 7 p) (RateDomainHandle_make 7 0) 5 0 1 1 1 0 1 0 0 0 0 0 1 None)
   <$> [0; 1]) [] [] [] (mkAdmissionReport 0 0 0 0 0 0 0) [] [] [].
Definition device_deps : list GraphDependency :=
  [mkDependency (PhaseHandle_make 7 0) (PhaseHandle_make 7 1)].
Definition device_dispatch : CompiledRateDispatchPlan :=
  dispatch_plan 7 tier_unspecified sample_policy device_deps device_plan [] (Some device_phases)
    blank_dispatch.

Lemma rate_dispatch_device_dependencies_witness :
  slice (dpl_device_dependency_offsets device_dispatch) (dpl_device_dependencies device_dispatch) 1 =
    [0%nat] /\
  dpl_maximum_device_records_per_group device_dispatch = 2%nat.
Proof.
  split; [vm_compute; reflexivity|].
  destruct (rate_dispatch_device_dependencies 7 tier_unspecified sample_policy device_deps device_plan []
           (Some device_phases) blank_dispatch) as (_ & _ & H).
  - split.
    + apply (bool_decide_unpack _). vm_compute. exact I.
    + apply (bool_decide_unpack _). vm_compute. exact I.
  - vm_compute. reflexivity.
  - unfold device_dispatch. rewrite H. vm_compute. reflexivity.
Defined.

Lemma sample_budgets : budgets_typed sample_domains.
Proof. unfold budgets_typed, is_u64. apply (bool_decide_unpack _). vm_compute. exact I. Qed.


Lemma rate_due_supercycle_witness :
  count_due_rate_work sample_plan sample_dispatch (4 * 6) ((4 + 1) * 6) (mkDueCounts 0 0) =
    (ok, mkDueCounts 5 11).
Proof.
  transitivity (ok, mkDueCounts (Z.of_nat (length (dpl_groups sample_dispatch)))
                      (Z.of_nat (length (pl_releases sample_plan)))); [|vm_compute; reflexivity].
  apply (rate_due_supercycle 7 3 sample_order sample_domains sample_bindings empty_plan tier_unspecified
           sample_policy [] [sample_channel] None blank_dispatch 4 (mkDueCounts 0 0)).
  - vm_compute. discriminate.
  - apply sample_domains_typed.
  - apply sample_budgets.
  - discriminate.
  - vm_compute. reflexivity.
  - vm_compute. reflexivity.
  - lia.
  - vm_compute. discriminate.
Defined.
