(* ===== verification/CrossRateData.v ===== *)
(** * Cross-rate data compilation (src/rt/src/cross_rate_data.cpp)

    [compile_cross_rate_data] checks the channels between rate domains and
    compiles, for every release of a consumer, which producer sample it reads:
    one selection for the first supercycle and one for every later one.  It
    builds one snapshot store per channel and, for a channel with a device
    endpoint, the memory envelope of that endpoint.

    Sentinels of indices and sequences are [None]; sizes and times kept in 64
    bits are [Z]; vector positions are [nat].  Allocation failure is not
    modelled. *)

From stdpp Require Import base list numbers sorting sets strings.
From Stdlib Require Import ZArith Lia Bool.
From S2P Require Import Prelude Handles RateTimeline SnapshotStore DeviceCommands CrossRateTypes.

Local Open Scope Z_scope.
Local Open Scope rtfw_scope.

(** ** Data *)

Definition cross_rate_channel_capacity : nat := 256.
Definition cross_rate_channel_name_capacity : nat := 64.
Definition cross_rate_payload_capacity : Z := 65536.
Definition cross_rate_initial_bytes_capacity : Z := 1048576.
Definition cross_rate_selection_capacity : Z := 262144.
Definition cross_rate_snapshot_slot_count : nat := 2.
Definition cross_rate_snapshot_bytes_capacity : Z := 2097152.
Definition cross_rate_runtime_logical_timestamp_domain_identity : Z := 1.

Definition host_coherent : Z := 1.

Record CrossRateDeviceEndpoint : Set := mkEndpoint {
  ep_channel_index : nat;
  ep_producer : bool;
  ep_phase : PhaseHandle;
  ep_backend : Z;
  ep_buffer : Z;
  ep_reference_kind : DeviceRateReferenceKind;
  ep_command_index : Z;
  ep_command_reference_index : Z;
  ep_envelope_offset : Z;
  ep_envelope_bytes : Z;
  ep_slot_stride_bytes : Z;
  ep_slot_count : Z;
  ep_timestamp_domain_identity : Z;
  ep_host_storage : HostSpan
}.

Inductive CrossRateSelectionHorizon : Set := first_supercycle | repeating_supercycle.
Inductive CrossRateSampleProvenance : Set := initial_sample | produced.
Inductive CrossRateFreshness : Set := fresh | stale.

#[export] Instance CrossRateSampleProvenance_eq_dec : EqDecision CrossRateSampleProvenance.
Proof. solve_decision. Defined.

Record CompiledCrossRateSelection : Set := mkSelection {
  sel_channel : CrossRateChannelHandle;
  sel_channel_registration_index : nat;
  sel_producer : PhaseHandle;
  sel_consumer : PhaseHandle;
  sel_producer_domain : RateDomainHandle;
  sel_consumer_domain : RateDomainHandle;
  sel_horizon : CrossRateSelectionHorizon;
  sel_consumer_reference_index : nat;
  sel_consumer_release_sequence : Z;
  sel_consumer_substep_ordinal : Z;
  sel_producer_reference_index : option nat;
  sel_producer_release_sequence : option Z;
  sel_producer_substep_ordinal : option Z;
  sel_source_cycle_offset : Z;
  sel_age_ns : Z;
  sel_provenance : CrossRateSampleProvenance;
  sel_held : bool;
  sel_freshness : CrossRateFreshness
}.

Record CompiledCrossRateChannel : Set := mkChannel {
  ccc_channel : CrossRateChannelHandle;
  ccc_name : list Z;
  ccc_registration_index : nat;
  ccc_producer : PhaseHandle;
  ccc_consumer : PhaseHandle;
  ccc_producer_domain : RateDomainHandle;
  ccc_consumer_domain : RateDomainHandle;
  ccc_producer_compiled_phase_index : nat;
  ccc_consumer_compiled_phase_index : nat;
  ccc_payload_size : Z;
  ccc_mode : CrossRateMode;
  ccc_maximum_age_ns : Z;
  ccc_first_selection_index : nat;
  ccc_selection_count : nat;
  ccc_snapshot_slot_count : nat;
  ccc_snapshot_bytes : Z;
  ccc_producer_device : EndpointSelector;
  ccc_consumer_device : EndpointSelector;
  ccc_producer_device_backend : Z;
  ccc_consumer_device_backend : Z;
  ccc_producer_device_buffer : Z;
  ccc_consumer_device_buffer : Z;
  ccc_producer_device_base_offset : Z;
  ccc_consumer_device_base_offset : Z;
  ccc_producer_device_slot_count : Z;
  ccc_consumer_device_slot_count : Z;
  ccc_producer_timestamp_domain_identity : Z
}.

Record CompiledCrossRatePlan : Set := mkCrossRatePlan {
  cx_channels : list CompiledCrossRateChannel;
  cx_selections : list CompiledCrossRateSelection;
  cx_stores : list SnapshotStore;
  cx_device_endpoints : list CrossRateDeviceEndpoint;
  cx_device_endpoint_index_by_channel : list (option nat)
}.

Definition empty_cross_rate_plan : CompiledCrossRatePlan := mkCrossRatePlan [] [] [] [] [].

Record CrossRateCompileDiagnostic : Set := mkCrossRateDiagnostic {
  xdg_status : Status;
  xdg_message : option string
}.

Definition cross_error (s : Status) (message : string) : CrossRateCompileDiagnostic :=
  mkCrossRateDiagnostic s (Some message).

(** ** Helpers *)

Definition checked_age (supercycle producer_time consumer_time : Z) (prior_cycle : bool) : option Z :=
  if negb prior_cycle then
    if consumer_time <? producer_time then None else Some (u64 (consumer_time - producer_time))
  else
    let prior_tail := u64 (supercycle - producer_time) in
    if u64_max - prior_tail <? consumer_time then None else Some (u64 (prior_tail + consumer_time)).

Definition channel_name_valid (name : list Z) : bool :=
  negb (Nat.eqb (length name) 0) && (length name <? cross_rate_channel_name_capacity)%nat &&
  forallb name_character name.

(** [SourceKey]: where a sample comes from, relative to a target cycle. *)
Definition source_key (selection : CompiledCrossRateSelection) (target_cycle : Z)
    : CrossRateSampleProvenance * option nat * Z :=
  (sel_provenance selection, sel_producer_reference_index selection,
   target_cycle + sel_source_cycle_offset selection).

(** [std::lower_bound] on an ascending vector. *)
Definition lower_bound (l : list nat) (x : nat) : nat :=
  from_option fst (length l) (list_find (fun y => x <= y)%nat l).

Definition snapshot_slots (slot_counts : list nat) (index : nat) : nat :=
  match slot_counts with
  | [] => cross_rate_snapshot_slot_count
  | _ :: _ => slot_counts !!! index
  end.

(** ** Device endpoints *)

Definition payload_role_ok (producer : bool) (r : DeviceRatePayloadReference) : bool :=
  match pr_role r with
  | role_output => producer
  | role_input => negb producer
  | role_input_output => true
  | role_other _ => false
  end.

Definition payload_access_ok (producer : bool) (r : DeviceRatePayloadReference) : bool :=
  (pr_access r =? (if producer then RTFW_DEVICE_ACCESS_WRITE else RTFW_DEVICE_ACCESS_READ)) ||
  (pr_access r =? RTFW_DEVICE_ACCESS_READ_WRITE).

Definition buffer_usable (producer : bool) (channel : CrossRateChannelSpec) (s : EndpointSelector)
    (r : DeviceRatePayloadReference) (b : DeviceBufferSource) : bool :=
  negb (span_size (bf_storage b) =? 0) &&
  negb (Z.land (bf_access b)
          (if producer then RTFW_DEVICE_BUFFER_HOST_READ else RTFW_DEVICE_BUFFER_HOST_WRITE) =? 0) &&
  (bf_coherency b =? host_coherent) &&
  negb (bf_byte_granularity b =? 0) && negb (bf_offset_granularity b =? 0) &&
  (xc_payload_size channel mod bf_byte_granularity b =? 0) &&
  (xc_payload_size channel <=? slot_stride_bytes s) &&
  (slot_stride_bytes s mod bf_offset_granularity b =? 0) &&
  (pr_offset r mod bf_offset_granularity b =? 0).

(** Every slot of the endpoint ends within the envelope, the buffer and the
    host storage. *)
Definition slots_fit (channel : CrossRateChannelSpec) (s : EndpointSelector) (p : DeviceRatePhase)
    (r : DeviceRatePayloadReference) (b : DeviceBufferSource) : bool :=
  match checked_multiply (u32 (dp_maximum_in_flight p - 1)) (slot_stride_bytes s) with
  | None => false
  | Some slot_delta =>
      match checked_add (pr_offset r) slot_delta with
      | None => false
      | Some final_offset =>
          match checked_add final_offset (xc_payload_size channel),
                checked_add (pr_offset r) (pr_bytes r) with
          | Some final_end, Some envelope_end =>
              (final_end <=? envelope_end) && (final_end <=? bf_bytes b) &&
              (final_end <=? span_size (bf_storage b))
          | _, _ => false
          end
      end
  end.

(** The endpoint, or [None] for [invalid_config]. *)
Definition compile_device_endpoint (device_plan : option DeviceRatePlan)
    (device_buffers : list DeviceBufferSource) (channel_index : nat)
    (channel : CrossRateChannelSpec) (producer : bool) : option CrossRateDeviceEndpoint :=
  let phase := if producer then xc_producer channel else xc_consumer channel in
  let selector := if producer then xc_producer_device channel else xc_consumer_device channel in
  match device_plan, payload_reference_ordinal selector with
  | Some plan, Some ordinal =>
      if negb (selector_valid selector) then None
      else
        match snd <$> list_find (fun p => dp_phase p = phase) (drp_phases plan) with
        | None => None
        | Some p =>
            if (dp_payload_reference_count p <=? ordinal)%nat || (dp_maximum_in_flight p =? 0)
            then None
            else
              let reference_index :=
                Z.to_nat (u64 (Z.of_nat (dp_first_payload_reference_index p) + Z.of_nat ordinal)) in
              match drp_payload_references plan !! reference_index with
              | None => None
              | Some r =>
                  match snd <$> list_find (fun b => bf_buffer b = pr_buffer r /\ bf_backend b = pr_backend r)
                                  device_buffers with
                  | None => None
                  | Some b =>
                      if payload_role_ok producer r && payload_access_ok producer r &&
                         buffer_usable producer channel selector r b &&
                         slots_fit channel selector p r b
                      then Some {| ep_channel_index := channel_index;
                                   ep_producer := producer;
                                   ep_phase := phase;
                                   ep_backend := pr_backend r;
                                   ep_buffer := pr_buffer r;
                                   ep_reference_kind := pr_kind r;
                                   ep_command_index := pr_command_index r;
                                   ep_command_reference_index := pr_command_reference_index r;
                                   ep_envelope_offset := pr_offset r;
                                   ep_envelope_bytes := pr_bytes r;
                                   ep_slot_stride_bytes := slot_stride_bytes selector;
                                   ep_slot_count := dp_maximum_in_flight p;
                                   ep_timestamp_domain_identity :=
                                     if producer then dp_completion_timestamp_domain_identity p
                                     else cross_rate_runtime_logical_timestamp_domain_identity;
                                   ep_host_storage := bf_storage b |}
                      else None
                  end
              end
        end
  | _, _ => None
  end.

(** ** Bindings *)

Definition cross_binding_valid (graph_owner : Z) (phase_count : nat) (rate_plan : CompiledRatePlan)
    (b : CompiledRateBinding) : bool :=
  phase_in_graph graph_owner phase_count (cb_phase b) &&
  RateDomainHandle_valid (cb_domain b) && (RateDomainHandle_owner (cb_domain b) =? graph_owner) &&
  (RateDomainHandle_index (cb_domain b) <? Z.of_nat (length (pl_domains rate_plan))) &&
  (cb_compiled_phase_index b <? phase_count)%nat.

Fixpoint bind_endpoints (graph_owner : Z) (phase_count : nat) (rate_plan : CompiledRatePlan)
    (index : nat) (bindings : list CompiledRateBinding) (binding_by_phase : list (option nat))
    : CrossRateCompileDiagnostic + list (option nat) :=
  match bindings with
  | [] => inr binding_by_phase
  | b :: rest =>
      let! _ := require (cross_binding_valid graph_owner phase_count rate_plan b &&
                         bool_decide (binding_by_phase !!! phase_position (cb_phase b) = None))
        (cross_error invalid_handle "cross-rate endpoint binding is invalid or duplicated") in
      bind_endpoints graph_owner phase_count rate_plan (S index) rest
        (<[phase_position (cb_phase b) := Some index]> binding_by_phase)
  end.

(** ** Channel validation *)

Record ChannelTotals : Set := mkTotals {
  tot_initial_bytes : Z;
  tot_snapshot_bytes : Z;
  tot_selection_count : Z
}.

Definition channel_shape_valid (c : CrossRateChannelSpec) : bool :=
  channel_name_valid (xc_name c) && bool_decide (xc_mode c = sample_and_hold) &&
  negb (xc_payload_size c =? 0) && (xc_payload_size c <=? cross_rate_payload_capacity) &&
  (Z.of_nat (length (xc_initial_sample c)) =? xc_payload_size c).

Definition selector_partial (s : EndpointSelector) : bool :=
  bool_decide (payload_reference_ordinal s <> None) || negb (slot_stride_bytes s =? 0).

Definition is_device (b : CompiledRateBinding) : bool := bool_decide (cb_phase_kind b = kind_device).

Definition selectors_consistent (c : CrossRateChannelSpec) (p q : CompiledRateBinding) : bool :=
  negb (is_device p && is_device q) &&
  eqb (is_device p) (selector_valid (xc_producer_device c)) &&
  eqb (is_device q) (selector_valid (xc_consumer_device c)) &&
  eqb (selector_partial (xc_producer_device c)) (is_device p) &&
  eqb (selector_partial (xc_consumer_device c)) (is_device q).

Definition releases_of (rate_plan : CompiledRatePlan) (phase : PhaseHandle) : list nat :=
  filter (fun i => rr_phase <$> pl_releases rate_plan !! i = Some phase)
    (seq 0 (length (pl_releases rate_plan))).

(** The checks against the channels registered before. *)
Fixpoint check_earlier (earlier : list CrossRateChannelSpec) (c : CrossRateChannelSpec)
    : CrossRateCompileDiagnostic + unit :=
  match earlier with
  | [] => inr tt
  | e :: rest =>
      let! _ := require (bool_decide (xc_name e <> xc_name c))
        (cross_error invalid_config "cross-rate channel names must be unique") in
      let! _ := require (negb (bool_decide (xc_producer e = xc_producer c) &&
                               bool_decide (xc_consumer e = xc_consumer c)))
        (cross_error invalid_config "duplicate cross-rate semantic edge") in
      check_earlier rest c
  end.

Definition add_storage (slots : nat) (c : CrossRateChannelSpec) (t : ChannelTotals)
    : option (Z * Z) :=
  match checked_add (tot_initial_bytes t) (Z.of_nat (length (xc_initial_sample c))) with
  | None => None
  | Some initial_bytes =>
      if cross_rate_initial_bytes_capacity <? initial_bytes then None
      else
        match checked_multiply (xc_payload_size c) (Z.of_nat slots) with
        | None => None
        | Some channel_snapshot_bytes =>
            match checked_add (tot_snapshot_bytes t) channel_snapshot_bytes with
            | None => None
            | Some snapshot_bytes =>
                if cross_rate_snapshot_bytes_capacity <? snapshot_bytes then None
                else Some (initial_bytes, snapshot_bytes)
            end
        end
  end.

Definition add_selections (consumer_releases : nat) (selection_count : Z) : option Z :=
  if Nat.eqb consumer_releases 0 then None
  else
    match checked_multiply (Z.of_nat consumer_releases) 2 with
    | None => None
    | Some channel_selections =>
        match checked_add selection_count channel_selections with
        | None => None
        | Some total => if cross_rate_selection_capacity <? total then None else Some total
        end
    end.

Section Compile.
Context (graph_owner : Z) (phase_count : nat) (rate_plan : CompiledRatePlan)
        (device_plan : option DeviceRatePlan) (device_buffers : list DeviceBufferSource)
        (slot_counts : list nat).

Definition endpoint_binding (binding_by_phase : list (option nat)) (h : PhaseHandle)
    : option CompiledRateBinding :=
  binding_by_phase !!! phase_position h ≫= fun i => pl_bindings rate_plan !! i.

Definition check_channel (binding_by_phase : list (option nat)) (index : nat)
    (earlier : list CrossRateChannelSpec) (c : CrossRateChannelSpec) (t : ChannelTotals)
    : CrossRateCompileDiagnostic + ChannelTotals :=
  let! _ := require (channel_shape_valid c)
    (cross_error invalid_config
       "cross-rate channel name, mode, payload, or initial sample is invalid") in
  let! _ := require (phase_in_graph graph_owner phase_count (xc_producer c) &&
                     phase_in_graph graph_owner phase_count (xc_consumer c))
    (cross_error invalid_handle "cross-rate channel contains an invalid or foreign endpoint") in
  let! _ := require (bool_decide (xc_producer c <> xc_consumer c))
    (cross_error invalid_config "cross-rate channel endpoints must be distinct") in
  match endpoint_binding binding_by_phase (xc_producer c),
        endpoint_binding binding_by_phase (xc_consumer c) with
  | Some p, Some q =>
      let! _ := require (selectors_consistent c p q)
        (cross_error invalid_config
           "cross-rate device endpoint selector is missing, malformed, or device-to-device") in
      let! _ := require (negb (is_device p || is_device q) ||
                         match compile_device_endpoint device_plan device_buffers index c (is_device p) with
                         | Some _ => true
                         | None => false
                         end)
        (cross_error invalid_config
           "cross-rate device endpoint is inaccessible or conflicts with its admitted payload envelope") in
      let! _ := require (bool_decide (cb_domain p <> cb_domain q))
        (cross_error invalid_config "cross-rate endpoints must use different rate domains") in
      let! _ := check_earlier earlier c in
      match add_storage (snapshot_slots slot_counts index) c t with
      | None => inl (cross_error capacity_exceeded "cross-rate aggregate payload storage exceeded")
      | Some (initial_bytes, snapshot_bytes) =>
          match add_selections (length (releases_of rate_plan (xc_consumer c)))
                  (tot_selection_count t) with
          | None => inl (cross_error capacity_exceeded "cross-rate selection capacity exceeded")
          | Some selection_count => inr (mkTotals initial_bytes snapshot_bytes selection_count)
          end
      end
  | _, _ => inl (cross_error invalid_config "cross-rate endpoint is not bound exactly once")
  end.

Fixpoint check_channels (binding_by_phase : list (option nat)) (earlier : list CrossRateChannelSpec)
    (channels : list CrossRateChannelSpec) (t : ChannelTotals)
    : CrossRateCompileDiagnostic + ChannelTotals :=
  match channels with
  | [] => inr t
  | c :: rest =>
      let! t' := check_channel binding_by_phase (length earlier) earlier c t in
      check_channels binding_by_phase (earlier ++ [c]) rest t'
  end.

(** ** Selections *)

(** [steady] selects the repeating horizon.  When the age is not
    representable the producer reference stays invalid and the age zero. *)
Definition make_selection (channel_index : nat) (c : CrossRateChannelSpec)
    (p q : CompiledRateBinding) (producers : list nat) (consumer_index : nat)
    (consumer : ReferenceRelease) (steady : bool) : CompiledCrossRateSelection :=
  let position := lower_bound producers consumer_index in
  let has_in_cycle := negb (Nat.eqb position 0) in
  let source_index := if has_in_cycle then producers !!! (position - 1)%nat
                      else producers !!! (length producers - 1)%nat in
  let use_initial := negb steady && negb has_in_cycle in
  let source := pl_releases rate_plan !! source_index in
  let source_time := from_option rr_release_time_ns 0 source in
  let age := checked_age (supercycle_ns rate_plan) source_time (rr_release_time_ns consumer)
               (negb has_in_cycle) in
  let age_ns := if use_initial then rr_release_time_ns consumer else default 0 age in
  {| sel_channel := CrossRateChannelHandle_make graph_owner (u32 (Z.of_nat channel_index));
     sel_channel_registration_index := channel_index;
     sel_producer := xc_producer c;
     sel_consumer := xc_consumer c;
     sel_producer_domain := cb_domain p;
     sel_consumer_domain := cb_domain q;
     sel_horizon := if steady then repeating_supercycle else first_supercycle;
     sel_consumer_reference_index := consumer_index;
     sel_consumer_release_sequence := rr_domain_release_sequence consumer;
     sel_consumer_substep_ordinal := rr_substep_ordinal consumer;
     sel_producer_reference_index :=
       if use_initial then None else match age with Some _ => Some source_index | None => None end;
     sel_producer_release_sequence :=
       if use_initial then None else rr_domain_release_sequence <$> source;
     sel_producer_substep_ordinal :=
       if use_initial then None else rr_substep_ordinal <$> source;
     sel_source_cycle_offset := if use_initial || has_in_cycle then 0 else -1;
     sel_age_ns := age_ns;
     sel_provenance := if use_initial then initial_sample else produced;
     sel_held := false;
     sel_freshness :=
       if (xc_maximum_age_ns c =? u64_max) || (age_ns <=? xc_maximum_age_ns c) then fresh else stale |}.

Definition set_held (s : CompiledCrossRateSelection) (held : bool) : CompiledCrossRateSelection :=
  {| sel_channel := sel_channel s;
     sel_channel_registration_index := sel_channel_registration_index s;
     sel_producer := sel_producer s;
     sel_consumer := sel_consumer s;
     sel_producer_domain := sel_producer_domain s;
     sel_consumer_domain := sel_consumer_domain s;
     sel_horizon := sel_horizon s;
     sel_consumer_reference_index := sel_consumer_reference_index s;
     sel_consumer_release_sequence := sel_consumer_release_sequence s;
     sel_consumer_substep_ordinal := sel_consumer_substep_ordinal s;
     sel_producer_reference_index := sel_producer_reference_index s;
     sel_producer_release_sequence := sel_producer_release_sequence s;
     sel_producer_substep_ordinal := sel_producer_substep_ordinal s;
     sel_source_cycle_offset := sel_source_cycle_offset s;
     sel_age_ns := sel_age_ns s;
     sel_provenance := sel_provenance s;
     sel_held := held;
     sel_freshness := sel_freshness s |}.

(** The selections of one consumer release, refused when the age of the
    produced sample is not representable. *)
Definition select_release (channel_index : nat) (c : CrossRateChannelSpec)
    (p q : CompiledRateBinding) (producers : list nat) (consumer_index : nat)
    : CrossRateCompileDiagnostic + list (CompiledCrossRateSelection * CompiledCrossRateSelection) :=
  match pl_releases rate_plan !! consumer_index with
  | None => inr []
  | Some consumer =>
      let first := make_selection channel_index c p q producers consumer_index consumer false in
      let repeating := make_selection channel_index c p q producers consumer_index consumer true in
      let has_in_cycle := negb (Nat.eqb (lower_bound producers consumer_index) 0) in
      let! _ := require (bool_decide (sel_producer_reference_index
                                        (if has_in_cycle then first else repeating) <> None))
        (cross_error capacity_exceeded "cross-rate freshness age is not representable") in
      inr [(first, repeating)]
  end.

(** The two passes that set [held]. *)
Definition mark_first (first : list CompiledCrossRateSelection) : list CompiledCrossRateSelection :=
  imap (fun index s =>
          match index with
          | O => s
          | S previous =>
              set_held s (bool_decide (Some (source_key s 0) =
                                       (fun r => source_key r 0) <$> first !! previous))
          end) first.

Definition mark_repeating (repeating : list CompiledCrossRateSelection)
    : list CompiledCrossRateSelection :=
  imap (fun index s =>
          let previous := match index with
                          | O => (fun r => source_key r (-1)) <$> last repeating
                          | S i => (fun r => source_key r 0) <$> repeating !! i
                          end in
          set_held s (bool_decide (Some (source_key s 0) = previous))) repeating.

(** ** The candidate plan *)

Definition endpoints_overlap (prior e : CrossRateDeviceEndpoint) (endpoint_end : Z) : bool :=
  (ep_buffer prior =? ep_buffer e) &&
  match checked_add (ep_envelope_offset prior) (ep_envelope_bytes prior) with
  | None => true
  | Some prior_end =>
      (ep_envelope_offset e <? prior_end) && (ep_envelope_offset prior <? endpoint_end)
  end.

Definition admit_endpoint (channel_index : nat) (c : CrossRateChannelSpec)
    (p q : CompiledRateBinding) (endpoints : list CrossRateDeviceEndpoint)
    : CrossRateCompileDiagnostic + option CrossRateDeviceEndpoint :=
  if is_device p || is_device q then
    match compile_device_endpoint device_plan device_buffers channel_index c (is_device p) with
    | None => inl (cross_error invalid_config "cross-rate device endpoint compilation failed")
    | Some e =>
        match checked_add (ep_envelope_offset e) (ep_envelope_bytes e) with
        | None =>
            inl (cross_error capacity_exceeded "cross-rate device endpoint envelope overflowed")
        | Some endpoint_end =>
            let! _ := require (negb (existsb (fun prior => endpoints_overlap prior e endpoint_end) endpoints))
              (cross_error invalid_config "cross-rate device endpoint envelopes overlap") in
            inr (Some e)
        end
    end
  else inr None.

Definition describe_channel (channel_index first_selection_index : nat) (c : CrossRateChannelSpec)
    (p q : CompiledRateBinding) (consumer_releases : nat) (snapshot_bytes : Z)
    (endpoint : option CrossRateDeviceEndpoint) : CompiledCrossRateChannel :=
  let producer_side {A} (f : CrossRateDeviceEndpoint -> A) (d : A) :=
    match endpoint with Some e => if ep_producer e then f e else d | None => d end in
  let consumer_side {A} (f : CrossRateDeviceEndpoint -> A) (d : A) :=
    match endpoint with Some e => if ep_producer e then d else f e | None => d end in
  {| ccc_channel := CrossRateChannelHandle_make graph_owner (u32 (Z.of_nat channel_index));
     ccc_name := xc_name c ++ replicate (cross_rate_channel_name_capacity - length (xc_name c)) 0;
     ccc_registration_index := channel_index;
     ccc_producer := xc_producer c;
     ccc_consumer := xc_consumer c;
     ccc_producer_domain := cb_domain p;
     ccc_consumer_domain := cb_domain q;
     ccc_producer_compiled_phase_index := cb_compiled_phase_index p;
     ccc_consumer_compiled_phase_index := cb_compiled_phase_index q;
     ccc_payload_size := xc_payload_size c;
     ccc_mode := xc_mode c;
     ccc_maximum_age_ns := xc_maximum_age_ns c;
     ccc_first_selection_index := first_selection_index;
     ccc_selection_count := consumer_releases * 2;
     ccc_snapshot_slot_count := snapshot_slots slot_counts channel_index;
     ccc_snapshot_bytes := snapshot_bytes;
     ccc_producer_device := xc_producer_device c;
     ccc_consumer_device := xc_consumer_device c;
     ccc_producer_device_backend := producer_side ep_backend invalid_device_handle;
     ccc_consumer_device_backend := consumer_side ep_backend invalid_device_handle;
     ccc_producer_device_buffer := producer_side ep_buffer invalid_device_handle;
     ccc_consumer_device_buffer := consumer_side ep_buffer invalid_device_handle;
     ccc_producer_device_base_offset := producer_side ep_envelope_offset 0;
     ccc_consumer_device_base_offset := consumer_side ep_envelope_offset 0;
     ccc_producer_device_slot_count := producer_side ep_slot_count 0;
     ccc_consumer_device_slot_count := consumer_side ep_slot_count 0;
     ccc_producer_timestamp_domain_identity :=
       producer_side ep_timestamp_domain_identity
         cross_rate_runtime_logical_timestamp_domain_identity |}.

Definition compile_channel (binding_by_phase : list (option nat)) (channel_index : nat)
    (c : CrossRateChannelSpec) (plan : CompiledCrossRatePlan)
    : CrossRateCompileDiagnostic + CompiledCrossRatePlan :=
  match endpoint_binding binding_by_phase (xc_producer c),
        endpoint_binding binding_by_phase (xc_consumer c) with
  | Some p, Some q =>
      let! endpoint := admit_endpoint channel_index c p q (cx_device_endpoints plan) in
      let producers := releases_of rate_plan (xc_producer c) in
      let consumers := releases_of rate_plan (xc_consumer c) in
      let! _ := require (negb (Nat.eqb (length producers) 0) && negb (Nat.eqb (length consumers) 0))
        (cross_error invalid_config "cross-rate endpoint has no reference release") in
      let! pairs := append_loop (select_release channel_index c p q producers) consumers in
      let first := mark_first pairs.*1 in
      let repeating := mark_repeating pairs.*2 in
      match checked_multiply (xc_payload_size c)
              (Z.of_nat (snapshot_slots slot_counts channel_index)) with
      | None =>
          inl (cross_error capacity_exceeded "cross-rate snapshot size is not representable")
      | Some snapshot_bytes =>
          match create (Z.to_nat (xc_payload_size c)) (snapshot_slots slot_counts channel_index)
                  empty_store with
          | (ok, store) =>
              inr {| cx_channels := cx_channels plan ++
                       [describe_channel channel_index (length (cx_selections plan)) c p q
                          (length first) snapshot_bytes endpoint];
                     cx_selections := cx_selections plan ++
                       concat (zip_with (fun f r => [f; r]) first repeating);
                     cx_stores := cx_stores plan ++ [store];
                     cx_device_endpoints := cx_device_endpoints plan ++ option_list endpoint;
                     cx_device_endpoint_index_by_channel :=
                       match endpoint with
                       | Some _ => <[channel_index := Some (length (cx_device_endpoints plan))]>
                                     (cx_device_endpoint_index_by_channel plan)
                       | None => cx_device_endpoint_index_by_channel plan
                       end |}
          | (status, _) =>
              inl (cross_error status "cross-rate snapshot store construction failed")
          end
      end
  | _, _ => inl (cross_error invalid_config "cross-rate endpoint is not bound exactly once")
  end.

Fixpoint compile_channels (binding_by_phase : list (option nat)) (index : nat)
    (channels : list CrossRateChannelSpec) (plan : CompiledCrossRatePlan)
    : CrossRateCompileDiagnostic + CompiledCrossRatePlan :=
  match channels with
  | [] => inr plan
  | c :: rest =>
      let! plan' := compile_channel binding_by_phase index c plan in
      compile_channels binding_by_phase (S index) rest plan'
  end.

Definition compile_cross_rate (channels : list CrossRateChannelSpec)
    : CrossRateCompileDiagnostic + CompiledCrossRatePlan :=
  let! _ := require (negb (Nat.eqb (length (pl_domains rate_plan)) 0))
    (cross_error invalid_config "cross-rate channels require an explicit rate model") in
  let! _ := require ((length channels <=? cross_rate_channel_capacity)%nat &&
                     Nat.eqb (length (pl_bindings rate_plan)) phase_count)
    (cross_error capacity_exceeded "cross-rate channel or binding capacity exceeded") in
  let! binding_by_phase := bind_endpoints graph_owner phase_count rate_plan 0
                             (pl_bindings rate_plan) (replicate phase_count None) in
  let! _ := check_channels binding_by_phase [] channels (mkTotals 0 0 0) in
  compile_channels binding_by_phase 0 channels
    {| cx_channels := [];
       cx_selections := [];
       cx_stores := [];
       cx_device_endpoints := [];
       cx_device_endpoint_index_by_channel :=
         if existsb (fun c => selector_valid (xc_producer_device c) ||
                              selector_valid (xc_consumer_device c)) channels
         then replicate (length channels) None else [] |}.

(** The diagnostic after the call and the output plan after it. *)
Definition compile_cross_rate_data (channels : list CrossRateChannelSpec)
    (output : CompiledCrossRatePlan) : CrossRateCompileDiagnostic * CompiledCrossRatePlan :=
  if (negb (Nat.eqb (length slot_counts) 0) && negb (Nat.eqb (length slot_counts) (length channels))) ||
     existsb (fun n => negb (Nat.eqb n 2) && negb (Nat.eqb n 4)) slot_counts
  then (cross_error invalid_argument "cross-rate snapshot slot counts are invalid", output)
  else
    match channels with
    | [] => (mkCrossRateDiagnostic ok None, empty_cross_rate_plan)
    | _ :: _ =>
        match compile_cross_rate channels with
        | inl d => (d, output)
        | inr plan => (mkCrossRateDiagnostic ok None, plan)
        end
    end.
End Compile.
