(* ===== verification/CrossRateSelections.v ===== *)
(** * Which sample a consumer release reads

    The selections compiled for one channel, related to the timeline obtained by
    repeating the supercycle: release [j] of cycle [m] is the pair [(m, j)], and
    a consumer reads the latest earlier release of the producer, or the initial
    sample when there is none. *)

From stdpp Require Import base list numbers sorting sets strings.
From Stdlib Require Import ZArith Lia Bool.
From S2P Require Import Prelude Handles RateTimeline SnapshotStore CrossRateTypes CrossRateData.

Local Open Scope Z_scope.

(** ** The unrolled timeline *)

Definition before (a b : Z * nat) : Prop := a.1 < b.1 \/ (a.1 = b.1 /\ (a.2 < b.2)%nat).

(** [g] is the latest release of the producer before [x]. *)
Definition latest (producers : list nat) (x g : Z * nat) : Prop :=
  0 <= g.1 /\ g.2 ∈ producers /\ before g x /\
  forall h, 0 <= h.1 -> h.2 ∈ producers -> before h x -> h = g \/ before h g.

Definition source_of (producers : list nat) (x : Z * nat) : option (Z * nat) :=
  match last (filter (fun y => y < x.2)%nat producers) with
  | Some j => Some (x.1, j)
  | None => if x.1 =? 0 then None else pair (x.1 - 1) <$> last producers
  end.

Definition ascending (l : list nat) : Prop := StronglySorted lt l.

Lemma last_greatest l y : ascending l -> last l = Some y -> y ∈ l /\ forall z, z ∈ l -> (z <= y)%nat.
Proof.
  induction 1 as [|a l Hl IH Ha]; [done|]. rewrite last_cons. destruct (last l) as [b|] eqn:E.
  - intros [= ->]. destruct (IH eq_refl) as [Hin Hge]. split; [by right|].
    intros z [->|Hz]%elem_of_cons; [|by apply Hge]. rewrite Forall_forall in Ha.
    apply Ha in Hin. lia.
  - apply last_None in E as ->. intros [= ->]. split; [by left|]. intros z Hz%list_elem_of_singleton. lia.
Qed.

Lemma ascending_filter (P : nat -> Prop) `{!forall x, Decision (P x)} l : ascending l -> ascending (filter P l).
Proof.
  induction 1 as [|a l Hl IH Ha]; [constructor|]. rewrite filter_cons. case_decide; [|done].
  constructor; [done|]. apply Forall_forall. intros z [_ Hz]%list_elem_of_filter.
  rewrite Forall_forall in Ha. by apply Ha.
Qed.

Lemma ascending_releases plan ph : ascending (releases_of plan ph).
Proof. apply ascending_filter, StronglySorted_seq. Qed.

Lemma source_of_latest producers x g : ascending producers -> 0 <= x.1 ->
  source_of producers x = Some g <-> latest producers x g.
Proof.
  intros Hs Hn. destruct x as [n x], g as [m j]. unfold source_of, latest, before. cbn [fst snd] in *.
  destruct (last (filter (fun y => y < x)%nat producers)) as [k|] eqn:E.
  - apply last_greatest in E as [[Hk Hin]%list_elem_of_filter Hmax]; [|by apply ascending_filter].
    split.
    + intros [= <- <-]. split_and!; [done|done|lia|]. intros [a b] Ha Hb Hbef. cbn [fst snd] in *.
      destruct (decide (a < n)) as [?|?]; [right; lia|]. assert (a = n) as -> by lia.
      assert (Hbk : (b <= k)%nat) by (apply Hmax, list_elem_of_filter; split; [lia|done]).
      destruct (decide (b = k)) as [->|]; [by left|right; lia].
    + intros (Hm & Hj & Hb & Hlast). destruct (Hlast (n, k)) as [E|H]; [done|done|cbn; lia|by rewrite E|].
      cbn [fst snd] in H. exfalso. assert (m = n /\ (k < j < x)%nat) as [-> Hlt] by lia.
      assert ((j <= k)%nat) by (apply Hmax, list_elem_of_filter; split; [lia|done]). lia.
  - apply last_None in E.
    assert (Hno : forall y, y ∈ producers -> (x <= y)%nat).
    { intros y Hy. destruct (decide (x <= y)%nat); [done|].
      assert (Hin : y ∈ filter (fun y => y < x)%nat producers) by (apply list_elem_of_filter; split; [lia|done]).
      rewrite E in Hin. by apply elem_of_nil in Hin. }
    destruct (Z.eqb_spec n 0) as [->|Hne].
    { split; [done|]. intros (Hm & Hj & Hb & _). apply Hno in Hj. lia. }
    destruct (last producers) as [k|] eqn:El; simpl.
    + apply last_greatest in El as [Hin Hmax]; [|done]. split.
      * intros [= <- <-]. split_and!; [lia|done|lia|]. intros [a b] Ha Hb Hbef. cbn [fst snd] in *.
        pose proof (Hno b Hb). pose proof (Hmax b Hb). assert (a < n) by lia.
        destruct (decide (a = n - 1 /\ b = k)) as [[-> ->]|]; [by left|right; lia].
      * intros (Hm & Hj & Hb & Hlast). pose proof (Hno j Hj). pose proof (Hmax j Hj).
        destruct (Hlast (n - 1, k)) as [E'|H']; [cbn; lia|done|cbn; lia|by rewrite E'|].
        cbn [fst snd] in H'. lia.
    + apply last_None in El as ->. split; [done|]. intros (_ & Hj & _). by apply elem_of_nil in Hj.
Qed.

(** ** [lower_bound] *)

Lemma lower_bound_take l x : ascending l -> take (lower_bound l x) l = filter (fun y => y < x)%nat l.
Proof.
  intros Hl. unfold lower_bound. destruct (list_find (fun y => x <= y)%nat l) as [[k y]|] eqn:E.
  - apply list_find_Some in E as (Hk & Hy & Hbefore). simpl.
    rewrite <- (take_drop k l) at 2. rewrite filter_app.
    assert (filter (fun z => z < x)%nat (drop k l) = []) as ->.
    { destruct (filter (fun z => z < x)%nat (drop k l)) as [|z m] eqn:Ef; [done|]. exfalso.
      assert (Hz : z ∈ filter (fun z => z < x)%nat (drop k l)) by (rewrite Ef; by left).
      apply list_elem_of_filter in Hz as [Hzx [i Hi]%list_elem_of_lookup]. rewrite lookup_drop in Hi.
      destruct i as [|i]; [rewrite Nat.add_0_r in Hi; simplify_eq; lia|].
      enough (y < z)%nat by lia. clear -Hl Hk Hi. revert k Hk Hi.
      induction Hl as [|a l Hl IH Ha]; intros [|k] Hk Hi; simplify_eq/=.
      - rewrite Forall_forall in Ha. apply Ha. by eapply list_elem_of_lookup_2.
      - by apply (IH k). }
    rewrite app_nil_r. symmetry.
    assert (Hall : forall z, z ∈ take k l -> (z < x)%nat).
    { intros z [i Hi]%list_elem_of_lookup. apply lookup_take_Some in Hi as [Hi Hlt].
      pose proof (Hbefore i z Hi Hlt). lia. }
    clear -Hall. induction (take k l) as [|a m IH]; [done|].
    rewrite filter_cons, decide_True by (apply Hall; by left). f_equal. apply IH.
    intros z Hz. apply Hall. by right.
  - apply list_find_None in E. simpl. rewrite firstn_all. symmetry. clear Hl.
    induction E as [|a m Ha Hm IH]; [done|]. rewrite filter_cons, decide_True by lia. by f_equal.
Qed.

Lemma last_take {A} (l : list A) k : (0 < k <= length l)%nat -> last (take k l) = l !! (k - 1)%nat.
Proof.
  intros Hk. rewrite last_lookup, length_take. rewrite lookup_take_lt by lia. f_equal. lia.
Qed.

Lemma lower_bound_last l x : ascending l ->
  last (filter (fun y => y < x)%nat l) =
    if Nat.eqb (lower_bound l x) 0 then None else l !! (lower_bound l x - 1)%nat.
Proof.
  intros Hl. rewrite <- lower_bound_take by done.
  destruct (Nat.eqb_spec (lower_bound l x) 0) as [->|Hne]; [done|]. apply last_take.
  assert (lower_bound l x <= length l)%nat; [|lia]. unfold lower_bound.
  destruct (list_find _ l) as [[k y]|] eqn:E; simpl; [|done].
  apply list_find_Some in E as (Hk & _). apply lookup_lt_Some in Hk. lia.
Qed.

Lemma bind_singletons {A B} (f : A -> B) l : (l ≫= fun x => [f x]) = f <$> l.
Proof. induction l as [|x l IH]; csimpl; [done|]. by rewrite IH. Qed.

(** ** One selection *)

(** The release a selection names in cycle [n]. *)
Definition reads (s : CompiledCrossRateSelection) (n : Z) : option (Z * nat) :=
  match sel_provenance s with
  | initial_sample => None
  | produced => pair (n + sel_source_cycle_offset s) <$> sel_producer_reference_index s
  end.

Lemma source_key_produced s t n m :
  sel_provenance s = produced -> sel_provenance t = produced ->
  sel_producer_reference_index s <> None -> sel_producer_reference_index t <> None ->
  source_key s n = source_key t m <-> reads s n = reads t m.
Proof.
  intros Es Et Hs Ht. unfold source_key, reads. rewrite Es, Et.
  destruct (sel_producer_reference_index s) as [i|]; [|done].
  destruct (sel_producer_reference_index t) as [j|]; [|done]. simpl. split; intros H; injection H; congruence.
Qed.

Lemma reads_shift s n d : reads s (d + n) = (fun g => (g.1 + n, g.2)) <$> reads s d.
Proof.
  unfold reads. destruct (sel_provenance s); [done|].
  destruct (sel_producer_reference_index s); [|done]. cbn. do 2 f_equal. lia.
Qed.

(** A selection names a producer release exactly when its sample is produced. *)
Definition keyed (s : CompiledCrossRateSelection) : Prop :=
  (sel_provenance s = initial_sample /\ sel_producer_reference_index s = None /\
   sel_source_cycle_offset s = 0) \/
  (sel_provenance s = produced /\ sel_producer_reference_index s <> None).

Lemma source_key_same s t n :
  keyed s -> keyed t -> source_key s n = source_key t n <-> reads s n = reads t n.
Proof.
  intros [(S1 & S2 & S3)|[S1 S2]] [(T1 & T2 & T3)|[T1 T2]]; [| | |by apply source_key_produced];
    unfold source_key, reads; rewrite S1, T1.
  - by rewrite S2, T2, S3, T3.
  - destruct (sel_producer_reference_index t); [|done]. split; intros E; discriminate E.
  - destruct (sel_producer_reference_index s); [|done]. split; intros E; discriminate E.
Qed.

Section Selection.
Context (owner : Z) (plan : CompiledRatePlan).
Context (Htimes : forall i j r r', (i <= j)%nat -> pl_releases plan !! i = Some r ->
           pl_releases plan !! j = Some r' -> rr_release_time_ns r <= rr_release_time_ns r').
Context (Hcycle : forall i r, pl_releases plan !! i = Some r ->
           0 <= rr_release_time_ns r < supercycle_ns plan).
Context (Hsuper : supercycle_ns plan <= u64_max).

Definition time_of (i : nat) : Z := from_option rr_release_time_ns 0 (pl_releases plan !! i).

(** The time of a release of the unrolled timeline. *)
Definition absolute_time (g : Z * nat) : Z := g.1 * supercycle_ns plan + time_of g.2.

Context (k : nat) (c : CrossRateChannelSpec) (p q : CompiledRateBinding).
Abbreviation producers := (releases_of plan (xc_producer c)).

Lemma releases_of_lookup ph i : i ∈ releases_of plan ph -> exists r, pl_releases plan !! i = Some r /\ rr_phase r = ph.
Proof using Type.
  intros [H _]%list_elem_of_filter. destruct (pl_releases plan !! i) as [r|]; [|done].
  simplify_eq/=. by exists r.
Qed.

(** Selections that passed the representability check read the right source
    and carry its age. *)
Lemma make_selection_reads x r steady n :
  pl_releases plan !! x = Some r -> producers <> [] ->
  0 <= n -> (steady = true <-> 0 < n) ->
  sel_producer_reference_index
    (make_selection owner plan k c p q producers x r (Nat.eqb (lower_bound producers x) 0))
    <> None ->
  let s := make_selection owner plan k c p q producers x r steady in
  reads s n = source_of producers (n, x) /\
  sel_age_ns s = absolute_time (n, x) - from_option absolute_time 0 (source_of producers (n, x)).
Proof using Htimes Hcycle Hsuper.
  intros Hx Hne Hn Hsteady Hrep s. pose proof (ascending_releases plan (xc_producer c)) as Hasc.
  assert (Htx : time_of x = rr_release_time_ns r) by (unfold time_of; by rewrite Hx).
  pose proof (Hcycle x r Hx) as Hxr.
  assert (Hsrc : source_of producers (n, x) =
    if Nat.eqb (lower_bound producers x) 0
    then if n =? 0 then None else pair (n - 1) <$> last producers
    else pair n <$> producers !! (lower_bound producers x - 1)%nat).
  { unfold source_of. cbn [fst snd]. rewrite (lower_bound_last producers x Hasc).
    destruct (Nat.eqb_spec (lower_bound producers x) 0) as [|Hlb]; [done|].
    destruct (producers !! (lower_bound producers x - 1)%nat) as [j|] eqn:Ej; [done|].
    apply lookup_ge_None in Ej. assert (lower_bound producers x <= length producers)%nat; [|lia].
    unfold lower_bound. destruct (list_find _ producers) as [[i y]|] eqn:E; simpl; [|done].
    apply list_find_Some in E as (Hi & _). apply lookup_lt_Some in Hi. lia. }
  rewrite Hsrc. revert Hrep. unfold reads, s, make_selection.
  destruct (Nat.eqb_spec (lower_bound producers x) 0) as [Hlb|Hlb]; cbn [negb].
  - cbn [sel_producer_reference_index sel_provenance sel_source_cycle_offset sel_age_ns andb orb negb].
    destruct (last producers) as [j|] eqn:Ej; [|by apply last_None in Ej].
    assert (Hjl : producers !!! (length producers - 1)%nat = j).
    { apply list_lookup_total_correct. rewrite <- Ej, last_lookup. f_equal. lia. }
    rewrite Hjl. apply last_greatest in Ej as [Hj _]; [|done].
    destruct (releases_of_lookup _ _ Hj) as (rj & Erj & _). pose proof (Hcycle j rj Erj) as Hjr.
    assert (Htj : time_of j = rr_release_time_ns rj) by (unfold time_of; by rewrite Erj).
    rewrite Erj. cbn [from_option]. unfold checked_age. cbn [negb].
    assert (Htail : u64 (supercycle_ns plan - rr_release_time_ns rj) = supercycle_ns plan - rr_release_time_ns rj)
      by (unfold u64; apply Z.mod_small; unfold u64_max in *; lia).
    rewrite Htail. destruct (Z.ltb_spec (u64_max - (supercycle_ns plan - rr_release_time_ns rj)) (rr_release_time_ns r));
      [done|]. intros _.
    assert (Hage : u64 (supercycle_ns plan - rr_release_time_ns rj + rr_release_time_ns r) =
      supercycle_ns plan - rr_release_time_ns rj + rr_release_time_ns r)
      by (unfold u64; apply Z.mod_small; unfold u64_max in *; lia).
    rewrite Hage. destruct (Z.eqb_spec n 0) as [->|Hn0].
    + assert (steady = false) as -> by (destruct steady; [lia|done]).
      cbn. split; [done|]. unfold absolute_time. cbn. rewrite Htx. lia.
    + assert (steady = true) as -> by (apply Hsteady; lia).
      cbn. split; [by replace (n + -1) with (n - 1) by lia|]. unfold absolute_time. cbn.
      rewrite Htx, Htj. lia.
  - cbn [sel_producer_reference_index sel_provenance sel_source_cycle_offset sel_age_ns andb orb negb].
    rewrite andb_false_r, orb_true_r.
    assert (Hlt : (lower_bound producers x - 1 < length producers)%nat).
    { assert (lower_bound producers x <= length producers)%nat; [|lia].
      unfold lower_bound. destruct (list_find _ producers) as [[i y]|] eqn:E; simpl; [|done].
      apply list_find_Some in E as (Hi & _). apply lookup_lt_Some in Hi. lia. }
    destruct (lookup_lt_is_Some_2 producers _ Hlt) as [j Ej].
    rewrite (list_lookup_total_correct _ _ _ Ej), Ej. cbn.
    assert (Hj : j ∈ filter (fun y => y < x)%nat producers).
    { rewrite <- lower_bound_take by done. apply list_elem_of_lookup.
      exists (lower_bound producers x - 1)%nat. rewrite lookup_take_lt by lia. done. }
    apply list_elem_of_filter in Hj as [Hjx Hj].
    destruct (releases_of_lookup _ _ Hj) as (rj & Erj & _). pose proof (Hcycle j rj Erj) as Hjr.
    assert (Htj : time_of j = rr_release_time_ns rj) by (unfold time_of; by rewrite Erj).
    pose proof (Htimes j x rj r ltac:(lia) Erj Hx) as Hle.
    rewrite Erj. cbn [from_option]. unfold checked_age. cbn [negb].
    rewrite (proj2 (Z.ltb_ge _ _)) by done. intros _. cbn. rewrite Z.add_0_r. split; [done|].
    unfold absolute_time. cbn. rewrite Htx, Htj. unfold u64. rewrite Z.mod_small; [lia|].
    unfold u64_max in *. lia.
Qed.

(** ** All selections of a channel *)

Abbreviation consumers := (releases_of plan (xc_consumer c)).
(** The selection before [held] is set. *)
Definition selection_at (x : nat) (steady : bool) : CompiledCrossRateSelection :=
  make_selection owner plan k c p q producers x
    (default (make_release 0 (mkDomainSpec [] 0 0 0 0 crit_normal false late_fail 0) 0 0 0
                (mkCompiledBinding PhaseHandle_default RateDomainHandle_default kind_cpu 0) 0)
       (pl_releases plan !! x)) steady.

(** The age of the sample the release reads from a producer fits in 64 bits. *)
Definition representable (x : nat) : Prop :=
  sel_producer_reference_index (selection_at x (Nat.eqb (lower_bound producers x) 0)) <> None.

Lemma select_release_inr x out : x ∈ consumers ->
  select_release owner plan k c p q producers x = inr out <->
  representable x /\ out = [(selection_at x false, selection_at x true)].
Proof using Type.
  intros (r & Hr & _)%releases_of_lookup. unfold select_release, representable, selection_at. rewrite Hr.
  cbn [default]. rewrite sum_bind_inr. split.
  - intros ([] & H%require_inr%bool_decide_eq_true & [= <-]). split; [|done].
    by destruct (Nat.eqb (lower_bound producers x) 0).
  - intros [H ->]. exists tt. split; [|done]. apply require_inr, bool_decide_eq_true.
    by destruct (Nat.eqb (lower_bound producers x) 0).
Qed.

Lemma select_releases_inr pairs :
  append_loop (select_release owner plan k c p q producers) consumers = inr pairs ->
  (forall x, x ∈ consumers -> representable x) /\
  pairs = (fun x => (selection_at x false, selection_at x true)) <$> consumers.
Proof using Type.
  intros H. apply (append_loop_inr _ (fun x => [(selection_at x false, selection_at x true)])) in H as [H ->].
  - split.
    + intros x Hx. rewrite Forall_forall in H. pose proof (H x Hx) as E.
      by apply select_release_inr in E as [? _].
    + apply bind_singletons.
  - intros x o Hx. rewrite select_release_inr by done. by intros [_ ->].
Qed.

Context (Hrep : forall x, x ∈ consumers -> representable x) (Hne : producers <> []).

Lemma selection_reads x n : x ∈ consumers -> 0 <= n ->
  let s := selection_at x (negb (n =? 0)) in
  reads s n = source_of producers (n, x) /\
  sel_age_ns s = absolute_time (n, x) - from_option absolute_time 0 (source_of producers (n, x)).
Proof using Htimes Hcycle Hsuper Hrep Hne.
  intros Hx Hn. pose proof (Hrep x Hx) as H. apply releases_of_lookup in Hx as (r & Hr & _).
  unfold representable, selection_at in *. rewrite Hr in H |- *. cbn [default] in *.
  apply make_selection_reads; try done. destruct (Z.eqb_spec n 0); simpl; [split; [done|lia]|split; [lia|done]].
Qed.

(** Steady selections always read a produced sample. *)
Lemma steady_produced x : x ∈ consumers ->
  sel_provenance (selection_at x true) = produced /\ sel_producer_reference_index (selection_at x true) <> None.
Proof using Hrep.
  intros Hx. pose proof (Hrep x Hx) as H. revert H. unfold representable, selection_at, make_selection.
  destruct (Nat.eqb (lower_bound producers x) 0); cbn [sel_producer_reference_index sel_provenance andb negb];
    rewrite ?andb_false_r; done.
Qed.

Lemma first_key x : x ∈ consumers -> keyed (selection_at x false).
Proof using Hrep.
  intros Hx. pose proof (Hrep x Hx) as H. revert H. unfold representable, keyed, selection_at, make_selection.
  destruct (Nat.eqb (lower_bound producers x) 0);
    cbn [sel_producer_reference_index sel_provenance sel_source_cycle_offset andb negb orb];
    rewrite ?andb_false_r; [by left|by right].
Qed.

Lemma source_key_first x y : x ∈ consumers -> y ∈ consumers ->
  source_key (selection_at x false) 0 = source_key (selection_at y false) 0 <->
  reads (selection_at x false) 0 = reads (selection_at y false) 0.
Proof using Hrep. intros Hx Hy. apply source_key_same; by apply first_key. Qed.

(** ** Correctness of the marked selections *)

(** The consumer release before the [a]-th one of cycle [n]. *)
Definition previous_consumer (n : Z) (a : nat) : option (Z * nat) :=
  match a with
  | O => if n =? 0 then None else pair (n - 1) <$> last consumers
  | S b => pair n <$> consumers !! b
  end.

Record selection_correct (a x : nat) (n : Z) (s : CompiledCrossRateSelection) : Prop := {
  sc_channel : sel_channel_registration_index s = k;
  sc_consumer : sel_consumer_reference_index s = x;
  sc_source : forall g, reads s n = Some g <-> latest producers (n, x) g;
  sc_age : forall g, latest producers (n, x) g -> sel_age_ns s = absolute_time (n, x) - absolute_time g;
  sc_initial : (forall g, ~ latest producers (n, x) g) -> sel_age_ns s = absolute_time (n, x);
  sc_fresh : sel_freshness s = fresh <->
    xc_maximum_age_ns c = u64_max \/ sel_age_ns s <= xc_maximum_age_ns c;
  sc_held : sel_held s = true <-> exists y, previous_consumer n a = Some y /\
    forall g, latest producers (n, x) g <-> latest producers y g
}.

Lemma same_source n x y : 0 <= n -> 0 <= y.1 ->
  source_of producers (n, x) = source_of producers y <->
  (forall g, latest producers (n, x) g <-> latest producers y g).
Proof using Type.
  intros Hn Hy. pose proof (ascending_releases plan (xc_producer c)) as Ha.
  pose proof (fun g => source_of_latest producers (n, x) g Ha Hn) as H1.
  pose proof (fun g => source_of_latest producers y g Ha Hy) as H2. split.
  - intros E g. by rewrite <- H1, <- H2, E.
  - intros H. destruct (source_of producers (n, x)) as [g|] eqn:E.
    + symmetry. apply H2, H, H1. done.
    + destruct (source_of producers y) as [g|] eqn:E'; [|done].
      apply H1, H, H2. done.
Qed.

Lemma selection_correct_held a x n (held : bool) : x ∈ consumers -> 0 <= n ->
  (forall y, previous_consumer n a = Some y -> 0 <= y.1) ->
  (held = true <-> exists y, previous_consumer n a = Some y /\
     source_of producers (n, x) = source_of producers y) ->
  selection_correct a x n (set_held (selection_at x (negb (n =? 0))) held).
Proof using Htimes Hcycle Hsuper Hrep Hne.
  intros Hx Hn Hprev Hheld. destruct (selection_reads x n Hx Hn) as [Hr Ha].
  pose proof (ascending_releases plan (xc_producer c)) as Hasc.
  pose proof (fun g => source_of_latest producers (n, x) g Hasc Hn) as Hl.
  constructor; cbn [set_held sel_channel_registration_index sel_consumer_reference_index sel_age_ns
    sel_freshness sel_held]; try done.
  - intros g. rewrite <- Hl, <- Hr. done.
  - intros g Hg. apply Hl in Hg. rewrite Ha, Hg. done.
  - intros Hno. rewrite Ha. destruct (source_of producers (n, x)) as [g|] eqn:E; [|simpl; lia].
    by destruct (Hno g (proj1 (Hl g) eq_refl)).
  - cbn [selection_at make_selection sel_freshness]. destruct (_ || _) eqn:E; split; intros H; try done.
    + apply orb_true_iff in E as [E%Z.eqb_eq|E%Z.leb_le]; [by left|by right].
    + apply orb_false_iff in E as [E1%Z.eqb_neq E2%Z.leb_gt]. destruct H as [H|H]; [done|].
      unfold selection_at, make_selection in H. cbn [sel_age_ns] in H. lia.
  - rewrite Hheld. split; intros (y & Hy & E); exists y; (split; [done|]);
      apply (same_source n x y Hn (Hprev y Hy)); done.
Qed.

Lemma consumers_elem a x : consumers !! a = Some x -> x ∈ consumers.
Proof using Type. apply list_elem_of_lookup_2. Qed.

Lemma mark_first_correct a x : consumers !! a = Some x ->
  exists s, mark_first ((fun x => selection_at x false) <$> consumers) !! a = Some s /\
    selection_correct a x 0 s.
Proof using Htimes Hcycle Hsuper Hrep Hne.
  intros Hx. pose proof (consumers_elem a x Hx) as Hin. unfold mark_first.
  rewrite list_lookup_imap, list_lookup_fmap, Hx. cbn [fmap option_fmap option_map].
  eexists. split; [done|]. destruct a as [|b].
  - apply (selection_correct_held 0 x 0 false Hin); [done|done|]. split; [done|]. intros (y & Hy & _). done.
  - assert (Hb : exists y, consumers !! b = Some y).
    { apply lookup_lt_is_Some_2. apply lookup_lt_Some in Hx. lia. }
    destruct Hb as [y Hy]. apply (selection_correct_held (S b) x 0 _ Hin); [done|..].
    + unfold previous_consumer. rewrite Hy. by intros z [= <-].
    + rewrite bool_decide_eq_true, list_lookup_fmap, Hy. cbn [fmap option_fmap option_map previous_consumer].
      pose proof (consumers_elem b y Hy) as Hyin. rewrite Hy.
      destruct (selection_reads x 0 Hin) as [Hrx _]; [done|]. destruct (selection_reads y 0 Hyin) as [Hry _]; [done|].
      cbn [negb Z.eqb] in Hrx, Hry. split.
      * intros E. apply (inj Some), source_key_first in E; [|done..]. exists (0, y). split; [done|]. congruence.
      * intros (z & [= <-] & E). f_equal. apply source_key_first; [done|done|]. congruence.
Qed.

(** In the second cycle the previous consumer release belongs to the first
    one, whose initial sample no repeated selection names. *)
Lemma wrap_source x y : x ∈ consumers -> y ∈ consumers ->
  source_of producers (1, x) = reads (selection_at y true) (1 + -1) <->
  source_of producers (1, x) = source_of producers (0, y).
Proof using Htimes Hcycle Hsuper Hrep Hne.
  intros Hx Hy. change (1 + -1) with 0. destruct (selection_reads y 1 Hy) as [Hr _]; [lia|].
  cbn [Z.eqb negb] in Hr.
  pose proof (reads_shift (selection_at y true) (-1) 1) as Hshift. change (1 + -1) with 0 in Hshift.
  rewrite Hshift, Hr. unfold source_of. cbn [fst snd].
  destruct (last (filter (fun z => z < y)%nat producers)) as [j|]; cbn; [done|].
  destruct (last producers) as [j|] eqn:El; [|by apply last_None in El]. cbn.
  destruct (last (filter (fun z => z < x)%nat producers)) as [i|]; cbn; split; intros E; discriminate E.
Qed.

Lemma mark_repeating_correct a x n : consumers !! a = Some x -> 0 < n ->
  exists s, mark_repeating ((fun x => selection_at x true) <$> consumers) !! a = Some s /\
    selection_correct a x n s.
Proof using Htimes Hcycle Hsuper Hrep Hne.
  intros Hx Hn. pose proof (consumers_elem a x Hx) as Hin. unfold mark_repeating.
  rewrite list_lookup_imap, list_lookup_fmap, Hx. cbn [fmap option_fmap option_map].
  eexists. split; [done|].
  assert (Hst : forall m, 0 < m -> negb (m =? 0) = true) by (intros m Hm; by rewrite (proj2 (Z.eqb_neq m 0)) by lia).
  assert (Hreads : forall y, y ∈ consumers -> reads (selection_at y true) n = source_of producers (n, y)).
  { intros y Hy. destruct (selection_reads y n Hy) as [Hry _]; [lia|]. by rewrite Hst in Hry. }
  assert (Hinj : forall s t d e, reads s (n + d) = reads t (n + e) <-> reads s d = reads t e).
  { intros s t d e. rewrite !(Z.add_comm n), !reads_shift. split; [|by intros ->].
    destruct (reads s d) as [[g1 g2]|], (reads t e) as [[h1 h2]|]; cbn; try done.
    intros E. injection E as E1 E2. by assert (g1 = h1) as -> by lia; subst. }
  pose proof (steady_produced x Hin) as [Px Ix].
  rewrite <- (Hst n Hn) at 1. destruct a as [|b].
  - destruct (last consumers) as [y|] eqn:El.
    2:{ apply last_None in El. by rewrite El in Hx. }
    assert (Hyin : y ∈ consumers) by (apply list_elem_of_lookup; exists (pred (length consumers)); by rewrite <- last_lookup).
    pose proof (steady_produced y Hyin) as [Py Iy].
    apply (selection_correct_held 0 x n _ Hin); [lia|..]; unfold previous_consumer;
      rewrite (proj2 (Z.eqb_neq n 0)) by lia; rewrite El; cbn [fmap option_fmap option_map].
    + intros z [= <-]. cbn. lia.
    + rewrite fmap_last, El, bool_decide_eq_true. cbn [fmap option_fmap option_map].
      assert (Hkey : Some (source_key (selection_at x true) 0) = Some (source_key (selection_at y true) (-1)) <->
        source_of producers (n, x) = source_of producers (n - 1, y)).
      { transitivity (source_key (selection_at x true) 0 = source_key (selection_at y true) (-1)); [split; congruence|].
        rewrite source_key_produced by done. rewrite <- (Hinj _ _ 0 (-1)), Z.add_0_r.
        rewrite (Hreads x Hin). destruct (decide (1 < n)) as [Hn1|Hn1].
        - destruct (selection_reads y (n - 1) Hyin) as [Hry _]; [lia|]. rewrite Hst in Hry by lia.
          change (n + -1) with (n - 1). by rewrite Hry.
        - assert (n = 1) as -> by lia. apply wrap_source; done. }
      rewrite Hkey. split; [intros E; by exists (n - 1, y)|by intros (z & [= <-] & E)].
  - assert (Hb : exists y, consumers !! b = Some y).
    { apply lookup_lt_is_Some_2. apply lookup_lt_Some in Hx. lia. }
    destruct Hb as [y Hy]. pose proof (consumers_elem b y Hy) as Hyin.
    pose proof (steady_produced y Hyin) as [Py Iy].
    apply (selection_correct_held (S b) x n _ Hin); [lia|..]; unfold previous_consumer; rewrite Hy;
      cbn [fmap option_fmap option_map].
    + intros z [= <-]. cbn. lia.
    + rewrite bool_decide_eq_true, list_lookup_fmap, Hy. cbn [fmap option_fmap option_map].
      transitivity (source_key (selection_at x true) 0 = source_key (selection_at y true) 0); [split; congruence|].
      rewrite source_key_produced by done. rewrite <- (Hinj _ _ 0 0), Z.add_0_r.
      rewrite (Hreads x Hin), (Hreads y Hyin).
      split; [intros E; by exists (n, y)|by intros (z & [= <-] & E)].
Qed.
End Selection.
