(* ===== verification/CrossRateTheorems.v ===== *)
(** * Correctness of [compile_cross_rate_data]

    Against the interface of a reference plan: the selections of an accepted
    plan implement sample-and-hold over the repeated supercycle, its storage is
    within the declared bounds, its device endpoints are confined and disjoint,
    and its channels are well formed. *)

From stdpp Require Import base list numbers sorting sets strings.
From Stdlib Require Import ZArith Lia Bool.
From S2P Require Import Prelude Handles CompiledGraph RateTimeline RateTimelineTheorems SnapshotStore CrossRateTypes RateDispatch RateAdmission RateSlices RateDispatchTheorems RateComposition CrossRateData CrossRateSelections.

Local Open Scope Z_scope.
Local Open Scope rtfw_scope.

(** ** What the reference plan provides *)

Section Times.
Context (plan : CompiledRatePlan) `{!ReferencePlan plan}.

Lemma release_times i j r r' : (i <= j)%nat -> pl_releases plan !! i = Some r ->
  pl_releases plan !! j = Some r' -> rr_release_time_ns r <= rr_release_time_ns r'.
Proof using All.
  intros Hij Hi Hj. destruct (decide (i = j)) as [->|Hne]; [simplify_eq; lia|].
  assert (Hlt : (i < j)%nat) by lia.
  pose proof (sorted_lookup _ _ _ _ _ _ rp_sorted Hlt Hi Hj) as H. unfold release_lt in H. lia.
Qed.

Lemma release_in_cycle i r : pl_releases plan !! i = Some r ->
  0 <= rr_release_time_ns r < supercycle_ns plan.
Proof using All.
  intros Hi. apply list_elem_of_lookup_2, rp_release in Hi as (c & Hc & Hs & ->).
  destruct (rp_period _ _ Hc) as [Hp [q Hq]]. rewrite Hq, Z.div_mul in Hs by lia. rewrite Hq. nia.
Qed.
End Times.

(** ** One channel *)

Definition plan_prefix (a b : CompiledCrossRatePlan) : Prop :=
  cx_channels a `prefix_of` cx_channels b /\ cx_selections a `prefix_of` cx_selections b /\
  cx_stores a `prefix_of` cx_stores b /\ cx_device_endpoints a `prefix_of` cx_device_endpoints b.

#[export] Instance plan_prefix_preorder : PreOrder plan_prefix.
Proof.
  split.
  - intros a. unfold plan_prefix. split_and!; done.
  - intros a b c (H1 & H2 & H3 & H4) (H5 & H6 & H7 & H8). unfold plan_prefix.
    split_and!; by etrans.
Qed.

(** The interleaving of the two horizons. *)
Lemma interleave_lookup {A} (fs rs : list A) a f r :
  fs !! a = Some f -> rs !! a = Some r -> length fs = length rs ->
  concat (zip_with (fun f r => [f; r]) fs rs) !! (2 * a)%nat = Some f /\
  concat (zip_with (fun f r => [f; r]) fs rs) !! (2 * a + 1)%nat = Some r.
Proof.
  revert rs a. induction fs as [|f' fs IH]; intros [|r' rs] a Hf Hr Hl; try done.
  destruct a as [|a]; simplify_eq/=; [done|].
  destruct (IH rs a Hf Hr) as [H1 H2]; [lia|].
  replace (a + S (a + 0))%nat with (S (2 * a)) by lia. split; [done|].
  replace (S (2 * a) + 1)%nat with (S (2 * a + 1)) by lia. done.
Qed.

Lemma length_interleave {A} (fs rs : list A) : length fs = length rs ->
  length (concat (zip_with (fun f r => [f; r]) fs rs)) = (2 * length fs)%nat.
Proof. revert rs. induction fs as [|f fs IH]; intros [|r rs] Hl; simplify_eq/=; [done|]. rewrite IH by lia. lia. Qed.

Section Channels.
Context (owner : Z) (phase_count : nat) (plan : CompiledRatePlan) (dp : option DeviceRatePlan)
        (buffers : list DeviceBufferSource) (slot_counts : list nat) (bound : list (option nat)).

Abbreviation compile_channel' := (compile_channel owner plan dp buffers slot_counts bound).
Abbreviation compile_channels' := (compile_channels owner plan dp buffers slot_counts bound).

(** What one successful call adds. *)
Record channel_added (k : nat) (c : CrossRateChannelSpec) (plan0 plan1 : CompiledCrossRatePlan)
    (p q : CompiledRateBinding) (endpoint : option CrossRateDeviceEndpoint) : Prop := {
  ca_producer : endpoint_binding plan bound (xc_producer c) = Some p;
  ca_consumer : endpoint_binding plan bound (xc_consumer c) = Some q;
  ca_endpoint : admit_endpoint dp buffers k c p q (cx_device_endpoints plan0) = inr endpoint;
  ca_some : releases_of plan (xc_producer c) <> [] /\ releases_of plan (xc_consumer c) <> [];
  ca_representable : forall x, x ∈ releases_of plan (xc_consumer c) -> representable owner plan k c p q x;
  ca_channels : cx_channels plan1 = cx_channels plan0 ++
    [describe_channel owner slot_counts k (length (cx_selections plan0)) c p q
       (length (releases_of plan (xc_consumer c)))
       (u64 (xc_payload_size c * Z.of_nat (snapshot_slots slot_counts k))) endpoint];
  ca_selections : cx_selections plan1 = cx_selections plan0 ++
    concat (zip_with (fun f r => [f; r])
      (mark_first ((fun x => selection_at owner plan k c p q x false) <$> releases_of plan (xc_consumer c)))
      (mark_repeating ((fun x => selection_at owner plan k c p q x true) <$> releases_of plan (xc_consumer c))));
  ca_stores : cx_stores plan1 = cx_stores plan0 ++
    [snd (create (Z.to_nat (xc_payload_size c)) (snapshot_slots slot_counts k) empty_store)];
  ca_endpoints : cx_device_endpoints plan1 = cx_device_endpoints plan0 ++ option_list endpoint
}.

Lemma compile_channel_inr k c plan0 plan1 :
  compile_channel' k c plan0 = inr plan1 ->
  exists p q endpoint, channel_added k c plan0 plan1 p q endpoint.
Proof using Type.
  unfold compile_channel.
  destruct (endpoint_binding plan bound (xc_producer c)) as [p|] eqn:Ep; [|done].
  destruct (endpoint_binding plan bound (xc_consumer c)) as [q|] eqn:Eq; [|done].
  rewrite sum_bind_inr. intros (endpoint & He & H).
  apply sum_bind_inr in H as ([] & Hne%require_inr & H).
  rewrite andb_true_iff, !negb_true_iff, !Nat.eqb_neq, !length_zero_iff_nil in Hne.
  apply sum_bind_inr in H as (pairs & [Hrep ->]%select_releases_inr & H).
  rewrite <- !list_fmap_compose in H.
  destruct (checked_multiply _ _) as [bytes|] eqn:Em; [|done].
  destruct (create _ _ _) as [[] store] eqn:Ec; try done. injection H as <-.
  exists p, q, endpoint. constructor; cbn [cx_channels cx_selections cx_stores cx_device_endpoints]; try done.
  - do 3 f_equal; [|].
    + unfold mark_first. by rewrite length_imap, length_fmap.
    + unfold checked_multiply in Em. destruct (_ && _); [done|]. by injection Em.
  - by rewrite Ec.
Qed.

Lemma channel_added_prefix k c plan0 plan1 p q endpoint :
  channel_added k c plan0 plan1 p q endpoint -> plan_prefix plan0 plan1.
Proof using Type.
  intros H. unfold plan_prefix. rewrite (ca_channels _ _ _ _ _ _ _ H), (ca_selections _ _ _ _ _ _ _ H),
    (ca_stores _ _ _ _ _ _ _ H), (ca_endpoints _ _ _ _ _ _ _ H).
  split_and!; by apply prefix_app_r.
Qed.

Lemma compile_channels_inr cs : forall i plan0 out,
  compile_channels' i cs plan0 = inr out ->
  plan_prefix plan0 out /\ length (cx_channels out) = (length (cx_channels plan0) + length cs)%nat /\
  forall j c, cs !! j = Some c -> exists mid mid' p q endpoint,
    channel_added (i + j) c mid mid' p q endpoint /\ plan_prefix plan0 mid /\ plan_prefix mid' out /\
    length (cx_channels mid) = (length (cx_channels plan0) + j)%nat /\
    length (cx_stores mid) = (length (cx_stores plan0) + j)%nat.
Proof using Type.
  induction cs as [|c cs IH]; intros i plan0 out; simpl.
  { intros [= <-]. split_and!; [done|lia|done]. }
  rewrite sum_bind_inr. intros (plan1 & (p & q & endpoint & Ha)%compile_channel_inr & Hrest).
  apply IH in Hrest as (Hp & Hlen & Hat). pose proof (channel_added_prefix _ _ _ _ _ _ _ Ha) as Hp1.
  assert (L1 : length (cx_channels plan1) = S (length (cx_channels plan0))).
  { rewrite (ca_channels _ _ _ _ _ _ _ Ha), length_app. simpl. lia. }
  assert (L2 : length (cx_stores plan1) = S (length (cx_stores plan0))).
  { rewrite (ca_stores _ _ _ _ _ _ _ Ha), length_app. simpl. lia. }
  split_and!; [by etrans|lia|]. intros [|j] d Hd.
  - simplify_eq/=. exists plan0, plan1, p, q, endpoint. rewrite !Nat.add_0_r. done.
  - destruct (Hat j d Hd) as (mid & mid' & p' & q' & e' & H1 & H2 & H3 & H4 & H5).
    exists mid, mid', p', q', e'. rewrite Nat.add_succ_r. split_and!; [done|by etrans|done|lia|lia].
Qed.
End Channels.

(** ** Validation *)

(** A channel that passed the checks, after [earlier] ones. *)
Record channel_checked (owner : Z) (n : nat) (plan : CompiledRatePlan) (bound : list (option nat))
    (earlier : list CrossRateChannelSpec) (c : CrossRateChannelSpec) : Prop := {
  cc_shape : channel_shape_valid c = true;
  cc_ends : phase_in_graph owner n (xc_producer c) = true /\ phase_in_graph owner n (xc_consumer c) = true;
  cc_distinct : xc_producer c <> xc_consumer c;
  cc_bound : exists p q, endpoint_binding plan bound (xc_producer c) = Some p /\
    endpoint_binding plan bound (xc_consumer c) = Some q /\ selectors_consistent c p q = true /\
    cb_domain p <> cb_domain q;
  cc_names : forall e, e ∈ earlier -> xc_name e <> xc_name c;
  cc_edges : forall e, e ∈ earlier -> ~ (xc_producer e = xc_producer c /\ xc_consumer e = xc_consumer c);
  cc_consumed : releases_of plan (xc_consumer c) <> []
}.

Lemma check_earlier_inr earlier c u : check_earlier earlier c = inr u ->
  (forall e, e ∈ earlier -> xc_name e <> xc_name c) /\
  (forall e, e ∈ earlier -> ~ (xc_producer e = xc_producer c /\ xc_consumer e = xc_consumer c)).
Proof.
  induction earlier as [|e l IH]; simpl; [intros _; split; by intros e ?%elem_of_nil|].
  rewrite sum_bind_inr. intros ([] & Hn%require_inr%bool_decide_eq_true & H).
  apply sum_bind_inr in H as ([] & He%require_inr & H). apply IH in H as [H1 H2].
  rewrite negb_true_iff, andb_false_iff, !bool_decide_eq_false in He.
  split; intros x [->|Hx]%elem_of_cons; [done|by apply H1|tauto|by apply H2].
Qed.

(** The totals of the storage the channels need. *)
Definition initial_total (cs : list CrossRateChannelSpec) : Z :=
  foldr Z.add 0 ((fun c => Z.of_nat (length (xc_initial_sample c))) <$> cs).
Definition snapshot_total (slots : nat -> nat) (cs : list CrossRateChannelSpec) : Z :=
  foldr Z.add 0 (imap (fun i c => xc_payload_size c * Z.of_nat (slots i)) cs).
Definition selection_total (plan : CompiledRatePlan) (cs : list CrossRateChannelSpec) : Z :=
  foldr Z.add 0 ((fun c => 2 * Z.of_nat (length (releases_of plan (xc_consumer c)))) <$> cs).

Definition totals_bounded (t : ChannelTotals) : Prop :=
  0 <= tot_initial_bytes t <= cross_rate_initial_bytes_capacity /\
  0 <= tot_snapshot_bytes t <= cross_rate_snapshot_bytes_capacity /\
  0 <= tot_selection_count t <= cross_rate_selection_capacity.

Lemma shape_payload c : channel_shape_valid c = true ->
  0 < xc_payload_size c <= cross_rate_payload_capacity /\
  xc_payload_size c = Z.of_nat (length (xc_initial_sample c)).
Proof.
  unfold channel_shape_valid. rewrite !andb_true_iff, negb_true_iff, Z.eqb_neq, Z.leb_le, Z.eqb_eq. lia.
Qed.

Lemma add_storage_Some slots c t i s :
  channel_shape_valid c = true -> totals_bounded t -> (slots <= 4)%nat ->
  add_storage slots c t = Some (i, s) ->
  i = tot_initial_bytes t + Z.of_nat (length (xc_initial_sample c)) /\
  s = tot_snapshot_bytes t + xc_payload_size c * Z.of_nat slots /\
  0 <= i <= cross_rate_initial_bytes_capacity /\ 0 <= s <= cross_rate_snapshot_bytes_capacity.
Proof.
  intros [Hp Hl]%shape_payload (Hi & Hs & _) Hslots. unfold add_storage.
  unfold cross_rate_initial_bytes_capacity, cross_rate_snapshot_bytes_capacity, cross_rate_payload_capacity in *.
  destruct (checked_add _ _) as [i'|] eqn:E1; [|done].
  apply checked_add_Some in E1 as [_ ->]; [|unfold is_u64, u64_max; lia..].
  destruct (Z.ltb_spec 1048576 (tot_initial_bytes t + Z.of_nat (length (xc_initial_sample c)))); [done|].
  destruct (checked_multiply _ _) as [b|] eqn:E2; [|done].
  apply checked_multiply_Some in E2 as [_ ->]; [|unfold is_u64, u64_max; lia..].
  destruct (checked_add _ _) as [s'|] eqn:E3; [|done].
  apply checked_add_Some in E3 as [_ ->]; [|unfold is_u64, u64_max; nia..].
  destruct (Z.ltb_spec 2097152 (tot_snapshot_bytes t + xc_payload_size c * Z.of_nat slots)); [done|].
  intros [= <- <-]. split_and!; try done; nia.
Qed.

Lemma add_selections_Some m count total :
  0 <= count <= cross_rate_selection_capacity -> Z.of_nat m <= reference_release_capacity ->
  add_selections m count = Some total ->
  m <> 0%nat /\ total = count + 2 * Z.of_nat m /\ 0 <= total <= cross_rate_selection_capacity.
Proof.
  intros Hc Hm. unfold add_selections, cross_rate_selection_capacity, reference_release_capacity in *.
  destruct (Nat.eqb_spec m 0); [done|].
  destruct (checked_multiply _ _) as [b|] eqn:E2; [|done].
  apply checked_multiply_Some in E2 as [_ ->]; [|unfold is_u64, u64_max; lia..].
  destruct (checked_add _ _) as [s|] eqn:E3; [|done].
  apply checked_add_Some in E3 as [_ ->]; [|unfold is_u64, u64_max; lia..].
  destruct (Z.ltb_spec 262144 (count + Z.of_nat m * 2)); [done|]. intros [= <-]. lia.
Qed.

Section Checks.
Context (owner : Z) (n : nat) (plan : CompiledRatePlan) (dp : option DeviceRatePlan)
        (buffers : list DeviceBufferSource) (slot_counts : list nat) (bound : list (option nat)).
Context (Hcap : Z.of_nat (length (pl_releases plan)) <= reference_release_capacity).

Lemma releases_of_bound ph : Z.of_nat (length (releases_of plan ph)) <= reference_release_capacity.
Proof using Hcap.
  unfold releases_of. pose proof (length_filter (fun i => rr_phase <$> pl_releases plan !! i = Some ph)
    (seq 0 (length (pl_releases plan)))) as H. rewrite length_seq in H. lia.
Qed.

Lemma check_channel_inr k earlier c t t' :
  totals_bounded t -> (snapshot_slots slot_counts k <= 4)%nat ->
  check_channel owner n plan dp buffers slot_counts bound k earlier c t = inr t' ->
  channel_checked owner n plan bound earlier c /\ totals_bounded t' /\
  tot_initial_bytes t' = tot_initial_bytes t + Z.of_nat (length (xc_initial_sample c)) /\
  tot_snapshot_bytes t' =
    tot_snapshot_bytes t + xc_payload_size c * Z.of_nat (snapshot_slots slot_counts k) /\
  tot_selection_count t' =
    tot_selection_count t + 2 * Z.of_nat (length (releases_of plan (xc_consumer c))).
Proof using Hcap.
  intros Ht Hslots. unfold check_channel. rewrite sum_bind_inr.
  intros ([] & Hshape%require_inr & H).
  apply sum_bind_inr in H as ([] & [He1 He2]%require_inr%andb_true_iff & H).
  apply sum_bind_inr in H as ([] & Hdist%require_inr%bool_decide_eq_true & H).
  destruct (endpoint_binding plan bound (xc_producer c)) as [p|] eqn:Ep; [|done].
  destruct (endpoint_binding plan bound (xc_consumer c)) as [q|] eqn:Eq; [|done].
  apply sum_bind_inr in H as ([] & Hsel%require_inr & H).
  apply sum_bind_inr in H as ([] & _ & H).
  apply sum_bind_inr in H as ([] & Hdom%require_inr%bool_decide_eq_true & H).
  apply sum_bind_inr in H as ([] & [Hn He]%check_earlier_inr & H).
  destruct (add_storage _ c t) as [[i s]|] eqn:Es; [|done].
  apply add_storage_Some in Es as (-> & -> & Hi & Hs); [|done..].
  destruct (add_selections _ _) as [m|] eqn:Em; [|done].
  apply add_selections_Some in Em as (Hm & -> & Hm'); [|apply Ht|apply releases_of_bound].
  injection H as <-. split_and!; try done.
  constructor; try done; [by exists p, q|]. by rewrite <- length_zero_iff_nil.
Qed.

Lemma check_channels_inr cs : forall earlier t t',
  totals_bounded t -> (forall k, (k < length earlier + length cs)%nat -> (snapshot_slots slot_counts k <= 4)%nat) ->
  check_channels owner n plan dp buffers slot_counts bound earlier cs t = inr t' ->
  (forall j c, cs !! j = Some c -> channel_checked owner n plan bound (earlier ++ take j cs) c) /\
  totals_bounded t' /\
  tot_initial_bytes t' = tot_initial_bytes t + initial_total cs /\
  tot_snapshot_bytes t' = tot_snapshot_bytes t +
    snapshot_total (fun i => snapshot_slots slot_counts (length earlier + i)) cs /\
  tot_selection_count t' = tot_selection_count t + selection_total plan cs.
Proof using Hcap.
  unfold initial_total, snapshot_total, selection_total.
  induction cs as [|c cs IH]; intros earlier t t' Ht Hslots; csimpl.
  { intros [= <-]. refine (conj _ (conj Ht (conj _ (conj _ _)))); [done|lia..]. }
  rewrite sum_bind_inr. intros (t1 & Hc & Hrest).
  apply check_channel_inr in Hc as (Hc & Ht1 & Hi & Hs & Hm); [|done|apply Hslots; simpl; lia].
  apply IH in Hrest as (Hall & Ht' & Hi' & Hs' & Hm'); [|done|].
  2:{ intros k Hk. apply Hslots. rewrite length_app in Hk. simpl in *. lia. }
  refine (conj _ (conj Ht' (conj _ (conj _ _)))); [|lia| |lia].
  - intros [|j] d Hd; simplify_eq/=; [by rewrite app_nil_r|].
    specialize (Hall j d Hd). by rewrite <- app_assoc in Hall.
  - rewrite Hs', Hs, length_app, Nat.add_0_r, <- Z.add_assoc. f_equal. f_equal. f_equal.
    apply imap_ext. intros i d _. unfold compose. do 3 f_equal. simpl. lia.
Qed.
End Checks.

(** ** Device endpoints *)

Record endpoint_confined (c : CrossRateChannelSpec) (e : CrossRateDeviceEndpoint) (size : Z) : Prop := {
  ec_stride : xc_payload_size c <= ep_slot_stride_bytes e;
  ec_envelope : ep_envelope_offset e + (ep_slot_count e - 1) * ep_slot_stride_bytes e + xc_payload_size c
    <= ep_envelope_offset e + ep_envelope_bytes e;
  ec_buffer : ep_envelope_offset e + (ep_slot_count e - 1) * ep_slot_stride_bytes e + xc_payload_size c <= size;
  ec_storage : ep_envelope_offset e + (ep_slot_count e - 1) * ep_slot_stride_bytes e + xc_payload_size c
    <= span_size (ep_host_storage e)
}.

(** Field widths of the device inputs. *)
Definition device_typed (dp : option DeviceRatePlan) : Prop :=
  forall plan, dp = Some plan ->
    Forall (fun p => is_u32 (dp_maximum_in_flight p)) (drp_phases plan) /\
    Forall (fun r => is_u64 (pr_offset r) /\ is_u64 (pr_bytes r)) (drp_payload_references plan).

Definition channel_typed (c : CrossRateChannelSpec) : Prop :=
  is_u64 (xc_payload_size c) /\ is_u64 (slot_stride_bytes (xc_producer_device c)) /\
  is_u64 (slot_stride_bytes (xc_consumer_device c)).

Lemma slots_fit_true c s p r b :
  is_u64 (xc_payload_size c) -> is_u64 (slot_stride_bytes s) -> 0 < dp_maximum_in_flight p <= u32_max ->
  is_u64 (pr_offset r) -> is_u64 (pr_bytes r) ->
  slots_fit c s p r b = true ->
  let last := pr_offset r + (dp_maximum_in_flight p - 1) * slot_stride_bytes s + xc_payload_size c in
  last <= pr_offset r + pr_bytes r /\ last <= bf_bytes b /\ last <= span_size (bf_storage b).
Proof.
  intros Hc Hs Hp Hr Hb. unfold slots_fit.
  assert (Hu : u32 (dp_maximum_in_flight p - 1) = dp_maximum_in_flight p - 1)
    by (unfold u32; apply Z.mod_small; unfold u32_max in *; lia).
  rewrite Hu. destruct (checked_multiply _ _) as [d|] eqn:E1; [|done].
  apply checked_multiply_Some in E1 as [Hd ->]; [|unfold is_u64, u32_max, u64_max in *; lia|done].
  assert (Hd0 : is_u64 ((dp_maximum_in_flight p - 1) * slot_stride_bytes s)) by (unfold is_u64 in *; nia).
  destruct (checked_add (pr_offset r) _) as [o|] eqn:E2; [|done].
  apply checked_add_Some in E2 as [Ho ->]; [|done..].
  destruct (checked_add _ (xc_payload_size c)) as [f|] eqn:E3; [|done].
  apply checked_add_Some in E3 as [Hf ->]; [|unfold is_u64 in *; lia|done].
  destruct (checked_add (pr_offset r) (pr_bytes r)) as [e|] eqn:E4; [|done].
  apply checked_add_Some in E4 as [He ->]; [|done..].
  rewrite !andb_true_iff, !Z.leb_le. cbv zeta. tauto.
Qed.

Lemma compile_device_endpoint_Some dp buffers k c producer e :
  device_typed dp -> channel_typed c ->
  compile_device_endpoint dp buffers k c producer = Some e ->
  ep_channel_index e = k /\ ep_producer e = producer /\ 0 < ep_slot_count e /\
  is_u64 (ep_envelope_offset e) /\ is_u64 (ep_envelope_bytes e) /\
  exists b, b ∈ buffers /\ bf_buffer b = ep_buffer e /\ bf_backend b = ep_backend e /\
    ep_host_storage e = bf_storage b /\ endpoint_confined c e (bf_bytes b).
Proof.
  intros Hdt (Hc1 & Hc2 & Hc3). unfold compile_device_endpoint.
  set (sel := if producer then xc_producer_device c else xc_consumer_device c).
  assert (Hsel : is_u64 (slot_stride_bytes sel)) by (by destruct producer).
  destruct dp as [plan|]; [|done]. destruct (Hdt plan eq_refl) as [Hph Hrf].
  destruct (payload_reference_ordinal sel) as [ord|]; [|done].
  destruct (selector_valid sel); [|done]. cbn [negb].
  destruct (list_find _ (drp_phases plan)) as [[ip p]|] eqn:Efp; [|done]. cbn [fmap option_fmap option_map snd].
  apply list_find_Some in Efp as (Hip%list_elem_of_lookup_2 & _ & _).
  destruct (_ <=? ord)%nat; [done|]. cbn [orb]. destruct (Z.eqb_spec (dp_maximum_in_flight p) 0) as [|Hm]; [done|].
  destruct (drp_payload_references plan !! _) as [r|] eqn:Er; [|done]. apply list_elem_of_lookup_2 in Er.
  destruct (list_find _ buffers) as [[ib b]|] eqn:Efb; [|done]. cbn [fmap option_fmap option_map snd].
  apply list_find_Some in Efb as (Hib%list_elem_of_lookup_2 & [Eb1 Eb2] & _).
  destruct (_ && slots_fit c sel p r b) eqn:Etest; [|done].
  apply andb_true_iff in Etest as [Eu Efit]. apply andb_true_iff in Eu as [_ Eu].
  rewrite Forall_forall in Hph. pose proof (Hph p Hip) as Hp32.
  rewrite Forall_forall in Hrf. destruct (Hrf r Er) as [Hro Hrb].
  apply slots_fit_true in Efit as (F1 & F2 & F3); [|done|done|unfold is_u32 in *; lia|done|done].
  intros [= <-]. cbn. split_and!; [done|done|unfold is_u32 in *; lia|done..|].
  exists b. split_and!; [done|done|done|done|]. constructor; cbn; [|done|done|done].
  unfold buffer_usable in Eu. rewrite !andb_true_iff, !Z.leb_le in Eu. lia.
Qed.

(** Two endpoints on one buffer with disjoint envelopes. *)
Definition envelopes_disjoint (a b : CrossRateDeviceEndpoint) : Prop :=
  ep_buffer a = ep_buffer b ->
  ep_envelope_offset a + ep_envelope_bytes a <= ep_envelope_offset b \/
  ep_envelope_offset b + ep_envelope_bytes b <= ep_envelope_offset a.

Lemma admit_endpoint_inr dp buffers k c p q prior e :
  device_typed dp -> channel_typed c ->
  Forall (fun a => is_u64 (ep_envelope_offset a) /\ is_u64 (ep_envelope_bytes a)) prior ->
  admit_endpoint dp buffers k c p q prior = inr (Some e) ->
  compile_device_endpoint dp buffers k c (is_device p) = Some e /\
  Forall (fun a => envelopes_disjoint a e) prior.
Proof.
  intros Hdt Hct Hprior. unfold admit_endpoint. destruct (_ || _); [|done].
  destruct (compile_device_endpoint dp buffers k c (is_device p)) as [e'|] eqn:Ee; [|done].
  pose proof (compile_device_endpoint_Some _ _ _ _ _ _ Hdt Hct Ee) as (_ & _ & _ & Ho & Hb & _).
  destruct (checked_add (ep_envelope_offset e') (ep_envelope_bytes e')) as [end_|] eqn:Ea; [|done].
  apply checked_add_Some in Ea as [_ ->]; [|done..].
  rewrite sum_bind_inr. intros ([] & Hno%require_inr%negb_true_iff & [= <-]). split; [done|].
  apply Forall_forall. intros a Ha Hbuf. rewrite Forall_forall in Hprior. destruct (Hprior a Ha) as [Hao Hab].
  assert (Hov : endpoints_overlap a e' (ep_envelope_offset e' + ep_envelope_bytes e') = false).
  { apply not_true_iff_false. intros H. apply not_true_iff_false in Hno. apply Hno, existsb_exists.
    exists a. split; [by apply list_elem_of_In|done]. }
  unfold endpoints_overlap in Hov. rewrite (proj2 (Z.eqb_eq _ _) Hbuf) in Hov. cbn [andb] in Hov.
  destruct (checked_add (ep_envelope_offset a) (ep_envelope_bytes a)) as [ae|] eqn:Eae; [|done].
  apply checked_add_Some in Eae as [_ ->]; [|done..].
  rewrite andb_false_iff, !Z.ltb_ge in Hov. lia.
Qed.

Lemma StronglySorted_snoc {A} (R : A -> A -> Prop) l x :
  StronglySorted R l -> Forall (fun y => R y x) l -> StronglySorted R (l ++ [x]).
Proof.
  induction 1 as [|a l Hl IH Ha]; intros Hx; simpl; [by repeat constructor|].
  apply Forall_cons in Hx as [Hax Hx]. constructor; [by apply IH|].
  apply Forall_app. split; [done|]. by constructor.
Qed.

Definition endpoint_typed (e : CrossRateDeviceEndpoint) : Prop :=
  is_u64 (ep_envelope_offset e) /\ is_u64 (ep_envelope_bytes e).

(** The endpoint belongs to its channel and stays inside its buffer. *)
Definition endpoint_of (buffers : list DeviceBufferSource) (cs : list CrossRateChannelSpec) (off : nat)
    (e : CrossRateDeviceEndpoint) : Prop :=
  exists j c b, cs !! j = Some c /\ ep_channel_index e = (off + j)%nat /\ 0 < ep_slot_count e /\
    b ∈ buffers /\ bf_buffer b = ep_buffer e /\ bf_backend b = ep_backend e /\
    ep_host_storage e = bf_storage b /\ endpoint_confined c e (bf_bytes b).

Lemma compile_channels_endpoints owner plan dp buffers slots bound cs : forall i plan0 out,
  device_typed dp -> Forall channel_typed cs ->
  Forall endpoint_typed (cx_device_endpoints plan0) ->
  StronglySorted envelopes_disjoint (cx_device_endpoints plan0) ->
  compile_channels owner plan dp buffers slots bound i cs plan0 = inr out ->
  StronglySorted envelopes_disjoint (cx_device_endpoints out) /\
  forall e, e ∈ cx_device_endpoints out ->
    e ∈ cx_device_endpoints plan0 \/ endpoint_of buffers cs i e.
Proof.
  induction cs as [|c cs IH]; intros i plan0 out Hdt Hct Htyped Hsorted; simpl.
  { intros [= <-]. split; [done|]. by left. }
  apply Forall_cons in Hct as [Hc Hct]. rewrite sum_bind_inr.
  intros (plan1 & (p & q & endpoint & Ha)%compile_channel_inr & Hrest).
  pose proof (ca_endpoints _ _ _ _ _ _ _ _ _ _ _ _ _ Ha) as He.
  pose proof (ca_endpoint _ _ _ _ _ _ _ _ _ _ _ _ _ Ha) as Hadm.
  assert (Hnew : forall e, endpoint = Some e -> endpoint_typed e /\
    Forall (fun a => envelopes_disjoint a e) (cx_device_endpoints plan0) /\ endpoint_of buffers (c :: cs) i e).
  { intros e ->. apply admit_endpoint_inr in Hadm as [Hce Hdis]; [|done|done|exact Htyped].
    apply compile_device_endpoint_Some in Hce as (Hk & _ & Hn & Ho & Hb & b & Hbin & Hb1 & Hb2 & Hst & Hconf); [|done..].
    split; [done|]. split; [done|]. exists 0%nat, c, b. rewrite Nat.add_0_r. done. }
  destruct (IH (S i) plan1 out Hdt Hct) as [Hs Hall]; [| |done|].
  - rewrite He. apply Forall_app. split; [done|]. destruct endpoint as [e|]; [|constructor].
    constructor; [by apply Hnew|constructor].
  - rewrite He. destruct endpoint as [e|]; simpl; [|by rewrite app_nil_r].
    apply StronglySorted_snoc; [done|by apply Hnew].
  - split; [done|]. intros e Hin. apply Hall in Hin as [Hin|(j & d & b & Hd & Hk & Hrest')].
    + rewrite He in Hin. apply elem_of_app in Hin as [Hin|Hin]; [by left|]. right.
      destruct endpoint as [e'|]; simpl in Hin; [|by apply elem_of_nil in Hin].
      apply list_elem_of_singleton in Hin as ->. by apply Hnew.
    + right. exists (S j), d, b. rewrite Nat.add_succ_r. done.
Qed.

Lemma NoDup_by_order {A B} (f : A -> B) l :
  (forall i j a b, (i < j)%nat -> l !! i = Some a -> l !! j = Some b -> f a <> f b) -> NoDup (f <$> l).
Proof.
  intros H. apply NoDup_alt. intros i j x Hi Hj. rewrite list_lookup_fmap in Hi, Hj.
  destruct (l !! i) as [a|] eqn:Ei; [|done]. destruct (l !! j) as [b|] eqn:Ej; [|done]. simplify_eq/=.
  destruct (Nat.lt_trichotomy i j) as [Hlt|[->|Hlt]]; [|done|].
  - by destruct (H i j a b Hlt Ei Ej).
  - by destruct (H j i b a Hlt Ej Ei).
Qed.

(** ** Claims *)

Section Claims.
Context (owner : Z) (n : nat) (plan : CompiledRatePlan) (dp : option DeviceRatePlan)
        (buffers : list DeviceBufferSource) (slot_counts : list nat)
        (channels : list CrossRateChannelSpec) (output : CompiledCrossRatePlan).

Definition cross_status : Status :=
  xdg_status (fst (compile_cross_rate_data owner n plan dp buffers slot_counts channels output)).
Definition cross_plan : CompiledCrossRatePlan :=
  snd (compile_cross_rate_data owner n plan dp buffers slot_counts channels output).

Lemma cross_failed : fails_with (fun d => xdg_status d <> ok)
  (compile_cross_rate owner n plan dp buffers slot_counts channels).
Proof using Type.
  assert (H1 : forall bs i bp, fails_with (fun d => xdg_status d <> ok) (bind_endpoints owner n plan i bs bp)).
  { induction bs as [|b bs IH]; intros i bp; error_cases. }
  assert (H2 : forall e c, fails_with (fun d => xdg_status d <> ok) (check_earlier e c)).
  { induction e as [|x e IH]; intros c; error_cases. }
  assert (H3 : forall bp cs e t, fails_with (fun d => xdg_status d <> ok)
    (check_channels owner n plan dp buffers slot_counts bp e cs t)).
  { intros bp. induction cs as [|c cs IH]; intros e t; [done|]. simpl. unfold check_channel. error_cases. }
  assert (H4 : forall bp cs i o, fails_with (fun d => xdg_status d <> ok)
    (compile_channels owner plan dp buffers slot_counts bp i cs o)).
  { intros bp. induction cs as [|c cs IH]; intros i o; [done|]. simpl.
    unfold compile_channel, admit_endpoint. error_cases.
    apply fails_with_append_loop. intros x. unfold select_release. error_cases. }
  unfold compile_cross_rate. error_cases.
Qed.

Definition slots_valid : Prop :=
  (slot_counts = [] \/ length slot_counts = length channels) /\
  Forall (fun m => m = 2%nat \/ m = 4%nat) slot_counts.

Lemma cross_cases :
  (cross_status = ok /\ slots_valid /\ channels = [] /\ cross_plan = empty_cross_rate_plan) \/
  (cross_status = ok /\ slots_valid /\ channels <> [] /\
   compile_cross_rate owner n plan dp buffers slot_counts channels = inr cross_plan) \/
  (cross_status <> ok /\ cross_plan = output).
Proof using Type.
  unfold cross_status, cross_plan, compile_cross_rate_data. destruct (_ || _) eqn:E; [by right; right|].
  assert (Hslots : slots_valid).
  { apply orb_false_iff in E as [E1 E2]. split.
    - rewrite andb_false_iff, !negb_false_iff, !Nat.eqb_eq, length_zero_iff_nil in E1. done.
    - apply Forall_forall. intros m Hm. apply not_true_iff_false in E2.
      destruct (decide (m = 2%nat \/ m = 4%nat)) as [?|Hno]; [done|]. destruct E2. apply existsb_exists.
      exists m. split; [by apply list_elem_of_In|]. rewrite andb_true_iff, !negb_true_iff, !Nat.eqb_neq. lia. }
  pose proof cross_failed as Hf. destruct channels as [|c cs] eqn:Ecs; [by left|]. right. rewrite <- Ecs in *.
  destruct (compile_cross_rate _ _ _ _ _ _ _) as [d|out]; cbn in *; [by right|left].
  split_and!; [done|apply Hslots|congruence|done].
Qed.

Lemma slots_le_4 k : slots_valid -> (snapshot_slots slot_counts k <= 4)%nat.
Proof using Type.
  intros [_ H]. unfold snapshot_slots. destruct slot_counts as [|m l] eqn:E; [unfold cross_rate_snapshot_slot_count; lia|].
  rewrite <- E in *. destruct (slot_counts !! k) as [v|] eqn:Ev.
  - rewrite (list_lookup_total_correct _ _ _ Ev). apply list_elem_of_lookup_2 in Ev.
    rewrite Forall_forall in H. destruct (H v Ev); lia.
  - rewrite list_lookup_total_alt, Ev. simpl. lia.
Qed.

(** The stages of an accepted, non-empty set of channels. *)
Lemma cross_ok : ReferencePlan plan -> cross_status = ok -> channels <> [] ->
  exists bound t, slots_valid /\
    check_channels owner n plan dp buffers slot_counts bound [] channels (mkTotals 0 0 0) = inr t /\
    compile_channels owner plan dp buffers slot_counts bound 0 channels
      (mkCrossRatePlan [] [] [] []
         (if existsb (fun c => selector_valid (xc_producer_device c) || selector_valid (xc_consumer_device c)) channels
          then replicate (length channels) None else [])) = inr cross_plan.
Proof using Type.
  intros Hrp Hok Hne. destruct cross_cases as [(_ & _ & ? & _)|[(_ & Hs & _ & H)|[? _]]]; [done| |done].
  unfold compile_cross_rate in H. apply sum_bind_inr in H as (? & _ & H). apply sum_bind_inr in H as (? & _ & H).
  apply sum_bind_inr in H as (bound & _ & H). apply sum_bind_inr in H as (t & Ht & H).
  by exists bound, t.
Qed.

Lemma totals_start : totals_bounded (mkTotals 0 0 0).
Proof using Type. vm_compute. by repeat split. Qed.

(** C7. The selections of an accepted channel implement sample-and-hold over
    the repeated supercycle: the two records of a consumer release, for the
    first and for every later cycle, name the latest earlier release of the
    producer (the initial sample when there is none), carry its exact age,
    are fresh exactly when that age is within the channel's bound, and are
    marked held exactly when the previous consumer release read the same
    source. *)
Theorem cross_rate_selections k c : 
  ReferencePlan plan -> cross_status = ok -> channels !! k = Some c ->
  exists d, cx_channels cross_plan !! k = Some d /\
    ccc_selection_count d = (length (releases_of plan (xc_consumer c)) * 2)%nat /\
    forall a x, releases_of plan (xc_consumer c) !! a = Some x ->
      exists f r,
        cx_selections cross_plan !! (ccc_first_selection_index d + 2 * a)%nat = Some f /\
        cx_selections cross_plan !! (ccc_first_selection_index d + (2 * a + 1))%nat = Some r /\
        selection_correct plan k c a x 0 f /\
        forall cycle, 0 < cycle -> selection_correct plan k c a x cycle r.
Proof using Type.
  intros Hrp Hok Hk. assert (Hne : channels <> []) by (intros E; rewrite E in Hk; done).
  destruct (cross_ok Hrp Hok Hne) as (bound & t & _ & _ & Hc).
  apply compile_channels_inr in Hc as (_ & _ & Hat).
  destruct (Hat k c Hk) as (mid & mid' & p & q & e & Ha & _ & (Hp1 & Hp2 & _) & Hlen & _).
  cbn [Nat.add cx_channels length] in *. eexists. split.
  { eapply prefix_lookup_Some; [|done]. rewrite (ca_channels _ _ _ _ _ _ _ _ _ _ _ _ _ Ha).
    rewrite lookup_app_r, Hlen, Nat.sub_diag by lia. done. }
  split; [done|]. intros a x Hx. cbn [describe_channel ccc_first_selection_index].
  pose proof (ca_representable _ _ _ _ _ _ _ _ _ _ _ _ _ Ha) as Hrep.
  destruct (ca_some _ _ _ _ _ _ _ _ _ _ _ _ _ Ha) as [Hpne _].
  pose proof (release_times plan) as Ht. pose proof (release_in_cycle plan) as Hcy.
  pose proof (proj2 rp_supercycle : supercycle_ns plan <= u64_max) as Hsu.
  destruct (mark_first_correct owner plan Ht Hcy Hsu k c p q Hrep Hpne a x Hx) as (f & Hf & Hfc).
  assert (Hlen2 : forall s, length ((fun x => selection_at owner plan k c p q x s) <$> releases_of plan (xc_consumer c)) =
    length (releases_of plan (xc_consumer c))) by (intros s; apply length_fmap).
  destruct (lookup_lt_is_Some_2 (mark_repeating ((fun x => selection_at owner plan k c p q x true) <$>
    releases_of plan (xc_consumer c))) a) as [r Hr].
  { unfold mark_repeating. rewrite length_imap, Hlen2. by eapply lookup_lt_Some. }
  exists f, r.
  destruct (interleave_lookup _ _ a f r Hf Hr) as [H1 H2].
  { unfold mark_first, mark_repeating. by rewrite !length_imap, !Hlen2. }
  assert (Hsel : forall j s, concat (zip_with (fun f r => [f; r])
      (mark_first ((fun x => selection_at owner plan k c p q x false) <$> releases_of plan (xc_consumer c)))
      (mark_repeating ((fun x => selection_at owner plan k c p q x true) <$> releases_of plan (xc_consumer c)))) !! j = Some s ->
    cx_selections cross_plan !! (length (cx_selections mid) + j)%nat = Some s).
  { intros j s Hj. eapply prefix_lookup_Some; [|done]. rewrite (ca_selections _ _ _ _ _ _ _ _ _ _ _ _ _ Ha).
    rewrite lookup_app_r by lia. by rewrite Nat.add_comm, Nat.add_sub. }
  split_and!; [by apply Hsel|by apply Hsel|done|]. intros cycle Hcycle.
  destruct (mark_repeating_correct owner plan Ht Hcy Hsu k c p q Hrep Hpne a x cycle Hx Hcycle) as (r' & Hr' & Hrc).
  rewrite Hr in Hr'. by injection Hr' as <-.
Qed.

(** An accepted set of channels stays within the storage bounds: initial
    samples, snapshot slots and selection records are each within their
    capacity, and every channel has a fresh snapshot store of its payload size
    and slot count. *)
Theorem cross_rate_storage :
  ReferencePlan plan -> cross_status = ok ->
  initial_total channels <= cross_rate_initial_bytes_capacity /\
  snapshot_total (snapshot_slots slot_counts) channels <= cross_rate_snapshot_bytes_capacity /\
  selection_total plan channels <= cross_rate_selection_capacity /\
  length (cx_channels cross_plan) = length channels /\
  (forall k c, channels !! k = Some c ->
     0 < xc_payload_size c <= cross_rate_payload_capacity /\
     cx_stores cross_plan !! k =
       Some (mkStore (Z.to_nat (xc_payload_size c)) (snapshot_slots slot_counts k) 1 true
               (replicate (snapshot_slots slot_counts k) 0)
               (replicate (Z.to_nat (xc_payload_size c) * snapshot_slots slot_counts k) 0))).
Proof using Type.
  intros Hrp Hok. destruct (decide (channels = [])) as [Hnil|Hne].
  { destruct cross_cases as [(_ & _ & _ & ->)|[(_ & _ & ? & _)|[? _]]]; [|done..].
    rewrite Hnil. vm_compute. split_and!; done. }
  destruct (cross_ok Hrp Hok Hne) as (bound & t & Hslots & Hcheck & Hc).
  pose proof (fun k => slots_le_4 k Hslots) as H4.
  apply check_channels_inr in Hcheck as (Hall & (Ht1 & Ht2 & Ht3) & Hi & Hs & Hm);
    [|apply rp_capacity|apply totals_start|intros j _; apply H4].
  cbn [tot_initial_bytes tot_snapshot_bytes tot_selection_count] in *.
  apply compile_channels_inr in Hc as (_ & Hlen & Hat).
  rewrite Z.add_0_l in Hi, Hs, Hm.
  change (fun i => snapshot_slots slot_counts (length [] + i)) with (snapshot_slots slot_counts) in Hs.
  split_and!; [lia|lia|lia|done|]. intros k c Hk.
  pose proof (shape_payload c (cc_shape _ _ _ _ _ _ (Hall k c Hk))) as [Hp _].
  split; [done|].
  destruct (Hat k c Hk) as (mid & mid' & p & q & e & Ha & _ & (_ & _ & Hp3 & _) & _ & Hl).
  cbn [Nat.add cx_stores length] in *. eapply prefix_lookup_Some; [|done].
  rewrite (ca_stores _ _ _ _ _ _ _ _ _ _ _ _ _ Ha), lookup_app_r, Hl, Nat.sub_diag by lia. cbn [lookup list_lookup].
  f_equal. unfold create.
  assert (Hslot : snapshot_slots slot_counts k = 2%nat \/ snapshot_slots slot_counts k = 4%nat).
  { destruct Hslots as [Hl' Hsl]. unfold snapshot_slots. destruct slot_counts as [|m l] eqn:E; [by left|].
    rewrite <- E in *. destruct (lookup_lt_is_Some_2 slot_counts k) as [v Hv].
    { destruct Hl' as [Hnil| ->]; [by rewrite Hnil in E|]. by eapply lookup_lt_Some. }
    rewrite (list_lookup_total_correct _ _ _ Hv). rewrite Forall_forall in Hsl.
    apply Hsl. by eapply list_elem_of_lookup_2. }
  unfold cross_rate_payload_capacity in Hp.
  rewrite (proj2 (Nat.eqb_neq (Z.to_nat (xc_payload_size c)) 0)) by lia.
  rewrite (proj2 (Nat.eqb_neq (snapshot_slots slot_counts k) 0)) by lia.
  rewrite (proj2 (Z.ltb_ge _ _)); [done|].
  apply Z.div_le_lower_bound; [lia|]. unfold u64_max. nia.
Qed.

(** Every device endpoint of an accepted plan names a buffer of the
    registry and keeps all its slots, one payload each and not overlapping one
    another, inside its envelope, the buffer and the host storage; endpoints
    on one buffer have disjoint envelopes. *)
Theorem cross_rate_device_confined :
  ReferencePlan plan -> device_typed dp -> Forall channel_typed channels -> cross_status = ok ->
  StronglySorted envelopes_disjoint (cx_device_endpoints cross_plan) /\
  (forall e, e ∈ cx_device_endpoints cross_plan -> exists c b,
     channels !! ep_channel_index e = Some c /\ b ∈ buffers /\ bf_buffer b = ep_buffer e /\
     ep_host_storage e = bf_storage b /\
     forall slot, 0 <= slot < ep_slot_count e ->
       let start := ep_envelope_offset e + slot * ep_slot_stride_bytes e in
       start + xc_payload_size c <= ep_envelope_offset e + ep_envelope_bytes e /\
       start + xc_payload_size c <= bf_bytes b /\
       start + xc_payload_size c <= span_size (bf_storage b) /\
       (forall other, slot < other < ep_slot_count e ->
          start + xc_payload_size c <= ep_envelope_offset e + other * ep_slot_stride_bytes e)).
Proof using Type.
  intros Hrp Hdt Hct Hok. destruct (decide (channels = [])) as [Hnil|Hne].
  { destruct cross_cases as [(_ & _ & _ & ->)|[(_ & _ & ? & _)|[? _]]]; [|done..].
    split; [constructor|]. by intros e ?%elem_of_nil. }
  destruct (cross_ok Hrp Hok Hne) as (bound & t & Hslots & Hcheck & Hc).
  apply check_channels_inr in Hcheck as (Hall & _);
    [|apply rp_capacity|apply totals_start|intros j _; by apply slots_le_4].
  apply compile_channels_endpoints in Hc as [Hs He]; [|done|done|constructor|constructor].
  split; [done|]. intros e Hin. apply He in Hin as [Hin|(j & c & b & Hc' & Hk & Hn & Hb & Hb1 & _ & Hst & Hconf)];
    [by apply elem_of_nil in Hin|].
  exists c, b. rewrite Hk. split_and!; [done..|]. intros slot Hslot.
  pose proof (shape_payload c (cc_shape _ _ _ _ _ _ (Hall j c Hc'))) as [Hp _].
  destruct Hconf as [F0 F1 F2 F3]. rewrite Hst in F3. cbv zeta.
  assert (slot * ep_slot_stride_bytes e <= (ep_slot_count e - 1) * ep_slot_stride_bytes e) by nia.
  split_and!; [lia|lia|lia|]. intros other Ho. nia.
Qed.

(** The channels of an accepted plan have valid names, payloads and
    endpoints, join different phases of different domains with at most one
    device end, are pairwise distinct in name and in edge, and are described
    in registration order with their payload, age bound and domains; a refused
    set of channels leaves the caller's plan untouched. *)
Theorem cross_rate_channels_valid :
  ReferencePlan plan ->
  (cross_status <> ok -> cross_plan = output) /\
  (cross_status = ok ->
   NoDup (xc_name <$> channels) /\
   NoDup ((fun c => (xc_producer c, xc_consumer c)) <$> channels) /\
   forall k c, channels !! k = Some c ->
     channel_shape_valid c = true /\
     phase_in_graph owner n (xc_producer c) = true /\ phase_in_graph owner n (xc_consumer c) = true /\
     exists p q d, cx_channels cross_plan !! k = Some d /\ cb_domain p <> cb_domain q /\
       is_device p && is_device q = false /\
       ccc_registration_index d = k /\ ccc_payload_size d = xc_payload_size c /\
       ccc_maximum_age_ns d = xc_maximum_age_ns c /\ ccc_producer_domain d = cb_domain p /\
       ccc_consumer_domain d = cb_domain q).
Proof using Type.
  intros Hrp. split; [destruct cross_cases as [(? & _)|[(? & _)|[_ H]]]; done|]. intros Hok.
  destruct (decide (channels = [])) as [Hnil|Hne].
  { rewrite Hnil. split_and!; [constructor|constructor|]. intros k c H. by rewrite lookup_nil in H. }
  destruct (cross_ok Hrp Hok Hne) as (bound & t & Hslots & Hcheck & Hc).
  apply check_channels_inr in Hcheck as (Hall & _);
    [|apply rp_capacity|apply totals_start|intros j _; by apply slots_le_4].
  assert (Hearly : forall i j a b, (i < j)%nat -> channels !! i = Some a -> channels !! j = Some b ->
    xc_name a <> xc_name b /\ ~ (xc_producer a = xc_producer b /\ xc_consumer a = xc_consumer b)).
  { intros i j a b Hij Hi Hj. assert (Hin : a ∈ take j channels).
    { apply list_elem_of_lookup. exists i. by rewrite lookup_take_lt. }
    split; [by apply (cc_names _ _ _ _ _ _ (Hall j b Hj))|by apply (cc_edges _ _ _ _ _ _ (Hall j b Hj))]. }
  apply compile_channels_inr in Hc as (_ & _ & Hat). split_and!.
  - apply (NoDup_by_order xc_name). intros i j a b Hij Hi Hj E. by destruct (Hearly i j a b Hij Hi Hj).
  - apply (NoDup_by_order (fun c => (xc_producer c, xc_consumer c))). intros i j a b Hij Hi Hj [= E1 E2].
    by destruct (Hearly i j a b Hij Hi Hj) as [_ Hno]; apply Hno.
  - intros k c Hk. pose proof (Hall k c Hk) as Hck.
    destruct (Hat k c Hk) as (mid & mid' & p & q & e & Ha & _ & (Hp1 & _) & Hlen & _).
    split_and!; [apply Hck|apply (cc_ends _ _ _ _ _ _ Hck)|apply (cc_ends _ _ _ _ _ _ Hck)|].
    destruct (cc_bound _ _ _ _ _ _ Hck) as (p' & q' & Hp' & Hq' & Hsel & Hdom).
    pose proof (ca_producer _ _ _ _ _ _ _ _ _ _ _ _ _ Ha) as Hp. pose proof (ca_consumer _ _ _ _ _ _ _ _ _ _ _ _ _ Ha) as Hq.
    assert (p' = p) as -> by congruence. assert (q' = q) as -> by congruence.
    eexists p, q, _. cbn [Nat.add cx_channels length] in *. split.
    { eapply prefix_lookup_Some; [|done]. rewrite (ca_channels _ _ _ _ _ _ _ _ _ _ _ _ _ Ha).
      rewrite lookup_app_r, Hlen, Nat.sub_diag by lia. done. }
    split_and!; try done. unfold selectors_consistent in Hsel. rewrite !andb_true_iff in Hsel.
    by apply negb_true_iff, Hsel.
Qed.
End Claims.

(** * Concrete channels for the cross-rate theorems

    A device producer with period 2 and a CPU consumer with period 3: the
    consumer releases at 0 and 3 read the producer releases at 0 and 2 of the
    same cycle. *)

Local Open Scope Z_scope.

Definition cross_domains : list RateDomainSpec :=
  [mkDomainSpec [100; 101; 118] 2 1 2 0 crit_normal false late_fail 0;
   mkDomainSpec [99; 112; 117] 3 1 3 1 crit_normal false late_fail 0].
Definition cross_bindings : list RateBindingSpec :=
  [mkBindingSpec (PhaseHandle_make 7 0) (RateDomainHandle_make 7 0) kind_device;
   mkBindingSpec (PhaseHandle_make 7 1) (RateDomainHandle_make 7 1) kind_cpu].
Definition cross_rate_plan : CompiledRatePlan :=
  timeline_plan 7 2 (PhaseHandle_make 7 <$> [0; 1]) cross_domains cross_bindings empty_plan.
Definition cross_device_plan : DeviceRatePlan := mkDeviceRatePlan
  [mkDevicePhase (PhaseHandle_make 7 0) (RateDomainHandle_make 7 0) 5 0 1 2 1 0 1 0 0 1 0 0 9 None] []
  [mkPayloadReference (PhaseHandle_make 7 0) 5 6 0 0 dispatch_buffer role_output 2 0 64] []
  (mkAdmissionReport 0 0 0 0 0 0 0) [] [] [].
Definition cross_buffers : list DeviceBufferSource :=
  [mkBufferSource 6 5 (mkSpan 4096 64) 64 1 1 1 1].
Definition cross_channel : CrossRateChannelSpec :=
  mkChannelSpec [115] (PhaseHandle_make 7 0) (PhaseHandle_make 7 1) 2 [0; 0] sample_and_hold 1
    (mkSelector (Some 0%nat) 16) selector_default.
Definition cross_channels : list CrossRateChannelSpec := [cross_channel].
Definition cross_result : CompiledCrossRatePlan :=
  cross_plan 7 2 cross_rate_plan (Some cross_device_plan) cross_buffers [] cross_channels
    empty_cross_rate_plan.

Lemma cross_reference_plan : ReferencePlan cross_rate_plan.
Proof.
  apply timeline_reference_plan.
  - vm_compute. discriminate.
  - repeat constructor; vm_compute; discriminate.
  - unfold budgets_typed, is_u64. apply (bool_decide_unpack _). vm_compute. exact I.
  - discriminate.
  - vm_compute. reflexivity.
Qed.

Lemma cross_rate_selections_witness :
  exists f, cx_selections cross_result !! 2%nat = Some f /\ reads f 0 = Some (0, 2%nat) /\
    selection_correct cross_rate_plan 0 cross_channel 1 3 0 f.
Proof.
  destruct (cross_rate_selections 7 2 cross_rate_plan (Some cross_device_plan) cross_buffers []
    cross_channels empty_cross_rate_plan 0 cross_channel) as (d & Hd & _ & H).
  - exact cross_reference_plan.
  - vm_compute. reflexivity.
  - reflexivity.
  - destruct (H 1%nat 3%nat) as (f & r & Hf & _ & Hc & _); [vm_compute; reflexivity|].
    exists f. assert (Hz : ccc_first_selection_index d = 0%nat).
    { vm_compute in Hd. injection Hd as <-. reflexivity. }
    rewrite Hz in Hf. split; [exact Hf|]. split; [|exact Hc].
    vm_compute in Hf. injection Hf as <-. vm_compute. reflexivity.
Defined.

Lemma cross_rate_storage_witness :
  snapshot_total (snapshot_slots []) cross_channels <= cross_rate_snapshot_bytes_capacity /\
  length (cx_channels cross_result) = 1%nat.
Proof.
  destruct (cross_rate_storage 7 2 cross_rate_plan (Some cross_device_plan) cross_buffers []
    cross_channels empty_cross_rate_plan) as (_ & H1 & _ & H2 & _).
  - exact cross_reference_plan.
  - vm_compute. reflexivity.
  - split; [exact H1|exact H2].
Defined.

Lemma cross_rate_device_confined_witness :
  StronglySorted envelopes_disjoint (cx_device_endpoints cross_result) /\
  length (cx_device_endpoints cross_result) = 1%nat.
Proof.
  split; [|vm_compute; reflexivity].
  destruct (cross_rate_device_confined 7 2 cross_rate_plan (Some cross_device_plan) cross_buffers []
    cross_channels empty_cross_rate_plan) as (H & _).
  - exact cross_reference_plan.
  - intros plan [= <-]. split; repeat constructor; vm_compute; discriminate.
  - repeat constructor; vm_compute; discriminate.
  - vm_compute. reflexivity.
  - exact H.
Defined.

Lemma cross_rate_channels_valid_witness :
  NoDup (xc_name <$> cross_channels) /\
  cross_status 7 2 cross_rate_plan (Some cross_device_plan) cross_buffers [] cross_channels
    empty_cross_rate_plan = ok.
Proof.
  split; [|vm_compute; reflexivity].
  destruct (cross_rate_channels_valid 7 2 cross_rate_plan (Some cross_device_plan) cross_buffers []
    cross_channels empty_cross_rate_plan) as [_ H].
  - exact cross_reference_plan.
  - apply H. vm_compute. reflexivity.
Defined.
