(* ===== verification/DeviceRatePlan.v ===== *)
(** * Device rate admission ([compile_device_rate_plan] of rt/src/rate_dispatch.cpp)

    The compiler copies the declared command batches of the device phases into
    inspection tables, proves the timeline waits free of cycles, and admits the
    mandatory device releases of one supercycle: a sweep over release and completion
    events counts the batches in flight per phase, per backend and for the runtime,
    starting from those that carry over from the previous supercycle, and refuses a
    count above its capacity.

    [invalid_reference_release_index] is [None].  The declaration of a phase source was
    accepted by [validate_batch_declaration] when the phase was registered, so its
    counts are within its arrays.  Allocation failure is not modelled. *)

From stdpp Require Import base list numbers sorting sets strings.
From Stdlib Require Import ZArith Lia Bool.
From S2P Require Import Prelude Handles CompiledGraph RateTimeline DeviceCommands CrossRateTypes.

Local Open Scope Z_scope.
Local Open Scope rtfw_scope.

(** ** Inputs *)

Definition device_rate_simulation_watchdog_limit_ns : Z := 60000000000.

(** A simulation policy is its host watchdog. *)
Record DeviceRateBindingSpec : Set := mkDeviceBinding {
  db_phase : PhaseHandle;
  db_domain : RateDomainHandle;
  db_completion_budget_ns : Z;
  db_maximum_in_flight : Z;
  db_payload_roles : list DeviceRatePayloadRole;
  db_simulation : option Z
}.

Definition valid_simulation_policy (policy : option Z) : bool :=
  match policy with
  | None => true
  | Some watchdog => negb (watchdog =? 0) && (watchdog <=? device_rate_simulation_watchdog_limit_ns)
  end.

Record DeviceRateBackendSource : Set := mkBackendSource {
  bk_backend : Z;
  bk_capabilities : HalV2CommandTimelineCapabilities;
  bk_completion_timestamp_domain_identity : Z;
  bk_completion_timestamp_domain_valid : bool;
  bk_deterministic_mock : bool
}.

Record DeviceRateBufferSource : Set := mkRateBufferSource {
  bu_buffer : Z;
  bu_backend : Z;
  bu_bytes : Z;
  bu_access : Z;
  bu_byte_granularity : Z;
  bu_offset_granularity : Z
}.

Record DeviceRateTimelineSource : Set := mkTimelineSource {
  tl_timeline : Z;
  tl_backend : Z;
  tl_initial_value : Z
}.

Record DeviceRatePhaseSource : Set := mkPhaseSource {
  ps_phase : PhaseHandle;
  ps_backend : Z;
  ps_declaration : option DeviceCommandBatch
}.

Record DeviceRateDiagnostic : Set := mkDeviceDiagnostic {
  dd_status : Status;
  dd_message : option string;
  dd_reference_index : option nat;
  dd_phase : PhaseHandle
}.

Definition device_error_at (s : Status) (message : string) (phase : PhaseHandle) : DeviceRateDiagnostic :=
  mkDeviceDiagnostic s (Some message) None phase.
Definition release_error_at (s : Status) (message : string) (phase : PhaseHandle) (reference : nat)
    : DeviceRateDiagnostic := mkDeviceDiagnostic s (Some message) (Some reference) phase.
Definition device_plan_error (s : Status) (message : string) : DeviceRateDiagnostic :=
  device_error_at s message PhaseHandle_default.

(** The inventories a call reads. *)
Record DeviceSources : Set := mkDeviceSources {
  src_graph_owner : Z;
  src_runtime_outstanding_capacity : Z;
  src_runtime_completion_batch_capacity : Z;
  src_rate_plan : CompiledRatePlan;
  src_bindings : list DeviceRateBindingSpec;
  src_backends : list DeviceRateBackendSource;
  src_buffers : list DeviceRateBufferSource;
  src_timelines : list DeviceRateTimelineSource;
  src_phases : list DeviceRatePhaseSource
}.

(** ** Position tables *)

(** The index of a valid handle of this graph. *)
Definition owned_position (valid : bool) (owner index graph_owner : Z) : option nat :=
  if valid && (owner =? graph_owner) then Some (Z.to_nat index) else None.

Definition backend_position (graph_owner handle : Z) : option nat :=
  owned_position (DeviceBackendHandle_valid handle) (device_owner handle) (DeviceBackendHandle_index handle)
    graph_owner.
Definition buffer_position (graph_owner handle : Z) : option nat :=
  owned_position (DeviceBufferHandle_valid handle) (device_owner handle) (DeviceBufferHandle_index handle)
    graph_owner.
Definition timeline_position (graph_owner handle : Z) : option nat :=
  owned_position (DeviceTimelineHandle_valid handle) (device_owner handle) (DeviceTimelineHandle_index handle)
    graph_owner.
Definition device_phase_position (graph_owner : Z) (handle : PhaseHandle) : option nat :=
  owned_position (PhaseHandle_valid handle) (PhaseHandle_owner handle) (PhaseHandle_index handle) graph_owner.

(** The loops that fill [backend_source_by_index] and its siblings: every source has a valid
    handle of this graph, in range and not seen before. *)
Fixpoint index_sources (positions : list (option nat)) (index : nat) (table : list (option nat))
    : option (list (option nat)) :=
  match positions with
  | [] => Some table
  | position :: rest =>
      match position with
      | Some k =>
          match table !! k with
          | Some None => index_sources rest (S index) (<[k := Some index]> table)
          | _ => None
          end
      | None => None
      end
  end.

Definition source_table (positions : list (option nat)) (size : nat) (message : string)
    : DeviceRateDiagnostic + list (option nat) :=
  match index_sources positions 0 (replicate size None) with
  | Some table => inr table
  | None => inl (device_plan_error invalid_handle message)
  end.

(** [position] of a handle, then the table at it: the source index, if any. *)
Definition table_at (table : list (option nat)) (position : option nat) : option nat :=
  match position with Some k => mjoin (table !! k) | None => None end.

Record SourceTables : Set := mkTables {
  st_backend : list (option nat);
  st_buffer : list (option nat);
  st_timeline : list (option nat);
  st_phase : list (option nat)
}.

Definition build_tables (src : DeviceSources) : DeviceRateDiagnostic + SourceTables :=
  let owner := src_graph_owner src in
  let! backends := source_table (backend_position owner ∘ bk_backend <$> src_backends src)
    (length (src_backends src))
    "device-rate backend inventory contains an invalid, foreign, or duplicate handle" in
  let! buffers := source_table (buffer_position owner ∘ bu_buffer <$> src_buffers src)
    (length (src_buffers src))
    "device-rate buffer inventory contains an invalid, foreign, or duplicate handle" in
  let! timelines := source_table (timeline_position owner ∘ tl_timeline <$> src_timelines src)
    (length (src_timelines src))
    "device-rate timeline inventory contains an invalid, foreign, or duplicate handle" in
  let! phases := source_table (device_phase_position owner ∘ ps_phase <$> src_phases src)
    (length (pl_bindings (src_rate_plan src)))
    "device-rate phase inventory contains an invalid, foreign, or duplicate handle" in
  inr (mkTables backends buffers timelines phases).

(** ** The order of the bindings *)

(** [compiled_index_by_phase] *)
Definition compiled_index_by_phase (src : DeviceSources) : list (option nat) :=
  foldl (fun table b =>
           match device_phase_position (src_graph_owner src) (cb_phase b) with
           | Some k => <[k := Some (cb_compiled_phase_index b)]> table
           | None => table
           end)
    (replicate (length (pl_bindings (src_rate_plan src))) None) (pl_bindings (src_rate_plan src)).

(** [compiled_index_by_binding] *)
Definition compiled_index_by_binding (src : DeviceSources) : list (option nat) :=
  (fun b => table_at (compiled_index_by_phase src) (device_phase_position (src_graph_owner src) (db_phase b)))
    <$> src_bindings src.

(** [None] is the largest [size_t]. *)
Definition index_less (l r : option nat) : bool :=
  match l, r with
  | Some a, Some b => (a <? b)%nat
  | Some _, None => true
  | None, _ => false
  end.

Definition order_less (indices : list (option nat)) (l r : nat) : bool :=
  let a := mjoin (indices !! l) in
  let b := mjoin (indices !! r) in
  index_less a b || (bool_decide (a = b) && (l <? r)%nat).

Definition binding_order (src : DeviceSources) : list nat :=
  std_sort (order_less (compiled_index_by_binding src)) (seq 0 (length (src_bindings src))).

(** ** Payload references *)

Definition role_matches (role : DeviceRatePayloadRole) (access : Z) : bool :=
  match role with
  | role_input => access =? RTFW_DEVICE_ACCESS_READ
  | role_output => access =? RTFW_DEVICE_ACCESS_WRITE
  | role_input_output => access =? RTFW_DEVICE_ACCESS_READ_WRITE
  | role_other _ => false
  end.

Definition required_access (access : Z) : Z :=
  if access =? RTFW_DEVICE_ACCESS_READ then RTFW_DEVICE_BUFFER_DEVICE_READ
  else if access =? RTFW_DEVICE_ACCESS_WRITE then RTFW_DEVICE_BUFFER_DEVICE_WRITE
  else if access =? RTFW_DEVICE_ACCESS_READ_WRITE
  then Z.lor RTFW_DEVICE_BUFFER_DEVICE_READ RTFW_DEVICE_BUFFER_DEVICE_WRITE
  else 0.

Definition reference_admissible (source : DeviceRateBufferSource) (backend : Z)
    (role : DeviceRatePayloadRole) (r : HalV2BufferReference) : bool :=
  let required := required_access (br_access r) in
  (bu_backend source =? backend) && negb (required =? 0) &&
  (Z.land required (u32 (Z.lnot (bu_access source))) =? 0) && role_matches role (br_access r) &&
  negb (br_bytes r =? 0) && (br_offset r <=? bu_bytes source) &&
  (br_bytes r <=? u64 (bu_bytes source - br_offset r)) &&
  negb (bu_byte_granularity source =? 0) && negb (bu_offset_granularity source =? 0) &&
  (br_bytes r mod bu_byte_granularity source =? 0) &&
  (br_offset r mod bu_offset_granularity source =? 0).

Definition find_buffer (src : DeviceSources) (tables : SourceTables) (handle : Z)
    : option DeviceRateBufferSource :=
  match table_at (st_buffer tables) (buffer_position (src_graph_owner src) handle) with
  | Some index => src_buffers src !! index
  | None => None
  end.

Definition find_timeline (src : DeviceSources) (tables : SourceTables) (handle : Z)
    : option DeviceRateTimelineSource :=
  match table_at (st_timeline tables) (timeline_position (src_graph_owner src) handle) with
  | Some index => src_timelines src !! index
  | None => None
  end.

Section Binding.
Context (src : DeviceSources) (tables : SourceTables) (phase : PhaseHandle) (backend : Z).

(** [add_reference]: the reference and the roles left. *)
Definition add_reference (command_index : nat) (reference : HalV2BufferReference)
    (reference_index : nat) (kind : DeviceRateReferenceKind) (roles : list DeviceRatePayloadRole)
    : option (DeviceRatePayloadReference * list DeviceRatePayloadRole) :=
  match roles with
  | [] => None
  | role :: rest =>
      match find_buffer src tables (br_buffer_token reference) with
      | Some source =>
          if reference_admissible source backend role reference
          then Some (mkPayloadReference phase backend (br_buffer_token reference) (Z.of_nat command_index)
                       (Z.of_nat reference_index) kind role (br_access reference) (br_offset reference)
                       (br_bytes reference), rest)
          else None
      | None => None
      end
  end.

(** The references of a command with their kinds, in the order they are added. *)
Definition declared_references (c : DeviceCommand)
    : list (HalV2BufferReference * DeviceRateReferenceKind) :=
  if dc_kind c =? kind_dispatch
  then (fun r => (r, dispatch_buffer)) <$> take (Z.to_nat (dc_buffer_count c)) (dc_buffers c)
  else if dc_kind c =? kind_copy
  then [(dc_source c, copy_source); (dc_destination c, copy_destination)]
  else [(dc_target c, synchronization_target)].

Fixpoint add_references (command_index reference_index : nat)
    (references : list (HalV2BufferReference * DeviceRateReferenceKind))
    (roles : list DeviceRatePayloadRole)
    : option (list DeviceRatePayloadReference * list DeviceRatePayloadRole) :=
  match references with
  | [] => Some ([], roles)
  | (r, kind) :: rest =>
      match add_reference command_index r reference_index kind roles with
      | Some (out, roles') =>
          match add_references command_index (S reference_index) rest roles' with
          | Some (outs, roles'') => Some (out :: outs, roles'')
          | None => None
          end
      | None => None
      end
  end.

Definition payload_role_error : DeviceRateDiagnostic :=
  device_error_at invalid_config
    "device-rate payload roles do not exactly match the copied declaration" phase.

(** The loop over the commands: the compiled commands, their payload references and the roles
    left.  [first] is the size of [payload_references] before the command. *)
Fixpoint compile_commands (command_index first : nat) (commands : list DeviceCommand)
    (roles : list DeviceRatePayloadRole)
    : DeviceRateDiagnostic +
      (list DeviceRateCommand * list DeviceRatePayloadReference * list DeviceRatePayloadRole) :=
  match commands with
  | [] => inr ([], [], roles)
  | c :: rest =>
      match add_references command_index 0 (declared_references c) roles with
      | None => inl payload_role_error
      | Some (references, roles') =>
          let! (compiled, later, roles'') :=
            compile_commands (S command_index) (first + length references) rest roles' in
          inr (mkRateCommand phase (Z.of_nat command_index) (dc_kind c) (dc_operation c) (dc_opcode c)
                 (dc_flags c) first (length references) :: compiled,
               references ++ later, roles'')
      end
  end.

(** The loop over the waits or over the signals; [earlier] holds the handles before [index]. *)
Fixpoint compile_points (role : DeviceRateTimelineRole) (message : string) (index : nat)
    (earlier : list Z) (points : list HalV2TimelinePoint)
    : DeviceRateDiagnostic + list DeviceRateTimelineReference :=
  match points with
  | [] => inr []
  | p :: rest =>
      let timeline := tp_timeline_handle p in
      match find_timeline src tables timeline with
      | Some source =>
          let! _ := require ((tl_backend source =? backend) && negb (bool_decide (timeline ∈ earlier)))
            (device_error_at invalid_config message phase) in
          let! references := compile_points role message (S index) (earlier ++ [timeline]) rest in
          inr (mkTimelineReference phase backend timeline role index :: references)
      | None => inl (device_error_at invalid_config message phase)
      end
  end.
End Binding.

(** ** The device phases *)

(** The vectors of the candidate that the loop over the bindings fills, and the tables
    [plan_phase_by_registration] and [backend_used]. *)
Record PhaseState : Set := mkPhaseState {
  pst_phases : list DeviceRatePhase;
  pst_commands : list DeviceRateCommand;
  pst_payload_references : list DeviceRatePayloadReference;
  pst_timeline_references : list DeviceRateTimelineReference;
  pst_admission_phases : list DeviceRateAdmissionPhase;
  pst_plan_phase : list (option nat);
  pst_backend_used : list bool
}.

Definition phase_state_start (src : DeviceSources) : PhaseState :=
  mkPhaseState [] [] [] [] [] (replicate (length (pl_bindings (src_rate_plan src))) None)
    (replicate (length (src_backends src)) false).

(** The first test on a binding, with the sources it found: the position of its phase, the
    compiled binding, the phase source and its declaration. *)
Definition binding_sources (src : DeviceSources) (tables : SourceTables) (st : PhaseState)
    (binding_index : nat) (b : DeviceRateBindingSpec)
    : option (nat * CompiledRateBinding * DeviceRatePhaseSource * DeviceCommandBatch) :=
  let plan := src_rate_plan src in
  match device_phase_position (src_graph_owner src) (db_phase b) with
  | None => None
  | Some position =>
      match table_at (st_phase tables) (Some position) ≫= (src_phases src !!.),
            mjoin (compiled_index_by_binding src !! binding_index) ≫= (pl_bindings plan !!.) with
      | Some source, Some compiled =>
          match ps_declaration source with
          | Some declaration =>
              if (position <? length (pl_bindings plan))%nat &&
                 RateDomainHandle_valid (db_domain b) &&
                 (RateDomainHandle_owner (db_domain b) =? src_graph_owner src) &&
                 (RateDomainHandle_index (db_domain b) <? Z.of_nat (length (pl_domains plan))) &&
                 negb (db_completion_budget_ns b =? 0) && negb (db_maximum_in_flight b =? 0) &&
                 valid_simulation_policy (db_simulation b) &&
                 bool_decide (cb_domain compiled = db_domain b) &&
                 bool_decide (cb_phase_kind compiled = kind_device) &&
                 bool_decide (pst_plan_phase st !!! position = None)
              then Some (position, compiled, source, declaration)
              else None
          | None => None
          end
      | _, _ => None
      end
  end.

(** The capability tests. *)
Definition phase_capable (backend : DeviceRateBackendSource) (b : DeviceRateBindingSpec)
    (declaration : DeviceCommandBatch) : bool :=
  let capabilities := bk_capabilities backend in
  bk_completion_timestamp_domain_valid backend &&
  negb (bk_completion_timestamp_domain_identity backend =? 0) &&
  bool_decide (validate_batch_declaration declaration = Some true) &&
  (bt_command_count declaration <=? cap_max_commands_per_batch capabilities) &&
  (bt_wait_count declaration <=? cap_max_wait_points capabilities) &&
  (bt_signal_count declaration <=? cap_max_signal_points capabilities) &&
  (db_maximum_in_flight b <=? cap_max_in_flight_batches capabilities).

(** The body of the loop over [binding_order]. *)
Definition compile_device_phase (src : DeviceSources) (tables : SourceTables) (st : PhaseState)
    (binding_index : nat) : DeviceRateDiagnostic + PhaseState :=
  match src_bindings src !! binding_index with
  | None => inr st
  | Some b =>
      match binding_sources src tables st binding_index b with
      | None =>
          inl (device_error_at invalid_config
                 "device-rate binding has invalid ownership, policy, or rate identity" (db_phase b))
      | Some (position, compiled, source, declaration) =>
          match table_at (st_backend tables) (backend_position (src_graph_owner src) (ps_backend source)) with
          | None =>
              inl (device_error_at invalid_handle
                     "device-rate phase references an invalid or foreign backend" (db_phase b))
          | Some backend_index =>
              match src_backends src !! backend_index with
              | None => inr st
              | Some backend =>
                  let! _ := require (negb (bool_decide (is_Some (db_simulation b))) || bk_deterministic_mock backend)
                    (device_error_at invalid_config
                       "simulation timing requires a deterministic mock backend" (db_phase b)) in
                  let! _ := require (phase_capable backend b declaration)
                    (device_error_at invalid_config
                       "device-rate phase exceeds command, timeline, timestamp, or in-flight capability"
                       (db_phase b)) in
                  let first := length (pst_payload_references st) in
                  let! (commands, references, roles) :=
                    compile_commands src tables (db_phase b) (ps_backend source) 0 first
                      (take (Z.to_nat (bt_command_count declaration)) (bt_commands declaration))
                      (db_payload_roles b) in
                  let! _ := require (bool_decide (roles = []))
                    (device_error_at invalid_config
                       "device-rate payload-role inventory has extra entries" (db_phase b)) in
                  let! waits := compile_points src tables (db_phase b) (ps_backend source) timeline_wait
                    "device-rate wait timeline is foreign or duplicated" 0 []
                    (take (Z.to_nat (bt_wait_count declaration)) (bt_waits declaration)) in
                  let! signals := compile_points src tables (db_phase b) (ps_backend source) timeline_signal
                    "device-rate signal timeline is foreign or duplicated" 0 []
                    (take (Z.to_nat (bt_signal_count declaration)) (bt_signals declaration)) in
                  inr (mkPhaseState
                    (pst_phases st ++
                       [mkDevicePhase (db_phase b) (db_domain b) (ps_backend source)
                          (cb_compiled_phase_index compiled) (db_completion_budget_ns b)
                          (db_maximum_in_flight b) (bt_command_count declaration) (bt_wait_count declaration)
                          (bt_signal_count declaration) (length (pst_commands st)) first (length references)
                          (length (pst_timeline_references st)) (length waits + length signals)
                          (bk_completion_timestamp_domain_identity backend) (db_simulation b)])
                    (pst_commands st ++ commands)
                    (pst_payload_references st ++ references)
                    (pst_timeline_references st ++ waits ++ signals)
                    (pst_admission_phases st ++
                       [mkAdmissionPhase (db_phase b) (ps_backend source) (db_completion_budget_ns b)
                          (db_maximum_in_flight b) 0])
                    (<[position := Some (length (pst_phases st))]> (pst_plan_phase st))
                    (<[backend_index := true]> (pst_backend_used st)))
              end
          end
      end
  end.

Fixpoint compile_device_phases (src : DeviceSources) (tables : SourceTables) (order : list nat)
    (st : PhaseState) : DeviceRateDiagnostic + PhaseState :=
  match order with
  | [] => inr st
  | index :: rest =>
      let! st' := compile_device_phase src tables st index in compile_device_phases src tables rest st'
  end.

(** ** The wait graph *)

(** The timeline references of a phase. *)
Definition phase_timelines (st : PhaseState) (p : DeviceRatePhase) : list DeviceRateTimelineReference :=
  take (dp_timeline_reference_count p)
    (drop (dp_first_timeline_reference_index p) (pst_timeline_references st)).

Definition timeline_ordinal (src : DeviceSources) (tables : SourceTables) (handle : Z) : option nat :=
  table_at (st_timeline tables) (timeline_position (src_graph_owner src) handle).

(** The references of a role, each with the index and the handle of its phase. *)
Definition references_of (role : DeviceRateTimelineRole) (st : PhaseState)
    : list (nat * PhaseHandle * Z) :=
  mjoin (imap (fun phase_index p =>
    (fun r => (phase_index, dp_phase p, tr_timeline r)) <$>
      filter (fun r => tr_role r = role) (phase_timelines st p)) (pst_phases st)).

(** [signal_owner]: a timeline has at most one phase that signals it. *)
Fixpoint signal_owners (src : DeviceSources) (tables : SourceTables)
    (signals : list (nat * PhaseHandle * Z)) (owners : list (option nat))
    : DeviceRateDiagnostic + list (option nat) :=
  match signals with
  | [] => inr owners
  | (phase_index, phase, timeline) :: rest =>
      let error := device_error_at invalid_config
        "device-rate timeline progress has multiple signal owners" phase in
      match timeline_ordinal src tables timeline with
      | Some ordinal =>
          let! _ := require (bool_decide (owners !!! ordinal = None)) error in
          signal_owners src tables rest (<[ordinal := Some phase_index]> owners)
      | None => inl error
      end
  end.

(** [wait_graph] and [indegree] after one wait. *)
Definition add_wait (src : DeviceSources) (tables : SourceTables) (owners : list (option nat))
    (graph : list (list nat)) (indegree : list Z) (wait : nat * PhaseHandle * Z)
    : DeviceRateDiagnostic + (list (list nat) * list Z) :=
  let '(phase_index, phase, timeline) := wait in
  match timeline_ordinal src tables timeline with
  | None => inl (device_error_at invalid_config "device-rate wait cannot be proven available" phase)
  | Some ordinal =>
      match owners !!! ordinal with
      | None =>
          let! _ := require (negb (from_option tl_initial_value 0 (src_timelines src !! ordinal) =? 0))
            (device_error_at invalid_config "device-rate wait cannot be proven available" phase) in
          inr (graph, indegree)
      | Some owner =>
          let! _ := require (negb (Nat.eqb owner phase_index))
            (device_error_at invalid_config "device-rate wait graph contains a cycle" phase) in
          if bool_decide (phase_index ∈ graph !!! owner) then inr (graph, indegree)
          else inr (alter (fun l => l ++ [phase_index]) owner graph,
                    alter (fun n => u64 (n + 1)) phase_index indegree)
      end
  end.

Fixpoint add_waits (src : DeviceSources) (tables : SourceTables) (owners : list (option nat))
    (waits : list (nat * PhaseHandle * Z)) (graph : list (list nat)) (indegree : list Z)
    : DeviceRateDiagnostic + (list (list nat) * list Z) :=
  match waits with
  | [] => inr (graph, indegree)
  | wait :: rest =>
      let! built := add_wait src tables owners graph indegree wait in
      add_waits src tables owners rest (fst built) (snd built)
  end.

(** The loop over [wait_graph[current]]; the back of the vector [ready] is the head of the list. *)
Fixpoint release_waiters (next : list nat) (indegree : list Z) (ready : list nat)
    : list Z * list nat :=
  match next with
  | [] => (indegree, ready)
  | n :: rest =>
      let left := u64 (indegree !!! n - 1) in
      release_waiters rest (<[n := left]> indegree) (if left =? 0 then n :: ready else ready)
  end.

(** [while (!ready.empty())]: the phases taken from the stack, in order; [None] out of fuel. *)
Fixpoint visit_loop (fuel : nat) (graph : list (list nat)) (indegree : list Z) (ready visited : list nat)
    : option (list nat) :=
  match ready with
  | [] => Some visited
  | current :: rest =>
      match fuel with
      | O => None
      | S fuel' =>
          let '(indegree', ready') := release_waiters (graph !!! current) indegree rest in
          visit_loop fuel' graph indegree' ready' (visited ++ [current])
      end
  end.

Definition initial_waiters (indegree : list Z) : list nat :=
  reverse (filter (fun index => indegree !!! index = 0) (seq 0 (length indegree))).

Definition check_waits (src : DeviceSources) (tables : SourceTables) (st : PhaseState)
    : DeviceRateDiagnostic + unit :=
  let count := length (pst_phases st) in
  let! owners := signal_owners src tables (references_of timeline_signal st)
    (replicate (length (src_timelines src)) None) in
  let! built := add_waits src tables owners (references_of timeline_wait st)
    (replicate count []) (replicate count 0) in
  match visit_loop count (fst built) (snd built) (initial_waiters (snd built)) [] with
  | Some visited =>
      require (Nat.eqb (length visited) count)
        (device_plan_error invalid_config "device-rate wait graph contains a cycle")
  | None => inl (device_plan_error invalid_config "device-rate wait graph contains a cycle")
  end.

(** ** Admission intervals *)

Definition admission_backends (src : DeviceSources) (used : list bool) : list DeviceRateAdmissionBackend :=
  mjoin (imap (fun index b =>
    if (used !!! index : bool) then
      [mkAdmissionBackend (bk_backend b) (cap_max_in_flight_batches (bk_capabilities b))
         (Z.min (src_runtime_completion_batch_capacity src)
            (cap_completion_batch_capacity (bk_capabilities b))) 0 0]
    else []) (src_backends src)).

(** [constraining_capacity] and its limit: the smallest of the three capacities. *)
Definition constraint_of (phase_limit backend_limit runtime_limit : Z)
    : DeviceRateAdmissionConstraint * Z :=
  let '(c, l) := if backend_limit <? phase_limit then (backend_in_flight, backend_limit)
                 else (phase_in_flight, phase_limit) in
  if runtime_limit <? l then (runtime_outstanding, runtime_limit) else (c, l).

(** The index of a phase among the compiled phases, and of a backend among the sources. *)
Definition phase_index_for (st : PhaseState) (h : PhaseHandle) : nat :=
  default 0%nat (pst_plan_phase st !!! phase_position h).

Definition backend_index_for (tables : SourceTables) (backend : Z) : nat :=
  default 0%nat (st_backend tables !!! Z.to_nat (DeviceBackendHandle_index backend)).

Definition backend_limit_of (src : DeviceSources) (tables : SourceTables) (backend : Z) : Z :=
  from_option (fun b => cap_max_in_flight_batches (bk_capabilities b)) 0
    (src_backends src !! backend_index_for tables backend).

(** The interval of one device release, if it is admissible. *)
Definition admit_release (src : DeviceSources) (tables : SourceTables) (st : PhaseState)
    (reference_index : nat) (r : ReferenceRelease)
    : DeviceRateDiagnostic + list DeviceRateAdmissionInterval :=
  if negb (bool_decide (rr_phase_kind r = kind_device)) then inr []
  else
    match mjoin (pst_plan_phase st !! phase_position (rr_phase r)) ≫= (pst_phases st !!.) with
    | None =>
        inl (release_error_at invalid_config
               "active device reference has no admitted command-batch policy" (rr_phase r) reference_index)
    | Some phase =>
        match checked_add (rr_release_time_ns r) (dp_completion_budget_ns phase) with
        | None =>
            inl (release_error_at capacity_exceeded
                   "device-rate completion-budget arithmetic overflowed" (rr_phase r) reference_index)
        | Some budget_deadline =>
            let completion := Z.min (rr_deadline_time_ns r) budget_deadline in
            let supercycle := supercycle_ns (src_rate_plan src) in
            let! _ := require ((rr_release_time_ns r <? completion) &&
                               (completion - rr_release_time_ns r <=? supercycle))
              (release_error_at invalid_config
                 "device-rate completion cannot drain within one repeating horizon" (rr_phase r)
                 reference_index) in
            let '(constraint, limit) :=
              constraint_of (dp_maximum_in_flight phase) (backend_limit_of src tables (dp_backend phase))
                (src_runtime_outstanding_capacity src) in
            inr [mkAdmissionInterval reference_index (rr_phase r) (rr_domain r) (dp_backend phase)
                   (rr_release_time_ns r) completion (rr_substep_ordinal r) (rr_optional r)
                   (supercycle <? completion) constraint limit 0]
        end
    end.

(** [admission_intervals] *)
Definition admission_intervals (src : DeviceSources) (tables : SourceTables) (st : PhaseState)
    : DeviceRateDiagnostic + list DeviceRateAdmissionInterval :=
  append_loop (fun e => admit_release src tables st (fst e) (snd e))
    (imap pair (pl_releases (src_rate_plan src))).

(** ** The sweep *)

Record Demand : Set := mkDemand {
  dm_phase : list Z;
  dm_backend : list Z;
  dm_global : Z
}.

#[export] Instance Demand_eq_dec : EqDecision Demand.
Proof. solve_decision. Defined.

Record AdmissionEvent : Set := mkEvent {
  ev_time : Z;
  ev_release : bool;
  ev_interval : nat
}.

Record SweepState : Set := mkSweep {
  sw_demand : Demand;
  sw_intervals : list DeviceRateAdmissionInterval;
  sw_phases : list DeviceRateAdmissionPhase;
  sw_backends : list DeviceRateAdmissionBackend;
  sw_peak_global : Z
}.

(** The two events of a mandatory interval; a completion that carries over is moved into the
    supercycle. *)
Definition interval_events (supercycle : Z) (index : nat) (i : DeviceRateAdmissionInterval)
    : list AdmissionEvent :=
  if ai_optional i then []
  else
    [mkEvent (ai_release_time_ns i) true index;
     mkEvent (if ai_carries_across_supercycle i then ai_completion_deadline_ns i - supercycle
              else ai_completion_deadline_ns i) false index].

Definition event_less (l r : AdmissionEvent) : bool :=
  (ev_time l <? ev_time r) ||
  ((ev_time l =? ev_time r) &&
   ((negb (ev_release l) && ev_release r) ||
    (Bool.eqb (ev_release l) (ev_release r) && (ev_interval l <? ev_interval r)%nat))).

Definition admission_events (supercycle : Z) (intervals : list DeviceRateAdmissionInterval)
    : list AdmissionEvent :=
  std_sort event_less (mjoin (imap (interval_events supercycle) intervals)).

(** [admission_backend_by_source] *)
Definition admission_backend_by_source (src : DeviceSources) (tables : SourceTables)
    (backends : list DeviceRateAdmissionBackend) : list (option nat) :=
  foldl (fun table e => <[backend_index_for tables (ab_backend (snd e)) := Some (fst e)]> table)
    (replicate (length (src_backends src)) None) (imap pair backends).

Section Sweep.
Context (src : DeviceSources) (tables : SourceTables) (st : PhaseState) (by_source : list (option nat)).

(** [++] or [--] of the three counters of an interval. *)
Definition change_demand (change : Z) (i : DeviceRateAdmissionInterval) (d : Demand) : Demand :=
  mkDemand (alter (fun n => u32 (n + change)) (phase_index_for st (ai_phase i)) (dm_phase d))
    (alter (fun n => u32 (n + change)) (backend_index_for tables (ai_backend i)) (dm_backend d))
    (u32 (dm_global d + change)).

Definition phase_demand_of (d : Demand) (i : DeviceRateAdmissionInterval) : Z :=
  dm_phase d !!! phase_index_for st (ai_phase i).

Definition backend_demand_of (d : Demand) (i : DeviceRateAdmissionInterval) : Z :=
  dm_backend d !!! backend_index_for tables (ai_backend i).

Definition phase_limit_of (i : DeviceRateAdmissionInterval) : Z :=
  from_option dp_maximum_in_flight 0 (pst_phases st !! phase_index_for st (ai_phase i)).

Definition over_capacity (d : Demand) (i : DeviceRateAdmissionInterval) : bool :=
  (phase_limit_of i <? phase_demand_of d i) ||
  (backend_limit_of src tables (ai_backend i) <? backend_demand_of d i) ||
  (src_runtime_outstanding_capacity src <? dm_global d).

(** The intervals that carry over are in flight when the supercycle starts. *)
Fixpoint carry_demand (intervals : list DeviceRateAdmissionInterval) (d : Demand)
    : DeviceRateDiagnostic + Demand :=
  match intervals with
  | [] => inr d
  | i :: rest =>
      if ai_optional i || negb (ai_carries_across_supercycle i) then carry_demand rest d
      else
        let d' := change_demand 1 i d in
        let! _ := require (negb (over_capacity d' i))
          (release_error_at invalid_config "device-rate cyclic carry exceeds an in-flight capacity"
             (ai_phase i) (ai_reference_index i)) in
        carry_demand rest d'
  end.

Definition set_phase_peak (peak : Z) (p : DeviceRateAdmissionPhase) : DeviceRateAdmissionPhase :=
  mkAdmissionPhase (ap_phase p) (ap_backend p) (ap_completion_budget_ns p) (ap_maximum_in_flight p) peak.

Definition set_backend_peak (peak : Z) (b : DeviceRateAdmissionBackend) : DeviceRateAdmissionBackend :=
  mkAdmissionBackend (ab_backend b) (ab_maximum_in_flight b) (ab_completion_batch_capacity b) peak
    (ab_peak_completions b).

Definition set_demand_at_release (demand : Z) (i : DeviceRateAdmissionInterval)
    : DeviceRateAdmissionInterval :=
  mkAdmissionInterval (ai_reference_index i) (ai_phase i) (ai_domain i) (ai_backend i)
    (ai_release_time_ns i) (ai_completion_deadline_ns i) (ai_substep_ordinal i) (ai_optional i)
    (ai_carries_across_supercycle i) (ai_constraining_capacity i) (ai_constraining_limit i) demand.

(** The peaks before the first event. *)
Definition sweep_start (intervals : list DeviceRateAdmissionInterval)
    (backends : list DeviceRateAdmissionBackend) (d : Demand) : SweepState :=
  mkSweep d intervals
    (imap (fun index p => set_phase_peak (dm_phase d !!! index) p) (pst_admission_phases st))
    ((fun b => set_backend_peak (dm_backend d !!! backend_index_for tables (ab_backend b)) b) <$> backends)
    (dm_global d).

Definition complete_event (i : DeviceRateAdmissionInterval) (s : SweepState) : SweepState :=
  mkSweep (change_demand (-1) i (sw_demand s)) (sw_intervals s) (sw_phases s) (sw_backends s)
    (sw_peak_global s).

(** The state a release event leaves before its test. *)
Definition release_event (index : nat) (i : DeviceRateAdmissionInterval) (s : SweepState) : SweepState :=
  let d := change_demand 1 i (sw_demand s) in
  mkSweep d
    (alter (set_demand_at_release (phase_demand_of d i)) index (sw_intervals s))
    (alter (fun p => set_phase_peak (Z.max (ap_peak_in_flight p) (phase_demand_of d i)) p)
       (phase_index_for st (ai_phase i)) (sw_phases s))
    (match mjoin (by_source !! backend_index_for tables (ai_backend i)) with
     | Some position =>
         alter (fun b => set_backend_peak (Z.max (ab_peak_in_flight b) (backend_demand_of d i)) b)
           position (sw_backends s)
     | None => sw_backends s
     end)
    (Z.max (sw_peak_global s) (dm_global d)).

(** [while (... time == time && !release)] *)
Fixpoint complete_events (time : Z) (events : list AdmissionEvent) (s : SweepState)
    : list AdmissionEvent * SweepState :=
  match events with
  | e :: rest =>
      if (ev_time e =? time) && negb (ev_release e) then
        complete_events time rest
          (from_option (fun i => complete_event i s) s (sw_intervals s !! ev_interval e))
      else (events, s)
  | [] => (events, s)
  end.

(** [while (... time == time && release)] *)
Fixpoint release_events (time : Z) (events : list AdmissionEvent) (s : SweepState)
    : DeviceRateDiagnostic + (list AdmissionEvent * SweepState) :=
  match events with
  | e :: rest =>
      if (ev_time e =? time) && ev_release e then
        match sw_intervals s !! ev_interval e with
        | Some i =>
            let s' := release_event (ev_interval e) i s in
            let! _ := require (negb (over_capacity (sw_demand s') i))
              (release_error_at invalid_config "device-rate release exceeds an in-flight capacity"
                 (ai_phase i) (ai_reference_index i)) in
            release_events time rest s'
        | None => release_events time rest s
        end
      else inr (events, s)
  | [] => inr (events, s)
  end.

(** The outer loop; one round takes at least one event, so that their number is fuel enough. *)
Fixpoint sweep (fuel : nat) (events : list AdmissionEvent) (s : SweepState)
    : DeviceRateDiagnostic + SweepState :=
  match fuel, events with
  | _, [] => inr s
  | O, _ :: _ => inl (device_plan_error internal_error "")
  | S fuel', e :: _ =>
      let '(after, s1) := complete_events (ev_time e) events s in
      let! taken := release_events (ev_time e) after s1 in
      sweep fuel' (fst taken) (snd taken)
  end.
End Sweep.

(** ** Completion batches *)

Definition completion_key (intervals : list DeviceRateAdmissionInterval) (c : Z * nat) : Z * Z * nat :=
  match intervals !! snd c with
  | Some i => (fst c, ai_backend i, ai_reference_index i)
  | None => (fst c, 0, 0%nat)
  end.

Definition completion_less (intervals : list DeviceRateAdmissionInterval) (l r : Z * nat) : bool :=
  let '(lt, lb, li) := completion_key intervals l in
  let '(rt, rb, ri) := completion_key intervals r in
  (lt <? rt) || ((lt =? rt) && ((lb <? rb) || ((lb =? rb) && (li <? ri)%nat))).

Definition completions_of (supercycle : Z) (intervals : list DeviceRateAdmissionInterval)
    : list (Z * nat) :=
  std_sort (completion_less intervals)
    (mjoin (imap (fun index i =>
       if ai_optional i then [] else [(ai_completion_deadline_ns i mod supercycle, index)]) intervals)).

(** Same time and same backend as the first of a run. *)
Definition same_completion (intervals : list DeviceRateAdmissionInterval) (l r : Z * nat) : bool :=
  let '(lt, lb, _) := completion_key intervals l in
  let '(rt, rb, _) := completion_key intervals r in
  (lt =? rt) && (lb =? rb).

Fixpoint run_length {A} (test : A -> bool) (l : list A) : nat :=
  match l with
  | [] => 0
  | x :: rest => if test x then S (run_length test rest) else 0
  end.

Definition set_peak_completions (count : Z) (b : DeviceRateAdmissionBackend) : DeviceRateAdmissionBackend :=
  mkAdmissionBackend (ab_backend b) (ab_maximum_in_flight b) (ab_completion_batch_capacity b)
    (ab_peak_in_flight b) (Z.max (ab_peak_completions b) count).

Fixpoint completion_runs (tables : SourceTables) (by_source : list (option nat))
    (intervals : list DeviceRateAdmissionInterval) (fuel : nat) (completions : list (Z * nat))
    (backends : list DeviceRateAdmissionBackend)
    : DeviceRateDiagnostic + list DeviceRateAdmissionBackend :=
  match fuel, completions with
  | _, [] => inr backends
  | O, _ :: _ => inl (device_plan_error internal_error "")
  | S fuel', c :: rest =>
      match intervals !! snd c with
      | None => inr backends
      | Some first =>
          let same := run_length (same_completion intervals c) rest in
          let count := u32 (Z.of_nat (S same)) in
          match mjoin (by_source !! backend_index_for tables (ai_backend first)) with
          | None => inr backends
          | Some position =>
              let backends' := alter (set_peak_completions count) position backends in
              let! _ := require
                (negb (from_option ab_completion_batch_capacity 0 (backends' !! position) <? count))
                (release_error_at invalid_config
                   "device-rate poll boundary exceeds completion-batch capacity" (ai_phase first)
                   (ai_reference_index first)) in
              completion_runs tables by_source intervals fuel' (drop same rest) backends'
          end
      end
  end.

(** ** The compiler *)

Definition compile_candidate_plan (src : DeviceSources) : DeviceRateDiagnostic + DeviceRatePlan :=
  let supercycle := supercycle_ns (src_rate_plan src) in
  let! tables := build_tables src in
  let! st := compile_device_phases src tables (binding_order src) (phase_state_start src) in
  let! _ := check_waits src tables st in
  let backends := admission_backends src (pst_backend_used st) in
  let by_source := admission_backend_by_source src tables backends in
  let! intervals := admission_intervals src tables st in
  let! initial := carry_demand src tables st intervals
    (mkDemand (replicate (length (pst_phases st)) 0) (replicate (length (src_backends src)) 0) 0) in
  let events := admission_events supercycle intervals in
  let! swept := sweep src tables st by_source (length events) events
    (sweep_start tables st intervals backends initial) in
  let! _ := require (bool_decide (sw_demand swept = initial))
    (device_plan_error invalid_config "device-rate admission is not cyclically balanced") in
  let completions := completions_of supercycle (sw_intervals swept) in
  let! reported := completion_runs tables by_source (sw_intervals swept) (length completions) completions
    (sw_backends swept) in
  inr (mkDeviceRatePlan (pst_phases st) (pst_commands st) (pst_payload_references st)
         (pst_timeline_references st)
         (mkAdmissionReport supercycle (src_runtime_outstanding_capacity src)
            (src_runtime_completion_batch_capacity src) (sw_peak_global swept) (length reported)
            (length (sw_phases swept)) (length (sw_intervals swept)))
         reported (sw_phases swept) (sw_intervals swept)).

(** The status, [output] and [diagnostic] after the call. *)
Definition compile_device_rate_plan (src : DeviceSources) (output : DeviceRatePlan)
    : Status * DeviceRatePlan * DeviceRateDiagnostic :=
  let no_diagnostic := mkDeviceDiagnostic ok None None PhaseHandle_default in
  if Nat.eqb (length (src_bindings src)) 0 then (ok, empty_device_plan, no_diagnostic)
  else if (supercycle_ns (src_rate_plan src) =? 0) || (src_runtime_outstanding_capacity src =? 0) ||
          (src_runtime_completion_batch_capacity src =? 0) ||
          negb (Nat.eqb (length (src_phases src)) (length (src_bindings src)))
  then
    let d := device_plan_error invalid_config
      "device-rate admission requires a finite plan and positive Runtime capacities" in
    (dd_status d, output, d)
  else
    match compile_candidate_plan src with
    | inl d => (dd_status d, output, d)
    | inr plan => (ok, plan, no_diagnostic)
    end.
