(* ===== verification/DeviceRatePhases.v ===== *)
(** * Device rate admission: source tables and compiled phases

    The position tables against the inventories they index, and the loop over the bindings:
    what every compiled device phase, its payload references and its timeline references
    were checked against. *)

From stdpp Require Import base list numbers sorting sets strings.
From Stdlib Require Import ZArith Lia Bool.
From S2P Require Import Prelude Handles CompiledGraph RateTimeline DeviceCommands DeviceCommandTheorems CrossRateTypes DeviceRatePlan.

Local Open Scope Z_scope.
Local Open Scope rtfw_scope.

(** ** Position tables *)

Lemma index_sources_spec positions index table table' :
  index_sources positions index table = Some table' ->
  length table' = length table /\
  (forall k v, table !! k = Some (Some v) -> table' !! k = Some (Some v)) /\
  (forall j k, positions !! j = Some k -> exists p, k = Some p /\ table' !! p = Some (Some (index + j)%nat)) /\
  (forall p v, table' !! p = Some (Some v) ->
     table !! p = Some (Some v) \/ exists j, v = (index + j)%nat /\ positions !! j = Some (Some p)).
Proof.
  revert index table. induction positions as [|[k|] positions IH]; intros index table H; simpl in H; [| |done].
  { injection H as <-. split_and!; auto. intros j k Hj. by rewrite lookup_nil in Hj. }
  destruct (table !! k) as [[]|] eqn:Hk; try done.
  apply IH in H as (Hl & Hkeep & Hpos & Hinv). rewrite length_insert in Hl.
  assert (Hlt : (k < length table)%nat) by (by eapply lookup_lt_Some).
  split_and!; [done| | |].
  - intros p v Hp. apply Hkeep. rewrite list_lookup_insert_ne; [done|]. intros ->. congruence.
  - intros [|j] p Hj; simpl in Hj.
    + injection Hj as <-. exists k. split; [done|]. rewrite Nat.add_0_r. apply Hkeep.
      by apply list_lookup_insert_eq.
    + destruct (Hpos j p Hj) as (q & -> & Hq). exists q. split; [done|]. rewrite Hq. do 2 f_equal. lia.
  - intros p v Hp. apply Hinv in Hp as [Hp|(j & -> & Hj)].
    + destruct (decide (p = k)) as [->|]; [|rewrite list_lookup_insert_ne in Hp by done; by left].
      rewrite list_lookup_insert_eq in Hp by done. injection Hp as <-. right. exists 0%nat. split; [lia|done].
    + right. exists (S j). split; [lia|done].
Qed.

(** A source table lists every source under its position, and nothing else. *)
Lemma source_table_spec positions size message table :
  source_table positions size message = inr table ->
  length table = size /\
  (forall j k, positions !! j = Some k -> exists p, k = Some p /\ table !! p = Some (Some j)) /\
  (forall p j, table !! p = Some (Some j) -> positions !! j = Some (Some p)).
Proof.
  unfold source_table. destruct (index_sources positions 0 (replicate size None)) as [t|] eqn:E; [|done].
  intros [= ->]. apply index_sources_spec in E as (Hl & _ & Hp & Hi). rewrite length_replicate in Hl.
  split_and!; [done|done|]. intros p j Hj. apply Hi in Hj as [Hj|(j' & -> & Hj)]; [|done].
  by apply lookup_replicate in Hj as [? _].
Qed.

(** What [build_tables] establishes. *)
Record tables_ok (src : DeviceSources) (tables : SourceTables) : Prop := {
  tab_backend : forall j b, src_backends src !! j = Some b ->
    table_at (st_backend tables) (backend_position (src_graph_owner src) (bk_backend b)) = Some j;
  tab_backend_at : forall p j, st_backend tables !! p = Some (Some j) ->
    exists b, src_backends src !! j = Some b /\ backend_position (src_graph_owner src) (bk_backend b) = Some p;
  tab_backend_length : length (st_backend tables) = length (src_backends src);
  tab_buffer : forall p j, st_buffer tables !! p = Some (Some j) ->
    exists b, src_buffers src !! j = Some b /\ buffer_position (src_graph_owner src) (bu_buffer b) = Some p;
  tab_timeline : forall p j, st_timeline tables !! p = Some (Some j) ->
    exists t, src_timelines src !! j = Some t /\ timeline_position (src_graph_owner src) (tl_timeline t) = Some p;
  tab_phase : forall p j, st_phase tables !! p = Some (Some j) ->
    exists s, src_phases src !! j = Some s /\ device_phase_position (src_graph_owner src) (ps_phase s) = Some p;
}.

Lemma fmap_lookup_back {A B} (f : A -> B) (l : list A) (j : nat) y :
  (f <$> l) !! j = Some y -> exists x, l !! j = Some x /\ f x = y.
Proof. rewrite list_lookup_fmap, fmap_Some. naive_solver. Qed.

Lemma build_tables_ok src tables : build_tables src = inr tables -> tables_ok src tables.
Proof.
  unfold build_tables. intros (t1 & [L1 [H1 I1]]%source_table_spec & H)%sum_bind_inr.
  apply sum_bind_inr in H as (t2 & [_ [_ I2]]%source_table_spec & H).
  apply sum_bind_inr in H as (t3 & [_ [_ I3]]%source_table_spec & H).
  apply sum_bind_inr in H as (t4 & [_ [_ I4]]%source_table_spec & [= <-]).
  split; simpl; try done.
  - intros j b Hj. destruct (H1 j (backend_position (src_graph_owner src) (bk_backend b))) as (p & E & Hp);
      [by rewrite list_lookup_fmap, Hj|]. rewrite E. simpl. by rewrite Hp.
  - intros p j Hp%I1. by apply fmap_lookup_back in Hp.
  - intros p j Hp%I2. by apply fmap_lookup_back in Hp.
  - intros p j Hp%I3. by apply fmap_lookup_back in Hp.
  - intros p j Hp%I4. by apply fmap_lookup_back in Hp.
Qed.

Lemma table_at_Some table position j :
  table_at table position = Some j <-> exists p, position = Some p /\ table !! p = Some (Some j).
Proof.
  unfold table_at. destruct position as [p|]; [|naive_solver].
  destruct (table !! p) as [[]|] eqn:E; simpl; naive_solver.
Qed.

(** ** Payload references *)

(** The range and access of a compiled reference and of a declared one. *)
Definition payload_range (r : DeviceRatePayloadReference) : Z * Z * Z * Z :=
  (pr_buffer r, pr_access r, pr_offset r, pr_bytes r).
Definition declared_range (r : HalV2BufferReference) : Z * Z * Z * Z :=
  (br_buffer_token r, br_access r, br_offset r, br_bytes r).

Definition reference_typed (r : HalV2BufferReference) : Prop := is_u64 (br_offset r) /\ is_u64 (br_bytes r).

(** A reference lies inside a registered buffer of its backend, with an access the buffer allows and
    at the granularity of the buffer. *)
Definition reference_confined (src : DeviceSources) (r : DeviceRatePayloadReference) : Prop :=
  exists b p, b ∈ src_buffers src /\
    buffer_position (src_graph_owner src) (bu_buffer b) = Some p /\
    buffer_position (src_graph_owner src) (pr_buffer r) = Some p /\
    bu_backend b = pr_backend r /\
    required_access (pr_access r) <> 0 /\
    Z.land (required_access (pr_access r)) (bu_access b) = required_access (pr_access r) /\
    0 <= pr_offset r /\ 0 < pr_bytes r /\ pr_offset r + pr_bytes r <= bu_bytes b /\
    (bu_byte_granularity b | pr_bytes r) /\ (bu_offset_granularity b | pr_offset r).

Lemma access_allowed required access :
  0 <= required < 2 ^ 32 -> Z.land required (u32 (Z.lnot access)) = 0 -> Z.land required access = required.
Proof.
  intros Hr H. unfold u32 in H. change 4294967296 with (2 ^ 32) in H.
  rewrite <- Z.land_ones, (Z.land_comm (Z.lnot access)), Z.land_assoc, Z.land_ones, Z.mod_small,
    <- Z.ldiff_land in H by lia.
  pose proof (Z.lor_ldiff_and required access) as Hl. by rewrite H, Z.lor_0_l in Hl.
Qed.

Lemma required_access_range a : 0 <= required_access a < 2 ^ 32.
Proof. unfold required_access. repeat case_match; vm_compute; done. Qed.

Section References.
Context (src : DeviceSources) (tables : SourceTables) (phase : PhaseHandle) (backend : Z).
Context (tables_fine : tables_ok src tables).
Context (buffers_typed : Forall (fun b => is_u64 (bu_bytes b)) (src_buffers src)).

(** What a reference of the phase was checked against. *)
Definition reference_of_phase (r : DeviceRatePayloadReference) : Prop :=
  pr_phase r = phase /\ pr_backend r = backend /\ role_matches (pr_role r) (pr_access r) = true /\
  reference_confined src r.

Lemma add_reference_spec command_index r reference_index kind roles out roles' :
  reference_typed r ->
  add_reference src tables phase backend command_index r reference_index kind roles = Some (out, roles') ->
  roles = pr_role out :: roles' /\ payload_range out = declared_range r /\ reference_of_phase out.
Proof.
  intros [Ho Hb] H. unfold add_reference in H. destruct roles as [|role roles]; [done|].
  destruct (find_buffer src tables (br_buffer_token r)) as [b|] eqn:Hf; [|done].
  destruct (reference_admissible b backend role r) eqn:Ha; [|done]. injection H as <- <-.
  split_and!; [done|done|]. unfold find_buffer in Hf.
  destruct (table_at _ _) as [j|] eqn:Ht; [|done]. apply table_at_Some in Ht as (p & Hp & Hj).
  destruct (tab_buffer _ _ tables_fine p j Hj) as (b' & Hb' & Hpos). simplify_eq.
  unfold reference_admissible in Ha. rewrite !andb_true_iff, !negb_true_iff, !Z.eqb_eq, !Z.eqb_neq, !Z.leb_le in Ha.
  destruct Ha as [[[[[[[[[[A1 A2] A3] A4] A5] A6] A7] A8] A9] A10] A11].
  rewrite Forall_lookup in buffers_typed. specialize (buffers_typed _ _ Hf).
  rewrite u64_small in A7 by (unfold is_u64 in *; lia). unfold is_u64 in *.
  split_and!; [done|done|done|]. exists b, p. simpl. split_and!; try done; try lia.
  - by eapply list_elem_of_lookup_2.
  - apply access_allowed; [apply required_access_range|done].
  - by apply Z.mod_divide.
  - by apply Z.mod_divide.
Qed.

Lemma add_references_spec command_index reference_index references roles outs roles' :
  Forall (fun e => reference_typed (fst e)) references ->
  add_references src tables phase backend command_index reference_index references roles = Some (outs, roles') ->
  roles = (pr_role <$> outs) ++ roles' /\ payload_range <$> outs = declared_range <$> references.*1 /\
  Forall reference_of_phase outs.
Proof.
  revert reference_index roles outs.
  induction references as [|[r kind] references IH]; intros ri roles outs Hty H; simpl in H.
  { injection H as <- <-. done. }
  apply Forall_cons_iff in Hty as [Hr Hty].
  destruct (add_reference _ _ _ _ _ _ _ _ _) as [[out roles1]|] eqn:E1; [|done].
  destruct (add_references _ _ _ _ _ _ _ _) as [[outs1 roles2]|] eqn:E2; [|done]. injection H as <- <-.
  apply add_reference_spec in E1 as (-> & Hd & Ho); [|done]. apply IH in E2 as (-> & Hds & Hos); [|done].
  split_and!; [done| |by constructor]. csimpl. by rewrite Hd, Hds.
Qed.

Lemma declared_references_fst c : (declared_references c).*1 = command_references c.
Proof.
  unfold declared_references, command_references. repeat case_match; try done.
  induction (take _ _) as [|r l IH]; csimpl; congruence.
Qed.

Lemma compile_commands_spec command_index first commands roles compiled references roles' :
  Forall reference_typed (commands ≫= command_references) ->
  compile_commands src tables phase backend command_index first commands roles =
    inr (compiled, references, roles') ->
  roles = (pr_role <$> references) ++ roles' /\
  payload_range <$> references = declared_range <$> (commands ≫= command_references) /\
  Forall reference_of_phase references /\ length compiled = length commands.
Proof.
  revert command_index first roles compiled references.
  induction commands as [|c commands IH]; intros ci first roles compiled references Hty H; simpl in H.
  { injection H as <- <- <-. done. }
  csimpl in Hty. apply Forall_app in Hty as [Hc Hty].
  destruct (add_references _ _ _ _ _ _ _ _) as [[refs roles1]|] eqn:E1; [|done].
  apply sum_bind_inr in H as ([[compiled1 later] roles2] & E2 & [= <- <- <-]).
  apply add_references_spec in E1 as (-> & Hd & Ho).
  2: { rewrite <- declared_references_fst, Forall_fmap in Hc. exact Hc. }
  apply IH in E2 as (-> & Hds & Hos & Hl); [|done]. csimpl.
  rewrite !fmap_app, Hd, Hds, declared_references_fst, <- app_assoc. split_and!; try done; [by apply Forall_app|].
  by rewrite Hl.
Qed.
End References.

(** ** Timeline references *)

Definition timeline_of_phase (src : DeviceSources) (tables : SourceTables) (phase : PhaseHandle) (backend : Z)
    (role : DeviceRateTimelineRole) (r : DeviceRateTimelineReference) : Prop :=
  tr_phase r = phase /\ tr_backend r = backend /\ tr_role r = role /\
  exists t, find_timeline src tables (tr_timeline r) = Some t /\ tl_backend t = backend.

Lemma compile_points_spec src tables phase backend role message index earlier points out :
  compile_points src tables phase backend role message index earlier points = inr out ->
  tr_timeline <$> out = tp_timeline_handle <$> points /\
  Forall (timeline_of_phase src tables phase backend role) out /\
  NoDup (tr_timeline <$> out) /\ (forall h, h ∈ tr_timeline <$> out -> h ∉ earlier).
Proof.
  revert index earlier out. induction points as [|p points IH]; intros index earlier out H; simpl in H.
  { injection H as <-. split_and!; [done|constructor|constructor|]. intros h Hh. by apply elem_of_nil in Hh. }
  destruct (find_timeline src tables (tp_timeline_handle p)) as [t|] eqn:Hf; [|done].
  apply sum_bind_inr in H as (u & Hr%require_inr & H). apply andb_true_iff in Hr as [Hb%Z.eqb_eq Hn].
  rewrite negb_true_iff, bool_decide_eq_false in Hn.
  apply sum_bind_inr in H as (rest & Hrest & [= <-]).
  apply IH in Hrest as (Hmap & Hall & Hnd & Hear). csimpl. rewrite Hmap. split_and!; [done| | |].
  - constructor; [|done]. split_and!; try done. by exists t.
  - rewrite <- Hmap. constructor; [|done]. intros Hin. apply Hear in Hin. apply Hin, elem_of_app. right. by left.
  - rewrite <- Hmap. intros h [->|Hh]%elem_of_cons; [done|]. apply Hear in Hh. intros Hin. apply Hh, elem_of_app.
    by left.
Qed.

(** ** The loop over the bindings *)

(** The values a call is given, within their types. *)
Record sources_typed (src : DeviceSources) : Prop := {
  typ_buffers : Forall (fun b => is_u64 (bu_bytes b)) (src_buffers src);
  typ_declarations : forall s d, s ∈ src_phases src -> ps_declaration s = Some d ->
    batch_typed d /\ Forall reference_typed (batch_references d);
  typ_bindings : Forall (fun b => is_u32 (db_maximum_in_flight b) /\ is_u64 (db_completion_budget_ns b))
    (src_bindings src);
  typ_backends : Forall (fun b => is_u32 (cap_max_in_flight_batches (bk_capabilities b)) /\
    is_u32 (cap_completion_batch_capacity (bk_capabilities b))) (src_backends src);
  typ_runtime : is_u32 (src_runtime_outstanding_capacity src) /\ is_u32 (src_runtime_completion_batch_capacity src);
  typ_supercycle : is_u64 (supercycle_ns (src_rate_plan src));
  typ_releases : Forall (fun r => 0 <= rr_release_time_ns r < supercycle_ns (src_rate_plan src))
    (pl_releases (src_rate_plan src));
  typ_release_count : Z.of_nat (length (pl_releases (src_rate_plan src))) <= reference_release_capacity;
}.

(** What a compiled phase with its payload and timeline references was checked against. *)
Definition phase_admitted (src : DeviceSources) (tables : SourceTables) (p : DeviceRatePhase)
    (references : list DeviceRatePayloadReference) (timelines : list DeviceRateTimelineReference) : Prop :=
  exists b source declaration backend index,
    b ∈ src_bindings src /\ source ∈ src_phases src /\ ps_declaration source = Some declaration /\
    is_Some (device_phase_position (src_graph_owner src) (db_phase b)) /\
    device_phase_position (src_graph_owner src) (ps_phase source) =
      device_phase_position (src_graph_owner src) (db_phase b) /\
    src_backends src !! index = Some backend /\
    table_at (st_backend tables) (backend_position (src_graph_owner src) (ps_backend source)) = Some index /\
    phase_capable backend b declaration = true /\
    dp_phase p = db_phase b /\ dp_domain p = db_domain b /\ dp_backend p = ps_backend source /\
    dp_completion_budget_ns p = db_completion_budget_ns b /\
    dp_maximum_in_flight p = db_maximum_in_flight b /\
    pr_role <$> references = db_payload_roles b /\
    payload_range <$> references = declared_range <$> batch_references declaration /\
    Forall (reference_of_phase src (dp_phase p) (dp_backend p)) references /\
    exists waits signals, timelines = waits ++ signals /\
      tr_timeline <$> waits = batch_waits declaration /\ tr_timeline <$> signals = batch_signals declaration /\
      Forall (timeline_of_phase src tables (dp_phase p) (dp_backend p) timeline_wait) waits /\
      Forall (timeline_of_phase src tables (dp_phase p) (dp_backend p) timeline_signal) signals.

Definition slice {A} (first count : nat) (l : list A) : list A := take count (drop first l).

Lemma slice_app {A} first count (l l' : list A) :
  (first + count <= length l)%nat -> slice first count (l ++ l') = slice first count l.
Proof.
  intros H. unfold slice. rewrite drop_app_le by lia. rewrite take_app_le; [done|]. rewrite length_drop. lia.
Qed.

Lemma slice_end {A} (l l' : list A) : slice (length l) (length l') (l ++ l') = l'.
Proof. unfold slice. by rewrite drop_app_length, take_ge. Qed.

(** The invariant of the loop. *)
Record phases_inv (src : DeviceSources) (tables : SourceTables) (st : PhaseState) : Prop := {
  inv_plan_length : length (pst_plan_phase st) = length (pl_bindings (src_rate_plan src));
  inv_plan_phase : forall idx p, pst_phases st !! idx = Some p ->
    pst_plan_phase st !! phase_position (dp_phase p) = Some (Some idx);
  inv_plan_index : forall position idx, pst_plan_phase st !! position = Some (Some idx) ->
    exists p, pst_phases st !! idx = Some p /\ phase_position (dp_phase p) = position;
  inv_admission : length (pst_admission_phases st) = length (pst_phases st);
  inv_used : length (pst_backend_used st) = length (src_backends src);
  inv_phase : forall idx p, pst_phases st !! idx = Some p ->
    (dp_first_payload_reference_index p + dp_payload_reference_count p <=
       length (pst_payload_references st))%nat /\
    (dp_first_timeline_reference_index p + dp_timeline_reference_count p <=
       length (pst_timeline_references st))%nat /\
    phase_admitted src tables p
      (slice (dp_first_payload_reference_index p) (dp_payload_reference_count p) (pst_payload_references st))
      (slice (dp_first_timeline_reference_index p) (dp_timeline_reference_count p) (pst_timeline_references st)) /\
    (forall index, table_at (st_backend tables) (backend_position (src_graph_owner src) (dp_backend p)) = Some index ->
       pst_backend_used st !! index = Some true);
}.

Lemma phases_inv_start src tables : phases_inv src tables (phase_state_start src).
Proof.
  split; simpl; rewrite ?length_replicate; try done.
  - intros position idx H. by apply lookup_replicate in H as [? _].
Qed.

Lemma device_phase_position_eq owner h p :
  device_phase_position owner h = Some p -> phase_position h = p.
Proof. unfold device_phase_position, owned_position. case_match; [|done]. by intros [= <-]. Qed.

(** The results of the first test on a binding. *)
Lemma binding_sources_spec src tables st index b position compiled source declaration :
  tables_ok src tables ->
  binding_sources src tables st index b = Some (position, compiled, source, declaration) ->
  device_phase_position (src_graph_owner src) (db_phase b) = Some position /\
  (position < length (pl_bindings (src_rate_plan src)))%nat /\
  source ∈ src_phases src /\ ps_declaration source = Some declaration /\
  device_phase_position (src_graph_owner src) (ps_phase source) = Some position /\
  pst_plan_phase st !!! position = None.
Proof.
  intros Ht H. unfold binding_sources in H.
  destruct (device_phase_position _ (db_phase b)) as [pos|] eqn:Hp; [|done].
  destruct (table_at (st_phase tables) (Some pos) ≫= (src_phases src !!.)) as [s|] eqn:Hs; [|done].
  destruct (_ ≫= (pl_bindings _ !!.)) as [c|]; [|done].
  destruct (ps_declaration s) as [d|] eqn:Hd; [|done].
  destruct (_ && _) eqn:Hc; [|done]. injection H as -> -> -> ->.
  rewrite !andb_true_iff in Hc. destruct Hc as [[[[[[[[[Hlt _] _] _] _] _] _] _] _] Hn].
  apply bind_Some in Hs as (j & Hj & Hs). apply table_at_Some in Hj as (p & [= <-] & Hj).
  destruct (tab_phase _ _ Ht _ _ Hj) as (s' & Hs' & Hpos). simplify_eq.
  split_and!; try done.
  - by apply Nat.ltb_lt.
  - by eapply list_elem_of_lookup_2.
  - by apply bool_decide_eq_true in Hn.
Qed.

(** The new phase, with the references the step appends. *)
Lemma compile_device_phase_cases src tables st index st' :
  tables_ok src tables -> sources_typed src ->
  compile_device_phase src tables st index = inr st' ->
  st' = st \/
  exists p commands references timelines position admission used,
    st' = mkPhaseState (pst_phases st ++ [p]) (pst_commands st ++ commands)
            (pst_payload_references st ++ references) (pst_timeline_references st ++ timelines)
            (pst_admission_phases st ++ [admission])
            (<[position := Some (length (pst_phases st))]> (pst_plan_phase st))
            (<[used := true]> (pst_backend_used st)) /\
    phase_admitted src tables p references timelines /\
    dp_first_payload_reference_index p = length (pst_payload_references st) /\
    dp_payload_reference_count p = length references /\
    dp_first_timeline_reference_index p = length (pst_timeline_references st) /\
    dp_timeline_reference_count p = length timelines /\
    device_phase_position (src_graph_owner src) (dp_phase p) = Some position /\
    (position < length (pl_bindings (src_rate_plan src)))%nat /\ pst_plan_phase st !!! position = None /\
    table_at (st_backend tables) (backend_position (src_graph_owner src) (dp_backend p)) = Some used /\
    (used < length (src_backends src))%nat.
Proof.
  intros Ht Hty H. unfold compile_device_phase in H.
  destruct (src_bindings src !! index) as [b|] eqn:Hb; [|by left; simplify_eq].
  destruct (binding_sources src tables st index b) as [[[[pos c] s] d]|] eqn:Hs; [|done].
  apply binding_sources_spec in Hs as (Hp & Hlt & Hin & Hd & Hps & Hnone); [|done].
  destruct (table_at (st_backend tables) _) as [bi|] eqn:Hbi; [|done].
  destruct (src_backends src !! bi) as [bk|] eqn:Hbk; [|by left; simplify_eq].
  apply sum_bind_inr in H as (u1 & _ & H). apply sum_bind_inr in H as (u2 & Hcap%require_inr & H).
  apply sum_bind_inr in H as ([[commands references] roles] & Hc & H).
  apply sum_bind_inr in H as (u3 & Hroles%require_inr & H). apply bool_decide_eq_true in Hroles. subst roles.
  apply sum_bind_inr in H as (waits & Hw & H). apply sum_bind_inr in H as (signals & Hsig & [= <-]).
  destruct (typ_declarations _ Hty s d Hin Hd) as [Htd Hrt].
  apply compile_commands_spec in Hc as (Hro & Hra & Hre & _); [|done|apply Hty|done].
  apply compile_points_spec in Hw as (Hw & Hwa & _). apply compile_points_spec in Hsig as (Hsig & Hsa & _).
  right. do 7 eexists. split; [done|]. split; [|by rewrite length_app; split_and!; simpl; eauto using lookup_lt_Some].
  exists b, s, d, bk, bi. simpl. rewrite Hps, Hp, app_nil_r in *.
  split_and!; try done; [by eapply list_elem_of_lookup_2|]. by exists waits, signals.
Qed.

Lemma compile_device_phase_inv src tables st index st' :
  tables_ok src tables -> sources_typed src -> phases_inv src tables st ->
  compile_device_phase src tables st index = inr st' -> phases_inv src tables st'.
Proof.
  intros Ht Hty Hinv H. destruct (compile_device_phase_cases _ _ _ _ _ Ht Hty H)
    as [->|(p & cs & refs & tls & pos & ad & used & -> & Hadm & F1 & F2 & F3 & F4 & Hpos & Hlt & Hnone & Hused & Hul)]; [done|].
  apply device_phase_position_eq in Hpos as Hpp. destruct Hinv as [I1 I2 I3 I4 I5 I6].
  assert (Hlk : pst_plan_phase st !! pos = Some None).
  { destruct (lookup_lt_is_Some_2 (pst_plan_phase st) pos) as [v Hv]; [lia|].
    by rewrite (list_lookup_total_correct _ _ _ Hv) in Hnone; subst. }
  split; simpl.
  - by rewrite length_insert.
  - intros idx q Hq. apply lookup_snoc_Some in Hq as [[Hidx Hq]|[-> <-]].
    + apply I2 in Hq as Hq'. rewrite list_lookup_insert_ne; [done|]. congruence.
    + rewrite Hpp. apply list_lookup_insert_eq. lia.
  - intros position idx Hq. destruct (decide (position = pos)) as [->|Hne].
    + rewrite list_lookup_insert_eq in Hq by lia. injection Hq as <-. exists p. split; [|done].
      by apply list_lookup_middle.
    + rewrite list_lookup_insert_ne in Hq by done. apply I3 in Hq as (q & Hq & Hqp). exists q.
      split; [by apply lookup_app_l_Some|done].
  - rewrite !length_app. simpl. lia.
  - by rewrite length_insert.
  - intros idx q Hq. apply lookup_snoc_Some in Hq as [[Hidx Hq]|[-> <-]].
    + destruct (I6 _ _ Hq) as (B1 & B2 & Ha & Hu). rewrite !slice_app by done. rewrite !length_app.
      split_and!; [lia|lia|done|]. intros i Hi. destruct (decide (i = used)) as [->|].
      * apply list_lookup_insert_eq. lia.
      * rewrite list_lookup_insert_ne by done. by apply Hu.
    + rewrite F1, F2, F3, F4, !slice_end, !length_app. split_and!; [lia|lia|done|]. intros i Hi. rewrite Hused in Hi.
      injection Hi as <-. apply list_lookup_insert_eq. lia.
Qed.

Lemma compile_device_phases_inv src tables order st st' :
  tables_ok src tables -> sources_typed src -> phases_inv src tables st ->
  compile_device_phases src tables order st = inr st' -> phases_inv src tables st'.
Proof.
  intros Ht Hty. revert st. induction order as [|index order IH]; intros st Hinv H; simpl in H.
  { by injection H as <-. }
  apply sum_bind_inr in H as (st1 & H1 & H). eapply IH; [|done]. by eapply compile_device_phase_inv.
Qed.

(** The values of a compiled phase are those of its binding, within their types. *)
Lemma phase_typed src tables st p :
  sources_typed src -> phases_inv src tables st -> p ∈ pst_phases st ->
  is_u32 (dp_maximum_in_flight p) /\ is_u64 (dp_completion_budget_ns p).
Proof.
  intros Hty Hinv [idx Hp]%list_elem_of_lookup_1.
  destruct (inv_phase _ _ _ Hinv _ _ Hp) as (_ & _ & (b & s & d & bk & bi & Hb & _ & _ & _ & _ & _ & _ & _ & _ & _ & _ & Hbud & Hmax & _) & _).
  pose proof (typ_bindings _ Hty) as HF. rewrite Forall_forall in HF. rewrite Hbud, Hmax. by apply HF.
Qed.
