(* ===== verification/DeviceRateWaits.v ===== *)
(** * Device rate admission: the wait graph

    [check_waits] accepts only when the phases have an order in which the phase that signals a
    timeline precedes every phase that waits on it. *)

From stdpp Require Import base list numbers sorting sets strings.
From Stdlib Require Import ZArith Lia Bool.
From S2P Require Import Prelude Handles CompiledGraph GraphOrder GraphConflicts RateTimeline DeviceCommands DeviceCommandTheorems CrossRateTypes DeviceRatePlan DeviceRatePhases.

Local Open Scope Z_scope.
Local Open Scope rtfw_scope.

(** ** The stack loop *)

Lemma release_waiters_spec n next (c : nat -> nat) indegree ready indegree' ready' :
  NoDup next -> Forall (fun q => q < n)%nat next -> length indegree = n ->
  (forall q, (q < n)%nat -> indegree !!! q = Z.of_nat (c q) /\ Z.of_nat (c q) <= u64_max) ->
  (forall q, q ∈ next -> 0 < c q)%nat ->
  release_waiters next indegree ready = (indegree', ready') ->
  length indegree' = n /\
  (forall q, (q < n)%nat -> indegree' !!! q = Z.of_nat (c q - occ next q)) /\
  exists added, ready' = added ++ ready /\ NoDup added /\ (forall q, q ∈ added <-> q ∈ next /\ c q = 1%nat).
Proof.
  revert c indegree ready. induction next as [|s next IH]; intros c indegree ready Hnd Hlt Hlen Hc Hpos E; simpl in E.
  { injection E as <- <-. split_and!; [done| |].
    - intros q Hq. simpl. rewrite Nat.sub_0_r. by apply Hc.
    - exists []. split_and!; [done|constructor|]. intros q. set_solver. }
  apply NoDup_cons in Hnd as [Hs Hnd]. apply Forall_cons_iff in Hlt as [Hsn Hlt].
  destruct (Hc s Hsn) as [Es Hmax]. pose proof (Hpos s ltac:(by left)) as Hs0.
  assert (Hdec : u64 (indegree !!! s - 1) = Z.of_nat (c s - 1)).
  { rewrite Es. unfold u64, u64_max in *. rewrite Z.mod_small; lia. }
  rewrite Hdec in E. apply (IH (fun q => if decide (q = s) then (c s - 1)%nat else c q)) in E as (L & I & added & -> & Na & Ma).
  - split_and!; [done| |].
    + intros q Hq. rewrite I by done. simpl. destruct (Nat.eq_dec s q) as [->|Hne].
      * rewrite decide_True by done. lia.
      * by rewrite decide_False.
    + assert (Hsa : s ∉ added) by (rewrite Ma; tauto).
      assert (Hm : forall q, q ∈ added <-> q ∈ next /\ c q = 1%nat).
      { intros q. rewrite Ma. case_decide; [subst; tauto|done]. }
      destruct (Z.eqb_spec (Z.of_nat (c s - 1)) 0).
      * exists (added ++ [s]). rewrite <- app_assoc. split_and!; [done| |].
        -- rewrite Permutation_app_comm. by constructor.
        -- intros q. rewrite elem_of_app, list_elem_of_singleton, elem_of_cons, Hm.
           destruct (decide (q = s)) as [->|]; naive_solver lia.
      * exists added. split_and!; [done..|]. intros q. rewrite elem_of_cons, Hm. naive_solver lia.
  - done.
  - done.
  - by rewrite length_insert.
  - intros q Hq. case_decide as Hd.
    + subst q. rewrite list_lookup_total_insert_eq by lia. lia.
    + rewrite list_lookup_total_insert_ne by done. by apply Hc.
  - intros q Hq. rewrite decide_False by (intros ->; done). apply Hpos. by right.
Qed.

Section Visit.
Context (n : nat) (graph : list (list nat)).
Context (rows : forall p, NoDup (graph !!! p) /\ Forall (fun q => q < n)%nat (graph !!! p)).
Context (small : Z.of_nat n <= u64_max).

Abbreviation rem := (remaining (seq 0 n) graph).

(** A list in which every element comes after its predecessors. *)
Definition topological (order : list nat) : Prop :=
  forall k q, order !! k = Some q -> forall p, (p < n)%nat -> q ∈ graph !!! p -> p ∈ take k order.

Record visit_inv (indegree : list Z) (ready visited : list nat) : Prop := {
  vi_length : length indegree = n;
  vi_nodup : NoDup (visited ++ ready);
  vi_lt : forall q, q ∈ visited ++ ready -> (q < n)%nat;
  vi_indegree : forall q, (q < n)%nat -> indegree !!! q = Z.of_nat (rem visited q);
  vi_ready : forall q, q ∈ visited ++ ready -> rem visited q = 0%nat;
  vi_topological : topological visited;
}.

Lemma rem_small visited q : Z.of_nat (rem visited q) <= u64_max.
Proof.
  assert (rem visited q <= n)%nat; [|lia]. unfold remaining.
  transitivity (sum_list_with (fun _ => 1%nat) (seq 0 n)).
  - apply sum_list_with_le. intros p _. case_bool_decide; [lia|].
    destruct (rows p) as [Hnd _]. apply NoDup_ListNoDup in Hnd.
    by apply (NoDup_count_occ Nat.eq_dec).
  - rewrite (sum_list_with_const _ 1%nat) by done. rewrite length_seq. lia.
Qed.

Lemma rem_step_graph visited p q :
  (p < n)%nat -> p ∉ visited -> (rem (visited ++ [p]) q + occ (graph !!! p) q)%nat = rem visited q.
Proof. intros Hp Hno. apply remaining_step; [apply NoDup_seq|apply elem_of_seq; lia|done]. Qed.

Lemma visit_step indegree current ready visited indegree' ready' :
  visit_inv indegree (current :: ready) visited ->
  release_waiters (graph !!! current) indegree ready = (indegree', ready') ->
  visit_inv indegree' ready' (visited ++ [current]).
Proof.
  intros [Hl Hnd Hlt Hi Hr Ht] E. destruct (rows current) as [Hrow Hrange].
  assert (Hcn : (current < n)%nat) by (apply Hlt; set_solver).
  pose proof Hnd as Hnd'. apply NoDup_app in Hnd' as (Hv & Hdis & Hnd2). apply NoDup_cons in Hnd2 as [Hcr Hnd2].
  assert (Hcv : current ∉ visited) by (intros H; apply Hdis in H; set_solver).
  assert (Hnew : forall q, q ∈ graph !!! current -> (0 < rem visited q)%nat).
  { intros q Hq%occ_elem. rewrite <- (rem_step_graph visited current q) by done. lia. }
  apply (release_waiters_spec n _ (rem visited)) in E as (L & I & added & -> & Na & Ma);
    [|done|done|done|intros q Hq; split; [by apply Hi|apply rem_small]|done].
  assert (Hfresh : forall q, q ∈ added -> q ∉ visited ++ current :: ready).
  { intros q [Hq Hone]%Ma Hin. apply Hr in Hin. lia. }
  assert (Hmem : forall q, q ∈ (visited ++ [current]) ++ added ++ ready -> q ∈ added \/ q ∈ visited ++ current :: ready).
  { intros q. rewrite !elem_of_app, elem_of_cons, elem_of_nil, elem_of_cons. tauto. }
  constructor.
  - done.
  - assert ((visited ++ [current]) ++ added ++ ready ≡ₚ added ++ visited ++ current :: ready) as ->.
    { rewrite <- app_assoc. simpl. rewrite (Permutation_app_comm added (visited ++ _)), <- app_assoc.
      apply Permutation_app_head. simpl. constructor. apply Permutation_app_comm. }
    apply NoDup_app. split_and!; [done| |done]. intros q Hq. by apply Hfresh.
  - intros q [Hq|Hq]%Hmem; [|by apply Hlt]. apply Ma in Hq as [Hq _]. rewrite Forall_forall in Hrange. by apply Hrange.
  - intros q Hq. rewrite I by done. f_equal. rewrite <- (rem_step_graph visited current q) by done. lia.
  - intros q Hq. pose proof (rem_step_graph visited current q Hcn Hcv) as Hstep. apply Hmem in Hq as [Hq|Hq].
    + apply Ma in Hq as [Hq%occ_elem Hone]. lia.
    + apply Hr in Hq. lia.
  - intros k q Hk p Hp Hq. apply lookup_app_Some in Hk as [Hk|[Hge Hk]].
    + pose proof (lookup_lt_Some _ _ _ Hk). rewrite take_app_le by lia. by eapply Ht.
    + apply list_lookup_singleton_Some in Hk as [Hk <-]. rewrite take_app_length' by lia.
      eapply (remaining_zero (seq 0 n) graph visited current); [apply Hr; set_solver|apply elem_of_seq; lia|done].
Qed.

Lemma visit_inv_length indegree ready visited :
  visit_inv indegree ready visited -> (length visited + length ready <= n)%nat.
Proof.
  intros Hinv. rewrite <- length_app, <- (length_seq n 0).
  apply submseteq_length, NoDup_submseteq; [apply Hinv|]. intros q Hq%Hinv. apply elem_of_seq. lia.
Qed.

(** The loop runs to the end within [n] rounds. *)
Lemma visit_loop_spec fuel indegree ready visited :
  visit_inv indegree ready visited -> (n <= length visited + fuel)%nat ->
  exists order indegree', visit_loop fuel graph indegree ready visited = Some order /\ visit_inv indegree' [] order.
Proof.
  revert indegree ready visited. induction fuel as [|fuel IH]; intros indegree [|current ready] visited Hinv Hf; simpl;
    try by eauto.
  - apply visit_inv_length in Hinv. simpl in Hinv. lia.
  - destruct (release_waiters (graph !!! current) indegree ready) as [indegree' ready'] eqn:E.
    apply IH; [by eapply visit_step|]. rewrite length_app. simpl. lia.
Qed.

Lemma visit_start indegree :
  length indegree = n -> (forall q, (q < n)%nat -> indegree !!! q = Z.of_nat (rem [] q)) ->
  visit_inv indegree (initial_waiters indegree) [].
Proof.
  intros Hl Hi. unfold initial_waiters.
  assert (Hm : forall q, q ∈ reverse (filter (fun index => indegree !!! index = 0) (seq 0 (length indegree))) <->
                         (q < n)%nat /\ indegree !!! q = 0).
  { intros q. rewrite elem_of_reverse, list_elem_of_filter, elem_of_seq. lia. }
  constructor; simpl; try done.
  - rewrite reverse_Permutation. apply NoDup_filter, NoDup_seq.
  - intros q Hq. by apply Hm in Hq as [? _].
  - intros q [Hq Hz]%Hm. rewrite Hi in Hz by done. lia.
Qed.

Lemma visit_complete indegree :
  length indegree = n -> (forall q, (q < n)%nat -> indegree !!! q = Z.of_nat (rem [] q)) ->
  exists order, visit_loop n graph indegree (initial_waiters indegree) [] = Some order /\
    NoDup order /\ (forall q, q ∈ order -> (q < n)%nat) /\ topological order.
Proof.
  intros Hl Hi. destruct (visit_loop_spec n indegree (initial_waiters indegree) []) as (order & ind' & E & Hinv);
    [by apply visit_start|simpl; lia|]. destruct Hinv as [_ H1 H2 _ _ H3]. rewrite app_nil_r in *. eauto.
Qed.
End Visit.

(** ** The references of the phases *)

Lemma elem_of_mjoin_imap {A B} (f : nat -> A -> list B) (l : list A) y :
  y ∈ mjoin (imap f l) <-> exists k x, l !! k = Some x /\ y ∈ f k x.
Proof.
  rewrite list_elem_of_join. split.
  - intros (ys & Hy & [k Hk]%list_elem_of_lookup_1). rewrite list_lookup_imap in Hk.
    destruct (l !! k) as [x|] eqn:Hx; simplify_eq/=. eauto.
  - intros (k & x & Hx & Hy). exists (f k x). split; [done|]. apply (list_elem_of_lookup_2 _ k).
    by rewrite list_lookup_imap, Hx.
Qed.

Lemma references_of_elem role st k phase timeline :
  (k, phase, timeline) ∈ references_of role st <->
  exists p r, pst_phases st !! k = Some p /\ phase = dp_phase p /\ r ∈ phase_timelines st p /\
    tr_role r = role /\ timeline = tr_timeline r.
Proof.
  unfold references_of. rewrite elem_of_mjoin_imap. setoid_rewrite list_elem_of_fmap.
  setoid_rewrite list_elem_of_filter. naive_solver.
Qed.

Section Waits.
Context (src : DeviceSources) (tables : SourceTables) (tables_fine : tables_ok src tables).

Lemma timeline_ordinal_lt timeline o :
  timeline_ordinal src tables timeline = Some o -> (o < length (src_timelines src))%nat.
Proof.
  intros (p & _ & Hp)%table_at_Some. destruct (tab_timeline _ _ tables_fine _ _ Hp) as (t & Ht & _).
  by eapply lookup_lt_Some.
Qed.

(** A timeline that some phase signals has one owner. *)
Lemma signal_owners_spec signals owners owners' :
  signal_owners src tables signals owners = inr owners' -> length owners = length (src_timelines src) ->
  (forall o s, owners !!! o = Some s -> owners' !!! o = Some s) /\
  (forall s phase timeline, (s, phase, timeline) ∈ signals ->
     exists o, timeline_ordinal src tables timeline = Some o /\ owners' !!! o = Some s) /\
  (forall o s, owners' !!! o = Some s -> owners !!! o = Some s \/
     exists phase timeline, (s, phase, timeline) ∈ signals /\ timeline_ordinal src tables timeline = Some o).
Proof.
  revert owners. induction signals as [|[[s phase] timeline] signals IH]; intros owners H Hl; simpl in H.
  { injection H as <-. split_and!; [done| |by left]. intros s phase timeline Hs. by apply elem_of_nil in Hs. }
  destruct (timeline_ordinal src tables timeline) as [o|] eqn:Ho; [|done].
  apply sum_bind_inr in H as (u & Hn%require_inr & H). apply bool_decide_eq_true in Hn.
  apply timeline_ordinal_lt in Ho as Hlt. apply IH in H as (H1 & H2 & H3); [|by rewrite length_insert].
  split_and!.
  - intros o' s' Hs'. apply H1. rewrite list_lookup_total_insert_ne; [done|]. intros ->. congruence.
  - intros s' phase' timeline' [Heq|Hs']%elem_of_cons; [|by eapply H2]. injection Heq as -> -> ->.
    exists o. split; [done|]. apply H1. by rewrite list_lookup_total_insert_eq by lia.
  - intros o' s' [Hs'|(phase' & timeline' & Hs' & Ho')]%H3.
    + destruct (decide (o = o')) as [<-|Hne].
      * rewrite list_lookup_total_insert_eq in Hs' by lia. injection Hs' as <-. right. exists phase, timeline.
        split; [by left|done].
      * rewrite list_lookup_total_insert_ne in Hs' by done. by left.
    + right. exists phase', timeline'. split; [by right|done].
Qed.

Section Graph.
Context (n : nat) (owners : list (option nat)).
Context (owners_lt : forall o s, owners !!! o = Some s -> (s < n)%nat) (small : Z.of_nat n <= u64_max).

Record graph_inv (graph : list (list nat)) (indegree : list Z) : Prop := {
  gi_graph : length graph = n;
  gi_length : length indegree = n;
  gi_rows : forall p, NoDup (graph !!! p) /\ Forall (fun q => q < n)%nat (graph !!! p);
  gi_indegree : forall q, (q < n)%nat -> indegree !!! q = Z.of_nat (remaining (seq 0 n) graph [] q);
}.

(** What an accepted wait was checked against. *)
Definition wait_recorded (graph : list (list nat)) (wait : nat * PhaseHandle * Z) : Prop :=
  exists o, timeline_ordinal src tables (snd wait) = Some o /\
    match owners !!! o with
    | Some owner => owner <> fst (fst wait) /\ fst (fst wait) ∈ graph !!! owner
    | None => exists t, src_timelines src !! o = Some t /\ tl_initial_value t <> 0
    end.

Lemma alter_row (graph : list (list nat)) owner w p :
  (owner < length graph)%nat ->
  alter (fun l => l ++ [w]) owner graph !!! p = (graph !!! p) ++ (if decide (p = owner) then [w] else []).
Proof.
  intros Ho. rewrite alter_lookup_total by done. case_decide as Hd; [by subst|by rewrite app_nil_r].
Qed.

Lemma add_wait_spec graph indegree wait built :
  graph_inv graph indegree -> (fst (fst wait) < n)%nat ->
  add_wait src tables owners graph indegree wait = inr built ->
  graph_inv (fst built) (snd built) /\ wait_recorded (fst built) wait /\
  (forall p q, q ∈ graph !!! p -> q ∈ fst built !!! p).
Proof.
  destruct wait as [[w phase] timeline]. simpl. intros Hinv Hw H.
  unfold wait_recorded. simpl. destruct (timeline_ordinal src tables timeline) as [o|] eqn:Ho; [|done].
  destruct (owners !!! o) as [owner|] eqn:Howner.
  - apply sum_bind_inr in H as (u & Hne%require_inr & H). apply negb_true_iff, Nat.eqb_neq in Hne.
    pose proof (owners_lt _ _ Howner) as Hlt. case_bool_decide as Hin; injection H as <-; simpl.
    { split_and!; [done| |done]. exists o. by rewrite Howner. }
    destruct Hinv as [G1 G2 G3 G4].
    assert (Hrows : forall p, NoDup (alter (fun l => l ++ [w]) owner graph !!! p) /\
                              Forall (fun q => q < n)%nat (alter (fun l => l ++ [w]) owner graph !!! p)).
    { intros p. rewrite alter_row by lia. destruct (G3 p) as [Hnd HF]. case_decide; [subst p|by rewrite app_nil_r].
      split; [|apply Forall_app; by split; [|constructor]].
      apply NoDup_app. split_and!; [done| |by apply NoDup_singleton].
      intros q Hq ->%list_elem_of_singleton. done. }
    split_and!.
    + constructor; [by rewrite length_alter|by rewrite length_alter|done|].
      intros q Hq. rewrite list_lookup_total_alt.
      pose proof (rem_small n _ Hrows small [] w) as Hb. rewrite remaining_alter in Hb |- * by done.
      destruct (decide (q = w)) as [->|Hqw].
      * rewrite decide_True in Hb |- * by done. destruct (lookup_lt_is_Some_2 indegree w) as [x Hx]; [lia|].
        rewrite list_lookup_alter_eq, Hx. simpl. pose proof (G4 w Hw) as Hv.
        rewrite (list_lookup_total_correct _ _ _ Hx) in Hv. rewrite Hv.
        unfold u64, u64_max in *. rewrite Z.mod_small; lia.
      * rewrite decide_False, list_lookup_alter_ne, <- list_lookup_total_alt, Nat.add_0_r by done. by apply G4.
    + exists o. rewrite Howner. split; [done|]. split; [done|]. rewrite alter_row, decide_True by (done || lia). set_solver.
    + intros p q Hq. rewrite alter_row by lia. set_solver.
  - apply sum_bind_inr in H as (u & Hne%require_inr & H). apply negb_true_iff, Z.eqb_neq in Hne. injection H as <-. simpl.
    split_and!; [done| |done]. exists o. rewrite Howner. split; [done|].
    destruct (src_timelines src !! o) as [t|]; simpl in Hne; [eauto|done].
Qed.

Lemma add_waits_spec waits graph indegree built :
  graph_inv graph indegree -> (forall wait, wait ∈ waits -> (fst (fst wait) < n)%nat) ->
  add_waits src tables owners waits graph indegree = inr built ->
  graph_inv (fst built) (snd built) /\ Forall (wait_recorded (fst built)) waits /\
  (forall p q, q ∈ graph !!! p -> q ∈ fst built !!! p).
Proof.
  revert graph indegree. induction waits as [|wait waits IH]; intros graph indegree Hinv Hw H; simpl in H.
  { injection H as <-. split_and!; [done|constructor|done]. }
  apply sum_bind_inr in H as (b & H1 & H). apply add_wait_spec in H1 as (I1 & R1 & M1); [|done|apply Hw; by left].
  apply IH in H as (I2 & R2 & M2); [|done|intros; apply Hw; by right].
  split_and!; [done| |auto]. constructor; [|done].
  destruct R1 as (o & Ho & Hr). exists o. split; [done|]. destruct (owners !!! o) as [owner|]; [|done].
  destruct Hr as [Hne Hin]. auto.
Qed.

Lemma graph_start : graph_inv (replicate n []) (replicate n 0).
Proof.
  assert (Hrow : forall p, (replicate n [] : list (list nat)) !!! p = []).
  { intros p. rewrite list_lookup_total_alt. destruct (replicate n [] !! p) as [row|] eqn:Hp; [|done].
    apply lookup_replicate in Hp as [-> _]. done. }
  constructor; [apply length_replicate..| |].
  - intros p. rewrite Hrow. split; constructor.
  - intros q Hq. rewrite remaining_nil.
    rewrite (sum_list_with_const _ 0%nat) by (intros p _; by rewrite Hrow).
    rewrite Nat.mul_0_r. by apply list_lookup_total_correct, lookup_replicate.
Qed.
End Graph.
End Waits.

(** ** The accepted order *)

Lemma phases_small src tables st : phases_inv src tables st -> Z.of_nat (length (pst_phases st)) <= u64_max.
Proof.
  intros Hinv. assert (Hnd : NoDup (phase_position ∘ dp_phase <$> pst_phases st)).
  { apply NoDup_alt. intros i j x Hi Hj. apply fmap_lookup_back in Hi as (p & Hp & <-), Hj as (q & Hq & Heq).
    apply (inv_plan_phase _ _ _ Hinv) in Hp, Hq. simpl in Heq. rewrite Heq, Hp in Hq. by simplify_eq. }
  assert (Hlt : forall k, k ∈ (phase_position ∘ dp_phase <$> pst_phases st) -> (k < Z.to_nat (2 ^ 32))%nat).
  { intros k [p [-> _]]%list_elem_of_fmap. unfold phase_position, PhaseHandle_index, handle_index. simpl.
    pose proof (handle_index_range (ph_value (dp_phase p))) as Hr. unfold handle_index in Hr.
    change graph_handle_index_mask with 1073741823 in *. lia. }
  revert Hnd Hlt. rewrite <- (length_fmap (phase_position ∘ dp_phase)). generalize (phase_position ∘ dp_phase <$> pst_phases st).
  intros l Hnd Hlt. assert (length l <= length (seq 0 (Z.to_nat (2 ^ 32))))%nat as H.
  { apply submseteq_length, NoDup_submseteq; [done|]. intros k Hk. apply elem_of_seq. pose proof (Hlt k Hk). lia. }
  rewrite length_seq in H. unfold u64_max. lia.
Qed.

(** [p] comes before [q]. *)
Definition before (order : list nat) (p q : nat) : Prop :=
  exists i j, order !! i = Some p /\ order !! j = Some q /\ (i < j)%nat.

Lemma check_waits_order src tables st :
  tables_ok src tables -> phases_inv src tables st -> check_waits src tables st = inr tt ->
  exists order, order ≡ₚ seq 0 (length (pst_phases st)) /\
    forall w phase timeline, (w, phase, timeline) ∈ references_of timeline_wait st ->
    exists o, timeline_ordinal src tables timeline = Some o /\
      ((exists s, (exists phase' timeline', (s, phase', timeline') ∈ references_of timeline_signal st /\
                    timeline_ordinal src tables timeline' = Some o) /\
          (forall s' phase' timeline', (s', phase', timeline') ∈ references_of timeline_signal st ->
             timeline_ordinal src tables timeline' = Some o -> s' = s) /\ before order s w) \/
       ((forall s' phase' timeline', (s', phase', timeline') ∈ references_of timeline_signal st ->
           timeline_ordinal src tables timeline' <> Some o) /\
        exists t, src_timelines src !! o = Some t /\ tl_initial_value t <> 0)).
Proof.
  intros Ht Hinv H. unfold check_waits in H. set (n := length (pst_phases st)) in *.
  pose proof (phases_small _ _ _ Hinv) as Hsmall.
  apply sum_bind_inr in H as (owners & Ho & H). apply signal_owners_spec in Ho as (_ & O1 & O2); [|done|apply length_replicate].
  assert (Hlt : forall role s phase timeline, (s, phase, timeline) ∈ references_of role st -> (s < n)%nat).
  { intros role s phase timeline (p & r & Hp & _)%references_of_elem. by eapply lookup_lt_Some. }
  assert (Hown : forall o s, owners !!! o = Some s -> exists phase timeline,
            (s, phase, timeline) ∈ references_of timeline_signal st /\ timeline_ordinal src tables timeline = Some o).
  { intros o s Hs. destruct (O2 _ _ Hs) as [Hs'|]; [|done]. rewrite list_lookup_total_alt in Hs'.
    destruct (replicate _ None !! o) as [x|] eqn:Hx; [|done]. apply lookup_replicate in Hx as [-> _]. done. }
  apply sum_bind_inr in H as (built & Hb & H).
  apply (add_waits_spec src tables Ht n owners) in Hb as (Hg & Hw & _);
    [|intros o s (phase & timeline & Hs & _)%Hown; by eapply Hlt|done|apply graph_start|intros [[w phase] timeline] Hw; by eapply Hlt].
  destruct (visit_complete n (fst built) (gi_rows _ _ _ Hg) Hsmall (snd built) (gi_length _ _ _ Hg) (gi_indegree _ _ _ Hg))
    as (order & Hv & Hnd & Hrange & Htop).
  rewrite Hv in H. apply require_inr, Nat.eqb_eq in H.
  assert (Hperm : order ≡ₚ seq 0 n).
  { apply submseteq_length_Permutation; [|by rewrite length_seq, H]. apply NoDup_submseteq; [done|].
    intros q Hq%Hrange. apply elem_of_seq. lia. }
  exists order. split; [done|]. intros w phase timeline Hin. rewrite Forall_forall in Hw.
  destruct (Hw _ Hin) as (o & Hord & Hrec). simpl in *. exists o. split; [done|].
  destruct (owners !!! o) as [s|] eqn:Hs.
  - left. exists s. split_and!; [by apply Hown| |].
    + intros s' phase' timeline' Hs' Hord'. destruct (O1 _ _ _ Hs') as (o' & Ho' & Howner). congruence.
    + destruct Hrec as [_ Hedge]. assert (Hwin : w ∈ order).
      { rewrite Hperm. apply elem_of_seq. pose proof (Hlt _ _ _ _ Hin). lia. }
      apply list_elem_of_lookup_1 in Hwin as [j Hj]. destruct (Hown _ _ Hs) as (ph & tl & Hsin & _).
      pose proof (Htop j w Hj s (Hlt _ _ _ _ Hsin) Hedge) as [i Hi]%list_elem_of_lookup_1.
      apply lookup_take_Some in Hi as [Hi Hij]. by exists i, j.
  - right. split; [|done]. intros s' phase' timeline' Hs' Hord'. destruct (O1 _ _ _ Hs') as (o' & Ho' & Howner). congruence.
Qed.
