(* ===== verification/ListSums.v ===== *)
(** * Sums of integers over lists

    Counting arguments on lists: the sum of a weight, its behaviour under permutation,
    restriction, update in place and comparison. *)

From stdpp Require Import base list numbers sorting sets.
From Stdlib Require Import ZArith Lia Bool.

Local Open Scope Z_scope.

Definition zsum {A} (f : A -> Z) (l : list A) : Z := foldr (fun x acc => f x + acc) 0 l.

(** The indicator of a test. *)
Definition ind (p : bool) : Z := if p then 1 else 0.

Lemma zsum_app {A} (f : A -> Z) l l' : zsum f (l ++ l') = zsum f l + zsum f l'.
Proof. induction l as [|x l IH]; simpl; lia. Qed.

#[export] Instance zsum_perm {A} (f : A -> Z) : Proper ((≡ₚ) ==> eq) (zsum f).
Proof. intros l l' H. induction H; simpl; lia. Qed.

Lemma zsum_filter {A} (f : A -> Z) (P : A -> Prop) `{!forall x, Decision (P x)} l :
  zsum f (filter P l) = zsum (fun x => if decide (P x) then f x else 0) l.
Proof.
  induction l as [|x l IH]; [done|]. rewrite filter_cons. simpl. destruct (decide (P x)); simpl; lia.
Qed.

Lemma zsum_ext {A} (f g : A -> Z) l : (forall x, x ∈ l -> f x = g x) -> zsum f l = zsum g l.
Proof.
  induction l as [|x l IH]; simpl; intros H; [done|]. rewrite H by (by left).
  rewrite IH; [done|]. intros y Hy. apply H. by right.
Qed.

Lemma zsum_length {A} (P : A -> Prop) `{!forall x, Decision (P x)} l :
  zsum (fun x => if decide (P x) then 1 else 0) l = Z.of_nat (length (filter P l)).
Proof.
  induction l as [|x l IH]; [done|]. rewrite filter_cons. simpl. destruct (decide (P x)); simpl; lia.
Qed.

(** A sum over the blocks of an indexed list. *)
Lemma zsum_imap {A B} (f : B -> Z) (blocks : nat -> A -> list B) (g : A -> Z) l :
  (forall k x, l !! k = Some x -> zsum f (blocks k x) = g x) ->
  zsum f (mjoin (imap blocks l)) = zsum g l.
Proof.
  revert blocks. induction l as [|x l IH]; intros blocks H; [done|]. simpl. rewrite zsum_app.
  rewrite (H 0%nat x) by done. f_equal. apply (IH (fun k => blocks (S k))). intros k y Hy. by apply (H (S k)).
Qed.

Lemma zsum_le {A} (f g : A -> Z) l : (forall x, x ∈ l -> f x <= g x) -> zsum f l <= zsum g l.
Proof.
  induction l as [|x l IH]; simpl; intros H; [done|]. assert (zsum f l <= zsum g l) by (apply IH; intros y Hy; apply H; by right).
  specialize (H x ltac:(by left)). lia.
Qed.

Lemma zsum_const {A} c (l : list A) : zsum (fun _ => c) l = c * Z.of_nat (length l).
Proof. induction l as [|x l IH]; simpl; lia. Qed.

Lemma zsum_seq {A} (f : A -> Z) l : zsum f l = zsum (fun x => from_option f 0 (l !! x)) (seq 0 (length l)).
Proof.
  induction l as [|x l IH]; [done|]. simpl. rewrite IH. f_equal. rewrite <- fmap_S_seq.
  generalize (seq 0 (length l)). intros s. induction s as [|y s IHs]; simpl; [done|]. by rewrite IHs.
Qed.

Lemma zsum_insert {A} (f : A -> Z) l n x y :
  l !! n = Some x -> zsum f (<[n := y]> l) = zsum f l - f x + f y.
Proof.
  revert n. induction l as [|z l IH]; intros [|n] H; [done|done| |].
  { simpl in H. injection H as ->. simpl. lia. }
  simpl in H. simpl. rewrite (IH n) by done. lia.
Qed.

Lemma zsum_nonneg {A} (f : A -> Z) l : (forall x, x ∈ l -> 0 <= f x) -> 0 <= zsum f l.
Proof. intros H. rewrite <- (Z.mul_0_l (Z.of_nat (length l))), <- zsum_const. by apply zsum_le. Qed.

(** A positive sum has a positive term. *)
Lemma zsum_pos {A} (f : A -> Z) l : 0 < zsum f l -> exists x, x ∈ l /\ 0 < f x.
Proof.
  induction l as [|x l IH]; simpl; [lia|]. intros H. destruct (decide (0 < f x)); [exists x; split; [by left | done]|].
  destruct IH as (y & ? & ?); [lia|]. exists y. split; [by right | done].
Qed.

Lemma zsum_add {A} (f g : A -> Z) l : zsum (fun x => f x + g x) l = zsum f l + zsum g l.
Proof. induction l as [|x l IH]; simpl; lia. Qed.

Lemma zsum_opp {A} (f : A -> Z) l : zsum (fun x => - f x) l = - zsum f l.
Proof. induction l as [|x l IH]; simpl; lia. Qed.

Lemma zsum_bind {A B} (f : B -> Z) (g : A -> list B) l : zsum f (l ≫= g) = zsum (fun x => zsum f (g x)) l.
Proof. induction l as [|x l IH]; [done|]. rewrite bind_cons, zsum_app, IH. done. Qed.

Lemma zsum_fmap {A B} (f : B -> Z) (g : A -> B) l : zsum f (g <$> l) = zsum (fun x => f (g x)) l.
Proof. induction l as [|x l IH]; [done|]. rewrite fmap_cons. simpl. by rewrite IH. Qed.

(** Lists with the same multiplicities are permutations of each other. *)
Lemma zsum_permutation {A} `{!EqDecision A} (l l' : list A) :
  (forall k, zsum (fun x => if decide (x = k) then 1 else 0) l = zsum (fun x => if decide (x = k) then 1 else 0) l') ->
  l ≡ₚ l'.
Proof.
  intros H. apply (Permutation_count_occ (fun x y => decide (x = y))). intros k. specialize (H k).
  assert (Hc : forall m : list A, zsum (fun x => if decide (x = k) then 1 else 0) m =
    Z.of_nat (count_occ (fun x y => decide (x = y)) m k)).
  { induction m as [|x m IH]; simpl; [done|]. rewrite IH. destruct (decide (x = k)); lia. }
  rewrite !Hc in H. lia.
Qed.

(** An update in place under a weight that changes with it, but agrees on the other entries. *)
Lemma zsum_insert_agree {A} (f g : A -> Z) l n x y :
  l !! n = Some x -> (forall m z, m <> n -> l !! m = Some z -> f z = g z) ->
  zsum f (<[n := y]> l) = zsum g l - g x + f y.
Proof.
  revert n. induction l as [|z l IH]; intros [|n] H Hag; [done|done| |].
  - simpl in H. injection H as ->. simpl.
    assert (zsum f l = zsum g l); [|lia]. apply zsum_ext. intros v (m & Hm)%list_elem_of_lookup.
    by apply (Hag (S m)).
  - simpl in H. simpl. rewrite (IH n) by (done || (intros m v Hm Hv; apply (Hag (S m)); [lia | done])).
    rewrite (Hag 0%nat z) by done. lia.
Qed.
