(* ===== verification/DeviceRateSweep.v ===== *)
(** * The admission sweep: counters against intervals

    [sweep] processes the events one by one; each counter it keeps (a phase, a backend, the
    runtime) is the number of its intervals that cover the current time.  The lemmas are stated
    once for an abstract counter and used for the three of the code. *)

From stdpp Require Import base list numbers sorting sets strings.
From Stdlib Require Import ZArith Lia Bool.
From S2P Require Import Prelude Handles CompiledGraph RateTimeline DeviceCommands CrossRateTypes DeviceRatePlan ListSums.

Local Open Scope Z_scope.
Local Open Scope rtfw_scope.

(** ** One event at a time *)

Section Sequential.
Context (src : DeviceSources) (tables : SourceTables) (st : PhaseState) (by_source : list (option nat)).

Definition sweep_event (e : AdmissionEvent) (s : SweepState) : DeviceRateDiagnostic + SweepState :=
  match sw_intervals s !! ev_interval e with
  | None => inr s
  | Some i =>
      if ev_release e then
        let s' := release_event tables st by_source (ev_interval e) i s in
        let! _ := require (negb (over_capacity src tables st (sw_demand s') i))
          (release_error_at invalid_config "device-rate release exceeds an in-flight capacity"
             (ai_phase i) (ai_reference_index i)) in
        inr s'
      else inr (complete_event tables st i s)
  end.

Fixpoint sweep_all (events : list AdmissionEvent) (s : SweepState) : DeviceRateDiagnostic + SweepState :=
  match events with
  | [] => inr s
  | e :: rest => let! s' := sweep_event e s in sweep_all rest s'
  end.

Lemma complete_events_all time events s :
  sweep_all events s =
    sweep_all (fst (complete_events tables st time events s)) (snd (complete_events tables st time events s)) /\
  (length (fst (complete_events tables st time events s)) <= length events)%nat.
Proof.
  revert s. induction events as [|e events IH]; intros s; [done|]. simpl.
  destruct (ev_time e =? time), (ev_release e) eqn:Hr; simpl; try done.
  unfold sweep_event. rewrite Hr.
  destruct (sw_intervals s !! ev_interval e) as [i|]; simpl;
    [destruct (IH (complete_event tables st i s))|destruct (IH s)]; split; try done; lia.
Qed.

Lemma release_events_all time events s :
  match release_events src tables st by_source time events s with
  | inl d => sweep_all events s = inl d
  | inr (rest, s') => sweep_all events s = sweep_all rest s' /\ (length rest <= length events)%nat
  end.
Proof.
  revert s. induction events as [|e events IH]; intros s; [done|]. simpl.
  destruct (ev_time e =? time), (ev_release e) eqn:Hr; simpl; try done.
  unfold sweep_event. rewrite Hr.
  destruct (sw_intervals s !! ev_interval e) as [i|]; simpl.
  - destruct (negb _); simpl; [|done].
    specialize (IH (release_event tables st by_source (ev_interval e) i s)).
    destruct (release_events _ _ _ _ _ _) as [|[rest s']]; [done|]. split; [tauto|lia].
  - specialize (IH s). destruct (release_events _ _ _ _ _ _) as [|[rest s']]; [done|]. split; [tauto|lia].
Qed.

(** The nested loops process the events in their order, and their number is fuel enough. *)
Lemma sweep_sequential fuel events s :
  (length events <= fuel)%nat -> sweep src tables st by_source fuel events s = sweep_all events s.
Proof.
  revert events s. induction fuel as [|fuel IH]; intros [|e events] s Hf; simpl in Hf; try done; [lia|].
  assert (Hround : forall rest s', sweep_all (e :: events) s = sweep_all rest s' ->
    (length rest <= length events)%nat -> sweep src tables st by_source fuel rest s' = sweep_all (e :: events) s).
  { intros rest s' -> Hl. apply IH. lia. }
  cbn [sweep]. destruct (complete_events tables st (ev_time e) (e :: events) s) as [after s1] eqn:Ec.
  assert (Hc : sweep_all (e :: events) s = sweep_all after s1 /\
               ((length after <= length events)%nat \/ (after = e :: events /\ s1 = s /\ ev_release e = true))).
  { simpl in Ec. rewrite Z.eqb_refl in Ec. destruct (ev_release e) eqn:Hr; simpl in Ec.
    - injection Ec as <- <-. auto.
    - destruct (complete_events_all (ev_time e) events
        (from_option (fun i => complete_event tables st i s) s (sw_intervals s !! ev_interval e))) as [H1 H2].
      rewrite Ec in H1, H2. simpl in *. split; [|by left]. rewrite <- H1. unfold sweep_event. rewrite Hr.
      by destruct (sw_intervals s !! ev_interval e). }
  destruct Hc as [Hc Hlen]. pose proof (release_events_all (ev_time e) after s1) as Hr.
  destruct (release_events src tables st by_source (ev_time e) after s1) as [d|[rest s']] eqn:Er; simpl.
  - by rewrite <- Hr, <- Hc.
  - destruct Hr as [Hr1 Hr2]. apply Hround; [by rewrite Hc|]. destruct Hlen as [?|(-> & -> & Hre)]; [lia|].
    simpl in Er. rewrite Z.eqb_refl, Hre in Er. simpl in Er.
    destruct (sw_intervals s !! ev_interval e) as [i|].
    + destruct (negb _); [|done]. simpl in Er.
      pose proof (release_events_all (ev_time e) events (release_event tables st by_source (ev_interval e) i s)) as H.
      rewrite Er in H. tauto.
    + pose proof (release_events_all (ev_time e) events s) as H. rewrite Er in H. tauto.
Qed.
End Sequential.

(** ** A counter of the sweep *)

Lemma u32_add_l a b : u32 (u32 a + b) = u32 (a + b).
Proof. unfold u32. by rewrite Zplus_mod_idemp_l. Qed.

Lemma u32_small z : is_u32 z -> u32 z = z.
Proof. unfold is_u32, u32, u32_max. intros. apply Z.mod_small. lia. Qed.

(** The interface of a counter: the intervals it counts, its value, its reported peak and its
    capacity, and what the steps of the sweep do to them. *)
Class AdmissionCounter (src : DeviceSources) (tables : SourceTables) (st : PhaseState)
    (by_source : list (option nat)) : Type := {
  mine : DeviceRateAdmissionInterval -> bool;
  get : Demand -> Z;
  peak : SweepState -> Z;
  limit : Z;
  kept : Demand -> Prop;
  reported : SweepState -> Prop;
  mine_demand : forall i d, mine (set_demand_at_release d i) = mine i;
  change_counter : forall c i d, kept d ->
    kept (change_demand tables st c i d) /\
    get (change_demand tables st c i d) = if mine i then u32 (get d + c) else get d;
  complete_peak : forall i s, reported s ->
    reported (complete_event tables st i s) /\ peak (complete_event tables st i s) = peak s;
  release_peak : forall k i s, reported s -> kept (sw_demand s) ->
    reported (release_event tables st by_source k i s) /\
    peak s <= peak (release_event tables st by_source k i s) /\
    (mine i = true -> get (sw_demand (release_event tables st by_source k i s)) <=
                      peak (release_event tables st by_source k i s));
  within_limit : forall d i, over_capacity src tables st d i = false -> mine i = true -> get d <= limit;
}.

(** What an event adds to a counter. *)
Definition weight (intervals : list DeviceRateAdmissionInterval) (mine : DeviceRateAdmissionInterval -> bool)
    (e : AdmissionEvent) : Z :=
  match intervals !! ev_interval e with
  | Some i => if mine i then (if ev_release e then 1 else -1) else 0
  | None => 0
  end.

(** ** Counters and intervals *)

Section Coverage.
Context (S : Z) (intervals : list DeviceRateAdmissionInterval).
Context (mine : DeviceRateAdmissionInterval -> bool).

Definition interval_ok (i : DeviceRateAdmissionInterval) : Prop :=
  0 <= ai_release_time_ns i < S /\
  ai_release_time_ns i < ai_completion_deadline_ns i <= ai_release_time_ns i + S /\
  ai_carries_across_supercycle i = (S <? ai_completion_deadline_ns i).

Context (ok_all : Forall interval_ok intervals).

(** A mandatory interval of the counter. *)
Definition counts (i : DeviceRateAdmissionInterval) : bool := negb (ai_optional i) && mine i.

(** In flight at time [t] of a repeating supercycle: released before, or carried over. *)
Definition covers (t : Z) (i : DeviceRateAdmissionInterval) : bool :=
  ((ai_release_time_ns i <=? t) && (t <? ai_completion_deadline_ns i)) ||
  (t + S <? ai_completion_deadline_ns i).

Definition carried (i : DeviceRateAdmissionInterval) : Z :=
  if counts i && ai_carries_across_supercycle i then 1 else 0.

Definition covering (t : Z) (i : DeviceRateAdmissionInterval) : Z :=
  if counts i && covers t i then 1 else 0.

Definition events_until (t : Z) : list AdmissionEvent :=
  filter (fun e => ev_time e <= t) (admission_events S intervals).

(** After the events up to a time, the counter is the number of intervals that cover it. *)
Lemma counter_exact t :
  0 <= t < S ->
  zsum carried intervals + zsum (weight intervals mine) (events_until t) = zsum (covering t) intervals.
Proof.
  intros Ht. unfold events_until, admission_events. rewrite zsum_filter, std_sort_perm.
  rewrite (zsum_imap _ _ (fun i => covering t i - carried i)).
  - clear ok_all. induction intervals as [|i l IH]; simpl; lia.
  - intros k i Hk. rewrite Forall_lookup in ok_all. destruct (ok_all _ _ Hk) as (Hr & Hc & Hcar).
    unfold interval_events, covering, carried, counts, covers.
    destruct (ai_optional i); simpl; [done|].
    unfold weight. simpl. rewrite Hk, Hcar. destruct (mine i); simpl;
      destruct (Z.ltb_spec S (ai_completion_deadline_ns i)); simpl;
      repeat case_decide; repeat case_match; lia.
Qed.

(** The events up to a time are a prefix of the sorted events. *)
Lemma until_prefix t : exists rest, admission_events S intervals = events_until t ++ rest.
Proof.
  unfold events_until. assert (Hs : StronglySorted (fun a b => ev_time a <= ev_time b) (admission_events S intervals)).
  { eapply StronglySorted_mono; [|apply std_sort_sorted].
    - unfold not_greater, event_less. intros a b Hab. apply orb_false_iff in Hab as [Hab _]. lia.
    - unfold not_greater, event_less. intros a b.
      destruct (ev_release a), (ev_release b), (Nat.ltb_spec (ev_interval a) (ev_interval b)),
        (Nat.ltb_spec (ev_interval b) (ev_interval a)); simpl; lia.
    - unfold not_greater, event_less. intros a b c.
      destruct (ev_release a), (ev_release b), (ev_release c), (Nat.ltb_spec (ev_interval b) (ev_interval a)),
        (Nat.ltb_spec (ev_interval c) (ev_interval b)), (Nat.ltb_spec (ev_interval c) (ev_interval a)); simpl; lia. }
  induction Hs as [|e l Hl IH He]; [by exists []|]. rewrite filter_cons. case_decide as Ht.
  - destruct IH as [rest Hrest]. exists rest. simpl. by rewrite <- Hrest.
  - exists (e :: l). rewrite (proj2 (filter_nil_iff _ _)); [done|].
    intros x Hx. rewrite Forall_forall in He. apply He in Hx. lia.
Qed.

Lemma last_match {A} (Q : A -> bool) (l : list A) :
  (exists before x after, l = before ++ x :: after /\ Q x = true /\ Forall (fun y => Q y = false) after) \/
  Forall (fun y => Q y = false) l.
Proof.
  induction l as [|x l IH]; [by right; constructor|]. destruct IH as [(a & y & b & -> & Hy & Hb)|Hl].
  - left. by exists (x :: a), y, b.
  - destruct (Q x) eqn:Hx; [left; by exists [], x, l|right; by constructor].
Qed.

Lemma weight_le e : weight intervals mine e <= 1 /\
  (weight intervals mine e = 1 -> ev_release e = true).
Proof. unfold weight. repeat case_match; lia || done. Qed.

Lemma events_length : (length (admission_events S intervals) <= 2 * length intervals)%nat.
Proof.
  unfold admission_events. rewrite std_sort_perm. clear ok_all.
  assert (H : forall f : nat -> DeviceRateAdmissionInterval -> list AdmissionEvent,
    (forall k i, (length (f k i) <= 2)%nat) -> (length (mjoin (imap f intervals)) <= 2 * length intervals)%nat).
  { induction intervals as [|i l IH]; intros f Hf; [done|]. simpl. rewrite length_app.
    specialize (IH (f ∘ Datatypes.S) ltac:(intros; apply Hf)). specialize (Hf 0%nat i). lia. }
  apply H. intros k i. unfold interval_events. by destruct (ai_optional i); simpl; lia.
Qed.

Lemma carried_bounds : 0 <= zsum carried intervals <= Z.of_nat (length intervals).
Proof.
  split; [rewrite <- (Z.mul_0_l (Z.of_nat (length intervals))), <- (zsum_const 0)|
          rewrite <- (Z.mul_1_l (Z.of_nat (length intervals))), <- (zsum_const 1)];
    apply zsum_le; intros i _; unfold carried; case_match; lia.
Qed.

(** A bound on the counter at the start and after every release bounds it at every time. *)
Lemma counter_bounded bound t :
  0 <= t < S -> Z.of_nat (length intervals) <= reference_release_capacity ->
  zsum carried intervals <= bound ->
  (forall A e B, admission_events S intervals = A ++ e :: B -> ev_release e = true ->
     weight intervals mine e = 1 ->
     u32 (zsum carried intervals + zsum (weight intervals mine) (A ++ [e])) <= bound) ->
  zsum (covering t) intervals <= bound.
Proof.
  intros Ht Hn Hstart Hrel. pose proof (counter_exact t Ht) as Hex. destruct (until_prefix t) as [rest Hpre].
  assert (Hpos : 0 <= zsum (covering t) intervals).
  { transitivity (zsum (fun _ : DeviceRateAdmissionInterval => 0) intervals); [rewrite zsum_const; lia|].
    apply zsum_le. intros i _. unfold covering. case_match; lia. }
  assert (Hdrop : forall l, Forall (fun e => (weight intervals mine e =? 1) = false) l ->
            zsum (weight intervals mine) l <= 0).
  { intros l Hl. transitivity (zsum (fun _ : AdmissionEvent => 0) l); [|rewrite zsum_const; lia].
    apply zsum_le. intros e He. rewrite Forall_forall in Hl. apply Hl in He. pose proof (weight_le e). lia. }
  destruct (last_match (fun e => weight intervals mine e =? 1) (events_until t)) as [(A & e & B & Hu & He & HB)|Hno].
  - apply Z.eqb_eq in He. destruct (weight_le e) as [_ Hr]. rewrite Hu in *.
    specialize (Hrel A e (B ++ rest)). rewrite <- app_assoc in Hpre. simpl in Hpre.
    specialize (Hrel Hpre (Hr He) He). specialize (Hdrop B HB).
    replace (A ++ e :: B) with ((A ++ [e]) ++ B) in Hex by (by rewrite <- app_assoc).
    rewrite zsum_app in Hex. rewrite u32_small in Hrel; [lia|].
    pose proof events_length as Hlen. rewrite Hpre in Hlen. rewrite length_app in Hlen. simpl in Hlen.
    assert (zsum (weight intervals mine) (A ++ [e]) <= Z.of_nat (length (A ++ [e]))).
    { rewrite <- (Z.mul_1_l (Z.of_nat _)), <- (zsum_const 1). apply zsum_le. intros x _. apply weight_le. }
    pose proof carried_bounds.
    rewrite length_app in *. simpl in *. unfold is_u32, u32_max, reference_release_capacity in *. lia.
  - specialize (Hdrop _ Hno). lia.
Qed.
End Coverage.

(** ** What the sweep guarantees for a counter *)

Section Counter.
Context (src : DeviceSources) (tables : SourceTables) (st : PhaseState) (by_source : list (option nat)).
Context (intervals : list DeviceRateAdmissionInterval) `{!AdmissionCounter src tables st by_source}.

(** The sweep changes nothing of the intervals but the demand at their release. *)
Definition tracks (s : SweepState) : Prop :=
  set_demand_at_release 0 <$> sw_intervals s = set_demand_at_release 0 <$> intervals.

Lemma tracks_lookup s k :
  tracks s -> set_demand_at_release 0 <$> sw_intervals s !! k = set_demand_at_release 0 <$> intervals !! k.
Proof. unfold tracks. intros H. by rewrite <- !list_lookup_fmap, H. Qed.

Lemma tracks_mine s k i :
  tracks s -> sw_intervals s !! k = Some i -> exists i', intervals !! k = Some i' /\ mine i' = mine i.
Proof.
  intros Ht Hk. apply (tracks_lookup _ k) in Ht. rewrite Hk in Ht. simpl in Ht.
  destruct (intervals !! k) as [i'|]; simpl in Ht; [|done]. exists i'. split; [done|].
  apply (inj Some) in Ht.
  by rewrite <- (mine_demand i' 0), <- (mine_demand i 0), <- Ht.
Qed.

Lemma tracks_release s k i :
  tracks s -> tracks (release_event tables st by_source k i s).
Proof.
  unfold tracks. simpl. intros <-. apply list_eq. intros j. rewrite !list_lookup_fmap.
  destruct (decide (j = k)) as [->|]; [rewrite list_lookup_alter_eq|by rewrite list_lookup_alter_ne].
  by destruct (sw_intervals s !! k).
Qed.

(** What one event does to the counter. *)
Lemma sweep_event_counter e s s' :
  sweep_event src tables st by_source e s = inr s' ->
  kept (sw_demand s) -> reported s -> tracks s -> is_u32 (get (sw_demand s)) ->
  kept (sw_demand s') /\ reported s' /\ tracks s' /\
  get (sw_demand s') = u32 (get (sw_demand s) + weight intervals mine e) /\ peak s <= peak s' /\
  (ev_release e = true -> weight intervals mine e = 1 ->
   get (sw_demand s') <= peak s' /\ get (sw_demand s') <= limit).
Proof.
  unfold sweep_event, weight. intros He Hg Hrep Ht Hu. pose proof (tracks_lookup s (ev_interval e) Ht) as Hl.
  assert (Hsame : get (sw_demand s) = u32 (get (sw_demand s) + 0)) by (by rewrite Z.add_0_r, u32_small).
  destruct (sw_intervals s !! ev_interval e) as [i|] eqn:Hi.
  - destruct (tracks_mine s _ i Ht Hi) as (i' & -> & ->).
    destruct (ev_release e) eqn:Hr.
    + apply sum_bind_inr in He as (u & Hc%require_inr & [= <-]). apply negb_true_iff in Hc.
      destruct (release_peak (ev_interval e) i s Hrep Hg) as (Hrep' & Hp & Hpk).
      destruct (change_counter 1 i (sw_demand s) Hg) as [Hg' Hget].
      split_and!; [done|done|by apply tracks_release| |done|].
      * simpl. rewrite Hget. by destruct (mine i).
      * intros _ Hw. destruct (mine i) eqn:Hm; [|done]. split; [by apply Hpk|]. by apply within_limit in Hc.
    + injection He as <-. destruct (complete_peak i s Hrep) as [Hrep' Hp].
      destruct (change_counter (-1) i (sw_demand s) Hg) as [Hg' Hget]. split_and!; try done; [|lia].
      simpl. rewrite Hget. by destruct (mine i).
  - injection He as <-. destruct (intervals !! ev_interval e); [done|]. by split_and!.
Qed.

Lemma sweep_counter events s s' :
  sweep_all src tables st by_source events s = inr s' ->
  kept (sw_demand s) -> reported s -> tracks s -> is_u32 (get (sw_demand s)) ->
  tracks s' /\ peak s <= peak s' /\
  (forall A e B, events = A ++ e :: B -> ev_release e = true -> weight intervals mine e = 1 ->
     u32 (get (sw_demand s) + zsum (weight intervals mine) (A ++ [e])) <= peak s' /\
     u32 (get (sw_demand s) + zsum (weight intervals mine) (A ++ [e])) <= limit).
Proof.
  revert s. induction events as [|e events IH]; intros s Hs Hg Hrep Ht Hu; simpl in Hs.
  { injection Hs as <-. split_and!; try done. by intros [] ??. }
  apply sum_bind_inr in Hs as (s1 & He & Hs).
  destruct (sweep_event_counter _ _ _ He Hg Hrep Ht Hu) as (Hg1 & Hrep1 & Ht1 & E1 & Hp1 & Hc1).
  assert (Hu1 : is_u32 (get (sw_demand s1))).
  { rewrite E1. unfold is_u32, u32, u32_max. pose proof (Z.mod_pos_bound (get (sw_demand s) + weight intervals mine e) 4294967296). lia. }
  destruct (IH s1 Hs Hg1 Hrep1 Ht1 Hu1) as (Ht2 & Hp2 & Hc2).
  split_and!; try done; [lia|].
  intros [|a A] e' B Heq Hr Hw; simplify_eq/=.
  - rewrite Z.add_0_r, <- E1. destruct (Hc1 Hr Hw). lia.
  - rewrite Z.add_assoc, <- u32_add_l, <- E1. by apply (Hc2 A e' B).
Qed.

(** The counter starts with the intervals that carry over, within its capacity. *)
Lemma carry_counter ivs d d' :
  carry_demand src tables st ivs d = inr d' -> kept d -> 0 <= get d ->
  get d + Z.of_nat (length ivs) <= u32_max -> get d <= limit ->
  kept d' /\ get d' = get d + zsum (carried mine) ivs /\ get d' <= limit.
Proof.
  revert d. induction ivs as [|i ivs IH]; intros d Hc Hk H0 Hn Hl; simpl in *.
  { injection Hc as <-. split_and!; [done|lia|done]. }
  unfold carried at 1, counts. destruct (ai_optional i); simpl in *; [apply IH; try done; lia|].
  destruct (ai_carries_across_supercycle i); simpl in *; [|rewrite andb_false_r; apply IH; try done; lia].
  apply sum_bind_inr in Hc as (u & Ho%require_inr & Hc). apply negb_true_iff in Ho. rewrite andb_true_r.
  destruct (change_counter 1 i d Hk) as [Hk' Hget]. rewrite u32_small in Hget by (unfold is_u32; lia).
  apply IH in Hc as (Hk2 & E2 & L2); [|done|..].
  - split_and!; [done| |done]. rewrite E2, Hget. destruct (mine i); lia.
  - rewrite Hget. destruct (mine i); lia.
  - rewrite Hget. destruct (mine i); lia.
  - rewrite Hget. destruct (mine i) eqn:Hm; [|done]. rewrite <- Hget. by eapply within_limit.
Qed.
End Counter.

(** ** Executions on the unrolled timeline *)

(** The execution of interval [i] in supercycle [k] is in flight at [time]. *)
Definition in_flight_at (S time : Z) (i : DeviceRateAdmissionInterval) (k : nat) : Prop :=
  ai_release_time_ns i + Z.of_nat k * S <= time < ai_completion_deadline_ns i + Z.of_nat k * S.

Lemma in_flight_unique S time i k k' :
  interval_ok S i -> in_flight_at S time i k -> in_flight_at S time i k' -> k = k'.
Proof. unfold interval_ok, in_flight_at. intros (? & ? & _) ? ?. nia. Qed.

Lemma in_flight_covers S time i k :
  interval_ok S i -> in_flight_at S time i k -> covers S (time mod S) i = true.
Proof.
  unfold interval_ok, in_flight_at, covers. intros (Hr & Hc & _) Hk.
  pose proof (Z.div_mod time S ltac:(lia)) as Hd. pose proof (Z.mod_pos_bound time S ltac:(lia)) as Hm.
  assert (Z.of_nat k = time / S \/ Z.of_nat k = time / S - 1) as [Hq|Hq] by nia; rewrite Hq in Hk; nia.
Qed.

(** Distinct executions of a counter's intervals in flight at one time are at most the value of the
    counter at that time of the supercycle. *)
Lemma executions_counted S intervals mine time (executions : list (nat * nat)) :
  Forall (interval_ok S) intervals -> NoDup executions ->
  (forall x k, (x, k) ∈ executions -> exists i, intervals !! x = Some i /\ counts mine i = true /\
     in_flight_at S time i k) ->
  Z.of_nat (length executions) <= zsum (covering S mine (time mod S)) intervals.
Proof.
  intros Hok Hnd Hex. rewrite Forall_lookup in Hok.
  assert (Hfst : NoDup executions.*1).
  { apply NoDup_fmap_2_strong; [|done]. intros [x k] [x' k'] H1 H2. simpl. intros <-.
    destruct (Hex _ _ H1) as (i & Hi & _ & Hf), (Hex _ _ H2) as (i' & Hi' & _ & Hf'). simplify_eq.
    f_equal. by eapply in_flight_unique; [eapply Hok| |]. }
  set (P := fun x => from_option (fun i => counts mine i && covers S (time mod S) i) false (intervals !! x) = true).
  transitivity (Z.of_nat (length (filter P (seq 0 (length intervals))))).
  - rewrite <- (length_fmap fst). apply Nat2Z.inj_le, submseteq_length, NoDup_submseteq; [done|].
    intros x [[y k] [-> Hin]]%list_elem_of_fmap. destruct (Hex _ _ Hin) as (i & Hi & Hc & Hf).
    apply list_elem_of_filter. split; [|apply elem_of_seq; apply lookup_lt_Some in Hi; simpl; lia].
    unfold P. simpl. rewrite Hi. simpl. rewrite Hc. simpl. eapply in_flight_covers; [|done]. by eapply Hok.
  - rewrite zsum_seq, <- zsum_length. apply Z.eq_le_incl, zsum_ext. intros x _. unfold P, covering.
    destruct (intervals !! x) as [i|]; simpl; [|done].
    by destruct (counts mine i && covers S (time mod S) i).
Qed.

(** ** Executions within the capacity *)

Section Bounded.
Context (src : DeviceSources) (tables : SourceTables) (st : PhaseState) (by_source : list (option nat)).
Context (intervals : list DeviceRateAdmissionInterval) (S : Z) (initial : Demand) (start swept : SweepState).
Context (positive : 0 < S) (ok_all : Forall (interval_ok S) intervals).
Context (bounded : Z.of_nat (length intervals) <= reference_release_capacity).
Context (zero : Demand) (carry : carry_demand src tables st intervals zero = inr initial).
Context (start_demand : sw_demand start = initial) (start_intervals : sw_intervals start = intervals).
Context (success : sweep_all src tables st by_source (admission_events S intervals) start = inr swept).

Lemma executions_bounded `{!AdmissionCounter src tables st by_source} time (executions : list (nat * nat)) :
  kept zero -> get zero = 0 -> 0 <= limit -> reported start -> get initial <= peak start ->
  NoDup executions ->
  (forall x k, (x, k) ∈ executions -> exists i, intervals !! x = Some i /\ counts mine i = true /\
     in_flight_at S time i k) ->
  Z.of_nat (length executions) <= peak swept /\ Z.of_nat (length executions) <= limit.
Proof.
  intros Hk H0 Hl Hrep Hpk Hnd Hex. pose proof (carried_bounds intervals mine) as Hcb.
  destruct (carry_counter src tables st by_source intervals zero initial) as (Hki & Hgi & Hli);
    [done|done|lia|unfold u32_max, reference_release_capacity in *; lia|lia|].
  destruct (sweep_counter src tables st by_source intervals (admission_events S intervals) start swept)
    as (_ & Hp & Hrel); rewrite ?start_demand; try done.
  { unfold tracks. by rewrite start_intervals. }
  { unfold is_u32, u32_max, reference_release_capacity in *. lia. }
  pose proof (executions_counted S intervals mine time executions ok_all Hnd Hex) as Hcount.
  assert (Hmod : 0 <= time mod S < S) by (by apply Z.mod_pos_bound).
  rewrite start_demand, Hgi, H0 in *. simpl in *.
  split; (etransitivity; [exact Hcount|]); apply counter_bounded; try done; try lia;
    intros A e B HE Hr Hw; by apply (Hrel A e B).
Qed.
End Bounded.
