(* ===== verification/DeviceRateAdmission.v ===== *)
(** * Device rate admission: the three counters and the accepted plan

    The phase, backend and runtime counters as instances of [AdmissionCounter], the intervals the
    compiler builds, and what an accepted plan bounds. *)

From stdpp Require Import base list numbers sorting sets strings.
From Stdlib Require Import ZArith Lia Bool.
From S2P Require Import Prelude Handles CompiledGraph RateTimeline RateTimelineTheorems DeviceCommands DeviceCommandTheorems CrossRateTypes DeviceRatePlan DeviceRatePhases DeviceRateSweep.

Local Open Scope Z_scope.
Local Open Scope rtfw_scope.

(** ** Counters *)

Lemma alter_total_eq (f : Z -> Z) (l : list Z) (p : nat) : (p < length l)%nat -> alter f p l !!! p = f (l !!! p).
Proof.
  intros [x Hx]%lookup_lt_is_Some_2. rewrite (list_lookup_total_correct _ _ _ Hx).
  apply list_lookup_total_correct. by rewrite list_lookup_alter_eq, Hx.
Qed.

Lemma alter_total_ne (f : Z -> Z) (l : list Z) (p q : nat) : p <> q -> alter f p l !!! q = l !!! q.
Proof. intros Hne. by rewrite !list_lookup_total_alt, list_lookup_alter_ne. Qed.

Section Counters.
Context (src : DeviceSources) (tables : SourceTables) (st : PhaseState) (by_source : list (option nat)).

#[refine] Instance phase_counter (p : nat) : AdmissionCounter src tables st by_source := {|
  mine i := bool_decide (phase_index_for st (ai_phase i) = p);
  get d := dm_phase d !!! p;
  peak s := from_option ap_peak_in_flight 0 (sw_phases s !! p);
  limit := from_option dp_maximum_in_flight 0 (pst_phases st !! p);
  kept d := (p < length (dm_phase d))%nat;
  reported s := (p < length (sw_phases s))%nat;
|}.
Proof.
  - done.
  - intros c i d Hk. simpl. rewrite length_alter. split; [done|]. case_bool_decide as Hm.
    + rewrite Hm. by rewrite alter_total_eq.
    + by rewrite alter_total_ne.
  - done.
  - intros k i s Hr Hk. simpl. rewrite length_alter. split; [done|].
    destruct (lookup_lt_is_Some_2 _ _ Hr) as [a Ha].
    destruct (decide (phase_index_for st (ai_phase i) = p)) as [<-|Hne].
    + rewrite list_lookup_alter_eq, Ha. simpl. split; [lia|]. intros _. unfold phase_demand_of. simpl. lia.
    + rewrite list_lookup_alter_ne by done. split; [lia|]. by rewrite bool_decide_false.
  - intros d i Ho Hm%bool_decide_eq_true. unfold over_capacity, phase_limit_of, phase_demand_of in Ho.
    rewrite Hm, !orb_false_iff, !Z.ltb_ge in Ho. tauto.
Defined.

#[refine] Instance backend_counter (b position : nat) : AdmissionCounter src tables st by_source := {|
  mine i := bool_decide (backend_index_for tables (ai_backend i) = b);
  get d := dm_backend d !!! b;
  peak s := from_option ab_peak_in_flight 0 (sw_backends s !! position);
  limit := from_option (fun s => cap_max_in_flight_batches (bk_capabilities s)) 0 (src_backends src !! b);
  kept d := (b < length (dm_backend d))%nat;
  reported s := mjoin (by_source !! b) = Some position /\ (position < length (sw_backends s))%nat;
|}.
Proof.
  - done.
  - intros c i d Hk. simpl. rewrite length_alter. split; [done|]. case_bool_decide as Hm.
    + rewrite Hm. by rewrite alter_total_eq.
    + by rewrite alter_total_ne.
  - done.
  - intros k i s [Hb Hr] Hk. simpl. destruct (lookup_lt_is_Some_2 _ _ Hr) as [a Ha].
    destruct (mjoin (by_source !! backend_index_for tables (ai_backend i))) as [q|] eqn:Hq.
    + rewrite length_alter. split; [done|]. destruct (decide (q = position)) as [->|Hne].
      * rewrite list_lookup_alter_eq, Ha. simpl. split; [lia|]. intros Hm%bool_decide_eq_true.
        unfold backend_demand_of. simpl. rewrite Hm. lia.
      * rewrite list_lookup_alter_ne by done. split; [lia|]. intros Hm%bool_decide_eq_true. congruence.
    + split; [done|]. split; [lia|]. intros Hm%bool_decide_eq_true. congruence.
  - intros d i Ho Hm%bool_decide_eq_true. unfold over_capacity, backend_limit_of, backend_demand_of in Ho.
    rewrite Hm, !orb_false_iff, !Z.ltb_ge in Ho. tauto.
Defined.

#[refine] Instance runtime_counter : AdmissionCounter src tables st by_source := {|
  mine i := true;
  get d := dm_global d;
  peak s := sw_peak_global s;
  limit := src_runtime_outstanding_capacity src;
  kept d := True;
  reported s := True;
|}.
Proof.
  - done.
  - done.
  - done.
  - intros k i s _ _. simpl. split; [done|]. lia.
  - intros d i Ho _. unfold over_capacity in Ho. rewrite !orb_false_iff, !Z.ltb_ge in Ho. tauto.
Defined.
End Counters.

(** ** Reported backends *)

Section Reported.
Context (src : DeviceSources) (tables : SourceTables) (used : list bool).
Context (tables_fine : tables_ok src tables).

Lemma backend_index_for_at backend j :
  table_at (st_backend tables) (backend_position (src_graph_owner src) backend) = Some j ->
  backend_index_for tables backend = j.
Proof.
  intros (p & Hp & Hj)%table_at_Some. unfold backend_position, owned_position in Hp.
  case_match; [|done]. injection Hp as <-. unfold backend_index_for.
  by rewrite (list_lookup_total_correct _ _ _ Hj).
Qed.

(** The reported backends are the used sources, in their order. *)
Lemma admission_backends_indices :
  (fun a => backend_index_for tables (ab_backend a)) <$> admission_backends src used =
  filter (fun j => used !!! j = true) (seq 0 (length (src_backends src))).
Proof.
  unfold admission_backends.
  assert (H : forall (l : list DeviceRateBackendSource) (o : nat) (f : nat -> DeviceRateBackendSource -> list DeviceRateAdmissionBackend),
    (forall k b, l !! k = Some b -> (fun a => backend_index_for tables (ab_backend a)) <$> f k b =
                   if (used !!! (o + k)%nat : bool) then [(o + k)%nat] else []) ->
    (fun a => backend_index_for tables (ab_backend a)) <$> mjoin (imap f l) =
    filter (fun j => used !!! j = true) (seq o (length l))).
  { induction l as [|b l IH]; intros o f Hf; [done|]. simpl. rewrite fmap_app, (Hf 0%nat b), Nat.add_0_r by done.
    rewrite (IH (S o) (f ∘ S)); [|intros k b' Hk; simpl; rewrite (Hf (S k) b') by done; by rewrite <- plus_n_Sm].
    rewrite filter_cons. destruct (used !!! o) eqn:Hu; case_decide; done. }
  apply (H _ 0%nat). intros k b Hk. destruct (used !!! k) eqn:Hu; simpl; rewrite ?Hu; [|done]. csimpl. f_equal.
  apply backend_index_for_at, (tab_backend _ _ tables_fine _ _ Hk).
Qed.

Lemma by_source_spec j :
  (j < length (src_backends src))%nat -> used !!! j = true ->
  exists position a, mjoin (admission_backend_by_source src tables (admission_backends src used) !! j) = Some position /\
    admission_backends src used !! position = Some a /\ backend_index_for tables (ab_backend a) = j.
Proof.
  intros Hj Hu. set (l := admission_backends src used).
  pose proof admission_backends_indices as Hind. fold l in Hind.
  assert (Hnd : NoDup ((fun a => backend_index_for tables (ab_backend a)) <$> l)).
  { rewrite Hind. apply NoDup_filter, NoDup_ListNoDup, seq_NoDup. }
  assert (Hin : j ∈ (fun a => backend_index_for tables (ab_backend a)) <$> l).
  { rewrite Hind. apply list_elem_of_filter. split; [done|]. apply elem_of_seq. lia. }
  apply list_elem_of_lookup_1 in Hin as [position Hp]. apply fmap_lookup_back in Hp as (a & Ha & Hja).
  exists position, a. split_and!; [|done|done]. unfold admission_backend_by_source. fold l.
  assert (H : forall (m : list DeviceRateAdmissionBackend) o (table : list (option nat)),
    (j < length table)%nat -> NoDup ((fun a => backend_index_for tables (ab_backend a)) <$> m) ->
    mjoin (foldl (fun table e => <[backend_index_for tables (ab_backend (snd e)) := Some (fst e)]> table) table
             (imap (fun k a => ((o + k)%nat, a)) m) !! j) =
    match list_find (fun a => backend_index_for tables (ab_backend a) = j) m with
    | Some (k, _) => Some (o + k)%nat
    | None => mjoin (table !! j)
    end).
  { clear. intros m. induction m as [|a m IH]; intros o table Hl Hnd; [done|]. csimpl in Hnd.
    apply NoDup_cons in Hnd as [Hni Hnd]. simpl.
    rewrite (imap_ext _ (fun k a => ((S o + k)%nat, a))) by (intros; simpl; f_equal; lia).
    rewrite IH; [|by rewrite length_insert|done]. case_decide as Hd.
    - rewrite Nat.add_0_r. destruct (list_find _ m) as [[k a']|] eqn:Hf.
      + exfalso. apply list_find_Some in Hf as (Hk & Hq & _). apply Hni, list_elem_of_fmap. exists a'.
        split; [congruence|]. by eapply list_elem_of_lookup_2.
      + rewrite Hd, list_lookup_insert_eq by done. done.
    - rewrite list_lookup_insert_ne by done. destruct (list_find _ m) as [[k a']|]; simpl; [f_equal; lia|done]. }
  rewrite (imap_ext pair (fun k a => ((0 + k)%nat, a))) by done.
  rewrite H; [|by rewrite length_replicate|done].
  destruct (list_find (fun a => backend_index_for tables (ab_backend a) = j) l) as [[k a']|] eqn:Hf.
  - apply list_find_Some in Hf as (Hk & Hka & Hmin). f_equal. simpl.
    apply (NoDup_lookup _ k position j Hnd); rewrite list_lookup_fmap; [rewrite Hk|rewrite Ha]; simpl; congruence.
  - apply list_find_None in Hf. rewrite Forall_lookup in Hf. by apply Hf in Ha.
Qed.
End Reported.

(** ** Intervals *)

Lemma append_loop_parts {E A B} (body : A -> E + list B) l out :
  append_loop body l = inr out -> exists outs, Forall2 (fun x o => body x = inr o) l outs /\ out = mjoin outs.
Proof.
  revert out. induction l as [|x l IH]; intros out H; simpl in H.
  { injection H as <-. exists []. split; [constructor|done]. }
  apply sum_bind_inr in H as (o & Ho & H). apply sum_bind_inr in H as (rest & Hr & [= <-]).
  apply IH in Hr as (outs & HF & ->). exists (o :: outs). split; [by constructor|done].
Qed.

(** The interval of a device release: it ends at the deadline or when the completion budget runs out. *)
Definition interval_of_release (src : DeviceSources) (st : PhaseState) (reference_index : nat)
    (r : ReferenceRelease) (i : DeviceRateAdmissionInterval) : Prop :=
  exists p, p ∈ pst_phases st /\ phase_position (dp_phase p) = phase_position (rr_phase r) /\
    ai_reference_index i = reference_index /\ ai_phase i = rr_phase r /\ ai_domain i = rr_domain r /\
    ai_backend i = dp_backend p /\ ai_release_time_ns i = rr_release_time_ns r /\
    ai_completion_deadline_ns i =
      Z.min (rr_deadline_time_ns r) (rr_release_time_ns r + dp_completion_budget_ns p) /\
    ai_optional i = rr_optional r /\
    ai_release_time_ns i < ai_completion_deadline_ns i <=
      ai_release_time_ns i + supercycle_ns (src_rate_plan src) /\
    ai_carries_across_supercycle i =
      (supercycle_ns (src_rate_plan src) <? ai_completion_deadline_ns i).

Lemma admit_release_cases src tables st k r out :
  sources_typed src -> phases_inv src tables st -> is_u64 (rr_release_time_ns r) ->
  admit_release src tables st k r = inr out ->
  (rr_phase_kind r <> kind_device /\ out = []) \/
  (rr_phase_kind r = kind_device /\ exists i, out = [i] /\ interval_of_release src st k r i).
Proof.
  intros Hty Hinv Hrt H. unfold admit_release in H. case_bool_decide as Hk; simpl in H; [right|left; by injection H as <-].
  split; [done|].
  destruct (mjoin _ ≫= _) as [p|] eqn:Hp; [|done]. apply bind_Some in Hp as (idx & Hidx & Hp).
  destruct (pst_plan_phase st !! phase_position (rr_phase r)) as [[idx'|]|] eqn:Hpos; simplify_eq/=.
  destruct (inv_plan_index _ _ _ Hinv _ _ Hpos) as (p' & Hp' & Hpp). simplify_eq.
  assert (Hin : p ∈ pst_phases st) by (by eapply list_elem_of_lookup_2).
  destruct (phase_typed _ _ _ _ Hty Hinv Hin) as [_ Hbud].
  destruct (checked_add _ _) as [deadline|] eqn:Hadd; [|done].
  apply checked_add_Some in Hadd as [_ ->]; [|done..].
  apply sum_bind_inr in H as (u & Hr%require_inr & H). apply andb_true_iff in Hr as [R1%Z.ltb_lt R2%Z.leb_le].
  destruct (constraint_of _ _ _) as [c l]. injection H as <-. eexists. split; [done|].
  exists p. simpl in *. split_and!; try done; lia.
Qed.

(** One interval for each device release, in the order of the releases. *)
Lemma admission_intervals_spec src tables st intervals :
  sources_typed src -> phases_inv src tables st -> admission_intervals src tables st = inr intervals ->
  Forall2 (fun e i => interval_of_release src st (fst e) (snd e) i)
    (filter (fun e => rr_phase_kind (snd e) = kind_device) (imap pair (pl_releases (src_rate_plan src)))) intervals.
Proof.
  intros Hty Hinv (outs & HF & ->)%append_loop_parts.
  assert (Hrel : Forall (fun e => is_u64 (rr_release_time_ns (snd e))) (imap pair (pl_releases (src_rate_plan src)))).
  { apply Forall_lookup. intros j [k r] Hj. rewrite list_lookup_imap in Hj.
    destruct (pl_releases (src_rate_plan src) !! j) as [r'|] eqn:Er; simplify_eq/=.
    pose proof (typ_releases _ Hty) as Hr. rewrite Forall_lookup in Hr. specialize (Hr _ _ Er).
    pose proof (typ_supercycle _ Hty). unfold is_u64 in *. lia. }
  induction HF as [|[k r] o l outs Ho _ IH]; [constructor|]. apply Forall_cons_iff in Hrel as [Hr Hrel]. specialize (IH Hrel).
  rewrite filter_cons. simpl in *. destruct (admit_release_cases _ _ _ _ _ _ Hty Hinv Hr Ho) as [[Hk ->]|[Hk (i & -> & Hi)]].
  - by rewrite decide_False.
  - rewrite decide_True by done. simpl. by constructor.
Qed.

Lemma length_filter_le {A} (P : A -> Prop) `{!forall x, Decision (P x)} (l : list A) :
  (length (filter P l) <= length l)%nat.
Proof. induction l as [|x l IH]; [done|]. rewrite filter_cons. case_decide; simpl; lia. Qed.

Lemma intervals_ok src tables st intervals :
  sources_typed src -> phases_inv src tables st -> admission_intervals src tables st = inr intervals ->
  Forall (interval_ok (supercycle_ns (src_rate_plan src))) intervals /\
  Z.of_nat (length intervals) <= reference_release_capacity /\
  Forall (fun i => exists p, p ∈ pst_phases st /\ phase_position (dp_phase p) = phase_position (ai_phase i) /\
            ai_backend i = dp_backend p) intervals.
Proof.
  intros Hty Hinv HF%admission_intervals_spec; [|done..]. split_and!.
  - apply Forall_forall. intros i Hi%list_elem_of_lookup_1. destruct Hi as [k Hk].
    destruct (Forall2_lookup_r _ _ _ _ _ HF Hk) as ([j r] & Hj & (p & _ & _ & _ & _ & _ & _ & Hr & _ & _ & Hc & Hcar)).
    apply list_elem_of_lookup_2, list_elem_of_filter in Hj as [_ Hj].
    apply list_elem_of_lookup_1 in Hj as [j' Hj]. rewrite list_lookup_imap in Hj.
    destruct (pl_releases (src_rate_plan src) !! j') as [r'|] eqn:Er; simplify_eq/=.
    pose proof (typ_releases _ Hty) as Hrel. rewrite Forall_lookup in Hrel. specialize (Hrel _ _ Er).
    split; [lia|]. split; [lia|done].
  - apply Forall2_length in HF. rewrite <- HF. pose proof (typ_release_count _ Hty).
    pose proof (length_filter_le (fun e => rr_phase_kind (snd e) = kind_device) (imap pair (pl_releases (src_rate_plan src)))) as Hl.
    rewrite length_imap in Hl. lia.
  - apply Forall_forall. intros i Hi%list_elem_of_lookup_1. destruct Hi as [k Hk].
    destruct (Forall2_lookup_r _ _ _ _ _ HF Hk) as ([j r] & Hj & (p & Hp & Hpp & _ & Hph & _ & Hb & _)).
    exists p. by rewrite Hph, Hpp.
Qed.

(** ** The stages of an accepted plan *)

Definition zero_demand (src : DeviceSources) (st : PhaseState) : Demand :=
  mkDemand (replicate (length (pst_phases st)) 0) (replicate (length (src_backends src)) 0) 0.

Record admitted (src : DeviceSources) (plan : DeviceRatePlan) (tables : SourceTables) (st : PhaseState)
    (intervals : list DeviceRateAdmissionInterval) (initial : Demand) (swept : SweepState) : Prop := {
  adm_tables : tables_ok src tables;
  adm_phases : phases_inv src tables st;
  adm_waits : check_waits src tables st = inr tt;
  adm_intervals : admission_intervals src tables st = inr intervals;
  adm_carry : carry_demand src tables st intervals (zero_demand src st) = inr initial;
  adm_sweep : sweep_all src tables st
    (admission_backend_by_source src tables (admission_backends src (pst_backend_used st)))
    (admission_events (supercycle_ns (src_rate_plan src)) intervals)
    (sweep_start tables st intervals (admission_backends src (pst_backend_used st)) initial) = inr swept;
  adm_runs : completion_runs tables
    (admission_backend_by_source src tables (admission_backends src (pst_backend_used st)))
    (sw_intervals swept) (length (completions_of (supercycle_ns (src_rate_plan src)) (sw_intervals swept)))
    (completions_of (supercycle_ns (src_rate_plan src)) (sw_intervals swept)) (sw_backends swept) =
    inr (drp_admission_backends plan);
  adm_plan_phases : drp_phases plan = pst_phases st;
  adm_plan_payload : drp_payload_references plan = pst_payload_references st;
  adm_plan_timelines : drp_timeline_references plan = pst_timeline_references st;
  adm_plan_intervals : drp_admission_intervals plan = sw_intervals swept;
  adm_plan_admission_phases : drp_admission_phases plan = sw_phases swept;
  adm_plan_peak : arp_peak_global_in_flight (drp_report plan) = sw_peak_global swept;
  adm_plan_supercycle : arp_supercycle_ns (drp_report plan) = supercycle_ns (src_rate_plan src);
}.

Lemma candidate_admitted src plan :
  sources_typed src -> compile_candidate_plan src = inr plan ->
  exists tables st intervals initial swept, admitted src plan tables st intervals initial swept.
Proof.
  intros Hty H. unfold compile_candidate_plan in H.
  apply sum_bind_inr in H as (tables & Ht%build_tables_ok & H).
  apply sum_bind_inr in H as (st & Hst & H).
  apply compile_device_phases_inv in Hst; [|done|done|apply phases_inv_start].
  apply sum_bind_inr in H as ([] & Hw & H). apply sum_bind_inr in H as (intervals & Hi & H).
  apply sum_bind_inr in H as (initial & Hc & H). apply sum_bind_inr in H as (swept & Hs & H).
  rewrite sweep_sequential in Hs by done.
  apply sum_bind_inr in H as (u & _ & H). apply sum_bind_inr in H as (reported & Hr & [= <-]).
  exists tables, st, intervals, initial, swept. by split.
Qed.

(** Every refusal carries an error status. *)
Definition refuses (d : DeviceRateDiagnostic) : Prop := dd_status d <> ok.

Lemma source_table_error positions size message : fails_with refuses (source_table positions size message).
Proof. unfold source_table. error_cases. Qed.

Lemma compile_commands_error src tables phase backend k first commands roles :
  fails_with refuses (compile_commands src tables phase backend k first commands roles).
Proof.
  revert k first roles. induction commands as [|c commands IH]; intros k first roles; simpl; [done|].
  destruct (add_references _ _ _ _ _ _ _ _) as [[references roles']|]; [|done].
  apply fails_with_bind; [apply IH|]. by intros [[? ?] ?].
Qed.

Lemma compile_points_error src tables phase backend role message k earlier points :
  fails_with refuses (compile_points src tables phase backend role message k earlier points).
Proof.
  revert k earlier. induction points as [|p points IH]; intros k earlier; simpl; [done|]. error_cases.
Qed.

#[local] Hint Resolve source_table_error compile_commands_error compile_points_error : errors.

Lemma build_tables_error src : fails_with refuses (build_tables src).
Proof. unfold build_tables. error_cases. Qed.

Lemma compile_device_phases_error src tables order st :
  fails_with refuses (compile_device_phases src tables order st).
Proof.
  revert st. induction order as [|k order IH]; intros st; simpl; [done|]. apply fails_with_bind; [|done].
  unfold compile_device_phase. destruct (src_bindings src !! k); [|done].
  destruct (binding_sources _ _ _ _ _) as [[[[? ?] ?] ?]|]; error_cases.
Qed.

Lemma signal_owners_error src tables signals owners :
  fails_with refuses (signal_owners src tables signals owners).
Proof. revert owners. induction signals as [|[[? ?] ?] signals IH]; intros owners; simpl; [done|]. error_cases. Qed.

Lemma add_waits_error src tables owners waits graph indegree :
  fails_with refuses (add_waits src tables owners waits graph indegree).
Proof.
  revert graph indegree. induction waits as [|[[? ?] ?] waits IH]; intros graph indegree; simpl; [done|].
  apply fails_with_bind; [|done]. error_cases.
Qed.

#[local] Hint Resolve signal_owners_error add_waits_error : errors.

Lemma check_waits_error src tables st : fails_with refuses (check_waits src tables st).
Proof. unfold check_waits. error_cases. Qed.

Lemma admit_release_error src tables st k r : fails_with refuses (admit_release src tables st k r).
Proof. unfold admit_release. error_cases. Qed.

Lemma carry_demand_error src tables st intervals d : fails_with refuses (carry_demand src tables st intervals d).
Proof. revert d. induction intervals as [|i intervals IH]; intros d; simpl; [done|]. error_cases. Qed.

Lemma sweep_all_error src tables st by_source events s :
  fails_with refuses (sweep_all src tables st by_source events s).
Proof.
  revert s. induction events as [|e events IH]; intros s; simpl; [done|]. apply fails_with_bind; [|done].
  unfold sweep_event. error_cases.
Qed.

Lemma completion_runs_error tables by_source intervals fuel completions backends :
  fails_with refuses (completion_runs tables by_source intervals fuel completions backends).
Proof.
  revert completions backends. induction fuel as [|fuel IH]; intros [|c completions] backends; simpl; try done.
  error_cases.
Qed.

#[local] Hint Resolve admit_release_error : errors.

Lemma candidate_error src : fails_with refuses (compile_candidate_plan src).
Proof.
  unfold compile_candidate_plan. apply fails_with_bind; [apply build_tables_error|intros tables].
  apply fails_with_bind; [apply compile_device_phases_error|intros st].
  apply fails_with_bind; [apply check_waits_error|intros _].
  apply fails_with_bind; [unfold admission_intervals; eauto with errors|intros intervals].
  apply fails_with_bind; [apply carry_demand_error|intros initial].
  rewrite sweep_sequential by done. apply fails_with_bind; [apply sweep_all_error|intros swept].
  apply fails_with_bind; [by apply fails_with_require|intros _].
  apply fails_with_bind; [apply completion_runs_error|done].
Qed.

(** Acceptance, from the call. *)
Lemma compile_accepted src output plan diagnostic :
  sources_typed src -> src_bindings src <> [] ->
  compile_device_rate_plan src output = (ok, plan, diagnostic) ->
  0 < supercycle_ns (src_rate_plan src) /\
  exists tables st intervals initial swept, admitted src plan tables st intervals initial swept.
Proof.
  intros Hty Hne H. unfold compile_device_rate_plan in H.
  destruct (src_bindings src) eqn:Hb; [done|]. simpl in H. destruct (_ || _) eqn:Hg; [done|].
  rewrite !orb_false_iff, !Z.eqb_neq in Hg. destruct Hg as [[[Hs _] _] _].
  split; [pose proof (typ_supercycle _ Hty); unfold is_u64 in *; lia|].
  pose proof (candidate_error src) as He.
  destruct (compile_candidate_plan src) as [e|plan'] eqn:Hc; simpl in He.
  - injection H as Hd _ _. done.
  - injection H as -> _. by apply candidate_admitted.
Qed.
