(* ===== verification/DeviceRateTheorems.v ===== *)
(** * Device rate admission: theorems *)

From stdpp Require Import base list numbers sorting sets strings.
From Stdlib Require Import ZArith Lia Bool.
From S2P Require Import Prelude Handles CompiledGraph RateTimeline DeviceCommands DeviceCommandTheorems CrossRateTypes DeviceRatePlan DeviceRatePhases DeviceRateWaits DeviceRateSweep DeviceRateAdmission.

Local Open Scope Z_scope.
Local Open Scope rtfw_scope.

(** ** In-flight capacities *)

(** A mandatory execution of the repeating plan: interval [x] of supercycle [k] is in flight at [time]. *)
Definition execution_in_flight (plan : DeviceRatePlan) (time : Z) (execution : nat * nat)
    (i : DeviceRateAdmissionInterval) : Prop :=
  drp_admission_intervals plan !! fst execution = Some i /\ ai_optional i = false /\
  in_flight_at (arp_supercycle_ns (drp_report plan)) time i (snd execution).

Section Accepted.
Context (src : DeviceSources) (plan : DeviceRatePlan) (tables : SourceTables) (st : PhaseState).
Context (intervals : list DeviceRateAdmissionInterval) (initial : Demand) (swept : SweepState).
Context (typed : sources_typed src) (positive : 0 < supercycle_ns (src_rate_plan src)).
Context (accepted : admitted src plan tables st intervals initial swept).

Definition by_source_of : list (option nat) :=
  admission_backend_by_source src tables (admission_backends src (pst_backend_used st)).
Definition start_of : SweepState :=
  sweep_start tables st intervals (admission_backends src (pst_backend_used st)) initial.

(** The intervals of the plan are those admitted, with the demand at their release filled in. *)
Lemma plan_tracks :
  set_demand_at_release 0 <$> drp_admission_intervals plan = set_demand_at_release 0 <$> intervals.
Proof.
  rewrite (adm_plan_intervals _ _ _ _ _ _ _ accepted).
  destruct (intervals_ok _ _ _ _ typed (adm_phases _ _ _ _ _ _ _ accepted) (adm_intervals _ _ _ _ _ _ _ accepted))
    as (_ & Hlen & _). pose proof (carried_bounds intervals (fun _ => true)).
  destruct (carry_counter src tables st by_source_of intervals (zero_demand src st) initial (AdmissionCounter0 := runtime_counter src tables st by_source_of))
    as (_ & Hg & _); simpl; try done.
  - apply accepted.
  - unfold u32_max, reference_release_capacity in *. lia.
  - pose proof (typ_runtime _ typed) as [Hr _]. unfold is_u32 in Hr. lia.
  - destruct (sweep_counter src tables st by_source_of intervals
      (admission_events (supercycle_ns (src_rate_plan src)) intervals) start_of swept
      (AdmissionCounter0 := runtime_counter src tables st by_source_of)) as (Ht & _); try done.
    + apply accepted.
    + simpl in *. rewrite Hg. unfold is_u32, u32_max, reference_release_capacity in *. simpl. lia.
Qed.

Lemma plan_interval x i :
  drp_admission_intervals plan !! x = Some i ->
  exists i', intervals !! x = Some i' /\ set_demand_at_release 0 i' = set_demand_at_release 0 i.
Proof.
  intros Hx. pose proof (f_equal (.!! x) plan_tracks) as Ht. simpl in Ht. rewrite !list_lookup_fmap, Hx in Ht. simpl in Ht.
  destruct (intervals !! x) as [i'|]; simpl in Ht; [|done]. apply (inj Some) in Ht. by exists i'.
Qed.

(** A counter bounds the executions of its intervals. *)
Lemma plan_executions (C : AdmissionCounter src tables st by_source_of) time (executions : list (nat * nat)) :
  kept (AdmissionCounter := C) (zero_demand src st) -> get (AdmissionCounter := C) (zero_demand src st) = 0 ->
  0 <= limit (AdmissionCounter := C) -> reported (AdmissionCounter := C) start_of ->
  get (AdmissionCounter := C) initial <= peak (AdmissionCounter := C) start_of -> NoDup executions ->
  (forall e, e ∈ executions -> exists i, execution_in_flight plan time e i /\ mine (AdmissionCounter := C) i = true) ->
  Z.of_nat (length executions) <= peak (AdmissionCounter := C) swept /\
  Z.of_nat (length executions) <= limit (AdmissionCounter := C).
Proof.
  intros Hk H0 Hl Hrep Hpk Hnd Hex.
  destruct (intervals_ok _ _ _ _ typed (adm_phases _ _ _ _ _ _ _ accepted) (adm_intervals _ _ _ _ _ _ _ accepted))
    as (Hok & Hlen & _).
  apply (executions_bounded src tables st by_source_of intervals (supercycle_ns (src_rate_plan src)) initial start_of
           swept positive Hok Hlen (zero_demand src st) (adm_carry _ _ _ _ _ _ _ accepted) eq_refl eq_refl
           (adm_sweep _ _ _ _ _ _ _ accepted) time); try done.
  intros x k Hin. destruct (Hex _ Hin) as (i & (Hi & Ho & Hf) & Hm). apply plan_interval in Hi as (i' & Hi' & Heq).
  rewrite (adm_plan_supercycle _ _ _ _ _ _ _ accepted) in Hf.
  exists i'. split; [done|]. unfold counts, in_flight_at in *. simpl in *. split.
  - rewrite <- (mine_demand i' 0), Heq, mine_demand, Hm. assert (ai_optional i' = ai_optional i) as -> by (by injection Heq). by rewrite Ho.
  - by injection Heq as _ _ _ _ -> -> _ _ _ _ _.
Qed.

Context (time : Z) (executions : list (nat * nat)) (distinct : NoDup executions).
Context (active : forall e, e ∈ executions -> exists i, execution_in_flight plan time e i).

Lemma runtime_executions :
  Z.of_nat (length executions) <= arp_peak_global_in_flight (drp_report plan) /\
  Z.of_nat (length executions) <= src_runtime_outstanding_capacity src.
Proof.
  rewrite (adm_plan_peak _ _ _ _ _ _ _ accepted).
  apply (plan_executions (runtime_counter src tables st by_source_of) time executions); simpl; try done.
  - pose proof (typ_runtime _ typed) as [Hr _]. unfold is_u32 in Hr. lia.
  - intros e He. destruct (active e He) as [i Hi]. eauto.
Qed.

Lemma phase_executions idx p :
  drp_phases plan !! idx = Some p ->
  (forall e i, e ∈ executions -> execution_in_flight plan time e i -> ai_phase i = dp_phase p) ->
  Z.of_nat (length executions) <= from_option ap_peak_in_flight 0 (drp_admission_phases plan !! idx) /\
  Z.of_nat (length executions) <= dp_maximum_in_flight p.
Proof.
  rewrite (adm_plan_phases _ _ _ _ _ _ _ accepted), (adm_plan_admission_phases _ _ _ _ _ _ _ accepted).
  intros Hp Hph. pose proof (adm_phases _ _ _ _ _ _ _ accepted) as Hinv.
  pose proof (lookup_lt_Some _ _ _ Hp) as Hlt. pose proof (inv_admission _ _ _ Hinv) as Hadm.
  destruct (plan_executions (phase_counter src tables st by_source_of idx) time executions) as [H1 H2]; simpl; try done.
  - by rewrite length_replicate.
  - by apply list_lookup_total_correct, lookup_replicate.
  - rewrite Hp. simpl. apply list_elem_of_lookup_2, (phase_typed _ _ _ _ typed Hinv) in Hp as [Hp _]. unfold is_u32 in Hp. lia.
  - rewrite length_imap. lia.
  - rewrite list_lookup_imap. destruct (lookup_lt_is_Some_2 (pst_admission_phases st) idx) as [a ->]; [lia|]. done.
  - intros e He. destruct (active e He) as [i Hi]. exists i. split; [done|]. apply bool_decide_eq_true.
    unfold phase_index_for. rewrite (Hph e i He Hi).
    by rewrite (list_lookup_total_correct _ _ _ (inv_plan_phase _ _ _ Hinv _ _ Hp)).
  - simpl in *. by rewrite Hp in H2.
Qed.

(** The backend of an interval is one of the sources, marked as used. *)
Lemma interval_backend_used i j :
  i ∈ intervals -> table_at (st_backend tables) (backend_position (src_graph_owner src) (ai_backend i)) = Some j ->
  pst_backend_used st !! j = Some true.
Proof.
  intros Hi Hj. pose proof (adm_phases _ _ _ _ _ _ _ accepted) as Hinv.
  destruct (intervals_ok _ _ _ _ typed Hinv (adm_intervals _ _ _ _ _ _ _ accepted)) as (_ & _ & HF).
  rewrite Forall_forall in HF. destruct (HF _ Hi) as (p & [idx Hp]%list_elem_of_lookup_1 & _ & Hb).
  rewrite Hb in Hj. by apply (inv_phase _ _ _ Hinv _ _ Hp).
Qed.

Lemma backend_executions b :
  b ∈ src_backends src ->
  (forall e i, e ∈ executions -> execution_in_flight plan time e i -> ai_backend i = bk_backend b) ->
  Z.of_nat (length executions) <= cap_max_in_flight_batches (bk_capabilities b).
Proof.
  intros Hb Hbk. pose proof (typ_backends _ typed) as Hty. rewrite Forall_forall in Hty.
  destruct (Hty b Hb) as [Hcap _]. unfold is_u32 in Hcap.
  apply list_elem_of_lookup_1 in Hb as [j Hj]. pose proof (lookup_lt_Some _ _ _ Hj) as Hlt.
  pose proof (adm_tables _ _ _ _ _ _ _ accepted) as Htab. pose proof (tab_backend _ _ Htab _ _ Hj) as Hat.
  destruct executions as [|e0 rest] eqn:Hne; [simpl; lia|]. rewrite <- Hne in *.
  assert (Hused : pst_backend_used st !! j = Some true).
  { destruct (active e0) as [i Hi]; [rewrite Hne; by left|].
    destruct Hi as (Hx & Ho). apply plan_interval in Hx as Hx'. destruct Hx' as (i' & Hi' & Heq).
    apply (interval_backend_used i'); [by eapply list_elem_of_lookup_2|].
    assert (ai_backend i' = ai_backend i) as -> by (by injection Heq).
    by rewrite (Hbk e0 i); [|rewrite Hne; left|]. }
  destruct (by_source_spec src tables (pst_backend_used st) Htab j Hlt) as (position & a & Hpos & Ha & Haj).
  { by apply list_lookup_total_correct. }
  destruct (plan_executions (backend_counter src tables st by_source_of j position) time executions) as [H1 H2]; simpl; try done.
  - by rewrite length_replicate.
  - by apply list_lookup_total_correct, lookup_replicate.
  - rewrite Hj. simpl. lia.
  - split; [done|]. rewrite length_fmap. by eapply lookup_lt_Some.
  - rewrite list_lookup_fmap, Ha. simpl. by rewrite Haj.
  - intros e He. destruct (active e He) as [i Hi]. exists i. split; [done|]. apply bool_decide_eq_true.
    rewrite (Hbk e i He Hi). by apply (backend_index_for_at src).
  - simpl in H2. by rewrite Hj in H2.
Qed.
End Accepted.


(** ** Timelines *)

Definition plan_timelines (plan : DeviceRatePlan) (p : DeviceRatePhase) : list DeviceRateTimelineReference :=
  slice (dp_first_timeline_reference_index p) (dp_timeline_reference_count p) (drp_timeline_references plan).

Definition plan_payload (plan : DeviceRatePlan) (p : DeviceRatePhase) : list DeviceRatePayloadReference :=
  slice (dp_first_payload_reference_index p) (dp_payload_reference_count p) (drp_payload_references plan).

(** The phase at [idx] waits on, or signals, the timeline registered at [position]. *)
Definition uses_timeline (owner : Z) (plan : DeviceRatePlan) (role : DeviceRateTimelineRole) (idx position : nat) : Prop :=
  exists p r, drp_phases plan !! idx = Some p /\ r ∈ plan_timelines plan p /\ tr_role r = role /\
    timeline_position owner (tr_timeline r) = Some position.

Lemma timeline_ordinal_position src tables timeline o :
  tables_ok src tables -> timeline_ordinal src tables timeline = Some o ->
  exists t position, src_timelines src !! o = Some t /\
    timeline_position (src_graph_owner src) (tl_timeline t) = Some position /\
    timeline_position (src_graph_owner src) timeline = Some position.
Proof.
  intros Ht (p & Hp & Ho)%table_at_Some. destruct (tab_timeline _ _ Ht _ _ Ho) as (t & Ht' & Hpos). eauto.
Qed.

Lemma timeline_ordinal_eq src tables a b o :
  timeline_position (src_graph_owner src) a = timeline_position (src_graph_owner src) b ->
  timeline_ordinal src tables a = Some o -> timeline_ordinal src tables b = Some o.
Proof. unfold timeline_ordinal. by intros ->. Qed.

Lemma plan_references src plan tables st intervals initial swept role k phase timeline :
  admitted src plan tables st intervals initial swept ->
  (k, phase, timeline) ∈ references_of role st <->
  exists p r, drp_phases plan !! k = Some p /\ phase = dp_phase p /\ r ∈ plan_timelines plan p /\ tr_role r = role /\
    timeline = tr_timeline r.
Proof.
  intros Hadm. rewrite references_of_elem. unfold plan_timelines.
  by rewrite (adm_plan_phases _ _ _ _ _ _ _ Hadm), (adm_plan_timelines _ _ _ _ _ _ _ Hadm).
Qed.

(** C28. The timeline waits of an accepted plan cannot deadlock: the phases have an order in which
    every wait is either on a timeline with one signalling phase, which comes strictly before the
    waiting phase, or on a timeline that no phase signals and whose initial value is not zero. *)
Theorem device_waits_ordered src output plan diagnostic :
  sources_typed src -> src_bindings src <> [] ->
  compile_device_rate_plan src output = (ok, plan, diagnostic) ->
  exists order, order ≡ₚ seq 0 (length (drp_phases plan)) /\
    forall w position, uses_timeline (src_graph_owner src) plan timeline_wait w position ->
      (exists s, uses_timeline (src_graph_owner src) plan timeline_signal s position /\
         (forall s', uses_timeline (src_graph_owner src) plan timeline_signal s' position -> s' = s) /\
         before order s w) \/
      ((forall s', ~ uses_timeline (src_graph_owner src) plan timeline_signal s' position) /\
       exists t, t ∈ src_timelines src /\
         timeline_position (src_graph_owner src) (tl_timeline t) = Some position /\ tl_initial_value t <> 0).
Proof.
  intros Hty Hne Hc. destruct (compile_accepted _ _ _ _ Hty Hne Hc) as (_ & tables & st & ivs & d & s & Hadm).
  pose proof (adm_tables _ _ _ _ _ _ _ Hadm) as Htab.
  destruct (check_waits_order src tables st) as (order & Hperm & Hord); [apply Hadm..|].
  exists order. rewrite (adm_plan_phases _ _ _ _ _ _ _ Hadm). split; [done|].
  intros w position (p & r & Hp & Hr & Hrole & Hpos).
  destruct (Hord w (dp_phase p) (tr_timeline r)) as (o & Ho & Hcase).
  { apply (plan_references _ _ _ _ _ _ _ _ _ _ _ Hadm). eauto 8. }
  destruct (timeline_ordinal_position _ _ _ _ Htab Ho) as (t & position' & Hto & Htp & Hpos').
  rewrite Hpos in Hpos'. injection Hpos' as <-.
  assert (Hsig : forall s', uses_timeline (src_graph_owner src) plan timeline_signal s' position <->
            exists phase' timeline', (s', phase', timeline') ∈ references_of timeline_signal st /\
              timeline_ordinal src tables timeline' = Some o).
  { intros s'. setoid_rewrite (plan_references _ _ _ _ _ _ _ timeline_signal _ _ _ Hadm). split.
    - intros (p' & r' & Hp' & Hr' & Hrole' & Hq). exists (dp_phase p'), (tr_timeline r'). split; [by eauto 8|].
      eapply timeline_ordinal_eq; [|exact Ho]. congruence.
    - intros (phase' & timeline' & (p' & r' & Hp' & -> & Hr' & Hrole' & ->) & Ho').
      exists p', r'. split_and!; try done.
      destruct (timeline_ordinal_position _ _ _ _ Htab Ho') as (t' & q & Ht' & Hq & Hq'). congruence. }
  destruct Hcase as [(s0 & Hs & Huniq & Hbef)|[Hno Hinit]].
  - left. exists s0. split_and!; [by apply Hsig| |done]. intros s' (ph & tl & Hs' & Ho')%Hsig. by eapply Huniq.
  - right. split; [intros s' (ph & tl & Hs' & Ho')%Hsig; by eapply Hno|].
    destruct Hinit as (t' & Ht' & Hv). rewrite Hto in Ht'. injection Ht' as <-. exists t. split_and!; try done.
    by eapply list_elem_of_lookup_2.
Qed.

(** ** Payload references *)

(** C29. Every phase of an accepted plan lists the buffer references of the command batch its
    source declared, in their order and with the roles of its binding; each lies inside a
    registered buffer of the phase's backend, with an access the buffer grants and at the
    buffer's granularities; and the declared counts fit the capabilities of the backend. *)
Theorem device_payload_confined src output plan diagnostic idx p :
  sources_typed src -> src_bindings src <> [] ->
  compile_device_rate_plan src output = (ok, plan, diagnostic) -> drp_phases plan !! idx = Some p ->
  exists b source declaration backend,
    b ∈ src_bindings src /\ dp_phase p = db_phase b /\
    source ∈ src_phases src /\ ps_declaration source = Some declaration /\
    device_phase_position (src_graph_owner src) (ps_phase source) =
      device_phase_position (src_graph_owner src) (db_phase b) /\
    backend ∈ src_backends src /\
    backend_position (src_graph_owner src) (bk_backend backend) =
      backend_position (src_graph_owner src) (dp_backend p) /\
    phase_capable backend b declaration = true /\
    length (plan_payload plan p) = dp_payload_reference_count p /\
    pr_role <$> plan_payload plan p = db_payload_roles b /\
    payload_range <$> plan_payload plan p = declared_range <$> batch_references declaration /\
    Forall (fun r => pr_phase r = dp_phase p /\ pr_backend r = dp_backend p /\
              role_matches (pr_role r) (pr_access r) = true /\ reference_confined src r) (plan_payload plan p).
Proof.
  intros Hty Hne Hc Hp. destruct (compile_accepted _ _ _ _ Hty Hne Hc) as (_ & tables & st & ivs & d & s & Hadm).
  rewrite (adm_plan_phases _ _ _ _ _ _ _ Hadm) in Hp. unfold plan_payload. rewrite (adm_plan_payload _ _ _ _ _ _ _ Hadm).
  destruct (inv_phase _ _ _ (adm_phases _ _ _ _ _ _ _ Hadm) _ _ Hp) as (Hl & _ & Hphase & _).
  destruct Hphase as (b & source & declaration & backend & index & Hb & Hs & Hd & _ & Hpos & Hbk & Hat & Hcap & Eph & _ & Ebk & _ & _ & Hroles & Hrange & Hall & _).
  exists b, source, declaration, backend. split_and!; try done.
  - by eapply list_elem_of_lookup_2.
  - apply table_at_Some in Hat as (q & Hq & Hti). destruct (tab_backend_at _ _ (adm_tables _ _ _ _ _ _ _ Hadm) _ _ Hti) as (bk & Hbk' & Hq').
    rewrite Hbk in Hbk'. injection Hbk' as <-. by rewrite Hq', Ebk.
  - unfold slice. rewrite length_take, length_drop. lia.
Qed.

(** ** Intervals and refusals *)

(** An accepted plan admits exactly the device releases of the supercycle, one interval each
    and in their order; the interval ends at the deadline of the release or when the completion
    budget of its phase runs out, whichever is first, within one supercycle of the release.  A
    refused call reports an error status and leaves the output plan untouched. *)
Theorem device_admission_exact src output :
  sources_typed src -> src_bindings src <> [] ->
  let '(status, plan, diagnostic) := compile_device_rate_plan src output in
  (status = ok /\
   Forall2 (fun e i => exists p, p ∈ drp_phases plan /\
              phase_position (dp_phase p) = phase_position (rr_phase (snd e)) /\
              ai_reference_index i = fst e /\ ai_phase i = rr_phase (snd e) /\ ai_domain i = rr_domain (snd e) /\
              ai_backend i = dp_backend p /\ ai_release_time_ns i = rr_release_time_ns (snd e) /\
              ai_completion_deadline_ns i =
                Z.min (rr_deadline_time_ns (snd e)) (rr_release_time_ns (snd e) + dp_completion_budget_ns p) /\
              ai_optional i = rr_optional (snd e) /\
              ai_release_time_ns i < ai_completion_deadline_ns i <=
                ai_release_time_ns i + supercycle_ns (src_rate_plan src))
     (filter (fun e => rr_phase_kind (snd e) = kind_device) (imap pair (pl_releases (src_rate_plan src))))
     (drp_admission_intervals plan)) \/
  (status <> ok /\ plan = output /\ status = dd_status diagnostic).
Proof.
  intros Hty Hne. destruct (compile_device_rate_plan src output) as [[status plan] diagnostic] eqn:Hc.
  destruct (decide (status = ok)) as [->|Hs].
  - left. split; [done|]. destruct (compile_accepted _ _ _ _ Hty Hne Hc) as (_ & tables & st & ivs & d & s & Hadm).
    pose proof (plan_tracks _ _ _ _ _ _ _ Hty Hadm) as Htr.
    pose proof (admission_intervals_spec _ _ _ _ Hty (adm_phases _ _ _ _ _ _ _ Hadm) (adm_intervals _ _ _ _ _ _ _ Hadm)) as HF.
    apply Forall2_same_length_lookup_2.
    + apply Forall2_length in HF. rewrite HF. apply (f_equal length) in Htr. by rewrite !length_fmap in Htr.
    + intros k e i He Hi. destruct (plan_interval _ _ _ _ _ _ _ Hty Hadm _ _ Hi) as (i' & Hi' & Heq).
      destruct (Forall2_lookup_lr _ _ _ _ _ _ HF He Hi') as (p & Hp & H1 & H2 & H3 & H4 & H5 & H6 & H7 & H8 & H9 & _).
      rewrite (adm_plan_phases _ _ _ _ _ _ _ Hadm).
      exists p. injection Heq as E1 E2 E3 E4 E5 E6 E7 E8 E9 E10 E11. split_and!; try done; congruence || lia.
  - right. split; [done|]. unfold compile_device_rate_plan in Hc. destruct (Nat.eqb _ 0) eqn:Hz.
    + apply Nat.eqb_eq, length_zero_iff_nil in Hz. done.
    + destruct (_ || _); [by injection Hc as <- <- <-|]. destruct (compile_candidate_plan src); by injection Hc as <- <- <-.
Qed.

(** * Device rate admission: a sample

    Two phases on one backend, the second waiting on the timeline the first signals.  Both are
    released twice in a supercycle of 100, with a completion budget of 80, so that the second
    release carries over into the next supercycle. *)

Local Open Scope Z_scope.
Local Open Scope rtfw_scope.

Definition sample_point (timeline : Z) : HalV2TimelinePoint :=
  mkTimelinePoint 48 1 (DeviceTimelineHandle_make 7 timeline) 0 [0; 0; 0].

Definition waiting_declaration : DeviceCommandBatch :=
  mkCommandBatch 9584 1 0 0 0 1 1 1 0 (dispatch_command :: replicate 15 blank_command)
    (sample_point 0 :: replicate 7 blank_point) (sample_point 1 :: replicate 7 blank_point) (replicate 8 0).

Definition sample_release (phase time : Z) (sequence : Z) : ReferenceRelease :=
  mkRelease time (RateDomainHandle_make 7 0) 0 sequence (PhaseHandle_make 7 phase) kind_device (Z.to_nat phase)
    0 1 100 (time + 100) 5 crit_critical false late_fail 0.

Definition sample_rate_plan : CompiledRatePlan :=
  mkPlan 100
    [mkCompiledDomain (RateDomainHandle_make 7 0) [] 0 50 1 100 5 crit_critical false 2 1 1 late_fail 0]
    [mkCompiledBinding (PhaseHandle_make 7 0) (RateDomainHandle_make 7 0) kind_device 0;
     mkCompiledBinding (PhaseHandle_make 7 1) (RateDomainHandle_make 7 0) kind_device 1]
    [sample_release 0 0 0; sample_release 1 0 0; sample_release 0 50 1; sample_release 1 50 1].

Definition sample_device_binding (phase : Z) : DeviceRateBindingSpec :=
  mkDeviceBinding (PhaseHandle_make 7 phase) (RateDomainHandle_make 7 0) 80 2 [role_input] None.

Definition sample_sources : DeviceSources :=
  mkDeviceSources 7 8 4 sample_rate_plan [sample_device_binding 0; sample_device_binding 1]
    [mkBackendSource (DeviceBackendHandle_make 7 0) (mkCapabilities 80 1 4 16 8 8 16 4 0 []) 11 true false]
    [mkRateBufferSource (DeviceBufferHandle_make 7 0) (DeviceBackendHandle_make 7 0) 4096 4 64 64]
    [mkTimelineSource (DeviceTimelineHandle_make 7 0) (DeviceBackendHandle_make 7 0) 0;
     mkTimelineSource (DeviceTimelineHandle_make 7 1) (DeviceBackendHandle_make 7 0) 0]
    [mkPhaseSource (PhaseHandle_make 7 0) (DeviceBackendHandle_make 7 0) (Some (sample_declaration 0));
     mkPhaseSource (PhaseHandle_make 7 1) (DeviceBackendHandle_make 7 0) (Some waiting_declaration)].

Definition sample_device_plan : DeviceRatePlan :=
  snd (fst (compile_device_rate_plan sample_sources empty_device_plan)).

Lemma sample_accepted :
  compile_device_rate_plan sample_sources empty_device_plan =
  (ok, sample_device_plan, mkDeviceDiagnostic ok None None PhaseHandle_default).
Proof. vm_compute. reflexivity. Qed.

Lemma sample_sources_typed : sources_typed sample_sources.
Proof.
  split.
  - repeat constructor; vm_compute; discriminate.
  - intros s d Hs Hd. simpl in Hs. rewrite !elem_of_cons, elem_of_nil in Hs.
    destruct Hs as [->|[->|[]]]; injection Hd as <-.
    + split; [apply sample_declaration_typed; split; vm_compute; discriminate|].
      repeat constructor; vm_compute; discriminate.
    + split; [split_and!; try done; by repeat constructor|]. repeat constructor; vm_compute; discriminate.
  - repeat constructor; vm_compute; discriminate.
  - repeat constructor; vm_compute; discriminate.
  - split; split; vm_compute; discriminate.
  - split; vm_compute; discriminate.
  - repeat constructor; vm_compute; discriminate || reflexivity.
  - vm_compute. discriminate.
Qed.

(** At time 120 of the repeating timeline the executions released at 50 are still in flight beside
    those released at 100. *)
Definition sample_executions : list (nat * nat) := [(2, 0); (3, 0); (0, 1); (1, 1)]%nat.

Lemma sample_in_flight e :
  e ∈ sample_executions -> exists i, execution_in_flight sample_device_plan 120 e i.
Proof.
  intros He. unfold sample_executions in He. rewrite !elem_of_cons, elem_of_nil in He.
  destruct He as [->|[->|[->|[->|[]]]]]; eexists; (split; [vm_compute; reflexivity|]); split; try reflexivity;
    split; vm_compute; discriminate || reflexivity.
Qed.


Lemma device_waits_ordered_witness : exists order, order ≡ₚ seq 0 2.
Proof.
  destruct (device_waits_ordered sample_sources empty_device_plan sample_device_plan _ sample_sources_typed
    ltac:(discriminate) sample_accepted) as (order & Hperm & _). exists order. exact Hperm.
Defined.

Lemma device_payload_confined_witness :
  exists p, drp_phases sample_device_plan !! 1%nat = Some p /\ length (plan_payload sample_device_plan p) = dp_payload_reference_count p.
Proof.
  eexists. split; [vm_compute; reflexivity|].
  edestruct (device_payload_confined sample_sources empty_device_plan sample_device_plan _ 1 _ sample_sources_typed
    ltac:(discriminate) sample_accepted ltac:(vm_compute; reflexivity)) as (b & s & d & bk & H). apply H.
Defined.

Lemma device_admission_exact_witness :
  length (drp_admission_intervals sample_device_plan) = 4%nat.
Proof.
  pose proof (device_admission_exact sample_sources empty_device_plan sample_sources_typed ltac:(discriminate)) as H.
  rewrite sample_accepted in H. destruct H as [[_ H]|[H _]]; [|exfalso; apply H; reflexivity].
  apply Forall2_length in H. rewrite <- H. reflexivity.
Defined.
