(* ===== verification/SeqRing.v ===== *)
(** * The sequence ring

    Four components of rt/src keep their records in a ring of the same design:
    TelemetryRing (telemetry.cpp), RateTelemetryRing (rate_telemetry.cpp),
    MixedRateActionRing (mixed_rate_actions.cpp) and LiveControlActionRing
    (live_control_actions.cpp).  A writer reserves a sequence number, claims the
    slot of that number with a test-and-set flag, invalidates the slot, stores the
    record word by word, commits the number and releases the flag; a reader loads
    the committed number, the words, and the committed number again.

    This file models the ring once, over the interface [RingRecord] that each
    component instantiates: how a number is reserved, how a record becomes words
    and back, and which records emit and read refuse.  Every pc value below stands
    before one atomic access of the source, so that [sys_step] interleaves the
    calls of any number of threads access by access, in a sequentially consistent
    order.  A call that has returned stays in the thread list with its result. *)

From stdpp Require Import base list numbers.
From Stdlib Require Import ZArith Lia Bool.
From S2P Require Import Prelude.

Open Scope Z_scope.

(** ** The interface a record type offers to the ring *)

Inductive Reservation : Set :=
| reserve_fetch_add    (** [next_sequence_.fetch_add(1)] *)
| reserve_weak_loop    (** [compare_exchange_weak] until it succeeds or the counter is exhausted *)
| reserve_strong_once. (** one load, one [compare_exchange_strong] *)

#[export] Instance Reservation_eq_dec : EqDecision Reservation.
Proof. solve_decision. Defined.

Class RingRecord (record : Type) : Type := {
  reservation : Reservation;
  word_count : nat;
  initial_words : list Z;
  slot_size : Z;
  capacity_limit : Z;
  stamp : Z -> record -> record;
  to_words : record -> list Z;
  of_words : Z -> list Z -> record;
  admissible : record -> bool;
  acceptable : Z -> record -> bool;
}.

(** What the ring relies on: [deliver s r] is the record a reader gets for the
    record [r] emitted under the number [s]. *)
Class RingRecordLaws (record : Type) `{!RingRecord record} : Type := {
  well_typed : record -> Prop;
  deliver : Z -> record -> record;
  word_count_pos : (0 < word_count)%nat;
  initial_words_length : length initial_words = word_count;
  to_words_length : forall s r, length (to_words (stamp s r)) = word_count;
  of_words_to_words : forall s r, is_u64 s -> well_typed r ->
    of_words s (to_words (stamp s r)) = deliver s r;
}.

(** ** State *)

Definition invalid_sequence : Z := u64_max.

Record Slot := mkSlot {
  sl_writer : bool;
  sl_committed_sequence : Z;
  sl_words : list Z;
}.

Record Ring := mkRing {
  rg_slots : list Slot;
  rg_next_sequence : Z;
  rg_emitted : Z;
  rg_overwritten : Z;
  rg_dropped : Z;
}.

#[export] Instance Slot_inhabited : Inhabited Slot := populate (mkSlot false invalid_sequence []).

Definition capacity (g : Ring) : nat := length (rg_slots g).

Definition slot_index (g : Ring) (sequence : Z) : nat :=
  Z.to_nat (sequence mod Z.of_nat (capacity g)).

Definition slot_at (g : Ring) (sequence : Z) : Slot := rg_slots g !!! slot_index g sequence.

Definition set_slot (g : Ring) (sequence : Z) (s : Slot) : Ring :=
  mkRing (<[slot_index g sequence := s]> (rg_slots g)) (rg_next_sequence g) (rg_emitted g)
    (rg_overwritten g) (rg_dropped g).

Definition set_next_sequence (g : Ring) (n : Z) : Ring :=
  mkRing (rg_slots g) n (rg_emitted g) (rg_overwritten g) (rg_dropped g).

(** [fetch_add(1)] on the statistics, at their width. *)
Definition count_emitted (g : Ring) : Ring :=
  mkRing (rg_slots g) (rg_next_sequence g) (u64 (rg_emitted g + 1)) (rg_overwritten g)
    (rg_dropped g).

Definition count_overwritten (g : Ring) : Ring :=
  mkRing (rg_slots g) (rg_next_sequence g) (rg_emitted g) (u64 (rg_overwritten g + 1))
    (rg_dropped g).

Definition count_dropped (g : Ring) : Ring :=
  mkRing (rg_slots g) (rg_next_sequence g) (rg_emitted g) (rg_overwritten g)
    (u64 (rg_dropped g + 1)).

(** ** The program points of [emit] and [read_sequence] *)

Inductive EmitPc : Set :=
| e_load
| e_reserve (observed : Z)
| e_claim (sequence : Z)
| e_invalidate (sequence : Z)
| e_store (sequence previous : Z) (index : nat)
| e_commit (sequence previous : Z)
| e_release (sequence previous : Z)
| e_count_emitted (sequence previous : Z)
| e_count_overwritten (sequence previous : Z)
| e_drop (sequence : Z)
| e_kept (sequence previous : Z)     (** returned true *)
| e_dropped (sequence : Z).          (** returned false *)

Inductive ReadPc (record : Type) : Type :=
| r_first
| r_words (loaded : list Z)
| r_done (result : option record).
Arguments r_first {record}.
Arguments r_words {record} loaded.
Arguments r_done {record} result.

Section Ring.
Context {record : Type} `{!RingRecord record}.

(** [Slot{}] *)
Definition empty_slot : Slot := mkSlot false invalid_sequence initial_words.

(** The constructor; [None] is the exception it throws. *)
Definition ring_create (c : Z) : option Ring :=
  if (capacity_limit <? c) || (u64_max / slot_size <? c) then None
  else Some (mkRing (replicate (Z.to_nat c) empty_slot) 0 0 0 0).

(** [restore_sequence] *)
Definition restore_sequence (next_sequence : Z) (g : Ring) : Ring :=
  mkRing ((fun s => mkSlot false invalid_sequence (sl_words s)) <$> rg_slots g)
    next_sequence 0 0 0.

Definition oldest_sequence (g : Ring) (end_sequence : Z) : Z :=
  let c := Z.of_nat (capacity g) in
  if c <? end_sequence then end_sequence - c else 0.

(** One atomic access of [emit]; [spurious] makes a weak compare-exchange fail. *)
Definition reserve_step (g : Ring) (spurious : bool) (observed : Z) : Ring * EmitPc :=
  match reservation with
  | reserve_fetch_add =>
      (set_next_sequence g (u64 (rg_next_sequence g + 1)), e_claim (rg_next_sequence g))
  | reserve_weak_loop =>
      if observed =? u64_max then (g, e_drop observed)
      else if negb spurious && (rg_next_sequence g =? observed)
      then (set_next_sequence g (observed + 1), e_claim observed)
      else (g, e_reserve (rg_next_sequence g))
  | reserve_strong_once =>
      if (observed =? invalid_sequence) || negb (rg_next_sequence g =? observed)
      then (g, e_drop invalid_sequence)
      else (set_next_sequence g (observed + 1), e_claim observed)
  end.

Definition emit_step (g : Ring) (r : record) (spurious : bool) (pc : EmitPc) : Ring * EmitPc :=
  match pc with
  | e_load => (g, e_reserve (rg_next_sequence g))
  | e_reserve observed => reserve_step g spurious observed
  | e_claim sequence =>
      if negb (admissible (stamp sequence r)) || Nat.eqb (capacity g) 0
      then (g, e_drop sequence)
      else
        let s := slot_at g sequence in
        if sl_writer s then (g, e_drop sequence)
        else (set_slot g sequence (mkSlot true (sl_committed_sequence s) (sl_words s)),
              e_invalidate sequence)
  | e_invalidate sequence =>
      let s := slot_at g sequence in
      (set_slot g sequence (mkSlot (sl_writer s) invalid_sequence (sl_words s)),
       e_store sequence (sl_committed_sequence s) 0)
  | e_store sequence previous index =>
      let s := slot_at g sequence in
      (set_slot g sequence
         (mkSlot (sl_writer s) (sl_committed_sequence s)
            (<[index := to_words (stamp sequence r) !!! index]> (sl_words s))),
       if Nat.ltb (S index) word_count then e_store sequence previous (S index)
       else e_commit sequence previous)
  | e_commit sequence previous =>
      let s := slot_at g sequence in
      (set_slot g sequence (mkSlot (sl_writer s) sequence (sl_words s)),
       e_release sequence previous)
  | e_release sequence previous =>
      let s := slot_at g sequence in
      (set_slot g sequence (mkSlot false (sl_committed_sequence s) (sl_words s)),
       e_count_emitted sequence previous)
  | e_count_emitted sequence previous =>
      (count_emitted g,
       if previous =? invalid_sequence then e_kept sequence previous
       else e_count_overwritten sequence previous)
  | e_count_overwritten sequence previous => (count_overwritten g, e_kept sequence previous)
  | e_drop sequence => (count_dropped g, e_dropped sequence)
  | e_kept _ _ | e_dropped _ => (g, pc)
  end.

(** One atomic access of [read_sequence]; the words are decoded after the last one. *)
Definition read_step (g : Ring) (sequence : Z) (pc : ReadPc record) : ReadPc record :=
  match pc with
  | r_first =>
      if Nat.eqb (capacity g) 0 then r_done None
      else if negb (sl_committed_sequence (slot_at g sequence) =? sequence) then r_done None
      else r_words []
  | r_words loaded =>
      if Nat.ltb (length loaded) word_count
      then r_words (loaded ++ [sl_words (slot_at g sequence) !!! length loaded])
      else
        let candidate := of_words sequence loaded in
        if negb (sl_committed_sequence (slot_at g sequence) =? sequence) ||
           negb (acceptable sequence candidate)
        then r_done None
        else r_done (Some candidate)
  | r_done _ => pc
  end.

(** Where a call of [emit] starts: [fetch_add] needs no earlier load. *)
Definition emit_start : EmitPc :=
  match reservation with reserve_fetch_add => e_reserve 0 | _ => e_load end.

(** ** Concurrent calls *)

Inductive Thread : Type :=
| emitter (r : record) (pc : EmitPc)
| reader (sequence : Z) (pc : ReadPc record).

Record System := mkSystem {
  sys_ring : Ring;
  sys_threads : list Thread;
}.

Inductive Event : Type :=
| call_emit (r : record)
| call_read (sequence : Z)
| turn (thread : nat) (spurious : bool).

Definition thread_step (g : Ring) (spurious : bool) (t : Thread) : Ring * Thread :=
  match t with
  | emitter r pc => let '(g', pc') := emit_step g r spurious pc in (g', emitter r pc')
  | reader sequence pc => (g, reader sequence (read_step g sequence pc))
  end.

Definition sys_step (y : System) (e : Event) : System :=
  match e with
  | call_emit r => mkSystem (sys_ring y) (sys_threads y ++ [emitter r emit_start])
  | call_read sequence => mkSystem (sys_ring y) (sys_threads y ++ [reader sequence r_first])
  | turn i spurious =>
      match sys_threads y !! i with
      | None => y
      | Some t =>
          let '(g', t') := thread_step (sys_ring y) spurious t in
          mkSystem g' (<[i := t']> (sys_threads y))
      end
  end.

Definition run (y : System) (events : list Event) : System := foldl sys_step y events.

(** ** Calls that run alone *)

Fixpoint emit_run (fuel : nat) (g : Ring) (r : record) (pc : EmitPc) : Ring * EmitPc :=
  match fuel with
  | O => (g, pc)
  | S fuel' => let '(g', pc') := emit_step g r false pc in emit_run fuel' g' r pc'
  end.

Fixpoint read_run (fuel : nat) (g : Ring) (sequence : Z) (pc : ReadPc record) : ReadPc record :=
  match fuel with
  | O => pc
  | S fuel' => read_run fuel' g sequence (read_step g sequence pc)
  end.

(** A call of [emit] is over after the reservation, the claim, the invalidation,
    [word_count] stores, the commit, the release and two counters. *)
Definition emit_fuel : nat := word_count + 8.

Definition read_fuel : nat := word_count + 2.

(** The ring after the call and the value [emit] returns. *)
Definition emit (g : Ring) (r : record) : Ring * bool :=
  let '(g', pc) := emit_run emit_fuel g r emit_start in
  (g', match pc with e_kept _ _ => true | _ => false end).

Definition read_sequence (g : Ring) (sequence : Z) : option record :=
  match read_run read_fuel g sequence r_first with
  | r_done result => result
  | _ => None
  end.

(** [gap_free]: every number of the range can be read. *)
Definition gap_free (g : Ring) (first_sequence : Z) (count : nat) : bool :=
  if u64_max - first_sequence <? Z.of_nat count then false
  else forallb (fun offset => bool_decide (is_Some (read_sequence g (first_sequence + Z.of_nat offset))))
         (seq 0 count).
End Ring.

Arguments Thread record : clear implicits.
Arguments System record : clear implicits.
Arguments Event record : clear implicits.
