(* ===== verification/SeqRingInvariant.v ===== *)
(** * Sequence ring: the invariant of concurrent calls

    Slots are owned by at most one writer, a committed slot holds the words of the
    one call that reserved its number, and a reader that has seen its number
    committed keeps a prefix of those words as long as the number stays. *)

From stdpp Require Import base list numbers.
From Stdlib Require Import ZArith Lia Bool.
From S2P Require Import Prelude SeqRing.

Open Scope Z_scope.

(** ** What a program point says of its call *)

(** The number the call has reserved. *)
Definition assigned (pc : EmitPc) : option Z :=
  match pc with
  | e_load | e_reserve _ => None
  | e_claim s | e_invalidate s | e_store s _ _ | e_commit s _ | e_release s _
  | e_count_emitted s _ | e_count_overwritten s _ | e_kept s _ => Some s
  | e_drop s | e_dropped s => if s =? invalid_sequence then None else Some s
  end.

(** The number whose slot the call has claimed and not released. *)
Definition holding (pc : EmitPc) : option Z :=
  match pc with
  | e_invalidate s | e_store s _ _ | e_commit s _ | e_release s _ => Some s
  | _ => None
  end.

(** The number the call has committed. *)
Definition published (pc : EmitPc) : option Z :=
  match pc with
  | e_release s _ | e_count_emitted s _ | e_count_overwritten s _ | e_kept s _ => Some s
  | _ => None
  end.

Lemma published_assigned pc s : published pc = Some s -> assigned pc = Some s.
Proof. by destruct pc. Qed.

Lemma holding_assigned pc s : holding pc = Some s -> assigned pc = Some s.
Proof. by destruct pc. Qed.

(** ** Slot access *)

Lemma capacity_set_slot g s sl : capacity (set_slot g s sl) = capacity g.
Proof. apply length_insert. Qed.

Lemma slot_index_set_slot g s sl s' : slot_index (set_slot g s sl) s' = slot_index g s'.
Proof. unfold slot_index. by rewrite capacity_set_slot. Qed.

Lemma slot_index_lt g s : capacity g <> 0%nat -> (slot_index g s < capacity g)%nat.
Proof.
  intros Hc. unfold slot_index.
  pose proof (Z.mod_pos_bound s (Z.of_nat (capacity g)) ltac:(lia)). lia.
Qed.

Lemma slot_at_lookup g s :
  capacity g <> 0%nat -> rg_slots g !! slot_index g s = Some (slot_at g s).
Proof. intros Hc. apply list_lookup_lookup_total_lt. by apply slot_index_lt. Qed.

Lemma slot_at_set_same g s s' sl :
  capacity g <> 0%nat -> slot_index g s' = slot_index g s -> slot_at (set_slot g s sl) s' = sl.
Proof.
  intros Hc He. unfold slot_at. rewrite slot_index_set_slot, He. simpl.
  apply list_lookup_total_insert_eq. by apply slot_index_lt.
Qed.

Lemma slot_at_set_other g s s' sl :
  slot_index g s' <> slot_index g s -> slot_at (set_slot g s sl) s' = slot_at g s'.
Proof.
  intros He. unfold slot_at. rewrite slot_index_set_slot. simpl.
  by apply list_lookup_total_insert_ne.
Qed.

Lemma slots_set_other g s sl k :
  k <> slot_index g s -> rg_slots (set_slot g s sl) !! k = rg_slots g !! k.
Proof. intros. simpl. by apply list_lookup_insert_ne. Qed.

Section Invariant.
Context {record : Type} `{!RingRecord record}.
Implicit Types (g : Ring) (y : System record) (t : Thread record).

(** ** The invariant *)

(** [r] is the record of a call that has committed [s]. *)
Definition was_published (ts : list (Thread record)) (s : Z) (r : record) : Prop :=
  exists i pc, ts !! i = Some (emitter r pc) /\ published pc = Some s.

Definition emitter_ok g (r : record) (pc : EmitPc) : Prop :=
  match pc with
  | e_invalidate s => capacity g <> 0%nat /\ sl_writer (slot_at g s) = true
  | e_store s _ i =>
      capacity g <> 0%nat /\ sl_writer (slot_at g s) = true /\
      sl_committed_sequence (slot_at g s) = invalid_sequence /\ (i < word_count)%nat /\
      take i (sl_words (slot_at g s)) = take i (to_words (stamp s r))
  | e_commit s _ =>
      capacity g <> 0%nat /\ sl_writer (slot_at g s) = true /\
      sl_committed_sequence (slot_at g s) = invalid_sequence /\
      sl_words (slot_at g s) = to_words (stamp s r)
  | e_release s _ =>
      capacity g <> 0%nat /\ sl_writer (slot_at g s) = true /\
      sl_committed_sequence (slot_at g s) = s
  | _ => True
  end.

Definition slot_ok g (ts : list (Thread record)) (k : nat) (sl : Slot) : Prop :=
  length (sl_words sl) = word_count /\
  (sl_committed_sequence sl <> invalid_sequence ->
   slot_index g (sl_committed_sequence sl) = k /\
   exists r, was_published ts (sl_committed_sequence sl) r /\
     sl_words sl = to_words (stamp (sl_committed_sequence sl) r)) /\
  (sl_writer sl = true ->
   exists i r pc s, ts !! i = Some (emitter r pc) /\ holding pc = Some s /\ slot_index g s = k).

Definition reader_ok g (ts : list (Thread record)) (s : Z) (pc : ReadPc record) : Prop :=
  match pc with
  | r_first => True
  | r_words loaded =>
      capacity g <> 0%nat /\ (length loaded <= word_count)%nat /\
      (s <> invalid_sequence ->
       exists r, was_published ts s r /\
         (sl_committed_sequence (slot_at g s) = s ->
          loaded = take (length loaded) (to_words (stamp s r))))
  | r_done None => True
  | r_done (Some v) =>
      acceptable s v = true /\
      (s <> invalid_sequence ->
       exists r, was_published ts s r /\ v = of_words s (to_words (stamp s r)))
  end.

Record ring_inv (base : Z) (y : System record) : Prop := {
  inv_next : base <= rg_next_sequence (sys_ring y) <= u64_max;
  inv_assigned : forall i r pc s,
    sys_threads y !! i = Some (emitter r pc) -> assigned pc = Some s ->
    base <= s < rg_next_sequence (sys_ring y);
  inv_unique : forall i j r r' pc pc' s,
    sys_threads y !! i = Some (emitter r pc) -> sys_threads y !! j = Some (emitter r' pc') ->
    assigned pc = Some s -> assigned pc' = Some s -> i = j;
  inv_exclusive : forall i j r r' pc pc' s s',
    sys_threads y !! i = Some (emitter r pc) -> sys_threads y !! j = Some (emitter r' pc') ->
    holding pc = Some s -> holding pc' = Some s' ->
    slot_index (sys_ring y) s = slot_index (sys_ring y) s' -> i = j;
  inv_emitter : forall i r pc,
    sys_threads y !! i = Some (emitter r pc) -> emitter_ok (sys_ring y) r pc;
  inv_slot : forall k sl,
    rg_slots (sys_ring y) !! k = Some sl -> slot_ok (sys_ring y) (sys_threads y) k sl;
  inv_reader : forall i s pc,
    sys_threads y !! i = Some (reader s pc) -> reader_ok (sys_ring y) (sys_threads y) s pc;
}.

(** ** What a step of one call may change *)

Lemma emitter_ok_frame g g' r pc :
  capacity g' = capacity g ->
  (forall s, holding pc = Some s -> slot_at g' s = slot_at g s) ->
  emitter_ok g r pc -> emitter_ok g' r pc.
Proof. intros Hc Hs. destruct pc; simpl; rewrite ?Hc, ?Hs by done; done. Qed.

Lemma holder_writes g r pc s :
  emitter_ok g r pc -> holding pc = Some s ->
  capacity g <> 0%nat /\ sl_writer (slot_at g s) = true.
Proof. destruct pc; simpl; naive_solver. Qed.

Lemma was_published_update ts i r pc pc' s v :
  ts !! i = Some (emitter r pc) ->
  (forall s, published pc = Some s -> published pc' = Some s) ->
  was_published ts s v -> was_published (<[i := emitter r pc']> ts) s v.
Proof.
  intros Hi Hp (j & pcj & Hj & Hs). destruct (decide (i = j)) as [->|Hne].
  - rewrite Hi in Hj. simplify_eq. exists j, pc'. split; [|by apply Hp].
    apply list_lookup_insert_eq. by apply lookup_lt_Some in Hi.
  - exists j, pcj. split; [|done]. by rewrite list_lookup_insert_ne.
Qed.

Lemma was_published_other ts i s0 pc0 pc1 s v :
  ts !! i = Some (reader s0 pc0) ->
  was_published ts s v -> was_published (<[i := reader s0 pc1]> ts) s v.
Proof.
  intros Hi (j & pcj & Hj & Hs). exists j, pcj. split; [|done].
  rewrite list_lookup_insert_ne; [done|]. intros ->. congruence.
Qed.

Lemma was_published_app ts t s v : was_published ts s v -> was_published (ts ++ [t]) s v.
Proof.
  intros (j & pcj & Hj & Hs). exists j, pcj. split; [|done]. by apply lookup_app_l_Some.
Qed.

(** The frame of one step of the writer [i], which goes from [pc] to [pc'] and from
    the ring [g] to [g']. *)
Record writer_step (g g' : Ring) (r : record) (pc pc' : EmitPc) : Prop := {
  ws_capacity : capacity g' = capacity g;
  ws_next : rg_next_sequence g <= rg_next_sequence g' <= u64_max;
  ws_keeps : forall s, assigned pc = Some s -> assigned pc' = Some s;
  ws_assigned : forall s, assigned pc' = Some s ->
    assigned pc = Some s \/ (s = rg_next_sequence g /\ s < rg_next_sequence g');
  ws_published : forall s, published pc = Some s -> published pc' = Some s;
  ws_claims : forall s, holding pc' = Some s ->
    holding pc = Some s \/ (capacity g <> 0%nat /\ sl_writer (slot_at g s) = false);
  ws_emitter : emitter_ok g' r pc';
  ws_touched : forall k, rg_slots g' !! k = rg_slots g !! k \/
    exists s sl, (holding pc = Some s \/ holding pc' = Some s) /\ k = slot_index g s /\
      rg_slots g' !! k = Some sl /\
      (sl_writer sl = true -> holding pc' = Some s) /\
      length (sl_words sl) = word_count /\
      (sl_committed_sequence sl <> invalid_sequence ->
       (sl_committed_sequence sl = sl_committed_sequence (slot_at g s) /\
        sl_words sl = sl_words (slot_at g s)) \/
       (sl_committed_sequence sl = s /\ published pc = None /\ published pc' = Some s /\
        assigned pc = Some s /\ sl_words sl = to_words (stamp s r)));
  ws_released : forall s, holding pc = Some s ->
    holding pc' = Some s \/ sl_writer (slot_at g' s) = false;
}.

Section WriterStep.
Context (base : Z) (y : System record) (i : nat) (r : record) (pc pc' : EmitPc) (g' : Ring).
Context (Hinv : ring_inv base y) (Hi : sys_threads y !! i = Some (emitter r pc)).
Context (Hstep : writer_step (sys_ring y) g' r pc pc').
Let g := sys_ring y.
Let ts' := <[i := emitter r pc']> (sys_threads y).

Lemma ws_index s : slot_index g' s = slot_index g s.
Proof. unfold slot_index. by rewrite (ws_capacity _ _ _ _ _ Hstep). Qed.

Lemma ws_lookup j t :
  ts' !! j = Some t -> (j = i /\ t = emitter r pc') \/ (j <> i /\ sys_threads y !! j = Some t).
Proof. intros [(-> & <- & _)|[? ?]]%list_lookup_insert_Some; [by left|right]. naive_solver. Qed.

Lemma ws_slot_same s :
  rg_slots g' !! slot_index g s = rg_slots g !! slot_index g s -> slot_at g' s = slot_at g s.
Proof. intros He. unfold slot_at. by rewrite ws_index, !list_lookup_total_alt, He. Qed.

(** A slot no step of [i] touches. *)
Lemma ws_slot_untouched s :
  capacity g <> 0%nat ->
  (forall s0, holding pc = Some s0 \/ holding pc' = Some s0 -> slot_index g s0 <> slot_index g s) ->
  slot_at g' s = slot_at g s.
Proof.
  intros Hc Hne. destruct (ws_touched _ _ _ _ _ Hstep (slot_index g s)) as [He|(s0 & sl & H0 & Hk & _)].
  - by apply ws_slot_same.
  - exfalso. by apply (Hne s0).
Qed.

Lemma ws_view s :
  capacity g <> 0%nat -> s <> invalid_sequence -> sl_committed_sequence (slot_at g' s) = s ->
  (sl_committed_sequence (slot_at g s) = s /\
   sl_words (slot_at g' s) = sl_words (slot_at g s)) \/
  (published pc = None /\ assigned pc = Some s).
Proof.
  intros Hc Hs Hcom.
  assert (Hc' : capacity g' <> 0%nat) by (by rewrite (ws_capacity _ _ _ _ _ Hstep)).
  pose proof (slot_at_lookup g' s Hc') as Hl'. rewrite ws_index in Hl'.
  destruct (ws_touched _ _ _ _ _ Hstep (slot_index g s)) as [He|(s0 & sl & _ & Hk & Hsl & _ & _ & Hc0)].
  - left. rewrite (ws_slot_same s He) in *. done.
  - assert (slot_at g' s = sl) as Heq by congruence. rewrite Heq in *.
    assert (slot_at g s0 = slot_at g s) as Hsame by (unfold slot_at; by rewrite Hk).
    fold g in Hc0. rewrite Hsame in Hc0. destruct Hc0 as [[H1 H2]|(H1 & H2 & _ & H3 & _)].
    + congruence.
    + left. split; congruence.
    + right. split; [done|]. congruence.
Qed.

Lemma ws_published_unassigned s v :
  was_published (sys_threads y) s v -> published pc = None -> assigned pc = Some s -> False.
Proof.
  intros (j & pcj & Hj & Hp) Hn Ha.
  assert (i = j) as <-
    by (eapply (inv_unique base y Hinv); [done|done|done|by apply published_assigned]).
  congruence.
Qed.

Lemma ws_reader j s rpc : sys_threads y !! j = Some (reader s rpc) -> reader_ok g' ts' s rpc.
Proof.
  intros Hj. pose proof (inv_reader _ _ Hinv _ _ _ Hj) as Hr. fold g in Hr.
  assert (Hmono : forall v, was_published (sys_threads y) s v -> was_published ts' s v)
    by (intros v; apply (was_published_update _ _ _ _ _ _ _ Hi), (ws_published _ _ _ _ _ Hstep)).
  destruct rpc as [|loaded|[v|]]; simpl in *; [done| | |done].
  - destruct Hr as (Hc & Hlen & Hr). rewrite (ws_capacity _ _ _ _ _ Hstep).
    split_and!; [done|done|]. intros Hs. destruct (Hr Hs) as (v & Hv & Hpre).
    exists v. split; [auto|]. intros Hcom.
    destruct (ws_view s Hc Hs Hcom) as [[H1 H2]|[H1 H2]]; [auto|].
    by destruct (ws_published_unassigned s v).
  - destruct Hr as (Ha & Hr). split; [done|]. intros Hs. destruct (Hr Hs) as (u & Hu & ->).
    exists u. auto.
Qed.

Lemma ws_slot k sl : rg_slots g' !! k = Some sl -> slot_ok g' ts' k sl.
Proof.
  intros Hk.
  assert (Hmono : forall s v, was_published (sys_threads y) s v -> was_published ts' s v)
    by (intros s v; apply (was_published_update _ _ _ _ _ _ _ Hi), (ws_published _ _ _ _ _ Hstep)).
  assert (Hin : forall u, rg_slots g !! k = Some u -> slot_ok g (sys_threads y) k u)
    by (intros u; apply (inv_slot _ _ Hinv)).
  assert (Hself : ts' !! i = Some (emitter r pc'))
    by (apply list_lookup_insert_eq; by apply lookup_lt_Some in Hi).
  destruct (ws_touched _ _ _ _ _ Hstep k) as [He|(s & sl' & Hh & -> & Hsl & Hw & Hlen & Hcom)].
  - fold g in He. rewrite Hk in He. symmetry in He. destruct (Hin sl He) as (H1 & H2 & H3).
    split_and!; [done| |].
    + intros Hc. destruct (H2 Hc) as (Hidx & v & Hv & Hwd). rewrite ws_index.
      split; [done|]. exists v. auto.
    + intros Hc. destruct (H3 Hc) as (j & rj & pcj & s & Hj & Hhold & Hidx).
      destruct (decide (j = i)) as [->|Hne].
      * assert (rj = r /\ pcj = pc) as [-> ->] by (split; congruence). exists i, r, pc', s. rewrite ws_index. split_and!; [done| |done].
        destruct (ws_released _ _ _ _ _ Hstep s Hhold) as [?|Hfree]; [done|]. exfalso.
        assert (Hcap : capacity g <> 0%nat)
          by (pose proof (inv_emitter _ _ Hinv _ _ _ Hi); by eapply holder_writes).
        pose proof (slot_at_lookup g' s) as Hl. rewrite (ws_capacity _ _ _ _ _ Hstep) in Hl.
        specialize (Hl Hcap). rewrite ws_index in Hl. congruence.
      * exists j, rj, pcj, s. rewrite ws_index. split_and!; [|done|done].
        unfold ts'. by rewrite list_lookup_insert_ne.
  - assert (sl' = sl) as -> by congruence. split_and!; [done| |].
    + intros Hc. destruct (Hcom Hc) as [[H1 H2]|(H1 & H2 & H3 & H4 & H5)].
      * assert (Hcap : capacity g <> 0%nat).
        { apply lookup_lt_Some in Hk. fold (capacity g') in Hk.
          rewrite (ws_capacity _ _ _ _ _ Hstep) in Hk. fold g in Hk. lia. }
        pose proof (slot_at_lookup g s Hcap) as Hold. destruct (Hin _ Hold) as (_ & Ho & _).
        fold g in H1, H2. rewrite H1 in Hc |- *. destruct (Ho Hc) as (Hidx & v & Hv & Hwd).
        rewrite ws_index. split; [done|]. exists v. split; [auto|]. congruence.
      * rewrite H1, ws_index. split; [done|]. exists r. split; [|done].
        exists i, pc'. done.
    + intros Hwt. exists i, r, pc', s. rewrite ws_index. auto.
Qed.

Lemma inv_writer_step : ring_inv base (mkSystem g' ts').
Proof.
  assert (Hnext := ws_next _ _ _ _ _ Hstep). fold g in Hnext.
  pose proof (inv_next _ _ Hinv) as Hb. fold g in Hb.
  assert (Hlt : forall j rj pcj s, sys_threads y !! j = Some (emitter rj pcj) ->
            assigned pcj = Some s -> base <= s < rg_next_sequence g)
    by apply (inv_assigned _ _ Hinv).
  assert (Hnew : forall s, assigned pc' = Some s -> assigned pc = Some s \/ s = rg_next_sequence g).
  { intros s Hs. destruct (ws_assigned _ _ _ _ _ Hstep s Hs) as [?|[? _]]; auto. }
  split; simpl.
  - lia.
  - intros j rj pcj s [[-> Heq]|[Hne Hj]]%ws_lookup Ha.
    + simplify_eq. destruct (ws_assigned _ _ _ _ _ Hstep s Ha) as [Ho|[-> ?]];
        [pose proof (Hlt _ _ _ _ Hi Ho)|]; unfold g in *; lia.
    + pose proof (Hlt _ _ _ _ Hj Ha). lia.
  - intros j j' rj rj' pcj pcj' s [[-> Heq]|[Hne Hj]]%ws_lookup [[-> Heq']|[Hne' Hj']]%ws_lookup Ha Ha';
      simplify_eq; [done| | |by eapply (inv_unique _ _ Hinv)].
    + destruct (Hnew s Ha) as [Ho| ->]; [by eapply (inv_unique _ _ Hinv)|].
      pose proof (Hlt _ _ _ _ Hj' Ha'). lia.
    + destruct (Hnew s Ha') as [Ho| ->]; [by eapply (inv_unique _ _ Hinv)|].
      pose proof (Hlt _ _ _ _ Hj Ha). lia.
  - assert (Hcl : forall j rj pcj s s', sys_threads y !! j = Some (emitter rj pcj) -> j <> i ->
              holding pcj = Some s -> holding pc' = Some s' -> slot_index g s = slot_index g s' -> False).
    { intros j rj pcj s s' Hj Hne Hs Hs' Hx.
      destruct (ws_claims _ _ _ _ _ Hstep s' Hs') as [Ho|[Hc Hf]].
      - apply Hne. by eapply (inv_exclusive _ _ Hinv).
      - destruct (holder_writes g rj pcj s (inv_emitter _ _ Hinv _ _ _ Hj) Hs) as [_ Hw].
        unfold slot_at in Hw, Hf. fold g in Hf. rewrite Hx in Hw. congruence. }
    intros j j' rj rj' pcj pcj' s s' [[-> Heq]|[Hne Hj]]%ws_lookup [[-> Heq']|[Hne' Hj']]%ws_lookup Hh Hh';
      rewrite !ws_index; intros Hx; simplify_eq; [done| | |by eapply (inv_exclusive _ _ Hinv)].
    + exfalso. by eapply (Hcl j').
    + exfalso. by eapply (Hcl j).
  - intros j rj pcj [[-> Heq]|[Hne Hj]]%ws_lookup; [simplify_eq; apply (ws_emitter _ _ _ _ _ Hstep)|].
    pose proof (inv_emitter _ _ Hinv _ _ _ Hj) as Hok. fold g in Hok.
    eapply emitter_ok_frame; [apply (ws_capacity _ _ _ _ _ Hstep)| |done].
    intros s Hs. destruct (holder_writes _ _ _ _ Hok Hs) as [Hc Hw]. apply ws_slot_untouched; [done|].
    intros s0 H0 Hx. destruct (decide (holding pc = Some s0)) as [Ho|Hno].
    { apply Hne. symmetry. by eapply (inv_exclusive _ _ Hinv). }
    destruct H0 as [?|H0]; [done|].
    destruct (ws_claims _ _ _ _ _ Hstep s0 H0) as [?|[_ Hf]]; [done|].
    unfold slot_at in Hw, Hf. fold g in Hf. rewrite <- Hx in Hw. congruence.
  - apply ws_slot.
  - intros j s rpc [[_ ?]|[Hne Hj]]%ws_lookup; [done|]. by eapply ws_reader.
Qed.
End WriterStep.

(** ** Every access of [emit] is such a step *)

(** An access that leaves the slots alone. *)
Lemma writer_step_local g g' r pc pc' :
  rg_slots g' = rg_slots g ->
  rg_next_sequence g <= rg_next_sequence g' <= u64_max ->
  (forall s, assigned pc = Some s -> assigned pc' = Some s) ->
  (forall s, assigned pc' = Some s ->
    assigned pc = Some s \/ (s = rg_next_sequence g /\ s < rg_next_sequence g')) ->
  (forall s, published pc = Some s -> published pc' = Some s) ->
  holding pc = None -> holding pc' = None -> writer_step g g' r pc pc'.
Proof.
  intros Hs Hn Hk Ha Hp Hh Hh'. split; auto.
  - unfold capacity. by rewrite Hs.
  - intros s. by rewrite Hh'.
  - by destruct pc'.
  - intros k. left. by rewrite Hs.
  - intros s. by rewrite Hh.
Qed.

(** An access to the slot of the number the call has reserved. *)
Lemma writer_step_slot g r pc pc' s sl :
  capacity g <> 0%nat -> rg_next_sequence g <= u64_max ->
  assigned pc = Some s -> assigned pc' = Some s ->
  holding pc = Some s \/ (holding pc = None /\ sl_writer (slot_at g s) = false) ->
  holding pc' = Some s /\ sl_writer sl = true \/
    holding pc = Some s /\ holding pc' = None /\ sl_writer sl = false ->
  (forall s, published pc = Some s -> published pc' = Some s) ->
  emitter_ok (set_slot g s sl) r pc' ->
  length (sl_words sl) = word_count ->
  (sl_committed_sequence sl <> invalid_sequence ->
    (sl_committed_sequence sl = sl_committed_sequence (slot_at g s) /\
     sl_words sl = sl_words (slot_at g s)) \/
    (sl_committed_sequence sl = s /\ published pc = None /\ published pc' = Some s /\
     sl_words sl = to_words (stamp s r))) ->
  writer_step g (set_slot g s sl) r pc pc'.
Proof.
  intros Hc Hn Ha Ha' Hh Hh' Hp Hok Hlen Hcom. split.
  - apply capacity_set_slot.
  - simpl. lia.
  - congruence.
  - intros s' Hs'. left. congruence.
  - done.
  - intros s' Hs'. destruct Hh as [?|[? ?]]; [left|right]; destruct Hh' as [[? ?]|(? & ? & ?)]; try congruence.
    assert (s' = s) as -> by congruence. done.
  - done.
  - intros k. destruct (decide (k = slot_index g s)) as [->|Hk]; [|left; by apply slots_set_other].
    right. exists s, sl. split_and!.
    + destruct Hh' as [[? ?]|(? & ? & ?)]; auto.
    + done.
    + apply list_lookup_insert_eq. by apply slot_index_lt.
    + intros. destruct Hh' as [[? ?]|(? & ? & ?)]; congruence.
    + done.
    + intros H. destruct (Hcom H) as [?|(? & ? & ? & ?)]; [by left|right]. done.
  - intros s' Hs'. assert (s' = s) as -> by (apply holding_assigned in Hs'; congruence).
    rewrite slot_at_set_same by done. destruct Hh' as [[? ?]|(? & ? & ?)]; auto.
Qed.

Context `{!RingRecordLaws record}.

Lemma take_insert_next {A} `{!Inhabited A} (l m : list A) i :
  (i < length l)%nat -> length m = length l -> take i l = take i m ->
  take (S i) (<[i := m !!! i]> l) = take (S i) m.
Proof.
  intros Hi Hlen Ht. rewrite (take_S_r m i (m !!! i)) by (apply list_lookup_lookup_total_lt; lia).
  rewrite (take_S_r _ i (m !!! i)) by (by apply list_lookup_insert_eq).
  by rewrite take_insert_ge, Ht by lia.
Qed.

Lemma reserve_step_writer g r spurious o g' pc' :
  reserve_step g spurious o = (g', pc') ->
  0 <= rg_next_sequence g <= u64_max ->
  (reservation = reserve_fetch_add -> rg_next_sequence g < u64_max) ->
  writer_step g g' r (e_reserve o) pc'.
Proof.
  unfold reserve_step. intros He Hn Hwrap. destruct reservation.
  - specialize (Hwrap eq_refl). simplify_eq. assert (u64 (rg_next_sequence g + 1) = rg_next_sequence g + 1).
    { unfold u64. apply Z.mod_small. unfold u64_max in *. lia. }
    apply writer_step_local; simpl; try done; [lia|]. intros s [= <-]. lia.
  - destruct (o =? u64_max) eqn:Ho; [simplify_eq|].
    { apply writer_step_local; simpl; try done; [lia|]. unfold invalid_sequence. by rewrite Ho. }
    apply Z.eqb_neq in Ho. destruct (negb spurious && (rg_next_sequence g =? o)) eqn:Hc; simplify_eq.
    + apply andb_true_iff in Hc as [_ <-%Z.eqb_eq].
      apply writer_step_local; simpl; try done; [lia|]. intros s [= <-]. lia.
    + apply writer_step_local; simpl; try done. lia.
  - destruct ((o =? invalid_sequence) || negb (rg_next_sequence g =? o)) eqn:Hc; simplify_eq.
    + apply writer_step_local; simpl; try done. lia.
    + apply orb_false_iff in Hc as [Ho%Z.eqb_neq <-%negb_false_iff%Z.eqb_eq].
      unfold invalid_sequence in Ho. apply writer_step_local; simpl; try done; [lia|].
      intros s [= <-]. lia.
Qed.

Lemma emit_step_writer g r spurious pc g' pc' :
  emit_step g r spurious pc = (g', pc') ->
  emitter_ok g r pc ->
  (forall s, assigned pc = Some s -> s < rg_next_sequence g) ->
  0 <= rg_next_sequence g <= u64_max ->
  (forall k sl, rg_slots g !! k = Some sl -> length (sl_words sl) = word_count) ->
  (reservation = reserve_fetch_add -> assigned pc = None -> rg_next_sequence g < u64_max) ->
  writer_step g g' r pc pc'.
Proof.
  intros He Hok Ha Hn Hl Hwrap. pose proof word_count_pos as Hpos.
  assert (Hlen : forall s, capacity g <> 0%nat -> length (sl_words (slot_at g s)) = word_count)
    by (intros s Hc; by eapply Hl, slot_at_lookup).
  assert (Hinv : forall s, assigned pc = Some s -> (s =? invalid_sequence) = false).
  { intros s Hs. apply Z.eqb_neq. unfold invalid_sequence. specialize (Ha s Hs). lia. }
  assert (Hmax : rg_next_sequence g <= u64_max) by lia.
  destruct pc as [|o|s|s|s p n|s p|s p|s p|s p|s|s p|s]; simpl in He, Hok.
  - simplify_eq. apply writer_step_local; simpl; auto; lia || done.
  - eapply reserve_step_writer; eauto.
  - destruct (negb (admissible (stamp s r)) || Nat.eqb (capacity g) 0) eqn:Hadm.
    { simplify_eq. apply writer_step_local; simpl; rewrite ?Hinv by done; auto; lia. }
    apply orb_false_iff in Hadm as [_ Hc%Nat.eqb_neq].
    destruct (sl_writer (slot_at g s)) eqn:Hw; simplify_eq.
    { apply writer_step_local; simpl; rewrite ?Hinv by done; auto; lia. }
    apply writer_step_slot; simpl; auto. by rewrite slot_at_set_same, capacity_set_slot.
  - destruct Hok as [Hc Hw]. simplify_eq. apply writer_step_slot; simpl; auto; [|done].
    rewrite slot_at_set_same, capacity_set_slot by done. simpl. done.
  - destruct Hok as (Hc & Hw & Hcom & Hlt & Ht). simplify_eq.
    assert (Hlen' := Hlen s Hc).
    pose proof (take_insert_next (sl_words (slot_at g s)) (to_words (stamp s r)) n
      ltac:(lia) ltac:(by rewrite Hlen', to_words_length) Ht) as Hnext.
    apply writer_step_slot; simpl; auto.
    + by destruct (Nat.ltb (S n) word_count).
    + left. by destruct (Nat.ltb (S n) word_count).
    + done.
    + destruct (Nat.ltb_spec (S n) word_count) as [Hm|Hm]; simpl;
        rewrite slot_at_set_same, capacity_set_slot by done; simpl; [done|].
      split_and!; [done..|]. rewrite take_ge, take_ge in Hnext; [done|..];
        rewrite ?length_insert, ?to_words_length; lia.
    + by rewrite length_insert.
    + intros Hne. congruence.
  - destruct Hok as (Hc & Hw & Hcom & Hwd). simplify_eq.
    apply writer_step_slot; simpl; auto; [done|].
    by rewrite slot_at_set_same, capacity_set_slot.
  - destruct Hok as (Hc & Hw & Hcom). simplify_eq. apply writer_step_slot; simpl; auto.
  - simplify_eq. destruct (p =? invalid_sequence); apply writer_step_local; simpl; auto; lia.
  - simplify_eq. apply writer_step_local; simpl; auto; lia.
  - simplify_eq. apply writer_step_local; simpl; auto; lia.
  - simplify_eq. apply writer_step_local; simpl; auto; lia.
  - simplify_eq. apply writer_step_local; simpl; auto; lia.
Qed.

(** ** Readers and new calls *)

Lemma reader_step_ok g ts s pc :
  (forall k sl, rg_slots g !! k = Some sl -> slot_ok g ts k sl) ->
  (forall s r r', was_published ts s r -> was_published ts s r' -> r = r') ->
  reader_ok g ts s pc -> reader_ok g ts s (read_step g s pc).
Proof.
  intros Hs Hu Hok. destruct pc as [|loaded|v]; simpl in *.
  - destruct (Nat.eqb_spec (capacity g) 0) as [?|Hc]; [done|].
    destruct (sl_committed_sequence (slot_at g s) =? s) eqn:Hcom; [|done]. simpl.
    apply Z.eqb_eq in Hcom. split_and!; [done|lia|]. intros Hne.
    destruct (Hs _ _ (slot_at_lookup g s Hc)) as (_ & Hp & _). rewrite Hcom in Hp.
    destruct (Hp Hne) as (_ & r & Hr & _). exists r. done.
  - destruct Hok as (Hc & Hl & Hr). destruct (Nat.ltb_spec (length loaded) word_count) as [Hlt|Hge]; simpl.
    + split_and!; [done|rewrite length_app; simpl; lia|]. intros Hne.
      destruct (Hr Hne) as (r & Hpub & Hpre). exists r. split; [done|]. intros Hcom.
      destruct (Hs _ _ (slot_at_lookup g s Hc)) as (Hlen & Hp & _). rewrite Hcom in Hp.
      destruct (Hp Hne) as (_ & r' & Hpub' & Hw). rewrite (Hu _ _ _ Hpub' Hpub) in Hw.
      rewrite length_app, Nat.add_1_r, Hw, (Hpre Hcom) at 1. symmetry. apply take_S_r.
      apply list_lookup_lookup_total_lt. by rewrite to_words_length.
    + destruct (negb (sl_committed_sequence (slot_at g s) =? s) ||
        negb (acceptable s (of_words s loaded))) eqn:Ht; [done|].
      apply orb_false_iff in Ht as [Hcom%negb_false_iff%Z.eqb_eq Hacc%negb_false_iff].
      split; [done|]. intros Hne. destruct (Hr Hne) as (r & Hpub & Hpre). exists r. split; [done|].
      rewrite (Hpre Hcom), take_ge; [done|]. rewrite to_words_length. lia.
  - done.
Qed.

Lemma was_published_unique base y s r r' :
  ring_inv base y -> was_published (sys_threads y) s r -> was_published (sys_threads y) s r' -> r = r'.
Proof.
  intros Hinv (i & pc & Hi & Hp) (j & pc' & Hj & Hp').
  assert (i = j) as ->
    by (eapply (inv_unique _ _ Hinv); [done|done|by apply published_assigned..]).
  congruence.
Qed.

Lemma inv_reader_step base y i s pc :
  ring_inv base y -> sys_threads y !! i = Some (reader s pc) ->
  ring_inv base (mkSystem (sys_ring y)
    (<[i := reader s (read_step (sys_ring y) s pc)]> (sys_threads y))).
Proof.
  intros Hinv Hi. set (pc' := read_step (sys_ring y) s pc).
  assert (Hmono : forall s0 v, was_published (sys_threads y) s0 v ->
            was_published (<[i := reader s pc']> (sys_threads y)) s0 v)
    by (intros; by eapply was_published_other).
  assert (Hem : forall j r0 pc0, <[i := reader s pc']> (sys_threads y) !! j = Some (emitter r0 pc0) ->
            sys_threads y !! j = Some (emitter r0 pc0)).
  { intros j r0 pc0 [(_ & ? & _)|[_ ?]]%list_lookup_insert_Some; done. }
  assert (Hrd : forall s0 p0, reader_ok (sys_ring y) (sys_threads y) s0 p0 ->
            reader_ok (sys_ring y) (<[i := reader s pc']> (sys_threads y)) s0 p0).
  { intros s0 [|loaded|[v|]]; simpl; [done| | |done].
    - intros (? & ? & Hr). split_and!; [done|done|]. intros Hs. destruct (Hr Hs) as (v & ? & ?).
      exists v. auto.
    - intros (? & Hr). split; [done|]. intros Hs. destruct (Hr Hs) as (u & ? & ?). exists u. auto. }
  assert (Huq := fun s r r' => was_published_unique base y s r r' Hinv).
  destruct Hinv as [Hn Ha Hu Hx He Hs Hr]. split; simpl; eauto.
  - intros k sl Hk. destruct (Hs k sl Hk) as (H1 & H2 & H3). split_and!; [done| |].
    + intros Hc. destruct (H2 Hc) as (? & v & ? & ?). split; [done|]. exists v. auto.
    + intros Hw. destruct (H3 Hw) as (j & r & pcj & sj & Hj & ? & ?). exists j, r, pcj, sj.
      split_and!; [|done|done]. rewrite list_lookup_insert_ne; [done|]. intros ->. congruence.
  - intros j s0 p0 [(-> & [= <- <-] & _)|[_ Hj]]%list_lookup_insert_Some; [|by eapply Hrd, Hr].
    apply Hrd. eapply reader_step_ok; [done|done|by eapply Hr].
Qed.

Lemma inv_new_thread base y t :
  match t with emitter _ pc => assigned pc = None /\ holding pc = None | reader _ pc => pc = r_first end ->
  ring_inv base y -> ring_inv base (mkSystem (sys_ring y) (sys_threads y ++ [t])).
Proof.
  intros Ht [Hn Ha Hu Hx He Hs Hr].
  assert (Hem : forall j u, (sys_threads y ++ [t]) !! j = Some u ->
            sys_threads y !! j = Some u \/ u = t).
  { intros j u [?|[_ ->%list_elem_of_lookup_2%list_elem_of_singleton]]%lookup_app_Some; auto. }
  assert (Hold : forall j u, sys_threads y !! j = Some u -> (sys_threads y ++ [t]) !! j = Some u)
    by (intros; by apply lookup_app_l_Some).
  assert (Hfresh : forall pc r0, t = emitter r0 pc -> assigned pc = None /\ holding pc = None)
    by (intros pc r0 ->; done).
  split; simpl; [done|..].
  - intros i r pc s [Hi|Hi]%Hem Has; [by eauto|]. destruct (Hfresh pc r); congruence.
  - intros i j r r' pc pc' s [Hi|Hi]%Hem [Hj|Hj]%Hem Has Has'; [by eauto| | |];
      (destruct (Hfresh pc r); congruence) || (destruct (Hfresh pc' r'); congruence).
  - intros i j r r' pc pc' s s' [Hi|Hi]%Hem [Hj|Hj]%Hem Has Has'; [by eauto| | |];
      (destruct (Hfresh pc r); congruence) || (destruct (Hfresh pc' r'); congruence).
  - intros i r pc [Hi|Hi]%Hem; [by eauto|]. destruct (Hfresh pc r (eq_sym Hi)) as [_ Hh].
    by destruct pc.
  - intros k sl Hk. destruct (Hs k sl Hk) as (H1 & H2 & H3). split_and!; [done| |].
    + intros Hc. destruct (H2 Hc) as (? & v & ? & ?). split; [done|]. exists v.
      split; [by apply was_published_app|done].
    + intros Hw. destruct (H3 Hw) as (j & r & pcj & sj & Hj & ? & ?). exists j, r, pcj, sj. auto.
  - intros i s pc [Hi|<-]%Hem; [|by rewrite Ht]. specialize (Hr _ _ _ Hi).
    destruct pc as [|loaded|[v|]]; simpl in *; [done| | |done].
    + destruct Hr as (? & ? & Hr). split_and!; [done|done|]. intros Hne. destruct (Hr Hne) as (v & ? & ?).
      exists v. split; [by apply was_published_app|done].
    + destruct Hr as (? & Hr). split; [done|]. intros Hne. destruct (Hr Hne) as (u & ? & ?).
      exists u. split; [by apply was_published_app|done].
Qed.

(** ** Initial rings and runs *)

(** A ring no call has touched since it was created or restored. *)
Record ring_fresh (base : Z) (g : Ring) : Prop := {
  fresh_next : rg_next_sequence g = base;
  fresh_base : 0 <= base <= u64_max;
  fresh_slots : Forall (fun sl => sl_writer sl = false /\ sl_committed_sequence sl = invalid_sequence /\
                          length (sl_words sl) = word_count) (rg_slots g);
  fresh_counters : rg_emitted g = 0 /\ rg_overwritten g = 0 /\ rg_dropped g = 0;
}.

Lemma ring_create_fresh c g : ring_create c = Some g -> ring_fresh 0 g.
Proof.
  unfold ring_create. destruct (_ || _); [done|]. intros [= <-]. split; simpl; try done.
  apply Forall_replicate. simpl. split_and!; [done..|apply initial_words_length].
Qed.

Lemma restore_sequence_fresh n g :
  is_u64 n -> Forall (fun sl => length (sl_words sl) = word_count) (rg_slots g) ->
  ring_fresh n (restore_sequence n g).
Proof.
  intros Hn Hl. split; simpl; try done. apply Forall_fmap. eapply Forall_impl; [|exact Hl]. by intros sl Hsl.
Qed.

Lemma fresh_inv base g : ring_fresh base g -> ring_inv base (mkSystem g []).
Proof.
  intros [Hn Hb Hs _]. split; simpl; try done; [lia|].
  intros k sl Hk. rewrite Forall_lookup in Hs. destruct (Hs k sl Hk) as (H1 & H2 & H3).
  split_and!; [done| |]; congruence.
Qed.

(** The calls of [emit] in a thread list, and those without a number. *)
Definition is_emit (t : Thread record) : nat := match t with emitter _ _ => 1 | _ => 0 end.

Definition is_pending (t : Thread record) : nat :=
  match t with emitter _ pc => match assigned pc with None => 1 | Some _ => 0 end | _ => 0 end.

Definition emit_calls (ts : list (Thread record)) : nat := sum_list_with is_emit ts.

(** Numbers handed out never exceed the calls that left the reservation. *)
Definition reserve_inv (base : Z) (y : System record) : Prop :=
  rg_next_sequence (sys_ring y) + Z.of_nat (sum_list_with is_pending (sys_threads y)) <=
    base + Z.of_nat (emit_calls (sys_threads y)).

(** Counters of 64 bits number the calls without wrapping. *)
Definition no_wrap (base : Z) (y : System record) : Prop :=
  reservation = reserve_fetch_add -> base + Z.of_nat (emit_calls (sys_threads y)) <= u64_max.

Lemma emit_calls_step y e : (emit_calls (sys_threads y) <= emit_calls (sys_threads (sys_step y e)))%nat.
Proof.
  unfold emit_calls. destruct e as [r|s|i spurious]; simpl; rewrite ?sum_list_with_app; [simpl; lia..|].
  destruct (sys_threads y !! i) as [t|] eqn:Hi; [|done].
  destruct (thread_step (sys_ring y) spurious t) as [g' t'] eqn:Ht. simpl.
  pose proof (sum_list_with_insert is_emit _ _ _ t' Hi).
  assert (is_emit t = is_emit t'); [|lia].
  destruct t as [r pc|s pc]; simpl in Ht; [|by simplify_eq].
  destruct (emit_step (sys_ring y) r spurious pc). by simplify_eq.
Qed.

Lemma emit_calls_run y events : (emit_calls (sys_threads y) <= emit_calls (sys_threads (run y events)))%nat.
Proof.
  revert y. induction events as [|e events IH]; intros y; simpl; [done|].
  etrans; [apply (emit_calls_step y e)|]. apply IH.
Qed.

Definition is_pending_pc (pc : EmitPc) : nat := match assigned pc with None => 1 | Some _ => 0 end.

Lemma emit_step_pending g r spurious pc g' pc' :
  emit_step g r spurious pc = (g', pc') -> writer_step g g' r pc pc' -> 0 <= rg_next_sequence g ->
  rg_next_sequence g' + Z.of_nat (is_pending_pc pc') <= rg_next_sequence g + Z.of_nat (is_pending_pc pc).
Proof.
  unfold is_pending_pc. intros He Hws H0.
  assert (u64 (rg_next_sequence g + 1) <= rg_next_sequence g + 1) by (apply Z.mod_le; lia).
  destruct (assigned pc) as [s|] eqn:Ha.
  - rewrite (ws_keeps _ _ _ _ _ Hws s Ha).
    assert (rg_next_sequence g' = rg_next_sequence g); [|lia].
    destruct pc; simpl in He; repeat case_match; simplify_eq; done.
  - destruct (assigned pc') as [s'|] eqn:Ha'; destruct pc as [|o| | | | | | | |d| |d]; simpl in He, Ha;
      unfold reserve_step in He; repeat case_match; simplify_eq; simpl in *; try lia.
Qed.

Lemma ring_inv_step base y e :
  0 <= base -> no_wrap base (sys_step y e) -> ring_inv base y -> reserve_inv base y ->
  ring_inv base (sys_step y e) /\ reserve_inv base (sys_step y e).
Proof.
  intros Hb0 Hwrap Hinv Hres.
  assert (Hw : no_wrap base y).
  { intros Hf. specialize (Hwrap Hf). pose proof (emit_calls_step y e). lia. }
  assert (Hstart : assigned emit_start = None /\ holding emit_start = None)
    by (unfold emit_start; by destruct reservation).
  destruct e as [r|s|i spurious]; simpl in *.
  - split; [by apply inv_new_thread|]. unfold reserve_inv, emit_calls in *. simpl.
    rewrite !sum_list_with_app. simpl. destruct Hstart as [-> _]. lia.
  - split; [by apply inv_new_thread|]. unfold reserve_inv, emit_calls in *. simpl.
    rewrite !sum_list_with_app. simpl. lia.
  - clear Hwrap. destruct (sys_threads y !! i) as [[r pc|s pc]|] eqn:Hi; [| |done].
    + simpl. destruct (emit_step (sys_ring y) r spurious pc) as [g' pc'] eqn:He.
      pose proof (sum_list_with_insert is_pending _ _ _ (emitter r pc') Hi) as Hp.
      pose proof (sum_list_with_insert is_emit _ _ _ (emitter r pc') Hi) as Hem. simpl in Hp, Hem.
      pose proof (inv_next _ _ Hinv) as Hn.
      assert (Hws : writer_step (sys_ring y) g' r pc pc').
      { eapply emit_step_writer; [done|by eapply inv_emitter| |lia| |].
        - intros s Hs. by eapply (inv_assigned _ _ Hinv).
        - intros k sl Hk. by apply (inv_slot _ _ Hinv) in Hk as [? _].
        - intros Hf Hnone. specialize (Hw Hf). unfold reserve_inv in Hres.
          pose proof (sum_list_with_lookup is_pending _ _ _ Hi) as Hle. simpl in Hle.
          rewrite Hnone in Hle. lia. }
      split; [by eapply inv_writer_step|]. unfold reserve_inv, emit_calls in *. simpl.
      pose proof (emit_step_pending _ _ _ _ _ _ He Hws ltac:(lia)). unfold is_pending_pc in *. lia.
    + split; [by apply inv_reader_step|]. unfold reserve_inv, emit_calls in *. simpl.
      pose proof (sum_list_with_insert is_pending _ _ _ (reader s (read_step (sys_ring y) s pc)) Hi).
      pose proof (sum_list_with_insert is_emit _ _ _ (reader s (read_step (sys_ring y) s pc)) Hi).
      simpl in *. lia.
Qed.

Lemma ring_inv_run base g events :
  ring_fresh base g -> no_wrap base (run (mkSystem g []) events) ->
  ring_inv base (run (mkSystem g []) events).
Proof.
  intros Hf. pose proof (fresh_base _ _ Hf) as Hb.
  enough (no_wrap base (run (mkSystem g []) events) ->
    ring_inv base (run (mkSystem g []) events) /\ reserve_inv base (run (mkSystem g []) events))
    by naive_solver.
  induction events as [|e events IH] using rev_ind.
  - intros _. split; [by apply fresh_inv|]. unfold reserve_inv. simpl. destruct Hf. lia.
  - unfold run in *. rewrite foldl_snoc. intros Hw. apply ring_inv_step; [lia|done|..]; apply IH;
      intros Hr; specialize (Hw Hr); pose proof (emit_calls_step (foldl sys_step (mkSystem g []) events) e); lia.
Qed.

End Invariant.
