(* ===== verification/SeqRingProgress.v ===== *)
(** * Sequence ring: the statistics

    The counters [emitted_], [overwritten_] and [dropped_] against the calls that
    are past the accesses they count, and the committed slots against both. *)

From stdpp Require Import base list numbers.
From Stdlib Require Import ZArith Lia Bool.
From S2P Require Import Prelude SeqRing SeqRingInvariant.

Open Scope Z_scope.

(** One when the number of the slot or of the overwritten record is valid. *)
Definition is_valid (s : Z) : nat := if s =? invalid_sequence then 0 else 1.

Definition previous_of (pc : EmitPc) : Z :=
  match pc with
  | e_store _ p _ | e_commit _ p | e_release _ p | e_count_emitted _ p
  | e_count_overwritten _ p | e_kept _ p => p
  | _ => invalid_sequence
  end.

Definition has_published (pc : EmitPc) : nat := match published pc with Some _ => 1 | None => 0 end.

Definition has_counted (pc : EmitPc) : nat :=
  match pc with e_count_overwritten _ _ | e_kept _ _ => 1 | _ => 0 end.

Definition has_counted_overwrite (pc : EmitPc) : nat :=
  match pc with e_kept _ p => is_valid p | _ => 0 end.

Definition has_dropped (pc : EmitPc) : nat := match pc with e_dropped _ => 1 | _ => 0 end.

Definition of_emitter {record} (f : EmitPc -> nat) (t : Thread record) : nat :=
  match t with emitter _ pc => f pc | reader _ _ => 0 end.

Definition committed_slots (g : Ring) : nat :=
  sum_list_with (fun sl => is_valid (sl_committed_sequence sl)) (rg_slots g).

(** The calls of [emit] have returned. *)
Definition returned {record} (t : Thread record) : Prop :=
  match t with
  | emitter _ (e_kept _ _) | emitter _ (e_dropped _) | reader _ (r_done _) => True
  | _ => False
  end.

Section Accounting.
Context {record : Type} `{!RingRecord record, !RingRecordLaws record}.
Implicit Types (g : Ring) (y : System record).

Record accounts (y : System record) : Prop := {
  ac_emitted : rg_emitted (sys_ring y) = Z.of_nat (sum_list_with (of_emitter has_counted) (sys_threads y));
  ac_overwritten : rg_overwritten (sys_ring y) =
    Z.of_nat (sum_list_with (of_emitter has_counted_overwrite) (sys_threads y));
  ac_dropped : rg_dropped (sys_ring y) = Z.of_nat (sum_list_with (of_emitter has_dropped) (sys_threads y));
  ac_slots : (committed_slots (sys_ring y) +
    sum_list_with (of_emitter (fun pc => is_valid (previous_of pc))) (sys_threads y) =
    sum_list_with (of_emitter has_published) (sys_threads y))%nat;
  ac_overwriting : forall i r s p,
    sys_threads y !! i = Some (emitter r (e_count_overwritten s p)) -> is_valid p = 1%nat;
}.

(** How one access of a writer changes the statistics. *)
Record accounted (g g' : Ring) (pc pc' : EmitPc) : Prop := {
  ad_emitted : rg_emitted g' = u64 (rg_emitted g + Z.of_nat (has_counted pc') - Z.of_nat (has_counted pc));
  ad_overwritten : rg_overwritten g' = u64 (rg_overwritten g + Z.of_nat (has_counted_overwrite pc') -
    Z.of_nat (has_counted_overwrite pc));
  ad_dropped : rg_dropped g' = u64 (rg_dropped g + Z.of_nat (has_dropped pc') - Z.of_nat (has_dropped pc));
  ad_slots : (committed_slots g' + is_valid (previous_of pc') + has_published pc =
    committed_slots g + is_valid (previous_of pc) + has_published pc')%nat;
}.

Lemma committed_slots_set g s sl :
  capacity g <> 0%nat ->
  (committed_slots (set_slot g s sl) + is_valid (sl_committed_sequence (slot_at g s)) =
   committed_slots g + is_valid (sl_committed_sequence sl))%nat.
Proof.
  intros Hc. apply (sum_list_with_insert (fun sl => is_valid (sl_committed_sequence sl))).
  by apply slot_at_lookup.
Qed.

Lemma emit_step_accounted g r spurious pc g' pc' :
  emit_step g r spurious pc = (g', pc') -> emitter_ok g r pc ->
  (forall s, assigned pc = Some s -> s < u64_max) ->
  (forall s p, pc = e_count_overwritten s p -> is_valid p = 1%nat) ->
  is_u64 (rg_emitted g) -> is_u64 (rg_overwritten g) -> is_u64 (rg_dropped g) ->
  accounted g g' pc pc'.
Proof.
  intros He Hok Ha Hov He0 Ho0 Hd0.
  assert (Hval : forall s, assigned pc = Some s -> is_valid s = 1%nat).
  { intros s Hs. unfold is_valid, invalid_sequence. specialize (Ha s Hs). by rewrite (proj2 (Z.eqb_neq _ _)) by lia. }
  assert (Hz : forall z n, is_u64 z -> z = u64 (z + Z.of_nat n - Z.of_nat n)).
  { intros z n Hzz. rewrite Z.add_simpl_r. symmetry. by apply u64_small. }
  assert (Hone : forall z, u64 (z + 1) = u64 (z + Z.of_nat 1 - Z.of_nat 0))
    by (intros z; by rewrite Z.sub_0_r).
  assert (Hset : forall s sl, capacity g <> 0%nat -> committed_slots (set_slot g s sl) =
            (committed_slots g + is_valid (sl_committed_sequence sl) -
             is_valid (sl_committed_sequence (slot_at g s)))%nat).
  { intros s sl Hc. pose proof (committed_slots_set g s sl Hc). lia. }
  assert (Hge : forall s, capacity g <> 0%nat ->
            (is_valid (sl_committed_sequence (slot_at g s)) <= committed_slots g)%nat).
  { intros s Hc. apply (sum_list_with_lookup (fun sl => is_valid (sl_committed_sequence sl)) _
      (slot_index g s)). by apply slot_at_lookup. }
  destruct pc as [|o|s|s|s p n|s p|s p|s p|s p|s|s p|s]; simpl in He, Hok.
  - simplify_eq. by split; simpl; auto.
  - unfold reserve_step in He. repeat case_match; simplify_eq; by split; simpl; auto.
  - destruct (negb (admissible (stamp s r)) || Nat.eqb (capacity g) 0) eqn:Hc.
    { simplify_eq. by split; simpl; auto. }
    apply orb_false_iff in Hc as [_ Hc%Nat.eqb_neq]. destruct (sl_writer (slot_at g s)).
    { simplify_eq. by split; simpl; auto. }
    simplify_eq. split; simpl; auto. rewrite Hset by done. specialize (Hge s Hc).
    unfold has_published. simpl. lia.
  - destruct Hok as [Hc _]. simplify_eq. split; simpl; auto. rewrite Hset by done.
    specialize (Hge s Hc). unfold has_published. simpl. change (is_valid invalid_sequence) with 0%nat. lia.
  - destruct Hok as [Hc _]. simplify_eq. specialize (Hge s Hc).
    destruct (Nat.ltb (S n) word_count); split; simpl; auto; rewrite Hset by done;
      unfold has_published; simpl; lia.
  - destruct Hok as (Hc & _ & Hcom & _). simplify_eq. split; simpl; auto. rewrite Hset by done.
    rewrite Hcom. unfold has_published. simpl. rewrite (Hval s) by done.
    change (is_valid invalid_sequence) with 0%nat. lia.
  - destruct Hok as [Hc _]. simplify_eq. specialize (Hge s Hc). split; simpl; auto. rewrite Hset by done.
    unfold has_published; simpl; lia.
  - simplify_eq. unfold is_valid. destruct (p =? invalid_sequence) eqn:Hp; split; simpl; auto;
      unfold is_valid, has_published; rewrite ?Hp; simpl; auto.
  - simplify_eq. split; simpl; auto. by rewrite (Hov s p).
  - simplify_eq. by split; simpl; auto.
  - simplify_eq. by split; simpl; auto.
  - simplify_eq. by split; simpl; auto.
Qed.

Lemma emit_step_overwriting g r spurious pc g' pc' s p :
  emit_step g r spurious pc = (g', pc') -> pc' = e_count_overwritten s p -> is_valid p = 1%nat.
Proof.
  unfold is_valid. intros He ->. destruct pc; simpl in He; unfold reserve_step in He;
    repeat case_match; simplify_eq; congruence.
Qed.

(** Each statistic counts at most the calls. *)
Lemma counts_le (f : EmitPc -> nat) ts :
  (forall pc, (f pc <= 1)%nat) -> (sum_list_with (of_emitter f) ts <= emit_calls (record := record) ts)%nat.
Proof. intros Hf. apply sum_list_with_le. intros [r pc|s pc] _; simpl; auto. Qed.

Lemma accounts_turn base y i r pc spurious :
  ring_inv base y -> sys_threads y !! i = Some (emitter r pc) ->
  (forall s, assigned pc = Some s -> s < u64_max) ->
  Z.of_nat (emit_calls (sys_threads (sys_step y (turn i spurious)))) <= u64_max ->
  accounts y -> accounts (sys_step y (turn i spurious)).
Proof.
  intros Hinv Hi Ha Hcalls [H1 H2 H3 H4 H5]. simpl in *. rewrite Hi in *. simpl in *.
  destruct (emit_step (sys_ring y) r spurious pc) as [g' pc'] eqn:He. simpl in *.
  set (ts' := <[i := emitter r pc']> (sys_threads y)) in *.
  assert (Hsum : forall f, (sum_list_with (of_emitter f) ts' + f pc =
            sum_list_with (of_emitter f) (sys_threads y) + f pc')%nat)
    by (intros f; apply (sum_list_with_insert (of_emitter f) _ _ _ (emitter r pc') Hi)).
  assert (Hle : forall f (ts : list (Thread record)), (forall pc, (f pc <= 1)%nat) -> emit_calls ts = emit_calls ts' ->
            is_u64 (Z.of_nat (sum_list_with (of_emitter f) ts))).
  { intros f ts Hf Hts. pose proof (counts_le f ts Hf). split; lia. }
  assert (Hts : emit_calls (sys_threads y) = emit_calls ts').
  { pose proof (sum_list_with_insert is_emit _ _ _ (emitter r pc') Hi). unfold emit_calls. simpl in *.
    fold ts' in H. lia. }
  assert (B1 : forall pc, (has_counted pc <= 1)%nat) by (intros []; simpl; lia).
  assert (B2 : forall pc, (has_counted_overwrite pc <= 1)%nat)
    by (intros []; simpl; unfold is_valid; try case_match; lia).
  assert (B3 : forall pc, (has_dropped pc <= 1)%nat) by (intros []; simpl; lia).
  destruct (emit_step_accounted _ _ _ _ _ _ He (inv_emitter _ _ Hinv _ _ _ Hi) Ha) as [A1 A2 A3 A4].
  { intros s p ->. by eapply H5. }
  1-3: rewrite ?H1, ?H2, ?H3; by apply Hle.
  pose proof (Hsum has_counted). pose proof (Hsum has_counted_overwrite). pose proof (Hsum has_dropped).
  pose proof (Hsum has_published). pose proof (Hsum (fun pc => is_valid (previous_of pc))) as Hprev.
  cbv beta in Hprev. split; simpl.
  - rewrite A1, H1, <- (u64_small (Z.of_nat (sum_list_with _ ts'))) by (by apply Hle). f_equal. lia.
  - rewrite A2, H2, <- (u64_small (Z.of_nat (sum_list_with _ ts'))) by (by apply Hle). f_equal. lia.
  - rewrite A3, H3, <- (u64_small (Z.of_nat (sum_list_with _ ts'))) by (by apply Hle). f_equal. lia.
  - lia.
  - intros j r0 s p [(-> & Heq & _)|[_ Hj]]%list_lookup_insert_Some; [|by eapply H5].
    simplify_eq. by eapply emit_step_overwriting.
Qed.

Lemma accounts_step base y e :
  0 <= base -> ring_inv base y -> no_wrap base (sys_step y e) ->
  Z.of_nat (emit_calls (sys_threads (sys_step y e))) <= u64_max ->
  accounts y -> accounts (sys_step y e).
Proof.
  intros Hb Hinv Hwrap Hcalls Hac.
  assert (Hstart : forall f : EmitPc -> nat, f e_load = 0%nat -> f (e_reserve 0) = 0%nat -> f emit_start = 0%nat)
    by (intros f; unfold emit_start; by destruct reservation).
  assert (Hstart' := Hstart (fun pc => is_valid (previous_of pc)) eq_refl eq_refl). cbv beta in Hstart'.
  destruct e as [r|s|i spurious]; simpl in *.
  - destruct Hac as [H1 H2 H3 H4 H5]. split; simpl; rewrite ?sum_list_with_app; simpl;
      rewrite ?Hstart', ?Hstart by done; try lia.
    intros j r0 s p [Hj|[_ Hj]]%lookup_app_Some; [by eapply H5|].
    destruct (j - length (sys_threads y))%nat as [|[|]]; simpl in Hj; [|done..].
    injection Hj as _ Hj. unfold emit_start in Hj. by destruct reservation.
  - destruct Hac as [H1 H2 H3 H4 H5]. split; simpl; rewrite ?sum_list_with_app; simpl; try lia.
    intros j r0 s0 p [Hj|[_ Hj]]%lookup_app_Some; [by eapply H5|].
    by destruct (j - length (sys_threads y))%nat as [|[|]]; simplify_eq/=.
  - destruct (sys_threads y !! i) as [[r pc|s pc]|] eqn:Hi; [| |done].
    + assert (Ht := accounts_turn base y i r pc spurious Hinv Hi). simpl in Ht. rewrite Hi in Ht.
      apply Ht; try done. intros s Hs.
      pose proof (inv_next _ _ Hinv). pose proof (inv_assigned _ _ Hinv _ _ _ _ Hi Hs). lia.
    + destruct Hac as [H1 H2 H3 H4 H5].
      assert (Hr : forall f, sum_list_with (of_emitter f)
                (<[i := reader s (read_step (sys_ring y) s pc)]> (sys_threads y)) =
                sum_list_with (of_emitter f) (sys_threads y)).
      { intros f. pose proof (sum_list_with_insert (of_emitter f) _ _ _
          (reader s (read_step (sys_ring y) s pc)) Hi). simpl in *. lia. }
      split; simpl; rewrite ?Hr; try done.
      intros j r0 s0 p [(_ & ? & _)|[_ Hj]]%list_lookup_insert_Some; [done|]. by eapply H5.
Qed.

Lemma accounts_run base g events :
  ring_fresh base g -> no_wrap base (run (mkSystem g []) events) ->
  Z.of_nat (emit_calls (sys_threads (run (mkSystem g []) events))) <= u64_max ->
  accounts (run (mkSystem g []) events).
Proof.
  intros Hf. pose proof (fresh_base _ _ Hf) as Hb.
  induction events as [|e events IH] using rev_ind.
  - intros _ _. destruct Hf as [_ _ Hs (H1 & H2 & H3)]. split; simpl; try done.
    assert (committed_slots g = 0%nat) as ->; [|done].
    unfold committed_slots. induction Hs as [|sl l (_ & Hc & _) _ IH]; simpl; [done|]. by rewrite Hc, IH.
  - unfold run in *. rewrite foldl_snoc. intros Hw Hc.
    pose proof (emit_calls_step (foldl sys_step (mkSystem g []) events) e).
    assert (no_wrap base (foldl sys_step (mkSystem g []) events))
      by (intros Hr; specialize (Hw Hr); lia).
    assert (Z.of_nat (emit_calls (sys_threads (foldl sys_step (mkSystem g []) events))) <= u64_max) by lia.
    eapply accounts_step; [|by apply ring_inv_run|done|done|by apply IH]. lia.
Qed.
End Accounting.

(** * Sequence ring: every call returns

    [emit] and [read_sequence] never wait for another thread.  A call that gets
    enough turns returns, whatever the other calls do in between: a fixed number of
    turns where the reservation is one access, and one more per competing call and
    per spurious failure where it is a compare-exchange loop. *)

Open Scope nat_scope.

(** ** Counting events *)

Section Counting.
Context {record : Type}.

Definition is_turn (i : nat) (e : Event record) : nat :=
  match e with turn j _ => if Nat.eqb i j then 1 else 0 | _ => 0 end.

Definition is_spurious_turn (i : nat) (e : Event record) : nat :=
  match e with turn j spurious => if Nat.eqb i j && spurious then 1 else 0 | _ => 0 end.

Definition is_call (e : Event record) : nat := match e with call_emit _ => 1 | _ => 0 end.

Definition turns (i : nat) (events : list (Event record)) : nat := sum_list_with (is_turn i) events.

Definition spurious_turns (i : nat) (events : list (Event record)) : nat :=
  sum_list_with (is_spurious_turn i) events.

Definition new_calls (events : list (Event record)) : nat := sum_list_with is_call events.
End Counting.

Section Progress.
Context {record : Type} `{!RingRecord record, !RingRecordLaws record}.
Implicit Types (y : System record) (t : Thread record).

(** ** The turns a call still needs *)

Definition emit_rank (pc : EmitPc) : nat :=
  match pc with
  | e_load => 8 + word_count
  | e_reserve _ => 7 + word_count
  | e_claim _ => 6 + word_count
  | e_invalidate _ => 5 + word_count
  | e_store _ _ i => 5 + (word_count - S i)
  | e_commit _ _ => 4
  | e_release _ _ => 3
  | e_count_emitted _ _ => 2
  | e_count_overwritten _ _ | e_drop _ => 1
  | e_kept _ _ | e_dropped _ => 0
  end.

Definition read_rank (pc : ReadPc record) : nat :=
  match pc with
  | r_first => 2 + word_count
  | r_words loaded => 1 + (word_count - length loaded)
  | r_done _ => 0
  end.

Definition rank t : nat := match t with emitter _ pc => emit_rank pc | reader _ pc => read_rank pc end.

Definition is_reserving (t : Thread record) : nat :=
  match t with emitter _ e_load | emitter _ (e_reserve _) => 1 | _ => 0 end.

(** The observed value of a compare-exchange loop is out of date. *)
Definition is_outdated (g : Ring) t : nat :=
  match t with
  | emitter _ (e_reserve o) => if (rg_next_sequence g =? o)%Z then 0 else 1
  | _ => 0
  end.

(** The other calls that can still change the counter, now or after a new call. *)
Definition contention y (t : Thread record) (events : list (Event record)) (i : nat) : nat :=
  match reservation with
  | reserve_weak_loop =>
      if Nat.eqb (is_reserving t) 0 then 0
      else sum_list_with is_reserving (sys_threads y) + is_outdated (sys_ring y) t +
           new_calls events + spurious_turns i events
  | _ => 0
  end.

Definition emit_bound y (i : nat) (events : list (Event record)) : nat :=
  word_count + 8 +
  match reservation with
  | reserve_weak_loop => 1 + length (sys_threads y) + new_calls events + spurious_turns i events
  | _ => 0
  end.

Lemma rank_returned t : rank t = 0 <-> returned t.
Proof. by destruct t as [r []|s []]. Qed.

Lemma returned_step g spurious t g' t' :
  thread_step g spurious t = (g', t') -> returned t -> g' = g /\ t' = t.
Proof. destruct t as [r []|s []]; simpl; naive_solver. Qed.

(** The word after a failed exchange is the current counter. *)
Lemma thread_step_rank g spurious t g' t' :
  thread_step g spurious t = (g', t') -> ~ returned t ->
  rank t' < rank t /\ is_reserving t' <= is_reserving t /\ is_outdated g' t' = 0 \/
  rank t' = rank t /\ g' = g /\ reservation = reserve_weak_loop /\ is_reserving t = 1 /\
    is_reserving t' = 1 /\ is_outdated g' t' = 0 /\
    (is_outdated g t = 1 \/ spurious = true).
Proof.
  destruct t as [r pc|s pc]; simpl.
  - destruct (emit_step g r spurious pc) as [g1 pc'] eqn:He. intros [= <- <-] Hnr. simpl.
    destruct pc as [|o|s|s|s p n|s p|s p|s p|s p|s|s p|s]; simpl in He; try done.
    + simplify_eq. left. simpl. rewrite Z.eqb_refl. lia.
    + unfold reserve_step in He. destruct reservation eqn:Hres.
      * simplify_eq. left. simpl. lia.
      * destruct (o =? u64_max)%Z; [simplify_eq; left; simpl; lia|].
        destruct spurious; simpl in He.
        { simplify_eq. right. simpl. rewrite Z.eqb_refl. auto 10. }
        destruct (rg_next_sequence g =? o)%Z eqn:Ho; simplify_eq; [left; simpl; lia|].
        right. simpl. rewrite ?Z.eqb_refl, ?Ho. auto 10.
      * case_match; simplify_eq; left; simpl; lia.
    + left. repeat case_match; simplify_eq; simpl; lia.
    + left. pose proof word_count_pos. simplify_eq. simpl. lia.
    + left. simplify_eq. destruct (Nat.ltb_spec (S n) word_count); simpl; lia.
    + left. simplify_eq. simpl. lia.
    + left. simplify_eq. simpl. lia.
    + left. simplify_eq. case_match; simpl; lia.
    + left. simplify_eq. simpl. lia.
    + left. simplify_eq. simpl. lia.
  - intros [= <- <-] Hnr. left. destruct pc as [|loaded|v]; simpl; [| |done].
    + repeat case_match; simpl; lia.
    + destruct (Nat.ltb_spec (length loaded) word_count); [simpl; rewrite length_app; simpl; lia|].
      repeat case_match; simpl; lia.
Qed.

(** Another thread that moves the counter leaves the reservation. *)
Lemma thread_step_counter g spurious t g' t' :
  thread_step g spurious t = (g', t') ->
  is_reserving t' <= is_reserving t /\
  (rg_next_sequence g' = rg_next_sequence g \/ is_reserving t = 1 /\ is_reserving t' = 0).
Proof.
  destruct t as [r pc|s pc]; simpl; [|intros [= <- <-]; simpl; lia].
  destruct (emit_step g r spurious pc) as [g1 pc'] eqn:He. intros [= <- <-].
  destruct pc; simpl in He; unfold reserve_step in He; repeat case_match; simplify_eq; simpl; auto.
Qed.
(** ** Potential of a call under a schedule *)

Definition potential y (i : nat) (t : Thread record) (events : list (Event record)) : nat :=
  rank t + contention y t events i.

Lemma is_reserving_le t : is_reserving t <= 1.
Proof. destruct t as [r []|s []]; simpl; lia. Qed.

Lemma potential_step y i t e events :
  sys_threads y !! i = Some t -> ~ returned t ->
  exists t', sys_threads (sys_step y e) !! i = Some t' /\
    potential (sys_step y e) i t' events + is_turn i e <= potential y i t (e :: events).
Proof.
  intros Hi Hnr. unfold potential, contention. destruct e as [r|s|j spurious]; simpl.
  - exists t. split; [by apply lookup_app_l_Some|]. rewrite sum_list_with_app. unfold new_calls, spurious_turns.
    unfold emit_start. simpl. destruct reservation; try lia. simpl. case_match; lia.
  - exists t. split; [by apply lookup_app_l_Some|]. rewrite sum_list_with_app. unfold new_calls, spurious_turns.
    simpl. case_match; try lia. case_match; lia.
  - unfold new_calls, spurious_turns. simpl. destruct (Nat.eqb_spec i j) as [<-|Hne]; simpl.
    + rewrite Hi. destruct (thread_step (sys_ring y) spurious t) as [g' t'] eqn:Ht. simpl.
      exists t'. split; [apply list_lookup_insert_eq; by apply lookup_lt_Some in Hi|].
      pose proof (sum_list_with_insert is_reserving _ _ _ t' Hi) as Hsum.
      pose proof (is_reserving_le t) as Hle.
      destruct (thread_step_rank _ spurious t g' t' Ht Hnr)
        as [(Hr & Hres & Ho)|(Hr & -> & Hw & Ht1 & Ht1' & Ho & Hor)].
      * case_match; try lia. rewrite Ho. destruct (Nat.eqb_spec (is_reserving t') 0); [lia|].
        rewrite (proj2 (Nat.eqb_neq (is_reserving t) 0)) by lia. lia.
      * rewrite Hw, Ho, Ht1, Ht1'. simpl. destruct Hor as [->| ->]; lia.
    + destruct (sys_threads y !! j) as [u|] eqn:Hj; [|exists t; split; [done|]; lia].
      destruct (thread_step (sys_ring y) spurious u) as [g' u'] eqn:Hu. simpl.
      exists t. split; [by rewrite list_lookup_insert_ne|].
      pose proof (sum_list_with_insert is_reserving _ _ _ u' Hj) as Hsum.
      destruct (thread_step_counter _ _ _ _ _ Hu) as [Hle Hc].
      assert (Hout : is_outdated g' t <= is_outdated (sys_ring y) t + is_reserving u - is_reserving u').
      { unfold is_outdated. destruct Hc as [-> |[-> ->]]; repeat case_match; lia. }
      case_match; try lia. case_match; lia.
Qed.

Lemma potential_run y i t events :
  sys_threads y !! i = Some t ->
  exists t', sys_threads (run y events) !! i = Some t' /\
    (returned t' \/ 0 < rank t' /\ turns i events + rank t' <= potential y i t events).
Proof.
  revert y t. induction events as [|e events IH]; intros y t Hi.
  - exists t. split; [done|]. destruct (decide (rank t = 0)) as [H0|]; [left; by apply rank_returned|].
    right. unfold potential, turns. simpl. lia.
  - destruct (decide (rank t = 0)) as [H0|H0].
    + apply rank_returned in H0.
      assert (Hi' : sys_threads (sys_step y e) !! i = Some t).
      { destruct e as [r|s|j spurious]; simpl; [by apply lookup_app_l_Some..|].
        destruct (sys_threads y !! j) as [u|] eqn:Hj; [|done].
        destruct (thread_step (sys_ring y) spurious u) as [g' u'] eqn:Hu. simpl.
        destruct (decide (i = j)) as [<-|Hne]; [|by rewrite list_lookup_insert_ne].
        rewrite Hi in Hj. injection Hj as <-. destruct (returned_step _ _ _ _ _ Hu H0) as [_ ->].
        apply list_lookup_insert_eq. by apply lookup_lt_Some in Hi. }
      destruct (IH _ _ Hi') as (t' & Ht' & Hor). exists t'. split; [done|]. left.
      destruct Hor as [?|[Hpos Hle]]; [done|]. exfalso.
      unfold potential, contention in Hle. rewrite (proj2 (rank_returned t) H0) in Hle.
      assert (Hz : is_reserving t = 0) by (by destruct t as [r []|s []]).
      rewrite Hz in Hle. simpl in Hle. case_match; lia.
    + assert (Hnr : ~ returned t) by (intros H; by apply rank_returned in H).
      destruct (potential_step y i t e events Hi Hnr) as (u & Hu & Hle).
      destruct (IH _ _ Hu) as (t' & Ht' & Hor). exists t'. split; [done|].
      destruct Hor as [?|[Hpos Hle']]; [by left|right]. split; [done|]. unfold turns in *. simpl. lia.
Qed.

Lemma potential_bound y i t events :
  sys_threads y !! i = Some t -> potential y i t events <= emit_bound y i events.
Proof.
  intros Hi. unfold potential, emit_bound, contention.
  assert (rank t <= word_count + 8) by (destruct t as [r []|s []]; simpl; lia).
  assert (sum_list_with is_reserving (sys_threads y) <= length (sys_threads y)).
  { rewrite <- (Nat.mul_1_r (length _)), <- (sum_list_with_const (fun _ => 1) 1) by done.
    apply sum_list_with_le. intros. apply is_reserving_le. }
  assert (is_outdated (sys_ring y) t <= 1) by (unfold is_outdated; repeat case_match; lia).
  repeat case_match; lia.
Qed.

(** Every call returns once it has had its turns, whatever runs in between. *)
Lemma calls_return y i t events :
  sys_threads y !! i = Some t -> emit_bound y i events <= turns i events ->
  exists t', sys_threads (run y events) !! i = Some t' /\ returned t'.
Proof.
  intros Hi Hb. destruct (potential_run y i t events Hi) as (t' & Ht' & Hor). exists t'.
  split; [done|]. pose proof (potential_bound y i t events Hi). destruct Hor as [?|[? ?]]; [done|lia].
Qed.
End Progress.
