(* ===== verification/SeqRingSequential.v ===== *)
(** * Sequence ring: calls that run alone

    A call of [emit] that no other call interleaves is one update of the ring, and a
    ring filled this way holds exactly the last [capacity] records. *)

From stdpp Require Import base list numbers.
From Stdlib Require Import ZArith Lia Bool.
From S2P Require Import Prelude SeqRing SeqRingInvariant SeqRingProgress.

Open Scope Z_scope.

Section Sequential.
Context {record : Type} `{!RingRecord record, !RingRecordLaws record}.
Implicit Types (g : Ring) (r : record).

Lemma set_slot_twice g s a b : set_slot (set_slot g s a) s b = set_slot g s b.
Proof.
  unfold set_slot at 1. rewrite slot_index_set_slot. simpl. unfold set_slot. by rewrite list_insert_insert_eq.
Qed.

(** ** The update of one call *)

(** The record of the number [s] in its slot, the statistics counted. *)
Definition keep_record g (s : Z) r : Ring :=
  let previous := sl_committed_sequence (slot_at g s) in
  let g1 := count_emitted (set_slot g s (mkSlot false s (to_words (stamp s r)))) in
  if previous =? invalid_sequence then g1 else count_overwritten g1.

Definition emit_update g r : Ring * bool :=
  let s := rg_next_sequence g in
  let g1 := set_next_sequence g (s + 1) in
  if admissible (stamp s r) && negb (Nat.eqb (capacity g) 0)
  then (keep_record g1 s r, true)
  else (count_dropped g1, false).

(** No call is in progress and the counter is not exhausted. *)
Record ring_quiet g : Prop := {
  quiet_next : 0 <= rg_next_sequence g < u64_max;
  quiet_slots : Forall (fun sl => sl_writer sl = false /\ length (sl_words sl) = word_count) (rg_slots g);
}.

Lemma emit_run_add m n g r pc :
  emit_run (m + n) g r pc = let '(g', pc') := emit_run m g r pc in emit_run n g' r pc'.
Proof.
  revert g pc. induction m as [|m IH]; intros g pc; simpl; [done|].
  destruct (emit_step g r false pc) as [g1 pc1]. apply IH.
Qed.

Lemma emit_run_S n g r pc :
  emit_run (S n) g r pc = let '(g', pc') := emit_step g r false pc in emit_run n g' r pc'.
Proof. done. Qed.

Lemma emit_run_stores g r s p n i :
  capacity g <> 0%nat -> length (sl_words (slot_at g s)) = word_count ->
  (i + S n = word_count)%nat ->
  take i (sl_words (slot_at g s)) = take i (to_words (stamp s r)) ->
  emit_run (S n) g r (e_store s p i) =
    (set_slot g s (mkSlot (sl_writer (slot_at g s)) (sl_committed_sequence (slot_at g s))
       (to_words (stamp s r))), e_commit s p).
Proof.
  revert g i. induction n as [|n IH]; intros g i Hc Hl Hi Ht.
  - simpl. rewrite (proj2 (Nat.ltb_ge (S i) word_count)) by lia. do 3 f_equal.
    pose proof (take_insert_next (sl_words (slot_at g s)) (to_words (stamp s r)) i
      ltac:(lia) ltac:(by rewrite to_words_length) Ht) as Hn.
    rewrite take_ge, take_ge in Hn; [done|..]; rewrite ?length_insert, ?to_words_length; lia.
  - rewrite emit_run_S. cbn [emit_step].
    rewrite (proj2 (Nat.ltb_lt (S i) word_count)) by lia.
    rewrite IH; rewrite ?capacity_set_slot, ?slot_at_set_same by done; simpl; try done.
    + by rewrite set_slot_twice.
    + by rewrite length_insert.
    + lia.
    + apply take_insert_next; [lia|by rewrite to_words_length|done].
Qed.

(** The accesses after a successful claim. *)
Lemma emit_run_claimed g r s :
  capacity g <> 0%nat -> sl_writer (slot_at g s) = false ->
  length (sl_words (slot_at g s)) = word_count -> admissible (stamp s r) = true ->
  emit_run (word_count + 6) g r (e_claim s) =
    (keep_record g s r, e_kept s (sl_committed_sequence (slot_at g s))).
Proof.
  intros Hc Hw Hl Ha. pose proof word_count_pos.
  replace (word_count + 6)%nat with (2 + (word_count + 4))%nat by lia.
  rewrite emit_run_add, emit_run_S. cbn [emit_step]. rewrite Ha, (proj2 (Nat.eqb_neq _ _) Hc), Hw.
  cbn [negb orb]. rewrite emit_run_S. cbn [emit_step emit_run].
  rewrite slot_at_set_same, set_slot_twice by done. cbn [sl_writer sl_words sl_committed_sequence].
  rewrite emit_run_add. destruct word_count as [|n] eqn:Hn; [lia|].
  rewrite emit_run_stores; rewrite ?capacity_set_slot, ?slot_at_set_same by done; simpl; try done; [|lia].
  rewrite !slot_at_set_same, !set_slot_twice; rewrite ?capacity_set_slot; try done. simpl.
  unfold keep_record. destruct (sl_committed_sequence (slot_at g s) =? invalid_sequence); done.
Qed.
Lemma emit_run_done n g r pc :
  match pc with e_kept _ _ | e_dropped _ => True | _ => False end -> emit_run n g r pc = (g, pc).
Proof. intros Hpc. induction n as [|n IH]; [done|]. rewrite emit_run_S. by destruct pc. Qed.

Lemma emit_run_refused n g r s :
  (2 <= n)%nat -> admissible (stamp s r) && negb (Nat.eqb (capacity g) 0) = false ->
  emit_run n g r (e_claim s) = (count_dropped g, e_dropped s).
Proof.
  intros Hn Hr. destruct n as [|[|n]]; [lia..|]. rewrite !emit_run_S. cbn [emit_step].
  rewrite <- (negb_involutive (Nat.eqb (capacity g) 0)), <- negb_andb, Hr. simpl. by apply emit_run_done.
Qed.

(** The reservation, which no other call disturbs. *)
Lemma emit_run_reserved g r :
  0 <= rg_next_sequence g < u64_max ->
  exists n, (n <= 2)%nat /\
    emit_run n g r emit_start =
      (set_next_sequence g (rg_next_sequence g + 1), e_claim (rg_next_sequence g)).
Proof.
  intros Hn. unfold emit_start.
  assert (Hne : (rg_next_sequence g =? u64_max) = false) by (apply Z.eqb_neq; lia).
  destruct reservation eqn:Hres.
  - exists 1%nat. split; [lia|]. simpl. unfold reserve_step. rewrite Hres, u64_small; [done|].
    unfold is_u64. lia.
  - exists 2%nat. split; [lia|]. simpl. unfold reserve_step. by rewrite Hres, Hne, Z.eqb_refl.
  - exists 2%nat. split; [lia|]. simpl. unfold reserve_step, invalid_sequence.
    by rewrite Hres, Hne, Z.eqb_refl.
Qed.

Lemma emit_alone g r : ring_quiet g -> emit g r = emit_update g r.
Proof.
  intros [Hn Hs]. destruct (emit_run_reserved g r Hn) as (n & Hle & Hres).
  unfold emit, emit_update, emit_fuel.
  replace (word_count + 8)%nat with (n + (word_count + 6 + (2 - n)))%nat by lia.
  rewrite emit_run_add, Hres. set (g1 := set_next_sequence g _). set (s := rg_next_sequence g).
  change (capacity g) with (capacity g1).
  destruct (admissible (stamp s r) && negb (Nat.eqb (capacity g1) 0)) eqn:Hr.
  - apply andb_true_iff in Hr as [Ha Hc%negb_true_iff%Nat.eqb_neq].
    assert (Hsl : rg_slots g1 !! slot_index g1 s = Some (slot_at g1 s)) by (by apply slot_at_lookup).
    apply (Forall_lookup_1 _ _ _ _ Hs) in Hsl as [Hw Hl].
    rewrite emit_run_add, emit_run_claimed by done. by rewrite emit_run_done.
  - rewrite emit_run_refused; [done|lia|done].
Qed.

(** ** The value of a read *)

Lemma read_run_words g s n loaded :
  length (sl_words (slot_at g s)) = word_count ->
  loaded = take (length loaded) (sl_words (slot_at g s)) ->
  (length loaded + n = word_count)%nat ->
  read_run n g s (r_words loaded) = r_words (sl_words (slot_at g s)) :> ReadPc record.
Proof.
  revert loaded. induction n as [|n IH]; intros loaded Hl Hpre Hn; simpl.
  - rewrite Hpre, take_ge by lia. done.
  - rewrite (proj2 (Nat.ltb_lt _ _)) by lia. apply IH; rewrite ?length_app; simpl; [done| |lia].
    rewrite Nat.add_1_r. rewrite Hpre at 1. symmetry. apply take_S_r.
    apply list_lookup_lookup_total_lt. lia.
Qed.

Lemma read_run_add m n g s (pc : ReadPc record) :
  read_run (m + n) g s pc = read_run n g s (read_run m g s pc).
Proof. revert pc. induction m as [|m IH]; intros pc; simpl; [done|]. apply IH. Qed.

Lemma read_run_done n g s (v : option record) : read_run n g s (r_done v) = r_done v.
Proof. by induction n. Qed.

Lemma read_alone g s :
  Forall (fun sl => length (sl_words sl) = word_count) (rg_slots g) ->
  read_sequence g s =
    if Nat.eqb (capacity g) 0 || negb (sl_committed_sequence (slot_at g s) =? s) then None
    else let v := of_words s (sl_words (slot_at g s)) in
         if acceptable s v then Some v else None.
Proof.
  intros Hs. unfold read_sequence, read_fuel.
  replace (word_count + 2)%nat with (1 + (word_count + 1))%nat by lia.
  rewrite read_run_add. cbn [read_run read_step].
  destruct (Nat.eqb (capacity g) 0) eqn:Hc; simpl; [by rewrite read_run_done|].
  destruct (sl_committed_sequence (slot_at g s) =? s) eqn:Hcom; simpl; [|by rewrite read_run_done].
  apply Nat.eqb_neq in Hc.
  assert (Hl : length (sl_words (slot_at g s)) = word_count).
  { pose proof (slot_at_lookup g s Hc) as Hk. by apply (Forall_lookup_1 _ _ _ _ Hs) in Hk. }
  rewrite read_run_add, (read_run_words _ _ word_count []) by done. simpl.
  rewrite Hl, Nat.ltb_irrefl, Hcom. simpl. by destruct (acceptable s _).
Qed.
(** ** A ring filled by one thread *)

Definition emit_all g (rs : list record) : Ring := foldl (fun g r => fst (emit g r)) g rs.

(** The ring holds the last [capacity] of the records [rs]. *)
Record retains (base : Z) (rs : list record) g : Prop := {
  rt_next : rg_next_sequence g = base + Z.of_nat (length rs);
  rt_slots : Forall (fun sl => sl_writer sl = false /\ length (sl_words sl) = word_count) (rg_slots g);
  rt_kept : forall i r, rs !! i = Some r -> (length rs <= i + capacity g)%nat ->
    slot_at g (base + Z.of_nat i) =
      mkSlot false (base + Z.of_nat i) (to_words (stamp (base + Z.of_nat i) r));
  rt_only : forall k sl, rg_slots g !! k = Some sl ->
    sl_committed_sequence sl = invalid_sequence \/
    exists i, (i < length rs <= i + capacity g)%nat /\ sl_committed_sequence sl = base + Z.of_nat i /\
      k = slot_index g (base + Z.of_nat i);
  rt_statistics : rg_emitted g = Z.of_nat (length rs) /\
    rg_overwritten g = Z.of_nat (length rs - capacity g) /\ rg_dropped g = 0;
}.

Lemma slot_index_distinct g b i n :
  capacity g <> 0%nat -> (i < n < i + capacity g)%nat ->
  slot_index g (b + Z.of_nat i) <> slot_index g (b + Z.of_nat n).
Proof.
  unfold slot_index. intros Hc Hi. set (c := Z.of_nat (capacity g)).
  assert (0 < c) by lia. pose proof (Z.mod_pos_bound (b + Z.of_nat i) c ltac:(lia)).
  pose proof (Z.mod_pos_bound (b + Z.of_nat n) c ltac:(lia)). intros He%Z2Nat.inj; [|lia..].
  pose proof (Z.div_mod (b + Z.of_nat i) c ltac:(lia)). pose proof (Z.div_mod (b + Z.of_nat n) c ltac:(lia)).
  set (qi := (b + Z.of_nat i) / c) in *. set (qn := (b + Z.of_nat n) / c) in *.
  assert (c * (qn - qi) = Z.of_nat n - Z.of_nat i) by (rewrite Z.mul_sub_distr_l; lia).
  assert (0 < qn - qi) by nia. assert (c * 1 <= c * (qn - qi)) by (apply Z.mul_le_mono_nonneg_l; lia). lia.
Qed.

Lemma slot_index_wrap g b i :
  capacity g <> 0%nat -> slot_index g (b + Z.of_nat (i + capacity g)) = slot_index g (b + Z.of_nat i).
Proof.
  intros Hc. unfold slot_index. f_equal. rewrite Nat2Z.inj_add.
  replace (b + (Z.of_nat i + Z.of_nat (capacity g)))
    with (b + Z.of_nat i + 1 * Z.of_nat (capacity g)) by lia.
  apply Z_mod_plus_full.
Qed.

Lemma capacity_emit_update g r : capacity (fst (emit_update g r)) = capacity g.
Proof.
  unfold emit_update, keep_record. repeat case_match; simpl; try done; unfold capacity; simpl;
    by rewrite length_insert.
Qed.

(** The slot of the next number is in use exactly when the ring is full. *)
Lemma retains_next_slot base rs g :
  capacity g <> 0%nat -> 0 <= base -> base + Z.of_nat (length rs) < u64_max -> retains base rs g ->
  (sl_committed_sequence (slot_at g (rg_next_sequence g)) =? invalid_sequence) =
  Nat.ltb (length rs) (capacity g).
Proof.
  intros Hc Hb Hmax [Hn _ Hk Ho _]. rewrite Hn. unfold invalid_sequence in *.
  destruct (Nat.ltb_spec (length rs) (capacity g)) as [Hlt|Hge].
  - apply Z.eqb_eq. destruct (Ho _ _ (slot_at_lookup g (base + Z.of_nat (length rs)) Hc)) as [?|(i & Hi & _ & Hx)];
      [done|]. exfalso. symmetry in Hx. revert Hx. apply slot_index_distinct; [done|lia].
  - apply Z.eqb_neq. destruct (lookup_lt_is_Some_2 rs (length rs - capacity g)) as [r Hr]; [lia|].
    specialize (Hk _ _ Hr ltac:(lia)).
    assert (He : slot_at g (base + Z.of_nat (length rs)) = slot_at g (base + Z.of_nat (length rs - capacity g))).
    { unfold slot_at. f_equal. rewrite <- (slot_index_wrap g base (length rs - capacity g)) by done. do 3 f_equal. lia. }
    rewrite He, Hk. simpl. lia.
Qed.

Lemma retains_emit base rs g r :
  capacity g <> 0%nat -> 0 <= base -> base + Z.of_nat (length rs) < u64_max -> retains base rs g ->
  admissible (stamp (base + Z.of_nat (length rs)) r) = true ->
  retains base (rs ++ [r]) (fst (emit g r)).
Proof.
  intros Hc Hb Hmax Hret Ha. pose proof (retains_next_slot _ _ _ Hc Hb Hmax Hret) as Hnext.
  destruct Hret as [Hn Hs Hk Ho (He & Hov & Hd)].
  rewrite emit_alone by (split; [lia|done]). unfold emit_update. rewrite Hn, Ha, (proj2 (Nat.eqb_neq _ _) Hc).
  simpl. set (s := base + Z.of_nat (length rs)) in *.
  assert (Hg : exists g1, keep_record (set_next_sequence g (s + 1)) s r = g1 /\
     rg_slots g1 = <[slot_index g s := mkSlot false s (to_words (stamp s r))]> (rg_slots g) /\
     rg_next_sequence g1 = s + 1 /\ rg_emitted g1 = Z.of_nat (S (length rs)) /\
     rg_overwritten g1 = Z.of_nat (S (length rs) - capacity g) /\ rg_dropped g1 = 0).
  { eexists. split; [done|]. unfold keep_record.
    change (slot_at (set_next_sequence g (s + 1)) s) with (slot_at g s). rewrite Hn in Hnext. rewrite Hnext.
    destruct (Nat.ltb_spec (length rs) (capacity g)); simpl; rewrite He, Hov, Hd, !u64_small; split_and!;
      try done; try lia; unfold is_u64, s in *; lia. }
  destruct Hg as (g1 & -> & Hslots & Hn1 & He1 & Ho1 & Hd1).
  assert (Hcap : capacity g1 = capacity g) by (unfold capacity; by rewrite Hslots, length_insert).
  assert (Hidx : forall z, slot_index g1 z = slot_index g z) by (intros; unfold slot_index; by rewrite Hcap).
  assert (Hsame : slot_at g1 s = mkSlot false s (to_words (stamp s r))).
  { unfold slot_at. rewrite Hidx, Hslots. apply list_lookup_total_insert_eq. by apply slot_index_lt. }
  assert (Hother : forall z, slot_index g z <> slot_index g s -> slot_at g1 z = slot_at g z).
  { intros z Hz. unfold slot_at. rewrite Hidx, Hslots. by apply list_lookup_total_insert_ne. }
  split; rewrite ?length_app, ?Hcap; simpl; rewrite ?Nat.add_1_r.
  - rewrite Hn1. unfold s. lia.
  - rewrite Hslots. apply Forall_insert; [done|]. simpl. by rewrite to_words_length.
  - intros i r0 Hi Hle. rewrite lookup_snoc_Some in Hi. destruct Hi as [[Hlt Hi]|[-> <-]]; [|done].
    rewrite Hother by (unfold s; apply slot_index_distinct; [done|lia]). apply Hk; [done|lia].
  - intros k sl Hsl. rewrite Hslots in Hsl.
    apply list_lookup_insert_Some in Hsl as [(<- & <- & _)|[Hne Hsl]].
    + right. exists (length rs). rewrite Hidx. split_and!; [lia|lia|done|done].
    + destruct (Ho k sl Hsl) as [?|(i & Hi & Hcom & ->)]; [by left|right]. exists i. rewrite Hidx.
      split_and!; [lia| |done|done].
      destruct (decide (i + capacity g = length rs)%nat) as [Heq|]; [|lia]. exfalso. apply Hne.
      unfold s. by rewrite <- Heq, slot_index_wrap.
  - done.
Qed.

Lemma retains_all base rs g :
  ring_fresh base g -> capacity g <> 0%nat -> base + Z.of_nat (length rs) <= u64_max ->
  (forall i r, rs !! i = Some r -> admissible (stamp (base + Z.of_nat i) r) = true) ->
  retains base rs (emit_all g rs) /\ capacity (emit_all g rs) = capacity g.
Proof.
  intros Hf Hc. unfold emit_all. induction rs as [|r rs IH] using rev_ind; intros Hmax Hadm; simpl.
  - split; [|done]. destruct Hf as [Hn Hb Hs (H1 & H2 & H3)]. split; simpl; try done; [lia| |].
    + eapply Forall_impl; [|exact Hs]. naive_solver.
    + intros k sl Hk. left. by apply (Forall_lookup_1 _ _ _ _ Hs) in Hk as (_ & ? & _).
  - rewrite length_app in Hmax. simpl in Hmax. pose proof (fresh_base _ _ Hf).
    destruct IH as [Hret Hcap]; [lia| |].
    { intros i r0 Hi. apply Hadm. by apply lookup_app_l_Some. }
    rewrite foldl_snoc. split.
    + apply retains_emit; [by rewrite Hcap|lia|lia|done|]. apply Hadm. apply list_lookup_middle. done.
    + rewrite emit_alone, capacity_emit_update; [done|]. destruct Hret as [Hn Hs _ _ _]. split; [lia|done].
Qed.

(** What a reader finds in a ring filled by one thread. *)
Lemma retains_read base rs g s :
  retains base rs g -> capacity g <> 0%nat -> 0 <= base -> base + Z.of_nat (length rs) <= u64_max ->
  (forall i r, rs !! i = Some r -> well_typed r /\
     acceptable (base + Z.of_nat i) (deliver (base + Z.of_nat i) r) = true) ->
  s <> invalid_sequence ->
  read_sequence g s =
    if (base + Z.of_nat (length rs) - Z.of_nat (capacity g) <=? s) && (base <=? s)
    then deliver s <$> rs !! Z.to_nat (s - base) else None.
Proof.
  intros [Hn Hs Hk Ho _] Hc Hb Hmax Hok Hne.
  rewrite read_alone by (eapply Forall_impl; [|exact Hs]; naive_solver).
  rewrite (proj2 (Nat.eqb_neq _ _) Hc). simpl.
  assert (Hmiss : forall k sl, rg_slots g !! k = Some sl -> sl_committed_sequence sl = s ->
            exists i, (i < length rs <= i + capacity g)%nat /\ s = base + Z.of_nat i).
  { intros k sl Hk' <-. destruct (Ho k sl Hk') as [?|(i & ? & ? & _)]; [done|]. by exists i. }
  specialize (Hmiss _ _ (slot_at_lookup g s Hc)).
  destruct (Z.leb_spec (base + Z.of_nat (length rs) - Z.of_nat (capacity g)) s) as [Hge|Hlt]; simpl.
  - destruct (Z.leb_spec base s) as [Hbs|Hbs].
    + destruct (rs !! Z.to_nat (s - base)) as [r|] eqn:Hr; simpl.
      * specialize (Hk _ _ Hr ltac:(lia)). destruct (Hok _ _ Hr) as [Hwt Hacc].
        rewrite Z2Nat.id, Zplus_minus in Hk, Hacc by lia. rewrite Hk. simpl. rewrite Z.eqb_refl. simpl.
        apply lookup_lt_Some in Hr. rewrite of_words_to_words by (done || (unfold is_u64; lia)).
        by rewrite Hacc.
      * apply lookup_ge_None in Hr. destruct (Z.eqb_spec (sl_committed_sequence (slot_at g s)) s); [|done].
        destruct (Hmiss ltac:(done)) as (i & ? & ->). exfalso. lia.
    + destruct (Z.eqb_spec (sl_committed_sequence (slot_at g s)) s); [|done].
      destruct (Hmiss ltac:(done)) as (i & ? & ->). exfalso. lia.
  - destruct (Z.eqb_spec (sl_committed_sequence (slot_at g s)) s); [|done].
    destruct (Hmiss ltac:(done)) as (i & ? & ->). exfalso. lia.
Qed.
End Sequential.
