(* ===== verification/RecordLayout.v ===== *)
(** * Object representation of fixed records

    Three rings move a record through an array of 64-bit words with
    [std::bit_cast].  The records have no padding (their declared sizes are the sums
    of their field sizes and every field is aligned), so the representation is the
    little-endian bytes of the fields in declaration order, cut into words of eight
    bytes. *)

From stdpp Require Import base list numbers.
From Stdlib Require Import ZArith Lia Bool.
From S2P Require Import Prelude CanonicalBytes.

Open Scope Z_scope.

(** The bytes of fields of the given widths. *)
Fixpoint pack (widths : list nat) (fields : list Z) : list Z :=
  match widths, fields with
  | w :: ws, f :: fs => le_split w f ++ pack ws fs
  | _, _ => []
  end.

Fixpoint unpack (widths : list nat) (bytes : list Z) : list Z :=
  match widths with
  | [] => []
  | w :: ws => le_combine (take w bytes) :: unpack ws (drop w bytes)
  end.

(** Bytes as [count] words and back. *)
Fixpoint bytes_to_words (count : nat) (bytes : list Z) : list Z :=
  match count with
  | O => []
  | S count' => le_combine (take 8 bytes) :: bytes_to_words count' (drop 8 bytes)
  end.

Definition words_to_bytes (words : list Z) : list Z := words ≫= le_split 8.

Definition field_fits_width (w : nat) (f : Z) : Prop := 0 <= f < 256 ^ Z.of_nat w.

#[export] Instance field_fits_width_decision w f : Decision (field_fits_width w f).
Proof. unfold field_fits_width. apply _. Defined.

(** A 32-bit signed integer as its bits, and a byte array as fields of width one. *)
Definition i32_bits (z : Z) : Z := u32 z.

Definition bits_i32 (z : Z) : Z := if z <? 2147483648 then z else z - 4294967296.

Definition is_i32 (z : Z) : Prop := -2147483648 <= z < 2147483648.

#[export] Instance is_i32_decision z : Decision (is_i32 z).
Proof. unfold is_i32. apply _. Defined.

Definition bool_byte (b : bool) : Z := if b then 1 else 0.

Definition byte_bool (z : Z) : bool := negb (z =? 0).

(** ** Round trips *)

Lemma length_pack ws fs : length ws = length fs -> length (pack ws fs) = sum_list ws.
Proof.
  revert fs. induction ws as [|w ws IH]; intros [|f fs] Hl; simplify_eq/=; [done|].
  by rewrite length_app, length_le_split, IH.
Qed.

Lemma pack_bytes ws fs : bytes_ok (pack ws fs).
Proof.
  revert fs. induction ws as [|w ws IH]; intros [|f fs]; simpl; try constructor.
  apply Forall_app. split; [apply le_split_bytes|apply IH].
Qed.

Lemma unpack_pack ws fs : Forall2 field_fits_width ws fs -> unpack ws (pack ws fs) = fs.
Proof.
  induction 1 as [|w f ws fs Hf _ IH]; simpl; [done|].
  rewrite take_app_length', drop_app_length' by (by rewrite length_le_split).
  by rewrite le_combine_split, IH.
Qed.

Lemma length_bytes_to_words n bs : length (bytes_to_words n bs) = n.
Proof. revert bs. induction n; intros; simpl; auto. Qed.

Lemma le_split_combine w bs : bytes_ok bs -> length bs = w -> le_split w (le_combine bs) = bs.
Proof.
  intros Hb <-. induction Hb as [|b bs Hb _ IH]; [done|]. cbn [length].
  rewrite le_split_S. cbn [le_combine]. unfold is_u8 in Hb.
  replace (b + 256 * le_combine bs) with (b + le_combine bs * 256) by lia.
  rewrite Z.mod_add, Z.div_add, Z.mod_small, Z.div_small by lia. by rewrite Z.add_0_l, IH.
Qed.

Lemma pack_unpack ws bs : bytes_ok bs -> length bs = sum_list ws -> pack ws (unpack ws bs) = bs.
Proof.
  revert bs. induction ws as [|w ws IH]; intros bs Hb Hl; simpl in *; [by apply nil_length_inv in Hl|].
  rewrite le_split_combine, IH; [apply take_drop|by apply Forall_drop|rewrite length_drop; lia|by apply Forall_take|].
  rewrite length_take. lia.
Qed.

Lemma unpack_fits ws bs :
  bytes_ok bs -> length bs = sum_list ws -> Forall2 field_fits_width ws (unpack ws bs).
Proof.
  revert bs. induction ws as [|w ws IH]; intros bs Hb Hl; simpl in *; constructor.
  - pose proof (le_combine_bound (take w bs) (Forall_take _ _ _ Hb)) as H. rewrite length_take in H.
    unfold field_fits_width. by rewrite Nat.min_l in H by lia.
  - apply IH; [by apply Forall_drop|rewrite length_drop; lia].
Qed.

Lemma length_unpack ws bs : length (unpack ws bs) = length ws.
Proof. revert bs. induction ws; intros; simpl; auto. Qed.

(** A field is read back from its position. *)
Lemma subspan_pack ws fs i w f :
  length ws = length fs -> ws !! i = Some w -> fs !! i = Some f ->
  subspan (pack ws fs) (sum_list (take i ws)) w = le_split w f.
Proof.
  revert fs i. induction ws as [|w' ws IH]; intros [|f' fs] i Hl Hw Hf; simplify_eq/=.
  destruct i as [|i]; simplify_eq/=.
  - unfold subspan. rewrite drop_0. apply take_app_length'. by rewrite length_le_split.
  - rewrite <- (IH fs i) by done. unfold subspan. f_equal.
    by rewrite <- drop_drop, drop_app_length' by (by rewrite length_le_split).
Qed.

Lemma load_pack ws fs i w f off :
  length ws = length fs -> ws !! i = Some w -> fs !! i = Some f -> field_fits_width w f ->
  off = sum_list (take i ws) -> load_le w (pack ws fs) off = Some f.
Proof.
  intros Hl Hw Hf Hv ->. rewrite load_le_fits; [|apply pack_bytes|].
  - rewrite (subspan_pack ws fs i w f) by done. by rewrite le_combine_split.
  - rewrite length_pack by done. rewrite <- (take_drop_middle ws i w Hw) at 2.
    rewrite sum_list_with_app. simpl. lia.
Qed.

Lemma words_to_bytes_to_words n bs :
  bytes_ok bs -> length bs = (8 * n)%nat -> words_to_bytes (bytes_to_words n bs) = bs.
Proof.
  revert bs. induction n as [|n IH]; intros bs Hb Hl; cbn [bytes_to_words].
  - symmetry. by apply nil_length_inv.
  - unfold words_to_bytes in *. rewrite bind_cons, le_split_combine;
      [|by apply Forall_take|rewrite length_take; lia].
    rewrite IH; [apply take_drop|by apply Forall_drop|rewrite length_drop; lia].
Qed.

(** The fields of a record survive the copy through the words of a slot. *)
Lemma unpack_words ws fs n :
  Forall2 field_fits_width ws fs -> sum_list ws = (8 * n)%nat ->
  unpack ws (words_to_bytes (bytes_to_words n (pack ws fs))) = fs.
Proof.
  intros Hf Hs. rewrite words_to_bytes_to_words; [by apply unpack_pack|apply pack_bytes|].
  rewrite length_pack by (by eapply Forall2_length). done.
Qed.

Lemma bits_i32_bits z : is_i32 z -> bits_i32 (i32_bits z) = z.
Proof.
  unfold is_i32, bits_i32, i32_bits, u32. intros Hz. destruct (decide (0 <= z)).
  - rewrite Z.mod_small by lia. by rewrite (proj2 (Z.ltb_lt _ _)) by lia.
  - rewrite <- (Z.mod_add z 1) by lia. rewrite Z.mod_small by lia.
    rewrite (proj2 (Z.ltb_ge _ _)) by lia. lia.
Qed.

Lemma byte_bool_byte b : byte_bool (bool_byte b) = b.
Proof. by destruct b. Qed.

Lemma bool_byte_fits b : field_fits_width 1 (bool_byte b).
Proof. unfold field_fits_width. destruct b; simpl; lia. Qed.

Lemma i32_bits_fits z : field_fits_width 4 (i32_bits z).
Proof. unfold field_fits_width, i32_bits, u32. apply Z.mod_pos_bound. lia. Qed.

(** Names the elements of a list of known length. *)
Ltac destruct_length l :=
  repeat (destruct l as [|? l]; simpl in *; simplify_eq).
