(* ===== verification/Telemetry.v ===== *)
(** * Telemetry ring and counters (rt/src/telemetry.cpp, rt/src/telemetry.hpp)

    The trace ring is the sequence ring of SeqRing at [RuntimeTraceEvent]: the slot
    stores ten fields in atomics of their own width, so that a "word" here is a field.
    The two reserved fields of an event and its sequence are not stored. *)

From stdpp Require Import base list numbers strings.
From Stdlib Require Import ZArith Lia Bool.
From S2P Require Import Prelude SeqRing SeqRingInvariant SeqRingProgress SeqRingSequential.

Open Scope Z_scope.

Definition observability_schema_version : Z := 2.

(** ** Events *)

(** [RuntimeTraceEventType], an enum over 16 bits. *)
Definition trace_finalized : Z := 1.
Definition trace_started : Z := 2.
Definition trace_periodic_release : Z := 3.
Definition trace_periodic_wake : Z := 4.
Definition trace_step_begin : Z := 5.
Definition trace_callback_begin : Z := 6.
Definition trace_callback_end : Z := 7.
Definition trace_watchdog_fired : Z := 8.
Definition trace_degradation_applied : Z := 9.
Definition trace_step_end : Z := 10.
Definition trace_stopped : Z := 11.
Definition trace_device_submitted : Z := 12.
Definition trace_device_completed : Z := 13.
Definition trace_device_reset : Z := 14.

(** [RuntimeTraceProducer] *)
Definition producer_host : Z := 0.
Definition producer_worker : Z := 1.
Definition producer_device_service : Z := 2.

Record RuntimeTraceEvent := mkTraceEvent {
  te_schema_version : Z;
  te_record_size : Z;
  te_type : Z;
  te_status : Z;
  te_producer : Z;
  te_reserved0 : Z;
  te_sequence : Z;
  te_timestamp_ns : Z;
  te_frame_index : Z;
  te_callback_index : Z;
  te_worker_index : Z;
  te_value : Z;
  te_reserved1 : Z;
}.

#[export] Instance RuntimeTraceEvent_eq_dec : EqDecision RuntimeTraceEvent.
Proof. solve_decision. Defined.

(** [RuntimeTraceEvent{}] *)
Definition RuntimeTraceEvent_default : RuntimeTraceEvent :=
  mkTraceEvent observability_schema_version 64 trace_step_begin 0 producer_host 0 0 0 0
    u32_max u32_max 0 0.

Definition runtime_trace_event_name (type : Z) : string :=
  if type =? trace_finalized then "runtime.finalized"
  else if type =? trace_started then "runtime.started"
  else if type =? trace_periodic_release then "periodic.release"
  else if type =? trace_periodic_wake then "periodic.wake"
  else if type =? trace_step_begin then "frame.begin"
  else if type =? trace_callback_begin then "callback.begin"
  else if type =? trace_callback_end then "callback.end"
  else if type =? trace_watchdog_fired then "watchdog.fired"
  else if type =? trace_degradation_applied then "degradation.applied"
  else if type =? trace_step_end then "frame.end"
  else if type =? trace_stopped then "runtime.stopped"
  else if type =? trace_device_submitted then "device.submitted"
  else if type =? trace_device_completed then "device.completed"
  else if type =? trace_device_reset then "device.reset"
  else "unknown".

(** ** The ring *)

(** [event.sequence = sequence] *)
Definition set_event_sequence (sequence : Z) (e : RuntimeTraceEvent) : RuntimeTraceEvent :=
  mkTraceEvent (te_schema_version e) (te_record_size e) (te_type e) (te_status e) (te_producer e)
    (te_reserved0 e) sequence (te_timestamp_ns e) (te_frame_index e) (te_callback_index e)
    (te_worker_index e) (te_value e) (te_reserved1 e).

(** The ten stores of [emit], in their order. *)
Definition event_fields (e : RuntimeTraceEvent) : list Z :=
  [te_schema_version e; te_record_size e; te_type e; te_status e; te_producer e;
   te_timestamp_ns e; te_frame_index e; te_callback_index e; te_worker_index e; te_value e].

(** The candidate of [read_sequence]. *)
Definition event_of_fields (sequence : Z) (fields : list Z) : RuntimeTraceEvent :=
  mkTraceEvent (fields !!! 0%nat) (fields !!! 1%nat) (fields !!! 2%nat) (fields !!! 3%nat)
    (fields !!! 4%nat) 0 sequence (fields !!! 5%nat) (fields !!! 6%nat) (fields !!! 7%nat)
    (fields !!! 8%nat) (fields !!! 9%nat) 0.

(** What a reader gets of an event: its sequence set, its reserved fields cleared. *)
Definition delivered_event (sequence : Z) (e : RuntimeTraceEvent) : RuntimeTraceEvent :=
  mkTraceEvent (te_schema_version e) (te_record_size e) (te_type e) (te_status e) (te_producer e)
    0 sequence (te_timestamp_ns e) (te_frame_index e) (te_callback_index e) (te_worker_index e)
    (te_value e) 0.

(** [sizeof(Slot)]: the flag, the sequence and ten fields fill one cache line. *)
#[export] Instance telemetry_record : RingRecord RuntimeTraceEvent := {|
  reservation := reserve_fetch_add;
  word_count := 10;
  initial_words := event_fields RuntimeTraceEvent_default;
  slot_size := 64;
  capacity_limit := u64_max;
  stamp := set_event_sequence;
  to_words := event_fields;
  of_words := event_of_fields;
  admissible := fun _ => true;
  acceptable := fun _ _ => true;
|}.

#[export] Program Instance telemetry_record_laws : RingRecordLaws RuntimeTraceEvent := {|
  well_typed := fun _ => True;
  deliver := delivered_event;
|}.
Next Obligation. simpl. lia. Qed.
Next Obligation. done. Qed.
Next Obligation. done. Qed.
Next Obligation. done. Qed.

Definition TelemetryRing_create (capacity : Z) : option Ring
  := ring_create (record := RuntimeTraceEvent) capacity.

(** The constructor over external storage: the address and size of the span are
    tested before the slots are built in it. *)
Definition TelemetryRing_create_in (c storage_size storage_address : Z) : option Ring :=
  if u64_max / 64 <? c then None
  else
    let required := c * 64 in
    if (storage_size <? required) ||
       (negb (required =? 0) && negb (Z.land storage_address 63 =? 0))
    then None
    else Some (mkRing (replicate (Z.to_nat c) (empty_slot (record := RuntimeTraceEvent))) 0 0 0 0).

Definition TelemetryRing_emit_step : Ring -> RuntimeTraceEvent -> bool -> EmitPc -> Ring * EmitPc :=
  emit_step.

Definition TelemetryRing_read_step : Ring -> Z -> ReadPc RuntimeTraceEvent -> ReadPc RuntimeTraceEvent :=
  read_step.

Definition TelemetryRing_emit (g : Ring) (e : RuntimeTraceEvent) : Ring * bool := emit g e.

Definition TelemetryRing_read_sequence (g : Ring) (sequence : Z) : option RuntimeTraceEvent :=
  read_sequence g sequence.

(** The loop of [retained_count] and [event_at] over the numbers in reach. *)
Definition reachable_sequences (g : Ring) : list Z :=
  let end_sequence := rg_next_sequence g in
  let oldest := oldest_sequence g end_sequence in
  (fun i => oldest + Z.of_nat i) <$> seq 0 (Z.to_nat (end_sequence - oldest)).

Definition retained_count (g : Ring) : nat :=
  sum_list_with (fun s => match TelemetryRing_read_sequence g s with Some _ => 1%nat | None => 0%nat end)
    (reachable_sequences g).

Fixpoint event_at_loop (g : Ring) (sequences : list Z) (found chronological_index : nat)
    : option RuntimeTraceEvent :=
  match sequences with
  | [] => None
  | s :: rest =>
      match TelemetryRing_read_sequence g s with
      | None => event_at_loop g rest found chronological_index
      | Some candidate =>
          if Nat.eqb found chronological_index then Some candidate
          else event_at_loop g rest (S found) chronological_index
      end
  end.

Definition event_at (g : Ring) (chronological_index : nat) : option RuntimeTraceEvent :=
  event_at_loop g (reachable_sequences g) 0 chronological_index.

(** ** Metrics *)

Inductive RuntimeMetricKind : Set := metric_counter | metric_gauge.

(** [RuntimeMetricId]; [metric_out_of_range] is a value the enum does not name. *)
Inductive RuntimeMetricId : Set :=
| metric_frames_started
| metric_frames_completed
| metric_frames_failed
| metric_callbacks_started
| metric_callbacks_completed
| metric_callback_failures
| metric_deadline_misses
| metric_watchdog_events
| metric_degradation_events
| metric_periodic_releases
| metric_periodic_wakes
| metric_trace_events_emitted
| metric_trace_events_overwritten
| metric_trace_events_dropped
| metric_executor_submitted_tasks
| metric_executor_local_executions
| metric_executor_steal_attempts
| metric_executor_successful_steals
| metric_executor_queue_rejections
| metric_executor_scratch_exhaustions
| metric_executor_worker_starts
| metric_degradation_level
| metric_device_submissions
| metric_device_completions
| metric_device_failures
| metric_device_queue_rejections
| metric_device_timeouts
| metric_device_losses
| metric_device_resets
| metric_device_service_polls
| metric_device_outstanding
| metric_device_service_starts
| metric_out_of_range (value : Z).

Definition runtime_metric_count : nat := 32.

(** [static_cast<std::size_t>(id)] *)
Definition metric_index (id : RuntimeMetricId) : nat :=
  match id with
  | metric_frames_started => 0
  | metric_frames_completed => 1
  | metric_frames_failed => 2
  | metric_callbacks_started => 3
  | metric_callbacks_completed => 4
  | metric_callback_failures => 5
  | metric_deadline_misses => 6
  | metric_watchdog_events => 7
  | metric_degradation_events => 8
  | metric_periodic_releases => 9
  | metric_periodic_wakes => 10
  | metric_trace_events_emitted => 11
  | metric_trace_events_overwritten => 12
  | metric_trace_events_dropped => 13
  | metric_executor_submitted_tasks => 14
  | metric_executor_local_executions => 15
  | metric_executor_steal_attempts => 16
  | metric_executor_successful_steals => 17
  | metric_executor_queue_rejections => 18
  | metric_executor_scratch_exhaustions => 19
  | metric_executor_worker_starts => 20
  | metric_degradation_level => 21
  | metric_device_submissions => 22
  | metric_device_completions => 23
  | metric_device_failures => 24
  | metric_device_queue_rejections => 25
  | metric_device_timeouts => 26
  | metric_device_losses => 27
  | metric_device_resets => 28
  | metric_device_service_polls => 29
  | metric_device_outstanding => 30
  | metric_device_service_starts => 31
  | metric_out_of_range value => Z.to_nat value
  end%nat.

Record RuntimeMetricDefinition := mkMetricDefinition {
  md_id : RuntimeMetricId;
  md_kind : RuntimeMetricKind;
  md_name : string;
}.

Definition kMetricDefinitions : list RuntimeMetricDefinition :=
  [mkMetricDefinition metric_frames_started metric_counter "runtime.frames_started";
   mkMetricDefinition metric_frames_completed metric_counter "runtime.frames_completed";
   mkMetricDefinition metric_frames_failed metric_counter "runtime.frames_failed";
   mkMetricDefinition metric_callbacks_started metric_counter "runtime.callbacks_started";
   mkMetricDefinition metric_callbacks_completed metric_counter "runtime.callbacks_completed";
   mkMetricDefinition metric_callback_failures metric_counter "runtime.callback_failures";
   mkMetricDefinition metric_deadline_misses metric_counter "runtime.deadline_misses";
   mkMetricDefinition metric_watchdog_events metric_counter "runtime.watchdog_events";
   mkMetricDefinition metric_degradation_events metric_counter "runtime.degradation_events";
   mkMetricDefinition metric_periodic_releases metric_counter "runtime.periodic_releases";
   mkMetricDefinition metric_periodic_wakes metric_counter "runtime.periodic_wakes";
   mkMetricDefinition metric_trace_events_emitted metric_counter "trace.events_emitted";
   mkMetricDefinition metric_trace_events_overwritten metric_counter "trace.events_overwritten";
   mkMetricDefinition metric_trace_events_dropped metric_counter "trace.events_dropped";
   mkMetricDefinition metric_executor_submitted_tasks metric_counter "executor.submitted_tasks";
   mkMetricDefinition metric_executor_local_executions metric_counter "executor.local_executions";
   mkMetricDefinition metric_executor_steal_attempts metric_counter "executor.steal_attempts";
   mkMetricDefinition metric_executor_successful_steals metric_counter "executor.successful_steals";
   mkMetricDefinition metric_executor_queue_rejections metric_counter "executor.queue_rejections";
   mkMetricDefinition metric_executor_scratch_exhaustions metric_counter "executor.scratch_exhaustions";
   mkMetricDefinition metric_executor_worker_starts metric_counter "executor.worker_starts";
   mkMetricDefinition metric_degradation_level metric_gauge "runtime.degradation_level";
   mkMetricDefinition metric_device_submissions metric_counter "device.submissions";
   mkMetricDefinition metric_device_completions metric_counter "device.completions";
   mkMetricDefinition metric_device_failures metric_counter "device.failures";
   mkMetricDefinition metric_device_queue_rejections metric_counter "device.queue_rejections";
   mkMetricDefinition metric_device_timeouts metric_counter "device.timeouts";
   mkMetricDefinition metric_device_losses metric_counter "device.losses";
   mkMetricDefinition metric_device_resets metric_counter "device.resets";
   mkMetricDefinition metric_device_service_polls metric_counter "device.service_polls";
   mkMetricDefinition metric_device_outstanding metric_gauge "device.outstanding";
   mkMetricDefinition metric_device_service_starts metric_counter "device.service_starts"].

Definition RuntimeMetricDefinition_default : RuntimeMetricDefinition :=
  mkMetricDefinition metric_frames_started metric_counter "".

(** The returned flag and the output parameter. *)
Definition runtime_metric_definition (schema_index : nat) : bool * RuntimeMetricDefinition :=
  match kMetricDefinitions !! schema_index with
  | None => (false, RuntimeMetricDefinition_default)
  | Some d => (true, d)
  end.

(** [TelemetryCounters]: the array [values_]. *)
Definition TelemetryCounters_reset : list Z := replicate runtime_metric_count 0.

Definition TelemetryCounters_increment (values : list Z) (id : RuntimeMetricId) (amount : Z) : list Z :=
  if Nat.ltb (metric_index id) (length values)
  then alter (fun v => u64 (v + amount)) (metric_index id) values
  else values.

Definition TelemetryCounters_load (values : list Z) (id : RuntimeMetricId) : Z :=
  if Nat.ltb (metric_index id) (length values) then values !!! metric_index id else 0.
