(* ===== verification/RateTelemetry.v ===== *)
(** * Rate telemetry ring and counters (rt/src/rate_telemetry.cpp, rt/src/rate_telemetry.hpp)

    The sequence ring of SeqRing at [RateActionRecord], which is copied through the
    twenty words of a slot, and the saturating counters of the rate schema. *)

From stdpp Require Import base list numbers strings.
From Stdlib Require Import ZArith Lia Bool.
From S2P Require Import Prelude RateTimeline CanonicalBytes SeqRing SeqRingInvariant RecordLayout.

Open Scope Z_scope.

Definition rate_action_schema_version : Z := 1.
Definition rate_action_record_size : Z := 160.

(** ** Records *)

Record RateActionRecord := mkRateAction {
  ra_schema_version : Z;
  ra_record_size : Z;
  ra_sequence : Z;
  ra_host_policy_version : Z;
  ra_runtime_id : Z;
  ra_frame_index : Z;
  ra_first_domain_release_sequence : Z;
  ra_logical_release_ns : Z;
  ra_nominal_release_ns : Z;
  ra_release_period_ns : Z;
  ra_release_count : Z;
  ra_reference_record_count : Z;
  ra_shed_state_before : Z;
  ra_shed_state_after : Z;
  ra_domain_registration_index : Z;
  ra_transition_domain_registration_index : Z;
  ra_action : Z;
  ra_transition : Z;
  ra_reason : Z;
  ra_optional : bool;
  ra_late : bool;
  ra_reserved0 : list Z;
  ra_status : Z;
  ra_degradation_level : Z;
  ra_reserved1 : list Z;
}.

#[export] Instance RateActionRecord_eq_dec : EqDecision RateActionRecord.
Proof. solve_decision. Defined.

(** [record.sequence = sequence] *)
Definition set_rate_action_sequence (sequence : Z) (r : RateActionRecord) : RateActionRecord :=
  mkRateAction (ra_schema_version r) (ra_record_size r) sequence (ra_host_policy_version r) (ra_runtime_id r) (ra_frame_index r) (ra_first_domain_release_sequence r) (ra_logical_release_ns r) (ra_nominal_release_ns r) (ra_release_period_ns r) (ra_release_count r) (ra_reference_record_count r) (ra_shed_state_before r) (ra_shed_state_after r) (ra_domain_registration_index r) (ra_transition_domain_registration_index r) (ra_action r) (ra_transition r) (ra_reason r) (ra_optional r) (ra_late r) (ra_reserved0 r) (ra_status r) (ra_degradation_level r) (ra_reserved1 r).

(** The widths of the fields in declaration order. *)
Definition rate_action_layout : list nat :=
  ([4; 4; 8; 8; 8; 8; 8; 8; 8; 8; 8; 8; 8; 8; 4; 4; 1; 1; 1; 1; 1] ++ replicate 3 1 ++ [4; 4] ++ replicate 32 1)%nat.

Definition rate_action_fields (r : RateActionRecord) : list Z :=
  [ra_schema_version r; ra_record_size r; ra_sequence r; ra_host_policy_version r; ra_runtime_id r; ra_frame_index r; ra_first_domain_release_sequence r; ra_logical_release_ns r; ra_nominal_release_ns r; ra_release_period_ns r; ra_release_count r; ra_reference_record_count r; ra_shed_state_before r; ra_shed_state_after r; ra_domain_registration_index r; ra_transition_domain_registration_index r; ra_action r; ra_transition r; ra_reason r; bool_byte (ra_optional r); bool_byte (ra_late r)] ++
  ra_reserved0 r ++
  [i32_bits (ra_status r); ra_degradation_level r] ++
  ra_reserved1 r.

Definition rate_action_of_fields (fields : list Z) : RateActionRecord :=
  mkRateAction (fields !!! 0%nat)
    (fields !!! 1%nat)
    (fields !!! 2%nat)
    (fields !!! 3%nat)
    (fields !!! 4%nat)
    (fields !!! 5%nat)
    (fields !!! 6%nat)
    (fields !!! 7%nat)
    (fields !!! 8%nat)
    (fields !!! 9%nat)
    (fields !!! 10%nat)
    (fields !!! 11%nat)
    (fields !!! 12%nat)
    (fields !!! 13%nat)
    (fields !!! 14%nat)
    (fields !!! 15%nat)
    (fields !!! 16%nat)
    (fields !!! 17%nat)
    (fields !!! 18%nat)
    (byte_bool (fields !!! 19%nat))
    (byte_bool (fields !!! 20%nat))
    (take 3 (drop 21 fields))
    (bits_i32 (fields !!! 24%nat))
    (fields !!! 25%nat)
    (take 32 (drop 26 fields)).

(** [std::bit_cast] to the words of a slot and back. *)
Definition rate_action_to_words (r : RateActionRecord) : list Z :=
  bytes_to_words 20 (pack rate_action_layout (rate_action_fields r)).

Definition rate_action_of_words (words : list Z) : RateActionRecord :=
  rate_action_of_fields (unpack rate_action_layout (words_to_bytes words)).

(** The fields have the widths of their types. *)
Definition rate_action_well_typed (r : RateActionRecord) : Prop :=
  length (ra_reserved0 r) = 3%nat /\
  length (ra_reserved1 r) = 32%nat /\
  is_i32 (ra_status r) /\
  Forall2 field_fits_width rate_action_layout (rate_action_fields r).

#[export] Instance rate_action_well_typed_decision r : Decision (rate_action_well_typed r).
Proof. unfold rate_action_well_typed. apply _. Defined.

Lemma rate_action_stamped_well_typed s r : is_u64 s -> rate_action_well_typed r -> rate_action_well_typed (set_rate_action_sequence s r).
Proof.
  unfold rate_action_well_typed. intros Hs Hw. destruct_and! Hw. split_and!; try done.
  rewrite <- (list_insert_id rate_action_layout 2 8%nat) by done.
  change (rate_action_fields (set_rate_action_sequence s r)) with (<[2%nat := s]> (rate_action_fields r)).
  apply Forall2_insert; [done|]. unfold field_fits_width, is_u64, u64_max in *. simpl. lia.
Qed.

(** A record survives the copy through a slot. *)
Lemma rate_action_words_roundtrip r : rate_action_well_typed r -> rate_action_of_words (rate_action_to_words r) = r.
Proof.
  intros Hw. unfold rate_action_of_words, rate_action_to_words. destruct_and! Hw.
  rewrite (unpack_words rate_action_layout (rate_action_fields r) 20) by done.
  match goal with H : Forall2 _ _ _ |- _ => clear H end.
  destruct r as [x0 x1 x2 x3 x4 x5 x6 x7 x8 x9 x10 x11 x12 x13 x14 x15 x16 x17 x18 x19 x20 x21 x22 x23 x24]. unfold rate_action_of_fields, rate_action_fields. simpl in *.
  destruct_length x21.
  rewrite ?byte_bool_byte, ?bits_i32_bits by done.
  f_equal; apply take_ge; lia.
Qed.

(** [RateActionRecord{}] *)
Definition RateActionRecord_default : RateActionRecord :=
  mkRateAction rate_action_schema_version rate_action_record_size 0 0 0 0 0 0 0 0 0 0 0 0 0 u32_max
    0 0 0 false false (replicate 3 0) 0 0 (replicate 32 0).

(** ** The ring *)

(** The tests of [read_sequence] on the candidate. *)
Definition rate_action_acceptable (sequence : Z) (candidate : RateActionRecord) : bool :=
  (ra_schema_version candidate =? rate_action_schema_version) &&
  (ra_record_size candidate =? rate_action_record_size) &&
  (ra_sequence candidate =? sequence).

(** [sizeof(Slot)]: 16 bytes of control and 160 of record, aligned to 64. *)
#[export] Instance rate_telemetry_record : RingRecord RateActionRecord := {|
  reservation := reserve_fetch_add;
  word_count := 20;
  initial_words := replicate 20 0;
  slot_size := 192;
  capacity_limit := reference_release_capacity;
  stamp := set_rate_action_sequence;
  to_words := rate_action_to_words;
  of_words := fun _ => rate_action_of_words;
  admissible := fun _ => true;
  acceptable := rate_action_acceptable;
|}.

#[export] Program Instance rate_telemetry_record_laws : RingRecordLaws RateActionRecord := {|
  well_typed := rate_action_well_typed;
  deliver := set_rate_action_sequence;
|}.
Next Obligation. simpl. lia. Qed.
Next Obligation. done. Qed.
Next Obligation. intros. apply length_bytes_to_words. Qed.
Next Obligation. intros. by apply rate_action_words_roundtrip, rate_action_stamped_well_typed. Qed.

Definition RateTelemetryRing_create (capacity : Z) : option Ring
  := ring_create (record := RateActionRecord) capacity.

Definition RateTelemetryRing_emit_step : Ring -> RateActionRecord -> bool -> EmitPc -> Ring * EmitPc :=
  emit_step.

Definition RateTelemetryRing_read_step : Ring -> Z -> ReadPc RateActionRecord -> ReadPc RateActionRecord :=
  read_step.

Definition RateTelemetryRing_emit (g : Ring) (r : RateActionRecord) : Ring * bool := emit g r.

Definition RateTelemetryRing_read_sequence (g : Ring) (sequence : Z) : option RateActionRecord :=
  read_sequence g sequence.

(** ** Counters *)

Inductive RateCounterKind : Set := rate_counter | rate_gauge.

(** [RateCounterId]; [rc_out_of_range] is a value the enum does not name. *)
Inductive RateCounterId : Set :=
| rc_due_domain_releases
| rc_executed_reference_records
| rc_late_domain_releases
| rc_caught_up_domain_releases
| rc_skipped_domain_releases
| rc_held_domain_releases
| rc_degraded_domain_releases
| rc_failed_domain_releases
| rc_optional_due_domain_releases
| rc_optional_executed_domain_releases
| rc_shed_domain_releases
| rc_shed_transitions
| rc_recovery_transitions
| rc_records_emitted
| rc_records_overwritten
| rc_records_dropped
| rc_currently_shed_domains
| rc_policy_version
| rc_rejected_reference_records
| rc_stale_reads
| rc_out_of_range (value : Z).

Definition rate_action_counter_count : nat := 20.

Definition rate_counter_index (id : RateCounterId) : nat :=
  match id with
  | rc_due_domain_releases => 0
  | rc_executed_reference_records => 1
  | rc_late_domain_releases => 2
  | rc_caught_up_domain_releases => 3
  | rc_skipped_domain_releases => 4
  | rc_held_domain_releases => 5
  | rc_degraded_domain_releases => 6
  | rc_failed_domain_releases => 7
  | rc_optional_due_domain_releases => 8
  | rc_optional_executed_domain_releases => 9
  | rc_shed_domain_releases => 10
  | rc_shed_transitions => 11
  | rc_recovery_transitions => 12
  | rc_records_emitted => 13
  | rc_records_overwritten => 14
  | rc_records_dropped => 15
  | rc_currently_shed_domains => 16
  | rc_policy_version => 17
  | rc_rejected_reference_records => 18
  | rc_stale_reads => 19
  | rc_out_of_range value => Z.to_nat value
  end%nat.

Record RateCounterDefinition := mkRateCounterDefinition {
  rd_id : RateCounterId;
  rd_kind : RateCounterKind;
  rd_name : string;
}.

Definition kDefinitions : list RateCounterDefinition :=
  [mkRateCounterDefinition rc_due_domain_releases rate_counter "rate.due_domain_releases";
   mkRateCounterDefinition rc_executed_reference_records rate_counter "rate.executed_reference_records";
   mkRateCounterDefinition rc_late_domain_releases rate_counter "rate.late_domain_releases";
   mkRateCounterDefinition rc_caught_up_domain_releases rate_counter "rate.caught_up_domain_releases";
   mkRateCounterDefinition rc_skipped_domain_releases rate_counter "rate.skipped_domain_releases";
   mkRateCounterDefinition rc_held_domain_releases rate_counter "rate.held_domain_releases";
   mkRateCounterDefinition rc_degraded_domain_releases rate_counter "rate.degraded_domain_releases";
   mkRateCounterDefinition rc_failed_domain_releases rate_counter "rate.failed_domain_releases";
   mkRateCounterDefinition rc_optional_due_domain_releases rate_counter "rate.optional_due_domain_releases";
   mkRateCounterDefinition rc_optional_executed_domain_releases rate_counter "rate.optional_executed_domain_releases";
   mkRateCounterDefinition rc_shed_domain_releases rate_counter "rate.shed_domain_releases";
   mkRateCounterDefinition rc_shed_transitions rate_counter "rate.shed_transitions";
   mkRateCounterDefinition rc_recovery_transitions rate_counter "rate.recovery_transitions";
   mkRateCounterDefinition rc_records_emitted rate_counter "rate.records_emitted";
   mkRateCounterDefinition rc_records_overwritten rate_counter "rate.records_overwritten";
   mkRateCounterDefinition rc_records_dropped rate_counter "rate.records_dropped";
   mkRateCounterDefinition rc_currently_shed_domains rate_gauge "rate.currently_shed_domains";
   mkRateCounterDefinition rc_policy_version rate_gauge "rate.policy_version";
   mkRateCounterDefinition rc_rejected_reference_records rate_counter "rate.rejected_reference_records";
   mkRateCounterDefinition rc_stale_reads rate_counter "rate.stale_reads"].

Definition RateCounterDefinition_default : RateCounterDefinition :=
  mkRateCounterDefinition rc_due_domain_releases rate_counter "".

(** The returned flag and the output parameter. *)
Definition rate_counter_definition (schema_index : nat) : bool * RateCounterDefinition :=
  match kDefinitions !! schema_index with
  | None => (false, RateCounterDefinition_default)
  | Some d => (true, d)
  end.

(** The array [values_] of [RateCounters]. *)
Definition RateCounters_set (values : list Z) (id : RateCounterId) (value : Z) : list Z :=
  if Nat.ltb (rate_counter_index id) (length values)
  then <[rate_counter_index id := value]> values else values.

Definition RateCounters_reset (policy_version : Z) : list Z :=
  RateCounters_set (replicate rate_action_counter_count 0) rc_policy_version policy_version.

(** One round of the compare-exchange loop of [add]: the value loaded is
    [current], the array may have changed since, and a weak exchange may fail.  The
    loop either returns or starts over with the value it found. *)
Definition RateCounters_add_round (values : list Z) (index : nat) (amount current : Z) (spurious : bool)
    : list Z * (bool + Z) :=
  if u64_max - current <? amount then (values, inl false)
  else if negb spurious && (values !!! index =? current)
  then (<[index := current + amount]> values, inl true)
  else (values, inr (values !!! index)).

(** [add] when no other thread writes the counter. *)
Definition RateCounters_add (values : list Z) (id : RateCounterId) (amount : Z) : list Z * bool :=
  let index := rate_counter_index id in
  if (length values <=? index)%nat || Nat.eqb index 16 || Nat.eqb index 17 then (values, false)
  else match RateCounters_add_round values index amount (values !!! index) false with
       | (values', inl result) => (values', result)
       | (values', inr _) => (values', false)
       end.

Definition RateCounters_load (values : list Z) (id : RateCounterId) : Z :=
  if Nat.ltb (rate_counter_index id) (length values) then values !!! rate_counter_index id else 0.
