(* ===== verification/MixedRateActions.v ===== *)
(** * Mixed-rate actions (rt/src/mixed_rate_actions.cpp, rt/src/mixed_rate_actions.hpp)

    The action record of the mixed-rate closure, the shape every record must have,
    and the sequence ring of SeqRing that keeps the records.  [emit] and
    [read_sequence] both refuse a record of the wrong shape. *)

From stdpp Require Import base list numbers.
From Stdlib Require Import ZArith Lia Bool.
From S2P Require Import Prelude RateTimeline CanonicalBytes SeqRing SeqRingInvariant RecordLayout.

Open Scope Z_scope.

Definition mixed_rate_action_schema_version : Z := 1.
Definition mixed_rate_action_record_size : Z := 256.

(** [Status::ok] and [Status::incompatible_abi] as integers. *)
Definition status_code_ok : Z := 0.
Definition status_code_incompatible_abi : Z := -23.

(** ** Enumerations over eight bits *)

(** [MixedRateActionId] *)
Definition mixed_action_rate_execute : Z := 1.
Definition mixed_action_rate_skip : Z := 2.
Definition mixed_action_rate_hold : Z := 3.
Definition mixed_action_rate_shed : Z := 4.
Definition mixed_action_rate_recover : Z := 5.
Definition mixed_action_device_terminal : Z := 6.
Definition mixed_action_sampled_publish : Z := 7.
Definition mixed_action_sampled_select : Z := 8.
Definition mixed_action_safe_transition : Z := 9.
Definition mixed_action_watchdog_transition : Z := 10.
Definition mixed_action_runtime_stop : Z := 11.

(** [MixedRateActionReason] *)
Definition mixed_reason_normal : Z := 1.
Definition mixed_reason_deadline_late : Z := 2.
Definition mixed_reason_already_shed : Z := 3.
Definition mixed_reason_callback_failure : Z := 4.
Definition mixed_reason_submission_rejected : Z := 5.
Definition mixed_reason_completion_error : Z := 6.
Definition mixed_reason_timeout : Z := 7.
Definition mixed_reason_canceled : Z := 8.
Definition mixed_reason_lost : Z := 9.
Definition mixed_reason_quarantined : Z := 10.
Definition mixed_reason_stale : Z := 11.
Definition mixed_reason_overrun : Z := 12.
Definition mixed_reason_underrun : Z := 13.
Definition mixed_reason_safe_acknowledged : Z := 14.
Definition mixed_reason_safe_failed : Z := 15.
Definition mixed_reason_watchdog : Z := 16.
Definition mixed_reason_late_threshold : Z := 17.
Definition mixed_reason_on_time_threshold : Z := 18.
Definition mixed_reason_cleanup_pending : Z := 19.

(** [MixedRateActionStage] *)
Definition mixed_stage_decision : Z := 1.
Definition mixed_stage_submitted : Z := 2.
Definition mixed_stage_terminal : Z := 3.
Definition mixed_stage_published : Z := 4.
Definition mixed_stage_selected : Z := 5.
Definition mixed_stage_acknowledged : Z := 6.
Definition mixed_stage_quarantined : Z := 7.

(** [MixedRateSampleFreshness] *)
Definition freshness_not_applicable : Z := 0.
Definition freshness_fresh : Z := 1.
Definition freshness_held : Z := 2.
Definition freshness_stale : Z := 3.
Definition freshness_substituted : Z := 4.

(** [MixedRateSafetyState] *)
Definition safety_not_applicable : Z := 0.
Definition safety_unknown : Z := 1.
Definition safety_startup_acknowledged : Z := 2.
Definition safety_active : Z := 3.
Definition safety_failure_acknowledged : Z := 4.
Definition safety_shutdown_acknowledged : Z := 5.

(** ** Records *)

Record MixedRateActionRecord := mkMixedAction {
  ma_schema_version : Z;
  ma_record_size : Z;
  ma_sequence : Z;
  ma_runtime_id : Z;
  ma_host_policy_version : Z;
  ma_frame_index : Z;
  ma_logical_release_ns : Z;
  ma_nominal_release_ns : Z;
  ma_release_sequence : Z;
  ma_backend_identity : Z;
  ma_batch_identity : Z;
  ma_timeline_identity : Z;
  ma_completion_generation : Z;
  ma_timestamp_domain_identity : Z;
  ma_timestamp : Z;
  ma_payload_content_identity : Z;
  ma_sampled_content_identity : Z;
  ma_sampled_sequence : Z;
  ma_sampled_age_ns : Z;
  ma_shed_state_before : Z;
  ma_shed_state_after : Z;
  ma_watchdog_identity : Z;
  ma_rate_domain_registration_index : Z;
  ma_phase_index : Z;
  ma_substep_ordinal : Z;
  ma_terminal_status : Z;
  ma_degradation_before : Z;
  ma_degradation_after : Z;
  ma_action : Z;
  ma_reason : Z;
  ma_stage : Z;
  ma_optional : bool;
  ma_late : bool;
  ma_shed : bool;
  ma_freshness : Z;
  ma_held : bool;
  ma_substituted : bool;
  ma_safety_state : Z;
  ma_reserved : list Z;
}.

#[export] Instance MixedRateActionRecord_eq_dec : EqDecision MixedRateActionRecord.
Proof. solve_decision. Defined.

(** [record.sequence = sequence] *)
Definition set_mixed_action_sequence (sequence : Z) (r : MixedRateActionRecord) : MixedRateActionRecord :=
  mkMixedAction (ma_schema_version r) (ma_record_size r) sequence (ma_runtime_id r) (ma_host_policy_version r) (ma_frame_index r) (ma_logical_release_ns r) (ma_nominal_release_ns r) (ma_release_sequence r) (ma_backend_identity r) (ma_batch_identity r) (ma_timeline_identity r) (ma_completion_generation r) (ma_timestamp_domain_identity r) (ma_timestamp r) (ma_payload_content_identity r) (ma_sampled_content_identity r) (ma_sampled_sequence r) (ma_sampled_age_ns r) (ma_shed_state_before r) (ma_shed_state_after r) (ma_watchdog_identity r) (ma_rate_domain_registration_index r) (ma_phase_index r) (ma_substep_ordinal r) (ma_terminal_status r) (ma_degradation_before r) (ma_degradation_after r) (ma_action r) (ma_reason r) (ma_stage r) (ma_optional r) (ma_late r) (ma_shed r) (ma_freshness r) (ma_held r) (ma_substituted r) (ma_safety_state r) (ma_reserved r).

(** The widths of the fields in declaration order. *)
Definition mixed_action_layout : list nat :=
  ([4; 4; 8; 8; 8; 8; 8; 8; 8; 8; 8; 8; 8; 8; 8; 8; 8; 8; 8; 8; 8; 8; 4; 4; 4; 4; 4; 4; 1; 1; 1; 1; 1; 1; 1; 1; 1; 1] ++ replicate 54 1)%nat.

Definition mixed_action_fields (r : MixedRateActionRecord) : list Z :=
  [ma_schema_version r; ma_record_size r; ma_sequence r; ma_runtime_id r; ma_host_policy_version r; ma_frame_index r; ma_logical_release_ns r; ma_nominal_release_ns r; ma_release_sequence r; ma_backend_identity r; ma_batch_identity r; ma_timeline_identity r; ma_completion_generation r; ma_timestamp_domain_identity r; ma_timestamp r; ma_payload_content_identity r; ma_sampled_content_identity r; ma_sampled_sequence r; ma_sampled_age_ns r; ma_shed_state_before r; ma_shed_state_after r; ma_watchdog_identity r; ma_rate_domain_registration_index r; ma_phase_index r; ma_substep_ordinal r; i32_bits (ma_terminal_status r); ma_degradation_before r; ma_degradation_after r; ma_action r; ma_reason r; ma_stage r; bool_byte (ma_optional r); bool_byte (ma_late r); bool_byte (ma_shed r); ma_freshness r; bool_byte (ma_held r); bool_byte (ma_substituted r); ma_safety_state r] ++
  ma_reserved r.

Definition mixed_action_of_fields (fields : list Z) : MixedRateActionRecord :=
  mkMixedAction (fields !!! 0%nat)
    (fields !!! 1%nat)
    (fields !!! 2%nat)
    (fields !!! 3%nat)
    (fields !!! 4%nat)
    (fields !!! 5%nat)
    (fields !!! 6%nat)
    (fields !!! 7%nat)
    (fields !!! 8%nat)
    (fields !!! 9%nat)
    (fields !!! 10%nat)
    (fields !!! 11%nat)
    (fields !!! 12%nat)
    (fields !!! 13%nat)
    (fields !!! 14%nat)
    (fields !!! 15%nat)
    (fields !!! 16%nat)
    (fields !!! 17%nat)
    (fields !!! 18%nat)
    (fields !!! 19%nat)
    (fields !!! 20%nat)
    (fields !!! 21%nat)
    (fields !!! 22%nat)
    (fields !!! 23%nat)
    (fields !!! 24%nat)
    (bits_i32 (fields !!! 25%nat))
    (fields !!! 26%nat)
    (fields !!! 27%nat)
    (fields !!! 28%nat)
    (fields !!! 29%nat)
    (fields !!! 30%nat)
    (byte_bool (fields !!! 31%nat))
    (byte_bool (fields !!! 32%nat))
    (byte_bool (fields !!! 33%nat))
    (fields !!! 34%nat)
    (byte_bool (fields !!! 35%nat))
    (byte_bool (fields !!! 36%nat))
    (fields !!! 37%nat)
    (take 54 (drop 38 fields)).

(** [std::bit_cast] to the words of a slot and back. *)
Definition mixed_action_to_words (r : MixedRateActionRecord) : list Z :=
  bytes_to_words 32 (pack mixed_action_layout (mixed_action_fields r)).

Definition mixed_action_of_words (words : list Z) : MixedRateActionRecord :=
  mixed_action_of_fields (unpack mixed_action_layout (words_to_bytes words)).

(** The fields have the widths of their types. *)
Definition mixed_action_well_typed (r : MixedRateActionRecord) : Prop :=
  length (ma_reserved r) = 54%nat /\
  is_i32 (ma_terminal_status r) /\
  Forall2 field_fits_width mixed_action_layout (mixed_action_fields r).

#[export] Instance mixed_action_well_typed_decision r : Decision (mixed_action_well_typed r).
Proof. unfold mixed_action_well_typed. apply _. Defined.

Lemma mixed_action_stamped_well_typed s r : is_u64 s -> mixed_action_well_typed r -> mixed_action_well_typed (set_mixed_action_sequence s r).
Proof.
  unfold mixed_action_well_typed. intros Hs Hw. destruct_and! Hw. split_and!; try done.
  rewrite <- (list_insert_id mixed_action_layout 2 8%nat) by done.
  change (mixed_action_fields (set_mixed_action_sequence s r)) with (<[2%nat := s]> (mixed_action_fields r)).
  apply Forall2_insert; [done|]. unfold field_fits_width, is_u64, u64_max in *. simpl. lia.
Qed.

(** A record survives the copy through a slot. *)
Lemma mixed_action_words_roundtrip r : mixed_action_well_typed r -> mixed_action_of_words (mixed_action_to_words r) = r.
Proof.
  intros Hw. unfold mixed_action_of_words, mixed_action_to_words. destruct_and! Hw.
  rewrite (unpack_words mixed_action_layout (mixed_action_fields r) 32) by done.
  match goal with H : Forall2 _ _ _ |- _ => clear H end.
  destruct r as [x0 x1 x2 x3 x4 x5 x6 x7 x8 x9 x10 x11 x12 x13 x14 x15 x16 x17 x18 x19 x20 x21 x22 x23 x24 x25 x26 x27 x28 x29 x30 x31 x32 x33 x34 x35 x36 x37 x38]. unfold mixed_action_of_fields, mixed_action_fields. simpl in *.
  rewrite ?byte_bool_byte, ?bits_i32_bits by done.
  f_equal; apply take_ge; lia.
Qed.

(** ** Validity *)

Definition between (value first last : Z) : bool := (first <=? value) && (value <=? last).

Definition reserved_zero (r : MixedRateActionRecord) : bool :=
  forallb (fun byte => byte =? 0) (ma_reserved r).

Definition status_valid (value : Z) : bool :=
  (value <=? status_code_ok) && (status_code_incompatible_abi <=? value).

(** The shape of a rate decision. *)
Definition rate_shape_valid (r : MixedRateActionRecord) : bool :=
  (ma_stage r =? mixed_stage_decision) &&
  (ma_phase_index r =? u32_max) && negb (ma_rate_domain_registration_index r =? u32_max) &&
  (ma_backend_identity r =? 0) &&
  (ma_freshness r =? freshness_not_applicable) &&
  (ma_safety_state r =? safety_not_applicable) &&
  Bool.eqb (ma_shed r) (ma_action r =? mixed_action_rate_shed) &&
  (negb (ma_held r) || (ma_action r =? mixed_action_rate_hold)) &&
  negb (ma_substituted r).

Definition action_shape_valid (r : MixedRateActionRecord) : bool :=
  let phase_unspecified := ma_phase_index r =? u32_max in
  let domain_unspecified := ma_rate_domain_registration_index r =? u32_max in
  if between (ma_action r) mixed_action_rate_execute mixed_action_rate_recover then rate_shape_valid r
  else if ma_action r =? mixed_action_device_terminal then
    negb phase_unspecified && negb domain_unspecified && negb (ma_backend_identity r =? 0) &&
    ((ma_stage r =? mixed_stage_terminal) || (ma_stage r =? mixed_stage_quarantined)) &&
    negb (ma_shed r)
  else if ma_action r =? mixed_action_sampled_publish then
    negb phase_unspecified && negb domain_unspecified && negb (ma_timeline_identity r =? 0) &&
    ((ma_stage r =? mixed_stage_published) || (ma_stage r =? mixed_stage_terminal)) &&
    negb (ma_shed r)
  else if ma_action r =? mixed_action_sampled_select then
    negb phase_unspecified && negb domain_unspecified && negb (ma_timeline_identity r =? 0) &&
    ((ma_stage r =? mixed_stage_selected) || (ma_stage r =? mixed_stage_terminal)) &&
    negb (ma_shed r)
  else if ma_action r =? mixed_action_safe_transition then
    negb phase_unspecified && negb domain_unspecified &&
    negb (ma_backend_identity r =? 0) && negb (ma_timeline_identity r =? 0) &&
    ((ma_stage r =? mixed_stage_acknowledged) || (ma_stage r =? mixed_stage_terminal)) &&
    (ma_freshness r =? freshness_substituted) && ma_substituted r &&
    negb (ma_safety_state r =? safety_not_applicable) && negb (ma_shed r)
  else if ma_action r =? mixed_action_watchdog_transition then
    phase_unspecified && (ma_stage r =? mixed_stage_terminal) &&
    (ma_reason r =? mixed_reason_watchdog) && negb (ma_shed r)
  else if ma_action r =? mixed_action_runtime_stop then
    phase_unspecified && domain_unspecified && (ma_stage r =? mixed_stage_terminal) &&
    ((ma_reason r =? mixed_reason_normal) || (ma_reason r =? mixed_reason_cleanup_pending)) &&
    negb (ma_shed r)
  else false.

Definition mixed_rate_action_valid (r : MixedRateActionRecord) : bool :=
  (ma_schema_version r =? mixed_rate_action_schema_version) &&
  (ma_record_size r =? mixed_rate_action_record_size) &&
  negb (ma_runtime_id r =? 0) && negb (ma_host_policy_version r =? 0) &&
  between (ma_action r) mixed_action_rate_execute mixed_action_runtime_stop &&
  between (ma_reason r) mixed_reason_normal mixed_reason_cleanup_pending &&
  between (ma_stage r) mixed_stage_decision mixed_stage_quarantined &&
  between (ma_freshness r) freshness_not_applicable freshness_substituted &&
  between (ma_safety_state r) safety_not_applicable safety_shutdown_acknowledged &&
  status_valid (ma_terminal_status r) &&
  (ma_degradation_before r <=? ma_degradation_after r) &&
  (negb (ma_substituted r) || (ma_freshness r =? freshness_substituted)) &&
  action_shape_valid r &&
  reserved_zero r.

(** ** The ring *)

Definition mixed_action_acceptable (sequence : Z) (candidate : MixedRateActionRecord) : bool :=
  (ma_sequence candidate =? sequence) && mixed_rate_action_valid candidate.

(** [sizeof(Slot)]: 16 bytes of control and 256 of record, aligned to 64. *)
#[export] Instance mixed_action_record : RingRecord MixedRateActionRecord := {|
  reservation := reserve_weak_loop;
  word_count := 32;
  initial_words := replicate 32 0;
  slot_size := 320;
  capacity_limit := reference_release_capacity;
  stamp := set_mixed_action_sequence;
  to_words := mixed_action_to_words;
  of_words := fun _ => mixed_action_of_words;
  admissible := mixed_rate_action_valid;
  acceptable := mixed_action_acceptable;
|}.

#[export] Program Instance mixed_action_record_laws : RingRecordLaws MixedRateActionRecord := {|
  well_typed := mixed_action_well_typed;
  deliver := set_mixed_action_sequence;
|}.
Next Obligation. simpl. lia. Qed.
Next Obligation. done. Qed.
Next Obligation. intros. apply length_bytes_to_words. Qed.
Next Obligation. intros. by apply mixed_action_words_roundtrip, mixed_action_stamped_well_typed. Qed.

Definition MixedRateActionRing_create (capacity : Z) : option Ring := ring_create (record := MixedRateActionRecord) capacity.

Definition MixedRateActionRing_emit_step
    : Ring -> MixedRateActionRecord -> bool -> EmitPc -> Ring * EmitPc := emit_step.

Definition MixedRateActionRing_read_step
    : Ring -> Z -> ReadPc MixedRateActionRecord -> ReadPc MixedRateActionRecord := read_step.

Definition MixedRateActionRing_emit (g : Ring) (r : MixedRateActionRecord) : Ring * bool := emit g r.

Definition MixedRateActionRing_read_sequence (g : Ring) (sequence : Z) : option MixedRateActionRecord :=
  read_sequence g sequence.

Definition MixedRateActionRing_gap_free (g : Ring) (first_sequence : Z) (count : nat) : bool :=
  gap_free (record := MixedRateActionRecord) g first_sequence count.

Definition MixedRateActionRing_restore_sequence (next_sequence : Z) (g : Ring) : Ring :=
  restore_sequence next_sequence g.
