(* ===== verification/LiveControlActions.v ===== *)
(** * Live-control actions (rt/src/live_control_actions.cpp, rt/src/live_control_actions.hpp)

    The action record of the live-control closure, the shape every record must have,
    and the sequence ring of SeqRing that keeps the records.  A number is reserved
    with one strong compare-exchange: a caller that loses the race is dropped. *)

From stdpp Require Import base list numbers.
From Stdlib Require Import ZArith Lia Bool.
From S2P Require Import Prelude CanonicalBytes SeqRing SeqRingInvariant RecordLayout.

Open Scope Z_scope.

Definition live_control_action_schema_version : Z := 1.
Definition live_control_action_record_size : Z := 256.
Definition live_control_record_capacity_limit : Z := 65536.
Definition live_control_action_capacity_limit : Z := live_control_record_capacity_limit * 4.

(** [Status::ok] and [Status::incompatible_abi] as integers. *)
Definition live_status_ok : Z := 0.
Definition live_status_incompatible_abi : Z := -23.

(** ** Enumerations over eight bits *)

(** [LiveControlTargetKind] *)
Definition target_host_frame : Z := 1.
Definition target_rate_release : Z := 2.

(** [LiveControlUpdateKind] *)
Definition update_scenario_parameters : Z := 1.
Definition update_controller_parameters : Z := 2.
Definition update_sensor_calibration : Z := 3.
Definition update_fault_configuration : Z := 4.
Definition update_clear_fault : Z := 5.

(** [LiveControlAdmissionResult] *)
Definition admitted_accepted : Z := 1.
Definition admitted_invalid : Z := 2.
Definition admitted_full : Z := 3.
Definition admitted_busy : Z := 4.
Definition admitted_stale : Z := 5.
Definition admitted_stopped : Z := 6.
Definition admitted_exhausted : Z := 7.
Definition admitted_missed : Z := 8.

(** [LiveControlRecordStatus] *)
Definition record_staged : Z := 1.
Definition record_committed : Z := 2.
Definition record_replaced : Z := 3.
Definition record_missed : Z := 4.
Definition record_stopped : Z := 5.
Definition record_rolled_back : Z := 6.

(** [LiveControlActionId] *)
Definition live_action_admission : Z := 1.
Definition live_action_boundary_empty : Z := 2.
Definition live_action_provisional_publication : Z := 3.
Definition live_action_committed : Z := 4.
Definition live_action_replaced : Z := 5.
Definition live_action_missed : Z := 6.
Definition live_action_stopped : Z := 7.
Definition live_action_rolled_back : Z := 8.
Definition live_action_checkpointed : Z := 9.
Definition live_action_replay_verified : Z := 10.

(** [LiveControlActionStage] *)
Definition live_stage_attempt : Z := 1.
Definition live_stage_provisional : Z := 2.
Definition live_stage_terminal : Z := 3.
Definition live_stage_checkpoint : Z := 4.
Definition live_stage_replay : Z := 5.

(** [LiveControlActionReason] *)
Definition live_reason_normal : Z := 1.
Definition live_reason_invalid : Z := 2.
Definition live_reason_full : Z := 3.
Definition live_reason_busy : Z := 4.
Definition live_reason_stale : Z := 5.
Definition live_reason_stopped : Z := 6.
Definition live_reason_exhausted : Z := 7.
Definition live_reason_missed : Z := 8.
Definition live_reason_replaced : Z := 9.
Definition live_reason_execution_failed : Z := 10.
Definition live_reason_checkpoint : Z := 11.
Definition live_reason_replay : Z := 12.

(** [LiveControlActionResult] *)
Definition live_result_accepted : Z := 1.
Definition live_result_rejected : Z := 2.
Definition live_result_published : Z := 3.
Definition live_result_settled : Z := 4.
Definition live_result_rolled_back : Z := 5.
Definition live_result_verified : Z := 6.

(** ** Records *)

Record LiveControlBoundaryTarget := mkTarget {
  bt_frame_index : Z;
  bt_rate_release_sequence : Z;
  bt_reference_release_index : Z;
  bt_rate_domain_registration_index : Z;
  bt_phase_index : Z;
  bt_rate_substep_ordinal : Z;
  bt_kind : Z;
  bt_reserved : list Z;
}.

#[export] Instance LiveControlBoundaryTarget_eq_dec : EqDecision LiveControlBoundaryTarget.
Proof. solve_decision. Defined.

(** [LiveControlBoundaryTarget{}] *)
Definition LiveControlBoundaryTarget_default : LiveControlBoundaryTarget :=
  mkTarget u64_max u64_max u32_max u32_max u32_max u32_max target_host_frame (replicate 7 0).

Record LiveControlActionRecord := mkLiveAction {
  la_schema_version : Z;
  la_record_size : Z;
  la_sequence : Z;
  la_runtime_id : Z;
  la_configuration_generation : Z;
  la_policy_identity : Z;
  la_target : LiveControlBoundaryTarget;
  la_mailbox_identity : Z;
  la_producer_identity : Z;
  la_mailbox_sequence : Z;
  la_producer_sequence : Z;
  la_payload_digest : Z;
  la_generation_identity : Z;
  la_prior_generation_identity : Z;
  la_checkpoint_correlation : Z;
  la_replay_correlation : Z;
  la_payload_bytes : Z;
  la_survivor_count : Z;
  la_replaced_count : Z;
  la_terminal_status : Z;
  la_update_kind : Z;
  la_admission_result : Z;
  la_record_status : Z;
  la_action : Z;
  la_stage : Z;
  la_reason : Z;
  la_result : Z;
  la_replay_eligible : bool;
  la_reserved : list Z;
}.

#[export] Instance LiveControlActionRecord_eq_dec : EqDecision LiveControlActionRecord.
Proof. solve_decision. Defined.

(** [record.sequence = sequence] *)
Definition set_live_action_sequence (sequence : Z) (r : LiveControlActionRecord) : LiveControlActionRecord :=
  mkLiveAction (la_schema_version r) (la_record_size r) sequence (la_runtime_id r) (la_configuration_generation r) (la_policy_identity r) (la_target r) (la_mailbox_identity r) (la_producer_identity r) (la_mailbox_sequence r) (la_producer_sequence r) (la_payload_digest r) (la_generation_identity r) (la_prior_generation_identity r) (la_checkpoint_correlation r) (la_replay_correlation r) (la_payload_bytes r) (la_survivor_count r) (la_replaced_count r) (la_terminal_status r) (la_update_kind r) (la_admission_result r) (la_record_status r) (la_action r) (la_stage r) (la_reason r) (la_result r) (la_replay_eligible r) (la_reserved r).

(** The widths of the fields in declaration order. *)
Definition live_action_layout : list nat :=
  ([4; 4; 8; 8; 8; 8; 8; 8; 4; 4; 4; 4; 1] ++ replicate 7 1 ++ [8; 8; 8; 8; 8; 8; 8; 8; 8; 4; 4; 4; 4; 1; 1; 1; 1; 1; 1; 1; 1] ++ replicate 80 1)%nat.

Definition live_action_fields (r : LiveControlActionRecord) : list Z :=
  [la_schema_version r; la_record_size r; la_sequence r; la_runtime_id r; la_configuration_generation r; la_policy_identity r; bt_frame_index (la_target r); bt_rate_release_sequence (la_target r); bt_reference_release_index (la_target r); bt_rate_domain_registration_index (la_target r); bt_phase_index (la_target r); bt_rate_substep_ordinal (la_target r); bt_kind (la_target r)] ++
  bt_reserved (la_target r) ++
  [la_mailbox_identity r; la_producer_identity r; la_mailbox_sequence r; la_producer_sequence r; la_payload_digest r; la_generation_identity r; la_prior_generation_identity r; la_checkpoint_correlation r; la_replay_correlation r; la_payload_bytes r; la_survivor_count r; la_replaced_count r; i32_bits (la_terminal_status r); la_update_kind r; la_admission_result r; la_record_status r; la_action r; la_stage r; la_reason r; la_result r; bool_byte (la_replay_eligible r)] ++
  la_reserved r.

Definition live_action_of_fields (fields : list Z) : LiveControlActionRecord :=
  mkLiveAction (fields !!! 0%nat)
    (fields !!! 1%nat)
    (fields !!! 2%nat)
    (fields !!! 3%nat)
    (fields !!! 4%nat)
    (fields !!! 5%nat)
    (mkTarget (fields !!! 6%nat) (fields !!! 7%nat) (fields !!! 8%nat) (fields !!! 9%nat) (fields !!! 10%nat) (fields !!! 11%nat) (fields !!! 12%nat) (take 7 (drop 13 fields)))
    (fields !!! 20%nat)
    (fields !!! 21%nat)
    (fields !!! 22%nat)
    (fields !!! 23%nat)
    (fields !!! 24%nat)
    (fields !!! 25%nat)
    (fields !!! 26%nat)
    (fields !!! 27%nat)
    (fields !!! 28%nat)
    (fields !!! 29%nat)
    (fields !!! 30%nat)
    (fields !!! 31%nat)
    (bits_i32 (fields !!! 32%nat))
    (fields !!! 33%nat)
    (fields !!! 34%nat)
    (fields !!! 35%nat)
    (fields !!! 36%nat)
    (fields !!! 37%nat)
    (fields !!! 38%nat)
    (fields !!! 39%nat)
    (byte_bool (fields !!! 40%nat))
    (take 80 (drop 41 fields)).

(** [std::bit_cast] to the words of a slot and back. *)
Definition live_action_to_words (r : LiveControlActionRecord) : list Z :=
  bytes_to_words 32 (pack live_action_layout (live_action_fields r)).

Definition live_action_of_words (words : list Z) : LiveControlActionRecord :=
  live_action_of_fields (unpack live_action_layout (words_to_bytes words)).

(** The fields have the widths of their types. *)
Definition live_action_well_typed (r : LiveControlActionRecord) : Prop :=
  length (bt_reserved (la_target r)) = 7%nat /\
  length (la_reserved r) = 80%nat /\
  is_i32 (la_terminal_status r) /\
  Forall2 field_fits_width live_action_layout (live_action_fields r).

#[export] Instance live_action_well_typed_decision r : Decision (live_action_well_typed r).
Proof. unfold live_action_well_typed. apply _. Defined.

Lemma live_action_stamped_well_typed s r : is_u64 s -> live_action_well_typed r -> live_action_well_typed (set_live_action_sequence s r).
Proof.
  unfold live_action_well_typed. intros Hs Hw. destruct_and! Hw. split_and!; try done.
  rewrite <- (list_insert_id live_action_layout 2 8%nat) by done.
  change (live_action_fields (set_live_action_sequence s r)) with (<[2%nat := s]> (live_action_fields r)).
  apply Forall2_insert; [done|]. unfold field_fits_width, is_u64, u64_max in *. simpl. lia.
Qed.

(** A record survives the copy through a slot. *)
Lemma live_action_words_roundtrip r : live_action_well_typed r -> live_action_of_words (live_action_to_words r) = r.
Proof.
  intros Hw. unfold live_action_of_words, live_action_to_words. destruct_and! Hw.
  rewrite (unpack_words live_action_layout (live_action_fields r) 32) by done.
  match goal with H : Forall2 _ _ _ |- _ => clear H end.
  destruct r as [x0 x1 x2 x3 x4 x5 [x6 x7 x8 x9 x10 x11 x12 x13] x14 x15 x16 x17 x18 x19 x20 x21 x22 x23 x24 x25 x26 x27 x28 x29 x30 x31 x32 x33 x34 x35]. unfold live_action_of_fields, live_action_fields. simpl in *.
  destruct_length x13.
  rewrite ?byte_bool_byte, ?bits_i32_bits by done.
  f_equal; apply take_ge; lia.
Qed.

(** ** Validity *)

Definition live_between (value first last : Z) : bool := (first <=? value) && (value <=? last).

Definition zero (values : list Z) : bool := forallb (fun v => v =? 0) values.

Definition live_status_valid (value : Z) : bool :=
  (value <=? live_status_ok) && (live_status_incompatible_abi <=? value).

(** No rate coordinate is set. *)
Definition no_rate_target (t : LiveControlBoundaryTarget) : bool :=
  (bt_rate_release_sequence t =? u64_max) && (bt_reference_release_index t =? u32_max) &&
  (bt_rate_domain_registration_index t =? u32_max) && (bt_phase_index t =? u32_max) &&
  (bt_rate_substep_ordinal t =? u32_max).

Definition no_target (t : LiveControlBoundaryTarget) : bool :=
  (bt_frame_index t =? u64_max) && no_rate_target t.

Definition exact_target (t : LiveControlBoundaryTarget) : bool :=
  if bt_kind t =? target_host_frame then negb (bt_frame_index t =? u64_max) && no_rate_target t
  else (bt_kind t =? target_rate_release) && (bt_frame_index t =? u64_max) &&
    negb (bt_rate_release_sequence t =? u64_max) && negb (bt_reference_release_index t =? u32_max) &&
    negb (bt_rate_domain_registration_index t =? u32_max) && negb (bt_phase_index t =? u32_max) &&
    negb (bt_rate_substep_ordinal t =? u32_max).

Definition record_identity_present (r : LiveControlActionRecord) : bool :=
  negb (la_mailbox_identity r =? 0) && negb (la_producer_identity r =? 0) &&
  negb (la_mailbox_sequence r =? 0) && negb (la_producer_sequence r =? 0) &&
  (negb (la_payload_bytes r =? 0) || (la_update_kind r =? update_clear_fault)).

Definition record_identity_absent (r : LiveControlActionRecord) : bool :=
  (la_mailbox_identity r =? 0) && (la_producer_identity r =? 0) && (la_mailbox_sequence r =? 0) &&
  (la_producer_sequence r =? 0) && (la_payload_digest r =? 0) && (la_payload_bytes r =? 0).

Definition default_record_fields (r : LiveControlActionRecord) : bool :=
  record_identity_absent r && (la_update_kind r =? update_scenario_parameters) &&
  (la_admission_result r =? admitted_accepted) && (la_record_status r =? record_staged).

Definition no_correlations (r : LiveControlActionRecord) : bool :=
  (la_checkpoint_correlation r =? 0) && (la_replay_correlation r =? 0).

Definition admission_reason (result : Z) : Z :=
  if result =? admitted_accepted then live_reason_normal
  else if result =? admitted_invalid then live_reason_invalid
  else if result =? admitted_full then live_reason_full
  else if result =? admitted_busy then live_reason_busy
  else if result =? admitted_stale then live_reason_stale
  else if result =? admitted_stopped then live_reason_stopped
  else if result =? admitted_exhausted then live_reason_exhausted
  else if result =? admitted_missed then live_reason_missed
  else live_reason_invalid.

Definition target_shape_valid (r : LiveControlActionRecord) : bool :=
  let a := la_action r in
  if a =? live_action_admission then
    if la_mailbox_identity r =? 0 then no_target (la_target r) else exact_target (la_target r)
  else if live_between a live_action_boundary_empty live_action_rolled_back then exact_target (la_target r)
  else if (a =? live_action_checkpointed) || (a =? live_action_replay_verified) then
    if la_generation_identity r =? 0 then no_target (la_target r) else exact_target (la_target r)
  else false.

Definition no_counts (r : LiveControlActionRecord) : bool :=
  (la_survivor_count r =? 0) && (la_replaced_count r =? 0).

Definition status_is_ok (r : LiveControlActionRecord) : bool := la_terminal_status r =? live_status_ok.

(** The case [admission] of the switch. *)
Definition admission_shape_valid (r : LiveControlActionRecord) : bool :=
  (la_stage r =? live_stage_attempt) &&
  ((la_result r =? live_result_accepted) || (la_result r =? live_result_rejected)) &&
  Bool.eqb (la_admission_result r =? admitted_accepted) (la_result r =? live_result_accepted) &&
  (la_generation_identity r =? 0) && (la_prior_generation_identity r =? 0) &&
  no_counts r && status_is_ok r &&
  (la_reason r =? admission_reason (la_admission_result r)) && no_correlations r &&
  (if la_admission_result r =? admitted_accepted
   then record_identity_present r && (la_record_status r =? record_staged)
   else if la_admission_result r =? admitted_missed
   then record_identity_present r && (la_record_status r =? record_missed)
   else record_identity_absent r && (la_record_status r =? record_staged)).

(** The common part of the cases of a settled record. *)
Definition settled_shape_valid (r : LiveControlActionRecord) (reason result status admission : Z) : bool :=
  (la_stage r =? live_stage_terminal) && (la_reason r =? reason) && (la_result r =? result) &&
  (la_record_status r =? status) && record_identity_present r && no_correlations r &&
  (la_admission_result r =? admission) && no_counts r.

Definition no_generation (r : LiveControlActionRecord) : bool :=
  (la_generation_identity r =? 0) && (la_prior_generation_identity r =? 0).

Definition shape_valid (r : LiveControlActionRecord) : bool :=
  let a := la_action r in
  if a =? live_action_admission then admission_shape_valid r
  else if a =? live_action_boundary_empty then
    (la_stage r =? live_stage_terminal) && (la_reason r =? live_reason_normal) &&
    (la_result r =? live_result_settled) && no_counts r &&
    (la_generation_identity r =? la_prior_generation_identity r) && status_is_ok r &&
    default_record_fields r && no_correlations r
  else if a =? live_action_provisional_publication then
    (la_stage r =? live_stage_provisional) && (la_reason r =? live_reason_normal) &&
    (la_result r =? live_result_published) && negb (la_generation_identity r =? 0) &&
    negb (la_survivor_count r =? 0) && status_is_ok r && default_record_fields r && no_correlations r
  else if a =? live_action_committed then
    settled_shape_valid r live_reason_normal live_result_settled record_committed admitted_accepted &&
    negb (la_generation_identity r =? 0) && status_is_ok r
  else if a =? live_action_replaced then
    settled_shape_valid r live_reason_replaced live_result_settled record_replaced admitted_accepted &&
    negb (la_generation_identity r =? 0) && status_is_ok r
  else if a =? live_action_missed then
    settled_shape_valid r live_reason_missed live_result_settled record_missed admitted_missed &&
    no_generation r && status_is_ok r
  else if a =? live_action_stopped then
    settled_shape_valid r live_reason_stopped live_result_settled record_stopped admitted_stopped &&
    no_generation r && status_is_ok r
  else if a =? live_action_rolled_back then
    settled_shape_valid r live_reason_execution_failed live_result_rolled_back record_rolled_back
      admitted_accepted &&
    negb (la_generation_identity r =? 0) && negb (status_is_ok r)
  else if a =? live_action_checkpointed then
    (la_stage r =? live_stage_checkpoint) && (la_reason r =? live_reason_checkpoint) &&
    (la_result r =? live_result_settled) && negb (la_checkpoint_correlation r =? 0) &&
    (la_replay_correlation r =? 0) && default_record_fields r && no_counts r && status_is_ok r
  else if a =? live_action_replay_verified then
    (la_stage r =? live_stage_replay) && (la_reason r =? live_reason_replay) &&
    negb (la_replay_correlation r =? 0) && (la_checkpoint_correlation r =? 0) &&
    (la_result r =? live_result_verified) && default_record_fields r && no_counts r && status_is_ok r
  else false.

Definition live_control_action_valid (r : LiveControlActionRecord) : bool :=
  (la_schema_version r =? live_control_action_schema_version) &&
  (la_record_size r =? live_control_action_record_size) &&
  negb (la_runtime_id r =? 0) && negb (la_configuration_generation r =? 0) &&
  negb (la_policy_identity r =? 0) &&
  live_between (la_update_kind r) update_scenario_parameters update_clear_fault &&
  live_between (la_admission_result r) admitted_accepted admitted_missed &&
  live_between (la_record_status r) record_staged record_rolled_back &&
  live_between (la_action r) live_action_admission live_action_replay_verified &&
  live_between (la_stage r) live_stage_attempt live_stage_replay &&
  live_between (la_reason r) live_reason_normal live_reason_replay &&
  live_between (la_result r) live_result_accepted live_result_verified &&
  live_status_valid (la_terminal_status r) && zero (bt_reserved (la_target r)) &&
  zero (la_reserved r) && target_shape_valid r && shape_valid r.

(** ** The ring *)

Definition live_action_acceptable (sequence : Z) (candidate : LiveControlActionRecord) : bool :=
  (la_sequence candidate =? sequence) && live_control_action_valid candidate.

(** [sizeof(Slot)]: 16 bytes of control and 256 of record, aligned to 64. *)
#[export] Instance live_action_record : RingRecord LiveControlActionRecord := {|
  reservation := reserve_strong_once;
  word_count := 32;
  initial_words := replicate 32 0;
  slot_size := 320;
  capacity_limit := live_control_action_capacity_limit;
  stamp := set_live_action_sequence;
  to_words := live_action_to_words;
  of_words := fun _ => live_action_of_words;
  admissible := live_control_action_valid;
  acceptable := live_action_acceptable;
|}.

#[export] Program Instance live_action_record_laws : RingRecordLaws LiveControlActionRecord := {|
  well_typed := live_action_well_typed;
  deliver := set_live_action_sequence;
|}.
Next Obligation. simpl. lia. Qed.
Next Obligation. done. Qed.
Next Obligation. intros. apply length_bytes_to_words. Qed.
Next Obligation. intros. by apply live_action_words_roundtrip, live_action_stamped_well_typed. Qed.

Definition LiveControlActionRing_create (capacity : Z) : option Ring :=
  ring_create (record := LiveControlActionRecord) capacity.

(** [reserve_sequence]: the load, then the exchange. *)
Definition LiveControlActionRing_reserve_step (g : Ring) (observed : Z) : Ring * EmitPc :=
  reserve_step (record := LiveControlActionRecord) g false observed.

(** [emit] is [reserve_sequence] followed by [publish_reserved]. *)
Definition LiveControlActionRing_emit_step
    : Ring -> LiveControlActionRecord -> bool -> EmitPc -> Ring * EmitPc := emit_step.

Definition LiveControlActionRing_read_step
    : Ring -> Z -> ReadPc LiveControlActionRecord -> ReadPc LiveControlActionRecord := read_step.

(** [publish_reserved] when no other call interleaves. *)
Definition LiveControlActionRing_publish_reserved (g : Ring) (r : LiveControlActionRecord) (sequence : Z)
    : Ring * bool :=
  if sequence =? invalid_sequence then (g, false)
  else
    let '(g', pc) := emit_run (word_count + 6) g r (e_claim sequence) in
    (g', match pc with e_kept _ _ => true | _ => false end).

Definition LiveControlActionRing_emit (g : Ring) (r : LiveControlActionRecord) : Ring * bool := emit g r.

Definition LiveControlActionRing_read_sequence (g : Ring) (sequence : Z) : option LiveControlActionRecord :=
  read_sequence g sequence.

Definition LiveControlActionRing_gap_free (g : Ring) (first_sequence : Z) (count : nat) : bool :=
  gap_free (record := LiveControlActionRecord) g first_sequence count.

Definition LiveControlActionRing_restore_sequence (next_sequence : Z) (g : Ring) : Ring :=
  restore_sequence next_sequence g.
