(* ===== verification/RingCursor.v ===== *)
(** * Incremental readers of the rings

    [Runtime::read_trace], [Runtime::read_rate_actions] and
    [Runtime::read_mixed_rate_actions] (rt/src/host_runtime.cpp) and
    [LiveControlMailboxSet::read_actions] (rt/src/live_control_mailbox.cpp) read a
    ring through a cursor the caller keeps: each call copies the records after the
    cursor into a buffer, counts the ones it could not read, and advances the
    cursor.  The calls are refused while a frame runs, so the ring is quiet. *)

From stdpp Require Import base list numbers.
From Stdlib Require Import ZArith Lia Bool.
From S2P Require Import Prelude SeqRing SeqRingInvariant SeqRingProgress SeqRingSequential Telemetry RateTelemetry MixedRateActions LiveControlActions.

Open Scope Z_scope.

(** ** The loop all four readers share *)

Record Drained (record : Type) : Type := mkDrained {
  dr_sequence : Z;
  dr_output : list record;
  dr_lost : Z;
}.
Arguments mkDrained {record}.
Arguments dr_sequence {record}.
Arguments dr_output {record}.
Arguments dr_lost {record}.

Section Drain.
Context {record : Type} `{!RingRecord record}.

(** [while (sequence < end && records_read < output.size())]; [fuel] bounds the
    numbers left. *)
Fixpoint drain_loop (fuel : nat) (g : Ring) (end_sequence : Z) (limit : nat) (d : Drained record)
    : Drained record :=
  match fuel with
  | O => d
  | S fuel' =>
      if (dr_sequence d <? end_sequence) && Nat.ltb (length (dr_output d)) limit then
        drain_loop fuel' g end_sequence limit
          (match read_sequence g (dr_sequence d) with
           | Some r => mkDrained (dr_sequence d + 1) (dr_output d ++ [r]) (dr_lost d)
           | None => mkDrained (dr_sequence d + 1) (dr_output d) (u64 (dr_lost d + 1))
           end)
      else d
  end.

(** The numbers that left the ring are lost at once. *)
Definition drain_start (g : Ring) (next end_sequence : Z) : Z * Z :=
  let oldest := oldest_sequence g end_sequence in
  if next <? oldest then (oldest, oldest - next) else (next, 0).

Definition drain (g : Ring) (next : Z) (limit : nat) : Drained record :=
  let end_sequence := rg_next_sequence g in
  let '(first, lost) := drain_start g next end_sequence in
  drain_loop (Z.to_nat (end_sequence - first)) g end_sequence limit (mkDrained first [] lost).
End Drain.

(** ** Cursors, results and the state the calls consult *)

Record Cursor := mkRingCursor {
  cu_schema_version : Z;
  cu_reserved0 : Z;
  cu_runtime_id : Z;
  cu_next_sequence : Z;
}.

Record ReadResult (record : Type) : Type := mkReadResult {
  re_first_sequence : Z;
  re_next_sequence : Z;
  re_records : list record;
  re_lost : Z;
  re_remaining : Z;
}.
Arguments mkReadResult {record}.
Arguments re_first_sequence {record}.
Arguments re_next_sequence {record}.
Arguments re_records {record}.
Arguments re_lost {record}.
Arguments re_remaining {record}.

Definition no_result {record} : ReadResult record := mkReadResult 0 0 [] 0 0.

Record InspectionState := mkInspection {
  in_provider_callback : bool;
  in_configuring : bool;
  in_step : bool;
  in_periodic_run : bool;
  in_replay : bool;
  in_runtime_id : Z;
}.

Definition executing (st : InspectionState) : bool := in_step st || in_periodic_run st || in_replay st.

(** Malformed, or of another runtime. *)
Definition cursor_malformed (st : InspectionState) (schema_version : Z) (c : Cursor) : bool :=
  negb (cu_schema_version c =? schema_version) || negb (cu_reserved0 c =? 0) ||
  ((cu_runtime_id c =? 0) && negb (cu_next_sequence c =? 0)) ||
  (negb (cu_runtime_id c =? 0) && negb (cu_runtime_id c =? in_runtime_id st)).

(** The result and the cursor after a drain. *)
Definition finish_read {record} (st : InspectionState) (g : Ring) (first : Z) (d : Drained record)
    (c : Cursor) : Cursor * ReadResult record :=
  (mkRingCursor (cu_schema_version c) (cu_reserved0 c) (in_runtime_id st) (dr_sequence d),
   mkReadResult first (dr_sequence d) (dr_output d) (dr_lost d) (rg_next_sequence g - dr_sequence d)).

(** The status, the cursor and the result.  The ring is absent before finalize. *)
Definition read_trace (st : InspectionState) (telemetry : option Ring) (c : Cursor) (limit : nat)
    : Status * Cursor * ReadResult RuntimeTraceEvent :=
  if in_provider_callback st then (invalid_state, c, no_result)
  else
    match telemetry with
    | Some g =>
        if in_configuring st || executing st then (invalid_state, c, no_result)
        else if cursor_malformed st observability_schema_version c then (invalid_argument, c, no_result)
        else
          let end_sequence := rg_next_sequence g in
          let fresh := cu_runtime_id c =? 0 in
          if negb fresh && (end_sequence <? cu_next_sequence c) then (invalid_argument, c, no_result)
          else
            let next := if fresh then oldest_sequence g end_sequence else cu_next_sequence c in
            let '(c', r) := finish_read st g (fst (drain_start g next end_sequence)) (drain g next limit) c in
            (ok, c', r)
    | None => (invalid_state, c, no_result)
    end.

Definition read_rate_actions (st : InspectionState) (rate_telemetry : option Ring) (c : Cursor) (limit : nat)
    : Status * Cursor * ReadResult RateActionRecord :=
  if in_provider_callback st then (invalid_state, c, no_result)
  else
    match rate_telemetry with
    | Some g =>
        if in_configuring st || executing st then (invalid_state, c, no_result)
        else if cursor_malformed st rate_action_schema_version c then (invalid_argument, c, no_result)
        else
          let end_sequence := rg_next_sequence g in
          if negb (cu_runtime_id c =? 0) && (end_sequence <? cu_next_sequence c)
          then (invalid_argument, c, no_result)
          else
            let next := cu_next_sequence c in
            let '(c', r) := finish_read st g (fst (drain_start g next end_sequence)) (drain g next limit) c in
            (ok, c', r)
    | None => (invalid_state, c, no_result)
    end.

(** [mixed_rate_action_metadata] makes the first tests of this call. *)
Definition read_mixed_rate_actions (st : InspectionState) (mixed_rate_actions : option Ring)
    (closure_policy_set : bool) (c : Cursor) (limit : nat)
    : Status * Cursor * ReadResult MixedRateActionRecord :=
  if in_provider_callback st then (invalid_state, c, no_result)
  else
    match mixed_rate_actions with
    | Some g =>
        if in_configuring st || negb closure_policy_set || executing st
        then (invalid_state, c, no_result)
        else if cursor_malformed st mixed_rate_action_schema_version c
        then (invalid_argument, c, no_result)
        else
          let end_sequence := rg_next_sequence g in
          if negb (cu_runtime_id c =? 0) && (end_sequence <? cu_next_sequence c)
          then (invalid_argument, c, no_result)
          else
            let next := cu_next_sequence c in
            let '(c', r) := finish_read st g (fst (drain_start g next end_sequence)) (drain g next limit) c in
            (ok, c', r)
    | None => (invalid_state, c, no_result)
    end.

(** The live-control cursor also names a configuration generation. *)
Record LiveCursor := mkLiveCursor {
  lc_schema_version : Z;
  lc_reserved32 : Z;
  lc_runtime_id : Z;
  lc_configuration_generation : Z;
  lc_next_sequence : Z;
}.

(** [actions] is absent without a closure. *)
Definition read_actions (runtime_id configuration_generation : Z) (actions : option Ring)
    (c : LiveCursor) (limit : nat) : Status * LiveCursor * ReadResult LiveControlActionRecord :=
  match actions with
  | None => (invalid_state, c, no_result)
  | Some g =>
      if negb (lc_schema_version c =? live_control_action_schema_version) ||
         negb (lc_reserved32 c =? 0)
      then (invalid_argument, c, no_result)
      else
        let fresh := (lc_runtime_id c =? 0) && (lc_configuration_generation c =? 0) &&
                     (lc_next_sequence c =? 0) in
        if negb fresh && (negb (lc_runtime_id c =? runtime_id) ||
             negb (lc_configuration_generation c =? configuration_generation))
        then (invalid_argument, c, no_result)
        else
          let end_sequence := rg_next_sequence g in
          let next := if fresh then oldest_sequence g end_sequence else lc_next_sequence c in
          if end_sequence <? next then (invalid_argument, c, no_result)
          else
            let d := drain g next limit in
            (ok,
             mkLiveCursor (lc_schema_version c) (lc_reserved32 c) runtime_id configuration_generation
               (dr_sequence d),
             mkReadResult (fst (drain_start g next end_sequence)) (dr_sequence d) (dr_output d)
               (dr_lost d) (end_sequence - dr_sequence d))
  end.

(** * Incremental readers: accounting and completeness

    What one call of a reader takes from a quiet ring, and what repeated calls
    return. *)

Open Scope Z_scope.

Section Drain.
Context {record : Type} `{!RingRecord record}.
Implicit Types (g : Ring) (d : Drained record).

Lemma drain_loop_accounts fuel g end_sequence limit d next :
  0 <= next <= dr_sequence d -> dr_sequence d <= end_sequence <= u64_max ->
  dr_lost d + Z.of_nat (length (dr_output d)) = dr_sequence d - next -> 0 <= dr_lost d ->
  (Z.to_nat (end_sequence - dr_sequence d) <= fuel)%nat -> (length (dr_output d) <= limit)%nat ->
  let d' := drain_loop fuel g end_sequence limit d in
  dr_sequence d <= dr_sequence d' <= end_sequence /\
  dr_lost d' + Z.of_nat (length (dr_output d')) = dr_sequence d' - next /\ 0 <= dr_lost d' /\
  (length (dr_output d') <= limit)%nat /\
  (dr_sequence d' = end_sequence \/ length (dr_output d') = limit).
Proof.
  revert d. induction fuel as [|fuel IH]; intros d Hn He Hl H0 Hf Hlim; simpl; [split_and!; try done; lia|].
  destruct (Z.ltb_spec (dr_sequence d) end_sequence) as [Hlt|Hge]; simpl; [|split_and!; try done; lia].
  destruct (Nat.ltb_spec (length (dr_output d)) limit) as [Hlt'|Hge']; [|split_and!; try done; lia].
  destruct (read_sequence g (dr_sequence d)) as [r|].
  - destruct (IH (mkDrained (dr_sequence d + 1) (dr_output d ++ [r]) (dr_lost d)))
      as (H1 & H2 & H3 & H4 & H5); simpl; rewrite ?length_app; simpl; try lia.
    split_and!; try done; simpl in *; lia.
  - assert (u64 (dr_lost d + 1) = dr_lost d + 1) as ->.
    { apply u64_small. unfold is_u64. lia. }
    destruct (IH (mkDrained (dr_sequence d + 1) (dr_output d) (dr_lost d + 1)))
      as (H1 & H2 & H3 & H4 & H5); simpl; try lia.
    split_and!; try done; simpl in *; lia.
Qed.

(** Every number between the old and the new cursor is delivered or lost. *)
Lemma drain_accounts g next limit :
  0 <= next <= rg_next_sequence g -> rg_next_sequence g <= u64_max ->
  let d := drain g next limit in
  next <= dr_sequence d <= rg_next_sequence g /\
  dr_lost d + Z.of_nat (length (dr_output d)) = dr_sequence d - next /\
  (length (dr_output d) <= limit)%nat /\
  (dr_sequence d = rg_next_sequence g \/ length (dr_output d) = limit).
Proof.
  intros Hn Hmax. unfold drain, drain_start, oldest_sequence.
  set (oldest := if Z.of_nat (capacity g) <? rg_next_sequence g
                 then rg_next_sequence g - Z.of_nat (capacity g) else 0).
  assert (Ho : 0 <= oldest <= rg_next_sequence g)
    by (unfold oldest; destruct (Z.ltb_spec (Z.of_nat (capacity g)) (rg_next_sequence g)); lia).
  destruct (Z.ltb_spec next oldest).
  - destruct (drain_loop_accounts (Z.to_nat (rg_next_sequence g - oldest)) g (rg_next_sequence g) limit
      (mkDrained oldest [] (oldest - next)) next) as (H1 & H2 & _ & H3); simpl in *; try lia.
  - destruct (drain_loop_accounts (Z.to_nat (rg_next_sequence g - next)) g (rg_next_sequence g) limit
      (mkDrained next [] 0) next) as (H1 & H2 & _ & H3); simpl in *; try lia.
Qed.

(** ** A ring filled by one thread *)

Context `{!RingRecordLaws record}.

(** The delivered records from position [a] on. *)
Definition delivered_from (rs : list record) (a k : nat) : list record :=
  imap (fun i r => deliver (Z.of_nat (a + i)) r) (take k (drop a rs)).

Lemma length_delivered_from rs a k : (a + k <= length rs)%nat -> length (delivered_from rs a k) = k.
Proof. intros. unfold delivered_from. rewrite length_imap, length_take, length_drop. lia. Qed.

Lemma delivered_from_S rs a k r :
  rs !! (a + k)%nat = Some r ->
  delivered_from rs a (S k) = delivered_from rs a k ++ [deliver (Z.of_nat (a + k)) r].
Proof.
  intros Hr. unfold delivered_from. rewrite (take_S_r _ k r) by (by rewrite lookup_drop).
  rewrite imap_app. simpl. do 3 f_equal.
  rewrite length_take, length_drop. apply lookup_lt_Some in Hr. lia.
Qed.

Lemma delivered_from_app rs a j k :
  (a + j <= length rs)%nat ->
  delivered_from rs a j ++ delivered_from rs (a + j) k = delivered_from rs a (j + k).
Proof.
  intros Hj. unfold delivered_from. rewrite <- take_take_drop, drop_drop, imap_app. f_equal.
  apply imap_ext. intros i r _. f_equal. rewrite length_take, length_drop. lia.
Qed.

(** Records no reader refuses. *)
Definition readable_all (rs : list record) : Prop :=
  forall i r, rs !! i = Some r -> well_typed r /\ acceptable (Z.of_nat i) (deliver (Z.of_nat i) r) = true.

Lemma drain_loop_window rs g limit fuel a j :
  retains 0 rs g -> capacity g <> 0%nat -> Z.of_nat (length rs) <= u64_max -> readable_all rs ->
  (length rs <= a + capacity g)%nat -> (a + j + fuel = length rs)%nat -> (j <= limit)%nat ->
  drain_loop fuel g (rg_next_sequence g) limit
    (mkDrained (Z.of_nat (a + j)) (delivered_from rs a j) 0) =
  mkDrained (Z.of_nat (a + Nat.min limit (length rs - a))) (delivered_from rs a (Nat.min limit (length rs - a))) 0.
Proof.
  intros Hret Hc Hmax Hok Ha. revert j. induction fuel as [|fuel IH]; intros j Hj Hlim; simpl.
  - assert (Nat.min limit (length rs - a) = j) as -> by lia. done.
  - rewrite (rt_next _ _ _ Hret). rewrite (proj2 (Z.ltb_lt _ _)) by lia. simpl.
    rewrite length_delivered_from by lia.
    destruct (Nat.ltb_spec j limit) as [Hlt|Hge]; [|by assert (Nat.min limit (length rs - a) = j) as -> by lia].
    destruct (lookup_lt_is_Some_2 rs (a + j)) as [r Hr]; [lia|].
    rewrite (retains_read 0 rs g (Z.of_nat (a + j))) by (done || unfold invalid_sequence; lia).
    rewrite (proj2 (Z.leb_le _ _)), (proj2 (Z.leb_le _ _)) by lia. simpl.
    rewrite Z.sub_0_r, Nat2Z.id, Hr. simpl.
    rewrite <- delivered_from_S by done.
    replace (Z.of_nat (a + j) + 1) with (Z.of_nat (a + S j)) by lia.
    rewrite <- (rt_next _ _ _ Hret). apply IH; lia.
Qed.

(** One call reads the next records of the window, as many as the buffer holds. *)
Lemma drain_window rs g limit a :
  retains 0 rs g -> capacity g <> 0%nat -> Z.of_nat (length rs) <= u64_max -> readable_all rs ->
  (a <= length rs <= a + capacity g)%nat ->
  drain g (Z.of_nat a) limit =
  mkDrained (Z.of_nat (a + Nat.min limit (length rs - a))) (delivered_from rs a (Nat.min limit (length rs - a))) 0.
Proof.
  intros Hret Hc Hmax Hok Ha. unfold drain, drain_start, oldest_sequence. rewrite (rt_next _ _ _ Hret).
  assert ((Z.of_nat a <? (if Z.of_nat (capacity g) <? 0 + Z.of_nat (length rs)
             then 0 + Z.of_nat (length rs) - Z.of_nat (capacity g) else 0)) = false) as ->.
  { apply Z.ltb_ge. case_match; lia. }
  rewrite <- (rt_next _ _ _ Hret) at 2.
  replace (Z.to_nat (0 + Z.of_nat (length rs) - Z.of_nat a)) with (length rs - a)%nat by lia.
  pose proof (drain_loop_window rs g limit (length rs - a) a 0 Hret Hc Hmax Hok ltac:(lia) ltac:(lia) ltac:(lia)) as H.
  rewrite Nat.add_0_r in H. done.
Qed.
End Drain.
