(* ===== verification/RingTheorems.v ===== *)
(** * Sequence rings: claims

    Whole records, exact statistics, calls that return, and the window of records a
    ring keeps, for the four rings of rt/src through the interface of SeqRing. *)

From stdpp Require Import base list numbers.
From Stdlib Require Import ZArith Lia Bool.
From S2P Require Import Prelude SeqRing SeqRingInvariant SeqRingProgress SeqRingSequential Telemetry RateTelemetry MixedRateActions RingCursor.

Open Scope Z_scope.

(** ** Concurrent calls *)

Section Rings.
Context {record : Type} `{!RingRecord record, !RingRecordLaws record}.

(** C23. However the accesses of any number of [emit] and [read_sequence] calls interleave, a read
    that succeeds returns one whole record: the one emitted under that number, by the only call that
    was ever given the number. *)
Theorem ring_reads_whole base g events i s v :
  ring_fresh base g -> no_wrap base (run (mkSystem g []) events) -> s <> invalid_sequence ->
  (forall j r pc, sys_threads (run (mkSystem g []) events) !! j = Some (emitter r pc) -> well_typed r) ->
  sys_threads (run (mkSystem g []) events) !! i = Some (reader s (r_done (Some v))) ->
  acceptable s v = true /\
  exists j r pc,
    sys_threads (run (mkSystem g []) events) !! j = Some (emitter r pc) /\
    published pc = Some s /\ v = deliver s r /\
    forall j' r' pc', sys_threads (run (mkSystem g []) events) !! j' = Some (emitter r' pc') ->
      assigned pc' = Some s -> j' = j.
Proof.
  intros Hf Hw Hs Hty Hi. pose proof (ring_inv_run base g events Hf Hw) as Hinv.
  set (y := run (mkSystem g []) events) in *.
  destruct (inv_reader _ _ Hinv _ _ _ Hi) as [Hacc Hr]. split; [done|].
  destruct (Hr Hs) as (r & (j & pc & Hj & Hp) & ->). exists j, r, pc.
  pose proof (inv_assigned _ _ Hinv _ _ _ _ Hj (published_assigned _ _ Hp)).
  pose proof (inv_next _ _ Hinv). pose proof (fresh_base _ _ Hf). split_and!; [done|done| |].
  - apply of_words_to_words; [unfold is_u64; lia|by eapply Hty].
  - intros j' r' pc' Hj' Ha'. eapply (inv_unique _ _ Hinv); [done|done|done|by apply published_assigned].
Qed.

(** When all calls have returned, every call is counted exactly once as emitted or dropped, the
    slots in use are the emitted records that no later one overwrote, and no slot is left claimed. *)
Theorem ring_accounting base g events :
  ring_fresh base g -> no_wrap base (run (mkSystem g []) events) ->
  Z.of_nat (emit_calls (sys_threads (run (mkSystem g []) events))) <= u64_max ->
  Forall returned (sys_threads (run (mkSystem g []) events)) ->
  let g' := sys_ring (run (mkSystem g []) events) in
  rg_emitted g' + rg_dropped g' = Z.of_nat (emit_calls (sys_threads (run (mkSystem g []) events))) /\
  Z.of_nat (committed_slots g') + rg_overwritten g' = rg_emitted g' /\
  Forall (fun sl => sl_writer sl = false) (rg_slots g').
Proof.
  intros Hf Hw Hc Hq. pose proof (ring_inv_run base g events Hf Hw) as Hinv.
  destruct (accounts_run base g events Hf Hw Hc) as [A1 A2 A3 A4 _].
  set (y := run (mkSystem g []) events) in *. cbv zeta. rewrite A1, A2, A3.
  split_and!.
  - rewrite <- Nat2Z.inj_add. f_equal. unfold emit_calls.
    clear -Hq. induction Hq as [|t ts Ht _ IH]; simpl; [done|].
    destruct t as [r []|s []]; simpl in *; try done; lia.
  - assert (sum_list_with (of_emitter has_published) (sys_threads y) =
            sum_list_with (of_emitter has_counted) (sys_threads y) /\
            sum_list_with (of_emitter (fun pc => is_valid (previous_of pc))) (sys_threads y) =
            sum_list_with (of_emitter has_counted_overwrite) (sys_threads y)) as [E1 E2]; [|lia].
    clear -Hq. induction Hq as [|t ts Ht _ [IH1 IH2]]; simpl; [done|].
    destruct t as [r []|s []]; simpl in *; try done; rewrite ?IH1, ?IH2; done.
  - apply Forall_lookup. intros k sl Hk. destruct (inv_slot _ _ Hinv _ _ Hk) as (_ & _ & H).
    destruct (sl_writer sl); [|done]. destruct (H eq_refl) as (i & r & pc & s & Hi & Hh & _).
    apply (Forall_lookup_1 _ _ _ _ Hq) in Hi. by destruct pc.
Qed.

(** C26. No call waits for another one: a call of [emit] or [read_sequence] has returned once it was
    given its turns, whatever the other threads did in between and wherever they stopped.  The bound
    is fixed where the reservation is a single access; the compare-exchange loop adds one turn per
    competing call and per spurious failure. *)
Theorem ring_calls_return (y : System record) i t events :
  sys_threads y !! i = Some t -> (emit_bound y i events <= turns i events)%nat ->
  exists t', sys_threads (run y events) !! i = Some t' /\ returned t'.
Proof. apply calls_return. Qed.

(** A ring filled by one thread keeps exactly the last [capacity] records: a number is readable
    if and only if it is one of them, the record comes back as it was emitted, and the statistics
    count what was emitted and what was overwritten. *)
Theorem ring_retains_last base g rs s :
  ring_fresh base g -> capacity g <> 0%nat -> base + Z.of_nat (length rs) <= u64_max ->
  (forall i r, rs !! i = Some r -> well_typed r /\
     admissible (stamp (base + Z.of_nat i) r) = true /\
     acceptable (base + Z.of_nat i) (deliver (base + Z.of_nat i) r) = true) ->
  s <> invalid_sequence ->
  let g' := emit_all g rs in
  read_sequence g' s =
    (if (base + Z.of_nat (length rs) - Z.of_nat (capacity g) <=? s) && (base <=? s)
     then deliver s <$> rs !! Z.to_nat (s - base) else None) /\
  rg_next_sequence g' = base + Z.of_nat (length rs) /\
  rg_emitted g' = Z.of_nat (length rs) /\
  rg_overwritten g' = Z.of_nat (length rs - capacity g) /\ rg_dropped g' = 0.
Proof.
  intros Hf Hc Hmax Hok Hs. pose proof (fresh_base _ _ Hf).
  destruct (retains_all base rs g Hf Hc Hmax) as [Hret Hcap]; [naive_solver|]. cbv zeta.
  pose proof (rt_statistics _ _ _ Hret) as (E1 & E2 & E3). rewrite Hcap in E2.
  split_and!; [|by apply rt_next|done|done|done]. rewrite <- Hcap.
  apply retains_read; [done|by rewrite Hcap|lia|done| |done]. naive_solver.
Qed.
End Rings.

(** ** The trace ring as a window *)

(** The abstract trace: the last [c] events, as readers see them. *)
Definition trace_window (c : nat) (es : list RuntimeTraceEvent) : list RuntimeTraceEvent :=
  delivered_from es (length es - c) (length es).

Lemma readable_events (es : list RuntimeTraceEvent) : readable_all es.
Proof. intros i e _. split; done. Qed.

Lemma retains_events c g (es : list RuntimeTraceEvent) :
  TelemetryRing_create c = Some g -> capacity g <> 0%nat -> Z.of_nat (length es) <= u64_max ->
  retains 0 es (emit_all g es) /\ capacity (emit_all g es) = capacity g.
Proof. intros Hg Hc Hl. apply retains_all; [by eapply ring_create_fresh|done|lia|done]. Qed.

(** Reading the numbers in reach, oldest first, gives the window. *)
Lemma reachable_window g (es : list RuntimeTraceEvent) :
  retains 0 es g -> capacity g <> 0%nat -> Z.of_nat (length es) <= u64_max ->
  TelemetryRing_read_sequence g <$> reachable_sequences g = Some <$> trace_window (capacity g) es.
Proof.
  intros Hret Hc Hl. unfold reachable_sequences, oldest_sequence. rewrite (rt_next _ _ _ Hret), Z.add_0_l.
  set (a := (length es - capacity g)%nat).
  assert ((if Z.of_nat (capacity g) <? Z.of_nat (length es)
           then Z.of_nat (length es) - Z.of_nat (capacity g) else 0) = Z.of_nat a) as ->.
  { destruct (Z.ltb_spec (Z.of_nat (capacity g)) (Z.of_nat (length es))); lia. }
  replace (Z.to_nat (Z.of_nat (length es) - Z.of_nat a)) with (length es - a)%nat by lia.
  apply list_eq. intros i. rewrite !list_lookup_fmap. unfold trace_window, delivered_from. fold a.
  rewrite list_lookup_imap, take_ge by (rewrite length_drop; lia). rewrite lookup_drop.
  destruct (decide (i < length es - a)%nat) as [Hi|Hi].
  - rewrite lookup_seq_lt by done. simpl.
    destruct (lookup_lt_is_Some_2 es (a + i)) as [e He]; [lia|].
    unfold TelemetryRing_read_sequence.
    rewrite (retains_read 0 es g (Z.of_nat a + Z.of_nat i)) by (done || unfold invalid_sequence; lia).
    rewrite (proj2 (Z.leb_le _ _)), (proj2 (Z.leb_le _ _)) by lia. simpl.
    replace (Z.to_nat (Z.of_nat a + Z.of_nat i - 0)) with (a + i)%nat by lia.
    rewrite He. simpl. do 3 f_equal. lia.
  - rewrite lookup_seq_ge by lia. rewrite lookup_ge_None_2 by lia. done.
Qed.

Lemma count_window g ss w :
  TelemetryRing_read_sequence g <$> ss = Some <$> w ->
  sum_list_with (fun s => match TelemetryRing_read_sequence g s with Some _ => 1%nat | None => 0%nat end) ss =
  length w.
Proof.
  revert w. induction ss as [|s ss IH]; intros [|e w] Hw; csimpl in *; try done.
  injection Hw as He Hw. by rewrite He, (IH w Hw).
Qed.

Lemma event_at_loop_window g ss w found index :
  TelemetryRing_read_sequence g <$> ss = Some <$> w -> (found <= index)%nat ->
  event_at_loop g ss found index = w !! (index - found)%nat.
Proof.
  revert w found. induction ss as [|s ss IH]; intros [|e w] found Hw Hf; csimpl in *; try done.
  injection Hw as He Hw. rewrite He. destruct (Nat.eqb_spec found index) as [->|Hne].
  - by rewrite Nat.sub_diag.
  - rewrite (IH w) by (done || lia). by replace (index - found)%nat with (S (index - S found)) by lia.
Qed.

(** C37. The trace ring refines a list bounded to its capacity: after any sequence of events,
    [retained_count] is the length of the window of the last events, [event_at] is its lookup in
    chronological order, and the counters split the events into kept and overwritten ones. *)
Theorem telemetry_window c g (es : list RuntimeTraceEvent) :
  TelemetryRing_create c = Some g -> 0 < c -> Z.of_nat (length es) <= u64_max ->
  let g' := emit_all g es in
  let w := trace_window (Z.to_nat c) es in
  retained_count g' = length w /\ (forall i, event_at g' i = w !! i) /\
  length w = Nat.min (Z.to_nat c) (length es) /\
  rg_emitted g' = Z.of_nat (length es) /\
  rg_overwritten g' = Z.of_nat (length es) - Z.of_nat (length w).
Proof.
  intros Hg Hc Hl.
  assert (Hcap : capacity g = Z.to_nat c).
  { unfold TelemetryRing_create, ring_create in Hg. case_match; [done|]. simplify_eq. unfold capacity. simpl.
    apply length_replicate. }
  destruct (retains_events c g es Hg ltac:(lia) Hl) as [Hret Hcap']. cbv zeta.
  pose proof (reachable_window _ _ Hret ltac:(lia) Hl) as Hw. rewrite Hcap', Hcap in Hw.
  set (w := trace_window (Z.to_nat c) es) in *.
  assert (Hlen : length w = Nat.min (Z.to_nat c) (length es)).
  { unfold w, trace_window, delivered_from. rewrite length_imap, length_take, length_drop. lia. }
  destruct (rt_statistics _ _ _ Hret) as (E1 & E2 & _). split_and!.
  - by apply count_window.
  - intros i. unfold event_at. rewrite (event_at_loop_window _ _ w) by (done || lia). by rewrite Nat.sub_0_r.
  - done.
  - done.
  - rewrite E2, Hcap'. lia.
Qed.

(** ** Readers with a cursor *)

(** [k] calls of [read_trace] with a buffer of [limit] events: the cursor after them and everything
    they returned. *)
Fixpoint read_trace_times (k : nat) (st : InspectionState) (g : Ring) (c : Cursor) (limit : nat)
    : Cursor * list RuntimeTraceEvent :=
  match k with
  | O => (c, [])
  | S k' =>
      let '(_, c', r) := read_trace st (Some g) c limit in
      let '(c'', rest) := read_trace_times k' st g c' limit in
      (c'', re_records r ++ rest)
  end.

(** A runtime that can be inspected. *)
Definition inspectable (st : InspectionState) : Prop :=
  in_provider_callback st = false /\ in_configuring st = false /\ executing st = false /\
  in_runtime_id st <> 0.

Definition fresh_cursor : Cursor := mkRingCursor observability_schema_version 0 0 0.

Lemma read_trace_continues st g (es : list RuntimeTraceEvent) a limit :
  inspectable st -> retains 0 es g -> capacity g <> 0%nat -> Z.of_nat (length es) <= u64_max ->
  (a <= length es <= a + capacity g)%nat ->
  read_trace st (Some g) (mkRingCursor observability_schema_version 0 (in_runtime_id st) (Z.of_nat a)) limit =
  let n := Nat.min limit (length es - a) in
  (ok, mkRingCursor observability_schema_version 0 (in_runtime_id st) (Z.of_nat (a + n)),
   mkReadResult (Z.of_nat a) (Z.of_nat (a + n)) (delivered_from es a n) 0
     (Z.of_nat (length es) - Z.of_nat (a + n))).
Proof.
  intros (H1 & H2 & H3 & H4) Hret Hc Hl Ha. unfold read_trace, cursor_malformed. simpl.
  rewrite H1, H2, H3, (proj2 (Z.eqb_neq _ _) H4), Z.eqb_refl. simpl.
  rewrite (rt_next _ _ _ Hret). rewrite (proj2 (Z.ltb_ge _ _)) by lia. simpl.
  rewrite (drain_window es) by (done || lia).
  assert (fst (drain_start g (Z.of_nat a) (0 + Z.of_nat (length es))) = Z.of_nat a) as ->.
  { unfold drain_start, oldest_sequence. rewrite (proj2 (Z.ltb_ge _ _)); [done|]. case_match; lia. }
  done.
Qed.

Lemma read_trace_times_window k st g (es : list RuntimeTraceEvent) a limit :
  inspectable st -> retains 0 es g -> capacity g <> 0%nat -> Z.of_nat (length es) <= u64_max ->
  (a <= length es <= a + capacity g)%nat -> (0 < limit)%nat -> (length es - a <= k)%nat ->
  read_trace_times k st g (mkRingCursor observability_schema_version 0 (in_runtime_id st) (Z.of_nat a)) limit =
  (mkRingCursor observability_schema_version 0 (in_runtime_id st) (Z.of_nat (length es)),
   delivered_from es a (length es - a)).
Proof.
  intros Hst Hret Hc Hl. revert a. induction k as [|k IH]; intros a Ha Hlim Hk.
  - simpl. assert (a = length es) as -> by lia. rewrite Nat.sub_diag. done.
  - cbn [read_trace_times]. rewrite (read_trace_continues st g es) by done. cbv zeta beta iota.
    set (n := Nat.min limit (length es - a)). rewrite (IH (a + n)%nat) by lia. cbn [re_records].
    f_equal. replace (length es - (a + n))%nat with ((length es - a) - n)%nat by lia.
    rewrite delivered_from_app by lia. f_equal. lia.
Qed.

(** A reader that keeps calling [read_trace] with any non-empty buffer reaches the end of the
    trace: after as many calls as the ring has slots the cursor is at the last event, and the calls
    have returned the window of retained events, each once and in order. *)
Theorem trace_cursor_drains c g (es : list RuntimeTraceEvent) st limit k :
  TelemetryRing_create c = Some g -> 0 < c -> Z.of_nat (length es) <= u64_max ->
  inspectable st -> (0 < limit)%nat -> (Z.to_nat c < k)%nat ->
  read_trace_times k st (emit_all g es) fresh_cursor limit =
  (mkRingCursor observability_schema_version 0 (in_runtime_id st) (Z.of_nat (length es)),
   trace_window (Z.to_nat c) es).
Proof.
  intros Hg Hc Hl Hst Hlim Hk.
  assert (Hcap : capacity g = Z.to_nat c).
  { unfold TelemetryRing_create, ring_create in Hg. case_match; [done|]. simplify_eq. unfold capacity. simpl.
    apply length_replicate. }
  destruct (retains_events c g es Hg ltac:(lia) Hl) as [Hret Hcap'].
  set (a := (length es - Z.to_nat c)%nat).
  assert (Hfirst : read_trace st (Some (emit_all g es)) fresh_cursor limit =
    read_trace st (Some (emit_all g es))
      (mkRingCursor observability_schema_version 0 (in_runtime_id st) (Z.of_nat a)) limit).
  { unfold read_trace, cursor_malformed, fresh_cursor. destruct Hst as (H1 & H2 & H3 & H4). simpl.
    rewrite H1, H2, H3, (proj2 (Z.eqb_neq _ _) H4), Z.eqb_refl. simpl.
    rewrite (rt_next _ _ _ Hret). rewrite (proj2 (Z.ltb_ge _ (Z.of_nat a))) by lia.
    assert (oldest_sequence (emit_all g es) (0 + Z.of_nat (length es)) = Z.of_nat a) as ->.
    { unfold oldest_sequence. rewrite Hcap', Hcap.
      destruct (Z.ltb_spec (Z.of_nat (Z.to_nat c)) (0 + Z.of_nat (length es))); lia. }
    done. }
  destruct k as [|k]; [lia|]. cbn [read_trace_times]. rewrite Hfirst.
  pose proof (read_trace_times_window (S k) st (emit_all g es) es a limit Hst Hret ltac:(lia) Hl
    ltac:(lia) Hlim ltac:(lia)) as H.
  cbn [read_trace_times] in H. rewrite H. f_equal. unfold trace_window. fold a. unfold delivered_from.
  by rewrite !take_ge by (rewrite length_drop; lia).
Qed.

(** ** Concrete runs *)

Definition example_event : RuntimeTraceEvent :=
  mkTraceEvent 2 64 trace_watchdog_fired 0 producer_host 0 0 100 7 1 2 3 0.

Definition example_ring : Ring :=
  mkRing (replicate 1 (empty_slot (record := RuntimeTraceEvent))) 0 0 0 0.

Lemma example_ring_created : TelemetryRing_create 1 = Some example_ring.
Proof. done. Qed.

(** Two writers meet in the only slot while a reader waits for number zero: the second writer finds
    the slot claimed and is dropped. *)
Definition example_events : list (Event RuntimeTraceEvent) :=
  [call_emit example_event; call_emit RuntimeTraceEvent_default; call_read 0] ++
  replicate 4 (turn 0 false) ++ replicate 3 (turn 1 false) ++ replicate 13 (turn 0 false) ++
  replicate 12 (turn 2 false).

Lemma ring_reads_whole_witness :
  exists j r pc, sys_threads (run (mkSystem example_ring []) example_events) !! j = Some (emitter r pc) /\ published pc = Some 0 /\
    delivered_event 0 example_event = delivered_event 0 r.
Proof.
  destruct (ring_reads_whole 0 example_ring example_events 2 0 (delivered_event 0 example_event))
    as (_ & j & r & pc & Hj & Hp & Hd & _).
  - apply (ring_create_fresh (record := RuntimeTraceEvent) 1). reflexivity.
  - intros _. vm_compute. discriminate.
  - discriminate.
  - intros ? ? ? _. exact I.
  - vm_compute. reflexivity.
  - exists j, r, pc. split; [exact Hj|]. split; [exact Hp|exact Hd].
Defined.

Lemma example_returned : Forall returned (sys_threads (run (mkSystem example_ring []) example_events)).
Proof. vm_compute. repeat constructor. Qed.

Lemma ring_accounting_witness :
  (rg_emitted (sys_ring (run (mkSystem example_ring []) example_events)) = 1 /\ rg_dropped (sys_ring (run (mkSystem example_ring []) example_events)) = 1) /\
  rg_emitted (sys_ring (run (mkSystem example_ring []) example_events)) + rg_dropped (sys_ring (run (mkSystem example_ring []) example_events)) =
    Z.of_nat (emit_calls (sys_threads (run (mkSystem example_ring []) example_events))).
Proof.
  split; [vm_compute; split; reflexivity|].
  destruct (ring_accounting 0 example_ring example_events) as (H & _ & _).
  - apply (ring_create_fresh (record := RuntimeTraceEvent) 1). reflexivity.
  - intros _. vm_compute. discriminate.
  - vm_compute. discriminate.
  - exact example_returned.
  - exact H.
Defined.

(** The first writer stopped inside the slot; the second call still returns. *)
Lemma ring_calls_return_witness :
  exists t, sys_threads (run (run (mkSystem example_ring []) (take 7 example_events))
                           (replicate 18 (turn 1 false))) !! 1%nat = Some t /\ returned t.
Proof.
  apply (ring_calls_return (run (mkSystem example_ring []) (take 7 example_events)) 1
           (emitter RuntimeTraceEvent_default (e_reserve 0)) (replicate 18 (turn 1 false))).
  - vm_compute. reflexivity.
  - apply (bool_decide_unpack _). vm_compute. exact I.
Defined.

(** A valid stop record, and a mixed-rate ring of two slots restored at number five. *)
Definition example_stop : MixedRateActionRecord :=
  mkMixedAction 1 256 0 9 1 0 0 0 0 0 0 0 0 0 0 0 0 0 0 0 0 0 u32_max u32_max 0 0 0 0
    mixed_action_runtime_stop mixed_reason_normal mixed_stage_terminal false false false
    freshness_not_applicable false false safety_not_applicable (replicate 54 0).

Definition example_actions : Ring :=
  MixedRateActionRing_restore_sequence 5
    (mkRing (replicate 2 (empty_slot (record := MixedRateActionRecord))) 0 0 0 0).

Lemma ring_retains_last_witness :
  read_sequence (emit_all example_actions [example_stop; example_stop; example_stop]) 6 =
    Some (set_mixed_action_sequence 6 example_stop) /\
  read_sequence (record := MixedRateActionRecord)
    (emit_all example_actions [example_stop; example_stop; example_stop]) 5 = None.
Proof.
  assert (Hf : ring_fresh (record := MixedRateActionRecord) 5 example_actions).
  { apply restore_sequence_fresh; [unfold is_u64, u64_max; lia|]. repeat constructor. }
  assert (Hok : forall i r, [example_stop; example_stop; example_stop] !! i = Some r ->
    well_typed r /\ admissible (stamp (5 + Z.of_nat i) r) = true /\
    acceptable (5 + Z.of_nat i) (deliver (5 + Z.of_nat i) r) = true).
  { intros i r Hi. assert (r = example_stop /\ (i < 3)%nat) as [-> Hlt].
    { destruct i as [|[|[|i]]]; simpl in Hi; simplify_eq; split; try lia; done. }
    split; [apply (bool_decide_unpack _); vm_compute; exact I|].
    destruct i as [|[|[|i]]]; [..|lia]; vm_compute; split; reflexivity. }
  split.
  - rewrite (proj1 (ring_retains_last 5 example_actions [example_stop; example_stop; example_stop] 6
      Hf ltac:(discriminate) ltac:(vm_compute; discriminate) Hok ltac:(discriminate))). reflexivity.
  - rewrite (proj1 (ring_retains_last 5 example_actions [example_stop; example_stop; example_stop] 5
      Hf ltac:(discriminate) ltac:(vm_compute; discriminate) Hok ltac:(discriminate))). reflexivity.
Defined.

Lemma telemetry_window_witness :
  event_at (emit_all example_ring [example_event; RuntimeTraceEvent_default]) 0 =
    Some (delivered_event 1 RuntimeTraceEvent_default).
Proof.
  rewrite (proj1 (proj2 (telemetry_window 1 example_ring [example_event; RuntimeTraceEvent_default]
    example_ring_created eq_refl ltac:(vm_compute; discriminate)))). reflexivity.
Defined.

Definition example_inspection : InspectionState := mkInspection false false false false false 77.

Lemma trace_cursor_drains_witness :
  read_trace_times 2 example_inspection (emit_all example_ring [example_event; RuntimeTraceEvent_default])
    fresh_cursor 1 =
  (mkRingCursor observability_schema_version 0 77 2, [delivered_event 1 RuntimeTraceEvent_default]).
Proof.
  rewrite (trace_cursor_drains 1 example_ring [example_event; RuntimeTraceEvent_default] example_inspection 1 2
    example_ring_created eq_refl ltac:(vm_compute; discriminate)); [reflexivity| |lia|vm_compute; lia].
  split_and!; [reflexivity..|discriminate].
Defined.
