(* ===== verification/WatchdogMonitor.v ===== *)
(** * Watchdog monitor (rt/src/watchdog_monitor.cpp, rt/src/watchdog_monitor.hpp)

    One word, [active_state_], carries the token of the armed frame and a bit that
    says whether its budget expired.  The frame thread arms and completes it; a
    service thread sets the bit with a compare-exchange.  Each pc below stands before
    one access to a shared atomic or to the steady clock, and the two threads
    interleave access by access; the clock advances between any two accesses.

    The condition variable only bounds how long the service thread sleeps: a wait
    returns when it is notified or after at most [kMaximumParkInterval], so a paused
    service thread may resume at any point. *)

From stdpp Require Import base list numbers.
From Stdlib Require Import ZArith Lia Bool.
From S2P Require Import Prelude.

Open Scope Z_scope.

Definition kFiredBit : Z := Z.shiftl 1 63.
Definition kTokenMask : Z := kFiredBit - 1.
Definition kMaximumParkInterval_ns : Z := 1000000.

(** The members of the class that the two threads share, and the clock. *)
Record Monitor := mkMonitor {
  wm_started : bool;
  wm_stop_requested : bool;
  wm_active_state : Z;
  wm_runtime_deadline_ns : Z;
  wm_service_deadline_ns : Z;
  wm_next_token : Z;
  wm_clock : Z;
}.

Definition monitor_initial (clock : Z) : Monitor := mkMonitor false false 0 0 0 0 clock.

Definition set_active_state (m : Monitor) (v : Z) : Monitor :=
  mkMonitor (wm_started m) (wm_stop_requested m) v (wm_runtime_deadline_ns m)
    (wm_service_deadline_ns m) (wm_next_token m) (wm_clock m).

(** ** Operations of the frame thread *)

(** [next_token_ = (next_token_ + 1) & kTokenMask], skipping zero. *)
Definition following_token (token : Z) : Z :=
  let t := Z.land (u64 (token + 1)) kTokenMask in if t =? 0 then 1 else t.

(** [service_now + timeout_ns], saturated. *)
Definition service_deadline (service_now timeout_ns : Z) : Z :=
  if u64_max - service_now <? timeout_ns then u64_max else service_now + timeout_ns.

(** Program points of [arm], [complete] and [stop]. *)
Inductive FramePc : Set :=
| f_idle
| f_arm_started (absolute_deadline_ns timeout_ns : Z)
| f_arm_clock (absolute_deadline_ns timeout_ns token : Z)
| f_arm_runtime_deadline (absolute_deadline_ns deadline token : Z)
| f_arm_service_deadline (deadline token : Z)
| f_arm_state (token : Z)
| f_armed (token : Z)                               (** [arm] returned [token] *)
| f_try_deadline (token finish_ns : Z)
| f_try_fire (token finish_ns : Z)
| f_load (token finish_ns : Z)
| f_loop (token finish_ns observed : Z) (fired : bool)
| f_completed (token finish_ns : Z) (fired : bool)  (** [complete] returned [fired] *)
| f_stop_started
| f_stop_requested
| f_stop_state
| f_stopped.

(** One access of the frame thread; [spurious] makes the weak exchange fail. *)
Definition frame_step (m : Monitor) (spurious : bool) (pc : FramePc) : Monitor * FramePc :=
  match pc with
  | f_idle | f_armed _ | f_completed _ _ _ | f_stopped => (m, pc)
  | f_arm_started absolute timeout =>
      if wm_started m then
        let token := following_token (wm_next_token m) in
        (mkMonitor (wm_started m) (wm_stop_requested m) (wm_active_state m)
           (wm_runtime_deadline_ns m) (wm_service_deadline_ns m) token (wm_clock m),
         f_arm_clock absolute timeout token)
      else (m, f_armed 0)
  | f_arm_clock absolute timeout token =>
      (m, f_arm_runtime_deadline absolute (service_deadline (wm_clock m) timeout) token)
  | f_arm_runtime_deadline absolute deadline token =>
      (mkMonitor (wm_started m) (wm_stop_requested m) (wm_active_state m) absolute
         (wm_service_deadline_ns m) (wm_next_token m) (wm_clock m),
       f_arm_service_deadline deadline token)
  | f_arm_service_deadline deadline token =>
      (mkMonitor (wm_started m) (wm_stop_requested m) (wm_active_state m)
         (wm_runtime_deadline_ns m) deadline (wm_next_token m) (wm_clock m),
       f_arm_state token)
  | f_arm_state token => (set_active_state m token, f_armed token)
  | f_try_deadline token finish =>
      if token =? 0 then (m, f_completed token finish false)
      else if finish <? wm_runtime_deadline_ns m then (m, f_load token finish)
      else (m, f_try_fire token finish)
  | f_try_fire token finish =>
      (if wm_active_state m =? token then set_active_state m (Z.lor token kFiredBit) else m,
       f_load token finish)
  | f_load token finish => (m, f_loop token finish (wm_active_state m) false)
  | f_loop token finish observed fired =>
      if (observed =? token) || (observed =? Z.lor token kFiredBit) then
        let fired' := fired || (observed =? Z.lor token kFiredBit) in
        if negb spurious && (wm_active_state m =? observed)
        then (set_active_state m 0, f_completed token finish fired')
        else (m, f_loop token finish (wm_active_state m) fired')
      else (m, f_completed token finish fired)
  | f_stop_started =>
      (mkMonitor false (wm_stop_requested m) (wm_active_state m) (wm_runtime_deadline_ns m)
         (wm_service_deadline_ns m) (wm_next_token m) (wm_clock m), f_stop_requested)
  | f_stop_requested =>
      (mkMonitor (wm_started m) true (wm_active_state m) (wm_runtime_deadline_ns m)
         (wm_service_deadline_ns m) (wm_next_token m) (wm_clock m), f_stop_state)
  | f_stop_state => (set_active_state m 0, f_stopped)
  end.

(** [has_fired] *)
Definition has_fired (m : Monitor) (token : Z) : bool :=
  negb (token =? 0) && (wm_active_state m =? Z.lor token kFiredBit).

(** [start] before the thread runs: refused when started; [thread_status] is what the
    thread policy provider answers. *)
Definition start (m : Monitor) (thread_status : Status) : Status * Monitor :=
  if wm_started m then (invalid_state, m)
  else
    (thread_status,
     mkMonitor (bool_decide (thread_status = ok)) false 0 (wm_runtime_deadline_ns m)
       (wm_service_deadline_ns m) (wm_next_token m) (wm_clock m)).

(** ** The service thread *)

Inductive ServicePc : Set :=
| s_stop_test
| s_load_state
| s_load_deadline (state : Z)
| s_read_clock (state deadline : Z)
| s_fire (state : Z)
| s_pause (state : Z)   (** relax, yield or the bounded wait *)
| s_exited.

(** The longest sleep of the parked service thread. *)
Definition park_interval (deadline now : Z) : Z := Z.min (deadline - now) kMaximumParkInterval_ns.

(** [state == 0 || (state & kFiredBit) != 0] *)
Definition nothing_armed (state : Z) : bool := (state =? 0) || negb (Z.land state kFiredBit =? 0).

(** One access of [run]; both wait strategies take the same path. *)
Definition service_step (m : Monitor) (pc : ServicePc) : Monitor * ServicePc :=
  match pc with
  | s_stop_test => (m, if wm_stop_requested m then s_exited else s_load_state)
  | s_load_state =>
      (m, if nothing_armed (wm_active_state m) then s_pause (wm_active_state m)
          else s_load_deadline (wm_active_state m))
  | s_load_deadline state => (m, s_read_clock state (wm_service_deadline_ns m))
  | s_read_clock state deadline =>
      (m, if deadline <=? wm_clock m then s_fire state else s_pause state)
  | s_fire state =>
      (if wm_active_state m =? state then set_active_state m (Z.lor state kFiredBit) else m,
       s_stop_test)
  | s_pause _ => (m, s_stop_test)
  | s_exited => (m, s_exited)
  end.

(** ** The two threads and the clock *)

(** [ws_arms] remembers the two deadlines of each token, newest first, and [ws_fires] the
    tokens whose bit was set. *)
Record WatchdogSystem := mkWatchdog {
  ws_monitor : Monitor;
  ws_frame : FramePc;
  ws_service : ServicePc;
  ws_arms : list (Z * (Z * Z));
  ws_fires : list Z;
}.

Inductive WatchdogEvent : Set :=
| call_arm (absolute_deadline_ns timeout_ns : Z)
| call_complete (finish_ns : Z)
| call_stop
| frame_turn (spurious : bool)
| service_turn
| tick (elapsed : nat).

(** [Runtime::step] arms, runs its callbacks and completes the token it was given before
    it arms again. *)
Definition may_arm (pc : FramePc) : bool :=
  match pc with f_idle | f_completed _ _ _ => true | f_armed token => token =? 0 | _ => false end.

Definition may_stop (pc : FramePc) : bool :=
  match pc with f_idle | f_armed _ | f_completed _ _ _ => true | _ => false end.

Definition advance (m : Monitor) (elapsed : nat) : Monitor :=
  mkMonitor (wm_started m) (wm_stop_requested m) (wm_active_state m) (wm_runtime_deadline_ns m)
    (wm_service_deadline_ns m) (wm_next_token m) (wm_clock m + Z.of_nat elapsed).

Definition record_arm (pc : FramePc) (m : Monitor) (arms : list (Z * (Z * Z))) : list (Z * (Z * Z)) :=
  match pc with
  | f_arm_state token => (token, (wm_runtime_deadline_ns m, wm_service_deadline_ns m)) :: arms
  | _ => arms
  end.

(** The exchange that sets the bit of [token] succeeds. *)
Definition record_fire (expected : option Z) (m : Monitor) (fires : list Z) : list Z :=
  match expected with
  | Some token => if wm_active_state m =? token then token :: fires else fires
  | None => fires
  end.

Definition frame_expects (pc : FramePc) : option Z :=
  match pc with f_try_fire token _ => Some token | _ => None end.

Definition service_expects (pc : ServicePc) : option Z :=
  match pc with s_fire state => Some state | _ => None end.

Definition watchdog_step (y : WatchdogSystem) (e : WatchdogEvent) : WatchdogSystem :=
  let m := ws_monitor y in
  match e with
  | call_arm absolute timeout =>
      if may_arm (ws_frame y)
      then mkWatchdog m (f_arm_started absolute timeout) (ws_service y) (ws_arms y) (ws_fires y) else y
  | call_complete finish =>
      match ws_frame y with
      | f_armed token =>
          mkWatchdog m (f_try_deadline token finish) (ws_service y) (ws_arms y) (ws_fires y)
      | _ => y
      end
  | call_stop =>
      if may_stop (ws_frame y)
      then mkWatchdog m f_stop_started (ws_service y) (ws_arms y) (ws_fires y) else y
  | frame_turn spurious =>
      let '(m', pc') := frame_step m spurious (ws_frame y) in
      mkWatchdog m' pc' (ws_service y) (record_arm (ws_frame y) m (ws_arms y))
        (record_fire (frame_expects (ws_frame y)) m (ws_fires y))
  | service_turn =>
      let '(m', pc') := service_step m (ws_service y) in
      mkWatchdog m' (ws_frame y) pc' (ws_arms y)
        (record_fire (service_expects (ws_service y)) m (ws_fires y))
  | tick elapsed =>
      mkWatchdog (advance m elapsed) (ws_frame y) (ws_service y) (ws_arms y) (ws_fires y)
  end.

Definition watchdog_run (y : WatchdogSystem) (events : list WatchdogEvent) : WatchdogSystem :=
  foldl watchdog_step y events.

(** A monitor that has just been started. *)
Definition watchdog_initial (clock : Z) : WatchdogSystem :=
  mkWatchdog (snd (start (monitor_initial clock) ok)) f_idle s_stop_test [] [].

(** ** Tokens and the fired bit *)

Definition is_token (t : Z) : Prop := 1 <= t <= kTokenMask.

Lemma fired_value t : 0 <= t <= kTokenMask -> Z.lor t kFiredBit = t + kFiredBit.
Proof.
  unfold kTokenMask, kFiredBit. intros Ht. rewrite Z.lor_comm, (lor_shiftl_add 1 t 63); [|lia|].
  - change (Z.shiftl 1 63) with (2 ^ 63). lia.
  - change (Z.shiftl 1 63) with (2 ^ 63) in Ht. lia.
Qed.

Lemma fired_bit_clear t : is_token t -> nothing_armed t = false.
Proof.
  unfold is_token, nothing_armed, kTokenMask, kFiredBit. intros Ht.
  rewrite (proj2 (Z.eqb_neq t 0)), land_pow2 by lia. simpl.
  change (Z.shiftl 1 63) with (2 ^ 63) in Ht. rewrite Z.div_small by lia. done.
Qed.

Lemma fired_bit_set t : is_token t -> nothing_armed (Z.lor t kFiredBit) = true.
Proof.
  intros Ht. unfold is_token in Ht. rewrite fired_value by lia.
  unfold nothing_armed, kTokenMask, kFiredBit in *. apply orb_true_iff. right.
  rewrite land_pow2 by lia. change (Z.shiftl 1 63) with (2 ^ 63) in *.
  replace ((t + 2 ^ 63) / 2 ^ 63) with 1; [done|].
  apply (Z.div_unique _ _ 1 t); lia.
Qed.

Lemma following_token_succ t : 0 <= t < kTokenMask -> following_token t = t + 1.
Proof.
  unfold following_token, u64, kTokenMask, kFiredBit. change (Z.shiftl 1 63) with (2 ^ 63). intros Ht.
  rewrite Z.mod_small by lia. change (2 ^ 63 - 1) with (Z.ones 63). rewrite Z.land_ones by lia.
  rewrite Z.mod_small by lia. rewrite (proj2 (Z.eqb_neq _ 0)) by lia. done.
Qed.

Lemma fired_not_token t t' : is_token t -> is_token t' -> Z.lor t kFiredBit <> t'.
Proof. unfold is_token. intros Ht Ht'. rewrite fired_value by lia. unfold kTokenMask in *. lia. Qed.

Lemma fired_nonzero t : is_token t -> Z.lor t kFiredBit <> 0.
Proof.
  unfold is_token. intros Ht. rewrite fired_value by lia. unfold kTokenMask, kFiredBit in *.
  change (Z.shiftl 1 63) with (2 ^ 63) in *. lia.
Qed.

Lemma fired_inj t t' : is_token t -> is_token t' -> Z.lor t kFiredBit = Z.lor t' kFiredBit -> t = t'.
Proof. unfold is_token. intros Ht Ht'. rewrite !fired_value by lia. lia. Qed.

(** ** The invariant *)

(** The frame armed [t] and has not completed it.  A set bit means that the service budget ran out,
    or that the call of [complete] in progress finished late. *)
Definition outstanding (m : Monitor) (arms : list (Z * (Z * Z))) (fires : list Z) (t : Z) (late : Prop)
    : Prop :=
  head arms = Some (t, (wm_runtime_deadline_ns m, wm_service_deadline_ns m)) /\
  (wm_active_state m = t /\ t ∉ fires \/
   wm_active_state m = Z.lor t kFiredBit /\ t ∈ fires /\ (wm_service_deadline_ns m <= wm_clock m \/ late)).

Definition frame_ok (m : Monitor) (arms : list (Z * (Z * Z))) (fires : list Z) (pc : FramePc) : Prop :=
  match pc with
  | f_idle | f_arm_started _ _ | f_stopped => wm_active_state m = 0
  | f_arm_clock _ _ t | f_arm_runtime_deadline _ _ t | f_arm_service_deadline _ t | f_arm_state t =>
      wm_active_state m = 0 /\ t = wm_next_token m /\ 1 <= t /\ t ∉ arms.*1
  | f_armed t | f_try_deadline t _ =>
      t = 0 /\ wm_active_state m = 0 \/ outstanding m arms fires t False
  | f_try_fire t finish => outstanding m arms fires t False /\ wm_runtime_deadline_ns m <= finish
  | f_load t finish =>
      outstanding m arms fires t (wm_runtime_deadline_ns m <= finish) /\
      (finish < wm_runtime_deadline_ns m \/ wm_active_state m = Z.lor t kFiredBit)
  | f_loop t finish observed fired =>
      outstanding m arms fires t (wm_runtime_deadline_ns m <= finish) /\
      (observed = t \/ observed = Z.lor t kFiredBit) /\
      (observed = Z.lor t kFiredBit \/ fired = true -> wm_active_state m = Z.lor t kFiredBit) /\
      (wm_runtime_deadline_ns m <= finish -> observed = Z.lor t kFiredBit)
  | f_completed t finish fired =>
      wm_active_state m = 0 /\
      (t <> 0 -> exists runtime service, (t, (runtime, service)) ∈ arms /\
         (fired = true <-> t ∈ fires) /\
         (fired = true -> service <= wm_clock m \/ runtime <= finish) /\
         (fired = false -> finish < runtime))
  | f_stop_started | f_stop_requested | f_stop_state =>
      wm_active_state m = 0 \/
      exists t, t ∈ arms.*1 /\ (wm_active_state m = t \/ wm_active_state m = Z.lor t kFiredBit)
  end.

Definition service_ok (m : Monitor) (arms : list (Z * (Z * Z))) (pc : ServicePc) : Prop :=
  match pc with
  | s_load_deadline state => state ∈ arms.*1
  | s_read_clock state deadline =>
      state ∈ arms.*1 /\ (wm_active_state m = state -> deadline = wm_service_deadline_ns m)
  | s_fire state =>
      state ∈ arms.*1 /\ (wm_active_state m = state -> wm_service_deadline_ns m <= wm_clock m)
  | _ => True
  end.

(** The frame thread has not asked the service thread to stop. *)
Definition running_ok (m : Monitor) (fpc : FramePc) (spc : ServicePc) : Prop :=
  match fpc with
  | f_stop_state | f_stopped => True
  | _ => wm_stop_requested m = false /\ spc <> s_exited
  end.

Record watchdog_inv (y : WatchdogSystem) : Prop := {
  wi_token : 0 <= wm_next_token (ws_monitor y) <= kTokenMask;
  wi_arms : Forall (fun t => 1 <= t <= wm_next_token (ws_monitor y)) ((ws_arms y).*1);
  wi_nodup : NoDup ((ws_arms y).*1);
  wi_fires : forall t, t ∈ ws_fires y -> t ∈ (ws_arms y).*1;
  wi_frame : frame_ok (ws_monitor y) (ws_arms y) (ws_fires y) (ws_frame y);
  wi_service : service_ok (ws_monitor y) (ws_arms y) (ws_service y);
  wi_running : running_ok (ws_monitor y) (ws_frame y) (ws_service y);
}.

Lemma inv_is_token y t : watchdog_inv y -> t ∈ (ws_arms y).*1 -> is_token t.
Proof.
  intros Hinv Ht. pose proof (wi_token _ Hinv).
  apply list_elem_of_lookup_1 in Ht as [i Hi].
  apply (Forall_lookup_1 _ _ _ _ (wi_arms _ Hinv)) in Hi. simpl in *. unfold is_token. lia.
Qed.

Lemma head_arm_elem (arms : list (Z * (Z * Z))) t d : head arms = Some (t, d) -> t ∈ arms.*1.
Proof. destruct arms as [|a arms]; intros [= ->]. csimpl. by left. Qed.

(** The word is zero or belongs to a token that was armed. *)
Lemma active_shape m arms fires pc :
  frame_ok m arms fires pc ->
  wm_active_state m = 0 \/
  exists t, t ∈ arms.*1 /\ (wm_active_state m = t \/ wm_active_state m = Z.lor t kFiredBit).
Proof.
  assert (Hout : forall t late, outstanding m arms fires t late ->
    exists t, t ∈ arms.*1 /\ (wm_active_state m = t \/ wm_active_state m = Z.lor t kFiredBit)).
  { intros t late [Hh Ho]. exists t. split; [by eapply head_arm_elem|]. naive_solver. }
  destruct pc; simpl; try naive_solver.
Qed.

(** ** The service thread preserves it *)

Lemma outstanding_fire m arms fires t late st :
  is_token st -> is_token t -> wm_active_state m = st -> wm_service_deadline_ns m <= wm_clock m ->
  outstanding m arms fires t late ->
  outstanding (set_active_state m (Z.lor st kFiredBit)) arms (st :: fires) t late /\ t = st.
Proof.
  intros Hst Ht Ha Hd [Hh Ho]. assert (t = st) as ->.
  { destruct Ho as [[Hat _]|[Hat _]]; [congruence|]. exfalso. by apply (fired_not_token t st); congruence. }
  split; [|done]. split; [done|]. right. simpl. split_and!; [done|by left|by left].
Qed.

Lemma frame_ok_fire m arms fires pc st :
  (forall t, t ∈ arms.*1 -> is_token t) -> st ∈ arms.*1 -> wm_active_state m = st ->
  wm_service_deadline_ns m <= wm_clock m -> frame_ok m arms fires pc ->
  frame_ok (set_active_state m (Z.lor st kFiredBit)) arms (st :: fires) pc.
Proof.
  intros Htok Hst Ha Hd Hok. assert (Hs : is_token st) by auto.
  assert (Hnz : wm_active_state m <> 0) by (unfold is_token in Hs; lia).
  assert (Hof : forall t late, outstanding m arms fires t late ->
            outstanding (set_active_state m (Z.lor st kFiredBit)) arms (st :: fires) t late /\ t = st).
  { intros t late Ho. apply outstanding_fire; try done. apply Htok. destruct Ho as [Hh _].
    by eapply head_arm_elem. }
  destruct pc; simpl in *; try congruence; try (destruct Hok as [? _]; congruence).
  - right. destruct Hok as [[-> ?]|Ho]; [done|]. by apply Hof.
  - right. destruct Hok as [[-> ?]|Ho]; [done|]. by apply Hof.
  - destruct Hok as [Ho ?]. split; [by apply Hof|done].
  - destruct Hok as [Ho ?]. destruct (Hof _ _ Ho) as [? ->]. split; [done|by right].
  - destruct Hok as (Ho & ? & ? & ?). destruct (Hof _ _ Ho) as [? ->]. split_and!; done.
  - right. exists st. auto.
  - right. exists st. auto.
  - right. exists st. auto.
Qed.

Lemma running_ok_service m m' fpc spc spc' :
  wm_stop_requested m' = wm_stop_requested m -> spc' <> s_exited -> running_ok m fpc spc ->
  running_ok m' fpc spc'.
Proof. intros He Hs Hr. destruct fpc; simpl in *; try done; rewrite He; by destruct Hr. Qed.

Lemma inv_service y : watchdog_inv y -> watchdog_inv (watchdog_step y service_turn).
Proof.
  intros Hinv. assert (Htok := fun t => inv_is_token y t Hinv). destruct Hinv as [I1 I2 I3 I4 I5 I6 I7].
  destruct y as [m fpc spc arms fires]; simpl in *.
  destruct spc as [| |st|st dl|st|st|]; simpl in *.
  - split; simpl; try done; [by destruct (wm_stop_requested m)|].
    destruct fpc; simpl in *; try done; by destruct I7 as [-> _].
  - split; simpl; try done.
    + destruct (nothing_armed (wm_active_state m)) eqn:Hn; [done|]. simpl.
      destruct (active_shape _ _ _ _ I5) as [H0|(t & Ht & [Hat|Hat])].
      * by rewrite H0 in Hn.
      * by rewrite Hat.
      * rewrite Hat, fired_bit_set in Hn by auto. done.
    + eapply running_ok_service; [done| |done]. by destruct (nothing_armed _).
  - split; simpl; try done. by eapply running_ok_service.
  - destruct I6 as [Hst Hdl]. split; simpl; try done.
    + destruct (Z.leb_spec dl (wm_clock m)); simpl; [|done]. split; [done|]. intros Ha.
      rewrite <- Hdl by done. done.
    + eapply running_ok_service; [done| |done]. by destruct (dl <=? wm_clock m).
  - destruct I6 as [Hst Hd]. destruct (Z.eqb_spec (wm_active_state m) st) as [Ha|Ha].
    + split; simpl; try done.
      * intros t [->|Ht]%elem_of_cons; auto.
      * apply frame_ok_fire; auto.
      * by eapply running_ok_service.
    + split; simpl; try done. by eapply running_ok_service.
  - split; simpl; try done. by eapply running_ok_service.
  - split; simpl; done.
Qed.

(** ** The frame thread preserves it *)

Lemma service_ok_arm m arms t rd sd pc :
  (forall st, st ∈ arms.*1 -> st <> t) -> service_ok m arms pc -> t <> 0 ->
  service_ok (set_active_state m t) ((t, (rd, sd)) :: arms) pc.
Proof.
  intros Hne Hok Ht. destruct pc; simpl in *; try done.
  - by right.
  - destruct Hok as [Hst _]. split; [by right|]. intros <-. by apply Hne in Hst.
  - destruct Hok as [Hst _]. split; [by right|]. intros <-. by apply Hne in Hst.
Qed.

Lemma service_ok_word m arms v pc :
  (forall st, st ∈ arms.*1 -> st <> v) -> service_ok m arms pc -> service_ok (set_active_state m v) arms pc.
Proof.
  intros Hne Hok. destruct pc; simpl in *; try done.
  - destruct Hok as [Hst _]. split; [done|]. intros <-. by apply Hne in Hst.
  - destruct Hok as [Hst _]. split; [done|]. intros <-. by apply Hne in Hst.
Qed.

(** Outside an armed frame the deadlines may change. *)
Lemma service_ok_idle m m' arms pc :
  (forall t, t ∈ arms.*1 -> is_token t) -> wm_active_state m = 0 -> wm_active_state m' = 0 ->
  service_ok m arms pc -> service_ok m' arms pc.
Proof.
  intros Htok H0 H0' Hok. destruct pc; simpl in *; try done; destruct Hok as [Hst _]; split; try done;
    intros Ha; apply Htok in Hst; unfold is_token in Hst; lia.
Qed.

Lemma running_ok_frame m m' fpc fpc' spc :
  wm_stop_requested m' = wm_stop_requested m -> running_ok m fpc spc ->
  (match fpc with f_stop_state | f_stopped => false | _ => true end = true) ->
  running_ok m' fpc' spc.
Proof. intros He Hr Hf. destruct fpc', fpc; simpl in *; try done; rewrite He; done. Qed.

Lemma inv_frame y spurious :
  (match ws_frame y with f_arm_started _ _ => wm_next_token (ws_monitor y) < kTokenMask | _ => True end) ->
  watchdog_inv y -> watchdog_inv (watchdog_step y (frame_turn spurious)).
Proof.
  intros Hbound Hinv. assert (Htok := fun t => inv_is_token y t Hinv).
  destruct Hinv as [I1 I2 I3 I4 I5 I6 I7]. destruct y as [m fpc spc arms fires]; simpl in *.
  assert (Hnz : forall st, st ∈ arms.*1 -> st <> 0) by (intros st Hst%Htok; unfold is_token in Hst; lia).
  destruct fpc as [|abs to|abs to t|abs dl t|dl t|t|t|t fin|t fin|t fin|t fin obs fd|t fin fd| | | |];
    simpl in *; try (split; simpl; done).
  - destruct (wm_started m).
    + rewrite following_token_succ by lia. split; simpl; try done; [lia| |].
      * eapply Forall_impl; [|exact I2]. simpl. lia.
      * split_and!; [done|done|lia|]. intros Hin. apply list_elem_of_lookup_1 in Hin as [i Hi].
        apply (Forall_lookup_1 _ _ _ _ I2) in Hi. simpl in Hi. lia.
    + split; simpl; try done. by left.
  - destruct I5 as (H0 & -> & H1 & Hni). split; simpl; try done.
    by eapply service_ok_idle; [..|exact I6].
  - destruct I5 as (H0 & -> & H1 & Hni). split; simpl; try done.
    + constructor; [lia|done].
    + by constructor.
    + intros t Ht. right. auto.
    + right. split; [done|]. left. simpl. split; [done|]. intros Hf. by apply Hni, I4.
    + apply service_ok_arm; [|done|lia]. intros st Hst ->. done.
  - destruct (Z.eqb_spec t 0) as [->|Ht0].
    + split; simpl; try done. destruct I5 as [[_ ?]|[Hh _]]; [by split|].
      apply head_arm_elem in Hh. by apply Hnz in Hh.
    + destruct I5 as [[? _]|Ho]; [done|].
      destruct (Z.ltb_spec fin (wm_runtime_deadline_ns m)).
      * split; simpl; try done. split; [|by left]. destruct Ho as [Hh Ho]. split; [done|]. naive_solver.
      * split; simpl; try done.
  - destruct I5 as [Ho Hlate]. destruct (Ho) as [Hh Hcase]. apply head_arm_elem in Hh as Hin.
    destruct (Z.eqb_spec (wm_active_state m) t) as [Ha|Ha].
    + split; simpl; try done.
      * intros u [->|Hu]%elem_of_cons; auto.
      * split; [|by right]. split; [done|]. right. simpl. split_and!; [done|by left|by right].
      * apply service_ok_word; [|done]. intros st Hst He. by apply (fired_not_token t st); auto.
    + split; simpl; try done. split; [|right; naive_solver]. split; [done|]. naive_solver.
  - destruct I5 as [Ho Hor]. destruct (Ho) as [Hh Hcase]. split; simpl; try done.
    split_and!; [done|naive_solver|naive_solver|]. intros Hle. destruct Hor; [lia|done].
  - destruct I5 as (Ho & Hobs & Hsame & Hlate). destruct (Ho) as [Hh Hcase]. apply head_arm_elem in Hh as Hin.
    assert ((obs =? t) || (obs =? Z.lor t kFiredBit) = true) as ->.
    { apply orb_true_iff. rewrite !Z.eqb_eq. done. }
    destruct (negb spurious && (wm_active_state m =? obs)) eqn:Hx.
    + apply andb_true_iff in Hx as [_ Hx%Z.eqb_eq]. split; simpl; try done.
      * split; [done|]. intros Ht0. exists (wm_runtime_deadline_ns m), (wm_service_deadline_ns m).
        assert (Hfi : fd || (obs =? Z.lor t kFiredBit) = true <-> t ∈ fires).
        { rewrite orb_true_iff, Z.eqb_eq. split.
          - intros Hf. destruct Hcase as [[Ha Hn]|(_ & ? & _)]; [|done]. exfalso.
            apply (fired_not_token t t); [by apply Htok..|].
            transitivity (wm_active_state m); [symmetry; apply Hsame; tauto|done].
          - intros Hf. right. destruct Hcase as [[_ ?]|(Ha & _)]; [done|]. congruence. }
        split_and!.
        -- destruct arms as [|a arms]; [done|]. simpl in Hh. injection Hh as ->. by left.
        -- done.
        -- intros Hf%Hfi. destruct Hcase as [[_ ?]|(_ & _ & ?)]; done.
        -- intros Hf. apply Z.lt_nge. intros Hle. apply Hlate in Hle as ->.
           rewrite Z.eqb_refl, orb_true_r in Hf. done.
      * apply service_ok_word; [|done]. intros st Hst ->. by apply Hnz in Hst.
    + split; simpl; try done. split_and!; [done|naive_solver| |].
      * intros [?|Hf]; [done|]. apply orb_true_iff in Hf as [->|Hf%Z.eqb_eq]; apply Hsame; auto.
      * intros Hle. apply Hsame. left. auto.
  - split; simpl; try done. apply service_ok_word; [|done]. intros st Hst ->. by apply Hnz in Hst.
Qed.

(** ** Runs *)

Lemma frame_ok_tick m arms fires pc n :
  frame_ok m arms fires pc -> frame_ok (advance m n) arms fires pc.
Proof.
  assert (Hout : forall t late, outstanding m arms fires t late -> outstanding (advance m n) arms fires t late).
  { intros t late [Hh Ho]. split; [done|]. simpl. destruct Ho as [?|(? & ? & [?|?])]; [by left|right..];
      split_and!; try done; [left; lia|by right]. }
  destruct pc; simpl; try done.
  - intros [?|?]; [by left|right; auto].
  - intros [?|?]; [by left|right; auto].
  - intros [? ?]. auto.
  - intros [? ?]. auto.
  - intros (? & ? & ? & ?). auto.
  - intros [? H]. split; [done|]. intros Ht. destruct (H Ht) as (rd & sd & ? & ? & H1 & ?).
    exists rd, sd. split_and!; try done. intros Hf. destruct (H1 Hf); [left; lia|by right].
Qed.

Lemma service_ok_tick m arms pc n : service_ok m arms pc -> service_ok (advance m n) arms pc.
Proof. destruct pc; simpl; try done. intros [? H]. split; [done|]. intros Ha. specialize (H Ha). lia. Qed.

Lemma watchdog_inv_step y e :
  (match ws_frame y with f_arm_started _ _ => wm_next_token (ws_monitor y) < kTokenMask | _ => True end) ->
  watchdog_inv y -> watchdog_inv (watchdog_step y e).
Proof.
  intros Hb Hinv. destruct e as [abs to|fin| |spurious| |n];
    [| | |by apply inv_frame|by apply inv_service|].
  - simpl. destruct (may_arm (ws_frame y)) eqn:Hm; [|done]. destruct Hinv as [I1 I2 I3 I4 I5 I6 I7].
    destruct y as [m fpc spc arms fires]; simpl in *.
    assert (Hz : wm_active_state m = 0).
    { destruct fpc as [| | | | | |t| | | | | | | | |]; simpl in *; try done; [|by destruct I5].
      apply Z.eqb_eq in Hm as ->. destruct I5 as [[_ ?]|[Hh _]]; [done|]. apply head_arm_elem in Hh.
      apply list_elem_of_lookup_1 in Hh as [i Hi]. apply (Forall_lookup_1 _ _ _ _ I2) in Hi. simpl in Hi. lia. }
    split; simpl; try done. by destruct fpc.
  - simpl. destruct (ws_frame y) as [| | | | | |t| | | | | | | | |] eqn:Hf; try done.
    destruct Hinv as [I1 I2 I3 I4 I5 I6 I7]. rewrite Hf in *. split; simpl in *; done.
  - simpl. destruct (may_stop (ws_frame y)) eqn:Hm; [|done].
    pose proof (active_shape _ _ _ _ (wi_frame _ Hinv)) as Hsh. destruct Hinv as [I1 I2 I3 I4 I5 I6 I7].
    split; simpl; try done. by destruct (ws_frame y).
  - destruct Hinv as [I1 I2 I3 I4 I5 I6 I7]. simpl. split; simpl; try done.
    + by apply frame_ok_tick.
    + by apply service_ok_tick.
Qed.

Definition is_arm (e : WatchdogEvent) : nat := match e with call_arm _ _ => 1 | _ => 0 end.

Definition arm_calls (events : list WatchdogEvent) : nat := sum_list_with is_arm events.

Definition arming (pc : FramePc) : Z := match pc with f_arm_started _ _ => 1 | _ => 0 end.

Lemma arm_step y e :
  0 <= wm_next_token (ws_monitor y) < kTokenMask \/ arming (ws_frame y) = 0 ->
  wm_next_token (ws_monitor (watchdog_step y e)) + arming (ws_frame (watchdog_step y e)) <=
  wm_next_token (ws_monitor y) + arming (ws_frame y) + Z.of_nat (is_arm e).
Proof.
  intros Hb. destruct y as [m fpc spc arms fires]. destruct e as [abs to|fin| |spurious| |n]; simpl in *.
  - destruct fpc; simpl; try lia. destruct (token =? 0); simpl; lia.
  - destruct fpc; simpl; lia.
  - destruct fpc; simpl; lia.
  - assert (Hf : arming fpc = 1 -> following_token (wm_next_token m) = wm_next_token m + 1)
      by (intros; apply following_token_succ; lia).
    destruct fpc; simpl in *; try rewrite Hf by done; repeat (case_match; simplify_eq; simpl in *); lia.
  - destruct spc; simpl; try lia. destruct (wm_active_state m =? state); simpl; lia.
  - lia.
Qed.

Lemma initial_inv clock : watchdog_inv (watchdog_initial clock).
Proof. by split; simpl; try constructor. Qed.

Lemma watchdog_inv_run clock events :
  Z.of_nat (arm_calls events) <= kTokenMask ->
  watchdog_inv (watchdog_run (watchdog_initial clock) events).
Proof.
  intros Hc. enough (watchdog_inv (watchdog_run (watchdog_initial clock) events) /\
    wm_next_token (ws_monitor (watchdog_run (watchdog_initial clock) events)) +
    arming (ws_frame (watchdog_run (watchdog_initial clock) events)) <= Z.of_nat (arm_calls events))
    by naive_solver.
  induction events as [|e events IH] using rev_ind; [split; [apply initial_inv|done]|].
  unfold watchdog_run, arm_calls in *. rewrite sum_list_with_app in *. simpl in *.
  rewrite foldl_snoc. destruct IH as [Hi Hn]; [lia|].
  set (y := foldl watchdog_step (watchdog_initial clock) events) in *.
  pose proof (wi_token _ Hi). split.
  - apply watchdog_inv_step; [|done]. destruct (ws_frame y); simpl in *; try done. lia.
  - pose proof (arm_step y e). rewrite Nat.add_0_r. destruct (ws_frame y); simpl in *; lia.
Qed.

(** ** Claims *)

(** C24. The verdict of a frame is exact: when [complete] returns for an armed token, it returned true
    if and only if the fired bit of that token was set; a true verdict means that the service budget
    had run out or that the frame finished at or after its deadline, a false one means that it
    finished before its deadline; and the monitor is disarmed. *)
Theorem watchdog_verdict clock events t finish fired :
  Z.of_nat (arm_calls events) <= kTokenMask ->
  let y := watchdog_run (watchdog_initial clock) events in
  ws_frame y = f_completed t finish fired -> t <> 0 ->
  wm_active_state (ws_monitor y) = 0 /\
  exists runtime service, (t, (runtime, service)) ∈ ws_arms y /\
    (fired = true <-> t ∈ ws_fires y) /\
    (fired = true -> service <= wm_clock (ws_monitor y) \/ runtime <= finish) /\
    (fired = false -> finish < runtime).
Proof.
  intros Hc y Hf Ht. pose proof (wi_frame _ (watchdog_inv_run clock events Hc)) as Hok. fold y in Hok.
  rewrite Hf in Hok. destruct Hok as [H0 H]. split; [done|]. by apply H.
Qed.

(** ** The armed frame is watched *)

(** Turns the service thread needs until its exchange on the armed token [t]. *)
Definition service_rank (t : Z) (pc : ServicePc) : nat :=
  match pc with
  | s_fire state => if state =? t then 1 else 6
  | s_read_clock state _ => if state =? t then 2 else 7
  | s_load_deadline state => if state =? t then 3 else 8
  | s_load_state => 4
  | s_stop_test => 5
  | s_pause _ => 6
  | s_exited => 9
  end.

Definition only_service (e : WatchdogEvent) : bool :=
  match e with service_turn | tick _ => true | _ => false end.

Definition is_service (e : WatchdogEvent) : nat := match e with service_turn => 1 | _ => 0 end.

Definition service_turns (events : list WatchdogEvent) : nat := sum_list_with is_service events.

(** The frame runs its callbacks, armed with [t], past the service deadline. *)
Definition overdue (y : WatchdogSystem) (t : Z) : Prop :=
  ws_frame y = f_armed t /\ is_token t /\ wm_stop_requested (ws_monitor y) = false /\
  ws_service y <> s_exited /\ wm_active_state (ws_monitor y) = t /\
  wm_service_deadline_ns (ws_monitor y) <= wm_clock (ws_monitor y).

Lemma overdue_step y t e :
  watchdog_inv y -> overdue y t -> only_service e = true ->
  has_fired (ws_monitor (watchdog_step y e)) t = true /\ ws_frame (watchdog_step y e) = f_armed t \/
  overdue (watchdog_step y e) t /\
  (service_rank t (ws_service (watchdog_step y e)) + is_service e <= service_rank t (ws_service y))%nat.
Proof.
  intros Hinv (Hf & Ht & Hs & Hx & Ha & Hd) He. pose proof (wi_service _ Hinv) as Hok.
  destruct y as [m fpc spc arms fires]; simpl in *. subst fpc.
  destruct e as [| | | | |n]; try done; simpl.
  - destruct spc as [| |st|st dl|st|st|]; simpl in *; try done.
    + right. rewrite Hs. simpl. split; [|lia]. split_and!; done.
    + right. rewrite Ha, fired_bit_clear by done. split; [by split_and!|]. simpl. rewrite Z.eqb_refl. lia.
    + right. split; [by split_and!|]. destruct (st =? t); lia.
    + right. destruct Hok as [_ Hdl]. destruct (Z.eqb_spec st t) as [->|Hne].
      * rewrite Hdl by done. rewrite (proj2 (Z.leb_le _ _)) by done. simpl. rewrite Z.eqb_refl.
        split; [by split_and!|lia].
      * split; [split_and!; try done; by destruct (dl <=? wm_clock m)|].
        destruct (dl <=? wm_clock m); simpl; [rewrite (proj2 (Z.eqb_neq _ _) Hne)|]; lia.
    + destruct (Z.eqb_spec (wm_active_state m) st) as [<-|Hne]; rewrite Ha in *.
      * left. split; [|done]. unfold has_fired. simpl. rewrite Z.eqb_refl.
        unfold is_token in Ht. by rewrite (proj2 (Z.eqb_neq t 0)) by lia.
      * right. rewrite (proj2 (Z.eqb_neq st t)) by done. split; [by split_and!|lia].
    + right. split; [by split_and!|lia].
  - right. split; [|lia]. split_and!; try done. simpl. lia.
Qed.

(** The bit stays until the frame thread completes. *)
Lemma fired_stays y t e :
  watchdog_inv y -> is_token t -> has_fired (ws_monitor y) t = true -> only_service e = true ->
  has_fired (ws_monitor (watchdog_step y e)) t = true.
Proof.
  intros Hinv Ht Hf He. destruct y as [m fpc spc arms fires]. destruct e; try done. simpl in *.
  pose proof (wi_service _ Hinv) as Hok. simpl in Hok. destruct spc as [| |st|st dl|st|st|]; simpl in *; try done.
  destruct (Z.eqb_spec (wm_active_state m) st) as [Ha|]; [|done]. exfalso.
  apply andb_true_iff in Hf as [_ Hf%Z.eqb_eq]. destruct Hok as [Hst _].
  apply (fired_not_token t st); [done| |congruence]. by apply (inv_is_token _ _ Hinv).
Qed.

(** While only the service thread and the clock move, the frame stays armed. *)
Lemma armed_step y t e :
  watchdog_inv y -> ws_frame y = f_armed t -> only_service e = true ->
  watchdog_inv (watchdog_step y e) /\ ws_frame (watchdog_step y e) = f_armed t.
Proof.
  intros Hinv Hf He. split; [apply watchdog_inv_step; [by rewrite Hf|done]|].
  destruct y as [m fpc spc arms fires]; simpl in *; subst fpc. destruct e; try done. simpl.
  by destruct (service_step m spc).
Qed.

Lemma fired_run y t events :
  watchdog_inv y -> is_token t -> ws_frame y = f_armed t -> has_fired (ws_monitor y) t = true ->
  forallb only_service events = true -> has_fired (ws_monitor (watchdog_run y events)) t = true.
Proof.
  revert y. induction events as [|e es IH]; intros y Hinv Ht Hf Hfire Hall; [done|]. simpl in *.
  apply andb_true_iff in Hall as [He Hall]. destruct (armed_step y t e Hinv Hf He).
  apply IH; try done. by apply fired_stays.
Qed.

Lemma overdue_run y t events :
  watchdog_inv y -> overdue y t -> forallb only_service events = true ->
  has_fired (ws_monitor (watchdog_run y events)) t = true \/
  (service_turns events < service_rank t (ws_service y))%nat.
Proof.
  revert y. induction events as [|e events IH]; intros y Hinv Ho Hall; simpl.
  - right. unfold service_turns. simpl. destruct (ws_service y); simpl; repeat case_match; lia.
  - apply andb_true_iff in Hall as [He Hall]. destruct Ho as (Hf & Ht & Ho).
    destruct (armed_step y t e Hinv Hf He) as [Hinv' Hf'].
    destruct (overdue_step y t e Hinv (conj Hf (conj Ht Ho)) He) as [[Hfire _]|[Ho' Hr]].
    + left. by apply fired_run.
    + destruct (IH _ Hinv' Ho' Hall) as [?|Hlt]; [by left|right]. unfold service_turns in *. simpl. lia.
Qed.

(** C25. An overrun frame is always noticed: while the frame thread runs its callbacks past the budget
    it armed, eight turns of the service thread are enough for the fired bit to be set, whatever the
    service thread was doing before and however the clock advances in between. *)
Theorem watchdog_fires clock events t later :
  Z.of_nat (arm_calls events) <= kTokenMask ->
  let y := watchdog_run (watchdog_initial clock) events in
  ws_frame y = f_armed t -> t <> 0 ->
  wm_service_deadline_ns (ws_monitor y) <= wm_clock (ws_monitor y) ->
  forallb only_service later = true -> (8 <= service_turns later)%nat ->
  has_fired (ws_monitor (watchdog_run y later)) t = true.
Proof.
  intros Hc y Hf Ht Hd Hall Hn. pose proof (watchdog_inv_run clock events Hc) as Hinv. fold y in Hinv.
  pose proof (wi_frame _ Hinv) as Hok. rewrite Hf in Hok. destruct Hok as [[? _]|[Hh Hcase]]; [done|].
  assert (Htok : is_token t) by (eapply (inv_is_token y); [done|]; by eapply head_arm_elem).
  pose proof (wi_running _ Hinv) as Hr. rewrite Hf in Hr. destruct Hr as [Hs Hx].
  destruct Hcase as [[Ha _]|(Ha & _)].
  - assert (Ho : overdue y t) by (by split_and!).
    destruct (overdue_run y t later Hinv Ho Hall) as [?|Hlt]; [done|].
    assert (service_rank t (ws_service y) <= 8)%nat; [|lia].
    destruct (ws_service y); simpl; try lia; try case_match; lia || done.
  - apply fired_run; try done. unfold has_fired. rewrite Ha, Z.eqb_refl. by rewrite (proj2 (Z.eqb_neq t 0)).
Qed.

(** The service thread fires on a frame armed at time 100 with a budget of 50. *)
Definition overrun_events : list WatchdogEvent :=
  [call_arm 200 50; frame_turn false; frame_turn false; frame_turn false; frame_turn false; frame_turn false;
   service_turn; tick 60].

Definition noticed_events : list WatchdogEvent :=
  overrun_events ++ replicate 8 service_turn ++
  [call_complete 160; frame_turn false; frame_turn false; frame_turn true; frame_turn false].

Lemma watchdog_verdict_witness :
  Z.of_nat (arm_calls noticed_events) <= kTokenMask /\
  exists runtime service,
    (1, (runtime, service)) ∈ ws_arms (watchdog_run (watchdog_initial 100) noticed_events) /\
    (true = true -> service <= wm_clock (ws_monitor (watchdog_run (watchdog_initial 100) noticed_events)) \/
       runtime <= 160).
Proof.
  split; [vm_compute; discriminate|].
  destruct (watchdog_verdict 100 noticed_events 1 160 true) as (_ & rd & sd & Hin & _ & Hfire & _);
    [vm_compute; discriminate|vm_compute; reflexivity|discriminate|].
  exists rd, sd. split; [exact Hin|exact Hfire].
Defined.

Lemma watchdog_fires_witness :
  has_fired (ws_monitor (watchdog_run (watchdog_run (watchdog_initial 100) overrun_events)
    (replicate 8 service_turn))) 1 = true.
Proof.
  apply (watchdog_fires 100 overrun_events 1 (replicate 8 service_turn));
    [vm_compute; discriminate|vm_compute; reflexivity|discriminate|vm_compute; discriminate|reflexivity|].
  vm_compute. lia.
Defined.
