(* ===== verification/SampledIo.v ===== *)
(** * Sampled I/O (src/rt/src/sampled_io.cpp)

    Sampled channels put typed sample frames into cross-rate channels whose other end is a device.
    [sampled_io_snapshot_slots] resolves the storage the channels ask for before the cross-rate plan is
    compiled; [compile_sampled_io] checks every descriptor against the compiled cross-rate channel and
    its device endpoint, copies the initial and safe frames, and groups the output channels by device
    phase; [sampled_io_frame_valid] is the test on every frame that enters or leaves a channel.

    An enumeration over eight or 32 bits is its value.  The frame header is read with [memcpy] on a
    little-endian machine; the structure has no padding (its declared size is 120).  Allocation failure
    is not modelled. *)

From stdpp Require Import base list numbers sorting sets strings.
From Stdlib Require Import ZArith Lia Bool.
From S2P Require Import Prelude Handles RateTimeline CanonicalBytes SnapshotCodec CrossRateTypes CrossRateData DeviceRatePlan RecordLayout.

Local Open Scope Z_scope.
Local Open Scope rtfw_scope.

(** ** Enumerations *)

Definition direction_input : Z := 1.
Definition direction_output : Z := 2.

Definition signed_int16_le : Z := 1.
Definition unsigned_int16_le : Z := 2.
Definition signed_int32_le : Z := 3.
Definition unsigned_int32_le : Z := 4.

Definition trigger_periodic : Z := 1.
Definition trigger_software : Z := 2.
Definition trigger_external : Z := 3.

Definition stale_fail_release : Z := 1.
Definition stale_hold_last : Z := 2.
Definition stale_substitute_initial : Z := 3.

Definition overrun_fail_release : Z := 1.
Definition overrun_reject_newest : Z := 2.

Definition underrun_fail_release : Z := 1.
Definition underrun_substitute_safe : Z := 2.

Definition status_initial : Z := 1.
Definition status_produced : Z := 2.
Definition status_safe : Z := 3.

Definition sampled_io_frame_version : Z := 1.
Definition sampled_io_channel_capacity : nat := cross_rate_channel_capacity.

(** The overloads of [enum_valid]. *)
Definition direction_valid (v : Z) : bool := (v =? direction_input) || (v =? direction_output).
Definition trigger_valid (v : Z) : bool :=
  (v =? trigger_periodic) || (v =? trigger_software) || (v =? trigger_external).
Definition stale_valid (v : Z) : bool :=
  (v =? stale_fail_release) || (v =? stale_hold_last) || (v =? stale_substitute_initial).
Definition overrun_valid (v : Z) : bool := (v =? overrun_fail_release) || (v =? overrun_reject_newest).
Definition underrun_valid (v : Z) : bool :=
  (v =? underrun_fail_release) || (v =? underrun_substitute_safe).

Definition sampled_io_encoding_bytes (encoding : Z) : Z :=
  if (encoding =? signed_int16_le) || (encoding =? unsigned_int16_le) then 2
  else if (encoding =? signed_int32_le) || (encoding =? unsigned_int32_le) then 4
  else 0.

(** The basis is not the one of the artifact codec. *)
Definition sampled_io_hash_offset : Z := 1469598103934665603.

Definition sampled_io_payload_checksum (payload : list Z) : Z :=
  foldl fnv_step sampled_io_hash_offset payload.

(** ** Records *)

Record SampledIoFrameHeader : Set := mkSampledHeader {
  sh_struct_size : Z;
  sh_version : Z;
  sh_channel_identity : Z;
  sh_sequence : Z;
  sh_release_generation : Z;
  sh_sample_count : Z;
  sh_encoding : Z;
  sh_timestamp_domain_identity : Z;
  sh_first_sample_timestamp : Z;
  sh_sample_interval_ns : Z;
  sh_trigger_identity : Z;
  sh_trigger_sequence : Z;
  sh_calibration_identity : Z;
  sh_payload_checksum : Z;
  sh_status : Z;
  sh_reserved0 : Z;
  sh_reserved : Z * Z
}.

Definition sampled_header_size : nat := 120.

(** The widths of the fields in declaration order. *)
Definition sampled_header_layout : list nat :=
  [4; 4; 8; 8; 8; 4; 4; 8; 8; 8; 8; 8; 8; 8; 4; 4; 8; 8]%nat.

Definition sampled_header_fields (h : SampledIoFrameHeader) : list Z :=
  [sh_struct_size h; sh_version h; sh_channel_identity h; sh_sequence h; sh_release_generation h;
   sh_sample_count h; sh_encoding h; sh_timestamp_domain_identity h; sh_first_sample_timestamp h;
   sh_sample_interval_ns h; sh_trigger_identity h; sh_trigger_sequence h; sh_calibration_identity h;
   sh_payload_checksum h; sh_status h; sh_reserved0 h; fst (sh_reserved h); snd (sh_reserved h)].

Definition sampled_header_of_fields (f : list Z) : SampledIoFrameHeader :=
  mkSampledHeader (f !!! 0%nat) (f !!! 1%nat) (f !!! 2%nat) (f !!! 3%nat) (f !!! 4%nat) (f !!! 5%nat)
    (f !!! 6%nat) (f !!! 7%nat) (f !!! 8%nat) (f !!! 9%nat) (f !!! 10%nat) (f !!! 11%nat) (f !!! 12%nat)
    (f !!! 13%nat) (f !!! 14%nat) (f !!! 15%nat) (f !!! 16%nat, f !!! 17%nat).

Record SampledIoChannelSpec : Set := mkSampledSpec {
  ss_channel : CrossRateChannelHandle;
  ss_direction : Z;
  ss_channel_identity : Z;
  ss_encoding : Z;
  ss_element_count : Z;
  ss_samples_per_frame : Z;
  ss_scale_numerator : Z;
  ss_scale_denominator : Z;
  ss_offset_numerator : Z;
  ss_offset_denominator : Z;
  ss_units_identity : Z;
  ss_calibration_identity : Z;
  ss_sample_period_ns : Z;
  ss_timestamp_domain_identity : Z;
  ss_clock_domain_identity : Z;
  ss_trigger_mode : Z;
  ss_trigger_identity : Z;
  ss_ring_capacity : Z;
  ss_initial_sequence : Z;
  ss_maximum_age_ns : Z;
  ss_stale_policy : Z;
  ss_overrun_policy : Z;
  ss_underrun_policy : Z;
  ss_safe_transition_timeout_ns : Z;
  ss_initial_frame : list Z;
  ss_startup_safe_frame : list Z;
  ss_failure_safe_frame : list Z;
  ss_shutdown_safe_frame : list Z
}.

Record CompiledSampledIoChannel : Set := mkSampledChannel {
  sc_channel : CrossRateChannelHandle;
  sc_registration_index : nat;
  sc_direction : Z;
  sc_channel_identity : Z;
  sc_encoding : Z;
  sc_element_count : Z;
  sc_samples_per_frame : Z;
  sc_frame_bytes : Z;
  sc_scale_numerator : Z;
  sc_scale_denominator : Z;
  sc_offset_numerator : Z;
  sc_offset_denominator : Z;
  sc_units_identity : Z;
  sc_calibration_identity : Z;
  sc_sample_period_ns : Z;
  sc_timestamp_domain_identity : Z;
  sc_clock_domain_identity : Z;
  sc_trigger_mode : Z;
  sc_trigger_identity : Z;
  sc_ring_capacity : Z;
  sc_initial_sequence : Z;
  sc_maximum_age_ns : Z;
  sc_stale_policy : Z;
  sc_overrun_policy : Z;
  sc_underrun_policy : Z;
  sc_safe_transition_timeout_ns : Z;
  sc_device_phase : PhaseHandle;
  sc_backend : Z;
  sc_payload_reference_ordinal : option nat
}.

Record CompiledSampledIoRecord : Set := mkSampledRecord {
  sr_public_record : CompiledSampledIoChannel;
  sr_cross_rate_channel_index : nat;
  sr_initial_offset : nat;
  sr_startup_safe_offset : nat;
  sr_failure_safe_offset : nat;
  sr_shutdown_safe_offset : nat
}.

Record CompiledSampledIoSafePhase : Set := mkSafePhase {
  sp_phase : PhaseHandle;
  sp_backend : Z;
  sp_first_channel_index : nat;
  sp_channel_count : nat;
  sp_reference_index : nat
}.

(** The index [size_t(-1)] of [channel_index_by_cross_rate] is [None]. *)
Record CompiledSampledIoPlan : Set := mkSampledPlan {
  sio_channels : list CompiledSampledIoRecord;
  sio_channel_index_by_cross_rate : list (option nat);
  sio_safe_channel_indices : list nat;
  sio_safe_phases : list CompiledSampledIoSafePhase;
  sio_frame_storage : list Z
}.

Definition empty_sampled_plan : CompiledSampledIoPlan := mkSampledPlan [] [] [] [] [].

Record SampledIoCompileDiagnostic : Set := mkSampledDiagnostic {
  sd_status : Status;
  sd_message : option string;
  sd_channel : CrossRateChannelHandle
}.

Definition sampled_error (s : Status) (message : string) (channel : CrossRateChannelHandle)
    : SampledIoCompileDiagnostic := mkSampledDiagnostic s (Some message) channel.

(** ** Frames *)

Definition sampled_io_read_header (frame : list Z) : option SampledIoFrameHeader :=
  if (length frame <? sampled_header_size)%nat then None
  else Some (sampled_header_of_fields (unpack sampled_header_layout (take sampled_header_size frame))).

Definition zero_reserved (h : SampledIoFrameHeader) : bool :=
  (sh_reserved0 h =? 0) && (fst (sh_reserved h) =? 0) && (snd (sh_reserved h) =? 0).

Definition sampled_io_frame_valid (frame : list Z) (channel : CompiledSampledIoChannel)
    (expected_status expected_sequence expected_release_generation : Z) (require_exact_sequence : bool)
    : bool :=
  match sampled_io_read_header frame with
  | None => false
  | Some h =>
      (Z.of_nat (length frame) =? sc_frame_bytes channel) &&
      (sh_struct_size h =? Z.of_nat sampled_header_size) && (sh_version h =? sampled_io_frame_version) &&
      (sh_channel_identity h =? sc_channel_identity channel) &&
      (sh_sample_count h =? sc_samples_per_frame channel) && (sh_encoding h =? sc_encoding channel) &&
      (sh_timestamp_domain_identity h =? sc_timestamp_domain_identity channel) &&
      (sh_sample_interval_ns h =? sc_sample_period_ns channel) &&
      (sh_trigger_identity h =? sc_trigger_identity channel) &&
      negb (require_exact_sequence && negb (sh_trigger_sequence h =? expected_sequence)) &&
      (sh_calibration_identity h =? sc_calibration_identity channel) &&
      (sh_status h =? expected_status) && zero_reserved h && negb (sh_sequence h =? 0) &&
      negb (require_exact_sequence &&
            (negb (sh_sequence h =? expected_sequence) ||
             negb (sh_release_generation h =? expected_release_generation))) &&
      negb (negb require_exact_sequence && negb (sh_release_generation h =? 0)) &&
      (sh_payload_checksum h =? sampled_io_payload_checksum (drop sampled_header_size frame))
  end.

(** ** Storage requests *)

Definition channel_position (h : CrossRateChannelHandle) : nat := Z.to_nat (CrossRateChannelHandle_index h).

(** A valid channel of this graph below [count]. *)
Definition channel_in_graph (graph_owner : Z) (count : nat) (h : CrossRateChannelHandle) : bool :=
  CrossRateChannelHandle_valid h && (CrossRateChannelHandle_owner h =? graph_owner) &&
  (channel_position h <? count)%nat.

(** [frame_bytes]: header and payload, each operation checked. *)
Definition sampled_frame_bytes (spec : SampledIoChannelSpec) : option Z :=
  match checked_multiply (ss_element_count spec) (ss_samples_per_frame spec) with
  | None => None
  | Some values =>
      match checked_multiply values (sampled_io_encoding_bytes (ss_encoding spec)) with
      | None => None
      | Some payload =>
          match checked_add (Z.of_nat sampled_header_size) payload with
          | None => None
          | Some bytes => if cross_rate_payload_capacity <? bytes then None else Some bytes
          end
      end
  end.

(** The test of a request for four slots. *)
Definition check_geometry (spec : SampledIoChannelSpec) (cross : CrossRateChannelSpec)
    : SampledIoCompileDiagnostic + unit :=
  let! _ := require (negb (sampled_io_encoding_bytes (ss_encoding spec) =? 0) &&
                     negb (ss_element_count spec =? 0) && negb (ss_samples_per_frame spec =? 0) &&
                     direction_valid (ss_direction spec))
    (sampled_error invalid_argument "sampled-I/O storage geometry is invalid" (ss_channel spec)) in
  match sampled_frame_bytes spec with
  | None => inl (sampled_error capacity_exceeded "sampled-I/O storage geometry overflows" (ss_channel spec))
  | Some bytes =>
      require ((bytes =? xc_payload_size cross) && bool_decide (ss_initial_frame spec = xc_initial_sample cross))
        (sampled_error invalid_argument "sampled-I/O storage shape disagrees with channel" (ss_channel spec))
  end.

(** The loop over the specifications: [earlier] are those before, [candidate] the slot counts and [seen]
    the channels taken. *)
Fixpoint resolve_slots (graph_owner : Z) (cross_rate_specs : list CrossRateChannelSpec)
    (earlier specifications : list SampledIoChannelSpec) (candidate : list nat) (seen : list bool)
    : SampledIoCompileDiagnostic + list nat :=
  match specifications with
  | [] => inr candidate
  | spec :: rest =>
      let position := channel_position (ss_channel spec) in
      let! _ := require (channel_in_graph graph_owner (length cross_rate_specs) (ss_channel spec) &&
                         negb (ss_channel_identity spec =? 0) &&
                         ((ss_ring_capacity spec =? 2) || (ss_ring_capacity spec =? 4)) &&
                         negb (seen !!! position))
        (sampled_error invalid_argument "sampled-I/O storage request is invalid" (ss_channel spec)) in
      let! _ := require (negb (existsb (fun prior => ss_channel_identity prior =? ss_channel_identity spec) earlier))
        (sampled_error invalid_argument "sampled-I/O storage identity is duplicated" (ss_channel spec)) in
      let! _ := (if ss_ring_capacity spec =? 4
                 then match cross_rate_specs !! position with
                      | Some cross => check_geometry spec cross
                      | None => inr tt
                      end
                 else inr tt) in
      resolve_slots graph_owner cross_rate_specs (earlier ++ [spec]) rest
        (<[position := Z.to_nat (ss_ring_capacity spec)]> candidate) (<[position := true]> seen)
  end.

(** The status, [slot_counts] and the diagnostic after the call. *)
Definition sampled_io_snapshot_slots (graph_owner : Z) (specifications : list SampledIoChannelSpec)
    (cross_rate_specs : list CrossRateChannelSpec) (slot_counts : list nat)
    : Status * list nat * SampledIoCompileDiagnostic :=
  if (cross_rate_channel_capacity <? length cross_rate_specs)%nat ||
     (sampled_io_channel_capacity <? length specifications)%nat ||
     negb (Nat.eqb (length slot_counts) (length cross_rate_specs))
  then
    let d := sampled_error capacity_exceeded "sampled-I/O storage capacity exceeded"
               CrossRateChannelHandle_default in
    (sd_status d, slot_counts, d)
  else
    match resolve_slots graph_owner cross_rate_specs [] specifications
            (replicate cross_rate_channel_capacity cross_rate_snapshot_slot_count)
            (replicate cross_rate_channel_capacity false) with
    | inl d => (sd_status d, slot_counts, d)
    | inr candidate =>
        (ok, take (length slot_counts) candidate, mkSampledDiagnostic ok None CrossRateChannelHandle_default)
    end.

(** ** The compiler *)

Section Compile.
Context (graph_owner : Z) (specifications : list SampledIoChannelSpec) (rate_plan : CompiledRatePlan).
Context (device_rate_plan : DeviceRatePlan) (cross_rate_specs : list CrossRateChannelSpec).
Context (cross_rate_plan : CompiledCrossRatePlan).

(** The vectors of the candidate that the loop over the descriptors fills. *)
Record SampledCandidate : Set := mkCandidate {
  sca_channels : list CompiledSampledIoRecord;
  sca_channel_index_by_cross_rate : list (option nat);
  sca_safe_channel_indices : list nat;
  sca_frame_storage : list Z
}.

Definition sampled_candidate_start : SampledCandidate :=
  mkCandidate [] (replicate (length (cx_channels cross_rate_plan)) None) [] [].

(** The first test on a descriptor. *)
Definition descriptor_valid (spec : SampledIoChannelSpec) (by_cross_rate : list (option nat)) : bool :=
  channel_in_graph graph_owner (length (cx_channels cross_rate_plan)) (ss_channel spec) &&
  (channel_position (ss_channel spec) <? length cross_rate_specs)%nat &&
  direction_valid (ss_direction spec) && negb (sampled_io_encoding_bytes (ss_encoding spec) =? 0) &&
  negb (ss_channel_identity spec =? 0) && negb (ss_element_count spec =? 0) &&
  negb (ss_samples_per_frame spec =? 0) && negb (ss_scale_denominator spec =? 0) &&
  negb (ss_offset_denominator spec =? 0) && negb (ss_units_identity spec =? 0) &&
  negb (ss_calibration_identity spec =? 0) && negb (ss_sample_period_ns spec =? 0) &&
  negb (ss_timestamp_domain_identity spec =? 0) && negb (ss_clock_domain_identity spec =? 0) &&
  trigger_valid (ss_trigger_mode spec) && negb (ss_trigger_identity spec =? 0) &&
  ((ss_ring_capacity spec =? 2) || (ss_ring_capacity spec =? 4)) &&
  negb (ss_initial_sequence spec =? 0) && stale_valid (ss_stale_policy spec) &&
  overrun_valid (ss_overrun_policy spec) && underrun_valid (ss_underrun_policy spec) &&
  bool_decide (by_cross_rate !!! channel_position (ss_channel spec) = None).

(** The endpoint of a channel that agrees with its descriptor. *)
Definition matching_endpoint (spec : SampledIoChannelSpec) (cross : CompiledCrossRateChannel)
    (cross_spec : CrossRateChannelSpec) (frame_bytes : Z) : option CrossRateDeviceEndpoint :=
  match mjoin (cx_device_endpoint_index_by_channel cross_rate_plan !! channel_position (ss_channel spec))
          ≫= (cx_device_endpoints cross_rate_plan !!.) with
  | Some endpoint =>
      if bool_decide (ccc_channel cross = ss_channel spec) && (ccc_payload_size cross =? frame_bytes) &&
         bool_decide (xc_initial_sample cross_spec = ss_initial_frame spec) &&
         (ccc_maximum_age_ns cross =? ss_maximum_age_ns spec) &&
         (Z.of_nat (ccc_snapshot_slot_count cross) =? ss_ring_capacity spec)
      then Some endpoint
      else None
  | None => None
  end.

(** The direction and timestamp domain of the descriptor against the endpoint. *)
Definition endpoint_agrees (spec : SampledIoChannelSpec) (cross : CompiledCrossRateChannel)
    (endpoint : CrossRateDeviceEndpoint) : bool :=
  (if ss_direction spec =? direction_input
   then ep_producer endpoint && selector_valid (ccc_producer_device cross) &&
        negb (selector_valid (ccc_consumer_device cross))
   else negb (ep_producer endpoint) && selector_valid (ccc_consumer_device cross) &&
        negb (selector_valid (ccc_producer_device cross))) &&
  negb (span_size (ep_host_storage endpoint) =? 0) && negb (ep_slot_count endpoint =? 0) &&
  (ep_slot_count endpoint <=? ss_ring_capacity spec) &&
  (ep_timestamp_domain_identity endpoint =?
   (if ss_direction spec =? direction_input then ss_timestamp_domain_identity spec
    else cross_rate_runtime_logical_timestamp_domain_identity)) &&
  negb ((ss_direction spec =? direction_output) &&
        negb (ss_timestamp_domain_identity spec =? cross_rate_runtime_logical_timestamp_domain_identity)).

(** [record.public_record] *)
Definition public_record (index : nat) (spec : SampledIoChannelSpec) (cross : CompiledCrossRateChannel)
    (endpoint : CrossRateDeviceEndpoint) (frame_bytes : Z) : CompiledSampledIoChannel :=
  {| sc_channel := ss_channel spec;
     sc_registration_index := index;
     sc_direction := ss_direction spec;
     sc_channel_identity := ss_channel_identity spec;
     sc_encoding := ss_encoding spec;
     sc_element_count := ss_element_count spec;
     sc_samples_per_frame := ss_samples_per_frame spec;
     sc_frame_bytes := frame_bytes;
     sc_scale_numerator := ss_scale_numerator spec;
     sc_scale_denominator := ss_scale_denominator spec;
     sc_offset_numerator := ss_offset_numerator spec;
     sc_offset_denominator := ss_offset_denominator spec;
     sc_units_identity := ss_units_identity spec;
     sc_calibration_identity := ss_calibration_identity spec;
     sc_sample_period_ns := ss_sample_period_ns spec;
     sc_timestamp_domain_identity := ss_timestamp_domain_identity spec;
     sc_clock_domain_identity := ss_clock_domain_identity spec;
     sc_trigger_mode := ss_trigger_mode spec;
     sc_trigger_identity := ss_trigger_identity spec;
     sc_ring_capacity := ss_ring_capacity spec;
     sc_initial_sequence := ss_initial_sequence spec;
     sc_maximum_age_ns := ss_maximum_age_ns spec;
     sc_stale_policy := ss_stale_policy spec;
     sc_overrun_policy := ss_overrun_policy spec;
     sc_underrun_policy := ss_underrun_policy spec;
     sc_safe_transition_timeout_ns := ss_safe_transition_timeout_ns spec;
     sc_device_phase := ep_phase endpoint;
     sc_backend := ep_backend endpoint;
     sc_payload_reference_ordinal :=
       if ss_direction spec =? direction_input
       then payload_reference_ordinal (ccc_producer_device cross)
       else payload_reference_ordinal (ccc_consumer_device cross) |}.

(** [append_frame]: the storage after it and the offset of the frame. *)
Definition append_frame (channel : CompiledSampledIoChannel) (initial_sequence : Z) (bytes : list Z)
    (status : Z) (storage : list Z) : option (nat * list Z) :=
  if sampled_io_frame_valid bytes channel status initial_sequence 0 false
  then Some (length storage, storage ++ bytes)
  else None.

(** The three safe frames of an output. *)
Definition append_safe_frames (channel : CompiledSampledIoChannel) (spec : SampledIoChannelSpec)
    (storage : list Z) : option (nat * nat * nat * list Z) :=
  match append_frame channel (ss_initial_sequence spec) (ss_startup_safe_frame spec) status_safe storage with
  | None => None
  | Some (startup, storage1) =>
      match append_frame channel (ss_initial_sequence spec) (ss_failure_safe_frame spec) status_safe storage1 with
      | None => None
      | Some (failure, storage2) =>
          match append_frame channel (ss_initial_sequence spec) (ss_shutdown_safe_frame spec) status_safe
                  storage2 with
          | None => None
          | Some (shutdown, storage3) => Some (startup, failure, shutdown, storage3)
          end
      end
  end.

Definition input_frames_absent (spec : SampledIoChannelSpec) : bool :=
  Nat.eqb (length (ss_startup_safe_frame spec)) 0 && Nat.eqb (length (ss_failure_safe_frame spec)) 0 &&
  Nat.eqb (length (ss_shutdown_safe_frame spec)) 0 && (ss_safe_transition_timeout_ns spec =? 0) &&
  negb (ss_underrun_policy spec =? underrun_substitute_safe).

(** The body of the loop over the descriptors. *)
Definition compile_sampled_channel (index : nat) (spec : SampledIoChannelSpec) (c : SampledCandidate)
    : SampledIoCompileDiagnostic + SampledCandidate :=
  let channel_index := channel_position (ss_channel spec) in
  let error message := sampled_error invalid_argument message (ss_channel spec) in
  let! _ := require (descriptor_valid spec (sca_channel_index_by_cross_rate c))
    (error "sampled-I/O descriptor fields or identity are invalid") in
  match sampled_frame_bytes spec, cx_channels cross_rate_plan !! channel_index,
        cross_rate_specs !! channel_index with
  | Some frame_bytes, Some cross, Some cross_spec =>
      match matching_endpoint spec cross cross_spec frame_bytes with
      | None => inl (error "sampled-I/O descriptor disagrees with its cross-rate channel")
      | Some endpoint =>
          let! _ := require (endpoint_agrees spec cross endpoint)
            (error "sampled-I/O direction or timestamp domain disagrees with its device endpoint") in
          let channel := public_record index spec cross endpoint frame_bytes in
          match snd <$> list_find (fun p => dp_phase p = ep_phase endpoint) (drp_phases device_rate_plan) with
          | None => inl (error "sampled-I/O endpoint has no admitted device-rate phase")
          | Some phase =>
              match append_frame channel (ss_initial_sequence spec) (ss_initial_frame spec) status_initial
                      (sca_frame_storage c) with
              | None => inl (error "sampled-I/O initial frame is invalid")
              | Some (initial, storage) =>
                  let! (record, safe, storage') :=
                    (if ss_direction spec =? direction_input then
                       let! _ := require (input_frames_absent spec)
                         (error "sampled input cannot declare output safe frames") in
                       inr (mkSampledRecord channel channel_index initial 0 0 0, [], storage)
                     else
                       match (if (ss_safe_transition_timeout_ns spec =? 0) || negb (dp_wait_count phase =? 0) ||
                                 (dp_signal_count phase =? 0)
                              then None else append_safe_frames channel spec storage) with
                       | None =>
                           inl (error "sampled output safe frames or phase timeline shape are invalid")
                       | Some (startup, failure, shutdown, storage3) =>
                           inr (mkSampledRecord channel channel_index initial startup failure shutdown,
                                [index], storage3)
                       end) in
                  inr (mkCandidate (sca_channels c ++ [record])
                         (<[channel_index := Some index]> (sca_channel_index_by_cross_rate c))
                         (sca_safe_channel_indices c ++ safe) storage')
              end
          end
      end
  | None, _, _ => inl (sampled_error capacity_exceeded "sampled-I/O frame geometry overflows" (ss_channel spec))
  | _, _, _ => inr c
  end.

Fixpoint compile_sampled_channels (index : nat) (specs : list SampledIoChannelSpec) (c : SampledCandidate)
    : SampledIoCompileDiagnostic + SampledCandidate :=
  match specs with
  | [] => inr c
  | spec :: rest => let! c' := compile_sampled_channel index spec c in compile_sampled_channels (S index) rest c'
  end.

(** The record of an entry of [safe_channel_indices]. *)
Definition safe_record (channels : list CompiledSampledIoRecord) (index : nat) : option CompiledSampledIoChannel :=
  sr_public_record <$> channels !! index.

(** The device phase and the identity of an entry. *)
Definition safe_key (channels : list CompiledSampledIoRecord) (index : nat) : Z * Z :=
  from_option (fun a => (PhaseHandle_index (sc_device_phase a), sc_channel_identity a)) (0, 0)
    (safe_record channels index).

Definition safe_less (channels : list CompiledSampledIoRecord) (l r : nat) : bool :=
  let '(i, a) := safe_key channels l in
  let '(j, b) := safe_key channels r in
  if negb (i =? j) then i <? j else a <? b.

(** The grouping loop: [cursor] is the position of the first index left. *)
Fixpoint group_safe_phases (channels : list CompiledSampledIoRecord) (fuel cursor : nat) (indices : list nat)
    : SampledIoCompileDiagnostic + list CompiledSampledIoSafePhase :=
  match fuel, indices with
  | _, [] => inr []
  | O, _ :: _ => inl (sampled_error internal_error "" CrossRateChannelHandle_default)
  | S fuel', index :: rest =>
      match safe_record channels index with
      | None => inr []
      | Some first =>
          let same := run_length (fun i => bool_decide (sc_device_phase <$> safe_record channels i =
                                                        Some (sc_device_phase first))) rest in
          match list_find (fun r => rr_phase r = sc_device_phase first) (pl_releases rate_plan) with
          | None => inl (sampled_error invalid_argument "sampled output phase has no reference release"
                           (sc_channel first))
          | Some (reference, _) =>
              let! groups := group_safe_phases channels fuel' (cursor + S same) (drop same rest) in
              inr (mkSafePhase (sc_device_phase first) (sc_backend first) cursor (S same) reference :: groups)
          end
      end
  end.

Definition compile_sampled_candidate : SampledIoCompileDiagnostic + CompiledSampledIoPlan :=
  let! c := compile_sampled_channels 0 specifications sampled_candidate_start in
  let indices := std_sort (safe_less (sca_channels c)) (sca_safe_channel_indices c) in
  let! groups := group_safe_phases (sca_channels c) (length indices) 0 indices in
  inr (mkSampledPlan (sca_channels c) (sca_channel_index_by_cross_rate c) indices groups (sca_frame_storage c)).

(** The status, [output] and the diagnostic after the call. *)
Definition compile_sampled_io (output : CompiledSampledIoPlan)
    : Status * CompiledSampledIoPlan * SampledIoCompileDiagnostic :=
  let none := mkSampledDiagnostic ok None CrossRateChannelHandle_default in
  if (sampled_io_channel_capacity <? length specifications)%nat then
    let d := sampled_error capacity_exceeded "sampled-I/O channel capacity exceeded"
               CrossRateChannelHandle_default in
    (sd_status d, output, d)
  else if Nat.eqb (length specifications) 0 then (ok, empty_sampled_plan, none)
  else
    match compile_sampled_candidate with
    | inl d => (sd_status d, output, d)
    | inr plan => (ok, plan, none)
    end.
End Compile.
