(* ===== verification/SampledIoFrames.v ===== *)
(** * Sampled I/O: frames

    The frames [sampled_io_frame_valid] accepts under an expected sequence are determined up to the
    timestamp of the first sample: every other byte of the header is fixed by the channel, the
    expectation and the payload. *)

From stdpp Require Import base list numbers sorting sets strings.
From Stdlib Require Import ZArith Lia Bool.
From S2P Require Import Prelude Handles RateTimeline RateTimelineTheorems CanonicalBytes SnapshotCodec CodecFields CrossRateTypes CrossRateData DeviceRatePlan DeviceRatePhases RecordLayout SampledIo.

Local Open Scope Z_scope.
Local Open Scope rtfw_scope.

(** The header of a frame of [channel] with the given sequence, generation, status, timestamp and
    checksum. *)
Definition exact_header (channel : CompiledSampledIoChannel) (status sequence generation timestamp checksum : Z)
    : SampledIoFrameHeader :=
  mkSampledHeader (Z.of_nat sampled_header_size) sampled_io_frame_version (sc_channel_identity channel) sequence
    generation (sc_samples_per_frame channel) (sc_encoding channel) (sc_timestamp_domain_identity channel)
    timestamp (sc_sample_period_ns channel) (sc_trigger_identity channel) sequence
    (sc_calibration_identity channel) checksum status 0 (0, 0).

Definition encode_frame (h : SampledIoFrameHeader) (payload : list Z) : list Z :=
  pack sampled_header_layout (sampled_header_fields h) ++ payload.

(** The fields of a channel that a frame carries have the widths of their types. *)
Definition sampled_channel_typed (channel : CompiledSampledIoChannel) : Prop :=
  is_u64 (sc_channel_identity channel) /\ is_u32 (sc_samples_per_frame channel) /\ is_u32 (sc_encoding channel) /\
  is_u64 (sc_timestamp_domain_identity channel) /\ is_u64 (sc_sample_period_ns channel) /\
  is_u64 (sc_trigger_identity channel) /\ is_u64 (sc_calibration_identity channel).

Lemma sampled_checksum_u64 payload : is_u64 (sampled_io_payload_checksum payload).
Proof. apply fnv_fold_u64. unfold is_u64, u64_max, sampled_io_hash_offset. lia. Qed.

Lemma exact_header_fits channel status sequence generation timestamp checksum :
  sampled_channel_typed channel -> is_u32 status -> is_u64 sequence -> is_u64 generation -> is_u64 timestamp ->
  is_u64 checksum ->
  Forall2 field_fits_width sampled_header_layout
    (sampled_header_fields (exact_header channel status sequence generation timestamp checksum)).
Proof.
  unfold sampled_channel_typed, is_u64, is_u32, u64_max, u32_max, sampled_header_layout, sampled_header_fields.
  intros. destruct_and!.
  rewrite !Forall2_cons. unfold field_fits_width. simpl. split_and!; try lia; done.
Qed.

Lemma length_frame_header h : length (pack sampled_header_layout (sampled_header_fields h)) = sampled_header_size.
Proof. rewrite length_pack by done. done. Qed.

(** Reading back an encoded header. *)
Lemma read_encoded h payload :
  Forall2 field_fits_width sampled_header_layout (sampled_header_fields h) ->
  sampled_io_read_header (encode_frame h payload) = Some h.
Proof.
  intros Hf. unfold sampled_io_read_header, encode_frame. rewrite length_app, length_frame_header.
  rewrite (proj2 (Nat.ltb_ge _ _)) by lia. rewrite take_app_length' by (by rewrite length_frame_header).
  rewrite unpack_pack by done. by destruct h as [? ? ? ? ? ? ? ? ? ? ? ? ? ? ? ? []].
Qed.

(** A frame is the encoding of the header read from it. *)
Lemma encode_read frame h :
  bytes_ok frame -> sampled_io_read_header frame = Some h ->
  frame = encode_frame h (drop sampled_header_size frame) /\
  Forall2 field_fits_width sampled_header_layout (sampled_header_fields h).
Proof.
  unfold sampled_io_read_header. intros Hb. destruct (Nat.ltb_spec (length frame) sampled_header_size); [done|].
  intros <-%(inj Some). unfold encode_frame.
  set (fields := unpack sampled_header_layout (take sampled_header_size frame)).
  assert (Hl : length fields = 18%nat) by apply length_unpack.
  assert (sampled_header_fields (sampled_header_of_fields fields) = fields) as ->.
  { destruct_length fields. done. }
  assert (Hs : length (take sampled_header_size frame) = sum_list sampled_header_layout).
  { rewrite length_take. change (sum_list sampled_header_layout) with sampled_header_size. lia. }
  unfold fields. rewrite pack_unpack; [|by apply Forall_take|done]. split; [by rewrite take_drop|].
  by apply unpack_fits; [apply Forall_take|].
Qed.

(** The tests of the exact mode fix the header. *)
Lemma frame_valid_header frame channel status sequence generation :
  sampled_io_frame_valid frame channel status sequence generation true = true <->
  sequence <> 0 /\ Z.of_nat (length frame) = sc_frame_bytes channel /\
  exists timestamp, sampled_io_read_header frame =
    Some (exact_header channel status sequence generation timestamp
            (sampled_io_payload_checksum (drop sampled_header_size frame))).
Proof.
  unfold sampled_io_frame_valid. destruct (sampled_io_read_header frame) as [h|]; [|naive_solver].
  unfold zero_reserved, exact_header. simpl. rewrite andb_true_r.
  rewrite !andb_true_iff, !negb_true_iff, orb_false_iff, !negb_false_iff, !Z.eqb_eq, Z.eqb_neq.
  destruct h as [? ? ? ? ? ? ? ? ts ? ? ? ? ? ? ? []]; simpl in *.
  split; [intros; destruct_and!; subst; split_and!; [done..|by exists ts]|].
  intros (? & ? & ts' & Heq). injection Heq as -> -> -> -> -> -> -> -> -> -> -> -> -> -> -> -> -> ->. done.
Qed.

(** Under an expected sequence the accepted frames are exactly the encodings of the channel's
    header: the frame has the compiled size, and its bytes are those of the header fixed by the
    channel, the expected status, sequence and release generation and the checksum of the payload,
    followed by the payload; only the timestamp of the first sample is free. *)
Lemma frame_valid_exact frame channel status sequence generation :
  bytes_ok frame -> sampled_channel_typed channel -> is_u32 status -> is_u64 sequence -> is_u64 generation ->
  sampled_io_frame_valid frame channel status sequence generation true = true <->
  sequence <> 0 /\ Z.of_nat (length frame) = sc_frame_bytes channel /\
  exists timestamp payload, is_u64 timestamp /\
    frame = encode_frame (exact_header channel status sequence generation timestamp
                            (sampled_io_payload_checksum payload)) payload.
Proof.
  intros Hb Hc Hs Hq Hg. rewrite frame_valid_header.
  split; intros (Hne & Hlen & ts & H); split_and!; try done.
  - exists ts, (drop sampled_header_size frame). apply encode_read in H as [H Hf]; [|done]. split; [|done].
    apply (Forall2_lookup_lr _ _ _ 8 8%nat ts) in Hf; [|done..].
    unfold field_fits_width in Hf. unfold is_u64, u64_max. lia.
  - destruct H as (payload & Hts & ->). exists ts. unfold encode_frame at 2.
    rewrite drop_app_length' by (by rewrite length_frame_header). apply read_encoded, exact_header_fits; try done.
    apply sampled_checksum_u64.
Qed.

(** ** Corruption *)

(** The header bytes before and after the timestamp. *)
Definition header_prefix (channel : CompiledSampledIoChannel) (sequence generation : Z) : list Z :=
  pack [4; 4; 8; 8; 8; 4; 4; 8]%nat
    [Z.of_nat sampled_header_size; sampled_io_frame_version; sc_channel_identity channel; sequence; generation;
     sc_samples_per_frame channel; sc_encoding channel; sc_timestamp_domain_identity channel].

Definition header_suffix (channel : CompiledSampledIoChannel) (status sequence checksum : Z) : list Z :=
  pack [8; 8; 8; 8; 8; 4; 4; 8; 8]%nat
    [sc_sample_period_ns channel; sc_trigger_identity channel; sequence; sc_calibration_identity channel; checksum;
     status; 0; 0; 0].

Lemma pack_app ws ws' fs fs' : length ws = length fs -> pack (ws ++ ws') (fs ++ fs') = pack ws fs ++ pack ws' fs'.
Proof.
  revert fs. induction ws as [|w ws IH]; intros [|f fs] H; simplify_eq/=; [done|]. by rewrite IH, app_assoc.
Qed.

Lemma encode_exact channel status sequence generation timestamp checksum payload :
  encode_frame (exact_header channel status sequence generation timestamp checksum) payload =
  header_prefix channel sequence generation ++ le_split 8 timestamp ++
    header_suffix channel status sequence checksum ++ payload.
Proof.
  unfold encode_frame, header_prefix, header_suffix.
  change sampled_header_layout with ([4; 4; 8; 8; 8; 4; 4; 8] ++ [8] ++ [8; 8; 8; 8; 8; 4; 4; 8; 8])%nat.
  match goal with |- pack _ ?f ++ _ = _ => change f with (take 8 f ++ (take 1 (drop 8 f) ++ drop 9 f)) end.
  rewrite pack_app, pack_app by done. rewrite <- !app_assoc. f_equal.
Qed.

Lemma length_header_prefix channel sequence generation : length (header_prefix channel sequence generation) = 48%nat.
Proof. unfold header_prefix. by rewrite length_pack. Qed.

Lemma length_header_suffix channel status sequence checksum :
  length (header_suffix channel status sequence checksum) = 64%nat.
Proof. unfold header_suffix. by rewrite length_pack. Qed.

(** The checksum can be read off the suffix. *)
Lemma header_suffix_checksum channel status sequence checksum checksum' :
  is_u64 checksum -> is_u64 checksum' ->
  header_suffix channel status sequence checksum = header_suffix channel status sequence checksum' ->
  checksum = checksum'.
Proof.
  unfold is_u64, u64_max. intros H H' E. apply (f_equal (fun l => le_combine (take 8 (drop 32 l)))) in E.
  change (le_combine (le_split 8 checksum) = le_combine (le_split 8 checksum')) in E.
  by rewrite !le_combine_split in E by (simpl; lia).
Qed.

(** The payload checksum sees every byte. *)
Lemma sampled_checksum_change payload k x b :
  bytes_ok payload -> payload !! k = Some x -> is_u8 b -> x <> b ->
  sampled_io_payload_checksum (<[k := b]> payload) <> sampled_io_payload_checksum payload.
Proof.
  intros Hb Hk Hbu Hne. unfold sampled_io_payload_checksum.
  rewrite insert_take_drop by (by eapply lookup_lt_Some).
  rewrite <- (take_drop_middle _ _ _ Hk) at 3. intros E. symmetry in E. revert E.
  apply fnv_fold_change_from; [done| |done|done]. by rewrite take_drop_middle.
Qed.

(** The parts of an encoded frame. *)
Lemma frame_parts (A T B payload : list Z) i :
  length A = 48%nat -> length T = 8%nat -> length B = 64%nat ->
  drop 120 (A ++ T ++ B ++ payload) = payload /\
  ((i < 48)%nat -> (A ++ T ++ B ++ payload) !! i = A !! i) /\
  ((56 <= i)%nat -> (A ++ T ++ B ++ payload) !! i = (B ++ payload) !! (i - 56)%nat).
Proof.
  intros HA HT HB. split_and!.
  - rewrite app_assoc, app_assoc. apply drop_app_length'. rewrite !length_app. lia.
  - intros Hi. by rewrite lookup_app_l by lia.
  - intros Hi. rewrite lookup_app_r, lookup_app_r by lia. f_equal. lia.
Qed.

Section Corruption.
Context (frame : list Z) (channel : CompiledSampledIoChannel) (status sequence generation : Z) (p : nat) (x b : Z).
Context (frame_bytes : bytes_ok frame) (channel_typed : sampled_channel_typed channel) (status_typed : is_u32 status).
Context (sequence_typed : is_u64 sequence) (generation_typed : is_u64 generation).
Context (valid : sampled_io_frame_valid frame channel status sequence generation true = true).
Context (at_p : frame !! p = Some x) (byte : is_u8 b) (changed : x <> b).

Lemma corrupted_bytes : bytes_ok (<[p := b]> frame).
Proof. by apply Forall_insert. Qed.

Lemma timestamp_unread :
  (48 <= p < 56)%nat -> sampled_io_frame_valid (<[p := b]> frame) channel status sequence generation true = true.
Proof.
  intros Hin. apply frame_valid_exact in valid as (Hseq & Hlen & ts & payload & Hts & Hf); [|done..].
  rewrite encode_exact in Hf. set (T := <[(p - 48)%nat := b]> (le_split 8 ts)).
  assert (HTl : length T = 8%nat) by (unfold T; by rewrite length_insert, length_le_split).
  assert (HTb : bytes_ok T) by (apply Forall_insert; [apply le_split_bytes|done]).
  apply frame_valid_exact; try done; [apply corrupted_bytes|]. split_and!; [done|by rewrite length_insert|].
  exists (le_combine T), payload. split.
  - pose proof (le_combine_bound T HTb) as H. rewrite HTl in H. unfold is_u64, u64_max. lia.
  - rewrite encode_exact, Hf, le_split_combine by done.
    rewrite insert_app_r_alt, insert_app_l by (rewrite length_header_prefix, ?length_le_split; lia).
    by rewrite length_header_prefix.
Qed.

Lemma corruption_refused :
  sampled_io_frame_valid (<[p := b]> frame) channel status sequence generation true = true -> (48 <= p < 56)%nat.
Proof.
  intros Hv. assert (Hlt : (p < length frame)%nat) by (by eapply lookup_lt_Some).
  assert (Hp' : <[p := b]> frame !! p = Some b) by (by apply list_lookup_insert_eq).
  apply frame_valid_exact in Hv as (_ & _ & ts' & payload' & _ & Hf'); [|done || apply corrupted_bytes..].
  apply frame_valid_exact in valid as (_ & _ & ts & payload & _ & Hf); [|done..].
  rewrite encode_exact in Hf, Hf'.
  pose proof (fun k => frame_parts _ _ _ payload k (length_header_prefix channel sequence generation)
    (length_le_split 8 ts) (length_header_suffix channel status sequence (sampled_io_payload_checksum payload))) as F.
  pose proof (fun k => frame_parts _ _ _ payload' k (length_header_prefix channel sequence generation)
    (length_le_split 8 ts') (length_header_suffix channel status sequence (sampled_io_payload_checksum payload'))) as F'.
  setoid_rewrite <- Hf in F. setoid_rewrite <- Hf' in F'.
  destruct (F p) as (Hpay & H1 & H2), (F' p) as (Hpay' & H1' & H2').
  destruct (decide (p < 48)%nat) as [H48|H48]; [|destruct (decide (p < 120)%nat) as [H120|H120]].
  - rewrite H1 in at_p by done. rewrite H1' in Hp' by done. congruence.
  - destruct (decide (p < 56)%nat); [lia|]. rewrite drop_insert_lt in Hpay' by lia.
    assert (payload' = payload) as -> by congruence.
    rewrite H2 in at_p by lia. rewrite H2' in Hp' by lia. congruence.
  - exfalso. rewrite drop_insert_ge, Hpay in Hpay' by lia.
    apply (sampled_checksum_change payload (p - 120) x b); [rewrite <- Hpay; by apply Forall_drop| |done|done|].
    { rewrite <- Hpay, lookup_drop. by replace (120 + (p - 120))%nat with p by lia. }
    rewrite Hpay'. symmetry.
    apply (header_suffix_checksum channel status sequence); [apply sampled_checksum_u64..|].
    apply list_eq. intros i. destruct (decide (i < 64)%nat); [|by rewrite !lookup_ge_None_2 by (rewrite length_header_suffix; lia)].
    destruct (F (i + 56)%nat) as (_ & _ & E), (F' (i + 56)%nat) as (_ & _ & E').
    rewrite list_lookup_insert_ne in E' by lia. rewrite E in E' by lia. specialize (E' ltac:(lia)).
    rewrite !lookup_app_l in E' by (rewrite length_header_suffix; lia).
    by replace (i + 56 - 56)%nat with i in E' by lia.
Qed.
End Corruption.

(** An accepted frame with one byte changed is refused, wherever the byte is, unless it is one
    of the eight bytes of the first sample's timestamp, which no test reads. *)
Theorem sampled_frame_corruption frame channel status sequence generation p x b :
  bytes_ok frame -> sampled_channel_typed channel -> is_u32 status -> is_u64 sequence -> is_u64 generation ->
  sampled_io_frame_valid frame channel status sequence generation true = true ->
  frame !! p = Some x -> is_u8 b -> x <> b ->
  sampled_io_frame_valid (<[p := b]> frame) channel status sequence generation true =
    bool_decide (48 <= p < 56)%nat.
Proof.
  intros. case_bool_decide as Hin.
  - by apply (timestamp_unread frame channel status sequence generation p b).
  - apply not_true_iff_false. intros Hv. by apply Hin, (corruption_refused frame channel status sequence generation p x b).
Qed.

(** A frame of one 16-bit sample, with a sample bit flipped. *)
Definition corruption_channel : CompiledSampledIoChannel :=
  mkSampledChannel (CrossRateChannelHandle_make 7 0) 0 direction_output 5 signed_int16_le 1 1 122 1 1 0 1 3 8 50 1 9
    trigger_periodic 6 2 1 1000 stale_fail_release overrun_fail_release underrun_fail_release 10000
    (PhaseHandle_make 7 0) 0 (Some 0%nat).

Definition corruption_frame : list Z :=
  encode_frame (exact_header corruption_channel status_produced 3 4 1000 (sampled_io_payload_checksum [1; 2])) [1; 2].

Lemma sampled_frame_corruption_witness :
  sampled_io_frame_valid (<[121%nat := 3]> corruption_frame) corruption_channel status_produced 3 4 true = false.
Proof.
  refine (sampled_frame_corruption corruption_frame corruption_channel status_produced 3 4 121 2 3 _ _ _ _ _ _ _ _ _).
  - apply Forall_app. split; [apply pack_bytes|]. repeat constructor; vm_compute; discriminate.
  - unfold sampled_channel_typed, is_u64, is_u32, u64_max, u32_max. simpl. unfold signed_int16_le. lia.
  - unfold is_u32, u32_max, status_produced. lia.
  - unfold is_u64, u64_max. lia.
  - unfold is_u64, u64_max. lia.
  - vm_compute. reflexivity.
  - vm_compute. reflexivity.
  - unfold is_u8. lia.
  - discriminate.
Defined.

(** * Sampled I/O: storage requests and the compiled plan *)

Local Open Scope Z_scope.
Local Open Scope rtfw_scope.

(** ** Storage requests *)

(** The fields of a descriptor have the widths of their types. *)
Definition spec_typed (spec : SampledIoChannelSpec) : Prop :=
  is_u32 (ss_element_count spec) /\ is_u32 (ss_samples_per_frame spec) /\ is_u64 (ss_channel_identity spec) /\
  is_u64 (ss_timestamp_domain_identity spec) /\ is_u64 (ss_sample_period_ns spec) /\
  is_u64 (ss_trigger_identity spec) /\ is_u64 (ss_calibration_identity spec) /\ is_u8 (ss_encoding spec).

Lemma encoding_bytes_range encoding : 0 <= sampled_io_encoding_bytes encoding <= 4.
Proof. unfold sampled_io_encoding_bytes. repeat case_match; lia. Qed.

(** Header and samples, without overflow and within a channel payload. *)
Lemma sampled_frame_bytes_spec spec bytes :
  spec_typed spec -> sampled_frame_bytes spec = Some bytes ->
  bytes = Z.of_nat sampled_header_size +
          ss_element_count spec * ss_samples_per_frame spec * sampled_io_encoding_bytes (ss_encoding spec) /\
  Z.of_nat sampled_header_size <= bytes <= cross_rate_payload_capacity.
Proof.
  unfold spec_typed, sampled_frame_bytes. intros (He & Hs & _) H. pose proof (encoding_bytes_range (ss_encoding spec)) as Hw.
  assert (U : forall z, is_u32 z -> is_u64 z) by (unfold is_u32, is_u64, u32_max, u64_max; lia).
  destruct (checked_multiply (ss_element_count spec) (ss_samples_per_frame spec)) as [values|] eqn:E1; [|done].
  apply checked_multiply_Some in E1 as [B1 ->]; [|by apply U..].
  assert (0 <= ss_element_count spec * ss_samples_per_frame spec) by (unfold is_u32 in *; nia).
  destruct (checked_multiply _ (sampled_io_encoding_bytes (ss_encoding spec))) as [payload|] eqn:E2; [|done].
  apply checked_multiply_Some in E2 as [B2 ->]; [|unfold is_u64, u64_max in *; lia..].
  destruct (checked_add _ _) as [total|] eqn:E3; [|done].
  apply checked_add_Some in E3 as [B3 ->]; [|unfold is_u64, u64_max, sampled_header_size in *; nia..].
  destruct (Z.ltb_spec cross_rate_payload_capacity (Z.of_nat sampled_header_size +
    ss_element_count spec * ss_samples_per_frame spec * sampled_io_encoding_bytes (ss_encoding spec))); [done|].
  injection H as <-. split; [done|]. nia.
Qed.

(** What an accepted request was checked against. *)
Definition request_ok (graph_owner : Z) (cross_rate_specs : list CrossRateChannelSpec) (spec : SampledIoChannelSpec)
    : Prop :=
  channel_in_graph graph_owner (length cross_rate_specs) (ss_channel spec) = true /\ ss_channel_identity spec <> 0 /\
  (ss_ring_capacity spec = 2 \/ ss_ring_capacity spec = 4) /\
  (ss_ring_capacity spec = 4 ->
   exists cross, cross_rate_specs !! channel_position (ss_channel spec) = Some cross /\
     sampled_io_encoding_bytes (ss_encoding spec) <> 0 /\ ss_element_count spec <> 0 /\
     ss_samples_per_frame spec <> 0 /\ direction_valid (ss_direction spec) = true /\
     sampled_frame_bytes spec = Some (xc_payload_size cross) /\ ss_initial_frame spec = xc_initial_sample cross).

Lemma check_geometry_inr spec cross u :
  check_geometry spec cross = inr u ->
  sampled_io_encoding_bytes (ss_encoding spec) <> 0 /\ ss_element_count spec <> 0 /\
  ss_samples_per_frame spec <> 0 /\ direction_valid (ss_direction spec) = true /\
  sampled_frame_bytes spec = Some (xc_payload_size cross) /\ ss_initial_frame spec = xc_initial_sample cross.
Proof.
  unfold check_geometry. intros (v & H1%require_inr & H)%sum_bind_inr.
  rewrite !andb_true_iff, !negb_true_iff, !Z.eqb_neq in H1.
  destruct (sampled_frame_bytes spec) as [bytes|]; [|done].
  apply require_inr in H. rewrite andb_true_iff, bool_decide_eq_true, Z.eqb_eq in H. destruct H as [-> ->].
  destruct_and!. done.
Qed.

Lemma channel_in_graph_lt graph_owner count h : channel_in_graph graph_owner count h = true -> (channel_position h < count)%nat.
Proof. unfold channel_in_graph. rewrite !andb_true_iff, Nat.ltb_lt. tauto. Qed.

(** The loop over the requests. *)
Lemma resolve_slots_spec graph_owner cross_rate_specs earlier specs candidate seen out :
  resolve_slots graph_owner cross_rate_specs earlier specs candidate seen = inr out ->
  (length cross_rate_specs <= length candidate)%nat -> length seen = length candidate ->
  Forall (request_ok graph_owner cross_rate_specs) specs /\
  NoDup (channel_position ∘ ss_channel <$> specs) /\
  (forall spec, spec ∈ specs -> seen !!! channel_position (ss_channel spec) = false) /\
  NoDup (ss_channel_identity <$> specs) /\
  (forall spec prior, spec ∈ specs -> prior ∈ earlier -> ss_channel_identity prior <> ss_channel_identity spec) /\
  length out = length candidate /\
  (forall spec, spec ∈ specs -> out !! channel_position (ss_channel spec) = Some (Z.to_nat (ss_ring_capacity spec))) /\
  (forall k, k ∉ (channel_position ∘ ss_channel <$> specs) -> out !! k = candidate !! k).
Proof.
  revert earlier candidate seen. induction specs as [|spec specs IH]; intros earlier candidate seen H Hl Hs; simpl in H.
  { injection H as <-. split_and!; try done; try constructor; intros ? *; rewrite elem_of_nil; tauto. }
  apply sum_bind_inr in H as (u1 & H1%require_inr & H). rewrite !andb_true_iff, orb_true_iff, !negb_true_iff, !Z.eqb_eq, Z.eqb_neq in H1.
  destruct H1 as [[[G1 G2] G3] G4].
  apply sum_bind_inr in H as (u2 & H2%require_inr & H). apply negb_true_iff in H2.
  apply sum_bind_inr in H as (u3 & H3 & H). apply channel_in_graph_lt in G1 as Hlt.
  apply IH in H as (F & N1 & S1 & N2 & S2 & L & O1 & O2); [|by rewrite length_insert|by rewrite !length_insert].
  assert (Hfresh : channel_position (ss_channel spec) ∉ (channel_position ∘ ss_channel <$> specs)).
  { intros [s [Heq Hin]]%list_elem_of_fmap. apply S1 in Hin as Hf. simpl in Heq. rewrite <- Heq in Hf.
    rewrite list_lookup_total_insert_eq in Hf by lia. done. }
  split_and!.
  - constructor; [|done]. split_and!; [done..|]. intros H4. rewrite H4 in H3. simpl in H3.
    destruct (cross_rate_specs !! channel_position (ss_channel spec)) as [cross|] eqn:Hc.
    + exists cross. split; [done|]. by apply check_geometry_inr in H3.
    + apply lookup_ge_None_1 in Hc. lia.
  - csimpl. by constructor.
  - intros s [->|Hin]%elem_of_cons; [done|]. apply S1 in Hin as Hf.
    destruct (decide (channel_position (ss_channel spec) = channel_position (ss_channel s))) as [E|E].
    + rewrite E, list_lookup_total_insert_eq in Hf by (rewrite <- E; lia). done.
    + by rewrite list_lookup_total_insert_ne in Hf.
  - csimpl. constructor; [|done]. intros [s [Heq Hin]]%list_elem_of_fmap.
    apply (S2 s spec Hin); [|done]. apply elem_of_app. right. by left.
  - intros s prior [->|Hin]%elem_of_cons Hp.
    + intros Heq. rewrite <- not_true_iff_false in H2. apply H2, existsb_exists. exists prior.
      split; [by apply list_elem_of_In|]. by apply Z.eqb_eq.
    + apply (S2 s prior Hin). apply elem_of_app. by left.
  - by rewrite L, length_insert.
  - intros s [->|Hin]%elem_of_cons; [|by apply O1]. rewrite O2 by done. apply list_lookup_insert_eq. lia.
  - intros k Hk. csimpl in Hk. rewrite not_elem_of_cons in Hk. destruct Hk as [Hne Hk].
    rewrite O2 by done. apply list_lookup_insert_ne. intros E. by apply Hne.
Qed.

Lemma check_geometry_complete graph_owner cross_rate_specs spec :
  request_ok graph_owner cross_rate_specs spec -> ss_ring_capacity spec = 4 ->
  exists cross, cross_rate_specs !! channel_position (ss_channel spec) = Some cross /\ check_geometry spec cross = inr tt.
Proof.
  intros (_ & _ & _ & H) H4. destruct (H H4) as (cross & Hc & E1 & E2 & E3 & E4 & E5 & E6). exists cross. split; [done|].
  unfold check_geometry. rewrite E4, E5, (proj2 (Z.eqb_neq _ _) E1), (proj2 (Z.eqb_neq _ _) E2), (proj2 (Z.eqb_neq _ _) E3).
  simpl. by rewrite Z.eqb_refl, E6, bool_decide_true.
Qed.

Lemma resolve_slots_complete graph_owner cross_rate_specs earlier specs candidate seen :
  (length cross_rate_specs <= length candidate)%nat -> length seen = length candidate ->
  Forall (request_ok graph_owner cross_rate_specs) specs ->
  NoDup (channel_position ∘ ss_channel <$> specs) ->
  (forall spec, spec ∈ specs -> seen !!! channel_position (ss_channel spec) = false) ->
  NoDup (ss_channel_identity <$> (earlier ++ specs)) ->
  exists out, resolve_slots graph_owner cross_rate_specs earlier specs candidate seen = inr out.
Proof.
  revert earlier candidate seen. induction specs as [|spec specs IH]; intros earlier candidate seen Hl Hs HF Hp Hseen Hid; simpl.
  { by eexists. }
  apply Forall_cons_iff in HF as [Hr HF]. csimpl in Hp. apply NoDup_cons in Hp as [Hfresh Hp].
  pose proof Hr as (G1 & G2 & G3 & _). rewrite G1, (proj2 (Z.eqb_neq _ _) G2), Hseen by (by left).
  assert ((ss_ring_capacity spec =? 2) || (ss_ring_capacity spec =? 4) = true) as ->.
  { apply orb_true_iff. rewrite !Z.eqb_eq. done. }
  simpl. assert (existsb (fun prior => ss_channel_identity prior =? ss_channel_identity spec) earlier = false) as ->.
  { apply not_true_iff_false. intros (prior & Hin & Heq%Z.eqb_eq)%existsb_exists. apply list_elem_of_In in Hin.
    rewrite fmap_app in Hid. apply NoDup_app in Hid as (_ & Hd & _).
    apply (Hd (ss_channel_identity prior)); [by apply list_elem_of_fmap_2|]. rewrite Heq. csimpl. by left. }
  simpl. assert ((if ss_ring_capacity spec =? 4
    then match cross_rate_specs !! channel_position (ss_channel spec) with
         | Some cross => check_geometry spec cross | None => inr tt end else inr tt) = inr tt) as ->.
  { destruct (Z.eqb_spec (ss_ring_capacity spec) 4) as [H4|]; [|done].
    destruct (check_geometry_complete _ _ _ Hr H4) as (cross & -> & ->). done. }
  simpl. apply IH; [by rewrite length_insert|by rewrite !length_insert|done|done| |by rewrite <- app_assoc].
  intros s Hin. rewrite list_lookup_total_insert_ne; [apply Hseen; by right|].
  intros E. apply Hfresh. rewrite E. by apply (list_elem_of_fmap_2 (channel_position ∘ ss_channel)).
Qed.

(** Every refusal carries an error status. *)
Definition sampled_refuses (d : SampledIoCompileDiagnostic) : Prop := sd_status d <> ok.

Lemma check_geometry_error spec cross : fails_with sampled_refuses (check_geometry spec cross).
Proof. unfold check_geometry. error_cases. Qed.

Lemma resolve_slots_error graph_owner cross_rate_specs earlier specs candidate seen :
  fails_with sampled_refuses (resolve_slots graph_owner cross_rate_specs earlier specs candidate seen).
Proof.
  revert earlier candidate seen. induction specs as [|spec specs IH]; intros earlier candidate seen; simpl; [done|].
  apply fails_with_bind; [by apply fails_with_require|intros _].
  apply fails_with_bind; [by apply fails_with_require|intros _].
  apply fails_with_bind; [|by intros _]. case_match; [|done]. case_match; [apply check_geometry_error|done].
Qed.

(** [sampled_io_snapshot_slots] accepts exactly the request lists within the capacities whose
    descriptors name distinct channels of this graph with distinct identities and ask for two or four
    slots, four only with the geometry and initial frame of the channel; it then gives every sampled
    channel the slots it asked for and every other channel two.  A refused call leaves the
    destination as it was. *)
Theorem sampled_io_slots_exact graph_owner specs cross_rate_specs slot_counts :
  let '(status, slots, diagnostic) :=
    sampled_io_snapshot_slots graph_owner specs cross_rate_specs slot_counts in
  (status = ok <->
     (length cross_rate_specs <= cross_rate_channel_capacity)%nat /\
     (length specs <= sampled_io_channel_capacity)%nat /\ length slot_counts = length cross_rate_specs /\
     Forall (request_ok graph_owner cross_rate_specs) specs /\
     NoDup (channel_position ∘ ss_channel <$> specs) /\ NoDup (ss_channel_identity <$> specs)) /\
  (status = ok ->
     length slots = length slot_counts /\
     (forall spec, spec ∈ specs -> slots !! channel_position (ss_channel spec) = Some (Z.to_nat (ss_ring_capacity spec))) /\
     (forall k, (k < length slots)%nat -> k ∉ (channel_position ∘ ss_channel <$> specs) ->
        slots !! k = Some cross_rate_snapshot_slot_count)) /\
  (status <> ok -> slots = slot_counts /\ sd_status diagnostic = status).
Proof.
  unfold sampled_io_snapshot_slots.
  destruct (Nat.ltb_spec cross_rate_channel_capacity (length cross_rate_specs)); cbn [orb negb]; [split; [split; [done|lia]|done]|].
  destruct (Nat.ltb_spec sampled_io_channel_capacity (length specs)); cbn [orb negb]; [split; [split; [done|lia]|done]|].
  destruct (Nat.eqb_spec (length slot_counts) (length cross_rate_specs)) as [Hlen|]; cbn [orb negb]; [|split; [split; [done|lia]|done]].
  pose proof (lookup_replicate cross_rate_channel_capacity cross_rate_snapshot_slot_count) as Hslots.
  pose proof (lookup_replicate cross_rate_channel_capacity false) as Hseen.
  pose proof (length_replicate cross_rate_channel_capacity cross_rate_snapshot_slot_count) as L1.
  pose proof (length_replicate cross_rate_channel_capacity false) as L2.
  revert Hslots Hseen L1 L2. generalize (replicate cross_rate_channel_capacity cross_rate_snapshot_slot_count).
  generalize (replicate cross_rate_channel_capacity false). intros seen slots0 Hslots Hseen L1 L2.
  destruct (resolve_slots _ _ _ _ _ _) as [d|out] eqn:Hr.
  - pose proof (resolve_slots_error graph_owner cross_rate_specs [] specs slots0 seen) as He.
    rewrite Hr in He. simpl in He. split_and!; [|done|done]. split; [done|]. intros (_ & _ & _ & HF & Hp & Hid).
    destruct (resolve_slots_complete graph_owner cross_rate_specs [] specs slots0 seen) as [out Hout];
      try done; try lia; [|congruence].
    intros spec Hin. rewrite Forall_forall in HF. destruct (HF _ Hin) as (Hg%channel_in_graph_lt & _).
    apply list_lookup_total_correct, Hseen. split; [done|]. lia.
  - apply resolve_slots_spec in Hr as (HF & Hp & _ & Hid & _ & L & O1 & O2); [|lia..].
    split_and!; [by split|intros _|done]. split_and!.
    + rewrite length_take. lia.
    + intros spec Hin. rewrite Forall_forall in HF. destruct (HF _ Hin) as (Hg%channel_in_graph_lt & _).
      rewrite lookup_take_lt by lia. by apply O1.
    + intros k Hk Hnot. rewrite length_take in Hk. rewrite lookup_take_lt, O2 by (done || lia).
      apply Hslots. split; [done|]. lia.
Qed.
