(* ===== verification/SampledIoResults.v ===== *)
(** * Sampled I/O: the compiled plan

    The loop over the descriptors keeps the records, the frame storage and the index of the channels
    consistent; the output channels are then grouped by device phase. *)

From stdpp Require Import base list numbers sorting sets strings.
From Stdlib Require Import ZArith Lia Bool.
From S2P Require Import Prelude Handles RateTimeline CanonicalBytes SnapshotCodec CodecFields DeviceCommands DeviceCommandTheorems CrossRateTypes CrossRateData DeviceRatePlan DeviceRatePhases DeviceRateAdmission DeviceRateTheorems RecordLayout SampledIo SampledIoFrames.

Local Open Scope Z_scope.
Local Open Scope rtfw_scope.

(** ** Stored frames *)

(** The frame lies in the storage at [offset] and passes the test with the given status. *)
Definition frame_stored (channel : CompiledSampledIoChannel) (initial_sequence status : Z) (storage : list Z)
    (offset : nat) (frame : list Z) : Prop :=
  (offset + length frame <= length storage)%nat /\ subspan storage offset (length frame) = frame /\
  sampled_io_frame_valid frame channel status initial_sequence 0 false = true.

Lemma frame_stored_app channel sequence status storage more offset frame :
  frame_stored channel sequence status storage offset frame ->
  frame_stored channel sequence status (storage ++ more) offset frame.
Proof.
  intros (H1 & H2 & H3). split_and!; [rewrite length_app; lia| |done]. by rewrite subspan_app_l.
Qed.

Lemma append_frame_spec channel sequence bytes status storage offset storage' :
  append_frame channel sequence bytes status storage = Some (offset, storage') ->
  offset = length storage /\ storage' = storage ++ bytes /\
  frame_stored channel sequence status storage' offset bytes.
Proof.
  unfold append_frame. case_match eqn:Hv; [|done]. intros [= <- <-]. split_and!; [done..|].
  split_and!; [rewrite length_app; lia| |done]. unfold subspan. by rewrite drop_app_length, take_ge.
Qed.

Lemma append_safe_frames_spec channel spec storage startup failure shutdown storage' :
  append_safe_frames channel spec storage = Some (startup, failure, shutdown, storage') ->
  (exists more, storage' = storage ++ more) /\
  frame_stored channel (ss_initial_sequence spec) status_safe storage' startup (ss_startup_safe_frame spec) /\
  frame_stored channel (ss_initial_sequence spec) status_safe storage' failure (ss_failure_safe_frame spec) /\
  frame_stored channel (ss_initial_sequence spec) status_safe storage' shutdown (ss_shutdown_safe_frame spec).
Proof.
  unfold append_safe_frames.
  destruct (append_frame _ _ (ss_startup_safe_frame spec) _ _) as [[o1 s1]|] eqn:E1; [|done].
  destruct (append_frame _ _ (ss_failure_safe_frame spec) _ _) as [[o2 s2]|] eqn:E2; [|done].
  destruct (append_frame _ _ (ss_shutdown_safe_frame spec) _ _) as [[o3 s3]|] eqn:E3; [|done].
  intros [= <- <- <- <-].
  apply append_frame_spec in E1 as (-> & -> & F1), E2 as (-> & -> & F2), E3 as (-> & -> & F3).
  split_and!; [by rewrite <- !app_assoc; eexists| |by apply frame_stored_app|done].
  by apply frame_stored_app, frame_stored_app.
Qed.

Section Plan.
Context (graph_owner : Z) (specifications : list SampledIoChannelSpec) (rate_plan : CompiledRatePlan).
Context (device_rate_plan : DeviceRatePlan) (cross_rate_specs : list CrossRateChannelSpec).
Context (cross_rate_plan : CompiledCrossRatePlan).

Abbreviation position spec := (channel_position (ss_channel spec)).

(** What the record of a descriptor was checked against, and where its frames are. *)
Definition record_ok (storage : list Z) (index : nat) (spec : SampledIoChannelSpec) (record : CompiledSampledIoRecord)
    : Prop :=
  exists cross cross_spec endpoint phase frame_bytes,
    cx_channels cross_rate_plan !! position spec = Some cross /\
    cross_rate_specs !! position spec = Some cross_spec /\
    sampled_frame_bytes spec = Some frame_bytes /\
    matching_endpoint cross_rate_plan spec cross cross_spec frame_bytes = Some endpoint /\
    endpoint_agrees spec cross endpoint = true /\
    phase ∈ drp_phases device_rate_plan /\ dp_phase phase = ep_phase endpoint /\
    sr_public_record record = public_record index spec cross endpoint frame_bytes /\
    sr_cross_rate_channel_index record = position spec /\
    frame_stored (sr_public_record record) (ss_initial_sequence spec) status_initial storage
      (sr_initial_offset record) (ss_initial_frame spec) /\
    (ss_direction spec = direction_input -> input_frames_absent spec = true) /\
    (ss_direction spec = direction_output ->
     ss_safe_transition_timeout_ns spec <> 0 /\ dp_wait_count phase = 0 /\ dp_signal_count phase <> 0 /\
     frame_stored (sr_public_record record) (ss_initial_sequence spec) status_safe storage
       (sr_startup_safe_offset record) (ss_startup_safe_frame spec) /\
     frame_stored (sr_public_record record) (ss_initial_sequence spec) status_safe storage
       (sr_failure_safe_offset record) (ss_failure_safe_frame spec) /\
     frame_stored (sr_public_record record) (ss_initial_sequence spec) status_safe storage
       (sr_shutdown_safe_offset record) (ss_shutdown_safe_frame spec)).

Lemma record_ok_app storage more index spec record :
  record_ok storage index spec record -> record_ok (storage ++ more) index spec record.
Proof.
  intros (cross & cs & ep & ph & fb & H1 & H2 & H3 & H4 & H5 & H6 & H7 & H8 & H9 & H10 & H11 & H12).
  exists cross, cs, ep, ph, fb. split_and!; try done; [by apply frame_stored_app|].
  intros Ho. destruct (H12 Ho) as (? & ? & ? & ? & ? & ?). split_and!; try done; by apply frame_stored_app.
Qed.

Lemma descriptor_valid_spec spec table :
  descriptor_valid graph_owner cross_rate_specs cross_rate_plan spec table = true ->
  (position spec < length (cx_channels cross_rate_plan))%nat /\ (position spec < length cross_rate_specs)%nat /\
  direction_valid (ss_direction spec) = true /\ table !!! position spec = None.
Proof.
  unfold descriptor_valid, channel_in_graph. rewrite !andb_true_iff, !Nat.ltb_lt. intros [H Hn].
  apply bool_decide_eq_true in Hn. tauto.
Qed.

(** What one round of the loop adds. *)
Lemma compile_sampled_channel_spec index spec c c' :
  length (sca_channel_index_by_cross_rate c) = length (cx_channels cross_rate_plan) ->
  compile_sampled_channel graph_owner device_rate_plan cross_rate_specs cross_rate_plan index spec c = inr c' ->
  exists record more,
    sca_channels c' = sca_channels c ++ [record] /\
    sca_channel_index_by_cross_rate c' = <[position spec := Some index]> (sca_channel_index_by_cross_rate c) /\
    sca_safe_channel_indices c' =
      sca_safe_channel_indices c ++ (if ss_direction spec =? direction_output then [index] else []) /\
    sca_frame_storage c' = sca_frame_storage c ++ more /\
    record_ok (sca_frame_storage c') index spec record /\
    descriptor_valid graph_owner cross_rate_specs cross_rate_plan spec (sca_channel_index_by_cross_rate c) = true.
Proof.
  intros Hlen H. unfold compile_sampled_channel in H. apply sum_bind_inr in H as (u & Hd%require_inr & H).
  pose proof Hd as (P1 & P2 & Hdir & _)%descriptor_valid_spec.
  destruct (sampled_frame_bytes spec) as [fb|] eqn:Hfb; [|done].
  destruct (lookup_lt_is_Some_2 _ _ P1) as [cross Hcross]. rewrite Hcross in H.
  destruct (lookup_lt_is_Some_2 _ _ P2) as [cs Hcs]. rewrite Hcs in H.
  destruct (matching_endpoint _ _ _ _ _) as [ep|] eqn:Hep; [|done].
  apply sum_bind_inr in H as (u2 & He%require_inr & H).
  destruct (list_find _ (drp_phases device_rate_plan)) as [[j phase]|] eqn:Hph; simpl in H; [|done].
  apply list_find_Some in Hph as (Hj & Hphase & _). apply list_elem_of_lookup_2 in Hj.
  destruct (append_frame _ _ (ss_initial_frame spec) _ _) as [[initial storage]|] eqn:Hi; [|done].
  apply append_frame_spec in Hi as (-> & -> & Hi). apply sum_bind_inr in H as (r & Hr & H).
  unfold direction_valid in Hdir. apply orb_true_iff in Hdir.
  destruct (Z.eqb_spec (ss_direction spec) direction_input) as [Hin|Hin].
  - apply sum_bind_inr in Hr as (u3 & Hab%require_inr & [= <-]). injection H as <-. simpl.
    do 2 eexists. split_and!; [done|done| |done| |done].
    + rewrite Hin. done.
    + exists cross, cs, ep, phase, fb. split_and!; try done. intros Ho. by rewrite Hin in Ho.
  - destruct Hdir as [Hdir|Hdir%Z.eqb_eq]; [done|].
    destruct ((ss_safe_transition_timeout_ns spec =? 0) || negb (dp_wait_count phase =? 0) || (dp_signal_count phase =? 0)) eqn:Hg; [done|].
    rewrite !orb_false_iff, negb_false_iff, Z.eqb_eq, !Z.eqb_neq in Hg. destruct Hg as [[G1 G2] G3].
    destruct (append_safe_frames _ _ _) as [[[[startup failure] shutdown] storage3]|] eqn:Hsafe; [|done].
    apply append_safe_frames_spec in Hsafe as ([more ->] & S1 & S2 & S3).
    injection Hr as <-. injection H as <-. simpl. do 2 eexists. split_and!; [done|done| |by rewrite <- app_assoc| |done].
    + by rewrite Hdir.
    + exists cross, cs, ep, phase, fb. split_and!; try done. by apply frame_stored_app.
Qed.

Definition output_channel (index : nat) : bool :=
  from_option (fun spec => ss_direction spec =? direction_output) false (specifications !! index).

(** The invariant of the loop: the first [index] descriptors are compiled. *)
Record candidate_inv (index : nat) (c : SampledCandidate) : Prop := {
  ci_length : length (sca_channels c) = index;
  ci_records : forall k spec, (k < index)%nat -> specifications !! k = Some spec ->
    exists record, sca_channels c !! k = Some record /\ record_ok (sca_frame_storage c) k spec record;
  ci_table_length : length (sca_channel_index_by_cross_rate c) = length (cx_channels cross_rate_plan);
  ci_table : forall p k, sca_channel_index_by_cross_rate c !! p = Some (Some k) <->
    (k < index)%nat /\ exists spec, specifications !! k = Some spec /\ position spec = p;
  ci_safe : sca_safe_channel_indices c = filter (fun k => output_channel k = true) (seq 0 index);
}.

Lemma candidate_inv_start : candidate_inv 0 (sampled_candidate_start cross_rate_plan).
Proof.
  constructor; simpl; try done; try lia.
  - apply length_replicate.
  - intros p k. split; [|lia]. intros H. by apply lookup_replicate in H as [? _].
Qed.

Lemma candidate_inv_step index spec c c' :
  candidate_inv index c -> specifications !! index = Some spec ->
  compile_sampled_channel graph_owner device_rate_plan cross_rate_specs cross_rate_plan index spec c = inr c' ->
  candidate_inv (S index) c'.
Proof.
  intros [I1 I2 I3 I4 I5] Hspec H.
  apply compile_sampled_channel_spec in H as (record & more & E1 & E2 & E3 & E4 & Hok & Hd); [|done].
  assert (Hpos : sca_channel_index_by_cross_rate c !! position spec = Some None).
  { apply descriptor_valid_spec in Hd as (P & _ & _ & Hn). rewrite <- I3 in P.
    apply lookup_lt_is_Some_2 in P as [o Ho]. rewrite Ho. by rewrite (list_lookup_total_correct _ _ _ Ho) in Hn; subst. }
  constructor.
  - rewrite E1, length_app. simpl. lia.
  - intros k spec' Hk Hs. rewrite E1. destruct (decide (k = index)) as [->|Hne].
    + rewrite lookup_app_r, I1, Nat.sub_diag by lia. exists record. split; [done|]. congruence.
    + destruct (I2 k spec') as (r & Hr & Hro); [lia|done|]. exists r.
      rewrite lookup_app_l by lia. split; [done|]. rewrite E4. by apply record_ok_app.
  - by rewrite E2, length_insert.
  - intros p k. rewrite E2. destruct (decide (p = position spec)) as [->|Hne].
    + rewrite list_lookup_insert_eq by (by eapply lookup_lt_Some). split.
      * intros [= <-]. split; [lia|]. eauto.
      * intros (Hk & s & Hs & Hp). destruct (decide (k = index)) as [->|Hki]; [done|].
        assert (sca_channel_index_by_cross_rate c !! position spec = Some (Some k)) by (apply I4; split; [lia|eauto]). congruence.
    + rewrite list_lookup_insert_ne, I4 by done. split; [intros (? & ?); split; [lia|done]|].
      intros (Hk & s & Hs & Hp). split; [|eauto]. destruct (decide (k = index)); [subst; congruence|lia].
  - rewrite E3, I5, seq_S, filter_app. f_equal. simpl. unfold output_channel. rewrite filter_cons, Hspec. simpl.
    case_decide as Hd'; [by rewrite Hd'|]. by destruct (ss_direction spec =? direction_output).
Qed.

Lemma compile_sampled_channels_inv index specs c c' :
  candidate_inv index c -> drop index specifications = specs ->
  compile_sampled_channels graph_owner device_rate_plan cross_rate_specs cross_rate_plan index specs c = inr c' ->
  candidate_inv (index + length specs) c'.
Proof.
  revert index c. induction specs as [|spec specs IH]; intros index c Hinv Hdrop H; cbn [compile_sampled_channels] in H.
  { injection H as <-. by rewrite Nat.add_0_r. }
  apply sum_bind_inr in H as (c1 & H1 & H).
  assert (Hs : specifications !! index = Some spec).
  { rewrite <- (Nat.add_0_r index), <- lookup_drop, Hdrop. done. }
  apply (candidate_inv_step _ _ _ _ Hinv Hs) in H1. apply IH in H; [by simpl; rewrite <- plus_n_Sm|done|].
  erewrite drop_S in Hdrop by done. by injection Hdrop.
Qed.

(** ** Safe phases *)

(** Groups of consecutive entries of the same phase, with the first release of the phase. *)
Inductive grouped (channels : list CompiledSampledIoRecord) : nat -> list nat -> list CompiledSampledIoSafePhase -> Prop :=
| grouped_nil cursor : grouped channels cursor [] []
| grouped_cons cursor run rest group groups reference r :
    run <> [] -> length run = sp_channel_count group -> sp_first_channel_index group = cursor ->
    Forall (fun i => sc_device_phase <$> safe_record channels i = Some (sp_phase group)) run ->
    (forall i, head rest = Some i -> sc_device_phase <$> safe_record channels i <> Some (sp_phase group)) ->
    list_find (fun r => rr_phase r = sp_phase group) (pl_releases rate_plan) = Some (reference, r) ->
    sp_reference_index group = reference ->
    grouped channels (cursor + length run) rest groups ->
    grouped channels cursor (run ++ rest) (group :: groups).

Lemma run_length_spec {A} (test : A -> bool) (l : list A) :
  (run_length test l <= length l)%nat /\ Forall (fun x => test x = true) (take (run_length test l) l) /\
  (forall x, head (drop (run_length test l) l) = Some x -> test x = false).
Proof.
  induction l as [|x l (H1 & H2 & H3)]; simpl; [split_and!; [done|constructor|done]|].
  destruct (test x) eqn:Hx; simpl; [split_and!; [lia|by constructor|done]|].
  split_and!; [lia|constructor|]. by intros y [= <-].
Qed.

Lemma group_safe_phases_spec channels fuel cursor indices groups :
  (forall i, i ∈ indices -> is_Some (safe_record channels i)) -> (length indices <= fuel)%nat ->
  group_safe_phases rate_plan channels fuel cursor indices = inr groups -> grouped channels cursor indices groups.
Proof.
  revert cursor indices groups. induction fuel as [|fuel IH]; intros cursor [|index rest] groups Hs Hf H; simpl in *;
    try (injection H as <-; constructor); [lia|].
  destruct (safe_record channels index) as [first|] eqn:Hfirst.
  2: { destruct (Hs index) as [? ?]; [by left|congruence]. }
  set (same := fun i => bool_decide (sc_device_phase <$> safe_record channels i = Some (sc_device_phase first))) in H.
  destruct (run_length_spec same rest) as (L & F & D).
  destruct (list_find _ (pl_releases rate_plan)) as [[reference r]|] eqn:Hr; [|done].
  apply sum_bind_inr in H as (rest_groups & H & [= <-]).
  apply IH in H; [| |rewrite length_drop; lia].
  2: { intros i Hi. apply Hs. right. rewrite <- (take_drop (run_length same rest) rest). apply elem_of_app. by right. }
  replace (index :: rest) with ((index :: take (run_length same rest) rest) ++ drop (run_length same rest) rest)
    by (simpl; by rewrite take_drop).
  apply (grouped_cons channels cursor _ _ _ _ reference r); simpl; [done| |done| | |done|done|].
  - rewrite length_take. lia.
  - constructor; [by rewrite Hfirst|]. eapply Forall_impl; [exact F|]. intros i Hi. by apply bool_decide_eq_true in Hi.
  - intros i Hi. apply D in Hi. by apply bool_decide_eq_false in Hi.
  - rewrite length_take, Nat.min_l by lia. done.
Qed.

(** Every entry is in a group, and every group is a run of entries of its phase. *)
Lemma grouped_cover channels cursor indices groups :
  grouped channels cursor indices groups ->
  (forall k i, indices !! k = Some i -> exists g, g ∈ groups /\
     (sp_first_channel_index g <= cursor + k < sp_first_channel_index g + sp_channel_count g)%nat /\
     sc_device_phase <$> safe_record channels i = Some (sp_phase g)) /\
  (forall g, g ∈ groups -> (0 < sp_channel_count g)%nat /\ (cursor <= sp_first_channel_index g)%nat /\
     (sp_first_channel_index g + sp_channel_count g <= cursor + length indices)%nat /\
     exists r, list_find (fun r => rr_phase r = sp_phase g) (pl_releases rate_plan) = Some (sp_reference_index g, r)).
Proof.
  induction 1 as [cursor|cursor run rest g groups reference r Hne Hlen Hfirst HF _ Hr Href _ (IH1 & IH2)].
  { split; [by intros k i Hk|]. intros g Hg. by apply elem_of_nil in Hg. }
  split.
  - intros k i Hk. apply lookup_app_Some in Hk as [Hk|[Hge Hk]].
    + exists g. pose proof (lookup_lt_Some _ _ _ Hk). rewrite Forall_lookup in HF.
      split_and!; [by left|lia|lia|by eapply HF].
    + apply IH1 in Hk as (g' & Hg' & Hk & Hp). exists g'. split_and!; [by right|lia|lia|done].
  - intros g' [->|Hg']%elem_of_cons.
    + split_and!; [|lia|rewrite length_app; lia|subst reference; eauto].
      destruct run; [done|]. simpl in Hlen. lia.
    + destruct (IH2 g' Hg') as (? & ? & ? & ?). rewrite length_app. split_and!; [done|lia|lia|done].
Qed.

(** With the entries sorted by phase, no phase has two groups. *)
Lemma grouped_distinct channels cursor indices groups (key : nat -> Z) :
  grouped channels cursor indices groups ->
  StronglySorted (fun i j => key i <= key j) indices ->
  (forall i j h h', i ∈ indices -> j ∈ indices ->
     sc_device_phase <$> safe_record channels i = Some h -> sc_device_phase <$> safe_record channels j = Some h' ->
     (key i = key j <-> h = h')) ->
  NoDup (sp_phase <$> groups) /\
  (forall g, g ∈ groups -> exists i, i ∈ indices /\ sc_device_phase <$> safe_record channels i = Some (sp_phase g)).
Proof.
  induction 1 as [cursor|cursor run rest g groups reference r Hne Hlen Hfirst HF Hhead Hr Href Hg IH]; intros Hsort Hkey.
  { split; [constructor|]. intros g Hg. by apply elem_of_nil in Hg. }
  apply StronglySorted_app in Hsort as (Hcross & _ & Hrest).
  destruct IH as [IH1 IH2]; [done|intros; apply Hkey; try done; set_solver|].
  destruct run as [|i0 run]; [done|]. apply Forall_cons_iff in HF as [Hi0 _].
  split.
  - csimpl. constructor; [|done]. intros [g' [Heq Hg']]%list_elem_of_fmap.
    destruct (IH2 g' Hg') as (j & Hj & Hjp). rewrite <- Heq in Hjp.
    destruct rest as [|h rest]; [by apply elem_of_nil in Hj|].
    assert (Hh : is_Some (sc_device_phase <$> safe_record channels h)).
    { apply grouped_cover in Hg as [Hc _]. destruct (Hc 0%nat h eq_refl) as (? & _ & _ & ->). done. }
    destruct Hh as [ph Hh].
    assert (key i0 = key j) as E1 by (eapply Hkey; [set_solver|set_solver|exact Hi0|exact Hjp|done]).
    assert (key h <= key j) as E2.
    { apply elem_of_cons in Hj as [->|Hj]; [done|]. apply StronglySorted_inv in Hrest as [_ HF].
      rewrite Forall_forall in HF. by apply HF. }
    assert (key i0 <= key h) as E3 by (apply Hcross; set_solver).
    apply (Hhead h eq_refl). rewrite Hh. f_equal. eapply (Hkey h i0); [set_solver|set_solver|done|done|lia].
  - intros g' [->|Hg']%elem_of_cons; [exists i0; split; [set_solver|done]|].
    destruct (IH2 g' Hg') as (j & Hj & Hjp). exists j. split; [set_solver|done].
Qed.
End Plan.

(** * Sampled I/O: the accepted plan *)

Local Open Scope Z_scope.
Local Open Scope rtfw_scope.

Section Accepted.
Context (graph_owner : Z) (specifications : list SampledIoChannelSpec) (rate_plan : CompiledRatePlan).
Context (device_rate_plan : DeviceRatePlan) (cross_rate_specs : list CrossRateChannelSpec).
Context (cross_rate_plan : CompiledCrossRatePlan) (output plan : CompiledSampledIoPlan).
Context (diagnostic : SampledIoCompileDiagnostic).

Abbreviation compile :=
  (compile_sampled_io graph_owner specifications rate_plan device_rate_plan cross_rate_specs cross_rate_plan output).

Lemma compile_sampled_channel_error index spec c :
  fails_with sampled_refuses
    (compile_sampled_channel graph_owner device_rate_plan cross_rate_specs cross_rate_plan index spec c).
Proof.
  unfold compile_sampled_channel. apply fails_with_bind; [by apply fails_with_require|intros _].
  destruct (sampled_frame_bytes spec); [|done]. destruct (cx_channels _ !! _); [|done].
  destruct (cross_rate_specs !! _); [|done]. destruct (matching_endpoint _ _ _ _ _); [|done].
  apply fails_with_bind; [by apply fails_with_require|intros _]. destruct (snd <$> _); [|done].
  destruct (append_frame _ _ _ _ _) as [[initial storage]|]; [|done].
  apply fails_with_bind; [|by intros [[? ?] ?]]. destruct (ss_direction spec =? direction_input).
  - apply fails_with_bind; [by apply fails_with_require|done].
  - repeat case_match; done.
Qed.

Lemma compile_sampled_channels_error index specs c :
  fails_with sampled_refuses
    (compile_sampled_channels graph_owner device_rate_plan cross_rate_specs cross_rate_plan index specs c).
Proof.
  revert index c. induction specs as [|spec specs IH]; intros index c; cbn [compile_sampled_channels]; [done|].
  apply fails_with_bind; [apply compile_sampled_channel_error|intros c'; apply IH].
Qed.

Lemma group_safe_phases_error channels fuel cursor indices :
  fails_with sampled_refuses (group_safe_phases rate_plan channels fuel cursor indices).
Proof.
  revert cursor indices. induction fuel as [|fuel IH]; intros cursor [|i indices]; simpl; try done.
  destruct (safe_record channels i); [|done]. destruct (list_find _ _) as [[? ?]|]; [|done].
  apply fails_with_bind; [apply IH|done].
Qed.

(** The stages of an accepted plan. *)
Lemma sampled_accepted :
  specifications <> [] -> compile = (ok, plan, diagnostic) ->
  exists c, candidate_inv specifications device_rate_plan cross_rate_specs cross_rate_plan (length specifications) c /\
    sio_channels plan = sca_channels c /\ sio_channel_index_by_cross_rate plan = sca_channel_index_by_cross_rate c /\
    sio_frame_storage plan = sca_frame_storage c /\
    sio_safe_channel_indices plan = std_sort (safe_less (sca_channels c)) (sca_safe_channel_indices c) /\
    grouped rate_plan (sio_channels plan) 0 (sio_safe_channel_indices plan) (sio_safe_phases plan).
Proof.
  intros Hne H. unfold compile_sampled_io in H. case_match; [done|].
  destruct (Nat.eqb_spec (length specifications) 0) as [Hz|_]; [by apply length_zero_iff_nil in Hz|].
  unfold compile_sampled_candidate in H.
  pose proof (compile_sampled_channels_error 0 specifications (sampled_candidate_start cross_rate_plan)) as He.
  destruct (compile_sampled_channels _ _ _ _ _ _ _) as [d|c] eqn:Hc; simpl in He; cbn [sum_bind] in H; [by injection H|].
  apply (compile_sampled_channels_inv _ specifications) in Hc; [|apply candidate_inv_start|done]. simpl in Hc.
  set (indices := std_sort (safe_less (sca_channels c)) (sca_safe_channel_indices c)) in *.
  pose proof (group_safe_phases_error (sca_channels c) (length indices) 0 indices) as Hge.
  destruct (group_safe_phases _ _ _ _ _) as [d|groups] eqn:Hg; simpl in Hge, H; [by injection H|].
  injection H as <- _. exists c. split; [done|]. split_and!; try done. simpl.
  apply group_safe_phases_spec in Hg; [done| |done].
  intros i Hi. unfold indices in Hi. rewrite std_sort_perm in Hi. rewrite (ci_safe _ _ _ _ _ _ Hc) in Hi.
  apply list_elem_of_filter in Hi as [_ Hi%elem_of_seq]. unfold safe_record. apply fmap_is_Some, lookup_lt_is_Some_2.
  rewrite (ci_length _ _ _ _ _ _ Hc). lia.
Qed.
End Accepted.

(** ** Channels and frames *)


(** ** Safe phases *)

(** The phases of the device plan are told apart by their index. *)
Definition phases_by_index (device_rate_plan : DeviceRatePlan) : Prop :=
  forall p q, p ∈ drp_phases device_rate_plan -> q ∈ drp_phases device_rate_plan ->
    PhaseHandle_index (dp_phase p) = PhaseHandle_index (dp_phase q) -> dp_phase p = dp_phase q.

(** Every accepted device plan has this property. *)
Lemma device_phases_by_index src output plan diagnostic :
  sources_typed src -> src_bindings src <> [] ->
  compile_device_rate_plan src output = (ok, plan, diagnostic) -> phases_by_index plan.
Proof.
  intros Hty Hne Hc. destruct (compile_accepted _ _ _ _ Hty Hne Hc) as (_ & tables & st & ivs & d & s & Hadm).
  unfold phases_by_index. rewrite (adm_plan_phases _ _ _ _ _ _ _ Hadm).
  intros p q [i Hi]%list_elem_of_lookup_1 [j Hj]%list_elem_of_lookup_1 Heq.
  pose proof (adm_phases _ _ _ _ _ _ _ Hadm) as Hinv.
  pose proof (inv_plan_phase _ _ _ Hinv _ _ Hi) as Pi. pose proof (inv_plan_phase _ _ _ Hinv _ _ Hj) as Pj.
  unfold phase_position in *. rewrite Heq, Pj in Pi. injection Pi as ->. congruence.
Qed.

Lemma safe_sorted channels l : StronglySorted (fun i j => fst (safe_key channels i) <= fst (safe_key channels j)) (std_sort (safe_less channels) l).
Proof.
  eapply StronglySorted_mono; [|apply std_sort_sorted]; unfold not_greater, safe_less.
  - intros i j. destruct (safe_key channels i) as [a b], (safe_key channels j) as [a' b']. simpl.
    destruct (Z.eqb_spec a' a); simpl; lia.
  - intros i j. destruct (safe_key channels i) as [a b], (safe_key channels j) as [a' b'].
    destruct (Z.eqb_spec a' a), (Z.eqb_spec a a'); simpl; lia.
  - intros i j k. destruct (safe_key channels i) as [a b], (safe_key channels j) as [a' b'], (safe_key channels k) as [a'' b''].
    destruct (Z.eqb_spec a' a), (Z.eqb_spec a'' a'), (Z.eqb_spec a'' a); simpl; lia.
Qed.

(** The safe phases of an accepted plan drive every output channel exactly once: the safe
    channels are the output channels, each lies in a group of its own device phase, the groups are
    nonempty runs inside the list, no phase has two groups, and each group names the first release of its
    phase in the rate plan. *)
Theorem sampled_io_safe_groups graph_owner specs rate_plan device_rate_plan cross_rate_specs cross_rate_plan output plan
    diagnostic :
  specs <> [] -> phases_by_index device_rate_plan ->
  compile_sampled_io graph_owner specs rate_plan device_rate_plan cross_rate_specs cross_rate_plan output =
    (ok, plan, diagnostic) ->
  sio_safe_channel_indices plan ≡ₚ filter (fun k => output_channel specs k = true) (seq 0 (length specs)) /\
  (forall k i, sio_safe_channel_indices plan !! k = Some i -> exists g record,
     g ∈ sio_safe_phases plan /\
     (sp_first_channel_index g <= k < sp_first_channel_index g + sp_channel_count g)%nat /\
     sio_channels plan !! i = Some record /\ sc_device_phase (sr_public_record record) = sp_phase g) /\
  NoDup (sp_phase <$> sio_safe_phases plan) /\
  (forall g, g ∈ sio_safe_phases plan -> (0 < sp_channel_count g)%nat /\
     (sp_first_channel_index g + sp_channel_count g <= length (sio_safe_channel_indices plan))%nat /\
     exists r, pl_releases rate_plan !! sp_reference_index g = Some r /\ rr_phase r = sp_phase g /\
       forall k r', pl_releases rate_plan !! k = Some r' -> rr_phase r' = sp_phase g -> (sp_reference_index g <= k)%nat).
Proof.
  intros Hne Hidx H. destruct (sampled_accepted _ _ _ _ _ _ _ _ _ Hne H) as (c & Hinv & E1 & _ & _ & E4 & Hg).
  assert (Hperm : sio_safe_channel_indices plan ≡ₚ filter (fun k => output_channel specs k = true) (seq 0 (length specs))).
  { by rewrite E4, std_sort_perm, (ci_safe _ _ _ _ _ _ Hinv). }
  pose proof (grouped_cover _ _ _ _ _ Hg) as [Hcov Hgr]. split_and!; [done| | |].
  - intros k i Hk. destruct (Hcov _ _ Hk) as (g & Hgin & Hrange & Hp). unfold safe_record in Hp.
    destruct (sio_channels plan !! i) as [record|]; [|done]. exists g, record. injection Hp as Hp. split_and!; try done; lia.
  - apply (grouped_distinct _ _ _ _ _ (fun i => fst (safe_key (sio_channels plan) i)) Hg);
      [rewrite E4, E1; apply safe_sorted|].
    assert (Hrec : forall i h, sc_device_phase <$> safe_record (sio_channels plan) i = Some h ->
      i ∈ sio_safe_channel_indices plan ->
      fst (safe_key (sio_channels plan) i) = PhaseHandle_index h /\
      exists p, p ∈ drp_phases device_rate_plan /\ dp_phase p = h).
    { intros i h Hi Hin. rewrite Hperm in Hin. apply list_elem_of_filter in Hin as [_ Hin%elem_of_seq].
      destruct (lookup_lt_is_Some_2 specs i) as [spec Hspec]; [lia|].
      destruct (ci_records _ _ _ _ _ _ Hinv i spec) as (record & Hr & Hok); [lia|done|].
      unfold safe_key, safe_record in *. rewrite E1, Hr in *. simpl in *. injection Hi as <-. split; [done|].
      destruct Hok as (cross & cs & ep & ph & fb & _ & _ & _ & _ & _ & Hph & Heq & Hpub & _).
      exists ph. rewrite Hpub. done. }
    intros i j h h' Hi Hj Eh Eh'. destruct (Hrec i h Eh Hi) as (-> & p & Hp & <-), (Hrec j h' Eh' Hj) as (-> & q & Hq & <-).
    split; [by apply Hidx|congruence].
  - intros g Hgin. destruct (Hgr g Hgin) as (H0 & _ & H1 & r & Hr). apply list_find_Some in Hr as (Hl & Hp & Hmin).
    split_and!; [done|lia|]. exists r. split_and!; [done..|]. intros k r' Hk Hk'.
    destruct (decide (k < sp_reference_index g)%nat); [|lia]. by apply (Hmin k r') in Hk.
Qed.

(** ** A sample: one output channel on the first phase of the sample device plan *)

Definition sample_channel_handle : CrossRateChannelHandle := CrossRateChannelHandle_make 7 0.

(** A frame of one 16-bit sample. *)
Definition sample_frame (status : Z) : list Z :=
  let payload := [1; 2] in
  encode_frame
    (mkSampledHeader 120 1 5 1 0 1 signed_int16_le 1 0 50 6 0 8 (sampled_io_payload_checksum payload) status 0 (0, 0))
    payload.

Definition sample_sampled_spec : SampledIoChannelSpec :=
  mkSampledSpec sample_channel_handle direction_output 5 signed_int16_le 1 1 1 1 0 1 3 8 50 1 9 trigger_periodic 6 2 1
    1000 stale_fail_release overrun_fail_release underrun_fail_release 10000 (sample_frame status_initial)
    (sample_frame status_safe) (sample_frame status_safe) (sample_frame status_safe).

Definition sample_cross_spec : CrossRateChannelSpec :=
  mkChannelSpec [] (PhaseHandle_make 7 1) (PhaseHandle_make 7 0) 122 (sample_frame status_initial) sample_and_hold 1000
    selector_default (mkSelector (Some 0%nat) 128).

Definition sample_cross_plan : CompiledCrossRatePlan :=
  mkCrossRatePlan
    [mkChannel sample_channel_handle [] 0 (PhaseHandle_make 7 1) (PhaseHandle_make 7 0) (RateDomainHandle_make 7 0)
       (RateDomainHandle_make 7 0) 1 0 122 sample_and_hold 1000 0 0 2 244 selector_default (mkSelector (Some 0%nat) 128)
       invalid_device_handle (DeviceBackendHandle_make 7 0) invalid_device_handle (DeviceBufferHandle_make 7 0) 0 0 0 2 1]
    [] []
    [mkEndpoint 0 false (PhaseHandle_make 7 0) (DeviceBackendHandle_make 7 0) (DeviceBufferHandle_make 7 0)
       dispatch_buffer 0 0 0 256 128 2 1 (mkSpan 4096 4096)]
    [Some 0%nat].

Definition sample_sampled_plan : CompiledSampledIoPlan :=
  snd (fst (compile_sampled_io 7 [sample_sampled_spec] sample_rate_plan sample_device_plan [sample_cross_spec]
              sample_cross_plan empty_sampled_plan)).

Lemma sample_sampled_accepted :
  compile_sampled_io 7 [sample_sampled_spec] sample_rate_plan sample_device_plan [sample_cross_spec] sample_cross_plan
    empty_sampled_plan = (ok, sample_sampled_plan, mkSampledDiagnostic ok None CrossRateChannelHandle_default).
Proof. vm_compute. reflexivity. Qed.


Lemma sampled_io_safe_groups_witness : NoDup (sp_phase <$> sio_safe_phases sample_sampled_plan).
Proof.
  refine (proj1 (proj2 (proj2 (sampled_io_safe_groups 7 [sample_sampled_spec] sample_rate_plan sample_device_plan
    [sample_cross_spec] sample_cross_plan empty_sampled_plan sample_sampled_plan
    (mkSampledDiagnostic ok None CrossRateChannelHandle_default) _ _ sample_sampled_accepted)))); [discriminate|].
  apply (device_phases_by_index sample_sources empty_device_plan _ _ sample_sources_typed ltac:(discriminate) sample_accepted).
Defined.
