(* ===== verification/MixedRateReplay.v ===== *)
(** * The active replay artifact (rt/src/mixed_rate_replay.cpp, mixed_rate_replay.hpp)

    One artifact of active mixed-rate execution: a header of 384 bytes, a checkpoint
    artifact, a descriptor of 80 bytes for each input, the payloads of the inputs, and
    the mixed-rate action records, each followed by its checksum.  Sizes and offsets
    are [Z] (64-bit [size_t]) and become positions where a span is taken.  The loads and
    stores of the file are the little-endian loops of CanonicalBytes.v.  The action
    reader is a callback that is asked once for each sequence number: a function of the
    sequence, [None] where it returns false. *)

From stdpp Require Import base list numbers.
From Stdlib Require Import ZArith Lia Bool.
From S2P Require Import Prelude RateTimeline CanonicalBytes SnapshotCodec RecordLayout MixedRateActions.

Local Open Scope Z_scope.
Local Open Scope rtfw_scope.

(** ** Constants *)

Definition kReplayMagic : Z := 3553974856381256786.
Definition kInputDeadline : Z := 1.
Definition kInputNominal : Z := 2.
Definition active_replay_schema_version : Z := 1.
Definition active_replay_record_capacity_limit : Z := reference_release_capacity.
Definition active_replay_absolute_max_bytes : Z := Z.shiftl 1 30.
Definition active_replay_header_size : nat := 384.
Definition active_replay_input_header_size : nat := 80.
(** [sizeof(MixedRateActionRecord) + sizeof(std::uint64_t)] *)
Definition active_replay_action_bytes : nat := 264.

(** ** Data *)

Record ActiveReplayMetadata : Set := mkReplayMetadata {
  rm_schema_version : Z;
  rm_header_size : Z;
  rm_total_bytes : Z;
  rm_artifact_checksum : Z;
  rm_runtime_id : Z;
  rm_config_id : Z;
  rm_replay_id : Z;
  rm_graph_id : Z;
  rm_state_schema_id : Z;
  rm_host_policy_version : Z;
  rm_checkpoint_frame_index : Z;
  rm_first_frame_index : Z;
  rm_last_frame_index : Z;
  rm_nominal_epoch_ns : Z;
  rm_final_state_hash : Z;
  rm_checkpoint_bytes : Z;
  rm_input_payload_bytes : Z;
  rm_first_action_sequence : Z;
  rm_last_action_sequence : Z;
  rm_input_record_count : Z;
  rm_action_record_count : Z;
  rm_determinism_tier : Z;
  rm_build_id : list Z;
  rm_workload_id : list Z
}.

Definition ActiveReplayMetadata_default : ActiveReplayMetadata :=
  mkReplayMetadata active_replay_schema_version 0 0 0 0 0 0 0 0 0 0 0 0 0 0 0 0 0 0 0 0 0
    empty_identifier empty_identifier.

Record ActiveReplayArtifactView : Set := mkReplayView {
  av_metadata : ActiveReplayMetadata;
  av_artifact : list Z;
  av_checkpoint : list Z;
  av_input_offset : Z;
  av_action_offset : Z
}.

Definition ActiveReplayArtifactView_default : ActiveReplayArtifactView :=
  mkReplayView ActiveReplayMetadata_default [] [] 0 0.

(** ** Arithmetic, hashing and small tests *)

Definition add_size (left right : Z) : option Z :=
  if u64_max - left <? right then None else Some (left +u right).

Definition multiply_size (left right : Z) : option Z :=
  if negb (left =? 0) && (u64_max / left <? right) then None else Some (u64 (left * right)).

Definition hash_bytes (hash : Z) (bytes : list Z) : Z := foldl fnv_step hash bytes.

Definition replay_checksum (bytes : list Z) : Z := hash_bytes kFnvOffset bytes.

(** [artifact_checksum]: the bytes 24 to 31 count as zero. *)
Definition replay_artifact_checksum (bytes : list Z) : Z :=
  let hash := hash_bytes kFnvOffset (take 24 bytes) in
  let hash := hash_bytes hash (replicate 8 0) in
  hash_bytes hash (drop 32 bytes).

Definition zero_range (bytes : list Z) (first last : nat) : bool :=
  (first <=? last)%nat && (last <=? length bytes)%nat &&
  forallb (Z.eqb 0) (subspan bytes first (last - first)).

(** [std::find] of NUL is neither the first position nor the end. *)
Definition identifier_valid (value : list Z) : bool :=
  match value with
  | [] => false
  | c :: _ => negb (c =? 0) && existsb (Z.eqb 0) value
  end.

(** [std::chrono::nanoseconds] of an unsigned value. *)
Definition to_i64 (value : Z) : Z := if nanoseconds_max <? value then value - (u64_max + 1) else value.

(** ** Decoding an input *)

(** The record hash: the header with its own field as zero, then the payload. *)
Definition input_record_hash (header payload : list Z) : Z :=
  let hash := hash_bytes kFnvOffset (take 56 header) in
  let hash := hash_bytes hash (replicate 8 0) in
  let hash := hash_bytes hash (drop 64 header) in
  hash_bytes hash payload.

(** The position of the descriptor and the end of all descriptors. *)
Definition descriptor_range (view : ActiveReplayArtifactView) (wanted : Z) : option (Z * Z) :=
  descriptor_bytes ← multiply_size (rm_input_record_count (av_metadata view))
                       (Z.of_nat active_replay_input_header_size);
  descriptor_offset ← multiply_size wanted (Z.of_nat active_replay_input_header_size);
  descriptor_offset ← add_size (av_input_offset view) descriptor_offset;
  descriptor_end ← add_size (av_input_offset view) descriptor_bytes;
  if (av_action_offset view <? descriptor_end) || (descriptor_end <? descriptor_offset) ||
     (descriptor_end - descriptor_offset <? Z.of_nat active_replay_input_header_size)
  then None else Some (descriptor_offset, descriptor_end).

(** The input, the position of its payload ([payload.data() - artifact.data()]) and
    [*next_offset]. *)
Definition decode_input_at (view : ActiveReplayArtifactView) (wanted : Z) : option (InputRecord * Z * Z) :=
  if rm_input_record_count (av_metadata view) <=? wanted then None
  else
    '(descriptor_offset, descriptor_end) ← descriptor_range view wanted;
    let header := subspan (av_artifact view) (Z.to_nat descriptor_offset) active_replay_input_header_size in
    frame ← load_u64_le header 0;
    delta ← load_u64_le header 8;
    deadline ← load_u64_le header 16;
    nominal ← load_u64_le header 24;
    input_type ← load_u32_le header 32;
    flags ← load_u32_le header 36;
    payload_size ← load_u64_le header 40;
    payload_checksum ← load_u64_le header 48;
    record_checksum ← load_u64_le header 56;
    payload_offset ← load_u64_le header 64;
    if negb (Z.land flags (Z.lnot (Z.lor kInputDeadline kInputNominal)) =? 0) ||
       (Z.land flags kInputNominal =? 0) || (delta =? 0) ||
       (u64_max <? payload_size) || (u64_max <? payload_offset) ||
       negb (zero_range header 72 active_replay_input_header_size)
    then None
    else if payload_offset <? descriptor_end then None
    else
      payload_end ← add_size payload_offset payload_size;
      if av_action_offset view <? payload_end then None
      else
        let payload := subspan (av_artifact view) (Z.to_nat payload_offset) (Z.to_nat payload_size) in
        let with_deadline := negb (Z.land flags kInputDeadline =? 0) in
        if negb (replay_checksum payload =? payload_checksum) ||
           negb (input_record_hash header payload =? record_checksum) ||
           (negb with_deadline && negb (deadline =? 0))
        then None
        else
          Some (mkInputRecord
                  (mkFrame frame (to_i64 delta) (if with_deadline then Some deadline else None)
                     (Some nominal))
                  input_type payload,
                payload_offset, payload_end).

Definition active_replay_input_at (view : ActiveReplayArtifactView) (index : Z) : option InputRecord :=
  if rm_input_record_count (av_metadata view) <=? index then None
  else fst ∘ fst <$> decode_input_at view index.

(** ** Decoding an action *)

(** The object representation of an action record, read and written by [memcpy]. *)
Definition mixed_action_bytes (action : MixedRateActionRecord) : list Z :=
  pack mixed_action_layout (mixed_action_fields action).
Definition mixed_action_of_bytes (bytes : list Z) : MixedRateActionRecord :=
  mixed_action_of_fields (unpack mixed_action_layout bytes).

Definition active_replay_action_at (view : ActiveReplayArtifactView) (index : Z)
    : option MixedRateActionRecord :=
  if rm_action_record_count (av_metadata view) <=? index then None
  else
    let offset := av_action_offset view +u u64 (index * Z.of_nat active_replay_action_bytes) in
    if (size (av_artifact view) <? offset) ||
       (size (av_artifact view) - offset <? Z.of_nat active_replay_action_bytes)
    then None
    else
      let record_bytes := subspan (av_artifact view) (Z.to_nat offset) 256 in
      let action := mixed_action_of_bytes record_bytes in
      expected ← load_u64_le (av_artifact view) (Z.to_nat offset + 256);
      if (replay_checksum record_bytes =? expected) && mixed_rate_action_valid action
      then Some action else None.

(** ** Encoding *)

(** The validation loop: the sum of the payloads in both of its counters. *)
Fixpoint check_replay_inputs (inputs : list InputRecord) (first : bool) (previous_frame : Z)
    (payload_bytes : Z) : option Z :=
  match inputs with
  | [] => Some payload_bytes
  | input :: rest =>
      if (delta (ir_frame input) <=? 0) || bool_decide (nominal_release_ns (ir_frame input) = None) ||
         (negb first && (frame_index (ir_frame input) <=? previous_frame)) ||
         (u64_max - payload_bytes <? size (ir_payload input))
      then None
      else
        total ← add_size payload_bytes (size (ir_payload input));
        check_replay_inputs rest false (frame_index (ir_frame input)) total
  end.

(** The size of the descriptors, of descriptors and payloads, and of the artifact. *)
Definition replay_sizes (input_count action_count checkpoint_bytes payload_bytes maximum_bytes : Z)
    : option (Z * Z * Z) :=
  descriptor_bytes ← multiply_size input_count (Z.of_nat active_replay_input_header_size);
  input_bytes ← add_size payload_bytes descriptor_bytes;
  action_bytes ← multiply_size action_count (Z.of_nat active_replay_action_bytes);
  total ← add_size (Z.of_nat active_replay_header_size) checkpoint_bytes;
  total ← add_size total input_bytes;
  total ← add_size total action_bytes;
  if maximum_bytes <? total then None else Some (descriptor_bytes, input_bytes, total).

(** [metadata] after the assignments of the encoder. *)
Definition replay_metadata (metadata : ActiveReplayMetadata) (checkpoint_metadata : CheckpointMetadata)
    (checkpoint_bytes : Z) (inputs : list InputRecord) (payload_bytes first_action_sequence action_count total : Z)
    : ActiveReplayMetadata :=
  mkReplayMetadata active_replay_schema_version (Z.of_nat active_replay_header_size) total
    (rm_artifact_checksum metadata) (rm_runtime_id metadata) (rm_config_id metadata) (rm_replay_id metadata)
    (rm_graph_id metadata) (rm_state_schema_id metadata) (rm_host_policy_version metadata)
    (cm_checkpoint_frame_index checkpoint_metadata)
    (match head inputs with Some input => frame_index (ir_frame input) | None => 0 end)
    (match list.last inputs with Some input => frame_index (ir_frame input) | None => 0 end)
    (rm_nominal_epoch_ns metadata) (rm_final_state_hash metadata) checkpoint_bytes payload_bytes
    first_action_sequence
    (if action_count =? 0 then first_action_sequence else (first_action_sequence +u action_count) -u 1)
    (u32 (Z.of_nat (length inputs))) (u32 action_count) (rm_determinism_tier metadata)
    (rm_build_id metadata) (rm_workload_id metadata).

Definition write_replay_header (m : ActiveReplayMetadata) (checkpoint : list Z) (input_offset action_offset : Z)
    (bytes : list Z) : list Z :=
  let b := put64 0 kReplayMagic bytes in
  let b := put32 8 active_replay_schema_version b in
  let b := put32 12 (Z.of_nat active_replay_header_size) b in
  let b := put64 16 (rm_total_bytes m) b in
  let b := put64 32 (rm_runtime_id m) b in
  let b := put64 40 (rm_config_id m) b in
  let b := put64 48 (rm_replay_id m) b in
  let b := put64 56 (rm_graph_id m) b in
  let b := put64 64 (rm_state_schema_id m) b in
  let b := put64 72 (rm_host_policy_version m) b in
  let b := put64 80 (rm_checkpoint_frame_index m) b in
  let b := put64 88 (rm_first_frame_index m) b in
  let b := put64 96 (rm_last_frame_index m) b in
  let b := put64 104 (rm_nominal_epoch_ns m) b in
  let b := put64 112 (rm_final_state_hash m) b in
  let b := put64 120 (Z.of_nat active_replay_header_size) b in
  let b := put64 128 (size checkpoint) b in
  let b := put64 136 (replay_checksum checkpoint) b in
  let b := put64 144 input_offset b in
  let b := put32 152 (rm_input_record_count m) b in
  let b := put32 156 (Z.of_nat active_replay_input_header_size) b in
  let b := put64 160 (rm_input_payload_bytes m) b in
  let b := put64 168 action_offset b in
  let b := put32 176 (rm_action_record_count m) b in
  let b := put32 180 (Z.of_nat active_replay_action_bytes) b in
  let b := put64 184 (rm_first_action_sequence m) b in
  let b := put64 192 (rm_last_action_sequence m) b in
  let b := put32 200 (rm_determinism_tier m) b in
  let b := list_inserts 224 (rm_build_id m) b in
  let b := list_inserts 288 (rm_workload_id m) b in
  list_inserts active_replay_header_size checkpoint b.

(** One input: its descriptor at [at_], its payload at [cursor], and the record hash. *)
Definition write_replay_input (input : InputRecord) (at_ cursor : nat) (bytes : list Z) : list Z :=
  let frame := ir_frame input in
  let flags := Z.lor kInputNominal match deadline_ns frame with Some _ => kInputDeadline | None => 0 end in
  let b := put64 (at_ + 0) (frame_index frame) bytes in
  let b := put64 (at_ + 8) (delta frame) b in
  let b := put64 (at_ + 16) (default 0 (deadline_ns frame)) b in
  let b := put64 (at_ + 24) (default 0 (nominal_release_ns frame)) b in
  let b := put32 (at_ + 32) (ir_input_type input) b in
  let b := put32 (at_ + 36) flags b in
  let b := put64 (at_ + 40) (size (ir_payload input)) b in
  let b := put64 (at_ + 48) (replay_checksum (ir_payload input)) b in
  let b := put64 (at_ + 64) (Z.of_nat cursor) b in
  let b := list_inserts cursor (ir_payload input) b in
  let header := subspan b at_ active_replay_input_header_size in
  put64 (at_ + 56) (input_record_hash header (ir_payload input)) b.

Fixpoint write_replay_inputs (inputs : list InputRecord) (at_ cursor : nat) (bytes : list Z) : list Z :=
  match inputs with
  | [] => bytes
  | input :: rest =>
      write_replay_inputs rest (at_ + active_replay_input_header_size) (cursor + length (ir_payload input))
        (write_replay_input input at_ cursor bytes)
  end.

(** The action loop; [None] where an action is missing, out of sequence or invalid. *)
Fixpoint write_replay_actions (reader : Z -> option MixedRateActionRecord) (count : nat) (sequence : Z)
    (at_ : nat) (bytes : list Z) : option (list Z) :=
  match count with
  | O => Some bytes
  | S count' =>
      action ← reader sequence;
      if negb (ma_sequence action =? sequence) || negb (mixed_rate_action_valid action) then None
      else
        let b := list_inserts at_ (mixed_action_bytes action) bytes in
        let b := put64 (at_ + 256) (replay_checksum (mixed_action_bytes action)) b in
        write_replay_actions reader count' (sequence +u 1) (at_ + active_replay_action_bytes) b
  end.

Definition replay_request_valid (metadata : ActiveReplayMetadata) (inputs : list InputRecord) (action_count : Z)
    (reader : option (Z -> option MixedRateActionRecord)) (maximum_bytes : Z) : bool :=
  negb ((maximum_bytes =? 0) || (active_replay_absolute_max_bytes <? maximum_bytes) ||
        Nat.eqb (length inputs) 0 || (active_replay_record_capacity_limit <? Z.of_nat (length inputs)) ||
        (active_replay_record_capacity_limit <? action_count) ||
        (negb (action_count =? 0) && match reader with None => true | Some _ => false end) ||
        (rm_host_policy_version metadata =? 0) || negb (identifier_valid (rm_build_id metadata)) ||
        negb (identifier_valid (rm_workload_id metadata))).

(** The bytes before the action loop and the final step. *)
Definition encode_replay_body (m : ActiveReplayMetadata) (checkpoint : list Z) (inputs : list InputRecord)
    (descriptor_bytes input_bytes total : Z) : list Z :=
  let input_offset := Z.of_nat active_replay_header_size + size checkpoint in
  let b := write_replay_header m checkpoint input_offset (input_offset + input_bytes)
             (replicate (Z.to_nat total) 0) in
  write_replay_inputs inputs (Z.to_nat input_offset) (Z.to_nat (input_offset + descriptor_bytes)) b.

(** The returned status, [result], and [output] after the call. *)
Definition encode_active_replay_artifact (metadata : ActiveReplayMetadata) (checkpoint : list Z)
    (inputs : list InputRecord) (first_action_sequence action_count : Z)
    (reader : option (Z -> option MixedRateActionRecord)) (maximum_bytes : Z) (output : list Z)
    : Status * ArtifactWriteResult * list Z :=
  if negb (replay_request_valid metadata inputs action_count reader maximum_bytes)
  then (invalid_argument, write_result_default, output)
  else
    let '(checkpoint_status, checkpoint_metadata) := inspect_checkpoint_artifact checkpoint in
    if negb (bool_decide (checkpoint_status = ok)) then (invalid_artifact, write_result_default, output)
    else
      match check_replay_inputs inputs true 0 0 with
      | None => (invalid_argument, write_result_default, output)
      | Some payload_bytes =>
          match replay_sizes (Z.of_nat (length inputs)) action_count (size checkpoint) payload_bytes
                  maximum_bytes with
          | None => (capacity_exceeded, write_result_default, output)
          | Some (descriptor_bytes, input_bytes, total) =>
              let result := mkWriteResult total 0 0 in
              if size output <? total then (capacity_exceeded, result, output)
              else
                let n := Z.to_nat total in
                let zeros := replicate n 0 ++ drop n output in
                let m := replay_metadata metadata checkpoint_metadata (size checkpoint) inputs payload_bytes
                           first_action_sequence action_count total in
                if negb (action_count =? 0) && (rm_last_action_sequence m <? first_action_sequence)
                then (internal_error, result, zeros)
                else
                  let body := encode_replay_body m checkpoint inputs descriptor_bytes input_bytes total in
                  let action_offset := Z.of_nat active_replay_header_size + size checkpoint + input_bytes in
                  match write_replay_actions (default (fun _ => None) reader) (Z.to_nat action_count)
                          first_action_sequence (Z.to_nat action_offset) body with
                  | None => (invalid_artifact, result, zeros)
                  | Some b =>
                      let whole := replay_artifact_checksum b in
                      (ok, mkWriteResult total total whole, put64 24 whole b ++ drop n output)
                  end
          end
      end.

(** ** Parsing *)

(** The fields of the fixed header that are tested against the layout. *)
Record ReplayLayout : Set := mkReplayLayout {
  rl_total : Z;
  rl_whole : Z;
  rl_checkpoint_bytes : Z;
  rl_checkpoint_checksum : Z;
  rl_input_offset : Z;
  rl_input_count : Z;
  rl_action_offset : Z;
  rl_action_count : Z;
  rl_determinism : Z
}.

Definition parse_replay_layout (artifact : list Z) : option ReplayLayout :=
  magic ← load_u64_le artifact 0;
  schema ← load_u32_le artifact 8;
  header_size ← load_u32_le artifact 12;
  total ← load_u64_le artifact 16;
  whole ← load_u64_le artifact 24;
  checkpoint_offset ← load_u64_le artifact 120;
  checkpoint_bytes ← load_u64_le artifact 128;
  checkpoint_checksum ← load_u64_le artifact 136;
  input_offset ← load_u64_le artifact 144;
  input_count ← load_u32_le artifact 152;
  input_header_size ← load_u32_le artifact 156;
  action_offset ← load_u64_le artifact 168;
  action_count ← load_u32_le artifact 176;
  action_record_size ← load_u32_le artifact 180;
  determinism ← load_u32_le artifact 200;
  if negb (magic =? kReplayMagic) || negb (schema =? active_replay_schema_version) ||
     negb (header_size =? Z.of_nat active_replay_header_size) || negb (total =? size artifact) ||
     negb (whole =? replay_artifact_checksum artifact) || (input_count =? 0) ||
     (active_replay_record_capacity_limit <? input_count) ||
     (active_replay_record_capacity_limit <? action_count) ||
     negb (input_header_size =? Z.of_nat active_replay_input_header_size) ||
     negb (action_record_size =? Z.of_nat active_replay_action_bytes) ||
     negb (checkpoint_offset =? Z.of_nat active_replay_header_size) ||
     (u64_max <? checkpoint_offset) || (u64_max <? checkpoint_bytes) ||
     (u64_max <? input_offset) || (u64_max <? action_offset) ||
     negb (zero_range artifact 204 224) || negb (zero_range artifact 352 384)
  then None
  else Some (mkReplayLayout total whole checkpoint_bytes checkpoint_checksum input_offset input_count
               action_offset action_count determinism).

(** The regions are adjacent and end with the artifact. *)
Definition replay_regions_valid (artifact : list Z) (l : ReplayLayout) : bool :=
  match add_size (Z.of_nat active_replay_header_size) (rl_checkpoint_bytes l),
        multiply_size (rl_action_count l) (Z.of_nat active_replay_action_bytes) with
  | Some checkpoint_end, Some action_bytes =>
      (checkpoint_end =? rl_input_offset l) && (rl_input_offset l <=? rl_action_offset l) &&
      match add_size (rl_action_offset l) action_bytes with
      | Some action_end => action_end =? size artifact
      | None => false
      end
  | _, _ => false
  end.

(** [static_cast<DeterminismTier>] of a 32-bit value keeps eight bits. *)
Definition tier_of (value : Z) : Z := value mod 256.

(** A field that [parse_replay_layout] has found inside the artifact. *)
Definition field64 (artifact : list Z) (offset : nat) : Z := default 0 (load_u64_le artifact offset).

Definition parse_replay_metadata (artifact : list Z) (l : ReplayLayout) : ActiveReplayMetadata :=
  mkReplayMetadata active_replay_schema_version (Z.of_nat active_replay_header_size) (rl_total l) (rl_whole l)
    (field64 artifact 32) (field64 artifact 40) (field64 artifact 48) (field64 artifact 56)
    (field64 artifact 64) (field64 artifact 72) (field64 artifact 80) (field64 artifact 88)
    (field64 artifact 96) (field64 artifact 104) (field64 artifact 112) (rl_checkpoint_bytes l)
    (field64 artifact 160) (field64 artifact 184) (field64 artifact 192) (rl_input_count l)
    (rl_action_count l) (tier_of (rl_determinism l))
    (subspan artifact 224 replay_identifier_capacity) (subspan artifact 288 replay_identifier_capacity).

(** The tests that end in [incompatible_artifact]. *)
Definition replay_compatible (m : ActiveReplayMetadata) (checkpoint_metadata : CheckpointMetadata) : bool :=
  negb (rm_host_policy_version m =? 0) &&
  (rm_checkpoint_frame_index m =? cm_checkpoint_frame_index checkpoint_metadata) &&
  (rm_replay_id m =? cm_replay_id checkpoint_metadata) &&
  (rm_graph_id m =? cm_graph_id checkpoint_metadata) &&
  (rm_state_schema_id m =? cm_state_schema_id checkpoint_metadata) &&
  (rm_determinism_tier m =? cm_determinism_tier checkpoint_metadata) &&
  identifier_valid (rm_build_id m) && identifier_valid (rm_workload_id m) &&
  bool_decide (rm_workload_id m = cm_workload_id checkpoint_metadata) &&
  (if rm_action_record_count m =? 0 then rm_last_action_sequence m =? rm_first_action_sequence m
   else (rm_first_action_sequence m <=? rm_last_action_sequence m) &&
        (((rm_last_action_sequence m -u rm_first_action_sequence m) +u 1) =? rm_action_record_count m)).

(** The input loop: the position after the last payload, the payload total and the
    frame of the last input. *)
Fixpoint parse_replay_inputs (view : ActiveReplayArtifactView) (count : nat) (index next previous_frame
    payload_total : Z) : option (Z * Z * Z) :=
  match count with
  | O => Some (next, payload_total, previous_frame)
  | S count' =>
      '(input, payload_offset, payload_end) ← decode_input_at view index;
      if negb (payload_offset =? next) ||
         (negb (index =? 0) && (frame_index (ir_frame input) <=? previous_frame)) ||
         (u64_max - payload_total <? size (ir_payload input))
      then None
      else parse_replay_inputs view count' (index + 1) payload_end (frame_index (ir_frame input))
             (payload_total +u size (ir_payload input))
  end.

Definition replay_action_fits (m : ActiveReplayMetadata) (index : Z) (action : MixedRateActionRecord) : bool :=
  (ma_sequence action =? (rm_first_action_sequence m +u index)) &&
  (ma_host_policy_version action =? rm_host_policy_version m) &&
  (ma_runtime_id action =? rm_runtime_id m) &&
  (rm_first_frame_index m <=? ma_frame_index action) && (ma_frame_index action <=? rm_last_frame_index m).

Fixpoint parse_replay_actions (view : ActiveReplayArtifactView) (count : nat) (index : Z) : bool :=
  match count with
  | O => true
  | S count' =>
      match active_replay_action_at view index with
      | None => false
      | Some action =>
          replay_action_fits (av_metadata view) index action && parse_replay_actions view count' (index + 1)
      end
  end.

(** The records of a view whose header has been accepted. *)
Definition parse_replay_records (view : ActiveReplayArtifactView) : bool :=
  let m := av_metadata view in
  match
    descriptor_bytes ← multiply_size (rm_input_record_count m) (Z.of_nat active_replay_input_header_size);
    next ← add_size (av_input_offset view) descriptor_bytes;
    if av_action_offset view <? next then None
    else parse_replay_inputs view (Z.to_nat (rm_input_record_count m)) 0 next 0 0
  with
  | None => false
  | Some (next, payload_total, last_frame) =>
      (next =? av_action_offset view) && (payload_total =? rm_input_payload_bytes m) &&
      (last_frame =? rm_last_frame_index m) &&
      match decode_input_at view 0 with
      | None => false
      | Some (first_input, _, _) => frame_index (ir_frame first_input) =? rm_first_frame_index m
      end &&
      parse_replay_actions view (Z.to_nat (rm_action_record_count m)) 0
  end.

(** The returned status and [view]. *)
Definition parse_active_replay_artifact (artifact : list Z) (maximum_bytes : Z)
    : Status * ActiveReplayArtifactView :=
  let refuse (status : Status) := (status, ActiveReplayArtifactView_default) in
  if (maximum_bytes =? 0) || (active_replay_absolute_max_bytes <? maximum_bytes) ||
     (length artifact <? active_replay_header_size)%nat || (maximum_bytes <? size artifact)
  then refuse invalid_artifact
  else
    match parse_replay_layout artifact with
    | None => refuse invalid_artifact
    | Some l =>
        if negb (replay_regions_valid artifact l) then refuse invalid_artifact
        else
          let checkpoint := subspan artifact active_replay_header_size (Z.to_nat (rl_checkpoint_bytes l)) in
          let '(checkpoint_status, checkpoint_metadata) := inspect_checkpoint_artifact checkpoint in
          if negb (replay_checksum checkpoint =? rl_checkpoint_checksum l) ||
             negb (bool_decide (checkpoint_status = ok))
          then refuse invalid_artifact
          else
            let m := parse_replay_metadata artifact l in
            if negb (replay_compatible m checkpoint_metadata) then refuse incompatible_artifact
            else
              let view := mkReplayView m artifact checkpoint (rl_input_offset l) (rl_action_offset l) in
              if parse_replay_records view then (ok, view) else refuse invalid_artifact
    end.

Definition inspect_active_replay_artifact (artifact : list Z) : Status * ActiveReplayMetadata :=
  let '(status, view) := parse_active_replay_artifact artifact active_replay_absolute_max_bytes in
  (status, if bool_decide (status = ok) then av_metadata view else ActiveReplayMetadata_default).
