(* ===== verification/MixedRateReplayLayout.v ===== *)
(** * The bytes of an active replay artifact

    What the encoder of MixedRateReplay.v leaves in the buffer, region by region: the
    header fields, the descriptor and the payload of each input, the action records and
    their checksums; and what the decoders read from such a buffer. *)

From stdpp Require Import base list numbers sets.
From Stdlib Require Import ZArith Lia Bool.
From S2P Require Import Prelude RateTimeline CanonicalBytes SnapshotCodec CodecFields InputLogTheorems RecordLayout MixedRateActions MixedRateReplay.

Local Open Scope Z_scope.
Local Open Scope rtfw_scope.

(** ** Writes inside a region *)

Lemma subspan_inserts_inside bs at_ n k d :
  (k + length d <= n)%nat -> (at_ + n <= length bs)%nat ->
  subspan (list_inserts (at_ + k) d bs) at_ n = list_inserts k d (subspan bs at_ n).
Proof.
  intros Hk Hn. apply list_eq. intros i. destruct (decide (i < n)%nat) as [Hi|Hi].
  - rewrite lookup_subspan by done. destruct (decide (k <= i < k + length d)%nat).
    + rewrite !list_lookup_inserts by (rewrite ?length_subspan; lia). f_equal. lia.
    + destruct (decide (i < k)%nat).
      * rewrite !list_lookup_inserts_lt, lookup_subspan by lia. done.
      * rewrite !list_lookup_inserts_ge, lookup_subspan by lia. done.
  - rewrite !lookup_ge_None_2; [done|rewrite length_inserts, length_subspan by lia; lia|].
    rewrite length_subspan; [lia|]. rewrite length_inserts. lia.
Qed.

Lemma subspan_store_inside w bs at_ n k v :
  (k + w <= n)%nat -> (at_ + n <= length bs)%nat ->
  subspan (store_le w bs (at_ + k) v).2 at_ n = (store_le w (subspan bs at_ n) k v).2.
Proof.
  intros Hk Hn. rewrite !store_le_fits by (rewrite ?length_subspan; lia). simpl.
  apply subspan_inserts_inside; [by rewrite length_le_split|done].
Qed.

Lemma subspan_put64_inside bs at_ n k v :
  (k + 8 <= n)%nat -> (at_ + n <= length bs)%nat ->
  subspan (put64 (at_ + k) v bs) at_ n = put64 k v (subspan bs at_ n).
Proof. apply subspan_store_inside. Qed.

Lemma subspan_put32_inside bs at_ n k v :
  (k + 4 <= n)%nat -> (at_ + n <= length bs)%nat ->
  subspan (put32 (at_ + k) v bs) at_ n = put32 k v (subspan bs at_ n).
Proof. apply subspan_store_inside. Qed.

(** ** Inputs *)

Record replay_input_typed (r : InputRecord) : Prop := {
  rt_frame : is_u64 (frame_index (ir_frame r));
  rt_delta : 0 < delta (ir_frame r) <= nanoseconds_max;
  rt_deadline : forall d, deadline_ns (ir_frame r) = Some d -> is_u64 d;
  rt_nominal : exists t, nominal_release_ns (ir_frame r) = Some t /\ is_u64 t;
  rt_type : is_u32 (ir_input_type r);
  rt_size : size (ir_payload r) <= u64_max;
  rt_bytes : bytes_ok (ir_payload r)
}.

Definition input_flags (r : InputRecord) : Z :=
  Z.lor kInputNominal match deadline_ns (ir_frame r) with Some _ => kInputDeadline | None => 0 end.

Definition descriptor_layout : list nat := [8; 8; 8; 8; 4; 4; 8; 8; 8; 8; 8]%nat.

Definition descriptor_fields (r : InputRecord) (hash : Z) (cursor : nat) : list Z :=
  [frame_index (ir_frame r); delta (ir_frame r); default 0 (deadline_ns (ir_frame r));
   default 0 (nominal_release_ns (ir_frame r)); ir_input_type r; input_flags r; size (ir_payload r);
   replay_checksum (ir_payload r); hash; Z.of_nat cursor; 0].

Definition descriptor_hash (r : InputRecord) (cursor : nat) : Z :=
  input_record_hash (pack descriptor_layout (descriptor_fields r 0 cursor)) (ir_payload r).

Definition descriptor (r : InputRecord) (cursor : nat) : list Z :=
  pack descriptor_layout (descriptor_fields r (descriptor_hash r cursor) cursor).

Lemma hash_bytes_u64 h bs : is_u64 h -> is_u64 (hash_bytes h bs).
Proof. apply fnv_fold_u64. Qed.

Lemma replay_checksum_u64 bs : is_u64 (replay_checksum bs).
Proof. apply hash_bytes_u64, kFnvOffset_u64. Qed.

Lemma descriptor_hash_u64 r cursor : is_u64 (descriptor_hash r cursor).
Proof. unfold descriptor_hash, input_record_hash. do 4 apply hash_bytes_u64. apply kFnvOffset_u64. Qed.

(** The hash does not see its own field. *)
Lemma input_record_hash_self r h cursor payload :
  input_record_hash (pack descriptor_layout (descriptor_fields r h cursor)) payload =
  input_record_hash (pack descriptor_layout (descriptor_fields r 0 cursor)) payload.
Proof. reflexivity. Qed.

Lemma length_descriptor r cursor : length (descriptor r cursor) = active_replay_input_header_size.
Proof. reflexivity. Qed.

Lemma length_write_replay_input r at_ cursor bs : length (write_replay_input r at_ cursor bs) = length bs.
Proof. unfold write_replay_input. cbv zeta. by autorewrite with codec. Qed.

Lemma bytes_ok_write_replay_input r at_ cursor bs :
  bytes_ok bs -> bytes_ok (ir_payload r) -> bytes_ok (write_replay_input r at_ cursor bs).
Proof. intros. unfold write_replay_input. cbv zeta. auto 40 with codec. Qed.

Lemma write_replay_input_agree r at_ cursor bs lo hi :
  (hi <= at_)%nat \/ (at_ + 80 <= lo)%nat -> (hi <= cursor)%nat \/ (cursor + length (ir_payload r) <= lo)%nat ->
  agree (write_replay_input r at_ cursor bs) bs lo hi.
Proof.
  intros H1 H2. unfold write_replay_input. cbv zeta.
  repeat (eapply agree_trans;
    [first [apply agree_put64; lia | apply agree_put32; lia | apply agree_write; lia]|]).
  apply agree_refl.
Qed.

(** The descriptor of an input, and its payload, at their positions. *)
Record replay_input_at (bs : list Z) (at_ cursor : nat) (r : InputRecord) : Prop := {
  ra_fits : (at_ + 80 <= length bs)%nat /\ (cursor + length (ir_payload r) <= length bs)%nat;
  ra_descriptor : subspan bs at_ active_replay_input_header_size = descriptor r cursor;
  ra_payload : subspan bs cursor (length (ir_payload r)) = ir_payload r
}.

Lemma replay_input_at_agree bs bs' at_ cursor r :
  agree bs bs' at_ (at_ + 80) -> agree bs bs' cursor (cursor + length (ir_payload r)) ->
  replay_input_at bs at_ cursor r -> replay_input_at bs' at_ cursor r.
Proof.
  intros H1 H2 [[F1 F2] D P]. constructor.
  - rewrite <- (proj1 H1). done.
  - rewrite <- D. symmetry. by apply subspan_agree.
  - rewrite <- P at 2. symmetry. by apply subspan_agree.
Qed.

(** The eleven writes into a cleared descriptor. *)
Lemma descriptor_written r cursor hash :
  put64 56 hash
    (put64 64 (Z.of_nat cursor)
      (put64 48 (replay_checksum (ir_payload r))
        (put64 40 (size (ir_payload r))
          (put32 36 (input_flags r)
            (put32 32 (ir_input_type r)
              (put64 24 (default 0 (nominal_release_ns (ir_frame r)))
                (put64 16 (default 0 (deadline_ns (ir_frame r)))
                  (put64 8 (delta (ir_frame r))
                    (put64 0 (frame_index (ir_frame r)) (replicate 80 0))))))))))
  = pack descriptor_layout (descriptor_fields r hash cursor).
Proof. reflexivity. Qed.

Lemma write_replay_input_at r at_ cursor bs :
  (at_ + 80 <= cursor)%nat -> (cursor + length (ir_payload r) <= length bs)%nat ->
  subspan bs at_ 80 = replicate 80 0 ->
  replay_input_at (write_replay_input r at_ cursor bs) at_ cursor r.
Proof.
  intros Hac Hc Hz. constructor.
  - rewrite length_write_replay_input. lia.
  - unfold write_replay_input. cbv zeta. fold (input_flags r). unfold active_replay_input_header_size.
    rewrite subspan_put64_inside; [|lia|autorewrite with codec; lia].
    rewrite !subspan_write_other by lia.
    rewrite !subspan_put64_inside, !subspan_put32_inside by (autorewrite with codec; lia).
    rewrite !subspan_put64_inside by (autorewrite with codec; lia). rewrite Hz.
    rewrite descriptor_written. unfold descriptor. do 2 f_equal.
  - unfold write_replay_input. cbv zeta. etransitivity; [apply subspan_agree, agree_put64; lia|].
    apply subspan_write_at; [|done]. autorewrite with codec. done.
Qed.

(** Consecutive inputs: descriptors one after the other, payloads one after the other. *)
Fixpoint replay_inputs_at (bs : list Z) (at_ cursor : nat) (inputs : list InputRecord) : Prop :=
  match inputs with
  | [] => True
  | r :: rest =>
      replay_input_at bs at_ cursor r /\
      replay_inputs_at bs (at_ + active_replay_input_header_size) (cursor + length (ir_payload r)) rest
  end.

Lemma replay_inputs_at_agree inputs : forall bs bs' at_ cursor,
  agree bs bs' at_ (at_ + 80 * length inputs) -> agree bs bs' cursor (cursor + input_payload inputs) ->
  replay_inputs_at bs at_ cursor inputs -> replay_inputs_at bs' at_ cursor inputs.
Proof.
  induction inputs as [|r rest IH]; intros bs bs' at_ cursor H1 H2 H; [done|].
  cbn [replay_inputs_at length] in *. unfold input_payload in *. cbn [sum_list_with] in H2.
  destruct H as [Hr Hrest]. split.
  - apply (replay_input_at_agree bs); [apply (agree_sub _ _ _ _ _ _ H1)|apply (agree_sub _ _ _ _ _ _ H2)|done]; lia.
  - apply (IH bs); [| |done]; unfold active_replay_input_header_size; [eapply (agree_sub _ _ _ _ _ _ H1)|eapply (agree_sub _ _ _ _ _ _ H2)]; lia.
Qed.

Lemma length_write_replay_inputs inputs : forall at_ cursor bs,
  length (write_replay_inputs inputs at_ cursor bs) = length bs.
Proof.
  induction inputs as [|r rest IH]; intros; simpl; [done|]. by rewrite IH, length_write_replay_input.
Qed.

Lemma bytes_ok_write_replay_inputs inputs : forall at_ cursor bs,
  bytes_ok bs -> Forall replay_input_typed inputs -> bytes_ok (write_replay_inputs inputs at_ cursor bs).
Proof.
  induction inputs as [|r rest IH]; intros at_ cursor bs Hb Ht; simpl; [done|].
  apply Forall_cons in Ht as [Hr Ht]. apply IH; [|done]. apply bytes_ok_write_replay_input, Hr. done.
Qed.

Lemma write_replay_inputs_agree inputs : forall at_ cursor bs lo hi,
  (hi <= at_)%nat \/ (at_ + 80 * length inputs <= lo)%nat ->
  (hi <= cursor)%nat \/ (cursor + input_payload inputs <= lo)%nat ->
  agree (write_replay_inputs inputs at_ cursor bs) bs lo hi.
Proof.
  induction inputs as [|r rest IH]; intros at_ cursor bs lo hi H1 H2; [apply agree_refl|].
  unfold input_payload in *. cbn [write_replay_inputs length sum_list_with] in *.
  eapply agree_trans; [apply IH|apply write_replay_input_agree]; unfold active_replay_input_header_size; lia.
Qed.

Lemma write_replay_inputs_at inputs : forall at_ cursor bs,
  (at_ + 80 * length inputs <= cursor)%nat -> (cursor + input_payload inputs <= length bs)%nat ->
  subspan bs at_ (80 * length inputs) = replicate (80 * length inputs) 0 ->
  replay_inputs_at (write_replay_inputs inputs at_ cursor bs) at_ cursor inputs.
Proof.
  induction inputs as [|r rest IH]; intros at_ cursor bs Hac Hc Hz; [done|].
  unfold input_payload in *. cbn [write_replay_inputs replay_inputs_at length sum_list_with] in *.
  unfold active_replay_input_header_size.
  assert (Hz1 : subspan bs at_ 80 = replicate 80 0).
  { transitivity (subspan (subspan bs at_ (80 * S (length rest))) 0 80).
    - rewrite subspan_subspan by lia. f_equal. lia.
    - rewrite Hz. unfold subspan. rewrite drop_0, take_replicate. f_equal. lia. }
  split.
  - eapply replay_input_at_agree; [| |apply (write_replay_input_at r at_ cursor bs); [lia|lia|done]];
      apply agree_sym, write_replay_inputs_agree; unfold input_payload; lia.
  - apply IH; [lia|rewrite length_write_replay_input; lia|].
    etransitivity; [apply subspan_agree, write_replay_input_agree; lia|].
    transitivity (subspan (subspan bs at_ (80 * S (length rest))) 80 (80 * length rest)).
    + rewrite subspan_subspan by lia. done.
    + rewrite Hz. unfold subspan. rewrite drop_replicate, take_replicate. f_equal. lia.
Qed.

(** ** Decoding *)

Lemma add_size_ok a b : 0 <= a -> a + b <= u64_max -> 0 <= b -> add_size a b = Some (a + b).
Proof.
  intros Ha Hab Hb. unfold add_size. rewrite (proj2 (Z.ltb_ge _ _)) by lia.
  by rewrite u64_small by (unfold is_u64; lia).
Qed.

Lemma add_size_Some a b c : 0 <= a -> 0 <= b -> add_size a b = Some c -> c = a + b /\ c <= u64_max.
Proof.
  intros Ha Hb. unfold add_size. destruct (Z.ltb_spec (u64_max - a) b); [done|]. intros [= <-].
  rewrite u64_small by (unfold is_u64; lia). lia.
Qed.

Lemma multiply_size_ok a b : 0 <= a -> 0 <= b -> a * b <= u64_max -> multiply_size a b = Some (a * b).
Proof.
  intros Ha Hb Hab. unfold multiply_size. rewrite u64_small by (unfold is_u64; nia).
  destruct (Z.eqb_spec a 0); [done|]. simpl.
  rewrite (proj2 (Z.ltb_ge _ _)); [done|]. apply Z.div_le_lower_bound; lia.
Qed.

Lemma multiply_size_Some a b c :
  0 <= a -> 0 <= b -> multiply_size a b = Some c -> c = a * b /\ c <= u64_max.
Proof.
  intros Ha Hb. unfold multiply_size. destruct (Z.eqb_spec a 0) as [->|Hne]; simpl.
  - intros [= <-]. by vm_compute.
  - destruct (Z.ltb_spec (u64_max / a) b); [done|]. intros [= <-].
    assert (a * b <= u64_max) by (etransitivity; [apply Z.mul_le_mono_nonneg_l; [done|eassumption]|apply Z.mul_div_le; lia]).
    rewrite u64_small by (unfold is_u64; nia). done.
Qed.

Lemma u32_fits v : is_u32 v -> field_fits_width 4 v.
Proof. unfold is_u32, field_fits_width. change (256 ^ Z.of_nat 4) with (u32_max + 1). lia. Qed.

Lemma u64_fits v : is_u64 v -> field_fits_width 8 v.
Proof. unfold is_u64, field_fits_width. change (256 ^ Z.of_nat 8) with (u64_max + 1). lia. Qed.

Lemma input_flags_cases r :
  input_flags r = match deadline_ns (ir_frame r) with Some _ => 3 | None => 2 end.
Proof. unfold input_flags. by destruct (deadline_ns (ir_frame r)). Qed.

Lemma to_i64_small v : v <= nanoseconds_max -> to_i64 v = v.
Proof. intros H. unfold to_i64. by rewrite (proj2 (Z.ltb_ge _ _)). Qed.

(** The fields of a descriptor are those of the input. *)
Lemma descriptor_field i w f r cursor off :
  descriptor_layout !! i = Some w ->
  descriptor_fields r (descriptor_hash r cursor) cursor !! i = Some f -> field_fits_width w f ->
  off = sum_list (take i descriptor_layout) -> load_le w (descriptor r cursor) off = Some f.
Proof. intros. by apply (load_pack descriptor_layout (descriptor_fields r (descriptor_hash r cursor) cursor) i). Qed.

Lemma descriptor_range_ok view k :
  0 <= k < rm_input_record_count (av_metadata view) -> 0 <= av_input_offset view ->
  av_input_offset view + 80 * rm_input_record_count (av_metadata view) <= av_action_offset view <= u64_max ->
  descriptor_range view k =
    Some (av_input_offset view + k * 80, av_input_offset view + 80 * rm_input_record_count (av_metadata view)).
Proof.
  intros Hk H0 Ha. unfold descriptor_range, active_replay_input_header_size. change (Z.of_nat 80) with 80.
  rewrite !multiply_size_ok by lia. cbn [mbind option_bind]. rewrite !add_size_ok by lia. cbn [mbind option_bind].
  rewrite !(proj2 (Z.ltb_ge _ _)) by lia. cbn [orb]. do 2 f_equal. lia.
Qed.

Lemma decode_input_at_ok view k cursor r :
  0 <= k < rm_input_record_count (av_metadata view) -> 0 <= av_input_offset view ->
  av_input_offset view + 80 * rm_input_record_count (av_metadata view) <= Z.of_nat cursor ->
  Z.of_nat cursor + size (ir_payload r) <= av_action_offset view <= u64_max ->
  replay_input_typed r ->
  replay_input_at (av_artifact view) (Z.to_nat (av_input_offset view + k * 80)) cursor r ->
  decode_input_at view k = Some (r, Z.of_nat cursor, Z.of_nat cursor + size (ir_payload r)).
Proof.
  intros Hk H0 Hc Ha Ht [_ Hd Hp]. unfold decode_input_at. rewrite (proj2 (Z.leb_gt _ _)) by lia.
  assert (Hsz : 0 <= size (ir_payload r)) by (unfold size; lia).
  rewrite descriptor_range_ok by lia. cbn [mbind option_bind]. cbv beta iota zeta. rewrite Hd.
  destruct (rt_nominal _ Ht) as (t & Et & Htu).
  assert (Hdl : is_u64 (default 0 (deadline_ns (ir_frame r)))).
  { destruct (deadline_ns (ir_frame r)) eqn:E; simpl; [by apply (rt_deadline _ Ht)|]. unfold is_u64, u64_max. lia. }
  pose proof (rt_delta _ Ht) as Hdelta. unfold nanoseconds_max in Hdelta.
  unfold load_u64_le, load_u32_le.
  rewrite (descriptor_field 0 8 (frame_index (ir_frame r)) r cursor 0) by (done || apply u64_fits, Ht).
  rewrite (descriptor_field 1 8 (delta (ir_frame r)) r cursor 8) by (done || (apply u64_fits; unfold is_u64, u64_max; lia)).
  rewrite (descriptor_field 2 8 (default 0 (deadline_ns (ir_frame r))) r cursor 16) by (done || by apply u64_fits).
  rewrite (descriptor_field 3 8 t r cursor 24) by (done || (by apply u64_fits) || (simpl; by rewrite Et)).
  rewrite (descriptor_field 4 4 (ir_input_type r) r cursor 32) by (done || apply u32_fits, Ht).
  rewrite (descriptor_field 5 4 (input_flags r) r cursor 36)
    by (done || (apply u32_fits; rewrite input_flags_cases; unfold is_u32, u32_max; case_match; lia)).
  rewrite (descriptor_field 6 8 (size (ir_payload r)) r cursor 40)
    by (done || (apply u64_fits; split; [done|apply (rt_size _ Ht)])).
  rewrite (descriptor_field 7 8 (replay_checksum (ir_payload r)) r cursor 48)
    by (done || apply u64_fits, replay_checksum_u64).
  rewrite (descriptor_field 8 8 (descriptor_hash r cursor) r cursor 56) by (done || apply u64_fits, descriptor_hash_u64).
  rewrite (descriptor_field 9 8 (Z.of_nat cursor) r cursor 64) by (done || (apply u64_fits; unfold is_u64; lia)).
  cbn [mbind option_bind].
  rewrite (proj2 (Z.eqb_neq (delta _) 0)), !(proj2 (Z.ltb_ge u64_max _)), (proj2 (Z.ltb_ge (Z.of_nat cursor) _)) by lia.
  change (zero_range (descriptor r cursor) 72 active_replay_input_header_size) with true.
  rewrite add_size_ok by lia. cbn [mbind option_bind].
  rewrite (proj2 (Z.ltb_ge (av_action_offset view) _)) by lia.
  assert (En : Z.to_nat (size (ir_payload r)) = length (ir_payload r)) by (unfold size; lia).
  rewrite !Nat2Z.id, En, Hp, Z.eqb_refl. unfold descriptor at 1. rewrite input_record_hash_self.
  fold (descriptor_hash r cursor). rewrite Z.eqb_refl, to_i64_small by (unfold nanoseconds_max; lia).
  rewrite input_flags_cases. destruct r as [[f d dl nom] ty pay]. simpl in *. subst nom.
  by destruct dl.
Qed.

(** ** Actions *)

Record replay_action_at (bs : list Z) (at_ : nat) (action : MixedRateActionRecord) : Prop := {
  aa_fits : (at_ + active_replay_action_bytes <= length bs)%nat;
  aa_record : subspan bs at_ 256 = mixed_action_bytes action;
  aa_sum : load_u64_le bs (at_ + 256) = Some (replay_checksum (mixed_action_bytes action))
}.

Fixpoint replay_actions_at (bs : list Z) (at_ : nat) (actions : list MixedRateActionRecord) : Prop :=
  match actions with
  | [] => True
  | a :: rest => replay_action_at bs at_ a /\ replay_actions_at bs (at_ + active_replay_action_bytes) rest
  end.

Lemma length_mixed_action_bytes a : mixed_action_well_typed a -> length (mixed_action_bytes a) = 256%nat.
Proof.
  intros (_ & _ & Hf). unfold mixed_action_bytes. by rewrite length_pack by (by eapply Forall2_length).
Qed.

Lemma mixed_action_of_bytes_bytes a : mixed_action_well_typed a -> mixed_action_of_bytes (mixed_action_bytes a) = a.
Proof.
  intros Hw. rewrite <- (mixed_action_words_roundtrip a Hw) at 2.
  unfold mixed_action_of_words, mixed_action_to_words, mixed_action_of_bytes.
  rewrite words_to_bytes_to_words; [done|apply pack_bytes|]. by apply length_mixed_action_bytes.
Qed.

Lemma replay_action_at_agree bs bs' at_ a :
  agree bs bs' at_ (at_ + 264) -> replay_action_at bs at_ a -> replay_action_at bs' at_ a.
Proof.
  intros H [F R S]. unfold active_replay_action_bytes in *. constructor.
  - by rewrite <- (proj1 H).
  - rewrite <- R. symmetry. apply subspan_agree, (agree_sub _ _ _ _ _ _ H); lia.
  - rewrite <- S. symmetry. apply load_agree, (agree_sub _ _ _ _ _ _ H); lia.
Qed.

Lemma replay_actions_at_agree actions : forall bs bs' at_,
  agree bs bs' at_ (at_ + 264 * length actions) -> replay_actions_at bs at_ actions ->
  replay_actions_at bs' at_ actions.
Proof.
  induction actions as [|a rest IH]; intros bs bs' at_ H; [done|]. cbn [replay_actions_at length] in *.
  unfold active_replay_action_bytes. intros [Ha Hr]. split.
  - apply (replay_action_at_agree bs); [|done]. apply (agree_sub _ _ _ _ _ _ H); lia.
  - apply (IH bs); [|done]. apply (agree_sub _ _ _ _ _ _ H); lia.
Qed.

(** The answers of the reader for consecutive sequence numbers. *)
Definition reader_gives (reader : Z -> option MixedRateActionRecord) (first : Z)
    (actions : list MixedRateActionRecord) : Prop :=
  forall i a, actions !! i = Some a ->
    reader (first + Z.of_nat i) = Some a /\ ma_sequence a = first + Z.of_nat i /\ mixed_rate_action_valid a = true.

Lemma write_replay_actions_inv reader count : forall first at_ bs bs',
  is_u64 first -> first + Z.of_nat count <= u64_max + 1 ->
  write_replay_actions reader count first at_ bs = Some bs' ->
  exists actions, length actions = count /\ reader_gives reader first actions.
Proof.
  induction count as [|count IH]; intros first at_ bs bs' Hf Hc H; cbn [write_replay_actions] in H.
  { exists []. split; [done|]. intros i a Hi. done. }
  destruct (reader first) as [a|] eqn:Ea; [|done]. cbn [mbind option_bind] in H.
  destruct (Z.eqb_spec (ma_sequence a) first) as [Es|]; [|done].
  destruct (mixed_rate_action_valid a) eqn:Ev; [|done]. cbn [negb orb] in H.
  assert (exists actions, length actions = count /\ reader_gives reader (first + 1) actions) as (actions & Hl & Hg).
  { destruct count as [|count'].
    - exists []. split; [done|]. by intros i x Hi.
    - rewrite u64_small in H by (unfold is_u64 in *; lia). eapply IH; [| |exact H]; unfold is_u64 in *; lia. }
  exists (a :: actions). split; [simpl; lia|]. intros [|i] x Hx; simpl in Hx.
  - injection Hx as ->. rewrite Z.add_0_r. done.
  - replace (first + Z.of_nat (S i)) with (first + 1 + Z.of_nat i) by lia. by apply Hg.
Qed.

Lemma reader_gives_tail reader first a rest :
  reader_gives reader first (a :: rest) ->
  reader first = Some a /\ ma_sequence a = first /\ mixed_rate_action_valid a = true /\
  reader_gives reader (first + 1) rest.
Proof.
  intros H. destruct (H 0%nat a eq_refl) as (E & Es & Ev). rewrite Z.add_0_r in *. split_and!; try done.
  intros i x Hx. replace (first + 1 + Z.of_nat i) with (first + Z.of_nat (S i)) by lia. by apply H.
Qed.

Lemma write_replay_actions_at reader actions : forall first at_ bs,
  is_u64 first -> first + Z.of_nat (length actions) <= u64_max + 1 -> reader_gives reader first actions ->
  Forall mixed_action_well_typed actions -> bytes_ok bs -> (at_ + 264 * length actions <= length bs)%nat ->
  exists bs', write_replay_actions reader (length actions) first at_ bs = Some bs' /\ bytes_ok bs' /\
    length bs' = length bs /\ agree bs' bs 0 at_ /\ replay_actions_at bs' at_ actions.
Proof.
  induction actions as [|a rest IH]; intros first at_ bs Hf Hc Hg Ht Hb Hl; cbn [length write_replay_actions] in *.
  { by exists bs. }
  apply reader_gives_tail in Hg as (-> & Es & Ev & Hg). cbn [mbind option_bind].
  rewrite Es, Ev, Z.eqb_refl. cbn [negb orb].
  apply Forall_cons in Ht as [Ha Ht]. pose proof (length_mixed_action_bytes a Ha) as La.
  set (b1 := list_inserts at_ (mixed_action_bytes a) bs).
  set (b2 := put64 (at_ + 256) (replay_checksum (mixed_action_bytes a)) b1).
  assert (Hb1 : bytes_ok b1) by (apply bytes_ok_write; [done|apply pack_bytes]).
  assert (L1 : length b1 = length bs) by apply length_inserts.
  assert (L2 : length b2 = length bs) by (unfold b2; by rewrite length_put64).
  assert (H2 : agree b2 bs 0 at_).
  { eapply agree_trans; [apply agree_put64; lia|]. apply agree_write. lia. }
  assert (Hat : replay_action_at b2 at_ a).
  { constructor; [unfold active_replay_action_bytes; lia| |].
    - etransitivity; [apply subspan_agree, agree_put64; lia|]. apply subspan_write_at; [lia|done].
    - apply load_put64; [done|lia|apply replay_checksum_u64]. }
  assert (exists bs', write_replay_actions reader (length rest) (first +u 1) (at_ + active_replay_action_bytes) b2 = Some bs' /\
    bytes_ok bs' /\ length bs' = length b2 /\ agree bs' b2 0 (at_ + 264) /\
    replay_actions_at bs' (at_ + active_replay_action_bytes) rest) as (bs' & E & Hb' & Hl' & Hag & Hrest).
  { assert (Hb2 : bytes_ok b2) by (by apply bytes_ok_put64).
    destruct rest as [|a' rest'].
    - by exists b2.
    - cbn [length] in Hc. rewrite u64_small by (unfold is_u64 in *; lia).
      apply IH; try done; unfold active_replay_action_bytes, is_u64 in *; cbn [length] in *; lia. }
  exists bs'. rewrite E. split_and!; try done; try lia.
  - eapply agree_trans; [apply (agree_sub _ _ _ _ _ _ Hag); lia|done].
  - cbn [replay_actions_at]. split; [|done]. apply (replay_action_at_agree b2); [|done].
    apply agree_sym, (agree_sub _ _ _ _ _ _ Hag); lia.
Qed.

Lemma active_replay_action_at_ok view k a :
  0 <= k < rm_action_record_count (av_metadata view) -> 0 <= av_action_offset view ->
  size (av_artifact view) <= u64_max -> mixed_action_well_typed a -> mixed_rate_action_valid a = true ->
  replay_action_at (av_artifact view) (Z.to_nat (av_action_offset view + k * 264)) a ->
  active_replay_action_at view k = Some a.
Proof.
  intros Hk H0 Hsz Ht Hv [F R S]. unfold active_replay_action_at, active_replay_action_bytes, size in *.
  rewrite (proj2 (Z.leb_gt _ _)) by lia. change (Z.of_nat 264) with 264.
  rewrite (u64_small (k * 264)) by (unfold is_u64; lia). rewrite (u64_small (_ + _)) by (unfold is_u64; lia).
  rewrite !(proj2 (Z.ltb_ge _ _)) by lia. cbn [orb]. rewrite R, S. cbn [mbind option_bind].
  by rewrite mixed_action_of_bytes_bytes, Z.eqb_refl, Hv.
Qed.
