(* ===== verification/MixedRateReplayTheorems.v ===== *)
(** * Claims on the active replay artifact

    The encoder's artifact parses back to the given metadata, inputs and actions exactly
    when the metadata agrees with the checkpoint and the actions with the metadata; every
    accepted artifact can be read to its end; a changed byte is always detected. *)

From stdpp Require Import base list numbers sets.
From Stdlib Require Import ZArith Lia Bool.
From S2P Require Import Prelude RateTimeline CanonicalBytes SnapshotCodec CodecFields InputLogTheorems RecordLayout MixedRateActions MixedRateReplay MixedRateReplayLayout.

Local Open Scope Z_scope.
Local Open Scope rtfw_scope.

(** ** The header *)

Definition header_layout : list nat :=
  [8; 4; 4; 8; 8; 8; 8; 8; 8; 8; 8; 8; 8; 8; 8; 8; 8; 8; 8; 8; 4; 4; 8; 8; 4; 4; 8; 8; 4; 20]%nat.

Definition header_fields (m : ActiveReplayMetadata) (checkpoint : list Z) (input_offset action_offset whole : Z)
    : list Z :=
  [kReplayMagic; active_replay_schema_version; 384; rm_total_bytes m; whole; rm_runtime_id m; rm_config_id m;
   rm_replay_id m; rm_graph_id m; rm_state_schema_id m; rm_host_policy_version m; rm_checkpoint_frame_index m;
   rm_first_frame_index m; rm_last_frame_index m; rm_nominal_epoch_ns m; rm_final_state_hash m; 384;
   size checkpoint; replay_checksum checkpoint; input_offset; rm_input_record_count m; 80;
   rm_input_payload_bytes m; action_offset; rm_action_record_count m; 264; rm_first_action_sequence m;
   rm_last_action_sequence m; rm_determinism_tier m; 0].

Definition replay_header (m : ActiveReplayMetadata) (checkpoint : list Z) (input_offset action_offset whole : Z)
    : list Z :=
  pack header_layout (header_fields m checkpoint input_offset action_offset whole) ++
  rm_build_id m ++ rm_workload_id m ++ replicate 32 0.

Record replay_metadata_typed (m : ActiveReplayMetadata) : Prop := {
  mt_runtime : is_u64 (rm_runtime_id m);
  mt_config : is_u64 (rm_config_id m);
  mt_replay : is_u64 (rm_replay_id m);
  mt_graph : is_u64 (rm_graph_id m);
  mt_schema : is_u64 (rm_state_schema_id m);
  mt_policy : is_u64 (rm_host_policy_version m);
  mt_epoch : is_u64 (rm_nominal_epoch_ns m);
  mt_hash : is_u64 (rm_final_state_hash m);
  mt_tier : is_u8 (rm_determinism_tier m);
  mt_build : bytes_ok (rm_build_id m) /\ length (rm_build_id m) = replay_identifier_capacity;
  mt_workload : bytes_ok (rm_workload_id m) /\ length (rm_workload_id m) = replay_identifier_capacity
}.

Lemma subspan_replicate n off k (x : Z) : (off + k <= n)%nat -> subspan (replicate n x) off k = replicate k x.
Proof. intros H. unfold subspan. rewrite drop_replicate, take_replicate. f_equal. lia. Qed.

Section Header.
Context (m : ActiveReplayMetadata) (checkpoint : list Z) (io ao : Z).
Context (Hb : length (rm_build_id m) = 64%nat) (Hw : length (rm_workload_id m) = 64%nat).

Lemma length_replay_header whole : length (replay_header m checkpoint io ao whole) = 384%nat.
Proof. unfold replay_header. rewrite !length_app, Hb, Hw, length_replicate. reflexivity. Qed.

(** The writes of the encoder into a cleared prefix. *)
Lemma header_puts :
  put32 200 (rm_determinism_tier m)
   (put64 192 (rm_last_action_sequence m) (put64 184 (rm_first_action_sequence m)
    (put32 180 264 (put32 176 (rm_action_record_count m) (put64 168 ao
     (put64 160 (rm_input_payload_bytes m) (put32 156 80 (put32 152 (rm_input_record_count m)
      (put64 144 io (put64 136 (replay_checksum checkpoint) (put64 128 (size checkpoint) (put64 120 384
       (put64 112 (rm_final_state_hash m) (put64 104 (rm_nominal_epoch_ns m) (put64 96 (rm_last_frame_index m)
        (put64 88 (rm_first_frame_index m) (put64 80 (rm_checkpoint_frame_index m)
         (put64 72 (rm_host_policy_version m) (put64 64 (rm_state_schema_id m) (put64 56 (rm_graph_id m)
          (put64 48 (rm_replay_id m) (put64 40 (rm_config_id m) (put64 32 (rm_runtime_id m)
           (put64 16 (rm_total_bytes m) (put32 12 384 (put32 8 active_replay_schema_version
            (put64 0 kReplayMagic (replicate 224 0))))))))))))))))))))))))))))
  = pack header_layout (header_fields m checkpoint io ao 0).
Proof. reflexivity. Qed.

Context (N : nat) (HN : (384 + length checkpoint <= N)%nat).

Abbreviation hd := (write_replay_header m checkpoint io ao (replicate N 0)).

Lemma length_write_replay_header : length hd = N.
Proof. unfold write_replay_header. cbv zeta. autorewrite with codec. apply length_replicate. Qed.

Lemma bytes_ok_write_replay_header :
  bytes_ok (rm_build_id m) -> bytes_ok (rm_workload_id m) -> bytes_ok checkpoint -> bytes_ok hd.
Proof. intros. unfold write_replay_header. cbv zeta. auto 60 with codec. Qed.

Lemma write_replay_header_checkpoint : subspan hd 384 (length checkpoint) = checkpoint.
Proof.
  unfold write_replay_header. cbv zeta. apply subspan_write_at; [|done]. autorewrite with codec.
  by rewrite length_replicate.
Qed.

Lemma write_replay_header_rest lo hi : (384 + length checkpoint <= lo)%nat -> agree hd (replicate N 0) lo hi.
Proof.
  intros Hlo. unfold write_replay_header, active_replay_header_size. cbv zeta.
  repeat (eapply agree_trans;
    [first [apply agree_put64; lia | apply agree_put32; lia | apply agree_write; lia]|]).
  apply agree_refl.
Qed.

Lemma write_replay_header_front : subspan hd 0 384 = replay_header m checkpoint io ao 0.
Proof.
  unfold replay_header. change 384%nat with (224 + (64 + (64 + 32)))%nat at 1.
  rewrite !subspan_split. unfold write_replay_header, active_replay_header_size, active_replay_input_header_size, active_replay_action_bytes.
  cbv zeta. f_equal; [|f_equal; [|f_equal]].
  - rewrite !(subspan_write_other _ _ _ 0 224) by lia. rewrite <- header_puts.
    assert (F64 : forall b k v, (k + 8 <= 224)%nat -> (224 <= length b)%nat ->
      subspan (put64 k v b) 0 224 = put64 k v (subspan b 0 224))
      by (intros b k v Hk Hl; by apply (subspan_put64_inside b 0 224 k v)).
    assert (F32 : forall b k v, (k + 4 <= 224)%nat -> (224 <= length b)%nat ->
      subspan (put32 k v b) 0 224 = put32 k v (subspan b 0 224))
      by (intros b k v Hk Hl; by apply (subspan_put32_inside b 0 224 k v)).
    repeat (rewrite ?F64, ?F32 by (autorewrite with codec; rewrite ?length_replicate; lia)).
    by rewrite subspan_replicate by lia.
  - etransitivity; [apply subspan_write_other; lia|]. etransitivity; [apply subspan_write_other; lia|].
    apply subspan_write_at; [|done]. autorewrite with codec. rewrite length_replicate. lia.
  - etransitivity; [apply subspan_write_other; lia|].
    apply subspan_write_at; [|done]. autorewrite with codec. rewrite length_replicate. lia.
  - transitivity (subspan (replicate N 0) 352 32); [|apply subspan_replicate; lia].
    apply subspan_agree.
    repeat (eapply agree_trans;
      [first [apply agree_put64; lia | apply agree_put32; lia | apply agree_write; lia]|]).
    apply agree_refl.
Qed.
End Header.

(** The last store fills the checksum field. *)
Lemma replay_header_sealed m checkpoint io ao whole :
  put64 24 whole (replay_header m checkpoint io ao 0) = replay_header m checkpoint io ao whole.
Proof.
  unfold replay_header. generalize (rm_build_id m ++ rm_workload_id m ++ replicate 32 0). intros rest.
  unfold put64, store_u64_le. rewrite store_le_fits by (rewrite length_app; simpl; lia). reflexivity.
Qed.

(** Reading a header field of a sealed artifact. *)
Lemma header_field i w f m checkpoint io ao whole bs off :
  subspan bs 0 384 = replay_header m checkpoint io ao whole -> bytes_ok bs -> (384 <= length bs)%nat ->
  header_layout !! i = Some w -> header_fields m checkpoint io ao whole !! i = Some f -> field_fits_width w f ->
  off = sum_list (take i header_layout) -> (off + w <= 224)%nat -> load_le w bs off = Some f.
Proof.
  intros Hs Hb Hl Hw Hf Hv Ho Hr.
  rewrite <- (load_pack header_layout (header_fields m checkpoint io ao whole) i w f off) by done.
  rewrite !load_le_fits; [|apply pack_bytes|by simpl|done|lia]. do 2 f_equal.
  transitivity (subspan (subspan bs 0 384) off w); [by rewrite subspan_subspan by lia|].
  rewrite Hs. unfold replay_header. apply subspan_app_l. by simpl.
Qed.

(** ** The checksum *)

Lemma replay_artifact_checksum_excluding bs :
  (32 <= length bs)%nat -> replay_artifact_checksum bs = checksum_excluding bs 24 8.
Proof.
  intros Hl. unfold replay_artifact_checksum, hash_bytes. rewrite <- !foldl_app, checksum_excluding_mask.
  f_equal. apply list_eq. intros i. rewrite list_lookup_imap.
  destruct (decide (i < 24)%nat); [|destruct (decide (i < 32)%nat)].
  - rewrite lookup_app_l, lookup_take_lt by (rewrite ?length_take; lia).
    destruct (bs !! i) eqn:E; simpl; [|done]. by rewrite mask_field_out by lia.
  - rewrite lookup_app_r, lookup_app_l by (rewrite ?length_take, ?length_replicate; lia).
    rewrite length_take, lookup_replicate_2 by lia.
    destruct (lookup_lt_is_Some_2 bs i) as [x Hx]; [lia|]. rewrite Hx. simpl. by rewrite mask_field_in by lia.
  - rewrite lookup_app_r, lookup_app_r by (rewrite ?length_take, ?length_replicate; lia).
    rewrite length_take, length_replicate, lookup_drop.
    replace (32 + (i - 24 `min` length bs - 8))%nat with i by lia.
    destruct (bs !! i); simpl; [|done]. by rewrite mask_field_out by lia.
Qed.

Lemma replay_artifact_checksum_u64 bs : is_u64 (replay_artifact_checksum bs).
Proof. unfold replay_artifact_checksum. do 3 apply hash_bytes_u64. apply kFnvOffset_u64. Qed.

(** ** Parsing a sealed artifact *)

(** What an action must agree with, its sequence number apart. *)
Definition action_matches (m : ActiveReplayMetadata) (action : MixedRateActionRecord) : bool :=
  (ma_host_policy_version action =? rm_host_policy_version m) && (ma_runtime_id action =? rm_runtime_id m) &&
  (rm_first_frame_index m <=? ma_frame_index action) && (ma_frame_index action <=? rm_last_frame_index m).

Section Records.
Context (view : ActiveReplayArtifactView).
Abbreviation count := (rm_input_record_count (av_metadata view)).
Context (Hio : 0 <= av_input_offset view) (Hao : av_action_offset view <= u64_max).

Lemma parse_replay_inputs_ok inputs : forall index cursor prev total,
  0 <= index -> index + Z.of_nat (length inputs) = count -> is_u64 prev -> 0 <= total ->
  replay_inputs_at (av_artifact view) (Z.to_nat (av_input_offset view + index * 80)) cursor inputs ->
  Forall replay_input_typed inputs -> frames_increase (if index =? 0 then None else Some prev) inputs ->
  av_input_offset view + 80 * count <= Z.of_nat cursor ->
  Z.of_nat cursor + Z.of_nat (input_payload inputs) <= av_action_offset view ->
  total + Z.of_nat (input_payload inputs) <= u64_max ->
  parse_replay_inputs view (length inputs) index (Z.of_nat cursor) prev total =
    Some (Z.of_nat cursor + Z.of_nat (input_payload inputs), total + Z.of_nat (input_payload inputs),
          default prev (final_frame (Some prev) inputs)).
Proof.
  induction inputs as [|r rest IH]; intros index cursor prev total Hi Hn Hp Ht Ha Hty Hf Hc He Hs.
  { simpl. by rewrite !Z.add_0_r. }
  unfold input_payload in *. cbn [sum_list_with length replay_inputs_at parse_replay_inputs] in *.
  destruct Ha as [Hr Ha]. apply Forall_cons in Hty as [Hrt Hty]. destruct Hf as [Hf Hfs].
  assert (Hsz : size (ir_payload r) = Z.of_nat (length (ir_payload r))) by done.
  rewrite (decode_input_at_ok view index cursor r) by (done || lia). cbn [mbind option_bind]. cbv beta iota.
  rewrite Z.eqb_refl, (proj2 (Z.ltb_ge (u64_max - total) _)) by lia. cbn [negb orb].
  replace (negb (index =? 0) && (frame_index (ir_frame r) <=? prev)) with false.
  2:{ destruct (Z.eqb_spec index 0); cbn [negb andb]; [done|]. symmetry. apply Z.leb_gt. done. }
  cbn [orb]. rewrite u64_small, Hsz by (unfold is_u64; lia).
  replace (Z.of_nat cursor + Z.of_nat (length (ir_payload r)))
    with (Z.of_nat (cursor + length (ir_payload r))) by lia.
  rewrite IH; try done; try lia; try apply Hrt.
  - rewrite final_frame_cons. f_equal. f_equal; [f_equal; lia|].
    unfold final_frame. by destruct (list.last rest).
  - replace (Z.to_nat (av_input_offset view + (index + 1) * 80))
      with (Z.to_nat (av_input_offset view + index * 80) + active_replay_input_header_size)%nat;
      [done|unfold active_replay_input_header_size; lia].
  - rewrite (proj2 (Z.eqb_neq (index + 1) 0)) by lia. done.
Qed.

Lemma parse_replay_actions_ok actions : forall index,
  0 <= index -> index + Z.of_nat (length actions) = rm_action_record_count (av_metadata view) ->
  0 <= av_action_offset view -> size (av_artifact view) <= u64_max ->
  Forall mixed_action_well_typed actions ->
  Forall (fun a => mixed_rate_action_valid a = true) actions ->
  is_u64 (rm_first_action_sequence (av_metadata view)) ->
  rm_first_action_sequence (av_metadata view) + rm_action_record_count (av_metadata view) <= u64_max + 1 ->
  (forall i a, actions !! i = Some a ->
     ma_sequence a = rm_first_action_sequence (av_metadata view) + index + Z.of_nat i) ->
  replay_actions_at (av_artifact view) (Z.to_nat (av_action_offset view + index * 264)) actions ->
  parse_replay_actions view (length actions) index = forallb (action_matches (av_metadata view)) actions.
Proof.
  induction actions as [|a rest IH]; intros index Hi Hn H0 Hsz Ht Hv Hu Hf Hs Ha; [done|].
  cbn [length parse_replay_actions replay_actions_at forallb] in *.
  destruct Ha as [Ha Hr]. apply Forall_cons in Ht as [Hat Ht]. apply Forall_cons in Hv as [Hav Hv].
  rewrite (active_replay_action_at_ok view index a) by (done || lia).
  rewrite (IH (index + 1)); try done; try lia.
  - f_equal. unfold replay_action_fits, action_matches. rewrite (Hs 0%nat a eq_refl).
    rewrite u64_small by (unfold is_u64 in *; lia).
    rewrite (proj2 (Z.eqb_eq (_ + _ + _) _)) by lia. done.
  - intros i x Hx. rewrite (Hs (S i) x Hx). lia.
  - replace (Z.to_nat (av_action_offset view + (index + 1) * 264))
      with (Z.to_nat (av_action_offset view + index * 264) + active_replay_action_bytes)%nat;
      [done|unfold active_replay_action_bytes; lia].
Qed.
End Records.

(** The parts of an artifact that a parse reads, for given contents. *)
Record sealed_artifact (bs : list Z) (m : ActiveReplayMetadata) (checkpoint : list Z)
    (inputs : list InputRecord) (actions : list MixedRateActionRecord) (io ao : Z) : Prop := {
  sa_bytes : bytes_ok bs;
  sa_io : io = 384 + size checkpoint;
  sa_ao : ao = io + 80 * Z.of_nat (length inputs) + Z.of_nat (input_payload inputs);
  sa_size : size bs = ao + 264 * Z.of_nat (length actions);
  sa_header : subspan bs 0 384 = replay_header m checkpoint io ao (replay_artifact_checksum bs);
  sa_checkpoint : subspan bs 384 (length checkpoint) = checkpoint;
  sa_inputs : replay_inputs_at bs (Z.to_nat io) (Z.to_nat (io + 80 * Z.of_nat (length inputs))) inputs;
  sa_inputs_typed : Forall replay_input_typed inputs;
  sa_frames : frames_increase None inputs;
  sa_some : inputs <> [];
  sa_actions : replay_actions_at bs (Z.to_nat ao) actions;
  sa_actions_typed : Forall mixed_action_well_typed actions;
  sa_actions_valid : Forall (fun a => mixed_rate_action_valid a = true) actions;
  sa_sequences : forall i a, actions !! i = Some a -> ma_sequence a = rm_first_action_sequence m + Z.of_nat i
}.

(** The metadata that belongs to these contents. *)
Record metadata_of (m : ActiveReplayMetadata) (bs checkpoint : list Z) (inputs : list InputRecord)
    (actions : list MixedRateActionRecord) : Prop := {
  mo_typed : replay_metadata_typed m;
  mo_schema : rm_schema_version m = active_replay_schema_version;
  mo_header : rm_header_size m = 384;
  mo_total : rm_total_bytes m = size bs;
  mo_whole : rm_artifact_checksum m = replay_artifact_checksum bs;
  mo_frame : is_u64 (rm_checkpoint_frame_index m);
  mo_first : rm_first_frame_index m = first_frame inputs;
  mo_last : rm_last_frame_index m = last_frame inputs;
  mo_checkpoint : rm_checkpoint_bytes m = size checkpoint;
  mo_payload : rm_input_payload_bytes m = Z.of_nat (input_payload inputs);
  mo_sequence : is_u64 (rm_first_action_sequence m);
  mo_sequences : rm_first_action_sequence m + Z.of_nat (length actions) <= u64_max + 1;
  mo_last_sequence : rm_last_action_sequence m =
    if (Nat.eqb (length actions) 0) then rm_first_action_sequence m
    else rm_first_action_sequence m + Z.of_nat (length actions) - 1;
  mo_inputs : rm_input_record_count m = Z.of_nat (length inputs);
  mo_actions : rm_action_record_count m = Z.of_nat (length actions);
  mo_limits : Z.of_nat (length inputs) <= active_replay_record_capacity_limit /\
              Z.of_nat (length actions) <= active_replay_record_capacity_limit
}.

Lemma first_frame_u64 inputs : Forall replay_input_typed inputs -> is_u64 (first_frame inputs).
Proof.
  intros H. unfold first_frame. destruct inputs as [|r l]; simpl; [unfold is_u64, u64_max; lia|].
  apply Forall_cons in H as [Hr _]. apply Hr.
Qed.

Lemma last_frame_u64 inputs : Forall replay_input_typed inputs -> is_u64 (last_frame inputs).
Proof.
  intros H. unfold last_frame. destruct (list.last inputs) as [r|] eqn:E; simpl; [|unfold is_u64, u64_max; lia].
  apply last_Some_elem_of in E. rewrite Forall_forall in H. by apply H in E as [].
Qed.

Section Sealed.
Context (bs : list Z) (m : ActiveReplayMetadata) (checkpoint : list Z) (inputs : list InputRecord)
        (actions : list MixedRateActionRecord) (io ao : Z).
Context (Hs : sealed_artifact bs m checkpoint inputs actions io ao) (Hm : metadata_of m bs checkpoint inputs actions).
Context (Hbig : size bs <= active_replay_absolute_max_bytes).

Lemma sealed_bounds :
  (384 <= length bs)%nat /\ 384 <= io <= ao /\ ao <= size bs /\ size bs < 2 ^ 31 /\ 0 < Z.of_nat (length inputs).
Proof.
  destruct Hs. unfold size in *. change active_replay_absolute_max_bytes with 1073741824 in Hbig.
  destruct inputs; [done|]. simpl length in *. lia.
Qed.

Lemma sealed_u64 v : 0 <= v < 2 ^ 31 -> field_fits_width 8 v.
Proof. intros H. apply u64_fits. unfold is_u64, u64_max. lia. Qed.

Lemma sealed_u32 v : 0 <= v < 2 ^ 31 -> field_fits_width 4 v.
Proof. intros H. apply u32_fits. unfold is_u32, u32_max. lia. Qed.

Lemma last_sequence_u64 : is_u64 (rm_last_action_sequence m).
Proof.
  destruct Hm. rewrite mo_last_sequence0. destruct (Nat.eqb_spec (length actions) 0); [done|].
  unfold is_u64 in *. lia.
Qed.

Lemma tier_u32 : is_u32 (rm_determinism_tier m).
Proof. pose proof (mt_tier _ (mo_typed _ _ _ _ _ Hm)) as H. unfold is_u8, is_u32, u32_max in *. lia. Qed.

Ltac header_side :=
  lazymatch goal with
  | |- field_fits_width 8 (replay_artifact_checksum _) => apply u64_fits, replay_artifact_checksum_u64
  | |- field_fits_width 8 (replay_checksum _) => apply u64_fits, replay_checksum_u64
  | |- field_fits_width 8 kReplayMagic => by vm_compute
  | |- field_fits_width 4 (rm_determinism_tier m) => apply u32_fits, tier_u32
  | |- field_fits_width 4 active_replay_schema_version => by vm_compute
  | |- field_fits_width 8 _ => apply sealed_u64; lia
  | |- field_fits_width 4 _ => apply sealed_u32; lia
  | |- header_fields _ _ _ _ _ !! 3%nat = _ => simpl; f_equal; apply Hm
  | |- header_fields _ _ _ _ _ !! 20%nat = _ => simpl; f_equal; apply Hm
  | |- header_fields _ _ _ _ _ !! 24%nat = _ => simpl; f_equal; apply Hm
  | |- (_ <= _)%nat => simpl; lia
  | |- _ => reflexivity
  end.
Ltac metadata_side :=
  lazymatch goal with
  | |- is_u64 (rm_last_action_sequence m) => apply last_sequence_u64
  | |- is_u64 (rm_first_frame_index m) => rewrite (mo_first _ _ _ _ _ Hm); apply first_frame_u64, Hs
  | |- is_u64 (rm_last_frame_index m) => rewrite (mo_last _ _ _ _ _ Hm); apply last_frame_u64, Hs
  | |- is_u64 (rm_input_payload_bytes m) =>
      rewrite (mo_payload _ _ _ _ _ Hm); destruct Hs; unfold is_u64, u64_max, size in *; lia
  | |- is_u64 (rm_checkpoint_frame_index m) => apply Hm
  | |- is_u64 (rm_first_action_sequence m) => apply Hm
  | |- is_u64 _ => apply (mo_typed _ _ _ _ _ Hm)
  | |- (_ <= _)%nat => simpl; lia
  | |- _ => reflexivity
  end.

Lemma replay_header_tail :
  subspan (replay_header m checkpoint io ao (replay_artifact_checksum bs)) 352 32 = replicate 32 0.
Proof.
  destruct (mt_build _ (mo_typed _ _ _ _ _ Hm)) as [_ Lb], (mt_workload _ (mo_typed _ _ _ _ _ Hm)) as [_ Lw].
  unfold replay_header. rewrite !app_assoc. unfold subspan.
  rewrite drop_app_length' by (rewrite !length_app, Lb, Lw; reflexivity). reflexivity.
Qed.

Lemma sealed_front off k : (off + k <= 384)%nat ->
  subspan bs off k = subspan (replay_header m checkpoint io ao (replay_artifact_checksum bs)) off k.
Proof. intros H. rewrite <- (sa_header _ _ _ _ _ _ _ Hs). by rewrite subspan_subspan by lia. Qed.

Lemma subspan_app_at (l1 l2 l3 : list Z) off n :
  off = length l1 -> n = length l2 -> subspan (l1 ++ l2 ++ l3) off n = l2.
Proof. intros -> ->. unfold subspan. by rewrite drop_app_length, take_app_length. Qed.

Lemma sealed_layout :
  parse_replay_layout bs = Some (mkReplayLayout (size bs) (replay_artifact_checksum bs) (size checkpoint)
    (replay_checksum checkpoint) io (Z.of_nat (length inputs)) ao (Z.of_nat (length actions))
    (rm_determinism_tier m)).
Proof.
  pose proof sealed_bounds as (Hl & Hio & Hao & Hsz & Hn). pose proof (mo_limits _ _ _ _ _ Hm) as [L1 L2].
  change active_replay_record_capacity_limit with 65536 in *.
  assert (Hcp : 0 <= size checkpoint <= io) by (destruct Hs; unfold size in *; lia).
  assert (F : forall i w f off, header_layout !! i = Some w ->
    header_fields m checkpoint io ao (replay_artifact_checksum bs) !! i = Some f -> field_fits_width w f ->
    off = sum_list (take i header_layout) -> (off + w <= 224)%nat -> load_le w bs off = Some f)
    by (intros i w f off; apply header_field; [apply Hs|apply Hs|done]).
  unfold parse_replay_layout, load_u64_le, load_u32_le.
  rewrite (F 0%nat 8%nat kReplayMagic 0%nat) by header_side. cbn [mbind option_bind].
  rewrite (F 1%nat 4%nat active_replay_schema_version 8%nat) by header_side. cbn [mbind option_bind].
  rewrite (F 2%nat 4%nat 384 12%nat) by header_side. cbn [mbind option_bind].
  rewrite (F 3%nat 8%nat (size bs) 16%nat) by header_side. cbn [mbind option_bind].
  rewrite (F 4%nat 8%nat (replay_artifact_checksum bs) 24%nat) by header_side. cbn [mbind option_bind].
  rewrite (F 16%nat 8%nat 384 120%nat) by header_side. cbn [mbind option_bind].
  rewrite (F 17%nat 8%nat (size checkpoint) 128%nat) by header_side. cbn [mbind option_bind].
  rewrite (F 18%nat 8%nat (replay_checksum checkpoint) 136%nat) by header_side. cbn [mbind option_bind].
  rewrite (F 19%nat 8%nat io 144%nat) by header_side. cbn [mbind option_bind].
  rewrite (F 20%nat 4%nat (Z.of_nat (length inputs)) 152%nat) by header_side. cbn [mbind option_bind].
  rewrite (F 21%nat 4%nat 80 156%nat) by header_side. cbn [mbind option_bind].
  rewrite (F 23%nat 8%nat ao 168%nat) by header_side. cbn [mbind option_bind].
  rewrite (F 24%nat 4%nat (Z.of_nat (length actions)) 176%nat) by header_side. cbn [mbind option_bind].
  rewrite (F 25%nat 4%nat 264 180%nat) by header_side. cbn [mbind option_bind].
  rewrite (F 28%nat 4%nat (rm_determinism_tier m) 200%nat) by header_side. cbn [mbind option_bind].
  assert (Z1 : zero_range bs 204 224 = true).
  { unfold zero_range. rewrite (proj2 (Nat.leb_le 224 (length bs))) by lia. cbn [andb].
    rewrite sealed_front by lia. unfold replay_header. rewrite subspan_app_l by (simpl; lia). reflexivity. }
  assert (Z2 : zero_range bs 352 384 = true).
  { unfold zero_range. rewrite (proj2 (Nat.leb_le 384 _)) by lia. cbn [andb Nat.leb].
    rewrite sealed_front by lia. change (384 - 352)%nat with 32%nat. by rewrite replay_header_tail. }
  change active_replay_record_capacity_limit with 65536.
  change (Z.of_nat active_replay_header_size) with 384.
  rewrite Z1, Z2, !Z.eqb_refl, (proj2 (Z.eqb_neq _ 0)), !(proj2 (Z.ltb_ge _ _)) by (unfold u64_max; lia).
  reflexivity.
Qed.

Lemma sealed_metadata_read : parse_replay_metadata bs (mkReplayLayout (size bs) (replay_artifact_checksum bs)
    (size checkpoint) (replay_checksum checkpoint) io (Z.of_nat (length inputs)) ao (Z.of_nat (length actions))
    (rm_determinism_tier m)) = m.
Proof.
  pose proof sealed_bounds as (Hl & Hio & Hao & Hsz & Hn).
  assert (F : forall i f off, header_layout !! i = Some 8%nat ->
    header_fields m checkpoint io ao (replay_artifact_checksum bs) !! i = Some f -> is_u64 f ->
    off = sum_list (take i header_layout) -> (off + 8 <= 224)%nat -> field64 bs off = f).
  { intros i f off H1 H2 H3 H4 H5. unfold field64, load_u64_le.
    by rewrite (header_field i 8 f m checkpoint io ao (replay_artifact_checksum bs))
      by (apply Hs || done || by apply u64_fits). }
  assert (Hb : subspan bs 224 64 = rm_build_id m /\ subspan bs 288 64 = rm_workload_id m).
  { split; rewrite sealed_front by lia; unfold replay_header;
      destruct (mt_build _ (mo_typed _ _ _ _ _ Hm)) as [_ Lb], (mt_workload _ (mo_typed _ _ _ _ _ Hm)) as [_ Lw].
    - apply subspan_app_at; [done|]. done.
    - rewrite app_assoc. apply subspan_app_at; [rewrite length_app, Lb; done|done]. }
  destruct Hb as [Eb Ew]. unfold parse_replay_metadata, replay_identifier_capacity. simpl rl_total. simpl rl_whole.
  simpl rl_checkpoint_bytes. simpl rl_input_count. simpl rl_action_count. simpl rl_determinism. rewrite Eb, Ew.
  rewrite (F 5%nat (rm_runtime_id m) 32%nat) by metadata_side.
  rewrite (F 6%nat (rm_config_id m) 40%nat) by metadata_side.
  rewrite (F 7%nat (rm_replay_id m) 48%nat) by metadata_side.
  rewrite (F 8%nat (rm_graph_id m) 56%nat) by metadata_side.
  rewrite (F 9%nat (rm_state_schema_id m) 64%nat) by metadata_side.
  rewrite (F 10%nat (rm_host_policy_version m) 72%nat) by metadata_side.
  rewrite (F 11%nat (rm_checkpoint_frame_index m) 80%nat) by metadata_side.
  rewrite (F 12%nat (rm_first_frame_index m) 88%nat) by metadata_side.
  rewrite (F 13%nat (rm_last_frame_index m) 96%nat) by metadata_side.
  rewrite (F 14%nat (rm_nominal_epoch_ns m) 104%nat) by metadata_side.
  rewrite (F 15%nat (rm_final_state_hash m) 112%nat) by metadata_side.
  rewrite (F 22%nat (rm_input_payload_bytes m) 160%nat) by metadata_side.
  rewrite (F 26%nat (rm_first_action_sequence m) 184%nat) by metadata_side.
  rewrite (F 27%nat (rm_last_action_sequence m) 192%nat) by metadata_side.
  unfold tier_of. pose proof (mt_tier _ (mo_typed _ _ _ _ _ Hm)) as Ht. rewrite Z.mod_small by apply Ht.
  destruct Hm, m. simpl in *. by subst.
Qed.

Abbreviation sealed_view := (mkReplayView m bs checkpoint io ao).

Lemma sealed_regions l :
  rl_checkpoint_bytes l = size checkpoint -> rl_input_offset l = io -> rl_action_offset l = ao ->
  rl_action_count l = Z.of_nat (length actions) -> replay_regions_valid bs l = true.
Proof.
  intros E1 E2 E3 E4. pose proof sealed_bounds as (Hl & Hio & Hao & Hsz & Hn).
  unfold replay_regions_valid. rewrite E1, E2, E3, E4.
  unfold active_replay_header_size, active_replay_action_bytes. change (Z.of_nat 384) with 384. change (Z.of_nat 264) with 264.
  destruct Hs. rewrite add_size_ok, multiply_size_ok by (unfold size, u64_max in *; lia).
  rewrite add_size_ok by (unfold size, u64_max in *; lia).
  rewrite (proj2 (Z.eqb_eq (384 + size checkpoint) io)), (proj2 (Z.leb_le io ao)), (proj2 (Z.eqb_eq _ (size bs))) by lia.
  done.
Qed.

Lemma sealed_decode_first r rest :
  inputs = r :: rest -> exists p e, decode_input_at sealed_view 0 = Some (r, p, e).
Proof.
  intros E. pose proof sealed_bounds as (Hl & Hio & Hao & Hsz & Hn).
  pose proof (sa_inputs _ _ _ _ _ _ _ Hs) as Ha. pose proof (sa_inputs_typed _ _ _ _ _ _ _ Hs) as Ht.
  pose proof (sa_ao _ _ _ _ _ _ _ Hs) as Eao. pose proof (mo_inputs _ _ _ _ _ Hm) as Ec. rewrite E in *.
  destruct Ha as [Ha _]. apply Forall_cons in Ht as [Hr _]. unfold input_payload in Eao. cbn [sum_list_with] in Eao.
  eexists _, _. apply (decode_input_at_ok sealed_view 0 (Z.to_nat (io + 80 * Z.of_nat (length (r :: rest)))));
    cbn [av_metadata av_input_offset av_action_offset av_artifact]; try done; try (unfold size, u64_max in *; lia).
  by rewrite Z.mul_0_l, Z.add_0_r.
Qed.

Lemma sealed_records : parse_replay_records sealed_view = forallb (action_matches m) actions.
Proof.
  pose proof sealed_bounds as (Hl & Hio & Hao & Hsz & Hn).
  pose proof (sa_ao _ _ _ _ _ _ _ Hs) as Eao. pose proof (sa_size _ _ _ _ _ _ _ Hs) as Esz.
  unfold parse_replay_records, active_replay_input_header_size. cbn [av_metadata av_input_offset av_action_offset].
  rewrite (mo_inputs _ _ _ _ _ Hm), (mo_actions _ _ _ _ _ Hm). change (Z.of_nat 80) with 80.
  rewrite multiply_size_ok by (unfold u64_max; lia). cbn [mbind option_bind].
  rewrite add_size_ok by (unfold u64_max; lia). cbn [mbind option_bind].
  rewrite (proj2 (Z.ltb_ge ao _)), !Nat2Z.id by lia.
  replace (io + Z.of_nat (length inputs) * 80)
    with (Z.of_nat (Z.to_nat (io + 80 * Z.of_nat (length inputs)))) by lia.
  rewrite (parse_replay_inputs_ok sealed_view); cbn [av_metadata av_input_offset av_action_offset av_artifact];
    try apply Hs; try (rewrite ?(mo_inputs _ _ _ _ _ Hm); unfold is_u64, u64_max; lia).
  2:{ rewrite Z.mul_0_l, Z.add_0_r. apply Hs. }
  rewrite Z.add_0_l. rewrite (proj2 (Z.eqb_eq _ ao)), (proj2 (Z.eqb_eq _ (rm_input_payload_bytes m)))
    by (rewrite ?(mo_payload _ _ _ _ _ Hm); lia). cbn [andb].
  rewrite (mo_first _ _ _ _ _ Hm), (mo_last _ _ _ _ _ Hm).
  assert (exists r rest, inputs = r :: rest) as (r & rest & Ei).
  { pose proof (sa_some _ _ _ _ _ _ _ Hs) as H. destruct inputs as [|r rest]; [done|]. by exists r, rest. }
  destruct (sealed_decode_first r rest Ei) as (p & e & ->).
  assert (E1 : default 0 (final_frame (Some 0) inputs) = last_frame inputs).
  { unfold final_frame, last_frame. by destruct (list.last inputs). }
  assert (E2 : first_frame inputs = frame_index (ir_frame r)) by (by rewrite Ei).
  rewrite E1, E2, !Z.eqb_refl. cbn [andb].
  apply (parse_replay_actions_ok sealed_view); cbn [av_metadata av_action_offset av_artifact]; try apply Hs; try apply Hm;
    rewrite ?(mo_actions _ _ _ _ _ Hm); try apply Hm; try (unfold u64_max; lia).
  - intros i a Hi. rewrite Z.add_0_r. by apply Hs.
  - rewrite Z.mul_0_l, Z.add_0_r. apply Hs.
Qed.

Lemma parse_sealed maximum_bytes checkpoint_metadata :
  size bs <= maximum_bytes <= active_replay_absolute_max_bytes ->
  inspect_checkpoint_artifact checkpoint = (ok, checkpoint_metadata) ->
  parse_active_replay_artifact bs maximum_bytes =
    if negb (replay_compatible m checkpoint_metadata)
    then (incompatible_artifact, ActiveReplayArtifactView_default)
    else if forallb (action_matches m) actions then (ok, sealed_view)
    else (invalid_artifact, ActiveReplayArtifactView_default).
Proof.
  intros Hmax Hc. pose proof sealed_bounds as (Hl & Hio & Hao & Hsz & Hn).
  unfold parse_active_replay_artifact. cbv zeta. rewrite (proj2 (Z.eqb_neq maximum_bytes 0)) by (unfold size in *; lia).
  rewrite !(proj2 (Z.ltb_ge _ _)), (proj2 (Nat.ltb_ge _ _)) by (unfold active_replay_header_size; lia). cbn [orb].
  rewrite sealed_layout, sealed_regions by done. cbn [negb rl_checkpoint_bytes rl_checkpoint_checksum rl_input_offset rl_action_offset].
  replace (Z.to_nat (size checkpoint)) with (length checkpoint) by (unfold size; lia).
  unfold active_replay_header_size. rewrite (sa_checkpoint _ _ _ _ _ _ _ Hs), Hc, Z.eqb_refl.
  rewrite bool_decide_true by done. cbn [negb orb]. rewrite sealed_metadata_read.
  destruct (replay_compatible m checkpoint_metadata); cbn [negb]; [|done]. by rewrite sealed_records.
Qed.
End Sealed.

(** ** The encoder *)

(** The values of an input have the ranges of their C++ types. *)
Record replay_input_wf (r : InputRecord) : Prop := {
  rw_frame : is_u64 (frame_index (ir_frame r));
  rw_delta : delta (ir_frame r) <= nanoseconds_max;
  rw_deadline : forall d, deadline_ns (ir_frame r) = Some d -> is_u64 d;
  rw_nominal : forall t, nominal_release_ns (ir_frame r) = Some t -> is_u64 t;
  rw_type : is_u32 (ir_input_type r);
  rw_bytes : bytes_ok (ir_payload r)
}.

(** An input the artifact can hold. *)
Definition replay_input_ok (r : InputRecord) : Prop :=
  0 < delta (ir_frame r) /\ is_Some (nominal_release_ns (ir_frame r)).

Lemma replay_inputs_typed inputs :
  Forall replay_input_wf inputs -> Forall replay_input_ok inputs ->
  Z.of_nat (input_payload inputs) <= u64_max -> Forall replay_input_typed inputs.
Proof.
  intros Hw Ho. unfold input_payload. induction inputs as [|r rest IH]; intros Hs; [constructor|].
  apply Forall_cons in Hw as [Hr Hw], Ho as [[Hd [t Ht]] Ho]. cbn [sum_list_with] in Hs.
  constructor; [|apply IH; try done; lia]. destruct Hr. constructor; try done.
  - exists t. auto.
  - unfold size. lia.
Qed.

Lemma check_replay_inputs_spec inputs : forall first prev acc total,
  Forall replay_input_wf inputs -> 0 <= acc <= u64_max ->
  check_replay_inputs inputs first prev acc = Some total <->
  Forall replay_input_ok inputs /\ frames_increase (if first then None else Some prev) inputs /\
  total = acc + Z.of_nat (input_payload inputs) /\ total <= u64_max.
Proof.
  unfold input_payload. induction inputs as [|r rest IH]; intros first prev acc total Hw Hacc;
    cbn [check_replay_inputs sum_list_with frames_increase].
  { rewrite Z.add_0_r. split; [intros [= ->]; split_and!; (done || lia || constructor)|]. intros (_ & _ & -> & _). done. }
  apply Forall_cons in Hw as [Hr Hw]. rewrite Forall_cons. unfold replay_input_ok at 1.
  assert (Hsz : size (ir_payload r) = Z.of_nat (length (ir_payload r))) by done.
  destruct (Z.leb_spec (delta (ir_frame r)) 0); cbn [orb]; [split; [done|]; intros ([[? _] _] & _); lia|].
  case_bool_decide as Hn; cbn [orb].
  { split; [done|]. rewrite Hn. intros ([[_ [x ?]] _] & _). done. }
  destruct (negb first && (frame_index (ir_frame r) <=? prev)) eqn:Ef; cbn [orb].
  { split; [done|]. intros (_ & [Hf _] & _). destruct first; [done|]. cbn [negb andb] in Ef.
    apply Z.leb_le in Ef. lia. }
  destruct (Z.ltb_spec (u64_max - acc) (size (ir_payload r))).
  { split; [done|]. intros (_ & _ & -> & Ht). lia. }
  rewrite add_size_ok by lia. cbn [mbind option_bind]. rewrite IH by (done || lia). cbn [negb].
  assert (is_Some (nominal_release_ns (ir_frame r))) by (by apply not_eq_None_Some).
  assert (match (if first then None else Some prev) with
          | Some p => p < frame_index (ir_frame r) | None => True end).
  { destruct first; [done|]. cbn [negb andb] in Ef. by apply Z.leb_gt in Ef. }
  rewrite Hsz, Nat2Z.inj_add, Z.add_assoc. naive_solver.
Qed.

Lemma replay_sizes_spec n k c p maximum d i t :
  0 <= n -> 0 <= k -> 0 <= c -> 0 <= p -> maximum <= active_replay_absolute_max_bytes ->
  replay_sizes n k c p maximum = Some (d, i, t) <->
  d = 80 * n /\ i = p + 80 * n /\ t = 384 + c + i + 264 * k /\ t <= maximum.
Proof.
  intros Hn Hk Hc Hp Hmax. change active_replay_absolute_max_bytes with 1073741824 in Hmax.
  unfold replay_sizes, active_replay_input_header_size, active_replay_action_bytes, active_replay_header_size.
  change (Z.of_nat 80) with 80. change (Z.of_nat 264) with 264. change (Z.of_nat 384) with 384. split.
  - destruct (multiply_size n 80) as [d'|] eqn:E1; [|done]. apply multiply_size_Some in E1 as [-> L1]; [|lia..].
    cbn [mbind option_bind]. destruct (add_size p (n * 80)) as [i'|] eqn:E2; [|done].
    apply add_size_Some in E2 as [-> L2]; [|lia..]. cbn [mbind option_bind].
    destruct (multiply_size k 264) as [a'|] eqn:E3; [|done]. apply multiply_size_Some in E3 as [-> L3]; [|lia..].
    cbn [mbind option_bind]. destruct (add_size 384 c) as [t1|] eqn:E4; [|done].
    apply add_size_Some in E4 as [-> L4]; [|lia..]. cbn [mbind option_bind].
    destruct (add_size (384 + c) (p + n * 80)) as [t2|] eqn:E5; [|done].
    apply add_size_Some in E5 as [-> L5]; [|lia..]. cbn [mbind option_bind].
    destruct (add_size (384 + c + (p + n * 80)) (k * 264)) as [t3|] eqn:E6; [|done].
    apply add_size_Some in E6 as [-> L6]; [|lia..]. cbn [mbind option_bind].
    destruct (Z.ltb_spec maximum (384 + c + (p + n * 80) + k * 264)); [done|]. intros [= <- <- <-]. lia.
  - intros (-> & -> & -> & Ht). assert (Hu : 1073741824 <= u64_max) by (vm_compute; discriminate).
    rewrite (multiply_size_ok n 80) by lia. cbn [mbind option_bind]. rewrite (add_size_ok p) by lia. cbn [mbind option_bind].
    rewrite (multiply_size_ok k 264) by lia. cbn [mbind option_bind]. rewrite (add_size_ok 384) by lia. cbn [mbind option_bind].
    rewrite add_size_ok by lia. cbn [mbind option_bind]. rewrite add_size_ok by lia. cbn [mbind option_bind].
    rewrite (proj2 (Z.ltb_ge _ _)), (Z.mul_comm n), (Z.mul_comm k) by lia. done.
Qed.

Definition replay_size (checkpoint : list Z) (inputs : list InputRecord) (action_count : Z) : Z :=
  384 + size checkpoint + (Z.of_nat (input_payload inputs) + 80 * Z.of_nat (length inputs)) + 264 * action_count.

(** The requests the encoder can fulfil. *)
Record replay_encodable (metadata : ActiveReplayMetadata) (checkpoint : list Z) (inputs : list InputRecord)
    (first count : Z) (reader : option (Z -> option MixedRateActionRecord)) (maximum : Z) (output : list Z) : Prop := {
  re_request : replay_request_valid metadata inputs count reader maximum = true;
  re_checkpoint : (inspect_checkpoint_artifact checkpoint).1 = ok;
  re_inputs : Forall replay_input_ok inputs;
  re_frames : frames_increase None inputs;
  re_size : replay_size checkpoint inputs count <= maximum;
  re_output : replay_size checkpoint inputs count <= size output;
  re_sequences : first + count <= u64_max + 1;
  re_actions : exists actions, Z.of_nat (length actions) = count /\
                 reader_gives (default (fun _ => None) reader) first actions
}.

Lemma replay_request_valid_spec metadata inputs count reader maximum :
  replay_request_valid metadata inputs count reader maximum = true ->
  maximum <= active_replay_absolute_max_bytes /\ inputs <> [] /\
  Z.of_nat (length inputs) <= active_replay_record_capacity_limit /\ count <= active_replay_record_capacity_limit /\
  rm_host_policy_version metadata <> 0 /\ identifier_valid (rm_build_id metadata) = true /\
  identifier_valid (rm_workload_id metadata) = true.
Proof.
  unfold replay_request_valid. rewrite negb_true_iff, !orb_false_iff, !negb_false_iff, !Z.ltb_ge, !Z.eqb_neq, Nat.eqb_neq.
  intros H. destruct_and! H. split_and!; try done. by intros ->.
Qed.

(** The metadata of the artifact: what the encoder derives, and the checksum. *)
Definition sealed_replay_metadata (metadata : ActiveReplayMetadata) (checkpoint_metadata : CheckpointMetadata)
    (checkpoint : list Z) (inputs : list InputRecord) (first count whole : Z) : ActiveReplayMetadata :=
  let m := replay_metadata metadata checkpoint_metadata (size checkpoint) inputs
             (Z.of_nat (input_payload inputs)) first count (replay_size checkpoint inputs count) in
  mkReplayMetadata (rm_schema_version m) (rm_header_size m) (rm_total_bytes m) whole (rm_runtime_id m)
    (rm_config_id m) (rm_replay_id m) (rm_graph_id m) (rm_state_schema_id m) (rm_host_policy_version m)
    (rm_checkpoint_frame_index m) (rm_first_frame_index m) (rm_last_frame_index m) (rm_nominal_epoch_ns m)
    (rm_final_state_hash m) (rm_checkpoint_bytes m) (rm_input_payload_bytes m) (rm_first_action_sequence m)
    (rm_last_action_sequence m) (rm_input_record_count m) (rm_action_record_count m) (rm_determinism_tier m)
    (rm_build_id m) (rm_workload_id m).

Section Encode.
Context (metadata : ActiveReplayMetadata) (checkpoint : list Z) (inputs : list InputRecord) (first count : Z)
        (reader : option (Z -> option MixedRateActionRecord)) (maximum : Z) (output : list Z).
Context (Hmeta : replay_metadata_typed metadata) (Hcp : bytes_ok checkpoint) (Hin : Forall replay_input_wf inputs)
        (Hfirst : is_u64 first) (Hcount : 0 <= count)
        (Hread : forall s a, default (fun _ => None) reader s = Some a -> mixed_action_well_typed a).

Abbreviation total := (replay_size checkpoint inputs count).
Abbreviation encoding := (encode_active_replay_artifact metadata checkpoint inputs first count reader maximum output).

Lemma encode_ok_encodable : encoding.1.1 = ok ->
  replay_encodable metadata checkpoint inputs first count reader maximum output.
Proof.
  unfold encode_active_replay_artifact. cbv zeta.
  destruct (replay_request_valid metadata inputs count reader maximum) eqn:Er; cbn [negb]; [|done].
  destruct (replay_request_valid_spec _ _ _ _ _ Er) as (Hmax & _).
  destruct (inspect_checkpoint_artifact checkpoint) as [cs cm] eqn:Ec.
  case_bool_decide as Hcs; cbn [negb]; [|done].
  destruct (check_replay_inputs inputs true 0 0) as [payload|] eqn:Ei; [|done].
  apply check_replay_inputs_spec in Ei as (Ho & Hf & -> & _); [|done|unfold u64_max; lia].
  destruct (replay_sizes _ _ _ _ _) as [[[d i] t]|] eqn:Es; [|done].
  apply replay_sizes_spec in Es as (-> & -> & -> & Ht); [|unfold size in *; lia..|done].
  rewrite Z.add_0_l in *.
  change (384 + size checkpoint + (Z.of_nat (input_payload inputs) + 80 * Z.of_nat (length inputs)) + 264 * count) with total in *.
  destruct (Z.ltb_spec (size output) total); [done|].
  cbn [rm_last_action_sequence replay_metadata].
  destruct (negb (count =? 0) && _) eqn:El; [done|].
  assert (Hseq : first + count <= u64_max + 1).
  { destruct (Z.eqb_spec count 0) as [->|]; [unfold is_u64 in *; lia|]. cbn [negb andb] in El. apply Z.ltb_ge in El.
    destruct (replay_request_valid_spec _ _ _ _ _ Er) as (_ & _ & _ & Hk & _). change active_replay_record_capacity_limit with 65536 in Hk.
    unfold u64, is_u64, u64_max in *.
    destruct (decide (first + count <= 18446744073709551616)); [done|]. exfalso.
    rewrite <- (Z.mod_add (first + count) (-1)) in El by lia. rewrite (Z.mod_small (first + count + _)) in El by lia.
    rewrite Z.mod_small in El; lia. }
  destruct (write_replay_actions _ _ _ _ _) as [b|] eqn:Ew; [|done]. intros _.
  apply write_replay_actions_inv in Ew as (actions & Hl & Hg); [|done|lia].
  constructor; try done.
  - by rewrite Ec.
  - exists actions. split; [lia|done].
Qed.

Context (checkpoint_metadata : CheckpointMetadata) (actions : list MixedRateActionRecord).
Context (He : replay_encodable metadata checkpoint inputs first count reader maximum output)
        (Hcm : inspect_checkpoint_artifact checkpoint = (ok, checkpoint_metadata))
        (Hcf : is_u64 (cm_checkpoint_frame_index checkpoint_metadata))
        (Hn : Z.of_nat (length actions) = count) (Hg : reader_gives (default (fun _ => None) reader) first actions).

Abbreviation io := (384 + size checkpoint).
Abbreviation ao := (io + 80 * Z.of_nat (length inputs) + Z.of_nat (input_payload inputs)).
Abbreviation m := (replay_metadata metadata checkpoint_metadata (size checkpoint) inputs
                     (Z.of_nat (input_payload inputs)) first count total).

Lemma replay_total : total = ao + 264 * count.
Proof. unfold replay_size. lia. Qed.

Lemma replay_bounds : 0 <= size checkpoint /\ total <= 1073741824 /\ 0 < Z.of_nat (length inputs) <= 65536 /\ count <= 65536.
Proof.
  destruct (replay_request_valid_spec _ _ _ _ _ (re_request _ _ _ _ _ _ _ _ He)) as (Hmax & Hne & H1 & H2 & _).
  change active_replay_absolute_max_bytes with 1073741824 in *. change active_replay_record_capacity_limit with 65536 in *.
  pose proof (re_size _ _ _ _ _ _ _ _ He). unfold size in *. destruct inputs; [done|]. cbn [length] in *. lia.
Qed.

Lemma replay_typed_inputs : Forall replay_input_typed inputs.
Proof.
  pose proof replay_bounds as (H0 & Ht & _). unfold replay_size in Ht.
  apply replay_inputs_typed; [done|apply He|]. unfold u64_max. lia.
Qed.

Lemma replay_typed_actions :
  Forall mixed_action_well_typed actions /\ Forall (fun a => mixed_rate_action_valid a = true) actions.
Proof.
  split; apply Forall_lookup_2; intros i a Hi; apply Hg in Hi as (Hr & _ & Hv); [|done]. by eapply Hread.
Qed.

(** The body of the artifact before its actions. *)
Lemma encode_replay_body_at :
  let body := encode_replay_body m checkpoint inputs (80 * Z.of_nat (length inputs))
                (Z.of_nat (input_payload inputs) + 80 * Z.of_nat (length inputs)) total in
  bytes_ok body /\ length body = Z.to_nat total /\ subspan body 0 384 = replay_header m checkpoint io ao 0 /\
  subspan body 384 (length checkpoint) = checkpoint /\
  replay_inputs_at body (Z.to_nat io) (Z.to_nat (io + 80 * Z.of_nat (length inputs))) inputs.
Proof.
  pose proof replay_bounds as (H0 & Ht & Hni & Hk). pose proof replay_total as Et. pose proof replay_typed_inputs as Hty.
  destruct (mt_build _ Hmeta) as [Bb Lb], (mt_workload _ Hmeta) as [Bw Lw].
  unfold encode_replay_body. cbv zeta. change (Z.of_nat active_replay_header_size) with 384.
  replace (io + (Z.of_nat (input_payload inputs) + 80 * Z.of_nat (length inputs))) with ao by lia.
  set (hd := write_replay_header m checkpoint io ao (replicate (Z.to_nat total) 0)).
  assert (HN : (384 + length checkpoint <= Z.to_nat total)%nat) by (unfold size in *; lia).
  assert (Lh : length hd = Z.to_nat total) by apply length_write_replay_header.
  assert (Hag : forall lo hi, (hi <= Z.to_nat io)%nat ->
    agree (write_replay_inputs inputs (Z.to_nat io) (Z.to_nat (io + 80 * Z.of_nat (length inputs))) hd) hd lo hi).
  { intros lo hi Hhi. apply write_replay_inputs_agree; lia. }
  split_and!.
  - apply bytes_ok_write_replay_inputs; [|done]. by apply bytes_ok_write_replay_header.
  - by rewrite length_write_replay_inputs.
  - etransitivity; [apply subspan_agree, Hag; lia|]. by apply write_replay_header_front.
  - etransitivity; [apply subspan_agree, Hag; unfold size; lia|]. by apply write_replay_header_checkpoint.
  - apply write_replay_inputs_at; [lia|rewrite Lh; lia|].
    etransitivity; [apply subspan_agree, write_replay_header_rest; [done|done|done|unfold size; lia]|].
    apply subspan_replicate. lia.
Qed.

Lemma last_action_sequence : count <> 0 -> (first +u count) -u 1 = first + count - 1.
Proof.
  intros Hc. pose proof (re_sequences _ _ _ _ _ _ _ _ He) as Hseq. unfold is_u64 in *.
  destruct (decide (first + count = u64_max + 1)) as [E|E].
  - rewrite E. change (u64 (u64 (u64_max + 1) - 1)) with u64_max. lia.
  - rewrite !u64_small; unfold is_u64; try lia; rewrite u64_small; unfold is_u64; lia.
Qed.

Lemma encode_sealed : exists bs,
  encoding = (ok, mkWriteResult total total (replay_artifact_checksum bs), bs ++ drop (Z.to_nat total) output) /\
  size bs = total /\
  sealed_artifact bs (sealed_replay_metadata metadata checkpoint_metadata checkpoint inputs first count
    (replay_artifact_checksum bs)) checkpoint inputs actions io ao /\
  metadata_of (sealed_replay_metadata metadata checkpoint_metadata checkpoint inputs first count
    (replay_artifact_checksum bs)) bs checkpoint inputs actions.
Proof.
  pose proof replay_bounds as (H0 & Ht & Hni & Hk). pose proof replay_total as Et. pose proof replay_typed_inputs as Hty.
  destruct replay_typed_actions as [Hat Hav]. pose proof (re_sequences _ _ _ _ _ _ _ _ He) as Hseq.
  destruct encode_replay_body_at as (Bb & Lb & Fb & Cb & Ib).
  set (body := encode_replay_body _ _ _ _ _ _) in *.
  destruct (write_replay_actions_at (default (fun _ => None) reader) actions first (Z.to_nat ao) body)
    as (b & Ew & Bw & Lw & Aw & Hw); try done; [lia|lia|].
  assert (Lb' : length b = Z.to_nat total) by congruence.
  assert (Ewhole : replay_artifact_checksum (put64 24 (replay_artifact_checksum b) b) = replay_artifact_checksum b).
  { rewrite !replay_artifact_checksum_excluding by (rewrite ?length_put64; lia).
    apply checksum_excluding_agree; apply agree_put64; lia. }
  exists (put64 24 (replay_artifact_checksum b) b). rewrite Ewhole.
  assert (Hag : forall lo hi, (32 <= lo)%nat -> agree (put64 24 (replay_artifact_checksum b) b) b lo hi)
    by (intros lo hi Hlo; apply agree_put64; lia).
  assert (Hpre : forall lo hi, (32 <= lo)%nat -> (hi <= Z.to_nat ao)%nat ->
    agree (put64 24 (replay_artifact_checksum b) b) body lo hi).
  { intros lo hi Hlo Hhi. eapply agree_trans; [by apply Hag|]. apply (agree_sub _ _ _ _ _ _ Aw); lia. }
  assert (Hsz : size (put64 24 (replay_artifact_checksum b) b) = total) by (unfold size; rewrite length_put64; lia).
  split_and!; [|done| |].
  - unfold encode_active_replay_artifact. rewrite (re_request _ _ _ _ _ _ _ _ He), Hcm. cbn [negb].
    rewrite bool_decide_true by done. cbn [negb].
    destruct He. rewrite (proj2 (check_replay_inputs_spec inputs true 0 0 (Z.of_nat (input_payload inputs)) Hin ltac:(unfold u64_max; lia)))
      by (split_and!; try done; unfold u64_max; lia).
    rewrite (proj2 (replay_sizes_spec (Z.of_nat (length inputs)) count (size checkpoint) (Z.of_nat (input_payload inputs)) maximum _ _ _
      ltac:(lia) ltac:(lia) ltac:(lia) ltac:(lia) (proj1 (replay_request_valid_spec _ _ _ _ _ re_request0)))
      (conj eq_refl (conj eq_refl (conj eq_refl re_size0)))).
    change (384 + size checkpoint + (Z.of_nat (input_payload inputs) + 80 * Z.of_nat (length inputs)) + 264 * count) with total.
    cbv zeta. rewrite (proj2 (Z.ltb_ge (size output) total)) by lia. fold body. cbn [rm_last_action_sequence replay_metadata].
    assert (El : negb (count =? 0) && ((if count =? 0 then first else (first +u count) -u 1) <? first) = false).
    { destruct (Z.eqb_spec count 0); [done|]. cbn [negb andb]. apply Z.ltb_ge.
      rewrite last_action_sequence by done. lia. }
    rewrite El. change (Z.of_nat active_replay_header_size) with 384.
    replace (384 + size checkpoint + (Z.of_nat (input_payload inputs) + 80 * Z.of_nat (length inputs))) with ao by lia.
    replace (Z.to_nat count) with (length actions) by lia. by rewrite Ew.
  - constructor; try done; try lia.
    + by apply bytes_ok_put64.
    + rewrite Ewhole. etransitivity; [apply (subspan_put64_inside b 0 384 24); lia|].
      rewrite (subspan_agree b body 0 384) by (apply (agree_sub _ _ _ _ _ _ Aw); lia). rewrite Fb.
      rewrite replay_header_sealed. reflexivity.
    + rewrite <- Cb at 2. apply subspan_agree, Hpre; unfold size; lia.
    + eapply replay_inputs_at_agree; [| |exact Ib]; apply agree_sym, Hpre; lia.
    + apply He.
    + destruct inputs; [simpl in Hni; lia|done].
    + eapply replay_actions_at_agree; [|exact Hw]. apply agree_sym, Hag. lia.
    + intros i a Hi. by apply Hg in Hi as (_ & -> & _).
  - constructor; try done; try (destruct Hmeta; constructor; done).
    + change (first + Z.of_nat (length actions) <= u64_max + 1). lia.
    + change ((if count =? 0 then first else (first +u count) -u 1) =
              if (length actions =? 0)%nat then first else first + Z.of_nat (length actions) - 1).
      rewrite Hn. destruct (Z.eqb_spec count 0), (Nat.eqb_spec (length actions) 0); try lia.
      by apply last_action_sequence.
    + change (u32 (Z.of_nat (length inputs)) = Z.of_nat (length inputs)). unfold u32. rewrite Z.mod_small; lia.
    + change (u32 count = Z.of_nat (length actions)). unfold u32. rewrite Z.mod_small; lia.
    + change active_replay_record_capacity_limit with 65536. lia.
Qed.
End Encode.

(** ** Reading back *)

Lemma replay_inputs_at_lookup inputs : forall bs at_ cursor i r,
  replay_inputs_at bs at_ cursor inputs -> inputs !! i = Some r ->
  replay_input_at bs (at_ + i * 80) (cursor + input_payload (take i inputs)) r /\
  (input_payload (take i inputs) + length (ir_payload r) <= input_payload inputs)%nat.
Proof.
  unfold input_payload. induction inputs as [|r0 rest IH]; intros bs at_ cursor i r H Hi; [done|].
  destruct H as [H Hrest], i as [|i]; cbn [take sum_list_with].
  - injection Hi as ->. rewrite Nat.mul_0_l, !Nat.add_0_r. split; [done|lia].
  - destruct (IH _ _ _ i r Hrest Hi) as [Hr Hb]. unfold active_replay_input_header_size in Hr. split; [|lia].
    replace (at_ + S i * 80)%nat with (at_ + 80 + i * 80)%nat by lia. by rewrite Nat.add_assoc.
Qed.

Lemma replay_actions_at_lookup actions : forall bs at_ i a,
  replay_actions_at bs at_ actions -> actions !! i = Some a -> replay_action_at bs (at_ + i * 264) a.
Proof.
  induction actions as [|a0 rest IH]; intros bs at_ i a H Hi; [done|]. destruct H as [H Hrest], i as [|i].
  - injection Hi as ->. by rewrite Nat.mul_0_l, Nat.add_0_r.
  - replace (at_ + S i * 264)%nat with (at_ + active_replay_action_bytes + i * 264)%nat
      by (unfold active_replay_action_bytes; lia). by apply IH.
Qed.

Section Reading.
Context (bs : list Z) (m : ActiveReplayMetadata) (checkpoint : list Z) (inputs : list InputRecord)
        (actions : list MixedRateActionRecord) (io ao : Z).
Context (Hs : sealed_artifact bs m checkpoint inputs actions io ao) (Hm : metadata_of m bs checkpoint inputs actions).
Context (Hbig : size bs <= active_replay_absolute_max_bytes).

Lemma sealed_input_at i :
  active_replay_input_at (mkReplayView m bs checkpoint io ao) (Z.of_nat i) = inputs !! i.
Proof.
  pose proof (sealed_bounds _ _ _ _ _ _ _ Hs Hm Hbig) as (Hl & Hio & Hao & Hsz & Hn).
  pose proof (sa_ao _ _ _ _ _ _ _ Hs) as Eao. pose proof (mo_inputs _ _ _ _ _ Hm) as Ec.
  unfold active_replay_input_at. cbn [av_metadata]. rewrite Ec.
  destruct (inputs !! i) as [r|] eqn:Hi.
  - pose proof (lookup_lt_Some _ _ _ Hi) as Hlt. rewrite (proj2 (Z.leb_gt _ _)) by lia.
    destruct (replay_inputs_at_lookup _ _ _ _ _ _ (sa_inputs _ _ _ _ _ _ _ Hs) Hi) as [Hr Hb].
    rewrite (decode_input_at_ok _ _ (Z.to_nat (io + 80 * Z.of_nat (length inputs)) + input_payload (take i inputs)) r);
      cbn [av_metadata av_input_offset av_action_offset av_artifact]; rewrite ?Ec; try done;
      try (unfold size, u64_max in *; lia).
    + pose proof (sa_inputs_typed _ _ _ _ _ _ _ Hs) as Ht. rewrite Forall_lookup in Ht. by eapply Ht.
    + by replace (Z.to_nat (io + Z.of_nat i * 80)) with (Z.to_nat io + i * 80)%nat by lia.
  - apply lookup_ge_None in Hi. by rewrite (proj2 (Z.leb_le _ _)) by lia.
Qed.

Lemma sealed_action_at i :
  active_replay_action_at (mkReplayView m bs checkpoint io ao) (Z.of_nat i) = actions !! i.
Proof.
  pose proof (sealed_bounds _ _ _ _ _ _ _ Hs Hm Hbig) as (Hl & Hio & Hao & Hsz & Hn).
  pose proof (mo_actions _ _ _ _ _ Hm) as Ec. destruct (actions !! i) as [a|] eqn:Hi.
  - pose proof (lookup_lt_Some _ _ _ Hi) as Hlt.
    pose proof (replay_actions_at_lookup _ _ _ _ _ (sa_actions _ _ _ _ _ _ _ Hs) Hi) as Ha.
    pose proof (sa_actions_typed _ _ _ _ _ _ _ Hs) as Ht. pose proof (sa_actions_valid _ _ _ _ _ _ _ Hs) as Hv.
    rewrite Forall_lookup in Ht, Hv.
    apply active_replay_action_at_ok; cbn [av_metadata av_action_offset av_artifact]; rewrite ?Ec;
      try (unfold u64_max; lia); try (by eapply Ht); try (by eapply Hv).
    by replace (Z.to_nat (ao + Z.of_nat i * 264)) with (Z.to_nat ao + i * 264)%nat by lia.
  - unfold active_replay_action_at. cbn [av_metadata]. rewrite Ec. apply lookup_ge_None in Hi.
    by rewrite (proj2 (Z.leb_le _ _)) by lia.
Qed.
End Reading.

(** ** Claims *)

Lemma inspect_checkpoint_frame checkpoint cm :
  bytes_ok checkpoint -> inspect_checkpoint_artifact checkpoint = (ok, cm) -> is_u64 (cm_checkpoint_frame_index cm).
Proof.
  intros Hb. unfold inspect_checkpoint_artifact, parse_checkpoint_artifact. case_match; [done|].
  destruct (parse_checkpoint_header _ _ _) as [md|] eqn:E; [|done]. case_match; [|done]. intros [= <-].
  unfold parse_checkpoint_header in E. repeat (apply bind_Some in E as (? & ? & E)). case_match; [done|].
  injection E as <-. by eapply load_u64_range.
Qed.

(** The metadata of a request agrees with its checkpoint. *)
Definition checkpoint_agrees (metadata : ActiveReplayMetadata) (cm : CheckpointMetadata) : bool :=
  (rm_replay_id metadata =? cm_replay_id cm) && (rm_graph_id metadata =? cm_graph_id cm) &&
  (rm_state_schema_id metadata =? cm_state_schema_id cm) && (rm_determinism_tier metadata =? cm_determinism_tier cm) &&
  bool_decide (rm_workload_id metadata = cm_workload_id cm).

Lemma compatible_agrees metadata cm m bs checkpoint inputs actions :
  metadata_of m bs checkpoint inputs actions ->
  rm_host_policy_version m <> 0 -> identifier_valid (rm_build_id m) = true ->
  identifier_valid (rm_workload_id m) = true -> rm_checkpoint_frame_index m = cm_checkpoint_frame_index cm ->
  rm_replay_id m = rm_replay_id metadata -> rm_graph_id m = rm_graph_id metadata ->
  rm_state_schema_id m = rm_state_schema_id metadata -> rm_determinism_tier m = rm_determinism_tier metadata ->
  rm_workload_id m = rm_workload_id metadata ->
  replay_compatible m cm = checkpoint_agrees metadata cm.
Proof.
  intros Hm Hp Hb Hw Ef E1 E2 E3 E4 E5. unfold replay_compatible, checkpoint_agrees.
  rewrite (proj2 (Z.eqb_neq _ 0) Hp), Hb, Hw, Ef, Z.eqb_refl, E1, E2, E3, E4, E5.
  rewrite (mo_actions _ _ _ _ _ Hm), (mo_last_sequence _ _ _ _ _ Hm).
  replace (if _ =? 0 then _ else _) with true.
  { rewrite !andb_true_r. cbn [negb andb]. done. }
  symmetry. pose proof (mo_sequence _ _ _ _ _ Hm) as Hs. pose proof (mo_sequences _ _ _ _ _ Hm) as Hl.
  destruct (Nat.eqb_spec (length actions) 0) as [E|E].
  - rewrite E. apply Z.eqb_refl.
  - rewrite (proj2 (Z.eqb_neq _ 0)) by lia. rewrite (proj2 (Z.leb_le _ _)) by lia. apply Z.eqb_eq.
    destruct (mo_limits _ _ _ _ _ Hm) as [_ Hk]. change active_replay_record_capacity_limit with 65536 in Hk.
    rewrite !u64_small; unfold is_u64, u64_max in *; try lia; rewrite u64_small; unfold is_u64, u64_max; lia.
Qed.
