(* ===== verification/MixedRateReplayResults.v ===== *)
(** * Results on the active replay artifact

    The three claims on rt/src/mixed_rate_replay.cpp: the round trip, what acceptance of
    arbitrary bytes means, and the detection of a changed byte. *)

From stdpp Require Import base list numbers sets.
From Stdlib Require Import ZArith Lia Bool.
From S2P Require Import Prelude RateTimeline CanonicalBytes SnapshotCodec CodecFields CheckpointTheorems InputLogTheorems RecordLayout MixedRateActions MixedRateReplay MixedRateReplayLayout MixedRateReplayTheorems.

Local Open Scope Z_scope.
Local Open Scope rtfw_scope.

(** ** Round trip *)

(** C36. The encoder succeeds exactly on the requests that are well formed, fit and whose
    actions the reader gives in sequence.  Its artifact has the announced size and checksum;
    the parser refuses it as incompatible when the metadata disagrees with the checkpoint,
    as invalid when an action carries another policy version or runtime or a frame outside
    the inputs, and otherwise returns the metadata, the checkpoint, and every input and
    action unchanged. *)
Theorem active_replay_roundtrip metadata checkpoint inputs first count reader maximum output :
  replay_metadata_typed metadata -> bytes_ok checkpoint -> Forall replay_input_wf inputs ->
  is_u64 first -> 0 <= count ->
  (forall s a, default (fun _ => None) reader s = Some a -> mixed_action_well_typed a) ->
  let '(status, result, out) :=
    encode_active_replay_artifact metadata checkpoint inputs first count reader maximum output in
  (status = ok <-> replay_encodable metadata checkpoint inputs first count reader maximum output) /\
  (status = ok -> exists bs cm actions,
     let total := replay_size checkpoint inputs count in
     let m := sealed_replay_metadata metadata cm checkpoint inputs first count (wr_checksum result) in
     inspect_checkpoint_artifact checkpoint = (ok, cm) /\
     reader_gives (default (fun _ => None) reader) first actions /\ Z.of_nat (length actions) = count /\
     out = bs ++ drop (Z.to_nat total) output /\ size bs = total /\
     required_bytes result = total /\ bytes_written result = total /\
     let '(parsed, view) := parse_active_replay_artifact bs maximum in
     parsed = (if negb (checkpoint_agrees metadata cm) then incompatible_artifact
               else if forallb (action_matches m) actions then ok else invalid_artifact) /\
     (parsed = ok -> av_metadata view = m /\ av_checkpoint view = checkpoint /\
        (forall i, active_replay_input_at view (Z.of_nat i) = inputs !! i) /\
        (forall i, active_replay_action_at view (Z.of_nat i) = actions !! i))).
Proof.
  intros Hmeta Hcp Hin Hfirst Hcount Hread.
  pose proof (encode_ok_encodable metadata checkpoint inputs first count reader maximum output Hin Hfirst Hcount) as Hok.
  destruct (encode_active_replay_artifact _ _ _ _ _ _ _ _) as [[status result] out] eqn:Henc. simpl in Hok.
  assert (Hsealed : replay_encodable metadata checkpoint inputs first count reader maximum output ->
    exists bs cm actions, inspect_checkpoint_artifact checkpoint = (ok, cm) /\
      reader_gives (default (fun _ => None) reader) first actions /\ Z.of_nat (length actions) = count /\
      (status, result, out) = (ok, mkWriteResult (replay_size checkpoint inputs count)
        (replay_size checkpoint inputs count) (replay_artifact_checksum bs),
        bs ++ drop (Z.to_nat (replay_size checkpoint inputs count)) output) /\
      size bs = replay_size checkpoint inputs count /\
      sealed_artifact bs (sealed_replay_metadata metadata cm checkpoint inputs first count (replay_artifact_checksum bs))
        checkpoint inputs actions (384 + size checkpoint)
        (384 + size checkpoint + 80 * Z.of_nat (length inputs) + Z.of_nat (input_payload inputs)) /\
      metadata_of (sealed_replay_metadata metadata cm checkpoint inputs first count (replay_artifact_checksum bs))
        bs checkpoint inputs actions).
  { intros He. destruct (re_actions _ _ _ _ _ _ _ _ He) as (actions & Hn & Hg).
    pose proof (re_checkpoint _ _ _ _ _ _ _ _ He) as Hc.
    destruct (inspect_checkpoint_artifact checkpoint) as [s cm] eqn:Ecm. simpl in Hc. subst s.
    destruct (encode_sealed metadata checkpoint inputs first count reader maximum output Hmeta Hcp Hin Hfirst Hcount Hread
      cm actions He Ecm (inspect_checkpoint_frame _ _ Hcp Ecm) Hn Hg) as (bs & E & Hsz & Hs & Hm).
    exists bs, cm, actions. by rewrite <- Henc. }
  split; [split; [exact Hok|]|].
  - intros He. destruct (Hsealed He) as (? & ? & ? & _ & _ & _ & E & _). congruence.
  - intros Hst. pose proof (Hok Hst) as He. destruct (Hsealed He) as (bs & cm & actions & Ecm & Hg & Hn & E & Hsz & Hs & Hm).
    injection E as _ -> ->. exists bs, cm, actions. cbv zeta. cbn [wr_checksum required_bytes bytes_written].
    split_and!; try done.
    destruct (replay_request_valid_spec _ _ _ _ _ (re_request _ _ _ _ _ _ _ _ He)) as (Hmax & _ & _ & _ & Hp & Hib & Hiw).
    pose proof (re_size _ _ _ _ _ _ _ _ He) as Hfit.
    rewrite (parse_sealed _ _ _ _ _ _ _ Hs Hm ltac:(lia) maximum cm) by (done || lia).
    rewrite (compatible_agrees metadata cm _ _ _ _ _ Hm) by done.
    destruct (checkpoint_agrees metadata cm); cbn [negb]; [|done].
    destruct (forallb _ actions); [|done]. split; [done|]. intros _. cbn [av_metadata av_checkpoint]. split_and!; try done.
    + intros i. apply (sealed_input_at _ _ _ _ _ _ _ Hs Hm). lia.
    + intros i. apply (sealed_action_at _ _ _ _ _ _ _ Hs Hm). lia.
Qed.

(** ** Accepted bytes *)

Lemma parse_replay_inputs_inv view count : forall index next prev total next' total' last,
  0 <= index -> 0 <= total <= u64_max ->
  parse_replay_inputs view count index next prev total = Some (next', total', last) ->
  exists inputs, length inputs = count /\
    (forall i r, inputs !! i = Some r -> exists p e, decode_input_at view (index + Z.of_nat i) = Some (r, p, e)) /\
    frames_increase (if index =? 0 then None else Some prev) inputs /\
    total' = total + Z.of_nat (input_payload inputs) /\ last = default prev (final_frame (Some prev) inputs).
Proof.
  induction count as [|count IH]; intros index next prev total next' total' last Hi Ht H; cbn [parse_replay_inputs] in H.
  { injection H as <- <- <-. exists []. split_and!; try done. simpl. lia. }
  destruct (decode_input_at view index) as [[[r p] e]|] eqn:Ed; [|done]. cbn [mbind option_bind] in H.
  destruct (negb (p =? next) || _ || _) eqn:Eg; [done|].
  rewrite !orb_false_iff, Z.ltb_ge in Eg. destruct Eg as [[_ Ef] Es].
  assert (Hsz : size (ir_payload r) = Z.of_nat (length (ir_payload r))) by done.
  rewrite u64_small in H by (unfold is_u64; lia).
  apply IH in H as (inputs & Hl & Hd & Hf & -> & ->); [|lia|lia].
  exists (r :: inputs). split_and!.
  - simpl. by rewrite Hl.
  - intros [|i] x Hx; simpl in Hx.
    + injection Hx as <-. rewrite Z.add_0_r. by exists p, e.
    + replace (index + Z.of_nat (S i)) with (index + 1 + Z.of_nat i) by lia. by apply Hd.
  - cbn [frames_increase]. rewrite (proj2 (Z.eqb_neq (index + 1) 0)) in Hf by lia. split; [|done].
    destruct (Z.eqb_spec index 0); [done|]. cbn [negb andb] in Ef. by apply Z.leb_gt in Ef.
  - unfold input_payload. cbn [sum_list_with]. lia.
  - rewrite final_frame_cons. unfold final_frame. by destruct (list.last inputs).
Qed.

Lemma parse_replay_actions_inv view count : forall index,
  0 <= index -> parse_replay_actions view count index = true ->
  exists actions, length actions = count /\
    (forall i a, actions !! i = Some a -> active_replay_action_at view (index + Z.of_nat i) = Some a /\
       replay_action_fits (av_metadata view) (index + Z.of_nat i) a = true).
Proof.
  induction count as [|count IH]; intros index Hi H; cbn [parse_replay_actions] in H.
  { exists []. done. }
  destruct (active_replay_action_at view index) as [a|] eqn:Ea; [|done].
  apply andb_true_iff in H as [Hf H]. apply IH in H as (actions & Hl & Hr); [|lia].
  exists (a :: actions). split; [simpl; by rewrite Hl|]. intros [|i] x Hx; simpl in Hx.
  - injection Hx as <-. by rewrite Z.add_0_r.
  - replace (index + Z.of_nat (S i)) with (index + 1 + Z.of_nat i) by lia. by apply Hr.
Qed.

Lemma parse_replay_layout_inv bs l :
  bytes_ok bs -> parse_replay_layout bs = Some l ->
  load_u64_le bs 24 = Some (replay_artifact_checksum bs) /\ rl_total l = size bs /\
  is_u32 (rl_input_count l) /\ is_u32 (rl_action_count l).
Proof.
  intros Hb H. unfold parse_replay_layout in H. repeat (apply bind_Some in H as (? & ? & H)).
  match type of H with (if ?c then _ else _) = _ => destruct c eqn:E; [done|] end. injection H as <-.
  rewrite !orb_false_iff, !negb_false_iff, !Z.eqb_eq in E. destruct_and! E. subst. cbn [rl_total rl_input_count rl_action_count].
  split_and!; try done; by eapply load_u32_range.
Qed.

Lemma parse_replay_ok_inv bs maximum view :
  bytes_ok bs -> parse_active_replay_artifact bs maximum = (ok, view) ->
  (384 <= length bs)%nat /\ size bs <= maximum <= active_replay_absolute_max_bytes /\
  load_u64_le bs 24 = Some (replay_artifact_checksum bs) /\ av_artifact view = bs /\
  rm_total_bytes (av_metadata view) = size bs /\ is_u32 (rm_input_record_count (av_metadata view)) /\
  is_u32 (rm_action_record_count (av_metadata view)) /\ is_u64 (rm_first_action_sequence (av_metadata view)) /\
  (exists cm, inspect_checkpoint_artifact (av_checkpoint view) = (ok, cm) /\
     replay_compatible (av_metadata view) cm = true) /\
  parse_replay_records view = true.
Proof.
  intros Hb. unfold parse_active_replay_artifact. cbv zeta.
  destruct (_ || _ || _ || _) eqn:Eg; [done|].
  rewrite !orb_false_iff, !Z.ltb_ge, Nat.ltb_ge in Eg. destruct Eg as [[[_ E1] E2] E3].
  destruct (parse_replay_layout bs) as [l|] eqn:El; [|done].
  apply parse_replay_layout_inv in El as (Hw & Ht & Hi & Ha); [|done].
  destruct (replay_regions_valid bs l); cbn [negb]; [|done].
  destruct (inspect_checkpoint_artifact _) as [s cm] eqn:Ec.
  destruct (negb (replay_checksum _ =? _) || _) eqn:Ek; [done|].
  apply orb_false_iff in Ek as [_ Ek]. apply negb_false_iff, bool_decide_eq_true in Ek as ->.
  destruct (replay_compatible _ cm) eqn:Ecomp; cbn [negb]; [|done].
  destruct (parse_replay_records _) eqn:Er; [|done]. intros [= <-].
  cbn [av_artifact av_metadata av_checkpoint parse_replay_metadata rm_total_bytes rm_input_record_count
       rm_action_record_count rm_first_action_sequence].
  split_and!; try done.
  - unfold field64. destruct (load_u64_le bs 184) eqn:E; simpl; [by eapply load_u64_range|unfold is_u64, u64_max; lia].
  - by exists cm.
Qed.

Lemma replay_action_fits_spec m i a :
  replay_action_fits m i a = true <->
  ma_sequence a = (rm_first_action_sequence m +u i) /\ ma_host_policy_version a = rm_host_policy_version m /\
  ma_runtime_id a = rm_runtime_id m /\ rm_first_frame_index m <= ma_frame_index a <= rm_last_frame_index m.
Proof. unfold replay_action_fits. rewrite !andb_true_iff, !Z.eqb_eq, !Z.leb_le. tauto. Qed.

(** Whatever bytes the parser accepts can be read to the end: the checkpoint inside is
    valid and compatible, every announced input is readable, with strictly increasing frames
    from the announced first to the announced last and payloads that add up to the announced
    total, and every announced action is readable, valid, in sequence, of this runtime and
    policy and inside the frames. *)
Theorem active_replay_parse_walk bs maximum view :
  bytes_ok bs -> parse_active_replay_artifact bs maximum = (ok, view) ->
  let m := av_metadata view in
  av_artifact view = bs /\ rm_total_bytes m = size bs /\ size bs <= maximum /\
  (exists cm, inspect_checkpoint_artifact (av_checkpoint view) = (ok, cm) /\ replay_compatible m cm = true) /\
  exists inputs actions,
    Z.of_nat (length inputs) = rm_input_record_count m /\
    (forall i, active_replay_input_at view (Z.of_nat i) = inputs !! i) /\
    frames_increase None inputs /\ first_frame inputs = rm_first_frame_index m /\
    last_frame inputs = rm_last_frame_index m /\ Z.of_nat (input_payload inputs) = rm_input_payload_bytes m /\
    Z.of_nat (length actions) = rm_action_record_count m /\
    (forall i, active_replay_action_at view (Z.of_nat i) = actions !! i) /\
    (forall i a, actions !! i = Some a -> mixed_rate_action_valid a = true /\
       ma_sequence a = (rm_first_action_sequence m +u Z.of_nat i) /\
       ma_host_policy_version a = rm_host_policy_version m /\ ma_runtime_id a = rm_runtime_id m /\
       rm_first_frame_index m <= ma_frame_index a <= rm_last_frame_index m).
Proof.
  intros Hb Hp. cbv zeta. apply parse_replay_ok_inv in Hp as (Hl & Hmax & _ & Ha & Ht & Hi & Hk & _ & Hcm & Hrec); [|done].
  split_and!; [done|done|lia|done|]. unfold parse_replay_records in Hrec.
  destruct (mbind _ _) as [[[next total] last]|] eqn:E; [|done].
  apply bind_Some in E as (d & _ & E). apply bind_Some in E as (n & _ & E). destruct (av_action_offset view <? n); [done|].
  apply parse_replay_inputs_inv in E as (inputs & Hn & Hd & Hf & -> & ->); [|lia|unfold u64_max; lia].
  rewrite !andb_true_iff, !Z.eqb_eq in Hrec. destruct Hrec as [[[[_ Hpay] Hlast] Hfirst] Hact].
  apply parse_replay_actions_inv in Hact as (actions & Hna & Hra); [|lia].
  unfold is_u32 in *. exists inputs, actions.
  assert (Hat : forall i, active_replay_input_at view (Z.of_nat i) = inputs !! i).
  { intros i. unfold active_replay_input_at. destruct (inputs !! i) as [r|] eqn:Er.
    - pose proof (lookup_lt_Some _ _ _ Er). rewrite (proj2 (Z.leb_gt _ _)) by lia.
      destruct (Hd i r Er) as (p & e & Hdec). rewrite Z.add_0_l in Hdec. by rewrite Hdec.
    - apply lookup_ge_None in Er. by rewrite (proj2 (Z.leb_le _ _)) by lia. }
  split_and!; try done; try lia.
  - destruct inputs as [|r rest].
    + destruct (decode_input_at view 0) as [[[x p] e]|] eqn:E0; [|done]. simpl in Hn.
      unfold decode_input_at in E0. rewrite (proj2 (Z.leb_le _ _)) in E0 by lia. done.
    + destruct (Hd 0%nat r eq_refl) as (p & e & E0). rewrite Z.add_0_l in E0.
      change (Z.of_nat 0) with 0 in E0. rewrite E0 in Hfirst. by apply Z.eqb_eq in Hfirst.
  - rewrite <- Hlast. unfold last_frame, final_frame. by destruct (list.last inputs).
  - intros i. destruct (actions !! i) as [a|] eqn:Ea.
    + destruct (Hra i a Ea) as [Hr _]. by rewrite Z.add_0_l in Hr.
    + unfold active_replay_action_at. apply lookup_ge_None in Ea. by rewrite (proj2 (Z.leb_le _ _)) by lia.
  - intros i a Hia. destruct (Hra i a Hia) as [Hr Hfit]. rewrite Z.add_0_l in *.
    apply replay_action_fits_spec in Hfit. split; [|done].
    unfold active_replay_action_at in Hr. case_match; [done|]. case_match; [done|].
    apply bind_Some in Hr as (s & _ & Hr). case_match eqn:Ev; [|done]. injection Hr as <-.
    by apply andb_true_iff in Ev as [_ Ev].
Qed.

(** A change of any single byte of an accepted active replay artifact makes the parser
    refuse it. *)
Theorem active_replay_single_byte_corruption bs maximum view i x y :
  bytes_ok bs -> parse_active_replay_artifact bs maximum = (ok, view) ->
  bs !! i = Some x -> is_u8 y -> x <> y ->
  parse_active_replay_artifact (<[i := y]> bs) maximum = (invalid_artifact, ActiveReplayArtifactView_default).
Proof.
  intros Hb Hp Hi Hy Hne. apply parse_replay_ok_inv in Hp as (Hl & _ & Hw & _); [|done].
  unfold parse_active_replay_artifact. cbv zeta. case_match; [done|].
  destruct (parse_replay_layout (<[i:=y]> bs)) as [l|] eqn:El; [|done]. exfalso.
  apply parse_replay_layout_inv in El as (Hw' & _); [|by apply Forall_insert].
  rewrite !replay_artifact_checksum_excluding in * by (rewrite ?length_insert; lia).
  destruct (decide (24 <= i < 24 + 8)%nat) as [Hin|Hout].
  - apply (load_u64_change bs 24 i x y Hb Hy Hi Hne Hin ltac:(lia)). rewrite Hw, Hw'.
    f_equal. apply checksum_excluding_agree; apply agree_insert; lia.
  - apply (checksum_excluding_change bs 24 8 i x y Hb Hy Hi Hne Hout).
    assert (Hla : load_u64_le (<[i:=y]> bs) 24 = load_u64_le bs 24) by (apply load_agree, agree_insert; done).
    congruence.
Qed.

(** ** Witnesses *)

(** A replay of two inputs and two actions over the checkpoint of CheckpointTheorems.v. *)
Definition sample_action (sequence : Z) : MixedRateActionRecord :=
  mkMixedAction 1 256 sequence 7 9 4 0 0 0 0 0 0 0 0 0 0 0 0 0 0 0 0 u32_max u32_max 0 0 0 0
    mixed_action_runtime_stop mixed_reason_normal mixed_stage_terminal false false false 0 false false 0
    (replicate 54 0).
Definition sample_reader (sequence : Z) : option MixedRateActionRecord :=
  if (40 <=? sequence) && (sequence <=? 41) then Some (sample_action sequence) else None.
Definition sample_replay_metadata : ActiveReplayMetadata :=
  mkReplayMetadata 0 0 0 0 7 2 12 13 14 9 0 0 0 100 200 0 0 0 0 0 0 3 (padded sample_name) (padded sample_name).
Definition sample_replay_inputs : list InputRecord :=
  [mkInputRecord (mkFrame 3 1000 (Some 20) (Some 10)) 1 [1; 2; 3];
   mkInputRecord (mkFrame 5 1000 None (Some 11)) 2 []].
Definition sample_replay : list Z :=
  take 1513 (snd (encode_active_replay_artifact sample_replay_metadata sample_artifact sample_replay_inputs 40 2
                    (Some sample_reader) 5000 (replicate 1600 0))).

Lemma sample_replay_metadata_typed : replay_metadata_typed sample_replay_metadata.
Proof.
  constructor; cbn [sample_replay_metadata rm_runtime_id rm_config_id rm_replay_id rm_graph_id rm_state_schema_id
    rm_host_policy_version rm_nominal_epoch_ns rm_final_state_hash rm_determinism_tier rm_build_id rm_workload_id];
    unfold is_u64, is_u8, u64_max; try lia; (split; [apply padded_bytes_ok|]; reflexivity).
Qed.

Lemma sample_replay_inputs_wf : Forall replay_input_wf sample_replay_inputs.
Proof.
  apply Forall_cons. split; [|apply Forall_singleton];
    (constructor; cbn [ir_frame ir_input_type ir_payload frame_index delta deadline_ns nominal_release_ns];
     unfold is_u64, is_u32, u64_max, u32_max, nanoseconds_max; try lia; try (intros ? [= <-]; lia)).
  - repeat (apply Forall_cons; split; [unfold is_u8; lia|]). constructor.
  - constructor.
Qed.

Lemma sample_reader_typed s a : default (fun _ => None) (Some sample_reader) s = Some a -> mixed_action_well_typed a.
Proof.
  cbn. unfold sample_reader. destruct (_ && _) eqn:E; [|done]. intros [= <-].
  rewrite andb_true_iff, !Z.leb_le in E. assert (s = 40 \/ s = 41) as [-> | ->] by lia;
    apply (bool_decide_unpack _); vm_compute; exact I.
Qed.

Lemma sample_replay_ok : bytes_ok sample_replay.
Proof. apply (bool_decide_unpack _). vm_compute. exact I. Qed.

Lemma active_replay_roundtrip_witness :
  replay_encodable sample_replay_metadata sample_artifact sample_replay_inputs 40 2 (Some sample_reader) 5000
    (replicate 1600 0).
Proof.
  pose proof (active_replay_roundtrip sample_replay_metadata sample_artifact sample_replay_inputs 40 2
    (Some sample_reader) 5000 (replicate 1600 0) sample_replay_metadata_typed sample_artifact_ok
    sample_replay_inputs_wf ltac:(unfold is_u64, u64_max; lia) ltac:(lia) sample_reader_typed) as H.
  destruct (encode_active_replay_artifact _ _ _ _ _ _ _ _) as [[status result] out] eqn:E.
  apply (proj1 H). change status with (status, result, out).1.1. rewrite <- E. vm_compute. reflexivity.
Defined.

Lemma active_replay_parse_walk_witness :
  exists inputs : list InputRecord, forall i, active_replay_input_at (parse_active_replay_artifact sample_replay 5000).2 (Z.of_nat i) = inputs !! i.
Proof.
  destruct (active_replay_parse_walk sample_replay 5000 (parse_active_replay_artifact sample_replay 5000).2
    sample_replay_ok) as (_ & _ & _ & _ & inputs & actions & _ & H & _).
  - vm_compute. reflexivity.
  - exists inputs. exact H.
Defined.

Lemma active_replay_single_byte_corruption_witness :
  (parse_active_replay_artifact (<[1000%nat := 7]> sample_replay) 5000).1 = invalid_artifact.
Proof.
  assert (Hp : parse_active_replay_artifact sample_replay 5000 = (ok, (parse_active_replay_artifact sample_replay 5000).2))
    by (vm_compute; reflexivity).
  assert (Hx : sample_replay !! 1000%nat = Some (sample_replay !!! 1000%nat)) by (vm_compute; reflexivity).
  assert (Hy : is_u8 7) by (unfold is_u8; lia).
  assert (Hne : sample_replay !!! 1000%nat <> 7) by (vm_compute; discriminate).
  rewrite (active_replay_single_byte_corruption sample_replay 5000 _ 1000 _ 7 sample_replay_ok Hp Hx Hy Hne).
  reflexivity.
Defined.
