(* ===== verification/HalV2.v ===== *)
(** * The HAL v2 contract and the v1 adapter (rt/src/hal_v2.cpp, rt/include/rt/device.hpp, device_abi.h)

    The structures of the device HAL, the tests the runtime applies to what a backend
    returns, and [DeviceV1CompatibilityAdapter], which presents a backend of the C device
    ABI v1 as a HAL v2 backend.  A backend is code the runtime does not own: it is a
    record of functions over a state of its own, and a call that throws returns no status.
    A pointer argument that may be null is an option. *)

From stdpp Require Import base list numbers.
From Stdlib Require Import ZArith Lia Bool.
From S2P Require Import Prelude SnapshotCodec DeviceCommands.

Local Open Scope Z_scope.

(** ** Constants *)

Definition RTFW_DEVICE_ABI_VERSION : Z := 1.
Definition RTFW_DEVICE_IDENTIFIER_CAPACITY : nat := 64.
Definition RTFW_DEVICE_INLINE_PAYLOAD_CAPACITY : Z := 128.
Definition RTFW_DEVICE_BUFFER_REF_CAPACITY : Z := 8.
Definition RTFW_DEVICE_STATUS_OK : Z := 0.
Definition RTFW_DEVICE_STATUS_RESET_REQUIRED : Z := -11.
Definition RTFW_DEVICE_HEALTH_LOST : Z := 4.
Definition hal_v2_api_version : Z := 2.

(** [sizeof]: each v2 structure has the layout of its v1 counterpart. *)
Definition sizeof_hal_capabilities : Z := 152.
Definition sizeof_hal_initialize_config : Z := 56.
Definition sizeof_hal_buffer_registration : Z := 120.
Definition sizeof_hal_submission : Z := 464.
Definition sizeof_hal_completion : Z := 64.
Definition sizeof_hal_health : Z := 128.
Definition sizeof_hal_api : Z := 160.

(** ** Structures

    The v1 structures of device_abi.h have the fields of the v2 ones, with [abi_version]
    in the place of [api_version]. *)

(** [HalV2Capabilities], [rtfw_device_capabilities] *)
Record HalCapabilities : Set := mkHalCapabilities {
  hc_struct_size : Z;
  hc_version : Z;
  hc_max_in_flight : Z;
  hc_max_registered_buffers : Z;
  hc_max_buffer_bytes : Z;
  hc_inline_payload_capacity : Z;
  hc_buffer_ref_capacity : Z;
  hc_supports_cancel : Z;
  hc_supports_reset : Z;
  hc_deterministic_mock : Z;
  hc_reserved0 : Z;
  hc_backend_id : list Z;
  hc_control_storage_bytes : Z;
  hc_reserved : list Z;
}.

(** [HalV2InitializeConfig], [rtfw_device_init_config] *)
Record HalInitializeConfig : Set := mkHalInitializeConfig {
  hi_struct_size : Z;
  hi_version : Z;
  hi_requested_in_flight : Z;
  hi_requested_registered_buffers : Z;
  hi_reserved : list Z;
}.

(** [HalV2BufferRegistration], [rtfw_device_buffer_registration]; [None] is a null pointer. *)
Record HalBufferRegistration : Set := mkHalBufferRegistration {
  hb_struct_size : Z;
  hb_flags : Z;
  hb_data : option nat;
  hb_bytes : Z;
  hb_name : list Z;
  hb_reserved : list Z;
}.

(** [HalV2Submission], [rtfw_device_submission] *)
Record HalSubmission : Set := mkHalSubmission {
  hs_struct_size : Z;
  hs_version : Z;
  hs_submission_id : Z;
  hs_frame_index : Z;
  hs_timeout_ns : Z;
  hs_opcode : Z;
  hs_flags : Z;
  hs_payload_size : Z;
  hs_buffer_count : Z;
  hs_payload : list Z;
  hs_buffers : list HalV2BufferReference;
  hs_reserved : list Z;
}.

(** [HalV2Completion], [rtfw_device_completion] *)
Record HalCompletion : Set := mkHalCompletion {
  hp_struct_size : Z;
  hp_status : Z;
  hp_submission_id : Z;
  hp_device_timestamp_ns : Z;
  hp_value : Z;
  hp_reserved : list Z;
}.

(** [HalV2Health], [rtfw_device_health] *)
Record HalHealth : Set := mkHalHealth {
  hh_struct_size : Z;
  hh_state : Z;
  hh_last_status : Z;
  hh_reserved0 : Z;
  hh_generation : Z;
  hh_submissions : Z;
  hh_completions : Z;
  hh_queue_rejections : Z;
  hh_timeouts : Z;
  hh_errors : Z;
  hh_losses : Z;
  hh_cancellations : Z;
  hh_resets : Z;
  hh_outstanding : Z;
  hh_reserved : list Z;
}.

(** A backend table: the header fields and the operations.  Each operation takes the
    backend's state and gives the new state and the status it returned, [None] when it
    threw; output parameters come between them. *)
Record HalBackend (S : Type) := mkHalBackend {
  hx_struct_size : Z;
  hx_version : Z;
  hx_instance : bool;
  hx_get_capabilities : option (S -> HalCapabilities -> S * HalCapabilities * option Z);
  hx_initialize : option (S -> HalInitializeConfig -> S * option Z);
  hx_register_buffer : option (S -> HalBufferRegistration -> Z -> S * Z * option Z);
  hx_unregister_buffer : option (S -> Z -> S * option Z);
  hx_submit : option (S -> HalSubmission -> S * option Z);
  hx_poll : option (S -> list HalCompletion -> Z -> Z -> S * list HalCompletion * Z * option Z);
  hx_cancel : option (S -> Z -> S * option Z);
  hx_get_health : option (S -> HalHealth -> S * HalHealth * option Z);
  hx_reset : option (S -> S * option Z);
  hx_shutdown : option (S -> S * option Z);
  hx_reserved : list Z;
}.

Arguments mkHalBackend {S}.
Arguments hx_struct_size {S}.
Arguments hx_version {S}.
Arguments hx_instance {S}.
Arguments hx_get_capabilities {S}.
Arguments hx_initialize {S}.
Arguments hx_register_buffer {S}.
Arguments hx_unregister_buffer {S}.
Arguments hx_submit {S}.
Arguments hx_poll {S}.
Arguments hx_cancel {S}.
Arguments hx_get_health {S}.
Arguments hx_reset {S}.
Arguments hx_shutdown {S}.
Arguments hx_reserved {S}.

(** ** Tests *)

(** [identifier_valid]: allowed characters, a NUL, and zeros up to the capacity. *)
Definition hal_identifier_valid (value : list Z) : bool :=
  match scan_name value with
  | None => false
  | Some n =>
      negb (Nat.eqb n 0) && negb (Nat.eqb n (length value)) && forallb (Z.eqb 0) (drop (S n) value)
  end.

Definition valid_flags (flags : Z) : bool :=
  let allowed := Z.lor (Z.lor RTFW_DEVICE_BUFFER_HOST_READ RTFW_DEVICE_BUFFER_HOST_WRITE)
                   (Z.lor RTFW_DEVICE_BUFFER_DEVICE_READ RTFW_DEVICE_BUFFER_DEVICE_WRITE) in
  negb (flags =? 0) && (Z.land flags (Z.lnot allowed) =? 0).

Definition valid_access (access : Z) : bool :=
  (access =? RTFW_DEVICE_ACCESS_READ) || (access =? RTFW_DEVICE_ACCESS_WRITE) ||
  (access =? RTFW_DEVICE_ACCESS_READ_WRITE).

Definition valid_v1_status (status : Z) : bool :=
  (status <=? RTFW_DEVICE_STATUS_OK) && (RTFW_DEVICE_STATUS_RESET_REQUIRED <=? status).

Definition valid_hal_status (status : Z) : bool :=
  (status <=? 0) && (hal_status_reset_required <=? status).

(** [static_cast<HalV2Status>] of a value in the range of the enumeration. *)
Definition hal_status_of (status : Z) : HalV2Status :=
  match status with
  | 0 => hal_ok
  | -1 => hal_invalid_argument
  | -2 => hal_invalid_state
  | -3 => hal_queue_full
  | -4 => hal_timeout
  | -5 => hal_error
  | -6 => hal_lost
  | -7 => hal_canceled
  | -8 => hal_unsupported
  | -9 => hal_resource_exhausted
  | -10 => hal_internal_error
  | _ => hal_reset_required
  end.

(** [static_cast<std::int32_t>] of a status *)
Definition hal_status_code (status : HalV2Status) : Z :=
  match status with
  | hal_ok => 0
  | hal_invalid_argument => -1
  | hal_invalid_state => -2
  | hal_queue_full => -3
  | hal_timeout => -4
  | hal_error => -5
  | hal_lost => -6
  | hal_canceled => -7
  | hal_unsupported => -8
  | hal_resource_exhausted => -9
  | hal_internal_error => -10
  | hal_reset_required => -11
  end.

Definition v1_status_to_hal (status : Z) : HalV2Status :=
  if negb (valid_v1_status status) then hal_internal_error else hal_status_of status.

(** [valid_v1_capabilities] and [validate_hal_v2_capabilities] differ in the version only. *)
Definition capabilities_valid (version : Z) (c : HalCapabilities) : bool :=
  (sizeof_hal_capabilities <=? hc_struct_size c) && (hc_version c =? version) &&
  negb (hc_max_in_flight c =? 0) && negb (hc_max_registered_buffers c =? 0) &&
  negb (hc_max_buffer_bytes c =? 0) &&
  (RTFW_DEVICE_INLINE_PAYLOAD_CAPACITY <=? hc_inline_payload_capacity c) &&
  (RTFW_DEVICE_BUFFER_REF_CAPACITY <=? hc_buffer_ref_capacity c) &&
  (hc_supports_cancel c <=? 1) && (hc_supports_reset c <=? 1) && (hc_deterministic_mock c <=? 1) &&
  (hc_reserved0 c =? 0) && hal_identifier_valid (hc_backend_id c) && all_zero (hc_reserved c) &&
  (hc_control_storage_bytes c <=? u64_max).

Definition valid_v1_capabilities : HalCapabilities -> bool := capabilities_valid RTFW_DEVICE_ABI_VERSION.
Definition validate_hal_v2_capabilities : HalCapabilities -> bool := capabilities_valid hal_v2_api_version.

(** [valid_v1_completion], [validate_hal_v2_completion] *)
Definition validate_hal_v2_completion (c : HalCompletion) : bool :=
  (sizeof_hal_completion <=? hp_struct_size c) && valid_hal_status (hp_status c) &&
  negb (hp_submission_id c =? 0) && all_zero (hp_reserved c).

(** [valid_v1_health], [validate_hal_v2_health] *)
Definition validate_hal_v2_health (h : HalHealth) : bool :=
  (sizeof_hal_health <=? hh_struct_size h) && (hh_state h <=? RTFW_DEVICE_HEALTH_LOST) &&
  valid_hal_status (hh_last_status h) && (hh_reserved0 h =? 0) && all_zero (hh_reserved h).

Definition is_set {A} (pointer : option A) : bool := match pointer with Some _ => true | None => false end.

(** [validate_device_v1_api] and [validate_hal_v2_api] *)
Definition api_valid {S} (version : Z) (api : HalBackend S) : bool :=
  (sizeof_hal_api <=? hx_struct_size api) && (hx_version api =? version) && hx_instance api &&
  is_set (hx_get_capabilities api) && is_set (hx_initialize api) && is_set (hx_register_buffer api) &&
  is_set (hx_unregister_buffer api) && is_set (hx_submit api) && is_set (hx_poll api) &&
  is_set (hx_cancel api) && is_set (hx_get_health api) && is_set (hx_reset api) &&
  is_set (hx_shutdown api) && all_zero (hx_reserved api).

Definition validate_device_v1_api {S} : HalBackend S -> bool := api_valid RTFW_DEVICE_ABI_VERSION.
Definition validate_hal_v2_api {S} : HalBackend S -> bool := api_valid hal_v2_api_version.

Definition hal_v2_status_to_runtime (status : HalV2Status) : Status :=
  match status with
  | hal_ok => ok
  | hal_invalid_argument => invalid_argument
  | hal_invalid_state => invalid_state
  | hal_queue_full => device_queue_full
  | hal_timeout => device_timeout
  | hal_error | hal_unsupported | hal_internal_error => device_error
  | hal_lost => device_lost
  | hal_canceled => device_canceled
  | hal_resource_exhausted => resource_exhausted
  | hal_reset_required => device_reset_required
  end.

(** ** The adapter

    [DeviceV1CompatibilityAdapter] over a v1 table that passed [validate_device_v1_api]; an
    operation the table lacks cannot be reached and is treated as one that throws. *)

Record Adapter (S : Type) := mkAdapter {
  ad_backend : S;
  ad_completion_storage : option (list HalCompletion);
  ad_completion_capacity : Z;
}.
Arguments mkAdapter {S}.
Arguments ad_backend {S}.
Arguments ad_completion_storage {S}.
Arguments ad_completion_capacity {S}.

Definition zero_completion : HalCompletion := mkHalCompletion 0 0 0 0 0 [0; 0; 0; 0].

Section Adapter.
Context {S : Type} (v1 : HalBackend S).
Implicit Types self : Adapter S.

Definition with_backend self (state : S) : Adapter S :=
  mkAdapter state (ad_completion_storage self) (ad_completion_capacity self).

(** [v1_status_to_hal] of the call's status, [internal_error] when it throws. *)
Definition adapted_status (status : option Z) : HalV2Status :=
  match status with Some status => v1_status_to_hal status | None => hal_internal_error end.

(** The tests that follow a call with output parameters: [inl] is the status to return. *)
Definition checked_call (status : option Z) : HalV2Status + unit :=
  match status with
  | None => inl hal_internal_error
  | Some status =>
      if negb (valid_v1_status status) then inl hal_internal_error
      else if negb (status =? RTFW_DEVICE_STATUS_OK) then inl (v1_status_to_hal status)
      else inr tt
  end.

(** Allocation succeeds here. *)
Definition prepare_completion_storage self (capacity : Z) : Status * Adapter S :=
  if capacity =? 0 then (invalid_config, self)
  else if (capacity =? ad_completion_capacity self) && is_set (ad_completion_storage self) then (ok, self)
  else (ok, mkAdapter (ad_backend self) (Some (replicate (Z.to_nat capacity) zero_completion)) capacity).

Definition adapter_get_capabilities self (capabilities : option HalCapabilities)
    : Adapter S * option HalCapabilities * HalV2Status :=
  match capabilities with
  | None => (self, capabilities, hal_invalid_argument)
  | Some c =>
      if (hc_struct_size c <? sizeof_hal_capabilities) || negb (hc_version c =? hal_v2_api_version)
      then (self, capabilities, hal_invalid_argument)
      else
        let request := mkHalCapabilities sizeof_hal_capabilities RTFW_DEVICE_ABI_VERSION 0 0 0 0 0 0 0 0 0
                         (replicate RTFW_DEVICE_IDENTIFIER_CAPACITY 0) 0 [0; 0; 0; 0] in
        let '(state, answer, status) :=
          match hx_get_capabilities v1 with
          | Some call => call (ad_backend self) request
          | None => (ad_backend self, request, None)
          end in
        let self := with_backend self state in
        match checked_call status with
        | inl status => (self, capabilities, status)
        | inr _ =>
            if negb (valid_v1_capabilities answer) then (self, capabilities, hal_invalid_argument)
            else
              (self,
               Some (mkHalCapabilities sizeof_hal_capabilities hal_v2_api_version (hc_max_in_flight answer)
                       (hc_max_registered_buffers answer) (hc_max_buffer_bytes answer)
                       (hc_inline_payload_capacity answer) (hc_buffer_ref_capacity answer)
                       (hc_supports_cancel answer) (hc_supports_reset answer) (hc_deterministic_mock answer) 0
                       (hc_backend_id answer) (hc_control_storage_bytes answer) [0; 0; 0; 0]),
               hal_ok)
        end
  end.

Definition adapter_initialize self (config : option HalInitializeConfig) : Adapter S * HalV2Status :=
  match config with
  | None => (self, hal_invalid_argument)
  | Some c =>
      if (hi_struct_size c <? sizeof_hal_initialize_config) || negb (hi_version c =? hal_v2_api_version) ||
         (hi_requested_in_flight c =? 0) || negb (all_zero (hi_reserved c))
      then (self, hal_invalid_argument)
      else
        let request := mkHalInitializeConfig sizeof_hal_initialize_config RTFW_DEVICE_ABI_VERSION
                         (hi_requested_in_flight c) (hi_requested_registered_buffers c) [0; 0; 0; 0] in
        let '(state, status) :=
          match hx_initialize v1 with
          | Some call => call (ad_backend self) request
          | None => (ad_backend self, None)
          end in
        (with_backend self state, adapted_status status)
  end.

(** The state, [*out_buffer_token] ([None] when the pointer is null) and the status. *)
Definition adapter_register_buffer self (registration : option HalBufferRegistration) (token : option Z)
    : Adapter S * option Z * HalV2Status :=
  let token := (fun _ => 0) <$> token in
  match registration, token with
  | Some r, Some _ =>
      if (hb_struct_size r <? sizeof_hal_buffer_registration) || negb (is_set (hb_data r)) || (hb_bytes r =? 0) ||
         negb (valid_flags (hb_flags r)) || negb (hal_identifier_valid (hb_name r)) ||
         negb (all_zero (hb_reserved r))
      then (self, token, hal_invalid_argument)
      else
        let request := mkHalBufferRegistration sizeof_hal_buffer_registration (hb_flags r) (hb_data r)
                         (hb_bytes r) (hb_name r) [0; 0; 0; 0] in
        let '(state, answer, status) :=
          match hx_register_buffer v1 with
          | Some call => call (ad_backend self) request 0
          | None => (ad_backend self, 0, None)
          end in
        let self := with_backend self state in
        let token := Some answer in
        match checked_call status with
        | inl status => (self, token, status)
        | inr _ => (self, token, if answer =? 0 then hal_internal_error else hal_ok)
        end
  | _, _ => (self, token, hal_invalid_argument)
  end.

Definition adapter_unregister_buffer self (buffer_token : Z) : Adapter S * HalV2Status :=
  if buffer_token =? 0 then (self, hal_invalid_argument)
  else
    let '(state, status) :=
      match hx_unregister_buffer v1 with
      | Some call => call (ad_backend self) buffer_token
      | None => (ad_backend self, None)
      end in
    (with_backend self state, adapted_status status).

(** The buffer loop: the references copied so far, [None] at one that is refused. *)
Fixpoint adapt_buffers (count : nat) (buffers : list HalV2BufferReference) : option (list HalV2BufferReference) :=
  match count, buffers with
  | O, _ => Some []
  | Datatypes.S count', source :: rest =>
      if (br_buffer_token source =? 0) || negb (br_reserved0 source =? 0) || negb (valid_access (br_access source))
      then None
      else
        targets ← adapt_buffers count' rest;
        Some (mkBufferReference (br_buffer_token source) (br_access source) 0 (br_offset source)
                (br_bytes source) :: targets)
  | Datatypes.S _, [] => None
  end.

(** The v1 submission; [None] where the request is refused. *)
Definition adapt_submission (s : HalSubmission) : option HalSubmission :=
  if (hs_struct_size s <? sizeof_hal_submission) || negb (hs_version s =? hal_v2_api_version) ||
     (hs_submission_id s =? 0) || (hs_timeout_ns s =? 0) || negb (hs_flags s =? 0) ||
     (Z.of_nat hal_v2_inline_payload_capacity <? hs_payload_size s) ||
     (Z.of_nat hal_v2_buffer_ref_capacity <? hs_buffer_count s) || negb (all_zero (hs_reserved s))
  then None
  else
    targets ← adapt_buffers (Z.to_nat (hs_buffer_count s)) (hs_buffers s);
    Some (mkHalSubmission sizeof_hal_submission RTFW_DEVICE_ABI_VERSION (hs_submission_id s) (hs_frame_index s)
            (hs_timeout_ns s) (hs_opcode s) (hs_flags s) (hs_payload_size s) (hs_buffer_count s) (hs_payload s)
            (targets ++ replicate (hal_v2_buffer_ref_capacity - length targets) zero_reference) [0; 0; 0; 0]).

Definition adapter_submit self (submission : option HalSubmission) : Adapter S * HalV2Status :=
  match submission ≫= adapt_submission with
  | None => (self, hal_invalid_argument)
  | Some request =>
      let '(state, status) :=
        match hx_submit v1 with
        | Some call => call (ad_backend self) request
        | None => (ad_backend self, None)
        end in
      (with_backend self state, adapted_status status)
  end.

(** [target] of the copy loop: a fresh v2 completion with the four values. *)
Definition adapt_completion (source : HalCompletion) : HalCompletion :=
  mkHalCompletion sizeof_hal_completion (hp_status source) (hp_submission_id source)
    (hp_device_timestamp_ns source) (hp_value source) [0; 0; 0; 0].

(** The state, [completions], [*out_completion_count] and the status. *)
Definition adapter_poll self (completions : option (list HalCompletion)) (capacity : Z) (count : option Z)
    : Adapter S * option (list HalCompletion) * option Z * HalV2Status :=
  let count := (fun _ => 0) <$> count in
  match completions, count, ad_completion_storage self with
  | Some output, Some _, Some storage =>
      if (capacity =? 0) || (ad_completion_capacity self <? capacity) || (u64_max <? capacity)
      then (self, completions, count, hal_invalid_argument)
      else
        let n := Z.to_nat capacity in
        let cleared := replicate n zero_completion ++ drop n storage in
        let '(state, filled, answer, status) :=
          match hx_poll v1 with
          | Some call => call (ad_backend self) cleared capacity 0
          | None => (ad_backend self, cleared, 0, None)
          end in
        let self := mkAdapter state (Some filled) (ad_completion_capacity self) in
        match checked_call status with
        | inl status => (self, completions, count, status)
        | inr _ =>
            if capacity <? answer then (self, completions, count, hal_internal_error)
            else
              let records := take (Z.to_nat answer) filled in
              if negb (forallb validate_hal_v2_completion records)
              then (self, completions, count, hal_internal_error)
              else (self, Some (list_inserts 0 (adapt_completion <$> records) output), Some answer, hal_ok)
        end
  | _, _, _ => (self, completions, count, hal_invalid_argument)
  end.

Definition adapter_cancel self (submission_id : Z) : Adapter S * HalV2Status :=
  if submission_id =? 0 then (self, hal_invalid_argument)
  else
    let '(state, status) :=
      match hx_cancel v1 with
      | Some call => call (ad_backend self) submission_id
      | None => (ad_backend self, None)
      end in
    (with_backend self state, adapted_status status).

Definition adapter_get_health self (health : option HalHealth) : Adapter S * option HalHealth * HalV2Status :=
  match health with
  | None => (self, health, hal_invalid_argument)
  | Some h =>
      if hh_struct_size h <? sizeof_hal_health then (self, health, hal_invalid_argument)
      else
        let request := mkHalHealth sizeof_hal_health 0 0 u32_max 0 0 0 0 0 0 0 0 0 0 [0; 0; 0; 0] in
        let '(state, answer, status) :=
          match hx_get_health v1 with
          | Some call => call (ad_backend self) request
          | None => (ad_backend self, request, None)
          end in
        let self := with_backend self state in
        match checked_call status with
        | inl status => (self, health, status)
        | inr _ =>
            if negb (validate_hal_v2_health answer) then (self, health, hal_internal_error)
            else
              (self,
               Some (mkHalHealth sizeof_hal_health (hh_state answer) (hh_last_status answer) 0
                       (hh_generation answer) (hh_submissions answer) (hh_completions answer)
                       (hh_queue_rejections answer) (hh_timeouts answer) (hh_errors answer) (hh_losses answer)
                       (hh_cancellations answer) (hh_resets answer) (hh_outstanding answer) [0; 0; 0; 0]),
               hal_ok)
        end
  end.

Definition adapter_reset self : Adapter S * HalV2Status :=
  let '(state, status) :=
    match hx_reset v1 with Some call => call (ad_backend self) | None => (ad_backend self, None) end in
  (with_backend self state, adapted_status status).

Definition adapter_shutdown self : Adapter S * HalV2Status :=
  let '(state, status) :=
    match hx_shutdown v1 with Some call => call (ad_backend self) | None => (ad_backend self, None) end in
  (with_backend self state, adapted_status status).
End Adapter.
