(* ===== verification/HalV2Theorems.v ===== *)
(** * What the v1 adapter guarantees

    [HalContract] is what the runtime relies on when it calls a HAL v2 backend: outputs are
    valid when the call succeeds and untouched when it does not.  The adapter fulfils it over
    every v1 backend, whatever that backend returns or throws. *)

From stdpp Require Import base list numbers.
From Stdlib Require Import ZArith Lia Bool.
From S2P Require Import Prelude SnapshotCodec DeviceCommands HalV2.

Local Open Scope Z_scope.

(** The operations of a HAL v2 backend with output parameters, over its state. *)
Record HalOps (T : Type) := mkHalOps {
  ops_get_capabilities : T -> option HalCapabilities -> T * option HalCapabilities * HalV2Status;
  ops_register_buffer : T -> option HalBufferRegistration -> option Z -> T * option Z * HalV2Status;
  ops_submit : T -> option HalSubmission -> T * HalV2Status;
  ops_poll : T -> option (list HalCompletion) -> Z -> option Z -> T * option (list HalCompletion) * option Z * HalV2Status;
  ops_get_health : T -> option HalHealth -> T * option HalHealth * HalV2Status
}.
Arguments ops_get_capabilities {T}.
Arguments ops_register_buffer {T}.
Arguments ops_submit {T}.
Arguments ops_poll {T}.
Arguments ops_get_health {T}.

(** A submission a backend may be given: identified, bounded in time and space, with
    references that name a buffer and a known access. *)
Definition submission_well_formed (s : HalSubmission) : Prop :=
  hs_submission_id s <> 0 /\ hs_timeout_ns s <> 0 /\ hs_flags s = 0 /\
  hs_payload_size s <= Z.of_nat hal_v2_inline_payload_capacity /\
  hs_buffer_count s <= Z.of_nat hal_v2_buffer_ref_capacity /\
  Forall (fun r => br_buffer_token r <> 0 /\ br_reserved0 r = 0 /\ valid_access (br_access r) = true)
    (take (Z.to_nat (hs_buffer_count s)) (hs_buffers s)).

Class HalContract {T} (ops : HalOps T) (inv : T -> Prop) : Prop := {
  contract_capabilities t c : inv t ->
    let '(t', c', status) := ops_get_capabilities ops t c in
    inv t' /\
    match status with
    | hal_ok => exists v, c' = Some v /\ validate_hal_v2_capabilities v = true
    | _ => c' = c
    end;
  contract_register t r token : inv t ->
    let '(t', token', status) := ops_register_buffer ops t r token in
    inv t' /\ (status = hal_ok -> exists v, token' = Some v /\ v <> 0);
  contract_submit t s : inv t ->
    inv (ops_submit ops t s).1 /\
    ((exists v, s = Some v /\ submission_well_formed v) \/ ops_submit ops t s = (t, hal_invalid_argument));
  contract_poll t output capacity count : inv t -> 0 <= capacity ->
    let '(t', output', count', status) := ops_poll ops t output capacity count in
    inv t' /\
    match status with
    | hal_ok => exists v v' n, output = Some v /\ output' = Some v' /\ count' = Some n /\ 0 <= n <= capacity /\
        (capacity <= Z.of_nat (length v) -> length v' = length v /\
           Forall (fun c => validate_hal_v2_completion c = true) (take (Z.to_nat n) v') /\
           drop (Z.to_nat n) v' = drop (Z.to_nat n) v)
    | _ => output' = output /\ count' = (fun _ => 0) <$> count
    end;
  contract_health t h : inv t ->
    let '(t', h', status) := ops_get_health ops t h in
    inv t' /\
    match status with
    | hal_ok => exists v, h' = Some v /\ validate_hal_v2_health v = true
    | _ => h' = h
    end
}.

(** The C arrays a v1 backend writes have a fixed length, and its counts are unsigned. *)
Class V1Typed {S} (v1 : HalBackend S) : Prop := {
  poll_in_place call state storage capacity count :
    hx_poll v1 = Some call ->
    let '(_, filled, answer, _) := call state storage capacity count in
    length filled = length storage /\ 0 <= answer
}.

(** The completion storage of the adapter has its recorded capacity. *)
Definition adapter_inv {S} (t : Adapter S) : Prop :=
  match ad_completion_storage t with
  | Some storage => Z.of_nat (length storage) = ad_completion_capacity t
  | None => True
  end.

Section AdapterContract.
Context {S : Type} (v1 : HalBackend S) `{!V1Typed v1}.

(** The table the adapter publishes. *)
Definition adapter_ops : HalOps (Adapter S) :=
  mkHalOps _ (adapter_get_capabilities v1) (adapter_register_buffer v1) (adapter_submit v1) (adapter_poll v1)
    (adapter_get_health v1).

(** A failed call is never reported as success. *)
Lemma checked_call_inl status s : checked_call status = inl s -> s <> hal_ok.
Proof.
  unfold checked_call, v1_status_to_hal. destruct status as [z|]; [|by intros [= <-]].
  destruct (valid_v1_status z) eqn:Ev; cbn [negb]; [|by intros [= <-]].
  destruct (Z.eqb_spec z RTFW_DEVICE_STATUS_OK); [done|]. cbn [negb]. intros [= <-]. unfold hal_status_of.
  unfold valid_v1_status, RTFW_DEVICE_STATUS_OK, RTFW_DEVICE_STATUS_RESET_REQUIRED in *.
  rewrite andb_true_iff, !Z.leb_le in Ev. destruct z as [|p|p]; [done|lia|]. by repeat (destruct p as [p|p|]; try done).
Qed.

Lemma unchanged_unless_ok {A} (P : Prop) (x : A) s :
  s <> hal_ok -> match s with hal_ok => P | _ => x = x end.
Proof. by destruct s. Qed.

Lemma adapt_buffers_spec count : forall buffers targets,
  adapt_buffers count buffers = Some targets ->
  length targets = count /\
  Forall (fun r => br_buffer_token r <> 0 /\ br_reserved0 r = 0 /\ valid_access (br_access r) = true) (take count buffers) /\
  targets = take count buffers.
Proof.
  induction count as [|count IH]; intros buffers targets H; [by injection H as <-|].
  destruct buffers as [|b rest]; [done|]. cbn [adapt_buffers] in H.
  destruct (_ || _ || _) eqn:E; [done|]. rewrite !orb_false_iff, !negb_false_iff, Z.eqb_eq, Z.eqb_neq in E.
  destruct E as [[E1 E2] E3]. apply bind_Some in H as (ts & Er & H). injection H as <-.
  destruct (IH _ _ Er) as (Hl & Hf & Ht). cbn [take length]. split_and!; [by rewrite Hl|by constructor|].
  rewrite Ht. f_equal. destruct b. simpl in *. by subst.
Qed.

Lemma adapt_submission_spec s r : adapt_submission s = Some r -> submission_well_formed s.
Proof.
  unfold adapt_submission. destruct (_ || _) eqn:E; [done|]. intros H. apply bind_Some in H as (targets & Ht & _).
  rewrite !orb_false_iff, !negb_false_iff, !Z.ltb_ge, !Z.eqb_eq, !Z.eqb_neq in E. destruct_and! E.
  apply adapt_buffers_spec in Ht as (_ & Hf & _). by repeat split.
Qed.

Lemma with_backend_inv (t : Adapter S) state : adapter_inv t -> adapter_inv (with_backend t state).
Proof. done. Qed.

Lemma adapter_poll_ok (v records : list HalCompletion) capacity n :
  Z.of_nat (length records) = n -> 0 <= n <= capacity -> capacity <= Z.of_nat (length v) ->
  forallb validate_hal_v2_completion records = true ->
  let v' := list_inserts 0 (adapt_completion <$> records) v in
  length v' = length v /\ Forall (fun c => validate_hal_v2_completion c = true) (take (Z.to_nat n) v') /\
  drop (Z.to_nat n) v' = drop (Z.to_nat n) v.
Proof.
  intros Hl Hn Hc Hf. cbv zeta. split_and!; [apply length_inserts| |].
  - apply Forall_lookup_2. intros i c Hi. apply lookup_take_Some in Hi as [Hi Hlt].
    rewrite list_lookup_inserts, Nat.sub_0_r in Hi by (rewrite ?length_fmap; lia).
    apply list_lookup_fmap_Some in Hi as (x & -> & Hx). rewrite forallb_forall in Hf.
    specialize (Hf x ltac:(by eapply list_elem_of_In, list_elem_of_lookup_2)).
    unfold validate_hal_v2_completion in *. rewrite !andb_true_iff in *. destruct_and! Hf. by simpl.
  - apply list_eq. intros i. rewrite !lookup_drop. by rewrite list_lookup_inserts_ge by (rewrite length_fmap; lia).
Qed.
#[export] Instance adapter_contract : HalContract adapter_ops adapter_inv.
Proof.
  constructor; simpl.
  - intros t c Hi. unfold adapter_get_capabilities. destruct c as [c|]; [|done]. destruct (_ || _); [done|].
    destruct (hx_get_capabilities v1) as [call|]; [|done].
    destruct (call _ _) as [[state answer] status]. destruct (checked_call status) as [s|] eqn:Ec.
    + split; [done|]. by apply unchanged_unless_ok, (checked_call_inl status).
    + destruct (valid_v1_capabilities answer) eqn:Ev; cbn [negb]; [|done]. split; [done|]. eexists. split; [done|].
      unfold valid_v1_capabilities, validate_hal_v2_capabilities, capabilities_valid in *.
      rewrite !andb_true_iff in Ev. destruct_and! Ev. simpl. rewrite !andb_true_iff. by split_and!.
  - intros t r token Hi. unfold adapter_register_buffer. cbv zeta.
    destruct r as [r|], token as [z|]; simpl; try done. destruct (_ || _); [done|].
    destruct (hx_register_buffer v1) as [call|]; [|done].
    destruct (call _ _ _) as [[state answer] status]. destruct (checked_call status) as [s|] eqn:Ec.
    + split; [done|]. apply checked_call_inl in Ec. by intros ->.
    + split; [done|]. destruct (Z.eqb_spec answer 0); [done|]. intros _. by exists answer.
  - intros t s Hi. unfold adapter_submit. destruct s as [s|]; simpl; [|by auto].
    destruct (adapt_submission s) as [r|] eqn:E; [|by auto]. split.
    + destruct (hx_submit v1) as [call|]; [|done]. by destruct (call _ _).
    + left. exists s. split; [done|]. by eapply adapt_submission_spec.
  - intros t output capacity count Hi Hc0. unfold adapter_poll. cbv zeta.
    destruct output as [v|], count as [z|], (ad_completion_storage t) as [storage|] eqn:Es; simpl; try done.
    destruct (_ || _ || _) eqn:Eg; [done|]. rewrite !orb_false_iff, !Z.ltb_ge in Eg. destruct Eg as [[_ Hcap] _].
    unfold adapter_inv in Hi. rewrite Es in Hi.
    destruct (hx_poll v1) as [call|] eqn:Ep; [|split; [|done]].
    2:{ unfold adapter_inv. simpl. rewrite length_app, length_replicate, length_drop. lia. }
    pose proof (poll_in_place call (ad_backend t) (replicate (Z.to_nat capacity) zero_completion ++ drop (Z.to_nat capacity) storage) capacity 0 Ep) as Ht.
    destruct (call _ _ _ _) as [[[state filled] answer] status]. destruct Ht as [Hlen Ha].
    rewrite length_app, length_replicate, length_drop in Hlen.
    assert (Hinv : adapter_inv (mkAdapter state (Some filled) (ad_completion_capacity t)))
      by (unfold adapter_inv; simpl; lia).
    destruct (checked_call status) as [s|] eqn:Ec.
    + split; [done|]. apply checked_call_inl in Ec. by destruct s.
    + destruct (Z.ltb_spec capacity answer); [done|].
      destruct (forallb _ _) eqn:Ef; cbn [negb]; [|done]. split; [done|].
      eexists v, _, answer. split_and!; [done..|lia|lia|]. intros Hl.
      apply (adapter_poll_ok v _ capacity); try done. rewrite length_take. lia.
  - intros t h Hi. unfold adapter_get_health. destruct h as [h|]; [|done]. destruct (_ <? _); [done|].
    destruct (hx_get_health v1) as [call|]; [|done].
    destruct (call _ _) as [[state answer] status]. destruct (checked_call status) as [s|] eqn:Ec.
    + split; [done|]. by apply unchanged_unless_ok, (checked_call_inl status).
    + destruct (validate_hal_v2_health answer) eqn:Ev; cbn [negb]; [|done]. split; [done|]. eexists. split; [done|].
      unfold validate_hal_v2_health in *. rewrite !andb_true_iff in *. destruct_and! Ev. by simpl.
Qed.
End AdapterContract.

(** The values a completion carries. *)
Definition completion_values (c : HalCompletion) : Z * Z * Z * Z :=
  (hp_status c, hp_submission_id c, hp_device_timestamp_ns c, hp_value c).


(** A v1 backend that completes every submission at the next poll. *)
Definition echo_backend : HalBackend (list Z) :=
  mkHalBackend sizeof_hal_api RTFW_DEVICE_ABI_VERSION true
    (Some (fun s c => (s, c, Some 0)))
    (Some (fun s _ => (s, Some 0)))
    (Some (fun s _ _ => (s, 1, Some 0)))
    (Some (fun s _ => (s, Some 0)))
    (Some (fun s r => (s ++ [hs_submission_id r], Some 0)))
    (Some (fun s storage capacity _ =>
       let n := Nat.min (length s) (Z.to_nat capacity) in
       (drop n s,
        list_inserts 0 ((fun id => mkHalCompletion sizeof_hal_completion 0 id 0 0 [0; 0; 0; 0]) <$> take n s) storage,
        Z.of_nat n, Some 0)))
    (Some (fun s _ => (s, Some 0)))
    (Some (fun s h => (s, h, Some 0)))
    (Some (fun s => (s, Some 0)))
    (Some (fun s => (s, Some 0)))
    (replicate 8 0).

#[local] Instance echo_typed : V1Typed echo_backend.
Proof. constructor. intros call state storage capacity count [= <-]. rewrite length_inserts. split; [done|lia]. Qed.

