(* ===== verification/HeterogeneousMemory.v ===== *)
(** * Heterogeneous memory (rt/src/heterogeneous_memory.cpp, heterogeneous_memory.hpp)

    The memory domains, topology and timestamp domains a HAL v2 backend announces, and the
    tests the runtime applies to them before it relies on them.  An array with a count is a
    list of its capacity; the loops over it run over [take count].  [discover] of the backend
    is its outcome: the status and the snapshot it wrote, or nothing when it throws. *)

From stdpp Require Import base list numbers.
From Stdlib Require Import ZArith Lia Bool.
From S2P Require Import Prelude DeviceCommands HalV2.

Local Open Scope Z_scope.

(** ** Constants *)

Definition hal_v2_memory_topology_extension_version : Z := 1.
Definition hal_v2_memory_domain_capacity : nat := 16.
Definition hal_v2_topology_node_capacity : nat := 32.
Definition hal_v2_topology_link_capacity : nat := 64.
Definition hal_v2_timestamp_domain_capacity : nat := 8.
Definition hal_v2_opaque_handle_capacity : nat := 64.

(** [HalV2MemoryDomainKind] *)
Definition domain_host : Z := 1.
Definition domain_pinned_host : Z := 2.
Definition domain_cuda_device : Z := 3.
Definition domain_imported : Z := 4.
Definition domain_dma_mapped : Z := 5.
Definition domain_peer : Z := 6.

Inductive HalV2MemoryOwnership : Set := ownership_borrowed_host | ownership_borrowed_opaque | ownership_by_backend.

Definition hal_v2_memory_ownership_borrowed_host : Z := 1.
Definition hal_v2_memory_ownership_borrowed_opaque : Z := 2.
Definition hal_v2_memory_ownership_backend : Z := 4.

(** [HalV2MemoryCoherency] *)
Definition coherency_host_coherent : Z := 1.
Definition coherency_explicit_flush_invalidate : Z := 2.
Definition coherency_staged_copy : Z := 3.
Definition coherency_device_only : Z := 4.

Definition hal_v2_memory_sync_none : Z := 0.
Definition hal_v2_memory_sync_flush : Z := 1.
Definition hal_v2_memory_sync_invalidate : Z := 2.
Definition hal_v2_memory_sync_copy_to_device : Z := 4.
Definition hal_v2_memory_sync_copy_from_device : Z := 8.
Definition hal_v2_memory_sync_timeline : Z := 16.

(** [HalV2TopologyNodeKind], [HalV2TopologyLinkKind], [HalV2TimestampDomainKind] *)
Definition node_host : Z := 1.
Definition node_peer_endpoint : Z := 5.
Definition link_local : Z := 1.
Definition link_peer : Z := 5.
Definition timestamp_runtime_monotonic : Z := 1.
Definition timestamp_external : Z := 3.

(** [sizeof] *)
Definition sizeof_opaque_handle : Z := 88.
Definition sizeof_memory_domain : Z := 120.
Definition sizeof_topology_node : Z := 56.
Definition sizeof_topology_link : Z := 72.
Definition sizeof_timestamp_domain : Z := 96.
Definition sizeof_topology_snapshot : Z := 9184.
Definition sizeof_memory_token : Z := 136.
Definition sizeof_memory_extension : Z := 112.
Definition sizeof_correlation : Z := 88.

(** ** Structures *)

Record HalV2OpaqueHandle : Set := mkOpaqueHandle {
  oh_struct_size : Z;
  oh_size : Z;
  oh_bytes : list Z;
  oh_reserved : list Z;
}.

Record HalV2MemoryDomain : Set := mkMemoryDomain {
  md_struct_size : Z;
  md_extension_version : Z;
  md_identity : Z;
  md_kind : Z;
  md_ownership_modes : Z;
  md_maximum_bytes : Z;
  md_byte_granularity : Z;
  md_alignment : Z;
  md_offset_granularity : Z;
  md_access : Z;
  md_coherency : Z;
  md_required_synchronization : Z;
  md_reserved0 : Z;
  md_topology_node_identity : Z;
  md_timestamp_domain_identity : Z;
  md_reserved : list Z;
}.

Record HalV2TopologyNode : Set := mkTopologyNode {
  tn_struct_size : Z;
  tn_extension_version : Z;
  tn_identity : Z;
  tn_kind : Z;
  tn_reserved0 : Z;
  tn_reserved : list Z;
}.

Record HalV2TopologyLink : Set := mkTopologyLink {
  tl_struct_size : Z;
  tl_extension_version : Z;
  tl_identity : Z;
  tl_source_node_identity : Z;
  tl_destination_node_identity : Z;
  tl_kind : Z;
  tl_reserved0 : Z;
  tl_reserved : list Z;
}.

Record HalV2TimestampDomain : Set := mkTimestampDomain {
  td_struct_size : Z;
  td_extension_version : Z;
  td_identity : Z;
  td_kind : Z;
  td_reserved0 : Z;
  td_tick_numerator_ns : Z;
  td_tick_denominator : Z;
  td_wrap_ticks : Z;
  td_correlation_destination_identity : Z;
  td_monotonic : Z;
  td_resets_on_backend_reset : Z;
  td_supports_correlation : Z;
  td_reserved1 : Z;
  td_reserved2 : Z;
  td_reserved : list Z;
}.

Record HalV2MemoryTopologySnapshot : Set := mkTopologySnapshot {
  ts_struct_size : Z;
  ts_extension_version : Z;
  ts_memory_domain_count : Z;
  ts_topology_node_count : Z;
  ts_topology_link_count : Z;
  ts_timestamp_domain_count : Z;
  ts_completion_timestamp_domain_identity : Z;
  ts_memory_domains : list HalV2MemoryDomain;
  ts_topology_nodes : list HalV2TopologyNode;
  ts_topology_links : list HalV2TopologyLink;
  ts_timestamp_domains : list HalV2TimestampDomain;
  ts_reserved : list Z;
}.

Record HalV2MemoryToken : Set := mkMemoryToken {
  mk_struct_size : Z;
  mk_extension_version : Z;
  mk_submission_token : Z;
  mk_native_token : HalV2OpaqueHandle;
  mk_reserved : list Z;
}.

Record HalV2MemoryRegistration : Set := mkMemoryRegistration {
  mr_struct_size : Z;
  mr_extension_version : Z;
  mr_domain_identity : Z;
  mr_bytes : Z;
  mr_ownership : Z;
  mr_access : Z;
  mr_coherency : Z;
  mr_synchronization : Z;
  mr_host_data : option nat;
  mr_opaque_handle : HalV2OpaqueHandle;
  mr_name : list Z;
  mr_reserved : list Z;
}.

(** Function pointers: whether they are set; [discover] by its outcome. *)
Record HalV2MemoryTopologyExtension : Set := mkTopologyExtension {
  te_struct_size : Z;
  te_extension_version : Z;
  te_instance : bool;
  te_discover : option (HalV2MemoryTopologySnapshot -> option (HalV2Status * HalV2MemoryTopologySnapshot));
  te_register_memory : bool;
  te_unregister_memory : bool;
  te_query_timestamp_correlation : bool;
  te_reserved : list Z;
}.

Record HalV2TimestampCorrelation : Set := mkCorrelation {
  co_struct_size : Z;
  co_extension_version : Z;
  co_source_domain_identity : Z;
  co_destination_domain_identity : Z;
  co_generation : Z;
  co_source_value : Z;
  co_destination_value : Z;
  co_uncertainty_ns : Z;
  co_reserved : list Z;
}.

Record HeterogeneousMemoryState : Set := mkMemoryState {
  ms_native_extension : bool;
  ms_extension : HalV2MemoryTopologyExtension;
  ms_snapshot : HalV2MemoryTopologySnapshot;
}.

(** Value-initialised structures. *)
Definition memory_domain_default : HalV2MemoryDomain :=
  mkMemoryDomain sizeof_memory_domain hal_v2_memory_topology_extension_version 0 0 0 0 0 0 0 0 0 0 0 0 0 (replicate 4 0).
Definition topology_node_default : HalV2TopologyNode :=
  mkTopologyNode sizeof_topology_node hal_v2_memory_topology_extension_version 0 0 0 (replicate 4 0).
Definition topology_link_default : HalV2TopologyLink :=
  mkTopologyLink sizeof_topology_link hal_v2_memory_topology_extension_version 0 0 0 0 0 (replicate 4 0).
Definition timestamp_domain_default : HalV2TimestampDomain :=
  mkTimestampDomain sizeof_timestamp_domain hal_v2_memory_topology_extension_version 0 0 0 0 0 0 0 0 0 0 0 0 (replicate 4 0).
Definition topology_snapshot_default : HalV2MemoryTopologySnapshot :=
  mkTopologySnapshot sizeof_topology_snapshot hal_v2_memory_topology_extension_version 0 0 0 0 0
    (replicate hal_v2_memory_domain_capacity memory_domain_default)
    (replicate hal_v2_topology_node_capacity topology_node_default)
    (replicate hal_v2_topology_link_capacity topology_link_default)
    (replicate hal_v2_timestamp_domain_capacity timestamp_domain_default) (replicate 8 0).
Definition topology_extension_default : HalV2MemoryTopologyExtension :=
  mkTopologyExtension sizeof_memory_extension hal_v2_memory_topology_extension_version false None false false false
    (replicate 8 0).
Definition memory_state_default : HeterogeneousMemoryState :=
  mkMemoryState false topology_extension_default topology_snapshot_default.

(** ** Tests *)

Definition power_of_two (value : Z) : bool := negb (value =? 0) && (Z.land value (u64 (value - 1)) =? 0).

Definition in_range (first last value : Z) : bool := (first <=? value) && (value <=? last).

Definition valid_domain_kind (value : Z) : bool := in_range domain_host domain_peer value.
Definition valid_node_kind (value : Z) : bool := in_range node_host node_peer_endpoint value.
Definition valid_link_kind (value : Z) : bool := in_range link_local link_peer value.
Definition valid_timestamp_kind (value : Z) : bool := in_range timestamp_runtime_monotonic timestamp_external value.

Definition kAccessAll : Z :=
  Z.lor (Z.lor RTFW_DEVICE_BUFFER_HOST_READ RTFW_DEVICE_BUFFER_HOST_WRITE)
    (Z.lor RTFW_DEVICE_BUFFER_DEVICE_READ RTFW_DEVICE_BUFFER_DEVICE_WRITE).

Definition valid_memory_access (access : Z) : bool :=
  negb (access =? 0) && (Z.land access (Z.lnot kAccessAll) =? 0).

Definition valid_memory_coherency (coherency : Z) : bool :=
  in_range coherency_host_coherent coherency_device_only coherency.

Definition valid_memory_synchronization (synchronization : Z) : bool :=
  let allowed := Z.lor hal_v2_memory_sync_flush (Z.lor hal_v2_memory_sync_invalidate
    (Z.lor hal_v2_memory_sync_copy_to_device (Z.lor hal_v2_memory_sync_copy_from_device
      hal_v2_memory_sync_timeline))) in
  Z.land synchronization (Z.lnot allowed) =? 0.

Definition ownership_bit (ownership : HalV2MemoryOwnership) : Z :=
  match ownership with
  | ownership_borrowed_host => hal_v2_memory_ownership_borrowed_host
  | ownership_borrowed_opaque => hal_v2_memory_ownership_borrowed_opaque
  | ownership_by_backend => hal_v2_memory_ownership_backend
  end.

(** The two nested loops of [unique_identity] over the identities of the counted elements. *)
Fixpoint unique_identity (identities : list Z) : bool :=
  match identities with
  | [] => true
  | identity :: rest => negb (identity =? 0) && negb (existsb (Z.eqb identity) rest) && unique_identity rest
  end.

Definition contains_identity (identities : list Z) (identity : Z) : bool :=
  negb (identity =? 0) && existsb (fun value => value =? identity) identities.

(** The scalar fields of a domain. *)
Definition domain_fields_valid (d : HalV2MemoryDomain) : bool :=
  let ownership_mask := Z.lor hal_v2_memory_ownership_borrowed_host
    (Z.lor hal_v2_memory_ownership_borrowed_opaque hal_v2_memory_ownership_backend) in
  (sizeof_memory_domain <=? md_struct_size d) &&
  (md_extension_version d =? hal_v2_memory_topology_extension_version) && negb (md_identity d =? 0) &&
  valid_domain_kind (md_kind d) && negb (md_ownership_modes d =? 0) &&
  (Z.land (md_ownership_modes d) (Z.lnot ownership_mask) =? 0) && negb (md_maximum_bytes d =? 0) &&
  power_of_two (md_byte_granularity d) && power_of_two (md_alignment d) &&
  power_of_two (md_offset_granularity d) && (md_byte_granularity d <=? md_maximum_bytes d) &&
  (md_maximum_bytes d mod md_byte_granularity d =? 0) && valid_memory_access (md_access d) &&
  valid_memory_coherency (md_coherency d) && valid_memory_synchronization (md_required_synchronization d) &&
  (md_reserved0 d =? 0) && all_zero (md_reserved d).

Definition has_bits (value mask : Z) : bool := negb (Z.land value mask =? 0).

(** The rules that tie kind, access, ownership and coherency together. *)
Definition domain_consistent (d : HalV2MemoryDomain) : bool :=
  let host_access := has_bits (md_access d) (Z.lor RTFW_DEVICE_BUFFER_HOST_READ RTFW_DEVICE_BUFFER_HOST_WRITE) in
  let device_access :=
    has_bits (md_access d) (Z.lor RTFW_DEVICE_BUFFER_DEVICE_READ RTFW_DEVICE_BUFFER_DEVICE_WRITE) in
  let owned mask := has_bits (md_ownership_modes d) mask in
  let kind k := md_kind d =? k in
  let coherent c := md_coherency d =? c in
  let sync mask := has_bits (md_required_synchronization d) mask in
  domain_fields_valid d &&
  negb ((kind domain_host || kind domain_pinned_host) &&
        (negb host_access || negb (owned hal_v2_memory_ownership_borrowed_host))) &&
  negb (negb (kind domain_host) && negb (kind domain_pinned_host) &&
        owned hal_v2_memory_ownership_borrowed_host) &&
  negb ((kind domain_cuda_device || kind domain_dma_mapped || kind domain_peer) && negb device_access) &&
  negb ((kind domain_imported || kind domain_dma_mapped || kind domain_peer) &&
        negb (owned hal_v2_memory_ownership_borrowed_opaque)) &&
  negb (coherent coherency_host_coherent &&
        (negb host_access || negb (md_required_synchronization d =? hal_v2_memory_sync_none))) &&
  negb (coherent coherency_explicit_flush_invalidate &&
        negb (sync (Z.lor hal_v2_memory_sync_flush hal_v2_memory_sync_invalidate))) &&
  negb (coherent coherency_staged_copy &&
        negb (sync (Z.lor hal_v2_memory_sync_copy_to_device hal_v2_memory_sync_copy_from_device))) &&
  negb (coherent coherency_device_only && (host_access || negb device_access)).

Definition validate_opaque_handle (handle : HalV2OpaqueHandle) (require_nonempty : bool) : bool :=
  (sizeof_opaque_handle <=? oh_struct_size handle) &&
  (oh_size handle <=? Z.of_nat hal_v2_opaque_handle_capacity) &&
  negb (require_nonempty && (oh_size handle =? 0)) && all_zero (oh_reserved handle) &&
  all_zero (drop (Z.to_nat (oh_size handle)) (oh_bytes handle)).

Definition validate_memory_token (token : HalV2MemoryToken) (require_submission_token : bool) : bool :=
  (sizeof_memory_token <=? mk_struct_size token) &&
  (mk_extension_version token =? hal_v2_memory_topology_extension_version) &&
  (negb require_submission_token || negb (mk_submission_token token =? 0)) &&
  validate_opaque_handle (mk_native_token token) false && all_zero (mk_reserved token).

Definition validate_memory_topology_extension (extension : HalV2MemoryTopologyExtension) : bool :=
  (sizeof_memory_extension <=? te_struct_size extension) &&
  (te_extension_version extension =? hal_v2_memory_topology_extension_version) &&
  te_instance extension && is_set (te_discover extension) && te_register_memory extension &&
  te_unregister_memory extension && te_query_timestamp_correlation extension && all_zero (te_reserved extension).

(** ** The snapshot *)

(** The counted parts of the arrays. *)
Definition snapshot_domains (s : HalV2MemoryTopologySnapshot) : list HalV2MemoryDomain :=
  take (Z.to_nat (ts_memory_domain_count s)) (ts_memory_domains s).
Definition snapshot_nodes (s : HalV2MemoryTopologySnapshot) : list HalV2TopologyNode :=
  take (Z.to_nat (ts_topology_node_count s)) (ts_topology_nodes s).
Definition snapshot_links (s : HalV2MemoryTopologySnapshot) : list HalV2TopologyLink :=
  take (Z.to_nat (ts_topology_link_count s)) (ts_topology_links s).
Definition snapshot_clocks (s : HalV2MemoryTopologySnapshot) : list HalV2TimestampDomain :=
  take (Z.to_nat (ts_timestamp_domain_count s)) (ts_timestamp_domains s).

Definition node_identities (s : HalV2MemoryTopologySnapshot) : list Z := tn_identity <$> snapshot_nodes s.
Definition clock_identities (s : HalV2MemoryTopologySnapshot) : list Z := td_identity <$> snapshot_clocks s.

Definition snapshot_header_valid (s : HalV2MemoryTopologySnapshot) : bool :=
  (sizeof_topology_snapshot <=? ts_struct_size s) &&
  (ts_extension_version s =? hal_v2_memory_topology_extension_version) &&
  negb (ts_memory_domain_count s =? 0) &&
  (ts_memory_domain_count s <=? Z.of_nat hal_v2_memory_domain_capacity) &&
  negb (ts_topology_node_count s =? 0) &&
  (ts_topology_node_count s <=? Z.of_nat hal_v2_topology_node_capacity) &&
  (ts_topology_link_count s <=? Z.of_nat hal_v2_topology_link_capacity) &&
  negb (ts_timestamp_domain_count s =? 0) &&
  (ts_timestamp_domain_count s <=? Z.of_nat hal_v2_timestamp_domain_capacity) && all_zero (ts_reserved s) &&
  unique_identity (md_identity <$> snapshot_domains s) && unique_identity (node_identities s) &&
  unique_identity (tl_identity <$> snapshot_links s) && unique_identity (clock_identities s).

Definition domain_placed (s : HalV2MemoryTopologySnapshot) (d : HalV2MemoryDomain) : bool :=
  domain_consistent d && contains_identity (node_identities s) (md_topology_node_identity d) &&
  contains_identity (clock_identities s) (md_timestamp_domain_identity d).

Definition node_valid (n : HalV2TopologyNode) : bool :=
  (sizeof_topology_node <=? tn_struct_size n) &&
  (tn_extension_version n =? hal_v2_memory_topology_extension_version) && valid_node_kind (tn_kind n) &&
  (tn_reserved0 n =? 0) && all_zero (tn_reserved n).

Definition link_valid (s : HalV2MemoryTopologySnapshot) (l : HalV2TopologyLink) : bool :=
  (sizeof_topology_link <=? tl_struct_size l) &&
  (tl_extension_version l =? hal_v2_memory_topology_extension_version) && valid_link_kind (tl_kind l) &&
  (tl_reserved0 l =? 0) && all_zero (tl_reserved l) &&
  contains_identity (node_identities s) (tl_source_node_identity l) &&
  contains_identity (node_identities s) (tl_destination_node_identity l) &&
  negb ((tl_source_node_identity l =? tl_destination_node_identity l) && negb (tl_kind l =? link_local)).

Definition same_link (l other : HalV2TopologyLink) : bool :=
  (tl_source_node_identity other =? tl_source_node_identity l) &&
  (tl_destination_node_identity other =? tl_destination_node_identity l) && (tl_kind other =? tl_kind l).

(** The lambda [node_kind]: the kind of the first node of that identity, or 0. *)
Definition node_kind (s : HalV2MemoryTopologySnapshot) (identity : Z) : Z :=
  match find (fun n => tn_identity n =? identity) (snapshot_nodes s) with
  | Some n => tn_kind n
  | None => 0
  end.

Definition peer_link (l : HalV2TopologyLink) : bool := tl_kind l =? link_peer.

(** The link loop; [prior] are the links before the current one. *)
Fixpoint check_links (s : HalV2MemoryTopologySnapshot) (prior links : list HalV2TopologyLink) : bool :=
  match links with
  | [] => true
  | l :: rest =>
      link_valid s l && negb (existsb (same_link l) prior) &&
      (negb (peer_link l) ||
       ((node_kind s (tl_source_node_identity l) =? node_peer_endpoint) &&
        (node_kind s (tl_destination_node_identity l) =? node_peer_endpoint))) &&
      check_links s (prior ++ [l]) rest
  end.

Definition peer_domain (d : HalV2MemoryDomain) : bool := md_kind d =? domain_peer.

(** A link to peers at the node of the domain. *)
Definition domain_attached (s : HalV2MemoryTopologySnapshot) (d : HalV2MemoryDomain) : bool :=
  existsb (fun l => peer_link l && ((tl_source_node_identity l =? md_topology_node_identity d) ||
                                    (tl_destination_node_identity l =? md_topology_node_identity d)))
    (snapshot_links s).

Definition clock_valid (s : HalV2MemoryTopologySnapshot) (c : HalV2TimestampDomain) : bool :=
  (sizeof_timestamp_domain <=? td_struct_size c) &&
  (td_extension_version c =? hal_v2_memory_topology_extension_version) && valid_timestamp_kind (td_kind c) &&
  (td_reserved0 c =? 0) && negb (td_tick_numerator_ns c =? 0) && negb (td_tick_denominator c =? 0) &&
  (td_monotonic c <=? 1) && (td_resets_on_backend_reset c <=? 1) && (td_supports_correlation c <=? 1) &&
  (td_reserved1 c =? 0) && (td_reserved2 c =? 0) && all_zero (td_reserved c) &&
  negb (negb (td_wrap_ticks c =? 0) && (u64_max / td_wrap_ticks c <? td_tick_numerator_ns c)) &&
  negb ((td_supports_correlation c =? 0) && negb (td_correlation_destination_identity c =? 0)) &&
  negb (negb (td_supports_correlation c =? 0) &&
        ((td_correlation_destination_identity c =? td_identity c) ||
         negb (contains_identity (clock_identities s) (td_correlation_destination_identity c)))).

Definition validate_memory_topology_snapshot (s : HalV2MemoryTopologySnapshot) : bool :=
  snapshot_header_valid s &&
  forallb (domain_placed s) (snapshot_domains s) &&
  forallb node_valid (snapshot_nodes s) &&
  check_links s [] (snapshot_links s) &&
  Bool.eqb (existsb peer_domain (snapshot_domains s)) (existsb peer_link (snapshot_links s)) &&
  forallb (fun d => negb (peer_domain d) || domain_attached s d) (snapshot_domains s) &&
  forallb (clock_valid s) (snapshot_clocks s) &&
  contains_identity (clock_identities s) (ts_completion_timestamp_domain_identity s).

(** ** Discovery and lookup *)

(** The request has counts no valid answer can have. *)
Definition discovery_request : HalV2MemoryTopologySnapshot :=
  let d := topology_snapshot_default in
  mkTopologySnapshot (ts_struct_size d) (ts_extension_version d) (Z.of_nat hal_v2_memory_domain_capacity + 1)
    (Z.of_nat hal_v2_topology_node_capacity + 1) (Z.of_nat hal_v2_topology_link_capacity + 1)
    (Z.of_nat hal_v2_timestamp_domain_capacity + 1) (ts_completion_timestamp_domain_identity d)
    (ts_memory_domains d) (ts_topology_nodes d) (ts_topology_links d) (ts_timestamp_domains d) (ts_reserved d).

(** The returned status and [output]. *)
Definition discover_memory_topology (extension : HalV2MemoryTopologyExtension) : Status * HeterogeneousMemoryState :=
  if negb (validate_memory_topology_extension extension) then (invalid_argument, memory_state_default)
  else
    match te_discover extension with
    | None => (internal_error, memory_state_default)
    | Some discover =>
        match discover discovery_request with
        | None => (internal_error, memory_state_default)
        | Some (status, candidate) =>
            let runtime_status := hal_v2_status_to_runtime status in
            if negb (bool_decide (runtime_status = ok)) then (runtime_status, memory_state_default)
            else if negb (validate_memory_topology_snapshot candidate)
            then (invalid_argument, memory_state_default)
            else (ok, mkMemoryState true extension candidate)
        end
    end.

Definition make_implicit_host_memory_state (capabilities : HalCapabilities) : HeterogeneousMemoryState :=
  let d := topology_snapshot_default in
  let domain :=
    mkMemoryDomain sizeof_memory_domain hal_v2_memory_topology_extension_version 1 domain_host
      hal_v2_memory_ownership_borrowed_host (hc_max_buffer_bytes capabilities) 1 1 1 kAccessAll
      coherency_host_coherent 0 0 0 0 (replicate 4 0) in
  mkMemoryState false topology_extension_default
    (mkTopologySnapshot (ts_struct_size d) (ts_extension_version d) 1 0 0 0 0
       (<[0%nat := domain]> (ts_memory_domains d)) (ts_topology_nodes d) (ts_topology_links d)
       (ts_timestamp_domains d) (ts_reserved d)).

Definition find_memory_domain (state : HeterogeneousMemoryState) (identity : Z) : option HalV2MemoryDomain :=
  find (fun d => md_identity d =? identity) (snapshot_domains (ms_snapshot state)).

Definition find_timestamp_domain (state : HeterogeneousMemoryState) (identity : Z) : option HalV2TimestampDomain :=
  find (fun d => td_identity d =? identity) (snapshot_clocks (ms_snapshot state)).

Definition legacy_host_domain (access : Z) (d : HalV2MemoryDomain) : bool :=
  (md_kind d =? domain_host) && has_bits (md_ownership_modes d) hal_v2_memory_ownership_borrowed_host &&
  (Z.land access (Z.lnot (md_access d)) =? 0) && (md_coherency d =? coherency_host_coherent) &&
  (md_required_synchronization d =? hal_v2_memory_sync_none).

Definition find_legacy_host_domain (state : HeterogeneousMemoryState) (access : Z) : option HalV2MemoryDomain :=
  find (legacy_host_domain access) (snapshot_domains (ms_snapshot state)).

Definition validate_timestamp_correlation (source destination : Z) (c : HalV2TimestampCorrelation) : bool :=
  (sizeof_correlation <=? co_struct_size c) &&
  (co_extension_version c =? hal_v2_memory_topology_extension_version) &&
  (co_source_domain_identity c =? source) && (co_destination_domain_identity c =? destination) &&
  negb (co_generation c =? 0) && negb (co_uncertainty_ns c =? u64_max) &&
  (co_source_value c <=? u64_max - co_uncertainty_ns c) &&
  (co_destination_value c <=? u64_max - co_uncertainty_ns c) && all_zero (co_reserved c).
