(* ===== verification/HeterogeneousMemoryTheorems.v ===== *)
(** * What a validated memory topology is

    [topology_wf] is the topology as a graph: identities are keys, references resolve, links
    are a set of edges between nodes of the topology, peer memory has peer links, and no clock
    overflows 64 bits before it wraps.  The validator accepts exactly the snapshots whose
    records are well shaped and whose graph is of this form. *)

From stdpp Require Import base list numbers.
From Stdlib Require Import ZArith Lia Bool.
From S2P Require Import Prelude DeviceCommands HalV2 HeterogeneousMemory.

Local Open Scope Z_scope.

(** ** Lists and booleans *)

Lemma forallb_elem_of {A} (f : A -> bool) l : forallb f l = true <-> forall x, x ∈ l -> f x = true.
Proof. rewrite forallb_forall. by setoid_rewrite list_elem_of_In. Qed.

Lemma existsb_elem_of {A} (f : A -> bool) l : existsb f l = true <-> exists x, x ∈ l /\ f x = true.
Proof. rewrite existsb_exists. by setoid_rewrite list_elem_of_In. Qed.

Lemma existsb_eqb_elem (l : list Z) i : existsb (fun v => v =? i) l = true <-> i ∈ l.
Proof.
  rewrite existsb_elem_of. split; [intros (x & Hx & ->%Z.eqb_eq) | exists i; rewrite Z.eqb_refl]; done.
Qed.

(** ** Identities *)

(** The identities of the records of one array name them. *)
Definition identified (identities : list Z) : Prop := NoDup identities /\ 0 ∉ identities.

Lemma unique_identity_spec l : unique_identity l = true <-> identified l.
Proof.
  unfold identified. induction l as [|i l IH]; cbn [unique_identity].
  - split; [|done]. intros _. split; [constructor | by intros ?%elem_of_nil].
  - rewrite !andb_true_iff, !negb_true_iff. rewrite IH. rewrite list.NoDup_cons. rewrite Z.eqb_neq.
    assert (He : existsb (Z.eqb i) l = false <-> i ∉ l).
    { rewrite <- not_true_iff_false, existsb_elem_of. apply not_iff_compat. split.
      - intros (x & Hx & ->%Z.eqb_eq). done.
      - intros Hi. exists i. by rewrite Z.eqb_refl. }
    rewrite He, not_elem_of_cons. intuition congruence.
Qed.

Lemma contains_identity_spec l i : 0 ∉ l -> contains_identity l i = true <-> i ∈ l.
Proof.
  intros Hz. unfold contains_identity. rewrite andb_true_iff, negb_true_iff, Z.eqb_neq, existsb_eqb_elem.
  split; [tauto|]. intros Hi. split; [congruence | done].
Qed.

(** Lookup by key in an array whose keys are distinct. *)
Lemma find_key {A} (key : A -> Z) l x :
  NoDup (key <$> l) -> x ∈ l -> find (fun y => key y =? key x) l = Some x.
Proof.
  induction l as [|y l IH]; intros Hd Hx; [by apply elem_of_nil in Hx|].
  cbn [fmap list_fmap] in Hd. apply list.NoDup_cons in Hd as [Hy Hd]. cbn [find].
  apply elem_of_cons in Hx as [->|Hx]; [by rewrite Z.eqb_refl|].
  destruct (key y =? key x) eqn:He; [|by apply IH].
  apply Z.eqb_eq in He. exfalso. apply Hy. rewrite He. by apply list_elem_of_fmap_2.
Qed.

Lemma find_key_some {A} (key : A -> Z) l i x :
  find (fun y => key y =? i) l = Some x -> x ∈ l /\ key x = i.
Proof. intros [Hin He]%find_some. split; [by apply list_elem_of_In | by apply Z.eqb_eq]. Qed.

Lemma find_key_none {A} (key : A -> Z) l i : find (fun y => key y =? i) l = None <-> i ∉ key <$> l.
Proof.
  split.
  - intros Hn (x & -> & Hx)%list_elem_of_fmap. apply list_elem_of_In in Hx.
    pose proof (find_none _ _ Hn x Hx) as He. cbn beta in He. by rewrite Z.eqb_refl in He.
  - intros Hi. destruct (find _ l) as [x|] eqn:Hf; [|done].
    apply find_key_some in Hf as [Hx <-]. exfalso. apply Hi. by apply list_elem_of_fmap_2.
Qed.

(** ** Well-formed topologies *)

Definition link_key (l : HalV2TopologyLink) : Z * Z * Z :=
  (tl_source_node_identity l, tl_destination_node_identity l, tl_kind l).

Definition link_touches (l : HalV2TopologyLink) (node : Z) : Prop :=
  tl_source_node_identity l = node \/ tl_destination_node_identity l = node.

Record topology_wf (s : HalV2MemoryTopologySnapshot) : Prop := mkTopologyWf {
  wf_domain_identities : identified (md_identity <$> snapshot_domains s);
  wf_node_identities : identified (node_identities s);
  wf_link_identities : identified (tl_identity <$> snapshot_links s);
  wf_clock_identities : identified (clock_identities s);
  wf_domain_references d : d ∈ snapshot_domains s ->
    md_topology_node_identity d ∈ node_identities s /\ md_timestamp_domain_identity d ∈ clock_identities s;
  wf_link_ends l node : l ∈ snapshot_links s -> link_touches l node -> node ∈ node_identities s;
  wf_links_distinct : NoDup (link_key <$> snapshot_links s);
  wf_self_links l : l ∈ snapshot_links s ->
    tl_source_node_identity l = tl_destination_node_identity l -> tl_kind l = link_local;
  wf_peer_links l n : l ∈ snapshot_links s -> tl_kind l = link_peer ->
    n ∈ snapshot_nodes s -> link_touches l (tn_identity n) -> tn_kind n = node_peer_endpoint;
  wf_peer_domains d : d ∈ snapshot_domains s -> md_kind d = domain_peer ->
    exists l, l ∈ snapshot_links s /\ tl_kind l = link_peer /\ link_touches l (md_topology_node_identity d);
  wf_peer_used l : l ∈ snapshot_links s -> tl_kind l = link_peer ->
    exists d, d ∈ snapshot_domains s /\ md_kind d = domain_peer;
  wf_clock_wrap c : c ∈ snapshot_clocks s -> td_wrap_ticks c * td_tick_numerator_ns c <= u64_max;
  wf_clock_correlation c : c ∈ snapshot_clocks s ->
    if td_supports_correlation c =? 0 then td_correlation_destination_identity c = 0
    else td_correlation_destination_identity c ∈ clock_identities s /\
         td_correlation_destination_identity c <> td_identity c;
  wf_completion_clock : ts_completion_timestamp_domain_identity s ∈ clock_identities s
}.

(** What the validator asks of the records one by one. *)
Definition link_shape (l : HalV2TopologyLink) : bool :=
  (sizeof_topology_link <=? tl_struct_size l) &&
  (tl_extension_version l =? hal_v2_memory_topology_extension_version) && valid_link_kind (tl_kind l) &&
  (tl_reserved0 l =? 0) && all_zero (tl_reserved l).

Definition clock_shape (c : HalV2TimestampDomain) : bool :=
  (sizeof_timestamp_domain <=? td_struct_size c) &&
  (td_extension_version c =? hal_v2_memory_topology_extension_version) && valid_timestamp_kind (td_kind c) &&
  (td_reserved0 c =? 0) && negb (td_tick_numerator_ns c =? 0) && negb (td_tick_denominator c =? 0) &&
  (td_monotonic c <=? 1) && (td_resets_on_backend_reset c <=? 1) && (td_supports_correlation c <=? 1) &&
  (td_reserved1 c =? 0) && (td_reserved2 c =? 0) && all_zero (td_reserved c).

Definition counts_valid (s : HalV2MemoryTopologySnapshot) : bool :=
  (sizeof_topology_snapshot <=? ts_struct_size s) &&
  (ts_extension_version s =? hal_v2_memory_topology_extension_version) &&
  negb (ts_memory_domain_count s =? 0) &&
  (ts_memory_domain_count s <=? Z.of_nat hal_v2_memory_domain_capacity) &&
  negb (ts_topology_node_count s =? 0) &&
  (ts_topology_node_count s <=? Z.of_nat hal_v2_topology_node_capacity) &&
  (ts_topology_link_count s <=? Z.of_nat hal_v2_topology_link_capacity) &&
  negb (ts_timestamp_domain_count s =? 0) &&
  (ts_timestamp_domain_count s <=? Z.of_nat hal_v2_timestamp_domain_capacity) && all_zero (ts_reserved s).

Record topology_shape (s : HalV2MemoryTopologySnapshot) : Prop := mkTopologyShape {
  shape_counts : counts_valid s = true;
  shape_domains d : d ∈ snapshot_domains s -> domain_consistent d = true;
  shape_nodes n : n ∈ snapshot_nodes s -> node_valid n = true;
  shape_links l : l ∈ snapshot_links s -> link_shape l = true;
  shape_clocks c : c ∈ snapshot_clocks s -> clock_shape c = true
}.

(** The widths of the unsigned fields the arithmetic depends on. *)
Definition clocks_typed (s : HalV2MemoryTopologySnapshot) : Prop :=
  forall c, c ∈ snapshot_clocks s -> 0 <= td_wrap_ticks c /\ 0 <= td_tick_numerator_ns c.

(** ** The parts of the validator *)

Lemma header_spec s :
  snapshot_header_valid s = true <->
  counts_valid s = true /\ identified (md_identity <$> snapshot_domains s) /\ identified (node_identities s) /\
  identified (tl_identity <$> snapshot_links s) /\ identified (clock_identities s).
Proof. unfold snapshot_header_valid, counts_valid. rewrite !andb_true_iff, !unique_identity_spec. tauto. Qed.

Lemma domain_placed_spec s d :
  0 ∉ node_identities s -> 0 ∉ clock_identities s ->
  domain_placed s d = true <->
  domain_consistent d = true /\ md_topology_node_identity d ∈ node_identities s /\
  md_timestamp_domain_identity d ∈ clock_identities s.
Proof.
  intros Hn Hc. unfold domain_placed. rewrite !andb_true_iff, !contains_identity_spec by done. tauto.
Qed.

Lemma node_kind_spec s n : NoDup (node_identities s) -> n ∈ snapshot_nodes s -> node_kind s (tn_identity n) = tn_kind n.
Proof. intros Hd Hn. unfold node_kind. by rewrite (find_key tn_identity) by done. Qed.

(** One link. *)
Definition link_wf (s : HalV2MemoryTopologySnapshot) (l : HalV2TopologyLink) : Prop :=
  link_shape l = true /\ (forall node, link_touches l node -> node ∈ node_identities s) /\
  (tl_source_node_identity l = tl_destination_node_identity l -> tl_kind l = link_local) /\
  (tl_kind l = link_peer ->
   forall n, n ∈ snapshot_nodes s -> link_touches l (tn_identity n) -> tn_kind n = node_peer_endpoint).

Definition peer_ends (s : HalV2MemoryTopologySnapshot) (l : HalV2TopologyLink) : bool :=
  negb (peer_link l) ||
  ((node_kind s (tl_source_node_identity l) =? node_peer_endpoint) &&
   (node_kind s (tl_destination_node_identity l) =? node_peer_endpoint)).

Lemma peer_ends_spec s l :
  NoDup (node_identities s) -> (forall node, link_touches l node -> node ∈ node_identities s) ->
  peer_ends s l = true <->
  (tl_kind l = link_peer ->
   forall n, n ∈ snapshot_nodes s -> link_touches l (tn_identity n) -> tn_kind n = node_peer_endpoint).
Proof.
  intros Hd He. unfold peer_ends, peer_link. rewrite orb_true_iff, negb_true_iff, andb_true_iff, !Z.eqb_eq, Z.eqb_neq.
  split.
  - intros [Hk|[Hs Ht]] Hp n Hn Hl; [done|]. rewrite <- (node_kind_spec s n) by done.
    destruct Hl as [<-|<-]; done.
  - intros Hp. destruct (decide (tl_kind l = link_peer)) as [Hk|]; [right | by left].
    specialize (Hp Hk).
    assert (Hkind : forall node, link_touches l node -> node_kind s node = node_peer_endpoint).
    { intros node Hl. pose proof (He node Hl) as (n & -> & Hn)%list_elem_of_fmap.
      rewrite node_kind_spec by done. by apply Hp. }
    split; apply Hkind; [by left | by right].
Qed.

Lemma link_valid_spec s l :
  identified (node_identities s) -> link_valid s l = true /\ peer_ends s l = true <-> link_wf s l.
Proof.
  intros [Hd Hz]. unfold link_wf.
  assert (Hv : link_valid s l = true <->
    link_shape l = true /\ (forall node, link_touches l node -> node ∈ node_identities s) /\
    (tl_source_node_identity l = tl_destination_node_identity l -> tl_kind l = link_local)).
  { unfold link_valid, link_shape, link_touches.
    rewrite !andb_true_iff, !contains_identity_spec, negb_true_iff, <- not_true_iff_false, andb_true_iff,
      negb_true_iff, !Z.eqb_eq, Z.eqb_neq by done.
    split.
    - intros (((((? & ?) & ?) & Hs) & Ht) & Hself). repeat split; try tauto.
      + intros node [<-|<-]; done.
      + intros Heq. destruct (decide (tl_kind l = link_local)); tauto.
    - intros (? & Hends & Hself). repeat split; try tauto; apply Hends; tauto. }
  rewrite Hv. split.
  - intros [(? & He & ?) Hp]. rewrite peer_ends_spec in Hp by done. done.
  - intros (? & He & ? & Hp). rewrite peer_ends_spec by done. done.
Qed.

Lemma same_link_key l other : same_link l other = true <-> link_key other = link_key l.
Proof.
  unfold same_link, link_key. rewrite !andb_true_iff, !Z.eqb_eq. split; [intros [[-> ->] ->]; done|].
  intros [= -> -> ->]. done.
Qed.

Lemma check_links_spec s prior links :
  identified (node_identities s) ->
  check_links s prior links = true <->
  (forall l, l ∈ links -> link_wf s l) /\ NoDup (link_key <$> links) /\
  (forall l, l ∈ links -> link_key l ∉ link_key <$> prior).
Proof.
  intros Hid. revert prior. induction links as [|l links IH]; intros prior; cbn [check_links].
  { split; [|done]. intros _. refine (conj _ (conj _ _)); [by intros ? ?%elem_of_nil | constructor | by intros ? ?%elem_of_nil]. }
  fold (peer_ends s l).
  assert (Hp : negb (existsb (same_link l) prior) = true <-> link_key l ∉ link_key <$> prior).
  { rewrite negb_true_iff, <- not_true_iff_false, existsb_elem_of. apply not_iff_compat.
    setoid_rewrite same_link_key. rewrite list_elem_of_fmap. split; intros (x & ? & ?); exists x; done. }
  rewrite !andb_true_iff, IH, Hp, fmap_cons, list.NoDup_cons.
  pose proof (link_valid_spec s l Hid) as Hl. rewrite fmap_app, fmap_cons, fmap_nil. split.
  - intros (((Hv & Hn) & Hpe) & Hall & Hd & Hpr). refine (conj _ (conj (conj _ _) _)).
    + intros x [->|Hx]%elem_of_cons; [tauto | by apply Hall].
    + intros (x & He & Hx)%list_elem_of_fmap. apply (Hpr x Hx). apply elem_of_app. right. rewrite <- He. by left.
    + done.
    + intros x [->|Hx]%elem_of_cons; [done|]. intros Hin. apply (Hpr x Hx). apply elem_of_app. by left.
  - intros (Hall & [Hln Hd] & Hpr). refine (conj (conj (conj _ _) _) (conj _ (conj _ _))); try done.
    + apply Hl, Hall. by left.
    + apply Hpr. by left.
    + apply Hl, Hall. by left.
    + intros x Hx. apply Hall. by right.
    + intros x Hx Hin. apply elem_of_app in Hin as [Hin|Hin].
      * apply (Hpr x); [by right | done].
      * apply list_elem_of_singleton in Hin. apply Hln. rewrite <- Hin. by apply list_elem_of_fmap_2.
Qed.

(** The division test is the product without overflow. *)
Lemma wrap_test ticks numerator :
  0 <= ticks -> 0 <= numerator ->
  negb (negb (ticks =? 0) && (u64_max / ticks <? numerator)) = true <-> ticks * numerator <= u64_max.
Proof.
  intros Ht Hn. rewrite negb_true_iff, <- not_true_iff_false, andb_true_iff, negb_true_iff, Z.eqb_neq, Z.ltb_lt.
  unfold u64_max. destruct (decide (ticks = 0)) as [->|Hz]; [lia|].
  assert (0 < ticks) by lia. split.
  - intros Hle. assert (numerator <= 18446744073709551615 / ticks) by (apply Z.nlt_ge; tauto).
    transitivity (ticks * (18446744073709551615 / ticks)); [nia | by apply Z.mul_div_le].
  - intros Hle [_ Hlt]. assert (numerator <= 18446744073709551615 / ticks); [|lia].
    apply Z.div_le_lower_bound; lia.
Qed.

Lemma clock_valid_spec s c :
  0 ∉ clock_identities s -> 0 <= td_wrap_ticks c -> 0 <= td_tick_numerator_ns c ->
  clock_valid s c = true <->
  clock_shape c = true /\ td_wrap_ticks c * td_tick_numerator_ns c <= u64_max /\
  (if td_supports_correlation c =? 0 then td_correlation_destination_identity c = 0
   else td_correlation_destination_identity c ∈ clock_identities s /\
        td_correlation_destination_identity c <> td_identity c).
Proof.
  intros Hz Ht Hn. unfold clock_valid, clock_shape. rewrite !andb_true_iff, wrap_test by done.
  pose proof (contains_identity_spec _ (td_correlation_destination_identity c) Hz) as Hc.
  destruct (td_supports_correlation c =? 0); cbn [negb andb].
  - rewrite negb_involutive, !Z.eqb_eq. tauto.
  - rewrite negb_orb, andb_true_iff, negb_involutive, Hc, !negb_true_iff, !Z.eqb_neq. tauto.
Qed.

Lemma peer_rules_spec s :
  Bool.eqb (existsb peer_domain (snapshot_domains s)) (existsb peer_link (snapshot_links s)) = true /\
  forallb (fun d => negb (peer_domain d) || domain_attached s d) (snapshot_domains s) = true <->
  (forall d, d ∈ snapshot_domains s -> md_kind d = domain_peer ->
     exists l, l ∈ snapshot_links s /\ tl_kind l = link_peer /\ link_touches l (md_topology_node_identity d)) /\
  (forall l, l ∈ snapshot_links s -> tl_kind l = link_peer ->
     exists d, d ∈ snapshot_domains s /\ md_kind d = domain_peer).
Proof.
  assert (Hd : existsb peer_domain (snapshot_domains s) = true <->
    exists d, d ∈ snapshot_domains s /\ md_kind d = domain_peer).
  { rewrite existsb_elem_of. unfold peer_domain. by setoid_rewrite Z.eqb_eq. }
  assert (Hl : existsb peer_link (snapshot_links s) = true <->
    exists l, l ∈ snapshot_links s /\ tl_kind l = link_peer).
  { rewrite existsb_elem_of. unfold peer_link. by setoid_rewrite Z.eqb_eq. }
  assert (Ha : forall d, domain_attached s d = true <->
    exists l, l ∈ snapshot_links s /\ tl_kind l = link_peer /\ link_touches l (md_topology_node_identity d)).
  { intros d. unfold domain_attached, peer_link, link_touches. rewrite existsb_elem_of.
    setoid_rewrite andb_true_iff. setoid_rewrite orb_true_iff. by setoid_rewrite Z.eqb_eq. }
  rewrite forallb_elem_of, eqb_true_iff. setoid_rewrite orb_true_iff. setoid_rewrite Ha. unfold peer_domain at 2.
  setoid_rewrite negb_true_iff. setoid_rewrite Z.eqb_neq. split.
  - intros [Heq Hall]. split.
    + intros d Hin Hk. destruct (Hall d Hin); done.
    + intros l Hin Hk. apply Hd. rewrite Heq. apply Hl. by exists l.
  - intros [Hdom Hlink]. split.
    + apply eq_true_iff_eq. rewrite Hd, Hl. split.
      * intros (d & Hin & Hk). destruct (Hdom d Hin Hk) as (l & ? & ? & _). by exists l.
      * intros (l & Hin & Hk). by apply (Hlink l).
    + intros d Hin. destruct (decide (md_kind d = domain_peer)) as [Hk|]; [right; by apply Hdom | by left].
Qed.

Lemma validate_wf s :
  clocks_typed s -> validate_memory_topology_snapshot s = true <-> topology_shape s /\ topology_wf s.
Proof.
  intros Hty. unfold validate_memory_topology_snapshot.
  rewrite !andb_true_iff, header_spec, !(forallb_elem_of _ (snapshot_nodes s)), !(forallb_elem_of (domain_placed s)),
    !(forallb_elem_of (clock_valid s)).
  split.
  - intros (((((((Hh & Hdom) & Hnodes) & Hlinks) & Hpeq) & Hpat) & Hclocks) & Hcomp).
    destruct Hh as (Hcounts & Hid & [Hnd Hnz] & Hil & [Hcd Hcz]).
    pose proof (proj1 (peer_rules_spec s) (conj Hpeq Hpat)) as [Hp1 Hp2].
    apply check_links_spec in Hlinks as (Hl & Hld & _); [|done].
    rewrite contains_identity_spec in Hcomp by done.
    assert (Hdom' : forall d, d ∈ snapshot_domains s -> _) by
      (intros d Hd; exact (proj1 (domain_placed_spec s d Hnz Hcz) (Hdom d Hd))).
    assert (Hck : forall c, c ∈ snapshot_clocks s -> _) by
      (intros c Hc; exact (proj1 (clock_valid_spec s c Hcz (proj1 (Hty c Hc)) (proj2 (Hty c Hc))) (Hclocks c Hc))).
    split; constructor; try done.
    + intros d Hd. by apply Hdom'.
    + intros l Hin. by apply Hl.
    + intros c Hc. by apply Hck.
    + intros d Hd. by apply Hdom'.
    + intros l node Hin Ht. by apply (Hl l Hin).
    + intros l Hin. by apply Hl.
    + intros l n Hin Hk Hn Ht. by eapply (Hl l Hin).
    + intros c Hc. by apply Hck.
    + intros c Hc. by apply Hck.
  - intros [[Hcounts Hsd Hsn Hsl Hsc] W]. pose proof (wf_node_identities s W) as [Hnd Hnz].
    pose proof (wf_clock_identities s W) as [Hcd Hcz].
    pose proof (proj2 (peer_rules_spec s) (conj (wf_peer_domains s W) (wf_peer_used s W))) as [Hpeq Hpat].
    refine (conj (conj (conj (conj (conj (conj (conj _ _) _) _) Hpeq) Hpat) _) _).
    + by destruct W.
    + intros d Hd. apply domain_placed_spec; try done. split; [by apply Hsd | by apply W].
    + done.
    + apply check_links_spec; [done|]. refine (conj _ (conj (wf_links_distinct s W) _)).
      * intros l Hl. refine (conj (Hsl l Hl) (conj _ (conj (wf_self_links s W l Hl) _))).
        -- intros node. by apply (wf_link_ends s W).
        -- intros Hk n Hn. by apply (wf_peer_links s W).
      * intros l _. by intros ?%elem_of_nil.
    + intros c Hc. destruct (Hty c Hc). apply clock_valid_spec; try done.
      refine (conj (Hsc c Hc) (conj _ _)); [by apply (wf_clock_wrap s W) | by apply (wf_clock_correlation s W)].
    + rewrite contains_identity_spec by done. apply W.
Qed.

(** ** Discovery *)

Definition discovery_typed (extension : HalV2MemoryTopologyExtension) : Prop :=
  forall discover status candidate,
    te_discover extension = Some discover -> discover discovery_request = Some (status, candidate) ->
    clocks_typed candidate.

(** What discovery may hand to the runtime. *)
Definition discovered (extension : HalV2MemoryTopologyExtension) (state : HeterogeneousMemoryState) : Prop :=
  validate_memory_topology_extension extension = true /\
  exists discover snapshot,
    te_discover extension = Some discover /\ discover discovery_request = Some (hal_ok, snapshot) /\
    topology_shape snapshot /\ topology_wf snapshot /\ state = mkMemoryState true extension snapshot.

Lemma hal_status_ok status : hal_v2_status_to_runtime status = ok <-> status = hal_ok.
Proof. by destruct status. Qed.

Lemma discover_cases extension :
  discovery_typed extension ->
  let '(status, output) := discover_memory_topology extension in
  (status = ok /\ discovered extension output) \/
  (status <> ok /\ output = memory_state_default /\ forall state, ~ discovered extension state).
Proof.
  intros Hty. unfold discover_memory_topology, discovered.
  destruct (validate_memory_topology_extension extension) eqn:Hv; cbn [negb];
    [|right; refine (conj _ (conj _ _)); [done | done | by intros state [? _]]].
  destruct (te_discover extension) as [discover|] eqn:Hd;
    [|right; refine (conj _ (conj _ _)); [done | done | by intros state (_ & f & x & ? & _)]].
  destruct (discover discovery_request) as [[status candidate]|] eqn:Hc;
    [|right; refine (conj _ (conj _ _)); [done | done |]; intros state (_ & f & x & [= <-] & He & _); congruence].
  specialize (Hty discover status candidate Hd Hc).
  destruct (decide (hal_v2_status_to_runtime status = ok)) as [Hs|Hs].
  - rewrite bool_decide_true by done. cbn [negb]. apply hal_status_ok in Hs as ->.
    pose proof (validate_wf candidate Hty) as Hw.
    destruct (validate_memory_topology_snapshot candidate); cbn [negb].
    + left. destruct (proj1 Hw eq_refl). by eauto 10.
    + right. refine (conj _ (conj _ _)); [done | done |]. intros state (_ & f & x & [= <-] & He & Hx & Hx' & _).
      assert (x = candidate) as -> by congruence. by discriminate (proj2 Hw (conj Hx Hx')).
  - rewrite bool_decide_false by done. cbn [negb]. right. refine (conj _ (conj _ _)); [done | done |].
    intros state (_ & f & x & [= <-] & He & _). assert (status = hal_ok) as -> by congruence. done.
Qed.

(** Lookups by identity are exact on a well-formed topology. *)
Lemma find_memory_domain_exact state identity d :
  topology_wf (ms_snapshot state) ->
  find_memory_domain state identity = Some d <-> d ∈ snapshot_domains (ms_snapshot state) /\ md_identity d = identity.
Proof.
  intros W. unfold find_memory_domain. split; [apply (find_key_some md_identity)|].
  intros [Hd <-]. apply (find_key md_identity); [apply (wf_domain_identities _ W) | done].
Qed.

Lemma find_timestamp_domain_exact state identity c :
  topology_wf (ms_snapshot state) ->
  find_timestamp_domain state identity = Some c <-> c ∈ snapshot_clocks (ms_snapshot state) /\ td_identity c = identity.
Proof.
  intros W. unfold find_timestamp_domain. split; [apply (find_key_some td_identity)|].
  intros [Hd <-]. apply (find_key td_identity); [apply (wf_clock_identities _ W) | done].
Qed.

Lemma clock_resolves state identity :
  topology_wf (ms_snapshot state) -> identity ∈ clock_identities (ms_snapshot state) ->
  exists c, find_timestamp_domain state identity = Some c /\ td_identity c = identity.
Proof.
  intros W (c & -> & Hc)%list_elem_of_fmap. exists c. by rewrite find_timestamp_domain_exact.
Qed.

(** A host state stands for a backend without the extension: every access is served. *)
Lemma implicit_host_serves capabilities access :
  valid_memory_access access = true ->
  find_legacy_host_domain (make_implicit_host_memory_state capabilities) access =
  find_memory_domain (make_implicit_host_memory_state capabilities) 1.
Proof.
  unfold valid_memory_access. intros [_ Ha]%andb_true_iff.
  assert (Hf : forall l d, legacy_host_domain access d = true -> md_identity d = 1 ->
    find (legacy_host_domain access) (d :: l) = find (fun x => md_identity x =? 1) (d :: l)).
  { intros l d H1 H2. cbn [find]. by rewrite H1, H2. }
  apply Hf; [|done]. unfold legacy_host_domain. cbn -[Z.land Z.lnot kAccessAll]. by rewrite Ha.
Qed.


(** A host domain and a peer domain on two linked peer endpoints, with a device clock that
    correlates to the runtime's. *)
Module TopologyExample.
Definition domain (identity kind ownership access coherency node clock : Z) : HalV2MemoryDomain :=
  mkMemoryDomain sizeof_memory_domain 1 identity kind ownership 4096 64 64 64 access coherency 0 0 node clock
    (replicate 4 0).
Definition node (identity kind : Z) : HalV2TopologyNode := mkTopologyNode sizeof_topology_node 1 identity kind 0 (replicate 4 0).
Definition clock (identity kind supports destination : Z) : HalV2TimestampDomain :=
  mkTimestampDomain sizeof_timestamp_domain 1 identity kind 0 1 1 4294967296 destination 1 0 supports 0 0 (replicate 4 0).
Definition snapshot : HalV2MemoryTopologySnapshot :=
  mkTopologySnapshot sizeof_topology_snapshot 1 2 3 1 2 1
    [domain 1 domain_host 1 15 coherency_host_coherent 1 1; domain 2 domain_peer 2 12 coherency_device_only 2 2]
    [node 1 node_host; node 2 node_peer_endpoint; node 3 node_peer_endpoint]
    [mkTopologyLink sizeof_topology_link 1 1 2 3 link_peer 0 (replicate 4 0)]
    [clock 1 timestamp_runtime_monotonic 0 0; clock 2 timestamp_external 1 1] (replicate 8 0).
Definition extension : HalV2MemoryTopologyExtension :=
  mkTopologyExtension sizeof_memory_extension 1 true (Some (fun _ => Some (hal_ok, snapshot))) true true true (replicate 8 0).
End TopologyExample.

