(* ===== verification/LoopbackBackend.v ===== *)
(** * The loopback backend (rt/src/loopback_backend.cpp, rt/include/rt/loopback_backend.hpp)

    The deterministic HAL v2 backend that copies sampled-I/O frames from one channel to
    another.  This file holds its data, its routes, the execution of a batch and the
    operations that run while no callback is active; LoopbackCalls interleaves the calls
    that may run together.  Host memory is a list of bytes indexed by address; a buffer is
    an address and a size.  The logical-action ring is the sequence ring of SeqRing; the
    statistics SeqRing keeps have no counterpart here and are not read. *)

From stdpp Require Import base list numbers.
From Stdlib Require Import ZArith Lia Bool.
From S2P Require Import Prelude CanonicalBytes SnapshotCodec DeviceCommands SeqRing RecordLayout SampledIo HalV2 HeterogeneousMemory.

Local Open Scope Z_scope.

(** ** Constants *)

Definition sampled_io_loopback_capacity : nat := 16.

Definition kFree : Z := 0.
Definition kOwned : Z := 1.
Definition kReady : Z := 2.
Definition kHeld : Z := 3.

Definition kKnownAccess : Z := kAccessAll.

(** [SampledIoLoopbackFault] *)
Definition fault_none : Z := 0.
Definition fault_reject_submission : Z := 1.
Definition fault_malformed_sequence : Z := 2.
Definition fault_completion_error : Z := 3.
Definition fault_completion_timeout : Z := 4.
Definition fault_completion_lost : Z := 5.

(** [sizeof(Impl)] and [sizeof(Impl::slots)] on the 64-bit targets *)
Definition sizeof_loopback : Z := 11712.
Definition sizeof_loopback_slots : Z := 7936.

Definition add_overflows (left right : Z) : bool := u64_max - right <? left.

(** ** Structures *)

Record SampledIoLoopbackConfig : Set := mkLoopbackConfig {
  lc_queue_capacity : Z;
  lc_buffer_capacity : Z;
  lc_maximum_buffer_bytes : Z;
  lc_memory_domain_identity : Z;
  lc_timestamp_domain_identity : Z;
}.

Record SampledIoLoopbackRoute : Set := mkRoute {
  rt_opcode : Z;
  rt_source_channel_identity : Z;
  rt_destination_channel_identity : Z;
  rt_destination_timestamp_domain_identity : Z;
  rt_destination_calibration_identity : Z;
  rt_destination_trigger_identity : Z;
}.

Record SampledIoLoopbackStats : Set := mkLoopbackStats {
  st_submissions : Z;
  st_completions : Z;
  st_cancellations : Z;
  st_rejected : Z;
  st_frames_copied : Z;
  st_logical_actions : Z;
}.

Record SampledIoLoopbackLogicalAction : Set := mkLogicalAction {
  lg_sequence : Z;
  lg_batch_id : Z;
  lg_device_timestamp : Z;
  lg_content_identity : Z;
  lg_opcode : Z;
  lg_status : Z;
  lg_fault : Z;
  lg_command_count : Z;
  lg_reserved : list Z;
}.

(** [Impl::Buffer]; [None] is a null pointer *)
Record LoopbackBuffer : Set := mkLoopbackBuffer {
  lu_data : option nat;
  lu_bytes : Z;
  lu_occupied : bool;
}.

(** [Impl::Slot] *)
Record CompletionSlot : Set := mkCompletionSlot {
  cs_state : Z;
  cs_completion : HalV2BatchCompletion;
}.

(** ** Logical actions *)

Definition logical_action_layout : list nat := ([8; 8; 8; 8; 4; 4; 1; 1] ++ replicate 22 1)%nat.

Definition logical_action_fields (a : SampledIoLoopbackLogicalAction) : list Z :=
  [lg_sequence a; lg_batch_id a; lg_device_timestamp a; lg_content_identity a; lg_opcode a;
   i32_bits (lg_status a); lg_fault a; lg_command_count a] ++ lg_reserved a.

Definition logical_action_of_fields (f : list Z) : SampledIoLoopbackLogicalAction :=
  mkLogicalAction (f !!! 0%nat) (f !!! 1%nat) (f !!! 2%nat) (f !!! 3%nat) (f !!! 4%nat)
    (bits_i32 (f !!! 5%nat)) (f !!! 6%nat) (f !!! 7%nat) (take 22 (drop 8 f)).

(** [std::bit_cast] to the eight words of a slot and back *)
Definition logical_action_to_words (a : SampledIoLoopbackLogicalAction) : list Z :=
  bytes_to_words 8 (pack logical_action_layout (logical_action_fields a)).

Definition logical_action_of_words (words : list Z) : SampledIoLoopbackLogicalAction :=
  logical_action_of_fields (unpack logical_action_layout (words_to_bytes words)).

Definition set_logical_sequence (sequence : Z) (a : SampledIoLoopbackLogicalAction) : SampledIoLoopbackLogicalAction :=
  mkLogicalAction sequence (lg_batch_id a) (lg_device_timestamp a) (lg_content_identity a) (lg_opcode a)
    (lg_status a) (lg_fault a) (lg_command_count a) (lg_reserved a).

(** The ring of [LogicalActionSlot]s: a weak exchange loop reserves the number, every
    record is admitted, and a reader checks the number inside the record. *)
#[export] Instance logical_action_record : RingRecord SampledIoLoopbackLogicalAction := {|
  reservation := reserve_weak_loop;
  word_count := 8;
  initial_words := replicate 8 0;
  slot_size := 128;
  capacity_limit := Z.of_nat sampled_io_loopback_capacity;
  stamp := set_logical_sequence;
  to_words := logical_action_to_words;
  of_words := fun _ => logical_action_of_words;
  admissible := fun _ => true;
  acceptable := fun sequence candidate => lg_sequence candidate =? sequence;
|}.

Definition fnv_offset : Z := 14695981039346656037.

(** The lambda [mix]: the eight bytes of a value, the lowest first. *)
Definition mix (hash value : Z) : Z := foldl fnv_step hash (le_split 8 value).

(** The action [record_logical_action] stores, before it has its number. *)
Definition logical_action (batch : DeviceCommandBatch) (fault : Z) (status : HalV2Status) (device_timestamp : Z)
    : SampledIoLoopbackLogicalAction :=
  let opcode := if bt_command_count batch =? 0 then 0 else default 0 (dc_opcode <$> head (bt_commands batch)) in
  let code := hal_status_code status in
  let identity := foldl mix fnv_offset [bt_batch_id batch; device_timestamp; opcode; u32 code; fault] in
  mkLogicalAction 0 (bt_batch_id batch) device_timestamp identity opcode code fault (bt_command_count batch mod 256)
    (replicate 22 0).

(** ** State *)

Record Loopback := mkLoopback {
  lb_config : SampledIoLoopbackConfig;
  lb_valid_config : bool;
  lb_buffers : list LoopbackBuffer;
  lb_slots : list CompletionSlot;
  lb_routes : list SampledIoLoopbackRoute;
  lb_registration_published : bool;
  lb_initialized : bool;
  lb_accepting : bool;
  lb_timestamp : Z;
  lb_submissions : Z;
  lb_completions : Z;
  lb_cancellations : Z;
  lb_rejected : Z;
  lb_frames_copied : Z;
  lb_logical_actions : Ring;
  lb_next_fault : Z;
}.

Definition with_buffers (v : list LoopbackBuffer) (b : Loopback) : Loopback :=
  mkLoopback (lb_config b) (lb_valid_config b) v (lb_slots b) (lb_routes b) (lb_registration_published b)
    (lb_initialized b) (lb_accepting b) (lb_timestamp b) (lb_submissions b) (lb_completions b)
    (lb_cancellations b) (lb_rejected b) (lb_frames_copied b) (lb_logical_actions b) (lb_next_fault b).

Definition with_slots (v : list CompletionSlot) (b : Loopback) : Loopback :=
  mkLoopback (lb_config b) (lb_valid_config b) (lb_buffers b) v (lb_routes b) (lb_registration_published b)
    (lb_initialized b) (lb_accepting b) (lb_timestamp b) (lb_submissions b) (lb_completions b)
    (lb_cancellations b) (lb_rejected b) (lb_frames_copied b) (lb_logical_actions b) (lb_next_fault b).

Definition with_routes (v : list SampledIoLoopbackRoute) (b : Loopback) : Loopback :=
  mkLoopback (lb_config b) (lb_valid_config b) (lb_buffers b) (lb_slots b) v (lb_registration_published b)
    (lb_initialized b) (lb_accepting b) (lb_timestamp b) (lb_submissions b) (lb_completions b)
    (lb_cancellations b) (lb_rejected b) (lb_frames_copied b) (lb_logical_actions b) (lb_next_fault b).

Definition with_registration_published (v : bool) (b : Loopback) : Loopback :=
  mkLoopback (lb_config b) (lb_valid_config b) (lb_buffers b) (lb_slots b) (lb_routes b) v (lb_initialized b)
    (lb_accepting b) (lb_timestamp b) (lb_submissions b) (lb_completions b) (lb_cancellations b)
    (lb_rejected b) (lb_frames_copied b) (lb_logical_actions b) (lb_next_fault b).

Definition with_initialized (v : bool) (b : Loopback) : Loopback :=
  mkLoopback (lb_config b) (lb_valid_config b) (lb_buffers b) (lb_slots b) (lb_routes b)
    (lb_registration_published b) v (lb_accepting b) (lb_timestamp b) (lb_submissions b) (lb_completions b)
    (lb_cancellations b) (lb_rejected b) (lb_frames_copied b) (lb_logical_actions b) (lb_next_fault b).

Definition with_accepting (v : bool) (b : Loopback) : Loopback :=
  mkLoopback (lb_config b) (lb_valid_config b) (lb_buffers b) (lb_slots b) (lb_routes b)
    (lb_registration_published b) (lb_initialized b) v (lb_timestamp b) (lb_submissions b) (lb_completions b)
    (lb_cancellations b) (lb_rejected b) (lb_frames_copied b) (lb_logical_actions b) (lb_next_fault b).

Definition with_timestamp (v : Z) (b : Loopback) : Loopback :=
  mkLoopback (lb_config b) (lb_valid_config b) (lb_buffers b) (lb_slots b) (lb_routes b)
    (lb_registration_published b) (lb_initialized b) (lb_accepting b) v (lb_submissions b) (lb_completions b)
    (lb_cancellations b) (lb_rejected b) (lb_frames_copied b) (lb_logical_actions b) (lb_next_fault b).

Definition count_submission  (b : Loopback) : Loopback :=
  mkLoopback (lb_config b) (lb_valid_config b) (lb_buffers b) (lb_slots b) (lb_routes b)
    (lb_registration_published b) (lb_initialized b) (lb_accepting b) (lb_timestamp b)
    (u64 (lb_submissions b + 1)) (lb_completions b) (lb_cancellations b) (lb_rejected b) (lb_frames_copied b)
    (lb_logical_actions b) (lb_next_fault b).

Definition count_completion  (b : Loopback) : Loopback :=
  mkLoopback (lb_config b) (lb_valid_config b) (lb_buffers b) (lb_slots b) (lb_routes b)
    (lb_registration_published b) (lb_initialized b) (lb_accepting b) (lb_timestamp b) (lb_submissions b)
    (u64 (lb_completions b + 1)) (lb_cancellations b) (lb_rejected b) (lb_frames_copied b)
    (lb_logical_actions b) (lb_next_fault b).

Definition count_cancellation  (b : Loopback) : Loopback :=
  mkLoopback (lb_config b) (lb_valid_config b) (lb_buffers b) (lb_slots b) (lb_routes b)
    (lb_registration_published b) (lb_initialized b) (lb_accepting b) (lb_timestamp b) (lb_submissions b)
    (lb_completions b) (u64 (lb_cancellations b + 1)) (lb_rejected b) (lb_frames_copied b)
    (lb_logical_actions b) (lb_next_fault b).

Definition count_rejected  (b : Loopback) : Loopback :=
  mkLoopback (lb_config b) (lb_valid_config b) (lb_buffers b) (lb_slots b) (lb_routes b)
    (lb_registration_published b) (lb_initialized b) (lb_accepting b) (lb_timestamp b) (lb_submissions b)
    (lb_completions b) (lb_cancellations b) (u64 (lb_rejected b + 1)) (lb_frames_copied b)
    (lb_logical_actions b) (lb_next_fault b).

Definition with_frames_copied (v : Z) (b : Loopback) : Loopback :=
  mkLoopback (lb_config b) (lb_valid_config b) (lb_buffers b) (lb_slots b) (lb_routes b)
    (lb_registration_published b) (lb_initialized b) (lb_accepting b) (lb_timestamp b) (lb_submissions b)
    (lb_completions b) (lb_cancellations b) (lb_rejected b) v (lb_logical_actions b) (lb_next_fault b).

Definition with_logical_actions (v : Ring) (b : Loopback) : Loopback :=
  mkLoopback (lb_config b) (lb_valid_config b) (lb_buffers b) (lb_slots b) (lb_routes b)
    (lb_registration_published b) (lb_initialized b) (lb_accepting b) (lb_timestamp b) (lb_submissions b)
    (lb_completions b) (lb_cancellations b) (lb_rejected b) (lb_frames_copied b) v (lb_next_fault b).

Definition with_next_fault (v : Z) (b : Loopback) : Loopback :=
  mkLoopback (lb_config b) (lb_valid_config b) (lb_buffers b) (lb_slots b) (lb_routes b)
    (lb_registration_published b) (lb_initialized b) (lb_accepting b) (lb_timestamp b) (lb_submissions b)
    (lb_completions b) (lb_cancellations b) (lb_rejected b) (lb_frames_copied b) (lb_logical_actions b) v.

(** ** Value-initialised structures *)

Definition empty_buffer : LoopbackBuffer := mkLoopbackBuffer None 0 false.

Definition free_slot : CompletionSlot := mkCompletionSlot kFree default_completion.

(** [Impl(config)] *)
Definition loopback_create (config : SampledIoLoopbackConfig) : Loopback :=
  let valid :=
    negb (lc_queue_capacity config =? 0) &&
    (lc_queue_capacity config <=? Z.of_nat sampled_io_loopback_capacity) &&
    negb (lc_buffer_capacity config =? 0) &&
    (lc_buffer_capacity config <=? Z.of_nat sampled_io_loopback_capacity) &&
    negb (lc_maximum_buffer_bytes config =? 0) && negb (lc_memory_domain_identity config =? 0) &&
    negb (lc_timestamp_domain_identity config =? 0) in
  mkLoopback config valid (replicate sampled_io_loopback_capacity empty_buffer)
    (replicate sampled_io_loopback_capacity free_slot) [] false false false 0 0 0 0 0 0
    (mkRing (replicate sampled_io_loopback_capacity (empty_slot (record := SampledIoLoopbackLogicalAction))) 0 0 0 0)
    fault_none.

(** ** Routes *)

Definition route_valid (r : SampledIoLoopbackRoute) : bool :=
  negb ((rt_opcode r =? 0) || (rt_source_channel_identity r =? 0) || (rt_destination_channel_identity r =? 0) ||
        (rt_destination_timestamp_domain_identity r =? 0) || (rt_destination_calibration_identity r =? 0) ||
        (rt_destination_trigger_identity r =? 0)).

Definition add_route (r : SampledIoLoopbackRoute) (b : Loopback) : Loopback * Status :=
  if negb (lb_valid_config b) || lb_registration_published b || lb_initialized b then (b, invalid_state)
  else if negb (route_valid r) then (b, invalid_argument)
  else if (sampled_io_loopback_capacity <=? length (lb_routes b))%nat then (b, capacity_exceeded)
  else if existsb (fun other => rt_opcode other =? rt_opcode r) (lb_routes b) then (b, invalid_argument)
  else (with_routes (lb_routes b ++ [r]) b, ok).

Definition route (routes : list SampledIoLoopbackRoute) (opcode : Z) : option SampledIoLoopbackRoute :=
  find (fun r => rt_opcode r =? opcode) routes.

(** The inner loop of [route_identity]: the least opcode above the previous one. *)
Definition select_route (routes : list SampledIoLoopbackRoute) (previous_opcode : Z) : option SampledIoLoopbackRoute :=
  foldl (fun selected r =>
           if (previous_opcode <? rt_opcode r) &&
              match selected with None => true | Some s => rt_opcode r <? rt_opcode s end
           then Some r else selected) None routes.

Definition mix_route (hash : Z) (r : SampledIoLoopbackRoute) : Z :=
  foldl mix hash [rt_opcode r; rt_source_channel_identity r; rt_destination_channel_identity r;
    rt_destination_timestamp_domain_identity r; rt_destination_calibration_identity r;
    rt_destination_trigger_identity r].

Fixpoint route_identity_loop (routes : list SampledIoLoopbackRoute) (ordinals : nat) (previous_opcode hash : Z) : Z :=
  match ordinals with
  | O => hash
  | S rest =>
      match select_route routes previous_opcode with
      | None => hash
      | Some r => route_identity_loop routes rest (rt_opcode r) (mix_route hash r)
      end
  end.

Definition route_identity (routes : list SampledIoLoopbackRoute) : Z :=
  route_identity_loop routes (length routes) 0 (mix fnv_offset (Z.of_nat (length routes))).

(** ** Operations of the backend table *)

(** "sampled_io.loopback." *)
Definition backend_prefix : list Z :=
  [115; 97; 109; 112; 108; 101; 100; 95; 105; 111; 46; 108; 111; 111; 112; 98; 97; 99; 107; 46].

(** [digits]: "0123456789abcdef" *)
Definition hex_digit (value : Z) : Z := if value <? 10 then 48 + value else 87 + value.

Definition backend_id (identity : Z) : list Z :=
  backend_prefix ++
  ((fun index => hex_digit (Z.land (Z.shiftr identity ((15 - Z.of_nat index) * 4)) 15)) <$> seq 0 16) ++
  replicate 28 0.

Definition loopback_get_capabilities (b : Loopback) : option HalCapabilities :=
  if negb (lb_valid_config b) then None
  else Some (mkHalCapabilities sizeof_hal_capabilities hal_v2_api_version (lc_queue_capacity (lb_config b))
    (lc_buffer_capacity (lb_config b)) (lc_maximum_buffer_bytes (lb_config b))
    (Z.of_nat hal_v2_inline_payload_capacity) (Z.of_nat hal_v2_buffer_ref_capacity) 1 1 1 0
    (backend_id (route_identity (lb_routes b))) sizeof_loopback (replicate 4 0)).

Definition loopback_initialize (request : HalInitializeConfig) (b : Loopback) : Loopback * HalV2Status :=
  if negb (lb_valid_config b) || (lc_queue_capacity (lb_config b) <? hi_requested_in_flight request) ||
     (lc_buffer_capacity (lb_config b) <? hi_requested_registered_buffers request)
  then (b, hal_invalid_argument)
  else (with_initialized true (with_accepting true b), hal_ok).

(** The first free one of the first [count] buffers. *)
Fixpoint free_buffer (index count : nat) (buffers : list LoopbackBuffer) : option nat :=
  match count, buffers with
  | S count, slot :: rest => if lu_occupied slot then free_buffer (S index) count rest else Some index
  | _, _ => None
  end.

(** The new state, the token written and the status. *)
Definition loopback_register_buffer (registration : HalBufferRegistration) (b : Loopback) : Loopback * Z * HalV2Status :=
  if negb (is_set (hb_data registration)) || (hb_bytes registration =? 0) ||
     (lc_maximum_buffer_bytes (lb_config b) <? hb_bytes registration) ||
     negb (Z.land (hb_flags registration) (Z.lnot kKnownAccess) =? 0)
  then (b, 0, hal_invalid_argument)
  else
    match free_buffer 0 (Z.to_nat (lc_buffer_capacity (lb_config b))) (lb_buffers b) with
    | Some index =>
        (with_buffers (<[index := mkLoopbackBuffer (hb_data registration) (hb_bytes registration) true]> (lb_buffers b)) b,
         Z.of_nat index + 1, hal_ok)
    | None => (b, 0, hal_resource_exhausted)
    end.

Definition buffer_at (b : Loopback) (token : Z) : LoopbackBuffer :=
  default empty_buffer (lb_buffers b !! Z.to_nat (token - 1)).

Definition loopback_unregister_buffer (token : Z) (b : Loopback) : Loopback * HalV2Status :=
  if (token =? 0) || (lc_buffer_capacity (lb_config b) <? token) || negb (lu_occupied (buffer_at b token))
  then (b, hal_invalid_argument)
  else (with_buffers (<[Z.to_nat (token - 1) := empty_buffer]> (lb_buffers b)) b, hal_ok).

Definition loopback_health (b : Loopback) (submissions completions rejected cancellations : Z) (initialized : bool) : HalHealth :=
  mkHalHealth sizeof_hal_health (if initialized then 1 else 0) 0 0 0 submissions completions rejected 0 0 0
    cancellations 0 (u64 (submissions - completions)) (replicate 4 0).

Definition loopback_get_health (b : Loopback) : HalHealth :=
  loopback_health b (lb_submissions b) (lb_completions b) (lb_rejected b) (lb_cancellations b) (lb_initialized b).

Definition loopback_reset (b : Loopback) : Loopback * HalV2Status :=
  (with_accepting true (with_slots ((fun s => mkCompletionSlot kFree (cs_completion s)) <$> lb_slots b) b), hal_ok).

Definition loopback_shutdown (b : Loopback) : Loopback * HalV2Status :=
  (with_initialized false (with_accepting false b), hal_ok).

(** [submit], [poll], [cancel]: single submissions are not offered. *)
Definition loopback_submit (b : Loopback) : Loopback * HalV2Status := (b, hal_unsupported).
Definition loopback_poll (b : Loopback) : Loopback * Z * HalV2Status := (b, 0, hal_ok).
Definition loopback_cancel (b : Loopback) : Loopback * HalV2Status := (b, hal_unsupported).

(** ** Memory extension *)

Definition loopback_discover_memory (b : Loopback) (output : HalV2MemoryTopologySnapshot)
    : HalV2Status * HalV2MemoryTopologySnapshot :=
  if ts_struct_size output <? sizeof_topology_snapshot then (hal_invalid_argument, output)
  else
    let d := topology_snapshot_default in
    let clock := lc_timestamp_domain_identity (lb_config b) in
    let domain :=
      mkMemoryDomain sizeof_memory_domain hal_v2_memory_topology_extension_version
        (lc_memory_domain_identity (lb_config b)) domain_host hal_v2_memory_ownership_borrowed_host
        (lc_maximum_buffer_bytes (lb_config b)) 1 1 1 kKnownAccess coherency_host_coherent 0 0 1 clock (replicate 4 0) in
    let node := mkTopologyNode sizeof_topology_node hal_v2_memory_topology_extension_version 1 node_host 0 (replicate 4 0) in
    let timestamp :=
      mkTimestampDomain sizeof_timestamp_domain hal_v2_memory_topology_extension_version clock
        timestamp_runtime_monotonic 0 1 1 0 0 1 0 0 0 0 (replicate 4 0) in
    (hal_ok,
     mkTopologySnapshot (ts_struct_size d) (ts_extension_version d) 1 1 0 1 clock
       (<[0%nat := domain]> (ts_memory_domains d)) (<[0%nat := node]> (ts_topology_nodes d)) (ts_topology_links d)
       (<[0%nat := timestamp]> (ts_timestamp_domains d)) (ts_reserved d)).

(** The new state, [token->submission_token] and the status; [borrowed_host] is 1. *)
Definition loopback_register_memory (registration : HalV2MemoryRegistration) (b : Loopback) : Loopback * Z * HalV2Status :=
  if negb (mr_domain_identity registration =? lc_memory_domain_identity (lb_config b)) ||
     negb (mr_ownership registration =? 1) || negb (mr_coherency registration =? coherency_host_coherent) ||
     negb (mr_synchronization registration =? hal_v2_memory_sync_none)
  then (b, 0, hal_invalid_argument)
  else
    loopback_register_buffer
      (mkHalBufferRegistration sizeof_hal_buffer_registration (mr_access registration) (mr_host_data registration)
         (mr_bytes registration) (mr_name registration) (replicate 4 0)) b.

Definition loopback_unregister_memory (submission_token : Z) (b : Loopback) : Loopback * HalV2Status :=
  loopback_unregister_buffer submission_token b.

(** ** Command extension *)

Definition loopback_command_capabilities (b : Loopback) : HalV2CommandTimelineCapabilities :=
  mkCapabilities sizeof_capabilities hal_v2_command_timeline_extension_version (lc_queue_capacity (lb_config b))
    (Z.of_nat hal_v2_command_capacity) (Z.of_nat hal_v2_timeline_wait_capacity)
    (Z.of_nat hal_v2_timeline_signal_capacity) (Z.of_nat hal_v2_timeline_capacity)
    (lc_queue_capacity (lb_config b)) sizeof_loopback_slots (replicate 8 0).

(** [hal_v2_registration]: the extension tables, published once the configuration is valid. *)
Definition loopback_memory_extension (b : Loopback) : HalV2MemoryTopologyExtension :=
  mkTopologyExtension sizeof_memory_extension hal_v2_memory_topology_extension_version true
    (Some (fun output => Some (loopback_discover_memory b output))) true true true (replicate 8 0).

Definition loopback_command_extension (b : Loopback) : HalV2CommandTimelineExtension :=
  mkExtension sizeof_extension hal_v2_command_timeline_extension_version true
    (Some (Some (hal_ok, loopback_command_capabilities b))) true true true true (replicate 8 0).

Definition hal_v2_registration (b : Loopback)
    : Loopback * option (HalV2MemoryTopologyExtension * HalV2CommandTimelineExtension) :=
  if lb_valid_config b
  then (with_registration_published true b, Some (loopback_memory_extension b, loopback_command_extension b))
  else (b, None).

(** ** Execution of a batch *)

Definition read_span (memory : list Z) (address : nat) (size : nat) : list Z := take size (drop address memory).

Definition write_span (memory : list Z) (address : nat) (bytes : list Z) : list Z :=
  take address memory ++ bytes ++ drop (address + length bytes) memory.

(** The address and size of a reference. *)
Definition resolve (b : Loopback) (reference : HalV2BufferReference) : HalV2Status + (nat * nat) :=
  if (br_buffer_token reference =? 0) || (lc_buffer_capacity (lb_config b) <? br_buffer_token reference)
  then inl hal_invalid_argument
  else
    let buffer := buffer_at b (br_buffer_token reference) in
    if negb (lu_occupied buffer) then inl hal_invalid_state
    else if add_overflows (br_offset reference) (br_bytes reference) ||
            (lu_bytes buffer <? br_offset reference + br_bytes reference)
    then inl hal_resource_exhausted
    else inr ((default 0%nat (lu_data buffer) + Z.to_nat (br_offset reference))%nat, Z.to_nat (br_bytes reference)).

(** [memcpy] of the header *)
Definition header_of (bytes : list Z) : SampledIoFrameHeader :=
  sampled_header_of_fields (unpack sampled_header_layout (take sampled_header_size bytes)).

Definition header_bytes (h : SampledIoFrameHeader) : list Z := pack sampled_header_layout (sampled_header_fields h).

Definition has_runtime_correlation (selected : SampledIoLoopbackRoute) (header template : SampledIoFrameHeader) : bool :=
  (sh_struct_size template =? Z.of_nat sampled_header_size) && (sh_version template =? sampled_io_frame_version) &&
  (sh_channel_identity template =? rt_destination_channel_identity selected) &&
  (sh_sample_count template =? sh_sample_count header) && (sh_encoding template =? sh_encoding header) &&
  (sh_timestamp_domain_identity template =? rt_destination_timestamp_domain_identity selected) &&
  (sh_sample_interval_ns template =? sh_sample_interval_ns header) &&
  (sh_trigger_identity template =? rt_destination_trigger_identity selected) &&
  (sh_calibration_identity template =? rt_destination_calibration_identity selected) &&
  (sh_status template =? status_produced) && negb (sh_sequence template =? 0) &&
  negb (sh_release_generation template =? 0) && (sh_trigger_sequence template =? sh_sequence template).

(** The header of the destination frame. *)
Definition routed_header (selected : SampledIoLoopbackRoute) (header template : SampledIoFrameHeader)
    (completion_timestamp fault : Z) : SampledIoFrameHeader :=
  let correlated := has_runtime_correlation selected header template in
  let sequence := if correlated then sh_sequence template else sh_sequence header in
  mkSampledHeader (sh_struct_size header) (sh_version header) (rt_destination_channel_identity selected)
    (if fault =? fault_malformed_sequence then u64 (sequence + 1) else sequence)
    (if correlated then sh_release_generation template else sh_release_generation header)
    (sh_sample_count header) (sh_encoding header) (rt_destination_timestamp_domain_identity selected)
    completion_timestamp (sh_sample_interval_ns header) (rt_destination_trigger_identity selected)
    (if correlated then sh_trigger_sequence template else sh_trigger_sequence header)
    (rt_destination_calibration_identity selected) (sh_payload_checksum header) status_produced
    (sh_reserved0 header) (sh_reserved header).

(** One iteration of [execute]: the memory after it, or the status it returns. *)
Definition execute_command (b : Loopback) (completion_timestamp fault : Z) (memory : list Z) (command : DeviceCommand)
    : HalV2Status + list Z :=
  match route (lb_routes b) (dc_opcode command) with
  | None => inl hal_unsupported
  | Some selected =>
      if negb (dc_kind command =? kind_dispatch) || negb (dc_buffer_count command =? 2)
      then inl hal_invalid_argument
      else
        match resolve b (default zero_reference (dc_buffers command !! 0%nat)),
              resolve b (default zero_reference (dc_buffers command !! 1%nat)) with
        | inl status, _ => inl status
        | inr _, inl status => inl status
        | inr (source, source_size), inr (destination, destination_size) =>
        if negb (Nat.eqb source_size destination_size) || (source_size <? sampled_header_size)%nat
        then inl hal_resource_exhausted
        else
          let bytes := read_span memory source source_size in
          let header := header_of bytes in
          if negb (sh_struct_size header =? Z.of_nat sampled_header_size) ||
             negb (sh_version header =? sampled_io_frame_version)
          then inl hal_reset_required
          else if negb (sh_channel_identity header =? rt_source_channel_identity selected) then inl hal_error
          else if negb (sh_payload_checksum header =? sampled_io_payload_checksum (drop sampled_header_size bytes))
          then inl hal_error
          else
            let template := header_of (read_span memory destination destination_size) in
            let copied := write_span memory destination bytes in
            inr (write_span copied destination
                   (header_bytes (routed_header selected header template completion_timestamp fault)))
        end
  end.

Record Execution := mkExecution {
  xe_status : HalV2Status;
  xe_memory : list Z;
  xe_copied : Z;
}.

Fixpoint execute_commands (b : Loopback) (completion_timestamp fault : Z) (memory : list Z) (copied : Z)
    (commands : list DeviceCommand) : Execution :=
  match commands with
  | [] => mkExecution hal_ok memory copied
  | command :: rest =>
      match execute_command b completion_timestamp fault memory command with
      | inl status => mkExecution status memory copied
      | inr memory' => execute_commands b completion_timestamp fault memory' (u64 (copied + 1)) rest
      end
  end.

(** [execute]; [xe_copied] is [frames_copied] after it. *)
Definition execute (b : Loopback) (batch : DeviceCommandBatch) (completion_timestamp fault : Z) (memory : list Z) : Execution :=
  execute_commands b completion_timestamp fault memory (lb_frames_copied b)
    (take (Z.to_nat (bt_command_count batch)) (bt_commands batch)).

(** ** The public class *)

Definition inject_next (fault : Z) (b : Loopback) : Loopback * Status :=
  if (fault =? fault_none) || (fault_completion_lost <? fault) then (b, invalid_argument)
  else if lb_next_fault b =? fault_none then (with_next_fault fault b, ok)
  else (b, invalid_state).

Definition loopback_stats (b : Loopback) : SampledIoLoopbackStats :=
  mkLoopbackStats (lb_submissions b) (lb_completions b) (lb_cancellations b) (lb_rejected b) (lb_frames_copied b)
    (rg_next_sequence (lb_logical_actions b)).

Definition reset_logical_actions (b : Loopback) : Loopback * Status :=
  if lb_initialized b then (b, invalid_state)
  else (with_next_fault fault_none
          (with_timestamp 0 (with_logical_actions (restore_sequence 0 (lb_logical_actions b)) b)), ok).

Definition logical_action_count (b : Loopback) : Z :=
  Z.min (rg_next_sequence (lb_logical_actions b)) (Z.of_nat sampled_io_loopback_capacity).

Definition logical_action_at (b : Loopback) (chronological_index : Z) : option SampledIoLoopbackLogicalAction :=
  let end_ := rg_next_sequence (lb_logical_actions b) in
  let retained := Z.min end_ (Z.of_nat sampled_io_loopback_capacity) in
  if retained <=? chronological_index then None
  else read_sequence (lb_logical_actions b) (end_ - retained + chronological_index).

(** [record_logical_action] when no other call interleaves *)
Definition record_logical_action (batch : DeviceCommandBatch) (fault : Z) (status : HalV2Status) (device_timestamp : Z)
    (b : Loopback) : Loopback :=
  with_logical_actions (emit (lb_logical_actions b) (logical_action batch fault status device_timestamp)).1 b.
