(* ===== verification/LoopbackCalls.v ===== *)
(** * The loopback backend: the log of logical actions

    The log is the sequence ring at the record type of the backend: the laws of that record,
    and what inspection returns after a number of recorded actions. *)

From stdpp Require Import base list numbers.
From Stdlib Require Import ZArith Lia Bool.
From S2P Require Import Prelude CanonicalBytes SnapshotCodec CodecFields DeviceCommands SeqRing SeqRingInvariant SeqRingSequential RecordLayout HalV2 LoopbackBackend.

Local Open Scope Z_scope.

(** The fields have the widths of their types. *)
Definition logical_action_well_typed (a : SampledIoLoopbackLogicalAction) : Prop :=
  length (lg_reserved a) = 22%nat /\ is_i32 (lg_status a) /\
  Forall2 field_fits_width logical_action_layout (logical_action_fields a).

#[export] Instance logical_action_well_typed_decision a : Decision (logical_action_well_typed a).
Proof. unfold logical_action_well_typed. apply _. Defined.

Lemma logical_action_stamped s a :
  is_u64 s -> logical_action_well_typed a -> logical_action_well_typed (set_logical_sequence s a).
Proof.
  unfold logical_action_well_typed. intros Hs Hw. destruct_and! Hw. split_and!; try done.
  rewrite <- (list_insert_id logical_action_layout 0 8%nat) by done.
  change (logical_action_fields (set_logical_sequence s a)) with (<[0%nat := s]> (logical_action_fields a)).
  apply Forall2_insert; [done|]. unfold field_fits_width, is_u64, u64_max in *. simpl. lia.
Qed.

Lemma logical_action_roundtrip a :
  logical_action_well_typed a -> logical_action_of_words (logical_action_to_words a) = a.
Proof.
  intros Hw. unfold logical_action_of_words, logical_action_to_words. destruct_and! Hw.
  rewrite (unpack_words logical_action_layout (logical_action_fields a) 8) by done.
  match goal with H : Forall2 _ _ _ |- _ => clear H end.
  destruct a as [x0 x1 x2 x3 x4 x5 x6 x7 x8]. unfold logical_action_of_fields, logical_action_fields. simpl in *.
  rewrite bits_i32_bits by done. f_equal. apply take_ge. lia.
Qed.

#[export] Program Instance logical_action_record_laws : RingRecordLaws SampledIoLoopbackLogicalAction := {|
  well_typed := logical_action_well_typed;
  deliver := set_logical_sequence;
|}.
Next Obligation. simpl. lia. Qed.
Next Obligation. done. Qed.
Next Obligation. intros. apply length_bytes_to_words. Qed.
Next Obligation. intros. by apply logical_action_roundtrip, logical_action_stamped. Qed.

(** An action of a batch whose fields have their widths. *)
Definition action_inputs_typed (batch : DeviceCommandBatch) (fault device_timestamp : Z) : Prop :=
  is_u64 (bt_batch_id batch) /\ is_u64 device_timestamp /\ is_u8 fault /\
  Forall (fun c => is_u32 (dc_opcode c)) (bt_commands batch).

Lemma mix_u64 hash value : is_u64 hash -> is_u64 (mix hash value).
Proof. intros Hh. unfold mix. by apply fnv_fold_u64. Qed.

Lemma logical_action_typed batch fault status device_timestamp :
  action_inputs_typed batch fault device_timestamp ->
  logical_action_well_typed (logical_action batch fault status device_timestamp).
Proof.
  intros (Hid & Hts & Hf & Hop). unfold logical_action.
  set (opcode := if _ =? 0 then _ else _).
  assert (Hopcode : is_u32 opcode).
  { unfold opcode. destruct (_ =? 0); [unfold is_u32, u32_max; lia|].
    destruct (bt_commands batch) as [|c l]; simpl; [unfold is_u32, u32_max; lia|]. by inversion Hop. }
  set (identity := foldl mix fnv_offset _).
  assert (Hidn : is_u64 identity).
  { unfold identity. simpl. repeat apply mix_u64. unfold is_u64, u64_max, fnv_offset. lia. }
  clearbody identity opcode. unfold logical_action_well_typed. split_and!; [done|by destruct status|].
  unfold logical_action_layout, logical_action_fields. cbn [lg_sequence lg_batch_id lg_device_timestamp lg_content_identity
    lg_opcode lg_status lg_fault lg_command_count lg_reserved app].
  pose proof (Z.mod_pos_bound (bt_command_count batch) 256).
  unfold is_u64, is_u32, is_u8, u64_max, u32_max in *.
  assert (Hfit : forall w z, 0 <= z < 256 ^ Z.of_nat w -> field_fits_width w z) by done.
  do 8 (constructor; [first [apply i32_bits_fits | apply Hfit; simpl; lia]|]).
  repeat constructor; done.
Qed.

(** ** The log *)

(** What was recorded, one entry per call. *)
Record ActionInput := mkActionInput {
  ai_batch : DeviceCommandBatch;
  ai_fault : Z;
  ai_status : HalV2Status;
  ai_timestamp : Z;
}.

Definition action_of (a : ActionInput) : SampledIoLoopbackLogicalAction :=
  logical_action (ai_batch a) (ai_fault a) (ai_status a) (ai_timestamp a).

Definition record_actions (inputs : list ActionInput) (b : Loopback) : Loopback :=
  foldl (fun b a => record_logical_action (ai_batch a) (ai_fault a) (ai_status a) (ai_timestamp a) b) b inputs.

Lemma record_actions_ring inputs b :
  lb_logical_actions (record_actions inputs b) = emit_all (lb_logical_actions b) (action_of <$> inputs).
Proof. revert b. induction inputs as [|a inputs IH]; intros b; [done|]. cbn [record_actions foldl]. apply IH. Qed.

(** A backend with sixteen well-formed action slots, as the constructor makes them and as every
    recorded action leaves them. *)
Definition log_slots_ok (b : Loopback) : Prop :=
  length (rg_slots (lb_logical_actions b)) = sampled_io_loopback_capacity /\
  Forall (fun sl => length (sl_words sl) = 8%nat) (rg_slots (lb_logical_actions b)).

Lemma reset_log_fresh b :
  log_slots_ok b -> lb_initialized b = false ->
  ring_fresh 0 (lb_logical_actions (reset_logical_actions b).1) /\
  capacity (lb_logical_actions (reset_logical_actions b).1) = sampled_io_loopback_capacity.
Proof.
  intros [Hl Hw] Hi. unfold reset_logical_actions. rewrite Hi.
  cbn [fst with_next_fault with_timestamp with_logical_actions lb_logical_actions].
  unfold capacity, restore_sequence. cbn [rg_slots]. rewrite length_fmap. split; [|done].
  constructor; try done. cbn [rg_slots]. apply Forall_fmap. eapply Forall_impl; [|exact Hw]. intros sl Hsl. done.
Qed.

(** After [reset_logical_actions], the log of a backend that records actions one after the other
    holds exactly the last sixteen: the count is that of the actions up to sixteen, and the entry at
    a chronological index is the action recorded at that position among the retained ones, with its
    sequence number, and nothing beyond them. *)
Theorem loopback_action_log b inputs index :
  log_slots_ok b -> lb_initialized b = false ->
  Forall (fun a => action_inputs_typed (ai_batch a) (ai_fault a) (ai_timestamp a)) inputs ->
  Z.of_nat (length inputs) < u64_max ->
  let b' := record_actions inputs (reset_logical_actions b).1 in
  let first := (length inputs - sampled_io_loopback_capacity)%nat in
  logical_action_count b' = Z.of_nat (length inputs - first) /\
  logical_action_at b' (Z.of_nat index) =
    (fun a => set_logical_sequence (Z.of_nat (first + index)) (action_of a)) <$> drop first inputs !! index.
Proof.
  intros Hb Hi Ht Hn b' first. destruct (reset_log_fresh b Hb Hi) as [Hf Hc].
  set (g := lb_logical_actions (reset_logical_actions b).1) in *.
  assert (Hring : lb_logical_actions b' = emit_all g (action_of <$> inputs)) by apply record_actions_ring.
  assert (Hlen : length (action_of <$> inputs) = length inputs) by apply length_fmap.
  destruct (retains_all 0 (action_of <$> inputs) g Hf) as [Hret Hcap].
  { by rewrite Hc. }
  { rewrite Hlen. lia. }
  { done. }
  rewrite <- Hring in Hret, Hcap. rewrite Hc in Hcap.
  assert (Hnext : rg_next_sequence (lb_logical_actions b') = Z.of_nat (length inputs)).
  { rewrite (rt_next _ _ _ Hret), Hlen. lia. }
  assert (Hmin : Z.min (Z.of_nat (length inputs)) (Z.of_nat sampled_io_loopback_capacity) = Z.of_nat (length inputs - first)).
  { unfold first. lia. }
  unfold logical_action_count, logical_action_at. rewrite Hnext, Hmin. split; [done|].
  rewrite lookup_drop. destruct (Z.leb_spec (Z.of_nat (length inputs - first)) (Z.of_nat index)) as [Hge|Hlt].
  { rewrite lookup_ge_None_2; [done|]. unfold first in *. lia. }
  replace (Z.of_nat (length inputs) - Z.of_nat (length inputs - first) + Z.of_nat index)
    with (Z.of_nat (first + index)) by (unfold first in *; lia).
  rewrite (retains_read 0 (action_of <$> inputs) (lb_logical_actions b') (Z.of_nat (first + index))); try done.
  - rewrite Hcap, Hlen, (proj2 (Z.leb_le _ _)) by (unfold first in *; lia). rewrite (proj2 (Z.leb_le _ _)) by lia.
    cbn [andb]. rewrite Z.sub_0_r, Nat2Z.id, list_lookup_fmap. by destruct (inputs !! (first + index)%nat).
  - by rewrite Hcap.
  - rewrite Hlen. lia.
  - intros i r Hr. rewrite list_lookup_fmap in Hr. destruct (inputs !! i) as [a|] eqn:Ha; [|done]. injection Hr as <-.
    split; [|by apply Z.eqb_refl]. apply logical_action_typed. exact (Forall_lookup_1 _ _ _ _ Ht Ha).
  - unfold invalid_sequence. unfold first in *. lia.
Qed.

(** Eighteen rejected batches: the log keeps the last sixteen. *)
Definition log_example : list ActionInput :=
  (fun n => mkActionInput
     (mkCommandBatch sizeof_batch 1 (Z.of_nat n) 1 1000 0 0 1 0 [] [] [] (replicate 8 0))
     fault_reject_submission hal_queue_full 0) <$> seq 1 18.

Lemma loopback_action_log_witness :
  let b' := record_actions log_example (reset_logical_actions (loopback_create (mkLoopbackConfig 2 2 4096 1 1))).1 in
  logical_action_count b' = 16 /\
  logical_action_at b' 0 = (fun a => set_logical_sequence 2 (action_of a)) <$> drop 2 log_example !! 0%nat.
Proof.
  refine (loopback_action_log (loopback_create (mkLoopbackConfig 2 2 4096 1 1)) log_example 0 _ _ _ _).
  - split; [reflexivity|]. repeat constructor.
  - reflexivity.
  - assert (Hall : forall n, (0 <= Z.of_nat n <= u64_max) -> action_inputs_typed
      (mkCommandBatch sizeof_batch 1 (Z.of_nat n) 1 1000 0 0 1 0 [] [] [] (replicate 8 0)) fault_reject_submission 0).
    { intros n Hn. repeat split; try (cbn; unfold u64_max, fault_reject_submission in *; lia). constructor. }
    apply Forall_fmap, Forall_forall. intros n Hn%in_seq. apply Hall. unfold u64_max. lia.
  - reflexivity.
Defined.

(** * The loopback backend: concurrent calls (rt/src/loopback_backend.cpp)

    [submit_batch], [poll_batches], [cancel_batch] and [get_health] may run at the same
    time.  Every program point below stands before one access to shared state, and [turn]
    lets one call make its next access; the copy of a batch's frames and the recording of
    its logical action are one step each (the ring has its own interleavings, in SeqRing).
    A call that has returned stays in the list with its result.  [request_stop] and
    [inject_next] are single accesses. *)

Local Open Scope Z_scope.

(** ** Program points *)

Inductive SubmitPc : Type :=
| s_initialized
| s_accepting
| s_fault
| s_scan (fault : Z) (index : nat)
| s_reject (fault : Z)
| s_reject_record (fault : Z)
| s_timestamp (fault : Z) (index : nat)
| s_execute (fault : Z) (index : nat) (timestamp : Z)
| s_record (fault : Z) (index : nat) (status : HalV2Status) (completion : HalV2BatchCompletion)
| s_write (fault : Z) (index : nat) (completion : HalV2BatchCompletion)
| s_count (fault : Z) (index : nat) (completion : HalV2BatchCompletion)
| s_publish (fault : Z) (index : nat) (completion : HalV2BatchCompletion)
| s_refused (status : HalV2Status)                              (** returned an error *)
| s_published (fault : Z) (completion : HalV2BatchCompletion). (** returned ok *)

Inductive PollPc : Type :=
| p_scan (index : nat) (output : list HalV2BatchCompletion)
| p_copy (index : nat) (output : list HalV2BatchCompletion)
| p_count (index : nat) (output : list HalV2BatchCompletion)
| p_free (index : nat) (output : list HalV2BatchCompletion)
| p_returned (output : list HalV2BatchCompletion).

Inductive CancelPc : Type :=
| c_load (index : nat)
| c_claim (index : nat) (published_state : Z)
| c_check (index : nat) (published_state : Z)
| c_restore (index : nat) (published_state : Z)
| c_count (index : nat)
| c_store (index : nat)
| c_returned (status : HalV2Status).

Inductive HealthPc : Type :=
| h_initialized
| h_submissions (initialized : bool)
| h_completions (initialized : bool) (submissions : Z)
| h_rejected (initialized : bool) (submissions completions : Z)
| h_cancellations (initialized : bool) (submissions completions rejected : Z)
| h_returned (health : HalHealth).

Inductive Call : Type :=
| submitting (batch : DeviceCommandBatch) (pc : SubmitPc)
| polling (capacity : nat) (pc : PollPc)
| canceling (batch_id : Z) (pc : CancelPc)
| inspecting (pc : HealthPc).

(** ** Accesses *)

Definition slot_of (b : Loopback) (index : nat) : CompletionSlot := default free_slot (lb_slots b !! index).

Definition put_slot (index : nat) (s : CompletionSlot) (b : Loopback) : Loopback :=
  with_slots (<[index := s]> (lb_slots b)) b.

(** [slots[index].state.store] *)
Definition store_state (index : nat) (state : Z) (b : Loopback) : Loopback :=
  put_slot index (mkCompletionSlot state (cs_completion (slot_of b index))) b.

(** [slots[index].completion = completion] *)
Definition store_completion (index : nat) (completion : HalV2BatchCompletion) (b : Loopback) : Loopback :=
  put_slot index (mkCompletionSlot (cs_state (slot_of b index)) completion) b.

(** [slots[index].state.compare_exchange_strong(expected, kOwned)] *)
Definition claim (index : nat) (expected : Z) (b : Loopback) : option Loopback :=
  if cs_state (slot_of b index) =? expected then Some (store_state index kOwned b) else None.

Definition queue_size (b : Loopback) : nat := Z.to_nat (lc_queue_capacity (lb_config b)).

Definition completion_of (b : Loopback) (batch : DeviceCommandBatch) (timestamp status : Z) : HalV2BatchCompletion :=
  let count := Z.to_nat (bt_signal_count batch) in
  mkBatchCompletion sizeof_completion hal_v2_command_timeline_extension_version status (bt_signal_count batch)
    (bt_batch_id batch) timestamp (lc_timestamp_domain_identity (lb_config b))
    (take count (bt_signals batch) ++ drop count (bc_signals default_completion)) (bc_reserved default_completion).

Definition set_completion_status (status : Z) (c : HalV2BatchCompletion) : HalV2BatchCompletion :=
  mkBatchCompletion (bc_struct_size c) (bc_extension_version c) status (bc_signal_count c) (bc_batch_id c)
    (bc_device_timestamp c) (bc_timestamp_domain_identity c) (bc_signals c) (bc_reserved c).

Definition completion_status (fault : Z) (execution_status : HalV2Status) : HalV2Status :=
  if fault =? fault_completion_error then hal_error
  else if fault =? fault_completion_lost then hal_lost
  else execution_status.

Definition canceled_code : Z := hal_status_code hal_canceled.

(** ** Steps *)

Definition submit_step (b : Loopback) (memory : list Z) (batch : DeviceCommandBatch) (pc : SubmitPc)
    : Loopback * list Z * SubmitPc :=
  match pc with
  | s_initialized => (b, memory, if lb_initialized b then s_accepting else s_refused hal_invalid_state)
  | s_accepting => (b, memory, if lb_accepting b then s_fault else s_refused hal_invalid_state)
  | s_fault =>
      let fault := lb_next_fault b in
      (with_next_fault fault_none b, memory,
       if fault =? fault_reject_submission then s_reject fault else s_scan fault 0)
  | s_scan fault index =>
      if (index <? queue_size b)%nat
      then
        match claim index kFree b with
        | Some b' => (b', memory, s_timestamp fault index)
        | None => (b, memory, s_scan fault (S index))
        end
      else (b, memory, s_reject fault)
  | s_reject fault => (count_rejected b, memory, s_reject_record fault)
  | s_reject_record fault =>
      (record_logical_action batch fault hal_queue_full 0 b, memory, s_refused hal_queue_full)
  | s_timestamp fault index =>
      let timestamp := u64 (lb_timestamp b + 1) in
      (with_timestamp timestamp b, memory, s_execute fault index timestamp)
  | s_execute fault index timestamp =>
      let execution := execute b batch timestamp fault memory in
      let status := completion_status fault (xe_status execution) in
      (with_frames_copied (xe_copied execution) b, xe_memory execution,
       s_record fault index status (completion_of b batch timestamp (hal_status_code status)))
  | s_record fault index status completion =>
      (record_logical_action batch fault status (bc_device_timestamp completion) b, memory,
       s_write fault index completion)
  | s_write fault index completion =>
      (store_completion index completion b, memory, s_count fault index completion)
  | s_count fault index completion => (count_submission b, memory, s_publish fault index completion)
  | s_publish fault index completion =>
      (store_state index (if fault =? fault_completion_timeout then kHeld else kReady) b, memory,
       s_published fault completion)
  | s_refused _ | s_published _ _ => (b, memory, pc)
  end.

Definition poll_step (b : Loopback) (capacity : nat) (pc : PollPc) : Loopback * PollPc :=
  match pc with
  | p_scan index output =>
      if (index <? queue_size b)%nat && (length output <? capacity)%nat
      then
        match claim index kReady b with
        | Some b' => (b', p_copy index output)
        | None => (b, p_scan (S index) output)
        end
      else (b, p_returned output)
  | p_copy index output => (b, p_count index (output ++ [cs_completion (slot_of b index)]))
  | p_count index output => (count_completion b, p_free index output)
  | p_free index output => (store_state index kFree b, p_scan (S index) output)
  | p_returned _ => (b, pc)
  end.

Definition cancel_step (b : Loopback) (batch_id : Z) (pc : CancelPc) : Loopback * CancelPc :=
  match pc with
  | c_load index =>
      if (index <? queue_size b)%nat
      then
        let state := cs_state (slot_of b index) in
        (b, if (state =? kReady) || (state =? kHeld) then c_claim index state else c_load (S index))
      else (b, c_returned hal_invalid_argument)
  | c_claim index published_state =>
      match claim index published_state b with
      | Some b' => (b', c_check index published_state)
      | None => (b, c_load (S index))
      end
  | c_check index published_state =>
      let completion := cs_completion (slot_of b index) in
      if negb (bc_batch_id completion =? batch_id) then (b, c_restore index published_state)
      else if bc_status completion =? canceled_code then (b, c_store index)
      else (store_completion index (set_completion_status canceled_code completion) b, c_count index)
  | c_restore index published_state => (store_state index published_state b, c_load (S index))
  | c_count index => (count_cancellation b, c_store index)
  | c_store index => (store_state index kReady b, c_returned hal_ok)
  | c_returned _ => (b, pc)
  end.

Definition health_step (b : Loopback) (pc : HealthPc) : HealthPc :=
  match pc with
  | h_initialized => h_submissions (lb_initialized b)
  | h_submissions initialized => h_completions initialized (lb_submissions b)
  | h_completions initialized submissions => h_rejected initialized submissions (lb_completions b)
  | h_rejected initialized submissions completions =>
      h_cancellations initialized submissions completions (lb_rejected b)
  | h_cancellations initialized submissions completions rejected =>
      h_returned (loopback_health b submissions completions rejected (lb_cancellations b) initialized)
  | h_returned _ => pc
  end.

Definition call_step (b : Loopback) (memory : list Z) (c : Call) : Loopback * list Z * Call :=
  match c with
  | submitting batch pc =>
      let '(b', memory', pc') := submit_step b memory batch pc in (b', memory', submitting batch pc')
  | polling capacity pc => let '(b', pc') := poll_step b capacity pc in (b', memory, polling capacity pc')
  | canceling batch_id pc => let '(b', pc') := cancel_step b batch_id pc in (b', memory, canceling batch_id pc')
  | inspecting pc => (b, memory, inspecting (health_step b pc))
  end.

(** ** Interleavings *)

Record LoopbackSystem := mkLoopbackSystem {
  ly_backend : Loopback;
  ly_memory : list Z;
  ly_calls : list Call;
}.

Inductive LoopbackEvent : Type :=
| call_submit_batch (batch : DeviceCommandBatch)
| call_poll_batches (capacity : nat)
| call_cancel_batch (batch_id : Z)
| call_get_health
| call_request_stop
| call_inject_next (fault : Z)
| call_turn (call : nat).

Definition request_stop (b : Loopback) : Loopback := with_accepting false b.

(** Where a call starts; [cancel_batch] refuses the id 0. *)
Definition submit_start (batch : DeviceCommandBatch) : Call := submitting batch s_initialized.
Definition poll_start (capacity : nat) : Call := polling capacity (p_scan 0 []).
Definition cancel_start (batch_id : Z) : Call :=
  canceling batch_id (if batch_id =? 0 then c_returned hal_invalid_argument else c_load 0).

Definition loopback_step (y : LoopbackSystem) (e : LoopbackEvent) : LoopbackSystem :=
  let start c := mkLoopbackSystem (ly_backend y) (ly_memory y) (ly_calls y ++ [c]) in
  match e with
  | call_submit_batch batch => start (submit_start batch)
  | call_poll_batches capacity => start (poll_start capacity)
  | call_cancel_batch batch_id => start (cancel_start batch_id)
  | call_get_health => start (inspecting h_initialized)
  | call_request_stop => mkLoopbackSystem (request_stop (ly_backend y)) (ly_memory y) (ly_calls y)
  | call_inject_next fault => mkLoopbackSystem (inject_next fault (ly_backend y)).1 (ly_memory y) (ly_calls y)
  | call_turn i =>
      match ly_calls y !! i with
      | None => y
      | Some c =>
          let '(b, memory, c') := call_step (ly_backend y) (ly_memory y) c in
          mkLoopbackSystem b memory (<[i := c']> (ly_calls y))
      end
  end.

Definition loopback_run (y : LoopbackSystem) (events : list LoopbackEvent) : LoopbackSystem :=
  foldl loopback_step y events.

(** ** Calls that run alone *)

Fixpoint run_call (fuel : nat) (b : Loopback) (memory : list Z) (c : Call) : Loopback * list Z * Call :=
  match fuel with
  | O => (b, memory, c)
  | S fuel => let '(b', memory', c') := call_step b memory c in run_call fuel b' memory' c'
  end.

(** More steps than any call makes. *)
Definition call_fuel (b : Loopback) : nat := 5 * queue_size b + 16.

(** [submit_batch]; [None] is a null batch. *)
Definition submit_batch (b : Loopback) (memory : list Z) (batch : option DeviceCommandBatch)
    : Loopback * list Z * HalV2Status :=
  match batch with
  | None => (b, memory, hal_invalid_state)
  | Some batch =>
      let '(b', memory', c) := run_call (call_fuel b) b memory (submit_start batch) in
      (b', memory', match c with
                    | submitting _ (s_published _ _) => hal_ok
                    | submitting _ (s_refused status) => status
                    | _ => hal_internal_error
                    end)
  end.

(** [poll_batches] into [capacity] entries: the entries written. *)
Definition poll_batches (b : Loopback) (capacity : nat) : Loopback * list HalV2BatchCompletion :=
  let '(b', _, c) := run_call (call_fuel b) b [] (poll_start capacity) in
  (b', match c with polling _ (p_returned output) => output | _ => [] end).

Definition cancel_batch (b : Loopback) (batch_id : Z) : Loopback * HalV2Status :=
  let '(b', _, c) := run_call (call_fuel b) b [] (cancel_start batch_id) in
  (b', match c with canceling _ (c_returned status) => status | _ => hal_internal_error end).
