(* ===== verification/LoopbackSlots.v ===== *)
(** * The loopback backend: completion slots

    A slot in the state [kOwned] belongs to exactly one call.  From this follow, for every
    interleaving, a ledger of completions (what was published is delivered once or still
    resident) and the rule that a timed-out completion is only delivered canceled.  Both are
    instances of one lemma about weights of calls and slots. *)

From stdpp Require Import base list numbers sorting sets.
From Stdlib Require Import ZArith Lia Bool.
From S2P Require Import Prelude DeviceCommands ListSums SeqRing HalV2 LoopbackBackend LoopbackCalls.

Local Open Scope Z_scope.

#[export] Instance HalV2TimelinePoint_eq_dec : EqDecision HalV2TimelinePoint.
Proof. solve_decision. Defined.
#[export] Instance HalV2BatchCompletion_eq_dec : EqDecision HalV2BatchCompletion.
Proof. solve_decision. Defined.

(** ** Ownership *)

(** The slot a call owns. *)
Definition holds (c : Call) : option nat :=
  match c with
  | submitting _ (s_timestamp _ i | s_execute _ i _ | s_record _ i _ _ | s_write _ i _ | s_count _ i _ | s_publish _ i _)
  | polling _ (p_copy i _ | p_count i _ | p_free i _)
  | canceling _ (c_check i _ | c_restore i _ | c_count i | c_store i) => Some i
  | _ => None
  end.

(** A call that owns a slot not yet emptied. *)
Definition consumes (c : Call) : bool :=
  match c with
  | polling _ (p_copy _ _) | canceling _ (c_check _ _ | c_restore _ _ | c_count _ | c_store _) => true
  | _ => false
  end.

Definition owned (s : CompletionSlot) : Prop := cs_state s = kOwned.

Definition published_state_ok (state : Z) : Prop := state = kReady \/ state = kHeld.

(** What a call at a program point knows. *)
Definition call_ok (slots : list CompletionSlot) (c : Call) : Prop :=
  match c with
  | submitting _ (s_count _ i completion | s_publish _ i completion) =>
      cs_completion <$> (slots !! i) = Some completion
  | canceling _ (c_claim _ state | c_check _ state | c_restore _ state) => published_state_ok state
  | _ => True
  end.

Record slots_inv (slots : list CompletionSlot) (calls : list Call) : Prop := {
  inv_held n c i : calls !! n = Some c -> holds c = Some i -> exists s, slots !! i = Some s /\ owned s;
  inv_unique n m c d i : calls !! n = Some c -> calls !! m = Some d -> holds c = Some i -> holds d = Some i -> n = m;
  inv_owner i s : slots !! i = Some s -> owned s -> exists n c, calls !! n = Some c /\ holds c = Some i;
  inv_state i s : slots !! i = Some s -> 0 <= cs_state s <= 3;
  inv_calls n c : calls !! n = Some c -> call_ok slots c
}.

(** A call and the slot it is at agree: owned by the call, or owned by nobody. *)
Definition at_slot (i : nat) (s : CompletionSlot) (c : Call) : Prop :=
  (holds c = Some i /\ owned s) \/ (holds c = None /\ ~ owned s).

(** What one step may do to the slots. *)
Inductive slot_effect (slots : list CompletionSlot) (c : Call) : list CompletionSlot -> Call -> Prop :=
| effect_none c' : holds c = None -> holds c' = None -> slot_effect slots c slots c'
| effect_at i s s' c' :
    slots !! i = Some s -> at_slot i s c -> at_slot i s' c' -> 0 <= cs_state s' <= 3 ->
    slot_effect slots c (<[i := s']> slots) c'.

(** ** The slots after a step *)

Lemma slot_of_lookup b i s : lb_slots b !! i = Some s -> slot_of b i = s.
Proof. unfold slot_of. by intros ->. Qed.

Lemma slots_store_state b i state s :
  lb_slots b !! i = Some s -> lb_slots (store_state i state b) = <[i := mkCompletionSlot state (cs_completion s)]> (lb_slots b).
Proof. intros Hs. unfold store_state. by rewrite (slot_of_lookup _ _ _ Hs). Qed.

Lemma slots_store_completion b i completion s :
  lb_slots b !! i = Some s ->
  lb_slots (store_completion i completion b) = <[i := mkCompletionSlot (cs_state s) completion]> (lb_slots b).
Proof. intros Hs. unfold store_completion. by rewrite (slot_of_lookup _ _ _ Hs). Qed.

Definition queue_fits (b : Loopback) : Prop := (queue_size b <= length (lb_slots b))%nat.

Lemma claim_spec b i expected b' s :
  lb_slots b !! i = Some s -> claim i expected b = Some b' ->
  cs_state s = expected /\ lb_slots b' = <[i := mkCompletionSlot kOwned (cs_completion s)]> (lb_slots b).
Proof.
  intros Hs. unfold claim. rewrite (slot_of_lookup _ _ _ Hs). destruct (Z.eqb_spec (cs_state s) expected); [|done].
  intros [= <-]. split; [done|]. by apply slots_store_state.
Qed.

Lemma queue_slot b i : queue_fits b -> (i <? queue_size b)%nat = true -> exists s, lb_slots b !! i = Some s.
Proof. unfold queue_fits. intros Hq Hi%Nat.ltb_lt. apply lookup_lt_is_Some. lia. Qed.

(** Weights of a call, of the slot it owns and of a slot nobody owns. *)
Record Weights := mkWeights {
  w_call : Call -> Z;
  w_owned : Call -> CompletionSlot -> Z;
  w_free : CompletionSlot -> Z;
}.

(** The slot as the call that is at it sees it. *)
Definition seen (w : Weights) (c : Call) (s : CompletionSlot) : Z :=
  if decide (owned s) then w_owned w c s else w_free w s.

(** A step whose change of weight is in the relation [R]. *)
Inductive weighed_effect (R : Z -> Z -> Prop) (w : Weights) (slots : list CompletionSlot) (c : Call)
    : list CompletionSlot -> Call -> Prop :=
| weighed_none c' :
    holds c = None -> holds c' = None -> R (w_call w c) (w_call w c') -> weighed_effect R w slots c slots c'
| weighed_at i s s' c' :
    slots !! i = Some s -> at_slot i s c -> at_slot i s' c' -> 0 <= cs_state s' <= 3 ->
    R (w_call w c - seen w c s) (w_call w c' - seen w c' s') ->
    weighed_effect R w slots c (<[i := s']> slots) c'.

Lemma weighed_slot_effect R w slots c slots' c' : weighed_effect R w slots c slots' c' -> slot_effect slots c slots' c'.
Proof. intros []; by econstructor. Qed.

(** The ledger: the weights of the calls less those of the slots. *)
Definition call_weight (w : Weights) (slots : list CompletionSlot) (c : Call) : Z :=
  w_call w c - match holds c with Some i => default 0 (w_owned w c <$> (slots !! i)) | None => 0 end.

Definition slot_weight (w : Weights) (s : CompletionSlot) : Z := if decide (owned s) then 0 else w_free w s.

Definition ledger (w : Weights) (slots : list CompletionSlot) (calls : list Call) : Z :=
  zsum (call_weight w slots) calls - zsum (slot_weight w) slots.

(** Nobody else owns the slot a call is at. *)
Lemma at_slot_exclusive slots calls n c i s m d :
  slots_inv slots calls -> calls !! n = Some c -> slots !! i = Some s -> at_slot i s c ->
  calls !! m = Some d -> m <> n -> holds d <> Some i.
Proof.
  intros I Hn Hs [[Hc Ho]|[Hc Ho]] Hm Hne Hd.
  - apply Hne. by eapply (inv_unique _ _ I).
  - destruct (inv_held _ _ I m d i Hm Hd) as (s0 & Hs0 & Ho0). by simplify_eq.
Qed.

Lemma ledger_at w slots calls n c i s s' c' :
  slots_inv slots calls -> calls !! n = Some c -> slots !! i = Some s -> at_slot i s c -> at_slot i s' c' ->
  ledger w (<[i := s']> slots) (<[n := c']> calls) =
  ledger w slots calls - (w_call w c - seen w c s) + (w_call w c' - seen w c' s').
Proof.
  intros I Hn Hs Hc Hc'. unfold ledger.
  rewrite (zsum_insert _ _ _ _ _ Hs), (zsum_insert_agree _ (call_weight w slots) _ _ c).
  2: done.
  2: { intros m d Hm Hd. unfold call_weight. destruct (holds d) as [j|] eqn:Hj; [|done].
       assert (j <> i) by (intros ->; exact (at_slot_exclusive slots calls n c i s m d I Hn Hs Hc Hd Hm Hj)). by rewrite list_lookup_insert_ne. }
  assert (Hlt : (i < length slots)%nat) by (by eapply lookup_lt_Some).
  unfold call_weight, slot_weight, seen.
  destruct Hc as [[-> Ho]|[-> Ho]], Hc' as [[-> Ho']|[-> Ho']];
    rewrite ?Hs, ?list_lookup_insert_eq by done; repeat (case_decide; try done); simpl; lia.
Qed.

(** Steps that change only the weight of the call. *)
Lemma ledger_none w slots calls n c c' :
  calls !! n = Some c -> holds c = None -> holds c' = None ->
  ledger w slots (<[n := c']> calls) = ledger w slots calls - w_call w c + w_call w c'.
Proof.
  intros Hn Hc Hc'. unfold ledger. rewrite (zsum_insert _ _ _ _ _ Hn). unfold call_weight. rewrite Hc, Hc'. lia.
Qed.

Lemma ledger_effect_le w slots calls n c slots' c' :
  slots_inv slots calls -> calls !! n = Some c -> weighed_effect Z.le w slots c slots' c' ->
  ledger w slots calls <= ledger w slots' (<[n := c']> calls).
Proof.
  intros I Hn E. destruct E as [c' Hc Hc' Hw|i s s' c' Hs Hc Hc' _ Hw].
  - rewrite (ledger_none w _ _ _ c) by done. lia.
  - rewrite (ledger_at w _ _ _ c i s) by done. lia.
Qed.

Lemma ledger_effect_eq w slots calls n c slots' c' :
  slots_inv slots calls -> calls !! n = Some c -> weighed_effect eq w slots c slots' c' ->
  ledger w slots' (<[n := c']> calls) = ledger w slots calls.
Proof.
  intros I Hn E. destruct E as [c' Hc Hc' Hw|i s s' c' Hs Hc Hc' _ Hw].
  - rewrite (ledger_none w _ _ _ c) by done. lia.
  - rewrite (ledger_at w _ _ _ c i s) by done. lia.
Qed.

(** ** Ownership is preserved *)

Lemma inv_effect slots calls n c slots' c' :
  slots_inv slots calls -> calls !! n = Some c -> slot_effect slots c slots' c' -> call_ok slots' c' ->
  slots_inv slots' (<[n := c']> calls).
Proof.
  intros I Hn E Hok. destruct E as [c' Hc Hc'|i s s' c' Hs Hc Hc' Hst].
  - assert (Hcases : forall m d, <[n := c']> calls !! m = Some d -> (m = n /\ d = c') \/ (m <> n /\ calls !! m = Some d)).
    { intros m d [(-> & -> & _)|[? ?]]%list_lookup_insert_Some; auto. }
    constructor.
    + intros m d j [[-> ->]|[? Hm]]%Hcases Hd; [congruence | by eapply (inv_held _ _ I)].
    + intros m k d e j [[-> ->]|[? Hm]]%Hcases [[-> ->]|[? Hk]]%Hcases Hd He; try congruence.
      by eapply (inv_unique _ _ I).
    + intros j t Ht Ho. destruct (inv_owner _ _ I j t Ht Ho) as (m & d & Hm & Hd). exists m, d.
      rewrite list_lookup_insert_ne; [done|]. intros ->. congruence.
    + apply I.
    + intros m d [[-> ->]|[? Hm]]%Hcases; [done | by eapply (inv_calls _ _ I)].
  - assert (Hlt : (i < length slots)%nat) by (by eapply lookup_lt_Some).
    assert (Hcases : forall m d, <[n := c']> calls !! m = Some d ->
      (m = n /\ d = c') \/ (m <> n /\ calls !! m = Some d /\ holds d <> Some i)).
    { intros m d [(-> & -> & _)|[? ?]]%list_lookup_insert_Some; [by left|].
      right. split; [done|]. split; [done|]. eapply (at_slot_exclusive slots calls n c i s m); done || congruence. }
    constructor.
    + intros m d j [[-> ->]|(? & Hm & Hne)]%Hcases Hd.
      * destruct Hc' as [[Hh Ho]|[Hh _]]; [|congruence]. assert (j = i) as -> by congruence.
        exists s'. by rewrite list_lookup_insert_eq.
      * assert (i <> j) by congruence. rewrite list_lookup_insert_ne by done. by eapply (inv_held _ _ I).
    + intros m k d e j [[-> ->]|(? & Hm & Hme)]%Hcases [[-> ->]|(? & Hk & Hke)]%Hcases Hd He; try done.
      * destruct Hc' as [[Hh _]|[Hh _]]; congruence.
      * destruct Hc' as [[Hh _]|[Hh _]]; congruence.
      * by eapply (inv_unique _ _ I).
    + intros j t Ht Ho. apply list_lookup_insert_Some in Ht as [(-> & -> & _)|[Hne Ht]].
      * destruct Hc' as [[Hh _]|[_ Hno]]; [|done]. exists n, c'.
        rewrite list_lookup_insert_eq; [done|]. by eapply lookup_lt_Some.
      * destruct (inv_owner _ _ I j t Ht Ho) as (m & d & Hm & Hd). exists m, d.
        rewrite list_lookup_insert_ne; [done|]. intros ->. assert (d = c) as -> by congruence.
        destruct Hc as [[Hh _]|[Hh _]]; congruence.
    + intros j t [(-> & -> & _)|[Hne Ht]]%list_lookup_insert_Some; [done | by eapply (inv_state _ _ I)].
    + intros m d [[-> ->]|(? & Hm & Hne)]%Hcases; [done|]. pose proof (inv_calls _ _ I m d Hm) as Hk.
      destruct d as [? []|? []|? []|[]]; simpl in *; try done.
      all: rewrite list_lookup_insert_ne by congruence; done.
Qed.

(** ** Accounts *)

Section Accounts.
(** The completions counted, and whether timed-out ones are left out until they are canceled. *)
Context (P : HalV2BatchCompletion -> bool) (strict : bool).

Definition counts_state (state : Z) : bool := (state =? kReady) || (negb strict && (state =? kHeld)).

Definition poll_output (pc : PollPc) : list HalV2BatchCompletion :=
  match pc with p_scan _ o | p_copy _ o | p_count _ o | p_free _ o | p_returned o => o end.

Definition counted_output (output : list HalV2BatchCompletion) : Z := zsum (fun c => ind (P c)) output.

(** Published less delivered; a slot counts while its completion is undelivered. *)
Definition account : Weights := {|
  w_call c :=
    match c with
    | submitting _ (s_published fault completion) =>
        if strict && (fault =? fault_completion_timeout) then 0 else ind (P completion)
    | polling _ pc => - counted_output (poll_output pc)
    | _ => 0
    end;
  w_owned c s :=
    match c with
    | polling _ (p_copy _ _) | canceling _ (c_count _ | c_store _) => ind (P (cs_completion s))
    | canceling _ (c_check _ state | c_restore _ state) => ind (counts_state state && P (cs_completion s))
    | _ => 0
    end;
  w_free s := ind (counts_state (cs_state s) && P (cs_completion s))
|}.

Context (R : Z -> Z -> Prop) (R_refl : forall x, R x x).

(** Canceling may only remove weight, in the direction of [R]. *)
Context (R_mark : forall state c, published_state_ok state ->
  R (0 - ind (counts_state state && P c)) (0 - ind (P (set_completion_status canceled_code c)))).
Context (R_marked : forall state c, published_state_ok state -> bc_status c = canceled_code ->
  R (0 - ind (counts_state state && P c)) (0 - ind (P c))).

Lemma weighed_keep slots c i s s' c' :
  slots !! i = Some s -> owned s -> owned s' -> holds c = Some i -> holds c' = Some i ->
  R (w_call account c - w_owned account c s) (w_call account c' - w_owned account c' s') ->
  weighed_effect R account slots c (<[i := s']> slots) c'.
Proof.
  intros Hs Ho Ho' Hc Hc' Hw. apply (weighed_at R account slots c i s s'); try done.
  - by left.
  - by left.
  - unfold owned, kOwned in Ho'. lia.
  - unfold seen. by rewrite !decide_True.
Qed.

Lemma weighed_same slots c i s c' :
  slots !! i = Some s -> owned s -> holds c = Some i -> holds c' = Some i ->
  R (w_call account c - w_owned account c s) (w_call account c' - w_owned account c' s) ->
  weighed_effect R account slots c slots c'.
Proof. intros Hs **. rewrite <- (list_insert_id slots i s Hs) at 2. by eapply weighed_keep. Qed.

Lemma weighed_acquire slots c i s c' :
  slots !! i = Some s -> cs_state s <> kOwned -> holds c = None -> holds c' = Some i ->
  R (w_call account c - w_free account s) (w_call account c' - w_owned account c' (mkCompletionSlot kOwned (cs_completion s))) ->
  weighed_effect R account slots c (<[i := mkCompletionSlot kOwned (cs_completion s)]> slots) c'.
Proof.
  intros Hs Ho Hc Hc' Hw. apply (weighed_at R account slots c i s); try done.
  - by right.
  - by left.
  - unfold seen. by rewrite decide_False, decide_True.
Qed.

Lemma weighed_release slots c i s state c' :
  slots !! i = Some s -> owned s -> state = kFree \/ published_state_ok state -> holds c = Some i -> holds c' = None ->
  R (w_call account c - w_owned account c s) (w_call account c' - w_free account (mkCompletionSlot state (cs_completion s))) ->
  weighed_effect R account slots c (<[i := mkCompletionSlot state (cs_completion s)]> slots) c'.
Proof.
  intros Hs Ho Hst Hc Hc' Hw.
  assert (state <> kOwned /\ 0 <= state <= 3) as [Hne Hr].
  { unfold published_state_ok, kFree, kReady, kHeld, kOwned in *. lia. }
  apply (weighed_at R account slots c i s); try done.
  - by left.
  - by right.
  - unfold seen. by rewrite decide_True, decide_False.
Qed.

Lemma free_weight state completion : state = kFree -> w_free account (mkCompletionSlot state completion) = 0.
Proof. intros ->. unfold account, counts_state. simpl. by rewrite andb_false_r. Qed.

(** What a step must establish. *)
Definition step_ok (b : Loopback) (c : Call) (b' : Loopback) (c' : Call) : Prop :=
  weighed_effect R account (lb_slots b) c (lb_slots b') c' /\ call_ok (lb_slots b') c'.

(** The slot of a call that owns one. *)
Definition holds_slot (b : Loopback) (c : Call) : Prop :=
  forall i, holds c = Some i -> exists s, lb_slots b !! i = Some s /\ owned s.

Ltac idle_step := split; [by apply weighed_none | done].

Lemma submit_step_ok b memory batch pc b' memory' pc' :
  queue_fits b -> holds_slot b (submitting batch pc) -> call_ok (lb_slots b) (submitting batch pc) ->
  submit_step b memory batch pc = (b', memory', pc') ->
  step_ok b (submitting batch pc) b' (submitting batch pc').
Proof.
  intros Hq Hh Hok. unfold holds_slot in Hh.
  destruct pc; simpl in Hh; intros Heq; simpl in Heq;
    try (destruct (Hh _ eq_refl) as (s & Hs & Ho)); try (injection Heq as <- <- <-).
  - destruct (lb_initialized b); idle_step.
  - destruct (lb_accepting b); idle_step.
  - destruct (_ =? _); idle_step.
  - destruct (_ <? _)%nat eqn:Hi; [|injection Heq as <- <- <-; idle_step].
    destruct (claim index kFree b) as [b1|] eqn:Hc; injection Heq as <- <- <-; [|idle_step].
    destruct (queue_slot b index Hq Hi) as (s & Hs). destruct (claim_spec _ _ _ _ _ Hs Hc) as [Hst Hsl].
    unfold step_ok. rewrite Hsl. split; [|done]. apply weighed_acquire; try done; [by rewrite Hst|].
    destruct s. rewrite free_weight by done. apply R_refl.
  - idle_step.
  - idle_step.
  - split; [|done]. by eapply weighed_same.
  - split; [|done]. by eapply weighed_same.
  - split; [|done]. by eapply weighed_same.
  - unfold step_ok. rewrite (slots_store_completion _ _ _ s) by done. split.
    + by eapply weighed_keep.
    + simpl. rewrite list_lookup_insert_eq; [done|]. by eapply lookup_lt_Some.
  - split; [by eapply weighed_same | done].
  - unfold step_ok. rewrite (slots_store_state _ _ _ s) by done. split; [|done].
    simpl in Hok. rewrite Hs in Hok. injection Hok as <-.
    apply weighed_release; try done; [destruct (_ =? _); unfold published_state_ok; auto|].
    unfold account, counts_state; simpl. destruct (fault =? fault_completion_timeout), strict; simpl;
      rewrite ?Z.sub_diag; apply R_refl.
  - idle_step.
  - idle_step.
Qed.

Lemma counted_snoc output c : counted_output (output ++ [c]) = counted_output output + ind (P c).
Proof. unfold counted_output. rewrite zsum_app. simpl. lia. Qed.

Lemma poll_step_ok b capacity pc b' pc' :
  queue_fits b -> holds_slot b (polling capacity pc) -> poll_step b capacity pc = (b', pc') ->
  step_ok b (polling capacity pc) b' (polling capacity pc').
Proof.
  intros Hq Hh. unfold holds_slot in Hh.
  destruct pc as [index output|index output|index output|index output|output]; simpl in Hh; intros Heq; simpl in Heq;
    try (destruct (Hh _ eq_refl) as (s & Hs & Ho)); try (injection Heq as <- <-).
  - destruct ((index <? queue_size b)%nat && _) eqn:Hi; [|injection Heq as <- <-; idle_step].
    apply andb_true_iff in Hi as [Hi _].
    destruct (claim index kReady b) as [b1|] eqn:Hc; injection Heq as <- <-; [|idle_step].
    destruct (queue_slot b index Hq Hi) as (s & Hs). destruct (claim_spec _ _ _ _ _ Hs Hc) as [Hst Hsl].
    unfold step_ok. rewrite Hsl. split; [|done]. apply weighed_acquire; try done; [by rewrite Hst|].
    unfold account, counts_state. simpl. rewrite Hst. apply R_refl.
  - split; [|done]. eapply weighed_same; try done. rewrite (slot_of_lookup _ _ _ Hs). simpl.
    rewrite counted_snoc.
    replace (- (counted_output output + ind (P (cs_completion s))) - 0)
      with (- counted_output output - ind (P (cs_completion s))) by lia. apply R_refl.
  - split; [|done]. by eapply weighed_same.
  - unfold step_ok. rewrite (slots_store_state _ _ _ s) by done. split; [|done].
    apply weighed_release; try done; [by left|]. rewrite free_weight by done. apply R_refl.
  - idle_step.
Qed.

Lemma cancel_step_ok b batch_id pc b' pc' :
  queue_fits b -> holds_slot b (canceling batch_id pc) -> call_ok (lb_slots b) (canceling batch_id pc) ->
  (forall i s, lb_slots b !! i = Some s -> 0 <= cs_state s <= 3) ->
  cancel_step b batch_id pc = (b', pc') ->
  step_ok b (canceling batch_id pc) b' (canceling batch_id pc').
Proof.
  intros Hq Hh Hok Hrange. unfold holds_slot in Hh.
  destruct pc as [index|index state|index state|index state|index|index|status]; simpl in Hh; intros Heq;
    simpl in Heq; simpl in Hok; try (destruct (Hh _ eq_refl) as (s & Hs & Ho)); try (injection Heq as <- <-).
  - destruct (_ <? _)%nat; injection Heq as <- <-; [|idle_step].
    destruct ((cs_state _ =? kReady) || _) eqn:Hst; [|idle_step].
    split; [by apply weighed_none|]. apply orb_true_iff in Hst as [Hst|Hst]; apply Z.eqb_eq in Hst; [left | right]; done.
  - destruct (claim index state b) as [b1|] eqn:Hc; injection Heq as <- <-; [|idle_step].
    assert (Hlt : exists s, lb_slots b !! index = Some s).
    { destruct (lb_slots b !! index) as [s|] eqn:Hs; [by exists s|]. unfold claim, slot_of in Hc. rewrite Hs in Hc.
      simpl in Hc. destruct Hok as [-> | ->]; done. }
    destruct Hlt as (s & Hs). destruct (claim_spec _ _ _ _ _ Hs Hc) as [Hst Hsl].
    unfold step_ok. rewrite Hsl. split; [|done]. apply weighed_acquire; try done.
    + rewrite Hst. destruct Hok as [-> | ->]; done.
    + unfold account. simpl. rewrite Hst. apply R_refl.
  - rewrite (slot_of_lookup _ _ _ Hs) in Heq.
    destruct (bc_batch_id (cs_completion s) =? batch_id); simpl in Heq; [|injection Heq as <- <-].
    + destruct (Z.eqb_spec (bc_status (cs_completion s)) canceled_code) as [Hst|Hst]; injection Heq as <- <-.
      * split; [|done]. eapply weighed_same; try done. by apply R_marked.
      * unfold step_ok. rewrite (slots_store_completion _ _ _ s) by done. split; [|done].
        eapply weighed_keep; try done. by apply R_mark.
    + split; [|done]. by eapply weighed_same.
  - unfold step_ok. rewrite (slots_store_state _ _ _ s) by done. split; [|done].
    apply weighed_release; try done; by right.
  - split; [|done]. by eapply weighed_same.
  - unfold step_ok. rewrite (slots_store_state _ _ _ s) by done. split; [|done].
    apply weighed_release; try done; by right; left.
  - idle_step.
Qed.

Lemma call_step_ok b memory calls n c b' memory' c' :
  queue_fits b -> slots_inv (lb_slots b) calls -> calls !! n = Some c ->
  call_step b memory c = (b', memory', c') -> step_ok b c b' c'.
Proof.
  intros Hq I Hn. pose proof (inv_calls _ _ I n c Hn) as Hok.
  assert (Hh : holds_slot b c) by (intros i; by apply (inv_held _ _ I n)).
  destruct c as [batch pc|capacity pc|batch_id pc|pc]; unfold call_step.
  - destruct (submit_step b memory batch pc) as [[b1 m1] pc1] eqn:He. intros [= <- <- <-]. by eapply submit_step_ok.
  - destruct (poll_step b capacity pc) as [b1 pc1] eqn:He. intros [= <- <- <-]. by eapply poll_step_ok.
  - destruct (cancel_step b batch_id pc) as [b1 pc1] eqn:He. intros [= <- <- <-].
    eapply cancel_step_ok; try done. apply (inv_state _ _ I).
  - intros [= <- <- <-]. idle_step.
Qed.
End Accounts.
