(* ===== verification/LoopbackTheorems.v ===== *)
(** * The loopback backend under every interleaving

    Completions are conserved, slots have one owner, timed-out batches are only seen
    canceled, and every call returns after a bounded number of its own steps. *)

From stdpp Require Import base list numbers sorting sets.
From Stdlib Require Import ZArith Lia Bool.
From S2P Require Import Prelude DeviceCommands ListSums SeqRing HalV2 HeterogeneousMemory LoopbackBackend LoopbackCalls LoopbackSlots.

Local Open Scope Z_scope.

(** ** The invariant of a system *)

Definition system_inv (y : LoopbackSystem) : Prop :=
  queue_fits (ly_backend y) /\ slots_inv (lb_slots (ly_backend y)) (ly_calls y).

(** No batch is in flight. *)
Definition loopback_idle (b : Loopback) : Prop :=
  queue_fits b /\ Forall (fun s => cs_state s = kFree) (lb_slots b).

Lemma idle_inv b memory : loopback_idle b -> system_inv (mkLoopbackSystem b memory []).
Proof.
  intros [Hq Hf]. split; [done|].
  assert (Hfree : forall i s, lb_slots b !! i = Some s -> cs_state s = kFree)
    by (intros i s Hs; exact (Forall_lookup_1 _ _ _ _ Hf Hs)).
  constructor; simpl; try done; intros i s Hs; rewrite ?(Hfree i s Hs); [|done].
  unfold owned. by rewrite (Hfree i s Hs).
Qed.

(** No step changes the configuration. *)
Lemma step_config b memory c b' memory' c' :
  call_step b memory c = (b', memory', c') -> lb_config b' = lb_config b.
Proof.
  destruct c as [batch []|capacity []|batch_id []|[]]; cbn [call_step submit_step poll_step cancel_step health_step];
    unfold claim; repeat case_match; intros; simplify_eq; done.
Qed.

Lemma effect_length slots c slots' c' : slot_effect slots c slots' c' -> length slots' = length slots.
Proof. intros []; [done | by rewrite length_insert]. Qed.

Lemma slots_inv_start slots calls c :
  slots_inv slots calls -> holds c = None -> call_ok slots c -> slots_inv slots (calls ++ [c]).
Proof.
  intros I Hc Hok.
  assert (Hcases : forall n d, (calls ++ [c]) !! n = Some d -> calls !! n = Some d \/ d = c).
  { intros n d [Hd|(_ & Hd)]%lookup_app_Some; [by left | right]. apply list_lookup_singleton_Some in Hd as [_ <-]. done. }
  constructor.
  - intros n d i [Hd| ->]%Hcases Hh; [by eapply (inv_held _ _ I) | congruence].
  - intros n m d e i [Hd| ->]%Hcases [He| ->]%Hcases H1 H2; try congruence. by eapply (inv_unique _ _ I).
  - intros i s Hs Ho. destruct (inv_owner _ _ I i s Hs Ho) as (n & d & Hn & Hd). exists n, d.
    split; [by apply lookup_app_l_Some | done].
  - apply I.
  - intros n d [Hd| ->]%Hcases; [by eapply (inv_calls _ _ I) | done].
Qed.

(** [inject_next] touches neither slots nor configuration. *)
Lemma inject_slots fault b : lb_slots (inject_next fault b).1 = lb_slots b /\ lb_config (inject_next fault b).1 = lb_config b.
Proof. unfold inject_next. by repeat case_match. Qed.

(** The ledger and the invariant along one event. *)
Section Step.
Context (P : HalV2BatchCompletion -> bool) (strict : bool) (R : Z -> Z -> Prop) (R_refl : forall x, R x x).
Context (R_mark : forall state c, published_state_ok state ->
  R (0 - ind (counts_state strict state && P c)) (0 - ind (P (set_completion_status canceled_code c)))).
Context (R_marked : forall state c, published_state_ok state -> bc_status c = canceled_code ->
  R (0 - ind (counts_state strict state && P c)) (0 - ind (P c))).

Definition system_ledger (y : LoopbackSystem) : Z :=
  ledger (account P strict) (lb_slots (ly_backend y)) (ly_calls y).

Lemma ledger_start slots calls c :
  holds c = None -> w_call (account P strict) c = 0 ->
  ledger (account P strict) slots (calls ++ [c]) = ledger (account P strict) slots calls.
Proof. intros Hh Hw. unfold ledger. rewrite zsum_app. simpl. unfold call_weight at 2. rewrite Hh, Hw. lia. Qed.

(** Either the ledger is as before, or a call made a step with a weighed effect. *)
Lemma event_effect y e :
  system_inv y ->
  system_inv (loopback_step y e) /\
  (system_ledger (loopback_step y e) = system_ledger y \/
   exists n c slots' c',
     ly_calls y !! n = Some c /\
     weighed_effect R (account P strict) (lb_slots (ly_backend y)) c slots' c' /\
     system_ledger (loopback_step y e) = ledger (account P strict) slots' (<[n := c']> (ly_calls y))).
Proof.
  intros [Hq I].
  assert (Hstart : forall c, holds c = None -> call_ok (lb_slots (ly_backend y)) c -> w_call (account P strict) c = 0 ->
    let y' := mkLoopbackSystem (ly_backend y) (ly_memory y) (ly_calls y ++ [c]) in
    system_inv y' /\ (system_ledger y' = system_ledger y)).
  { intros c Hh Hok Hw. split; [split; [done | by apply slots_inv_start] | by apply ledger_start]. }
  destruct e as [batch|capacity|batch_id| | |fault|n]; cbn [loopback_step].
  - destruct (Hstart (submit_start batch)) as [? ?]; [done..|]. auto.
  - destruct (Hstart (poll_start capacity)) as [? ?]; [done..|]. auto.
  - destruct (Hstart (cancel_start batch_id)) as [? ?]; [unfold cancel_start; by destruct (_ =? _)..|]. auto.
  - destruct (Hstart (inspecting h_initialized)) as [? ?]; [done..|]. auto.
  - split; [done | by left].
  - destruct (inject_slots fault (ly_backend y)) as [Hs Hc]. unfold system_inv, system_ledger, queue_fits, queue_size.
    cbn [ly_backend ly_calls]. rewrite Hs, Hc. split; [done | by left].
  - destruct (ly_calls y !! n) as [c|] eqn:Hn; [|split; [done | by left]].
    destruct (call_step (ly_backend y) (ly_memory y) c) as [[b' memory'] c'] eqn:Hstep.
    destruct (call_step_ok P strict R R_refl R_mark R_marked _ _ _ _ _ _ _ _ Hq I Hn Hstep) as [E Hok].
    pose proof (weighed_slot_effect _ _ _ _ _ _ E) as E'. split.
    + split; [|by eapply inv_effect].
      unfold queue_fits, queue_size. cbn [ly_backend]. rewrite (step_config _ _ _ _ _ _ Hstep), (effect_length _ _ _ _ E').
      exact Hq.
    + right. by exists n, c, (lb_slots b'), c'.
Qed.
End Step.

(** ** Along a run *)

(** Two completions that differ at most in their status. *)
Definition settled (c : HalV2BatchCompletion) : HalV2BatchCompletion := set_completion_status 0 c.

Definition is_settled (k c : HalV2BatchCompletion) : bool := bool_decide (settled c = k).

Lemma settled_ledger_step k y e :
  system_inv y ->
  system_inv (loopback_step y e) /\
  system_ledger (is_settled k) false (loopback_step y e) = system_ledger (is_settled k) false y.
Proof.
  intros Hy.
  assert (Hc : forall state c, published_state_ok state -> counts_state false state && is_settled k c = is_settled k c).
  { intros state c [-> | ->]; done. }
  destruct (event_effect (is_settled k) false eq (fun x => eq_refl)) with (y := y) (e := e) as [Hy' He].
  - intros state c Hs. by rewrite Hc.
  - intros state c Hs _. by rewrite Hc.
  - done.
  - split; [done|]. destruct He as [He|(n & c & slots' & c' & Hn & He & ->)]; [done|].
    destruct Hy as [_ I]. by apply (ledger_effect_eq _ _ _ _ c).
Qed.

(** A completion with exactly this status, when it is not the canceled one. *)
Lemma exact_ledger_step k y e :
  bc_status k <> canceled_code -> system_inv y ->
  system_ledger (fun c => bool_decide (c = k)) true y <= system_ledger (fun c => bool_decide (c = k)) true (loopback_step y e).
Proof.
  intros Hk Hy.
  destruct (event_effect (fun c => bool_decide (c = k)) true Z.le Z.le_refl) with (y := y) (e := e) as [Hy' He].
  - intros state c Hs. rewrite (bool_decide_false (set_completion_status canceled_code c = k)); [|by intros <-].
    destruct (_ && _); simpl; lia.
  - intros state c Hs Hst. rewrite (bool_decide_false (c = k)); [|by intros <-]. rewrite andb_false_r. done.
  - done.
  - destruct He as [He|(n & c & slots' & c' & Hn & He & ->)]; [lia|].
    destruct Hy as [_ I]. by apply (ledger_effect_le _ _ _ _ c).
Qed.

Lemma run_inv y events : system_inv y -> system_inv (loopback_run y events).
Proof.
  revert y. induction events as [|e events IH]; intros y Hy; [done|]. apply IH.
  by apply (settled_ledger_step default_completion).
Qed.

Lemma run_settled k y events :
  system_inv y -> system_ledger (is_settled k) false (loopback_run y events) = system_ledger (is_settled k) false y.
Proof.
  revert y. induction events as [|e events IH]; intros y Hy; [done|].
  destruct (settled_ledger_step k y e Hy) as [Hy' He]. simpl. by rewrite (IH _ Hy').
Qed.

Lemma run_exact k y events :
  bc_status k <> canceled_code -> system_inv y ->
  system_ledger (fun c => bool_decide (c = k)) true y <=
  system_ledger (fun c => bool_decide (c = k)) true (loopback_run y events).
Proof.
  intros Hk. revert y. induction events as [|e events IH]; intros y Hy; [done|].
  pose proof (exact_ledger_step k y e Hk Hy). pose proof (proj1 (settled_ledger_step k y e Hy)) as Hy'.
  specialize (IH _ Hy'). simpl. lia.
Qed.

Lemma idle_ledger P strict b memory : loopback_idle b -> system_ledger P strict (mkLoopbackSystem b memory []) = 0.
Proof.
  intros [_ Hf]. unfold system_ledger, ledger. simpl.
  rewrite (zsum_ext _ (fun _ => 0)), zsum_const; [done|].
  intros s (i & Hs)%list_elem_of_lookup. pose proof (Forall_lookup_1 _ _ _ _ Hf Hs) as Hst. simpl in Hst.
  destruct s as [state x]. simpl in Hst. unfold slot_weight, owned. rewrite free_weight by done. by destruct (decide _).
Qed.

(** ** Completions of a system *)

(** Published by a submission that has returned. *)
Definition published (y : LoopbackSystem) : list HalV2BatchCompletion :=
  ly_calls y ≫= fun c => match c with submitting _ (s_published _ x) => [x] | _ => [] end.

(** Written to the output of a poll. *)
Definition delivered (y : LoopbackSystem) : list HalV2BatchCompletion :=
  ly_calls y ≫= fun c => match c with polling _ pc => poll_output pc | _ => [] end.

(** In a published slot, or in the slot of a call that has yet to deliver or give it back. *)
Definition resident (y : LoopbackSystem) : list HalV2BatchCompletion :=
  (lb_slots (ly_backend y) ≫= fun s => if (cs_state s =? kReady) || (cs_state s =? kHeld) then [cs_completion s] else []) ++
  (ly_calls y ≫= fun c => match holds c with
                          | Some i => if consumes c then option_list (cs_completion <$> (lb_slots (ly_backend y) !! i)) else []
                          | None => []
                          end).

Lemma zsum_single {A} (f : A -> Z) (p : bool) x : zsum f (if p then [x] else []) = if p then f x else 0.
Proof. destruct p; simpl; lia. Qed.

(** The ledger is the published completions less the delivered and the resident ones. *)
Lemma ledger_lists P y :
  system_inv y ->
  system_ledger P false y =
  zsum (fun c => ind (P c)) (published y) - zsum (fun c => ind (P c)) (delivered y) - zsum (fun c => ind (P c)) (resident y).
Proof.
  intros [_ I]. unfold system_ledger, ledger, published, delivered, resident. rewrite zsum_app, !zsum_bind.
  assert (Hslots : zsum (slot_weight (account P false)) (lb_slots (ly_backend y)) =
    zsum (fun s => zsum (fun c => ind (P c)) (if (cs_state s =? kReady) || (cs_state s =? kHeld) then [cs_completion s] else []))
      (lb_slots (ly_backend y))).
  { apply zsum_ext. intros s _. rewrite zsum_single. unfold slot_weight, owned. simpl. unfold counts_state. simpl.
    destruct (decide (cs_state s = kOwned)) as [->|]; [done|]. by destruct (_ || _). }
  rewrite Hslots. clear Hslots.
  assert (Hcalls : forall calls, (forall c, c ∈ calls -> call_ok (lb_slots (ly_backend y)) c) ->
    zsum (call_weight (account P false) (lb_slots (ly_backend y))) calls =
    zsum (fun x => zsum (fun c => ind (P c)) match x with submitting _ (s_published _ x0) => [x0] | _ => [] end) calls -
    zsum (fun x => zsum (fun c => ind (P c)) match x with polling _ pc => poll_output pc | _ => [] end) calls -
    zsum (fun x => zsum (fun c => ind (P c)) match holds x with
      | Some i => if consumes x then option_list (cs_completion <$> (lb_slots (ly_backend y) !! i)) else []
      | None => [] end) calls).
  { induction calls as [|c calls IH]; intros Hok; [done|]. simpl. rewrite IH by (intros d Hd; apply Hok; by right).
    assert (Hc := Hok c ltac:(by left)). clear IH Hok I. unfold call_weight.
    destruct c as [batch []|capacity []|batch_id []|[]]; simpl; unfold counted_output; try lia.
    all: destruct (_ !! _) as [s|]; simpl; try lia.
    all: destruct Hc as [-> | ->]; simpl; lia. }
  rewrite Hcalls; [lia|]. intros c (n & Hn)%list_elem_of_lookup. by eapply (inv_calls _ _ I).
Qed.

Lemma conserved y :
  system_inv y -> (forall k, system_ledger (is_settled k) false y = 0) ->
  settled <$> published y ≡ₚ settled <$> (delivered y ++ resident y).
Proof.
  intros Hy Hk. apply zsum_permutation. intros k. specialize (Hk k). rewrite ledger_lists in Hk by done.
  rewrite !zsum_fmap, zsum_app.
  assert (Hind : forall l, zsum (fun c => ind (is_settled k c)) l = zsum (fun c => if decide (settled c = k) then 1 else 0) l).
  { intros l. apply zsum_ext. intros c _. unfold is_settled.
    destruct (decide (settled c = k)); [by rewrite bool_decide_true | by rewrite bool_decide_false]. }
  rewrite !Hind in Hk. lia.
Qed.

(** A weighed ledger that is not negative accounts for everything delivered. *)
Lemma delivered_accounted k y :
  system_inv y -> 0 <= system_ledger (fun c => bool_decide (c = k)) true y -> k ∈ delivered y ->
  exists batch fault, submitting batch (s_published fault k) ∈ ly_calls y /\ fault <> fault_completion_timeout.
Proof.
  intros [_ I] Hl Hin. set (P := fun c => bool_decide (c = k)) in *.
  set (pub c := match c with submitting _ (s_published f x) => if f =? fault_completion_timeout then 0 else ind (P x) | _ => 0 end).
  set (out c := match c with polling _ pc => counted_output P (poll_output pc) | _ => 0 end).
  assert (Hle : system_ledger P true y <= zsum (fun c => pub c - out c) (ly_calls y)).
  { unfold system_ledger, ledger.
    assert (0 <= zsum (slot_weight (account P true)) (lb_slots (ly_backend y))).
    { apply zsum_nonneg. intros s _. unfold slot_weight. destruct (decide _); [done|]. simpl. by destruct (_ && _). }
    assert (zsum (call_weight (account P true) (lb_slots (ly_backend y))) (ly_calls y) <= zsum (fun c => pub c - out c) (ly_calls y));
      [|lia].
    apply zsum_le. intros c _. unfold call_weight, pub, out.
    destruct c as [batch []|capacity []|batch_id []|[]]; simpl; try lia.
    all: destruct (_ !! _) as [s|]; simpl; try lia.
    all: destruct (P (cs_completion s)); rewrite ?andb_false_r; simpl; try lia.
    all: destruct (counts_state true _); simpl; lia. }
  assert (Hout : 0 < zsum out (ly_calls y)).
  { unfold delivered in Hin. apply list_elem_of_bind in Hin as (c & Hc & Hcin).
    assert (Hnn : forall d, 0 <= out d).
    { intros d. unfold out. destruct d; try done. apply zsum_nonneg. intros x _. by destruct (P x). }
    apply list_elem_of_split in Hcin as (l1 & l2 & ->). rewrite zsum_app. cbn [zsum foldr].
    fold (zsum out l2). pose proof (zsum_nonneg out l1 (fun d _ => Hnn d)). pose proof (zsum_nonneg out l2 (fun d _ => Hnn d)).
    assert (0 < out c); [|lia]. unfold out. destruct c as [| capacity pc| |]; try by apply elem_of_nil in Hc.
    apply list_elem_of_split in Hc as (o1 & o2 & ->). unfold counted_output. rewrite zsum_app. cbn [zsum foldr].
    fold (zsum (fun c => ind (P c)) o2).
    assert (Ho : forall o, 0 <= zsum (fun c => ind (P c)) o) by (intros o; apply zsum_nonneg; intros x _; by destruct (P x)).
    pose proof (Ho o1). pose proof (Ho o2). unfold P at 2. rewrite bool_decide_true by done. simpl. lia. }
  assert (Hsub : zsum (fun c => pub c - out c) (ly_calls y) = zsum pub (ly_calls y) - zsum out (ly_calls y)).
  { change (zsum (fun c => pub c + - out c) (ly_calls y) = zsum pub (ly_calls y) - zsum out (ly_calls y)).
    rewrite zsum_add, zsum_opp. lia. }
  destruct (zsum_pos pub (ly_calls y)) as (c & Hc & Hp); [lia|].
  unfold pub in Hp. destruct c as [batch []| | |]; try lia.
  destruct (Z.eqb_spec fault fault_completion_timeout); [lia|]. unfold P in Hp. case_bool_decide; simpl in Hp; [|lia].
  subst. eauto.
Qed.

(** C32. Under every interleaving of submissions, polls, cancellations, health queries, injected
    faults and stop requests on an idle backend, completions are neither lost nor duplicated: up to
    the status, what the returned submissions published is, as a multiset, what polls have
    delivered together with what is still resident in the slots.  A slot in the owned state belongs
    to exactly one call, and a slot in another state to none.  And a completion delivered with a
    status other than canceled was published, with that very status, by a submission without an
    injected timeout: a timed-out batch is only ever seen canceled. *)
Theorem loopback_exactly_once b memory events :
  loopback_idle b ->
  let y := loopback_run (mkLoopbackSystem b memory []) events in
  settled <$> published y ≡ₚ settled <$> (delivered y ++ resident y) /\
  (forall i s, lb_slots (ly_backend y) !! i = Some s ->
     (cs_state s = kOwned <-> exists n c, ly_calls y !! n = Some c /\ holds c = Some i)) /\
  (forall i n m c d, ly_calls y !! n = Some c -> ly_calls y !! m = Some d ->
     holds c = Some i -> holds d = Some i -> n = m) /\
  (forall c, c ∈ delivered y -> bc_status c <> canceled_code ->
     exists batch fault, submitting batch (s_published fault c) ∈ ly_calls y /\ fault <> fault_completion_timeout).
Proof.
  intros Hidle y. pose proof (idle_inv b memory Hidle) as H0. pose proof (run_inv _ events H0) as Hy.
  fold y in Hy. refine (conj _ (conj _ (conj _ _))).
  - apply conserved; [done|]. intros k. unfold y. rewrite run_settled by done. by apply idle_ledger.
  - intros i s Hs. destruct Hy as [_ I]. split; [by apply (inv_owner _ _ I)|].
    intros (n & c & Hn & Hc). destruct (inv_held _ _ I n c i Hn Hc) as (s' & Hs' & Ho). by simplify_eq.
  - intros i n m c d. by apply (inv_unique _ _ (proj2 Hy)).
  - intros c Hc Hst. apply delivered_accounted; [done| |done].
    rewrite <- (idle_ledger (fun x => bool_decide (x = c)) true b memory Hidle). by apply run_exact.
Qed.

(** ** Every call returns *)

(** Steps a call still makes, at most. *)
Definition remaining (q : nat) (c : Call) : nat :=
  match c with
  | submitting _ pc =>
      match pc with
      | s_initialized => q + 11
      | s_accepting => q + 10
      | s_fault => q + 9
      | s_scan _ i => (q - i) + 8
      | s_timestamp _ _ => 6
      | s_execute _ _ _ => 5
      | s_record _ _ _ _ => 4
      | s_write _ _ _ => 3
      | s_count _ _ _ => 2
      | s_publish _ _ _ => 1
      | s_reject _ => 2
      | s_reject_record _ => 1
      | s_refused _ | s_published _ _ => 0
      end
  | polling _ pc =>
      match pc with
      | p_scan i _ => 4 * (q - i) + 1
      | p_copy i _ => 4 * (q - S i) + 4
      | p_count i _ => 4 * (q - S i) + 3
      | p_free i _ => 4 * (q - S i) + 2
      | p_returned _ => 0
      end
  | canceling _ pc =>
      match pc with
      | c_load i => 5 * (q - i) + 1
      | c_claim i _ => 5 * (q - S i) + 5
      | c_check i _ => 5 * (q - S i) + 4
      | c_restore i _ => 5 * (q - S i) + 2
      | c_count _ => 2
      | c_store _ => 1
      | c_returned _ => 0
      end
  | inspecting pc =>
      match pc with
      | h_initialized => 5
      | h_submissions _ => 4
      | h_completions _ _ => 3
      | h_rejected _ _ _ => 2
      | h_cancellations _ _ _ _ => 1
      | h_returned _ => 0
      end
  end.

(** A call that has returned: no further step. *)
Definition call_returned (c : Call) : bool :=
  match c with
  | submitting _ (s_refused _ | s_published _ _) | polling _ (p_returned _) | canceling _ (c_returned _)
  | inspecting (h_returned _) => true
  | _ => false
  end.

Lemma call_remaining_step b memory c b' memory' c' :
  call_step b memory c = (b', memory', c') -> call_returned c = false ->
  (remaining (queue_size b) c' < remaining (queue_size b) c)%nat.
Proof.
  destruct c as [batch []|capacity []|batch_id []|[]]; cbn [call_step submit_step poll_step cancel_step health_step];
    unfold claim; repeat case_match; intros; simplify_eq; cbn [remaining]; try done;
    repeat match goal with
           | H : _ && _ = true |- _ => apply andb_true_iff in H as [? ?]
           | H : (_ <? _)%nat = true |- _ => apply Nat.ltb_lt in H
           end; lia.
Qed.

Lemma remaining_returned q c : remaining q c = 0%nat <-> call_returned c = true.
Proof. destruct c as [batch []|capacity []|batch_id []|[]]; cbn [remaining call_returned]; split; intros; lia || done. Qed.

Lemma remaining_bound b c : (remaining (queue_size b) c <= call_fuel b)%nat.
Proof. unfold call_fuel. destruct c as [batch []|capacity []|batch_id []|[]]; cbn [remaining]; lia. Qed.

Lemma step_queue y e : queue_size (ly_backend (loopback_step y e)) = queue_size (ly_backend y).
Proof.
  unfold queue_size. destruct e as [| | | | |fault|n]; cbn [loopback_step ly_backend]; try done.
  - by rewrite (proj2 (inject_slots fault (ly_backend y))).
  - destruct (ly_calls y !! n) as [c|]; [|done].
    destruct (call_step _ _ c) as [[b' memory'] c'] eqn:Hs. cbn [ly_backend]. by rewrite (step_config _ _ _ _ _ _ Hs).
Qed.

Definition is_turn (n : nat) (e : LoopbackEvent) : bool := match e with call_turn m => Nat.eqb m n | _ => false end.

(** The turns of one call in a schedule. *)
Definition turns (n : nat) (events : list LoopbackEvent) : nat := length (filter (fun e => is_turn n e = true) events).

Lemma turn_remaining y e n c :
  ly_calls y !! n = Some c ->
  exists c', ly_calls (loopback_step y e) !! n = Some c' /\
    (remaining (queue_size (ly_backend y)) c' + (if is_turn n e then 1 else 0) <=
     Nat.max (remaining (queue_size (ly_backend y)) c) (if is_turn n e then 1 else 0))%nat.
Proof.
  intros Hn.
  assert (Hstart : forall d, (ly_calls y ++ [d]) !! n = Some c) by (intros d; by apply lookup_app_l_Some).
  destruct e as [| | | | | |m]; cbn [loopback_step is_turn ly_calls]; try (exists c; split; [by rewrite ?Hstart | lia]).
  destruct (Nat.eqb_spec m n) as [->|Hne].
  - rewrite Hn. destruct (call_step _ _ c) as [[b' memory'] c'] eqn:Hs. exists c'. cbn [ly_calls].
    split; [by apply list_lookup_insert_eq, lookup_lt_Some with c|].
    destruct (call_returned c) eqn:Hr; [|pose proof (call_remaining_step _ _ _ _ _ _ Hs Hr); lia].
    assert (call_returned c' = true) as Hr'.
    { destruct c as [batch []|capacity []|batch_id []|[]]; try done; cbn in Hs; by simplify_eq. }
    apply (remaining_returned (queue_size (ly_backend y))) in Hr' as ->. lia.
  - exists c. split; [|lia]. destruct (ly_calls y !! m) as [d|]; [|done].
    destruct (call_step _ _ d) as [[b' memory'] d']. cbn [ly_calls]. by rewrite list_lookup_insert_ne.
Qed.

Lemma run_remaining y events n c :
  ly_calls y !! n = Some c ->
  exists c', ly_calls (loopback_run y events) !! n = Some c' /\
    (remaining (queue_size (ly_backend y)) c' <= remaining (queue_size (ly_backend y)) c - turns n events)%nat.
Proof.
  revert y c. induction events as [|e events IH]; intros y c Hn; [exists c; split; [done | unfold turns; rewrite filter_nil; simpl length; lia]|].
  destruct (turn_remaining y e n c Hn) as (c1 & Hc1 & Hr). destruct (IH (loopback_step y e) c1 Hc1) as (c' & Hc' & Hr').
  exists c'. split; [done|]. rewrite step_queue in Hr'. unfold turns in *. rewrite filter_cons.
  destruct (is_turn n e); simpl; lia.
Qed.


(** Calls that run alone use less than their fuel. *)
Lemma run_call_remaining fuel b memory c :
  let '(b', _, c') := run_call fuel b memory c in
  queue_size b' = queue_size b /\ (remaining (queue_size b) c' <= remaining (queue_size b) c - fuel)%nat.
Proof.
  revert b memory c. induction fuel as [|fuel IH]; intros b memory c; cbn [run_call]; [split; [done | lia]|].
  destruct (call_step b memory c) as [[b1 memory1] c1] eqn:Hs. specialize (IH b1 memory1 c1).
  destruct (run_call fuel b1 memory1 c1) as [[b' memory'] c'].
  assert (Hq : queue_size b1 = queue_size b) by (unfold queue_size; by rewrite (step_config _ _ _ _ _ _ Hs)).
  rewrite Hq in IH. destruct IH as [-> IH]. split; [done|].
  destruct (call_returned c) eqn:Hr; [|pose proof (call_remaining_step _ _ _ _ _ _ Hs Hr); lia].
  apply (remaining_returned (queue_size b)) in Hr as Hz.
  assert (call_returned c1 = true) as Hr'.
  { destruct c as [batch []|capacity []|batch_id []|[]]; try done; cbn in Hs; by simplify_eq. }
  apply (remaining_returned (queue_size b)) in Hr'. lia.
Qed.

Lemma alone_returns b memory c : call_returned (run_call (call_fuel b) b memory c).2 = true.
Proof.
  pose proof (run_call_remaining (call_fuel b) b memory c) as H. destruct (run_call _ _ _ _) as [[b' memory'] c'].
  destruct H as [_ H]. simpl. apply (remaining_returned (queue_size b)). pose proof (remaining_bound b c). lia.
Qed.

(** ** Examples *)

Module LoopbackExample.
Definition config : SampledIoLoopbackConfig := mkLoopbackConfig 2 2 4096 1 1.
Definition backend : Loopback := with_initialized true (with_accepting true (loopback_create config)).
(** A batch without commands, with one signal. *)
Definition batch (id : Z) : DeviceCommandBatch :=
  mkCommandBatch sizeof_batch 1 id 1 1000 0 0 1 0 [] [] [mkTimelinePoint sizeof_point 1 4294967296 id (replicate 3 0)] (replicate 8 0).
Definition times (k : nat) (n : nat) : list LoopbackEvent := replicate k (call_turn n).
Definition start : LoopbackSystem := mkLoopbackSystem backend [] [].
(** A submission with an injected timeout and a normal one overlap; a poll runs between them
    and a cancellation, and a second poll sees the canceled batch. *)
Definition schedule : list LoopbackEvent :=
  [call_inject_next fault_completion_timeout; call_submit_batch (batch 7); call_submit_batch (batch 8)] ++
  times 5 0 ++ times 12 1 ++ times 6 0 ++ [call_poll_batches 4] ++ times 16 2 ++
  [call_cancel_batch 7] ++ times 10 3 ++ [call_poll_batches 4] ++ times 16 4.
(** A health query between whose loads a batch is submitted and polled. *)
Definition torn_health : list LoopbackEvent :=
  [call_get_health; call_submit_batch (batch 7); call_poll_batches 4] ++ times 2 0 ++ times 16 1 ++ times 16 2 ++ times 3 0.
End LoopbackExample.

Lemma example_idle : loopback_idle LoopbackExample.backend.
Proof. split; [vm_compute; lia|]. repeat constructor. Qed.

(** Both batches are published and delivered, the timed-out one as canceled. *)
Example example_schedule :
  let y := loopback_run LoopbackExample.start LoopbackExample.schedule in
  (bc_batch_id <$> published y) = [7; 8] /\
  ((fun c => (bc_batch_id c, bc_status c)) <$> delivered y) = [(8, 0); (7, canceled_code)] /\ resident y = [].
Proof. vm_compute. done. Qed.

Lemma loopback_exactly_once_witness :
  let y := loopback_run LoopbackExample.start LoopbackExample.schedule in
  settled <$> published y ≡ₚ settled <$> (delivered y ++ resident y).
Proof. exact (proj1 (loopback_exactly_once LoopbackExample.backend [] LoopbackExample.schedule example_idle)). Defined.


(** The health query loads the submissions before the completions: when a batch is submitted and
    polled in between, the completions exceed the submissions and the number of outstanding
    batches wraps around. *)
Theorem loopback_health_tears :
  let y := loopback_run LoopbackExample.start LoopbackExample.torn_health in
  exists health, ly_calls y !! 0%nat = Some (inspecting (h_returned health)) /\
    hh_submissions health = 0 /\ hh_completions health = 1 /\ hh_outstanding health = u64_max /\ resident y = [].
Proof. vm_compute. eexists. split_and!; reflexivity. Qed.
