(* ===== verification/LoopbackFrames.v ===== *)
(** * The loopback backend: frames, routes and contracts

    What a batch does to host memory, that the backend's identity does not depend on the
    order of its routes, and that its answers pass the checks of the runtime. *)

From stdpp Require Import base list numbers sorting sets.
From Stdlib Require Import ZArith Lia Bool.
From S2P Require Import Prelude Handles CanonicalBytes SnapshotCodec CodecFields DeviceCommands DeviceCommandTheorems CrossRateTypes SeqRing RecordLayout SampledIo SampledIoFrames HalV2 HeterogeneousMemory HeterogeneousMemoryTheorems LoopbackBackend LoopbackCalls.

Local Open Scope Z_scope.

(** ** Spans of host memory *)

Lemma length_write_span memory a bytes :
  (a + length bytes <= length memory)%nat -> length (write_span memory a bytes) = length memory.
Proof. intros H. unfold write_span. rewrite !length_app, length_take, length_drop. lia. Qed.

Lemma read_written memory a bytes :
  (a + length bytes <= length memory)%nat -> read_span (write_span memory a bytes) a (length bytes) = bytes.
Proof.
  intros H. unfold read_span, write_span. rewrite drop_app_length' by (rewrite length_take; lia).
  by rewrite take_app_length.
Qed.

(** Bytes outside the span written. *)
Lemma write_span_outside memory a bytes i :
  (a + length bytes <= length memory)%nat -> (i < a \/ a + length bytes <= i)%nat ->
  write_span memory a bytes !! i = memory !! i.
Proof.
  intros H [Hi|Hi]; unfold write_span.
  - rewrite lookup_app_l by (rewrite length_take; lia). by apply lookup_take_lt.
  - rewrite lookup_app_r by (rewrite length_take; lia). rewrite length_take, lookup_app_r by lia.
    rewrite lookup_drop. f_equal. lia.
Qed.

(** The header written over the copied frame. *)
Lemma write_prefix memory a bytes header :
  (length header <= length bytes)%nat -> (a + length bytes <= length memory)%nat ->
  write_span (write_span memory a bytes) a header = write_span memory a (header ++ drop (length header) bytes).
Proof.
  intros Hh Hm. unfold write_span. rewrite take_app_le by (rewrite length_take; lia).
  rewrite take_take, Nat.min_id. f_equal. rewrite <- app_assoc. f_equal.
  rewrite drop_app_ge by (rewrite length_take; lia). rewrite length_take.
  replace (a + length header - a `min` length memory)%nat with (length header) by lia.
  rewrite drop_app_le by lia. f_equal. f_equal. rewrite length_app, length_drop. lia.
Qed.

(** ** One routed frame *)

Lemma header_of_read frame h : sampled_io_read_header frame = Some h -> header_of frame = h.
Proof. unfold sampled_io_read_header, header_of. destruct (_ <? _)%nat; [done|]. congruence. Qed.

(** The channels a route joins: the frames have the same shape, and the destination carries the
    identities of the route. *)
Record route_joins (r : SampledIoLoopbackRoute) (input output : CompiledSampledIoChannel) : Prop := {
  joins_source : sc_channel_identity input = rt_source_channel_identity r;
  joins_destination : sc_channel_identity output = rt_destination_channel_identity r;
  joins_clock : sc_timestamp_domain_identity output = rt_destination_timestamp_domain_identity r;
  joins_calibration : sc_calibration_identity output = rt_destination_calibration_identity r;
  joins_trigger : sc_trigger_identity output = rt_destination_trigger_identity r;
  joins_samples : sc_samples_per_frame input = sc_samples_per_frame output;
  joins_encoding : sc_encoding input = sc_encoding output;
  joins_period : sc_sample_period_ns input = sc_sample_period_ns output;
  joins_bytes : sc_frame_bytes input = sc_frame_bytes output;
}.

(** The header written for a source frame and a correlated template. *)
Lemma routed_header_exact r input output sequence generation timestamp checksum sequence' generation' timestamp' checksum' completion fault :
  route_joins r input output -> sequence' <> 0 -> generation' <> 0 -> is_u64 sequence' ->
  routed_header r (exact_header input status_produced sequence generation timestamp checksum)
    (exact_header output status_produced sequence' generation' timestamp' checksum') completion fault =
  let h := exact_header output status_produced sequence' generation' completion checksum in
  if fault =? fault_malformed_sequence
  then mkSampledHeader (sh_struct_size h) (sh_version h) (sh_channel_identity h) (u64 (sequence' + 1))
         (sh_release_generation h) (sh_sample_count h) (sh_encoding h) (sh_timestamp_domain_identity h)
         (sh_first_sample_timestamp h) (sh_sample_interval_ns h) (sh_trigger_identity h) (sh_trigger_sequence h)
         (sh_calibration_identity h) (sh_payload_checksum h) (sh_status h) (sh_reserved0 h) (sh_reserved h)
  else h.
Proof.
  intros [] Hs Hg Hu. unfold routed_header.
  assert (Hc : has_runtime_correlation r (exact_header input status_produced sequence generation timestamp checksum)
    (exact_header output status_produced sequence' generation' timestamp' checksum') = true).
  { unfold has_runtime_correlation, exact_header. cbn [sh_struct_size sh_version sh_channel_identity sh_sample_count sh_encoding
      sh_timestamp_domain_identity sh_sample_interval_ns sh_trigger_identity sh_calibration_identity sh_status sh_sequence
      sh_release_generation sh_trigger_sequence].
    rewrite !andb_true_iff, !negb_true_iff, !Z.eqb_eq, !Z.eqb_neq. split_and!; congruence. }
  rewrite Hc. unfold exact_header. simpl. destruct (fault =? fault_malformed_sequence); f_equal; congruence.
Qed.

Section Execute.
Context (b : Loopback) (completion fault : Z) (memory : list Z) (command : DeviceCommand).
Context (r : SampledIoLoopbackRoute) (input output : CompiledSampledIoChannel).
Context (source destination size : nat) (sequence generation sequence' generation' : Z).

(** What the runtime provides with a dispatch: a routed command whose two references resolve to
    disjoint spans of host memory, a frame of the input channel in the first and the expected
    correlation of the output channel in the second. *)
Record dispatched : Prop := {
  di_route : route (lb_routes b) (dc_opcode command) = Some r;
  di_kind : dc_kind command = kind_dispatch;
  di_count : dc_buffer_count command = 2;
  di_source : resolve b (default zero_reference (dc_buffers command !! 0%nat)) = inr (source, size);
  di_destination : resolve b (default zero_reference (dc_buffers command !! 1%nat)) = inr (destination, size);
  di_memory : bytes_ok memory;
  di_fits : (source + size <= length memory /\ destination + size <= length memory)%nat;
  di_disjoint : (source + size <= destination \/ destination + size <= source)%nat;
  di_joins : route_joins r input output;
  di_typed : sampled_channel_typed output /\ is_u64 completion /\ is_u64 sequence' /\ is_u64 generation';
  di_frame : sampled_io_frame_valid (read_span memory source size) input status_produced sequence generation true = true;
  di_generation : generation' <> 0;
  di_template : exists timestamp' checksum', sampled_io_read_header (read_span memory destination size) =
    Some (exact_header output status_produced sequence' generation' timestamp' checksum') /\ sequence' <> 0;
}.

Context (D : dispatched).

Lemma source_length : length (read_span memory source size) = size.
Proof. unfold read_span. rewrite length_take, length_drop. destruct (di_fits D). lia. Qed.

(** The header of the destination frame. *)
Definition result_header : SampledIoFrameHeader :=
  exact_header output status_produced sequence' generation' completion
    (sampled_io_payload_checksum (drop sampled_header_size (read_span memory source size))).

Lemma size_header : (sampled_header_size <= size)%nat.
Proof.
  destruct (proj1 (frame_valid_header _ _ _ _ _) (di_frame D)) as (_ & _ & ts & Hr).
  rewrite <- source_length. unfold sampled_io_read_header in Hr.
  destruct (Nat.ltb_spec (length (read_span memory source size)) sampled_header_size); [done | lia].
Qed.

Lemma execute_memory :
  exists header, execute_command b completion fault memory command =
    inr (write_span memory destination (encode_frame header (drop sampled_header_size (read_span memory source size)))) /\
  (fault <> fault_malformed_sequence -> header = result_header) /\
  (fault = fault_malformed_sequence -> sh_sequence header = u64 (sequence' + 1) /\
    Forall2 field_fits_width sampled_header_layout (sampled_header_fields header)).
Proof.
  destruct (proj1 (frame_valid_header _ _ _ _ _) (di_frame D)) as (Hne & Hlen & ts & Hr).
  destruct (di_template D) as (ts' & ck' & Ht & Hs'). destruct (di_typed D) as (Hct & Hcu & Hsu & Hgu).
  pose proof (header_of_read _ _ Hr) as Hh. pose proof (header_of_read _ _ Ht) as Hh'. pose proof size_header as Hsz.
  eexists. split; [|split].
  - unfold execute_command. rewrite (di_route D), (di_kind D), (di_count D), (di_source D), (di_destination D).
    cbn [negb orb]. rewrite Nat.eqb_refl, (proj2 (Nat.ltb_ge _ _)) by done. cbn [negb orb].
    rewrite Hh, Hh'. cbn zeta.
    change (sh_struct_size (exact_header ?x _ _ _ _ _)) with (Z.of_nat sampled_header_size).
    change (sh_version (exact_header ?x _ _ _ _ _)) with sampled_io_frame_version.
    change (sh_channel_identity (exact_header ?x _ _ _ _ _)) with (sc_channel_identity x).
    change (sh_payload_checksum (exact_header _ _ _ _ _ ?x)) with x.
    rewrite !Z.eqb_refl, (joins_source _ _ _ (di_joins D)), Z.eqb_refl. cbn [negb orb].
    unfold header_bytes. rewrite write_prefix.
    + rewrite length_frame_header. reflexivity.
    + rewrite length_frame_header, source_length. done.
    + rewrite source_length. apply (di_fits D).
  - intros Hf. rewrite (routed_header_exact _ input output) by (done || apply (di_joins D) || apply (di_generation D)).
    apply Z.eqb_neq in Hf. rewrite Hf. done.
  - intros ->. rewrite (routed_header_exact _ input output) by (done || apply (di_joins D) || apply (di_generation D)).
    rewrite Z.eqb_refl. split; [done|].
    pose proof (exact_header_fits output status_produced (u64 (sequence' + 1)) generation' completion
      (sampled_io_payload_checksum (drop sampled_header_size (read_span memory source size)))
      Hct ltac:(done) ltac:(unfold is_u64, u64, u64_max; pose proof (Z.mod_pos_bound (sequence' + 1) 18446744073709551616); lia)
      Hgu Hcu (sampled_checksum_u64 _)) as Hfit.
    pose proof (exact_header_fits output status_produced sequence' generation' completion
      (sampled_io_payload_checksum (drop sampled_header_size (read_span memory source size)))
      Hct ltac:(done) Hsu Hgu Hcu (sampled_checksum_u64 _)) as Hfit'.
    unfold sampled_header_layout, sampled_header_fields, exact_header in *. simpl in *.
    rewrite !Forall2_cons in *. destruct_and!. split_and!; done.
Qed.

Lemma result_typed :
  Forall2 field_fits_width sampled_header_layout (sampled_header_fields result_header).
Proof.
  destruct (di_typed D) as (Hct & Hcu & Hsu & Hgu). apply exact_header_fits; try done. apply sampled_checksum_u64.
Qed.

Lemma encoded_length header :
  length (encode_frame header (drop sampled_header_size (read_span memory source size))) = size.
Proof. unfold encode_frame. rewrite length_app, length_frame_header, length_drop, source_length. pose proof size_header. lia. Qed.

(** The destination after the command: a valid frame unless the fault spoils its sequence. *)
Lemma destination_frame header memory' :
  memory' = write_span memory destination (encode_frame header (drop sampled_header_size (read_span memory source size))) ->
  read_span memory' destination size = encode_frame header (drop sampled_header_size (read_span memory source size)).
Proof.
  intros ->. transitivity (read_span (write_span memory destination (encode_frame header (drop sampled_header_size (read_span memory source size)))) destination
    (length (encode_frame header (drop sampled_header_size (read_span memory source size))))); [by rewrite encoded_length|].
  apply read_written. rewrite encoded_length. apply (di_fits D).
Qed.

Lemma encoded_payload header (payload : list Z) : drop sampled_header_size (encode_frame header payload) = payload.
Proof. unfold encode_frame. by rewrite drop_app_length' by (by rewrite length_frame_header). Qed.

Lemma result_valid header :
  (fault <> fault_malformed_sequence -> header = result_header) ->
  (fault = fault_malformed_sequence -> sh_sequence header = u64 (sequence' + 1) /\
    Forall2 field_fits_width sampled_header_layout (sampled_header_fields header)) ->
  sampled_io_frame_valid (encode_frame header (drop sampled_header_size (read_span memory source size)))
    output status_produced sequence' generation' true = negb (fault =? fault_malformed_sequence).
Proof.
  intros Hgood Hbad. destruct (Z.eqb_spec fault fault_malformed_sequence) as [Hf|Hf]; cbn [negb].
  - destruct (Hbad Hf) as [Hs Hfit]. apply not_true_iff_false. intros (_ & _ & ts & Hr)%frame_valid_header.
    rewrite read_encoded in Hr by done. injection Hr as Hr. rewrite Hr in Hs. unfold exact_header in Hs. simpl in Hs.
    destruct (di_typed D) as (_ & _ & Hsu & _). unfold is_u64, u64, u64_max in *.
    destruct (Z.eq_dec sequence' 18446744073709551615) as [E|E].
    + rewrite E in Hs. vm_compute in Hs. done.
    + rewrite Z.mod_small in Hs by lia. lia.
  - rewrite (Hgood Hf). apply frame_valid_header. destruct (di_template D) as (_ & _ & _ & Hs').
    split; [done|]. split.
    + rewrite encoded_length, <- (joins_bytes _ _ _ (di_joins D)).
      destruct (proj1 (frame_valid_header _ _ _ _ _) (di_frame D)) as (_ & Hlen & _). by rewrite source_length in Hlen.
    + exists completion. rewrite read_encoded by apply result_typed. by rewrite encoded_payload.
Qed.
End Execute.

(** A dispatched command turns the source frame into a frame the runtime accepts: when the
    source span holds a valid frame of the input channel and the destination span the expected
    correlation of the output channel, the destination afterwards holds a frame with the source's
    payload that passes the runtime's exact check for the expected sequence and release generation;
    with the injected malformed-sequence fault it fails that check.  Every byte outside the
    destination span is unchanged. *)
Theorem loopback_routes_frame b completion fault memory command r input output source destination size
    sequence generation sequence' generation' :
  dispatched b completion memory command r input output source destination size sequence generation sequence' generation' ->
  exists memory', execute_command b completion fault memory command = inr memory' /\
    length memory' = length memory /\
    (forall i, (i < destination \/ destination + size <= i)%nat -> memory' !! i = memory !! i) /\
    drop sampled_header_size (read_span memory' destination size) = drop sampled_header_size (read_span memory source size) /\
    sampled_io_frame_valid (read_span memory' destination size) output status_produced sequence' generation' true =
      negb (fault =? fault_malformed_sequence).
Proof.
  intros D. destruct (execute_memory _ _ fault _ _ _ _ _ _ _ _ _ _ _ _ D) as (header & He & Hgood & Hbad).
  pose proof (encoded_length _ _ _ _ _ _ _ _ _ _ _ _ _ _ D header) as Hl.
  pose proof (di_fits _ _ _ _ _ _ _ _ _ _ _ _ _ _ D) as [_ Hfit].
  eexists. split; [exact He|]. split; [apply length_write_span; by rewrite Hl|]. split.
  { intros i Hi. apply write_span_outside; by rewrite Hl. }
  rewrite (destination_frame _ _ _ _ _ _ _ _ _ _ _ _ _ _ D header _ eq_refl). split; [apply encoded_payload|].
  by eapply result_valid.
Qed.

(** ** The identity of the routes *)

(** A route is selected when its opcode is the least above the previous one. *)
Definition least_above (routes : list SampledIoLoopbackRoute) (previous : Z) (selected : option SampledIoLoopbackRoute) : Prop :=
  match selected with
  | None => forall r, r ∈ routes -> rt_opcode r <= previous
  | Some s => s ∈ routes /\ previous < rt_opcode s /\
              forall r, r ∈ routes -> previous < rt_opcode r -> rt_opcode s <= rt_opcode r
  end.

Lemma select_route_least routes previous : least_above routes previous (select_route routes previous).
Proof.
  unfold select_route. set (f := fun selected r => _).
  enough (H : forall prefix rest selected, least_above prefix previous selected ->
    least_above (prefix ++ rest) previous (foldl f selected rest)) by (apply (H [] routes None); by intros r ?%elem_of_nil).
  intros prefix rest. revert prefix. induction rest as [|r rest IH]; intros prefix selected Hs; [by rewrite app_nil_r|].
  simpl. rewrite cons_middle, app_assoc. apply IH. clear IH. unfold f.
  destruct (Z.ltb_spec previous (rt_opcode r)) as [Hr|Hr]; cbn [andb].
  - destruct selected as [s|]; unfold least_above in *.
    + destruct Hs as (Hin & Hlt & Hmin). destruct (Z.ltb_spec (rt_opcode r) (rt_opcode s)).
      * split; [apply elem_of_app; right; by left|]. split; [done|].
        intros x [Hx| ->%list_elem_of_singleton]%elem_of_app Hp; [specialize (Hmin x Hx Hp); lia | done].
      * split; [apply elem_of_app; by left|]. split; [done|].
        intros x [Hx| ->%list_elem_of_singleton]%elem_of_app Hp; [by apply Hmin | done].
    + split; [apply elem_of_app; right; by left|]. split; [done|].
      intros x [Hx| ->%list_elem_of_singleton]%elem_of_app Hp; [specialize (Hs x Hx); lia | done].
  - destruct selected as [s|]; unfold least_above in *.
    + destruct Hs as (Hin & Hlt & Hmin). split; [apply elem_of_app; by left|]. split; [done|].
      intros x [Hx| ->%list_elem_of_singleton]%elem_of_app Hp; [by apply Hmin | lia].
    + intros x [Hx| ->%list_elem_of_singleton]%elem_of_app; [by apply Hs | done].
Qed.

(** With distinct opcodes the selection depends on the set of routes only. *)
Lemma least_above_unique routes routes' previous s s' :
  NoDup (rt_opcode <$> routes) -> routes ≡ₚ routes' ->
  least_above routes previous s -> least_above routes' previous s' -> s = s'.
Proof.
  intros Hd Hp Hs Hs'.
  assert (Hinj : forall r r', r ∈ routes -> r' ∈ routes -> rt_opcode r = rt_opcode r' -> r = r').
  { intros r r' (i & Hi)%list_elem_of_lookup (j & Hj)%list_elem_of_lookup Heq.
    assert (i = j) as ->; [|congruence].
    apply (NoDup_lookup _ i j (rt_opcode r) Hd); rewrite list_lookup_fmap; [by rewrite Hi | by rewrite Hj, Heq]. }
  destruct s as [s|], s' as [s'|]; unfold least_above in *; try done.
  - destruct Hs as (Hin & Hlt & Hmin), Hs' as (Hin' & Hlt' & Hmin'). f_equal. rewrite <- Hp in Hin'.
    apply Hinj; try done. specialize (Hmin s' Hin' Hlt'). rewrite Hp in Hin. specialize (Hmin' s Hin Hlt). lia.
  - destruct Hs as (Hin & Hlt & _). rewrite Hp in Hin. specialize (Hs' s Hin). lia.
  - destruct Hs' as (Hin & Hlt & _). rewrite <- Hp in Hin. specialize (Hs s' Hin). lia.
Qed.

Lemma route_identity_loop_perm routes routes' ordinals previous hash :
  NoDup (rt_opcode <$> routes) -> routes ≡ₚ routes' ->
  route_identity_loop routes ordinals previous hash = route_identity_loop routes' ordinals previous hash.
Proof.
  intros Hd Hp. revert previous hash. induction ordinals as [|n IH]; intros previous hash; [done|]. cbn [route_identity_loop].
  rewrite (least_above_unique routes routes' previous (select_route routes previous) (select_route routes' previous))
    by (done || apply select_route_least).
  destruct (select_route routes' previous); [apply IH | done].
Qed.

(** The routes of a backend, as [add_route] builds them. *)
Definition add_routes (routes : list SampledIoLoopbackRoute) (b : Loopback) : Loopback :=
  foldl (fun b r => (add_route r b).1) b routes.

Lemma add_route_distinct r b : NoDup (rt_opcode <$> lb_routes b) -> NoDup (rt_opcode <$> lb_routes (add_route r b).1).
Proof.
  intros Hd. unfold add_route. repeat case_match; try done. cbn [fst with_routes lb_routes].
  rewrite fmap_app, NoDup_app. split; [done|]. split; [|apply NoDup_singleton].
  intros o (x & -> & Hx)%list_elem_of_fmap Ho%list_elem_of_singleton.
  match goal with H : existsb _ _ = false |- _ => apply not_true_iff_false in H; apply H end.
  apply existsb_elem_of. exists x. split; [done | by apply Z.eqb_eq].
Qed.

Lemma add_routes_distinct routes b : NoDup (rt_opcode <$> lb_routes b) -> NoDup (rt_opcode <$> lb_routes (add_routes routes b)).
Proof. revert b. induction routes as [|r routes IH]; intros b Hd; [done|]. by apply IH, add_route_distinct. Qed.

Lemma add_routes_all routes b :
  lb_valid_config b = true -> lb_registration_published b = false -> lb_initialized b = false ->
  forallb route_valid routes = true -> NoDup (rt_opcode <$> (lb_routes b ++ routes)) ->
  (length (lb_routes b ++ routes) <= sampled_io_loopback_capacity)%nat ->
  lb_routes (add_routes routes b) = lb_routes b ++ routes.
Proof.
  revert b. induction routes as [|r routes IH]; intros b Hv Hr Hi Hok Hd Hl; [by rewrite app_nil_r|].
  cbn [forallb] in Hok. apply andb_true_iff in Hok as [Hok1 Hok2]. cbn [add_routes foldl].
  assert (Hadd : (add_route r b).1 = with_routes (lb_routes b ++ [r]) b).
  { unfold add_route. rewrite Hv, Hr, Hi, Hok1. cbn [negb orb].
    rewrite length_app in Hl. simpl in Hl. rewrite (proj2 (Nat.leb_gt _ _)) by lia.
    destruct (existsb _ _) eqn:He; [|done]. apply existsb_elem_of in He as (x & Hx & Ho%Z.eqb_eq). exfalso.
    rewrite fmap_app, NoDup_app in Hd. destruct Hd as (_ & Hd & _). apply (Hd (rt_opcode x)).
    - by apply list_elem_of_fmap_2.
    - rewrite Ho. by left. }
  rewrite Hadd. fold (add_routes routes (with_routes (lb_routes b ++ [r]) b)).
  rewrite IH; try done; cbn [with_routes lb_routes]; rewrite <- ?app_assoc; done.
Qed.

(** The identity the backend reports for its routes does not depend on the order in which they
    were added: two backends that accept the same routes in different orders have the same route
    identity, hence the same backend id in their capabilities. *)
Theorem loopback_route_identity config routes routes' :
  let b := loopback_create config in
  lb_valid_config b = true -> forallb route_valid routes = true -> NoDup (rt_opcode <$> routes) ->
  (length routes <= sampled_io_loopback_capacity)%nat -> routes ≡ₚ routes' ->
  route_identity (lb_routes (add_routes routes b)) = route_identity (lb_routes (add_routes routes' b)) /\
  loopback_get_capabilities (add_routes routes b) <> None /\
  hc_backend_id <$> loopback_get_capabilities (add_routes routes b) =
  hc_backend_id <$> loopback_get_capabilities (add_routes routes' b).
Proof.
  intros b Hv Hok Hd Hl Hp.
  assert (Hok' : forallb route_valid routes' = true).
  { apply forallb_elem_of. intros r Hr. rewrite <- Hp in Hr. by apply (proj1 (forallb_elem_of _ _) Hok). }
  assert (Hd' : NoDup (rt_opcode <$> routes')) by (by rewrite <- Hp).
  assert (Hl' : (length routes' <= sampled_io_loopback_capacity)%nat) by (by rewrite <- Hp).
  assert (Hvalid : forall rs, lb_valid_config (add_routes rs b) = true).
  { intros rs. assert (H : forall rs b0, lb_valid_config (add_routes rs b0) = lb_valid_config b0); [|by rewrite H].
    clear. induction rs as [|r rs IH]; intros b0; [done|]. cbn [add_routes foldl]. fold (add_routes rs (add_route r b0).1).
    rewrite IH. unfold add_route. by repeat case_match. }
  assert (Hid : route_identity (lb_routes (add_routes routes b)) = route_identity (lb_routes (add_routes routes' b))).
  { rewrite !add_routes_all by done. unfold b. cbn [loopback_create lb_routes app]. unfold route_identity.
    rewrite (Permutation_length Hp). by apply route_identity_loop_perm. }
  split; [done|]. unfold loopback_get_capabilities. rewrite !Hvalid. cbn [negb]. split; [done|]. cbn. by rewrite Hid.
Qed.

(** ** Contracts *)

(** A backend whose configuration was accepted. *)
Record config_accepted (b : Loopback) : Prop := {
  ca_valid : lb_valid_config b = true;
  ca_queue : 1 <= lc_queue_capacity (lb_config b) <= 16;
  ca_buffers : 1 <= lc_buffer_capacity (lb_config b) <= 16;
  ca_bytes : 1 <= lc_maximum_buffer_bytes (lb_config b);
  ca_domain : lc_memory_domain_identity (lb_config b) <> 0;
  ca_clock : lc_timestamp_domain_identity (lb_config b) <> 0;
}.

Lemma hex_digit_identifier v : identifier_character (hex_digit (Z.land v 15)) = true.
Proof.
  assert (Hr : 0 <= Z.land v 15 < 16).
  { change 15 with (Z.ones 4). rewrite Z.land_ones by lia. apply Z.mod_pos_bound. lia. }
  unfold hex_digit, identifier_character. destruct (Z.ltb_spec (Z.land v 15) 10).
  - rewrite (proj2 (Z.leb_le 48 (48 + _))), (proj2 (Z.leb_le (48 + _) 57)) by lia. by rewrite !orb_true_r.
  - rewrite (proj2 (Z.leb_le 97 (87 + _))), (proj2 (Z.leb_le (87 + _) 122)) by lia. done.
Qed.

Lemma backend_id_valid identity : hal_identifier_valid (backend_id identity) = true.
Proof.
  unfold hal_identifier_valid, backend_id. rewrite app_assoc.
  set (name := backend_prefix ++ (_ <$> seq 0 16)).
  assert (Hn : length name = 36%nat) by (unfold name; by rewrite length_app, length_fmap, length_seq).
  change (replicate 28 0) with (0 :: replicate 27 0).
  rewrite scan_name_app, Hn.
  - rewrite length_app, Hn. cbn [Nat.eqb negb length replicate Nat.add andb].
    rewrite cons_middle, app_assoc, drop_app_length' by (rewrite length_app, Hn; done). done.
  - apply Forall_app. split; [repeat constructor|]. apply Forall_fmap, Forall_forall. intros i _. apply hex_digit_identifier.
Qed.

Lemma loopback_capabilities_valid b :
  config_accepted b ->
  exists capabilities, loopback_get_capabilities b = Some capabilities /\ validate_hal_v2_capabilities capabilities = true.
Proof.
  intros []. unfold loopback_get_capabilities. rewrite ca_valid0. cbn [negb]. eexists. split; [done|].
  unfold validate_hal_v2_capabilities, capabilities_valid.
  cbn [hc_struct_size hc_version hc_max_in_flight hc_max_registered_buffers hc_max_buffer_bytes hc_inline_payload_capacity
    hc_buffer_ref_capacity hc_supports_cancel hc_supports_reset hc_deterministic_mock hc_reserved0 hc_backend_id hc_reserved
    hc_control_storage_bytes].
  rewrite backend_id_valid, !(proj2 (Z.eqb_neq _ 0)) by lia. done.
Qed.

Lemma loopback_snapshot_valid b :
  config_accepted b ->
  exists snapshot, loopback_discover_memory b discovery_request = (hal_ok, snapshot) /\
    validate_memory_topology_snapshot snapshot = true.
Proof.
  intros []. unfold loopback_discover_memory. rewrite (proj2 (Z.ltb_ge _ _)) by done. eexists. split; [done|].
  set (bytes := lc_maximum_buffer_bytes (lb_config b)) in *. set (clock := lc_timestamp_domain_identity (lb_config b)) in *.
  set (identity := lc_memory_domain_identity (lb_config b)) in *.
  assert (Hi : (identity =? 0) = false) by (by apply Z.eqb_neq). assert (Hc : (clock =? 0) = false) by (by apply Z.eqb_neq).
  assert (Hb : (bytes =? 0) = false) by (apply Z.eqb_neq; lia). assert (H1 : (1 <=? bytes) = true) by (apply Z.leb_le; lia).
  assert (Hm : (bytes mod 1 =? 0) = true) by (by rewrite Z.mod_1_r).
  clearbody bytes clock identity.
  match goal with |- validate_memory_topology_snapshot ?x = true => set (s := x) end.
  unfold validate_memory_topology_snapshot, snapshot_header_valid.
  assert (Hn : node_identities s = [1]) by reflexivity. assert (Hk : clock_identities s = [clock]) by reflexivity.
  assert (Hl : snapshot_links s = []) by reflexivity.
  assert (Hclock : contains_identity [clock] clock = true) by (unfold contains_identity; cbn [existsb]; by rewrite Hc, Z.eqb_refl).
  evar (d : HalV2MemoryDomain). assert (Hd : snapshot_domains s = [d]) by (subst d; reflexivity).
  evar (t : HalV2TimestampDomain). assert (Ht : snapshot_clocks s = [t]) by (subst t; reflexivity).
  evar (n : HalV2TopologyNode). assert (Hnodes : snapshot_nodes s = [n]) by (subst n; reflexivity).
  assert (Hplaced : domain_placed s d = true).
  { unfold domain_placed. rewrite Hn, Hk. subst d. cbn [md_topology_node_identity md_timestamp_domain_identity].
    rewrite Hclock. unfold domain_consistent, domain_fields_valid. cbn -[Z.modulo]. by rewrite Hi, Hb, H1, Hm. }
  assert (Hvalid : clock_valid s t = true) by (unfold clock_valid; rewrite Hk; subst t; reflexivity).
  rewrite Hn, Hk, Hl, Hd, Ht, Hnodes. cbn [fmap list_fmap forallb existsb check_links]. rewrite Hplaced, Hvalid. subst d t n.
  cbn [md_identity tn_identity td_identity tl_identity ts_struct_size ts_extension_version ts_memory_domain_count
    ts_topology_node_count ts_topology_link_count ts_timestamp_domain_count ts_reserved
    ts_completion_timestamp_domain_identity s unique_identity existsb]. rewrite Hi, Hc. change (ts_completion_timestamp_domain_identity s) with clock. rewrite Hclock. reflexivity.
Qed.

Lemma loopback_discovery b :
  config_accepted b ->
  exists state, discover_memory_topology (loopback_memory_extension b) = (ok, state) /\
    forall access, valid_memory_access access = true -> is_Some (find_legacy_host_domain state access).
Proof.
  intros Hb. destruct (loopback_snapshot_valid b Hb) as (snapshot & Hs & Hv).
  exists (mkMemoryState true (loopback_memory_extension b) snapshot). split.
  - unfold discover_memory_topology. cbn [loopback_memory_extension te_discover]. rewrite Hs.
    cbn [hal_v2_status_to_runtime]. rewrite Hv. reflexivity.
  - intros access [_ Ha]%andb_true_iff. unfold loopback_discover_memory in Hs.
    rewrite (proj2 (Z.ltb_ge _ _)) in Hs by done. injection Hs as <-.
    unfold find_legacy_host_domain, find, snapshot_domains. cbn [ms_snapshot ts_memory_domain_count].
    change (Z.to_nat 1) with 1%nat. cbn [ts_memory_domains take insert list_insert topology_snapshot_default replicate hal_v2_memory_domain_capacity].
    unfold legacy_host_domain. cbn [md_kind md_ownership_modes md_access md_coherency md_required_synchronization].
    unfold kKnownAccess. rewrite Ha. by eexists.
Qed.

(** A batch the runtime may submit: identified, with valid signals. *)
Definition batch_signals_ok (batch : DeviceCommandBatch) : Prop :=
  bt_batch_id batch <> 0 /\ counted (bt_signal_count batch) hal_v2_timeline_signal_capacity = true /\
  length (bt_signals batch) = hal_v2_timeline_signal_capacity /\
  Forall (fun p => active_point p = true) (take (Z.to_nat (bt_signal_count batch)) (bt_signals batch)).

Lemma valid_code status : valid_status (hal_status_code status) = true.
Proof. by destruct status. Qed.

Lemma loopback_completion_valid b batch timestamp status :
  config_accepted b -> batch_signals_ok batch ->
  validate_batch_completion (completion_of b batch timestamp (hal_status_code status)) = true.
Proof.
  intros Hb (Hid & Hc & Hlen & Hact). unfold validate_batch_completion.
  cbn [completion_of bc_struct_size bc_extension_version bc_status bc_batch_id bc_signal_count bc_timestamp_domain_identity
    bc_reserved bc_signals].
  rewrite valid_code, Hc, (proj2 (Z.eqb_neq _ 0) Hid), (proj2 (Z.eqb_neq _ 0) (ca_clock _ Hb)). cbn -[split_test].
  apply split_test_true. unfold counted in Hc. apply andb_true_iff in Hc as [Hz Hle]. apply Z.leb_le in Hle.
  assert (Hl : length (take (Z.to_nat (bt_signal_count batch)) (bt_signals batch)) = Z.to_nat (bt_signal_count batch)).
  { rewrite length_take, Hlen. unfold hal_v2_timeline_signal_capacity in *. lia. }
  rewrite take_app_length', drop_app_length' by done. split; [done|]. apply Forall_drop. by repeat constructor.
Qed.

(** What the backend offers passes every check the runtime makes before it uses it: with an
    accepted configuration its capabilities are valid, its memory topology is discovered and has a
    host domain for every access, its command extension is discovered with its capabilities, and
    the completion of any well-formed batch, whatever its status, is a valid completion. *)
Theorem loopback_contracts b :
  config_accepted b ->
  (exists capabilities, loopback_get_capabilities b = Some capabilities /\ validate_hal_v2_capabilities capabilities = true) /\
  (exists state, discover_memory_topology (loopback_memory_extension b) = (ok, state) /\
     forall access, valid_memory_access access = true -> is_Some (find_legacy_host_domain state access)) /\
  discover_command_timeline_extension (loopback_command_extension b) None =
    (ok, Some (loopback_command_extension b, loopback_command_capabilities b)) /\
  (forall batch timestamp status, batch_signals_ok batch ->
     validate_batch_completion (completion_of b batch timestamp (hal_status_code status)) = true).
Proof.
  intros Hb. split; [by apply loopback_capabilities_valid|]. split; [by apply loopback_discovery|]. split.
  - unfold discover_command_timeline_extension. cbn [loopback_command_extension ex_get_capabilities].
    assert (Hv : validate_command_timeline_capabilities (loopback_command_capabilities b) = true).
    { destruct Hb. unfold validate_command_timeline_capabilities.
      cbn [loopback_command_capabilities cap_struct_size cap_extension_version cap_max_in_flight_batches cap_max_commands_per_batch
        cap_max_wait_points cap_max_signal_points cap_max_timelines cap_completion_batch_capacity cap_reserved].
      by rewrite !(proj2 (Z.eqb_neq (lc_queue_capacity _) 0)) by lia. }
    rewrite Hv. reflexivity.
  - intros batch timestamp status. by apply loopback_completion_valid.
Qed.

(** ** Examples *)

Module RoutingExample.
Definition config : SampledIoLoopbackConfig := mkLoopbackConfig 2 2 4096 1 1.
Definition routes : list SampledIoLoopbackRoute := [mkRoute 9 5 6 1 8 6; mkRoute 4 6 5 1 8 6].
(** Buffers at the addresses 0 and 122 of host memory. *)
Definition backend : Loopback :=
  with_buffers [mkLoopbackBuffer (Some 0%nat) 122 true; mkLoopbackBuffer (Some 122%nat) 122 true]
    (add_routes routes (loopback_create config)).
Definition input : CompiledSampledIoChannel := corruption_channel.
Definition output : CompiledSampledIoChannel :=
  mkSampledChannel (CrossRateChannelHandle_make 7 1) 1 direction_input 6 signed_int16_le 1 1 122 1 1 0 1 3 8 50 1 9
    trigger_periodic 6 2 1 1000 stale_fail_release overrun_fail_release underrun_fail_release 10000
    (PhaseHandle_make 7 0) 0 (Some 0%nat).
(** The source frame, and the expected correlation (sequence 11, generation 12) of the destination. *)
Definition memory : list Z :=
  corruption_frame ++ encode_frame (exact_header output status_produced 11 12 0 0) [0; 0].
Definition command : DeviceCommand :=
  mkDeviceCommand sizeof_command 1 kind_dispatch operation_invalid 9 0 0 2 []
    [mkBufferReference 1 1 0 0 122; mkBufferReference 2 2 0 0 122] zero_reference zero_reference zero_reference [].
End RoutingExample.

Lemma loopback_routes_frame_witness :
  exists memory', execute_command RoutingExample.backend 77 fault_none RoutingExample.memory RoutingExample.command = inr memory' /\
    sampled_io_frame_valid (read_span memory' 122 122) RoutingExample.output status_produced 11 12 true = true.
Proof.
  destruct (loopback_routes_frame RoutingExample.backend 77 fault_none RoutingExample.memory RoutingExample.command
    (mkRoute 9 5 6 1 8 6) RoutingExample.input RoutingExample.output 0 122 122 3 4 11 12) as (memory' & He & _ & _ & _ & Hv);
    [|exists memory'; split; [exact He | exact Hv]].
  constructor.
  1-5: reflexivity.
  - apply Forall_app. split; (apply Forall_app; split; [apply pack_bytes | repeat constructor; vm_compute; discriminate]).
  - assert (Hl : length RoutingExample.memory = 244%nat) by (vm_compute; reflexivity). rewrite Hl. lia.
  - left. lia.
  - constructor; reflexivity.
  - unfold sampled_channel_typed, is_u64, is_u32, u64_max, u32_max. simpl. unfold signed_int16_le. lia.
  - vm_compute. reflexivity.
  - discriminate.
  - exists 0, 0. split; [vm_compute; reflexivity | discriminate].
Defined.

Lemma loopback_route_identity_witness :
  route_identity (lb_routes (add_routes RoutingExample.routes (loopback_create RoutingExample.config))) =
  route_identity (lb_routes (add_routes (rev RoutingExample.routes) (loopback_create RoutingExample.config))).
Proof.
  refine (proj1 (loopback_route_identity RoutingExample.config RoutingExample.routes (rev RoutingExample.routes) _ _ _ _ _)).
  - reflexivity.
  - reflexivity.
  - cbn. apply NoDup_cons_2; [|apply NoDup_singleton]. intros H%list_elem_of_singleton. discriminate.
  - vm_compute. lia.
  - apply Permutation_rev.
Defined.

Lemma loopback_contracts_witness :
  exists capabilities, loopback_get_capabilities RoutingExample.backend = Some capabilities /\
    validate_hal_v2_capabilities capabilities = true.
Proof.
  refine (proj1 (loopback_contracts RoutingExample.backend _)).
  constructor; vm_compute; repeat split; intros H; discriminate H.
Defined.
