(* ===== verification/DeviceManager.v ===== *)
(** * The device manager: configuration, ownership of backends and admission of work

    [DeviceManager] of rt/src/device_manager.cpp.  Here are the parts that run alone: the
    layout of the constructor, initialisation and shutdown of the backends with the buffers
    registered at them, and the tests and translations that [submit] and [submit_batch] make
    before a request becomes visible to the lanes.  The code behind the function tables of a
    backend is a parameter: every call may answer anything or throw, and the calls made are
    recorded. *)

From stdpp Require Import base list numbers sets strings.
From Stdlib Require Import ZArith Lia Bool.
From S2P Require Import Prelude Handles CanonicalBytes SnapshotCodec DeviceCommands HalV2 HeterogeneousMemory.

Local Open Scope Z_scope.
Local Open Scope rtfw_scope.

(** ** Configuration *)

(** [DeviceBackendSpec]; the command state by its capabilities, the tables are parameters. *)
Record DeviceBackendSpec : Set := mkBackendSpec {
  ds_name : list Z;
  ds_capabilities : HalCapabilities;
  ds_memory_state : option HeterogeneousMemoryState;
  ds_command_state : option HalV2CommandTimelineCapabilities;
}.

(** [DeviceTimelineSpec] *)
Record DeviceTimelineSpec : Set := mkTimelineSpec {
  dt_name : list Z;
  dt_backend_index : Z;
  dt_initial_value : Z;
}.

(** [DeviceBufferSpec]; [storage.data()] is an address, [None] when null. *)
Record DeviceBufferSpec : Set := mkBufferSpec {
  du_name : list Z;
  du_backend_index : nat;
  du_storage : option nat;
  du_flags : Z;
  du_bytes : Z;
  du_domain_identity : Z;
  du_ownership : Z;
  du_coherency : Z;
  du_synchronization : Z;
  du_heterogeneous : bool;
  du_opaque_handle : HalV2OpaqueHandle;
}.

Record DeviceConfig : Set := mkDeviceConfig {
  df_owner : Z;
  df_backends : list DeviceBackendSpec;
  df_buffers : list DeviceBufferSpec;
  df_timelines : list DeviceTimelineSpec;
  df_outstanding_capacity : nat;
  df_completion_batch : nat;
  df_native_per_backend : bool;
}.

Definition device_command_slots (backend : DeviceBackendSpec) (global_capacity : nat) (native_per_backend : bool) : nat :=
  match ds_command_state backend with
  | Some command =>
      if native_per_backend
      then Nat.min global_capacity (Nat.min (Z.to_nat (hc_max_in_flight (ds_capabilities backend)))
                                            (Z.to_nat (cap_max_in_flight_batches command)))
      else global_capacity
  | None => global_capacity
  end.

(** The constant part of [BatchBackendState]; no lane is [None]. *)
Record BatchLane : Set := mkBatchLane {
  bl_slot_offset : nat;
  bl_slot_count : nat;
  bl_lane_index : option nat;
}.

Definition no_lane : BatchLane := mkBatchLane 0 0 None.

(** The loop of the constructor: the lanes, [batch_slot_count_] and [batch_backend_count_]. *)
Definition add_lane (cfg : DeviceConfig) (acc : list BatchLane * nat * nat) (backend : DeviceBackendSpec)
    : list BatchLane * nat * nat :=
  let '(lanes, slots, count) := acc in
  match ds_command_state backend with
  | None => (lanes ++ [no_lane], slots, count)
  | Some _ =>
      let n := device_command_slots backend (df_outstanding_capacity cfg) (df_native_per_backend cfg) in
      (lanes ++ [mkBatchLane slots n (Some count)], (slots + n)%nat, S count)
  end.

Definition batch_layout (cfg : DeviceConfig) : list BatchLane * nat * nat :=
  foldl (add_lane cfg) ([], 0%nat, 0%nat) (df_backends cfg).

Definition batch_lanes (cfg : DeviceConfig) : list BatchLane := fst (fst (batch_layout cfg)).
Definition batch_slot_count (cfg : DeviceConfig) : nat := snd (fst (batch_layout cfg)).
Definition batch_backend_count (cfg : DeviceConfig) : nat := snd (batch_layout cfg).

(** [TimelineState] *)
Record TimelineState : Set := mkTimelineState {
  tl_name : list Z;
  tl_backend_index : Z;
  tl_initial_value : Z;
  tl_last_accepted : Z;
  tl_completed : Z;
}.

Definition create_timeline (s : DeviceTimelineSpec) : TimelineState :=
  mkTimelineState (dt_name s) (dt_backend_index s) (dt_initial_value s) (dt_initial_value s) (dt_initial_value s).

(** ** Ownership of backends and buffers *)

(** [kBackendOwnershipNone], [Initialized] and [InitializationUncertain] *)
Inductive BackendOwnership : Set := owns_nothing | owns_initialized | owns_uncertain.

#[export] Instance BackendOwnership_eq_dec : EqDecision BackendOwnership.
Proof. solve_decision. Defined.

(** [NativeMemoryState] *)
Record NativeMemoryState : Set := mkNativeMemory {
  nm_legacy_token : Z;
  nm_heterogeneous_token : HalV2MemoryToken;
  nm_heterogeneous_owned : bool;
}.

Definition memory_token_default : HalV2MemoryToken :=
  mkMemoryToken sizeof_memory_token hal_v2_memory_topology_extension_version 0
    (mkOpaqueHandle sizeof_opaque_handle 0 (replicate hal_v2_opaque_handle_capacity 0) (replicate 2 0))
    (replicate 4 0).

Definition native_memory_default : NativeMemoryState := mkNativeMemory 0 memory_token_default false.

#[export] Instance native_memory_inhabited : Inhabited NativeMemoryState := populate native_memory_default.

Definition native_owned (n : NativeMemoryState) : bool := negb (nm_legacy_token n =? 0) || nm_heterogeneous_owned n.

(** The calls the manager makes, with what they returned; [hal_internal_error] when they threw. *)
Inductive DeviceCall : Set :=
| call_initialize (backend : nat) (config : HalInitializeConfig) (status : HalV2Status)
| call_register_buffer (backend : nat) (registration : HalBufferRegistration) (token : Z) (status : HalV2Status)
| call_register_memory (backend : nat) (registration : HalV2MemoryRegistration) (token : HalV2MemoryToken) (status : HalV2Status)
| call_unregister_buffer (backend : nat) (token : Z) (status : HalV2Status)
| call_unregister_memory (backend : nat) (registration : HalV2MemoryRegistration) (token : HalV2MemoryToken) (status : HalV2Status)
| call_shutdown (backend : nat) (status : HalV2Status).

(** The function tables of the backends, by backend index: each entry takes the state of the
    devices and gives the new state and the status returned, [None] when the call threw;
    output parameters come between them. *)
Record DeviceTables (W : Type) := mkDeviceTables {
  tb_initialize : W -> nat -> HalInitializeConfig -> W * option HalV2Status;
  tb_register_buffer : W -> nat -> HalBufferRegistration -> Z -> W * Z * option HalV2Status;
  tb_register_memory : W -> nat -> HalV2MemoryRegistration -> HalV2MemoryToken -> W * HalV2MemoryToken * option HalV2Status;
  tb_unregister_buffer : W -> nat -> Z -> W * option HalV2Status;
  tb_unregister_memory : W -> nat -> HalV2MemoryRegistration -> HalV2MemoryToken -> W * option HalV2Status;
  tb_shutdown : W -> nat -> W * option HalV2Status;
}.

Arguments mkDeviceTables {W}.
Arguments tb_initialize {W}.
Arguments tb_register_buffer {W}.
Arguments tb_register_memory {W}.
Arguments tb_unregister_buffer {W}.
Arguments tb_unregister_memory {W}.
Arguments tb_shutdown {W}.

(** [try { status = call; } catch (...) { status = internal_error; }] *)
Definition caught (result : option HalV2Status) : HalV2Status := default hal_internal_error result.

#[export] Instance HalV2Status_eq_dec : EqDecision HalV2Status.
Proof. solve_decision. Defined.

(** What initialisation and shutdown read and write, the devices, and the calls so far. *)
Record Holdings (W : Type) := mkHoldings {
  ho_initialized : list BackendOwnership;
  ho_native : list NativeMemoryState;
  ho_poll_failure : list Status;
  ho_devices : W;
  ho_calls : list DeviceCall;
}.

Arguments mkHoldings {W}.
Arguments ho_initialized {W}.
Arguments ho_native {W}.
Arguments ho_poll_failure {W}.
Arguments ho_devices {W}.
Arguments ho_calls {W}.

Section Lifecycle.
Context {W : Type} (tables : DeviceTables W) (cfg : DeviceConfig).

Implicit Types h : Holdings W.

Definition create_holdings (devices : W) : Holdings W :=
  mkHoldings (replicate (length (df_backends cfg)) owns_nothing)
    (replicate (length (df_buffers cfg)) native_memory_default)
    (replicate (length (df_backends cfg)) ok) devices [].

Definition set_ownership (index : nat) (o : BackendOwnership) h : Holdings W :=
  mkHoldings (<[index := o]> (ho_initialized h)) (ho_native h) (ho_poll_failure h) (ho_devices h) (ho_calls h).
Definition set_native (index : nat) (n : NativeMemoryState) h : Holdings W :=
  mkHoldings (ho_initialized h) (<[index := n]> (ho_native h)) (ho_poll_failure h) (ho_devices h) (ho_calls h).
Definition clear_poll_failure (index : nat) h : Holdings W :=
  mkHoldings (ho_initialized h) (ho_native h) (<[index := ok]> (ho_poll_failure h)) (ho_devices h) (ho_calls h).
Definition called (devices : W) (call : DeviceCall) h : Holdings W :=
  mkHoldings (ho_initialized h) (ho_native h) (ho_poll_failure h) devices (ho_calls h ++ [call]).

Definition ownership_of h (index : nat) : BackendOwnership := default owns_nothing (ho_initialized h !! index).
Definition native_of h (index : nat) : NativeMemoryState := default native_memory_default (ho_native h !! index).

Definition initialize_config (index : nat) (backend : DeviceBackendSpec) : HalInitializeConfig :=
  mkHalInitializeConfig sizeof_hal_initialize_config hal_v2_api_version
    (Z.of_nat (if is_set (ds_command_state backend) then bl_slot_count (default no_lane (batch_lanes cfg !! index))
               else df_outstanding_capacity cfg))
    (Z.of_nat (length (filter (fun b => du_backend_index b = index) (df_buffers cfg)))) (replicate 4 0).

Definition sizeof_memory_registration : Z := 232.

Definition buffer_registration (buffer : DeviceBufferSpec) : HalBufferRegistration :=
  mkHalBufferRegistration sizeof_hal_buffer_registration (du_flags buffer) (du_storage buffer) (du_bytes buffer)
    (du_name buffer) (replicate 4 0).

Definition memory_registration (buffer : DeviceBufferSpec) : HalV2MemoryRegistration :=
  mkMemoryRegistration sizeof_memory_registration hal_v2_memory_topology_extension_version (du_domain_identity buffer)
    (du_bytes buffer) (du_ownership buffer) (du_flags buffer) (du_coherency buffer) (du_synchronization buffer)
    (du_storage buffer) (du_opaque_handle buffer) (du_name buffer) (replicate 4 0).

Definition backend_has_registered_buffers h (backend_index : nat) : bool :=
  existsb (fun p => Nat.eqb (du_backend_index (fst p)) backend_index && native_owned (snd p))
    (zip (df_buffers cfg) (ho_native h)).

Definition has_backend_ownership h : bool :=
  existsb native_owned (ho_native h) || existsb (fun o => negb (bool_decide (o = owns_nothing))) (ho_initialized h).

Definition first_of (failure status : Status) : Status := if decide (failure = ok) then status else failure.

(** One buffer of the first loop of [shutdown_backends]. *)
Definition unregister_one (acc : Holdings W * Status) (index : nat) : Holdings W * Status :=
  let '(h, failure) := acc in
  let native := native_of h index in
  match df_buffers cfg !! index with
  | None => acc
  | Some buffer =>
      if negb (native_owned native) then acc
      else
        let b := du_backend_index buffer in
        if negb (Nat.ltb b (length (df_backends cfg))) || bool_decide (ownership_of h b = owns_nothing)
        then (h, first_of failure invalid_state)
        else
          let '(devices, call, status) :=
            if du_heterogeneous buffer then
              let '(devices, result) := tb_unregister_memory tables (ho_devices h) b (memory_registration buffer)
                                          (nm_heterogeneous_token native) in
              (devices, call_unregister_memory b (memory_registration buffer) (nm_heterogeneous_token native) (caught result),
               caught result)
            else
              let '(devices, result) := tb_unregister_buffer tables (ho_devices h) b (nm_legacy_token native) in
              (devices, call_unregister_buffer b (nm_legacy_token native) (caught result), caught result) in
          let h := called devices call h in
          let status := hal_v2_status_to_runtime status in
          if decide (status = ok) then (set_native index native_memory_default h, failure)
          else (h, first_of failure status)
  end.

(** One backend of the second loop. *)
Definition shutdown_one (acc : Holdings W * Status) (index : nat) : Holdings W * Status :=
  let '(h, failure) := acc in
  let ownership := ownership_of h index in
  if bool_decide (ownership = owns_nothing) || backend_has_registered_buffers h index then acc
  else
    let '(devices, result) := tb_shutdown tables (ho_devices h) index in
    let device_status := caught result in
    let h := called devices (call_shutdown index device_status) h in
    let status := hal_v2_status_to_runtime device_status in
    if decide (status = ok \/ (ownership = owns_uncertain /\ device_status = hal_invalid_state))
    then (clear_poll_failure index (set_ownership index owns_nothing h), failure)
    else (h, first_of failure status).

Definition shutdown_backends h : Holdings W * Status :=
  foldl shutdown_one (foldl unregister_one (h, ok) (reverse (seq 0 (length (df_buffers cfg)))))
    (reverse (seq 0 (length (df_backends cfg)))).

(** The first loop of [initialize_backends], from the given backends on. *)
Fixpoint initialize_from (l : list (nat * DeviceBackendSpec)) h : Holdings W * Status :=
  match l with
  | [] => (h, ok)
  | (index, backend) :: l =>
      let config := initialize_config index backend in
      let '(devices, result) := tb_initialize tables (ho_devices h) index config in
      let h := called devices (call_initialize index config (caught result)) h in
      let status := hal_v2_status_to_runtime (caught result) in
      if decide (status = ok) then initialize_from l (set_ownership index owns_initialized h)
      else (fst (shutdown_backends (set_ownership index owns_uncertain h)), status)
  end.

(** The call of one buffer of the second loop: the new state of its memory and the status. *)
Definition register_one h (index : nat) (buffer : DeviceBufferSpec) : Holdings W * HalV2Status :=
  let native := native_of h index in
  let b := du_backend_index buffer in
  if du_heterogeneous buffer then
    let '(devices, token, result) := tb_register_memory tables (ho_devices h) b (memory_registration buffer)
                                       (nm_heterogeneous_token native) in
    let status := caught result in
    (set_native index (mkNativeMemory (nm_legacy_token native) token true)
       (called devices (call_register_memory b (memory_registration buffer) token status) h),
     if bool_decide (status = hal_ok) && negb (validate_memory_token token true) then hal_internal_error else status)
  else
    let '(devices, token, result) := tb_register_buffer tables (ho_devices h) b (buffer_registration buffer)
                                       (nm_legacy_token native) in
    (set_native index (mkNativeMemory token (nm_heterogeneous_token native) (nm_heterogeneous_owned native))
       (called devices (call_register_buffer b (buffer_registration buffer) token (caught result)) h),
     caught result).

Definition has_native_extension (backend_index : nat) : bool :=
  match df_backends cfg !! backend_index ≫= ds_memory_state with
  | Some memory => ms_native_extension memory
  | None => false
  end.

Fixpoint register_from (l : list (nat * DeviceBufferSpec)) h : Holdings W * Status :=
  match l with
  | [] => (h, ok)
  | (index, buffer) :: l =>
      if du_heterogeneous buffer && negb (has_native_extension (du_backend_index buffer))
      then (fst (shutdown_backends h), invalid_state)
      else
        let '(h, device_status) := register_one h index buffer in
        let status := hal_v2_status_to_runtime device_status in
        if bool_decide (status <> ok) ||
           (negb (du_heterogeneous buffer) && (nm_legacy_token (native_of h index) =? 0))
        then (fst (shutdown_backends h), if decide (status = ok) then device_error else status)
        else register_from l h
  end.

Definition indexed {A} (l : list A) : list (nat * A) := imap pair l.

Definition initialize_backends h : Holdings W * Status :=
  let '(h, status) := initialize_from (indexed (df_backends cfg)) h in
  if decide (status = ok) then register_from (indexed (df_buffers cfg)) h else (h, status).
End Lifecycle.

(** ** Admission of work *)

(** [DeviceRateReleaseIdentity], by the fields that admission reads. *)
Record DeviceRateReleaseIdentity : Set := mkRateIdentity {
  ri_reference_index : option nat;
  ri_domain : RateDomainHandle;
  ri_phase : PhaseHandle;
  ri_supercycle_cycle : Z;
  ri_domain_release_sequence : Z;
  ri_substep_ordinal : Z;
  ri_logical_release_ns : Z;
  ri_nominal_release_ns : Z;
  ri_absolute_deadline_ns : Z;
  ri_completion_budget_ns : Z;
}.

(** [DeviceRateSimulationTiming]; whether a logical clock is set. *)
Record DeviceRateSimulationTiming : Set := mkSimulationTiming {
  sm_host_watchdog_ns : Z;
  sm_logical_clock : bool;
  sm_logical_deadline_ns : Z;
}.

Definition device_rate_simulation_watchdog_limit_ns : Z := 60000000000.

Section Admission.
Context (cfg : DeviceConfig) (natives : list NativeMemoryState) (timelines : list TimelineState) (backend_index : nat).

Definition required_access (access : Z) : Z :=
  if access =? RTFW_DEVICE_ACCESS_READ then RTFW_DEVICE_BUFFER_DEVICE_READ
  else if access =? RTFW_DEVICE_ACCESS_WRITE then RTFW_DEVICE_BUFFER_DEVICE_WRITE
  else Z.lor RTFW_DEVICE_BUFFER_DEVICE_READ RTFW_DEVICE_BUFFER_DEVICE_WRITE.

(** The buffer a logical handle names. *)
Definition logical_buffer (r : HalV2BufferReference) : option (nat * DeviceBufferSpec) :=
  let handle := br_buffer_token r in
  if negb (DeviceBufferHandle_valid handle) || negb (device_owner handle =? df_owner cfg) ||
     negb (br_reserved0 r =? 0) || negb (valid_access (br_access r)) then None
  else
    let index := Z.to_nat (DeviceBufferHandle_index handle) in
    (fun buffer => (index, buffer)) <$> df_buffers cfg !! index.

Definition buffer_domain (buffer : DeviceBufferSpec) : option HalV2MemoryDomain :=
  m ← df_backends cfg !! backend_index ≫= ds_memory_state;
  find_memory_domain m (du_domain_identity buffer).

(** The range lies inside the buffer and keeps the granularity of its domain. *)
Definition range_valid (buffer : DeviceBufferSpec) (r : HalV2BufferReference) : bool :=
  Nat.eqb (du_backend_index buffer) backend_index &&
  match buffer_domain buffer with
  | None => false
  | Some domain =>
      (br_offset r <=? du_bytes buffer) && (br_bytes r <=? du_bytes buffer - br_offset r) &&
      (br_offset r mod md_offset_granularity domain =? 0) && (br_bytes r mod md_byte_granularity domain =? 0)
  end.

Definition access_allowed (buffer : DeviceBufferSpec) (r : HalV2BufferReference) : bool :=
  Z.land (required_access (br_access r)) (Z.lnot (du_flags buffer)) =? 0.

Definition native_token (index : nat) (buffer : DeviceBufferSpec) : Z :=
  let native := default native_memory_default (natives !! index) in
  if du_heterogeneous buffer then mk_submission_token (nm_heterogeneous_token native) else nm_legacy_token native.

Definition with_token (token : Z) (r : HalV2BufferReference) : HalV2BufferReference :=
  mkBufferReference token (br_access r) (br_reserved0 r) (br_offset r) (br_bytes r).

(** [translate_reference] of [submit_batch]: the reference with the token of the backend,
    and the buffer it names. *)
Definition translate_reference (input : HalV2BufferReference) : Status + (HalV2BufferReference * DeviceBufferSpec) :=
  match logical_buffer input with
  | None => inl invalid_handle
  | Some (index, buffer) =>
      let! _ := require (range_valid buffer input) invalid_argument in
      let! _ := require (access_allowed buffer input) invalid_argument in
      let token := native_token index buffer in
      let! _ := require (negb (token =? 0)) invalid_state in
      inr (with_token token input, buffer)
  end.

(** One reference of [submit]. *)
Definition submit_reference (input : HalV2BufferReference) : Status + HalV2BufferReference :=
  match logical_buffer input with
  | None => inl invalid_handle
  | Some (index, buffer) =>
      let! _ := require (range_valid buffer input) invalid_argument in
      let! _ := require (access_allowed buffer input &&
        negb (du_heterogeneous buffer && negb (du_synchronization buffer =? hal_v2_memory_sync_none))) device_error in
      let token := native_token index buffer in
      let! _ := require (negb (token =? 0)) invalid_state in
      inr (mkBufferReference token (br_access input) 0 (br_offset input) (br_bytes input))
  end.

Definition range_covers (operation reference : HalV2BufferReference) : bool :=
  (br_buffer_token operation =? br_buffer_token reference) && (br_offset operation <=? br_offset reference) &&
  (br_bytes reference <=? br_bytes operation) &&
  (br_offset reference - br_offset operation <=? br_bytes operation - br_bytes reference).

(** [matches] of [has_operation] *)
Definition operation_matches (operation : Z) (reference : HalV2BufferReference) (c : DeviceCommand) : bool :=
  if negb (dc_operation c =? operation) then false
  else if dc_kind c =? kind_memory_synchronization then range_covers (dc_target c) reference
  else if negb (dc_kind c =? kind_copy) then false
  else range_covers (if operation =? operation_copy_to_device then dc_destination c else dc_source c) reference.

Definition has_operation (commands : list DeviceCommand) (index : nat) (reference : HalV2BufferReference)
    (operation : Z) (before : bool) : bool :=
  existsb (operation_matches operation reference) (if before then reverse (take index commands) else drop (S index) commands).

Definition needs (buffer : DeviceBufferSpec) (obligation : Z) : bool :=
  negb (Z.land (du_synchronization buffer) obligation =? 0).

(** The synchronization a dispatched reference requires is in the batch. *)
Definition synchronized (commands : list DeviceCommand) (index : nat) (r : HalV2BufferReference) (buffer : DeviceBufferSpec) : bool :=
  let reads := negb (br_access r =? RTFW_DEVICE_ACCESS_WRITE) in
  let writes := negb (br_access r =? RTFW_DEVICE_ACCESS_READ) in
  negb (needs buffer hal_v2_memory_sync_timeline) &&
  negb (reads &&
    ((needs buffer hal_v2_memory_sync_flush && negb (has_operation commands index r operation_flush true)) ||
     (needs buffer hal_v2_memory_sync_copy_to_device && negb (has_operation commands index r operation_copy_to_device true)))) &&
  negb (writes &&
    ((needs buffer hal_v2_memory_sync_invalidate && negb (has_operation commands index r operation_invalidate false)) ||
     (needs buffer hal_v2_memory_sync_copy_from_device && negb (has_operation commands index r operation_copy_from_device false)))).

Definition translate_dispatched (commands : list DeviceCommand) (index : nat) (r : HalV2BufferReference)
    : Status + HalV2BufferReference :=
  let! p := translate_reference r in
  let! _ := require (synchronized commands index r (snd p)) device_error in
  inr (fst p).

Fixpoint sum_mapM {E A B} (f : A -> E + B) (l : list A) : E + list B :=
  match l with
  | [] => inr []
  | x :: l => let! y := f x in let! k := sum_mapM f l in inr (y :: k)
  end.

Definition set_references (buffers : list HalV2BufferReference) (source destination target : HalV2BufferReference)
    (c : DeviceCommand) : DeviceCommand :=
  mkDeviceCommand (dc_struct_size c) (dc_extension_version c) (dc_kind c) (dc_operation c) (dc_opcode c) (dc_flags c)
    (dc_payload_size c) (dc_buffer_count c) (dc_payload c) buffers source destination target (dc_reserved c).

(** One command of the loop. *)
Definition translate_command (commands : list DeviceCommand) (p : nat * DeviceCommand) : Status + DeviceCommand :=
  let '(index, c) := p in
  if dc_kind c =? kind_dispatch then
    let count := Z.to_nat (dc_buffer_count c) in
    let! references := sum_mapM (translate_dispatched commands index) (take count (dc_buffers c)) in
    inr (set_references (references ++ drop count (dc_buffers c)) (dc_source c) (dc_destination c) (dc_target c) c)
  else if dc_kind c =? kind_copy then
    let! source := translate_reference (dc_source c) in
    let! destination := translate_reference (dc_destination c) in
    let! _ := require ((br_bytes (dc_source c) =? br_bytes (dc_destination c)) &&
      (br_access (dc_source c) =? RTFW_DEVICE_ACCESS_READ) && (br_access (dc_destination c) =? RTFW_DEVICE_ACCESS_WRITE))
      invalid_argument in
    let! _ := require (if dc_operation c =? operation_copy_to_device
                       then needs (snd destination) hal_v2_memory_sync_copy_to_device
                       else needs (snd source) hal_v2_memory_sync_copy_from_device) device_error in
    inr (set_references (dc_buffers c) (fst source) (fst destination) (dc_target c) c)
  else
    let! target := translate_reference (dc_target c) in
    let! _ := require (needs (snd target) (if dc_operation c =? operation_flush then hal_v2_memory_sync_flush
                                           else hal_v2_memory_sync_invalidate)) device_error in
    inr (set_references (dc_buffers c) (dc_source c) (dc_destination c) (fst target) c).

(** The timeline of this backend that a point names. *)
Definition point_timeline (p : HalV2TimelinePoint) : option TimelineState :=
  let handle := tp_timeline_handle p in
  if negb (DeviceTimelineHandle_valid handle) || negb (device_owner handle =? df_owner cfg) then None
  else
    timeline ← timelines !! Z.to_nat (DeviceTimelineHandle_index handle);
    if tl_backend_index timeline =? Z.of_nat backend_index then Some timeline else None.

(** The points of a loop: each names a timeline with an acceptable value, none twice. *)
Fixpoint check_points (acceptable : TimelineState -> Z -> bool) (prior : list Z) (points : list HalV2TimelinePoint) : Status + unit :=
  match points with
  | [] => inr ()
  | p :: rest =>
      let! _ := require (from_option (fun t => acceptable t (tp_value p)) false (point_timeline p)) invalid_handle in
      let! _ := require (negb (existsb (Z.eqb (tp_timeline_handle p)) prior)) invalid_argument in
      check_points acceptable (prior ++ [tp_timeline_handle p]) rest
  end.

Definition wait_acceptable (t : TimelineState) (value : Z) : bool := value <=? tl_last_accepted t.
Definition signal_acceptable (t : TimelineState) (value : Z) : bool := tl_last_accepted t <? value.

Definition active_waits (b : DeviceCommandBatch) : list HalV2TimelinePoint := take (Z.to_nat (bt_wait_count b)) (bt_waits b).
Definition active_signals (b : DeviceCommandBatch) : list HalV2TimelinePoint := take (Z.to_nat (bt_signal_count b)) (bt_signals b).
Definition active_commands (b : DeviceCommandBatch) : list DeviceCommand := take (Z.to_nat (bt_command_count b)) (bt_commands b).

Definition set_commands (commands : list DeviceCommand) (b : DeviceCommandBatch) : DeviceCommandBatch :=
  mkCommandBatch (bt_struct_size b) (bt_extension_version b) (bt_batch_id b) (bt_frame_index b) (bt_timeout_ns b)
    (bt_command_count b) (bt_wait_count b) (bt_signal_count b) (bt_reserved0 b) commands (bt_waits b) (bt_signals b)
    (bt_reserved b).

(** From the reserved slot to the translated batch. *)
Definition admit_batch (requested : DeviceCommandBatch) : Status + DeviceCommandBatch :=
  let! _ := check_points wait_acceptable [] (active_waits requested) in
  let! _ := check_points signal_acceptable [] (active_signals requested) in
  let! commands := sum_mapM (translate_command (active_commands requested)) (indexed (active_commands requested)) in
  inr (set_commands (commands ++ drop (Z.to_nat (bt_command_count requested)) (bt_commands requested)) requested).

(** The tests of [submit_batch] before it takes the admission flag. *)
Definition batch_arguments_valid (open : bool) (phase_index : Z) (requested declaration : DeviceCommandBatch)
    (rate : option DeviceRateReleaseIdentity) (simulation : option DeviceRateSimulationTiming) : bool :=
  open && is_set (df_backends cfg !! backend_index ≫= ds_command_state) &&
  validate_batch_shape requested && bool_decide (batch_matches_declaration requested declaration = Some true) &&
  match rate with
  | None => true
  | Some identity =>
      is_set (ri_reference_index identity) && RateDomainHandle_valid (ri_domain identity) &&
      PhaseHandle_valid (ri_phase identity) && (PhaseHandle_index (ri_phase identity) =? phase_index)
  end &&
  match simulation with
  | None => true
  | Some timing =>
      is_set rate && negb (sm_host_watchdog_ns timing =? 0) &&
      (sm_host_watchdog_ns timing <=? device_rate_simulation_watchdog_limit_ns) &&
      negb (from_option (fun b => hc_deterministic_mock (ds_capabilities b)) 0 (df_backends cfg !! backend_index) =? 0)
  end.

(** The capabilities of the backend, and deadlines that do not overflow. *)
Definition batch_fits (simulation_start_ns now : Z) (requested : DeviceCommandBatch) (simulation : option DeviceRateSimulationTiming) : bool :=
  match df_backends cfg !! backend_index ≫= ds_command_state with
  | None => false
  | Some capabilities =>
      (bt_command_count requested <=? cap_max_commands_per_batch capabilities) &&
      (bt_wait_count requested <=? cap_max_wait_points capabilities) &&
      (bt_signal_count requested <=? cap_max_signal_points capabilities) &&
      (bt_timeout_ns requested <=? u64_max - now) &&
      from_option (fun timing => sm_host_watchdog_ns timing <=? u64_max - simulation_start_ns) true simulation
  end.

(** The tests of [submit] and the submission it hands to the backend, without its id. *)
Definition admit_submission (started : bool) (requested : HalSubmission) : Status + HalSubmission :=
  let! _ := require (started && Nat.ltb backend_index (length (df_backends cfg)) &&
    (sizeof_hal_submission <=? hs_struct_size requested) && (hs_version requested =? RTFW_DEVICE_ABI_VERSION) &&
    (hs_submission_id requested =? 0) && (hs_frame_index requested =? 0) && negb (hs_timeout_ns requested =? 0) &&
    (hs_flags requested =? 0) && (hs_payload_size requested <=? RTFW_DEVICE_INLINE_PAYLOAD_CAPACITY) &&
    (hs_buffer_count requested <=? RTFW_DEVICE_BUFFER_REF_CAPACITY) && all_zero (hs_reserved requested)) invalid_argument in
  let! references := sum_mapM submit_reference (take (Z.to_nat (hs_buffer_count requested)) (hs_buffers requested)) in
  inr (mkHalSubmission sizeof_hal_submission hal_v2_api_version 0 0 (hs_timeout_ns requested) (hs_opcode requested)
         (hs_flags requested) (hs_payload_size requested) (hs_buffer_count requested) (hs_payload requested)
         (references ++ replicate (hal_v2_buffer_ref_capacity - length references) zero_reference) (replicate 4 0)).
End Admission.
