(* ===== verification/DeviceOwnership.v ===== *)
(** * The device manager: what it owns at the backends

    A reference protocol for the calls a backend sees, and the proof that initialisation and
    shutdown follow it whatever the backends answer: a backend is initialised once, buffers
    are registered only at an initialised backend, each registration is released with the
    token it gave, and a backend is shut down only when nothing is registered at it. *)

From stdpp Require Import base list numbers sets strings.
From Stdlib Require Import ZArith Lia Bool.
From S2P Require Import Prelude CanonicalBytes SnapshotCodec DeviceCommands HalV2 HeterogeneousMemory DeviceManager.

Local Open Scope Z_scope.

(** ** Lists without one element *)

Fixpoint take_out {A} `{!EqDecision A} (x : A) (l : list A) : option (list A) :=
  match l with
  | [] => None
  | y :: l => if decide (x = y) then Some l else cons y <$> take_out x l
  end.

Lemma take_out_perm {A} `{!EqDecision A} (x : A) l k : l ≡ₚ x :: k -> exists k', take_out x l = Some k' /\ k' ≡ₚ k.
Proof.
  revert k. induction l as [|y l IH]; intros k Hl; [by apply Permutation_nil_cons in Hl|]. simpl.
  destruct (decide (x = y)) as [->|Hxy]; [apply Permutation_cons_inv in Hl; eauto|].
  assert (Hx : x ∈ l) by (assert (x ∈ y :: l) as [?|?]%elem_of_cons by (rewrite Hl; by left); done).
  apply elem_of_Permutation in Hx as [k0 Hk0]. destruct (IH k0 Hk0) as (k' & -> & Hk'). exists (y :: k'). split; [done|].
  rewrite Hk'. apply (Permutation_cons_inv (a := x)). rewrite <- Hl, Hk0. constructor.
Qed.

(** ** The protocol of a backend *)

#[export] Instance HalV2OpaqueHandle_eq_dec : EqDecision HalV2OpaqueHandle.
Proof. solve_decision. Defined.
#[export] Instance HalV2MemoryToken_eq_dec : EqDecision HalV2MemoryToken.
Proof. solve_decision. Defined.
#[export] Instance HalV2MemoryRegistration_eq_dec : EqDecision HalV2MemoryRegistration.
Proof. solve_decision. Defined.

Inductive LiveRegistration : Set :=
| live_buffer (backend : nat) (token : Z)
| live_memory (backend : nat) (registration : HalV2MemoryRegistration) (token : HalV2MemoryToken).

#[export] Instance LiveRegistration_eq_dec : EqDecision LiveRegistration.
Proof. solve_decision. Defined.

Definition live_backend (l : LiveRegistration) : nat :=
  match l with live_buffer b _ => b | live_memory b _ _ => b end.

Record BackendView : Set := mkBackendView {
  vw_up : list BackendOwnership;
  vw_live : list LiveRegistration;
}.

Definition view_up (v : BackendView) (b : nat) : BackendOwnership := default owns_nothing (vw_up v !! b).

Definition release_live (x : LiveRegistration) (status : HalV2Status) (v : BackendView) : option BackendView :=
  rest ← take_out x (vw_live v);
  if decide (view_up v (live_backend x) = owns_nothing) then None
  else Some (if decide (status = hal_ok) then mkBackendView (vw_up v) rest else v).

(** The next view, or [None] when the protocol forbids the call. *)
Definition legal_call (v : BackendView) (c : DeviceCall) : option BackendView :=
  match c with
  | call_initialize b _ status =>
      if decide (view_up v b = owns_nothing)
      then Some (mkBackendView (<[b := if decide (status = hal_ok) then owns_initialized else owns_uncertain]> (vw_up v)) (vw_live v))
      else None
  | call_register_buffer b _ token _ =>
      if decide (view_up v b = owns_initialized)
      then Some (if token =? 0 then v else mkBackendView (vw_up v) (live_buffer b token :: vw_live v))
      else None
  | call_register_memory b registration token _ =>
      if decide (view_up v b = owns_initialized)
      then Some (mkBackendView (vw_up v) (live_memory b registration token :: vw_live v))
      else None
  | call_unregister_buffer b token status => release_live (live_buffer b token) status v
  | call_unregister_memory b registration token status => release_live (live_memory b registration token) status v
  | call_shutdown b status =>
      if decide (view_up v b = owns_nothing \/ Exists (fun l => live_backend l = b) (vw_live v)) then None
      else Some (if decide (status = hal_ok \/ (view_up v b = owns_uncertain /\ status = hal_invalid_state))
                 then mkBackendView (<[b := owns_nothing]> (vw_up v)) (vw_live v) else v)
  end.

Definition replay_calls (backends : nat) (calls : list DeviceCall) : option BackendView :=
  foldl (fun v c => v ≫= fun v => legal_call v c) (Some (mkBackendView (replicate backends owns_nothing) [])) calls.

(** A call that releases something and was refused. *)
Definition refused_release (c : DeviceCall) : Prop :=
  match c with
  | call_unregister_buffer _ _ status | call_unregister_memory _ _ _ status | call_shutdown _ status => status <> hal_ok
  | _ => False
  end.

(** ** The manager's view *)

Definition config_valid (cfg : DeviceConfig) : Prop :=
  Forall (fun b => (du_backend_index b < length (df_backends cfg))%nat) (df_buffers cfg).

#[export] Instance config_valid_decision cfg : Decision (config_valid cfg).
Proof. unfold config_valid. apply _. Defined.

(** What one buffer holds at its backend. *)
Definition held (buffer : DeviceBufferSpec) (n : NativeMemoryState) : list LiveRegistration :=
  if negb (native_owned n) then []
  else if du_heterogeneous buffer
  then [live_memory (du_backend_index buffer) (memory_registration buffer) (nm_heterogeneous_token n)]
  else [live_buffer (du_backend_index buffer) (nm_legacy_token n)].

Definition held_all (buffers : list DeviceBufferSpec) (natives : list NativeMemoryState) : list LiveRegistration :=
  mjoin (zip_with held buffers natives).

Section Holds.
Context {W : Type} (tables : DeviceTables W) (cfg : DeviceConfig) (Hcfg : config_valid cfg).

Implicit Types h : Holdings W.

Record holdings_inv h : Prop := {
  hold_initialized : length (ho_initialized h) = length (df_backends cfg);
  hold_native : length (ho_native h) = length (df_buffers cfg);
  hold_kind : forall i buffer n, df_buffers cfg !! i = Some buffer -> ho_native h !! i = Some n ->
    if du_heterogeneous buffer then nm_legacy_token n = 0 else nm_heterogeneous_owned n = false;
  hold_backend : forall i buffer n, df_buffers cfg !! i = Some buffer -> ho_native h !! i = Some n ->
    native_owned n = true -> ownership_of h (du_backend_index buffer) <> owns_nothing;
  hold_view : exists live, replay_calls (length (df_backends cfg)) (ho_calls h) = Some (mkBackendView (ho_initialized h) live) /\
    live ≡ₚ held_all (df_buffers cfg) (ho_native h);
}.

Lemma replay_snoc n calls c : replay_calls n (calls ++ [c]) = replay_calls n calls ≫= fun v => legal_call v c.
Proof. unfold replay_calls. by rewrite foldl_app. Qed.

Lemma held_all_insert (buffers : list DeviceBufferSpec) natives i buffer n n' :
  buffers !! i = Some buffer -> natives !! i = Some n -> length natives = length buffers ->
  exists rest, held_all buffers natives ≡ₚ held buffer n ++ rest /\
    held_all buffers (<[i := n']> natives) ≡ₚ held buffer n' ++ rest.
Proof.
  intros Hb Hn Hlen. exists (held_all (take i buffers) (take i natives) ++ held_all (drop (S i) buffers) (drop (S i) natives)).
  assert (Hl : (i < length natives)%nat) by (by eapply lookup_lt_Some).
  assert (E : forall m ns, length ns = length buffers -> take i ns = take i natives -> drop (S i) ns = drop (S i) natives ->
    ns !! i = Some m -> held_all buffers ns ≡ₚ held buffer m ++ held_all (take i buffers) (take i natives) ++ held_all (drop (S i) buffers) (drop (S i) natives)).
  { intros m ns Hls Ht Hd Hm. rewrite <- (take_drop_middle buffers i buffer Hb) at 1. rewrite <- (take_drop_middle ns i m Hm) at 1.
    rewrite Ht, Hd. unfold held_all. rewrite zip_with_app by (rewrite !length_take; lia). simpl. rewrite join_app. simpl.
    rewrite (Permutation_app_comm (mjoin (zip_with held (take i buffers) (take i natives)))), <- app_assoc.
    apply Permutation_app_head, Permutation_app_comm. }
  split.
  - by apply E.
  - apply E; [by rewrite length_insert|by rewrite take_insert_ge by lia|by rewrite drop_insert_lt by lia|by apply list_lookup_insert_eq].
Qed.

Lemma held_owned buffer n : native_owned n = true ->
  held buffer n = [if du_heterogeneous buffer then live_memory (du_backend_index buffer) (memory_registration buffer) (nm_heterogeneous_token n)
                   else live_buffer (du_backend_index buffer) (nm_legacy_token n)].
Proof. intros H. unfold held. rewrite H. simpl. by destruct (du_heterogeneous buffer). Qed.

Lemma held_default buffer : held buffer native_memory_default = [].
Proof. done. Qed.

Lemma ok_hal s : hal_v2_status_to_runtime s = ok <-> s = hal_ok.
Proof. by destruct s. Qed.

(** ** Releasing *)

Lemma native_of_lookup h i n : ho_native h !! i = Some n -> native_of h i = n.
Proof. unfold native_of. by intros ->. Qed.

(** The call that releases a registration, with a given answer. *)
Definition release_call (buffer : DeviceBufferSpec) (n : NativeMemoryState) (status : HalV2Status) : DeviceCall :=
  if du_heterogeneous buffer then call_unregister_memory (du_backend_index buffer) (memory_registration buffer) (nm_heterogeneous_token n) status
  else call_unregister_buffer (du_backend_index buffer) (nm_legacy_token n) status.

Lemma unregister_one_owned h failure i buffer n :
  holdings_inv h -> df_buffers cfg !! i = Some buffer -> ho_native h !! i = Some n -> native_owned n = true ->
  exists devices status, unregister_one tables cfg (h, failure) i =
    let h1 := called devices (release_call buffer n status) h in
    if decide (status = hal_ok) then (set_native i native_memory_default h1, failure)
    else (h1, first_of failure (hal_v2_status_to_runtime status)).
Proof.
  intros Hh Hb Hn Ho. unfold unregister_one. rewrite Hb, (native_of_lookup _ _ _ Hn), Ho. cbn [negb].
  rewrite (bool_decide_false (ownership_of h _ = _)) by (by eapply hold_backend).
  pose proof (Forall_lookup_1 _ _ _ _ Hcfg Hb) as Hlt. simpl in Hlt. rewrite (proj2 (Nat.ltb_lt _ _) Hlt). cbn [negb orb].
  unfold release_call. destruct (du_heterogeneous buffer).
  - destruct (tb_unregister_memory _ _ _ _ _) as [devices result]. exists devices, (caught result). cbn zeta.
    destruct (decide (caught result = hal_ok)) as [E|E]; [rewrite decide_True by (by apply ok_hal)|rewrite decide_False by (by rewrite ok_hal)]; done.
  - destruct (tb_unregister_buffer _ _ _ _) as [devices result]. exists devices, (caught result). cbn zeta.
    destruct (decide (caught result = hal_ok)) as [E|E]; [rewrite decide_True by (by apply ok_hal)|rewrite decide_False by (by rewrite ok_hal)]; done.
Qed.

(** ** Sweeps

    Both loops of [shutdown_backends] visit each position once, touch no other, and keep the
    first failure. *)

Definition appends (calls calls' : list DeviceCall) (failure failure' : Status) : Prop :=
  exists new, calls' = calls ++ new /\ (failure' <> ok -> failure <> ok \/ Exists refused_release new).

Lemma appends_refl calls failure : appends calls calls failure failure.
Proof. exists []. rewrite app_nil_r. auto. Qed.

Lemma appends_trans c1 c2 c3 f1 f2 f3 : appends c1 c2 f1 f2 -> appends c2 c3 f2 f3 -> appends c1 c3 f1 f3.
Proof.
  intros (n1 & -> & H1) (n2 & -> & H2). exists (n1 ++ n2). rewrite app_assoc. split; [done|]. intros H. rewrite Exists_app.
  destruct (H2 H) as [Hf|He]; [destruct (H1 Hf); auto|auto].
Qed.

Section Sweep.
Context (step : Holdings W * Status -> nat -> Holdings W * Status) (inv : Holdings W * Status -> Prop) (owned : Holdings W -> nat -> bool).
Context (Hstep : forall h f i, inv (h, f) -> exists h' f', step (h, f) i = (h', f') /\ inv (h', f') /\
  (forall j, j <> i -> owned h' j = owned h j) /\ appends (ho_calls h) (ho_calls h') f f' /\ (f' = ok <-> f = ok /\ owned h' i = false)).

Lemma sweep l h f : NoDup l -> inv (h, f) -> exists h' f', foldl step (h, f) l = (h', f') /\ inv (h', f') /\
  (forall j, j ∉ l -> owned h' j = owned h j) /\ appends (ho_calls h) (ho_calls h') f f' /\
  (f' = ok <-> f = ok /\ forall i, i ∈ l -> owned h' i = false).
Proof.
  revert h f. induction l as [|i l IH]; intros h f Hn Hi; simpl.
  - exists h, f. split_and!; [done|done|done|apply appends_refl|]. split; [split; [done|by intros i Hin%elem_of_nil]|by intros []].
  - apply list.NoDup_cons in Hn as [Hil Hn]. destruct (Hstep h f i Hi) as (h1 & f1 & -> & Hi1 & Ho1 & Ha1 & Hf1).
    destruct (IH h1 f1 Hn Hi1) as (h2 & f2 & -> & Hi2 & Ho2 & Ha2 & Hf2). exists h2, f2. split_and!; [done|done| |by eapply appends_trans|].
    + intros j [Hj1 Hj2]%not_elem_of_cons. by rewrite Ho2, Ho1.
    + rewrite Hf2, Hf1, <- (Ho2 i Hil). split.
      * intros [[-> Hi0] Hl]. split; [done|]. intros j [->|Hj]%elem_of_cons; auto.
      * intros [-> Hall]. split_and!; [done|apply Hall; by left|]. intros j Hj. apply Hall. by right.
Qed.
End Sweep.

(** ** The first loop *)

Definition buffer_owned h (i : nat) : bool := native_owned (native_of h i).

Lemma release_call_legal h buffer n i status live :
  holdings_inv h -> df_buffers cfg !! i = Some buffer -> ho_native h !! i = Some n -> native_owned n = true ->
  live ≡ₚ held_all (df_buffers cfg) (ho_native h) ->
  exists live', legal_call (mkBackendView (ho_initialized h) live) (release_call buffer n status) =
    Some (mkBackendView (ho_initialized h) live') /\
  live' ≡ₚ held_all (df_buffers cfg) (if decide (status = hal_ok) then <[i := native_memory_default]> (ho_native h) else ho_native h).
Proof.
  intros Hh Hb Hn Ho Hlive. destruct (held_all_insert _ _ i buffer n native_memory_default Hb Hn (hold_native h Hh)) as (rest & H1 & H2).
  rewrite (held_owned _ _ Ho) in H1. simpl in H1. pose proof (hold_backend h Hh i buffer n Hb Hn Ho) as Hup.
  set (x := if du_heterogeneous buffer then _ else _) in H1.
  assert (Hx : legal_call (mkBackendView (ho_initialized h) live) (release_call buffer n status) =
    release_live x status (mkBackendView (ho_initialized h) live)).
  { unfold release_call, x. by destruct (du_heterogeneous buffer). }
  rewrite Hx. unfold release_live. cbn [vw_live]. destruct (take_out_perm x live rest) as (k & -> & Hk); [by rewrite Hlive|]. cbn.
  assert (Hxb : live_backend x = du_backend_index buffer) by (unfold x; by destruct (du_heterogeneous buffer)).
  rewrite Hxb, decide_False by exact Hup. case_decide.
  - exists k. split; [done|]. by rewrite Hk, H2, held_default.
  - by exists live.
Qed.

Lemma unregister_step h f i : holdings_inv h ->
  exists h' f', unregister_one tables cfg (h, f) i = (h', f') /\ holdings_inv h' /\
  (forall j, j <> i -> buffer_owned h' j = buffer_owned h j) /\ appends (ho_calls h) (ho_calls h') f f' /\ (f' = ok <-> f = ok /\ buffer_owned h' i = false).
Proof.
  intros Hh. destruct (df_buffers cfg !! i) as [buffer|] eqn:Hb.
  2: { exists h, f. assert (Hu : ho_native h !! i = None).
       { apply lookup_ge_None. rewrite (hold_native h Hh). by apply lookup_ge_None. }
       split_and!; [by unfold unregister_one; rewrite Hb|done|done|apply appends_refl|]. unfold buffer_owned, native_of. rewrite Hu. by intuition. }
  destruct (lookup_lt_is_Some_2 (ho_native h) i) as [n Hn]; [rewrite (hold_native h Hh); by eapply lookup_lt_Some|].
  destruct (native_owned n) eqn:Ho.
  2: { exists h, f. split_and!; [by unfold unregister_one; rewrite Hb, (native_of_lookup _ _ _ Hn), Ho|done|done|apply appends_refl|].
       unfold buffer_owned. rewrite (native_of_lookup _ _ _ Hn), Ho. by intuition. }
  destruct (unregister_one_owned h f i buffer n Hh Hb Hn Ho) as (devices & status & ->). cbn zeta.
  pose proof (hold_view h Hh) as (live & Hv & Hlive).
  destruct (release_call_legal h buffer n i status live Hh Hb Hn Ho Hlive) as (live' & Hlegal & Hlive').
  assert (Hr : replay_calls (length (df_backends cfg)) (ho_calls h ++ [release_call buffer n status]) = Some (mkBackendView (ho_initialized h) live')).
  { by rewrite replay_snoc, Hv. }
  pose proof Hh as [L1 L2 L3 L4 _]. destruct (decide (status = hal_ok)) as [->|Hs].
  - eexists _, _. split; [done|]. split; [|split_and!].
    + constructor; cbn [ho_initialized ho_native ho_calls set_native called]; [done|by rewrite length_insert| | |by exists live'].
      * intros j b m Hb' Hm. apply list_lookup_insert_Some in Hm as [(<- & <- & _)|[_ Hm]]; [by destruct (du_heterogeneous b)|by eapply L3].
      * intros j b m Hb' Hm. apply list_lookup_insert_Some in Hm as [(<- & <- & _)|[_ Hm]]; [done|by eapply L4].
    + intros j Hj. unfold buffer_owned, native_of. cbn [ho_native set_native called]. by rewrite list_lookup_insert_ne.
    + exists [release_call buffer n hal_ok]. split; [done|auto].
    + unfold buffer_owned, native_of. cbn [ho_native set_native called]. rewrite list_lookup_insert_eq by (by eapply lookup_lt_Some). by intuition.
  - eexists _, _. split; [done|]. split; [|split_and!].
    + constructor; cbn [ho_initialized ho_native ho_calls set_native called]; [done..|by exists live'].
    + done.
    + exists [release_call buffer n status]. split; [done|]. intros _. right. constructor. unfold release_call. by destruct (du_heterogeneous buffer).
    + unfold buffer_owned, native_of. cbn [ho_native called]. rewrite Hn. simpl. rewrite Ho. unfold first_of.
      destruct (decide (f = ok)) as [->|Hf]; [|by intuition]. pose proof (ok_hal status). by intuition.
Qed.

(** ** The second loop *)

Definition backend_owned h (i : nat) : bool := negb (bool_decide (ownership_of h i = owns_nothing)).

Lemma elem_of_held_all (buffers : list DeviceBufferSpec) natives x :
  x ∈ held_all buffers natives -> exists i buffer n, buffers !! i = Some buffer /\ natives !! i = Some n /\
    native_owned n = true /\ live_backend x = du_backend_index buffer.
Proof.
  unfold held_all. intros (l & Hx & Hl)%list_elem_of_join. apply list_elem_of_lookup in Hl as (i & Hi).
  apply lookup_zip_with_Some in Hi as (buffer & n & -> & Hb & Hn). exists i, buffer, n. unfold held in Hx.
  destruct (native_owned n); [|by apply elem_of_nil in Hx]. simpl in Hx.
  destruct (du_heterogeneous buffer); apply list_elem_of_singleton in Hx as ->; done.
Qed.

Lemma no_registered_buffers h b i buffer n :
  backend_has_registered_buffers cfg h b = false -> df_buffers cfg !! i = Some buffer -> ho_native h !! i = Some n ->
  native_owned n = true -> du_backend_index buffer <> b.
Proof.
  intros Hr Hb Hn Ho <-. unfold backend_has_registered_buffers in Hr. rewrite <- not_true_iff_false, existsb_exists in Hr. apply Hr.
  exists (buffer, n). split; [|simpl; by rewrite Nat.eqb_refl, Ho]. apply list_elem_of_In, list_elem_of_lookup. exists i.
  rewrite lookup_zip_with, Hb. simpl. by rewrite Hn.
Qed.

Lemma shutdown_step h f i : holdings_inv h -> (f = ok -> forall k, buffer_owned h k = false) ->
  exists h' f', shutdown_one tables cfg (h, f) i = (h', f') /\ holdings_inv h' /\ ho_native h' = ho_native h /\ 
  (forall j, j <> i -> backend_owned h' j = backend_owned h j) /\ appends (ho_calls h) (ho_calls h') f f' /\
  (f' = ok <-> f = ok /\ backend_owned h' i = false).
Proof.
  intros Hh Hun. unfold shutdown_one. destruct (bool_decide (ownership_of h i = owns_nothing)) eqn:Hnone.
  { exists h, f. split_and!; [done|done|done|done|apply appends_refl|]. unfold backend_owned. rewrite Hnone. by intuition. }
  apply bool_decide_eq_false in Hnone. cbn [orb]. destruct (backend_has_registered_buffers cfg h i) eqn:Hreg.
  { exists h, f. split_and!; [done|done|done|done|apply appends_refl|].
    assert (Hf : f <> ok).
    { intros Hf. unfold backend_has_registered_buffers in Hreg. apply existsb_exists in Hreg as ([buffer n] & Hin & [_ Ho]%andb_true_iff).
      apply list_elem_of_In, list_elem_of_lookup in Hin as (k & Hk). apply lookup_zip_with_Some in Hk as (b' & n' & [= <- <-] & _ & Hk).
      specialize (Hun Hf k). unfold buffer_owned in Hun. rewrite (native_of_lookup _ _ _ Hk) in Hun. simpl in Ho. congruence. }
    by intuition. }
  destruct (tb_shutdown _ _ _) as [devices result]. set (status := caught result). cbn zeta.
  pose proof Hh as [L1 L2 L3 L4 (live & Hv & Hlive)].
  assert (Hi : (i < length (ho_initialized h))%nat).
  { apply lookup_lt_is_Some. unfold ownership_of in Hnone. by destruct (ho_initialized h !! i). }
  assert (Hnolive : ~ (view_up (mkBackendView (ho_initialized h) live) i = owns_nothing \/ Exists (fun l => live_backend l = i) live)).
  { intros [?|(x & Hx & Hxb)%Exists_exists]; [done|]. rewrite Hlive in Hx. apply elem_of_held_all in Hx as (k & buffer & n & Hb & Hn & Ho & Hxb').
    eapply no_registered_buffers; [exact Hreg|done..|congruence]. }
  assert (Hr : replay_calls (length (df_backends cfg)) (ho_calls h ++ [call_shutdown i status]) =
    Some (if decide (status = hal_ok \/ (ownership_of h i = owns_uncertain /\ status = hal_invalid_state))
          then mkBackendView (<[i := owns_nothing]> (ho_initialized h)) live else mkBackendView (ho_initialized h) live)).
  { rewrite replay_snoc, Hv. cbn [option_bind mbind]. unfold legal_call. rewrite decide_False by exact Hnolive. done. }
  assert (Hdec : (hal_v2_status_to_runtime status = ok \/ (ownership_of h i = owns_uncertain /\ status = hal_invalid_state)) <->
    (status = hal_ok \/ (ownership_of h i = owns_uncertain /\ status = hal_invalid_state))) by (by rewrite ok_hal).
  destruct (decide (status = hal_ok \/ (ownership_of h i = owns_uncertain /\ status = hal_invalid_state))) as [Hs|Hs].
  - rewrite decide_True by (by apply Hdec). eexists _, _. split; [done|]. split; [|split_and!].
    + constructor; cbn [ho_initialized ho_native ho_calls set_ownership clear_poll_failure called]; [by rewrite length_insert|done|done| |by exists live].
      intros k b n Hb Hn Ho. unfold ownership_of. cbn [ho_initialized set_ownership clear_poll_failure called].
      rewrite list_lookup_insert_ne; [by eapply L4|]. intros ->. by eapply no_registered_buffers.
    + done.
    + intros j Hj. unfold backend_owned, ownership_of. cbn [ho_initialized set_ownership clear_poll_failure called]. by rewrite list_lookup_insert_ne.
    + exists [call_shutdown i status]. split; [done|auto].
    + unfold backend_owned, ownership_of. cbn [ho_initialized set_ownership clear_poll_failure called]. rewrite list_lookup_insert_eq by done. simpl. by intuition.
  - rewrite decide_False by (by rewrite Hdec). eexists _, _. split; [done|]. split; [|split_and!].
    + constructor; cbn [ho_initialized ho_native ho_calls called]; [done..|by exists live].
    + done.
    + done.
    + exists [call_shutdown i status]. split; [done|]. intros _. right. constructor. simpl. intros E. apply Hs. by left.
    + assert (Ho : backend_owned (called devices (call_shutdown i status) h) i = true).
      { unfold backend_owned. by rewrite bool_decide_false. }
      rewrite Ho. unfold first_of. destruct (decide (f = ok)) as [->|Hf]; [|by intuition].
      split; [|by intros []]. intros E. exfalso. apply Hs. left. by apply ok_hal.
Qed.

Lemma ownership_false h : holdings_inv h ->
  has_backend_ownership h = false <-> (forall i, buffer_owned h i = false) /\ (forall i, backend_owned h i = false).
Proof.
  intros _. unfold has_backend_ownership. rewrite orb_false_iff, <- !not_true_iff_false, !existsb_exists. split.
  - intros [H1 H2]. split; intros i.
    + unfold buffer_owned, native_of. destruct (ho_native h !! i) as [n|] eqn:Hn; [|done]. simpl. apply not_true_iff_false. intros Ho.
      apply H1. exists n. split; [|done]. apply list_elem_of_In. by eapply list_elem_of_lookup_2.
    + unfold backend_owned, ownership_of. destruct (ho_initialized h !! i) as [o|] eqn:Hn; [|done]. simpl. apply not_true_iff_false. intros Ho.
      apply H2. exists o. split; [|done]. apply list_elem_of_In. by eapply list_elem_of_lookup_2.
  - intros [H1 H2]. split.
    + intros (n & (i & Hi)%list_elem_of_In%list_elem_of_lookup & Ho). specialize (H1 i). unfold buffer_owned in H1.
      rewrite (native_of_lookup _ _ _ Hi) in H1. congruence.
    + intros (o & (i & Hi)%list_elem_of_In%list_elem_of_lookup & Ho). specialize (H2 i). unfold backend_owned, ownership_of in H2.
      rewrite Hi in H2. simpl in H2. congruence.
Qed.

Lemma NoDup_reverse_seq n : NoDup (reverse (seq 0 n)).
Proof. assert (reverse (seq 0 n) ≡ₚ seq 0 n) as -> by apply reverse_Permutation. apply list.NoDup_seq. Qed.

(** [shutdown_backends] gives everything back, or reports a call that was refused. *)
Lemma shutdown_spec h : holdings_inv h ->
  exists h' f, shutdown_backends tables cfg h = (h', f) /\ holdings_inv h' /\ appends (ho_calls h) (ho_calls h') ok f /\
  (f = ok <-> has_backend_ownership h' = false).
Proof.
  intros Hh. unfold shutdown_backends.
  destruct (sweep (unregister_one tables cfg) (fun p => holdings_inv (fst p)) buffer_owned) with
    (l := reverse (seq 0 (length (df_buffers cfg)))) (h := h) (f := ok) as (h1 & f1 & -> & Hi1 & _ & Ha1 & Hf1); [|apply NoDup_reverse_seq|done|].
  { intros k f i Hk. by apply unregister_step. }
  assert (Hun : forall k, f1 = ok -> buffer_owned h1 k = false).
  { intros k E. apply Hf1 in E as [_ E]. destruct (decide (k < length (df_buffers cfg))%nat) as [Hlt|Hge].
    - apply E. rewrite elem_of_reverse. apply elem_of_seq. lia.
    - unfold buffer_owned, native_of. rewrite (proj2 (lookup_ge_None _ _)); [done|]. rewrite (hold_native h1 Hi1). lia. }
  destruct (sweep (shutdown_one tables cfg) (fun p => holdings_inv (fst p) /\ (snd p = ok -> forall k, buffer_owned (fst p) k = false) /\
      ho_native (fst p) = ho_native h1) backend_owned) with
    (l := reverse (seq 0 (length (df_backends cfg)))) (h := h1) (f := f1) as (h2 & f2 & -> & (Hi2 & _ & Hn2) & _ & Ha2 & Hf2); [|apply NoDup_reverse_seq|by split_and!; auto|].
  { intros k f i (Hk & Hu & Hn). cbn [fst snd] in Hk, Hu, Hn. destruct (shutdown_step k f i Hk Hu) as (k' & f' & -> & Hk' & Hn' & Ho & Ha & Hf).
    exists k', f'. split_and!; try done; [|cbn [fst]; congruence]. simpl. intros E j. unfold buffer_owned, native_of. rewrite Hn'. apply Hu. by apply Hf in E as [-> _]. }
  simpl in *. exists h2, f2. split_and!; [done|done|by eapply appends_trans|]. rewrite ownership_false by done. split.
  - intros E. apply Hf2 in E as [E1 E2]. split.
    + intros k. unfold buffer_owned, native_of. rewrite Hn2. by apply Hun.
    + intros k. destruct (decide (k < length (df_backends cfg))%nat) as [Hlt|Hge].
      * apply E2. rewrite elem_of_reverse. apply elem_of_seq. lia.
      * unfold backend_owned, ownership_of. rewrite (proj2 (lookup_ge_None _ _)); [done|]. rewrite (hold_initialized h2 Hi2). lia.
  - intros [E1 E2]. apply Hf2. split; [|by intros; apply E2]. apply Hf1. split; [done|]. intros k _. specialize (E1 k).
    unfold buffer_owned, native_of in *. by rewrite <- Hn2.
Qed.

(** ** Initialisation *)

(** A start that failed: what stays owned is what a backend refused to take back. *)
Definition failed_start h (result : Holdings W * Status) : Prop :=
  snd result <> ok /\ holdings_inv (fst result) /\
  exists new, ho_calls (fst result) = ho_calls h ++ new /\
    (has_backend_ownership (fst result) = true -> Exists refused_release new).

Lemma failed_shutdown h h1 c status : holdings_inv h1 -> ho_calls h1 = ho_calls h ++ c -> status <> ok ->
  failed_start h (fst (shutdown_backends tables cfg h1), status).
Proof.
  intros Hh Hc Hs. destruct (shutdown_spec h1 Hh) as (h2 & f & -> & Hi & (new & Hnew & Hf) & Ho). split_and!; [done|done|]. simpl.
  exists (c ++ new). rewrite Hnew, Hc, app_assoc. split; [done|]. intros Hown. rewrite Exists_app. right.
  destruct (decide (f = ok)) as [E|E]; [apply Ho in E; congruence|]. by destruct (Hf E).
Qed.

Lemma set_ownership_inv h devices index config status (o : BackendOwnership) :
  holdings_inv h -> (index < length (df_backends cfg))%nat -> ownership_of h index = owns_nothing ->
  o = (if decide (status = hal_ok) then owns_initialized else owns_uncertain) ->
  holdings_inv (set_ownership index o (called devices (call_initialize index config status) h)).
Proof.
  intros [L1 L2 L3 L4 (live & Hv & Hl)] Hi Hn ->. constructor; cbn [ho_initialized ho_native ho_calls set_ownership called]; [by rewrite length_insert|done|done| |].
  - intros k b n Hb Hk Ho. unfold ownership_of. cbn [ho_initialized set_ownership called].
    destruct (decide (index = du_backend_index b)) as [<-|Hne]; [rewrite list_lookup_insert_eq by lia; by case_decide|].
    rewrite list_lookup_insert_ne by done. by eapply L4.
  - exists live. split; [|done]. rewrite replay_snoc, Hv. cbn [option_bind mbind]. unfold legal_call. by rewrite decide_True by exact Hn.
Qed.

Lemma initialize_from_spec l h :
  NoDup (fst <$> l) -> holdings_inv h -> (forall i, buffer_owned h i = false) ->
  (forall p, p ∈ l -> (fst p < length (df_backends cfg))%nat /\ ownership_of h (fst p) = owns_nothing) ->
  let result := initialize_from tables cfg l h in
  failed_start h result \/
  (snd result = ok /\ holdings_inv (fst result) /\ (forall i, buffer_owned (fst result) i = false) /\
   (exists new, ho_calls (fst result) = ho_calls h ++ new) /\
   forall j, ownership_of (fst result) j = if decide (j ∈ fst <$> l) then owns_initialized else ownership_of h j).
Proof.
  revert h. induction l as [|[index backend] l IH]; intros h Hn Hh Hu Hl.
  - right. simpl. split_and!; [done|done|done|exists []; by rewrite app_nil_r|done].
  - simpl in Hn. apply list.NoDup_cons in Hn as [Hnin Hn]. cbn [initialize_from].
    destruct (tb_initialize _ _ _ _) as [devices result]. set (status := caught result).
    destruct (Hl (index, backend)) as [Hlt Hno]; [by left|]. simpl in Hlt, Hno.
    destruct (decide (hal_v2_status_to_runtime status = ok)) as [E|E].
    + apply ok_hal in E. set (h1 := set_ownership _ _ _).
      assert (Hh1 : holdings_inv h1) by (apply set_ownership_inv; [done..|]; by rewrite E).
      assert (Hown : forall j, ownership_of h1 j = if decide (j = index) then owns_initialized else ownership_of h j).
      { intros j. unfold h1, ownership_of. cbn [ho_initialized set_ownership called]. case_decide as Hj.
        - subst j. rewrite list_lookup_insert_eq; [done|]. by rewrite (hold_initialized h Hh).
        - by rewrite list_lookup_insert_ne. }
      specialize (IH h1 Hn Hh1 Hu). cbn zeta in IH. destruct IH as [(Hs & Hi & new & Hc & Hf)|(Hs & Hi & Hu' & (new & Hc) & Ho)].
      * intros p Hp. destruct (Hl p) as [Hp1 Hp2]; [by right|]. split; [done|]. rewrite Hown, decide_False; [done|].
        intros Hpi. apply Hnin. rewrite <- Hpi. by apply list_elem_of_fmap_2.
      * left. split_and!; [done|done|]. unfold h1 in Hc. cbn [ho_calls set_ownership called] in Hc. rewrite <- app_assoc in Hc.
        eexists. split; [exact Hc|]. intros Hown'. apply Exists_app. right. by apply Hf.
      * right. unfold h1 in Hc. cbn [ho_calls set_ownership called] in Hc. rewrite <- app_assoc in Hc.
        split_and!; [done|done|done|by eexists|]. intros j. rewrite Ho, Hown. simpl.
        destruct (decide (j ∈ fst <$> l)); [by rewrite decide_True by (by right)|]. destruct (decide (j = index)) as [->|Hj].
        -- by rewrite decide_True by (by left).
        -- rewrite decide_False; [done|]. by intros [?|?]%elem_of_cons.
    + left. eapply failed_shutdown; [|cbn [ho_calls set_ownership called]; done|done].
      apply set_ownership_inv; [done..|]. rewrite decide_False; [done|]. intros E'. apply E. by apply ok_hal.
Qed.

(** A buffer that the backend accepted. *)
Definition buffer_ready h (i : nat) (buffer : DeviceBufferSpec) : Prop :=
  if du_heterogeneous buffer
  then nm_heterogeneous_owned (native_of h i) = true /\ validate_memory_token (nm_heterogeneous_token (native_of h i)) true = true
  else nm_legacy_token (native_of h i) <> 0.

Lemma register_one_spec h i buffer :
  holdings_inv h -> df_buffers cfg !! i = Some buffer -> buffer_owned h i = false ->
  ownership_of h (du_backend_index buffer) = owns_initialized ->
  let '(h', status) := register_one tables h i buffer in
  holdings_inv h' /\ ho_initialized h' = ho_initialized h /\ (forall j, j <> i -> native_of h' j = native_of h j) /\
  (exists c, ho_calls h' = ho_calls h ++ [c]) /\
  (status = hal_ok -> (du_heterogeneous buffer = false -> nm_legacy_token (native_of h' i) <> 0) -> buffer_ready h' i buffer).
Proof.
  intros Hh Hb Hu Hup. destruct (lookup_lt_is_Some_2 (ho_native h) i) as [n Hn]; [rewrite (hold_native h Hh); by eapply lookup_lt_Some|].
  unfold buffer_owned in Hu. rewrite (native_of_lookup _ _ _ Hn) in Hu. pose proof Hh as [L1 L2 L3 L4 (live & Hv & Hl)].
  pose proof (L3 i buffer n Hb Hn) as Hk. unfold native_owned in Hu. apply orb_false_iff in Hu as [Ht Ho]. apply negb_false_iff, Z.eqb_eq in Ht.
  assert (Hlt : (i < length (ho_native h))%nat) by (by eapply lookup_lt_Some).
  assert (G : forall n' devices c live', legal_call (mkBackendView (ho_initialized h) live) c = Some (mkBackendView (ho_initialized h) live') ->
    live' ≡ₚ held buffer n' ++ live -> (if du_heterogeneous buffer then nm_legacy_token n' = 0 else nm_heterogeneous_owned n' = false) ->
    let h' := set_native i n' (called devices c h) in
    holdings_inv h' /\ ho_initialized h' = ho_initialized h /\ (forall j, j <> i -> native_of h' j = native_of h j) /\ (exists c, ho_calls h' = ho_calls h ++ [c])).
  { intros n' devices c live' Hc Hlive Hkind h'. split_and!.
    - destruct (held_all_insert _ _ i buffer n n' Hb Hn L2) as (rest & H1 & H2).
      assert (Hempty : held buffer n = []) by (unfold held, native_owned; by rewrite Ht, Ho). rewrite Hempty in H1. simpl in H1.
      constructor; unfold h'; cbn [ho_initialized ho_native ho_calls set_native called]; [done|by rewrite length_insert| | |].
      + intros j b m Hb' Hm. apply list_lookup_insert_Some in Hm as [(<- & <- & _)|[_ Hm]]; [|by eapply L3]. rewrite Hb in Hb'. by injection Hb' as <-.
      + intros j b m Hb' Hm Hown. apply list_lookup_insert_Some in Hm as [(<- & <- & _)|[_ Hm]]; [|by eapply L4].
        rewrite Hb in Hb'. injection Hb' as <-. change (ownership_of h (du_backend_index buffer) <> owns_nothing). by rewrite Hup.
      + exists live'. rewrite replay_snoc, Hv. split; [exact Hc|]. by rewrite H2, <- H1, <- Hl.
    - done.
    - intros j Hj. unfold native_of, h'. cbn [ho_native set_native called]. by rewrite list_lookup_insert_ne.
    - by eexists. }
  assert (Hself : forall n' devices c, native_of (set_native i n' (called devices c h)) i = n').
  { intros n' devices c. unfold native_of. cbn [ho_native set_native called]. by rewrite list_lookup_insert_eq. }
  unfold register_one. rewrite (native_of_lookup _ _ _ Hn). unfold buffer_ready. destruct (du_heterogeneous buffer) eqn:Hhet.
  - destruct (tb_register_memory _ _ _ _ _) as [[devices token] result].
    destruct (G (mkNativeMemory (nm_legacy_token n) token true) devices
      (call_register_memory (du_backend_index buffer) (memory_registration buffer) token (caught result))
      (live_memory (du_backend_index buffer) (memory_registration buffer) token :: live)) as (G1 & G2 & G3 & G4).
    + unfold legal_call. by rewrite decide_True by exact Hup.
    + unfold held, native_owned. cbn [nm_legacy_token nm_heterogeneous_owned nm_heterogeneous_token]. by rewrite orb_true_r, Hhet.
    + done.
    + split_and!; [done..|]. intros Hs _. rewrite Hself. cbn [nm_heterogeneous_owned nm_heterogeneous_token]. split; [done|].
      destruct (validate_memory_token token true); [done|]. rewrite andb_true_r in Hs. by case_bool_decide.
  - destruct (tb_register_buffer _ _ _ _ _) as [[devices token] result].
    destruct (G (mkNativeMemory token (nm_heterogeneous_token n) (nm_heterogeneous_owned n)) devices
      (call_register_buffer (du_backend_index buffer) (buffer_registration buffer) token (caught result))
      (if token =? 0 then live else live_buffer (du_backend_index buffer) token :: live)) as (G1 & G2 & G3 & G4).
    + unfold legal_call. rewrite decide_True by exact Hup. by destruct (token =? 0).
    + unfold held, native_owned. cbn [nm_legacy_token nm_heterogeneous_owned]. rewrite Ho, orb_false_r. destruct (token =? 0); [done|]. by rewrite Hhet.
    + done.
    + split_and!; [done..|]. intros _ Htok. by apply Htok.
Qed.

Lemma buffer_ready_owned h i buffer : buffer_ready h i buffer -> buffer_owned h i = true.
Proof.
  unfold buffer_ready, buffer_owned, native_owned. destruct (du_heterogeneous buffer); [intros [-> _]; apply orb_true_r|].
  intros H. by rewrite (proj2 (Z.eqb_neq _ _) H).
Qed.

Lemma register_from_spec l h :
  NoDup (fst <$> l) -> holdings_inv h -> (forall b, (b < length (df_backends cfg))%nat -> ownership_of h b = owns_initialized) ->
  (forall p, p ∈ l -> df_buffers cfg !! fst p = Some (snd p) /\ buffer_owned h (fst p) = false) ->
  let result := register_from tables cfg l h in
  failed_start h result \/
  (snd result = ok /\ holdings_inv (fst result) /\ ho_initialized (fst result) = ho_initialized h /\
   (forall j, j ∉ fst <$> l -> native_of (fst result) j = native_of h j) /\
   (exists new, ho_calls (fst result) = ho_calls h ++ new) /\
   forall p, p ∈ l -> buffer_ready (fst result) (fst p) (snd p)).
Proof.
  revert h. induction l as [|[i buffer] l IH]; intros h Hn Hh Hup Hl.
  - right. simpl. split_and!; [done|done|done|done|exists []; by rewrite app_nil_r|by intros p Hp%elem_of_nil].
  - simpl in Hn. apply list.NoDup_cons in Hn as [Hnin Hn]. cbn [register_from]. destruct (_ && negb (has_native_extension _ _)).
    { left. eapply failed_shutdown; [done|by rewrite app_nil_r|done]. }
    destruct (Hl (i, buffer)) as [Hb Hu]; [by left|]. simpl in Hb, Hu. pose proof (Forall_lookup_1 _ _ _ _ Hcfg Hb) as Hlt. simpl in Hlt.
    pose proof (register_one_spec h i buffer Hh Hb Hu (Hup _ Hlt)) as Hr. destruct (register_one tables h i buffer) as [h1 status].
    destruct Hr as (Hh1 & Hi1 & Hn1 & (c & Hc1) & Hready).
    destruct (bool_decide (hal_v2_status_to_runtime status <> ok) || _) eqn:Hfail.
    { left. eapply failed_shutdown; [done|exact Hc1|]. by case_decide. }
    apply orb_false_iff in Hfail as [Hs%bool_decide_eq_false Ht].
    assert (Hok : status = hal_ok) by (apply ok_hal; by destruct (decide (hal_v2_status_to_runtime status = ok))).
    assert (Hri : buffer_ready h1 i buffer).
    { apply Hready; [done|]. intros Hhet. rewrite Hhet in Ht. simpl in Ht. by apply Z.eqb_neq. }
    destruct (IH h1 Hn Hh1) as [(Hs' & Hi & new & Hc & Hf)|(Hs' & Hi & Hini & Hnat & (new & Hc) & Hall)].
    + intros b Hb'. unfold ownership_of. rewrite Hi1. by apply Hup.
    + intros p Hp. destruct (Hl p) as [Hp1 Hp2]; [by right|]. split; [done|]. unfold buffer_owned. rewrite Hn1; [done|].
      intros E. apply Hnin. rewrite <- E. by apply list_elem_of_fmap_2.
    + left. split_and!; [done|done|]. rewrite Hc1, <- app_assoc in Hc. eexists. split; [exact Hc|]. intros Hown. apply Exists_app. right. by apply Hf.
    + right. split_and!; [done|done|congruence| | |].
      * intros j [Hj1 Hj2]%not_elem_of_cons. rewrite Hnat by done. by apply Hn1.
      * rewrite Hc1, <- app_assoc in Hc. by eexists.
      * intros p [->|Hp]%elem_of_cons; [|by apply Hall]. simpl. unfold buffer_ready. rewrite (Hnat i Hnin). exact Hri.
Qed.

Lemma elem_of_backend_indexed {A} (l : list A) p : p ∈ indexed l <-> l !! fst p = Some (snd p).
Proof.
  unfold indexed. rewrite list_elem_of_lookup. setoid_rewrite list_lookup_imap. split.
  - intros (k & Hk). destruct (l !! k) eqn:E; [|done]. simpl in Hk. by injection Hk as <-.
  - intros H. exists (fst p). rewrite H. by destruct p.
Qed.

Lemma NoDup_indexed {A} (l : list A) : NoDup (fst <$> indexed l).
Proof.
  unfold indexed. rewrite fmap_imap. rewrite (imap_ext _ (fun i _ => i)) by done. apply NoDup_alt. intros i j x Hi Hj.
  rewrite list_lookup_imap in Hi, Hj. destruct (l !! i), (l !! j); simpl in *; congruence.
Qed.

Lemma initialize_spec h : holdings_inv h -> has_backend_ownership h = false ->
  let result := initialize_backends tables cfg h in
  failed_start h result \/
  (snd result = ok /\ holdings_inv (fst result) /\
   (forall b, (b < length (df_backends cfg))%nat -> ownership_of (fst result) b = owns_initialized) /\
   (forall i buffer, df_buffers cfg !! i = Some buffer -> buffer_ready (fst result) i buffer)).
Proof.
  intros Hh Hown. apply ownership_false in Hown as [Hu Hb]; [|done]. cbn zeta. unfold initialize_backends.
  destruct (initialize_from_spec (indexed (df_backends cfg)) h) as [Hf|(Hs & Hi & Hu1 & (new & Hc) & Ho)];
    [apply NoDup_indexed|done|done| | |].
  - intros p Hp%elem_of_backend_indexed. split; [by eapply lookup_lt_Some|]. specialize (Hb (fst p)). unfold backend_owned in Hb.
    by apply negb_false_iff, bool_decide_eq_true in Hb.
  - left. destruct (initialize_from _ _ _ _) as [h1 s]. pose proof Hf as [Hs _]. simpl in Hs. by rewrite decide_False.
  - destruct (initialize_from _ _ _ _) as [h1 s]. cbn [fst snd] in *. rewrite decide_True by done.
    assert (Hup : forall b, (b < length (df_backends cfg))%nat -> ownership_of h1 b = owns_initialized).
    { intros b Hlt. rewrite Ho, decide_True; [done|]. apply lookup_lt_is_Some_2 in Hlt as [x Hx].
      change b with (fst (b, x)). apply list_elem_of_fmap_2. by apply elem_of_backend_indexed. }
    destruct (register_from_spec (indexed (df_buffers cfg)) h1) as [(Hf & Hi' & new' & Hc' & Hr)|(Hs' & Hi' & Hini & _ & _ & Hall)];
      [apply NoDup_indexed|done|done| | |].
    + intros p Hp%elem_of_backend_indexed. by split.
    + left. split_and!; [done|done|]. rewrite Hc, <- app_assoc in Hc'. eexists. split; [exact Hc'|]. intros Hown. apply Exists_app. right. by apply Hr.
    + right. split_and!; [done|done| |].
      * intros b Hlt. unfold ownership_of. rewrite Hini. by apply Hup.
      * intros i buffer Hib. by apply (Hall (i, buffer)), elem_of_backend_indexed.
Qed.

(** ** Every history *)

(** The manager starts, when it owns nothing, and stops; the devices run in between. *)
Inductive held_reachable : Holdings W -> Prop :=
| held_create devices : held_reachable (create_holdings cfg devices)
| held_start h : held_reachable h -> has_backend_ownership h = false -> held_reachable (fst (initialize_backends tables cfg h))
| held_stop h : held_reachable h -> held_reachable (fst (shutdown_backends tables cfg h))
| held_run h devices : held_reachable h ->
    held_reachable (mkHoldings (ho_initialized h) (ho_native h) (ho_poll_failure h) devices (ho_calls h)).

Lemma holdings_create_inv devices : holdings_inv (create_holdings cfg devices).
Proof.
  constructor; cbn [create_holdings ho_initialized ho_native ho_calls].
  - by rewrite length_replicate.
  - by rewrite length_replicate.
  - intros i b n _ [-> _]%lookup_replicate. by destruct (du_heterogeneous b).
  - intros i b n _ [-> _]%lookup_replicate. done.
  - exists []. split; [done|]. assert (H : forall (l : list DeviceBufferSpec), held_all l (replicate (length l) native_memory_default) = []); [|by rewrite H].
    induction l as [|x l IH]; [done|]. unfold held_all in *. simpl. by rewrite IH.
Qed.

Lemma held_reachable_inv h : held_reachable h -> holdings_inv h.
Proof.
  induction 1 as [devices|h Hr IH Ho|h Hr IH|h devices Hr IH].
  - apply holdings_create_inv.
  - destruct (initialize_spec h IH Ho) as [(_ & Hi & _)|(_ & Hi & _)]; done.
  - destruct (shutdown_spec h IH) as (h' & f & -> & Hi & _). done.
  - destruct IH. by constructor.
Qed.
End Holds.

(** C15. Whatever the backends answer or throw, in every history of starts and stops the calls
    they see follow the protocol: initialise once, register only when initialised, release
    each registration with the token it gave, shut down only when nothing is registered; and
    the ownership flags and tokens of the manager are exactly what that protocol says is still
    held.  A stop reports success exactly when nothing is owned any more.  A start that
    succeeds has every backend initialised and every buffer registered; one that fails leaves
    something owned only when a backend refused to take it back. *)
Theorem device_ownership {W : Type} (tables : DeviceTables W) (cfg : DeviceConfig) (h : Holdings W) :
  config_valid cfg -> held_reachable tables cfg h ->
  (exists live, replay_calls (length (df_backends cfg)) (ho_calls h) = Some (mkBackendView (ho_initialized h) live) /\
     live ≡ₚ held_all (df_buffers cfg) (ho_native h)) /\
  (let '(h', status) := shutdown_backends tables cfg h in
   (status = ok <-> has_backend_ownership h' = false) /\
   exists new, ho_calls h' = ho_calls h ++ new /\ (status <> ok -> Exists refused_release new)) /\
  (has_backend_ownership h = false ->
   let '(h', status) := initialize_backends tables cfg h in
   if decide (status = ok)
   then (forall b, (b < length (df_backends cfg))%nat -> ownership_of h' b = owns_initialized) /\
        (forall i buffer, df_buffers cfg !! i = Some buffer -> buffer_ready h' i buffer)
   else exists new, ho_calls h' = ho_calls h ++ new /\ (has_backend_ownership h' = true -> Exists refused_release new)).
Proof.
  intros Hcfg Hr. pose proof (held_reachable_inv tables cfg Hcfg h Hr) as Hh. split_and!.
  - by apply hold_view.
  - destruct (shutdown_spec tables cfg Hcfg h Hh) as (h' & f & -> & _ & (new & Hc & Hn) & Hf). split; [done|].
    exists new. split; [done|]. intros E. by destruct (Hn E).
  - intros Ho. destruct (initialize_spec tables cfg Hcfg h Hh Ho) as [(Hs & _ & new & Hc & Hn)|(Hs & _ & Hup & Hall)];
      destruct (initialize_backends tables cfg h) as [h' s]; cbn [fst snd] in *.
    + rewrite decide_False by done. by exists new.
    + by rewrite decide_True.
Qed.

(** ** An example *)

Definition sample_backend : DeviceBackendSpec :=
  mkBackendSpec [] (mkHalCapabilities 152 2 4 4 4096 128 8 1 1 0 0 [] 0 []) None None.
Definition sample_buffer (backend : nat) : DeviceBufferSpec :=
  mkBufferSpec [] backend (Some 0%nat) 12 64 1 1 1 0 false (mkOpaqueHandle 88 0 [] []).
Definition sample_devices : DeviceConfig :=
  mkDeviceConfig 1 [sample_backend; sample_backend] [sample_buffer 0; sample_buffer 1] [] 4 4 false.

(** Tokens count up; the second registration throws, and the first release is refused. *)
Definition sample_tables : DeviceTables (nat * nat) :=
  mkDeviceTables (fun w _ _ => (w, Some hal_ok))
    (fun w _ _ _ => match fst w with 0%nat => ((1, snd w)%nat, 7, Some hal_ok) | _ => (w, 0, None) end)
    (fun w _ _ token => (w, token, Some hal_ok))
    (fun w _ _ => match snd w with 0%nat => ((fst w, 1)%nat, Some hal_timeout) | _ => (w, Some hal_ok) end)
    (fun w _ _ _ => (w, Some hal_ok)) (fun w _ => (w, Some hal_ok)).

Definition sample_failed : Holdings (nat * nat) :=
  fst (initialize_backends sample_tables sample_devices (create_holdings sample_devices (0, 0)%nat)).

(** The start fails and its clean-up keeps the refused buffer; a second stop releases it. *)
Lemma device_ownership_witness :
  has_backend_ownership sample_failed = true /\
  snd (shutdown_backends sample_tables sample_devices sample_failed) = ok /\
  (exists live, replay_calls 2 (ho_calls sample_failed) = Some (mkBackendView (ho_initialized sample_failed) live) /\
     live ≡ₚ held_all (df_buffers sample_devices) (ho_native sample_failed)).
Proof.
  split; [vm_compute; reflexivity|]. split; [vm_compute; reflexivity|].
  assert (Hr : held_reachable sample_tables sample_devices sample_failed).
  { apply held_start; [apply held_create|vm_compute; reflexivity]. }
  assert (Hc : config_valid sample_devices) by (apply (bool_decide_unpack _); vm_compute; exact I).
  destruct (device_ownership sample_tables sample_devices sample_failed Hc Hr) as (H & _). exact H.
Defined.
