(* ===== verification/DeviceAdmission.v ===== *)
(** * The device manager: what [submit_batch] admits

    The tests and the translation of a command batch against a declarative account of it. *)

From stdpp Require Import base list numbers sets strings.
From Stdlib Require Import ZArith Lia Bool.
From S2P Require Import Prelude Handles CanonicalBytes SnapshotCodec DeviceCommands HalV2 HeterogeneousMemory DeviceManager.

Local Open Scope Z_scope.
Local Open Scope rtfw_scope.

(** ** Results *)

Lemma sum_mapM_inr {E A B} (f : A -> E + B) l k : sum_mapM f l = inr k <-> Forall2 (fun x y => f x = inr y) l k.
Proof.
  revert k. induction l as [|x l IH]; intros k; simpl.
  - split; [by intros [= <-]|]. intros H. by inversion H.
  - rewrite sum_bind_inr. split.
    + intros (y & Hy & (k' & Hk & [= <-])%sum_bind_inr). constructor; [done|]. by apply IH.
    + intros H. inversion H as [|? y ? k' Hy Hk]; subst. exists y. split; [done|]. apply sum_bind_inr. exists k'. split; [by apply IH|done].
Qed.

Lemma divides_mod a b : a mod b = 0 <-> (b | a).
Proof.
  destruct (decide (b = 0)) as [->|Hb]; [|by apply Z.mod_divide]. rewrite Z.mod_0_r. split; [intros ->; by exists 0|by intros [k ->]; lia].
Qed.

Section BatchContract.
Context (cfg : DeviceConfig) (natives : list NativeMemoryState) (timelines : list TimelineState) (backend_index : nat).

(** ** References *)

(** The reference names buffer [i] by a handle of this runtime. *)
Definition names_buffer (r : HalV2BufferReference) (i : nat) : Prop :=
  DeviceBufferHandle_valid (br_buffer_token r) = true /\ device_owner (br_buffer_token r) = df_owner cfg /\
  DeviceBufferHandle_index (br_buffer_token r) = Z.of_nat i /\ br_reserved0 r = 0 /\
  (br_access r = RTFW_DEVICE_ACCESS_READ \/ br_access r = RTFW_DEVICE_ACCESS_WRITE \/ br_access r = RTFW_DEVICE_ACCESS_READ_WRITE).

(** It lies inside a buffer of this backend, aligned, with access the buffer grants. *)
Definition reference_inside (r : HalV2BufferReference) (i : nat) (buffer : DeviceBufferSpec) : Prop :=
  names_buffer r i /\ df_buffers cfg !! i = Some buffer /\ du_backend_index buffer = backend_index /\
  (exists domain, buffer_domain cfg backend_index buffer = Some domain /\
     (md_offset_granularity domain | br_offset r) /\ (md_byte_granularity domain | br_bytes r)) /\
  br_offset r <= du_bytes buffer /\ br_offset r + br_bytes r <= du_bytes buffer /\
  (forall k, Z.testbit (required_access (br_access r)) k = true -> Z.testbit (du_flags buffer) k = true) /\
  native_token natives i buffer <> 0.

Lemma access_bits a flags : Z.land a (Z.lnot flags) = 0 <-> (forall k, Z.testbit a k = true -> Z.testbit flags k = true).
Proof.
  split.
  - intros H k Ha. assert (Hk : Z.testbit (Z.land a (Z.lnot flags)) k = false) by (rewrite H; apply Z.bits_0).
    destruct (decide (0 <= k)) as [Hp|Hp]; [|rewrite Z.testbit_neg_r in Ha by lia; done].
    rewrite Z.land_spec, Ha, Z.lnot_spec in Hk by done. by destruct (Z.testbit flags k).
  - intros H. apply Z.bits_inj'. intros k Hk. rewrite Z.land_spec, Z.lnot_spec, Z.bits_0 by done.
    destruct (Z.testbit a k) eqn:E; [|done]. by rewrite (H k E).
Qed.

Lemma logical_buffer_Some r i buffer :
  logical_buffer cfg r = Some (i, buffer) <-> names_buffer r i /\ df_buffers cfg !! i = Some buffer.
Proof.
  unfold logical_buffer, names_buffer, valid_access.
  destruct (DeviceBufferHandle_valid _) eqn:H1; cbn [negb orb]; [|by intuition].
  destruct (Z.eqb_spec (device_owner (br_buffer_token r)) (df_owner cfg)) as [H2|H2]; cbn [negb orb]; [|by intuition].
  destruct (Z.eqb_spec (br_reserved0 r) 0) as [H3|H3]; cbn [negb orb]; [|by intuition].
  assert (Hidx : 0 <= DeviceBufferHandle_index (br_buffer_token r)) by (unfold DeviceBufferHandle_index; apply Z.land_nonneg; right; done).
  destruct ((br_access r =? RTFW_DEVICE_ACCESS_READ) || (br_access r =? RTFW_DEVICE_ACCESS_WRITE) || (br_access r =? RTFW_DEVICE_ACCESS_READ_WRITE)) eqn:H4.
  - rewrite !orb_true_iff, !Z.eqb_eq in H4. cbn [negb]. split.
    + intros H. apply fmap_Some in H as (b & Hb & [= -> ->]). split; [|done]. split_and!; [done|done|lia|done|tauto].
    + intros ((_ & _ & Hi & _) & Hb). rewrite Hi, Nat2Z.id, Hb. done.
  - rewrite !orb_false_iff, !Z.eqb_neq in H4. cbn [negb]. split; [done|]. intros ((_ & _ & _ & _ & H) & _). tauto.
Qed.

Lemma range_valid_iff buffer r : range_valid cfg backend_index buffer r = true <->
  du_backend_index buffer = backend_index /\
  (exists domain, buffer_domain cfg backend_index buffer = Some domain /\
     (md_offset_granularity domain | br_offset r) /\ (md_byte_granularity domain | br_bytes r)) /\
  br_offset r <= du_bytes buffer /\ br_offset r + br_bytes r <= du_bytes buffer.
Proof.
  unfold range_valid. rewrite andb_true_iff, Nat.eqb_eq. destruct (buffer_domain cfg backend_index buffer) as [domain|].
  - rewrite !andb_true_iff, !Z.leb_le, !Z.eqb_eq, !divides_mod. split.
    + intros (H1 & ((H2 & H3) & H4) & H5). split_and!; [done|by exists domain|done|lia].
    + intros (H1 & (d & [= <-] & H4 & H5) & H2 & H3). split_and!; try done. lia.
  - split; [by intros []|]. by intros (_ & (d & ? & _) & _).
Qed.

Lemma translate_reference_inr r t buffer :
  translate_reference cfg natives backend_index r = inr (t, buffer) <->
  exists i, reference_inside r i buffer /\ t = with_token (native_token natives i buffer) r.
Proof.
  unfold translate_reference, reference_inside. split.
  - destruct (logical_buffer cfg r) as [[i b]|] eqn:Hl; [|done]. apply logical_buffer_Some in Hl as [Hn Hb].
    rewrite !sum_bind_inr. intros (u & Hr%require_inr%range_valid_iff & H). apply sum_bind_inr in H as (u' & Ha%require_inr%Z.eqb_eq & H). rewrite access_bits in Ha.
    apply sum_bind_inr in H as (u'' & Ht%require_inr%negb_true_iff%Z.eqb_neq & [= <- <-]). exists i. by intuition.
  - intros (i & (Hn & Hb & H1 & H2 & H3 & H4 & H5 & H6) & ->). rewrite (proj2 (logical_buffer_Some r i buffer)) by done.
    rewrite (proj2 (range_valid_iff buffer r)) by done. cbn [require sum_bind]. unfold access_allowed.
    rewrite (proj2 (access_bits _ _) H5). cbn [Z.eqb require sum_bind]. by rewrite (proj2 (Z.eqb_neq _ _) H6).
Qed.

(** ** Synchronization *)

Definition covers_range (o r : HalV2BufferReference) : Prop :=
  br_buffer_token o = br_buffer_token r /\ br_offset o <= br_offset r /\ br_offset r + br_bytes r <= br_offset o + br_bytes o.

(** The command performs [operation] over the range of [r]. *)
Definition performs (operation : Z) (c : DeviceCommand) (r : HalV2BufferReference) : Prop :=
  dc_operation c = operation /\
  ((dc_kind c = kind_memory_synchronization /\ covers_range (dc_target c) r) \/
   (dc_kind c = kind_copy /\ covers_range (if operation =? operation_copy_to_device then dc_destination c else dc_source c) r)).

Lemma covers_iff o r : range_covers o r = true <-> covers_range o r.
Proof. unfold range_covers, covers_range. rewrite !andb_true_iff, Z.eqb_eq, !Z.leb_le. lia. Qed.

Lemma operation_matches_iff operation r c : operation_matches operation r c = true <-> performs operation c r.
Proof.
  unfold operation_matches, performs. destruct (Z.eqb_spec (dc_operation c) operation) as [H1|H1]; cbn [negb]; [|by intuition].
  destruct (Z.eqb_spec (dc_kind c) kind_memory_synchronization) as [H2|H2].
  - rewrite covers_iff, H2. unfold kind_memory_synchronization, kind_copy. by intuition.
  - destruct (Z.eqb_spec (dc_kind c) kind_copy) as [H3|H3]; cbn [negb]; [rewrite covers_iff|]; by intuition.
Qed.

Definition performed_before (commands : list DeviceCommand) (index : nat) (operation : Z) (r : HalV2BufferReference) : Prop :=
  exists j c, (j < index)%nat /\ commands !! j = Some c /\ performs operation c r.
Definition performed_after (commands : list DeviceCommand) (index : nat) (operation : Z) (r : HalV2BufferReference) : Prop :=
  exists j c, (index < j)%nat /\ commands !! j = Some c /\ performs operation c r.

Lemma has_operation_before commands index r operation :
  has_operation commands index r operation true = true <-> performed_before commands index operation r.
Proof.
  unfold has_operation, performed_before. rewrite existsb_exists. setoid_rewrite operation_matches_iff. split.
  - intros (c & Hc%list_elem_of_In & Hp). rewrite elem_of_reverse in Hc. apply list_elem_of_lookup in Hc as (j & Hj).
    apply lookup_take_Some in Hj as [Hj Hlt]. by exists j, c.
  - intros (j & c & Hlt & Hj & Hp). exists c. split; [|done]. apply list_elem_of_In. rewrite elem_of_reverse. apply list_elem_of_lookup.
    exists j. by apply lookup_take_Some.
Qed.

Lemma has_operation_after commands index r operation :
  has_operation commands index r operation false = true <-> performed_after commands index operation r.
Proof.
  unfold has_operation, performed_after. rewrite existsb_exists. setoid_rewrite operation_matches_iff. split.
  - intros (c & Hc%list_elem_of_In & Hp). apply list_elem_of_lookup in Hc as (j & Hj). rewrite lookup_drop in Hj.
    exists (S index + j)%nat, c. split_and!; [lia|done|done].
  - intros (j & c & Hlt & Hj & Hp). exists c. split; [|done]. apply list_elem_of_In, list_elem_of_lookup. exists (j - S index)%nat.
    rewrite lookup_drop. by replace (S index + (j - S index))%nat with j by lia.
Qed.

Definition obliges (buffer : DeviceBufferSpec) (obligation : Z) : Prop := Z.land (du_synchronization buffer) obligation <> 0.

Lemma needs_iff buffer obligation : needs buffer obligation = true <-> obliges buffer obligation.
Proof. unfold needs, obliges. by rewrite negb_true_iff, Z.eqb_neq. Qed.

(** What a dispatched reference to the buffer requires of the batch. *)
Definition synchronized_by (commands : list DeviceCommand) (index : nat) (r : HalV2BufferReference) (buffer : DeviceBufferSpec) : Prop :=
  ~ obliges buffer hal_v2_memory_sync_timeline /\
  (br_access r <> RTFW_DEVICE_ACCESS_WRITE ->
     (obliges buffer hal_v2_memory_sync_flush -> performed_before commands index operation_flush r) /\
     (obliges buffer hal_v2_memory_sync_copy_to_device -> performed_before commands index operation_copy_to_device r)) /\
  (br_access r <> RTFW_DEVICE_ACCESS_READ ->
     (obliges buffer hal_v2_memory_sync_invalidate -> performed_after commands index operation_invalidate r) /\
     (obliges buffer hal_v2_memory_sync_copy_from_device -> performed_after commands index operation_copy_from_device r)).

Lemma obligation_iff (p q : bool) (P Q : Prop) : (p = true <-> P) -> (q = true <-> Q) -> p && negb q = false <-> (P -> Q).
Proof. intros <- <-. destruct p, q; simpl; intuition congruence. Qed.

Lemma synchronized_iff commands index r buffer :
  synchronized commands index r buffer = true <-> synchronized_by commands index r buffer.
Proof.
  unfold synchronized, synchronized_by. rewrite !andb_true_iff, !negb_true_iff.
  assert (A : forall a b c : bool, a && (b || c) = false <-> (a = true -> b = false /\ c = false)) by (intros [] [] []; simpl; intuition congruence).
  rewrite !A, !negb_true_iff, !Z.eqb_neq.
  rewrite (obligation_iff _ _ _ _ (needs_iff buffer hal_v2_memory_sync_flush) (has_operation_before commands index r operation_flush)).
  rewrite (obligation_iff _ _ _ _ (needs_iff buffer hal_v2_memory_sync_copy_to_device) (has_operation_before commands index r operation_copy_to_device)).
  rewrite (obligation_iff _ _ _ _ (needs_iff buffer hal_v2_memory_sync_invalidate) (has_operation_after commands index r operation_invalidate)).
  rewrite (obligation_iff _ _ _ _ (needs_iff buffer hal_v2_memory_sync_copy_from_device) (has_operation_after commands index r operation_copy_from_device)).
  rewrite <- (needs_iff buffer hal_v2_memory_sync_timeline), not_true_iff_false. tauto.
Qed.

(** ** Commands *)

Definition resolves (r t : HalV2BufferReference) (buffer : DeviceBufferSpec) : Prop :=
  exists i, reference_inside r i buffer /\ t = with_token (native_token natives i buffer) r.

(** The command and what the backend receives for it. *)
Definition command_admitted (commands : list DeviceCommand) (index : nat) (c c' : DeviceCommand) : Prop :=
  if decide (dc_kind c = kind_dispatch) then
    exists references,
      Forall2 (fun r t => exists buffer, resolves r t buffer /\ synchronized_by commands index r buffer)
        (take (Z.to_nat (dc_buffer_count c)) (dc_buffers c)) references /\
      c' = set_references (references ++ drop (Z.to_nat (dc_buffer_count c)) (dc_buffers c)) (dc_source c) (dc_destination c) (dc_target c) c
  else if decide (dc_kind c = kind_copy) then
    exists source destination from to, resolves (dc_source c) source from /\ resolves (dc_destination c) destination to /\
      br_bytes (dc_source c) = br_bytes (dc_destination c) /\ br_access (dc_source c) = RTFW_DEVICE_ACCESS_READ /\
      br_access (dc_destination c) = RTFW_DEVICE_ACCESS_WRITE /\
      (if decide (dc_operation c = operation_copy_to_device) then obliges to hal_v2_memory_sync_copy_to_device
       else obliges from hal_v2_memory_sync_copy_from_device) /\
      c' = set_references (dc_buffers c) source destination (dc_target c) c
  else
    exists target buffer, resolves (dc_target c) target buffer /\
      obliges buffer (if decide (dc_operation c = operation_flush) then hal_v2_memory_sync_flush else hal_v2_memory_sync_invalidate) /\
      c' = set_references (dc_buffers c) (dc_source c) (dc_destination c) target c.

Lemma eqb_decide {A} (a b : Z) (x y : A) : (if a =? b then x else y) = (if decide (a = b) then x else y).
Proof. destruct (Z.eqb_spec a b); case_decide; done. Qed.

Lemma translate_dispatched_inr commands index r t :
  translate_dispatched cfg natives backend_index commands index r = inr t <->
  exists buffer, resolves r t buffer /\ synchronized_by commands index r buffer.
Proof.
  unfold translate_dispatched, resolves. rewrite sum_bind_inr. split.
  - intros ([t' buffer] & Ht%translate_reference_inr & (u & Hs%require_inr%synchronized_iff & [= <-])%sum_bind_inr). by exists buffer.
  - intros (buffer & Ht & Hs). exists (t, buffer). split; [by apply translate_reference_inr|]. cbn [fst snd].
    by rewrite (proj2 (synchronized_iff commands index r buffer) Hs).
Qed.

Lemma Forall2_iff {A B} (P Q : A -> B -> Prop) l k : (forall x y, P x y <-> Q x y) -> Forall2 P l k <-> Forall2 Q l k.
Proof. intros H. split; intros Hl; (eapply list.Forall2_impl; [exact Hl|]); intros x y; apply H. Qed.

Lemma translate_command_inr commands index c c' :
  translate_command cfg natives backend_index commands (index, c) = inr c' <-> command_admitted commands index c c'.
Proof.
  unfold translate_command, command_admitted. rewrite !eqb_decide. case_decide as Hk1.
  { rewrite sum_bind_inr. split; intros (references & H1 & H2); exists references.
    - rewrite sum_mapM_inr, (Forall2_iff _ _ _ _ (translate_dispatched_inr commands index)) in H1. by injection H2 as <-.
    - rewrite sum_mapM_inr, (Forall2_iff _ _ _ _ (translate_dispatched_inr commands index)). by rewrite H2. }
  case_decide as Hk2.
  - split.
    + intros ([source from] & Hs%translate_reference_inr & H)%sum_bind_inr.
      apply sum_bind_inr in H as ([destination to] & Hd%translate_reference_inr & H). apply sum_bind_inr in H as (u & Hq%require_inr & H).
      apply sum_bind_inr in H as (u' & Ho%require_inr & [= <-]). rewrite !andb_true_iff, !Z.eqb_eq in Hq. destruct Hq as [[Hq1 Hq2] Hq3].
      exists source, destination, from, to. split_and!; [done..| |done]. rewrite eqb_decide in Ho. cbn [snd] in Ho. case_decide; by apply needs_iff.
    + intros (source & destination & from & to & Hs & Hd & Hq1 & Hq2 & Hq3 & Ho & ->). apply sum_bind_inr. exists (source, from).
      split; [by apply translate_reference_inr|]. apply sum_bind_inr. exists (destination, to). split; [by apply translate_reference_inr|].
      rewrite Hq1, Hq2, Hq3, !Z.eqb_refl. cbn [andb require sum_bind fst snd]. rewrite eqb_decide.
      case_decide; by rewrite (proj2 (needs_iff _ _) Ho).
  - split.
    + intros ([target buffer] & Ht%translate_reference_inr & H)%sum_bind_inr. apply sum_bind_inr in H as (u & Ho%require_inr%needs_iff & [= <-]).
      by exists target, buffer.
    + intros (target & buffer & Ht & Ho & ->). apply sum_bind_inr. exists (target, buffer). split; [by apply translate_reference_inr|].
      cbn [fst snd]. by rewrite (proj2 (needs_iff _ _) Ho).
Qed.

(** ** Timeline points *)

(** The point names timeline [i] of this backend. *)
Definition names_timeline (p : HalV2TimelinePoint) (i : nat) (t : TimelineState) : Prop :=
  DeviceTimelineHandle_valid (tp_timeline_handle p) = true /\ device_owner (tp_timeline_handle p) = df_owner cfg /\
  Z.to_nat (DeviceTimelineHandle_index (tp_timeline_handle p)) = i /\ timelines !! i = Some t /\
  tl_backend_index t = Z.of_nat backend_index.

Definition points_admitted (R : Z -> Z -> Prop) (points : list HalV2TimelinePoint) : Prop :=
  Forall (fun p => exists i t, names_timeline p i t /\ R (tp_value p) (tl_last_accepted t)) points /\
  NoDup (tp_timeline_handle <$> points).

Lemma point_timeline_Some p t : point_timeline cfg timelines backend_index p = Some t <-> exists i, names_timeline p i t.
Proof.
  unfold point_timeline, names_timeline. destruct (DeviceTimelineHandle_valid _); cbn [negb orb]; [|by split; [|intros (i & ? & _)]].
  destruct (Z.eqb_spec (device_owner (tp_timeline_handle p)) (df_owner cfg)) as [H|H]; cbn [negb]; [|by split; [|intros (i & _ & ? & _)]].
  destruct (timelines !! Z.to_nat _) as [t'|] eqn:Ht; simpl.
  - destruct (Z.eqb_spec (tl_backend_index t') (Z.of_nat backend_index)) as [Hb|Hb].
    + split; [intros [= <-]; by eexists|]. intros (i & _ & _ & <- & Ht' & _). congruence.
    + split; [done|]. intros (i & _ & _ & <- & Ht' & Hb'). congruence.
  - split; [done|]. intros (i & _ & _ & <- & Ht' & _). congruence.
Qed.

Lemma check_points_inr acceptable (R : Z -> Z -> Prop) prior points u :
  (forall t v, acceptable t v = true <-> R v (tl_last_accepted t)) -> NoDup prior ->
  check_points cfg timelines backend_index acceptable prior points = inr u <->
  Forall (fun p => exists i t, names_timeline p i t /\ R (tp_value p) (tl_last_accepted t)) points /\ NoDup (prior ++ (tp_timeline_handle <$> points)).
Proof.
  intros HR. revert prior. induction points as [|p points IH]; intros prior Hp; simpl.
  { rewrite app_nil_r, Forall_nil. destruct u. by intuition. }
  assert (Hpt : from_option (fun t => acceptable t (tp_value p)) false (point_timeline cfg timelines backend_index p) = true <->
    exists i t, names_timeline p i t /\ R (tp_value p) (tl_last_accepted t)).
  { split.
    - destruct (point_timeline cfg timelines backend_index p) as [t|] eqn:Ht; [|done]. simpl. intros Ha.
      apply point_timeline_Some in Ht as [i Hi]. exists i, t. split; [done|]. by apply HR.
    - intros (i & t & Hi & Hr). assert (point_timeline cfg timelines backend_index p = Some t) as -> by (apply point_timeline_Some; eauto). by apply HR. }
  assert (Hin : existsb (Z.eqb (tp_timeline_handle p)) prior = false <-> tp_timeline_handle p ∉ prior).
  { rewrite <- not_true_iff_false, existsb_exists. split.
    - intros H Hin. apply H. exists (tp_timeline_handle p). by rewrite <- list_elem_of_In, Z.eqb_refl.
    - intros H (x & Hx%list_elem_of_In & <-%Z.eqb_eq). done. }
  rewrite Forall_cons, <- Hpt. rewrite sum_bind_inr. split.
  - intros ([] & H1%require_inr & H). apply sum_bind_inr in H as ([] & H2%require_inr%negb_true_iff%Hin & H).
    apply IH in H as [H3 H4]; [|apply list.NoDup_app; split_and!; [done|set_solver|apply NoDup_singleton]]. rewrite <- app_assoc in H4. done.
  - intros ((H1 & H3) & H4). exists tt. split; [by apply require_inr|]. apply sum_bind_inr. exists tt. split.
    + apply require_inr, negb_true_iff, Hin. apply list.NoDup_app in H4 as (_ & H4 & _). intros Hx. apply (H4 _ Hx). by left.
    + apply IH; [apply list.NoDup_app; split_and!; [done| |apply NoDup_singleton]|by rewrite <- app_assoc].
      apply list.NoDup_app in H4 as (_ & H4 & _). intros x Hx ->%list_elem_of_singleton. apply (H4 _ Hx). by left.
Qed.

Lemma check_points_waits points u :
  check_points cfg timelines backend_index wait_acceptable [] points = inr u <-> points_admitted Z.le points.
Proof. unfold points_admitted. apply (check_points_inr _ Z.le); [intros t v; apply Z.leb_le|constructor]. Qed.

Lemma check_points_signals points u :
  check_points cfg timelines backend_index signal_acceptable [] points = inr u <-> points_admitted Z.gt points.
Proof. unfold points_admitted. apply (check_points_inr _ Z.gt); [intros t v; unfold signal_acceptable; rewrite Z.ltb_lt; lia|constructor]. Qed.

Lemma translate_commands_inr commands commands' :
  sum_mapM (translate_command cfg natives backend_index commands) (indexed commands) = inr commands' <->
  length commands' = length commands /\
  (forall index c c', commands !! index = Some c -> commands' !! index = Some c' -> command_admitted commands index c c').
Proof.
  unfold indexed. rewrite sum_mapM_inr, list.Forall2_lookup. split.
  - intros H. assert (Hl : length commands' = length commands).
    { apply list.Forall2_lookup, Forall2_length in H. by rewrite length_imap in H. }
    split; [done|]. intros i c c' Hc Hc'. specialize (H i). rewrite list_lookup_imap, Hc, Hc' in H. simpl in H.
    apply translate_command_inr. by inversion H.
  - intros [Hl H] i. rewrite list_lookup_imap. destruct (commands !! i) as [c|] eqn:Hc; simpl.
    + destruct (lookup_lt_is_Some_2 commands' i) as [c' Hc']; [rewrite Hl; by eapply lookup_lt_Some|]. rewrite Hc'. constructor.
      apply translate_command_inr. by apply H.
    + rewrite (proj2 (lookup_ge_None commands' i)); [constructor|]. rewrite Hl. by apply lookup_ge_None.
Qed.

(** The batch the backend receives for a request. *)
Definition batch_admitted (requested b : DeviceCommandBatch) : Prop :=
  points_admitted Z.le (active_waits requested) /\ points_admitted Z.gt (active_signals requested) /\
  exists commands, length commands = length (active_commands requested) /\
    (forall index c c', active_commands requested !! index = Some c -> commands !! index = Some c' ->
       command_admitted (active_commands requested) index c c') /\
    b = set_commands (commands ++ drop (Z.to_nat (bt_command_count requested)) (bt_commands requested)) requested.

Lemma admit_batch_inr requested b : admit_batch cfg natives timelines backend_index requested = inr b <-> batch_admitted requested b.
Proof.
  unfold admit_batch, batch_admitted. rewrite sum_bind_inr. split.
  - intros (u & Hw%check_points_waits & (u' & Hs%check_points_signals & H)%sum_bind_inr). split_and!; [done..|].
    apply sum_bind_inr in H as (commands & [Hl Hc]%translate_commands_inr & [= <-]). by exists commands.
  - intros (Hw & Hs & commands & Hl & Hc & ->). exists tt. split; [by apply check_points_waits|]. apply sum_bind_inr. exists tt.
    split; [by apply check_points_signals|]. apply sum_bind_inr. exists commands. split; [by apply translate_commands_inr|done].
Qed.

(** ** Refusals *)

Definition refusal (s : Status) : Prop := s ∈ [invalid_handle; invalid_argument; invalid_state; device_error].

Definition refuses_with {A} (r : Status + A) : Prop := forall s, r = inl s -> refusal s.

Lemma refuses_bind {A B} (r : Status + A) (f : A -> Status + B) :
  refuses_with r -> (forall a, refuses_with (f a)) -> refuses_with (sum_bind r f).
Proof. intros Hr Hf s. destruct r as [s'|a]; cbn [sum_bind]; [intros [= <-]; by apply Hr|by apply Hf]. Qed.

Lemma refuses_require b s : refusal s -> refuses_with (require b s).
Proof. intros Hs s'. destruct b; [done|]. by intros [= <-]. Qed.

Lemma refuses_inr {A} (a : A) : refuses_with (inr a).
Proof. by intros s. Qed.

Lemma refuses_mapM {A B} (f : A -> Status + B) l : (forall a, refuses_with (f a)) -> refuses_with (sum_mapM f l).
Proof.
  intros Hf. induction l as [|x l IH]; simpl; [apply refuses_inr|].
  apply refuses_bind; [done|]. intros y. apply refuses_bind; [done|]. intros k. apply refuses_inr.
Qed.

Ltac refusals :=
  repeat first [apply refuses_inr | apply refuses_bind; [|intros ?] | apply refuses_require; unfold refusal; set_solver | done].

Lemma refuses_translate r : refuses_with (translate_reference cfg natives backend_index r).
Proof. unfold translate_reference. destruct (logical_buffer cfg r) as [[i b]|]; refusals. intros s [= <-]. unfold refusal. set_solver. Qed.

Lemma refuses_command commands p : refuses_with (translate_command cfg natives backend_index commands p).
Proof.
  assert (Hr := refuses_translate). unfold translate_command. destruct p as [i c]. destruct (_ =? _); [|destruct (_ =? _)]; refusals.
  apply refuses_mapM. intros r. unfold translate_dispatched. refusals.
Qed.

Lemma refuses_points acceptable prior points : refuses_with (check_points cfg timelines backend_index acceptable prior points).
Proof. revert prior. induction points as [|p points IH]; intros prior; simpl; refusals. Qed.

End BatchContract.
