(* ===== verification/DeviceLanes.v ===== *)
(** * The device manager: the batch slots and the threads that share them

    The second half of [submit_batch], the submission lane of a backend, the polling and the time-out
    scan of the service thread, the wait and release of a rate ticket, and the stop request, of
    rt/src/device_manager.cpp.  The threads meet in the state word of a slot.  A thread's reads and
    writes between two of its accesses to that word are part of the step that makes the first of
    them, as the slot is then the thread's own; what a thread holds from one step to the next (the
    slot a provider reserved, the slot a lane selected or is submitting, the completions the service
    thread has still to process) is in [DeviceSystem].  A clock value and an answer of a backend
    belong to the step that reads them and may be anything.  A walk over the slots of a backend (the lane's
    scan, the delivery of a failure, the stop request) is one step.  The counters an idle thread sleeps
    on are left out: every thread may take its next step at any time. *)

From stdpp Require Import base list numbers sets strings.
From Stdlib Require Import ZArith Lia Bool.
From S2P Require Import Prelude Handles CanonicalBytes SnapshotCodec DeviceCommands HalV2 HeterogeneousMemory DeviceManager.

Local Open Scope Z_scope.
Local Open Scope rtfw_scope.

(** ** State *)

(** The state word of a slot. *)
Inductive BatchState : Set :=
| kBatchFree
| kBatchReserved
| kBatchQueued
| kBatchSubmitting
| kBatchSubmitted
| kBatchEarlyReady
| kBatchOwned
| kBatchCompletionReady
| kBatchRateTerminal
| kBatchRateQuarantineOwned
| kBatchRateQuarantined.

#[export] Instance BatchState_eq_dec : EqDecision BatchState.
Proof. solve_decision. Defined.

(** The fields of [BatchSlot] that only [submit_batch] writes; [bw_logical_clock] is whether there is one. *)
Record BatchWork : Set := mkBatchWork {
  bw_sequence : Z;
  bw_deadline_ns : Z;
  bw_simulation_timing : bool;
  bw_logical_clock : bool;
  bw_logical_deadline_ns : Z;
  bw_backend_index : nat;
  bw_phase_index : Z;
  bw_frame_index : Z;
  bw_batch : DeviceCommandBatch;
  bw_rate_identity : option DeviceRateReleaseIdentity;
}.

(** [BatchSlot] *)
Record BatchSlot : Set := mkBatchSlot {
  bs_state : BatchState;
  bs_graph_released : bool;
  bs_cancellation_requested : bool;
  bs_early_completion : HalV2BatchCompletion;
  bs_early_completion_valid : bool;
  bs_rate_owned : bool;
  bs_terminal_status : Status;
  bs_work : BatchWork;
}.

Definition bs_batch (s : BatchSlot) : DeviceCommandBatch := bw_batch (bs_work s).
Definition bs_batch_id (s : BatchSlot) : Z := bt_batch_id (bs_batch s).
Definition bs_phase_index (s : BatchSlot) : Z := bw_phase_index (bs_work s).

Definition set_state (v : BatchState) (s : BatchSlot) : BatchSlot :=
  mkBatchSlot v (bs_graph_released s) (bs_cancellation_requested s) (bs_early_completion s) (bs_early_completion_valid s)
    (bs_rate_owned s) (bs_terminal_status s) (bs_work s).
Definition set_graph_released (v : bool) (s : BatchSlot) : BatchSlot :=
  mkBatchSlot (bs_state s) v (bs_cancellation_requested s) (bs_early_completion s) (bs_early_completion_valid s)
    (bs_rate_owned s) (bs_terminal_status s) (bs_work s).
Definition set_cancellation_requested (v : bool) (s : BatchSlot) : BatchSlot :=
  mkBatchSlot (bs_state s) (bs_graph_released s) v (bs_early_completion s) (bs_early_completion_valid s)
    (bs_rate_owned s) (bs_terminal_status s) (bs_work s).
Definition set_early (c : HalV2BatchCompletion) (valid : bool) (s : BatchSlot) : BatchSlot :=
  mkBatchSlot (bs_state s) (bs_graph_released s) (bs_cancellation_requested s) c valid (bs_rate_owned s)
    (bs_terminal_status s) (bs_work s).
Definition set_rate_owned (v : bool) (s : BatchSlot) : BatchSlot :=
  mkBatchSlot (bs_state s) (bs_graph_released s) (bs_cancellation_requested s) (bs_early_completion s)
    (bs_early_completion_valid s) v (bs_terminal_status s) (bs_work s).
Definition set_terminal_status (v : Status) (s : BatchSlot) : BatchSlot :=
  mkBatchSlot (bs_state s) (bs_graph_released s) (bs_cancellation_requested s) (bs_early_completion s)
    (bs_early_completion_valid s) (bs_rate_owned s) v (bs_work s).

(** The counters of [DeviceManagerStats] that batches touch. *)
Record DeviceManagerStats : Set := mkManagerStats {
  st_submissions : Z;
  st_completions : Z;
  st_failures : Z;
  st_queue_rejections : Z;
  st_timeouts : Z;
  st_losses : Z;
  st_service_polls : Z;
}.

(** What the outside sees of the threads.  A batch is published when its slot becomes queued. *)
Inductive LaneEvent : Set :=
| ev_published (batch_id phase_index : Z) (rate_owned : bool)
| ev_completed (status : Status) (backend_index : nat) (phase_index frame_index batch_id : Z)
| ev_graph_completed (phase_index : Z) (status : Status)
| ev_native_submit (backend_index : nat) (batch : DeviceCommandBatch)
| ev_native_cancel (backend_index : nat) (batch_id : Z)
| ev_native_request_stop (backend_index : nat).

(** The changing part of [BatchBackendState] next to the admission flag. *)
Record BatchControl : Set := mkBatchControl {
  bk_poll_failure : Status;
  bk_next_sequence : Z;
}.

Record DeviceLanes : Set := mkDeviceLanes {
  dl_slots : list BatchSlot;
  dl_timelines : list TimelineState;
  dl_controls : list BatchControl;
  dl_next_batch_id : Z;
  dl_outstanding_count : Z;
  dl_admission_open : bool;
  dl_batch_stopping : bool;
  dl_stats : DeviceManagerStats;
  dl_log : list LaneEvent;
}.

Definition set_slots (v : list BatchSlot) (d : DeviceLanes) : DeviceLanes :=
  mkDeviceLanes v (dl_timelines d) (dl_controls d) (dl_next_batch_id d) (dl_outstanding_count d) (dl_admission_open d)
    (dl_batch_stopping d) (dl_stats d) (dl_log d).
Definition set_timelines (v : list TimelineState) (d : DeviceLanes) : DeviceLanes :=
  mkDeviceLanes (dl_slots d) v (dl_controls d) (dl_next_batch_id d) (dl_outstanding_count d) (dl_admission_open d)
    (dl_batch_stopping d) (dl_stats d) (dl_log d).
Definition set_controls (v : list BatchControl) (d : DeviceLanes) : DeviceLanes :=
  mkDeviceLanes (dl_slots d) (dl_timelines d) v (dl_next_batch_id d) (dl_outstanding_count d) (dl_admission_open d)
    (dl_batch_stopping d) (dl_stats d) (dl_log d).
Definition set_next_batch_id (v : Z) (d : DeviceLanes) : DeviceLanes :=
  mkDeviceLanes (dl_slots d) (dl_timelines d) (dl_controls d) v (dl_outstanding_count d) (dl_admission_open d)
    (dl_batch_stopping d) (dl_stats d) (dl_log d).
Definition set_outstanding_count (v : Z) (d : DeviceLanes) : DeviceLanes :=
  mkDeviceLanes (dl_slots d) (dl_timelines d) (dl_controls d) (dl_next_batch_id d) v (dl_admission_open d)
    (dl_batch_stopping d) (dl_stats d) (dl_log d).
Definition set_open (open stopping : bool) (d : DeviceLanes) : DeviceLanes :=
  mkDeviceLanes (dl_slots d) (dl_timelines d) (dl_controls d) (dl_next_batch_id d) (dl_outstanding_count d) open stopping
    (dl_stats d) (dl_log d).
Definition set_stats (v : DeviceManagerStats) (d : DeviceLanes) : DeviceLanes :=
  mkDeviceLanes (dl_slots d) (dl_timelines d) (dl_controls d) (dl_next_batch_id d) (dl_outstanding_count d)
    (dl_admission_open d) (dl_batch_stopping d) v (dl_log d).
Definition emit (events : list LaneEvent) (d : DeviceLanes) : DeviceLanes :=
  mkDeviceLanes (dl_slots d) (dl_timelines d) (dl_controls d) (dl_next_batch_id d) (dl_outstanding_count d)
    (dl_admission_open d) (dl_batch_stopping d) (dl_stats d) (dl_log d ++ events).

Definition put_slot (i : nat) (s : BatchSlot) (d : DeviceLanes) : DeviceLanes := set_slots (<[i := s]> (dl_slots d)) d.

Definition set_poll_failure (b : nat) (v : Status) (d : DeviceLanes) : DeviceLanes :=
  set_controls (alter (fun k => mkBatchControl v (bk_next_sequence k)) b (dl_controls d)) d.

Definition poll_failure (b : nat) (d : DeviceLanes) : Status := from_option bk_poll_failure ok (dl_controls d !! b).

(** *** Counters *)

Definition count_submission (s : DeviceManagerStats) : DeviceManagerStats :=
  mkManagerStats (st_submissions s +u 1) (st_completions s) (st_failures s) (st_queue_rejections s) (st_timeouts s)
    (st_losses s) (st_service_polls s).
Definition count_completion (s : DeviceManagerStats) : DeviceManagerStats :=
  mkManagerStats (st_submissions s) (st_completions s +u 1) (st_failures s) (st_queue_rejections s) (st_timeouts s)
    (st_losses s) (st_service_polls s).
Definition count_rejection (s : DeviceManagerStats) : DeviceManagerStats :=
  mkManagerStats (st_submissions s) (st_completions s) (st_failures s) (st_queue_rejections s +u 1) (st_timeouts s)
    (st_losses s) (st_service_polls s).
Definition count_poll (s : DeviceManagerStats) : DeviceManagerStats :=
  mkManagerStats (st_submissions s) (st_completions s) (st_failures s) (st_queue_rejections s) (st_timeouts s)
    (st_losses s) (st_service_polls s +u 1).

Definition record_failure (status : Status) (s : DeviceManagerStats) : DeviceManagerStats :=
  mkManagerStats (st_submissions s) (st_completions s) (st_failures s +u 1) (st_queue_rejections s)
    (if decide (status = device_timeout) then st_timeouts s +u 1 else st_timeouts s)
    (if decide (status = device_lost) then st_losses s +u 1 else st_losses s) (st_service_polls s).

Definition runtime_status_to_hal (status : Status) : HalV2Status :=
  match status with
  | device_queue_full => hal_queue_full
  | device_timeout => hal_timeout
  | device_lost => hal_lost
  | device_canceled => hal_canceled
  | device_reset_required => hal_reset_required
  | resource_exhausted => hal_resource_exhausted
  | _ => hal_error
  end.

(** The host clock and the logical clock as a step reads them. *)
Record Clocks : Set := mkClocks {
  ck_now_ns : Z;
  ck_logical_ns : Z;
}.

Section Lanes.
Context (cfg : DeviceConfig) (natives : list NativeMemoryState).

Definition lane_of (b : nat) : BatchLane := default no_lane (batch_lanes cfg !! b).
Definition lane_slots (b : nat) : list nat := seq (bl_slot_offset (lane_of b)) (bl_slot_count (lane_of b)).

Definition completion_timestamp_domain (b : nat) : Z :=
  from_option (fun m => ts_completion_timestamp_domain_identity (ms_snapshot m)) 0
    (df_backends cfg !! b ≫= ds_memory_state).

(** ** Completion of a batch *)

Definition signal_known (timelines : list TimelineState) (p : HalV2TimelinePoint) : bool :=
  (device_owner (tp_timeline_handle p) =? df_owner cfg) &&
  (DeviceTimelineHandle_index (tp_timeline_handle p) <? Z.of_nat (length timelines)).

(** The compare-exchange loop on [completed]. *)
Definition raise_completed (value : Z) (t : TimelineState) : TimelineState :=
  mkTimelineState (tl_name t) (tl_backend_index t) (tl_initial_value t) (tl_last_accepted t)
    (if tl_completed t <? value then value else tl_completed t).

Definition publish_signals (signals : list HalV2TimelinePoint) (timelines : list TimelineState) : list TimelineState :=
  foldl (fun ts p => alter (raise_completed (tp_value p)) (Z.to_nat (DeviceTimelineHandle_index (tp_timeline_handle p))) ts)
    timelines signals.

(** The simulator deadlines, and whether every signal names a timeline: the status to report
    and whether the timelines advance. *)
Definition settle (clocks : Clocks) (timelines : list TimelineState) (w : BatchWork) (status : Status) (publish_timeline : bool)
    : Status * bool :=
  let '(status, publish_timeline) :=
    if bw_simulation_timing w then
      let status :=
        if bool_decide (status = ok) &&
           ((bw_deadline_ns w <=? ck_now_ns clocks) ||
            (bw_logical_clock w && (bw_logical_deadline_ns w <=? ck_logical_ns clocks)))
        then device_timeout else status in
      (status, if bool_decide (status = ok) then publish_timeline else false)
    else (status, publish_timeline) in
  if publish_timeline && negb (forallb (signal_known timelines) (active_signals (bw_batch w)))
  then (device_error, false) else (status, publish_timeline).

(** [retire_device_batch_slot] and the terminal state of a rate slot. *)
Definition retire_batch_slot (i : nat) (s : BatchSlot) (status : Status) (d : DeviceLanes) : DeviceLanes :=
  let d := set_outstanding_count (dl_outstanding_count d -u 1) d in
  let d := put_slot i (set_state kBatchFree (set_graph_released true s)) d in
  if bs_graph_released s then d else emit [ev_graph_completed (bs_phase_index s) status] d.

Definition terminate_rate_slot (i : nat) (s : BatchSlot) (status : Status) (completion : option HalV2BatchCompletion)
    (d : DeviceLanes) : DeviceLanes :=
  let s := set_terminal_status status (set_graph_released true s) in
  let s := match completion with
           | Some c => if bool_decide (status = ok) || bw_simulation_timing (bs_work s) then set_early c true s else s
           | None => s
           end in
  put_slot i (set_state kBatchRateTerminal s) d.

Definition completed_event (s : BatchSlot) (status : Status) : LaneEvent :=
  ev_completed status (bw_backend_index (bs_work s)) (bs_phase_index s) (bw_frame_index (bs_work s)) (bs_batch_id s).

Definition account_completion (s : BatchSlot) (status : Status) (d : DeviceLanes) : DeviceLanes :=
  let stats := count_completion (dl_stats d) in
  emit [completed_event s status] (set_stats (if bool_decide (status = ok) then stats else record_failure status stats) d).

(** [finish_batch_slot] by the thread that owns slot [i], whose content is [s]. *)
Definition finish_batch_slot (clocks : Clocks) (i : nat) (s : BatchSlot) (status : Status) (publish_timeline : bool)
    (completion : option HalV2BatchCompletion) (d : DeviceLanes) : DeviceLanes :=
  let '(status, publish_timeline) := settle clocks (dl_timelines d) (bs_work s) status publish_timeline in
  let d := if publish_timeline then set_timelines (publish_signals (active_signals (bs_batch s)) (dl_timelines d)) d else d in
  let d := account_completion s status d in
  if bs_rate_owned s then terminate_rate_slot i s status completion d else retire_batch_slot i s status d.

Definition finish_rate_quarantine (i : nat) (s : BatchSlot) (status : Status) (d : DeviceLanes) : DeviceLanes :=
  let s' := set_early (bs_early_completion s) false (set_terminal_status status (set_graph_released true s)) in
  put_slot i (set_state kBatchRateQuarantined s') (account_completion s status d).

(** What a retained early completion becomes. *)
Definition finish_early (clocks : Clocks) (i : nat) (s : BatchSlot) (d : DeviceLanes) : DeviceLanes :=
  finish_batch_slot clocks i s (hal_v2_status_to_runtime (hal_status_of (bc_status (bs_early_completion s))))
    (bs_early_completion_valid s) (if bs_early_completion_valid s then Some (bs_early_completion s) else None) d.

(** The completion that stands for a failure of the backend. *)
Definition failure_completion (b : nat) (s : BatchSlot) (status : Status) : HalV2BatchCompletion :=
  let count := Z.to_nat (bt_signal_count (bs_batch s)) in
  mkBatchCompletion (bc_struct_size default_completion) (bc_extension_version default_completion)
    (hal_status_code (runtime_status_to_hal status)) (bt_signal_count (bs_batch s)) (bs_batch_id s) 0
    (completion_timestamp_domain b)
    (take count (bt_signals (bs_batch s)) ++ drop count (bc_signals default_completion)) (bc_reserved default_completion).

(** One slot of [fail_backend_batches], and whether it delivered the failure. *)
Definition fail_slot (clocks : Clocks) (b : nat) (status : Status) (acc : DeviceLanes * bool) (i : nat) : DeviceLanes * bool :=
  let '(d, delivered) := acc in
  match dl_slots d !! i with
  | None => (d, delivered)
  | Some s =>
      match bs_state s with
      | kBatchSubmitting =>
          (put_slot i (set_state kBatchEarlyReady (set_early (failure_completion b s status) false s)) d, true)
      | kBatchQueued | kBatchSubmitted => (finish_batch_slot clocks i s status false None d, true)
      | kBatchCompletionReady => (finish_early clocks i s d, delivered)
      | _ => (d, delivered)
      end
  end.

Definition has_commands (b : nat) : bool := is_set (df_backends cfg !! b ≫= ds_command_state).

Definition fail_backend_batches (clocks : Clocks) (b : nat) (status : Status) (d : DeviceLanes) : DeviceLanes * bool :=
  if has_commands b then foldl (fail_slot clocks b status) (d, false) (lane_slots b) else (d, false).

(** ** Submission *)

(** The arguments of a call of [submit_batch], and the clock it read first. *)
Record BatchRequest : Set := mkBatchRequest {
  rq_phase_index : Z;
  rq_frame_index : Z;
  rq_requested : DeviceCommandBatch;
  rq_declaration : DeviceCommandBatch;
  rq_rate : option DeviceRateReleaseIdentity;
  rq_simulation : option DeviceRateSimulationTiming;
  rq_start_ns : Z;
}.

Definition batch_state_at (slots : list BatchSlot) (i : nat) : option BatchState := bs_state <$> slots !! i.

Definition first_free (b : nat) (slots : list BatchSlot) : option nat :=
  snd <$> list_find (fun i => batch_state_at slots i = Some kBatchFree) (lane_slots b).

(** [fetch_add] on [next_batch_id_], again when it gave 0; the id and the counter. *)
Definition take_batch_id (next : Z) : Z * Z :=
  if next =? 0 then (next +u 1, (next +u 1) +u 1) else (next, next +u 1).

Definition set_identity (batch_id frame_index : Z) (b : DeviceCommandBatch) : DeviceCommandBatch :=
  mkCommandBatch (bt_struct_size b) (bt_extension_version b) batch_id frame_index (bt_timeout_ns b) (bt_command_count b)
    (bt_wait_count b) (bt_signal_count b) (bt_reserved0 b) (bt_commands b) (bt_waits b) (bt_signals b) (bt_reserved b).

Definition accept_value (value : Z) (t : TimelineState) : TimelineState :=
  mkTimelineState (tl_name t) (tl_backend_index t) (tl_initial_value t) value (tl_completed t).

Definition accept_signals (signals : list HalV2TimelinePoint) (timelines : list TimelineState) : list TimelineState :=
  foldl (fun ts p => alter (accept_value (tp_value p)) (Z.to_nat (DeviceTimelineHandle_index (tp_timeline_handle p))) ts)
    timelines signals.

(** The slot that carries the translated batch. *)
Definition batch_slot (b : nat) (rq : BatchRequest) (now sequence : Z) (batch : DeviceCommandBatch) : BatchSlot :=
  mkBatchSlot kBatchQueued false false default_completion false (is_set (rq_rate rq)) ok
    (mkBatchWork sequence
       (match rq_simulation rq with
        | Some timing => rq_start_ns rq +u sm_host_watchdog_ns timing
        | None => now +u bt_timeout_ns (rq_requested rq)
        end)
       (is_set (rq_simulation rq)) (from_option sm_logical_clock false (rq_simulation rq))
       (from_option sm_logical_deadline_ns 0 (rq_simulation rq)) b (u32 (rq_phase_index rq)) (rq_frame_index rq) batch
       (rq_rate rq)).

(** From the reserved slot [i] to the queued batch, or back to a free slot. *)
Definition publish_batch (b i : nat) (rq : BatchRequest) (now : Z) (d : DeviceLanes) : DeviceLanes * bool :=
  match dl_slots d !! i with
  | None => (d, false)
  | Some s =>
      match admit_batch cfg natives (dl_timelines d) b (rq_requested rq) with
      | inl _ => (put_slot i (set_state kBatchFree s) d, false)
      | inr translated =>
          let '(batch_id, next) := take_batch_id (dl_next_batch_id d) in
          let sequence := from_option bk_next_sequence 0 (dl_controls d !! b) in
          let slot := batch_slot b rq now sequence (set_identity batch_id (rq_frame_index rq) translated) in
          let d := set_next_batch_id next d in
          let d := set_controls (alter (fun k => mkBatchControl (bk_poll_failure k) (bk_next_sequence k +u 1)) b (dl_controls d)) d in
          let d := set_timelines (accept_signals (active_signals (rq_requested rq)) (dl_timelines d)) d in
          let d := set_outstanding_count (dl_outstanding_count d +u 1) d in
          let d := set_stats (count_submission (dl_stats d)) (put_slot i slot d) in
          (emit [ev_published batch_id (bs_phase_index slot) (bs_rate_owned slot)] d, true)
      end
  end.

(** The end of [submit_batch] when a stop has begun. *)
Definition cancel_queued (clocks : Clocks) (i : nat) (d : DeviceLanes) : DeviceLanes :=
  match dl_slots d !! i with
  | Some s => if decide (bs_state s = kBatchQueued) then finish_batch_slot clocks i s device_canceled false None d else d
  | None => d
  end.

(** ** The submission lane *)

(** The queued slot with the least sequence, the first of them. *)
Definition select_slot (b : nat) (slots : list BatchSlot) : option nat :=
  fst <$> foldl (fun best i =>
    match slots !! i with
    | Some s =>
        if bool_decide (bs_state s = kBatchQueued) && (bw_sequence (bs_work s) <? from_option snd u64_max best)
        then Some (i, bw_sequence (bs_work s)) else best
    | None => best
    end) None (lane_slots b).

Definition wait_ready (timelines : list TimelineState) (p : HalV2TimelinePoint) : bool :=
  (device_owner (tp_timeline_handle p) =? df_owner cfg) &&
  match timelines !! Z.to_nat (DeviceTimelineHandle_index (tp_timeline_handle p)) with
  | Some t => negb (tl_completed t <? tp_value p)
  | None => false
  end.

Definition waits_ready (timelines : list TimelineState) (batch : DeviceCommandBatch) : bool :=
  forallb (wait_ready timelines) (active_waits batch).

(** Where a lane is: before a scan; holding a slot it selected, the batch it found there and
    whether its waits were complete; inside [extension.submit]. *)
Inductive LanePc : Set :=
| lane_scan
| lane_selected (slot : nat) (batch : DeviceCommandBatch) (ready : bool)
| lane_submitting (slot : nat).

Definition lane_select (b : nat) (d : DeviceLanes) : LanePc :=
  match select_slot b (dl_slots d) with
  | None => lane_scan
  | Some i =>
      match dl_slots d !! i with
      | Some s => lane_selected i (bs_batch s) (waits_ready (dl_timelines d) (bs_batch s))
      | None => lane_scan
      end
  end.

(** The compare-exchange from queued, and what follows it. *)
Definition lane_claim (clocks : Clocks) (b i : nat) (ready : bool) (d : DeviceLanes) : DeviceLanes * LanePc :=
  match dl_slots d !! i with
  | None => (d, lane_scan)
  | Some s =>
      if ready then
        if decide (bs_state s = kBatchQueued)
        then (emit [ev_native_submit b (bs_batch s)] (put_slot i (set_state kBatchSubmitting s) d), lane_submitting i)
        else (d, lane_scan)
      else
        if (bw_deadline_ns (bs_work s) <=? ck_now_ns clocks) && bool_decide (bs_state s = kBatchQueued)
        then (finish_batch_slot clocks i s device_timeout false None d, lane_scan)
        else (d, lane_scan)
  end.

(** [extension.submit] returned [answer], or threw. *)
Definition lane_return (clocks : Clocks) (i : nat) (answer : option HalV2Status) (d : DeviceLanes) : DeviceLanes :=
  match dl_slots d !! i with
  | None => d
  | Some s =>
      let status := hal_v2_status_to_runtime (caught answer) in
      if decide (status = ok) then
        match bs_state s with
        | kBatchSubmitting => put_slot i (set_state kBatchSubmitted s) d
        | kBatchEarlyReady => put_slot i (set_state kBatchCompletionReady s) d
        | _ => d
        end
      else
        match bs_state s with
        | kBatchSubmitting => finish_batch_slot clocks i s status false None d
        | kBatchEarlyReady => finish_batch_slot clocks i s device_error false None d
        | _ => d
        end
  end.

(** ** The service thread *)

(** One slot of the sweep for retained early completions. *)
Definition sweep_slot (clocks : Clocks) (i : nat) (d : DeviceLanes) : DeviceLanes :=
  match dl_slots d !! i with
  | Some s => if decide (bs_state s = kBatchCompletionReady) then finish_early clocks i s d else d
  | None => d
  end.

Definition quarantined (s : BatchState) : bool :=
  match s with kBatchRateQuarantineOwned | kBatchRateQuarantined => true | _ => false end.
Definition in_flight (s : BatchState) : bool :=
  match s with kBatchSubmitting | kBatchSubmitted => true | _ => false end.

(** The first slot of the lane that carries the batch of the completion. *)
Definition matching_slot (b : nat) (batch_id : Z) (slots : list BatchSlot) : option nat :=
  snd <$> list_find (fun i =>
    from_option (fun s => (in_flight (bs_state s) || quarantined (bs_state s)) && (bs_batch_id s =? batch_id)) false (slots !! i) = true)
    (lane_slots b).

Definition process_batch_completion (clocks : Clocks) (b : nat) (completion : HalV2BatchCompletion) (d : DeviceLanes) : DeviceLanes :=
  match matching_slot b (bc_batch_id completion) (dl_slots d) with
  | None => d
  | Some i =>
      match dl_slots d !! i with
      | None => d
      | Some s =>
          match bs_state s with
          | kBatchSubmitting => put_slot i (set_state kBatchEarlyReady (set_early completion true s)) d
          | kBatchSubmitted =>
              finish_batch_slot clocks i s (hal_v2_status_to_runtime (hal_status_of (bc_status completion))) true (Some completion) d
          | _ => d
          end
      end
  end.

Definition poll_capacity (b : nat) : nat :=
  if df_native_per_backend cfg
  then Nat.min (df_completion_batch cfg)
         (Z.to_nat (from_option cap_completion_batch_capacity 0 (df_backends cfg !! b ≫= ds_command_state)))
  else df_completion_batch cfg.

Definition signals_match (c : HalV2BatchCompletion) (batch : DeviceCommandBatch) : bool :=
  (bc_signal_count c =? bt_signal_count batch) &&
  forallb (fun p : HalV2TimelinePoint * HalV2TimelinePoint =>
      (tp_timeline_handle (fst p) =? tp_timeline_handle (snd p)) && (tp_value (fst p) =? tp_value (snd p)))
    (take (Z.to_nat (bc_signal_count c)) (zip (bc_signals c) (bt_signals batch))).

(** The validation loop over the completions a poll returned. *)
Fixpoint completions_valid (b : nat) (slots : list BatchSlot) (prior : list Z) (completions : list HalV2BatchCompletion) : bool :=
  match completions with
  | [] => true
  | c :: rest =>
      validate_batch_completion c && (bc_timestamp_domain_identity c =? completion_timestamp_domain b) &&
      negb (existsb (Z.eqb (bc_batch_id c)) prior) &&
      match matching_slot b (bc_batch_id c) slots ≫= (slots !!.) with
      | Some s => signals_match c (bs_batch s)
      | None => false
      end &&
      completions_valid b slots (prior ++ [bc_batch_id c]) rest
  end.

(** Delivery of a failure of a poll to the batches that are visible. *)
Definition deliver_failure (clocks : Clocks) (b : nat) (failure : Status) (d : DeviceLanes) : DeviceLanes * bool :=
  let '(d, delivered) := fail_backend_batches clocks b failure d in
  (if delivered then set_poll_failure b ok d else d, delivered).

(** [poll_batch_completions]: [answer] and the completions the callback wrote, with the count it
    returned; the completions left to process. *)
Definition poll_batch_completions (clocks : Clocks) (b : nat) (answer : option HalV2Status) (count : nat)
    (buffer : list HalV2BatchCompletion) (d : DeviceLanes) : DeviceLanes * list HalV2BatchCompletion :=
  if negb (has_commands b) then (d, []) else
  let '(d, settled) := if decide (poll_failure b d = ok) then (d, false) else deliver_failure clocks b (poll_failure b d) d in
  if settled then (d, []) else
  let d := set_stats (count_poll (dl_stats d)) d in
  let status := hal_v2_status_to_runtime (caught answer) in
  if negb (bool_decide (status = ok)) || (Nat.ltb (poll_capacity b) count) then
    let failure := if decide (status = ok) then device_error else status in
    let retained := if decide (poll_failure b d = ok) then failure else poll_failure b d in
    (fst (deliver_failure clocks b retained (set_poll_failure b retained d)), [])
  else
    let '(d, settled) := if decide (poll_failure b d = ok) then (d, false) else deliver_failure clocks b (poll_failure b d) d in
    if settled then (d, []) else
    let completions := take count buffer in
    if completions_valid b (dl_slots d) [] completions then (d, completions)
    else (fst (fail_backend_batches clocks b device_error d), []).

(** One slot of the time-out scan. *)
Definition expirable (s : BatchSlot) : bool :=
  match bs_state s with
  | kBatchSubmitted => true
  | kBatchSubmitting => bs_rate_owned s
  | kBatchQueued | kBatchEarlyReady => bw_simulation_timing (bs_work s)
  | _ => false
  end.

Definition request_cancellation (b i : nat) (s : BatchSlot) (d : DeviceLanes) : DeviceLanes * BatchSlot :=
  if bs_cancellation_requested s then (d, s)
  else
    let s' := set_cancellation_requested true s in
    (emit [ev_native_cancel b (bs_batch_id s)] (put_slot i s' d), s').

Definition expire_slot (clocks : Clocks) (b i : nat) (d : DeviceLanes) : DeviceLanes :=
  match dl_slots d !! i with
  | None => d
  | Some s =>
      if expirable s && (bw_deadline_ns (bs_work s) <=? ck_now_ns clocks) then
        if decide (bs_state s = kBatchQueued) then finish_rate_quarantine i s device_timeout d
        else
          let '(d, s) := request_cancellation b i s d in
          if bs_rate_owned s then finish_rate_quarantine i s device_timeout d
          else finish_batch_slot clocks i s device_timeout false None d
      else d
  end.

(** ** Rate tickets *)

(** [DeviceRateTicket]; the default index is [None]. *)
Record DeviceRateTicket : Set := mkRateTicket {
  rk_slot_index : option nat;
  rk_batch_id : Z;
  rk_identity : DeviceRateReleaseIdentity;
}.

Record DeviceRateCompletion : Set := mkRateCompletion {
  rc_status : Status;
  rc_timestamp_domain_identity : Z;
  rc_timestamp : Z;
  rc_terminal_slot_owned : bool;
}.

Definition DeviceRateTicket_valid (t : DeviceRateTicket) : bool := is_set (rk_slot_index t) && negb (rk_batch_id t =? 0).

(** The fields [release_rate_batch] compares, and the rest that [wait_rate_batch] compares. *)
Definition same_release (a b : DeviceRateReleaseIdentity) : bool :=
  bool_decide (ri_reference_index a = ri_reference_index b) && bool_decide (ri_domain a = ri_domain b) &&
  bool_decide (ri_phase a = ri_phase b) && (ri_supercycle_cycle a =? ri_supercycle_cycle b) &&
  (ri_domain_release_sequence a =? ri_domain_release_sequence b) && (ri_substep_ordinal a =? ri_substep_ordinal b).

Definition same_times (a b : DeviceRateReleaseIdentity) : bool :=
  (ri_logical_release_ns a =? ri_logical_release_ns b) && (ri_nominal_release_ns a =? ri_nominal_release_ns b) &&
  (ri_absolute_deadline_ns a =? ri_absolute_deadline_ns b) && (ri_completion_budget_ns a =? ri_completion_budget_ns b).

Definition default_identity : DeviceRateReleaseIdentity :=
  mkRateIdentity None (mkRateDomainHandle invalid_graph_handle) (mkPhaseHandle invalid_graph_handle) 0 0 0 0 0 0 0.

Definition slot_identity (s : BatchSlot) : DeviceRateReleaseIdentity := default default_identity (bw_rate_identity (bs_work s)).

Definition ticket_releases (t : DeviceRateTicket) (s : BatchSlot) : bool :=
  bs_rate_owned s && (bs_batch_id s =? rk_batch_id t) && same_release (slot_identity s) (rk_identity t).

Definition ticket_matches (t : DeviceRateTicket) (s : BatchSlot) : bool :=
  ticket_releases t s && same_times (slot_identity s) (rk_identity t).

Definition no_completion : DeviceRateCompletion := mkRateCompletion invalid_state 0 0 false.

(** [wait_rate_batch], one turn of its loop: [None] when it goes round again. *)
Definition wait_rate_batch (t : DeviceRateTicket) (d : DeviceLanes) : option (DeviceLanes * Status * DeviceRateCompletion) :=
  match (if DeviceRateTicket_valid t then rk_slot_index t else None) ≫= fun i => s ← dl_slots d !! i; Some (i, s) with
  | None => Some (d, invalid_argument, no_completion)
  | Some (i, s) =>
      if negb (ticket_matches t s) then Some (d, invalid_handle, no_completion)
      else
        match bs_state s with
        | kBatchFree | kBatchReserved => Some (d, invalid_handle, no_completion)
        | kBatchRateTerminal =>
            Some (put_slot i (set_state kBatchOwned s) d, bs_terminal_status s,
              mkRateCompletion (bs_terminal_status s)
                (if bs_early_completion_valid s then bc_timestamp_domain_identity (bs_early_completion s) else 0)
                (if bs_early_completion_valid s then bc_device_timestamp (bs_early_completion s) else 0) true)
        | kBatchRateQuarantined =>
            Some (d, bs_terminal_status s, mkRateCompletion (bs_terminal_status s) 0 0 false)
        | _ => None
        end
  end.

Definition release_rate_batch (t : DeviceRateTicket) (d : DeviceLanes) : DeviceLanes * Status :=
  match (if DeviceRateTicket_valid t then rk_slot_index t else None) ≫= fun i => s ← dl_slots d !! i; Some (i, s) with
  | None => (d, invalid_argument)
  | Some (i, s) =>
      if decide (bs_state s = kBatchOwned) then
        if ticket_releases t s then
          (put_slot i (set_state kBatchFree (set_early (bs_early_completion s) false (set_rate_owned false s)))
             (set_outstanding_count (dl_outstanding_count d -u 1) d), ok)
        else (d, invalid_handle)
      else (d, invalid_handle)
  end.

(** ** The stop request *)

Definition cancelable (s : BatchState) : bool :=
  match s with kBatchQueued | kBatchRateTerminal | kBatchRateQuarantineOwned | kBatchRateQuarantined => false | _ => true end.

Definition release_graph (i : nat) (s : BatchSlot) (d : DeviceLanes) : DeviceLanes :=
  if bs_rate_owned s || bs_graph_released s then d
  else emit [ev_graph_completed (bs_phase_index s) device_canceled] (put_slot i (set_graph_released true s) d).

(** One slot of [request_batch_stop]. *)
Definition stop_batch_slot (clocks : Clocks) (b : nat) (d : DeviceLanes) (i : nat) : DeviceLanes :=
  match dl_slots d !! i with
  | None => d
  | Some s =>
      match bs_state s with
      | kBatchFree | kBatchReserved => d
      | kBatchQueued => finish_batch_slot clocks i s device_canceled false None d
      | state =>
          let '(d, s) := if cancelable state then request_cancellation b i s d else (d, s) in
          release_graph i s d
      end
  end.

(** The turn of [request_batch_stop] for a backend it has to ask. *)
Definition stop_backend (clocks : Clocks) (b : nat) (d : DeviceLanes) : DeviceLanes :=
  if has_commands b then foldl (stop_batch_slot clocks b) (emit [ev_native_request_stop b] d) (lane_slots b) else d.

(** ** The threads *)

(** The shared state; per backend the provider inside [submit_batch] that holds the admission flag, with the
    slot it reserved, and where its lane is; the slots of calls of [submit_batch] that have still to look
    for a stop; and the completions the service thread has still to process. *)
Record DeviceSystem : Set := mkDeviceSystem {
  sy_lanes : DeviceLanes;
  sy_admissions : list (option (nat * BatchRequest));
  sy_pcs : list LanePc;
  sy_checks : list nat;
  sy_pending : list (nat * HalV2BatchCompletion);
}.

Definition set_lanes (d : DeviceLanes) (y : DeviceSystem) : DeviceSystem :=
  mkDeviceSystem d (sy_admissions y) (sy_pcs y) (sy_checks y) (sy_pending y).
Definition set_admission (b : nat) (a : option (nat * BatchRequest)) (y : DeviceSystem) : DeviceSystem :=
  mkDeviceSystem (sy_lanes y) (<[b := a]> (sy_admissions y)) (sy_pcs y) (sy_checks y) (sy_pending y).
Definition set_pc (b : nat) (pc : LanePc) (y : DeviceSystem) : DeviceSystem :=
  mkDeviceSystem (sy_lanes y) (sy_admissions y) (<[b := pc]> (sy_pcs y)) (sy_checks y) (sy_pending y).
Definition set_checks (l : list nat) (y : DeviceSystem) : DeviceSystem :=
  mkDeviceSystem (sy_lanes y) (sy_admissions y) (sy_pcs y) l (sy_pending y).
Definition set_pending (l : list (nat * HalV2BatchCompletion)) (y : DeviceSystem) : DeviceSystem :=
  mkDeviceSystem (sy_lanes y) (sy_admissions y) (sy_pcs y) (sy_checks y) l.

(** A call of [submit_batch] up to the reserved slot; a call that is refused before leaves the counter of
    rejections or nothing. *)
Definition submit_enter (b : nat) (rq : BatchRequest) (now : Z) (y : DeviceSystem) : DeviceSystem :=
  let d := sy_lanes y in
  let rejected := set_lanes (set_stats (count_rejection (dl_stats d)) d) y in
  if negb (batch_arguments_valid cfg b (dl_admission_open d) (rq_phase_index rq) (rq_requested rq) (rq_declaration rq)
             (rq_rate rq) (rq_simulation rq)) ||
     negb (batch_fits cfg b (rq_start_ns rq) now (rq_requested rq) (rq_simulation rq)) then y
  else
    match sy_admissions y !! b with
    | None => y
    | Some (Some _) => rejected
    | Some None =>
        match first_free b (dl_slots d) with
        | None => rejected
        | Some i =>
            match dl_slots d !! i with
            | Some s => set_admission b (Some (i, rq)) (set_lanes (put_slot i (set_state kBatchReserved s) d) y)
            | None => y
            end
        end
    end.

Definition submit_publish (b : nat) (now : Z) (y : DeviceSystem) : DeviceSystem :=
  match sy_admissions y !! b with
  | Some (Some (i, rq)) =>
      let '(d, published) := publish_batch b i rq now (sy_lanes y) in
      let y := set_admission b None (set_lanes d y) in
      if published then set_checks (i :: sy_checks y) y else y
  | _ => y
  end.

(** The steps of the threads. *)
Inductive Step : Set :=
| st_submit (backend : nat) (rq : BatchRequest) (now : Z)
| st_publish (backend : nat) (now : Z)
| st_check (k : nat) (clocks : Clocks)
| st_select (backend : nat)
| st_claim (backend : nat) (clocks : Clocks)
| st_return (backend : nat) (answer : option HalV2Status) (clocks : Clocks)
| st_sweep (slot : nat) (clocks : Clocks)
| st_poll (backend : nat) (answer : option HalV2Status) (count : nat) (buffer : list HalV2BatchCompletion) (clocks : Clocks)
| st_process (clocks : Clocks)
| st_expire (backend slot : nat) (clocks : Clocks)
| st_wait (ticket : DeviceRateTicket)
| st_release (ticket : DeviceRateTicket)
| st_close
| st_stop (backend : nat) (clocks : Clocks)
| st_fail (backend : nat) (clocks : Clocks).

Definition lane_step (l : Step) (y : DeviceSystem) : DeviceSystem :=
  let d := sy_lanes y in
  match l with
  | st_submit b rq now => submit_enter b rq now y
  | st_publish b now => submit_publish b now y
  | st_check k clocks =>
      match sy_checks y !! k with
      | None => y
      | Some i => set_checks (delete k (sy_checks y)) (if dl_batch_stopping d then set_lanes (cancel_queued clocks i d) y else y)
      end
  | st_select b =>
      match sy_pcs y !! b with
      | Some lane_scan => if dl_batch_stopping d then y else set_pc b (lane_select b d) y
      | _ => y
      end
  | st_claim b clocks =>
      match sy_pcs y !! b with
      | Some (lane_selected i _ ready) => let '(d, pc) := lane_claim clocks b i ready d in set_pc b pc (set_lanes d y)
      | _ => y
      end
  | st_return b answer clocks =>
      match sy_pcs y !! b with
      | Some (lane_submitting i) => set_pc b lane_scan (set_lanes (lane_return clocks i answer d) y)
      | _ => y
      end
  | st_sweep i clocks => set_lanes (sweep_slot clocks i d) y
  | st_poll b answer count buffer clocks =>
      let '(d, completions) := poll_batch_completions clocks b answer count buffer d in
      set_pending (sy_pending y ++ (pair b <$> completions)) (set_lanes d y)
  | st_process clocks =>
      match sy_pending y with
      | [] => y
      | (b, c) :: rest => set_pending rest (set_lanes (process_batch_completion clocks b c d) y)
      end
  | st_expire b i clocks => set_lanes (expire_slot clocks b i d) y
  | st_wait t => from_option (fun r => set_lanes (fst (fst r)) y) y (wait_rate_batch t d)
  | st_release t => set_lanes (fst (release_rate_batch t d)) y
  | st_close => set_lanes (set_open false true d) y
  | st_stop b clocks => set_lanes (stop_backend clocks b d) y
  | st_fail b clocks => set_lanes (fst (fail_backend_batches clocks b device_canceled d)) y
  end.

Definition run (steps : list Step) (y : DeviceSystem) : DeviceSystem := foldl (fun y l => lane_step l y) y steps.

(** The constructor, with the lanes started; the batch of a slot that was never used is not read. *)
Definition empty_batch : DeviceCommandBatch :=
  mkCommandBatch sizeof_batch hal_v2_command_timeline_extension_version 0 0 0 0 0 0 0 [] [] [] [].
Definition empty_batch_slot : BatchSlot :=
  mkBatchSlot kBatchFree false false default_completion false false ok (mkBatchWork 0 0 false false 0 0 0 0 empty_batch None).

Definition create_lanes : DeviceSystem :=
  let n := length (df_backends cfg) in
  mkDeviceSystem
    (mkDeviceLanes (replicate (batch_slot_count cfg) empty_batch_slot) (create_timeline <$> df_timelines cfg)
       (replicate n (mkBatchControl ok 1)) 1 0 true false (mkManagerStats 0 0 0 0 0 0 0) [])
    (replicate n None) (replicate n lane_scan) [] [].
End Lanes.

(** ** Queries and the end of a shutdown *)

(** [DeviceTimelineInfo] *)
Record DeviceTimelineInfo : Set := mkTimelineInfo {
  ti_timeline : Z;
  ti_backend : Z;
  ti_name : list Z;
  ti_initial_value : Z;
  ti_last_accepted_value : Z;
  ti_completed_value : Z;
}.

Definition info_of (owner handle : Z) (t : TimelineState) : DeviceTimelineInfo :=
  mkTimelineInfo handle (DeviceBackendHandle_make owner (tl_backend_index t)) (tl_name t) (tl_initial_value t) (tl_last_accepted t) (tl_completed t).

Definition timeline_count (b : nat) (timelines : list TimelineState) : nat :=
  length (filter (fun t => tl_backend_index t = Z.of_nat b) timelines).

(** The loop of [timeline_at] from [index] on. *)
Fixpoint timeline_scan (b ordinal index : nat) (timelines : list TimelineState) : option (nat * TimelineState) :=
  match timelines with
  | [] => None
  | t :: rest =>
      if decide (tl_backend_index t = Z.of_nat b)
      then match ordinal with O => Some (index, t) | S ordinal => timeline_scan b ordinal (S index) rest end
      else timeline_scan b ordinal (S index) rest
  end.

Definition timeline_at (owner : Z) (b ordinal : nat) (timelines : list TimelineState) : option DeviceTimelineInfo :=
  (fun p : nat * TimelineState => info_of owner (DeviceTimelineHandle_make owner (Z.of_nat (fst p))) (snd p)) <$>
    timeline_scan b ordinal 0 timelines.

Definition timeline_info (owner handle : Z) (timelines : list TimelineState) : option DeviceTimelineInfo :=
  if negb (DeviceTimelineHandle_valid handle) || negb (device_owner handle =? owner) then None
  else info_of owner handle <$> timelines !! Z.to_nat (DeviceTimelineHandle_index handle).

(** One slot of [release_rate_slots_after_shutdown]. *)
Definition release_rate_slot (d : DeviceLanes) (i : nat) : DeviceLanes :=
  match dl_slots d !! i with
  | None => d
  | Some s =>
      if bs_rate_owned s then
        let d' := put_slot i (set_rate_owned false (set_state kBatchFree s)) d in
        match bs_state s with
        | kBatchFree | kBatchReserved => d'
        | _ => if dl_outstanding_count d =? 0 then d' else set_outstanding_count (dl_outstanding_count d - 1) d'
        end
      else d
  end.

Definition release_rate_slots_after_shutdown (d : DeviceLanes) : DeviceLanes :=
  foldl release_rate_slot d (seq 0 (length (dl_slots d))).

(** ** Single submissions

    [submit], [acquire_outstanding], [process_completion], [finalize_completion] and
    [fail_backend_outstanding], with every slot walk one step.  [finalize_completion] frees the slot and only then reads the phase to
    complete from it: these are two steps. *)

Inductive OutstandingState : Set :=
| kOutstandingFree
| kOutstandingOwned
| kOutstandingSubmitting
| kOutstandingSubmitted
| kOutstandingEarlyReady.

#[export] Instance OutstandingState_eq_dec : EqDecision OutstandingState.
Proof. solve_decision. Defined.

(** [DeviceManager::Outstanding] *)
Record Outstanding : Set := mkOutstanding {
  os_state : OutstandingState;
  os_submission_id : Z;
  os_frame_index : Z;
  os_backend_index : nat;
  os_phase_index : Z;
  os_early_completion : HalCompletion;
}.

Definition set_outstanding_state (v : OutstandingState) (s : Outstanding) : Outstanding :=
  mkOutstanding v (os_submission_id s) (os_frame_index s) (os_backend_index s) (os_phase_index s) (os_early_completion s).
Definition set_early_completion (c : HalCompletion) (s : Outstanding) : Outstanding :=
  mkOutstanding (os_state s) (os_submission_id s) (os_frame_index s) (os_backend_index s) (os_phase_index s) c.

Definition hal_completion_default : HalCompletion := mkHalCompletion sizeof_hal_completion 0 0 0 0 (replicate 4 0).

Inductive SubmissionEvent : Set :=
| se_native_submit (backend_index : nat) (submission : HalSubmission)
| se_submitted (phase_index submission_id : Z)
| se_completed (status : Status) (phase_index submission_id : Z)
| se_graph_completed (phase_index : Z) (status : Status).

(** The slots and counters of single submissions, the calls of [submit] inside the backend by their slot
    and the completions whose phase is still to be told, by slot and status. *)
Record Submissions : Set := mkSubmissions {
  sb_slots : list Outstanding;
  sb_hint : Z;
  sb_next_id : Z;
  sb_count : Z;
  sb_stats : DeviceManagerStats;
  sb_log : list SubmissionEvent;
  sb_calls : list nat;
  sb_tells : list (nat * Status);
}.

(** [v] in slot [i], the events, and the count moved by [delta]. *)
Definition update_submissions (i : nat) (v : Outstanding) (events : list SubmissionEvent) (delta : Z)
    (stats : DeviceManagerStats) (m : Submissions) : Submissions :=
  mkSubmissions (<[i := v]> (sb_slots m)) (sb_hint m) (sb_next_id m) (u64 (sb_count m + delta)) stats (sb_log m ++ events)
    (sb_calls m) (sb_tells m).
Definition set_calls (v : list nat) (m : Submissions) : Submissions :=
  mkSubmissions (sb_slots m) (sb_hint m) (sb_next_id m) (sb_count m) (sb_stats m) (sb_log m) v (sb_tells m).
Definition set_tells (v : list (nat * Status)) (m : Submissions) : Submissions :=
  mkSubmissions (sb_slots m) (sb_hint m) (sb_next_id m) (sb_count m) (sb_stats m) (sb_log m) (sb_calls m) v.
Definition log_submission (e : SubmissionEvent) (m : Submissions) : Submissions :=
  mkSubmissions (sb_slots m) (sb_hint m) (sb_next_id m) (sb_count m) (sb_stats m) (sb_log m ++ [e]) (sb_calls m) (sb_tells m).

(** The scan starts at a hint that moves on with every call. *)
Definition acquire_order (hint : Z) (capacity : nat) : list nat :=
  (fun offset => Z.to_nat ((hint mod Z.of_nat capacity + Z.of_nat offset) mod Z.of_nat capacity)) <$> seq 0 capacity.

Definition acquire_outstanding (m : Submissions) : option nat :=
  snd <$> list_find (fun i => (os_state <$> sb_slots m !! i) = Some kOutstandingFree) (acquire_order (sb_hint m) (length (sb_slots m))).

Definition set_submission_id (id frame_index : Z) (s : HalSubmission) : HalSubmission :=
  mkHalSubmission (hs_struct_size s) (hs_version s) id frame_index (hs_timeout_ns s) (hs_opcode s) (hs_flags s)
    (hs_payload_size s) (hs_buffer_count s) (hs_payload s) (hs_buffers s) (hs_reserved s).

(** [submit] up to the call of the backend. *)
Definition submit_begin (cfg : DeviceConfig) (natives : list NativeMemoryState) (b : nat) (phase_index frame_index : Z)
    (requested : HalSubmission) (m : Submissions) : Submissions :=
  match admit_submission cfg natives b true requested with
  | inl _ => m
  | inr submission =>
      let hint := sb_hint m +u 1 in
      match acquire_outstanding m with
      | None =>
          mkSubmissions (sb_slots m) hint (sb_next_id m) (sb_count m) (count_rejection (sb_stats m)) (sb_log m) (sb_calls m) (sb_tells m)
      | Some i =>
          let '(id, next) := take_batch_id (sb_next_id m) in
          let slot := mkOutstanding kOutstandingSubmitting id frame_index b (u32 phase_index)
                        (from_option os_early_completion hal_completion_default (sb_slots m !! i)) in
          mkSubmissions (<[i := slot]> (sb_slots m)) hint next (sb_count m) (sb_stats m)
            (sb_log m ++ [se_native_submit b (set_submission_id id frame_index submission)]) (i :: sb_calls m) (sb_tells m)
      end
  end.

Definition failed_stats (status : Status) (s : DeviceManagerStats) : DeviceManagerStats :=
  if decide (status = ok) then s else record_failure status s.

(** [finalize_completion] of slot [i] up to the freed slot. *)
Definition finalize_completion (i : nat) (s : Outstanding) (c : HalCompletion) (m : Submissions) : Submissions :=
  let status := hal_v2_status_to_runtime (hal_status_of (hp_status c)) in
  let m := update_submissions i (set_outstanding_state kOutstandingFree s)
             [se_completed status (os_phase_index s) (os_submission_id s)] (-1) (failed_stats status (count_completion (sb_stats m))) m in
  set_tells ((i, status) :: sb_tells m) m.

(** The rest of it: the phase is read from the slot now. *)
Definition tell_graph (k : nat) (m : Submissions) : Submissions :=
  match sb_tells m !! k with
  | None => m
  | Some (i, status) =>
      let m := set_tells (delete k (sb_tells m)) m in
      from_option (fun s => log_submission (se_graph_completed (os_phase_index s) status) m) m (sb_slots m !! i)
  end.

Definition failure_of (s : Outstanding) (status : Status) : HalCompletion :=
  mkHalCompletion sizeof_hal_completion (hal_status_code (runtime_status_to_hal status)) (os_submission_id s) 0 0 (replicate 4 0).

(** One slot of [fail_backend_outstanding]. *)
Definition fail_outstanding (b : nat) (status : Status) (m : Submissions) (i : nat) : Submissions :=
  match sb_slots m !! i with
  | None => m
  | Some s =>
      if Nat.eqb (os_backend_index s) b then
        match os_state s with
        | kOutstandingSubmitting =>
            update_submissions i (set_outstanding_state kOutstandingEarlyReady (set_early_completion (failure_of s status) s)) [] 0 (sb_stats m) m
        | kOutstandingSubmitted =>
            update_submissions i (set_outstanding_state kOutstandingFree s)
              [se_completed status (os_phase_index s) (os_submission_id s); se_graph_completed (os_phase_index s) status] (-1)
              (record_failure status (sb_stats m)) m
        | _ => m
        end
      else m
  end.

Definition fail_backend_outstanding (b : nat) (status : Status) (m : Submissions) : Submissions :=
  foldl (fail_outstanding b status) m (seq 0 (length (sb_slots m))).

(** The backend answered call [k] of [submit], or threw. *)
Definition submit_return (k : nat) (answer : option HalV2Status) (m : Submissions) : Submissions :=
  match sb_calls m !! k with
  | None => m
  | Some i =>
      let m := set_calls (delete k (sb_calls m)) m in
      match sb_slots m !! i with
      | None => m
      | Some s =>
          let status := hal_v2_status_to_runtime (caught answer) in
          if decide (status = ok) then
            let accepted := [se_submitted (os_phase_index s) (os_submission_id s)] in
            match os_state s with
            | kOutstandingSubmitting =>
                update_submissions i (set_outstanding_state kOutstandingSubmitted s) accepted 1 (count_submission (sb_stats m)) m
            | kOutstandingEarlyReady =>
                let m := update_submissions i (set_outstanding_state kOutstandingOwned s) accepted 1 (count_submission (sb_stats m)) m in
                finalize_completion i (set_outstanding_state kOutstandingOwned s) (os_early_completion s) m
            | _ => fail_backend_outstanding (os_backend_index s) device_error
                     (update_submissions i s accepted 1 (count_submission (sb_stats m)) m)
            end
          else
            update_submissions i (set_outstanding_state kOutstandingFree s) [] 0
              (if decide (status = device_queue_full) then count_rejection (sb_stats m) else record_failure status (sb_stats m)) m
      end
  end.

(** [process_completion] of a completion the service thread has taken. *)
Definition outstanding_match (b : nat) (id : Z) (m : Submissions) : option nat :=
  snd <$> list_find (fun i =>
    from_option (fun s => match os_state s with kOutstandingSubmitting | kOutstandingSubmitted => true | _ => false end &&
                          (os_submission_id s =? id) && Nat.eqb (os_backend_index s) b) false (sb_slots m !! i) = true)
    (seq 0 (length (sb_slots m))).

Definition count_failure (s : DeviceManagerStats) : DeviceManagerStats :=
  mkManagerStats (st_submissions s) (st_completions s) (st_failures s +u 1) (st_queue_rejections s) (st_timeouts s) (st_losses s)
    (st_service_polls s).

Definition process_completion (b : nat) (c : HalCompletion) (m : Submissions) : Submissions :=
  if negb (validate_hal_v2_completion c) then fail_backend_outstanding b device_error m
  else
    match outstanding_match b (hp_submission_id c) m ≫= fun i => s ← sb_slots m !! i; Some (i, s) with
    | None =>
        mkSubmissions (sb_slots m) (sb_hint m) (sb_next_id m) (sb_count m) (count_failure (sb_stats m)) (sb_log m) (sb_calls m) (sb_tells m)
    | Some (i, s) =>
        match os_state s with
        | kOutstandingSubmitting =>
            update_submissions i (set_outstanding_state kOutstandingEarlyReady (set_early_completion c s)) [] 0 (sb_stats m) m
        | kOutstandingSubmitted => finalize_completion i s c m
        | _ => m
        end
    end.

Inductive SubmissionStep : Set :=
| ss_submit (backend : nat) (phase_index frame_index : Z) (requested : HalSubmission)
| ss_return (call : nat) (answer : option HalV2Status)
| ss_process (backend : nat) (completion : HalCompletion)
| ss_fail (backend : nat) (status : Status)
| ss_tell (k : nat).

Definition submission_step (cfg : DeviceConfig) (natives : list NativeMemoryState) (m : Submissions) (l : SubmissionStep) : Submissions :=
  match l with
  | ss_submit b phase_index frame_index requested => submit_begin cfg natives b phase_index frame_index requested m
  | ss_return k answer => submit_return k answer m
  | ss_process b c => process_completion b c m
  | ss_fail b status => fail_backend_outstanding b status m
  | ss_tell k => tell_graph k m
  end.

Definition create_submissions (cfg : DeviceConfig) : Submissions :=
  mkSubmissions (replicate (df_outstanding_capacity cfg) (mkOutstanding kOutstandingFree 0 0 0 0 hal_completion_default)) 0 1 0
    (mkManagerStats 0 0 0 0 0 0 0) [] [] [].

Definition run_submissions (cfg : DeviceConfig) (natives : list NativeMemoryState) (steps : list SubmissionStep) : Submissions :=
  foldl (submission_step cfg natives) (create_submissions cfg) steps.
