(* ===== verification/DeviceLaneTheorems.v ===== *)
(** * The device manager: what holds of the batch slots under every interleaving

    The invariant of the slots, the timelines and the log of DeviceLanes.v, kept by every step of every
    thread whatever the backends answer, and what it says of completion, of the timelines, of
    quarantined slots and of the batches a lane submits. *)

From stdpp Require Import base list numbers sets strings.
From Stdlib Require Import ZArith Lia Bool.
From S2P Require Import Prelude Handles CanonicalBytes SnapshotCodec DeviceCommands ListSums HalV2 HeterogeneousMemory DeviceManager DeviceAdmission DeviceLanes.

Local Open Scope Z_scope.
Local Open Scope rtfw_scope.

(** ** Accounts *)

(** The slot is in use; its batch has not been reported complete. *)
Definition live (s : BatchState) : bool :=
  match s with kBatchFree | kBatchReserved => false | _ => true end.
Definition unsettled (s : BatchState) : bool :=
  match s with
  | kBatchQueued | kBatchSubmitting | kBatchSubmitted | kBatchEarlyReady | kBatchCompletionReady => true
  | _ => false
  end.

(** The graph still waits for the slot. *)
Definition owes_graph (s : BatchSlot) : bool := live (bs_state s) && negb (bs_rate_owned s) && negb (bs_graph_released s).

Definition live_weight (s : BatchSlot) : Z := ind (live (bs_state s)).
Definition id_weight (k : Z) (s : BatchSlot) : Z := ind (unsettled (bs_state s) && (bs_batch_id s =? k)).
Definition graph_weight (p : Z) (s : BatchSlot) : Z := ind (owes_graph s && (bs_phase_index s =? p)).

Definition published_id (e : LaneEvent) : option Z := match e with ev_published id _ _ => Some id | _ => None end.
Definition completed_id (e : LaneEvent) : option Z := match e with ev_completed _ _ _ _ id => Some id | _ => None end.
Definition published_phase (e : LaneEvent) : option Z := match e with ev_published _ p false => Some p | _ => None end.
Definition graph_phase (e : LaneEvent) : option Z := match e with ev_graph_completed p _ => Some p | _ => None end.

(** How often a log names [k]. *)
Definition tally {E} (f : E -> option Z) (k : Z) (log : list E) : Z :=
  zsum (fun e => from_option (fun v => ind (v =? k)) 0 (f e)) log.

Lemma tally_app {E} (f : E -> option Z) k l l' : tally f k (l ++ l') = tally f k l + tally f k l'.
Proof. apply zsum_app. Qed.

Lemma tally_omap {E} (f : E -> option Z) k log : zsum (fun x => if decide (x = k) then 1 else 0) (omap f log) = tally f k log.
Proof.
  induction log as [|e log IH]; [done|]. change (omap f (e :: log)) with (match f e with Some v => v :: omap f log | None => omap f log end).
  unfold tally in *. cbn [zsum foldr]. destruct (f e) as [v|]; cbn [from_option zsum foldr]; [|done].
  f_equal; [|done]. unfold ind. destruct (Z.eqb_spec v k); case_decide; done.
Qed.

Lemma weight_filter {S} (test : S -> bool) (f : S -> Z) k slots :
  zsum (fun x => if decide (x = k) then 1 else 0) (f <$> filter (fun s => test s = true) slots) =
  zsum (fun s => ind (test s && (f s =? k))) slots.
Proof.
  induction slots as [|s slots IH]; [done|]. rewrite filter_cons. cbn [zsum foldr]. fold (zsum (fun s => ind (test s && (f s =? k))) slots).
  destruct (test s); cbn [andb]; [|by rewrite decide_False, IH]. rewrite decide_True by done. rewrite fmap_cons. cbn [zsum foldr].
  rewrite <- IH. unfold ind. destruct (Z.eqb_spec (f s) k); case_decide; done.
Qed.

Lemma balance_lists {E S} (f g : E -> option Z) (test : S -> bool) (key : S -> Z) log slots :
  (forall k, tally f k log = tally g k log + zsum (fun s => ind (test s && (key s =? k))) slots) ->
  omap f log ≡ₚ omap g log ++ (key <$> filter (fun s => test s = true) slots).
Proof. intros H. apply zsum_permutation. intros k. rewrite zsum_app, weight_filter, !tally_omap. apply H. Qed.

(** ** Timelines *)

Definition advanced (t t' : TimelineState) : Prop :=
  tl_backend_index t' = tl_backend_index t /\ tl_initial_value t' = tl_initial_value t /\
  tl_last_accepted t <= tl_last_accepted t' /\ tl_completed t <= tl_completed t'.

Definition timeline_ok (t : TimelineState) : Prop := tl_initial_value t <= tl_completed t <= tl_last_accepted t.

#[export] Instance advanced_preorder : PreOrder advanced.
Proof.
  split; [by repeat split|]. intros a b c (H1 & H2 & H3 & H4) (G1 & G2 & G3 & G4). split_and!; [congruence|congruence|lia|lia].
Qed.

#[export] Instance advance_preorder : PreOrder (Forall2 advanced).
Proof. split; apply _. Qed.

Definition timeline_of (p : HalV2TimelinePoint) : nat := Z.to_nat (DeviceTimelineHandle_index (tp_timeline_handle p)).

Section Invariant.
Context (cfg : DeviceConfig) (natives : list NativeMemoryState).

(** The signal names a timeline that has accepted its value. *)
Definition signal_ok (ts : list TimelineState) (p : HalV2TimelinePoint) : Prop :=
  exists t, ts !! timeline_of p = Some t /\ tp_value p <= tl_last_accepted t.

Definition slot_ok (ts : list TimelineState) (s : BatchSlot) : Prop :=
  (unsettled (bs_state s) = true ->
     (bw_simulation_timing (bs_work s) = true -> bs_rate_owned s = true) /\ Forall (signal_ok ts) (active_signals (bs_batch s))) /\
  (live (bs_state s) = true -> unsettled (bs_state s) = false -> bs_rate_owned s = true).

Record Inv (d : DeviceLanes) : Prop := mkInv {
  inv_slots : Forall (slot_ok (dl_timelines d)) (dl_slots d);
  inv_timelines : Forall timeline_ok (dl_timelines d);
  inv_count : dl_outstanding_count d = u64 (zsum live_weight (dl_slots d));
  inv_ids : forall k, tally published_id k (dl_log d) = tally completed_id k (dl_log d) + zsum (id_weight k) (dl_slots d);
  inv_phases : forall p, tally published_phase p (dl_log d) = tally graph_phase p (dl_log d) + zsum (graph_weight p) (dl_slots d);
}.

(** States other threads never change: reserved for a provider, or left to the backend. *)
Definition held (s : BatchSlot) : Prop := bs_state s = kBatchReserved \/ bs_state s = kBatchRateQuarantined.

Definition keeps (d d' : DeviceLanes) : Prop :=
  forall i s, dl_slots d !! i = Some s -> held s -> dl_slots d' !! i = Some s.

(** The step from [d] to [d'] keeps the invariant, the timelines go forward and no held slot changes. *)
Definition good (d d' : DeviceLanes) : Prop :=
  Inv d -> Inv d' /\ Forall2 advanced (dl_timelines d) (dl_timelines d') /\ keeps d d'.

#[export] Instance good_preorder : PreOrder good.
Proof.
  split.
  - intros d H. split_and!; [done|reflexivity|by intros i s].
  - intros a b c Hab Hbc Ha. destruct (Hab Ha) as (Hb & H1 & H2). destruct (Hbc Hb) as (Hc & H3 & H4).
    split_and!; [done|by etrans|]. intros i s Hs Hh. apply H4; [|done]. by apply H2.
Qed.

Lemma signal_ok_advance ts ts' p : Forall2 advanced ts ts' -> signal_ok ts p -> signal_ok ts' p.
Proof.
  intros H (t & Ht & Hv). destruct (Forall2_lookup_l _ _ _ _ _ H Ht) as (t' & Ht' & (_ & _ & Hl & _)). exists t'. split; [done|lia].
Qed.

Lemma slot_ok_advance ts ts' s : Forall2 advanced ts ts' -> slot_ok ts s -> slot_ok ts' s.
Proof.
  intros H [H1 H2]. split; [|done]. intros Hu. destruct (H1 Hu) as [H3 H4]. split; [done|]. eapply Forall_impl; [exact H4|].
  intros p. by apply signal_ok_advance.
Qed.

(** *** One slot changes *)

Record balanced (s s' : BatchSlot) (events : list LaneEvent) (delta : Z) : Prop := mkBalanced {
  bal_live : delta = live_weight s' - live_weight s;
  bal_ids : forall k, tally published_id k events = tally completed_id k events + id_weight k s' - id_weight k s;
  bal_phases : forall p, tally published_phase p events = tally graph_phase p events + graph_weight p s' - graph_weight p s;
}.

(** [d'] is [d] with slot [i] replaced, the events logged and the count moved. *)
Record change (i : nat) (s s' : BatchSlot) (events : list LaneEvent) (delta : Z) (d d' : DeviceLanes) : Prop := mkChange {
  chg_slot : dl_slots d !! i = Some s;
  chg_slots : dl_slots d' = <[i := s']> (dl_slots d);
  chg_log : dl_log d' = dl_log d ++ events;
  chg_count : forall n, dl_outstanding_count d = u64 n -> dl_outstanding_count d' = u64 (n + delta);
}.

Lemma change_inv i s s' events delta d d' :
  change i s s' events delta d d' -> Forall2 advanced (dl_timelines d) (dl_timelines d') -> Forall timeline_ok (dl_timelines d') ->
  balanced s s' events delta -> slot_ok (dl_timelines d') s' -> Inv d -> Inv d'.
Proof.
  intros [C1 C2 C3 C4] Ha Ht [B1 B2 B3] Hok [I1 I2 I3 I4 I5]. split.
  - rewrite C2. apply Forall_insert; [|done]. eapply Forall_impl; [exact I1|]. intros x. by apply slot_ok_advance.
  - done.
  - rewrite (C4 _ I3), C2, (zsum_insert _ _ _ _ _ C1). f_equal. lia.
  - intros k. rewrite C2, C3, !tally_app, I4, B2, (zsum_insert _ _ _ _ _ C1). lia.
  - intros p. rewrite C2, C3, !tally_app, I5, B3, (zsum_insert _ _ _ _ _ C1). lia.
Qed.

Lemma change_good i s s' events delta d d' :
  change i s s' events delta d d' -> dl_timelines d' = dl_timelines d -> ~ held s ->
  (slot_ok (dl_timelines d) s -> balanced s s' events delta /\ slot_ok (dl_timelines d) s') -> good d d'.
Proof.
  intros Hc Ht Hh Hb Hi. assert (Hs := chg_slot _ _ _ _ _ _ _ Hc).
  destruct Hb as [Hb Hok]; [by eapply (Forall_lookup_1 _ _ i s (inv_slots _ Hi))|].
  split_and!.
  - eapply change_inv; [exact Hc|by rewrite Ht|rewrite Ht; apply Hi|done|by rewrite Ht|done].
  - by rewrite Ht.
  - intros j s0 Hj Hh0. rewrite (chg_slots _ _ _ _ _ _ _ Hc). rewrite list_lookup_insert_ne; [done|]. intros <-. congruence.
Qed.

(** Nothing but counters and failure words changes. *)
Lemma quiet_good d d' :
  dl_slots d' = dl_slots d -> dl_timelines d' = dl_timelines d -> dl_outstanding_count d' = dl_outstanding_count d ->
  (forall f k, f = published_id \/ f = completed_id \/ f = published_phase \/ f = graph_phase -> tally f k (dl_log d') = tally f k (dl_log d)) ->
  good d d'.
Proof.
  intros H1 H2 H3 H4 [I1 I2 I3 I4 I5]. split_and!; [|by rewrite H2|intros i s; by rewrite H1].
  split; rewrite ?H1, ?H2, ?H3; try done; intros k; rewrite !H4 by tauto; auto.
Qed.

(** ** The operations on a slot *)

Lemma publish_signals_ok ts signals :
  Forall (signal_ok ts) signals -> Forall timeline_ok ts ->
  Forall2 advanced ts (publish_signals signals ts) /\ Forall timeline_ok (publish_signals signals ts).
Proof.
  unfold publish_signals. revert ts. induction signals as [|p signals IH]; intros ts Hs Ht; simpl; [done|].
  apply Forall_cons in Hs as [(t & Hp & Hv) Hs].
  assert (Ha : Forall2 advanced ts (alter (raise_completed (tp_value p)) (timeline_of p) ts)).
  { apply Forall2_alter_r; [reflexivity|]. intros x y Hx Hy _. assert (x = y) as -> by congruence.
    unfold raise_completed. repeat split; simpl; [lia|]. destruct (Z.ltb_spec (tl_completed y) (tp_value p)); lia. }
  destruct (IH (alter (raise_completed (tp_value p)) (timeline_of p) ts)) as [H1 H2].
  - eapply Forall_impl; [exact Hs|]. intros q. by apply signal_ok_advance.
  - apply Forall_alter; [done|]. intros x Hx Hok. assert (x = t) as -> by congruence.
    unfold timeline_ok, raise_completed in *. simpl. destruct (Z.ltb_spec (tl_completed t) (tp_value p)); lia.
  - split; [|done]. by etrans.
Qed.

Lemma timelines_good i s d :
  dl_slots d !! i = Some s -> unsettled (bs_state s) = true ->
  good d (set_timelines (publish_signals (active_signals (bs_batch s)) (dl_timelines d)) d).
Proof.
  intros Hs Hu [I1 I2 I3 I4 I5]. destruct (Forall_lookup_1 _ _ _ _ I1 Hs) as [[_ Hok] _]; [done|].
  destruct (publish_signals_ok _ _ Hok I2) as [Ha Ht]. split_and!; [|done|by intros j].
  split; simpl; try done. eapply Forall_impl; [exact I1|]. intros x. by apply slot_ok_advance.
Qed.

Lemma unsettled_not_held s : unsettled (bs_state s) = true -> ~ held s.
Proof. intros Hu [H|H]; by rewrite H in Hu. Qed.

(** The weights of a slot that leaves the unsettled states. *)
Lemma settled_balanced s s' status events delta :
  unsettled (bs_state s) = true -> unsettled (bs_state s') = false -> delta = live_weight s' - live_weight s ->
  (forall p, tally graph_phase p events = graph_weight p s - graph_weight p s') ->
  (forall k, tally published_id k events = 0 /\ tally published_phase k events = 0 /\ tally completed_id k events = 0) ->
  balanced s s' (completed_event s status :: events) delta.
Proof.
  intros H1 H2 H3 H4 H5. split; [done| |].
  - intros k. destruct (H5 k) as (E1 & E2 & E3). unfold id_weight. rewrite H1, H2. simpl. unfold tally in *. simpl. rewrite E1, E3. lia.
  - intros p. destruct (H5 p) as (E1 & E2 & E3). specialize (H4 p). unfold tally in *. simpl. lia.
Qed.

Lemma u64_add n m : u64 (u64 n + m) = u64 (n + m).
Proof. unfold u64. by rewrite Zplus_mod_idemp_l. Qed.

Lemma u64_sub n m : u64 (u64 n - m) = u64 (n + - m).
Proof. unfold u64. by rewrite Zminus_mod_idemp_l. Qed.

Lemma retire_good i s status d :
  dl_slots d !! i = Some s -> unsettled (bs_state s) = true -> bs_rate_owned s = false ->
  good d (retire_batch_slot i s status (account_completion s status d)).
Proof.
  intros Hs Hu Hr.
  eapply (change_good i s (set_state kBatchFree (set_graph_released true s))
    (completed_event s status :: if bs_graph_released s then [] else [ev_graph_completed (bs_phase_index s) status]) (-1)).
  - unfold retire_batch_slot, account_completion. destruct (bs_graph_released s); split; simpl; try done; try (by rewrite <- app_assoc);
      intros n ->; apply u64_sub.
  - unfold retire_batch_slot. by destruct (bs_graph_released s).
  - by apply unsettled_not_held.
  - intros [H1 H2]. split; [|split; [done|done]]. apply settled_balanced; [done|done| | |].
    + unfold live_weight. destruct (bs_state s); done.
    + intros p. unfold graph_weight, owes_graph. rewrite Hr. destruct (bs_graph_released s); simpl; [by rewrite andb_false_r|].
      destruct (bs_state s); unfold tally; simpl; try done; lia.
    + intros k. destruct (bs_graph_released s); by unfold tally.
Qed.

(** A rate slot keeps its place in the count. *)
Lemma rate_good i s s' status d :
  dl_slots d !! i = Some s -> unsettled (bs_state s) = true -> bs_rate_owned s = true ->
  live (bs_state s') = true -> unsettled (bs_state s') = false -> bs_rate_owned s' = true ->
  good d (put_slot i s' (account_completion s status d)).
Proof.
  intros Hs Hu Hr Hl Hu' Hr'.
  eapply (change_good i s s' [completed_event s status] 0).
  - split; simpl; try done. intros n ->. by rewrite Z.add_0_r.
  - done.
  - by apply unsettled_not_held.
  - intros _. split; [|split; [congruence|done]]. apply settled_balanced; [done|done| | |].
    + unfold live_weight. rewrite Hl. by destruct (bs_state s).
    + intros p. unfold graph_weight, owes_graph. rewrite Hr, Hr', !andb_false_r. done.
    + intros k. by unfold tally.
Qed.

Lemma terminate_slot i s status completion d : exists s',
  terminate_rate_slot i s status completion d = put_slot i s' d /\ live (bs_state s') = true /\
  unsettled (bs_state s') = false /\ bs_rate_owned s' = bs_rate_owned s.
Proof.
  unfold terminate_rate_slot. eexists. split; [reflexivity|]. destruct completion as [c|]; [|done].
  by destruct (bool_decide (status = ok) || _).
Qed.

Lemma finish_good clocks i s status publish completion d :
  dl_slots d !! i = Some s -> unsettled (bs_state s) = true ->
  good d (finish_batch_slot cfg clocks i s status publish completion d).
Proof.
  intros Hs Hu. unfold finish_batch_slot. destruct (settle cfg clocks (dl_timelines d) (bs_work s) status publish) as [status' publish'].
  etrans; [|].
  { instantiate (1 := if publish' then set_timelines (publish_signals (active_signals (bs_batch s)) (dl_timelines d)) d else d).
    destruct publish'; [by apply (timelines_good i)|reflexivity]. }
  set (d0 := if publish' then _ else _). assert (Hs0 : dl_slots d0 !! i = Some s) by (by destruct publish').
  clearbody d0. destruct (bs_rate_owned s) eqn:Hr.
  - destruct (terminate_slot i s status' completion (account_completion s status' d0)) as (s' & -> & H1 & H2 & H3).
    apply rate_good; try done. congruence.
  - by apply retire_good.
Qed.

Lemma quarantine_good i s status d :
  dl_slots d !! i = Some s -> unsettled (bs_state s) = true -> bs_rate_owned s = true -> good d (finish_rate_quarantine i s status d).
Proof. intros Hs Hu Hr. by apply rate_good. Qed.

(** The slot moves between unsettled states, or changes flags the accounts do not read. *)
Lemma shift_good i s s' events d :
  dl_slots d !! i = Some s -> ~ held s -> live (bs_state s') = live (bs_state s) ->
  unsettled (bs_state s') = unsettled (bs_state s) -> bs_rate_owned s' = bs_rate_owned s ->
  bs_graph_released s' = bs_graph_released s -> bs_work s' = bs_work s ->
  (forall k, tally published_id k events = 0 /\ tally published_phase k events = 0 /\ tally completed_id k events = 0 /\ tally graph_phase k events = 0) ->
  good d (emit events (put_slot i s' d)).
Proof.
  intros Hs Hh H1 H2 H3 H4 H5 H6. eapply (change_good i s s' events 0); [|done|done|].
  - split; simpl; try done. intros n ->. by rewrite Z.add_0_r.
  - intros [Hok1 Hok2]. split.
    + split.
      * unfold live_weight. rewrite H1. lia.
      * intros k. unfold id_weight, bs_batch_id, bs_batch. rewrite H2, H5. destruct (H6 k) as (-> & _ & -> & _). lia.
      * intros p. unfold graph_weight, owes_graph, bs_phase_index. rewrite H1, H3, H4, H5. destruct (H6 p) as (_ & -> & _ & ->). lia.
    + unfold slot_ok, bs_batch. rewrite H1, H2, H3, H5. by split.
Qed.

Lemma put_good i s s' d :
  dl_slots d !! i = Some s -> ~ held s -> live (bs_state s') = live (bs_state s) ->
  unsettled (bs_state s') = unsettled (bs_state s) -> bs_rate_owned s' = bs_rate_owned s ->
  bs_graph_released s' = bs_graph_released s -> bs_work s' = bs_work s -> good d (put_slot i s' d).
Proof.
  intros. etrans; [|].
  - eapply (shift_good i s s' []); try done.
  - apply quiet_good; try done. intros f k _. simpl. by rewrite app_nil_r.
Qed.

(** ** The operations of the threads *)

(** The state of the slot, read off a case analysis. *)
Ltac settled_state := first [done | match goal with H : bs_state _ = _ |- _ => rewrite H end; done].

Ltac slot_case d i s Hs Hst :=
  destruct (dl_slots d !! i) as [s|] eqn:Hs; [|reflexivity]; destruct (bs_state s) eqn:Hst; try reflexivity.

Ltac put_case := eapply put_good; try done; try settled_state; apply unsettled_not_held; settled_state.
Ltac finish_case := apply finish_good; [done|settled_state].

Lemma fail_slot_good clocks b status i d delivered : good d (fst (fail_slot cfg clocks b status (d, delivered) i)).
Proof. unfold fail_slot. slot_case d i s Hs Hst; cbn [fst]; [finish_case|put_case|finish_case|]. unfold finish_early. finish_case. Qed.

Lemma fail_good clocks b status d : good d (fst (fail_backend_batches cfg clocks b status d)).
Proof.
  unfold fail_backend_batches. destruct (has_commands cfg b); [|reflexivity]. generalize false as delivered.
  revert d. induction (lane_slots cfg b) as [|i slots IH]; intros d delivered; [reflexivity|]. cbn [foldl].
  assert (H := fail_slot_good clocks b status i d delivered). destruct (fail_slot cfg clocks b status (d, delivered) i) as [d1 delivered1].
  etrans; [exact H|]. apply IH.
Qed.

Lemma cancel_queued_good clocks i d : good d (cancel_queued cfg clocks i d).
Proof. unfold cancel_queued. destruct (dl_slots d !! i) as [s|] eqn:Hs; [|reflexivity]. case_decide as Hst; [finish_case|reflexivity]. Qed.

Lemma native_submit_good i s b d :
  dl_slots d !! i = Some s -> bs_state s = kBatchQueued ->
  good d (emit [ev_native_submit b (bs_batch s)] (put_slot i (set_state kBatchSubmitting s) d)).
Proof. intros Hs Hst. apply (shift_good i s); try done; try settled_state. apply unsettled_not_held. settled_state. Qed.

Lemma lane_claim_good clocks b i ready d : good d (fst (lane_claim cfg clocks b i ready d)).
Proof.
  unfold lane_claim. destruct (dl_slots d !! i) as [s|] eqn:Hs; [|reflexivity]. destruct ready.
  - case_decide as Hst; [by apply native_submit_good|reflexivity].
  - destruct (_ <=? _); [|reflexivity]. case_bool_decide as Hst; [|reflexivity]. simpl. finish_case.
Qed.

Lemma lane_return_good clocks i answer d : good d (lane_return cfg clocks i answer d).
Proof.
  unfold lane_return. destruct (dl_slots d !! i) as [s|] eqn:Hs; [|reflexivity].
  case_decide; destruct (bs_state s) eqn:Hst; try reflexivity; first [finish_case|put_case].
Qed.

Lemma sweep_good clocks i d : good d (sweep_slot cfg clocks i d).
Proof.
  unfold sweep_slot. destruct (dl_slots d !! i) as [s|] eqn:Hs; [|reflexivity]. case_decide as Hst; [|reflexivity]. unfold finish_early. finish_case.
Qed.

Lemma process_good clocks b c d : good d (process_batch_completion cfg clocks b c d).
Proof.
  unfold process_batch_completion. destruct (matching_slot cfg b (bc_batch_id c) (dl_slots d)) as [i|]; [|reflexivity].
  slot_case d i s Hs Hst; [put_case|finish_case].
Qed.

Lemma poll_failure_good b v d : good d (set_poll_failure b v d).
Proof. by apply quiet_good. Qed.

Lemma stats_good v d : good d (set_stats v d).
Proof. by apply quiet_good. Qed.

Lemma deliver_good clocks b failure d : good d (fst (deliver_failure cfg clocks b failure d)).
Proof.
  unfold deliver_failure. assert (H := fail_good clocks b failure d). destruct (fail_backend_batches _ _ _ _ _) as [d1 []]; simpl in *; [|done].
  etrans; [exact H|apply poll_failure_good].
Qed.

Lemma pending_good clocks b d : good d (fst (if decide (poll_failure b d = ok) then (d, false) else deliver_failure cfg clocks b (poll_failure b d) d)).
Proof. case_decide; [reflexivity|apply deliver_good]. Qed.

Lemma poll_good clocks b answer count buffer d : good d (fst (poll_batch_completions cfg clocks b answer count buffer d)).
Proof.
  unfold poll_batch_completions. destruct (has_commands cfg b); [|reflexivity]. cbn [negb].
  assert (H := pending_good clocks b d). destruct (if decide _ then _ else _) as [d1 settled1]. simpl in H.
  etrans; [exact H|]. destruct settled1; [reflexivity|]. etrans; [apply (stats_good (count_poll (dl_stats d1)))|].
  set (d2 := set_stats _ d1). clearbody d2. destruct (negb _ || _).
  { simpl. etrans; [apply poll_failure_good|]. apply deliver_good. }
  assert (H2 := pending_good clocks b d2). destruct (if decide _ then _ else _) as [d3 settled3]. simpl in H2.
  etrans; [exact H2|]. destruct settled3; [reflexivity|]. destruct (completions_valid _ _ _ _ _); [reflexivity|]. apply fail_good.
Qed.

Lemma cancellation_good b i s d :
  dl_slots d !! i = Some s -> ~ held s ->
  good d (fst (request_cancellation b i s d)) /\
  dl_slots (fst (request_cancellation b i s d)) !! i = Some (snd (request_cancellation b i s d)) /\
  bs_state (snd (request_cancellation b i s d)) = bs_state s /\
  bs_rate_owned (snd (request_cancellation b i s d)) = bs_rate_owned s.
Proof.
  intros Hs Hh. unfold request_cancellation. destruct (bs_cancellation_requested s); [split_and!; [reflexivity|done..]|]. simpl. split_and!; [|apply list_lookup_insert_eq; by eapply lookup_lt_Some|done|done].
  by apply (shift_good i s).
Qed.

Lemma expire_good clocks b i d : good d (expire_slot cfg clocks b i d).
Proof.
  unfold expire_slot. destruct (dl_slots d !! i) as [s|] eqn:Hs; [|reflexivity].
  destruct (expirable s) eqn:He; [|reflexivity]. destruct (_ <=? _); [|reflexivity]. cbn [andb].
  assert (Hu : unsettled (bs_state s) = true) by (unfold expirable in He; by destruct (bs_state s)).
  case_decide as Hst.
  - intros Hi. refine (quarantine_good i s device_timeout d Hs Hu _ Hi).
    destruct (Forall_lookup_1 _ _ _ _ (inv_slots _ Hi) Hs) as [[Hsim _] _]; [done|]. apply Hsim. unfold expirable in He. by rewrite Hst in He.
  - destruct (cancellation_good b i s d Hs (unsettled_not_held s Hu)) as (Hg & Hs1 & Hst1 & Hr1).
    destruct (request_cancellation b i s d) as [d1 s1]. simpl in *. etrans; [exact Hg|].
    destruct (bs_rate_owned s1) eqn:Hr; [apply quarantine_good|apply finish_good]; congruence.
Qed.

Lemma wait_good t d r : wait_rate_batch t d = Some r -> good d (fst (fst r)).
Proof.
  unfold wait_rate_batch. destruct (_ ≫= _) as [[i s]|] eqn:Hb; [|by intros [= <-]].
  apply bind_Some in Hb as (i' & _ & Hb). apply bind_Some in Hb as (s' & Hs & [= <- <-]).
  destruct (negb _); [by intros [= <-]|]. destruct (bs_state s') eqn:Hst; intros [= <-]; try reflexivity. simpl.
  eapply put_good; try done; try settled_state. by intros [H|H]; rewrite Hst in H.
Qed.

Lemma release_good t d : good d (fst (release_rate_batch t d)).
Proof.
  unfold release_rate_batch. destruct (_ ≫= _) as [[i s]|] eqn:Hb; [|reflexivity].
  apply bind_Some in Hb as (i' & _ & Hb). apply bind_Some in Hb as (s' & Hs & [= <- <-]).
  case_decide as Hst; [|reflexivity]. destruct (ticket_releases t s') eqn:Ht; [|reflexivity]. simpl.
  assert (Hr : bs_rate_owned s' = true) by (unfold ticket_releases in Ht; by destruct (bs_rate_owned s')).
  eapply (change_good i' s' _ [] (-1)).
  - split; simpl; try done; [by rewrite app_nil_r|]. intros n ->. apply u64_sub.
  - done.
  - by intros [H|H]; rewrite Hst in H.
  - intros _. split; [|by split]. split; unfold live_weight, id_weight, graph_weight, owes_graph, tally; rewrite ?Hst, ?Hr; simpl; intros; lia.
Qed.

Lemma release_graph_good i s d :
  dl_slots d !! i = Some s -> live (bs_state s) = true -> good d (release_graph i s d).
Proof.
  intros Hs Hl. unfold release_graph. destruct (bs_rate_owned s) eqn:Hr; [reflexivity|]. destruct (bs_graph_released s) eqn:Hg; [reflexivity|].
  cbn [orb]. intros Hi. assert (Hok := Forall_lookup_1 _ _ _ _ (inv_slots _ Hi) Hs).
  assert (Hu : unsettled (bs_state s) = true).
  { destruct (unsettled (bs_state s)) eqn:Hu; [done|]. destruct Hok as [_ Hok]. specialize (Hok Hl Hu). congruence. }
  revert Hi. eapply (change_good i s (set_graph_released true s) [ev_graph_completed (bs_phase_index s) device_canceled] 0).
  - split; simpl; try done. intros n ->. by rewrite Z.add_0_r.
  - done.
  - by apply unsettled_not_held.
  - intros _. split; [|done]. split.
    + unfold live_weight. simpl. lia.
    + intros k. unfold tally. simpl. change (id_weight k (set_graph_released true s)) with (id_weight k s). lia.
    + intros p. unfold graph_weight, owes_graph, tally. simpl. rewrite Hl, Hr, Hg. simpl. unfold bs_phase_index. simpl. lia.
Qed.

Lemma stop_batch_slot_good clocks b i d : good d (stop_batch_slot cfg clocks b d i).
Proof.
  unfold stop_batch_slot. destruct (dl_slots d !! i) as [s|] eqn:Hs; [|reflexivity].
  assert (Hc : forall state, bs_state s = state -> live state = true -> good d
    (let '(d, s) := if cancelable state then request_cancellation b i s d else (d, s) in release_graph i s d)).
  { intros state <- Hl. destruct (cancelable (bs_state s)) eqn:Hca; [|by apply release_graph_good].
    assert (Hh : ~ held s) by (intros [H|H]; rewrite H in *; done).
    destruct (cancellation_good b i s d Hs Hh) as (Hg & Hs1 & Hst1 & _). destruct (request_cancellation b i s d) as [d1 s1]. simpl in *.
    etrans; [exact Hg|]. apply release_graph_good; [done|congruence]. }
  destruct (bs_state s) eqn:Hst; try reflexivity; try (by apply Hc). finish_case.
Qed.

Lemma stop_good clocks b d : good d (stop_backend cfg clocks b d).
Proof.
  unfold stop_backend. destruct (has_commands cfg b); [|reflexivity].
  assert (H : good d (emit [ev_native_request_stop b] d)).
  { apply quiet_good; try done. intros f k Hf. simpl. rewrite tally_app. destruct Hf as [->|[->|[->| ->]]]; unfold tally; simpl; lia. }
  etrans; [exact H|]. generalize (emit [ev_native_request_stop b] d). clear H d.
  induction (lane_slots cfg b) as [|i slots IH]; intros d; [reflexivity|]. cbn [foldl]. etrans; [apply stop_batch_slot_good|apply IH].
Qed.

(** ** Publication *)

Definition handles_typed (rq : BatchRequest) : Prop :=
  Forall (fun p => is_u64 (tp_timeline_handle p)) (bt_signals (rq_requested rq)).

Lemma handle_split v : is_u64 v -> v = device_owner v * 4294967296 + DeviceTimelineHandle_index v.
Proof.
  intros Hv. unfold device_owner, DeviceTimelineHandle_index, u32. rewrite Z.shiftr_div_pow2 by done. change (2 ^ 32) with 4294967296.
  unfold is_u64, u64_max in Hv. rewrite (Z.mod_small (v / 4294967296)); [|split; [apply Z.div_pos; lia|apply Z.div_lt_upper_bound; lia]].
  rewrite Z.mul_comm. apply Z.div_mod. done.
Qed.

Lemma index_nonneg v : 0 <= DeviceTimelineHandle_index v.
Proof. unfold DeviceTimelineHandle_index, u32. apply Z.mod_pos_bound. done. Qed.

Lemma accept_signals_ok ts signals :
  Forall (fun p => exists t, ts !! timeline_of p = Some t /\ tp_value p > tl_last_accepted t) signals ->
  NoDup (timeline_of <$> signals) -> Forall timeline_ok ts ->
  Forall2 advanced ts (accept_signals signals ts) /\ Forall timeline_ok (accept_signals signals ts) /\
  Forall (signal_ok (accept_signals signals ts)) signals.
Proof.
  unfold accept_signals. revert ts. induction signals as [|p signals IH]; intros ts Hs Hn Ht; simpl; [done|].
  apply Forall_cons in Hs as [(t & Hp & Hv) Hs]. apply list.NoDup_cons in Hn as [Hnin Hn].
  set (ts1 := alter (accept_value (tp_value p)) (timeline_of p) ts).
  assert (Hp1 : ts1 !! timeline_of p = Some (accept_value (tp_value p) t)) by (unfold ts1; by rewrite list_lookup_alter, decide_True, Hp by done).
  destruct (IH ts1) as (H1 & H2 & H3).
  - apply list.Forall_forall. intros q Hq. destruct (proj1 (list.Forall_forall _ _) Hs q Hq) as (t' & Ht' & Hv'). exists t'. split; [|done].
    unfold ts1. rewrite list_lookup_alter_ne; [done|]. intros He. apply Hnin. rewrite He. by apply list_elem_of_fmap_2.
  - done.
  - apply Forall_alter; [done|]. intros x Hx Hok. assert (x = t) as -> by congruence. unfold timeline_ok in *. simpl. lia.
  - split_and!; [|done|constructor; [|done]].
    + etrans; [|exact H1]. apply Forall2_alter_r; [reflexivity|]. intros x y Hx Hy _. assert (x = y) as -> by congruence.
      assert (y = t) as -> by congruence. repeat split; simpl; lia.
    + eapply signal_ok_advance; [exact H1|]. exists (accept_value (tp_value p) t). split; [done|]. simpl. lia.
Qed.

Lemma admitted_signals ts b points :
  points_admitted cfg ts b Z.gt points -> Forall (fun p => is_u64 (tp_timeline_handle p)) points ->
  Forall (fun p => exists t, ts !! timeline_of p = Some t /\ tp_value p > tl_last_accepted t) points /\ NoDup (timeline_of <$> points).
Proof.
  intros [Hp Hn] Hu. split.
  - eapply Forall_impl; [exact Hp|]. intros p (i & t & (_ & _ & <- & Ht & _) & Hv). by exists t.
  - assert (Ho : Forall (fun p => device_owner (tp_timeline_handle p) = df_owner cfg) points).
    { eapply Forall_impl; [exact Hp|]. by intros p (i & t & (_ & Ho & _) & _). }
    clear Hp. induction points as [|p points IH]; [constructor|]. simpl in *. apply list.NoDup_cons in Hn as [Hnin Hn].
    apply Forall_cons in Hu as [Hu Hus]. apply Forall_cons in Ho as [Ho Hos]. apply list.NoDup_cons. split; [|by apply IH].
    intros (q & Heq & Hq)%list_elem_of_fmap. apply Hnin. apply list_elem_of_fmap. exists q. split; [|done].
    rewrite (handle_split (tp_timeline_handle p)) by done.
    rewrite (handle_split (tp_timeline_handle q)) by (by apply (proj1 (list.Forall_forall _ _) Hus)).
    rewrite Ho, (proj1 (list.Forall_forall _ _) Hos q Hq). f_equal. unfold timeline_of in Heq.
    assert (H1 := index_nonneg (tp_timeline_handle p)). assert (H2 := index_nonneg (tp_timeline_handle q)). lia.
Qed.

Definition simulation_is_rate (rq : BatchRequest) : Prop := is_set (rq_simulation rq) = true -> is_set (rq_rate rq) = true.

(** The provider that reserved slot [i] publishes its batch in it, or gives it back. *)
Lemma publish_inv b i s rq now d :
  dl_slots d !! i = Some s -> bs_state s = kBatchReserved -> handles_typed rq -> simulation_is_rate rq -> Inv d ->
  Inv (fst (publish_batch cfg natives b i rq now d)) /\
  Forall2 advanced (dl_timelines d) (dl_timelines (fst (publish_batch cfg natives b i rq now d))) /\
  (forall j, j <> i -> dl_slots (fst (publish_batch cfg natives b i rq now d)) !! j = dl_slots d !! j).
Proof.
  intros Hs Hst Htyped Hsim Hi. unfold publish_batch. rewrite Hs.
  destruct (admit_batch cfg natives (dl_timelines d) b (rq_requested rq)) as [status|translated] eqn:Ha.
  { simpl. split_and!; [|reflexivity|intros j Hj; by apply list_lookup_insert_ne].
    eapply (change_inv i s (set_state kBatchFree s) [] 0 d); [|reflexivity|apply Hi| |by split|exact Hi].
    - split; simpl; try done; [by rewrite app_nil_r|]. intros n ->. by rewrite Z.add_0_r.
    - split; unfold live_weight, id_weight, graph_weight, owes_graph, tally; rewrite ?Hst; done. }
  apply admit_batch_inr in Ha as (_ & Hsig & commands & _ & _ & ->). destruct (take_batch_id (dl_next_batch_id d)) as [batch_id next].
  assert (Hu : Forall (fun p => is_u64 (tp_timeline_handle p)) (active_signals (rq_requested rq))) by (by apply Forall_take).
  destruct (admitted_signals _ _ _ Hsig Hu) as [Hp Hn]. destruct (accept_signals_ok _ _ Hp Hn (inv_timelines _ Hi)) as (Hadv & Htl & Hso).
  cbn [fst]. split_and!; [|done|intros j Hj; by apply list_lookup_insert_ne].
  eapply (change_inv i s _ [_] 1 d); [split; [exact Hs|reflexivity|reflexivity|]|exact Hadv|exact Htl| | |exact Hi].
  - intros n. simpl. intros ->. apply u64_add.
  - split; unfold live_weight, id_weight, graph_weight, owes_graph, tally, bs_batch_id, bs_batch; rewrite ?Hst; simpl; [lia|intros; lia|].
    intros p. unfold bs_phase_index. simpl. destruct (is_set (rq_rate rq)); simpl; lia.
  - split; [|done]. intros _. split; [apply Hsim|exact Hso].
Qed.

(** ** The threads *)

Record SystemInv (y : DeviceSystem) : Prop := mkSystemInv {
  si_lanes : Inv (sy_lanes y);
  si_admissions : forall b i rq, sy_admissions y !! b = Some (Some (i, rq)) ->
    batch_state_at (dl_slots (sy_lanes y)) i = Some kBatchReserved /\ handles_typed rq /\ simulation_is_rate rq;
  si_distinct : forall b b' i rq rq', sy_admissions y !! b = Some (Some (i, rq)) -> sy_admissions y !! b' = Some (Some (i, rq')) -> b = b';
  si_waits : forall b i batch, sy_pcs y !! b = Some (lane_selected i batch true) -> waits_ready cfg (dl_timelines (sy_lanes y)) batch = true;
}.

(** The timelines go forward and no quarantined slot changes. *)
Definition forward (d d' : DeviceLanes) : Prop :=
  Forall2 advanced (dl_timelines d) (dl_timelines d') /\
  forall i s, dl_slots d !! i = Some s -> bs_state s = kBatchRateQuarantined -> dl_slots d' !! i = Some s.

#[export] Instance forward_preorder : PreOrder forward.
Proof.
  split; [by intros d; split|]. intros a b c [H1 H2] [H3 H4]. split; [by etrans|]. eauto.
Qed.

Lemma waits_ready_advance ts ts' batch : Forall2 advanced ts ts' -> waits_ready cfg ts batch = true -> waits_ready cfg ts' batch = true.
Proof.
  intros H. unfold waits_ready. rewrite !forallb_forall. intros Hw p Hp. specialize (Hw p Hp). unfold wait_ready in *.
  destruct (_ =? _); [|done]. cbn [andb] in *. destruct (ts !! _) as [t|] eqn:Ht; [|done].
  destruct (Forall2_lookup_l _ _ _ _ _ H Ht) as (t' & -> & (_ & _ & _ & Hc)). rewrite negb_true_iff, Z.ltb_ge in *. lia.
Qed.

Lemma good_forward d d' : good d d' -> Inv d -> forward d d'.
Proof. intros H Hi. destruct (H Hi) as (_ & H1 & H2). split; [done|]. intros i s Hs Hq. apply H2; [done|]. by right. Qed.

Lemma lanes_inv d' y : good (sy_lanes y) d' -> SystemInv y -> SystemInv (set_lanes d' y) /\ forward (sy_lanes y) d'.
Proof.
  intros Hg Hy. destruct (Hg (si_lanes _ Hy)) as (Hi & Ha & Hk). split; [|by apply good_forward, Hy]. split; simpl.
  - done.
  - intros b i rq Hb. destruct (si_admissions _ Hy b i rq Hb) as (Hst & H). split; [|done]. unfold batch_state_at in *.
    apply fmap_Some in Hst as (s & Hs & Hr). rewrite (Hk i s Hs (or_introl (eq_sym Hr))). simpl. congruence.
  - apply (si_distinct _ Hy).
  - intros b i batch Hb. eapply waits_ready_advance; [exact Ha|]. by eapply (si_waits _ Hy).
Qed.

Lemma pc_inv b pc y :
  (forall i batch, pc = lane_selected i batch true -> waits_ready cfg (dl_timelines (sy_lanes y)) batch = true) ->
  SystemInv y -> SystemInv (set_pc b pc y).
Proof.
  intros Hpc [H1 H2 H3 H4]. split; simpl; [done..|]. intros b' i batch [(-> & H & _)|(_ & H)]%list_lookup_insert_Some; [by eapply Hpc|by eapply H4].
Qed.

Lemma local_inv checks pending y : SystemInv y -> SystemInv (set_checks checks y) /\ SystemInv (set_pending pending y).
Proof. intros [H1 H2 H3 H4]. by split. Qed.

Lemma first_free_Some b slots i : first_free cfg b slots = Some i -> batch_state_at slots i = Some kBatchFree.
Proof. unfold first_free. intros ([k j] & (H1 & H2 & _)%list_find_Some & ->)%fmap_Some. done. Qed.

Lemma submit_inv b rq now y : handles_typed rq -> SystemInv y ->
  SystemInv (submit_enter cfg b rq now y) /\ forward (sy_lanes y) (sy_lanes (submit_enter cfg b rq now y)).
Proof.
  intros Ht Hy. unfold submit_enter. destruct (negb _ || _) eqn:Hv; [by split|]. apply orb_false_iff in Hv as [Hv _].
  apply negb_false_iff in Hv. destruct (sy_admissions y !! b) as [[?|]|] eqn:Hb; [by apply lanes_inv; [apply stats_good|]| |by split].
  destruct (first_free cfg b (dl_slots (sy_lanes y))) as [i|] eqn:Hf; [|by apply lanes_inv; [apply stats_good|]].
  apply first_free_Some in Hf. apply fmap_Some in Hf as (s & Hs & Hst). rewrite Hs. symmetry in Hst.
  destruct (lanes_inv (put_slot i (set_state kBatchReserved s) (sy_lanes y)) y) as [Hy' Hf]; [|done|split; [|done]].
  { eapply put_good; try done; rewrite ?Hst; try done. by intros [H|H]; rewrite Hst in H. }
  assert (Hfresh : forall b' rq', sy_admissions y !! b' <> Some (Some (i, rq'))).
  { intros b' rq' H. destruct (si_admissions _ Hy b' i rq' H) as (Hr & _). unfold batch_state_at in Hr. rewrite Hs in Hr. simpl in Hr. congruence. }
  split; simpl.
  - apply Hy'.
  - intros b' i' rq' [(-> & [= <- <-] & _)|(_ & H)]%list_lookup_insert_Some; [|by eapply (si_admissions _ Hy')].
    split_and!; [|done|].
    + unfold batch_state_at. rewrite list_lookup_insert_eq; [done|by eapply lookup_lt_Some].
    + unfold batch_arguments_valid in Hv. rewrite !andb_true_iff in Hv. destruct Hv as [_ Hv]. unfold simulation_is_rate.
      destruct (rq_simulation rq); [|done]. rewrite !andb_true_iff in Hv. tauto.
  - intros b1 b2 i' rq1 rq2 [(-> & [= <- <-] & _)|(Hn1 & H1)]%list_lookup_insert_Some [(-> & E & _)|(Hn2 & H2)]%list_lookup_insert_Some.
    + done.
    + by destruct (Hfresh b2 rq2).
    + injection E as <- <-. by destruct (Hfresh b1 rq1).
    + by eapply (si_distinct _ Hy).
  - apply (si_waits _ Hy').
Qed.

Lemma submit_publish_inv b now y : SystemInv y ->
  SystemInv (submit_publish cfg natives b now y) /\ forward (sy_lanes y) (sy_lanes (submit_publish cfg natives b now y)).
Proof.
  intros Hy. unfold submit_publish. destruct (sy_admissions y !! b) as [[[i rq]|]|] eqn:Hb; [|by split..].
  destruct (si_admissions _ Hy b i rq Hb) as (Hst & Ht & Hsim). apply fmap_Some in Hst as (s & Hs & Hst). symmetry in Hst.
  destruct (publish_inv b i s rq now (sy_lanes y) Hs Hst Ht Hsim (si_lanes _ Hy)) as (Hi & Ha & Hk).
  destruct (publish_batch cfg natives b i rq now (sy_lanes y)) as [d published]. cbn [fst] in *.
  assert (Hy' : SystemInv (set_admission b None (set_lanes d y))).
  { split; simpl.
    - done.
    - intros b' i' rq' [(_ & ? & _)|(Hn & H)]%list_lookup_insert_Some; [done|]. destruct (si_admissions _ Hy b' i' rq' H) as (H1 & H2).
      split; [|done]. unfold batch_state_at in *. rewrite Hk; [done|]. intros ->. apply Hn. by eapply (si_distinct _ Hy).
    - intros b1 b2 i' rq1 rq2 [(_ & ? & _)|(_ & H1)]%list_lookup_insert_Some; [done|]. intros [(_ & ? & _)|(_ & H2)]%list_lookup_insert_Some; [done|].
      by eapply (si_distinct _ Hy).
    - intros b' i' batch H. eapply waits_ready_advance; [exact Ha|]. by eapply (si_waits _ Hy). }
  assert (Hf : forward (sy_lanes y) d).
  { split; [done|]. intros j s0 Hj Hq. rewrite Hk; [done|]. intros ->. congruence. }
  destruct published; split; try done. by apply (local_inv _ []).
Qed.

Definition step_typed (l : Step) : Prop := match l with st_submit _ rq _ => handles_typed rq | _ => True end.

Lemma step_inv l y : step_typed l -> SystemInv y ->
  SystemInv (lane_step cfg natives l y) /\ forward (sy_lanes y) (sy_lanes (lane_step cfg natives l y)).
Proof.
  intros Hl Hy. destruct l; cbn [lane_step].
  - by apply submit_inv.
  - by apply submit_publish_inv.
  - destruct (sy_checks y !! k) as [i|]; [|by split]. destruct (dl_batch_stopping _).
    + destruct (lanes_inv _ y (cancel_queued_good clocks i (sy_lanes y)) Hy) as [H1 H2]. split; [|done]. by apply (local_inv _ []).
    + split; [|done]. by apply (local_inv _ []).
  - destruct (sy_pcs y !! backend) as [[]|]; try by split. destruct (dl_batch_stopping _); [by split|]. split; [|done]. apply pc_inv; [|done].
    intros i batch. unfold lane_select. destruct (select_slot _ _ _) as [j|]; [|done]. destruct (_ !! j) as [s|]; [|done]. by intros [= _ <- H].
  - destruct (sy_pcs y !! backend) as [[|i batch ready|]|]; try by split. assert (H := lane_claim_good clocks backend i ready (sy_lanes y)).
    assert (Hpc : forall j bt, snd (lane_claim cfg clocks backend i ready (sy_lanes y)) <> lane_selected j bt true).
    { intros j bt. unfold lane_claim. destruct (_ !! i) as [s|]; [|done]. destruct ready; [by case_decide|by destruct (_ && _)]. }
    destruct (lane_claim cfg clocks backend i ready (sy_lanes y)) as [d pc]. destruct (lanes_inv d y H Hy) as [H1 H2]. split; [|done].
    apply pc_inv; [|done]. intros j bt Hc. by destruct (Hpc j bt).
  - destruct (sy_pcs y !! backend) as [[| |i]|]; try by split.
    destruct (lanes_inv _ y (lane_return_good clocks i answer (sy_lanes y)) Hy) as [H1 H2]. split; [|done]. by apply pc_inv.
  - apply lanes_inv; [apply sweep_good|done].
  - assert (H := poll_good clocks backend answer count buffer (sy_lanes y)). destruct (poll_batch_completions _ _ _ _ _ _ _) as [d completions].
    destruct (lanes_inv d y H Hy) as [H1 H2]. split; [|done]. by apply (local_inv []).
  - destruct (sy_pending y) as [|[b c] rest]; [by split|].
    destruct (lanes_inv _ y (process_good clocks b c (sy_lanes y)) Hy) as [H1 H2]. split; [|done]. by apply (local_inv []).
  - apply lanes_inv; [apply expire_good|done].
  - destruct (wait_rate_batch ticket (sy_lanes y)) as [r|] eqn:Hw; [|by split]. apply lanes_inv; [by eapply wait_good|done].
  - apply lanes_inv; [apply release_good|done].
  - apply lanes_inv; [by apply quiet_good|done].
  - apply lanes_inv; [apply stop_good|done].
  - apply lanes_inv; [apply fail_good|done].
Qed.

Lemma lanes_run_inv steps y : Forall step_typed steps -> SystemInv y ->
  SystemInv (run cfg natives steps y) /\ forward (sy_lanes y) (sy_lanes (run cfg natives steps y)).
Proof.
  unfold run. revert y. induction steps as [|l steps IH]; intros y Hl Hy; simpl; [by split|]. apply Forall_cons in Hl as [Hl Hls].
  destruct (step_inv l y Hl Hy) as [H1 H2]. destruct (IH _ Hls H1) as [H3 H4]. split; [done|]. by etrans.
Qed.

Lemma lanes_create_inv : SystemInv (create_lanes cfg).
Proof.
  split; simpl.
  - split; simpl.
    + apply Forall_replicate. by split.
    + apply Forall_fmap, list.Forall_forall. intros t _. unfold timeline_ok. simpl. lia.
    + rewrite (zsum_ext live_weight (fun _ => 0)), zsum_const; [done|]. intros x [-> _]%elem_of_replicate. done.
    + intros k. rewrite (zsum_ext (id_weight k) (fun _ => 0)), zsum_const; [done|]. intros x [-> _]%elem_of_replicate. done.
    + intros k. rewrite (zsum_ext (graph_weight k) (fun _ => 0)), zsum_const; [done|]. intros x [-> _]%elem_of_replicate. done.
  - intros b i rq H. apply list_elem_of_lookup_2, elem_of_replicate in H as [? _]. done.
  - intros b b' i rq rq' H. apply list_elem_of_lookup_2, elem_of_replicate in H as [? _]. done.
  - intros b i batch H. apply list_elem_of_lookup_2, elem_of_replicate in H as [? _]. done.
Qed.

Lemma reached steps : Forall step_typed steps -> SystemInv (run cfg natives steps (create_lanes cfg)).
Proof. intros H. by destruct (lanes_run_inv steps _ H lanes_create_inv). Qed.

Lemma run_app steps more y : run cfg natives (steps ++ more) y = run cfg natives more (run cfg natives steps y).
Proof. apply foldl_app. Qed.

(** ** Claims *)


(** C17. Timelines under every interleaving: the completed value of a timeline starts at the initial value of
    its specification, never goes back and never passes the value of the last accepted signal, which never
    goes back either; and every signal of a batch that is not yet complete names an existing timeline
    at a value it has accepted, so completing the batch cannot run ahead of it. *)
Theorem device_timeline_progress steps more :
  Forall step_typed (steps ++ more) ->
  let d := sy_lanes (run cfg natives steps (create_lanes cfg)) in
  let d' := sy_lanes (run cfg natives (steps ++ more) (create_lanes cfg)) in
  Forall2 (fun spec t => dt_initial_value spec = tl_initial_value t /\
    tl_initial_value t <= tl_completed t <= tl_last_accepted t) (df_timelines cfg) (dl_timelines d) /\
  Forall2 (fun t t' => tl_completed t <= tl_completed t' /\ tl_last_accepted t <= tl_last_accepted t') (dl_timelines d) (dl_timelines d') /\
  (forall s p, s ∈ dl_slots d -> unsettled (bs_state s) = true -> p ∈ active_signals (bs_batch s) ->
     exists t, dl_timelines d !! timeline_of p = Some t /\ tp_value p <= tl_last_accepted t).
Proof.
  intros [H1 H2]%Forall_app d d'. unfold d'. rewrite run_app. assert (Hd := reached steps H1).
  destruct (lanes_run_inv steps _ H1 lanes_create_inv) as [_ [Ha _]]. destruct (lanes_run_inv more _ H2 Hd) as [_ [Hb _]]. fold d in Ha, Hb.
  destruct (si_lanes _ Hd) as [I1 I2 _ _ _]. fold d in I1, I2. split_and!.
  - simpl in Ha. rewrite list.Forall2_fmap_l in Ha. apply list.Forall2_same_length_lookup_2; [eapply Forall2_length; exact Ha|].
    intros i spec t Hs Ht. destruct (Forall2_lookup_lr _ _ _ _ _ _ Ha Hs Ht) as (_ & Hi & _). split; [done|].
    apply (Forall_lookup_1 _ _ _ _ I2 Ht).
  - eapply list.Forall2_impl; [exact Hb|]. intros t t' (_ & _ & ? & ?). done.
  - intros s p Hs Hu Hp. destruct (proj1 (list.Forall_forall _ _) I1 s Hs) as [[_ Hok] _]; [done|].
    apply (proj1 (list.Forall_forall _ _) Hok p Hp).
Qed.

(** C18. A quarantined rate slot is left alone until shutdown: once the service thread gave up on a rate batch that
    the backend may still own, no step of any thread changes any field of its slot, so the
    storage is not reused while the backend may refer to it; and a late completion that finds the slot does
    nothing at all, so it neither advances a timeline nor turns the time-out into success. *)
Theorem device_quarantine steps more i s :
  Forall step_typed (steps ++ more) ->
  dl_slots (sy_lanes (run cfg natives steps (create_lanes cfg))) !! i = Some s -> bs_state s = kBatchRateQuarantined ->
  let d := sy_lanes (run cfg natives (steps ++ more) (create_lanes cfg)) in
  dl_slots d !! i = Some s /\
  (forall clocks b c, matching_slot cfg b (bc_batch_id c) (dl_slots d) = Some i -> process_batch_completion cfg clocks b c d = d).
Proof.
  intros [H1 H2]%Forall_app Hs Hq d. unfold d. rewrite run_app in *. destruct (lanes_run_inv more _ H2 (reached steps H1)) as [_ [_ Hk]].
  specialize (Hk i s Hs Hq). split; [done|]. intros clocks b c Hm. unfold process_batch_completion. by rewrite Hm, Hk, Hq.
Qed.

End Invariant.

(** ** An example *)

Definition lane_backend : DeviceBackendSpec :=
  mkBackendSpec [] (mkHalCapabilities 152 2 4 4 4096 128 8 1 1 1 0 [] 0 []) None
    (Some (mkCapabilities 88 1 4 16 8 8 16 4 0 [])).

(** One slot, one timeline that starts at 0. *)
Definition lane_config : DeviceConfig := mkDeviceConfig 1 [lane_backend] [] [mkTimelineSpec [] 0 0] 1 4 false.

Definition lane_command : DeviceCommand :=
  mkDeviceCommand 544 1 kind_dispatch 0 5 0 0 0 (replicate 128 0) (replicate 8 zero_reference) zero_reference zero_reference
    zero_reference (replicate 4 0).
Definition no_command : DeviceCommand :=
  mkDeviceCommand 544 1 0 0 0 0 0 0 (replicate 128 0) (replicate 8 zero_reference) zero_reference zero_reference
    zero_reference (replicate 4 0).
Definition lane_point (value : Z) : HalV2TimelinePoint :=
  mkTimelinePoint 48 1 (DeviceTimelineHandle_make 1 0) value (replicate 3 0).

(** A dispatch without buffers that waits for [waits] and signals [value]. *)
Definition lane_batch (timeout : Z) (waits : list Z) (value : Z) : DeviceCommandBatch :=
  mkCommandBatch 9584 1 0 0 timeout 1 (Z.of_nat (length waits)) 1 0 (lane_command :: replicate 15 no_command)
    ((lane_point <$> waits) ++ replicate (8 - length waits) default_point) (lane_point value :: replicate 7 default_point)
    (replicate 8 0).

Definition lane_request (waits : list Z) (value : Z) : BatchRequest :=
  mkBatchRequest 3 0 (lane_batch 100 waits value) (lane_batch 0 ((fun _ => 0) <$> waits) 0) None None 0.

Definition some_clocks : Clocks := mkClocks 10 10.

Lemma lane_batch_typed timeout waits value declaration rate simulation :
  handles_typed (mkBatchRequest 3 0 (lane_batch timeout waits value) declaration rate simulation 0).
Proof. unfold handles_typed. repeat constructor; vm_compute; discriminate. Qed.

Ltac steps_typed := repeat (constructor; [first [exact I | apply lane_batch_typed]|]); constructor.

(** The lane selects a batch without waits; before it goes on the backend reports that it is lost, which fails
    the batch and frees the slot, and a provider puts there a batch that waits for the failed one's signal. *)
Definition reuse_steps : list Step :=
  [st_submit 0 (lane_request [] 1) 5; st_publish 0 6; st_select 0; st_poll 0 (Some hal_lost) 0 [] some_clocks;
   st_submit 0 (lane_request [1] 2) 7; st_publish 0 8; st_claim 0 some_clocks].

(** C21. The submission lane can submit a batch whose waits are not complete: it examines the waits of the slot it
    selected and then moves the slot from queued to submitting without comparing its batch, so when the batch it
    examined was failed meanwhile and the slot reused, the lane hands the new batch to the backend
    unexamined.  In the run that is shown the batch waits for a value its timeline has not completed. *)
Theorem device_lane_reuse : exists cfg natives steps batch t,
  let d := sy_lanes (run cfg natives steps (create_lanes cfg)) in
  Forall step_typed steps /\ last (dl_log d) = Some (ev_native_submit 0 batch) /\
  waits_ready cfg (dl_timelines d) batch = false /\
  dl_timelines d = [t] /\ tl_completed t = 0 /\ (tp_value <$> active_waits batch) = [1].
Proof.
  exists lane_config, [], reuse_steps. do 2 eexists. cbv zeta. split; [unfold reuse_steps, lane_request; steps_typed|].
  split; [vm_compute; reflexivity|]. split; [vm_compute; reflexivity|]. split; [vm_compute; reflexivity|]. split; reflexivity.
Qed.

(** A batch without waits goes to the backend. *)
Definition early_steps : list Step :=
  [st_submit 0 (lane_request [] 1) 5; st_publish 0 6; st_select 0; st_claim 0 some_clocks].

Definition ready_steps : list Step := [st_submit 0 (lane_request [] 1) 5; st_publish 0 6; st_select 0].
Definition ready_system : DeviceSystem := run lane_config [] ready_steps (create_lanes lane_config).
Definition ready_slot : BatchSlot := default empty_batch_slot (dl_slots (sy_lanes ready_system) !! 0%nat).



Lemma device_timeline_progress_witness :
  Forall2 (fun t t' => tl_completed t <= tl_completed t' /\ tl_last_accepted t <= tl_last_accepted t')
    (dl_timelines (sy_lanes (run lane_config [] early_steps (create_lanes lane_config))))
    (dl_timelines (sy_lanes (run lane_config [] (early_steps ++ [st_return 0 (Some hal_ok) some_clocks]) (create_lanes lane_config)))).
Proof.
  assert (Ht : Forall step_typed (early_steps ++ [st_return 0 (Some hal_ok) some_clocks])) by (unfold early_steps, lane_request; simpl; steps_typed).
  destruct (device_timeline_progress lane_config [] early_steps _ Ht) as (_ & H & _). exact H.
Defined.

(** A rate batch that times out with the backend. *)
Definition lane_identity : DeviceRateReleaseIdentity :=
  mkRateIdentity (Some 0%nat) (RateDomainHandle_make 1 0) (PhaseHandle_make 1 3) 0 0 0 0 0 100 100.
Definition rate_steps : list Step :=
  [st_submit 0 (mkBatchRequest 3 0 (lane_batch 100 [] 1) (lane_batch 0 [] 0) (Some lane_identity) None 0) 5;
   st_publish 0 6; st_select 0; st_claim 0 some_clocks; st_return 0 (Some hal_ok) some_clocks;
   st_expire 0 0 (mkClocks 106 0)].

Definition expired_slot : BatchSlot :=
  default empty_batch_slot (dl_slots (sy_lanes (run lane_config [] rate_steps (create_lanes lane_config))) !! 0%nat).

Lemma device_quarantine_witness :
  dl_slots (sy_lanes (run lane_config [] (rate_steps ++ reuse_steps) (create_lanes lane_config))) !! 0%nat = Some expired_slot /\
  bs_state expired_slot = kBatchRateQuarantined.
Proof.
  assert (Ht : Forall step_typed (rate_steps ++ reuse_steps)) by (unfold rate_steps, reuse_steps, lane_request; simpl; steps_typed).
  assert (H1 : dl_slots (sy_lanes (run lane_config [] rate_steps (create_lanes lane_config))) !! 0%nat = Some expired_slot) by (vm_compute; reflexivity).
  assert (H2 : bs_state expired_slot = kBatchRateQuarantined) by (vm_compute; reflexivity).
  assert (H := device_quarantine lane_config [] rate_steps reuse_steps 0 expired_slot Ht H1 H2). exact (conj (proj1 H) H2).
Defined.

(** ** Queries *)

(** The ordinals of a backend count its timelines, in order. *)
Lemma timeline_scan_filter b ordinal index ts :
  (snd <$> timeline_scan b ordinal index ts) = filter (fun t => tl_backend_index t = Z.of_nat b) ts !! ordinal.
Proof.
  revert ordinal index. induction ts as [|t ts IH]; intros ordinal index; simpl; [done|]. rewrite filter_cons.
  case_decide; [|apply IH]. destruct ordinal; simpl; [done|apply IH].
Qed.

Lemma timeline_scan_lookup b ordinal index ts j t :
  timeline_scan b ordinal index ts = Some (j, t) -> (index <= j)%nat /\ ts !! (j - index)%nat = Some t.
Proof.
  revert ordinal index. induction ts as [|u ts IH]; intros ordinal index; simpl; [done|].
  assert (Hrest : forall o, timeline_scan b o (S index) ts = Some (j, t) -> (index <= j)%nat /\ (u :: ts) !! (j - index)%nat = Some t).
  { intros o [H1 H2]%IH. split; [lia|]. by replace (j - index)%nat with (S (j - S index)) by lia. }
  case_decide; [|apply Hrest]. destruct ordinal; [|apply Hrest]. intros [= <- <-]. by rewrite Nat.sub_diag.
Qed.

(** *** After a shutdown *)

(** No rate slot is left in use. *)
Lemma release_rate_slots_free d i s :
  dl_slots (release_rate_slots_after_shutdown d) !! i = Some s -> bs_rate_owned s = false.
Proof.
  assert (Hstep : forall d j, dl_slots (release_rate_slot d j) !! j = None \/
    exists s, dl_slots (release_rate_slot d j) !! j = Some s /\ bs_rate_owned s = false).
  { intros e j. unfold release_rate_slot. destruct (dl_slots e !! j) as [s'|] eqn:Hs; [right|by left].
    destruct (bs_rate_owned s') eqn:Hr; [|by exists s']. exists (set_rate_owned false (set_state kBatchFree s')). split; [|done].
    destruct (bs_state s'), (dl_outstanding_count e =? 0); simpl; by eapply list_lookup_insert_eq, lookup_lt_Some. }
  assert (Hother : forall d j k, j <> k -> dl_slots (release_rate_slot d j) !! k = dl_slots d !! k).
  { intros e j k Hne. unfold release_rate_slot. destruct (dl_slots e !! j) as [s'|]; [|done]. destruct (bs_rate_owned s'); [|done].
    destruct (bs_state s'), (dl_outstanding_count e =? 0); simpl; by rewrite list_lookup_insert_ne. }
  assert (Hlen : forall d j, length (dl_slots (release_rate_slot d j)) = length (dl_slots d)).
  { intros e j. unfold release_rate_slot. destruct (dl_slots e !! j) as [s'|]; [|done]. destruct (bs_rate_owned s'); [|done].
    destruct (bs_state s'), (dl_outstanding_count e =? 0); simpl; by rewrite length_insert. }
  unfold release_rate_slots_after_shutdown. intros H.
  assert (Hgen : forall n, let e := foldl release_rate_slot d (seq 0 n) in
    length (dl_slots e) = length (dl_slots d) /\ forall k s, (k < n)%nat -> dl_slots e !! k = Some s -> bs_rate_owned s = false).
  { induction n as [|n [IH1 IH2]]; [split; [done|lia]|]. rewrite seq_S, foldl_app. simpl. split; [by rewrite Hlen|].
    intros k s0 Hk Hs. destruct (decide (k = n)) as [->|Hne]; [|apply (IH2 k s0); [lia|]; by rewrite Hother in Hs].
    destruct (Hstep (foldl release_rate_slot d (seq 0 n)) n) as [Hn|(s1 & Hn & Hr)]; congruence. }
  destruct (Hgen (length (dl_slots d))) as [H1 H2]. apply (H2 i s); [|done]. rewrite <- H1. by eapply lookup_lt_Some.
Qed.

(** ** Single submissions *)

Section SubmissionInvariant.
Context (cfg : DeviceConfig) (natives : list NativeMemoryState).

Definition submitted (s : Outstanding) : bool := bool_decide (os_state s = kOutstandingSubmitted).

(** The slot is held by a call of [submit] that is inside the backend. *)
Definition calling (s : Outstanding) : Prop := os_state s = kOutstandingSubmitting \/ os_state s = kOutstandingEarlyReady.

Definition submitted_id (e : SubmissionEvent) : option Z := match e with se_submitted _ id => Some id | _ => None end.
Definition reported_id (e : SubmissionEvent) : option Z := match e with se_completed _ _ id => Some id | _ => None end.
Definition told_phase (e : SubmissionEvent) : option Z := match e with se_graph_completed p _ => Some p | _ => None end.

Definition sub_count (f : SubmissionEvent -> option Z) (log : list SubmissionEvent) : Z := zsum (fun e => ind (is_set (f e))) log.

Definition submitted_weight (k : Z) (s : Outstanding) : Z := ind (submitted s && (os_submission_id s =? k)).

Record SubInv (m : Submissions) : Prop := mkSubInv {
  sv_count : sb_count m = u64 (zsum (fun s => ind (submitted s)) (sb_slots m));
  sv_ids : forall k, tally submitted_id k (sb_log m) =
    tally reported_id k (sb_log m) + zsum (submitted_weight k) (sb_slots m);
  sv_told : sub_count reported_id (sb_log m) = sub_count told_phase (sb_log m) + Z.of_nat (length (sb_tells m));
  sv_tells : Forall (fun t => (fst t < length (sb_slots m))%nat) (sb_tells m);
  sv_distinct : NoDup (sb_calls m);
  sv_calls : Forall (fun i => exists s, sb_slots m !! i = Some s /\ calling s) (sb_calls m);
}.

(** [m'] is [m] with slot [i] replaced, the events logged, the count moved; its lists of calls and tells. *)
Lemma update_inv i s v events delta stats calls tells m :
  SubInv m -> sb_slots m !! i = Some s -> delta = ind (submitted v) - ind (submitted s) ->
  (forall k, tally submitted_id k events = tally reported_id k events + submitted_weight k v - submitted_weight k s) ->
  sub_count reported_id events = sub_count told_phase events + Z.of_nat (length tells) - Z.of_nat (length (sb_tells m)) ->
  Forall (fun t => (fst t < length (sb_slots m))%nat) tells -> NoDup calls ->
  Forall (fun j => j = i /\ calling v \/ j <> i /\ j ∈ sb_calls m) calls ->
  SubInv (set_tells tells (set_calls calls (update_submissions i v events delta stats m))).
Proof.
  intros [I1 I2 I3 I4 I5 I6] Hs Hd Hk Ht Htells Hn Hc. split; simpl.
  - rewrite I1, u64_add, (zsum_insert _ _ _ _ _ Hs). f_equal. lia.
  - intros k. unfold tally in *. rewrite !zsum_app, I2, Hk, (zsum_insert _ _ _ _ _ Hs). lia.
  - unfold sub_count in *. rewrite !zsum_app. lia.
  - by rewrite length_insert.
  - done.
  - eapply Forall_impl; [exact Hc|]. intros j [[-> Hv]|[Hj Hin]].
    + exists v. split; [|done]. apply list_lookup_insert_eq. by eapply lookup_lt_Some.
    + rewrite list_lookup_insert_ne by done. apply (proj1 (list.Forall_forall _ _) I6 j Hin).
Qed.

Lemma calls_elsewhere m i s : SubInv m -> sb_slots m !! i = Some s -> ~ calling s ->
  Forall (fun j => j <> i /\ j ∈ sb_calls m) (sb_calls m).
Proof.
  intros Hm Hs Hn. apply list.Forall_forall. intros j Hj. split; [|done]. intros ->.
  destruct (proj1 (list.Forall_forall _ _) (sv_calls _ Hm) i Hj) as (s' & Hs' & Hc). congruence.
Qed.

(** A slot that no call holds, or that stays with its call. *)
Lemma keep_inv i s v events delta stats tells m :
  SubInv m -> sb_slots m !! i = Some s -> (calling s -> calling v) -> delta = ind (submitted v) - ind (submitted s) ->
  (forall k, tally submitted_id k events = tally reported_id k events + submitted_weight k v - submitted_weight k s) ->
  sub_count reported_id events = sub_count told_phase events + Z.of_nat (length tells) - Z.of_nat (length (sb_tells m)) ->
  Forall (fun t => (fst t < length (sb_slots m))%nat) tells ->
  SubInv (set_tells tells (update_submissions i v events delta stats m)).
Proof.
  intros Hm Hs Hc Hd Hk Ht Htells. refine (update_inv i s v events delta stats (sb_calls m) tells m Hm Hs Hd Hk Ht Htells (sv_distinct _ Hm) _).
  apply list.Forall_forall. intros j Hj. destruct (decide (j = i)) as [->|Hne]; [|by right]. left. split; [done|]. apply Hc.
  destruct (proj1 (list.Forall_forall _ _) (sv_calls _ Hm) i Hj) as (s' & Hs' & H). congruence.
Qed.

Ltac weights :=
  solve [unfold submitted_weight, submitted, tally, sub_count; simpl; rewrite ?bool_decide_true, ?bool_decide_false by congruence; simpl; intros; lia].

Lemma finalize_inv i s c m : SubInv m -> sb_slots m !! i = Some s -> os_state s = kOutstandingSubmitted -> SubInv (finalize_completion i s c m).
Proof.
  intros Hm Hs Hst. unfold finalize_completion. apply (keep_inv i s); try done; try weights.
  - by intros [H|H]; rewrite Hst in H.
  - constructor; [by eapply lookup_lt_Some|apply Hm].
Qed.

Lemma fail_outstanding_inv b status m i : SubInv m -> SubInv (fail_outstanding b status m i).
Proof.
  intros Hm. unfold fail_outstanding. destruct (sb_slots m !! i) as [s|] eqn:Hs; [|done]. destruct (Nat.eqb _ _); [|done].
  destruct (os_state s) eqn:Hst; try done.
  - apply (keep_inv i s _ _ _ _ (sb_tells m)); try done; try weights; [by right|apply Hm].
  - apply (keep_inv i s _ _ _ _ (sb_tells m)); try done; try weights; [by intros [H|H]; rewrite Hst in H|apply Hm].
Qed.

Lemma fail_backend_inv b status m : SubInv m -> SubInv (fail_backend_outstanding b status m).
Proof.
  unfold fail_backend_outstanding. generalize (seq 0 (length (sb_slots m))). intros l. revert m.
  induction l as [|i l IH]; intros m Hm; simpl; [done|]. by apply IH, fail_outstanding_inv.
Qed.

Lemma process_completion_inv b c m : SubInv m -> SubInv (process_completion b c m).
Proof.
  intros Hm. unfold process_completion. destruct (negb _); [by apply fail_backend_inv|].
  destruct (_ ≫= _) as [[i s]|] eqn:Hb; [|by destruct Hm].
  apply bind_Some in Hb as (i' & _ & Hb). apply bind_Some in Hb as (s' & Hs & [= <- <-]).
  destruct (os_state s') eqn:Hst; try done; [|by apply finalize_inv].
  apply (keep_inv i' s' _ _ _ _ (sb_tells m)); try done; try weights; [by right|apply Hm].
Qed.

Lemma tell_inv k m : SubInv m -> SubInv (tell_graph k m).
Proof.
  intros [I1 I2 I3 I4 I5 I6]. unfold tell_graph. destruct (sb_tells m !! k) as [[i status]|] eqn:Ht; [|done].
  destruct (lookup_lt_is_Some_2 (sb_slots m) i) as [s Hs]; [by apply (Forall_lookup_1 _ _ _ _ I4 Ht)|].
  simpl. rewrite Hs. simpl. assert (Hl := length_delete _ _ (mk_is_Some _ _ Ht)). assert (Hlt := lookup_lt_Some _ _ _ Ht).
  split; simpl; try done.
  - intros j. unfold tally in *. rewrite !zsum_app, I2. simpl. lia.
  - unfold sub_count in *. rewrite !zsum_app. simpl. rewrite Hl. lia.
  - by apply Forall_delete.
Qed.

Lemma acquire_free m i : acquire_outstanding m = Some i -> exists s, sb_slots m !! i = Some s /\ os_state s = kOutstandingFree.
Proof.
  unfold acquire_outstanding. intros ([n j] & (_ & H & _)%list_find_Some & ->)%fmap_Some. apply fmap_Some in H as (s & Hs & Hst). by exists s.
Qed.

Lemma submit_begin_inv b phase frame requested m : SubInv m -> SubInv (submit_begin cfg natives b phase frame requested m).
Proof.
  intros Hm. unfold submit_begin. destruct (admit_submission _ _ _ _ _) as [|submission]; [done|].
  destruct (acquire_outstanding m) as [i|] eqn:Ha; [|by destruct Hm]. apply acquire_free in Ha as (s & Hs & Hst).
  destruct (take_batch_id _) as [id next]. rewrite Hs. cbn [from_option].
  assert (Hel := calls_elsewhere m i s Hm Hs ltac:(by intros [H|H]; rewrite Hst in H)).
  assert (H := update_inv i s (mkOutstanding kOutstandingSubmitting id frame b (u32 phase) (os_early_completion s))
    [se_native_submit b (set_submission_id id frame submission)] 0 (sb_stats m) (i :: sb_calls m) (sb_tells m) m Hm Hs).
  destruct H as [H1 H2 H3 H4 H5 H6]; try weights; [apply Hm| | |].
  - apply list.NoDup_cons. split; [|apply Hm]. intros Hin. by destruct (proj1 (list.Forall_forall _ _) Hel i Hin).
  - constructor; [left; split; [done|by left]|]. eapply Forall_impl; [exact Hel|]. intros j. by right.
  - split; try done. simpl in *. rewrite <- H1, (sv_count _ Hm), u64_add. by rewrite Z.add_0_r.
Qed.

Lemma submit_return_inv k answer m : SubInv m -> SubInv (submit_return k answer m).
Proof.
  intros Hm. unfold submit_return. destruct (sb_calls m !! k) as [i|] eqn:Hk; [|done]. simpl.
  destruct (proj1 (list.Forall_forall _ _) (sv_calls _ Hm) i (list_elem_of_lookup_2 _ _ _ Hk)) as (s & Hs & Hc). rewrite Hs.
  assert (Hn : NoDup (delete k (sb_calls m))) by (eapply sublist_NoDup; [apply (sv_distinct _ Hm)|apply sublist_delete]).
  assert (Hel : Forall (fun j => j <> i /\ j ∈ sb_calls m) (delete k (sb_calls m))).
  { apply list.Forall_forall. intros j (n & Hj)%list_elem_of_lookup. rewrite list_lookup_delete in Hj. 
    split; [|case_decide; by eapply list_elem_of_lookup_2]. intros ->. case_decide; apply (NoDup_lookup _ _ _ _ (sv_distinct _ Hm) Hk) in Hj; lia. }
  assert (Hup : forall v events delta stats, delta = ind (submitted v) - ind (submitted s) ->
    (forall k, tally submitted_id k events = tally reported_id k events + submitted_weight k v - submitted_weight k s) ->
    sub_count reported_id events = sub_count told_phase events ->
    SubInv (update_submissions i v events delta stats (set_calls (delete k (sb_calls m)) m))).
  { intros v events delta stats H1 H2 H3. refine (update_inv i s v events delta stats (delete k (sb_calls m)) (sb_tells m) m Hm Hs H1 H2 _ _ Hn _).
    - lia.
    - apply Hm.
    - eapply Forall_impl; [exact Hel|]. intros j. by right. }
  assert (Hst : os_state s <> kOutstandingSubmitted) by (by intros H; destruct Hc as [Hc|Hc]; rewrite H in Hc).
  case_decide; [|apply Hup; weights].
  destruct Hc as [Hc|Hc]; rewrite Hc; [apply Hup; weights|].
  assert (H1 := Hup (set_outstanding_state kOutstandingSubmitted s) [se_submitted (os_phase_index s) (os_submission_id s)] 1
    (count_submission (sb_stats m)) ltac:(weights) ltac:(weights) ltac:(weights)).
  assert (H2 := finalize_inv i (set_outstanding_state kOutstandingSubmitted s) (os_early_completion s) _ H1
    ltac:(apply list_lookup_insert_eq; by eapply lookup_lt_Some) eq_refl).
  destruct H2 as [G1 G2 G3 G4 G5 G6]. unfold finalize_completion, update_submissions in *. simpl in *.
  rewrite !list_insert_insert_eq in *. by split.
Qed.

Lemma submission_reached steps : SubInv (run_submissions cfg natives steps).
Proof.
  unfold run_submissions. assert (H : SubInv (create_submissions cfg)).
  { split; simpl; try done; try constructor.
    - rewrite (zsum_ext _ (fun _ => 0)), zsum_const; [done|]. intros x [-> _]%elem_of_replicate. done.
    - intros k. rewrite (zsum_ext _ (fun _ => 0)), zsum_const; [done|]. intros x [-> _]%elem_of_replicate. done. }
  revert H. generalize (create_submissions cfg). induction steps as [|l steps IH]; intros m Hm; simpl; [done|]. apply IH.
  destruct l; simpl; [by apply submit_begin_inv|by apply submit_return_inv|by apply process_completion_inv|by apply fail_backend_inv|by apply tell_inv].
Qed.

Lemma sub_count_length f log : sub_count f log = Z.of_nat (length (omap f log)).
Proof.
  induction log as [|e log IH]; [done|]. change (omap f (e :: log)) with (match f e with Some v => v :: omap f log | None => omap f log end).
  unfold sub_count in *. simpl. rewrite IH. destruct (f e); simpl; lia.
Qed.

(** C20. Single submissions, for every interleaving of calls of [submit] with the service thread and whatever the
    backend answers, also when a completion is polled before its submit call has returned: the count of
    outstanding submissions is the number of submitted slots; the submissions the backend accepted are exactly
    those reported complete together with those in a submitted slot, so each is reported once; and
    the executor is told as often as completions are reported, less those a thread is about to tell. *)
Theorem device_submission_accounting steps :
  let m := run_submissions cfg natives steps in
  sb_count m = u64 (Z.of_nat (length (filter (fun s => submitted s = true) (sb_slots m)))) /\
  omap submitted_id (sb_log m) ≡ₚ omap reported_id (sb_log m) ++ (os_submission_id <$> filter (fun s => submitted s = true) (sb_slots m)) /\
  length (omap reported_id (sb_log m)) = (length (omap told_phase (sb_log m)) + length (sb_tells m))%nat.
Proof.
  intros m. destruct (submission_reached steps) as [I1 I2 I3 _ _ _]. fold m in I1, I2, I3. split_and!.
  - rewrite I1. f_equal. rewrite <- zsum_length. apply zsum_ext. intros s _. destruct (submitted s); by case_decide.
  - by apply balance_lists.
  - rewrite !sub_count_length in I3. lia.
Qed.
End SubmissionInvariant.

Definition lane_submission : HalSubmission :=
  mkHalSubmission sizeof_hal_submission RTFW_DEVICE_ABI_VERSION 0 0 100 5 0 0 0 (replicate 128 0) (replicate 8 zero_reference) (replicate 4 0).

(** The completion of phase 3 frees its slot; phase 4 submits and takes it before the executor is told. *)
Definition stale_steps : list SubmissionStep :=
  [ss_submit 0 3 0 lane_submission; ss_return 0 (Some hal_ok); ss_process 0 (mkHalCompletion sizeof_hal_completion 0 1 0 0 (replicate 4 0));
   ss_submit 0 4 0 lane_submission; ss_return 0 (Some hal_ok); ss_tell 0].

(** C22. A completion can be delivered to the wrong graph phase: [finalize_completion] frees the slot and then reads from it the
    phase to complete.  In the run that is shown the backend completed the submission of phase 3 only, and the
    executor is told that phase 4 is complete, whose submission is still with the backend; phase 3 is not told. *)
Theorem device_submission_reuse : exists cfg natives steps,
  let m := run_submissions cfg natives steps in
  omap (fun e => match e with se_submitted p id => Some (p, id) | _ => None end) (sb_log m) = [(3, 1); (4, 2)] /\
  omap reported_id (sb_log m) = [1] /\ omap told_phase (sb_log m) = [4] /\ sb_tells m = [] /\
  (os_state <$> sb_slots m) = [kOutstandingSubmitted] /\ (os_submission_id <$> sb_slots m) = [2].
Proof. exists lane_config, [], stale_steps. vm_compute. by split_and!. Qed.
