(* ===== verification/LiveControlState.v ===== *)
(** * Live control: the state of the mailboxes (rt/src/live_control_mailbox.cpp)

    The records of include/rt/runtime.hpp that producers exchange with the runtime and
    the structures of [LiveControlMailboxSet::Impl], each with the assignments of single
    fields that the operations use.  The set always holds its [Impl], since [create] is
    its only constructor, so the tests for a null [impl_] have no counterpart. *)

From stdpp Require Import base list numbers.
From Stdlib Require Import ZArith Lia Bool.
From S2P Require Import Prelude CanonicalBytes SeqRing LiveControlActions.

Open Scope Z_scope.

(** ** Limits and public records *)

Definition live_control_schema_version : Z := 1.
Definition live_control_payload_canonical_little_endian : Z := 1.
Definition live_control_mailbox_capacity_limit : Z := 64.
Definition live_control_producer_capacity_limit : Z := 256.
Definition live_control_payload_bytes_limit : Z := 65536.
Definition live_control_payload_alignment_limit : Z := 4096.
Definition live_control_total_storage_limit : Z := 1073741824.
Definition live_control_lossless_replay_schema_version : Z := 2.
Definition live_control_retained_generation_capacity_limit : Z := 65536.
Definition live_control_replay_absolute_max_bytes : Z := 1073741824.

(** [sizeof] of the public records, which the header asserts. *)
Definition live_control_update_record_size : Z := 128.
Definition live_control_policy_size : Z := 56.
Definition live_control_mailbox_registration_size : Z := 40.
Definition live_control_producer_registration_size : Z := 40.
Definition live_control_closure_policy_size : Z := 72.
Definition live_control_retention_policy_size : Z := 48.

(** [LiveControlUpdateRecord]: one update as a producer submits it and as a slot keeps it. *)
Record LiveControlUpdateRecord := mkUpdate {
  lu_schema_version : Z;
  lu_record_size : Z;
  lu_mailbox_sequence : Z;
  lu_runtime_id : Z;
  lu_configuration_generation : Z;
  lu_mailbox_identity : Z;
  lu_producer_identity : Z;
  lu_producer_sequence : Z;
  lu_target_frame_index : Z;
  lu_rate_release_sequence : Z;
  lu_payload_digest : Z;
  lu_reference_release_index : Z;
  lu_rate_domain_registration_index : Z;
  lu_phase_index : Z;
  lu_rate_substep_ordinal : Z;
  lu_payload_bytes : Z;
  lu_payload_alignment : Z;
  lu_policy_flags : Z;
  lu_target_kind : Z;
  lu_update_kind : Z;
  lu_reserved : list Z;
}.

#[export] Instance LiveControlUpdateRecord_eq_dec : EqDecision LiveControlUpdateRecord.
Proof. solve_decision. Defined.

Definition set_lu_mailbox_sequence (v : Z) (r : LiveControlUpdateRecord) : LiveControlUpdateRecord :=
  mkUpdate (lu_schema_version r) (lu_record_size r) v (lu_runtime_id r) (lu_configuration_generation r) (lu_mailbox_identity r) (lu_producer_identity r) (lu_producer_sequence r) (lu_target_frame_index r) (lu_rate_release_sequence r) (lu_payload_digest r) (lu_reference_release_index r) (lu_rate_domain_registration_index r) (lu_phase_index r) (lu_rate_substep_ordinal r) (lu_payload_bytes r) (lu_payload_alignment r) (lu_policy_flags r) (lu_target_kind r) (lu_update_kind r) (lu_reserved r).

(** [LiveControlUpdateRecord{}] *)
Definition LiveControlUpdateRecord_default : LiveControlUpdateRecord :=
  mkUpdate live_control_schema_version live_control_update_record_size 0 0 0 0 0 0 0 u64_max 0
    u32_max u32_max u32_max u32_max 0 1 live_control_payload_canonical_little_endian
    target_host_frame update_scenario_parameters (replicate 18 0).

#[export] Instance LiveControlUpdateRecord_inhabited : Inhabited LiveControlUpdateRecord :=
  populate LiveControlUpdateRecord_default.

(** [LiveControlMailboxRegistration] *)
Record LiveControlMailboxRegistration := mkMailboxRegistration {
  mr_schema_version : Z;
  mr_struct_size : Z;
  mr_mailbox_identity : Z;
  mr_record_capacity : Z;
  mr_payload_bytes_per_record : Z;
  mr_reserved : list Z;
}.

#[export] Instance LiveControlMailboxRegistration_eq_dec : EqDecision LiveControlMailboxRegistration.
Proof. solve_decision. Defined.

(** [LiveControlProducerRegistration] *)
Record LiveControlProducerRegistration := mkProducerRegistration {
  pg_schema_version : Z;
  pg_struct_size : Z;
  pg_mailbox_identity : Z;
  pg_producer_identity : Z;
  pg_first_sequence : Z;
  pg_reserved : Z;
}.

#[export] Instance LiveControlProducerRegistration_eq_dec : EqDecision LiveControlProducerRegistration.
Proof. solve_decision. Defined.

(** [LiveControlProducerHandle] *)
Record LiveControlProducerHandle := mkProducerHandle {
  ph_runtime_id : Z;
  ph_configuration_generation : Z;
  ph_mailbox_identity : Z;
  ph_producer_identity : Z;
  ph_producer_index : Z;
  ph_reserved : Z;
}.

#[export] Instance LiveControlProducerHandle_eq_dec : EqDecision LiveControlProducerHandle.
Proof. solve_decision. Defined.

Definition LiveControlProducerHandle_valid (h : LiveControlProducerHandle) : bool :=
  negb (ph_runtime_id h =? 0) && negb (ph_configuration_generation h =? 0) &&
  negb (ph_mailbox_identity h =? 0) && negb (ph_producer_identity h =? 0) &&
  negb (ph_producer_index h =? u32_max) && (ph_reserved h =? 0).

(** [LiveControlPolicy] *)
Record LiveControlPolicy := mkLivePolicy {
  lo_schema_version : Z;
  lo_struct_size : Z;
  lo_policy_identity : Z;
  lo_mailbox_capacity : Z;
  lo_producer_capacity : Z;
  lo_record_capacity : Z;
  lo_payload_bytes_per_record : Z;
  lo_total_payload_storage_bytes : Z;
  lo_admission_policy : Z;
  lo_reset_rule : Z;
  lo_reserved : list Z;
}.

#[export] Instance LiveControlPolicy_eq_dec : EqDecision LiveControlPolicy.
Proof. solve_decision. Defined.

(** [LiveControlClosurePolicy] *)
Record LiveControlClosurePolicy := mkClosurePolicy {
  cp_schema_version : Z;
  cp_struct_size : Z;
  cp_policy_identity : Z;
  cp_action_capacity : Z;
  cp_retained_generation_capacity : Z;
  cp_retained_record_capacity : Z;
  cp_retained_payload_bytes : Z;
  cp_replay_record_capacity : Z;
  cp_replay_max_bytes : Z;
  cp_rollback_rule : Z;
  cp_replay_enabled : bool;
  cp_reserved : list Z;
}.

#[export] Instance LiveControlClosurePolicy_eq_dec : EqDecision LiveControlClosurePolicy.
Proof. solve_decision. Defined.

(** [LiveControlReplayRetentionPolicy] *)
Record LiveControlReplayRetentionPolicy := mkRetentionPolicy {
  rp_schema_version : Z;
  rp_struct_size : Z;
  rp_policy_identity : Z;
  rp_admission_capacity : Z;
  rp_payload_capacity_bytes : Z;
  rp_reserved : list Z;
}.

#[export] Instance LiveControlReplayRetentionPolicy_eq_dec : EqDecision LiveControlReplayRetentionPolicy.
Proof. solve_decision. Defined.

(** [LiveControlAdmissionResult] *)
Inductive LiveControlAdmissionResult : Set :=
| adm_accepted
| adm_invalid
| adm_full
| adm_busy
| adm_stale
| adm_stopped
| adm_exhausted
| adm_missed.

#[export] Instance LiveControlAdmissionResult_eq_dec : EqDecision LiveControlAdmissionResult.
Proof. solve_decision. Defined.

(** The byte an action record carries. *)
Definition admission_code (result : LiveControlAdmissionResult) : Z :=
  match result with
  | adm_accepted => admitted_accepted
  | adm_invalid => admitted_invalid
  | adm_full => admitted_full
  | adm_busy => admitted_busy
  | adm_stale => admitted_stale
  | adm_stopped => admitted_stopped
  | adm_exhausted => admitted_exhausted
  | adm_missed => admitted_missed
  end.

(** ** Internal state ([LiveControlMailboxSet::Impl]) *)

Inductive SlotState : Set :=
| slot_free
| slot_writing
| slot_staged
| slot_boundary_owned
| slot_committed
| slot_replaced
| slot_missed
| slot_stopped
| slot_rolled_back.

#[export] Instance SlotState_eq_dec : EqDecision SlotState.
Proof. solve_decision. Defined.

(** [Impl::RateTarget]: one reference release of the timeline and whether its boundary has passed. *)
Record RateTarget := mkRateTarget {
  rt_release_time_ns : Z;
  rt_release_sequence : Z;
  rt_domain_registration_index : Z;
  rt_phase_index : Z;
  rt_substep_ordinal : Z;
  rt_closed : bool;
}.

#[export] Instance RateTarget_eq_dec : EqDecision RateTarget.
Proof. solve_decision. Defined.

Definition set_rt_closed (v : bool) (t : RateTarget) : RateTarget :=
  mkRateTarget (rt_release_time_ns t) (rt_release_sequence t) (rt_domain_registration_index t) (rt_phase_index t) (rt_substep_ordinal t) v.

(** [Impl::Slot] *)
Record ControlSlot := mkControlSlot {
  cs_state : SlotState;
  cs_terminal_generation : Z;
  cs_record : LiveControlUpdateRecord;
}.

#[export] Instance ControlSlot_eq_dec : EqDecision ControlSlot.
Proof. solve_decision. Defined.

Definition set_cs_state (v : SlotState) (s : ControlSlot) : ControlSlot :=
  mkControlSlot v (cs_terminal_generation s) (cs_record s).

Definition set_cs_terminal_generation (v : Z) (s : ControlSlot) : ControlSlot :=
  mkControlSlot (cs_state s) v (cs_record s).

Definition set_cs_record (v : LiveControlUpdateRecord) (s : ControlSlot) : ControlSlot :=
  mkControlSlot (cs_state s) (cs_terminal_generation s) v.

Definition empty_control_slot : ControlSlot :=
  mkControlSlot slot_free 0 LiveControlUpdateRecord_default.

#[export] Instance ControlSlot_inhabited : Inhabited ControlSlot := populate empty_control_slot.

(** [Impl::Mailbox]: a fixed array of slots, the payload bytes of every slot, and the statistics. *)
Record Mailbox := mkMailbox {
  mb_registration : LiveControlMailboxRegistration;
  mb_producer_count : Z;
  mb_reservation : bool;
  mb_reclaiming : bool;
  mb_inspection_readers : Z;
  mb_slots : list ControlSlot;
  mb_payload_storage : list Z;
  mb_next_sequence : Z;
  mb_occupancy : Z;
  mb_accepted : Z;
  mb_invalid : Z;
  mb_full : Z;
  mb_busy : Z;
  mb_stale : Z;
  mb_stopped : Z;
  mb_exhausted : Z;
  mb_missed : Z;
}.

#[export] Instance Mailbox_eq_dec : EqDecision Mailbox.
Proof. solve_decision. Defined.

Definition set_mb_producer_count (v : Z) (m : Mailbox) : Mailbox :=
  mkMailbox (mb_registration m) v (mb_reservation m) (mb_reclaiming m) (mb_inspection_readers m) (mb_slots m) (mb_payload_storage m) (mb_next_sequence m) (mb_occupancy m) (mb_accepted m) (mb_invalid m) (mb_full m) (mb_busy m) (mb_stale m) (mb_stopped m) (mb_exhausted m) (mb_missed m).

Definition set_mb_reservation (v : bool) (m : Mailbox) : Mailbox :=
  mkMailbox (mb_registration m) (mb_producer_count m) v (mb_reclaiming m) (mb_inspection_readers m) (mb_slots m) (mb_payload_storage m) (mb_next_sequence m) (mb_occupancy m) (mb_accepted m) (mb_invalid m) (mb_full m) (mb_busy m) (mb_stale m) (mb_stopped m) (mb_exhausted m) (mb_missed m).

Definition set_mb_slots (v : list ControlSlot) (m : Mailbox) : Mailbox :=
  mkMailbox (mb_registration m) (mb_producer_count m) (mb_reservation m) (mb_reclaiming m) (mb_inspection_readers m) v (mb_payload_storage m) (mb_next_sequence m) (mb_occupancy m) (mb_accepted m) (mb_invalid m) (mb_full m) (mb_busy m) (mb_stale m) (mb_stopped m) (mb_exhausted m) (mb_missed m).

Definition set_mb_payload_storage (v : list Z) (m : Mailbox) : Mailbox :=
  mkMailbox (mb_registration m) (mb_producer_count m) (mb_reservation m) (mb_reclaiming m) (mb_inspection_readers m) (mb_slots m) v (mb_next_sequence m) (mb_occupancy m) (mb_accepted m) (mb_invalid m) (mb_full m) (mb_busy m) (mb_stale m) (mb_stopped m) (mb_exhausted m) (mb_missed m).

Definition set_mb_next_sequence (v : Z) (m : Mailbox) : Mailbox :=
  mkMailbox (mb_registration m) (mb_producer_count m) (mb_reservation m) (mb_reclaiming m) (mb_inspection_readers m) (mb_slots m) (mb_payload_storage m) v (mb_occupancy m) (mb_accepted m) (mb_invalid m) (mb_full m) (mb_busy m) (mb_stale m) (mb_stopped m) (mb_exhausted m) (mb_missed m).

Definition set_mb_occupancy (v : Z) (m : Mailbox) : Mailbox :=
  mkMailbox (mb_registration m) (mb_producer_count m) (mb_reservation m) (mb_reclaiming m) (mb_inspection_readers m) (mb_slots m) (mb_payload_storage m) (mb_next_sequence m) v (mb_accepted m) (mb_invalid m) (mb_full m) (mb_busy m) (mb_stale m) (mb_stopped m) (mb_exhausted m) (mb_missed m).

Definition set_mb_accepted (v : Z) (m : Mailbox) : Mailbox :=
  mkMailbox (mb_registration m) (mb_producer_count m) (mb_reservation m) (mb_reclaiming m) (mb_inspection_readers m) (mb_slots m) (mb_payload_storage m) (mb_next_sequence m) (mb_occupancy m) v (mb_invalid m) (mb_full m) (mb_busy m) (mb_stale m) (mb_stopped m) (mb_exhausted m) (mb_missed m).

Definition set_mb_invalid (v : Z) (m : Mailbox) : Mailbox :=
  mkMailbox (mb_registration m) (mb_producer_count m) (mb_reservation m) (mb_reclaiming m) (mb_inspection_readers m) (mb_slots m) (mb_payload_storage m) (mb_next_sequence m) (mb_occupancy m) (mb_accepted m) v (mb_full m) (mb_busy m) (mb_stale m) (mb_stopped m) (mb_exhausted m) (mb_missed m).

Definition set_mb_full (v : Z) (m : Mailbox) : Mailbox :=
  mkMailbox (mb_registration m) (mb_producer_count m) (mb_reservation m) (mb_reclaiming m) (mb_inspection_readers m) (mb_slots m) (mb_payload_storage m) (mb_next_sequence m) (mb_occupancy m) (mb_accepted m) (mb_invalid m) v (mb_busy m) (mb_stale m) (mb_stopped m) (mb_exhausted m) (mb_missed m).

Definition set_mb_busy (v : Z) (m : Mailbox) : Mailbox :=
  mkMailbox (mb_registration m) (mb_producer_count m) (mb_reservation m) (mb_reclaiming m) (mb_inspection_readers m) (mb_slots m) (mb_payload_storage m) (mb_next_sequence m) (mb_occupancy m) (mb_accepted m) (mb_invalid m) (mb_full m) v (mb_stale m) (mb_stopped m) (mb_exhausted m) (mb_missed m).

Definition set_mb_stale (v : Z) (m : Mailbox) : Mailbox :=
  mkMailbox (mb_registration m) (mb_producer_count m) (mb_reservation m) (mb_reclaiming m) (mb_inspection_readers m) (mb_slots m) (mb_payload_storage m) (mb_next_sequence m) (mb_occupancy m) (mb_accepted m) (mb_invalid m) (mb_full m) (mb_busy m) v (mb_stopped m) (mb_exhausted m) (mb_missed m).

Definition set_mb_stopped (v : Z) (m : Mailbox) : Mailbox :=
  mkMailbox (mb_registration m) (mb_producer_count m) (mb_reservation m) (mb_reclaiming m) (mb_inspection_readers m) (mb_slots m) (mb_payload_storage m) (mb_next_sequence m) (mb_occupancy m) (mb_accepted m) (mb_invalid m) (mb_full m) (mb_busy m) (mb_stale m) v (mb_exhausted m) (mb_missed m).

Definition set_mb_exhausted (v : Z) (m : Mailbox) : Mailbox :=
  mkMailbox (mb_registration m) (mb_producer_count m) (mb_reservation m) (mb_reclaiming m) (mb_inspection_readers m) (mb_slots m) (mb_payload_storage m) (mb_next_sequence m) (mb_occupancy m) (mb_accepted m) (mb_invalid m) (mb_full m) (mb_busy m) (mb_stale m) (mb_stopped m) v (mb_missed m).

Definition set_mb_missed (v : Z) (m : Mailbox) : Mailbox :=
  mkMailbox (mb_registration m) (mb_producer_count m) (mb_reservation m) (mb_reclaiming m) (mb_inspection_readers m) (mb_slots m) (mb_payload_storage m) (mb_next_sequence m) (mb_occupancy m) (mb_accepted m) (mb_invalid m) (mb_full m) (mb_busy m) (mb_stale m) (mb_stopped m) (mb_exhausted m) v.

(** [Impl::Producer] *)
Record Producer := mkProducer {
  pd_mailbox_identity : Z;
  pd_producer_identity : Z;
  pd_mailbox_index : nat;
  pd_first_sequence : Z;
  pd_next_sequence : Z;
}.

#[export] Instance Producer_eq_dec : EqDecision Producer.
Proof. solve_decision. Defined.

Definition set_pd_next_sequence (v : Z) (p : Producer) : Producer :=
  mkProducer (pd_mailbox_identity p) (pd_producer_identity p) (pd_mailbox_index p) (pd_first_sequence p) v.

(** [Impl::Candidate] *)
Record Candidate := mkCandidate {
  cd_mailbox_index : nat;
  cd_slot_index : nat;
  cd_mailbox_identity : Z;
  cd_mailbox_sequence : Z;
  cd_survivor : bool;
}.

#[export] Instance Candidate_eq_dec : EqDecision Candidate.
Proof. solve_decision. Defined.

Definition set_cd_survivor (v : bool) (c : Candidate) : Candidate :=
  mkCandidate (cd_mailbox_index c) (cd_slot_index c) (cd_mailbox_identity c) (cd_mailbox_sequence c) v.

(** [LiveControlRecordView]: a record and the span of its bytes, as offset and size in the payload buffer
    of the generation that holds the view. *)
Record LiveControlRecordView := mkRecordView {
  rv_record : LiveControlUpdateRecord;
  rv_payload_offset : nat;
  rv_payload_size : nat;
}.

#[export] Instance LiveControlRecordView_eq_dec : EqDecision LiveControlRecordView.
Proof. solve_decision. Defined.

(** [LiveControlGenerationView]; its span covers the first [gv_record_count] entries of the record array of
    the generation that holds the view. *)
Record LiveControlGenerationView := mkGenerationView {
  gv_runtime_id : Z;
  gv_configuration_generation : Z;
  gv_generation_identity : Z;
  gv_target : LiveControlBoundaryTarget;
  gv_record_count : nat;
}.

#[export] Instance LiveControlGenerationView_eq_dec : EqDecision LiveControlGenerationView.
Proof. solve_decision. Defined.

(** [Impl::Generation] *)
Record Generation := mkGeneration {
  gn_records : list LiveControlRecordView;
  gn_payloads : list Z;
  gn_view : LiveControlGenerationView;
}.

#[export] Instance Generation_eq_dec : EqDecision Generation.
Proof. solve_decision. Defined.

Definition set_gn_view (v : LiveControlGenerationView) (g : Generation) : Generation :=
  mkGeneration (gn_records g) (gn_payloads g) v.

(** [LiveControlGenerationView{}] *)
Definition LiveControlGenerationView_default : LiveControlGenerationView :=
  mkGenerationView 0 0 0 LiveControlBoundaryTarget_default 0.

Definition LiveControlRecordView_default : LiveControlRecordView :=
  mkRecordView LiveControlUpdateRecord_default 0 0.

Definition empty_generation (records payload_bytes : nat) : Generation :=
  mkGeneration (replicate records LiveControlRecordView_default) (replicate payload_bytes 0)
    LiveControlGenerationView_default.

#[export] Instance Generation_inhabited : Inhabited Generation := populate (empty_generation 0 0).

(** [Impl::ProvisionalRecord] *)
Record ProvisionalRecord := mkProvisional {
  pv_mailbox_index : nat;
  pv_slot_index : nat;
  pv_generation_identity : Z;
  pv_prior_generation_identity : Z;
  pv_survivor : bool;
}.

#[export] Instance ProvisionalRecord_eq_dec : EqDecision ProvisionalRecord.
Proof. solve_decision. Defined.

(** [Impl::RetainedRecord] *)
Record RetainedRecord := mkRetainedRecord {
  tr_record : LiveControlUpdateRecord;
  tr_payload_offset : nat;
}.

#[export] Instance RetainedRecord_eq_dec : EqDecision RetainedRecord.
Proof. solve_decision. Defined.

(** [Impl::RetainedGeneration] *)
Record RetainedGeneration := mkRetainedGeneration {
  tg_target : LiveControlBoundaryTarget;
  tg_generation_identity : Z;
  tg_prior_generation_identity : Z;
  tg_first_action_sequence : Z;
  tg_first_record_index : nat;
  tg_first_payload_offset : nat;
  tg_record_count : nat;
  tg_payload_bytes : nat;
  tg_terminal_status : Status;
  tg_settled : bool;
}.

#[export] Instance RetainedGeneration_eq_dec : EqDecision RetainedGeneration.
Proof. solve_decision. Defined.

(** [terminal_status = status; settled = true] *)
Definition settle_retained (status : Status) (g : RetainedGeneration) : RetainedGeneration :=
  mkRetainedGeneration (tg_target g) (tg_generation_identity g) (tg_prior_generation_identity g)
    (tg_first_action_sequence g) (tg_first_record_index g) (tg_first_payload_offset g) (tg_record_count g)
    (tg_payload_bytes g) status true.

(** [LiveControlRetainedAdmission] (rt/src/live_control_replay.hpp) *)
Record LiveControlRetainedAdmission := mkRetainedAdmission {
  ra_record : LiveControlUpdateRecord;
  ra_action_sequence : Z;
  ra_mailbox_identity : Z;
  ra_producer_identity : Z;
  ra_payload_offset : Z;
  ra_slot_index : option nat;
  ra_outcome : LiveControlAdmissionResult;
  ra_counter_changed : bool;
}.

#[export] Instance LiveControlRetainedAdmission_eq_dec : EqDecision LiveControlRetainedAdmission.
Proof. solve_decision. Defined.

Definition LiveControlRetainedAdmission_default : LiveControlRetainedAdmission :=
  mkRetainedAdmission LiveControlUpdateRecord_default 0 0 0 0 None adm_invalid false.

(** [Impl::LosslessRetention] *)
Record LosslessRetention := mkLossless {
  jr_policy : LiveControlReplayRetentionPolicy;
  jr_admissions : list LiveControlRetainedAdmission;
  jr_payloads : list Z;
  jr_active_admissions : Z;
  jr_admission_count : Z;
  jr_payload_count : Z;
  jr_admission_close_sequence : Z;
}.

#[export] Instance LosslessRetention_eq_dec : EqDecision LosslessRetention.
Proof. solve_decision. Defined.

Definition set_jr_admission_close_sequence (v : Z) (j : LosslessRetention) : LosslessRetention :=
  mkLossless (jr_policy j) (jr_admissions j) (jr_payloads j) (jr_active_admissions j) (jr_admission_count j) (jr_payload_count j) v.

(** [Impl::Closure].  The arrays that only ever grow from the front are kept as the list of the entries
    in use, so that their count is the length of the list. *)
Record Closure := mkClosure {
  cl_policy : LiveControlClosurePolicy;
  cl_lossless : option LosslessRetention;
  cl_actions : Ring;
  cl_rollback_generation : Generation;
  cl_provisional_records : list ProvisionalRecord;
  cl_retained_generations : list RetainedGeneration;
  cl_retained_records : list RetainedRecord;
  cl_retained_payloads : list Z;
  cl_transaction_retained_begin : nat;
  cl_transaction_active : bool;
  cl_host_claim : bool;
  cl_rollback_has_generation : bool;
  cl_prior_generation_identity : Z;
  cl_prior_target : LiveControlBoundaryTarget;
  cl_prior_survivor_count : Z;
  cl_replay_eligible : bool;
}.

Definition set_cl_lossless (v : option LosslessRetention) (c : Closure) : Closure :=
  mkClosure (cl_policy c) v (cl_actions c) (cl_rollback_generation c) (cl_provisional_records c) (cl_retained_generations c) (cl_retained_records c) (cl_retained_payloads c) (cl_transaction_retained_begin c) (cl_transaction_active c) (cl_host_claim c) (cl_rollback_has_generation c) (cl_prior_generation_identity c) (cl_prior_target c) (cl_prior_survivor_count c) (cl_replay_eligible c).

Definition set_cl_actions (v : Ring) (c : Closure) : Closure :=
  mkClosure (cl_policy c) (cl_lossless c) v (cl_rollback_generation c) (cl_provisional_records c) (cl_retained_generations c) (cl_retained_records c) (cl_retained_payloads c) (cl_transaction_retained_begin c) (cl_transaction_active c) (cl_host_claim c) (cl_rollback_has_generation c) (cl_prior_generation_identity c) (cl_prior_target c) (cl_prior_survivor_count c) (cl_replay_eligible c).

Definition set_cl_provisional_records (v : list ProvisionalRecord) (c : Closure) : Closure :=
  mkClosure (cl_policy c) (cl_lossless c) (cl_actions c) (cl_rollback_generation c) v (cl_retained_generations c) (cl_retained_records c) (cl_retained_payloads c) (cl_transaction_retained_begin c) (cl_transaction_active c) (cl_host_claim c) (cl_rollback_has_generation c) (cl_prior_generation_identity c) (cl_prior_target c) (cl_prior_survivor_count c) (cl_replay_eligible c).

Definition set_cl_retained_generations (v : list RetainedGeneration) (c : Closure) : Closure :=
  mkClosure (cl_policy c) (cl_lossless c) (cl_actions c) (cl_rollback_generation c) (cl_provisional_records c) v (cl_retained_records c) (cl_retained_payloads c) (cl_transaction_retained_begin c) (cl_transaction_active c) (cl_host_claim c) (cl_rollback_has_generation c) (cl_prior_generation_identity c) (cl_prior_target c) (cl_prior_survivor_count c) (cl_replay_eligible c).

Definition set_cl_transaction_active (v : bool) (c : Closure) : Closure :=
  mkClosure (cl_policy c) (cl_lossless c) (cl_actions c) (cl_rollback_generation c) (cl_provisional_records c) (cl_retained_generations c) (cl_retained_records c) (cl_retained_payloads c) (cl_transaction_retained_begin c) v (cl_host_claim c) (cl_rollback_has_generation c) (cl_prior_generation_identity c) (cl_prior_target c) (cl_prior_survivor_count c) (cl_replay_eligible c).

Definition set_cl_host_claim (v : bool) (c : Closure) : Closure :=
  mkClosure (cl_policy c) (cl_lossless c) (cl_actions c) (cl_rollback_generation c) (cl_provisional_records c) (cl_retained_generations c) (cl_retained_records c) (cl_retained_payloads c) (cl_transaction_retained_begin c) (cl_transaction_active c) v (cl_rollback_has_generation c) (cl_prior_generation_identity c) (cl_prior_target c) (cl_prior_survivor_count c) (cl_replay_eligible c).

Definition set_cl_replay_eligible (v : bool) (c : Closure) : Closure :=
  mkClosure (cl_policy c) (cl_lossless c) (cl_actions c) (cl_rollback_generation c) (cl_provisional_records c) (cl_retained_generations c) (cl_retained_records c) (cl_retained_payloads c) (cl_transaction_retained_begin c) (cl_transaction_active c) (cl_host_claim c) (cl_rollback_has_generation c) (cl_prior_generation_identity c) (cl_prior_target c) (cl_prior_survivor_count c) v.

(** [LiveControlMailboxSet::Impl].  The seven atomics that describe the target of the latest boundary are
    the fields of [im_latest_target]. *)
Record Impl := mkImpl {
  im_policy : LiveControlPolicy;
  im_runtime_id : Z;
  im_configuration_generation : Z;
  im_admission_open : bool;
  im_mailboxes : list Mailbox;
  im_producers : list Producer;
  im_rate_targets : list RateTarget;
  im_generations : list Generation;
  im_active_generation : nat;
  im_has_generation : bool;
  im_host_boundary_started : bool;
  im_last_host_boundary : Z;
  im_committed : Z;
  im_replaced : Z;
  im_missed : Z;
  im_stopped : Z;
  im_inspection_version : Z;
  im_latest_generation_identity : Z;
  im_latest_target : LiveControlBoundaryTarget;
  im_latest_survivor_count : Z;
  im_closure : option Closure;
  im_total_payload_storage_bytes : nat;
}.

Definition set_im_admission_open (v : bool) (i : Impl) : Impl :=
  mkImpl (im_policy i) (im_runtime_id i) (im_configuration_generation i) v (im_mailboxes i) (im_producers i) (im_rate_targets i) (im_generations i) (im_active_generation i) (im_has_generation i) (im_host_boundary_started i) (im_last_host_boundary i) (im_committed i) (im_replaced i) (im_missed i) (im_stopped i) (im_inspection_version i) (im_latest_generation_identity i) (im_latest_target i) (im_latest_survivor_count i) (im_closure i) (im_total_payload_storage_bytes i).

Definition set_im_mailboxes (v : list Mailbox) (i : Impl) : Impl :=
  mkImpl (im_policy i) (im_runtime_id i) (im_configuration_generation i) (im_admission_open i) v (im_producers i) (im_rate_targets i) (im_generations i) (im_active_generation i) (im_has_generation i) (im_host_boundary_started i) (im_last_host_boundary i) (im_committed i) (im_replaced i) (im_missed i) (im_stopped i) (im_inspection_version i) (im_latest_generation_identity i) (im_latest_target i) (im_latest_survivor_count i) (im_closure i) (im_total_payload_storage_bytes i).

Definition set_im_producers (v : list Producer) (i : Impl) : Impl :=
  mkImpl (im_policy i) (im_runtime_id i) (im_configuration_generation i) (im_admission_open i) (im_mailboxes i) v (im_rate_targets i) (im_generations i) (im_active_generation i) (im_has_generation i) (im_host_boundary_started i) (im_last_host_boundary i) (im_committed i) (im_replaced i) (im_missed i) (im_stopped i) (im_inspection_version i) (im_latest_generation_identity i) (im_latest_target i) (im_latest_survivor_count i) (im_closure i) (im_total_payload_storage_bytes i).

Definition set_im_rate_targets (v : list RateTarget) (i : Impl) : Impl :=
  mkImpl (im_policy i) (im_runtime_id i) (im_configuration_generation i) (im_admission_open i) (im_mailboxes i) (im_producers i) v (im_generations i) (im_active_generation i) (im_has_generation i) (im_host_boundary_started i) (im_last_host_boundary i) (im_committed i) (im_replaced i) (im_missed i) (im_stopped i) (im_inspection_version i) (im_latest_generation_identity i) (im_latest_target i) (im_latest_survivor_count i) (im_closure i) (im_total_payload_storage_bytes i).

Definition set_im_committed (v : Z) (i : Impl) : Impl :=
  mkImpl (im_policy i) (im_runtime_id i) (im_configuration_generation i) (im_admission_open i) (im_mailboxes i) (im_producers i) (im_rate_targets i) (im_generations i) (im_active_generation i) (im_has_generation i) (im_host_boundary_started i) (im_last_host_boundary i) v (im_replaced i) (im_missed i) (im_stopped i) (im_inspection_version i) (im_latest_generation_identity i) (im_latest_target i) (im_latest_survivor_count i) (im_closure i) (im_total_payload_storage_bytes i).

Definition set_im_replaced (v : Z) (i : Impl) : Impl :=
  mkImpl (im_policy i) (im_runtime_id i) (im_configuration_generation i) (im_admission_open i) (im_mailboxes i) (im_producers i) (im_rate_targets i) (im_generations i) (im_active_generation i) (im_has_generation i) (im_host_boundary_started i) (im_last_host_boundary i) (im_committed i) v (im_missed i) (im_stopped i) (im_inspection_version i) (im_latest_generation_identity i) (im_latest_target i) (im_latest_survivor_count i) (im_closure i) (im_total_payload_storage_bytes i).

Definition set_im_missed (v : Z) (i : Impl) : Impl :=
  mkImpl (im_policy i) (im_runtime_id i) (im_configuration_generation i) (im_admission_open i) (im_mailboxes i) (im_producers i) (im_rate_targets i) (im_generations i) (im_active_generation i) (im_has_generation i) (im_host_boundary_started i) (im_last_host_boundary i) (im_committed i) (im_replaced i) v (im_stopped i) (im_inspection_version i) (im_latest_generation_identity i) (im_latest_target i) (im_latest_survivor_count i) (im_closure i) (im_total_payload_storage_bytes i).

Definition set_im_stopped (v : Z) (i : Impl) : Impl :=
  mkImpl (im_policy i) (im_runtime_id i) (im_configuration_generation i) (im_admission_open i) (im_mailboxes i) (im_producers i) (im_rate_targets i) (im_generations i) (im_active_generation i) (im_has_generation i) (im_host_boundary_started i) (im_last_host_boundary i) (im_committed i) (im_replaced i) (im_missed i) v (im_inspection_version i) (im_latest_generation_identity i) (im_latest_target i) (im_latest_survivor_count i) (im_closure i) (im_total_payload_storage_bytes i).

Definition set_im_inspection_version (v : Z) (i : Impl) : Impl :=
  mkImpl (im_policy i) (im_runtime_id i) (im_configuration_generation i) (im_admission_open i) (im_mailboxes i) (im_producers i) (im_rate_targets i) (im_generations i) (im_active_generation i) (im_has_generation i) (im_host_boundary_started i) (im_last_host_boundary i) (im_committed i) (im_replaced i) (im_missed i) (im_stopped i) v (im_latest_generation_identity i) (im_latest_target i) (im_latest_survivor_count i) (im_closure i) (im_total_payload_storage_bytes i).

Definition set_im_closure (v : option Closure) (i : Impl) : Impl :=
  mkImpl (im_policy i) (im_runtime_id i) (im_configuration_generation i) (im_admission_open i) (im_mailboxes i) (im_producers i) (im_rate_targets i) (im_generations i) (im_active_generation i) (im_has_generation i) (im_host_boundary_started i) (im_last_host_boundary i) (im_committed i) (im_replaced i) (im_missed i) (im_stopped i) (im_inspection_version i) (im_latest_generation_identity i) (im_latest_target i) (im_latest_survivor_count i) v (im_total_payload_storage_bytes i).

(** The stores to the [latest_*] atomics. *)
Definition set_latest (identity : Z) (target : LiveControlBoundaryTarget) (survivors : Z) (i : Impl) : Impl :=
  mkImpl (im_policy i) (im_runtime_id i) (im_configuration_generation i) (im_admission_open i) (im_mailboxes i)
    (im_producers i) (im_rate_targets i) (im_generations i) (im_active_generation i) (im_has_generation i)
    (im_host_boundary_started i) (im_last_host_boundary i) (im_committed i) (im_replaced i) (im_missed i)
    (im_stopped i) (im_inspection_version i) identity target survivors (im_closure i)
    (im_total_payload_storage_bytes i).

(** The stores that make entry [index] of [generations], rewritten as [g], the active one. *)
Definition set_active_generation (index : nat) (g : Generation) (i : Impl) : Impl :=
  mkImpl (im_policy i) (im_runtime_id i) (im_configuration_generation i) (im_admission_open i) (im_mailboxes i)
    (im_producers i) (im_rate_targets i) (<[index := g]> (im_generations i)) index true (im_host_boundary_started i)
    (im_last_host_boundary i) (im_committed i) (im_replaced i) (im_missed i) (im_stopped i) (im_inspection_version
    i) (im_latest_generation_identity i) (im_latest_target i) (im_latest_survivor_count i) (im_closure i)
    (im_total_payload_storage_bytes i).

(** [has_generation.store(false)] *)
Definition clear_has_generation  (i : Impl) : Impl :=
  mkImpl (im_policy i) (im_runtime_id i) (im_configuration_generation i) (im_admission_open i) (im_mailboxes i)
    (im_producers i) (im_rate_targets i) (im_generations i) (im_active_generation i) false (im_host_boundary_started
    i) (im_last_host_boundary i) (im_committed i) (im_replaced i) (im_missed i) (im_stopped i)
    (im_inspection_version i) (im_latest_generation_identity i) (im_latest_target i) (im_latest_survivor_count i)
    (im_closure i) (im_total_payload_storage_bytes i).

(** [last_host_boundary.store(frame_index); host_boundary_started.store(true)] *)
Definition set_host_boundary (frame_index : Z) (i : Impl) : Impl :=
  mkImpl (im_policy i) (im_runtime_id i) (im_configuration_generation i) (im_admission_open i) (im_mailboxes i)
    (im_producers i) (im_rate_targets i) (im_generations i) (im_active_generation i) (im_has_generation i) true
    frame_index (im_committed i) (im_replaced i) (im_missed i) (im_stopped i) (im_inspection_version i)
    (im_latest_generation_identity i) (im_latest_target i) (im_latest_survivor_count i) (im_closure i)
    (im_total_payload_storage_bytes i).

(** The arrays of the retention journal. *)
Definition set_retained (generations : list RetainedGeneration) (records : list RetainedRecord) (payloads : list Z) (c : Closure) : Closure :=
  mkClosure (cl_policy c) (cl_lossless c) (cl_actions c) (cl_rollback_generation c) (cl_provisional_records c)
    generations records payloads (cl_transaction_retained_begin c) (cl_transaction_active c) (cl_host_claim c)
    (cl_rollback_has_generation c) (cl_prior_generation_identity c) (cl_prior_target c) (cl_prior_survivor_count c)
    (cl_replay_eligible c).

(** The stores of [begin_step_transaction]. *)
Definition open_transaction (rollback : Generation) (has : bool) (prior_identity : Z) (prior_target : LiveControlBoundaryTarget) (prior_survivors : Z) (c : Closure) : Closure :=
  mkClosure (cl_policy c) (cl_lossless c) (cl_actions c) rollback [] (cl_retained_generations c)
    (cl_retained_records c) (cl_retained_payloads c) (length (cl_retained_generations c)) true (cl_host_claim c) has
    prior_identity prior_target prior_survivors (cl_replay_eligible c).

(** The stores of [retain_admission] to the journal. *)
Definition set_journal (admissions : list LiveControlRetainedAdmission) (payloads : list Z) (admission_count payload_count : Z) (j : LosslessRetention) : LosslessRetention :=
  mkLossless (jr_policy j) admissions payloads (jr_active_admissions j) admission_count payload_count
    (jr_admission_close_sequence j).

Definition empty_mailbox : Mailbox :=
  mkMailbox (mkMailboxRegistration 0 0 0 0 0 []) 0 false false 0 [] [] 1 0 0 0 0 0 0 0 0 0.

#[export] Instance Mailbox_inhabited : Inhabited Mailbox := populate empty_mailbox.

(** ** Status values and action records *)

(** [static_cast<std::int32_t>(status)] *)
Definition status_code (status : Status) : Z :=
  match status with
  | ok => 0
  | invalid_argument => -1
  | invalid_state => -2
  | invalid_config => -3
  | capacity_exceeded => -4
  | callback_failed => -5
  | resource_exhausted => -6
  | internal_error => -7
  | invalid_handle => -8
  | graph_cycle => -9
  | resource_conflict => -10
  | queue_full => -11
  | scratch_exhausted => -12
  | platform_preflight_failed => -13
  | clock_failure => -14
  | invalid_artifact => -15
  | incompatible_artifact => -16
  | device_queue_full => -17
  | device_timeout => -18
  | device_error => -19
  | device_lost => -20
  | device_canceled => -21
  | device_reset_required => -22
  | incompatible_abi => -23
  end.

(** [LiveControlActionRecord{}] *)
Definition LiveControlActionRecord_default : LiveControlActionRecord :=
  mkLiveAction live_control_action_schema_version live_control_action_record_size 0 0 0 0
    LiveControlBoundaryTarget_default 0 0 0 0 0 0 0 0 0 0 0 0 0 update_scenario_parameters
    admitted_accepted record_staged live_action_admission live_stage_attempt live_reason_normal
    live_result_accepted false (replicate 80 0).

Definition target_from_record (r : LiveControlUpdateRecord) : LiveControlBoundaryTarget :=
  mkTarget (lu_target_frame_index r) (lu_rate_release_sequence r) (lu_reference_release_index r)
    (lu_rate_domain_registration_index r) (lu_phase_index r) (lu_rate_substep_ordinal r) (lu_target_kind r)
    (replicate 7 0).

(** Groups of assignments to an action record: its owner, its target, the record it is
    about, the generations, and so on. *)
Definition action_owner (runtime generation policy : Z) (a : LiveControlActionRecord) : LiveControlActionRecord :=
  mkLiveAction (la_schema_version a) (la_record_size a) (la_sequence a) runtime generation policy (la_target a)
    (la_mailbox_identity a) (la_producer_identity a) (la_mailbox_sequence a) (la_producer_sequence a)
    (la_payload_digest a) (la_generation_identity a) (la_prior_generation_identity a) (la_checkpoint_correlation a)
    (la_replay_correlation a) (la_payload_bytes a) (la_survivor_count a) (la_replaced_count a) (la_terminal_status
    a) (la_update_kind a) (la_admission_result a) (la_record_status a) (la_action a) (la_stage a) (la_reason a)
    (la_result a) (la_replay_eligible a) (la_reserved a).

Definition action_target (target : LiveControlBoundaryTarget) (a : LiveControlActionRecord) : LiveControlActionRecord :=
  mkLiveAction (la_schema_version a) (la_record_size a) (la_sequence a) (la_runtime_id a)
    (la_configuration_generation a) (la_policy_identity a) target (la_mailbox_identity a) (la_producer_identity a)
    (la_mailbox_sequence a) (la_producer_sequence a) (la_payload_digest a) (la_generation_identity a)
    (la_prior_generation_identity a) (la_checkpoint_correlation a) (la_replay_correlation a) (la_payload_bytes a)
    (la_survivor_count a) (la_replaced_count a) (la_terminal_status a) (la_update_kind a) (la_admission_result a)
    (la_record_status a) (la_action a) (la_stage a) (la_reason a) (la_result a) (la_replay_eligible a) (la_reserved
    a).

Definition action_about (r : LiveControlUpdateRecord) (a : LiveControlActionRecord) : LiveControlActionRecord :=
  mkLiveAction (la_schema_version a) (la_record_size a) (la_sequence a) (la_runtime_id a)
    (la_configuration_generation a) (la_policy_identity a) (target_from_record r) (lu_mailbox_identity r)
    (lu_producer_identity r) (lu_mailbox_sequence r) (lu_producer_sequence r) (lu_payload_digest r)
    (la_generation_identity a) (la_prior_generation_identity a) (la_checkpoint_correlation a) (la_replay_correlation
    a) (lu_payload_bytes r) (la_survivor_count a) (la_replaced_count a) (la_terminal_status a) (lu_update_kind r)
    (la_admission_result a) (la_record_status a) (la_action a) (la_stage a) (la_reason a) (la_result a)
    (la_replay_eligible a) (la_reserved a).

Definition action_generations (generation prior : Z) (a : LiveControlActionRecord) : LiveControlActionRecord :=
  mkLiveAction (la_schema_version a) (la_record_size a) (la_sequence a) (la_runtime_id a)
    (la_configuration_generation a) (la_policy_identity a) (la_target a) (la_mailbox_identity a)
    (la_producer_identity a) (la_mailbox_sequence a) (la_producer_sequence a) (la_payload_digest a) generation prior
    (la_checkpoint_correlation a) (la_replay_correlation a) (la_payload_bytes a) (la_survivor_count a)
    (la_replaced_count a) (la_terminal_status a) (la_update_kind a) (la_admission_result a) (la_record_status a)
    (la_action a) (la_stage a) (la_reason a) (la_result a) (la_replay_eligible a) (la_reserved a).

Definition action_counts (survivors replaced : Z) (a : LiveControlActionRecord) : LiveControlActionRecord :=
  mkLiveAction (la_schema_version a) (la_record_size a) (la_sequence a) (la_runtime_id a)
    (la_configuration_generation a) (la_policy_identity a) (la_target a) (la_mailbox_identity a)
    (la_producer_identity a) (la_mailbox_sequence a) (la_producer_sequence a) (la_payload_digest a)
    (la_generation_identity a) (la_prior_generation_identity a) (la_checkpoint_correlation a) (la_replay_correlation
    a) (la_payload_bytes a) survivors replaced (la_terminal_status a) (la_update_kind a) (la_admission_result a)
    (la_record_status a) (la_action a) (la_stage a) (la_reason a) (la_result a) (la_replay_eligible a) (la_reserved
    a).

Definition action_correlations (checkpoint replay : Z) (a : LiveControlActionRecord) : LiveControlActionRecord :=
  mkLiveAction (la_schema_version a) (la_record_size a) (la_sequence a) (la_runtime_id a)
    (la_configuration_generation a) (la_policy_identity a) (la_target a) (la_mailbox_identity a)
    (la_producer_identity a) (la_mailbox_sequence a) (la_producer_sequence a) (la_payload_digest a)
    (la_generation_identity a) (la_prior_generation_identity a) checkpoint replay (la_payload_bytes a)
    (la_survivor_count a) (la_replaced_count a) (la_terminal_status a) (la_update_kind a) (la_admission_result a)
    (la_record_status a) (la_action a) (la_stage a) (la_reason a) (la_result a) (la_replay_eligible a) (la_reserved
    a).

Definition action_status (terminal : Z) (a : LiveControlActionRecord) : LiveControlActionRecord :=
  mkLiveAction (la_schema_version a) (la_record_size a) (la_sequence a) (la_runtime_id a)
    (la_configuration_generation a) (la_policy_identity a) (la_target a) (la_mailbox_identity a)
    (la_producer_identity a) (la_mailbox_sequence a) (la_producer_sequence a) (la_payload_digest a)
    (la_generation_identity a) (la_prior_generation_identity a) (la_checkpoint_correlation a) (la_replay_correlation
    a) (la_payload_bytes a) (la_survivor_count a) (la_replaced_count a) terminal (la_update_kind a)
    (la_admission_result a) (la_record_status a) (la_action a) (la_stage a) (la_reason a) (la_result a)
    (la_replay_eligible a) (la_reserved a).

Definition action_admission (admission status : Z) (a : LiveControlActionRecord) : LiveControlActionRecord :=
  mkLiveAction (la_schema_version a) (la_record_size a) (la_sequence a) (la_runtime_id a)
    (la_configuration_generation a) (la_policy_identity a) (la_target a) (la_mailbox_identity a)
    (la_producer_identity a) (la_mailbox_sequence a) (la_producer_sequence a) (la_payload_digest a)
    (la_generation_identity a) (la_prior_generation_identity a) (la_checkpoint_correlation a) (la_replay_correlation
    a) (la_payload_bytes a) (la_survivor_count a) (la_replaced_count a) (la_terminal_status a) (la_update_kind a)
    admission status (la_action a) (la_stage a) (la_reason a) (la_result a) (la_replay_eligible a) (la_reserved a).

Definition action_event (action stage reason result : Z) (a : LiveControlActionRecord) : LiveControlActionRecord :=
  mkLiveAction (la_schema_version a) (la_record_size a) (la_sequence a) (la_runtime_id a)
    (la_configuration_generation a) (la_policy_identity a) (la_target a) (la_mailbox_identity a)
    (la_producer_identity a) (la_mailbox_sequence a) (la_producer_sequence a) (la_payload_digest a)
    (la_generation_identity a) (la_prior_generation_identity a) (la_checkpoint_correlation a) (la_replay_correlation
    a) (la_payload_bytes a) (la_survivor_count a) (la_replaced_count a) (la_terminal_status a) (la_update_kind a)
    (la_admission_result a) (la_record_status a) action stage reason result (la_replay_eligible a) (la_reserved a).

Definition action_eligible (eligible : bool) (a : LiveControlActionRecord) : LiveControlActionRecord :=
  mkLiveAction (la_schema_version a) (la_record_size a) (la_sequence a) (la_runtime_id a)
    (la_configuration_generation a) (la_policy_identity a) (la_target a) (la_mailbox_identity a)
    (la_producer_identity a) (la_mailbox_sequence a) (la_producer_sequence a) (la_payload_digest a)
    (la_generation_identity a) (la_prior_generation_identity a) (la_checkpoint_correlation a) (la_replay_correlation
    a) (la_payload_bytes a) (la_survivor_count a) (la_replaced_count a) (la_terminal_status a) (la_update_kind a)
    (la_admission_result a) (la_record_status a) (la_action a) (la_stage a) (la_reason a) (la_result a) eligible
    (la_reserved a).
