(* ===== verification/LiveControlMailbox.v ===== *)
(** * Live control: the operations of the mailboxes (rt/src/live_control_mailbox.cpp)

    The operations of [LiveControlMailboxSet] while no replay artifact is being injected
    ([closure->replay_view] is null, as it is outside [begin_replay] and [end_replay]).
    Each is one function of the state: the calls run one after the other, so a
    compare-exchange succeeds exactly when the word has the expected value, and flags that
    a call sets and clears again are left as they are. *)

From stdpp Require Import base list numbers.
From Stdlib Require Import ZArith Lia Bool.
From S2P Require Import Prelude CanonicalBytes SnapshotCodec SeqRing LiveControlActions LiveControlState.

Open Scope Z_scope.

(** ** Access to the state *)

Definition kInvalidIndex : Z := u32_max.
Definition kInvalidSequence : Z := u64_max.

Definition mailbox_identity (m : Mailbox) : Z := mr_mailbox_identity (mb_registration m).
Definition record_capacity (m : Mailbox) : nat := Z.to_nat (mr_record_capacity (mb_registration m)).
Definition payload_stride (m : Mailbox) : nat := Z.to_nat (mr_payload_bytes_per_record (mb_registration m)).

(** The index of the mailbox, the number of mailboxes when there is none. *)
Definition find_mailbox (impl : Impl) (identity : Z) : nat :=
  from_option fst (length (im_mailboxes impl)) (list_find (fun m => mailbox_identity m = identity) (im_mailboxes impl)).

Definition total_record_capacity (impl : Impl) : nat :=
  sum_list_with record_capacity (im_mailboxes impl).

Definition control_slot (impl : Impl) (mailbox slot : nat) : ControlSlot :=
  mb_slots (im_mailboxes impl !!! mailbox) !!! slot.

Definition update_mailbox (index : nat) (f : Mailbox -> Mailbox) (impl : Impl) : Impl :=
  set_im_mailboxes (alter f index (im_mailboxes impl)) impl.

Definition update_control_slot (mailbox slot : nat) (f : ControlSlot -> ControlSlot) (impl : Impl) : Impl :=
  update_mailbox mailbox (fun m => set_mb_slots (alter f slot (mb_slots m)) m) impl.

Definition update_closure (f : Closure -> Closure) (impl : Impl) : Impl :=
  set_im_closure (f <$> im_closure impl) impl.

(** The payload bytes of a slot. *)
Definition slot_payload (m : Mailbox) (slot bytes : nat) : list Z :=
  take bytes (drop (slot * payload_stride m) (mb_payload_storage m)).

(** ** Helpers *)

Definition live_control_payload_digest (payload : list Z) : Z := foldl fnv_step kFnvOffset payload.

Definition update_kind_valid (kind : Z) : bool :=
  (update_scenario_parameters <=? kind) && (kind <=? update_clear_fault).

Definition target_valid (impl : Impl) (u : LiveControlUpdateRecord) : bool :=
  if lu_target_kind u =? target_host_frame then
    negb (lu_target_frame_index u =? kInvalidSequence) && (lu_reference_release_index u =? kInvalidIndex) &&
    (lu_rate_domain_registration_index u =? kInvalidIndex) && (lu_phase_index u =? kInvalidIndex) &&
    (lu_rate_substep_ordinal u =? kInvalidIndex) && (lu_rate_release_sequence u =? kInvalidSequence)
  else if negb (lu_target_kind u =? target_rate_release) || negb (lu_target_frame_index u =? kInvalidSequence)
  then false
  else match im_rate_targets impl !! Z.to_nat (lu_reference_release_index u) with
       | None => false
       | Some target =>
           (lu_rate_domain_registration_index u =? rt_domain_registration_index target) &&
           (lu_phase_index u =? rt_phase_index target) &&
           (lu_rate_substep_ordinal u =? rt_substep_ordinal target) &&
           (lu_rate_release_sequence u =? rt_release_sequence target)
       end.

Definition hash_u64 (hash value : Z) : Z := foldl fnv_step hash (le_split 8 value).

Definition hash_target (hash : Z) (t : LiveControlBoundaryTarget) : Z :=
  foldl hash_u64 hash
    [bt_kind t; bt_frame_index t; bt_rate_release_sequence t; bt_reference_release_index t;
     bt_rate_domain_registration_index t; bt_phase_index t; bt_rate_substep_ordinal t].

Definition public_status (state : SlotState) : Z :=
  match state with
  | slot_staged | slot_boundary_owned => record_staged
  | slot_committed => record_committed
  | slot_replaced => record_replaced
  | slot_missed => record_missed
  | slot_stopped => record_stopped
  | slot_rolled_back => record_rolled_back
  | slot_free | slot_writing => record_staged
  end.

Definition alignment_valid (alignment size : Z) : bool :=
  negb (alignment =? 0) && (alignment <=? live_control_payload_alignment_limit) &&
  (Z.land alignment (u32 (alignment - 1)) =? 0) && (size mod alignment =? 0).

Definition structurally_valid (impl : Impl) (mailbox : Mailbox) (producer : Producer)
    (u : LiveControlUpdateRecord) (payload : list Z) : bool :=
  let size := Z.of_nat (length payload) in
  (lu_schema_version u =? live_control_schema_version) &&
  (lu_record_size u =? live_control_update_record_size) && (lu_mailbox_sequence u =? 0) &&
  (lu_runtime_id u =? im_runtime_id impl) &&
  (lu_configuration_generation u =? im_configuration_generation impl) &&
  (lu_mailbox_identity u =? pd_mailbox_identity producer) &&
  (lu_mailbox_identity u =? mailbox_identity mailbox) &&
  (lu_producer_identity u =? pd_producer_identity producer) && negb (lu_producer_sequence u =? 0) &&
  (lu_payload_bytes u =? size) && (size <=? mr_payload_bytes_per_record (mb_registration mailbox)) &&
  (lu_payload_digest u =? live_control_payload_digest payload) &&
  (lu_policy_flags u =? live_control_payload_canonical_little_endian) &&
  update_kind_valid (lu_update_kind u) && alignment_valid (lu_payload_alignment u) size &&
  (negb (size =? 0) || (lu_update_kind u =? update_clear_fault)) && target_valid impl u &&
  zero (lu_reserved u).

Definition count_result (result : LiveControlAdmissionResult) (m : Mailbox) : Mailbox :=
  match result with
  | adm_accepted => set_mb_accepted (u64 (mb_accepted m + 1)) m
  | adm_invalid => set_mb_invalid (u64 (mb_invalid m + 1)) m
  | adm_full => set_mb_full (u64 (mb_full m + 1)) m
  | adm_busy => set_mb_busy (u64 (mb_busy m + 1)) m
  | adm_stale => set_mb_stale (u64 (mb_stale m + 1)) m
  | adm_stopped => set_mb_stopped (u64 (mb_stopped m + 1)) m
  | adm_exhausted => set_mb_exhausted (u64 (mb_exhausted m + 1)) m
  | adm_missed => set_mb_missed (u64 (mb_missed m + 1)) m
  end.

Definition target_closed (impl : Impl) (u : LiveControlUpdateRecord) : bool :=
  if lu_target_kind u =? target_host_frame then
    im_host_boundary_started impl && (lu_target_frame_index u <=? im_last_host_boundary impl)
  else match im_rate_targets impl !! Z.to_nat (lu_reference_release_index u) with
       | None => true
       | Some target => rt_closed target
       end.

Definition terminal_state (state : SlotState) : bool :=
  match state with
  | slot_committed | slot_replaced | slot_missed | slot_stopped | slot_rolled_back => true
  | _ => false
  end.

Definition active_view (impl : Impl) : option LiveControlGenerationView :=
  if im_has_generation impl then Some (gn_view (im_generations impl !!! im_active_generation impl)) else None.

Definition reason_for_admission (result : LiveControlAdmissionResult) : Z :=
  match result with
  | adm_accepted => live_reason_normal
  | adm_invalid => live_reason_invalid
  | adm_full => live_reason_full
  | adm_busy => live_reason_busy
  | adm_stale => live_reason_stale
  | adm_stopped => live_reason_stopped
  | adm_exhausted => live_reason_exhausted
  | adm_missed => live_reason_missed
  end.

(** ** Actions *)

Definition base_action (impl : Impl) (closure : Closure) : LiveControlActionRecord :=
  action_owner (im_runtime_id impl) (im_configuration_generation impl) (cp_policy_identity (cl_policy closure))
    LiveControlActionRecord_default.

Definition disqualify (closure : Closure) : Closure := set_cl_replay_eligible false closure.

(** [reserve_sequence] when no other call interleaves. *)
Definition LiveControlActionRing_reserve_sequence (g : Ring) : Ring * Z * bool :=
  let '(g', pc) := LiveControlActionRing_reserve_step g (rg_next_sequence g) in
  match pc with
  | e_claim sequence => (g', sequence, true)
  | _ => (g', invalid_sequence, false)
  end.

(** A reservation for the journal, which disqualifies the replay when it fails. *)
Definition reserve_action (closure : Closure) : Closure * Z :=
  let '(ring, sequence, reserved) := LiveControlActionRing_reserve_sequence (cl_actions closure) in
  let closure := set_cl_actions ring closure in
  (if reserved then closure else disqualify closure, sequence).

(** [publish_reserved], which disqualifies the replay when it fails. *)
Definition publish_action (action : LiveControlActionRecord) (sequence : Z) (closure : Closure) : Closure :=
  let '(ring, published) := LiveControlActionRing_publish_reserved (cl_actions closure) action sequence in
  let closure := set_cl_actions ring closure in
  if published then closure else disqualify closure.

(** [emit]: the reservation, then the publication; the number is the output parameter. *)
Definition emit_closure (action : LiveControlActionRecord) (closure : Closure) : Closure * Z :=
  let '(ring, sequence, reserved) := LiveControlActionRing_reserve_sequence (cl_actions closure) in
  let closure := set_cl_actions ring closure in
  (if reserved then publish_action action sequence closure else disqualify closure, sequence).

Definition emit_action (impl : Impl) (action : LiveControlActionRecord) : Impl :=
  update_closure (fun closure => fst (emit_closure action closure)) impl.

(** ** Admission *)

Definition producer_handle (impl : Impl) (mailbox producer : Z) : option LiveControlProducerHandle :=
  match list_find (fun p => pd_mailbox_identity p = mailbox /\ pd_producer_identity p = producer) (im_producers impl) with
  | Some (index, _) =>
      Some (mkProducerHandle (im_runtime_id impl) (im_configuration_generation impl) mailbox producer
        (u32 (Z.of_nat index)) 0)
  | None => None
  end.

(** The action that reports an admission; [about] is the record as the mailbox keeps it. *)
Definition admission_action (impl : Impl) (closure : Closure) (result : LiveControlAdmissionResult)
    (about : option LiveControlUpdateRecord) : LiveControlActionRecord :=
  let action := action_event live_action_admission live_stage_attempt (reason_for_admission result)
    (if decide (result = adm_accepted) then live_result_accepted else live_result_rejected)
    (action_admission (admission_code result) record_staged (base_action impl closure)) in
  match about with
  | Some r =>
      action_admission (admission_code result)
        (if decide (result = adm_missed) then record_missed else record_staged) (action_about r action)
  | None => action
  end.

Definition missed_event (action : LiveControlActionRecord) : LiveControlActionRecord :=
  action_event live_action_missed live_stage_terminal live_reason_missed live_result_settled action.

(** The journal entry and its payload bytes: whether they fit, and the journal after. *)
Definition journal_admission (j : LosslessRetention) (retained : LiveControlRetainedAdmission) (payload : list Z)
    : LosslessRetention * bool :=
  let index := jr_admission_count j in
  let offset := jr_payload_count j in
  let size := Z.of_nat (length payload) in
  if negb (index <? rp_admission_capacity (jr_policy j)) then
    (set_journal (jr_admissions j) (jr_payloads j) (u64 (index + 1)) offset j, false)
  else if negb ((offset <=? rp_payload_capacity_bytes (jr_policy j)) &&
                (size <=? rp_payload_capacity_bytes (jr_policy j) - offset)) then
    (set_journal (jr_admissions j) (jr_payloads j) (u64 (index + 1)) (u64 (offset + size)) j, false)
  else
    let retained := mkRetainedAdmission (ra_record retained) (ra_action_sequence retained)
      (ra_mailbox_identity retained) (ra_producer_identity retained) offset (ra_slot_index retained)
      (ra_outcome retained) (ra_counter_changed retained) in
    (set_journal (<[Z.to_nat index := retained]> (jr_admissions j))
       (list_inserts (Z.to_nat offset) payload (jr_payloads j)) (u64 (index + 1)) (u64 (offset + size)) j, true).

(** [retain_admission] on the closure and its journal. *)
Definition retain_in_closure (impl : Impl) (closure : Closure) (j : LosslessRetention)
    (handle : LiveControlProducerHandle) (update : LiveControlUpdateRecord) (payload : list Z)
    (result : LiveControlAdmissionResult) (owner slot : option nat) (action_sequence : Z) : Closure :=
  let record := match owner, slot with
                | Some o, Some s => cs_record (control_slot impl o s)
                | _, _ => update
                end in
  let payload := match slot with Some _ => payload | None => [] end in
  let '(closure, action_sequence) :=
    match slot with Some _ => (closure, action_sequence) | None => reserve_action closure end in
  let retained := mkRetainedAdmission record action_sequence
    (from_option (fun o => mailbox_identity (im_mailboxes impl !!! o)) 0 owner)
    (from_option (fun _ => ph_producer_identity handle) 0 owner) 0 slot result (bool_decide (is_Some owner)) in
  let action := admission_action impl closure result
    (if bool_decide (result = adm_accepted \/ result = adm_missed) then Some record else None) in
  let '(j, fits) := journal_admission j retained payload in
  let closure := set_cl_lossless (Some j) closure in
  let closure := if fits then closure else disqualify closure in
  let action := action_eligible (cl_replay_eligible closure) action in
  let closure := publish_action action action_sequence closure in
  if decide (result = adm_missed) then fst (emit_closure (missed_event action) closure) else closure.

Definition retain_admission (handle : LiveControlProducerHandle) (update : LiveControlUpdateRecord)
    (payload : list Z) (result : LiveControlAdmissionResult) (owner slot : option nat) (action_sequence : Z)
    (impl : Impl) : Impl :=
  update_closure (fun closure =>
    match cl_lossless closure with
    | Some j => retain_in_closure impl closure j handle update payload result owner slot action_sequence
    | None => closure
    end) impl.

(** The tests of [stage] on the state that others may change, made before and after the
    reservation flag is taken. *)
Definition stage_gate (impl : Impl) (producer : Producer) (handle : LiveControlProducerHandle)
    (update : LiveControlUpdateRecord) : option LiveControlAdmissionResult :=
  if negb (im_admission_open impl) then Some adm_stopped
  else if pd_next_sequence producer =? kInvalidSequence then Some adm_exhausted
  else if negb (lu_producer_sequence update =? pd_next_sequence producer) ||
          negb (lu_runtime_id update =? ph_runtime_id handle) ||
          negb (lu_configuration_generation update =? ph_configuration_generation handle) ||
          negb (lu_mailbox_identity update =? ph_mailbox_identity handle) ||
          negb (lu_producer_identity update =? ph_producer_identity handle) then Some adm_stale
  else None.

(** The first free slot; when there is none and no reader is inside, the first terminal one. *)
Definition find_stage_slot (m : Mailbox) : option nat :=
  match list_find (fun s => cs_state s = slot_free) (mb_slots m) with
  | Some (index, _) => Some index
  | None =>
      if mb_reclaiming m then None
      else if negb (mb_inspection_readers m =? 0) then None
      else fst <$> list_find (fun s => terminal_state (cs_state s) = true) (mb_slots m)
  end.

(** The record and the payload bytes written into the claimed slot, padded to the stride. *)
Definition write_slot (slot : nat) (record : LiveControlUpdateRecord) (payload : list Z) (m : Mailbox) : Mailbox :=
  set_mb_payload_storage
    (list_inserts (slot * payload_stride m)
       (payload ++ replicate (payload_stride m - length payload) 0) (mb_payload_storage m))
    (set_mb_slots (alter (fun s => mkControlSlot slot_writing 0 record) slot (mb_slots m)) m).

Definition set_slot_state (state : SlotState) (slot : nat) (m : Mailbox) : Mailbox :=
  set_mb_slots (alter (set_cs_state state) slot (mb_slots m)) m.

Definition occupy (m : Mailbox) : Mailbox := set_mb_occupancy (u32 (mb_occupancy m + 1)) m.
Definition vacate (m : Mailbox) : Mailbox := set_mb_occupancy (u32 (mb_occupancy m - 1)) m.

Definition count_missed (impl : Impl) : Impl := set_im_missed (u64 (im_missed impl + 1)) impl.
Definition count_stopped (impl : Impl) : Impl := set_im_stopped (u64 (im_stopped impl + 1)) impl.

(** The part of [stage] that follows the claim of a slot. *)
Definition stage_into (impl : Impl) (handle : LiveControlProducerHandle) (update : LiveControlUpdateRecord)
    (payload : list Z) (owner slot : nat) (producer : Producer)
    : Impl * LiveControlAdmissionResult :=
  let mailbox_sequence := mb_next_sequence (im_mailboxes impl !!! owner) in
  let committed := set_lu_mailbox_sequence mailbox_sequence update in
  let impl := update_mailbox owner (write_slot slot committed payload) impl in
  let '(impl, action_sequence) :=
    match im_closure impl with
    | Some closure =>
        match cl_lossless closure with
        | Some _ => let '(closure, sequence) := reserve_action closure in
                    (set_im_closure (Some closure) impl, sequence)
        | None => (impl, kInvalidSequence)
        end
    | None => (impl, kInvalidSequence)
    end in
  let impl := update_mailbox owner (fun m => set_slot_state slot_staged slot (occupy m)) impl in
  let '(impl, result) :=
    if negb (im_admission_open impl) then
      (count_stopped (update_mailbox owner (fun m => vacate (set_slot_state slot_stopped slot m)) impl), adm_stopped)
    else if target_closed impl committed then
      (count_missed (update_mailbox owner (fun m => vacate (set_slot_state slot_missed slot m)) impl), adm_missed)
    else (impl, adm_accepted) in
  let impl := update_mailbox owner (set_mb_next_sequence (u64 (mailbox_sequence + 1))) impl in
  let impl := set_im_producers
    (alter (set_pd_next_sequence (u64 (pd_next_sequence producer + 1))) (Z.to_nat (ph_producer_index handle))
       (im_producers impl)) impl in
  let impl := update_mailbox owner (count_result result) impl in
  (retain_admission handle update payload result (Some owner) (Some slot) action_sequence impl, result).

(** A refusal that the owner counts. *)
Definition refuse (impl : Impl) (handle : LiveControlProducerHandle) (update : LiveControlUpdateRecord)
    (payload : list Z) (owner : nat) (result : LiveControlAdmissionResult) : Impl * LiveControlAdmissionResult :=
  let impl := update_mailbox owner (count_result result) impl in
  (retain_admission handle update payload result (Some owner) None kInvalidSequence impl, result).

(** Quiescent export and restore own all state. *)
Definition lossless_claimed (impl : Impl) : bool :=
  match im_closure impl with
  | Some closure => bool_decide (is_Some (cl_lossless closure)) && cl_host_claim closure
  | None => false
  end.

Definition stage (impl : Impl) (handle : LiveControlProducerHandle) (update : LiveControlUpdateRecord)
    (payload : list Z) : Impl * LiveControlAdmissionResult :=
  if lossless_claimed impl then (impl, adm_busy) else
  let unknown := (retain_admission handle update payload adm_stale None None kInvalidSequence impl, adm_stale) in
  if negb (LiveControlProducerHandle_valid handle) || negb (ph_runtime_id handle =? im_runtime_id impl) ||
     negb (ph_configuration_generation handle =? im_configuration_generation impl) then unknown else
  match im_producers impl !! Z.to_nat (ph_producer_index handle) with
  | None => unknown
  | Some producer =>
      if negb (pd_mailbox_identity producer =? ph_mailbox_identity handle) ||
         negb (pd_producer_identity producer =? ph_producer_identity handle) ||
         (length (im_mailboxes impl) <=? pd_mailbox_index producer)%nat then unknown else
      let owner := pd_mailbox_index producer in
      let mailbox := im_mailboxes impl !!! owner in
      match stage_gate impl producer handle update with
      | Some result => refuse impl handle update payload owner result
      | None =>
          if negb (structurally_valid impl mailbox producer update payload) then
            refuse impl handle update payload owner adm_invalid
          else if mb_reservation mailbox then refuse impl handle update payload owner adm_busy
          else match stage_gate impl producer handle update with
          | Some result => refuse impl handle update payload owner result
          | None =>
              if mb_next_sequence mailbox =? kInvalidSequence then
                refuse impl handle update payload owner adm_exhausted
              else match find_stage_slot mailbox with
              | None => refuse impl handle update payload owner adm_full
              | Some slot => stage_into impl handle update payload owner slot producer
              end
          end
      end
  end.

(** The first record of the producer with the number of the update. *)
Definition canonical_record (impl : Impl) (handle : LiveControlProducerHandle) (update : LiveControlUpdateRecord)
    (result : LiveControlAdmissionResult) : option LiveControlUpdateRecord :=
  if bool_decide (result = adm_accepted \/ result = adm_missed) then
    match im_producers impl !! Z.to_nat (ph_producer_index handle) with
    | Some producer =>
        match im_mailboxes impl !! pd_mailbox_index producer with
        | Some m =>
            (fun p => cs_record (snd p)) <$>
              list_find (fun s => lu_producer_identity (cs_record s) = ph_producer_identity handle /\
                                  lu_producer_sequence (cs_record s) = lu_producer_sequence update) (mb_slots m)
        | None => None
        end
    | None => None
    end
  else None.

(** The action of an admission when the closure keeps no admission journal. *)
Definition record_admission (impl : Impl) (handle : LiveControlProducerHandle) (update : LiveControlUpdateRecord)
    (result : LiveControlAdmissionResult) : Impl :=
  match im_closure impl with
  | None => impl
  | Some closure =>
      match cl_lossless closure with
      | Some _ => impl
      | None =>
          let canonical := canonical_record impl handle update result in
          let action := action_eligible (cl_replay_eligible closure)
            (admission_action impl closure result canonical) in
          let impl := emit_action impl action in
          if bool_decide (result = adm_missed) && bool_decide (is_Some canonical)
          then emit_action impl (missed_event action) else impl
      end
  end.
