(* ===== verification/LiveControlBoundary.v ===== *)
(** * Live control: boundaries and step transactions (rt/src/live_control_mailbox.cpp)

    [close_boundary] and its callers, the step transaction that settles or rolls back what
    the boundaries of one step published, the end of admission, and the inspection calls. *)

From stdpp Require Import base list numbers.
From Stdlib Require Import ZArith Lia Bool.
From S2P Require Import Prelude CanonicalBytes SnapshotCodec SeqRing LiveControlActions LiveControlState LiveControlMailbox.

Open Scope Z_scope.

(** ** Generations *)

(** One record and its bytes appended to the arrays of a generation. *)
Definition store_record (g : Generation) (index offset : nat) (record : LiveControlUpdateRecord) (payload : list Z)
    : Generation :=
  mkGeneration (<[index := mkRecordView record offset (length payload)]> (gn_records g))
    (list_inserts offset payload (gn_payloads g)) (gn_view g).

Fixpoint store_records (g : Generation) (index offset : nat) (l : list (LiveControlUpdateRecord * list Z))
    : Generation :=
  match l with
  | [] => g
  | (record, payload) :: l =>
      store_records (store_record g index offset record payload) (S index) (offset + length payload) l
  end.

(** The records a view spans, and the bytes of each. *)
Definition generation_records (g : Generation) : list LiveControlRecordView :=
  take (gv_record_count (gn_view g)) (gn_records g).

Definition view_payload (g : Generation) (v : LiveControlRecordView) : list Z :=
  take (rv_payload_size v) (drop (rv_payload_offset v) (gn_payloads g)).

Definition generation_contents (g : Generation) : list (LiveControlUpdateRecord * list Z) :=
  (fun v => (rv_record v, view_payload g v)) <$> generation_records g.

Definition copy_generation (destination source : Generation) : Generation :=
  set_gn_view (gn_view source) (store_records destination 0 0 (generation_contents source)).

(** The records of a generation as the retention journal keeps them, from a first offset. *)
Fixpoint retained_copies (offset : nat) (l : list (LiveControlUpdateRecord * list Z)) : list RetainedRecord :=
  match l with
  | [] => []
  | (record, payload) :: l => mkRetainedRecord record offset :: retained_copies (offset + length payload) l
  end.

Definition retain_generation (closure : Closure) (g : Generation) (prior_generation_identity first_action_sequence : Z)
    : Closure * bool :=
  let policy := cl_policy closure in
  if negb (cp_replay_enabled policy) then (closure, true)
  else
    let contents := generation_contents g in
    let payload_bytes := sum_list_with (fun c => length (snd c)) contents in
    if (u64_max <? Z.of_nat payload_bytes) then (disqualify closure, false)
    else if (cp_retained_generation_capacity policy <=? Z.of_nat (length (cl_retained_generations closure))) ||
            (u64 (cp_retained_record_capacity policy - Z.of_nat (length (cl_retained_records closure))) <?
               Z.of_nat (length contents)) ||
            (u64 (cp_retained_payload_bytes policy - Z.of_nat (length (cl_retained_payloads closure))) <?
               Z.of_nat payload_bytes)
    then (disqualify closure, false)
    else
      let retained := mkRetainedGeneration (gv_target (gn_view g)) (gv_generation_identity (gn_view g))
        prior_generation_identity first_action_sequence (length (cl_retained_records closure))
        (length (cl_retained_payloads closure)) (length contents) payload_bytes ok false in
      (set_retained (cl_retained_generations closure ++ [retained])
         (cl_retained_records closure ++ retained_copies (length (cl_retained_payloads closure)) contents)
         (cl_retained_payloads closure ++ mjoin (snd <$> contents)) closure, true).

(** ** Closing a boundary *)

Definition bump_inspection (impl : Impl) : Impl :=
  set_im_inspection_version (u64 (im_inspection_version impl + 1)) impl.

(** The staged record belongs to the boundary that closes. *)
Definition is_current (target : LiveControlBoundaryTarget) (r : LiveControlUpdateRecord) : bool :=
  if bt_kind target =? target_host_frame then
    (lu_target_kind r =? target_host_frame) && (lu_target_frame_index r =? bt_frame_index target)
  else
    (lu_target_kind r =? target_rate_release) &&
    (lu_reference_release_index r =? bt_reference_release_index target) &&
    (lu_rate_release_sequence r =? bt_rate_release_sequence target).

(** The action of a record whose target closed, or whose mailbox stopped, while it was staged. *)
Definition dropped_action (impl : Impl) (closure : Closure) (r : LiveControlUpdateRecord)
    (result : LiveControlAdmissionResult) (status action reason : Z) : LiveControlActionRecord :=
  action_eligible (cl_replay_eligible closure)
    (action_event action live_stage_terminal reason live_result_settled
       (action_admission (admission_code result) status (action_about r (base_action impl closure)))).

Definition emit_dropped (r : LiveControlUpdateRecord) (result : LiveControlAdmissionResult)
    (status action reason : Z) (impl : Impl) : Impl :=
  match im_closure impl with
  | Some closure => emit_action impl (dropped_action impl closure r result status action reason)
  | None => impl
  end.

(** One slot of the scan: a staged record of this boundary becomes a candidate, one whose
    target has closed is missed. *)
Definition scan_slot (target : LiveControlBoundaryTarget) (acc : Impl * list Candidate) (position : nat * nat)
    : Impl * list Candidate :=
  let '(impl, candidates) := acc in
  let '(mailbox, index) := position in
  let slot := control_slot impl mailbox index in
  let record := cs_record slot in
  if negb (bool_decide (cs_state slot = slot_staged)) then acc
  else if is_current target record then
    (update_control_slot mailbox index (set_cs_state slot_boundary_owned) impl,
     candidates ++ [mkCandidate mailbox index (mailbox_identity (im_mailboxes impl !!! mailbox))
                      (lu_mailbox_sequence record) true])
  else if target_closed impl record then
    let impl := update_control_slot mailbox index (set_cs_state slot_boundary_owned) impl in
    let impl := update_control_slot mailbox index (set_cs_terminal_generation 0) impl in
    let impl := count_missed (update_mailbox mailbox vacate impl) in
    let impl := emit_dropped record adm_missed record_missed live_action_missed live_reason_missed impl in
    (update_control_slot mailbox index (set_cs_state slot_missed) impl, candidates)
  else acc.

(** The positions of the nested loops. *)
Definition slot_positions (impl : Impl) : list (nat * nat) :=
  mjoin (imap (fun i m => (fun s => (i, s)) <$> seq 0 (record_capacity m)) (im_mailboxes impl)).

Definition candidate_less (left right : Candidate) : bool :=
  if negb (cd_mailbox_identity left =? cd_mailbox_identity right)
  then cd_mailbox_identity left <? cd_mailbox_identity right
  else cd_mailbox_sequence left <? cd_mailbox_sequence right.

Definition candidate_record (impl : Impl) (c : Candidate) : LiveControlUpdateRecord :=
  cs_record (control_slot impl (cd_mailbox_index c) (cd_slot_index c)).

(** One candidate of the pass that keeps the last record of each kind in each mailbox. *)
Definition mark_step (impl : Impl) (acc : list Candidate * list (option nat) * Z) (index : nat)
    : list Candidate * list (option nat) * Z :=
  let '(candidates, last_by_kind, current_mailbox) := acc in
  match candidates !! index with
  | None => acc
  | Some candidate =>
      let '(last_by_kind, current_mailbox) :=
        if Nat.eqb index 0 || negb (cd_mailbox_identity candidate =? current_mailbox)
        then (replicate 5 None, cd_mailbox_identity candidate) else (last_by_kind, current_mailbox) in
      let kind_index := Z.to_nat (lu_update_kind (candidate_record impl candidate) - 1) in
      let candidates := match last_by_kind !! kind_index with
                        | Some (Some previous) => alter (set_cd_survivor false) previous candidates
                        | _ => candidates
                        end in
      (candidates, <[kind_index := Some index]> last_by_kind, current_mailbox)
  end.

Definition mark_survivors (impl : Impl) (candidates : list Candidate) : list Candidate :=
  fst (fst (foldl (mark_step impl) (candidates, replicate 5 None, 0) (seq 0 (length candidates)))).

Definition survivors (candidates : list Candidate) : list Candidate :=
  filter (fun c => cd_survivor c = true) candidates.

(** The record of a candidate and the bytes its slot holds. *)
Definition candidate_contents (impl : Impl) (c : Candidate) : LiveControlUpdateRecord * list Z :=
  let record := candidate_record impl c in
  (record, slot_payload (im_mailboxes impl !!! cd_mailbox_index c) (cd_slot_index c)
             (Z.to_nat (lu_payload_bytes record))).

Definition hash_record (identity : Z) (r : LiveControlUpdateRecord) : Z :=
  foldl hash_u64 identity
    [lu_mailbox_identity r; lu_mailbox_sequence r; lu_producer_identity r; lu_producer_sequence r;
     lu_update_kind r; lu_payload_digest r].

Definition generation_hash (target : LiveControlBoundaryTarget) (records : list LiveControlUpdateRecord) : Z :=
  let identity := foldl hash_record (hash_target kFnvOffset target) records in
  if identity =? 0 then 1 else identity.

Definition boundary_empty_action (impl : Impl) (closure : Closure) (target : LiveControlBoundaryTarget)
    : LiveControlActionRecord :=
  let generation := from_option gv_generation_identity 0 (active_view impl) in
  action_eligible (cl_replay_eligible closure)
    (action_event live_action_boundary_empty live_stage_terminal live_reason_normal live_result_settled
       (action_generations generation generation (action_target target (base_action impl closure)))).

Definition publication_action (impl : Impl) (closure : Closure) (target : LiveControlBoundaryTarget)
    (identity prior : Z) (survivor_count replaced_count : nat) : LiveControlActionRecord :=
  action_eligible (cl_replay_eligible closure)
    (action_event live_action_provisional_publication live_stage_provisional live_reason_normal
       live_result_published
       (action_counts (u32 (Z.of_nat survivor_count)) (u32 (Z.of_nat replaced_count))
          (action_generations identity prior (action_target target (base_action impl closure))))).

(** The report of a boundary that no record reached. *)
Definition close_empty (target : LiveControlBoundaryTarget) (impl : Impl) : Impl :=
  match im_closure impl with
  | Some closure =>
      if ((bt_kind target =? target_host_frame) && negb (bt_frame_index target =? kInvalidSequence)) ||
         ((bt_kind target =? target_rate_release) && negb (bt_reference_release_index target =? kInvalidIndex))
      then emit_action impl (boundary_empty_action impl closure target) else impl
  | None => impl
  end.

(** A candidate of a boundary without closure settles at once. *)
Definition settle_candidate (identity : Z) (impl : Impl) (c : Candidate) : Impl :=
  let impl := update_control_slot (cd_mailbox_index c) (cd_slot_index c)
    (fun s => mkControlSlot (if cd_survivor c then slot_committed else slot_replaced) identity (cs_record s)) impl in
  let impl := update_mailbox (cd_mailbox_index c) vacate impl in
  if cd_survivor c then set_im_committed (u64 (im_committed impl + 1)) impl
  else set_im_replaced (u64 (im_replaced impl + 1)) impl.

(** With a closure the candidates wait for the end of the step. *)
Definition publish_provisional (target : LiveControlBoundaryTarget) (candidates : list Candidate) (g : Generation)
    (identity prior : Z) (impl : Impl) (closure : Closure) : Impl :=
  let survivor_count := length (survivors candidates) in
  let closure := set_cl_provisional_records
    (cl_provisional_records closure ++
       ((fun c => mkProvisional (cd_mailbox_index c) (cd_slot_index c) identity prior (cd_survivor c)) <$> candidates))
    closure in
  let action := publication_action impl closure target identity prior survivor_count
    (length candidates - survivor_count) in
  let '(closure, action_sequence) := emit_closure action closure in
  set_im_closure (Some (fst (retain_generation closure g prior action_sequence))) impl.

Definition other_generation (impl : Impl) : nat := if Nat.eqb (im_active_generation impl) 0 then 1%nat else 0%nat.

(** The generation of the survivors, made the active one. *)
Definition build_generation (impl : Impl) (target : LiveControlBoundaryTarget) (candidates : list Candidate)
    : Generation :=
  let contents := candidate_contents impl <$> survivors candidates in
  set_gn_view
    (mkGenerationView (im_runtime_id impl) (im_configuration_generation impl)
       (generation_hash target (fst <$> contents)) target (length contents))
    (store_records (im_generations impl !!! other_generation impl) 0 0 contents).

Definition publish_generation (target : LiveControlBoundaryTarget) (candidates : list Candidate) (impl : Impl) : Impl :=
  let prior := from_option gv_generation_identity 0 (active_view impl) in
  let g := build_generation impl target candidates in
  let identity := gv_generation_identity (gn_view g) in
  let impl := set_active_generation (other_generation impl) g impl in
  let impl := match im_closure impl with
              | Some closure => publish_provisional target candidates g identity prior impl closure
              | None => foldl (settle_candidate identity) impl candidates
              end in
  set_latest identity target (u32 (Z.of_nat (length (survivors candidates)))) impl.

(** The view that the call returns is the active one of the state after it. *)
Definition close_boundary (impl : Impl) (target : LiveControlBoundaryTarget) : Impl :=
  let impl := bump_inspection impl in
  let '(impl, found) := foldl (scan_slot target) (impl, []) (slot_positions impl) in
  let candidates := mark_survivors impl (std_sort candidate_less found) in
  let impl := if Nat.eqb (length (survivors candidates)) 0 then close_empty target impl
              else publish_generation target candidates impl in
  bump_inspection impl.

Definition host_target (frame_index : Z) : LiveControlBoundaryTarget :=
  mkTarget frame_index u64_max u32_max u32_max u32_max u32_max target_host_frame (replicate 7 0).

Definition close_host_frame (impl : Impl) (frame_index : Z) : Impl :=
  if negb (im_admission_open impl) then impl
  else if im_host_boundary_started impl && (frame_index <=? im_last_host_boundary impl) then impl
  else close_boundary (set_host_boundary frame_index impl) (host_target frame_index).

(** Every target released before the time is closed. *)
Definition close_targets_before (time : Z) (targets : list RateTarget) : list RateTarget :=
  (fun t => if rt_release_time_ns t <? time then set_rt_closed true t else t) <$> targets.

Definition release_target (reference : nat) (release_sequence : Z) (current : RateTarget) : LiveControlBoundaryTarget :=
  mkTarget kInvalidSequence release_sequence (u32 (Z.of_nat reference)) (rt_domain_registration_index current)
    (rt_phase_index current) (rt_substep_ordinal current) target_rate_release (replicate 7 0).

Definition close_rate_release (impl : Impl) (reference : nat) (release_sequence : Z) : Impl :=
  match im_rate_targets impl !! reference with
  | None => impl
  | Some current =>
      if negb (im_admission_open impl) then impl
      else
        let impl := set_im_rate_targets
          (close_targets_before (rt_release_time_ns current) (im_rate_targets impl)) impl in
        if rt_closed current then impl
        else close_boundary
          (set_im_rate_targets (alter (set_rt_closed true) reference (im_rate_targets impl)) impl)
          (release_target reference release_sequence current)
  end.

(** The target no record names. *)
Definition no_current_target : LiveControlBoundaryTarget :=
  mkTarget kInvalidSequence u64_max u32_max u32_max u32_max u32_max target_rate_release (replicate 7 0).

Definition expire_rate_releases_before (impl : Impl) (logical_time_ns : Z) : Impl :=
  if negb (im_admission_open impl) then impl
  else if existsb (fun t => (rt_release_time_ns t <? logical_time_ns) && negb (rt_closed t)) (im_rate_targets impl)
  then close_boundary
    (set_im_rate_targets (close_targets_before logical_time_ns (im_rate_targets impl)) impl) no_current_target
  else impl.

(** ** Step transactions *)

Definition begin_step_transaction (impl : Impl) : Impl * bool :=
  match im_closure impl with
  | None => (impl, true)
  | Some closure =>
      if cl_host_claim closure || cl_transaction_active closure then (impl, false)
      else
        let closure :=
          match active_view impl with
          | Some current =>
              open_transaction
                (copy_generation (cl_rollback_generation closure) (im_generations impl !!! im_active_generation impl))
                true (gv_generation_identity current) (gv_target current)
                (u32 (Z.of_nat (gv_record_count current))) closure
          | None =>
              open_transaction (set_gn_view LiveControlGenerationView_default (cl_rollback_generation closure))
                false 0 LiveControlBoundaryTarget_default 0 closure
          end in
        (set_im_closure (Some closure) impl, true)
  end.

(** The generation of the step entry is active again. *)
Definition restore_generation (impl : Impl) (closure : Closure) : Impl :=
  let impl :=
    if cl_rollback_has_generation closure then
      let restored := other_generation impl in
      set_active_generation restored
        (copy_generation (im_generations impl !!! restored) (cl_rollback_generation closure)) impl
    else clear_has_generation impl in
  set_latest (cl_prior_generation_identity closure) (cl_prior_target closure) (cl_prior_survivor_count closure) impl.

(** The slot state, status, action, reason and result that settle a provisional record. *)
Definition settlement (success survivor : bool) : SlotState * Z * Z * Z * Z :=
  if success then
    if survivor then (slot_committed, record_committed, live_action_committed, live_reason_normal, live_result_settled)
    else (slot_replaced, record_replaced, live_action_replaced, live_reason_replaced, live_result_settled)
  else (slot_rolled_back, record_rolled_back, live_action_rolled_back, live_reason_execution_failed,
        live_result_rolled_back).

Definition settled_action (impl : Impl) (closure : Closure) (status : Status) (provisional : ProvisionalRecord)
    (r : LiveControlUpdateRecord) : LiveControlActionRecord :=
  let '(_, record_state, action, reason, result) := settlement (bool_decide (status = ok)) (pv_survivor provisional) in
  action_event action live_stage_terminal reason result
    (action_status (status_code status)
       (action_generations (pv_generation_identity provisional) (pv_prior_generation_identity provisional)
          (action_admission admitted_accepted record_state (action_about r (base_action impl closure))))).

Definition count_settled (success survivor : bool) (impl : Impl) : Impl :=
  if success then
    if survivor then set_im_committed (u64 (im_committed impl + 1)) impl
    else set_im_replaced (u64 (im_replaced impl + 1)) impl
  else impl.

(** The action of a settled record: with a journal its number is taken before the slot
    changes, otherwise it is emitted afterwards. *)
Definition emit_settled (action : LiveControlActionRecord) (closure : Closure) : Closure :=
  let eligible := cl_replay_eligible closure in
  match cl_lossless closure with
  | Some _ =>
      let '(closure, sequence) := reserve_action closure in
      publish_action (action_eligible (eligible && cl_replay_eligible closure) action) sequence closure
  | None => fst (emit_closure (action_eligible eligible action) closure)
  end.

Definition settle_provisional (status : Status) (impl : Impl) (provisional : ProvisionalRecord) : Impl :=
  let mailbox := pv_mailbox_index provisional in
  let index := pv_slot_index provisional in
  let record := cs_record (control_slot impl mailbox index) in
  let success := bool_decide (status = ok) in
  let '(state, _, _, _, _) := settlement success (pv_survivor provisional) in
  let impl := update_control_slot mailbox index
    (fun s => mkControlSlot state (pv_generation_identity provisional) (cs_record s)) impl in
  let impl := count_settled success (pv_survivor provisional) impl in
  let impl := update_mailbox mailbox vacate impl in
  update_closure (fun closure => emit_settled (settled_action impl closure status provisional record) closure) impl.

(** The retained generations of the transaction get its status. *)
Definition settle_retained_from (begin : nat) (status : Status) (l : list RetainedGeneration) : list RetainedGeneration :=
  take begin l ++ (settle_retained status <$> drop begin l).

Definition finish_transaction (status : Status) (closure : Closure) : Closure :=
  set_cl_transaction_active false
    (set_cl_provisional_records []
       (set_cl_retained_generations
          (settle_retained_from (cl_transaction_retained_begin closure) status (cl_retained_generations closure)) closure)).

Definition settle_step_transaction (impl : Impl) (status : Status) : Impl :=
  match im_closure impl with
  | None => impl
  | Some closure =>
      if negb (cl_transaction_active closure) then impl
      else
        let impl := if decide (status = ok) then impl else restore_generation impl closure in
        let impl := foldl (settle_provisional status) impl (cl_provisional_records closure) in
        update_closure (finish_transaction status) impl
  end.

(** ** Claims and the end of admission *)

(** Quiescent export and restore take every reservation flag, or none. *)
Definition claim_all (impl : Impl) : Impl * bool :=
  match im_closure impl with
  | None => (impl, false)
  | Some closure =>
      if cl_host_claim closure then (impl, false)
      else if from_option (fun j => negb (jr_active_admissions j =? 0)) false (cl_lossless closure) ||
              cl_transaction_active closure then (impl, false)
      else if existsb mb_reservation (im_mailboxes impl) then (impl, false)
      else (update_closure (set_cl_host_claim true)
              (set_im_mailboxes (set_mb_reservation true <$> im_mailboxes impl) impl), true)
  end.

Definition release_all (impl : Impl) : Impl :=
  update_closure (set_cl_host_claim false)
    (set_im_mailboxes (set_mb_reservation false <$> im_mailboxes impl) impl).

Definition close_admission (impl : Impl) : Impl :=
  set_im_admission_open false
    (update_closure (fun closure =>
       match cl_lossless closure with
       | Some j =>
           if jr_admission_close_sequence j =? kInvalidSequence
           then set_cl_lossless (Some (set_jr_admission_close_sequence (rg_next_sequence (cl_actions closure)) j)) closure
           else closure
       | None => closure
       end) impl).

(** One slot of [terminalize_staged_on_stop]. *)
Definition stop_slot (impl : Impl) (position : nat * nat) : Impl :=
  let '(mailbox, index) := position in
  let slot := control_slot impl mailbox index in
  if negb (bool_decide (cs_state slot = slot_staged)) then impl
  else
    let impl := update_control_slot mailbox index
      (fun s => set_cs_terminal_generation 0 (set_cs_state slot_boundary_owned s)) impl in
    let impl := count_stopped (update_mailbox mailbox vacate impl) in
    let impl := emit_dropped (cs_record slot) adm_stopped record_stopped live_action_stopped live_reason_stopped impl in
    update_control_slot mailbox index (set_cs_state slot_stopped) impl.

Definition terminalize_staged_on_stop (impl : Impl) : Impl := foldl stop_slot impl (slot_positions impl).

(** ** Correlation records *)

Definition correlation_action (impl : Impl) (closure : Closure) (checkpoint replay action stage reason result : Z)
    : LiveControlActionRecord :=
  let described := match active_view impl with
                   | Some current =>
                       action_generations (gv_generation_identity current) (gv_generation_identity current)
                         (action_target (gv_target current) (base_action impl closure))
                   | None => base_action impl closure
                   end in
  action_eligible (cl_replay_eligible closure)
    (action_event action stage reason result (action_correlations checkpoint replay described)).

Definition record_checkpoint (impl : Impl) (correlation : Z) : Impl :=
  match im_closure impl with
  | Some closure =>
      if correlation =? 0 then impl
      else emit_action impl (correlation_action impl closure correlation 0 live_action_checkpointed
             live_stage_checkpoint live_reason_checkpoint live_result_settled)
  | None => impl
  end.

Definition record_replay_verified (impl : Impl) (correlation : Z) : Impl :=
  match im_closure impl with
  | Some closure =>
      if correlation =? 0 then impl
      else emit_action impl (correlation_action impl closure 0 correlation live_action_replay_verified
             live_stage_replay live_reason_replay live_result_verified)
  | None => impl
  end.

(** ** Inspection *)

(** The slot a reader finds for a sequence number: neither free nor being written. *)
Definition inspected_slot (impl : Impl) (mailbox sequence : Z) : option (Mailbox * nat * ControlSlot) :=
  if sequence =? 0 then None
  else match im_mailboxes impl !! find_mailbox impl mailbox with
       | None => None
       | Some m =>
           if mb_reclaiming m then None
           else (fun p => (m, fst p, snd p)) <$>
             list_find (fun s => cs_state s <> slot_free /\ cs_state s <> slot_writing /\
                                 lu_mailbox_sequence (cs_record s) = sequence) (mb_slots m)
       end.

Definition record_at (impl : Impl) (mailbox sequence : Z) : option LiveControlUpdateRecord :=
  (fun p => cs_record (snd p)) <$> inspected_slot impl mailbox sequence.

Definition copy_payload (impl : Impl) (mailbox sequence : Z) (output : list Z) : Status * list Z :=
  match inspected_slot impl mailbox sequence with
  | None => (invalid_argument, output)
  | Some (m, index, slot) =>
      if negb (Z.of_nat (length output) =? lu_payload_bytes (cs_record slot)) then (capacity_exceeded, output)
      else (ok, slot_payload m index (length output))
  end.

(** [LiveControlRecordStatusInfo] *)
Record LiveControlRecordStatusInfo := mkRecordStatusInfo {
  si_runtime_id : Z;
  si_configuration_generation : Z;
  si_mailbox_identity : Z;
  si_mailbox_sequence : Z;
  si_producer_identity : Z;
  si_producer_sequence : Z;
  si_generation_identity : Z;
  si_status : Z;
  si_update_kind : Z;
  si_target_kind : Z;
}.

Definition record_status (impl : Impl) (mailbox sequence : Z) : option LiveControlRecordStatusInfo :=
  match inspected_slot impl mailbox sequence with
  | None => None
  | Some (_, _, slot) =>
      let r := cs_record slot in
      Some (mkRecordStatusInfo (im_runtime_id impl) (im_configuration_generation impl) (lu_mailbox_identity r)
              (lu_mailbox_sequence r) (lu_producer_identity r) (lu_producer_sequence r) (cs_terminal_generation slot)
              (public_status (cs_state slot)) (lu_update_kind r) (lu_target_kind r))
  end.

(** [LiveControlMailboxInfo] *)
Record LiveControlMailboxInfo := mkMailboxInfo {
  mi_runtime_id : Z;
  mi_configuration_generation : Z;
  mi_policy_identity : Z;
  mi_mailbox_identity : Z;
  mi_next_mailbox_sequence : Z;
  mi_accepted : Z;
  mi_invalid : Z;
  mi_full : Z;
  mi_busy : Z;
  mi_stale : Z;
  mi_stopped : Z;
  mi_exhausted : Z;
  mi_record_capacity : Z;
  mi_payload_bytes_per_record : Z;
  mi_occupancy : Z;
  mi_producer_count : Z;
  mi_admission_open : bool;
}.

Definition mailbox_info (impl : Impl) (mailbox : Z) : option LiveControlMailboxInfo :=
  m ← im_mailboxes impl !! find_mailbox impl mailbox;
  Some (mkMailboxInfo (im_runtime_id impl) (im_configuration_generation impl)
          (lo_policy_identity (im_policy impl)) mailbox (mb_next_sequence m) (mb_accepted m) (mb_invalid m)
          (mb_full m) (mb_busy m) (mb_stale m) (mb_stopped m) (mb_exhausted m)
          (mr_record_capacity (mb_registration m)) (mr_payload_bytes_per_record (mb_registration m))
          (mb_occupancy m) (mb_producer_count m) (im_admission_open impl)).

(** [LiveControlCommitInfo] *)
Record LiveControlCommitInfo := mkCommitInfo {
  ci_survivor_count : Z;
  ci_runtime_id : Z;
  ci_configuration_generation : Z;
  ci_generation_identity : Z;
  ci_target : LiveControlBoundaryTarget;
  ci_committed : Z;
  ci_replaced : Z;
  ci_missed : Z;
  ci_stopped : Z;
  ci_staged_occupancy : Z;
}.

(** No call interleaves, so the version is the same before and after the copy. *)
Definition commit_info (impl : Impl) : option LiveControlCommitInfo :=
  let occupancy := foldl (fun total m => u64 (total + mb_occupancy m)) 0 (im_mailboxes impl) in
  if Z.odd (im_inspection_version impl) then None
  else if u32_max <? occupancy then None
  else Some (mkCommitInfo (im_latest_survivor_count impl) (im_runtime_id impl) (im_configuration_generation impl)
               (im_latest_generation_identity impl) (im_latest_target impl) (im_committed impl) (im_replaced impl)
               (im_missed impl) (im_stopped impl) occupancy).
