(* ===== verification/LiveControlCreate.v ===== *)
(** * Live control: construction of the mailboxes (rt/src/live_control_mailbox.cpp)

    [LiveControlMailboxSet::create]: the validation of policies and declarations, the
    account of the storage they need, and the initial state.  The sizes of the internal
    structures depend on the platform and are an argument. *)

From stdpp Require Import base list numbers strings.
From Stdlib Require Import ZArith Lia Bool.
From S2P Require Import Prelude Handles RateTimeline CanonicalBytes SnapshotCodec SeqRing LiveControlActions LiveControlState LiveControlMailbox LiveControlBoundary.

Open Scope Z_scope.
Open Scope rtfw_scope.

(** ** Validation *)

Definition CreateError : Type := Status * string.

Definition policy_rejected (policy : LiveControlPolicy) (runtime_id configuration_generation : Z)
    (mailboxes producers : nat) : bool :=
  negb (lo_schema_version policy =? live_control_schema_version) ||
  negb (lo_struct_size policy =? live_control_policy_size) ||
  (lo_policy_identity policy =? 0) || (runtime_id =? 0) || (configuration_generation =? 0) ||
  (lo_mailbox_capacity policy =? 0) || (live_control_mailbox_capacity_limit <? lo_mailbox_capacity policy) ||
  (lo_producer_capacity policy =? 0) || (live_control_producer_capacity_limit <? lo_producer_capacity policy) ||
  (lo_record_capacity policy =? 0) || (live_control_record_capacity_limit <? lo_record_capacity policy) ||
  (lo_payload_bytes_per_record policy =? 0) ||
  (live_control_payload_bytes_limit <? lo_payload_bytes_per_record policy) ||
  (lo_total_payload_storage_bytes policy =? 0) ||
  (live_control_total_storage_limit <? lo_total_payload_storage_bytes policy) ||
  (u64_max <? lo_total_payload_storage_bytes policy) ||
  negb (lo_admission_policy policy =? 1) || negb (lo_reset_rule policy =? 1) || negb (zero (lo_reserved policy)) ||
  Nat.eqb mailboxes 0 || (lo_mailbox_capacity policy <? Z.of_nat mailboxes) ||
  Nat.eqb producers 0 || (lo_producer_capacity policy <? Z.of_nat producers).

Definition closure_rejected (c : LiveControlClosurePolicy) : bool :=
  negb (cp_schema_version c =? live_control_action_schema_version) ||
  negb (cp_struct_size c =? live_control_closure_policy_size) || (cp_policy_identity c =? 0) ||
  (live_control_action_capacity_limit <? cp_action_capacity c) ||
  (live_control_retained_generation_capacity_limit <? cp_retained_generation_capacity c) ||
  (live_control_record_capacity_limit <? cp_retained_record_capacity c) ||
  (live_control_total_storage_limit <? cp_retained_payload_bytes c) ||
  (live_control_record_capacity_limit <? cp_replay_record_capacity c) ||
  (live_control_replay_absolute_max_bytes <? cp_replay_max_bytes c) ||
  negb (cp_rollback_rule c =? 1) || negb (zero (cp_reserved c)) ||
  (cp_replay_enabled c &&
     ((cp_retained_generation_capacity c =? 0) || (cp_retained_record_capacity c =? 0) ||
      (cp_retained_payload_bytes c =? 0) || (cp_replay_record_capacity c =? 0) || (cp_replay_max_bytes c =? 0))).

Definition retention_rejected (closure : option LiveControlClosurePolicy) (r : LiveControlReplayRetentionPolicy) : bool :=
  negb (from_option cp_replay_enabled false closure) ||
  negb (rp_schema_version r =? live_control_lossless_replay_schema_version) ||
  negb (rp_struct_size r =? live_control_retention_policy_size) ||
  (rp_admission_capacity r =? 0) || (live_control_action_capacity_limit <? rp_admission_capacity r) ||
  (rp_payload_capacity_bytes r =? 0) || (live_control_total_storage_limit <? rp_payload_capacity_bytes r) ||
  negb (zero (rp_reserved r)).

Definition mailbox_rejected (policy : LiveControlPolicy) (d : LiveControlMailboxRegistration) : bool :=
  negb (mr_schema_version d =? live_control_schema_version) ||
  negb (mr_struct_size d =? live_control_mailbox_registration_size) || (mr_mailbox_identity d =? 0) ||
  (mr_record_capacity d =? 0) || (mr_payload_bytes_per_record d =? 0) ||
  (lo_payload_bytes_per_record policy <? mr_payload_bytes_per_record d) || negb (zero (mr_reserved d)).

(** [total += capacity; payload += capacity * bytes], checked and held to the policy. *)
Definition charge_mailbox (policy : LiveControlPolicy) (totals : Z * Z) (d : LiveControlMailboxRegistration)
    : option (Z * Z) :=
  records ← checked_add (fst totals) (mr_record_capacity d);
  storage ← checked_multiply (mr_record_capacity d) (mr_payload_bytes_per_record d);
  payload ← checked_add (snd totals) storage;
  if (lo_record_capacity policy <? records) || (lo_total_payload_storage_bytes policy <? payload) then None
  else Some (records, payload).

(** The loop over the mailbox declarations; [prior] are the identities already seen. *)
Fixpoint check_mailboxes (policy : LiveControlPolicy) (prior : list Z) (totals : Z * Z)
    (l : list LiveControlMailboxRegistration) : CreateError + (Z * Z) :=
  match l with
  | [] => inr totals
  | d :: l =>
      if mailbox_rejected policy d then inl (invalid_config, "live-control mailbox declaration is invalid"%string)
      else if bool_decide (mr_mailbox_identity d ∈ prior)
      then inl (invalid_config, "live-control mailbox identity is duplicated"%string)
      else match charge_mailbox policy totals d with
           | None => inl (capacity_exceeded, "live-control mailbox storage exceeds policy bounds"%string)
           | Some totals => check_mailboxes policy (prior ++ [mr_mailbox_identity d]) totals l
           end
  end.

Definition producer_rejected (d : LiveControlProducerRegistration) : bool :=
  negb (pg_schema_version d =? live_control_schema_version) ||
  negb (pg_struct_size d =? live_control_producer_registration_size) || (pg_mailbox_identity d =? 0) ||
  (pg_producer_identity d =? 0) || (pg_first_sequence d =? 0) || (pg_first_sequence d =? kInvalidSequence) ||
  negb (pg_reserved d =? 0).

Fixpoint check_producers (mailboxes : list LiveControlMailboxRegistration) (prior : list Z)
    (l : list LiveControlProducerRegistration) : CreateError + unit :=
  match l with
  | [] => inr tt
  | d :: l =>
      if producer_rejected d then inl (invalid_config, "live-control producer declaration is invalid"%string)
      else if negb (existsb (fun m => mr_mailbox_identity m =? pg_mailbox_identity d) mailboxes)
      then inl (invalid_config, "live-control producer names an unknown mailbox"%string)
      else if bool_decide (pg_producer_identity d ∈ prior)
      then inl (invalid_config, "live-control producer identity is duplicated"%string)
      else check_producers mailboxes (prior ++ [pg_producer_identity d]) l
  end.

(** ** Storage *)

(** [sizeof] of the structures that are not part of an interface. *)
Record ControlSizes := mkControlSizes {
  sz_set : Z;
  sz_impl : Z;
  sz_mailbox_pointer : Z;
  sz_mailbox : Z;
  sz_slot : Z;
  sz_producer : Z;
  sz_rate_target : Z;
  sz_candidate : Z;
  sz_closure : Z;
  sz_action_ring : Z;
  sz_provisional : Z;
  sz_retained_generation : Z;
  sz_retained_record : Z;
  sz_lossless : Z;
  sz_retained_admission : Z;
  sz_size_t : Z;
}.

Definition record_view_size : Z := 144.
Definition kCheckpointHeaderBytes : Z := 256.
Definition kCheckpointMailboxBytes : Z := 128.
Definition kCheckpointProducerBytes : Z := 48.
Definition kCheckpointSlotBytes : Z := 160.
Definition kCheckpointGenerationRecordBytes : Z := 144.
Definition kCheckpointRateTargetBytes : Z := 8.

(** [checked_multiply(count, size, bytes) && checked_add(total, bytes, total)] *)
Definition charge (count size : Z) (total : Z) : option Z :=
  bytes ← checked_multiply count size; checked_add total bytes.

Definition charge_mailbox_storage (sizes : ControlSizes) (total : option Z) (d : LiveControlMailboxRegistration) : option Z :=
  total ← total;
  total ← checked_add total (sz_mailbox sizes);
  total ← charge (mr_record_capacity d) (sz_slot sizes) total;
  charge (mr_record_capacity d) (mr_payload_bytes_per_record d) total.

Definition checkpoint_bytes (mailboxes producers releases total_records total_payload : Z) : option Z :=
  total ← charge mailboxes kCheckpointMailboxBytes kCheckpointHeaderBytes;
  total ← charge producers kCheckpointProducerBytes total;
  total ← charge total_records kCheckpointSlotBytes total;
  total ← checked_add total total_payload;
  total ← charge total_records kCheckpointGenerationRecordBytes total;
  total ← checked_add total total_payload;
  charge releases kCheckpointRateTargetBytes total.

Definition base_storage (sizes : ControlSizes) (mailboxes : list LiveControlMailboxRegistration)
    (producers releases total_records total_payload : Z) : CreateError + Z :=
  let overflow := (capacity_exceeded, "live-control control storage overflows"%string) in
  match charge (Z.of_nat (length mailboxes)) (sz_mailbox_pointer sizes) (sz_set sizes + sz_impl sizes) with
  | None => inl overflow
  | Some total =>
      match foldl (charge_mailbox_storage sizes) (Some total) mailboxes with
      | None => inl overflow
      | Some total =>
          match (total ← charge producers (sz_producer sizes) total;
                 total ← charge releases (sz_rate_target sizes) total;
                 total ← charge total_records (sz_candidate sizes) total;
                 views ← checked_multiply total_records record_view_size;
                 total ← charge views 2 total;
                 charge total_payload 2 total) with
          | None => inl overflow
          | Some total => inr total
          end
      end
  end.

Definition closure_storage (sizes : ControlSizes) (c : LiveControlClosurePolicy)
    (total_records total_payload bytes total : Z) : option Z :=
  bytes ← charge (cp_action_capacity c) (slot_size (record := LiveControlActionRecord)) bytes;
  bytes ← charge total_records record_view_size bytes;
  bytes ← checked_add bytes total_payload;
  bytes ← charge total_records (sz_provisional sizes) bytes;
  bytes ← charge (cp_retained_generation_capacity c) (sz_retained_generation sizes) bytes;
  bytes ← charge (cp_retained_record_capacity c) (sz_retained_record sizes) bytes;
  bytes ← checked_add bytes (cp_retained_payload_bytes c);
  checked_add total bytes.

Definition retention_storage (sizes : ControlSizes) (r : LiveControlReplayRetentionPolicy) (checkpoint total : Z) : option Z :=
  extra ← charge (rp_admission_capacity r) (sz_retained_admission sizes + sz_size_t sizes) (sz_lossless sizes);
  extra ← checked_add extra (rp_payload_capacity_bytes r);
  extra ← checked_add extra checkpoint;
  checked_add total extra.

Definition required_storage (sizes : ControlSizes) (closure : option LiveControlClosurePolicy)
    (retention : LiveControlReplayRetentionPolicy) (mailboxes : list LiveControlMailboxRegistration)
    (producers releases total_records total_payload : Z) : CreateError + Z :=
  let! total := base_storage sizes mailboxes producers releases total_records total_payload in
  match closure with
  | None => inr total
  | Some c =>
      match checkpoint_bytes (Z.of_nat (length mailboxes)) producers releases total_records total_payload with
      | None => inl (capacity_exceeded, "live-control checkpoint storage overflows"%string)
      | Some checkpoint =>
          match checked_add (sz_closure sizes + sz_action_ring sizes) checkpoint with
          | None => inl (capacity_exceeded, "live-control checkpoint storage overflows"%string)
          | Some bytes =>
              match closure_storage sizes c total_records total_payload bytes total with
              | None => inl (capacity_exceeded, "live-control closure storage overflows"%string)
              | Some total =>
                  if rp_policy_identity retention =? 0 then inr total
                  else match retention_storage sizes retention checkpoint total with
                       | None => inl (capacity_exceeded, "trusted replay retention storage overflows"%string)
                       | Some total => inr total
                       end
              end
          end
      end
  end.

(** ** The initial state *)

Definition create_mailbox (d : LiveControlMailboxRegistration) : Mailbox :=
  mkMailbox d 0 false false 0 (replicate (Z.to_nat (mr_record_capacity d)) empty_control_slot)
    (replicate (Z.to_nat (mr_record_capacity d) * Z.to_nat (mr_payload_bytes_per_record d)) 0) 1 0 0 0 0 0 0 0 0 0.

(** The producer and its owner, whose count grows. *)
Definition create_producer (acc : list Mailbox * list Producer) (d : LiveControlProducerRegistration)
    : list Mailbox * list Producer :=
  let '(mailboxes, producers) := acc in
  let index := from_option fst (length mailboxes)
    (list_find (fun m => mailbox_identity m = pg_mailbox_identity d) mailboxes) in
  (alter (fun m => set_mb_producer_count (u32 (mb_producer_count m + 1)) m) index mailboxes,
   producers ++ [mkProducer (pg_mailbox_identity d) (pg_producer_identity d) index (pg_first_sequence d)
                   (pg_first_sequence d)]).

Definition create_target (r : ReferenceRelease) : RateTarget :=
  mkRateTarget (rr_release_time_ns r) (rr_domain_release_sequence r)
    (u32 (Z.of_nat (rr_domain_registration_index r))) (PhaseHandle_index (rr_phase r)) (rr_substep_ordinal r) false.

Definition create_journal (r : LiveControlReplayRetentionPolicy) : LosslessRetention :=
  mkLossless r (replicate (Z.to_nat (rp_admission_capacity r)) LiveControlRetainedAdmission_default)
    (replicate (Z.to_nat (rp_payload_capacity_bytes r)) 0) 0 0 0 kInvalidSequence.

Definition create_closure (c : LiveControlClosurePolicy) (retention : LiveControlReplayRetentionPolicy)
    (ring : Ring) (records payload : nat) : Closure :=
  mkClosure c (if rp_policy_identity retention =? 0 then None else Some (create_journal retention)) ring
    (empty_generation records payload) [] [] [] [] 0 false false false 0 LiveControlBoundaryTarget_default 0 true.

Definition create_impl (policy : LiveControlPolicy) (runtime_id configuration_generation : Z)
    (mailboxes : list LiveControlMailboxRegistration) (producers : list LiveControlProducerRegistration)
    (releases : list ReferenceRelease) (closure : option Closure) (records payload : nat) : Impl :=
  let '(boxes, owners) := foldl create_producer (create_mailbox <$> mailboxes, []) producers in
  mkImpl policy runtime_id configuration_generation true boxes owners (create_target <$> releases)
    (replicate 2 (empty_generation records payload)) 0 false false 0 0 0 0 0 0 0 LiveControlBoundaryTarget_default 0
    closure payload.

Definition create (sizes : ControlSizes) (policy : LiveControlPolicy) (closure : option LiveControlClosurePolicy)
    (retention : LiveControlReplayRetentionPolicy) (runtime_id configuration_generation memory_budget_bytes : Z)
    (mailboxes : list LiveControlMailboxRegistration) (producers : list LiveControlProducerRegistration)
    (releases : list ReferenceRelease) : CreateError + Impl :=
  let! _ := require (negb (policy_rejected policy runtime_id configuration_generation (length mailboxes) (length producers)))
    (invalid_config, "live-control policy or declaration counts are invalid"%string) in
  let! _ := require (negb (from_option closure_rejected false closure))
    (invalid_config, "live-control closure policy is invalid"%string) in
  let! _ := require ((rp_policy_identity retention =? 0) || negb (retention_rejected closure retention))
    (invalid_config, "trusted replay retention policy is invalid"%string) in
  let! totals := check_mailboxes policy [] (0, 0) mailboxes in
  let! _ := check_producers mailboxes [] producers in
  let '(total_records, total_payload) := totals in
  let! storage := required_storage sizes closure retention mailboxes (Z.of_nat (length producers))
    (Z.of_nat (length releases)) total_records total_payload in
  let! _ := require (storage <=? memory_budget_bytes)
    (invalid_config, "live-control control storage exceeds Runtime memory budget"%string) in
  let! _ := require (forallb (fun r => Z.of_nat (rr_domain_registration_index r) <=? kInvalidIndex) releases)
    (capacity_exceeded, "live-control rate target identity overflows"%string) in
  let records := Z.to_nat total_records in
  let payload := Z.to_nat total_payload in
  match closure with
  | None => inr (create_impl policy runtime_id configuration_generation mailboxes producers releases None records payload)
  | Some c =>
      match LiveControlActionRing_create (cp_action_capacity c) with
      | None => inl (internal_error, "live-control mailbox construction failed"%string)
      | Some ring =>
          match checkpoint_bytes (Z.of_nat (length mailboxes)) (Z.of_nat (length producers))
                  (Z.of_nat (length releases)) total_records total_payload with
          | None => inl (capacity_exceeded, "live-control checkpoint layout overflows"%string)
          | Some _ =>
              inr (create_impl policy runtime_id configuration_generation mailboxes producers releases
                     (Some (create_closure c retention ring records payload)) records payload)
          end
      end
  end.
