(* ===== verification/LiveControlCore.v ===== *)
(** * Live control: slots and their transitions

    Every operation changes a mailbox by three transitions of single slots: a record is
    staged into a free or terminal slot, a staged slot becomes owned by a boundary, and a
    staged or owned slot reaches a terminal state.  This file states what holds of one
    mailbox and shows that the transitions keep it. *)

From stdpp Require Import base list numbers.
From Stdlib Require Import ZArith Lia Bool.
From S2P Require Import Prelude CanonicalBytes SnapshotCodec ListSums SeqRing LiveControlActions LiveControlState LiveControlMailbox LiveControlBoundary.

Open Scope Z_scope.

(** ** Writing into a buffer *)

Lemma take_drop_lookup {A} (l : list A) a n i :
  take n (drop a l) !! i = if decide (i < n)%nat then l !! (a + i)%nat else None.
Proof.
  destruct (decide (i < n)%nat).
  - rewrite lookup_take_lt, lookup_drop by lia. done.
  - apply lookup_take_ge. lia.
Qed.

Lemma read_inserts_other {A} (l p : list A) a b n :
  (a + n <= b \/ b + length p <= a)%nat -> take n (drop a (list_inserts b p l)) = take n (drop a l).
Proof.
  intros H. apply list_eq. intros i. rewrite !take_drop_lookup. destruct (decide (i < n)%nat); [|done].
  destruct H; [apply list_lookup_inserts_lt|apply list_lookup_inserts_ge]; lia.
Qed.

Lemma read_inserts_same {A} (l p : list A) a n :
  (n <= length p)%nat -> (a + length p <= length l)%nat -> take n (drop a (list_inserts a p l)) = take n p.
Proof.
  intros Hn Hl. apply list_eq. intros i. rewrite take_drop_lookup. destruct (decide (i < n)%nat).
  - rewrite list_lookup_inserts, lookup_take_lt by lia. f_equal. lia.
  - symmetry. apply lookup_take_ge. lia.
Qed.

(** ** Slots *)

Definition live_state (state : SlotState) : bool :=
  match state with slot_staged | slot_boundary_owned => true | _ => false end.

Definition slot_weight (s : ControlSlot) : Z := if live_state (cs_state s) then 1 else 0.

(** A slot that no record occupies any more, or none yet. *)
Definition reusable_state (state : SlotState) : bool := bool_decide (state = slot_free) || terminal_state state.

Definition claim_record (m : Mailbox) (slot : nat) (r : LiveControlUpdateRecord) : Prop :=
  lu_mailbox_identity r = mailbox_identity m /\ lu_producer_identity r <> 0 /\ lu_producer_sequence r <> 0 /\
  update_kind_valid (lu_update_kind r) = true /\
  0 <= lu_payload_bytes r <= Z.of_nat (payload_stride m) /\
  (lu_payload_bytes r <> 0 \/ lu_update_kind r = update_clear_fault) /\
  exact_target (target_from_record r) = true /\
  live_control_payload_digest (slot_payload m slot (Z.to_nat (lu_payload_bytes r))) = lu_payload_digest r.

Record mailbox_inv (m : Mailbox) : Prop := {
  inv_identity : mailbox_identity m <> 0;
  inv_capacity : 0 < mr_record_capacity (mb_registration m) <= live_control_record_capacity_limit;
  inv_slots : length (mb_slots m) = record_capacity m;
  inv_storage : length (mb_payload_storage m) = (record_capacity m * payload_stride m)%nat;
  inv_states : Forall (fun s => cs_state s <> slot_writing) (mb_slots m);
  inv_next : 1 <= mb_next_sequence m <= u64_max;
  inv_sequences : forall k s, mb_slots m !! k = Some s -> cs_state s <> slot_free ->
    1 <= lu_mailbox_sequence (cs_record s) < mb_next_sequence m;
  inv_unique : forall k l s t, mb_slots m !! k = Some s -> mb_slots m !! l = Some t ->
    cs_state s <> slot_free -> cs_state t <> slot_free ->
    lu_mailbox_sequence (cs_record s) = lu_mailbox_sequence (cs_record t) -> k = l;
  inv_records : forall k s, mb_slots m !! k = Some s -> cs_state s <> slot_free -> claim_record m k (cs_record s);
  inv_free : forall k s, mb_slots m !! k = Some s -> cs_state s = slot_free -> cs_record s = LiveControlUpdateRecord_default;
  inv_occupancy : mb_occupancy m = zsum slot_weight (mb_slots m);
}.

(** What the invariant depends on: statistics and flags are free. *)
Definition mailbox_core (m : Mailbox) : LiveControlMailboxRegistration * list ControlSlot * list Z * Z * Z :=
  (mb_registration m, mb_slots m, mb_payload_storage m, mb_next_sequence m, mb_occupancy m).

Lemma mailbox_inv_core m m' : mailbox_core m = mailbox_core m' -> mailbox_inv m -> mailbox_inv m'.
Proof.
  destruct m, m'. unfold mailbox_core. simpl. intros [= -> -> -> -> ->] []. constructor; assumption.
Qed.

Lemma slot_weight_range s : 0 <= slot_weight s <= 1.
Proof. unfold slot_weight. destruct (live_state _); lia. Qed.

Lemma occupancy_range m : mailbox_inv m ->
  0 <= mb_occupancy m <= mr_record_capacity (mb_registration m).
Proof.
  intros Hm. rewrite (inv_occupancy m Hm). pose proof (inv_capacity m Hm). split.
  - rewrite <- (Z.mul_0_l (Z.of_nat (length (mb_slots m)))), <- zsum_const. apply zsum_le. intros s _. apply slot_weight_range.
  - transitivity (zsum (fun _ => 1) (mb_slots m)).
    + apply zsum_le. intros s _. apply slot_weight_range.
    + rewrite zsum_const, (inv_slots m Hm). unfold record_capacity. lia.
Qed.

(** ** Transitions *)

(** A slot gets a new state and terminal generation; its record stays. *)
Definition move_slot (state : SlotState) (generation : Z) (slot : nat) (m : Mailbox) : Mailbox :=
  set_mb_slots (alter (fun s => mkControlSlot state generation (cs_record s)) slot (mb_slots m)) m.

(** The last transition of a record. *)
Definition settle_slot (state : SlotState) (generation : Z) (slot : nat) (m : Mailbox) : Mailbox :=
  vacate (move_slot state generation slot m).

Lemma zsum_alter {A} (f : A -> Z) (g : A -> A) l k x :
  l !! k = Some x -> zsum f (alter g k l) = zsum f l - f x + f (g x).
Proof.
  revert k. induction l as [|y l IH]; intros [|k] H; simplify_eq/=; [lia|].
  change (f y + zsum f (alter g k l) = f y + zsum f l - f x + f (g x)). rewrite (IH k) by done. lia.
Qed.

(** The parts of the invariant that a change of state keeps, whatever the state is. *)
Lemma move_slot_inv state generation slot m s :
  mailbox_inv m -> mb_slots m !! slot = Some s -> cs_state s <> slot_free ->
  state <> slot_writing -> state <> slot_free -> forall o,
  o = mb_occupancy m - slot_weight s + (if live_state state then 1 else 0) ->
  mailbox_inv (set_mb_occupancy o (move_slot state generation slot m)).
Proof.
  intros Hm Hs Hfree Hw Hf o ->.
  assert (Hlook : forall k t, alter (fun s => mkControlSlot state generation (cs_record s)) slot (mb_slots m) !! k = Some t ->
    exists t', mb_slots m !! k = Some t' /\ cs_record t = cs_record t' /\ (cs_state t <> slot_free -> cs_state t' <> slot_free)).
  { intros k t. destruct (decide (k = slot)) as [->|Hne].
    - rewrite list_lookup_alter_eq, Hs. intros [= <-]. eauto.
    - rewrite list_lookup_alter_ne by done. eauto. }
  assert (Hkeep : forall k t, alter (fun s => mkControlSlot state generation (cs_record s)) slot (mb_slots m) !! k = Some t ->
    cs_state t = slot_free -> mb_slots m !! k = Some t).
  { intros k t. rewrite list_lookup_alter. case_decide as Hd; [subst slot|done].
    rewrite Hs. intros [= <-]. done. }
  destruct Hm. constructor; simpl; try done.
  - by rewrite length_alter.
  - apply Forall_alter; [done|]. simpl. done.
  - intros k t (t' & Ht & -> & Hst)%Hlook Hn. eauto.
  - intros k l s1 s2 (t1 & H1 & -> & Hs1)%Hlook (t2 & H2 & -> & Hs2)%Hlook Hn1 Hn2. eauto.
  - intros k t (t' & Ht & -> & Hst)%Hlook Hn. apply inv_records0; eauto.
  - intros k t Ht Hst. apply (inv_free0 k t); auto.
  - rewrite (zsum_alter _ _ _ _ _ Hs), inv_occupancy0. done.
Qed.

Lemma set_mb_occupancy_same m : set_mb_occupancy (mb_occupancy m) m = m.
Proof. by destruct m. Qed.

Lemma own_slot_inv m slot s generation :
  mailbox_inv m -> mb_slots m !! slot = Some s -> cs_state s = slot_staged ->
  mailbox_inv (move_slot slot_boundary_owned generation slot m).
Proof.
  intros Hm Hs Hst. rewrite <- (set_mb_occupancy_same (move_slot _ _ _ _)).
  apply (move_slot_inv _ _ _ _ s); rewrite ?Hst; try done. unfold slot_weight. rewrite Hst. simpl. lia.
Qed.

Lemma vacate_exact m slot s :
  mailbox_inv m -> mb_slots m !! slot = Some s -> live_state (cs_state s) = true ->
  u32 (mb_occupancy m - 1) = mb_occupancy m - 1.
Proof.
  intros Hm Hs Hl. pose proof (occupancy_range m Hm). pose proof (inv_capacity m Hm).
  assert (1 <= mb_occupancy m).
  { rewrite (inv_occupancy m Hm), <- (list_insert_id _ _ _ Hs).
    assert (Hp : zsum slot_weight (mb_slots m) = zsum slot_weight (delete slot (mb_slots m)) + 1).
    { rewrite (delete_Permutation _ _ _ Hs) at 1. simpl. unfold slot_weight at 1. rewrite Hl. lia. }
    rewrite (list_insert_id _ _ _ Hs), Hp.
    assert (0 <= zsum slot_weight (delete slot (mb_slots m))); [|lia].
    rewrite <- (Z.mul_0_l (Z.of_nat (length (delete slot (mb_slots m))))), <- zsum_const. apply zsum_le.
    intros x _. apply slot_weight_range. }
  unfold u32. apply Z.mod_small. unfold live_control_record_capacity_limit in *. lia.
Qed.

Lemma settle_slot_inv m slot s state generation :
  mailbox_inv m -> mb_slots m !! slot = Some s -> live_state (cs_state s) = true -> terminal_state state = true ->
  mailbox_inv (settle_slot state generation slot m).
Proof.
  intros Hm Hs Hl Ht. unfold settle_slot, vacate.
  change (mb_occupancy (move_slot state generation slot m)) with (mb_occupancy m).
  rewrite (vacate_exact m slot s) by done. apply (move_slot_inv _ _ _ _ s); try done.
  - by destruct (cs_state s).
  - by destruct state.
  - by destruct state.
  - unfold slot_weight. rewrite Hl. destruct state; simpl; (done || lia).
Qed.

(** ** Staging *)

(** The claimed slot filled, counted and numbered. *)
Definition stage_slot (slot : nat) (r : LiveControlUpdateRecord) (payload : list Z) (m : Mailbox) : Mailbox :=
  set_mb_next_sequence (u64 (lu_mailbox_sequence r + 1))
    (set_slot_state slot_staged slot (occupy (write_slot slot r payload m))).

(** A record as [structurally_valid] leaves it, with the number the mailbox assigns. *)
Definition stageable (m : Mailbox) (r : LiveControlUpdateRecord) (payload : list Z) : Prop :=
  lu_mailbox_identity r = mailbox_identity m /\ lu_producer_identity r <> 0 /\ lu_producer_sequence r <> 0 /\
  update_kind_valid (lu_update_kind r) = true /\ lu_payload_bytes r = Z.of_nat (length payload) /\
  (length payload <= payload_stride m)%nat /\
  (lu_payload_bytes r <> 0 \/ lu_update_kind r = update_clear_fault) /\
  exact_target (target_from_record r) = true /\ live_control_payload_digest payload = lu_payload_digest r.

Lemma stage_slot_slots slot r payload m :
  mb_slots (stage_slot slot r payload m) = alter (fun _ => mkControlSlot slot_staged 0 r) slot (mb_slots m).
Proof. unfold stage_slot. simpl. by rewrite list_alter_alter_eq. Qed.

Lemma stage_slot_payload slot r payload m k n :
  length (mb_payload_storage m) = (record_capacity m * payload_stride m)%nat ->
  (slot < record_capacity m)%nat -> (length payload <= payload_stride m)%nat -> (n <= payload_stride m)%nat ->
  slot_payload (stage_slot slot r payload m) k n =
    if decide (k = slot) then take n (payload ++ replicate (payload_stride m - length payload) 0)
    else slot_payload m k n.
Proof.
  intros Hl Hs Hp Hn. unfold slot_payload. simpl. destruct (decide (k = slot)) as [->|Hne].
  - apply read_inserts_same; rewrite length_app, length_replicate; [lia|]. nia.
  - apply read_inserts_other. rewrite length_app, length_replicate. assert (k < slot \/ slot < k)%nat as [|] by lia; [left|right]; nia.
Qed.

Lemma stage_slot_inv m slot s r payload :
  mailbox_inv m -> mb_slots m !! slot = Some s -> reusable_state (cs_state s) = true ->
  mb_next_sequence m <> u64_max -> lu_mailbox_sequence r = mb_next_sequence m -> stageable m r payload ->
  mailbox_inv (stage_slot slot r payload m).
Proof.
  intros Hm Hs Hre Hne Hseq Hr.
  assert (Hslot : (slot < record_capacity m)%nat).
  { rewrite <- (inv_slots m Hm). by eapply lookup_lt_Some. }
  assert (Hnext : mb_next_sequence (stage_slot slot r payload m) = mb_next_sequence m + 1).
  { simpl. rewrite Hseq. apply u64_small. pose proof (inv_next m Hm). unfold is_u64. lia. }
  assert (Hw : slot_weight s = 0).
  { unfold slot_weight. by destruct (cs_state s). }
  assert (Hlook : forall k t, mb_slots (stage_slot slot r payload m) !! k = Some t ->
    (k = slot /\ t = mkControlSlot slot_staged 0 r) \/ (k <> slot /\ mb_slots m !! k = Some t)).
  { intros k t. rewrite stage_slot_slots. destruct (decide (k = slot)) as [->|Hk].
    - rewrite list_lookup_alter_eq, Hs. intros [= <-]. by left.
    - rewrite list_lookup_alter_ne by done. by right. }
  pose proof (occupancy_range m Hm) as Hocc. destruct Hr as (H1 & H2 & H3 & H4 & H5 & H6 & H7 & H8 & H9).
  pose proof Hm as Hm'. destruct Hm'. constructor; try done.
  - simpl. by rewrite !length_alter.
  - simpl. by rewrite length_inserts.
  - rewrite stage_slot_slots. apply Forall_alter; done.
  - rewrite Hnext. unfold u64_max in *. lia.
  - intros k t [[-> ->]|[Hk Ht]]%Hlook Hn; rewrite Hnext; simpl; [lia|].
    specialize (inv_sequences0 k t Ht Hn). lia.
  - intros k l s1 s2 [[-> ->]|[Hk Ht]]%Hlook [[-> ->]|[Hk2 Ht2]]%Hlook Hn1 Hn2 Heq; try done.
    + simpl in Heq. specialize (inv_sequences0 l s2 Ht2 Hn2). lia.
    + simpl in Heq. specialize (inv_sequences0 k s1 Ht Hn1). lia.
    + eauto.
  - intros k t [[-> ->]|[Hk Ht]]%Hlook Hn.
    + simpl. unfold claim_record. rewrite stage_slot_payload by (done || lia).
      rewrite decide_True by done. rewrite H5, Nat2Z.id, take_app_length.
      rewrite H5 in H7. change (payload_stride (stage_slot slot r payload m)) with (payload_stride m).
      split_and!; (done || lia).
    + destruct (inv_records0 k t Ht Hn) as (C1 & C2 & C3 & C4 & C5 & C6 & C7 & C8).
      unfold claim_record. rewrite stage_slot_payload, decide_False by (done || lia). done.
  - intros k t [[-> ->]|[Hk Ht]]%Hlook Hst; [done|]. by apply (inv_free0 k t).
  - rewrite stage_slot_slots, (zsum_alter _ _ _ _ _ Hs), Hw. unfold stage_slot. simpl.
    rewrite inv_occupancy0 in *. unfold slot_weight at 3, u32. cbn [cs_state live_state]. rewrite Z.mod_small; [lia|].
    unfold live_control_record_capacity_limit in *. lia.
Qed.

(** A change of state alone is a move that keeps the generation of the slot. *)
Lemma set_slot_state_move state slot m s :
  mb_slots m !! slot = Some s -> set_slot_state state slot m = move_slot state (cs_terminal_generation s) slot m.
Proof.
  intros Hs. unfold set_slot_state, move_slot. f_equal. apply list_alter_ext; [|done].
  intros x Hx. simplify_eq. done.
Qed.

(** The statistics and the reservation flag are outside the core. *)
Lemma count_result_core result m : mailbox_core (count_result result m) = mailbox_core m.
Proof. by destruct result. Qed.

Lemma set_reservation_core b m : mailbox_core (set_mb_reservation b m) = mailbox_core m.
Proof. done. Qed.

(** * Live control: the state without its log

    Emitting actions and journalling admissions change only the log of the closure.  Two
    states are equivalent when they agree on everything else; the operations respect that
    equivalence, so the log can be ignored when slots, boundaries and generations are
    considered.  Slots are addressed by mailbox and index. *)

Open Scope Z_scope.

(** ** States that differ in the log *)

(** Everything of the closure that is not ring, journal or retained generations. *)
Definition closure_core (c : Closure) : Closure :=
  set_cl_lossless None
    (set_cl_actions (mkRing [] 0 0 0 0) (set_retained [] [] [] (set_cl_replay_eligible true c))).

Definition control_core (i : Impl) : Impl := set_im_closure (closure_core <$> im_closure i) i.

Definition same_control (i i' : Impl) : Prop := control_core i = control_core i'.

#[export] Instance same_control_equiv : Equivalence same_control.
Proof. unfold same_control. split; repeat intro; congruence. Qed.

Infix "≈c" := same_control (at level 70) : rtfw_scope.
Local Open Scope rtfw_scope.

(** The projections that equivalent states share. *)
Lemma same_control_fields i i' : i ≈c i' ->
  im_mailboxes i = im_mailboxes i' /\ im_rate_targets i = im_rate_targets i' /\
  im_host_boundary_started i = im_host_boundary_started i' /\ im_last_host_boundary i = im_last_host_boundary i' /\
  im_generations i = im_generations i' /\ im_active_generation i = im_active_generation i' /\
  im_has_generation i = im_has_generation i' /\ im_runtime_id i = im_runtime_id i' /\
  im_configuration_generation i = im_configuration_generation i' /\ im_admission_open i = im_admission_open i' /\
  im_total_payload_storage_bytes i = im_total_payload_storage_bytes i' /\
  closure_core <$> im_closure i = closure_core <$> im_closure i'.
Proof. destruct i, i'. unfold same_control, control_core. simpl. intros [= -> ->]. simplify_eq. done. Qed.

Lemma same_control_closure i i' c : i ≈c i' -> im_closure i = Some c ->
  exists c', im_closure i' = Some c' /\ closure_core c = closure_core c'.
Proof.
  intros H%same_control_fields Hc. destruct H as (_ & _ & _ & _ & _ & _ & _ & _ & _ & _ & _ & H).
  rewrite Hc in H. destruct (im_closure i') as [c'|]; [|done]. exists c'. split; [done|]. by apply (inj Some) in H.
Qed.

(** Updates that do not touch the closure respect the equivalence. *)
Ltac respects f := intros i i' H; change (f (control_core i) = f (control_core i')); by rewrite H.

#[export] Instance update_mailbox_proper a f : Proper (same_control ==> same_control) (update_mailbox a f).
Proof. respects (update_mailbox a f). Qed.
#[export] Instance update_control_slot_proper a k f : Proper (same_control ==> same_control) (update_control_slot a k f).
Proof. respects (update_control_slot a k f). Qed.
#[export] Instance count_missed_proper : Proper (same_control ==> same_control) (count_missed).
Proof. respects (count_missed). Qed.
#[export] Instance count_stopped_proper : Proper (same_control ==> same_control) (count_stopped).
Proof. respects (count_stopped). Qed.
#[export] Instance bump_inspection_proper : Proper (same_control ==> same_control) (bump_inspection).
Proof. respects (bump_inspection). Qed.
#[export] Instance set_latest_proper z t n : Proper (same_control ==> same_control) (set_latest z t n).
Proof. respects (set_latest z t n). Qed.
#[export] Instance set_active_generation_proper n g : Proper (same_control ==> same_control) (set_active_generation n g).
Proof. respects (set_active_generation n g). Qed.
#[export] Instance clear_has_generation_proper : Proper (same_control ==> same_control) (clear_has_generation).
Proof. respects (clear_has_generation). Qed.
#[export] Instance set_im_producers_proper ps : Proper (same_control ==> same_control) (set_im_producers ps).
Proof. respects (set_im_producers ps). Qed.
#[export] Instance set_im_committed_proper z : Proper (same_control ==> same_control) (set_im_committed z).
Proof. respects (set_im_committed z). Qed.
#[export] Instance set_im_replaced_proper z : Proper (same_control ==> same_control) (set_im_replaced z).
Proof. respects (set_im_replaced z). Qed.
#[export] Instance set_host_boundary_proper z : Proper (same_control ==> same_control) (set_host_boundary z).
Proof. respects (set_host_boundary z). Qed.
#[export] Instance set_im_rate_targets_proper ts : Proper (same_control ==> same_control) (set_im_rate_targets ts).
Proof. respects (set_im_rate_targets ts). Qed.
#[export] Instance set_im_mailboxes_proper ms : Proper (same_control ==> same_control) (set_im_mailboxes ms).
Proof. respects (set_im_mailboxes ms). Qed.
#[export] Instance set_im_missed_proper z : Proper (same_control ==> same_control) (set_im_missed z).
Proof. respects (set_im_missed z). Qed.
#[export] Instance count_settled_proper b s : Proper (same_control ==> same_control) (count_settled b s).
Proof. destruct b, s; respects (count_settled true true) || respects (count_settled true false) || (intros i i' H; exact H). Qed.

(** ** The log *)

Lemma closure_core_disqualify c : closure_core (disqualify c) = closure_core c.
Proof. by destruct c. Qed.

Lemma closure_core_actions g c : closure_core (set_cl_actions g c) = closure_core c.
Proof. by destruct c. Qed.

Lemma closure_core_lossless j c : closure_core (set_cl_lossless j c) = closure_core c.
Proof. by destruct c. Qed.

Lemma closure_core_retained x y z c : closure_core (set_retained x y z c) = closure_core c.
Proof. by destruct c. Qed.

Create Rewrite HintDb log.
#[global] Hint Rewrite closure_core_disqualify closure_core_actions closure_core_lossless closure_core_retained : log.

Lemma closure_core_publish a s c : closure_core (publish_action a s c) = closure_core c.
Proof. unfold publish_action. destruct (LiveControlActionRing_publish_reserved _ _ _) as [g []]; by autorewrite with log. Qed.

Lemma closure_core_reserve c : closure_core (fst (reserve_action c)) = closure_core c.
Proof. unfold reserve_action. destruct (LiveControlActionRing_reserve_sequence _) as [[g s] []]; simpl; by autorewrite with log. Qed.

Lemma closure_core_emit a c : closure_core (fst (emit_closure a c)) = closure_core c.
Proof.
  unfold emit_closure. destruct (LiveControlActionRing_reserve_sequence _) as [[g s] []]; simpl;
    rewrite ?closure_core_publish; by autorewrite with log.
Qed.

#[global] Hint Rewrite closure_core_publish closure_core_reserve closure_core_emit : log.

Lemma closure_core_emit_settled a c : closure_core (emit_settled a c) = closure_core c.
Proof.
  unfold emit_settled. destruct (cl_lossless c); [|by autorewrite with log].
  destruct (reserve_action c) as [c' s] eqn:E. rewrite closure_core_publish.
  by rewrite <- (closure_core_reserve c), E.
Qed.

Lemma closure_core_retain c g p s : closure_core (fst (retain_generation c g p s)) = closure_core c.
Proof.
  unfold retain_generation. destruct (negb _); [done|]. destruct (_ <? _); simpl; [by autorewrite with log|].
  destruct (_ || _); simpl; by autorewrite with log.
Qed.

Lemma closure_core_journal i c j h u p r o s a :
  closure_core (retain_in_closure i c j h u p r o s a) = closure_core c.
Proof.
  unfold retain_in_closure. destruct s as [s|].
  - destruct (journal_admission _ _ _) as [j' []]; case_decide; by autorewrite with log.
  - destruct (reserve_action c) as [c' q] eqn:E. rewrite <- (closure_core_reserve c), E. simpl.
    destruct (journal_admission _ _ _) as [j' []]; case_decide; by autorewrite with log.
Qed.

Lemma update_closure_log f i : (forall c, closure_core (f c) = closure_core c) -> update_closure f i ≈c i.
Proof.
  intros H. unfold same_control, control_core, update_closure.
  change (set_im_closure (closure_core <$> (f <$> im_closure i)) i = set_im_closure (closure_core <$> im_closure i) i).
  destruct (im_closure i) as [c|]; simpl; [by rewrite H|done].
Qed.

Lemma emit_action_log i a : emit_action i a ≈c i.
Proof. apply update_closure_log. intros c. apply closure_core_emit. Qed.

Lemma emit_dropped_log r x y z w i : emit_dropped r x y z w i ≈c i.
Proof. unfold emit_dropped. destruct (im_closure i); [apply emit_action_log|done]. Qed.

Lemma retain_admission_log h u p r o s a i : retain_admission h u p r o s a i ≈c i.
Proof.
  apply update_closure_log. intros c. destruct (cl_lossless c); [apply closure_core_journal|done].
Qed.

Lemma close_empty_log t i : close_empty t i ≈c i.
Proof. unfold close_empty. destruct (im_closure i); [|done]. destruct (_ || _); [apply emit_action_log|done]. Qed.

(** ** Slots by position *)

Definition lookup_slot (i : Impl) (p : nat * nat) : option ControlSlot :=
  m ← im_mailboxes i !! fst p; mb_slots m !! snd p.

Lemma lookup_slot_Some i a k s :
  lookup_slot i (a, k) = Some s <-> exists m, im_mailboxes i !! a = Some m /\ mb_slots m !! k = Some s.
Proof. unfold lookup_slot. simpl. rewrite bind_Some. done. Qed.

Lemma control_slot_lookup i a k s : lookup_slot i (a, k) = Some s -> control_slot i a k = s.
Proof.
  intros (m & Hm & Hs)%lookup_slot_Some. unfold control_slot.
  rewrite (list_lookup_total_correct _ _ _ Hm). by apply list_lookup_total_correct.
Qed.

Lemma lookup_slot_same i i' p : i ≈c i' -> lookup_slot i p = lookup_slot i' p.
Proof. intros H%same_control_fields. unfold lookup_slot. destruct H as [-> _]. done. Qed.

(** A mailbox update that applies [h] to slot [k] and keeps the others. *)
Definition touches (k : nat) (h : ControlSlot -> ControlSlot) (f : Mailbox -> Mailbox) : Prop :=
  forall m, mb_slots (f m) = alter h k (mb_slots m).

Lemma lookup_slot_touch i a k h f p :
  touches k h f ->
  lookup_slot (update_mailbox a f i) p = if decide (p = (a, k)) then h <$> lookup_slot i p else lookup_slot i p.
Proof.
  intros Hf. destruct p as [b l]. unfold lookup_slot, update_mailbox. simpl. rewrite list_lookup_alter.
  destruct (decide (a = b)) as [->|Hne].
  - destruct (im_mailboxes i !! b) as [m|]; simpl; [|by case_decide]. rewrite Hf, list_lookup_alter.
    destruct (decide (k = l)) as [->|]; case_decide; simplify_eq; done.
  - rewrite decide_False by congruence. done.
Qed.

Lemma lookup_slot_quiet i a f p :
  (forall m, mb_slots (f m) = mb_slots m) -> lookup_slot (update_mailbox a f i) p = lookup_slot i p.
Proof.
  intros Hf. destruct p as [b l]. unfold lookup_slot, update_mailbox. simpl. rewrite list_lookup_alter.
  destruct (decide (a = b)) as [->|Hne]; [|done]. destruct (im_mailboxes i !! b) as [m|]; simpl; [|done]. by rewrite Hf.
Qed.

Lemma touches_move state g k : touches k (fun s => mkControlSlot state g (cs_record s)) (move_slot state g k).
Proof. done. Qed.

Lemma touches_settle state g k : touches k (fun s => mkControlSlot state g (cs_record s)) (settle_slot state g k).
Proof. done. Qed.

Lemma touches_stage k r payload : touches k (fun _ => mkControlSlot slot_staged 0 r) (stage_slot k r payload).
Proof. intros m. apply stage_slot_slots. Qed.

(** ** All positions *)

Definition boxes_inv (i : Impl) : Prop :=
  Forall mailbox_inv (im_mailboxes i) /\ NoDup (mailbox_identity <$> im_mailboxes i).

Lemma boxes_inv_same i i' : i ≈c i' -> boxes_inv i -> boxes_inv i'.
Proof. intros H%same_control_fields. unfold boxes_inv. destruct H as [-> _]. done. Qed.

Lemma boxes_inv_lookup i a m : boxes_inv i -> im_mailboxes i !! a = Some m -> mailbox_inv m.
Proof. intros [H _] Hm. by apply (Forall_lookup_1 _ _ _ _ H Hm). Qed.

Lemma boxes_inv_update i a f :
  boxes_inv i -> (forall m, mailbox_identity (f m) = mailbox_identity m) ->
  (forall m, im_mailboxes i !! a = Some m -> mailbox_inv m -> mailbox_inv (f m)) -> boxes_inv (update_mailbox a f i).
Proof.
  intros [HF HN] Hid Hf. unfold boxes_inv, update_mailbox. simpl. split.
  - apply Forall_alter; [done|]. intros m Hm H. by apply Hf.
  - assert (mailbox_identity <$> alter f a (im_mailboxes i) = mailbox_identity <$> im_mailboxes i) as ->; [|done].
    apply list_eq. intros b. rewrite !list_lookup_fmap, list_lookup_alter. destruct (decide (a = b)) as [->|]; [|done].
    destruct (im_mailboxes i !! b) as [m|]; simpl; [|done]. by rewrite Hid.
Qed.

Lemma elem_of_slot_positions i a k :
  boxes_inv i -> (a, k) ∈ slot_positions i <-> is_Some (lookup_slot i (a, k)).
Proof.
  intros Hi. unfold slot_positions. rewrite list_elem_of_join. split.
  - intros (l & Hl & Hin). apply list_elem_of_lookup in Hin as (b & Hb). rewrite list_lookup_imap in Hb.
    destruct (im_mailboxes i !! b) as [m|] eqn:Hm; simplify_eq/=.
    apply list_elem_of_fmap in Hl as (x & ? & Hx). simplify_eq. apply elem_of_seq in Hx.
    unfold lookup_slot. simpl. rewrite Hm. simpl. apply lookup_lt_is_Some.
    rewrite (inv_slots m); [lia|]. by eapply boxes_inv_lookup.
  - intros [s (m & Hm & Hs)%lookup_slot_Some]. exists ((fun s => (a, s)) <$> seq 0 (record_capacity m)). split.
    + apply list_elem_of_fmap. exists k. split; [done|]. apply elem_of_seq.
      rewrite <- (inv_slots m) by (by eapply boxes_inv_lookup). apply lookup_lt_Some in Hs. lia.
    + apply list_elem_of_lookup. exists a. rewrite list_lookup_imap, Hm. done.
Qed.

Lemma NoDup_positions_from n (l : list Mailbox) :
  NoDup (mjoin (imap (fun i m => (fun s => ((n + i)%nat, s)) <$> seq 0 (record_capacity m)) l)).
Proof.
  revert n. induction l as [|m l IH]; intros n; simpl; [constructor|]. apply list.NoDup_app. split_and!.
  - apply NoDup_fmap_2; [intros ?? [=]; done|]. apply list.NoDup_seq.
  - intros [a k] (x & [= -> ->] & _)%list_elem_of_fmap (q & Hq & (b & Hb)%list_elem_of_lookup)%list_elem_of_join.
    rewrite list_lookup_imap in Hb. destruct (l !! b); simplify_eq/=. apply list_elem_of_fmap in Hq as (y & [= Hy] & _). lia.
  - specialize (IH (S n)). erewrite imap_ext; [exact IH|]. intros b x _. simpl. apply list_fmap_ext. intros _ y _. f_equal. lia.
Qed.

Lemma NoDup_slot_positions i : NoDup (slot_positions i).
Proof. apply (NoDup_positions_from 0). Qed.

(** Two states whose mailboxes have the same declarations have the same positions. *)
Lemma slot_positions_ext i i' :
  mb_registration <$> im_mailboxes i = mb_registration <$> im_mailboxes i' -> slot_positions i = slot_positions i'.
Proof.
  unfold slot_positions. intros H. f_equal. apply list_eq. intros a. rewrite !list_lookup_imap.
  apply (f_equal (.!! a)) in H. rewrite !list_lookup_fmap in H.
  destruct (im_mailboxes i !! a) as [m|], (im_mailboxes i' !! a) as [m'|]; simplify_eq/=; [|done].
  unfold record_capacity. by rewrite H.
Qed.

(** ** Updates of one mailbox *)

Lemma update_mailbox_twice a f g i : update_mailbox a f (update_mailbox a g i) = update_mailbox a (f ∘ g) i.
Proof.
  unfold update_mailbox. change (im_mailboxes (set_im_mailboxes (alter g a (im_mailboxes i)) i)) with (alter g a (im_mailboxes i)).
  by rewrite list_alter_alter_eq.
Qed.

Lemma update_mailbox_ext a f g i :
  (forall m, im_mailboxes i !! a = Some m -> f m = g m) -> update_mailbox a f i = update_mailbox a g i.
Proof. intros H. unfold update_mailbox. f_equal. apply list_alter_ext; [done|done]. Qed.

(** A change of state alone, as a move. *)
Lemma update_slot_move i a k s state :
  lookup_slot i (a, k) = Some s ->
  update_control_slot a k (set_cs_state state) i = update_mailbox a (move_slot state (cs_terminal_generation s) k) i.
Proof.
  intros (m & Hm & Hs)%lookup_slot_Some. unfold update_control_slot. apply update_mailbox_ext.
  intros m' Hm'. simplify_eq. change (set_slot_state state k m = move_slot state (cs_terminal_generation s) k m).
  by apply set_slot_state_move.
Qed.

Lemma boxes_own i a k s g :
  boxes_inv i -> lookup_slot i (a, k) = Some s -> cs_state s = slot_staged ->
  boxes_inv (update_mailbox a (move_slot slot_boundary_owned g k) i).
Proof.
  intros Hi (m & Hm & Hs)%lookup_slot_Some Hst. apply boxes_inv_update; [done..|].
  intros m' Hm' Hinv. simplify_eq. by apply (own_slot_inv m k s).
Qed.

Lemma boxes_settle i a k s state g :
  boxes_inv i -> lookup_slot i (a, k) = Some s -> live_state (cs_state s) = true -> terminal_state state = true ->
  boxes_inv (update_mailbox a (settle_slot state g k) i).
Proof.
  intros Hi (m & Hm & Hs)%lookup_slot_Some Hst Ht. apply boxes_inv_update; [done..|].
  intros m' Hm' Hinv. simplify_eq. by apply (settle_slot_inv m k s).
Qed.

Lemma boxes_quiet i a f :
  (forall m, mailbox_core (f m) = mailbox_core m) -> boxes_inv i -> boxes_inv (update_mailbox a f i).
Proof.
  intros Hf Hi. apply boxes_inv_update; [done| |].
  - intros m. specialize (Hf m). unfold mailbox_core in Hf. unfold mailbox_identity. congruence.
  - intros m _ Hm. by apply (mailbox_inv_core m).
Qed.

(** Everything of a mailbox but its slots and their count. *)
Definition box_static (m : Mailbox) : Mailbox := set_mb_slots [] (set_mb_occupancy 0 m).

Definition same_statics (i i' : Impl) : Prop := box_static <$> im_mailboxes i = box_static <$> im_mailboxes i'.

Lemma same_statics_update i a f : (forall m, box_static (f m) = box_static m) -> same_statics (update_mailbox a f i) i.
Proof.
  intros Hf. unfold same_statics, update_mailbox. apply list_eq. intros b. simpl.
  rewrite !list_lookup_fmap, list_lookup_alter. destruct (decide (a = b)) as [->|]; [|done].
  destruct (im_mailboxes i !! b) as [m|]; simpl; [|done]. by rewrite Hf.
Qed.

Lemma same_statics_lookup i i' a m : same_statics i i' -> im_mailboxes i !! a = Some m ->
  exists m', im_mailboxes i' !! a = Some m' /\ box_static m = box_static m'.
Proof.
  intros H Hm. apply (f_equal (.!! a)) in H. rewrite !list_lookup_fmap, Hm in H.
  destruct (im_mailboxes i' !! a) as [m'|]; [|done]. exists m'. split; [done|]. by apply (inj Some) in H.
Qed.

Lemma box_static_fields m m' : box_static m = box_static m' ->
  mb_registration m = mb_registration m' /\ mb_payload_storage m = mb_payload_storage m' /\
  mb_next_sequence m = mb_next_sequence m' /\ mb_reservation m = mb_reservation m'.
Proof. destruct m, m'. by intros [=]. Qed.

Lemma same_statics_registration i i' : same_statics i i' ->
  mb_registration <$> im_mailboxes i = mb_registration <$> im_mailboxes i'.
Proof.
  intros H. assert (E : forall l : list Mailbox, mb_registration <$> (box_static <$> l) = mb_registration <$> l).
  { intros l. rewrite <- list_fmap_compose. by apply list_fmap_ext. }
  by rewrite <- E, <- (E (im_mailboxes i')), H.
Qed.

#[export] Instance same_statics_equiv : Equivalence same_statics.
Proof. unfold same_statics. split; repeat intro; congruence. Qed.

Lemma same_control_statics i i' : i ≈c i' -> same_statics i i'.
Proof. intros H%same_control_fields. unfold same_statics. by destruct H as [-> _]. Qed.
