(* ===== verification/LiveControlScan.v ===== *)
(** * Live control: the scan of a closing boundary

    The nested loops of [close_boundary] visit every slot once: what they do to a slot
    depends only on the state before, and the candidates are the staged records of the
    boundary in the order of their positions. *)

From stdpp Require Import base list numbers sets sorting.
From Stdlib Require Import ZArith Lia Bool.
From S2P Require Import Prelude CanonicalBytes SnapshotCodec ListSums SeqRing LiveControlActions LiveControlState LiveControlMailbox LiveControlBoundary LiveControlCore.

Open Scope Z_scope.
Local Open Scope rtfw_scope.

(** ** One slot *)

Definition scanned (t : LiveControlBoundaryTarget) (i : Impl) (s : ControlSlot) : ControlSlot :=
  if negb (bool_decide (cs_state s = slot_staged)) then s
  else if is_current t (cs_record s) then mkControlSlot slot_boundary_owned (cs_terminal_generation s) (cs_record s)
  else if target_closed i (cs_record s) then mkControlSlot slot_missed 0 (cs_record s) else s.

Definition candidate_of (i : Impl) (p : nat * nat) (s : ControlSlot) : Candidate :=
  mkCandidate (fst p) (snd p) (mailbox_identity (im_mailboxes i !!! fst p)) (lu_mailbox_sequence (cs_record s)) true.

Definition candidate_at (t : LiveControlBoundaryTarget) (i : Impl) (p : nat * nat) : option Candidate :=
  s ← lookup_slot i p;
  if bool_decide (cs_state s = slot_staged) && is_current t (cs_record s) then Some (candidate_of i p s) else None.

(** The state after some positions have been visited. *)
Record scan_state (t : LiveControlBoundaryTarget) (i0 : Impl) (visited : list (nat * nat)) (i : Impl) : Prop := {
  scan_boxes : boxes_inv i;
  scan_frame : exists ms x, i ≈c set_im_missed x (set_im_mailboxes ms i0);
  scan_statics : same_statics i i0;
  scan_slots : forall p, lookup_slot i p =
    if decide (p ∈ visited) then scanned t i0 <$> lookup_slot i0 p else lookup_slot i0 p;
}.

Lemma target_closed_ext i i' r :
  im_rate_targets i = im_rate_targets i' -> im_host_boundary_started i = im_host_boundary_started i' ->
  im_last_host_boundary i = im_last_host_boundary i' -> target_closed i r = target_closed i' r.
Proof. unfold target_closed. intros -> -> ->. done. Qed.

Lemma target_closed_same i i' r : i ≈c i' -> target_closed i r = target_closed i' r.
Proof. intros H%same_control_fields. destruct_and! H. by apply target_closed_ext. Qed.

Lemma target_closed_scan t i0 visited i r : scan_state t i0 visited i -> target_closed i r = target_closed i0 r.
Proof. intros [_ (ms & x & H) _ _]. by rewrite (target_closed_same _ _ _ H). Qed.

(** The missed branch, apart from the log. *)
Lemma miss_slot i a k r :
  update_control_slot a k (set_cs_state slot_missed)
    (emit_dropped r adm_missed record_missed live_action_missed live_reason_missed
       (count_missed (update_mailbox a vacate
          (update_control_slot a k (set_cs_terminal_generation 0)
             (update_control_slot a k (set_cs_state slot_boundary_owned) i)))))
  ≈c count_missed (update_mailbox a (settle_slot slot_missed 0 k) i).
Proof.
  rewrite emit_dropped_log. unfold update_control_slot.
  change (count_missed (update_mailbox a (fun m => set_mb_slots (alter (set_cs_state slot_missed) k (mb_slots m)) m)
    (update_mailbox a vacate (update_mailbox a (fun m => set_mb_slots (alter (set_cs_terminal_generation 0) k (mb_slots m)) m)
       (update_mailbox a (fun m => set_mb_slots (alter (set_cs_state slot_boundary_owned) k (mb_slots m)) m) i))))
    ≈c count_missed (update_mailbox a (settle_slot slot_missed 0 k) i)).
  rewrite !update_mailbox_twice. erewrite update_mailbox_ext; [done|]. intros m _. destruct m.
  unfold settle_slot, move_slot, vacate, compose. simpl. unfold set_mb_occupancy, set_mb_slots. simpl. f_equal.
  by rewrite !list_alter_alter_eq.
Qed.

Lemma statics_move state g k m : box_static (move_slot state g k m) = box_static m.
Proof. done. Qed.

Lemma statics_settle state g k m : box_static (settle_slot state g k m) = box_static m.
Proof. done. Qed.

(** An update of one slot, by a move or by a settlement, advances the scan. *)
Lemma scan_state_touch t i0 visited i i' a k s h f :
  scan_state t i0 visited i -> (a, k) ∉ visited -> lookup_slot i0 (a, k) = Some s -> touches k h f ->
  (exists x, i' ≈c set_im_missed x (update_mailbox a f i)) -> boxes_inv i' ->
  (forall m, box_static (f m) = box_static m) -> h s = scanned t i0 s ->
  scan_state t i0 (visited ++ [(a, k)]) i'.
Proof.
  intros [_ (ms & y & Hfr) Hst Hsl] Hnew Hs Hh (x & Hi') Hbox Hf Hsc. constructor.
  - done.
  - exists (alter f a ms), x. rewrite Hi', Hfr. done.
  - rewrite (same_control_statics _ _ Hi'). etransitivity; [|exact Hst]. by apply (same_statics_update i).
  - intros p. rewrite (lookup_slot_same _ _ p Hi').
    change (lookup_slot (set_im_missed x (update_mailbox a f i)) p) with (lookup_slot (update_mailbox a f i) p).
    rewrite (lookup_slot_touch _ _ _ h) by done. rewrite !Hsl. destruct (decide (p = (a, k))) as [->|Hne].
    + rewrite decide_False by done. rewrite decide_True by set_solver. rewrite Hs. simpl. by rewrite Hsc.
    + destruct (decide (p ∈ visited)); [rewrite decide_True by set_solver|rewrite decide_False by set_solver]; done.
Qed.

Lemma scan_state_idle t i0 visited i p s :
  scan_state t i0 visited i -> p ∉ visited -> lookup_slot i0 p = Some s -> scanned t i0 s = s ->
  scan_state t i0 (visited ++ [p]) i.
Proof.
  intros [Hb Hfr Hst Hsl] Hnew Hs Hid. constructor; [done..|]. intros q. rewrite Hsl.
  destruct (decide (q = p)) as [->|Hne].
  - rewrite decide_False by done. rewrite decide_True by set_solver. rewrite Hs. simpl. by rewrite Hid.
  - destruct (decide (q ∈ visited)); [rewrite decide_True by set_solver|rewrite decide_False by set_solver]; done.
Qed.

Lemma statics_identity i i' a : same_statics i i' ->
  mailbox_identity (im_mailboxes i !!! a) = mailbox_identity (im_mailboxes i' !!! a).
Proof.
  intros H%same_statics_registration. apply (f_equal (.!! a)) in H. rewrite !list_lookup_fmap in H.
  unfold mailbox_identity. rewrite !list_lookup_total_alt.
  destruct (im_mailboxes i !! a), (im_mailboxes i' !! a); simplify_eq/=; congruence.
Qed.

Lemma scan_slot_step t i0 visited i candidates p :
  scan_state t i0 visited i -> p ∉ visited -> is_Some (lookup_slot i0 p) ->
  exists i', scan_slot t (i, candidates) p = (i', candidates ++ option_list (candidate_at t i0 p)) /\
    scan_state t i0 (visited ++ [p]) i'.
Proof.
  intros Hst Hnew [s Hs]. destruct p as [a k].
  assert (Hi : lookup_slot i (a, k) = Some s) by (by rewrite (scan_slots _ _ _ _ Hst), decide_False).
  unfold scan_slot, candidate_at. rewrite (control_slot_lookup _ _ _ _ Hi), Hs. cbn [mbind option_bind].
  destruct (bool_decide (cs_state s = slot_staged)) eqn:Hstg; cbn [negb andb].
  2: { exists i. rewrite app_nil_r. split; [done|]. apply (scan_state_idle _ _ _ _ _ s); try done.
       unfold scanned. by rewrite Hstg. }
  apply bool_decide_eq_true in Hstg as Hstaged.
  destruct (is_current t (cs_record s)) eqn:Hcur.
  - eexists. split.
    { unfold candidate_of. simpl. rewrite (statics_identity _ _ a (scan_statics _ _ _ _ Hst)). done. }
    rewrite (update_slot_move _ _ _ s) by done.
    eapply (scan_state_touch _ _ _ _ _ _ _ s _ _ Hst Hnew Hs (touches_move _ _ _)); [by eexists; reflexivity| |done|].
    + by apply (boxes_own _ _ _ s); [eapply scan_boxes|..].
    + unfold scanned. by rewrite Hstg, Hcur.
  - rewrite (target_closed_scan _ _ _ _ _ Hst). destruct (target_closed i0 (cs_record s)) eqn:Hcl.
    + eexists. split; [by rewrite app_nil_r|]. pose proof (miss_slot i a k (cs_record s)) as Hm.
      eapply (scan_state_touch _ _ _ _ _ _ _ s _ _ Hst Hnew Hs (touches_settle _ _ _)); [by eexists| |done|].
      * eapply boxes_inv_same; [symmetry; exact Hm|]. apply (boxes_settle i a k s slot_missed 0); try done.
        -- by eapply scan_boxes.
        -- by rewrite Hstaged.
      * unfold scanned. by rewrite Hstg, Hcur, Hcl.
    + exists i. rewrite app_nil_r. split; [done|]. apply (scan_state_idle _ _ _ _ _ s); try done.
      unfold scanned. by rewrite Hstg, Hcur, Hcl.
Qed.

(** ** All slots *)

Lemma scan_fold t i0 l :
  boxes_inv i0 -> NoDup l -> Forall (fun p => is_Some (lookup_slot i0 p)) l ->
  exists i, foldl (scan_slot t) (i0, []) l = (i, omap (candidate_at t i0) l) /\ scan_state t i0 l i.
Proof.
  intros Hb. induction l as [|p l IH] using rev_ind; intros Hnd Hall.
  - exists i0. split; [done|]. constructor; [done|exists (im_mailboxes i0), (im_missed i0); by destruct i0|reflexivity|].
    intros p. by rewrite decide_False by set_solver.
  - apply list.NoDup_app in Hnd as (Hnd & Hdis & _). apply Forall_app in Hall as [Hall Hp].
    apply Forall_inv in Hp. destruct (IH Hnd Hall) as (i & Hf & Hst).
    destruct (scan_slot_step t i0 l i (omap (candidate_at t i0) l) p) as (i' & Hs' & Hst'); [done|set_solver|done|].
    exists i'. rewrite foldl_snoc, Hf, Hs', omap_app. split; [|done]. simpl. by destruct (candidate_at t i0 p).
Qed.

(** The scan visits every slot. *)
Lemma scan_all t i0 :
  boxes_inv i0 -> exists i, foldl (scan_slot t) (i0, []) (slot_positions i0) =
      (i, omap (candidate_at t i0) (slot_positions i0)) /\
    scan_state t i0 (slot_positions i0) i /\ forall p, lookup_slot i p = scanned t i0 <$> lookup_slot i0 p.
Proof.
  intros Hb. destruct (scan_fold t i0 (slot_positions i0)) as (i & Hf & Hst); [done|apply NoDup_slot_positions| |].
  { apply Forall_lookup_2. intros n [a k] Hp%list_elem_of_lookup_2. by apply elem_of_slot_positions. }
  exists i. split_and!; [done..|]. intros [a k]. rewrite (scan_slots _ _ _ _ Hst). case_decide as Hd; [done|].
  rewrite elem_of_slot_positions in Hd by done. destruct (lookup_slot i0 (a, k)); [|done]. by destruct Hd.
Qed.

(** * Live control: the records that survive a boundary

    The pass over the sorted candidates of [close_boundary] keeps, in each mailbox and for
    each kind of update, the candidate with the greatest sequence number. *)

Open Scope Z_scope.

Section Survivors.
Context (impl : Impl) (cs : list Candidate).

Definition candidate_kind (c : Candidate) : nat := Z.to_nat (lu_update_kind (candidate_record impl c) - 1).

(** Two candidates compete: one mailbox, one kind. *)
Definition rivals (c d : Candidate) : Prop :=
  cd_mailbox_identity c = cd_mailbox_identity d /\ candidate_kind c = candidate_kind d.

#[local] Instance rivals_dec c d : Decision (rivals c d).
Proof. unfold rivals. apply _. Defined.

Context (Hsorted : forall k l c d, (k < l)%nat -> cs !! k = Some c -> cs !! l = Some d -> candidate_less c d = true).
Context (Hkinds : forall c, c ∈ cs -> (candidate_kind c < 5)%nat).
Context (Hfresh : forall c, c ∈ cs -> cd_survivor c = true).

(** No rival of entry [k] among the first [n]. *)
Definition unrivalled (n k : nat) (c : Candidate) : bool :=
  bool_decide (Forall (fun d => ~ rivals c d) (drop (S k) (take n cs))).

Definition marked (n : nat) : list Candidate := imap (fun k c => set_cd_survivor (unrivalled n k c) c) cs.

Lemma unrivalled_spec n k c :
  unrivalled n k c = true <-> forall l d, (k < l < n)%nat -> cs !! l = Some d -> ~ rivals c d.
Proof.
  unfold unrivalled. rewrite bool_decide_eq_true, Forall_lookup. split.
  - intros H l d Hl Hd. apply (H (l - S k)%nat). rewrite lookup_drop, lookup_take_lt by lia.
    replace (S k + (l - S k))%nat with l by lia. done.
  - intros H l d Hd. rewrite lookup_drop in Hd. apply lookup_take_Some in Hd as [Hd Hl]. apply (H (S k + l)%nat); [lia|done].
Qed.

Lemma marked_lookup n k : marked n !! k = (fun c => set_cd_survivor (unrivalled n k c) c) <$> cs !! k.
Proof. unfold marked. by rewrite list_lookup_imap. Qed.

(** What [last_by_kind] knows of the current mailbox. *)
Definition remembers (n : nat) (current : Z) (kind : nat) (o : option nat) : Prop :=
  match o with
  | Some k => exists c, cs !! k = Some c /\ (k < n)%nat /\ cd_mailbox_identity c = current /\ candidate_kind c = kind /\
      forall l d, (k < l < n)%nat -> cs !! l = Some d -> ~ (cd_mailbox_identity d = current /\ candidate_kind d = kind)
  | None => forall l d, (l < n)%nat -> cs !! l = Some d -> ~ (cd_mailbox_identity d = current /\ candidate_kind d = kind)
  end.

Definition mark_inv (n : nat) (state : list Candidate * list (option nat) * Z) : Prop :=
  fst (fst state) = marked n /\ length (snd (fst state)) = 5%nat /\
  (n <> 0%nat -> exists c, cs !! (n - 1)%nat = Some c /\ snd state = cd_mailbox_identity c) /\
  forall kind o, snd (fst state) !! kind = Some o -> remembers n (snd state) kind o.

Lemma identity_mono k l c d :
  (k < l)%nat -> cs !! k = Some c -> cs !! l = Some d -> cd_mailbox_identity c <= cd_mailbox_identity d.
Proof.
  intros Hl Hc Hd. pose proof (Hsorted k l c d Hl Hc Hd) as H. unfold candidate_less in H.
  destruct (cd_mailbox_identity c =? cd_mailbox_identity d) eqn:E; simpl in H; lia.
Qed.

(** The memory after the test for a new mailbox. *)
Lemma reset_remembers n c (last : list (option nat)) current :
  cs !! n = Some c -> length last = 5%nat ->
  (n <> 0%nat -> exists d, cs !! (n - 1)%nat = Some d /\ current = cd_mailbox_identity d) ->
  (forall kind o, last !! kind = Some o -> remembers n current kind o) ->
  let '(last', current') :=
    if Nat.eqb n 0 || negb (cd_mailbox_identity c =? current)
    then (replicate 5 None, cd_mailbox_identity c) else (last, current) in
  length last' = 5%nat /\ current' = cd_mailbox_identity c /\
  forall kind o, last' !! kind = Some o -> remembers n current' kind o.
Proof.
  intros Hc Hlen Hcur Hrem. destruct (Nat.eqb_spec n 0) as [->|Hn]; cbn [orb].
  - split_and!; [done..|]. intros kind o [-> _]%lookup_replicate. simpl. lia.
  - destruct (Z.eqb_spec (cd_mailbox_identity c) current) as [He|He]; cbn [negb]; [by split_and!|].
    split_and!; [done..|]. intros kind o [-> _]%lookup_replicate. simpl. intros l d Hl Hd [Hid _].
    destruct (Hcur Hn) as (p & Hp & ->). assert (cd_mailbox_identity d <= cd_mailbox_identity p).
    { destruct (decide (l = n - 1)%nat) as [->|]; [simplify_eq; lia|]. apply (identity_mono l (n - 1)); [lia|done|done]. }
    pose proof (identity_mono (n - 1) n p c ltac:(lia) Hp Hc). lia.
Qed.

(** The flags after one more candidate. *)
Lemma marked_step n c (last : list (option nat)) :
  cs !! n = Some c -> (forall o, last !! candidate_kind c = Some o -> remembers n (cd_mailbox_identity c) (candidate_kind c) o) ->
  is_Some (last !! candidate_kind c) ->
  match last !! candidate_kind c with
  | Some (Some previous) => alter (set_cd_survivor false) previous (marked n)
  | _ => marked n
  end = marked (S n).
Proof.
  intros Hc Hrem [o Ho]. rewrite Ho. specialize (Hrem o Ho). apply list_eq. intros k.
  assert (Hstep : forall d, cs !! k = Some d -> unrivalled (S n) k d =
    unrivalled n k d && negb (bool_decide ((k < n)%nat /\ rivals d c))).
  { intros d Hd. apply eq_true_iff_eq. rewrite andb_true_iff, negb_true_iff, !unrivalled_spec, bool_decide_eq_false. split.
    - intros H. split; [intros l e Hl; apply H; lia|]. intros [Hk Hr]. apply (H n c); [lia|done|done].
    - intros [H Hr] l e Hl He Hre. destruct (decide (l = n)) as [->|]; [simplify_eq; apply Hr; split; [lia|done]|].
      apply (H l e); [lia|done..]. }
  destruct o as [previous|]; simpl in Hrem.
  - destruct Hrem as (p & Hp & Hlt & Hid & Hkind & Hlater). rewrite list_lookup_alter, !marked_lookup.
    destruct (decide (previous = k)) as [->|Hne].
    + rewrite Hp. simpl. rewrite (Hstep p Hp), bool_decide_eq_true_2 by (split; [lia|done]). by rewrite andb_false_r.
    + destruct (cs !! k) as [d|] eqn:Hd; [|done]. simpl. do 2 f_equal. rewrite (Hstep d eq_refl).
      case_bool_decide as Hr; [|by rewrite andb_true_r]. rewrite andb_false_r. destruct Hr as [Hk [Hi Hq]].
      apply not_true_iff_false. rewrite unrivalled_spec. intros H. destruct (decide (k < previous)%nat).
      * apply (H previous p); [lia|done|]. split; congruence.
      * apply (Hlater k d); [lia|done|]. split; congruence.
  - rewrite !marked_lookup. destruct (cs !! k) as [d|] eqn:Hd; [|done]. simpl. do 2 f_equal. rewrite (Hstep d eq_refl).
    rewrite bool_decide_eq_false_2; [by rewrite andb_true_r|]. intros [Hk [Hi Hq]]. by apply (Hrem k d).
Qed.

Lemma remembers_extend n c current kind o :
  cs !! n = Some c -> current = cd_mailbox_identity c -> kind <> candidate_kind c -> remembers n current kind o -> remembers (S n) current kind o.
Proof.
  intros Hc -> Hk. destruct o as [k|]; simpl.
  - intros (d & Hd & Hlt & Hi & Hq & Hlater). exists d. split_and!; [done|lia|done..|]. intros l e Hl He [He1 He2].
    destruct (decide (l = n)) as [->|]; [simplify_eq; done|]. apply (Hlater l e); [lia|done..].
  - intros H l d Hl Hd [Hd1 Hd2]. destruct (decide (l = n)) as [->|]; [simplify_eq; done|]. apply (H l d); [lia|done..].
Qed.

Lemma mark_step_inv n c state :
  cs !! n = Some c -> mark_inv n state -> mark_inv (S n) (mark_step impl state n).
Proof.
  intros Hc. destruct state as [[cands last] current]. intros (Hm & Hlen & Hcur & Hrem). cbn [fst snd] in *. subst cands.
  unfold mark_step. rewrite marked_lookup, Hc. cbn [fmap option_fmap option_map].
  pose proof (reset_remembers n c last current Hc Hlen Hcur Hrem) as Hreset.
  change (cd_mailbox_identity (set_cd_survivor (unrivalled n n c) c)) with (cd_mailbox_identity c).
  destruct (if _ || _ then _ else _) as [last' current']. destruct Hreset as (Hlen' & -> & Hrem').
  change (candidate_record impl (set_cd_survivor (unrivalled n n c) c)) with (candidate_record impl c).
  fold (candidate_kind c). assert (Hk : (candidate_kind c < 5)%nat) by (apply Hkinds; by eapply list_elem_of_lookup_2).
  rewrite (marked_step n c last') by (auto; by apply lookup_lt_is_Some; rewrite Hlen'). unfold mark_inv. cbn [fst snd].
  split_and!; [done|by rewrite length_insert|intros _; exists c; by rewrite Nat.sub_1_r|].
  intros kind o Ho. destruct (decide (kind = candidate_kind c)) as [->|Hne].
  - rewrite list_lookup_insert_eq in Ho by lia. simplify_eq. simpl. exists c. split_and!; [done|lia|done..|]. lia.
  - rewrite list_lookup_insert_ne in Ho by done. apply (remembers_extend n c); auto.
Qed.

Lemma marked_0 : marked 0 = cs.
Proof.
  apply list_eq. intros k. rewrite marked_lookup. destruct (cs !! k) as [c|] eqn:Hc; [|done]. simpl. f_equal.
  rewrite (proj2 (unrivalled_spec 0 k c)) by lia. destruct c; unfold set_cd_survivor; simpl. f_equal.
  symmetry. apply (Hfresh _ (list_elem_of_lookup_2 _ _ _ Hc)).
Qed.

Lemma mark_survivors_marked : mark_survivors impl cs = marked (length cs).
Proof.
  unfold mark_survivors.
  assert (H : forall n, (n <= length cs)%nat ->
    mark_inv n (foldl (mark_step impl) (cs, replicate 5 None, 0) (seq 0 n))).
  { induction n as [|n IH]; intros Hn.
    - unfold mark_inv. simpl. rewrite marked_0. split_and!; [done..|]. intros kind o Ho.
      destruct kind as [|[|[|[|[|kind]]]]]; simplify_eq/=; lia.
    - rewrite seq_S, foldl_app. simpl. destruct (lookup_lt_is_Some_2 cs n ltac:(lia)) as [c Hc].
      apply (mark_step_inv _ c); [done|]. apply IH. lia. }
  by destruct (H (length cs) ltac:(lia)) as [-> _].
Qed.

(** ** The specification *)

(** The candidate outranks every rival. *)
Definition survives (c : Candidate) : Prop :=
  forall d, d ∈ cs -> rivals c d -> cd_mailbox_sequence d <= cd_mailbox_sequence c.

Lemma unrivalled_survives k c : cs !! k = Some c -> unrivalled (length cs) k c = true <-> survives c.
Proof.
  intros Hc. rewrite unrivalled_spec. split.
  - intros H d (l & Hl)%list_elem_of_lookup [Hi Hq]. destruct (decide (k < l)%nat).
    { exfalso. apply (H l d); [split; [done|by eapply lookup_lt_Some]|done|done]. }
    destruct (decide (k = l)) as [->|]; [simplify_eq; lia|].
    pose proof (Hsorted l k d c ltac:(lia) Hl Hc) as Hless. unfold candidate_less in Hless.
    rewrite <- Hi, Z.eqb_refl in Hless. simpl in Hless. lia.
  - intros H l d Hl Hd [Hi Hq]. pose proof (H d (list_elem_of_lookup_2 _ _ _ Hd) (conj Hi Hq)) as Hle.
    pose proof (Hsorted k l c d ltac:(lia) Hc Hd) as Hless. unfold candidate_less in Hless.
    rewrite <- Hi, Z.eqb_refl in Hless. simpl in Hless. lia.
Qed.

Lemma mark_survivors_lookup k :
  mark_survivors impl cs !! k = (fun c => set_cd_survivor (unrivalled (length cs) k c) c) <$> cs !! k.
Proof. rewrite mark_survivors_marked. apply marked_lookup. Qed.

Lemma elem_of_survivors c :
  c ∈ survivors (mark_survivors impl cs) <-> c ∈ cs /\ survives c.
Proof.
  unfold survivors. rewrite list_elem_of_filter. split.
  - intros [Hs (k & Hk)%list_elem_of_lookup]. rewrite mark_survivors_lookup in Hk.
    destruct (cs !! k) as [d|] eqn:Hd; [|done]. simpl in Hk. simplify_eq. simpl in Hs.
    assert (Heq : set_cd_survivor (unrivalled (length cs) k d) d = d).
    { pose proof (Hfresh d (list_elem_of_lookup_2 _ _ _ Hd)) as Hf. destruct d; simpl in *. subst. by rewrite Hs. }
    rewrite Heq. split; [by eapply list_elem_of_lookup_2|]. by apply (unrivalled_survives k).
  - intros [(k & Hk)%list_elem_of_lookup Hs]. split; [by apply Hfresh; eapply list_elem_of_lookup_2|].
    apply list_elem_of_lookup. exists k. rewrite mark_survivors_lookup, Hk. simpl.
    rewrite (proj2 (unrivalled_survives k c Hk) Hs). f_equal.
    pose proof (Hfresh c (list_elem_of_lookup_2 _ _ _ Hk)) as Hf. destruct c; simpl in *. by subst.
Qed.

(** The last candidate survives, so a boundary with a candidate has a generation. *)
Lemma survivors_nonempty : cs <> [] -> survivors (mark_survivors impl cs) <> [].
Proof.
  intros Hne. destruct (last cs) as [c|] eqn:Hl; [|by apply last_None in Hl].
  rewrite last_lookup in Hl. assert (Hin : c ∈ survivors (mark_survivors impl cs)).
  { apply elem_of_survivors. split; [by eapply list_elem_of_lookup_2|].
    apply (unrivalled_survives _ c Hl). apply unrivalled_spec. lia. }
  intros Hn. rewrite Hn in Hin. by apply elem_of_nil in Hin.
Qed.
End Survivors.
