(* ===== verification/LiveControlInvariant.v ===== *)
(** * Live control: the invariant of the mailboxes

    Between calls the count of every mailbox is the number of its pending records, no
    record waits for a boundary that has closed, and the records a boundary owns are
    exactly those the open transaction will settle.  Every operation keeps this. *)

From stdpp Require Import base list numbers sets sorting.
From Stdlib Require Import ZArith Lia Bool.
From S2P Require Import Prelude CanonicalBytes SnapshotCodec ListSums SeqRing LiveControlActions LiveControlState LiveControlMailbox LiveControlBoundary LiveControlCore LiveControlScan.

Open Scope Z_scope.
Local Open Scope rtfw_scope.

(** ** The invariant *)

Definition owned_at (i : Impl) (p : nat * nat) : Prop :=
  exists s, lookup_slot i p = Some s /\ cs_state s = slot_boundary_owned.

Definition owned_exactly (i : Impl) (l : list (nat * nat)) : Prop := NoDup l /\ forall p, owned_at i p <-> p ∈ l.

Definition provisional_position (v : ProvisionalRecord) : nat * nat := (pv_mailbox_index v, pv_slot_index v).
Definition candidate_position (c : Candidate) : nat * nat := (cd_mailbox_index c, cd_slot_index c).

Definition nothing_waits (i : Impl) : Prop :=
  forall p s, lookup_slot i p = Some s -> cs_state s = slot_staged -> target_closed i (cs_record s) = false.

(** The boundaries of the timeline close in the order of their times. *)
Definition closed_downward (targets : list RateTarget) : Prop :=
  forall t u, t ∈ targets -> u ∈ targets -> rt_closed u = true -> rt_release_time_ns t < rt_release_time_ns u ->
    rt_closed t = true.

(** The identity of a release is not one of the reserved values. *)
Definition rate_target_exact (t : RateTarget) : Prop :=
  rt_release_sequence t <> u64_max /\ rt_domain_registration_index t <> u32_max /\ rt_phase_index t <> u32_max /\
  rt_substep_ordinal t <> u32_max.

Record control_base (i : Impl) : Prop := {
  base_boxes : boxes_inv i;
  base_waits : nothing_waits i;
  base_downward : closed_downward (im_rate_targets i);
  base_targets : Forall rate_target_exact (im_rate_targets i);
  base_target_count : Z.of_nat (length (im_rate_targets i)) <= live_control_retained_generation_capacity_limit;
}.

Definition control_owned (i : Impl) : Prop :=
  match im_closure i with
  | None => owned_exactly i []
  | Some c => owned_exactly i (provisional_position <$> cl_provisional_records c) /\
      (cl_transaction_active c = false -> cl_provisional_records c = [])
  end.

Definition control_inv (i : Impl) : Prop := control_base i /\ control_owned i.

(** ** What equivalent states share *)

Lemma owned_exactly_ext i i' l :
  (forall p, lookup_slot i' p = lookup_slot i p) -> owned_exactly i l -> owned_exactly i' l.
Proof. intros He [Hn Ho]. split; [done|]. intros p. rewrite <- Ho. unfold owned_at. by rewrite He. Qed.

Lemma control_base_ext i i' :
  im_mailboxes i' = im_mailboxes i -> im_rate_targets i' = im_rate_targets i ->
  im_host_boundary_started i' = im_host_boundary_started i -> im_last_host_boundary i' = im_last_host_boundary i ->
  control_base i -> control_base i'.
Proof.
  intros Hm Ht Hs Hl []. constructor; rewrite ?Ht; try done.
  - unfold boxes_inv in *. by rewrite Hm.
  - intros p s. unfold lookup_slot. rewrite Hm. rewrite (target_closed_ext i' i) by done. apply base_waits0.
Qed.

Lemma closure_core_fields c c' : closure_core c = closure_core c' ->
  cl_provisional_records c = cl_provisional_records c' /\ cl_transaction_active c = cl_transaction_active c' /\
  cl_host_claim c = cl_host_claim c' /\ cl_rollback_generation c = cl_rollback_generation c' /\
  cl_rollback_has_generation c = cl_rollback_has_generation c' /\
  cl_prior_generation_identity c = cl_prior_generation_identity c' /\ cl_prior_target c = cl_prior_target c' /\
  cl_prior_survivor_count c = cl_prior_survivor_count c' /\ cl_policy c = cl_policy c'.
Proof. unfold closure_core. by intros [=]. Qed.

Lemma control_owned_ext i i' :
  im_mailboxes i' = im_mailboxes i -> closure_core <$> im_closure i' = closure_core <$> im_closure i ->
  control_owned i -> control_owned i'.
Proof.
  intros Hm Hc. assert (He : forall p, lookup_slot i' p = lookup_slot i p) by (intros p; unfold lookup_slot; by rewrite Hm).
  unfold control_owned. destruct (im_closure i) as [c|], (im_closure i') as [c'|]; try done.
  - apply (inj Some) in Hc. pose proof (closure_core_fields _ _ Hc) as (-> & -> & _). intros [Ho Ha].
    split; [|done]. by apply (owned_exactly_ext i).
  - apply owned_exactly_ext, He.
Qed.

Lemma control_inv_same i i' : i ≈c i' -> control_inv i -> control_inv i'.
Proof.
  intros H%same_control_fields [Hb Ho]. destruct_and! H. split.
  - by apply (control_base_ext i).
  - by apply (control_owned_ext i).
Qed.

(** ** One slot *)

(** A pending record reaches its last state. *)
Lemma settle_base i a k s state g :
  control_base i -> lookup_slot i (a, k) = Some s -> live_state (cs_state s) = true -> terminal_state state = true ->
  control_base (update_mailbox a (settle_slot state g k) i).
Proof.
  intros [] Hs Hl Ht. constructor; try done; [by apply (boxes_settle i a k s)|].
  intros p s'. rewrite (lookup_slot_touch _ _ _ _ _ _ (touches_settle _ _ _)). case_decide as Hp.
  - destruct (lookup_slot i p); simpl; [|done]. intros [= <-]. simpl. by destruct state.
  - intros Hs' Hst. by apply (base_waits0 p).
Qed.

Lemma owned_settle_staged i a k s state g l :
  owned_exactly i l -> lookup_slot i (a, k) = Some s -> cs_state s <> slot_boundary_owned -> state <> slot_boundary_owned ->
  owned_exactly (update_mailbox a (settle_slot state g k) i) l.
Proof.
  intros [Hn Ho] Hs Hst Hne. split; [done|]. intros p. rewrite <- Ho. unfold owned_at.
  rewrite (lookup_slot_touch _ _ _ _ _ _ (touches_settle _ _ _)). case_decide as Hp; [|done]. subst p. rewrite Hs. simpl.
  split; intros (x & [= <-] & Hx); done.
Qed.

Lemma owned_settle_owned i a k state g l :
  owned_exactly i ((a, k) :: l) -> state <> slot_boundary_owned ->
  owned_exactly (update_mailbox a (settle_slot state g k) i) l.
Proof.
  intros [Hn Ho] Hne. apply list.NoDup_cons in Hn as [Hnin Hn]. split; [done|]. intros p. unfold owned_at.
  rewrite (lookup_slot_touch _ _ _ _ _ _ (touches_settle _ _ _)). case_decide as Hp.
  - subst p. split; [|done]. destruct (lookup_slot i (a, k)); simpl; [|by intros (? & ? & ?)]. by intros (x & [= <-] & Hx).
  - specialize (Ho p). unfold owned_at in Ho. rewrite Ho. set_solver.
Qed.

Lemma owned_lookup i p l : owned_exactly i l -> p ∈ l -> exists s, lookup_slot i p = Some s /\ cs_state s = slot_boundary_owned.
Proof. intros [_ Ho] Hp. by apply Ho. Qed.

Lemma control_owned_settle i a k s state g :
  control_owned i -> lookup_slot i (a, k) = Some s -> cs_state s <> slot_boundary_owned -> state <> slot_boundary_owned ->
  control_owned (update_mailbox a (settle_slot state g k) i).
Proof.
  unfold control_owned. change (im_closure (update_mailbox a (settle_slot state g k) i)) with (im_closure i).
  intros Ho Hs Hst Hne. destruct (im_closure i) as [c|]; [destruct Ho as [Ho Ha]; split; [|done]|]; by apply (owned_settle_staged _ _ _ s).
Qed.

(** Updates of statistics and flags. *)
Lemma control_inv_quiet i a f :
  (forall m, mailbox_core (f m) = mailbox_core m) -> control_inv i -> control_inv (update_mailbox a f i).
Proof.
  intros Hf [[] Ho]. assert (He : forall p, lookup_slot (update_mailbox a f i) p = lookup_slot i p).
  { intros p. apply lookup_slot_quiet. intros m. specialize (Hf m). unfold mailbox_core in Hf. congruence. }
  split; [constructor; try done|].
  - by apply boxes_quiet.
  - intros p s. rewrite He. apply base_waits0.
  - unfold control_owned in *. change (im_closure (update_mailbox a f i)) with (im_closure i).
    destruct (im_closure i); [destruct Ho; split; [|done]|]; by apply (owned_exactly_ext i).
Qed.

(** ** The candidates of a boundary *)

Section Candidates.
Context (t : LiveControlBoundaryTarget) (i0 i : Impl).
Context (Hbox0 : boxes_inv i0) (Hscan : scan_state t i0 (slot_positions i0) i)
        (Hslots : forall p, lookup_slot i p = scanned t i0 <$> lookup_slot i0 p).

Let found : list Candidate := omap (candidate_at t i0) (slot_positions i0).
Let sorted : list Candidate := std_sort candidate_less found.

Lemma candidate_positions (l : list (nat * nat)) :
  candidate_position <$> omap (candidate_at t i0) l = filter (fun p => is_Some (candidate_at t i0 p)) l.
Proof.
  induction l as [|p l IH]; [done|]. rewrite filter_cons. simpl.
  destruct (candidate_at t i0 p) as [c|] eqn:Hc.
  - rewrite decide_True by done. simpl. f_equal; [|done]. unfold candidate_at in Hc.
    destruct (lookup_slot i0 p); simpl in Hc; [|done]. destruct (_ && _); simplify_eq. by destruct p.
  - rewrite decide_False by (by intros [? ?]). done.
Qed.

Lemma NoDup_found : NoDup (candidate_position <$> found).
Proof. unfold found. rewrite candidate_positions. apply NoDup_filter, NoDup_slot_positions. Qed.

Lemma found_candidate c : c ∈ found <->
  exists a k s, c = candidate_of i0 (a, k) s /\ lookup_slot i0 (a, k) = Some s /\ cs_state s = slot_staged /\
    is_current t (cs_record s) = true.
Proof.
  unfold found. rewrite list_elem_of_omap. split.
  - intros ([a k] & Hp & Hc). unfold candidate_at in Hc. destruct (lookup_slot i0 (a, k)) as [s|] eqn:Hs; simpl in Hc; [|done].
    destruct (_ && _) eqn:Hb; simplify_eq. apply andb_true_iff in Hb as [Hst%bool_decide_eq_true Hcur].
    exists a, k, s. done.
  - intros (a & k & s & -> & Hs & Hst & Hcur). exists (a, k). split.
    + apply elem_of_slot_positions; [done|]. eauto.
    + unfold candidate_at. rewrite Hs. simpl. rewrite Hst, Hcur, bool_decide_eq_true_2 by done. done.
Qed.

Lemma sorted_perm : sorted ≡ₚ found.
Proof. apply std_sort_perm. Qed.

Lemma candidate_less_asym c d : candidate_less c d = true -> candidate_less d c = false.
Proof.
  unfold candidate_less. rewrite (Z.eqb_sym (cd_mailbox_identity d)).
  destruct (Z.eqb_spec (cd_mailbox_identity c) (cd_mailbox_identity d)); simpl; lia.
Qed.

Lemma candidate_less_trans c d e :
  not_greater candidate_less c d -> not_greater candidate_less d e -> not_greater candidate_less c e.
Proof.
  unfold not_greater, candidate_less.
  destruct (Z.eqb_spec (cd_mailbox_identity d) (cd_mailbox_identity c)), (Z.eqb_spec (cd_mailbox_identity e) (cd_mailbox_identity d)),
    (Z.eqb_spec (cd_mailbox_identity e) (cd_mailbox_identity c)); simpl; lia.
Qed.

(** Two candidates with one key hold one slot. *)
Lemma found_key c d : c ∈ found -> d ∈ found -> cd_mailbox_identity c = cd_mailbox_identity d ->
  cd_mailbox_sequence c = cd_mailbox_sequence d -> c = d.
Proof.
  intros (a & k & s & -> & Hs & Hst & _)%found_candidate (b & l & u & -> & Hu & Hut & _)%found_candidate Hid Hseq.
  apply lookup_slot_Some in Hs as (m & Hm & Hs). apply lookup_slot_Some in Hu as (m' & Hm' & Hu).
  unfold candidate_of in *. simpl in *.
  rewrite (list_lookup_total_correct _ _ _ Hm), (list_lookup_total_correct _ _ _ Hm') in *.
  assert (a = b) as <-.
  { destruct Hbox0 as [_ Hnd]. apply (NoDup_lookup _ a b (mailbox_identity m) Hnd); rewrite list_lookup_fmap.
    - by rewrite Hm.
    - rewrite Hm'. simpl. by rewrite Hid. }
  rewrite Hm in Hm'. injection Hm' as <-.
  assert (k = l) as <-; [|congruence].
  apply (inv_unique m (boxes_inv_lookup _ _ _ Hbox0 Hm) k l s u); congruence.
Qed.

Lemma sorted_strict k l c d : (k < l)%nat -> sorted !! k = Some c -> sorted !! l = Some d -> candidate_less c d = true.
Proof.
  intros Hl Hc Hd. assert (Hng : not_greater candidate_less c d).
  { pose proof (std_sort_sorted candidate_less candidate_less_asym candidate_less_trans found) as Hss.
    fold sorted in Hss. clearbody sorted. revert k l Hl Hc Hd. induction Hss as [|x xs Hss IH Hx]; intros k l Hl Hc Hd; [done|].
    destruct l as [|l]; [lia|]. destruct k as [|k]; simplify_eq/=.
    - by apply (Forall_lookup_1 _ _ _ _ Hx Hd).
    - apply (IH k l); [lia|done..]. }
  assert (Hne : c <> d).
  { intros ->. assert (Hn : NoDup sorted).
    { rewrite sorted_perm. eapply NoDup_fmap_1. exact NoDup_found. }
    pose proof (NoDup_lookup _ _ _ _ Hn Hc Hd). lia. }
  assert (Hcf : c ∈ found) by (rewrite <- sorted_perm; by eapply list_elem_of_lookup_2).
  assert (Hdf : d ∈ found) by (rewrite <- sorted_perm; by eapply list_elem_of_lookup_2).
  pose proof (found_key c d Hcf Hdf) as Hkey. unfold not_greater, candidate_less in *.
  rewrite (Z.eqb_sym (cd_mailbox_identity d)) in Hng.
  destruct (Z.eqb_spec (cd_mailbox_identity c) (cd_mailbox_identity d)) as [He|He]; simpl in *; [|lia].
  destruct (Z.eq_dec (cd_mailbox_sequence c) (cd_mailbox_sequence d)) as [Hs|Hs]; [|lia].
  by destruct Hne; apply Hkey.
Qed.

(** A candidate after the scan: its slot is owned and keeps its record. *)
Lemma found_slot c : c ∈ found ->
  exists s, lookup_slot i0 (candidate_position c) = Some s /\ cs_state s = slot_staged /\ is_current t (cs_record s) = true /\
    lookup_slot i (candidate_position c) = Some (mkControlSlot slot_boundary_owned (cs_terminal_generation s) (cs_record s)) /\
    candidate_record i c = cs_record s /\ c = candidate_of i0 (candidate_position c) s.
Proof.
  intros (a & k & s & -> & Hs & Hst & Hcur)%found_candidate. exists s. unfold candidate_position, candidate_of. simpl.
  assert (Hi : lookup_slot i (a, k) = Some (mkControlSlot slot_boundary_owned (cs_terminal_generation s) (cs_record s))).
  { rewrite Hslots, Hs. simpl. unfold scanned. rewrite Hst, Hcur, bool_decide_eq_true_2 by done. done. }
  split_and!; try done. unfold candidate_record. simpl. by rewrite (control_slot_lookup _ _ _ _ Hi).
Qed.

Lemma found_kind c : c ∈ sorted -> (candidate_kind i c < 5)%nat.
Proof.
  rewrite sorted_perm. intros (s & Hs & Hst & _ & _ & Hr & _)%found_slot. unfold candidate_kind. rewrite Hr.
  destruct (candidate_position c) as [a k]. apply lookup_slot_Some in Hs as (m & Hm & Hs).
  pose proof (inv_records m (boxes_inv_lookup _ _ _ Hbox0 Hm) k s Hs ltac:(congruence)) as (_ & _ & _ & Hk & _).
  unfold update_kind_valid, update_scenario_parameters, update_clear_fault in Hk. lia.
Qed.

Lemma found_fresh c : c ∈ sorted -> cd_survivor c = true.
Proof. rewrite sorted_perm. by intros (a & k & s & -> & _)%found_candidate. Qed.

Lemma marked_positions : candidate_position <$> mark_survivors i sorted = candidate_position <$> sorted.
Proof.
  rewrite (mark_survivors_marked i sorted sorted_strict found_kind found_fresh). unfold marked. apply list_eq. intros k.
  rewrite !list_lookup_fmap, list_lookup_imap. by destruct (sorted !! k).
Qed.

Lemma found_owned l : owned_exactly i0 l -> owned_exactly i (l ++ (candidate_position <$> mark_survivors i sorted)).
Proof.
  intros [Hn Ho]. rewrite marked_positions. assert (Hp : candidate_position <$> sorted ≡ₚ candidate_position <$> found).
  { by rewrite sorted_perm. }
  split.
  - rewrite Hp. apply list.NoDup_app. split_and!; [done| |apply NoDup_found].
    intros p (s & Hs & Hst)%Ho (c & -> & Hc)%list_elem_of_fmap. apply found_slot in Hc as (u & Hu & Hut & _). congruence.
  - intros p. rewrite Hp, elem_of_app. unfold owned_at. rewrite Hslots. split.
    + intros (s & Hs & Hst). apply fmap_Some in Hs as (s0 & Hs0 & ->). unfold scanned in Hst.
      destruct (bool_decide (cs_state s0 = slot_staged)) eqn:Hb; simpl in Hst; [|left; apply Ho; by exists s0].
      apply bool_decide_eq_true in Hb. destruct (is_current t (cs_record s0)) eqn:Hcur.
      * right. apply list_elem_of_fmap. destruct p as [a k]. exists (candidate_of i0 (a, k) s0). split; [done|].
        apply found_candidate. by exists a, k, s0.
      * destruct (target_closed i0 (cs_record s0)); simpl in Hst; congruence.
    + intros [(s & Hs & Hst)%Ho|(c & -> & (s & Hs & Hst & Hcur & Hi & _)%found_slot)%list_elem_of_fmap].
      * exists s. rewrite Hs. simpl. unfold scanned. rewrite bool_decide_eq_false_2 by congruence. done.
      * rewrite Hs. simpl. unfold scanned. rewrite bool_decide_eq_true_2, Hcur by done. eexists. split; done.
Qed.

Lemma found_survivors : found <> [] -> survivors (mark_survivors i sorted) <> [].
Proof.
  intros Hne. apply (survivors_nonempty i sorted sorted_strict found_kind found_fresh).
  intros He. apply Hne, Permutation_nil_r. by rewrite <- sorted_perm, He.
Qed.
End Candidates.
