(* ===== verification/LiveControlPreserved.v ===== *)
(** * Live control: every operation keeps the invariant *)

From stdpp Require Import base list numbers sets sorting.
From Stdlib Require Import ZArith Lia Bool.
From S2P Require Import Prelude CanonicalBytes SnapshotCodec ListSums SeqRing LiveControlActions LiveControlState LiveControlMailbox LiveControlBoundary LiveControlCore LiveControlScan LiveControlInvariant.

Open Scope Z_scope.
Local Open Scope rtfw_scope.

(** ** Settling a list of slots *)

Lemma settle_update i a k state g :
  update_mailbox a vacate (update_control_slot a k (fun s => mkControlSlot state g (cs_record s)) i) =
    update_mailbox a (settle_slot state g k) i.
Proof. unfold update_control_slot. by rewrite update_mailbox_twice. Qed.

Lemma count_settled_frame b s i : control_base i -> control_base (count_settled b s i).
Proof. destruct b, s; by apply control_base_ext. Qed.

(** One owned record reaches its last state and leaves the list. *)
Lemma settle_head i i' a k l state g :
  im_mailboxes i' = im_mailboxes (update_mailbox a (settle_slot state g k) i) ->
  im_rate_targets i' = im_rate_targets i -> im_host_boundary_started i' = im_host_boundary_started i ->
  im_last_host_boundary i' = im_last_host_boundary i ->
  control_base i -> owned_exactly i ((a, k) :: l) -> terminal_state state = true ->
  control_base i' /\ owned_exactly i' l.
Proof.
  intros Hm H1 H2 H3 Hb Ho Ht. destruct (owned_lookup i (a, k) _ Ho ltac:(set_solver)) as (s & Hs & Hst). split.
  - apply (control_base_ext (update_mailbox a (settle_slot state g k) i)); [done..|]. apply (settle_base _ _ _ s); try done.
    by rewrite Hst.
  - apply (owned_exactly_ext (update_mailbox a (settle_slot state g k) i)); [intros p; unfold lookup_slot; by rewrite Hm|].
    apply owned_settle_owned; [done|by destruct state].
Qed.

Lemma settle_candidate_fields identity i c :
  im_mailboxes (settle_candidate identity i c) =
    im_mailboxes (update_mailbox (cd_mailbox_index c)
      (settle_slot (if cd_survivor c then slot_committed else slot_replaced) identity (cd_slot_index c)) i) /\
  im_rate_targets (settle_candidate identity i c) = im_rate_targets i /\
  im_host_boundary_started (settle_candidate identity i c) = im_host_boundary_started i /\
  im_last_host_boundary (settle_candidate identity i c) = im_last_host_boundary i /\
  im_closure (settle_candidate identity i c) = im_closure i.
Proof.
  rewrite <- settle_update. unfold settle_candidate. destruct (cd_survivor c); by split_and!.
Qed.

Lemma settle_candidates_inv identity l i :
  control_base i -> owned_exactly i (candidate_position <$> l) ->
  control_base (foldl (settle_candidate identity) i l) /\
  owned_exactly (foldl (settle_candidate identity) i l) [] /\
  im_closure (foldl (settle_candidate identity) i l) = im_closure i.
Proof.
  revert i. induction l as [|c l IH]; intros i Hb Ho; [done|]. simpl.
  destruct (settle_candidate_fields identity i c) as (Hm & H1 & H2 & H3 & <-).
  destruct (settle_head _ _ _ _ _ _ _ Hm H1 H2 H3 Hb Ho) as [Hb' Ho']; [by destruct (cd_survivor c)|by apply IH].
Qed.

Lemma settle_provisional_shape status i v :
  exists state, terminal_state state = true /\
  settle_provisional status i v ≈c
    count_settled (bool_decide (status = ok)) (pv_survivor v)
      (update_mailbox (pv_mailbox_index v) (settle_slot state (pv_generation_identity v) (pv_slot_index v)) i).
Proof.
  unfold settle_provisional. exists (fst (fst (fst (fst (settlement (bool_decide (status = ok)) (pv_survivor v)))))).
  split; [unfold settlement; by destruct (bool_decide _), (pv_survivor v)|].
  destruct (settlement _ _) as [[[[state ?] ?] ?] ?]. rewrite update_closure_log by (intros c; apply closure_core_emit_settled).
  rewrite <- settle_update. cbn [fst]. by destruct (bool_decide (status = ok)), (pv_survivor v).
Qed.

Lemma count_settled_fields b s i :
  im_mailboxes (count_settled b s i) = im_mailboxes i /\ im_rate_targets (count_settled b s i) = im_rate_targets i /\
  im_host_boundary_started (count_settled b s i) = im_host_boundary_started i /\
  im_last_host_boundary (count_settled b s i) = im_last_host_boundary i /\
  im_closure (count_settled b s i) = im_closure i.
Proof. by destruct b, s. Qed.

Lemma settle_provisionals_inv status l i :
  control_base i -> owned_exactly i (provisional_position <$> l) ->
  control_base (foldl (settle_provisional status) i l) /\
  owned_exactly (foldl (settle_provisional status) i l) [] /\
  closure_core <$> im_closure (foldl (settle_provisional status) i l) = closure_core <$> im_closure i.
Proof.
  revert i. induction l as [|v l IH]; intros i Hb Ho; [done|]. simpl.
  destruct (settle_provisional_shape status i v) as (state & Ht & Hs).
  pose proof (same_control_fields _ _ Hs) as (Hm & H1 & H2 & H3 & _ & _ & _ & _ & _ & _ & _ & Hc).
  destruct (count_settled_fields (bool_decide (status = ok)) (pv_survivor v)
    (update_mailbox (pv_mailbox_index v) (settle_slot state (pv_generation_identity v) (pv_slot_index v)) i)) as (E1 & E2 & E3 & E4 & E5).
  rewrite E1 in Hm. rewrite E2 in H1. rewrite E3 in H2. rewrite E4 in H3. rewrite E5 in Hc.
  destruct (settle_head _ _ _ _ _ _ _ Hm H1 H2 H3 Hb Ho Ht) as [Hb' Ho'].
  destruct (IH _ Hb' Ho') as (? & ? & ->). done.
Qed.

(** ** Closing a boundary *)

(** What the targets of a boundary must satisfy. *)
Definition targets_inv (i : Impl) : Prop :=
  closed_downward (im_rate_targets i) /\ Forall rate_target_exact (im_rate_targets i) /\
  Z.of_nat (length (im_rate_targets i)) <= live_control_retained_generation_capacity_limit.

(** A boundary may find records only inside a transaction. *)
Definition may_close (i : Impl) (t : LiveControlBoundaryTarget) : Prop :=
  match im_closure i with
  | None => True
  | Some c => cl_transaction_active c = true \/ omap (candidate_at t i) (slot_positions i) = []
  end.

Lemma scan_control_base t i0 i :
  boxes_inv i0 -> targets_inv i0 -> scan_state t i0 (slot_positions i0) i ->
  (forall p, lookup_slot i p = scanned t i0 <$> lookup_slot i0 p) -> control_base i.
Proof.
  intros Hb0 (H1 & H2 & H3) Hst Hsl. destruct (scan_frame _ _ _ _ Hst) as (ms & x & Hf).
  pose proof (same_control_fields _ _ Hf) as (_ & Ht & _). simpl in Ht. constructor; rewrite ?Ht; try done.
  - by eapply scan_boxes.
  - intros p s. rewrite Hsl. destruct (lookup_slot i0 p) as [s0|]; simpl; [|done]. intros [= <-].
    rewrite (target_closed_scan _ _ _ _ _ Hst). unfold scanned.
    destruct (bool_decide (cs_state s0 = slot_staged)) eqn:Hb; simpl; [|by apply bool_decide_eq_false in Hb].
    destruct (is_current t (cs_record s0)); simpl; [done|]. by destruct (target_closed i0 (cs_record s0)) eqn:E.
Qed.

Lemma scan_closure t i0 l i : scan_state t i0 l i -> closure_core <$> im_closure i = closure_core <$> im_closure i0.
Proof.
  intros Hst. destruct (scan_frame _ _ _ _ Hst) as (ms & x & Hf).
  by pose proof (same_control_fields _ _ Hf) as (_ & _ & _ & _ & _ & _ & _ & _ & _ & _ & _ & ->).
Qed.

Lemma control_owned_closure i i0 l :
  closure_core <$> im_closure i = closure_core <$> im_closure i0 -> control_owned i0 ->
  (forall l0, owned_exactly i0 l0 -> owned_exactly i (l0 ++ l)) ->
  match im_closure i with
  | None => owned_exactly i l
  | Some c => owned_exactly i ((provisional_position <$> cl_provisional_records c) ++ l) /\
      (cl_transaction_active c = false -> cl_provisional_records c = [])
  end.
Proof.
  unfold control_owned. intros Hc Ho Hl. destruct (im_closure i) as [c|], (im_closure i0) as [c0|]; try done; [|by apply Hl in Ho].
  apply (inj Some) in Hc. pose proof (closure_core_fields _ _ Hc) as (-> & -> & _). destruct Ho as [Ho Ha]. split; [by apply Hl|done].
Qed.

Lemma publish_provisional_fields t cands g identity prior i c :
  exists c', publish_provisional t cands g identity prior i c = set_im_closure (Some c') i /\
    closure_core c' = closure_core (set_cl_provisional_records
      (cl_provisional_records c ++
         ((fun c => mkProvisional (cd_mailbox_index c) (cd_slot_index c) identity prior (cd_survivor c)) <$> cands)) c).
Proof.
  unfold publish_provisional. destruct (emit_closure _ _) as [c1 q] eqn:E. eexists. split; [done|].
  rewrite closure_core_retain. change c1 with (fst (c1, q)). rewrite <- E. by rewrite closure_core_emit.
Qed.

Lemma provisional_positions_app (l : list ProvisionalRecord) identity prior (cands : list Candidate) :
  provisional_position <$> (l ++ ((fun c => mkProvisional (cd_mailbox_index c) (cd_slot_index c) identity prior (cd_survivor c)) <$> cands)) =
  (provisional_position <$> l) ++ (candidate_position <$> cands).
Proof. rewrite fmap_app. f_equal. rewrite <- list_fmap_compose. by apply list_fmap_ext. Qed.

Lemma publish_generation_inv t cands i :
  control_base i ->
  match im_closure i with
  | None => owned_exactly i (candidate_position <$> cands)
  | Some c => owned_exactly i ((provisional_position <$> cl_provisional_records c) ++ (candidate_position <$> cands)) /\
      cl_transaction_active c = true
  end -> control_inv (publish_generation t cands i).
Proof.
  intros Hb Ho. unfold publish_generation.
  set (g := build_generation i t cands). set (i1 := set_active_generation (other_generation i) g i).
  assert (Hb1 : control_base i1) by (by apply (control_base_ext i)).
  change (im_closure i1) with (im_closure i). destruct (im_closure i) as [c|] eqn:Hc.
  - destruct (publish_provisional_fields t cands g (gv_generation_identity (gn_view g))
      (from_option gv_generation_identity 0 (active_view i)) i1 c) as (c' & -> & Hcore).
    apply closure_core_fields in Hcore as (Hp & Ha & _). destruct Ho as [Ho Hact]. split.
    + by apply (control_base_ext i1).
    + unfold control_owned. cbn [set_latest im_closure set_im_closure]. rewrite Hp, Ha. split.
      * cbn [cl_provisional_records set_cl_provisional_records]. rewrite provisional_positions_app. by apply (owned_exactly_ext i).
      * cbn [cl_transaction_active set_cl_provisional_records]. by rewrite Hact.
  - destruct (settle_candidates_inv (gv_generation_identity (gn_view g)) cands i1 Hb1) as (Hb2 & Ho2 & Hc2); [done|].
    split; [by apply (control_base_ext (foldl (settle_candidate (gv_generation_identity (gn_view g))) i1 cands))|].
    unfold control_owned. cbn [set_latest im_closure]. rewrite Hc2. change (im_closure i1) with (im_closure i). rewrite Hc.
    by apply (owned_exactly_ext (foldl (settle_candidate (gv_generation_identity (gn_view g))) i1 cands)).
Qed.

Lemma close_boundary_inv i t :
  boxes_inv i -> targets_inv i -> control_owned i -> may_close i t -> control_inv (close_boundary i t).
Proof.
  intros Hb Ht Ho Hmay. unfold close_boundary. set (i0 := bump_inspection i).
  assert (Hb0 : boxes_inv i0) by done. destruct (scan_all t i0 Hb0) as (i1 & -> & Hst & Hsl).
  set (cands := mark_survivors i1 (std_sort candidate_less (omap (candidate_at t i0) (slot_positions i0)))).
  assert (Hbase : control_base i1) by (by eapply (scan_control_base t i0)).
  pose proof (scan_closure _ _ _ _ Hst) as Hcl.
  pose proof (control_owned_closure i1 i0 (candidate_position <$> cands) Hcl Ho (found_owned t i0 i1 Hb0 Hsl)) as Hown.
  assert (Hfin : control_inv (if Nat.eqb (length (survivors cands)) 0 then close_empty t i1 else publish_generation t cands i1)).
  { destruct (Nat.eqb_spec (length (survivors cands)) 0) as [Hz|Hz].
    - apply (control_inv_same i1); [by rewrite close_empty_log|]. split; [done|].
      assert (Hnil : omap (candidate_at t i0) (slot_positions i0) = []).
      { destruct (decide (omap (candidate_at t i0) (slot_positions i0) = [])) as [|Hne]; [done|].
        apply (found_survivors t i0 i1 Hb0 Hsl) in Hne. by apply length_zero_iff_nil in Hz. }
      unfold cands in Hown. rewrite Hnil in Hown. unfold control_owned. destruct (im_closure i1); [|done].
      change (mark_survivors i1 (std_sort candidate_less [])) with (@nil Candidate) in Hown. simpl in Hown. by rewrite app_nil_r in Hown.
    - apply publish_generation_inv; [done|]. unfold may_close in Hmay. change (im_closure i0) with (im_closure i) in Hcl.
      destruct (im_closure i1) as [c1|], (im_closure i) as [c|]; try done. apply (inj Some) in Hcl.
      pose proof (closure_core_fields _ _ Hcl) as (_ & Ha & _). destruct Hown as [Hown _]. split; [done|]. rewrite Ha.
      destruct Hmay as [|Hnil]; [done|]. destruct Hz. unfold cands. change (omap (candidate_at t i) (slot_positions i)) with (omap (candidate_at t i0) (slot_positions i0)) in Hnil.
      by rewrite Hnil. }
  destruct Hfin as [Hfb Hfo].
  split; [by refine (control_base_ext _ _ _ _ _ _ Hfb)|by refine (control_owned_ext _ _ _ _ Hfo)].
Qed.

(** ** The boundaries *)

Definition in_transaction (i : Impl) : Prop :=
  match im_closure i with None => True | Some c => cl_transaction_active c = true end.

Lemma in_transaction_may_close i t : in_transaction i -> may_close i t.
Proof. unfold in_transaction, may_close. destruct (im_closure i); [by left|done]. Qed.

Lemma control_base_targets i : control_base i -> targets_inv i.
Proof. by intros []. Qed.

Lemma close_host_frame_inv i f : control_inv i -> in_transaction i -> control_inv (close_host_frame i f).
Proof.
  intros [Hb Ho] Ht. unfold close_host_frame. destruct (negb _); [done|]. destruct (_ && _); [done|].
  apply close_boundary_inv.
  - apply (base_boxes i Hb).
  - by apply (control_base_targets i).
  - by apply (control_owned_ext i).
  - by apply in_transaction_may_close.
Qed.

(** Targets before and after some of them close, up to a time. *)
Definition advances (time : Z) (t u : RateTarget) : Prop :=
  rt_release_time_ns u = rt_release_time_ns t /\ (rate_target_exact t -> rate_target_exact u) /\
  (rt_closed t = true -> rt_closed u = true) /\ (rt_release_time_ns t < time -> rt_closed u = true) /\
  (rt_closed u = true -> rt_closed t = true \/ rt_release_time_ns t <= time).

Lemma advances_inv i targets time :
  targets_inv i -> Forall2 (advances time) (im_rate_targets i) targets -> targets_inv (set_im_rate_targets targets i).
Proof.
  intros (Hd & He & Hc) HF. unfold targets_inv. cbn [im_rate_targets set_im_rate_targets]. split_and!.
  - intros t' u' (n & Ht)%list_elem_of_lookup (l & Hu)%list_elem_of_lookup Hcl Hlt.
    destruct (Forall2_lookup_r _ _ _ _ _ HF Ht) as (t & Ht0 & Et & _ & Kt & Lt & _).
    destruct (Forall2_lookup_r _ _ _ _ _ HF Hu) as (u & Hu0 & Eu & _ & _ & _ & Mu).
    destruct (Mu Hcl) as [Hcu|Hcu]; [|apply Lt; lia]. apply Kt.
    apply (Hd t u); [by eapply list_elem_of_lookup_2..|done|lia].
  - apply Forall_lookup_2. intros n t' Ht. destruct (Forall2_lookup_r _ _ _ _ _ HF Ht) as (t & Ht0 & _ & Hx & _).
    apply Hx. by apply (Forall_lookup_1 _ _ _ _ He Ht0).
  - by rewrite <- (Forall2_length _ _ _ HF).
Qed.

Lemma close_before_advances time (targets : list RateTarget) :
  Forall2 (advances time) targets (close_targets_before time targets).
Proof.
  unfold close_targets_before. apply Forall2_fmap_r, Forall_Forall2_diag, Forall_lookup_2. intros n t _.
  unfold advances. simpl. destruct (rt_release_time_ns t <? time) eqn:E; split_and!; try done; try lia; auto.
Qed.

Lemma close_release_advances reference current (targets : list RateTarget) :
  targets !! reference = Some current ->
  Forall2 (advances (rt_release_time_ns current)) targets
    (alter (set_rt_closed true) reference (close_targets_before (rt_release_time_ns current) targets)).
Proof.
  intros Hr. pose proof (close_before_advances (rt_release_time_ns current) targets) as HF.
  apply Forall2_same_length_lookup. split; [rewrite length_alter; by apply Forall2_length in HF|].
  intros n t u Ht Hu. rewrite list_lookup_alter in Hu. destruct (decide (reference = n)) as [<-|].
  - simplify_eq. apply fmap_Some in Hu as (v & Hv & ->). destruct (Forall2_lookup_lr _ _ _ _ _ _ HF Hr Hv) as (E & Hx & K & L & M).
    unfold advances. simpl. split_and!; try done; auto. intros _. right. lia.
  - by apply (Forall2_lookup_lr _ _ _ _ _ _ HF Ht Hu).
Qed.

(** Closing what lies before a closed release changes nothing. *)
Lemma close_before_closed i reference current :
  targets_inv i -> im_rate_targets i !! reference = Some current -> rt_closed current = true ->
  close_targets_before (rt_release_time_ns current) (im_rate_targets i) = im_rate_targets i.
Proof.
  intros (Hd & _) Hr Hc. unfold close_targets_before. apply list_eq. intros n. rewrite list_lookup_fmap.
  destruct (im_rate_targets i !! n) as [t|] eqn:Ht; [|done]. simpl. f_equal.
  destruct (rt_release_time_ns t <? rt_release_time_ns current) eqn:E; [|done].
  assert (Htc : rt_closed t = true) by (apply (Hd t current); [by eapply list_elem_of_lookup_2..|done|lia]).
  destruct t; simpl in *. by rewrite Htc.
Qed.

Lemma set_targets_same i : set_im_rate_targets (im_rate_targets i) i = i.
Proof. by destruct i. Qed.

Lemma close_rate_release_inv i reference sequence :
  control_inv i -> in_transaction i -> control_inv (close_rate_release i reference sequence).
Proof.
  intros [Hb Ho] Hin. unfold close_rate_release. destruct (im_rate_targets i !! reference) as [current|] eqn:Hr; [|done].
  destruct (negb _); [done|]. destruct (rt_closed current) eqn:Hc.
  - rewrite (close_before_closed i reference) by (try done; by apply control_base_targets). by rewrite set_targets_same.
  - apply close_boundary_inv.
    + apply (base_boxes i Hb).
    + apply (advances_inv i _ (rt_release_time_ns current)); [by apply control_base_targets|]. by apply close_release_advances.
    + by apply (control_owned_ext i).
    + by apply in_transaction_may_close.
Qed.

(** No stored record names the empty target. *)
Lemma no_current_candidates i : boxes_inv i -> omap (candidate_at no_current_target i) (slot_positions i) = [].
Proof.
  intros Hb. destruct (omap _ _) as [|c l] eqn:E; [done|].
  assert (Hc : c ∈ omap (candidate_at no_current_target i) (slot_positions i)) by (rewrite E; by left).
  apply (found_candidate no_current_target i Hb) in Hc as (a & k & s & _ & Hs & Hst & Hcur).
  apply lookup_slot_Some in Hs as (m & Hm & Hs).
  pose proof (inv_records m (boxes_inv_lookup _ _ _ Hb Hm) k s Hs ltac:(congruence)) as (_ & _ & _ & _ & _ & _ & Hx & _).
  unfold is_current, no_current_target, exact_target, target_from_record, kInvalidSequence in *. cbn in Hcur, Hx.
  rewrite !andb_true_iff, !Z.eqb_eq in Hcur. destruct Hcur as [[Hk Hr] _].
  rewrite Hk, Hr in Hx. cbn in Hx. rewrite !andb_false_r in Hx. done.
Qed.

Lemma expire_inv i time : control_inv i -> control_inv (expire_rate_releases_before i time).
Proof.
  intros [Hb Ho]. unfold expire_rate_releases_before. destruct (negb _); [done|]. destruct (existsb _ _); [|done].
  apply close_boundary_inv.
  - apply (base_boxes i Hb).
  - apply (advances_inv i _ time); [by apply control_base_targets|]. apply close_before_advances.
  - by apply (control_owned_ext i).
  - unfold may_close. destruct (im_closure _); [|done]. right. apply no_current_candidates. apply (base_boxes i Hb).
Qed.

(** ** Transactions *)

Lemma begin_inv i : control_inv i -> control_inv (fst (begin_step_transaction i)).
Proof.
  intros [Hb Ho]. unfold begin_step_transaction. destruct (im_closure i) as [c|] eqn:Hc; [|done].
  destruct (_ || _) eqn:E; [done|]. apply orb_false_iff in E as [_ Hact].
  assert (Hown : owned_exactly i []).
  { unfold control_owned in Ho. rewrite Hc in Ho. destruct Ho as [Ho Hp]. by rewrite (Hp Hact) in Ho. }
  split; [by apply (control_base_ext i)|]. unfold control_owned. cbn [fst im_closure set_im_closure].
  destruct (active_view i); cbn [open_transaction cl_provisional_records cl_transaction_active]; (split; [|done]); by apply (owned_exactly_ext i).
Qed.

Lemma restore_generation_fields i c :
  im_mailboxes (restore_generation i c) = im_mailboxes i /\ im_rate_targets (restore_generation i c) = im_rate_targets i /\
  im_host_boundary_started (restore_generation i c) = im_host_boundary_started i /\
  im_last_host_boundary (restore_generation i c) = im_last_host_boundary i /\ im_closure (restore_generation i c) = im_closure i.
Proof. unfold restore_generation. destruct (cl_rollback_has_generation c); by split_and!. Qed.

Lemma settle_inv i status : control_inv i -> control_inv (settle_step_transaction i status).
Proof.
  intros [Hb Ho]. unfold settle_step_transaction. destruct (im_closure i) as [c|] eqn:Hc; [|done].
  destruct (negb (cl_transaction_active c)) eqn:Hact; [done|].
  set (i1 := if decide (status = ok) then i else restore_generation i c).
  assert (Hi1 : im_mailboxes i1 = im_mailboxes i /\ im_rate_targets i1 = im_rate_targets i /\
    im_host_boundary_started i1 = im_host_boundary_started i /\ im_last_host_boundary i1 = im_last_host_boundary i /\
    im_closure i1 = im_closure i).
  { unfold i1. case_decide; [done|]. apply restore_generation_fields. }
  destruct Hi1 as (Hm & H1 & H2 & H3 & H4).
  assert (Hb1 : control_base i1) by (by apply (control_base_ext i)).
  unfold control_owned in Ho. rewrite Hc in Ho. destruct Ho as [Ho _].
  destruct (settle_provisionals_inv status (cl_provisional_records c) i1 Hb1) as (Hb2 & Ho2 & Hc2).
  { apply (owned_exactly_ext i); [|done]. intros p. unfold lookup_slot. by rewrite Hm. }
  set (i2 := foldl (settle_provisional status) i1 (cl_provisional_records c)) in *.
  rewrite H4, Hc in Hc2. destruct (im_closure i2) as [c2|] eqn:E2; [|done].
  split; [by apply (control_base_ext i2)|]. unfold control_owned, update_closure. cbn [im_closure set_im_closure]. rewrite E2.
  cbn [fmap option_fmap option_map finish_transaction cl_provisional_records set_cl_transaction_active set_cl_provisional_records].
  split; [|done]. by apply (owned_exactly_ext i2).
Qed.

(** ** Claims and the end of admission *)

Lemma control_inv_reservations b i :
  control_inv i -> control_inv (set_im_mailboxes (set_mb_reservation b <$> im_mailboxes i) i).
Proof.
  intros [[] Ho]. assert (He : forall p, lookup_slot (set_im_mailboxes (set_mb_reservation b <$> im_mailboxes i) i) p = lookup_slot i p).
  { intros [a k]. unfold lookup_slot. simpl. rewrite list_lookup_fmap. by destruct (im_mailboxes i !! a). }
  split; [constructor; try done|].
  - destruct base_boxes as [HF HN]. unfold boxes_inv. cbn [im_mailboxes set_im_mailboxes]. split.
    + apply Forall_fmap. eapply Forall_impl; [exact HF|]. intros m. by apply mailbox_inv_core.
    + by rewrite <- list_fmap_compose.
  - intros p s. rewrite He. apply base_waits.
  - unfold control_owned in *. cbn [im_closure set_im_mailboxes].
    destruct (im_closure i); [destruct Ho; split; [|done]|]; by apply (owned_exactly_ext i).
Qed.

(** The claim flag is no part of the invariant. *)
Lemma control_inv_closure i f :
  (forall c, cl_provisional_records (f c) = cl_provisional_records c) ->
  (forall c, cl_transaction_active (f c) = cl_transaction_active c) -> control_inv i -> control_inv (update_closure f i).
Proof.
  intros Hp Ha [Hb Ho]. split; [by apply (control_base_ext i)|]. unfold control_owned, update_closure in *.
  cbn [im_closure set_im_closure]. destruct (im_closure i) as [c|]; simpl; rewrite ?Hp, ?Ha; [|done].
  destruct Ho. split; [|done]. by apply (owned_exactly_ext i).
Qed.

Lemma claim_inv i : control_inv i -> control_inv (fst (claim_all i)).
Proof.
  intros Hi. unfold claim_all. destruct (im_closure i); [|done]. repeat case_match; try done.
  by apply control_inv_closure, control_inv_reservations.
Qed.

Lemma release_inv i : control_inv i -> control_inv (release_all i).
Proof. intros Hi. by apply control_inv_closure, control_inv_reservations. Qed.

Lemma close_admission_inv i : control_inv i -> control_inv (close_admission i).
Proof.
  intros Hi. unfold close_admission.
  match goal with |- control_inv (set_im_admission_open false (update_closure ?f i)) =>
    assert (Hu : control_inv (update_closure f i)) end.
  { apply control_inv_closure; [..|done]; intros c; repeat case_match; done. }
  destruct Hu as [Hb Ho]. split; [by refine (control_base_ext _ _ _ _ _ _ Hb)|by refine (control_owned_ext _ _ _ _ Ho)].
Qed.

Lemma stop_slot_shape i a k s :
  lookup_slot i (a, k) = Some s ->
  stop_slot i (a, k) ≈c
    if bool_decide (cs_state s = slot_staged)
    then count_stopped (update_mailbox a (settle_slot slot_stopped 0 k) i) else i.
Proof.
  intros Hs. unfold stop_slot. rewrite (control_slot_lookup _ _ _ _ Hs). case_bool_decide; simpl; [|done].
  rewrite emit_dropped_log. unfold update_control_slot.
  change (count_stopped (update_mailbox a (fun m => set_mb_slots (alter (set_cs_state slot_stopped) k (mb_slots m)) m)
    (update_mailbox a vacate (update_mailbox a
       (fun m => set_mb_slots (alter (fun s => set_cs_terminal_generation 0 (set_cs_state slot_boundary_owned s)) k (mb_slots m)) m) i)))
    ≈c count_stopped (update_mailbox a (settle_slot slot_stopped 0 k) i)).
  rewrite !update_mailbox_twice. erewrite update_mailbox_ext; [done|]. intros m _. destruct m.
  unfold settle_slot, move_slot, vacate, compose. simpl. unfold set_mb_occupancy, set_mb_slots. simpl. f_equal.
  by rewrite !list_alter_alter_eq.
Qed.

Lemma stop_slot_inv i p : control_inv i -> is_Some (lookup_slot i p) -> control_inv (stop_slot i p).
Proof.
  intros [Hb Ho] [s Hs]. destruct p as [a k]. eapply control_inv_same; [symmetry; by apply stop_slot_shape|].
  case_bool_decide as Hst; [|done]. split.
  - apply (control_base_ext (update_mailbox a (settle_slot slot_stopped 0 k) i)); [done..|].
    apply (settle_base _ _ _ s); try done. by rewrite Hst.
  - apply (control_owned_ext (update_mailbox a (settle_slot slot_stopped 0 k) i)); [done..|].
    apply (control_owned_settle _ _ _ s); try done. by rewrite Hst.
Qed.

(** A stopped slot leaves every other slot where it is. *)
Lemma stop_slot_lookup i p q :
  is_Some (lookup_slot i p) -> is_Some (lookup_slot i q) -> is_Some (lookup_slot (stop_slot i p) q).
Proof.
  intros [s Hs] Hq. destruct p as [a k]. rewrite (lookup_slot_same _ _ q (stop_slot_shape i a k s Hs)).
  case_bool_decide; [|done].
  change (is_Some (lookup_slot (update_mailbox a (settle_slot slot_stopped 0 k) i) q)).
  rewrite (lookup_slot_touch _ _ _ _ _ _ (touches_settle _ _ _)). case_decide; [|done]. by apply fmap_is_Some.
Qed.

Lemma terminalize_inv i : control_inv i -> control_inv (terminalize_staged_on_stop i).
Proof.
  intros Hi. unfold terminalize_staged_on_stop.
  assert (Hall : Forall (fun p => is_Some (lookup_slot i p)) (slot_positions i)).
  { apply Forall_lookup_2. intros n [a k] Hp%list_elem_of_lookup_2. apply elem_of_slot_positions; [apply Hi|done]. }
  revert Hall. generalize (slot_positions i). intros l. revert i Hi. induction l as [|p l IH]; intros i Hi Hall; [done|].
  apply Forall_cons in Hall as [Hp Hall]. simpl. apply IH; [by apply stop_slot_inv|].
  eapply Forall_impl; [exact Hall|]. intros q Hq. by apply stop_slot_lookup.
Qed.

(** ** Admission *)

(** What [stage_into] does to the slots, apart from the log. *)
Definition staged_state (impl : Impl) (update : LiveControlUpdateRecord) (payload : list Z) (owner slot : nat) : Impl :=
  let r := set_lu_mailbox_sequence (mb_next_sequence (im_mailboxes impl !!! owner)) update in
  if target_closed impl r
  then count_missed (update_mailbox owner (fun m => settle_slot slot_missed 0 slot (stage_slot slot r payload m)) impl)
  else update_mailbox owner (stage_slot slot r payload) impl.

Lemma stage_reservation (i : Impl) :
  exists i' q,
  match im_closure i with
  | Some closure =>
      match cl_lossless closure with
      | Some _ => let '(closure, sequence) := reserve_action closure in (set_im_closure (Some closure) i, sequence)
      | None => (i, kInvalidSequence)
      end
  | None => (i, kInvalidSequence)
  end = (i', q) /\ i' ≈c i.
Proof.
  destruct (im_closure i) as [c|] eqn:Hc; [|by exists i, kInvalidSequence].
  destruct (cl_lossless c); [|by exists i, kInvalidSequence].
  destruct (reserve_action c) as [c' q] eqn:E. exists (set_im_closure (Some c') i), q. split; [done|].
  unfold same_control, control_core. rewrite Hc. simpl. pose proof (closure_core_reserve c) as Hr. rewrite E in Hr. simpl in Hr.
  by rewrite <- Hr.
Qed.

(** A record staged for a boundary that has closed: the slot goes on to its last state. *)
Lemma miss_staged_slot slot r payload m :
  set_mb_next_sequence (u64 (lu_mailbox_sequence r + 1))
    (vacate (set_slot_state slot_missed slot (set_slot_state slot_staged slot (occupy (write_slot slot r payload m))))) =
  settle_slot slot_missed 0 slot (stage_slot slot r payload m).
Proof.
  unfold settle_slot, move_slot, set_slot_state at 1. rewrite stage_slot_slots.
  change (mb_slots (set_slot_state slot_staged slot (occupy (write_slot slot r payload m))))
    with (mb_slots (stage_slot slot r payload m)).
  rewrite stage_slot_slots, !list_alter_alter_eq. done.
Qed.

Lemma stage_into_shape i h u payload owner slot producer :
  im_admission_open i = true ->
  exists result ps, stage_into i h u payload owner slot producer =
      (fst (stage_into i h u payload owner slot producer), result) /\
    result = (if target_closed i (set_lu_mailbox_sequence (mb_next_sequence (im_mailboxes i !!! owner)) u)
              then adm_missed else adm_accepted) /\
    fst (stage_into i h u payload owner slot producer) ≈c
      update_mailbox owner (count_result result) (set_im_producers ps (staged_state i u payload owner slot)).
Proof.
  intros Hopen. unfold stage_into.
  set (r := set_lu_mailbox_sequence (mb_next_sequence (im_mailboxes i !!! owner)) u).
  destruct (stage_reservation (update_mailbox owner (write_slot slot r payload) i)) as (i2 & q & -> & Hi2).
  set (i3 := update_mailbox owner (fun m => set_slot_state slot_staged slot (occupy m)) i2).
  assert (H3 : i3 ≈c update_mailbox owner (fun m => set_slot_state slot_staged slot (occupy (write_slot slot r payload m))) i).
  { unfold i3. rewrite Hi2, update_mailbox_twice. done. }
  assert (Ho : im_admission_open i3 = true).
  { by pose proof (same_control_fields _ _ H3) as (_ & _ & _ & _ & _ & _ & _ & _ & _ & -> & _). }
  rewrite Ho. rewrite (target_closed_same _ _ _ H3).
  change (target_closed (update_mailbox owner _ i) r) with (target_closed i r). unfold staged_state. fold r.
  destruct (target_closed i r); cbn [negb].
  - eexists adm_missed, _. split; [done|]. split; [done|]. cbn [fst].
    rewrite retain_admission_log. apply update_mailbox_proper, set_im_producers_proper.
    rewrite H3, update_mailbox_twice.
    change (count_missed (update_mailbox owner (set_mb_next_sequence (u64 (lu_mailbox_sequence r + 1)))
      (update_mailbox owner (fun m => vacate (set_slot_state slot_missed slot
         (set_slot_state slot_staged slot (occupy (write_slot slot r payload m))))) i)) ≈c
      count_missed (update_mailbox owner (fun m => settle_slot slot_missed 0 slot (stage_slot slot r payload m)) i)).
    apply count_missed_proper. rewrite update_mailbox_twice. erewrite update_mailbox_ext; [done|]. intros m _.
    apply miss_staged_slot.
  - eexists adm_accepted, _. split; [done|]. split; [done|]. cbn [fst].
    rewrite retain_admission_log. apply update_mailbox_proper, set_im_producers_proper.
    rewrite H3, update_mailbox_twice. done.
Qed.

Lemma target_valid_exact i u q :
  targets_inv i -> 0 <= lu_reference_release_index u -> target_valid i u = true ->
  exact_target (target_from_record (set_lu_mailbox_sequence q u)) = true.
Proof.
  intros (_ & He & Hc) Href. unfold target_valid, exact_target, no_rate_target, target_from_record, kInvalidIndex, kInvalidSequence.
  cbn [bt_kind bt_frame_index bt_rate_release_sequence bt_reference_release_index bt_rate_domain_registration_index
    bt_phase_index bt_rate_substep_ordinal lu_target_kind lu_target_frame_index lu_rate_release_sequence
    lu_reference_release_index lu_rate_domain_registration_index lu_phase_index lu_rate_substep_ordinal set_lu_mailbox_sequence].
  destruct (lu_target_kind u =? target_host_frame); [rewrite !andb_true_iff; intros; split_and!; intuition|].
  destruct (lu_target_kind u =? target_rate_release); [|done].
  destruct (lu_target_frame_index u =? u64_max); [|done]. cbn [negb orb].
  destruct (im_rate_targets i !! _) as [t|] eqn:Ht; [|done]. pose proof (lookup_lt_Some _ _ _ Ht) as Hlt.
  pose proof (Forall_lookup_1 _ _ _ _ He Ht) as (E1 & E2 & E3 & E4). rewrite !andb_true_iff, !Z.eqb_eq. intros (((-> & ->) & ->) & ->).
  unfold live_control_retained_generation_capacity_limit in Hc.
  rewrite !negb_true_iff, !Z.eqb_neq. unfold u32_max in *. split_and!; try done; lia.
Qed.

Lemma structurally_valid_stageable i m producer u payload q :
  targets_inv i -> 0 <= lu_reference_release_index u -> pd_producer_identity producer <> 0 ->
  structurally_valid i m producer u payload = true -> stageable m (set_lu_mailbox_sequence q u) payload.
Proof.
  intros Ht Hr Hp. unfold structurally_valid. rewrite !andb_true_iff, !Z.eqb_eq.
  intros [[[[[[[[[[[[[[[[[_ _] _] _] _] _] Hid] Hpr] Hps] Hb] Hle] Hd] _] Hk] _] Hz] Htv] _].
  apply negb_true_iff, Z.eqb_neq in Hps. apply Z.leb_le in Hle. apply orb_true_iff in Hz. unfold stageable.
  split_and!; try done.
  - by rewrite <- Hpr in Hp.
  - unfold payload_stride. lia.
  - destruct Hz as [Hz%negb_true_iff|Hz]; [left|right]; simpl; lia.
  - by apply (target_valid_exact i).
Qed.

Lemma find_stage_slot_reusable m slot :
  find_stage_slot m = Some slot -> exists s, mb_slots m !! slot = Some s /\ reusable_state (cs_state s) = true.
Proof.
  unfold find_stage_slot. destruct (list_find _ (mb_slots m)) as [[n s]|] eqn:E.
  - intros [= <-]. apply list_find_Some in E as (Hs & Hst & _). exists s. unfold reusable_state. by rewrite Hst.
  - destruct (mb_reclaiming m); [done|]. destruct (negb _); [done|]. intros ([k s] & Hf & ->)%fmap_Some.
    apply list_find_Some in Hf as (Hs & Hst & _). exists s. split; [done|]. unfold reusable_state. by rewrite Hst, orb_true_r.
Qed.

(** Staging into a reusable slot. *)
Lemma stage_slot_control i owner m slot s r payload :
  control_inv i -> im_mailboxes i !! owner = Some m -> mb_slots m !! slot = Some s -> reusable_state (cs_state s) = true ->
  mb_next_sequence m <> u64_max -> lu_mailbox_sequence r = mb_next_sequence m -> stageable m r payload ->
  let i' := update_mailbox owner (stage_slot slot r payload) i in
  boxes_inv i' /\ control_owned i' /\
  forall p, lookup_slot i' p = if decide (p = (owner, slot)) then Some (mkControlSlot slot_staged 0 r) else lookup_slot i p.
Proof.
  intros [Hb Ho] Hm Hs Hre Hn Hq Hst i'.
  assert (Hs' : lookup_slot i (owner, slot) = Some s) by (apply lookup_slot_Some; eauto).
  assert (Hlook : forall p, lookup_slot i' p = if decide (p = (owner, slot)) then Some (mkControlSlot slot_staged 0 r) else lookup_slot i p).
  { intros p. unfold i'. rewrite (lookup_slot_touch _ _ _ _ _ _ (touches_stage _ _ _)). case_decide; [subst p|done]. by rewrite Hs'. }
  split_and!; [| |done].
  - apply boxes_inv_update; [apply (base_boxes i Hb)|done|]. intros m' Hm' Hinv. simplify_eq. by apply (stage_slot_inv m slot s).
  - unfold control_owned in *. change (im_closure i') with (im_closure i).
    assert (Hown : forall l, owned_exactly i l -> owned_exactly i' l).
    { intros l [Hnd Hl]. split; [done|]. intros p. rewrite <- Hl. unfold owned_at. rewrite Hlook. case_decide; [subst p|done].
      rewrite Hs'. split; intros (x & [= <-] & Hx); [done|]. by rewrite Hx in Hre. }
    destruct (im_closure i); [destruct Ho as [Ho Ha]; split; auto|auto].
Qed.

Lemma staged_state_inv i u payload owner m slot s :
  control_inv i -> im_mailboxes i !! owner = Some m -> mb_slots m !! slot = Some s -> reusable_state (cs_state s) = true ->
  mb_next_sequence m <> u64_max -> stageable m (set_lu_mailbox_sequence (mb_next_sequence m) u) payload ->
  control_inv (staged_state i u payload owner slot).
Proof.
  intros Hi Hm Hs Hre Hn Hst. unfold staged_state. rewrite (list_lookup_total_correct _ _ _ Hm).
  set (r := set_lu_mailbox_sequence (mb_next_sequence m) u).
  destruct (stage_slot_control i owner m slot s r payload Hi Hm Hs Hre Hn eq_refl Hst) as (Hbox & Hown & Hlook).
  set (i' := update_mailbox owner (stage_slot slot r payload) i) in *. destruct Hi as [Hb _]. destruct (target_closed i r) eqn:Hcl.
  - assert (Heq : update_mailbox owner (fun m => settle_slot slot_missed 0 slot (stage_slot slot r payload m)) i =
      update_mailbox owner (settle_slot slot_missed 0 slot) i') by (unfold i'; by rewrite update_mailbox_twice).
    rewrite Heq. assert (Hs' : lookup_slot i' (owner, slot) = Some (mkControlSlot slot_staged 0 r)) by (by rewrite Hlook, decide_True).
    split.
    + destruct Hb. constructor; try done; [by eapply (boxes_settle i')|]. intros p x.
      change (lookup_slot (count_missed _) p) with (lookup_slot (update_mailbox owner (settle_slot slot_missed 0 slot) i') p).
      rewrite (lookup_slot_touch _ _ _ _ _ _ (touches_settle _ _ _)). case_decide.
      * subst p. rewrite Hs'. intros [= <-]. done.
      * rewrite Hlook, decide_False by done. apply base_waits.
    + refine (control_owned_ext (update_mailbox owner (settle_slot slot_missed 0 slot) i') _ eq_refl eq_refl _).
      by apply (control_owned_settle _ _ _ _ _ _ Hown Hs').
  - split; [|done]. destruct Hb. constructor; try done. intros p x. rewrite Hlook. case_decide; [|apply base_waits].
    intros [= <-] _. done.
Qed.

Lemma refuse_inv i h u payload owner result : control_inv i -> control_inv (fst (refuse i h u payload owner result)).
Proof.
  intros Hi. unfold refuse. cbn [fst]. eapply control_inv_same; [symmetry; apply retain_admission_log|].
  apply control_inv_quiet; [intros m; apply count_result_core|done].
Qed.

Lemma stage_inv i h u payload :
  control_inv i -> 0 <= lu_reference_release_index u -> control_inv (fst (stage i h u payload)).
Proof.
  intros Hi Href. unfold stage. destruct (lossless_claimed i); [done|].
  assert (Hun : control_inv (retain_admission h u payload adm_stale None None kInvalidSequence i)).
  { eapply control_inv_same; [symmetry; apply retain_admission_log|done]. }
  destruct (negb (LiveControlProducerHandle_valid h) || _ || _) eqn:Hh; [done|]. destruct (im_producers i !! _) as [producer|]; [|done].
  destruct (negb (pd_mailbox_identity producer =? _) || _ || _) eqn:Hp; [done|].
  destruct (stage_gate i producer h u) as [|] eqn:Hg; [by apply refuse_inv|].
  destruct (negb (structurally_valid _ _ _ _ _)) eqn:Hsv; [by apply refuse_inv|].
  destruct (mb_reservation _); [by apply refuse_inv|]. destruct (mb_next_sequence _ =? kInvalidSequence) eqn:Hns; [by apply refuse_inv|].
  destruct (find_stage_slot _) as [slot|] eqn:Hf; [|by apply refuse_inv].
  rewrite !orb_false_iff, !negb_false_iff in Hh, Hp. destruct Hh as [[Hv _] _]. destruct Hp as [[_ Hpi] Hlen].
  apply Nat.leb_gt in Hlen. apply lookup_lt_is_Some_2 in Hlen as [m Hm]. rewrite (list_lookup_total_correct _ _ _ Hm) in *.
  apply negb_false_iff in Hsv. apply find_stage_slot_reusable in Hf as (s & Hs & Hre).
  assert (Hop : im_admission_open i = true) by (unfold stage_gate in Hg; by destruct (im_admission_open i)).
  assert (Hprod : pd_producer_identity producer <> 0).
  { apply Z.eqb_eq in Hpi. rewrite Hpi. unfold LiveControlProducerHandle_valid in Hv. rewrite !andb_true_iff, !negb_true_iff, !Z.eqb_neq in Hv. intuition. }
  destruct (stage_into_shape i h u payload (pd_mailbox_index producer) slot producer Hop) as (result & ps & -> & _ & Hsh). cbn [fst].
  eapply control_inv_same; [symmetry; exact Hsh|]. apply control_inv_quiet; [intros; apply count_result_core|].
  assert (Hst : control_inv (staged_state i u payload (pd_mailbox_index producer) slot)).
  { apply (staged_state_inv _ _ _ _ m _ s); try done; [by apply Z.eqb_neq in Hns|].
    apply (structurally_valid_stageable i m producer); try done. apply control_base_targets, Hi. }
  destruct Hst as [Hb Ho]. split; [by refine (control_base_ext _ _ _ _ _ _ Hb)|by refine (control_owned_ext _ _ _ _ Ho)].
Qed.
