(* ===== verification/LiveControlReach.v ===== *)
(** * Live control: the states the runtime can reach

    The calls the runtime makes into the mailboxes, as explicit sequences of operations
    from a successful [create], and the invariant along them.  Boundaries close inside a
    step transaction, as [Runtime::step] (rt/src/host_runtime.cpp) arranges. *)

From stdpp Require Import base list numbers sets sorting strings.
From Stdlib Require Import ZArith Lia Bool.
From S2P Require Import Prelude Handles RateTimeline CanonicalBytes SnapshotCodec ListSums SeqRing LiveControlActions LiveControlState LiveControlMailbox LiveControlBoundary LiveControlCreate LiveControlCore LiveControlScan LiveControlInvariant LiveControlPreserved.

Open Scope Z_scope.
Local Open Scope rtfw_scope.

(** ** Operations *)

(** [Runtime::stage_live_control_update]: the admission, then its record. *)
Definition stage_live_control_update (i : Impl) (h : LiveControlProducerHandle) (u : LiveControlUpdateRecord)
    (payload : list Z) : Impl * LiveControlAdmissionResult :=
  let '(i, result) := stage i h u payload in (record_admission i h u result, result).

Inductive Operation : Type :=
| op_stage (h : LiveControlProducerHandle) (u : LiveControlUpdateRecord) (payload : list Z)
| op_begin
| op_settle (status : Status)
| op_close_host (frame_index : Z)
| op_close_release (reference : nat) (release_sequence : Z)
| op_expire (logical_time_ns : Z)
| op_claim
| op_release
| op_close_admission
| op_terminalize
| op_checkpoint (correlation : Z)
| op_replay_verified (correlation : Z).

Definition perform (i : Impl) (o : Operation) : Impl :=
  match o with
  | op_stage h u payload => fst (stage_live_control_update i h u payload)
  | op_begin => fst (begin_step_transaction i)
  | op_settle status => settle_step_transaction i status
  | op_close_host frame_index => close_host_frame i frame_index
  | op_close_release reference release_sequence => close_rate_release i reference release_sequence
  | op_expire logical_time_ns => expire_rate_releases_before i logical_time_ns
  | op_claim => fst (claim_all i)
  | op_release => release_all i
  | op_close_admission => close_admission i
  | op_terminalize => terminalize_staged_on_stop i
  | op_checkpoint correlation => record_checkpoint i correlation
  | op_replay_verified correlation => record_replay_verified i correlation
  end.

(** The widths of the arguments, and the bracket of [Runtime::step] around boundaries. *)
Definition enabled (i : Impl) (o : Operation) : Prop :=
  match o with
  | op_stage _ u _ => is_u32 (lu_reference_release_index u)
  | op_close_host frame_index => in_transaction i /\ is_u64 frame_index
  | op_close_release _ release_sequence => in_transaction i /\ 0 <= release_sequence < u64_max
  | _ => True
  end.

#[export] Instance in_transaction_decision i : Decision (in_transaction i).
Proof. unfold in_transaction. destruct (im_closure i); apply _. Defined.

#[export] Instance enabled_decision i o : Decision (enabled i o).
Proof. unfold enabled, is_u32, is_u64. destruct o; apply _. Defined.

(** What the types and the timeline compiler guarantee of the arguments of [create]. *)
Definition release_exact (r : ReferenceRelease) : Prop :=
  rr_domain_release_sequence r <> u64_max /\ Z.of_nat (rr_domain_registration_index r) < u32_max /\
  PhaseHandle_index (rr_phase r) <> u32_max /\ rr_substep_ordinal r <> u32_max.

#[export] Instance release_exact_decision r : Decision (release_exact r).
Proof. unfold release_exact. apply _. Defined.

Definition declarations_typed (mailboxes : list LiveControlMailboxRegistration)
    (releases : list ReferenceRelease) : Prop :=
  Forall (fun d => is_u32 (mr_record_capacity d) /\ is_u32 (mr_payload_bytes_per_record d)) mailboxes /\
  Forall release_exact releases /\
  Z.of_nat (length releases) <= live_control_retained_generation_capacity_limit.

#[export] Instance declarations_typed_decision m r : Decision (declarations_typed m r).
Proof. unfold declarations_typed, is_u32. apply _. Defined.

Inductive reachable : Impl -> Prop :=
| reach_create sizes policy closure retention runtime_id generation budget mailboxes producers releases i :
    declarations_typed mailboxes releases ->
    create sizes policy closure retention runtime_id generation budget mailboxes producers releases = inr i ->
    reachable i
| reach_step i o : reachable i -> enabled i o -> reachable (perform i o).

(** ** The initial state *)

Lemma check_mailboxes_inr policy prior totals l out :
  check_mailboxes policy prior totals l = inr out ->
  NoDup prior -> NoDup (prior ++ (mr_mailbox_identity <$> l)) /\
  Forall (fun d => mr_mailbox_identity d <> 0 /\ mr_record_capacity d <> 0) l /\
  foldl (fun t d => t ≫= fun t => charge_mailbox policy t d) (Some totals) l = Some out.
Proof.
  revert prior totals. induction l as [|d l IH]; intros prior totals; simpl.
  - intros [= <-] Hn. by rewrite app_nil_r.
  - destruct (mailbox_rejected policy d) eqn:Hr; [done|]. case_bool_decide as Hd; [done|].
    destruct (charge_mailbox policy totals d) as [t|] eqn:Hc; [|done]. intros H Hn.
    destruct (IH _ _ H) as (Hn' & HF & Hf).
    { apply list.NoDup_app. split_and!; [done|set_solver|apply NoDup_singleton]. }
    rewrite <- app_assoc in Hn'. split_and!; [done| |done]. constructor; [|done].
    unfold mailbox_rejected in Hr. rewrite !orb_false_iff, !Z.eqb_neq in Hr. intuition.
Qed.

Lemma charge_mailbox_Some policy t d t' :
  charge_mailbox policy t d = Some t' -> 0 <= fst t -> 0 <= snd t -> is_u32 (mr_record_capacity d) -> is_u32 (mr_payload_bytes_per_record d) ->
  fst t' = fst t + mr_record_capacity d /\ snd t' = snd t + mr_record_capacity d * mr_payload_bytes_per_record d /\
  fst t' <= lo_record_capacity policy.
Proof.
  unfold charge_mailbox, checked_add, checked_multiply. intros H H1 H2 [H3 H4] [H5 H6]. unfold u32_max, u64_max in *.
  destruct (18446744073709551615 - mr_record_capacity d <? fst t) eqn:E1; [done|]. simpl in H.
  rewrite u64_small in H by (unfold is_u64, u64_max; lia).
  destruct (negb _ && _) eqn:E2; [done|]. simpl in H.
  assert (Hm : mr_record_capacity d * mr_payload_bytes_per_record d <= 18446744073709551615) by nia.
  rewrite (u64_small (mr_record_capacity d * mr_payload_bytes_per_record d)) in H by (unfold is_u64, u64_max; nia).
  destruct (_ <? snd t) eqn:E3; [done|]. simpl in H. rewrite u64_small in H by (unfold is_u64, u64_max; nia).
  destruct (_ || _) eqn:E4; [done|]. injection H as <-. simpl. apply orb_false_iff in E4 as [E4 _]. lia.
Qed.

Lemma charge_mailboxes_total policy l t out :
  foldl (fun t d => t ≫= fun t => charge_mailbox policy t d) (Some t) l = Some out -> 0 <= fst t -> 0 <= snd t ->
  Forall (fun d => is_u32 (mr_record_capacity d) /\ is_u32 (mr_payload_bytes_per_record d)) l ->
  fst out = fst t + zsum mr_record_capacity l /\
  snd out = snd t + zsum (fun d => mr_record_capacity d * mr_payload_bytes_per_record d) l /\
  Forall (fun d => mr_record_capacity d <= lo_record_capacity policy) l.
Proof.
  revert t. induction l as [|d l IH]; intros t; simpl.
  - intros [= <-] _ _ _. split_and!; [lia..|constructor].
  - intros H H1 H2 [[Hc Hp] Hl]%Forall_cons. destruct (charge_mailbox policy t d) as [t'|] eqn:E.
    2: { exfalso. clear -H. induction l; simpl in H; [done|auto]. }
    destruct (charge_mailbox_Some _ _ _ _ E) as (E1 & E2 & E3); [done..|]. destruct Hc, Hp.
    destruct (IH t' H) as (F1 & F2 & F3); [nia|nia|done|]. split_and!; [lia|lia|]. constructor; [lia|done].
Qed.

(** A successful construction passed every test. *)
Lemma create_shape sizes policy closure retention rid gen budget mailboxes producers releases i :
  create sizes policy closure retention rid gen budget mailboxes producers releases = inr i ->
  exists records payload clo,
    check_mailboxes policy [] (0, 0) mailboxes = inr (records, payload) /\
    policy_rejected policy rid gen (length mailboxes) (length producers) = false /\
    i = create_impl policy rid gen mailboxes producers releases clo (Z.to_nat records) (Z.to_nat payload) /\
    match closure with
    | None => clo = None
    | Some c => closure_rejected c = false /\ exists ring, LiveControlActionRing_create (cp_action_capacity c) = Some ring /\
        clo = Some (create_closure c retention ring (Z.to_nat records) (Z.to_nat payload))
    end.
Proof.
  unfold create. intros H. apply sum_bind_inr in H as (_ & Hp%require_inr%negb_true_iff & H).
  apply sum_bind_inr in H as (_ & Hc%require_inr%negb_true_iff & H).
  apply sum_bind_inr in H as (_ & _ & H). apply sum_bind_inr in H as ([records payload] & Hm & H).
  apply sum_bind_inr in H as (_ & _ & H). apply sum_bind_inr in H as (storage & _ & H).
  apply sum_bind_inr in H as (_ & _ & H). apply sum_bind_inr in H as (_ & _ & H).
  exists records, payload. destruct closure as [c|].
  - destruct (LiveControlActionRing_create _) as [ring|] eqn:Hr; [|done]. destruct (checkpoint_bytes _ _ _ _ _); [|done].
    injection H as <-. eexists. split_and!; try done. by exists ring.
  - injection H as <-. by eexists.
Qed.

Lemma create_producers_boxes producers boxes owners :
  Forall2 (fun m m' => mailbox_core m = mailbox_core m') boxes (fst (foldl create_producer (boxes, owners) producers)).
Proof.
  assert (E : mailbox_core <$> boxes = mailbox_core <$> fst (foldl create_producer (boxes, owners) producers)).
  { revert boxes owners. induction producers as [|d producers IH]; intros boxes owners; simpl; [done|].
    rewrite <- IH. apply list_eq. intros n. rewrite !list_lookup_fmap, list_lookup_alter. case_decide; [subst n|done].
    by destruct (boxes !! _). }
  apply (Forall2_fmap_1 mailbox_core mailbox_core eq). rewrite <- E. by apply Forall_Forall2_diag, Forall_true.
Qed.

Lemma create_mailbox_inv d :
  mr_mailbox_identity d <> 0 -> 0 < mr_record_capacity d <= live_control_record_capacity_limit -> mailbox_inv (create_mailbox d).
Proof.
  intros Hid Hc.
  assert (Hl : forall k s, mb_slots (create_mailbox d) !! k = Some s -> s = empty_control_slot).
  { intros k s [-> _]%lookup_replicate. done. }
  constructor; try done.
  - simpl. by rewrite length_replicate.
  - simpl. by rewrite length_replicate.
  - apply Forall_lookup_2. intros k s ->%Hl. done.
  - intros k s ->%Hl. done.
  - intros k l s t ->%Hl. done.
  - intros k s ->%Hl. done.
  - intros k s ->%Hl. done.
  - simpl. clear. induction (Z.to_nat (mr_record_capacity d)); [done|]. simpl. rewrite <- IHn. done.
Qed.

Lemma create_boxes policy rid gen mailboxes producers releases clo records payload out :
  check_mailboxes policy [] (0, 0) mailboxes = inr out -> lo_record_capacity policy <= live_control_record_capacity_limit ->
  Forall (fun d => is_u32 (mr_record_capacity d) /\ is_u32 (mr_payload_bytes_per_record d)) mailboxes ->
  boxes_inv (create_impl policy rid gen mailboxes producers releases clo records payload).
Proof.
  intros Hc Hlim Hty. unfold create_impl. pose proof (create_producers_boxes producers (create_mailbox <$> mailboxes) []) as HF.
  destruct (foldl create_producer _ _) as [boxes owners]. simpl in HF. unfold boxes_inv. simpl.
  destruct (check_mailboxes_inr _ _ _ _ _ Hc) as (Hnd & Hne & Hfold); [constructor|].
  destruct (charge_mailboxes_total _ _ _ _ Hfold) as (_ & _ & Hcap); [done..|]. split.
  - apply Forall_lookup_2. intros n m Hm. destruct (Forall2_lookup_r _ _ _ _ _ HF Hm) as (m0 & Hm0 & Hcore).
    apply (mailbox_inv_core m0); [done|]. rewrite list_lookup_fmap in Hm0. apply fmap_Some in Hm0 as (d & Hd & ->).
    destruct (Forall_lookup_1 _ _ _ _ Hne Hd). destruct (Forall_lookup_1 _ _ _ _ Hty Hd) as [[] _].
    pose proof (Forall_lookup_1 _ _ _ _ Hcap Hd). apply create_mailbox_inv; [done|]. simpl in *. lia.
  - assert (mailbox_identity <$> boxes = mr_mailbox_identity <$> mailboxes) as ->; [|done].
    apply list_eq. intros n. rewrite !list_lookup_fmap. destruct (boxes !! n) as [m|] eqn:Hm.
    + destruct (Forall2_lookup_r _ _ _ _ _ HF Hm) as (m0 & Hm0 & Hcore). rewrite list_lookup_fmap in Hm0.
      apply fmap_Some in Hm0 as (d & -> & ->). simpl. unfold mailbox_identity. unfold mailbox_core in Hcore. simplify_eq/=. congruence.
    + apply lookup_ge_None in Hm. rewrite (proj2 (lookup_ge_None mailboxes n)); [done|].
      apply Forall2_length in HF. rewrite length_fmap in HF. lia.
Qed.

Lemma create_targets_inv (releases : list ReferenceRelease) :
  Forall release_exact releases -> closed_downward (create_target <$> releases) /\ Forall rate_target_exact (create_target <$> releases).
Proof.
  intros He. split.
  - intros t u _ (r & -> & _)%list_elem_of_fmap. done.
  - apply Forall_fmap. eapply Forall_impl; [exact He|]. intros r (H1 & H2 & H3 & H4). unfold rate_target_exact, create_target. simpl.
    split_and!; try done. unfold u32, u32_max in *. rewrite Z.mod_small; lia.
Qed.

Lemma create_inv sizes policy closure retention rid gen budget mailboxes producers releases i :
  declarations_typed mailboxes releases ->
  create sizes policy closure retention rid gen budget mailboxes producers releases = inr i -> control_inv i.
Proof.
  intros (Hty & Hex & Hlen) (records & payload & clo & Hc & Hpol & -> & Hclo)%create_shape.
  assert (Hlim : lo_record_capacity policy <= live_control_record_capacity_limit).
  { unfold policy_rejected in Hpol. rewrite !orb_false_iff in Hpol. destruct_and! Hpol. lia. }
  pose proof (create_boxes policy rid gen mailboxes producers releases clo (Z.to_nat records) (Z.to_nat payload) _ Hc Hlim Hty) as Hb.
  destruct (create_targets_inv releases Hex) as [Hd He]. unfold create_impl in *.
  pose proof (create_producers_boxes producers (create_mailbox <$> mailboxes) []) as HF.
  destruct (foldl create_producer _ _) as [boxes owners]. simpl in HF.
  match goal with |- control_inv ?x => set (i := x) in * end.
  assert (Hfree : forall p s, lookup_slot i p = Some s -> cs_state s = slot_free).
  { intros [a k] s (m & Hm & Hs)%lookup_slot_Some. simpl in Hm.
    destruct (Forall2_lookup_r _ _ _ _ _ HF Hm) as (m0 & Hm0 & Hcore). rewrite list_lookup_fmap in Hm0.
    apply fmap_Some in Hm0 as (d & _ & ->). unfold mailbox_core in Hcore. injection Hcore as _ Hsl _ _ _.
    rewrite <- Hsl in Hs. simpl in Hs. by apply lookup_replicate in Hs as [-> _]. }
  assert (Hown : owned_exactly i []).
  { split; [constructor|]. intros p. split; [intros (s & Hs & Hst)|by intros ?%elem_of_nil]. rewrite (Hfree p s Hs) in Hst. done. }
  split; [constructor; try done|].
  - intros p s Hs Hst. rewrite (Hfree p s Hs) in Hst. done.
  - simpl. by rewrite length_fmap.
  - unfold control_owned. simpl. destruct closure as [c|]; [|by subst clo].
    destruct Hclo as (_ & ring & _ & ->). done.
Qed.

(** ** Every state *)

Lemma record_admission_log i h u result : record_admission i h u result ≈c i.
Proof.
  unfold record_admission. destruct (im_closure i) as [c|]; [|done]. destruct (cl_lossless c); [done|].
  destruct (_ && _); rewrite !emit_action_log; done.
Qed.

Lemma record_checkpoint_log i z : record_checkpoint i z ≈c i.
Proof. unfold record_checkpoint. destruct (im_closure i); [|done]. destruct (_ =? _); [done|apply emit_action_log]. Qed.

Lemma record_replay_verified_log i z : record_replay_verified i z ≈c i.
Proof. unfold record_replay_verified. destruct (im_closure i); [|done]. destruct (_ =? _); [done|apply emit_action_log]. Qed.

Lemma perform_inv i o : control_inv i -> enabled i o -> control_inv (perform i o).
Proof.
  intros Hi He. destruct o; simpl in *.
  - unfold stage_live_control_update. pose proof (stage_inv i h u payload Hi) as Hs. destruct (stage i h u payload) as [i' r].
    cbn [fst] in *. eapply control_inv_same; [symmetry; apply record_admission_log|]. apply Hs. by destruct He.
  - by apply begin_inv.
  - by apply settle_inv.
  - destruct He. by apply close_host_frame_inv.
  - destruct He. by apply close_rate_release_inv.
  - by apply expire_inv.
  - by apply claim_inv.
  - by apply release_inv.
  - by apply close_admission_inv.
  - by apply terminalize_inv.
  - eapply control_inv_same; [symmetry; apply record_checkpoint_log|done].
  - eapply control_inv_same; [symmetry; apply record_replay_verified_log|done].
Qed.

Lemma control_reachable i : reachable i -> control_inv i.
Proof. induction 1; [by eapply create_inv|by apply perform_inv]. Qed.

(** ** Runs *)

(** A sequence of operations, each enabled where it is performed. *)
Fixpoint runs (i : Impl) (l : list Operation) : Prop :=
  match l with
  | [] => True
  | o :: l => enabled i o /\ runs (perform i o) l
  end.

#[export] Instance runs_decision i l : Decision (runs i l).
Proof. revert i. induction l as [|o l IH]; intros i; simpl; apply _. Defined.

Lemma runs_reachable i l : reachable i -> runs i l -> reachable (foldl perform i l).
Proof. revert i. induction l as [|o l IH]; intros i Hr; simpl; [done|]. intros [He Hl]. apply IH; [by apply reach_step|done]. Qed.

(** * Live control: a small configuration

    Two mailboxes with one producer each, one release, a closure with a lossless journal,
    and a run of it; the theorems on reachable states are applied here. *)

Open Scope Z_scope.

Definition sample_sizes : ControlSizes := mkControlSizes 8 512 8 128 160 40 40 32 512 256 40 128 136 128 184 8.
Definition sample_policy : LiveControlPolicy := mkLivePolicy 1 56 7 4 4 8 16 128 1 1 (replicate 14 0).
Definition sample_closure : LiveControlClosurePolicy := mkClosurePolicy 1 72 9 32 4 8 64 32 65536 1 true (replicate 6 0).
Definition sample_retention : LiveControlReplayRetentionPolicy := mkRetentionPolicy 2 48 11 16 64 (replicate 16 0).
Definition sample_mailboxes : list LiveControlMailboxRegistration :=
  [mkMailboxRegistration 1 40 20 3 8 (replicate 16 0); mkMailboxRegistration 1 40 10 2 8 (replicate 16 0)].
Definition sample_producers : list LiveControlProducerRegistration :=
  [mkProducerRegistration 1 40 20 100 1 0; mkProducerRegistration 1 40 10 200 5 0].
Definition sample_releases : list ReferenceRelease :=
  [mkRelease 500 (mkRateDomainHandle 1) 0 6 (mkPhaseHandle 1) kind_cpu 0 0 1 400 900 100 crit_normal false late_skip 0].

Definition sample_initial : Impl :=
  match create sample_sizes sample_policy (Some sample_closure) sample_retention 77 3 100000 sample_mailboxes
          sample_producers sample_releases with
  | inr i => i
  | inl _ => create_impl sample_policy 77 3 [] [] [] None 0 0
  end.

Definition frame_update (mailbox producer sequence frame kind : Z) (payload : list Z) : LiveControlUpdateRecord :=
  mkUpdate 1 128 0 77 3 mailbox producer sequence frame u64_max (live_control_payload_digest payload) u32_max u32_max
    u32_max u32_max (Z.of_nat (length payload)) 1 1 1 kind (replicate 18 0).

Definition sample_stage (first : bool) (sequence frame kind : Z) (payload : list Z) : Operation :=
  if first then op_stage (mkProducerHandle 77 3 20 100 0 0) (frame_update 20 100 sequence frame kind payload) payload
  else op_stage (mkProducerHandle 77 3 10 200 1 0) (frame_update 10 200 sequence frame kind payload) payload.

(** A first step commits one record; three more wait for frame 4. *)
Definition sample_history : list Operation :=
  [sample_stage true 1 3 1 [7]; op_begin; op_close_host 3; op_settle ok;
   sample_stage true 2 4 1 [1; 2]; sample_stage true 3 4 1 [3; 4; 5]; sample_stage false 5 4 2 [9]].

Definition sample_state : Impl := foldl perform sample_initial sample_history.

Lemma sample_initial_reachable : reachable sample_initial.
Proof.
  eapply (reach_create sample_sizes sample_policy (Some sample_closure) sample_retention 77 3 100000 sample_mailboxes sample_producers sample_releases).
  - apply (bool_decide_unpack _). vm_compute. exact I.
  - vm_compute. reflexivity.
Qed.

Lemma sample_reachable : reachable sample_state.
Proof.
  apply runs_reachable; [apply sample_initial_reachable|]. apply (bool_decide_unpack _). vm_compute. exact I.
Qed.

(** Two records wait in the first mailbox and one in the second. *)
Example sample_occupancy : mb_occupancy <$> im_mailboxes sample_state = [2; 1].
Proof. vm_compute. reflexivity. Qed.
