(* ===== verification/LiveControlGenerations.v ===== *)
(** * Live control: generations

    The double buffer of published generations and the copy a transaction keeps for its
    rollback.  Records and payload bytes are written one after the other into arrays of
    fixed size; this file shows that they fit and are read back as written. *)

From stdpp Require Import base list numbers sets sorting strings.
From Stdlib Require Import ZArith Lia Bool.
From S2P Require Import Prelude Handles RateTimeline CanonicalBytes SnapshotCodec ListSums SeqRing LiveControlActions LiveControlState LiveControlMailbox LiveControlBoundary LiveControlCreate LiveControlCore LiveControlScan LiveControlInvariant LiveControlPreserved LiveControlReach.

Open Scope Z_scope.
Local Open Scope rtfw_scope.

(** ** The arrays of one generation *)

Definition sized (records payload : nat) (g : Generation) : Prop :=
  length (gn_records g) = records /\ length (gn_payloads g) = payload.

Definition contents_bytes (l : list (LiveControlUpdateRecord * list Z)) : nat :=
  sum_list_with (fun c => length (snd c)) l.

Definition contents_fit (records payload : nat) (l : list (LiveControlUpdateRecord * list Z)) : Prop :=
  (length l <= records)%nat /\ (contents_bytes l <= payload)%nat.

Lemma store_record_sized R P g n o r p : sized R P g -> sized R P (store_record g n o r p).
Proof. intros [<- <-]. unfold sized, store_record. simpl. by rewrite length_insert, length_inserts. Qed.

Lemma store_records_view g n o l : gn_view (store_records g n o l) = gn_view g.
Proof. revert g n o. induction l as [|[r p] l IH]; intros g n o; simpl; [done|]. by rewrite IH. Qed.

Lemma store_records_spec R P l g n o :
  sized R P g -> (n + length l <= R)%nat -> (o + contents_bytes l <= P)%nat ->
  let g' := store_records g n o l in
  sized R P g' /\ (forall j, (j < n)%nat -> gn_records g' !! j = gn_records g !! j) /\
  take o (gn_payloads g') = take o (gn_payloads g) /\
  (fun v => (rv_record v, view_payload g' v)) <$> take (length l) (drop n (gn_records g')) = l.
Proof.
  revert g n o. induction l as [|[r p] l IH]; intros g n o Hsz Hn Ho; [by split_and!|].
  simpl in Hn. unfold contents_bytes in *. simpl in Ho.
  destruct (IH (store_record g n o r p) (S n) (o + length p)%nat) as (Hs & Hr & Hp & Hc); [by apply store_record_sized|lia|lia|].
  cbn [store_records]. set (g' := store_records _ _ _ l) in *. cbn zeta in *. destruct Hsz as [HR HP].
  assert (Hview : gn_records g' !! n = Some (mkRecordView r o (length p))).
  { rewrite Hr by lia. simpl. apply list_lookup_insert_eq. lia. }
  assert (Hbytes : take (length p) (drop o (gn_payloads g')) = p).
  { rewrite take_drop_commute, Hp, <- take_drop_commute. simpl. rewrite read_inserts_same by lia. apply take_ge. lia. }
  split_and!; [done| | |].
  - intros j Hj. rewrite Hr by lia. simpl. apply list_lookup_insert_ne. lia.
  - transitivity (take o (take (o + length p) (gn_payloads g'))); [by rewrite take_take, Nat.min_l by lia|].
    rewrite Hp, take_take, Nat.min_l by lia. apply list_eq. intros j. simpl. destruct (decide (j < o)%nat).
    + rewrite !lookup_take_lt by lia. apply list_lookup_inserts_lt. lia.
    + rewrite !lookup_take_ge by lia. done.
  - cbn [length]. rewrite (drop_S _ _ _ Hview). cbn [take fmap list_fmap]. f_equal; [|exact Hc].
    unfold view_payload. simpl. by rewrite Hbytes.
Qed.

(** A generation whose view spans entries that exist and fit. *)
Definition gen_fits (records payload : nat) (g : Generation) : Prop :=
  sized records payload g /\ (gv_record_count (gn_view g) <= records)%nat /\ contents_fit records payload (generation_contents g).

Lemma length_generation_contents R P g : gen_fits R P g -> length (generation_contents g) = gv_record_count (gn_view g).
Proof. intros ([HR _] & Hc & _). unfold generation_contents, generation_records. rewrite length_fmap, length_take. lia. Qed.

(** A generation rewritten from its first entry. *)
Lemma store_contents R P g l v :
  sized R P g -> contents_fit R P l -> gv_record_count v = length l ->
  generation_contents (set_gn_view v (store_records g 0 0 l)) = l /\ gen_fits R P (set_gn_view v (store_records g 0 0 l)).
Proof.
  intros Hsz [Hl Hb] Hv. destruct (store_records_spec R P l g 0 0 Hsz Hl Hb) as (Hs & _ & _ & Hc).
  assert (He : generation_contents (set_gn_view v (store_records g 0 0 l)) = l).
  { unfold generation_contents, generation_records. simpl. rewrite Hv. exact Hc. }
  split; [done|]. split_and!; [done|by simpl; rewrite Hv|]. by rewrite He.
Qed.

Lemma copy_generation_spec R P d s :
  sized R P d -> gen_fits R P s ->
  generation_contents (copy_generation d s) = generation_contents s /\ gn_view (copy_generation d s) = gn_view s /\
  gen_fits R P (copy_generation d s).
Proof.
  intros Hd Hs. pose proof (length_generation_contents R P s Hs) as Hl. destruct Hs as (_ & _ & Hf).
  destruct (store_contents R P d (generation_contents s) (gn_view s) Hd Hf ltac:(done)) as [Hc Hg]. by split_and!.
Qed.

(** ** The storage of all slots *)

Lemma length_slot_positions i : length (slot_positions i) = total_record_capacity i.
Proof.
  unfold slot_positions, total_record_capacity. generalize (im_mailboxes i). intros l.
  assert (H : forall (f : nat -> Mailbox -> list (nat * nat)), (forall n m, length (f n m) = record_capacity m) ->
    length (mjoin (imap f l)) = sum_list_with record_capacity l).
  { induction l as [|m l IH]; intros f Hf; [done|]. simpl. rewrite length_app, Hf. f_equal. by apply (IH (fun n => f (S n))). }
  apply H. intros n m. by rewrite length_fmap, length_seq.
Qed.

Definition slot_bytes (i : Impl) (p : nat * nat) : nat := payload_stride (im_mailboxes i !!! fst p).

Definition total_slot_bytes (i : Impl) : nat :=
  sum_list_with (fun m => record_capacity m * payload_stride m)%nat (im_mailboxes i).

Lemma sum_slot_bytes i : sum_list_with (slot_bytes i) (slot_positions i) = total_slot_bytes i.
Proof.
  unfold slot_positions, total_slot_bytes, slot_bytes.
  assert (H : forall (l : list Mailbox) n, (forall k m, l !! k = Some m -> im_mailboxes i !! (n + k)%nat = Some m) ->
    sum_list_with (fun p => payload_stride (im_mailboxes i !!! fst p))
      (mjoin (imap (fun k m => (fun s => ((n + k)%nat, s)) <$> seq 0 (record_capacity m)) l)) =
    sum_list_with (fun m => record_capacity m * payload_stride m)%nat l).
  { induction l as [|m l IH]; intros n Hn; [done|]. simpl. rewrite sum_list_with_app. f_equal.
    - rewrite sum_list_with_fmap. rewrite (sum_list_with_const _ (payload_stride m)); [by rewrite length_seq|].
      intros k _. simpl. by rewrite (list_lookup_total_correct _ _ _ (Hn 0%nat m eq_refl)).
    - rewrite <- (IH (S n)).
      + f_equal. f_equal. apply imap_ext. intros k x _. simpl. apply list_fmap_ext. intros _ y _. f_equal. lia.
      + intros k x Hx. rewrite <- (Hn (S k) x Hx). f_equal. lia. }
  by apply (H (im_mailboxes i) 0%nat).
Qed.

(** Distinct slots do not need more than all slots. *)
Lemma sum_positions_le (f : nat * nat -> nat) (l k : list (nat * nat)) :
  NoDup l -> l ⊆ k -> (sum_list_with f l <= sum_list_with f k)%nat.
Proof.
  intros Hn Hs. apply (NoDup_submseteq l k) in Hs; [|done]. apply submseteq_Permutation in Hs as [r ->].
  rewrite sum_list_with_app. lia.
Qed.

Lemma NoDup_fmap_filter {A B} (f : A -> B) (P : A -> Prop) `{!forall x, Decision (P x)} (l : list A) :
  NoDup (f <$> l) -> NoDup (f <$> filter P l).
Proof.
  induction l as [|x l IH]; [done|]. simpl. intros [Hx Hl]%list.NoDup_cons. rewrite filter_cons. case_decide; [|by apply IH].
  simpl. apply list.NoDup_cons. split; [|by apply IH]. intros (y & Hy & Hin)%list_elem_of_fmap. apply Hx. rewrite Hy.
  apply list_elem_of_fmap_2. by apply list_elem_of_filter in Hin as [_ Hin].
Qed.

(** ** What a boundary publishes *)

Section Published.
Context (t : LiveControlBoundaryTarget) (i0 i : Impl).
Context (Hbox0 : boxes_inv i0) (Hscan : scan_state t i0 (slot_positions i0) i)
        (Hslots : forall p, lookup_slot i p = scanned t i0 <$> lookup_slot i0 p).

Let sorted : list Candidate := std_sort candidate_less (omap (candidate_at t i0) (slot_positions i0)).
Let cands : list Candidate := mark_survivors i sorted.

Lemma candidate_mailbox c : c ∈ sorted ->
  exists m s, im_mailboxes i0 !! cd_mailbox_index c = Some m /\ mb_slots m !! cd_slot_index c = Some s /\
    cs_state s = slot_staged /\ is_current t (cs_record s) = true /\
    candidate_contents i c = (cs_record s, slot_payload m (cd_slot_index c) (Z.to_nat (lu_payload_bytes (cs_record s)))) /\
    cd_mailbox_identity c = mailbox_identity m /\ cd_mailbox_sequence c = lu_mailbox_sequence (cs_record s).
Proof.
  unfold sorted. rewrite std_sort_perm. intros (s & Hs & Hst & Hcur & _ & Hrec & Hc)%(found_slot t i0 i Hbox0 Hslots).
  apply lookup_slot_Some in Hs as (m & Hm & Hs). exists m, s. split_and!; try done.
  - unfold candidate_contents. rewrite Hrec. f_equal.
    assert (Hreg : box_static (im_mailboxes i !!! cd_mailbox_index c) = box_static m).
    { destruct (im_mailboxes i !! cd_mailbox_index c) as [m'|] eqn:Hm'.
      - rewrite (list_lookup_total_correct _ _ _ Hm').
        destruct (same_statics_lookup _ _ _ _ (scan_statics _ _ _ _ Hscan) Hm') as (m0 & Hm0 & ->). congruence.
      - pose proof (scan_statics _ _ _ _ Hscan) as Hss. symmetry in Hss.
        destruct (same_statics_lookup _ _ _ _ Hss Hm) as (m0 & Hm0 & _). congruence. }
    apply box_static_fields in Hreg as (Hr & Hp & _). unfold slot_payload, payload_stride. by rewrite Hr, Hp.
  - rewrite Hc. simpl. by rewrite (list_lookup_total_correct _ _ _ Hm).
  - by rewrite Hc.
Qed.

Lemma survivors_sorted c : c ∈ survivors cands -> c ∈ sorted.
Proof.
  unfold cands. intros H.
  by apply (elem_of_survivors i sorted (sorted_strict t i0 Hbox0) (found_kind t i0 i Hbox0 Hslots) (found_fresh t i0 Hbox0)) in H as [H _].
Qed.

Lemma survivor_positions : NoDup (candidate_position <$> survivors cands) /\ candidate_position <$> survivors cands ⊆ slot_positions i0.
Proof.
  split.
  - apply NoDup_fmap_filter. unfold cands, sorted. rewrite (marked_positions t i0 i Hbox0 Hslots), std_sort_perm.
    apply NoDup_found.
  - intros p (c & -> & Hc)%list_elem_of_fmap. apply survivors_sorted, candidate_mailbox in Hc as (m & s & Hm & Hs & _).
    apply elem_of_slot_positions; [done|]. exists s. apply lookup_slot_Some. eauto.
Qed.

Lemma published_fit : contents_fit (total_record_capacity i0) (total_slot_bytes i0) (candidate_contents i <$> survivors cands).
Proof.
  destruct survivor_positions as [Hnd Hsub]. split.
  - rewrite length_fmap, <- length_slot_positions, <- (length_fmap candidate_position).
    apply submseteq_length. by apply NoDup_submseteq.
  - rewrite <- sum_slot_bytes. etransitivity; [|by apply (sum_positions_le (slot_bytes i0) _ _ Hnd Hsub)].
    unfold contents_bytes. rewrite !sum_list_with_fmap. apply sum_list_with_le. intros c Hc.
    apply survivors_sorted, candidate_mailbox in Hc as (m & s & Hm & Hs & Hst & _ & -> & _).
    unfold slot_bytes, slot_payload. simpl. rewrite (list_lookup_total_correct _ _ _ Hm), length_take.
    pose proof (inv_records m (boxes_inv_lookup _ _ _ Hbox0 Hm) _ s Hs ltac:(congruence)) as (_ & _ & _ & _ & Hb & _). lia.
Qed.
End Published.

(** ** The invariant of the generations *)

Definition registrations (i : Impl) : list LiveControlMailboxRegistration := mb_registration <$> im_mailboxes i.

Definition latest (i : Impl) : Z * LiveControlBoundaryTarget * Z :=
  (im_latest_generation_identity i, im_latest_target i, im_latest_survivor_count i).

(** What the [latest_*] fields say of a view. *)
Definition latest_of (v : option LiveControlGenerationView) : Z * LiveControlBoundaryTarget * Z :=
  match v with
  | Some v => (gv_generation_identity v, gv_target v, u32 (Z.of_nat (gv_record_count v)))
  | None => (0, LiveControlBoundaryTarget_default, 0)
  end.

(** The entry of the step as the closure keeps it. *)
Definition step_entry (c : Closure) : Generation * bool * (Z * LiveControlBoundaryTarget * Z) * bool :=
  (cl_rollback_generation c, cl_rollback_has_generation c,
   (cl_prior_generation_identity c, cl_prior_target c, cl_prior_survivor_count c), cl_transaction_active c).

Definition view_ok (v : LiveControlGenerationView) : Prop :=
  gv_generation_identity v <> 0 /\ exact_target (gv_target v) = true.

(** The step from one state to another leaves generations and rollback alone. *)
Record keeps (i i' : Impl) : Prop := {
  kept_registrations : registrations i' = registrations i;
  kept_generations : im_generations i' = im_generations i;
  kept_active : im_active_generation i' = im_active_generation i;
  kept_has : im_has_generation i' = im_has_generation i;
  kept_latest : latest i' = latest i;
  kept_total : im_total_payload_storage_bytes i' = im_total_payload_storage_bytes i;
  kept_closure : step_entry <$> im_closure i' = step_entry <$> im_closure i;
}.

#[export] Instance keeps_preorder : PreOrder keeps.
Proof.
  split; [done|]. intros i j k [] []. constructor; congruence.
Qed.

Lemma keeps_same i i' : i ≈c i' -> keeps i i'.
Proof.
  intros H. pose proof (same_control_fields _ _ H) as Hf. destruct_and! Hf. constructor; try done.
  - unfold registrations. congruence.
  - pose proof (f_equal latest H) as Hl. by symmetry.
  - destruct (im_closure i) as [c|], (im_closure i') as [c'|]; simplify_eq/=; try done.
    f_equal. unfold step_entry. congruence.
Qed.

Lemma keeps_mailbox a f i : (forall m, mb_registration (f m) = mb_registration m) -> keeps i (update_mailbox a f i).
Proof.
  intros Hf. constructor; try done. unfold registrations, update_mailbox. simpl. apply list_eq. intros n.
  rewrite !list_lookup_fmap, list_lookup_alter. case_decide; [subst n|done]. destruct (im_mailboxes i !! a); simpl; [|done]. by rewrite Hf.
Qed.

Lemma keeps_foldl {A} (f : Impl -> A -> Impl) (l : list A) i : (forall i x, keeps i (f i x)) -> keeps i (foldl f i l).
Proof. intros Hf. revert i. induction l as [|x l IH]; intros i; [done|]. simpl. etransitivity; [apply Hf|apply IH]. Qed.

(** The records and payloads of the active generation. *)
Definition active_contents (i : Impl) : list (LiveControlUpdateRecord * list Z) :=
  if im_has_generation i then generation_contents (im_generations i !!! im_active_generation i) else [].

Lemma active_contents_keeps i i' : keeps i i' -> active_view i' = active_view i /\ active_contents i' = active_contents i.
Proof. intros [_ K2 K3 K4 _ _ _]. unfold active_view, active_contents. by rewrite K2, K3, K4. Qed.

Record gens_inv (i : Impl) : Prop := {
  gens_count : length (im_generations i) = 2%nat;
  gens_active : (im_active_generation i < 2)%nat;
  gens_total : im_total_payload_storage_bytes i = total_slot_bytes i;
  gens_sized : Forall (sized (total_record_capacity i) (total_slot_bytes i)) (im_generations i);
  gens_view : im_has_generation i = true ->
    gen_fits (total_record_capacity i) (total_slot_bytes i) (im_generations i !!! im_active_generation i) /\
    view_ok (gn_view (im_generations i !!! im_active_generation i));
  gens_latest : latest i = latest_of (active_view i);
  gens_rollback : forall c, im_closure i = Some c ->
    sized (total_record_capacity i) (total_slot_bytes i) (cl_rollback_generation c) /\
    (cl_transaction_active c = true ->
     (cl_rollback_has_generation c = true ->
        gen_fits (total_record_capacity i) (total_slot_bytes i) (cl_rollback_generation c) /\
        view_ok (gn_view (cl_rollback_generation c))) /\
     (cl_prior_generation_identity c, cl_prior_target c, cl_prior_survivor_count c) =
       latest_of (if cl_rollback_has_generation c then Some (gn_view (cl_rollback_generation c)) else None));
}.

Lemma totals_registrations i i' : registrations i' = registrations i ->
  total_record_capacity i' = total_record_capacity i /\ total_slot_bytes i' = total_slot_bytes i.
Proof.
  unfold registrations, total_record_capacity, total_slot_bytes, record_capacity, payload_stride. intros H.
  assert (E : forall (g : LiveControlMailboxRegistration -> nat) (l : list Mailbox),
    sum_list_with (fun m => g (mb_registration m)) l = sum_list_with g (mb_registration <$> l)).
  { intros g l. by rewrite sum_list_with_fmap. }
  rewrite !(E (fun r => Z.to_nat (mr_record_capacity r))), !(E (fun r => (Z.to_nat (mr_record_capacity r) * Z.to_nat (mr_payload_bytes_per_record r))%nat)).
  by rewrite H.
Qed.

Lemma gens_inv_keeps i i' : keeps i i' -> gens_inv i -> gens_inv i'.
Proof.
  intros [K1 K2 K3 K4 K5 K6 K7] []. destruct (totals_registrations i i' K1) as [E1 E2].
  constructor; rewrite ?E1, ?E2, ?K2, ?K3, ?K4, ?K5, ?K6; try done.
  - rewrite gens_latest0. unfold active_view. by rewrite K2, K3, K4.
  - intros c' Hc'. rewrite Hc' in K7. destruct (im_closure i) as [c|] eqn:Hc; [|done].
    apply (inj Some) in K7. unfold step_entry in K7. injection K7 as -> -> -> -> -> ->. by apply gens_rollback0.
Qed.

(** ** The operations *)

Lemma keeps_scan t i0 l i : scan_state t i0 l i -> keeps i0 i.
Proof.
  intros Hst. destruct (scan_frame _ _ _ _ Hst) as (ms & x & Hf).
  assert (Hk : keeps (set_im_missed x (set_im_mailboxes ms i0)) i) by (apply keeps_same; by symmetry).
  destruct Hk. constructor; try done. by apply same_statics_registration, (scan_statics _ _ _ _ Hst).
Qed.

Lemma keeps_settle_candidate identity i c : keeps i (settle_candidate identity i c).
Proof.
  unfold settle_candidate. rewrite settle_update. transitivity (update_mailbox (cd_mailbox_index c)
    (settle_slot (if cd_survivor c then slot_committed else slot_replaced) identity (cd_slot_index c)) i); [by apply keeps_mailbox|].
  destruct (cd_survivor c); by constructor.
Qed.

(** The publication: a new active generation, then changes that leave it alone. *)
Lemma publish_generation_steps t cands i :
  exists i2, keeps (set_active_generation (other_generation i) (build_generation i t cands) i) i2 /\
    publish_generation t cands i =
      set_latest (gv_generation_identity (gn_view (build_generation i t cands))) t
        (u32 (Z.of_nat (length (survivors cands)))) i2.
Proof.
  unfold publish_generation. set (g := build_generation i t cands). set (i1 := set_active_generation (other_generation i) g i).
  eexists. split; [|done]. destruct (im_closure i1) as [c|] eqn:Hc.
  - destruct (publish_provisional_fields t cands g (gv_generation_identity (gn_view g))
      (from_option gv_generation_identity 0 (active_view i)) i1 c) as (c' & -> & Hcore).
    constructor; try done. cbn [im_closure set_im_closure]. rewrite Hc. simpl. f_equal.
    apply closure_core_fields in Hcore as (_ & Ha & _ & Hr & Hh & Hi & Ht & Hn & _). unfold step_entry. simpl in *. congruence.
  - apply keeps_foldl. intros. apply keeps_settle_candidate.
Qed.

Lemma other_generation_lt i : (other_generation i < 2)%nat.
Proof. unfold other_generation. destruct (Nat.eqb _ _); lia. Qed.

Lemma generation_hash_nonzero t l : generation_hash t l <> 0.
Proof. unfold generation_hash. destruct (Z.eqb_spec (foldl hash_record (hash_target kFnvOffset t) l) 0); [lia|done]. Qed.

Lemma gens_other i : gens_inv i -> sized (total_record_capacity i) (total_slot_bytes i) (im_generations i !!! other_generation i).
Proof.
  intros []. pose proof (other_generation_lt i). destruct (lookup_lt_is_Some_2 (im_generations i) (other_generation i)) as [g Hg]; [lia|].
  rewrite (list_lookup_total_correct _ _ _ Hg). by apply (Forall_lookup_1 _ _ _ _ gens_sized0 Hg).
Qed.

Lemma build_generation_spec t cands i :
  gens_inv i -> contents_fit (total_record_capacity i) (total_slot_bytes i) (candidate_contents i <$> survivors cands) ->
  generation_contents (build_generation i t cands) = candidate_contents i <$> survivors cands /\
  gen_fits (total_record_capacity i) (total_slot_bytes i) (build_generation i t cands) /\
  gv_target (gn_view (build_generation i t cands)) = t /\
  gv_generation_identity (gn_view (build_generation i t cands)) = generation_hash t (fst <$> (candidate_contents i <$> survivors cands)) /\
  gv_record_count (gn_view (build_generation i t cands)) = length (survivors cands).
Proof.
  intros Hi Hfit. unfold build_generation.
  match goal with |- context [set_gn_view ?v (store_records ?g 0 0 ?l)] =>
    destruct (store_contents _ _ g l v (gens_other i Hi) Hfit eq_refl) as [Hc Hg] end.
  split_and!; try done. simpl. by rewrite length_fmap.
Qed.

Lemma active_view_set n g i : (n < length (im_generations i))%nat ->
  im_generations (set_active_generation n g i) !!! n = g.
Proof. intros Hn. simpl. apply list_lookup_total_insert_eq. lia. Qed.

(** A generation made active keeps the invariant once the latest fields follow. *)
Lemma gens_activate i i2 g :
  gens_inv i -> gen_fits (total_record_capacity i) (total_slot_bytes i) g -> view_ok (gn_view g) ->
  keeps (set_active_generation (other_generation i) g i) i2 ->
  gens_inv (set_latest (gv_generation_identity (gn_view g)) (gv_target (gn_view g)) (u32 (Z.of_nat (gv_record_count (gn_view g)))) i2).
Proof.
  intros Hi Hg Hv [K1 K2 K3 K4 K5 K6 K7]. pose proof (other_generation_lt i) as Ho.
  change (registrations (set_active_generation _ _ i)) with (registrations i) in K1. destruct (totals_registrations i i2 K1) as [E1 E2].
  assert (Hact : im_generations i2 !!! im_active_generation i2 = g).
  { rewrite K2, K3. apply active_view_set. rewrite (gens_count i Hi). lia. }
  destruct Hi. set (i3 := set_latest _ _ _ i2).
  change (total_record_capacity i2) with (total_record_capacity i3) in E1. change (total_slot_bytes i2) with (total_slot_bytes i3) in E2.
  constructor; rewrite ?E1, ?E2.
  - change (im_generations i3) with (im_generations i2). rewrite K2. simpl. by rewrite length_insert.
  - change (im_active_generation i3) with (im_active_generation i2). rewrite K3. done.
  - change (im_total_payload_storage_bytes i3) with (im_total_payload_storage_bytes i2). rewrite K6. done.
  - change (im_generations i3) with (im_generations i2). rewrite K2. simpl. apply Forall_insert; [done|]. apply Hg.
  - intros _. change (im_generations i3 !!! im_active_generation i3) with (im_generations i2 !!! im_active_generation i2). by rewrite Hact.
  - unfold active_view. change (im_has_generation i3) with (im_has_generation i2). rewrite K4. cbn [im_has_generation set_active_generation].
    change (im_generations i3 !!! im_active_generation i3) with (im_generations i2 !!! im_active_generation i2). by rewrite Hact.
  - intros c' Hc'. change (im_closure i3) with (im_closure i2) in Hc'. rewrite Hc' in K7.
    change (im_closure (set_active_generation _ _ i)) with (im_closure i) in K7. destruct (im_closure i) as [c|] eqn:Hc; [|done].
    apply (inj Some) in K7. unfold step_entry in K7. injection K7 as -> -> -> -> -> ->. by apply gens_rollback0.
Qed.

Lemma keeps_bump i : keeps i (bump_inspection i).
Proof. by constructor. Qed.

(** What a boundary does to the generations: nothing, or the publication of its survivors. *)
Lemma close_boundary_result i t :
  boxes_inv i -> gens_inv i ->
  let i0 := bump_inspection i in let found : list Candidate := omap (candidate_at t i0) (slot_positions i0) in
  exists i1, scan_state t i0 (slot_positions i0) i1 /\ (forall p, lookup_slot i1 p = scanned t i0 <$> lookup_slot i0 p) /\
  gens_inv i1 /\ let cands := mark_survivors i1 (std_sort candidate_less found) in
  (found = [] -> keeps i (close_boundary i t)) /\
  (found <> [] -> exists i2, keeps (set_active_generation (other_generation i1) (build_generation i1 t cands) i1) i2 /\
     close_boundary i t = bump_inspection (set_latest (gv_generation_identity (gn_view (build_generation i1 t cands))) t
       (u32 (Z.of_nat (length (survivors cands)))) i2) /\
     contents_fit (total_record_capacity i1) (total_slot_bytes i1) (candidate_contents i1 <$> survivors cands)).
Proof.
  intros Hb Hg i0 found. destruct (scan_all t i0 Hb) as (i1 & Hf & Hst & Hsl). exists i1.
  assert (Hk : keeps i i1) by (transitivity i0; [apply keeps_bump|by eapply keeps_scan]).
  split_and!; [done|done|by eapply gens_inv_keeps|]. intros cands. unfold close_boundary. fold i0. rewrite Hf. fold found. fold cands. split.
  - intros Hnil. unfold cands. rewrite Hnil. change (length (survivors (mark_survivors i1 (std_sort candidate_less [])))) with 0%nat.
    cbn [Nat.eqb]. etransitivity; [|apply keeps_bump]. etransitivity; [exact Hk|]. apply keeps_same. symmetry. apply close_empty_log.
  - intros Hne. apply (found_survivors t i0 i1 Hb Hsl) in Hne. fold cands in Hne.
    destruct (Nat.eqb_spec (length (survivors cands)) 0) as [Hz|Hz]; [by apply length_zero_iff_nil in Hz|].
    destruct (publish_generation_steps t cands i1) as (i2 & Hk2 & ->). exists i2. split_and!; [done..|].
    destruct (totals_registrations i0 i1) as [-> ->]; [by apply kept_registrations, (keeps_scan _ _ _ _ Hst)|].
    by apply (published_fit t i0 i1 Hb Hst Hsl).
Qed.

Lemma close_boundary_gens i t :
  boxes_inv i -> gens_inv i ->
  (omap (candidate_at t (bump_inspection i)) (slot_positions (bump_inspection i)) <> [] -> exact_target t = true) ->
  gens_inv (close_boundary i t).
Proof.
  intros Hb Hg Ht. destruct (close_boundary_result i t Hb Hg) as (i1 & Hst & Hsl & Hg1 & Hnil & Hsome). cbn zeta in *.
  destruct (omap _ _) as [|x l] eqn:Hf; [eapply gens_inv_keeps; [by apply Hnil|done]|]. rewrite <- Hf in *.
  destruct Hsome as (i2 & Hk & -> & Hfit); [by rewrite Hf|]. specialize (Ht ltac:(by rewrite Hf)).
  eapply gens_inv_keeps; [apply keeps_bump|]. set (cands := mark_survivors i1 _) in *.
  destruct (build_generation_spec t cands i1 Hg1 Hfit) as (_ & Hfits & Htg & Hid & Hn).
  rewrite <- Htg at 2. rewrite <- Hn. apply (gens_activate i1); try done. split; [rewrite Hid; apply generation_hash_nonzero|by rewrite Htg].
Qed.

(** ** Transactions *)

Lemma begin_gens i : gens_inv i -> gens_inv (fst (begin_step_transaction i)).
Proof.
  intros Hi. unfold begin_step_transaction. destruct (im_closure i) as [c|] eqn:Hc; [|done]. destruct (_ || _); [done|]. cbn [fst].
  pose proof (gens_rollback i Hi c Hc) as [Hsz _]. pose proof Hi as Hi'. destruct Hi'. constructor; try done.
  intros c' [= <-]. unfold active_view. destruct (im_has_generation i) eqn:Hh.
  - destruct (gens_view0 eq_refl) as [Hfit Hok]. destruct (copy_generation_spec _ _ _ _ Hsz Hfit) as (_ & Hv & Hcf).
    cbn [open_transaction cl_rollback_generation cl_transaction_active cl_rollback_has_generation cl_prior_generation_identity
      cl_prior_target cl_prior_survivor_count]. rewrite Hv. split; [apply Hcf|]. by split.
  - by split.
Qed.

Lemma finish_gens status i : gens_inv i -> gens_inv (update_closure (finish_transaction status) i).
Proof.
  intros Hi. pose proof Hi as Hi'. destruct Hi'. constructor; try done. intros c'. unfold update_closure. cbn [im_closure set_im_closure].
  destruct (im_closure i) as [c|] eqn:Hc; [|done]. intros [= <-]. destruct (gens_rollback0 c eq_refl) as [Hsz _]. by split.
Qed.

Lemma keeps_settle_provisional status i v : keeps i (settle_provisional status i v).
Proof.
  destruct (settle_provisional_shape status i v) as (state & _ & Hs). etransitivity; [|apply keeps_same; symmetry; exact Hs].
  etransitivity; [by apply (keeps_mailbox (pv_mailbox_index v) (settle_slot state (pv_generation_identity v) (pv_slot_index v)))|].
  destruct (bool_decide (status = ok)), (pv_survivor v); by constructor.
Qed.

(** The generation of the step entry comes back. *)
Lemma restore_gens i c :
  gens_inv i -> im_closure i = Some c -> cl_transaction_active c = true ->
  gens_inv (restore_generation i c) /\
  latest (restore_generation i c) = (cl_prior_generation_identity c, cl_prior_target c, cl_prior_survivor_count c) /\
  active_view (restore_generation i c) = (if cl_rollback_has_generation c then Some (gn_view (cl_rollback_generation c)) else None) /\
  (cl_rollback_has_generation c = true ->
     generation_contents (im_generations (restore_generation i c) !!! im_active_generation (restore_generation i c)) =
       generation_contents (cl_rollback_generation c)).
Proof.
  intros Hi Hc Ha. destruct (gens_rollback i Hi c Hc) as [Hsz Hact]. destruct (Hact Ha) as [Hfit Hprior]. unfold restore_generation.
  destruct (cl_rollback_has_generation c) eqn:Hh.
  - destruct (Hfit eq_refl) as [Hf Hok]. set (g := copy_generation (im_generations i !!! other_generation i) (cl_rollback_generation c)).
    destruct (copy_generation_spec _ _ _ _ (gens_other i Hi) Hf) as (Hcont & Hv & Hg). fold g in Hcont, Hv, Hg.
    set (i2 := set_active_generation (other_generation i) g i).
    assert (Hga : im_generations i2 !!! im_active_generation i2 = g).
    { apply active_view_set. rewrite (gens_count i Hi). apply other_generation_lt. }
    assert (Hgi : gens_inv (set_latest (cl_prior_generation_identity c) (cl_prior_target c) (cl_prior_survivor_count c) i2)).
    { pose proof (gens_activate i i2 g Hi Hg ltac:(by rewrite Hv) ltac:(done)) as H. rewrite Hv in H. simpl in Hprior.
      injection Hprior as -> -> ->. exact H. }
    split_and!; [done|done| |].
    + unfold active_view. cbn [im_has_generation set_latest]. change (im_has_generation i2) with true. cbv iota.
      change (Some (gn_view (im_generations i2 !!! im_active_generation i2)) = Some (gn_view (cl_rollback_generation c))).
      by rewrite Hga, Hv.
    + intros _. change (generation_contents (im_generations i2 !!! im_active_generation i2) = generation_contents (cl_rollback_generation c)).
      by rewrite Hga.
  - split_and!; [|done|done|done]. destruct Hi. by constructor.
Qed.

Lemma settle_gens i status : gens_inv i -> gens_inv (settle_step_transaction i status).
Proof.
  intros Hi. unfold settle_step_transaction. destruct (im_closure i) as [c|] eqn:Hc; [|done].
  destruct (negb (cl_transaction_active c)) eqn:Ha; [done|]. apply negb_false_iff in Ha. apply finish_gens.
  eapply gens_inv_keeps; [apply keeps_foldl; intros; apply keeps_settle_provisional|]. case_decide; [done|]. by apply restore_gens.
Qed.

(** * Live control: generations in every reachable state *)

Open Scope Z_scope.
Local Open Scope rtfw_scope.

(** ** Operations that leave the generations alone *)

Lemma keeps_refuse i h u payload owner result : keeps i (fst (refuse i h u payload owner result)).
Proof.
  unfold refuse. cbn [fst]. etransitivity; [|apply keeps_same; symmetry; apply retain_admission_log].
  apply keeps_mailbox. by destruct result.
Qed.

Lemma keeps_staged_state i u payload owner slot : keeps i (staged_state i u payload owner slot).
Proof.
  unfold staged_state. destruct (target_closed _ _); [|by apply keeps_mailbox].
  etransitivity; [by apply (keeps_mailbox owner (fun m => settle_slot slot_missed 0 slot
    (stage_slot slot (set_lu_mailbox_sequence (mb_next_sequence (im_mailboxes i !!! owner)) u) payload m)))|]. by constructor.
Qed.

Lemma keeps_stage i h u payload : keeps i (fst (stage i h u payload)).
Proof.
  unfold stage. destruct (lossless_claimed i); [done|].
  assert (Hun : keeps i (retain_admission h u payload adm_stale None None kInvalidSequence i)).
  { apply keeps_same. symmetry. apply retain_admission_log. }
  destruct (negb (LiveControlProducerHandle_valid h) || _ || _); [done|]. destruct (im_producers i !! _) as [producer|]; [|done].
  destruct (negb (pd_mailbox_identity producer =? _) || _ || _); [done|].
  destruct (stage_gate i producer h u) as [|] eqn:Hg; [apply keeps_refuse|].
  destruct (negb (structurally_valid _ _ _ _ _)); [apply keeps_refuse|].
  destruct (mb_reservation _); [apply keeps_refuse|]. destruct (mb_next_sequence _ =? kInvalidSequence); [apply keeps_refuse|].
  destruct (find_stage_slot _) as [slot|]; [|apply keeps_refuse].
  assert (Hop : im_admission_open i = true) by (unfold stage_gate in Hg; by destruct (im_admission_open i)).
  destruct (stage_into_shape i h u payload (pd_mailbox_index producer) slot producer Hop) as (result & ps & -> & _ & Hsh). cbn [fst].
  etransitivity; [|apply keeps_same; symmetry; exact Hsh]. etransitivity; [apply keeps_staged_state|].
  etransitivity; [|apply keeps_mailbox; by destruct result]. by constructor.
Qed.

Lemma keeps_stop_slot i p : keeps i (stop_slot i p).
Proof.
  destruct p as [a k]. unfold stop_slot. destruct (negb _); [done|].
  match goal with |- keeps i (update_control_slot a k ?f (emit_dropped ?r ?x ?y ?z ?w ?j)) =>
    transitivity j; [|transitivity (emit_dropped r x y z w j);
      [apply keeps_same; symmetry; apply emit_dropped_log|by apply keeps_mailbox]] end.
  unfold update_control_slot. rewrite update_mailbox_twice.
  match goal with |- keeps i (count_stopped (update_mailbox a ?f i)) => transitivity (update_mailbox a f i); [by apply keeps_mailbox|by constructor] end.
Qed.

Lemma keeps_reservations b i : keeps i (set_im_mailboxes (set_mb_reservation b <$> im_mailboxes i) i).
Proof. constructor; try done. unfold registrations. simpl. by rewrite <- list_fmap_compose. Qed.

Lemma keeps_closure f i : (forall c, step_entry (f c) = step_entry c) -> keeps i (update_closure f i).
Proof.
  intros Hf. constructor; try done. unfold update_closure. cbn [im_closure set_im_closure].
  destruct (im_closure i) as [c|]; simpl; [by rewrite Hf|done].
Qed.

Lemma keeps_claim i : keeps i (fst (claim_all i)).
Proof.
  unfold claim_all. destruct (im_closure i); [|done]. repeat case_match; try done. cbn [fst].
  etransitivity; [apply (keeps_reservations true)|by apply keeps_closure].
Qed.

Lemma keeps_release i : keeps i (release_all i).
Proof. etransitivity; [apply (keeps_reservations false)|by apply keeps_closure]. Qed.

Lemma keeps_close_admission i : keeps i (close_admission i).
Proof.
  unfold close_admission. match goal with |- keeps i (set_im_admission_open false (update_closure ?f i)) => transitivity (update_closure f i) end.
  - apply keeps_closure. intros c. repeat case_match; done.
  - by constructor.
Qed.

(** ** Operations that publish *)

Lemma host_target_exact i f :
  boxes_inv i -> omap (candidate_at (host_target f) i) (slot_positions i) <> [] -> exact_target (host_target f) = true.
Proof.
  intros Hb Hne. destruct (omap _ _) as [|c l] eqn:E; [done|].
  assert (Hc : c ∈ omap (candidate_at (host_target f) i) (slot_positions i)) by (rewrite E; by left).
  apply (found_candidate (host_target f) i Hb) in Hc as (a & k & s & _ & Hs & Hst & Hcur).
  apply lookup_slot_Some in Hs as (m & Hm & Hs).
  pose proof (inv_records m (boxes_inv_lookup _ _ _ Hb Hm) k s Hs ltac:(congruence)) as (_ & _ & _ & _ & _ & _ & Hx & _).
  unfold is_current in Hcur. cbn [bt_kind host_target] in Hcur. rewrite Z.eqb_refl in Hcur.
  apply andb_true_iff in Hcur as [Hk Hf]. apply Z.eqb_eq in Hf. cbn [bt_frame_index host_target] in Hf.
  unfold exact_target, target_from_record in Hx. cbn [bt_kind] in Hx. rewrite Hk in Hx.
  apply andb_true_iff in Hx as [Hx _]. cbn [bt_frame_index] in Hx. rewrite Hf in Hx. unfold exact_target. cbn. by rewrite Hx.
Qed.

Lemma release_target_exact i reference q current :
  targets_inv i -> im_rate_targets i !! reference = Some current -> 0 <= q < u64_max ->
  exact_target (release_target reference q current) = true.
Proof.
  intros (_ & He & Hc) Hr Hq. pose proof (Forall_lookup_1 _ _ _ _ He Hr) as (E1 & E2 & E3 & E4).
  pose proof (lookup_lt_Some _ _ _ Hr) as Hlt. unfold live_control_retained_generation_capacity_limit in Hc.
  unfold exact_target, release_target. cbn [bt_kind bt_frame_index bt_rate_release_sequence bt_reference_release_index
    bt_rate_domain_registration_index bt_phase_index bt_rate_substep_ordinal].
  change (target_rate_release =? target_host_frame) with false. cbv iota.
  rewrite !andb_true_iff, !negb_true_iff, !Z.eqb_neq. unfold u32 at 1. rewrite Z.mod_small by lia. unfold u32_max in *.
  split_and!; try done; lia.
Qed.

Lemma set_host_boundary_keeps f i : keeps i (set_host_boundary f i).
Proof. by constructor. Qed.

Lemma close_host_gens i f : control_inv i -> gens_inv i -> gens_inv (close_host_frame i f).
Proof.
  intros [Hb _] Hg. unfold close_host_frame. destruct (negb _); [done|]. destruct (_ && _); [done|].
  apply close_boundary_gens; [apply (base_boxes i Hb)|by eapply gens_inv_keeps; [apply set_host_boundary_keeps|]|].
  apply (host_target_exact i). apply (base_boxes i Hb).
Qed.

Lemma close_release_gens i reference q :
  control_inv i -> gens_inv i -> 0 <= q < u64_max -> gens_inv (close_rate_release i reference q).
Proof.
  intros [Hb _] Hg Hq. unfold close_rate_release. destruct (im_rate_targets i !! reference) as [current|] eqn:Hr; [|done].
  destruct (negb _); [done|]. assert (Hk : forall ts, keeps i (set_im_rate_targets ts i)) by (intros ts; by constructor).
  destruct (rt_closed current); [eapply gens_inv_keeps; [apply Hk|done]|].
  apply close_boundary_gens; [apply (base_boxes i Hb)|by eapply gens_inv_keeps; [apply Hk|]|].
  intros _. apply (release_target_exact i); [by apply control_base_targets|done|done].
Qed.

Lemma expire_gens i time : control_inv i -> gens_inv i -> gens_inv (expire_rate_releases_before i time).
Proof.
  intros [Hb _] Hg. unfold expire_rate_releases_before. destruct (negb _); [done|]. destruct (existsb _ _); [|done].
  apply close_boundary_gens; [apply (base_boxes i Hb)|by eapply gens_inv_keeps; [|exact Hg]; constructor|].
  intros H. destruct H. apply (no_current_candidates i). apply (base_boxes i Hb).
Qed.

Lemma perform_gens i o : control_inv i -> gens_inv i -> enabled i o -> gens_inv (perform i o).
Proof.
  intros Hi Hg He. destruct o; simpl in *.
  - eapply gens_inv_keeps; [|exact Hg]. unfold stage_live_control_update. pose proof (keeps_stage i h u payload) as Hk.
    destruct (stage i h u payload) as [i' r]. cbn [fst] in *. etransitivity; [exact Hk|]. apply keeps_same. symmetry. apply record_admission_log.
  - by apply begin_gens.
  - by apply settle_gens.
  - by apply close_host_gens.
  - destruct He. by apply close_release_gens.
  - by apply expire_gens.
  - eapply gens_inv_keeps; [apply keeps_claim|done].
  - eapply gens_inv_keeps; [apply keeps_release|done].
  - eapply gens_inv_keeps; [apply keeps_close_admission|done].
  - eapply gens_inv_keeps; [apply keeps_foldl, keeps_stop_slot|done].
  - eapply gens_inv_keeps; [apply keeps_same; symmetry; apply record_checkpoint_log|done].
  - eapply gens_inv_keeps; [apply keeps_same; symmetry; apply record_replay_verified_log|done].
Qed.

(** ** The initial state *)

Lemma sum_to_nat {A} (f : A -> Z) l : Forall (fun x => 0 <= f x) l ->
  sum_list_with (fun x => Z.to_nat (f x)) l = Z.to_nat (zsum f l).
Proof.
  intros H. induction H as [|x l Hx Hl IH]; [done|]. simpl. rewrite IH.
  assert (0 <= zsum f l); [|lia]. clear -Hl. induction Hl; simpl; lia.
Qed.

Lemma create_totals policy mailboxes producers releases rid gen clo records payload :
  check_mailboxes policy [] (0, 0) mailboxes = inr (records, payload) ->
  Forall (fun d => is_u32 (mr_record_capacity d) /\ is_u32 (mr_payload_bytes_per_record d)) mailboxes ->
  let i := create_impl policy rid gen mailboxes producers releases clo (Z.to_nat records) (Z.to_nat payload) in
  total_record_capacity i = Z.to_nat records /\ total_slot_bytes i = Z.to_nat payload.
Proof.
  intros Hc Hty i. destruct (check_mailboxes_inr _ _ _ _ _ Hc) as (_ & _ & Hfold); [constructor|].
  destruct (charge_mailboxes_total _ _ _ _ Hfold) as (Hr & Hp & _); [done..|]. simpl in Hr, Hp.
  assert (Hreg : registrations i = mailboxes).
  { unfold registrations, i, create_impl. pose proof (create_producers_boxes producers (create_mailbox <$> mailboxes) []) as HF.
    destruct (foldl create_producer _ _) as [boxes owners]. simpl in *. apply list_eq. intros n. rewrite list_lookup_fmap.
    destruct (boxes !! n) as [m|] eqn:Hm.
    - destruct (Forall2_lookup_r _ _ _ _ _ HF Hm) as (m0 & Hm0 & Hcore). rewrite list_lookup_fmap in Hm0.
      apply fmap_Some in Hm0 as (d & -> & ->). simpl. unfold mailbox_core in Hcore. by simplify_eq/=.
    - apply lookup_ge_None in Hm. symmetry. apply lookup_ge_None. apply Forall2_length in HF. rewrite length_fmap in HF. simpl. lia. }
  assert (E : forall (g : LiveControlMailboxRegistration -> nat), sum_list_with (fun m => g (mb_registration m)) (im_mailboxes i) = sum_list_with g mailboxes).
  { intros g. rewrite <- Hreg. unfold registrations. by rewrite sum_list_with_fmap. }
  unfold total_record_capacity, total_slot_bytes, record_capacity, payload_stride.
  rewrite (E (fun r => Z.to_nat (mr_record_capacity r))), (E (fun r => (Z.to_nat (mr_record_capacity r) * Z.to_nat (mr_payload_bytes_per_record r))%nat)).
  rewrite Hr, Hp, Z.add_0_l, Z.add_0_l. split.
  - apply sum_to_nat. eapply Forall_impl; [exact Hty|]. intros d [[? ?] _]. done.
  - rewrite <- sum_to_nat; [|eapply Forall_impl; [exact Hty|]; intros d [[? ?] [? ?]]; simpl; nia].
    clear -Hty. induction Hty as [|d l [[? ?] [? ?]] Hl IH]; [done|]. simpl. rewrite IH. rewrite Z2Nat.inj_mul by done. done.
Qed.

Lemma create_gens sizes policy closure retention rid gen budget mailboxes producers releases i :
  declarations_typed mailboxes releases ->
  create sizes policy closure retention rid gen budget mailboxes producers releases = inr i -> gens_inv i.
Proof.
  intros (Hty & _ & _) (records & payload & clo & Hc & _ & -> & Hclo)%create_shape.
  destruct (create_totals policy mailboxes producers releases rid gen clo records payload Hc Hty) as [HR HP].
  assert (Hsz : sized (Z.to_nat records) (Z.to_nat payload) (empty_generation (Z.to_nat records) (Z.to_nat payload))).
  { unfold sized, empty_generation. simpl. by rewrite !length_replicate. }
  constructor; rewrite ?HR, ?HP; unfold create_impl; destruct (foldl create_producer _ _) as [boxes owners]; simpl; try done.
  - lia.
  - constructor; [done|]. constructor; [done|]. constructor.
  - intros c ->. destruct closure as [cp|]; [|done]. destruct Hclo as (_ & ring & _ & [= ->]). by split.
Qed.

Lemma reachable_gens i : reachable i -> gens_inv i.
Proof.
  induction 1 as [|i o Hi IH He]; [by eapply create_gens|]. apply perform_gens; [by apply control_reachable|done|done].
Qed.
