(* ===== verification/LiveControlTheorems.v ===== *)
(** * Live control: the claims on pending records, generations and rollback *)

From stdpp Require Import base list numbers sets sorting strings.
From Stdlib Require Import ZArith Lia Bool.
From S2P Require Import Prelude Handles RateTimeline CanonicalBytes SnapshotCodec ListSums SeqRing LiveControlActions LiveControlState LiveControlMailbox LiveControlBoundary LiveControlCreate LiveControlCore LiveControlScan LiveControlInvariant LiveControlPreserved LiveControlReach LiveControlGenerations.

Open Scope Z_scope.
Local Open Scope rtfw_scope.

(** ** Pending records *)

Lemma occupancy_count m : mailbox_inv m ->
  mb_occupancy m = Z.of_nat (length (filter (fun s => live_state (cs_state s) = true) (mb_slots m))).
Proof.
  intros Hm. rewrite (inv_occupancy m Hm), <- zsum_length. apply zsum_ext. intros s _. unfold slot_weight.
  by destruct (live_state (cs_state s)).
Qed.

Lemma sequences_distinct m : mailbox_inv m ->
  NoDup ((fun s => lu_mailbox_sequence (cs_record s)) <$> filter (fun s => cs_state s <> slot_free) (mb_slots m)).
Proof.
  intros Hm. pose proof (inv_unique m Hm) as Hu. generalize dependent (mb_slots m). clear Hm. intros l.
  induction l as [|x l IH]; intros Hu; [constructor|]. rewrite filter_cons.
  assert (Hl : NoDup ((fun s => lu_mailbox_sequence (cs_record s)) <$> filter (fun s => cs_state s <> slot_free) l)).
  { apply IH. intros k n s t Hs Ht H1 H2 H3. specialize (Hu (S k) (S n) s t Hs Ht H1 H2 H3). lia. }
  case_decide as Hx; [|done]. simpl. apply list.NoDup_cons. split; [|done].
  intros (y & Hy & (Hyf & (k & Hk)%list_elem_of_lookup)%list_elem_of_filter)%list_elem_of_fmap.
  specialize (Hu 0%nat (S k) x y eq_refl Hk Hx Hyf Hy). lia.
Qed.

(** The provisional records fit the array that [create] allocates. *)
Lemma owned_bound i l : boxes_inv i -> owned_exactly i l -> (length l <= total_record_capacity i)%nat.
Proof.
  intros Hb [Hn Ho]. rewrite <- length_slot_positions. apply submseteq_length, NoDup_submseteq; [done|].
  intros [a k] (s & Hs & _)%Ho. apply elem_of_slot_positions; [done|]. eauto.
Qed.

(** C13. In every state the runtime can reach, the occupancy of a mailbox is the number of
    its staged and boundary-owned slots and within its capacity, the sequence numbers of
    its records are distinct, and no staged record waits for a boundary that has closed.
    Without closure no slot stays owned; with closure the provisional records name each
    owned slot once, fit their array, and exist only inside a transaction. *)
Theorem live_control_pending (i : Impl) :
  reachable i ->
  Forall (fun m =>
    mb_occupancy m = Z.of_nat (length (filter (fun s => live_state (cs_state s) = true) (mb_slots m))) /\
    0 <= mb_occupancy m <= mr_record_capacity (mb_registration m) /\
    NoDup ((fun s => lu_mailbox_sequence (cs_record s)) <$> filter (fun s => cs_state s <> slot_free) (mb_slots m)))
    (im_mailboxes i) /\
  (forall p s, lookup_slot i p = Some s -> cs_state s = slot_staged -> target_closed i (cs_record s) = false) /\
  match im_closure i with
  | None => forall p, ~ owned_at i p
  | Some c =>
      NoDup (provisional_position <$> cl_provisional_records c) /\
      (forall p, owned_at i p <-> p ∈ provisional_position <$> cl_provisional_records c) /\
      (length (cl_provisional_records c) <= total_record_capacity i)%nat /\
      (cl_transaction_active c = false -> cl_provisional_records c = [])
  end.
Proof.
  intros Hr. destruct (control_reachable i Hr) as [[Hb Hw _ _ _] Ho]. split_and!; [|done|].
  - apply Forall_lookup_2. intros a m Hm. pose proof (boxes_inv_lookup _ _ _ Hb Hm) as Hinv.
    split_and!; [by apply occupancy_count|by apply occupancy_range..|by apply sequences_distinct].
  - unfold control_owned in Ho. destruct (im_closure i) as [c|].
    + destruct Ho as [Hown Ha]. pose proof (owned_bound _ _ Hb Hown) as Hlen. rewrite length_fmap in Hlen. destruct Hown. by split_and!.
    + destruct Ho as [_ Ho]. intros p Hp. apply Ho in Hp. by apply elem_of_nil in Hp.
Qed.

(** Three records wait for frame 4 after a committed step; none of them for a closed boundary. *)
Lemma live_control_pending_witness :
  mb_occupancy <$> im_mailboxes sample_state = [2; 1] /\
  (forall p s, lookup_slot sample_state p = Some s -> cs_state s = slot_staged -> target_closed sample_state (cs_record s) = false).
Proof.
  split; [vm_compute; reflexivity|]. destruct (live_control_pending sample_state sample_reachable) as (_ & H & _). exact H.
Defined.

(** ** Published generations *)

(** A staged record of the boundary, and the bytes of its slot. *)
Definition pending_record (i : Impl) (t : LiveControlBoundaryTarget) (r : LiveControlUpdateRecord) (payload : list Z) : Prop :=
  exists a k m s, im_mailboxes i !! a = Some m /\ mb_slots m !! k = Some s /\ cs_state s = slot_staged /\
    is_current t (cs_record s) = true /\ r = cs_record s /\ payload = slot_payload m k (Z.to_nat (lu_payload_bytes r)).

Definition record_before (r r' : LiveControlUpdateRecord) : Prop :=
  lu_mailbox_identity r < lu_mailbox_identity r' \/
  (lu_mailbox_identity r = lu_mailbox_identity r' /\ lu_mailbox_sequence r < lu_mailbox_sequence r').

(** The last record of each kind in each mailbox, and nothing else. *)
Definition generation_exact (i : Impl) (t : LiveControlBoundaryTarget) (contents : list (LiveControlUpdateRecord * list Z)) : Prop :=
  (forall r payload, (r, payload) ∈ contents <->
     pending_record i t r payload /\
     forall r' payload', pending_record i t r' payload' -> lu_mailbox_identity r' = lu_mailbox_identity r ->
       lu_update_kind r' = lu_update_kind r -> lu_mailbox_sequence r' <= lu_mailbox_sequence r) /\
  (forall j k c d, (j < k)%nat -> contents !! j = Some c -> contents !! k = Some d -> record_before (fst c) (fst d)) /\
  (forall r payload, (r, payload) ∈ contents ->
     Z.of_nat (length payload) = lu_payload_bytes r /\ live_control_payload_digest payload = lu_payload_digest r).

Definition boundary_exact (i : Impl) (t : LiveControlBoundaryTarget) (i' : Impl) : Prop :=
  ((exists r payload, pending_record i t r payload) ->
     (exists v, active_view i' = Some v /\ gv_target v = t /\ gv_record_count v = length (active_contents i') /\
        gv_generation_identity v = generation_hash t (fst <$> active_contents i')) /\
     generation_exact i t (active_contents i')) /\
  ((forall r payload, ~ pending_record i t r payload) ->
     active_view i' = active_view i /\ active_contents i' = active_contents i).

Lemma StronglySorted_lookup {A} (R : A -> A -> Prop) l j k x y :
  StronglySorted R l -> (j < k)%nat -> l !! j = Some x -> l !! k = Some y -> R x y.
Proof.
  intros H. revert j k. induction H as [|z l Hl IH Hz]; intros j k Hjk Hx Hy; [done|]. destruct k as [|k]; [lia|].
  destruct j as [|j]; simplify_eq/=; [by apply (Forall_lookup_1 _ _ _ _ Hz Hy)|]. apply (IH j k); [lia|done..].
Qed.

Lemma StronglySorted_of_lookup {A} (R : A -> A -> Prop) (l : list A) :
  (forall j k x y, (j < k)%nat -> l !! j = Some x -> l !! k = Some y -> R x y) -> StronglySorted R l.
Proof.
  induction l as [|z l IH]; intros H; constructor.
  - apply IH. intros j k x y Hjk Hx Hy. apply (H (S j) (S k)); [lia|done..].
  - apply Forall_lookup_2. intros k y Hy. apply (H 0%nat (S k)); [lia|done..].
Qed.

Lemma StronglySorted_filter {A} (R : A -> A -> Prop) (P : A -> Prop) `{!forall x, Decision (P x)} l :
  StronglySorted R l -> StronglySorted R (filter P l).
Proof.
  induction 1 as [|z l Hl IH Hz]; [constructor|]. rewrite filter_cons. case_decide; [|done]. constructor; [done|].
  apply Forall_lookup_2. intros k y Hy%list_elem_of_lookup_2. apply list_elem_of_filter in Hy as [_ Hy].
  apply list_elem_of_lookup in Hy as (n & Hn). by apply (Forall_lookup_1 _ _ _ _ Hz Hn).
Qed.

Section Exact.
Context (t : LiveControlBoundaryTarget) (i0 i : Impl).
Context (Hbox0 : boxes_inv i0) (Hscan : scan_state t i0 (slot_positions i0) i)
        (Hslots : forall p, lookup_slot i p = scanned t i0 <$> lookup_slot i0 p).

Local Abbreviation sorted := (std_sort candidate_less (omap (candidate_at t i0) (slot_positions i0))).
Local Abbreviation cands := (mark_survivors i sorted).

(** A candidate and the pending record it stands for. *)
Definition stands_for (c : Candidate) (r : LiveControlUpdateRecord) (payload : list Z) : Prop :=
  candidate_contents i c = (r, payload) /\ pending_record i0 t r payload /\
  cd_mailbox_identity c = lu_mailbox_identity r /\ cd_mailbox_sequence c = lu_mailbox_sequence r /\
  update_kind_valid (lu_update_kind r) = true /\ candidate_kind i c = Z.to_nat (lu_update_kind r - 1) /\
  Z.of_nat (length payload) = lu_payload_bytes r /\ live_control_payload_digest payload = lu_payload_digest r.

Lemma length_slot_payload m k s :
  mailbox_inv m -> mb_slots m !! k = Some s -> cs_state s <> slot_free ->
  Z.of_nat (length (slot_payload m k (Z.to_nat (lu_payload_bytes (cs_record s))))) = lu_payload_bytes (cs_record s).
Proof.
  intros Hm Hs Hst. destruct (inv_records m Hm k s Hs Hst) as (_ & _ & _ & _ & Hb & _).
  pose proof (lookup_lt_Some _ _ _ Hs) as Hk. rewrite (inv_slots m Hm) in Hk. unfold slot_payload.
  rewrite length_take, length_drop, (inv_storage m Hm). nia.
Qed.

Lemma candidate_stands c : c ∈ sorted -> exists r payload, stands_for c r payload.
Proof.
  intros Hc. destruct (candidate_mailbox t i0 i Hbox0 Hscan Hslots c Hc) as (m & s & Hm & Hs & Hst & Hcur & Hcc & Hid & Hseq).
  pose proof (boxes_inv_lookup _ _ _ Hbox0 Hm) as Hinv.
  destruct (inv_records m Hinv _ s Hs ltac:(congruence)) as (R1 & _ & _ & R4 & _ & _ & _ & R8).
  exists (cs_record s), (slot_payload m (cd_slot_index c) (Z.to_nat (lu_payload_bytes (cs_record s)))).
  unfold stands_for. split_and!; try done; [|congruence| |].
  - by exists (cd_mailbox_index c), (cd_slot_index c), m, s.
  - unfold candidate_kind. unfold candidate_contents in Hcc. by injection Hcc as -> _.
  - apply length_slot_payload; [done|done|congruence].
Qed.

Lemma pending_candidate r payload : pending_record i0 t r payload -> exists c, c ∈ sorted /\ candidate_contents i c = (r, payload).
Proof.
  intros (a & k & m & s & Hm & Hs & Hst & Hcur & -> & ->).
  assert (Hls : lookup_slot i0 (a, k) = Some s) by (apply lookup_slot_Some; eauto).
  assert (Hc : candidate_of i0 (a, k) s ∈ sorted).
  { rewrite std_sort_perm. apply (found_candidate t i0 Hbox0). by exists a, k, s. }
  exists (candidate_of i0 (a, k) s). split; [done|].
  destruct (candidate_mailbox t i0 i Hbox0 Hscan Hslots _ Hc) as (m' & s' & Hm' & Hs' & _ & _ & -> & _). simpl in *.
  rewrite Hm in Hm'. injection Hm' as <-. rewrite Hs in Hs'. by injection Hs' as <-.
Qed.

Lemma stands_rivals c d r r' payload payload' :
  stands_for c r payload -> stands_for d r' payload' ->
  rivals i c d <-> lu_mailbox_identity r' = lu_mailbox_identity r /\ lu_update_kind r' = lu_update_kind r.
Proof.
  intros (_ & _ & I1 & _ & V1 & K1 & _) (_ & _ & I2 & _ & V2 & K2 & _). unfold rivals. rewrite I1, I2, K1, K2.
  unfold update_kind_valid, update_scenario_parameters, update_clear_fault in *. lia.
Qed.

Lemma survivors_iff c : c ∈ survivors cands <-> c ∈ sorted /\ survives i sorted c.
Proof. apply (elem_of_survivors i sorted (sorted_strict t i0 Hbox0) (found_kind t i0 i Hbox0 Hslots) (found_fresh t i0 Hbox0)). Qed.

Lemma survivors_before j k c d :
  (j < k)%nat -> survivors cands !! j = Some c -> survivors cands !! k = Some d -> candidate_less c d = true.
Proof.
  apply (StronglySorted_lookup (fun c d => candidate_less c d = true)). apply StronglySorted_filter, StronglySorted_of_lookup.
  intros n l x y Hl Hx Hy.
  rewrite (mark_survivors_lookup i sorted (sorted_strict t i0 Hbox0) (found_kind t i0 i Hbox0 Hslots) (found_fresh t i0 Hbox0)) in Hx, Hy.
  apply fmap_Some in Hx as (x0 & Hx0 & ->). apply fmap_Some in Hy as (y0 & Hy0 & ->).
  change (candidate_less x0 y0 = true). by apply (sorted_strict t i0 Hbox0 n l).
Qed.

Lemma survivors_exact : generation_exact i0 t (candidate_contents i <$> survivors cands).
Proof.
  split_and!.
  - intros r payload. rewrite list_elem_of_fmap. split.
    + intros (c & Hc & [Hin Hs]%survivors_iff). destruct (candidate_stands c Hin) as (r0 & p0 & Hst). pose proof Hst as (Hcc & Hp & _ & Hq & _).
      rewrite Hcc in Hc. injection Hc as -> ->. split; [done|]. intros r' p' (d & Hd & Hdc)%pending_candidate Hi Hk.
      destruct (candidate_stands d Hd) as (r1 & p1 & Hst'). pose proof Hst' as (Hdc' & _ & _ & Hq' & _). rewrite Hdc in Hdc'. injection Hdc' as <- <-.
      rewrite <- Hq, <- Hq'. apply Hs; [done|]. by apply (stands_rivals _ _ _ _ _ _ Hst Hst').
    + intros [Hp Hmax]. destruct (pending_candidate r payload Hp) as (c & Hc & Hcc). exists c. split; [done|].
      apply survivors_iff. split; [done|]. intros d Hd Hriv.
      destruct (candidate_stands c Hc) as (r0 & p0 & Hst). destruct (candidate_stands d Hd) as (r1 & p1 & Hst').
      pose proof (proj1 (stands_rivals _ _ _ _ _ _ Hst Hst') Hriv) as [Hi Hk].
      destruct Hst as (Hcc' & _ & _ & -> & _). rewrite Hcc in Hcc'. injection Hcc' as <- <-. destruct Hst' as (_ & Hp' & _ & -> & _). eauto.
  - intros j k c d Hjk Hc Hd. rewrite list_lookup_fmap in Hc, Hd. apply fmap_Some in Hc as (c0 & Hc0 & ->). apply fmap_Some in Hd as (d0 & Hd0 & ->).
    pose proof (survivors_before j k c0 d0 Hjk Hc0 Hd0) as Hless.
    destruct (candidate_stands c0) as (r & p & (-> & _ & I1 & Q1 & _)); [by apply survivors_iff; eapply list_elem_of_lookup_2|].
    destruct (candidate_stands d0) as (r' & p' & (-> & _ & I2 & Q2 & _)); [by apply survivors_iff; eapply list_elem_of_lookup_2|].
    unfold candidate_less in Hless. rewrite I1, I2, Q1, Q2 in Hless. unfold record_before. simpl.
    destruct (Z.eqb_spec (lu_mailbox_identity r) (lu_mailbox_identity r')); simpl in Hless; lia.
  - intros r payload (c & Hc & [Hin _]%survivors_iff)%list_elem_of_fmap.
    destruct (candidate_stands c Hin) as (r0 & p0 & (Hcc & _ & _ & _ & _ & _ & Hl & Hd)). rewrite Hcc in Hc. by injection Hc as -> ->.
Qed.

Lemma found_pending : omap (candidate_at t i0) (slot_positions i0) <> [] <-> exists r payload, pending_record i0 t r payload.
Proof.
  split.
  - destruct (omap _ _) as [|c l] eqn:E; [done|]. intros _.
    destruct (candidate_stands c) as (r & p & (_ & Hp & _)); [rewrite E, std_sort_perm; by left|]. eauto.
  - intros (r & p & (c & Hc & _)%pending_candidate) Hnil. rewrite Hnil in Hc. by apply elem_of_nil in Hc.
Qed.
End Exact.

Lemma close_boundary_exact i t : boxes_inv i -> gens_inv i -> boundary_exact i t (close_boundary i t).
Proof.
  intros Hb Hg. destruct (close_boundary_result i t Hb Hg) as (i1 & Hst & Hsl & Hg1 & Hnil & Hsome). cbn zeta in *.
  set (i0 := bump_inspection i) in *. pose proof (found_pending t i0 i1 Hb Hst Hsl) as Hfp. split.
  - intros Hp. apply Hfp in Hp. destruct (Hsome Hp) as (i2 & Hk & -> & Hfit). set (cands := mark_survivors i1 _) in *.
    destruct (build_generation_spec t cands i1 Hg1 Hfit) as (Hc & _ & Ht & Hid & Hn).
    destruct Hk as [_ K2 K3 K4 _ _ _].
    assert (Hact : im_generations i2 !!! im_active_generation i2 = build_generation i1 t cands).
    { rewrite K2, K3. apply active_view_set. rewrite (gens_count i1 Hg1). apply other_generation_lt. }
    set (i' := bump_inspection _).
    assert (Hhas : im_has_generation i' = true) by (change (im_has_generation i2 = true); by rewrite K4).
    assert (Hcont : active_contents i' = candidate_contents i1 <$> survivors cands).
    { unfold active_contents. rewrite Hhas. change (generation_contents (im_generations i2 !!! im_active_generation i2) = candidate_contents i1 <$> survivors cands).
      by rewrite Hact. }
    rewrite Hcont. split; [|by apply (survivors_exact t i0 i1 Hb Hst Hsl)].
    exists (gn_view (build_generation i1 t cands)). split_and!; [|done|by rewrite length_fmap|done].
    unfold active_view. rewrite Hhas. change (Some (gn_view (im_generations i2 !!! im_active_generation i2)) = Some (gn_view (build_generation i1 t cands))).
    by rewrite Hact.
  - intros Hp. apply active_contents_keeps, Hnil. destruct (omap _ _) eqn:E; [done|].
    destruct (proj1 Hfp ltac:(done)) as (r & p & H). by destruct (Hp r p).
Qed.



(** * Live control: what a step transaction settles

    A failed step puts the generation of its entry back and rolls its records back; a
    successful one keeps what its boundaries published. *)

Open Scope Z_scope.
Local Open Scope rtfw_scope.

(** ** The step entry inside a transaction *)

Definition settles (o : Operation) : bool := match o with op_settle _ => true | _ => false end.

Definition entry_of (i : Impl) := step_entry <$> im_closure i.

Lemma close_boundary_entry i t : boxes_inv i -> gens_inv i -> entry_of (close_boundary i t) = entry_of i.
Proof.
  intros Hb Hg. destruct (close_boundary_result i t Hb Hg) as (i1 & Hst & _ & _ & Hnil & Hsome). cbn zeta in *.
  destruct (omap _ _) as [|x l] eqn:Hf; [by apply kept_closure, Hnil|]. rewrite <- Hf in *.
  destruct Hsome as (i2 & Hk & -> & _); [by rewrite Hf|]. unfold entry_of. apply kept_closure in Hk.
  change (step_entry <$> im_closure i2 = step_entry <$> im_closure i). rewrite Hk.
  apply keeps_scan, kept_closure in Hst. exact Hst.
Qed.

Lemma perform_entry i o c :
  control_inv i -> gens_inv i -> im_closure i = Some c -> cl_transaction_active c = true -> settles o = false ->
  entry_of (perform i o) = entry_of i.
Proof.
  intros [Hb _] Hg Hc Ha Hs. pose proof (base_boxes i Hb) as Hbox. destruct o; simpl in *; try done.
  - apply kept_closure. unfold stage_live_control_update. pose proof (keeps_stage i h u payload) as Hk.
    destruct (stage i h u payload) as [i' r]. cbn [fst] in *. etransitivity; [exact Hk|]. apply keeps_same. symmetry. apply record_admission_log.
  - unfold begin_step_transaction. by rewrite Hc, Ha, orb_true_r.
  - unfold close_host_frame. destruct (negb _); [done|]. destruct (_ && _); [done|].
    rewrite close_boundary_entry; [done|done|]. eapply gens_inv_keeps; [apply set_host_boundary_keeps|done].
  - unfold close_rate_release. destruct (im_rate_targets i !! reference) as [current|]; [|done].
    destruct (negb _); [done|]. destruct (rt_closed current); [done|].
    rewrite close_boundary_entry; [done|done|]. eapply gens_inv_keeps; [|exact Hg]. by constructor.
  - unfold expire_rate_releases_before. destruct (negb _); [done|]. destruct (existsb _ _); [|done].
    rewrite close_boundary_entry; [done|done|]. eapply gens_inv_keeps; [|exact Hg]. by constructor.
  - apply kept_closure, keeps_claim.
  - apply kept_closure, keeps_release.
  - apply kept_closure, keeps_close_admission.
  - apply kept_closure, keeps_foldl, keeps_stop_slot.
  - apply kept_closure, keeps_same. symmetry. apply record_checkpoint_log.
  - apply kept_closure, keeps_same. symmetry. apply record_replay_verified_log.
Qed.

Lemma runs_entry l i e :
  reachable i -> entry_of i = Some (e, true) -> runs i l -> forallb (fun o => negb (settles o)) l = true ->
  entry_of (foldl perform i l) = Some (e, true).
Proof.
  revert i. induction l as [|o l IH]; intros i Hr He; simpl; [done|]. intros [Hen Hl] [Hs%negb_true_iff Hf]%andb_true_iff.
  apply IH; [by apply reach_step| |done|done]. destruct (im_closure i) as [c|] eqn:Hc; [|by unfold entry_of in He; rewrite Hc in He].
  rewrite (perform_entry i o c); [done|by apply control_reachable|by apply reachable_gens|done| |done].
  unfold entry_of in He. rewrite Hc in He. unfold step_entry in He. simpl in He. by injection He.
Qed.

(** The entry that a successful [begin_step_transaction] records. *)
Lemma begin_entry i i1 :
  gens_inv i -> is_Some (im_closure i) -> begin_step_transaction i = (i1, true) ->
  exists c, im_closure i1 = Some c /\ cl_transaction_active c = true /\
    (if cl_rollback_has_generation c then Some (gn_view (cl_rollback_generation c)) else None) = active_view i /\
    (if cl_rollback_has_generation c then generation_contents (cl_rollback_generation c) else []) = active_contents i.
Proof.
  intros Hi [c Hc]. unfold begin_step_transaction. rewrite Hc. destruct (_ || _); [done|]. intros [= <-].
  cbn [im_closure set_im_closure]. eexists. split; [done|]. pose proof (gens_rollback i Hi c Hc) as [Hsz _].
  unfold active_view, active_contents. destruct (im_has_generation i) eqn:Hh; [|done].
  destruct (gens_view i Hi Hh) as [Hfit _]. destruct (copy_generation_spec _ _ _ _ Hsz Hfit) as (Hcont & Hv & _).
  split_and!; [done|by rewrite <- Hv|exact Hcont].
Qed.

(** ** Settling the records *)

Definition settled_state (status : Status) (survivor : bool) : SlotState :=
  if decide (status = ok) then if survivor then slot_committed else slot_replaced else slot_rolled_back.

Lemma settle_provisional_lookup status i v p :
  lookup_slot (settle_provisional status i v) p =
    (if decide (p = provisional_position v)
     then (fun s => mkControlSlot (settled_state status (pv_survivor v)) (pv_generation_identity v) (cs_record s)) <$> lookup_slot i p
     else lookup_slot i p).
Proof.
  assert (Hst : fst (fst (fst (fst (settlement (bool_decide (status = ok)) (pv_survivor v))))) = settled_state status (pv_survivor v)).
  { unfold settled_state. case_decide; [rewrite bool_decide_true by done|rewrite bool_decide_false by done]; by destruct (pv_survivor v). }
  unfold settle_provisional. destruct (settlement _ _) as [[[[state ?] ?] ?] ?]. cbn [fst] in Hst. subst state.
  erewrite lookup_slot_same by (apply update_closure_log; intros c; apply closure_core_emit_settled).
  rewrite (lookup_slot_quiet _ _ vacate) by done. unfold provisional_position.
  assert (E : forall j, lookup_slot (count_settled (bool_decide (status = ok)) (pv_survivor v) j) p = lookup_slot j p).
  { intros j. unfold lookup_slot. by rewrite (proj1 (count_settled_fields _ _ j)). }
  rewrite E. unfold update_control_slot.
  erewrite lookup_slot_touch; [done|]. done.
Qed.

Lemma settle_provisionals_other status l i p :
  p ∉ provisional_position <$> l -> lookup_slot (foldl (settle_provisional status) i l) p = lookup_slot i p.
Proof.
  revert i. induction l as [|v l IH]; intros i Hp; [done|]. simpl. rewrite IH by set_solver.
  rewrite settle_provisional_lookup, decide_False; [done|]. set_solver.
Qed.

Lemma settle_provisionals_lookup status l i v :
  NoDup (provisional_position <$> l) -> v ∈ l ->
  lookup_slot (foldl (settle_provisional status) i l) (provisional_position v) =
    (fun s => mkControlSlot (settled_state status (pv_survivor v)) (pv_generation_identity v) (cs_record s)) <$>
      lookup_slot i (provisional_position v).
Proof.
  revert i. induction l as [|w l IH]; intros i Hn Hv; [by apply elem_of_nil in Hv|]. simpl in Hn.
  apply list.NoDup_cons in Hn as [Hw Hn]. simpl. apply elem_of_cons in Hv as [->|Hv].
  - rewrite settle_provisionals_other by done. by rewrite settle_provisional_lookup, decide_True.
  - rewrite IH by done. rewrite settle_provisional_lookup, decide_False; [done|]. intros E. apply Hw. rewrite <- E. by apply list_elem_of_fmap_2.
Qed.

(** The slots after a settlement, in terms of the provisional records. *)
Lemma settle_slots i c status :
  control_inv i -> im_closure i = Some c -> cl_transaction_active c = true ->
  (forall v, v ∈ cl_provisional_records c -> exists r : LiveControlUpdateRecord, owned_at i (provisional_position v) /\
     lookup_slot (settle_step_transaction i status) (provisional_position v) =
       Some (mkControlSlot (settled_state status (pv_survivor v)) (pv_generation_identity v) r) /\
     cs_record <$> lookup_slot i (provisional_position v) = Some r) /\
  (forall p, ~ owned_at i p -> lookup_slot (settle_step_transaction i status) p = lookup_slot i p) /\
  (forall p, ~ owned_at (settle_step_transaction i status) p).
Proof.
  intros [_ Ho] Hc Ha. unfold control_owned in Ho. rewrite Hc in Ho. destruct Ho as [[Hn Hown] _].
  unfold settle_step_transaction. rewrite Hc, Ha. cbn [negb].
  match goal with |- context [foldl _ ?j _] => set (i1 := j) end.
  assert (E : forall p, lookup_slot i1 p = lookup_slot i p).
  { intros p. unfold i1. case_decide; [done|]. unfold lookup_slot. by rewrite (proj1 (restore_generation_fields i c)). }
  assert (F : forall f j p, lookup_slot (update_closure f j) p = lookup_slot j p) by done. split_and!.
  - intros v Hv. pose proof (list_elem_of_fmap_2 provisional_position _ _ Hv) as Hp. apply Hown in Hp. pose proof Hp as (s & Hs & _).
    exists (cs_record s). split_and!; [done| |by rewrite Hs]. rewrite F, settle_provisionals_lookup by done. by rewrite E, Hs.
  - intros p Hp. rewrite F, settle_provisionals_other, E; [done|]. intros Hin. by apply Hp, Hown.
  - intros p (s & Hs & Hst). rewrite F in Hs. destruct (decide (p ∈ provisional_position <$> cl_provisional_records c)) as [Hp|Hp].
    + apply list_elem_of_fmap in Hp as (v & -> & Hv). rewrite settle_provisionals_lookup in Hs by done.
      apply fmap_Some in Hs as (s0 & _ & ->). simpl in Hst. unfold settled_state in Hst. by repeat case_match.
    + rewrite settle_provisionals_other, E in Hs by done. apply Hp, Hown. by exists s.
Qed.

Lemma settle_views i c status :
  gens_inv i -> im_closure i = Some c -> cl_transaction_active c = true ->
  let i' := settle_step_transaction i status in
  if decide (status = ok) then active_view i' = active_view i /\ active_contents i' = active_contents i /\ latest i' = latest i
  else active_view i' = (if cl_rollback_has_generation c then Some (gn_view (cl_rollback_generation c)) else None) /\
       active_contents i' = (if cl_rollback_has_generation c then generation_contents (cl_rollback_generation c) else []).
Proof.
  intros Hg Hc Ha i'. set (i1 := if decide (status = ok) then i else restore_generation i c).
  assert (Hi' : i' = update_closure (finish_transaction status) (foldl (settle_provisional status) i1 (cl_provisional_records c))).
  { unfold i', settle_step_transaction. by rewrite Hc, Ha. }
  clearbody i'. subst i'. set (i' := update_closure _ _).
  assert (Hk : keeps i1 (foldl (settle_provisional status) i1 (cl_provisional_records c))).
  { apply keeps_foldl. intros. apply keeps_settle_provisional. }
  assert (E : active_view i' = active_view i1 /\ active_contents i' = active_contents i1 /\ latest i' = latest i1).
  { destruct (active_contents_keeps _ _ Hk) as [E1 E2]. split_and!; [exact E1|exact E2|]. exact (kept_latest _ _ Hk). }
  destruct E as (-> & -> & ->). unfold i1. case_decide; [done|].
  destruct (restore_gens i c Hg Hc Ha) as (_ & _ & Hv & Hcont). split; [done|]. unfold active_contents.
  assert (Hh : im_has_generation (restore_generation i c) = cl_rollback_has_generation c).
  { unfold restore_generation. by destruct (cl_rollback_has_generation c). }
  rewrite Hh. destruct (cl_rollback_has_generation c); [by apply Hcont|done].
Qed.

(** C12. Whatever sequence of admissions, boundaries, expirations and stops runs inside a
    step transaction, a step that fails leaves the active generation, its records with
    their payloads and the latest commit exactly as they were when the step began, and a
    step that succeeds keeps what its last boundary published.  Every record the step took
    ends committed or replaced (success) or rolled back (failure) with its content, no
    other slot changes, and no record stays owned. *)
Theorem live_control_transaction (i i1 : Impl) (ops : list Operation) (status : Status) :
  reachable i -> is_Some (im_closure i) -> begin_step_transaction i = (i1, true) ->
  runs i1 ops -> forallb (fun o => negb (settles o)) ops = true ->
  let i2 := foldl perform i1 ops in let i3 := settle_step_transaction i2 status in
  (let before := if decide (status = ok) then i2 else i in
   active_view i3 = active_view before /\ active_contents i3 = active_contents before /\ latest i3 = latest before) /\
  (exists c, im_closure i2 = Some c /\ cl_transaction_active c = true /\
     forall v, v ∈ cl_provisional_records c -> exists r,
       cs_record <$> lookup_slot i2 (provisional_position v) = Some r /\
       lookup_slot i3 (provisional_position v) =
         Some (mkControlSlot (settled_state status (pv_survivor v)) (pv_generation_identity v) r)) /\
  (forall p, ~ owned_at i2 p -> lookup_slot i3 p = lookup_slot i2 p) /\ (forall p, ~ owned_at i3 p).
Proof.
  intros Hr Hcl Hb Hrun Hset i2 i3. destruct (begin_entry i i1 (reachable_gens i Hr) Hcl Hb) as (c1 & Hc1 & Ha1 & Hv1 & Hw1).
  assert (Hr1 : reachable i1). { replace i1 with (perform i op_begin) by (simpl; by rewrite Hb). by apply reach_step. }
  pose proof (runs_reachable i1 ops Hr1 Hrun) as Hr2. fold i2 in Hr2.
  assert (He : entry_of i2 = Some (step_entry c1)).
  { unfold step_entry. rewrite Ha1. apply runs_entry; [done| |done|done]. unfold entry_of, step_entry. rewrite Hc1. simpl. by rewrite Ha1. }
  unfold entry_of in He. destruct (im_closure i2) as [c|] eqn:Hc; [|done]. injection He as E1 E2 E3 E4 E5 E6. rewrite Ha1 in E6.
  destruct (settle_slots i2 c status (control_reachable i2 Hr2) Hc E6) as (Hin & Hout & Hnone).
  pose proof (settle_views i2 c status (reachable_gens i2 Hr2) Hc E6) as Hview. fold i3 in Hin, Hout, Hnone, Hview.
  pose proof (reach_step i2 (op_settle status) Hr2 I) as Hr3. change (perform i2 (op_settle status)) with i3 in Hr3. split_and!.
  - cbn zeta in *. case_decide; [done|]. rewrite E1, E2, Hv1, Hw1 in Hview. destruct Hview as [Hv Hw]. split_and!; [done|done|].
    by rewrite (gens_latest i3 (reachable_gens i3 Hr3)), (gens_latest i (reachable_gens i Hr)), Hv.
  - exists c. split_and!; [done|done|]. intros v Hv. destruct (Hin v Hv) as (r & _ & H1 & H2). by exists r.
  - done.
  - done.
Qed.

(** The step that closes frame 4 fails: the generation of frame 3 is active again. *)
Lemma live_control_transaction_witness :
  let i1 := fst (begin_step_transaction sample_state) in
  let i2 := foldl perform i1 [op_close_host 4] in
  let i3 := settle_step_transaction i2 callback_failed in
  snd <$> active_contents i2 = [[9]; [3; 4; 5]] /\ snd <$> active_contents i3 = [[7]] /\
  active_contents i3 = active_contents sample_state.
Proof.
  intros i1 i2 i3. split_and!; [vm_compute; reflexivity..|].
  assert (H1 : is_Some (im_closure sample_state)) by (vm_compute; eauto).
  assert (H2 : begin_step_transaction sample_state = (i1, true)) by (vm_compute; reflexivity).
  assert (H3 : runs i1 [op_close_host 4]) by (apply (bool_decide_unpack _); vm_compute; exact I).
  destruct (live_control_transaction sample_state i1 [op_close_host 4] callback_failed sample_reachable H1 H2 H3 eq_refl)
    as ((_ & H & _) & _). rewrite decide_False in H by done. exact H.
Defined.
